(* ===== verification/_CoqProject ===== *)
-Q . S2P
Prelude.v
StdHeap.v
EventQueue.v
EventRefinement.v
IoStream.v
Gadia.v
MatrixBench.v
MatrixThreads.v
TreeBench.v
NetDest.v
Topology.v
RoutingTables.v
Common.v
MessageBuffer.v
Flit.v
Network.v
RoutingUnit.v
PortUnits.v
Router.v
SwitchAllocation.v
Crossbar.v
NetworkInterface.v
Ejection.v
Injection.v
OutputLink.v
GarnetNetwork.v
TableRouting.v
SimpleNetwork.v
SwitchRouting.v
BufferStore.v
SwitchForward.v
ThrottleProofs.v
SimpleRouting.v
IntMath.v
Replacement.v
Victims.v
TreePLRU.v
BankedArray.v
CacheMemory.v
CacheProofs.v
CacheTheorems.v
LruCache.v
DataBlock.v
Sequencer.v
SequencerProofs.v
SequencerLocks.v
SequencerProgress.v
WireBuffer.v
TraceRefinement.v
TimerTable.v
NetDestQueries.v
PersistentTable.v
TBETable.v
AddrRange.v
DirectoryMemory.v
RubyPrefetcher.v
PrefetchTraining.v
DmaSequencer.v
FunctionalAccess.v
ControllerQueues.v
GarnetFunctional.v
AddrRangeMap.v
CacheRecorder.v
RubyCheckpoint.v
