(* ===== verification/Prelude.v ===== *)
(** * Chiplet-Gem5-SharedMemory: a verification library

    The repository simulates systems of several chiplets: one gem5 process per
    chiplet, a file-backed channel between the processes, and inside each
    process gem5's Ruby memory system with one of two interconnects, the
    detailed Garnet network or the simple network.  This library models in Rocq
    the channel and the benchmarks that use it, both interconnects, the event
    queue that drives the simulation, and the Ruby components around the
    coherence protocol (sequencers, caches, directory, tables, prefetcher),
    definition by definition from the C++ sources under [gem5/src] and
    [benchmark], and proves what makes them correct.

    ** The system and the files

    A processor hands requests to a sequencer, a device to a DMA sequencer; the
    coherence controllers, generated from protocol descriptions, answer them.
    A controller keeps its lines in a cache memory, which asks a replacement
    policy for victims, a memory controller in a directory; timers, persistent
    requests and transactions are kept in tables.  Controllers exchange messages
    through message buffers.  In Garnet the network interface of a node cuts
    messages into flits and sends them under credit flow control to a router;
    routers look up the output port, allocate a virtual channel and the switch,
    and pass flits on over links; the interface of the destination puts the
    message into a buffer the protocol reads.  In the simple network switches
    copy whole messages to output buffers and throttles limit the bandwidth.
    At start-up the topology computes shortest paths and connects either
    network.  Every component is woken by events of the event queue.  Beside
    that, programs on different chiplets exchange words with the pseudo
    instructions [gadia_call] and [gadia_receive].

    Foundations:
    - [Prelude.v]: errors as values ([res]), machine integers, vectors with
      checked access, loops, record update, tactics and hints.
    - [StdHeap.v]: [std::push_heap] / [std::pop_heap] as libstdc++ computes
      them, with which message and flit buffers are ordered.
    - [IntMath.v]: [base/intmath.hh] and the bit searches of
      [base/bitfield.hh].
    - [Common.v]: line addresses ([common/Address.cc]), clocks
      ([sim/clocked_object.hh]), wake-ups ([common/Consumer.{hh,cc}]).
    - [EventQueue.v]: [sim/eventq.{hh,cc}], [sim/eventq_impl.hh],
      [base/flags.hh], the linked bins with their pointers in a store;
      [EventRefinement.v] proves them against an abstract queue of sorted bins.
    - [TraceRefinement.v]: the class [Refines], what it means that an object
      with fallible operations implements a specification.

    Channel and benchmarks of the fork:
    - [IoStream.v], [Gadia.v]: [sim/pseudo_inst.cc], [gadia_call] and
      [gadia_receive]; the text file is bytes, printed and parsed as
      [iostream] does.
    - [MatrixBench.v], [MatrixThreads.v]: [benchmark/matrix/test01.cpp] as the
      interleaving of its threads.
    - [TreeBench.v]: [benchmark/treeSearching/test01.cpp], its functions run
      one at a time.

    Networks:
    - [NetDest.v], [NetDestQueries.v]: [ruby/common/Set.hh],
      [NetDest.{hh,cc}], destination sets.
    - [Topology.v]: [ruby/network/Topology.{hh,cc}]; [RoutingTables.v] proves
      its result.
    - [MessageBuffer.v]: [slicc_interface/Message.hh],
      [network/MessageBuffer.{hh,cc}].
    - [Network.v]: [network/Network.cc], with the data of [base/addr_range.hh].
    - [Flit.v]: [garnet2.0/flit], [Credit], [flitBuffer].
    - [RoutingUnit.v]: [garnet2.0/RoutingUnit].
    - [PortUnits.v]: [garnet2.0/VirtualChannel], [OutVcState], [NetworkLink],
      [InputUnit], [OutputUnit].
    - [Router.v]: [garnet2.0/Router], [SwitchAllocator], [CrossbarSwitch];
      [SwitchAllocation.v] and [Crossbar.v] prove the two stages of a cycle.
    - [NetworkInterface.v]: [garnet2.0/NetworkInterface]; [Injection.v],
      [OutputLink.v] and [Ejection.v] prove its three tasks.
    - [GarnetNetwork.v]: [garnet2.0/GarnetNetwork], the assembly;
      [TableRouting.v] proves that packets arrive in it;
      [GarnetFunctional.v] models [functionalWrite] of all its parts.
    - [SimpleNetwork.v]: [network/simple]; [SwitchRouting.v], [BufferStore.v]
      and [SwitchForward.v] prove the wake-up of a switch, [ThrottleProofs.v]
      that of a throttle, [SimpleRouting.v] that messages arrive.

    Ruby components:
    - [Replacement.v]: [mem/cache/replacement_policies] (all but Tree-PLRU) and
      [base/sat_counter.hh], with the classes [BaseReplacementPolicy] (the C++
      interface) and [ReplacementLaws] (what a cache relies on); [Victims.v]
      proves the laws for every policy; [TreePLRU.v] models Tree-PLRU, whose
      entries share a tree, and proves its laws.
    - [BankedArray.v], [CacheMemory.v]: [ruby/structures/BankedArray],
      [CacheMemory], [slicc_interface/AbstractCacheEntry]; [CacheProofs.v]
      proves the operations against [ReplacementLaws], [CacheTheorems.v] the
      refinement of a bounded map, [LruCache.v] the cache with LRU.
    - [DataBlock.v]: [ruby/common/DataBlock], [WriteMask].
    - [Sequencer.v]: [ruby/system/Sequencer], which reaches the data cache
      through the class [LineLocks]; [SequencerProofs.v] proves the
      bookkeeping, [SequencerLocks.v] the load-linked monitor against
      [LineLocksLaws] (discharged for [CacheMemory]), [SequencerProgress.v]
      that the callbacks return.
    - [DmaSequencer.v]: [ruby/system/DMASequencer].
    - [WireBuffer.v], [TimerTable.v], [PersistentTable.v], [TBETable.v]: the
      files of those names in [ruby/structures], and [PerfectCacheMemory.hh].
    - [AddrRange.v], [AddrRangeMap.v]: [base/addr_range.hh],
      [base/addr_range_map.hh]; [DirectoryMemory.v]:
      [ruby/structures/DirectoryMemory].
    - [RubyPrefetcher.v]: [ruby/structures/RubyPrefetcher];
      [PrefetchTraining.v] proves how it is trained.
    - [FunctionalAccess.v]: [functionalRead] and [functionalWrite] of
      [ruby/system/RubySystem.cc] over the class [AbstractController], whose
      laws [ControllerLaws] the theorem is proved against, and the accesses to
      one block ([slicc_interface/RubySlicc_Util.hh], [RubyRequest.cc],
      [common/SubBlock]).
    - [ControllerQueues.v]: the waiting buffers and blocked lines of
      [slicc_interface/AbstractController].
    - [CacheRecorder.v]: [ruby/system/CacheRecorder], warm-up traces;
      [RubyCheckpoint.v]: the write-back, saving and restoring of caches in
      [ruby/system/RubySystem.{hh,cc}], with the loop of [sim/simulate.cc].

    ** How code is represented

    An object is a record with the source's fields, a method a function that
    takes the objects it touches and returns them; what it asks of others (a
    wake-up, a callback, a request) is returned as a list of events.  [assert],
    [panic], [fatal], an access outside a vector, a read of an indeterminate
    value and an exception are different values of [err].  Integers are [Z];
    where the C++ type can wrap, [u32], [u64] and [i32] write it out.  Objects
    that the code shares and mutates through pointers (events, cache entries,
    replacement data, PLRU trees, the buffers of the simple network and of a
    controller) live in a store, and a pointer is a key of it.

    A loop that leaves early is [foldM_brk], any other counted loop is
    [foldM].  Other loops have fuel:
    - the [while (change)] loop of the topology: the sum of the initial weights
      plus one; [Topology.extend_loop_total] shows that this is enough because
      every pass but the last lowers the sum;
    - the reading loop of [gadia_receive]: the length of the rest of the file,
      every iteration consumes at least one byte;
    - the loops over the linked lists of the event queue: the size of the
      store, which a well-formed (acyclic) queue never exhausts;
    - the second-chance loop: the number of replacement data objects plus one,
      every iteration but the last takes one second chance away; a path in a
      PLRU tree has at most 64 nodes above a 64-bit index, and the descent
      visits each node at most once;
    - the depth-first search of the tree benchmark: the number of vertices plus
      two, every vertex enters the stack once; the scan of the queue: what is
      left of it;
    - the loops of a switch and of a throttle over an input buffer: the length
      of the buffer (one more for a throttle, which may first finish a message),
      every other iteration takes a message out;
    - the loops of the sequencer's callbacks: the requests waiting for the line
      and those made meanwhile ([SequencerProgress.callbacks_complete]);
    - the callbacks of a DMA transfer answered under its first line
      ([DmaSequencer.dma_drive]): its number of bytes;
    - the loops that empty the event queue: the size of the store.
    The theorems about these operations state that they return, so a bound that
    were too small would refute them.  Only the simulation loop itself
    ([RubyCheckpoint.sim_loop], [EventQueue.service_loop]) need not end: its
    fuel is an argument.

    Code outside the sources is a parameter: the machine types and their
    counts, which the SLICC compiler generates ([counts]); [rand()] and the
    random draws of message buffers; the contents of a message ([payload]) and
    its functional accessors; the time ([cyc], [curTick]); the handlers of events
    ([process]); the draws of [random_mt] ([random], assumed to lie in the
    interval asked for, as [std::uniform_int_distribution] documents);
    [std::sort] where it may order equal elements in any way (a permutation
    that is sorted); the contents of fresh memory; the generated controllers.

    ** What the theorems show

    - Inter-chiplet channel: a core that polls its own file sees exactly the
      messages sent to it, once and in order (a refinement of a queue, and the
      drained queue); records survive printing and parsing; broadcasts are
      lost, and the shared read position makes a second reader skip messages.
    - Benchmarks: under every interleaving of its threads and every spurious
      wake-up the matrix benchmark computes the (transposed) product of its part
      and sends it; its executions are finite, and without spurious wake-ups it
      does not deadlock (one spurious wake-up can make it); but its start-up
      handshake waits for a word nobody sends.  The breadth-first search waits
      for its barrier, reports exactly the component of the root in breadth-first
      order, and returns when the other thread is done.
    - Routing: with link weights below 2^30 the shortest-path loop, whose sums
      are [int] sums, terminates with the minimum over all walks; every link's routing entry holds exactly the machines a least path
      over that link leads to; [init] connects every output port to the link
      its table entry is about; packets that follow the tables arrive whatever
      [rand()] returns, in Garnet and in the simple network; packets that leave
      by the port [outportComputeXY] names arrive in the Manhattan distance.
    - Flow control: over any run of a channel between two routers credits and
      flits in flight balance, so a buffer never overflows; a switch
      allocation cycle fails no assertion, grants each port at most once and
      does for each grant exactly what it should (flit, output VC, credits);
      the crossbar moves exactly the granted flits.
    - Network interface: VC allocation is round-robin and panics exactly at
      the deadlock threshold; a multicast is split without losing or repeating
      a destination; the output link serves the first eligible VC; ejection
      keeps the order of every virtual network.
    - Simple network: a wake-up of a switch loses and duplicates no delivery and
      leaves no ready message without another wake-up; a throttle serves
      exactly its bandwidth while there is work.
    - Message buffers: no message is lost or duplicated, ordered buffers are
      FIFO outside cache warm-up, guarded enqueues respect the capacity, arrival times are exact;
      wire buffers keep the order under stated conditions only.
    - Event queue: every run of schedule, deschedule, reschedule, squash,
      asynchronous insertion and service behaves as a queue of sorted bins;
      events are served in order of time and priority and time never goes
      back; [debugVerify] accepts exactly the queues it should, with one
      exception that is stated.
    - Cache memory: with any policy that satisfies the laws the cache is a map
      from lines to entries with at most [assoc] lines per set, in all reachable
      states tags and ways agree (unless a permission is set to NotPresent), and the replacement cycle works; with LRU the
      victim is a line with the oldest access.  Tree-PLRU evicts the way
      invalidated last and not the half touched last; the second-chance search
      ends; a reserved bank excludes other accesses.
    - Sequencer: requests are completed once each and in order, with one Ruby
      request under way per line; a store-conditional succeeds only if its line
      was not written since the load-linked; callbacks return, and a request
      that cannot be answered is issued again.  A DMA request inside one line is
      transferred exactly; one that crosses a line fails an assertion when the
      controller calls back for its second line.
    - Tables: timer, persistent-request and transaction tables implement finite
      maps, failing assertions included; the directory is a map from lines to
      entries; decoding an address but the largest with a range map is the same
      as trying every range.
    - Prefetcher: prefetches stay in the page of their stream; a sequence of
      misses trains a stream after exactly the configured number.
    - Controllers: every wake-up brings back the stalled messages of the
      buffers that are registered, and all of them unless [wakeUpBuffers] forgot
      a port; a functional read returns what a
      functional write wrote; a functional write reaches every flit of Garnet's
      buffers but not its stall queues.
    - Checkpoints: a restored checkpoint asks for exactly the recorded lines;
      writing the caches back leaves the event queue as it was, but for events
      that delete themselves.
    - Data: destination sets are sets, flit buffers are priority queues,
      packets are framed, addresses split into line and offset, clocks align,
      wake-ups happen once, addresses map to one controller, masked writes
      merge, aligned interleaved ranges are numbered without gaps.

    ** Not modelled

    The coherence protocols are SLICC sources from which C++ is generated at
    build time.  CPUs, instruction sets, devices and classic caches are
    unchanged upstream code outside the memory system this library is about, and
    the fault model is a table of floating-point probabilities without effect on
    behaviour.  Statistics, tracing and printing are left out everywhere.  Of
    Ruby: the ports ([RubyPort]), the accelerator front ends, the memory port of
    [AbstractController], and the construction of [RubySystem].  Of modelled parts: mutexes, checkpoint I/O and parallel
    simulation loops of the event queue;
    data blocks that borrow their bytes; the destruction of replacement data;
    the interleaving of the tree benchmark's threads, which read and write the
    shared queue and the marks in part without a lock, so that the language
    defines no behaviour for most interleavings.  Flits and messages are values although the code shares them
    by pointer; the headers of [Flit.v] and [MessageBuffer.v] say why this makes
    no difference to the operations modelled. *)
From stdpp Require Export base tactics list list_numbers numbers gmap strings sorting sets relations.
From Stdlib Require Export Lia.

#[global] Open Scope Z_scope.

(** ** Errors

    The C++ code stops in a handful of ways; a definition of this library
    that models fallible code returns [res A], with the way the code stopped
    recorded in [err]. *)
Inductive err :=
  | EAssert        (** a failed [assert] *)
  | EPanic         (** gem5's [panic] / [panic_if] *)
  | EFatal         (** gem5's [fatal] / [fatal_if] *)
  | EOutOfRange    (** an index outside a vector, or [front] of an empty one *)
  | EUninit        (** a read of an indeterminate value *)
  | EThrow         (** a C++ exception, e.g. [Cycles::operator-] *)
  | EFuel.         (** no C++ behaviour: the bound a model puts on a loop was too small *)

Inductive res (A : Type) :=
  | Ok (a : A)
  | Err (e : err).
Arguments Ok {A} _.
Arguments Err {A} _.

#[global] Instance err_eq_dec : EqDecision err.
Proof. solve_decision. Defined.

#[global] Instance res_eq_dec {A} `{EqDecision A} : EqDecision (res A).
Proof. solve_decision. Defined.

#[global] Instance res_ret : MRet res := @Ok.
#[global] Instance res_bind : MBind res :=
  fun A B f m => match m with Ok a => f a | Err e => Err e end.
#[global] Instance res_fmap : FMap res :=
  fun A B f m => match m with Ok a => Ok (f a) | Err e => Err e end.

Definition is_ok {A} (m : res A) : Prop := exists a, m = Ok a.

(** [assert(b)] of the source. *)
Definition cassert (b : bool) : res unit := if b then Ok tt else Err EAssert.

(** [panic_if(b)] and [fatal_if(b)] of the source. *)
Definition panic_if (b : bool) : res unit := if b then Err EPanic else Ok tt.
Definition fatal_if (b : bool) : res unit := if b then Err EFatal else Ok tt.

(** [Cycles::operator-]: throws when the result would be negative. *)
Definition cycles_sub (a b : Z) : res Z := if b <=? a then Ok (a - b) else Err EThrow.

Section Res.
Context {A B : Type}.
Implicit Types (m : res A) (f : A -> res B).

Lemma res_bind_Ok_inv m f b :
  m ≫= f = Ok b -> exists a, m = Ok a /\ f a = Ok b.
Proof. destruct m; [eauto | discriminate]. Qed.

Lemma res_fmap_Ok_inv m (g : A -> B) b :
  g <$> m = Ok b -> exists a, m = Ok a /\ b = g a.
Proof. destruct m; intros [=]; eauto. Qed.

Lemma res_bind_ok a f : (Ok a : res A) ≫= f = f a.
Proof. reflexivity. Qed.
End Res.

Lemma cassert_Ok b u : cassert b = Ok u <-> b = true.
Proof. destruct b, u; split; first [done | discriminate]. Qed.

Lemma panic_if_Ok b u : panic_if b = Ok u <-> b = false.
Proof. destruct b, u; split; first [done | discriminate]. Qed.

Lemma fatal_if_Ok b u : fatal_if b = Ok u <-> b = false.
Proof. destruct b, u; split; first [done | discriminate]. Qed.

(** ** Machine integers

    [u32] and [u64] are the unsigned wrap-around of [unsigned int] and
    [uint64_t] (and of gem5's [Tick] and [Cycles]); [i32] is the conversion
    of any integer to [int] (two's complement). *)
Definition u32 (z : Z) : Z := z mod 2 ^ 32.
Definition u64 (z : Z) : Z := z mod 2 ^ 64.
Definition i32 (z : Z) : Z := (z + 2 ^ 31) mod 2 ^ 32 - 2 ^ 31.

Definition in_u32 (z : Z) : Prop := 0 <= z < 2 ^ 32.
Definition in_u64 (z : Z) : Prop := 0 <= z < 2 ^ 64.
Definition in_i32 (z : Z) : Prop := - 2 ^ 31 <= z < 2 ^ 31.

Lemma u32_id z : in_u32 z -> u32 z = z.
Proof. apply Z.mod_small. Qed.

Lemma u64_id z : in_u64 z -> u64 z = z.
Proof. apply Z.mod_small. Qed.

Lemma i32_id z : in_i32 z -> i32 z = z.
Proof. unfold in_i32, i32. intros ?. rewrite Z.mod_small; lia. Qed.

Lemma u64_range z : in_u64 (u64 z).
Proof. apply Z.mod_pos_bound. lia. Qed.

Lemma u32_range z : in_u32 (u32 z).
Proof. apply Z.mod_pos_bound. lia. Qed.

Lemma i32_range z : in_i32 (i32 z).
Proof. unfold in_i32, i32. pose proof (Z.mod_pos_bound (z + 2 ^ 31) (2 ^ 32)). lia. Qed.

(** An [int] converted to [uint64_t] and back is unchanged. *)
Lemma i32_u64 z : in_i32 z -> i32 (u64 z) = z.
Proof.
  unfold in_i32, i32, u64. intros Hz.
  destruct (decide (0 <= z)).
  - rewrite (Z.mod_small z) by lia. rewrite Z.mod_small; lia.
  - replace (z mod 2 ^ 64) with (z + 2 ^ 64).
    + replace (z + 2 ^ 64 + 2 ^ 31) with (z + 2 ^ 31 + 2 ^ 32 * 2 ^ 32) by lia.
      rewrite Z.mod_add by lia. rewrite Z.mod_small; lia.
    + symmetry. rewrite <- (Z.mod_add z 1) by lia. apply Z.mod_small. lia.
Qed.

(** Unsigned 64-bit addition exceeds its left operand exactly when it does
    not wrap around. *)
Lemma u64_add_gt a d :
  in_u64 a -> 0 < d < 2 ^ 64 -> (a < u64 (a + d) <-> in_u64 (a + d)).
Proof.
  unfold in_u64, u64. intros Ha Hd. split; intros H.
  - destruct (decide (a + d < 2 ^ 64)); [lia |].
    replace ((a + d) mod 2 ^ 64) with (a + d - 2 ^ 64) in H; [lia |].
    rewrite <- (Z.mod_add (a + d) (-1)) by lia. symmetry. apply Z.mod_small. lia.
  - rewrite Z.mod_small; lia.
Qed.

(** ** Vectors: [std::vector] with a checked index *)
Section Vec.
Context {A : Type}.
Implicit Types (l : list A) (i : Z).

Definition vget l i : res A :=
  if decide (0 <= i) then
    match l !! Z.to_nat i with Some x => Ok x | None => Err EOutOfRange end
  else Err EOutOfRange.

Definition vset l i (x : A) : res (list A) :=
  if decide (0 <= i < Z.of_nat (length l)) then Ok (<[Z.to_nat i := x]> l)
  else Err EOutOfRange.

(** In-place update of one element, [v[i].op(...)]. *)
Definition vupd l i (f : A -> res A) : res (list A) :=
  x ← vget l i; y ← f x; vset l i y.

Definition vfront l : res A := match l with x :: _ => Ok x | [] => Err EOutOfRange end.

Lemma vget_Ok l i x : vget l i = Ok x <-> 0 <= i /\ l !! Z.to_nat i = Some x.
Proof.
  unfold vget. case_decide; [| split; [discriminate | lia]].
  destruct (l !! Z.to_nat i) eqn:E; split; try discriminate; naive_solver.
Qed.

Lemma vget_nat l (n : nat) x : l !! n = Some x -> vget l (Z.of_nat n) = Ok x.
Proof. intros. apply vget_Ok. rewrite Nat2Z.id. split; [lia | done]. Qed.

Lemma vget_is_ok l i : 0 <= i < Z.of_nat (length l) -> exists x, vget l i = Ok x.
Proof.
  intros H. destruct (lookup_lt_is_Some_2 l (Z.to_nat i)) as [x Hx]; [lia |].
  exists x. apply vget_Ok. split; [lia | done].
Qed.

Lemma vget_range l i x : vget l i = Ok x -> 0 <= i < Z.of_nat (length l).
Proof. intros [? ?%lookup_lt_Some]%vget_Ok. lia. Qed.

Lemma vset_Ok l i x l' :
  vset l i x = Ok l' <-> 0 <= i < Z.of_nat (length l) /\ l' = <[Z.to_nat i := x]> l.
Proof. unfold vset. case_decide; split; first [discriminate | naive_solver]. Qed.

Lemma vset_is_ok l i x : 0 <= i < Z.of_nat (length l) -> exists l', vset l i x = Ok l'.
Proof. intros H. unfold vset. rewrite decide_True by done. by eexists. Qed.

Lemma vset_val l i x : 0 <= i < Z.of_nat (length l) -> vset l i x = Ok (<[Z.to_nat i := x]> l).
Proof. intros. by apply vset_Ok. Qed.

Lemma vset_length l i x l' : vset l i x = Ok l' -> length l' = length l.
Proof. intros [_ ->]%vset_Ok. apply length_insert. Qed.

Lemma vset_get_eq l i x l' : vset l i x = Ok l' -> vget l' i = Ok x.
Proof.
  intros [? ->]%vset_Ok. apply vget_Ok. split; [lia |].
  apply list_lookup_insert_eq. lia.
Qed.

Lemma vset_get_ne l i j x l' : vset l i x = Ok l' -> i <> j -> vget l' j = vget l j.
Proof.
  intros [? ->]%vset_Ok Hij. unfold vget. case_decide; [| done].
  rewrite list_lookup_insert_ne by lia. done.
Qed.

Lemma vupd_Ok l i f l' :
  vupd l i f = Ok l' ->
  exists x y, vget l i = Ok x /\ f x = Ok y /\ vset l i y = Ok l'.
Proof.
  unfold vupd. intros (x & ? & (y & ? & ?)%res_bind_Ok_inv)%res_bind_Ok_inv. eauto.
Qed.
End Vec.

(** ** Bounded loops

    [foldM f l s] is a [for] loop over [l] whose body updates the state [s];
    [foldM_brk] is the same with a [break]/[return]: the body's [true] leaves
    the loop. *)
Section Loops.
Context {S A : Type}.

Fixpoint foldM (f : S -> A -> res S) (l : list A) (s : S) : res S :=
  match l with
  | [] => Ok s
  | a :: l => s' ← f s a; foldM f l s'
  end.

Fixpoint foldM_brk (f : S -> A -> res (bool * S)) (l : list A) (s : S) : res (bool * S) :=
  match l with
  | [] => Ok (false, s)
  | a :: l =>
      r ← f s a;
      if (r.1 : bool) then Ok r else foldM_brk f l r.2
  end.

Lemma foldM_inv (P : S -> Prop) f l s s' :
  P s ->
  (forall s a s', a ∈ l -> P s -> f s a = Ok s' -> P s') ->
  foldM f l s = Ok s' -> P s'.
Proof.
  revert s. induction l as [|a l IH]; intros s Hs Hf H; simpl in H.
  - by injection H as <-.
  - apply res_bind_Ok_inv in H as (s1 & H1 & H2).
    eapply IH; [| | exact H2].
    + eapply (Hf s a); [left | done | done].
    + intros; eapply (Hf s0); [by right | done | done].
Qed.

Lemma foldM_ok (P : S -> Prop) f l s :
  P s ->
  (forall s a, a ∈ l -> P s -> exists s', f s a = Ok s' /\ P s') ->
  exists s', foldM f l s = Ok s' /\ P s'.
Proof.
  revert s. induction l as [|a l IH]; intros s Hs Hf; simpl; [eauto |].
  destruct (Hf s a) as (s1 & H1 & HP1); [left | done |].
  rewrite H1. simpl. apply IH; [done |]. intros; apply Hf; [by right | done].
Qed.

Lemma foldM_brk_inv (P : S -> Prop) f l s b s' :
  P s ->
  (forall s a b s', a ∈ l -> P s -> f s a = Ok (b, s') -> P s') ->
  foldM_brk f l s = Ok (b, s') -> P s'.
Proof.
  revert s. induction l as [|a l IH]; intros s Hs Hf H; simpl in H.
  - by injection H as <- <-.
  - apply res_bind_Ok_inv in H as ([b1 s1] & H1 & H2). simpl in H2.
    assert (P s1) by (eapply (Hf s a); [left | done | done]).
    destruct b1; [by injection H2 as <- <- |].
    eapply IH; [done | | done]. intros; eapply (Hf s0 a0); [by right | done | done].
Qed.
End Loops.

(** Index list of a [for (i = 0; i < n; i++)] loop, and the invariant rules
    for such loops: total correctness of [foldM], and of [foldM_brk] with an
    invariant [P] while the loop runs and a postcondition [Q] at its exit. *)
Definition upto (n : Z) : list Z := seqZ 0 n.

Lemma elem_of_upto i n : i ∈ upto n <-> 0 <= i < n.
Proof. unfold upto. rewrite elem_of_seqZ. lia. Qed.

Lemma length_upto n : length (upto n) = Z.to_nat n.
Proof. apply length_seqZ. Qed.

Lemma upto_succ k : 0 <= k -> upto (k + 1) = upto k ++ [k].
Proof. intros H. unfold upto. rewrite seqZ_app by lia. f_equal. Qed.

Section LoopRules.
Context {S : Type}.

Lemma foldM_upto (f : S -> Z -> res S) (P : Z -> S -> Prop) n s :
  0 <= n -> P 0 s ->
  (forall i s, 0 <= i < n -> P i s -> exists s', f s i = Ok s' /\ P (i + 1) s') ->
  exists s', foldM f (upto n) s = Ok s' /\ P n s'.
Proof.
  intros Hn Hs Hf. unfold upto.
  assert (forall m k s, Z.of_nat m = n - k -> 0 <= k <= n -> P k s ->
    exists s', foldM f (seqZ k (n - k)) s = Ok s' /\ P n s') as Haux.
  { induction m as [|m IH]; intros k s1 Hm Hk HP.
    - replace k with n in * by lia. replace (n - n) with 0 by lia. simpl. eauto.
    - rewrite seqZ_cons by lia. simpl.
      destruct (Hf k s1) as (s2 & -> & HP2); [lia | done |]. simpl.
      replace (Z.pred (n - k)) with (n - Z.succ k) by lia.
      apply IH; [lia | lia | done]. }
  specialize (Haux (Z.to_nat n) 0 s). rewrite Z.sub_0_r in Haux.
  apply Haux; [lia | lia | done].
Qed.

Lemma foldM_brk_upto (f : S -> Z -> res (bool * S)) (P Q : Z -> S -> Prop) n s :
  0 <= n -> P 0 s ->
  (forall i s, 0 <= i < n -> P i s ->
    exists b s', f s i = Ok (b, s') /\ if b : bool then Q i s' else P (i + 1) s') ->
  exists b s', foldM_brk f (upto n) s = Ok (b, s') /\
    if b : bool then exists i, 0 <= i < n /\ Q i s' else P n s'.
Proof.
  intros Hn Hs Hf. unfold upto.
  assert (forall m k s, Z.of_nat m = n - k -> 0 <= k <= n -> P k s ->
    exists b s', foldM_brk f (seqZ k (n - k)) s = Ok (b, s') /\
      if b : bool then exists i, 0 <= i < n /\ Q i s' else P n s') as Haux.
  { induction m as [|m IH]; intros k s1 Hm Hk HP.
    - replace k with n in * by lia. replace (n - n) with 0 by lia. simpl. exists false. eauto.
    - rewrite seqZ_cons by lia. simpl.
      destruct (Hf k s1) as (b & s2 & -> & HP2); [lia | done |]. simpl.
      destruct b.
      + exists true, s2. split; [done |]. exists k. split; [lia | done].
      + replace (Z.pred (n - k)) with (n - Z.succ k) by lia.
        apply IH; [lia | lia | done]. }
  specialize (Haux (Z.to_nat n) 0 s). rewrite Z.sub_0_r in Haux.
  apply Haux; [lia | lia | done].
Qed.
End LoopRules.

(** A number of [n] bits is one whose bits from [n] on are clear. *)
Lemma bits_bound n b :
  0 <= n -> 0 <= b < 2 ^ n <-> 0 <= b /\ (forall i, n <= i -> Z.testbit b i = false).
Proof.
  intros Hn. split.
  - intros [Hb Hlt]. split; [done |]. intros i Hi.
    rewrite <- (Z.mod_small b (2 ^ n)) by done. by apply Z.mod_pow2_bits_high.
  - intros [Hb Hz]. split; [done |].
    replace b with (b mod 2 ^ n); [apply Z.mod_pos_bound, Z.pow_pos_nonneg; lia |].
    apply Z.bits_inj'. intros i Hi. destruct (decide (n <= i)).
    + rewrite Z.mod_pow2_bits_high by lia. by rewrite Hz.
    + by rewrite Z.mod_pow2_bits_low by lia.
Qed.

(** A sorted list stays sorted when a larger element is appended. *)
Lemma StronglySorted_append {A} (R : A -> A -> Prop) l x :
  StronglySorted R l -> Forall (fun y => R y x) l -> StronglySorted R (l ++ [x]).
Proof.
  induction 1 as [|y l Hl IH Hy]; intros Hx; cbn [app]; [by repeat constructor |].
  apply Forall_cons in Hx as [Hyx Hx]. constructor; [by apply IH |].
  apply Forall_app. split; [done | by repeat constructor].
Qed.

(** ** Field assignment

    [r ⟨ f := v ⟩] is the record [r] after the assignment [r.f = v].  A record
    type declares its eta expansion as an instance of [Eta]; the setter of a
    field is built by abstracting that field's projection from it. *)
Class Eta (R : Type) := { eta : R -> R }.

Definition setter_of {R T : Type} (p : R -> T) : Type := (T -> T) -> R -> R.
Existing Class setter_of.
#[global] Typeclasses Opaque setter_of.

Definition setf {R T : Type} (p : R -> T) {s : setter_of p} (f : T -> T) (r : R) : R := s f r.

Ltac derive_setter :=
  lazymatch goal with
  | |- @setter_of ?R ?T ?p =>
      let e := constr:(_ : Eta R) in
      let b := eval hnf in (@eta R e) in
      lazymatch b with
      | context [p] =>
          lazymatch eval pattern p in b with
          | ?h _ =>
              let s := eval cbv beta in (fun (f : T -> T) => h (fun r => f (p r))) in exact s
          end
      end
  end.
#[export] Hint Extern 1 (setter_of _) => derive_setter : typeclass_instances.

Notation "r ⟨ p := v ⟩" := (setf p (fun _ => v) r)
  (at level 12, left associativity, p at level 50, v at level 99, format "r ⟨ p  :=  v ⟩").

(** ** Tactics *)

(** Splits every hypothesis [m ≫= f = Ok b] into its steps. *)
Ltac inv_res :=
  repeat match goal with
  | H : _ ≫= _ = Ok _ |- _ =>
      let a := fresh "a" in let E := fresh "E" in
      apply res_bind_Ok_inv in H as (a & E & H)
  | H : (_ <$> _) = Ok _ |- _ =>
      let a := fresh "a" in let E := fresh "E" in
      apply res_fmap_Ok_inv in H as (a & E & H)
  | H : cassert _ = Ok _ |- _ => apply cassert_Ok in H
  | H : panic_if _ = Ok _ |- _ => apply panic_if_Ok in H
  | H : fatal_if _ = Ok _ |- _ => apply fatal_if_Ok in H
  | H : Ok _ = Ok _ |- _ => injection H as H
  | H : Err _ = Ok _ |- _ => discriminate H
  | H : mret _ = Ok _ |- _ => unfold mret, res_ret in H
  end.

(** Two results of the same computation are equal. *)
Ltac same_ok :=
  repeat match goal with
  | H1 : ?t = Ok ?a, H2 : ?t = Ok ?b |- _ =>
      rewrite H1 in H2; injection H2 as H2; subst
  end.

(** Unfolds the error monad only. *)
Ltac rsimpl :=
  cbn [mbind res_bind fmap res_fmap mret res_ret cassert panic_if fatal_if fst snd].
Tactic Notation "rsimpl" "in" "*" :=
  cbn [mbind res_bind fmap res_fmap mret res_ret cassert panic_if fatal_if fst snd] in *.

(** Turns boolean tests of the code into the propositions they decide. *)
Ltac b2p :=
  repeat match goal with
  | H : (_ =? _) = true |- _ => apply Z.eqb_eq in H
  | H : (_ =? _) = false |- _ => apply Z.eqb_neq in H
  | H : (_ <=? _) = true |- _ => apply Z.leb_le in H
  | H : (_ <=? _) = false |- _ => apply Z.leb_gt in H
  | H : (_ <? _) = true |- _ => apply Z.ltb_lt in H
  | H : (_ <? _) = false |- _ => apply Z.ltb_ge in H
  | H : (_ && _)%bool = true |- _ => apply andb_true_iff in H as [? ?]
  | H : (_ || _)%bool = false |- _ => apply orb_false_iff in H as [? ?]
  | H : negb _ = true |- _ => apply negb_true_iff in H
  | H : negb _ = false |- _ => apply negb_false_iff in H
  | H : bool_decide _ = true |- _ => apply bool_decide_eq_true_1 in H
  | H : bool_decide _ = false |- _ => apply bool_decide_eq_false_1 in H
  end.

Create HintDb gem5.
#[export] Hint Resolve u32_range u64_range i32_range : gem5.
