(* ===== verification/StdHeap.v ===== *)
(** * The priority heaps of the simulator

    [flitBuffer] (garnet2.0) and [MessageBuffer] (ruby/network) keep their
    contents in a [std::vector] ordered by [std::push_heap] and
    [std::pop_heap].  This file models the two algorithms as libstdc++ runs
    them (the hole-based sift up of [__push_heap] and the sift down of
    [__adjust_heap]), for any comparator that is a strict weak order, and
    proves what the buffers rely on: both keep the elements, both keep the
    heap order, and the front of a heap is a minimum. *)
From S2P Require Import Prelude.

#[local] Open Scope nat_scope.

(** What the C++ standard asks of the comparator.  [comp a b] is the code's
    [greater(a, b)], so "smallest" below is with respect to [hle]. *)
Class StrictWeak {A} (comp : A -> A -> bool) := {
  sw_irrefl a : comp a a = false;
  sw_trans a b c : comp a b = true -> comp b c = true -> comp a c = true;
  sw_neg_trans a b c : comp a b = false -> comp b c = false -> comp a c = false
}.

Definition hle {A} (comp : A -> A -> bool) (a b : A) : Prop := comp a b = false.

Lemma sw_asym `{StrictWeak A comp} a b : comp a b = true -> hle comp b a.
Proof.
  intros Hab. unfold hle. destruct (comp b a) eqn:Hba; [| done].
  pose proof (sw_trans _ _ _ Hab Hba) as Haa. rewrite sw_irrefl in Haa. discriminate.
Qed.

(** ** The algorithms *)
Section Algorithms.
Context {A : Type} (comp : A -> A -> bool).
Implicit Types (l : list A) (v : A) (h len : nat).

Definition parent h : nat := (h - 1) / 2.

(** [__push_heap]: move the hole at [h] up while the parent compares
    before [v], then store [v]. *)
Fixpoint sift_up (fuel : nat) l h v : list A :=
  match fuel with
  | 0 => <[h := v]> l
  | S fuel =>
      if decide (h = 0) then <[h := v]> l
      else match l !! parent h with
           | Some x =>
               if comp x v then sift_up fuel (<[h := x]> l) (parent h) v
               else <[h := v]> l
           | None => <[h := v]> l
           end
  end.

(** The loop of [__adjust_heap]: pull the preferred child into the hole
    until the hole has at most one child; then the lone child, if any. *)
Fixpoint sift_down (fuel : nat) l h len : list A * nat :=
  match fuel with
  | 0 => (l, h)
  | S fuel =>
      if decide (h < (len - 1) / 2) then
        match l !! (2 * (h + 1)), l !! (2 * (h + 1) - 1) with
        | Some r, Some q =>
            if comp r q then sift_down fuel (<[h := q]> l) (2 * (h + 1) - 1) len
            else sift_down fuel (<[h := r]> l) (2 * (h + 1)) len
        | _, _ => (l, h)
        end
      else if decide (2 * h + 2 = len) then
        match l !! (2 * (h + 1) - 1) with
        | Some q => (<[h := q]> l, 2 * (h + 1) - 1)
        | None => (l, h)
        end
      else (l, h)
  end.

Definition adjust_heap l v : list A :=
  let '(l', h) := sift_down (length l) l 0 (length l) in
  sift_up h l' h v.

(** [std::push_heap] on a vector whose last element is the new one. *)
Definition push_heap l : list A :=
  match last l with
  | Some v => sift_up (length l - 1) l (length l - 1) v
  | None => l
  end.

(** [std::pop_heap]: the front goes to the back, the rest is a heap. *)
Definition pop_heap l : list A :=
  if decide (1 < length l) then
    match l, last l with
    | x :: _, Some v => adjust_heap (take (length l - 1) l) v ++ [x]
    | _, _ => l
    end
  else l.

(** [push_back] followed by [push_heap], and [pop_heap] followed by
    [pop_back]: the two idioms of the source. *)
Definition heap_insert l v : list A := push_heap (l ++ [v]).
Definition heap_remove l : list A := take (length l - 1) (pop_heap l).

(** The heap order: no parent compares before its child. *)
Definition is_heap l : Prop :=
  forall c x y, 0 < c -> l !! parent c = Some x -> l !! c = Some y -> hle comp x y.
End Algorithms.

(** ** Elements are kept *)
Section Permutations.
Context {A : Type} (comp : A -> A -> bool).
Implicit Types (l : list A).

Lemma insert_Permutation l i x y :
  l !! i = Some y -> y :: <[i := x]> l ≡ₚ x :: l.
Proof.
  revert i. induction l as [|z l IH]; intros [|i] H; simplify_eq/=.
  - apply perm_swap.
  - rewrite perm_swap. rewrite (IH i) by done. apply perm_swap.
Qed.

Lemma insert_move_Permutation l h p x v :
  h < length l -> p <> h -> l !! p = Some x ->
  <[p := v]> (<[h := x]> l) ≡ₚ <[h := v]> l.
Proof.
  intros Hh Hne Hp. destruct (lookup_lt_is_Some_2 l h Hh) as [y Hy].
  assert (<[h := x]> l !! p = Some x) as Hp2 by (by rewrite list_lookup_insert_ne).
  apply (Permutation_cons_inv (a := x)), (Permutation_cons_inv (a := y)).
  rewrite (insert_Permutation _ p v x) by done.
  rewrite (perm_swap v y), (insert_Permutation l h x y) by done.
  rewrite (perm_swap x y), (insert_Permutation l h v y) by done. apply perm_swap.
Qed.

Lemma parent_lt h : 0 < h -> parent h < h.
Proof. intros. unfold parent. apply Nat.Div0.div_lt_upper_bound. lia. Qed.

Lemma sift_up_Permutation fuel l h v :
  h < length l -> sift_up comp fuel l h v ≡ₚ <[h := v]> l.
Proof.
  revert l h. induction fuel as [|n IH]; intros l h Hh; simpl; [done |].
  case_decide; [done |]. destruct (l !! parent h) as [x|] eqn:Hp; [| done].
  destruct (comp x v); [| done].
  pose proof (parent_lt h ltac:(lia)).
  rewrite IH by (rewrite length_insert; lia).
  apply insert_move_Permutation; [done | lia | done].
Qed.

Lemma length_sift_up fuel l h v : h < length l -> length (sift_up comp fuel l h v) = length l.
Proof. intros Hh. by rewrite (sift_up_Permutation fuel l h v Hh), length_insert. Qed.

Lemma sift_down_spec fuel l h len v :
  len = length l -> h < len ->
  let r := sift_down comp fuel l h len in
  r.2 < len /\ length r.1 = len /\ <[r.2 := v]> r.1 ≡ₚ <[h := v]> l.
Proof.
  intros ->. revert l h. induction fuel as [|n IH]; intros l h Hh; cbn [sift_down]; [done |].
  assert (Hstep : forall k q, l !! k = Some q -> h < k ->
    let r := sift_down comp n (<[h := q]> l) k (length l) in
    r.2 < length l /\ length r.1 = length l /\ <[r.2 := v]> r.1 ≡ₚ <[h := v]> l).
  { intros k q Hk Hhk. pose proof (lookup_lt_Some _ _ _ Hk).
    destruct (IH (<[h := q]> l) k) as (H1 & H2 & H3); rewrite ?length_insert in *; [done |].
    split; [done |]. split; [done |]. etrans; [exact H3 |].
    apply insert_move_Permutation; [done | lia | done]. }
  case_decide.
  - destruct (l !! (2 * (h + 1))) as [r|] eqn:Hr; [| done].
    destruct (l !! (2 * (h + 1) - 1)) as [q|] eqn:Hq; [| done].
    destruct (comp r q); [apply (Hstep _ q) | apply (Hstep _ r)]; solve [done | lia].
  - case_decide; [| done].
    destruct (l !! (2 * (h + 1) - 1)) as [q|] eqn:Hq; [| done]. simpl.
    pose proof (lookup_lt_Some _ _ _ Hq).
    split; [lia |]. rewrite length_insert. split; [done |].
    apply insert_move_Permutation; [done | lia | done].
Qed.

Lemma adjust_heap_Permutation l v y :
  adjust_heap comp (y :: l) v ≡ₚ v :: l.
Proof.
  unfold adjust_heap. destruct (sift_down _ _ _ _ _) as [l' h] eqn:E.
  pose proof (sift_down_spec (length (y :: l)) (y :: l) 0 _ v eq_refl ltac:(simpl; lia)) as Hs.
  rewrite E in Hs. simpl in Hs. destruct Hs as (Hh & Hlen & Hp).
  rewrite sift_up_Permutation by (simpl in *; lia). exact Hp.
Qed.

(** [push_back; push_heap] adds exactly the new element. *)
Lemma heap_insert_Permutation l v : heap_insert comp l v ≡ₚ v :: l.
Proof.
  unfold heap_insert, push_heap. rewrite last_snoc.
  rewrite sift_up_Permutation by (rewrite length_app; simpl; lia).
  rewrite length_app. simpl. replace (length l + 1 - 1) with (length l + 0) by lia.
  rewrite insert_app_r. simpl. symmetry. apply Permutation_cons_append.
Qed.

Lemma heap_insert_length l v : length (heap_insert comp l v) = S (length l).
Proof. by rewrite heap_insert_Permutation. Qed.

(** [pop_heap; pop_back] removes exactly the front. *)
Lemma heap_remove_Permutation l x : head l = Some x -> l ≡ₚ x :: heap_remove comp l.
Proof.
  destruct l as [|x' l]; intros H; simplify_eq/=. unfold heap_remove, pop_heap.
  destruct l as [|y l]; [done |].
  rewrite decide_True by (simpl; lia).
  destruct (last (x :: y :: l)) as [v|] eqn:Hl; [| by apply last_None in Hl].
  apply last_Some in Hl as [[|x'' l'] Hl]; [by simplify_eq/= |].
  injection Hl as <- Hl'. rewrite Hl'.
  change (x :: l' ++ [v]) with ((x :: l') ++ [v]).
  replace (length ((x :: l') ++ [v]) - 1) with (length (x :: l'))
    by (rewrite length_app; simpl; lia).
  rewrite take_app_length.
  assert (Hp := adjust_heap_Permutation l' v x).
  replace (length (x :: l')) with (length (adjust_heap comp (x :: l') v))
    by (rewrite Hp; done).
  rewrite take_app_length, Hp. simpl.
  apply Permutation_skip. symmetry. apply Permutation_cons_append.
Qed.

Lemma heap_remove_length l : length (heap_remove comp l) = length l - 1.
Proof.
  destruct l as [|x l]; [done |].
  pose proof (Permutation_length (heap_remove_Permutation (x :: l) x eq_refl)). simpl in *. lia.
Qed.
End Permutations.

(** ** The heap order is kept *)
Section Order.
Context {A : Type} (comp : A -> A -> bool) `{!StrictWeak comp}.
Implicit Types (l : list A).

#[local] Notation "x ⊑ y" := (hle comp x y) (at level 70).

Lemma hle_trans x y z : x ⊑ y -> y ⊑ z -> x ⊑ z.
Proof. apply sw_neg_trans. Qed.

Lemma hle_total x y : x ⊑ y \/ y ⊑ x.
Proof. unfold hle. destruct (comp x y) eqn:E; [right; by apply sw_asym | by left]. Qed.

Lemma parent_inj_bound c h : 0 < c -> parent c = h -> c = 2 * h + 1 \/ c = 2 * h + 2.
Proof. unfold parent. intros. pose proof (Nat.div_mod_eq (c - 1) 2).
  pose proof (Nat.mod_upper_bound (c - 1) 2). lia. Qed.

Lemma parent_l h : parent (2 * h + 1) = h.
Proof. unfold parent. replace (2 * h + 1 - 1) with (h * 2) by lia. by apply Nat.div_mul. Qed.

Lemma parent_r h : parent (2 * h + 2) = h.
Proof.
  unfold parent. replace (2 * h + 2 - 1) with (1 + h * 2) by lia.
  rewrite Nat.div_add by lia. done.
Qed.

(** A heap with a hole at [h]: ordered away from the hole, and the hole's
    parent is below the hole's children. *)
Record hole_heap l h : Prop := {
  hh_away c x y : 0 < c -> c <> h -> parent c <> h ->
    l !! parent c = Some x -> l !! c = Some y -> x ⊑ y;
  hh_skip c x y : 0 < h -> 0 < c -> parent c = h ->
    l !! parent h = Some x -> l !! c = Some y -> x ⊑ y
}.

Lemma sift_up_heap fuel l h v :
  h < length l -> h <= fuel ->
  hole_heap l h ->
  (forall c y, 0 < c -> parent c = h -> l !! c = Some y -> v ⊑ y) ->
  is_heap comp (sift_up comp fuel l h v).
Proof.
  revert l h. induction fuel as [|n IH]; intros l h Hh Hf [Haway Hskip] Hkids.
  - assert (h = 0) as -> by lia. simpl. intros c x y Hc.
    destruct (decide (parent c = 0)) as [Hp|Hp].
    + rewrite Hp, list_lookup_insert_eq by lia. intros [= <-].
      rewrite list_lookup_insert_ne by lia. by apply Hkids.
    + rewrite !list_lookup_insert_ne by lia. apply Haway; lia.
  - simpl. destruct (decide (h = 0)) as [->|Hne].
    { intros c x y Hc. destruct (decide (parent c = 0)) as [Hp|Hp].
      + rewrite Hp, list_lookup_insert_eq by lia. intros [= <-].
        rewrite list_lookup_insert_ne by lia. by apply Hkids.
      + rewrite !list_lookup_insert_ne by lia. apply Haway; lia. }
    pose proof (parent_lt h ltac:(lia)) as Hph.
    destruct (lookup_lt_is_Some_2 l (parent h)) as [x Hx]; [lia |]. rewrite Hx.
    destruct (comp x v) eqn:Hxv.
    + apply IH; rewrite ?length_insert; try lia.
      * split.
        -- intros c a b Hc Hc1 Hc2 Ha Hb.
           assert (c <> h) by (intros ->; done).
           rewrite (list_lookup_insert_ne l h c) in Hb by lia.
           destruct (decide (parent c = h)) as [E|E].
           ++ rewrite E, list_lookup_insert_eq in Ha by lia. simplify_eq.
              eapply Hskip; [| exact Hc | | |]; solve [done | lia].
           ++ rewrite list_lookup_insert_ne in Ha by lia. by eapply Haway.
        -- intros c a b Hp0 Hc Hcp Ha Hb.
           pose proof (parent_lt (parent h) ltac:(lia)).
           rewrite list_lookup_insert_ne in Ha by lia.
           assert (a ⊑ x) by (eapply (Haway (parent h)); solve [done | lia]).
           destruct (decide (c = h)) as [->|E].
           ++ rewrite list_lookup_insert_eq in Hb by lia. by simplify_eq.
           ++ rewrite list_lookup_insert_ne in Hb by lia.
              eapply hle_trans; [done |]. eapply (Haway c); [done | lia | lia | | done].
              by rewrite Hcp.
      * intros c y Hc Hcp Hy. destruct (decide (c = h)) as [->|E].
        -- rewrite list_lookup_insert_eq in Hy by lia. simplify_eq. by apply sw_asym.
        -- rewrite list_lookup_insert_ne in Hy by lia.
           eapply hle_trans; [by apply sw_asym |].
           eapply (Haway c); [done | lia | lia | | done]. by rewrite Hcp.
    + intros c a b Hc Ha Hb. destruct (decide (parent c = h)) as [E|E].
      * rewrite E, list_lookup_insert_eq in Ha by lia. simplify_eq.
        pose proof (parent_lt c ltac:(lia)).
        rewrite list_lookup_insert_ne in Hb by lia. by eapply Hkids.
      * rewrite list_lookup_insert_ne in Ha by lia.
        destruct (decide (c = h)) as [->|E2].
        -- rewrite list_lookup_insert_eq in Hb by lia. by simplify_eq.
        -- rewrite list_lookup_insert_ne in Hb by lia. by eapply Haway.
Qed.

(** One step of the sift down: the smaller child [k] goes into the hole. *)
Lemma hole_heap_down l h k q :
  hole_heap l h -> h < length l -> 0 < k -> parent k = h -> l !! k = Some q ->
  (forall c y, 0 < c -> parent c = h -> l !! c = Some y -> q ⊑ y) ->
  hole_heap (<[h := q]> l) k.
Proof.
  intros [Haway Hskip] Hh Hk Hkp Hq Hmin.
  pose proof (parent_lt k ltac:(lia)) as Hkh.
  split.
  - intros c a b Hc Hck Hpk Ha Hb.
    destruct (decide (c = h)) as [->|E].
    + rewrite list_lookup_insert_eq in Hb by lia. simplify_eq.
      pose proof (parent_lt _ Hc).
      rewrite list_lookup_insert_ne in Ha by lia. by eapply (Hskip k).
    + rewrite list_lookup_insert_ne in Hb by lia.
      destruct (decide (parent c = h)) as [E2|E2].
      * rewrite E2, list_lookup_insert_eq in Ha by lia. simplify_eq. by eapply Hmin.
      * rewrite list_lookup_insert_ne in Ha by lia. by eapply Haway.
  - intros c a b _ Hc Hcp Ha Hb. rewrite Hkp in Ha.
    rewrite list_lookup_insert_eq in Ha by lia. simplify_eq.
    pose proof (parent_lt _ Hc).
    rewrite list_lookup_insert_ne in Hb by lia.
    eapply (Haway c); [done | lia | lia | exact Hq | done].
Qed.

Lemma sift_down_heap fuel l h len :
  len = length l -> h < len -> len <= h + fuel -> hole_heap l h ->
  let r := sift_down comp fuel l h len in
  hole_heap r.1 r.2 /\ len <= 2 * r.2 + 1.
Proof.
  intros ->. revert l h. induction fuel as [|n IH]; intros l h Hh Hf Hhole; [lia |].
  assert (Hdiv : h < (length l - 1) / 2 <-> 2 * h + 2 < length l).
  { pose proof (Nat.div_mod_eq (length l - 1) 2).
    pose proof (Nat.mod_upper_bound (length l - 1) 2). lia. }
  cbn [sift_down]. case_decide as Hc.
  - replace (2 * (h + 1)) with (2 * h + 2) by lia.
    replace (2 * h + 2 - 1) with (2 * h + 1) by lia.
    destruct (lookup_lt_is_Some_2 l (2 * h + 2)) as [r Hr]; [lia |]. rewrite Hr.
    destruct (lookup_lt_is_Some_2 l (2 * h + 1)) as [q Hq]; [lia |]. rewrite Hq.
    destruct (comp r q) eqn:Hrq.
    + rewrite <- (length_insert l h q). apply IH; rewrite ?length_insert; try lia.
      apply hole_heap_down; try done; [lia | apply parent_l |].
      intros c y Hc0 Hcp Hy. destruct (parent_inj_bound c h Hc0 Hcp) as [->| ->].
      * rewrite Hq in Hy. simplify_eq. apply sw_irrefl.
      * rewrite Hr in Hy. simplify_eq. by apply sw_asym.
    + rewrite <- (length_insert l h r). apply IH; rewrite ?length_insert; try lia.
      apply hole_heap_down; try done; [lia | apply parent_r |].
      intros c y Hc0 Hcp Hy. destruct (parent_inj_bound c h Hc0 Hcp) as [->| ->].
      * rewrite Hq in Hy. by simplify_eq.
      * rewrite Hr in Hy. simplify_eq. apply sw_irrefl.
  - case_decide as Hc2.
    + replace (2 * (h + 1) - 1) with (2 * h + 1) by lia.
      destruct (lookup_lt_is_Some_2 l (2 * h + 1)) as [q Hq]; [lia |]. rewrite Hq. simpl.
      split; [| lia]. apply hole_heap_down; try done; [lia | apply parent_l |].
      intros c y Hc0 Hcp Hy. destruct (parent_inj_bound c h Hc0 Hcp) as [->| ->].
      * rewrite Hq in Hy. simplify_eq. apply sw_irrefl.
      * apply lookup_lt_Some in Hy. lia.
    + simpl. split; [done | lia].
Qed.

Lemma is_heap_hole l h : is_heap comp l -> hole_heap l h.
Proof.
  intros Hl. split.
  - intros. by eapply Hl.
  - intros c x y Hh Hc Hcp Hx Hy.
    assert (exists z, l !! h = Some z) as [z Hz].
    { apply lookup_lt_is_Some_2. apply lookup_lt_Some in Hy. pose proof (parent_lt c Hc). lia. }
    eapply hle_trans; [eapply (Hl h) | eapply (Hl c)]; try done. by rewrite Hcp.
Qed.

(** Insertion keeps the heap order. *)
Lemma heap_insert_heap l v : is_heap comp l -> is_heap comp (heap_insert comp l v).
Proof.
  intros Hl. unfold heap_insert, push_heap. rewrite last_snoc.
  rewrite length_app. simpl. replace (length l + 1 - 1) with (length l) by lia.
  apply sift_up_heap; [rewrite length_app; simpl; lia | lia | |].
  - split.
    + intros c x y Hc Hc1 Hc2 Hx Hy.
      pose proof (lookup_lt_Some _ _ _ Hy) as Hlt. rewrite length_app in Hlt. simpl in Hlt.
      pose proof (parent_lt c Hc).
      rewrite lookup_app_l in Hx by lia. rewrite lookup_app_l in Hy by lia. by eapply Hl.
    + intros c x y Hh Hc Hcp Hx Hy. apply lookup_lt_Some in Hy.
      rewrite length_app in Hy. simpl in Hy. pose proof (parent_lt c Hc). lia.
  - intros c y Hc Hcp Hy. apply lookup_lt_Some in Hy.
    rewrite length_app in Hy. simpl in Hy. pose proof (parent_lt c Hc). lia.
Qed.

Lemma is_heap_prefix l k : is_heap comp (l ++ k) -> is_heap comp l.
Proof.
  intros H c x y Hc Hx Hy. pose proof (lookup_lt_Some _ _ _ Hx). pose proof (lookup_lt_Some _ _ _ Hy).
  eapply (H c); [done | |]; rewrite lookup_app_l; done.
Qed.

Lemma adjust_heap_heap l v : l <> [] -> is_heap comp l -> is_heap comp (adjust_heap comp l v).
Proof.
  intros Hne Hl. unfold adjust_heap.
  assert (0 < length l) by (destruct l; simpl; [done | lia]).
  destruct (sift_down _ _ _ _ _) as [l' h] eqn:E.
  pose proof (sift_down_spec comp (length l) l 0 _ v eq_refl ltac:(lia)) as Hs.
  pose proof (sift_down_heap (length l) l 0 _ eq_refl ltac:(lia) ltac:(lia) (is_heap_hole _ _ Hl)) as Hd.
  rewrite E in Hs, Hd. simpl in *. destruct Hs as (? & ? & _), Hd as [? ?].
  apply sift_up_heap; [lia | lia | done |].
  intros c y Hc Hcp Hy. apply lookup_lt_Some in Hy.
  destruct (parent_inj_bound c h Hc Hcp); lia.
Qed.

(** Removal keeps the heap order. *)
Lemma heap_remove_heap l : is_heap comp l -> is_heap comp (heap_remove comp l).
Proof.
  intros Hl. unfold heap_remove, pop_heap. case_decide as Hlen.
  - destruct l as [|x l]; [simpl in Hlen; lia |].
    destruct (last (x :: l)) as [v|] eqn:Hv; [| by apply last_None in Hv].
    apply last_Some in Hv as [l' Hv]. rewrite Hv in *.
    rewrite length_app in *. simpl in *. replace (length l' + 1 - 1) with (length l') by lia.
    rewrite (take_app_length' l' [v]) by done.
    apply is_heap_prefix in Hl.
    destruct l' as [|y l']; [simpl in Hlen; lia |].
    assert (length (y :: l') = length (adjust_heap comp (y :: l') v)) as ->
      by (rewrite adjust_heap_Permutation; done).
    rewrite take_app_length. by apply adjust_heap_heap.
  - assert (length l - 1 = 0) as -> by lia. rewrite take_0. intros c x y ? H. done.
Qed.

(** The front of a heap is a minimum. *)
Lemma is_heap_front l x : is_heap comp l -> head l = Some x -> forall y, y ∈ l -> x ⊑ y.
Proof.
  intros Hl Hx y [i Hi]%list_elem_of_lookup. revert y Hi.
  induction i as [i IH] using lt_wf_ind. intros y Hi.
  destruct (decide (i = 0)) as [->|Hne].
  - destruct l; simplify_eq/=. apply sw_irrefl.
  - pose proof (parent_lt i ltac:(lia)).
    destruct (lookup_lt_is_Some_2 l (parent i)) as [z Hz].
    { apply lookup_lt_Some in Hi. lia. }
    eapply hle_trans; [by eapply (IH (parent i)) | eapply (Hl i); [lia | done | done]].
Qed.

Lemma is_heap_nil : is_heap comp [].
Proof. intros c x y _ H. done. Qed.
End Order.

#[export] Hint Resolve is_heap_nil heap_insert_heap heap_remove_heap : gem5.
