(* ===== verification/EventQueue.v ===== *)
(** * The event queue

    Models [sim/eventq.{hh,cc}] and [sim/eventq_impl.hh] (with [base/flags.hh]):
    the queue that drives the simulation.  Events are linked in two
    directions: [nextBin] leads from the top event of a bin (the events of one
    time and priority) to the top of the next bin, [nextInBin] down the stack
    of a bin.  The [nextBin] of an event that is not on top of its bin is stale.

    Events live in a store, a map from addresses; [None] is a null pointer.
    [process()], which every event class overrides, is the parameter
    [process].  The mutexes, which only serialise the calls, the tracing and
    the checkpointing are not modelled.

    The theorems: the pointer structure implements a list of bins sorted by
    time and priority, under any sequence of operations and with the same
    assertions and panics; the simulation serves events in that order and
    never goes back in time. *)
From S2P Require Import Prelude.

(** ** Data *)

Record EvInfo := {
  _when : Z;
  _priority : Z;
  flags : Z;
  ev_queue : option Z      (** the queue the event belongs to *)
}.

Record Event := {
  nextBin : option Z;
  nextInBin : option Z;
  ev : EvInfo
}.

Record EventQueue := {
  eq_this : Z;
  events : gmap Z Event;   (** the store *)
  head : option Z;
  _curTick : Z;
  async_queue : list Z
}.

#[export] Instance EvInfo_eta : Eta EvInfo := {| eta := fun e =>
  {| _when := _when e; _priority := _priority e; flags := flags e; ev_queue := ev_queue e |} |}.
#[export] Instance Event_eta : Eta Event := {| eta := fun e =>
  {| nextBin := nextBin e; nextInBin := nextInBin e; ev := ev e |} |}.
#[export] Instance EventQueue_eta : Eta EventQueue := {| eta := fun q =>
  {| eq_this := eq_this q; events := events q; head := head q; _curTick := _curTick q;
     async_queue := async_queue q |} |}.

(** ** Flags *)

Definition PublicWrite : Z := 0x001d.
Definition Squashed : Z := 0x0001.
Definition Scheduled : Z := 0x0002.
Definition Managed : Z := 0x0004.
Definition IsExitEvent : Z := 0x0010.
Definition IsMainQueue : Z := 0x0020.
Definition Initialized : Z := 0x7a40.
Definition InitMask : Z := 0xffc0.

(** Of [Flags<unsigned short>]. *)
Definition isSet (fl f : Z) : bool := negb (Z.land fl f =? 0).
Definition flag_clear (fl f : Z) : Z := Z.ldiff fl f.
Definition flag_set (fl f : Z) : Z := Z.lor fl f.

Definition scheduled (e : EvInfo) : bool := isSet (flags e) Scheduled.
Definition squashed (e : EvInfo) : bool := isSet (flags e) Squashed.
Definition isExitEvent (e : EvInfo) : bool := isSet (flags e) IsExitEvent.
Definition isManaged (e : EvInfo) : bool := isSet (flags e) Managed.
Definition initialized (e : EvInfo) : bool := Z.land (flags e) InitMask =? Initialized.

(** The constructor; [f] are the flags the event class passes: only publicly
    writable ones are allowed. *)
Definition new_event (p f : Z) : Event :=
  {| nextBin := None; nextInBin := None;
     ev := {| _when := 0; _priority := p; flags := Z.lor Initialized f; ev_queue := None |} |}.
Definition Event_ctor (p f : Z) : res Event :=
  _ ← cassert (negb (isSet f (Z.lnot PublicWrite)));
  Ok (new_event p f).

Definition setWhen (e : EvInfo) (when q : Z) : EvInfo := e ⟨ _when := when ⟩ ⟨ ev_queue := Some q ⟩.

(** ** Order *)

Definition ev_lt (l r : EvInfo) : bool :=
  (_when l <? _when r) || ((_when l =? _when r) && (_priority l <? _priority r)).
Definition ev_le (l r : EvInfo) : bool :=
  (_when l <? _when r) || ((_when l =? _when r) && (_priority l <=? _priority r)).
Definition ev_eq (l r : EvInfo) : bool := (_when l =? _when r) && (_priority l =? _priority r).

(** ** Insertion and removal *)

Definition deref (h : gmap Z Event) (a : Z) : res Event :=
  match h !! a with Some e => Ok e | None => Err EUninit end.

(** Change the non-pointer part of an event. *)
Definition upd_ev (q : EventQueue) (a : Z) (f : EvInfo -> EvInfo) : res EventQueue :=
  e ← deref (events q) a; Ok (q ⟨ events := <[a := e ⟨ ev := f (ev e) ⟩]> (events q) ⟩).

(** [event] becomes the top element of the list it is put in front of. *)
Definition insertBefore (h : gmap Z Event) (event : Z) (curr : option Z) : res (gmap Z Event) :=
  e ← deref h event;
  match curr with
  | None => Ok (<[event := e ⟨ nextBin := None ⟩ ⟨ nextInBin := None ⟩]> h)
  | Some c =>
      ce ← deref h c;
      if ev_lt (ev e) (ev ce) then Ok (<[event := e ⟨ nextBin := Some c ⟩ ⟨ nextInBin := None ⟩]> h)
      else Ok (<[event := e ⟨ nextBin := nextBin ce ⟩ ⟨ nextInBin := Some c ⟩]> h)
  end.

(** The loop [while (curr && *curr < *event)] of [insert] and [remove]. *)
Fixpoint find_bin (fuel : nat) (h : gmap Z Event) (event : EvInfo) (prev : Z) (curr : option Z)
    : res (Z * option Z) :=
  match curr with
  | None => Ok (prev, None)
  | Some c =>
      ce ← deref h c;
      if ev_lt (ev ce) event then
        match fuel with
        | O => Err EFuel
        | S fuel => find_bin fuel h event c (nextBin ce)
        end
      else Ok (prev, Some c)
  end.

(** Enough for any loop over distinct events. *)
Definition store_fuel (h : gmap Z Event) : nat := size h.

Definition insert_event (q : EventQueue) (event : Z) : res EventQueue :=
  let h := events q in
  e ← deref h event;
  match head q with
  | None => h ← insertBefore h event None; Ok (q ⟨ events := h ⟩ ⟨ head := Some event ⟩)
  | Some hd =>
      he ← deref h hd;
      if ev_le (ev e) (ev he) then
        h ← insertBefore h event (Some hd); Ok (q ⟨ events := h ⟩ ⟨ head := Some event ⟩)
      else
        x ← find_bin (store_fuel h) h (ev e) hd (nextBin he);
        h ← insertBefore h event x.2;
        pe ← deref h x.1;
        Ok (q ⟨ events := <[x.1 := pe ⟨ nextBin := Some event ⟩]> h ⟩)
  end.

(** The loop of [removeItem]: the element above [event] in its bin. *)
Fixpoint find_item (fuel : nat) (h : gmap Z Event) (event curr : Z) (next : option Z) : res Z :=
  match next with
  | None => Err EPanic
  | Some n =>
      if event =? n then Ok curr
      else
        ne ← deref h n;
        match fuel with
        | O => Err EFuel
        | S fuel => find_item fuel h event n (nextInBin ne)
        end
  end.

(** The store and the new top of the bin (or the next bin). *)
Definition removeItem (h : gmap Z Event) (event top : Z) : res (gmap Z Event * option Z) :=
  te ← deref h top;
  if event =? top then
    match nextInBin te with
    | None => Ok (h, nextBin te)
    | Some n => ne ← deref h n; Ok (<[n := ne ⟨ nextBin := nextBin te ⟩]> h, Some n)
    end
  else
    curr ← find_item (store_fuel h) h event top (nextInBin te);
    ne ← deref h event;
    ce ← deref h curr;
    Ok (<[curr := ce ⟨ nextInBin := nextInBin ne ⟩]> h, Some top).

Definition remove_event (q : EventQueue) (event : Z) : res EventQueue :=
  let h := events q in
  match head q with
  | None => Err EPanic
  | Some hd =>
      e ← deref h event;
      _ ← cassert (bool_decide (ev_queue (ev e) = Some (eq_this q)));
      he ← deref h hd;
      if ev_eq (ev he) (ev e) then
        x ← removeItem h event hd; Ok (q ⟨ events := x.1 ⟩ ⟨ head := x.2 ⟩)
      else
        x ← find_bin (store_fuel h) h (ev e) hd (nextBin he);
        match x.2 with
        | None => Err EPanic
        | Some c =>
            ce ← deref h c;
            if negb (ev_eq (ev ce) (ev e)) then Err EPanic
            else
              y ← removeItem h event c;
              pe ← deref y.1 x.1;
              Ok (q ⟨ events := <[x.1 := pe ⟨ nextBin := y.2 ⟩]> y.1 ⟩)
        end
  end.

(** ** Scheduling *)

Definition EventQueue_ctor (this : Z) (store : gmap Z Event) : EventQueue :=
  {| eq_this := this; events := store; head := None; _curTick := 0; async_queue := [] |}.

Definition asyncInsert (q : EventQueue) (event : Z) : EventQueue :=
  q ⟨ async_queue := async_queue q ++ [event] ⟩.

(** [release()]: a managed event is deleted unless it was scheduled again. *)
Definition release (q : EventQueue) (event : Z) : res EventQueue :=
  e ← deref (events q) event;
  if isManaged (ev e) && negb (scheduled (ev e)) then Ok (q ⟨ events := delete event (events q) ⟩) else Ok q.

(** [par] is [inParallelMode], [cur] is [curEventQueue()]. *)
Definition schedule (par : bool) (cur : Z) (q : EventQueue) (event when : Z) (global : bool) : res EventQueue :=
  _ ← cassert (_curTick q <=? when);
  e ← deref (events q) event;
  _ ← cassert (negb (scheduled (ev e)));
  _ ← cassert (initialized (ev e));
  q ← upd_ev q event (fun i => setWhen i when (eq_this q));
  q ← (if par && (negb (eq_this q =? cur) || global) then Ok (asyncInsert q event) else insert_event q event);
  upd_ev q event (fun i => i ⟨ flags := flag_set (flags i) Scheduled ⟩).

Definition deschedule (par : bool) (cur : Z) (q : EventQueue) (event : Z) : res EventQueue :=
  e ← deref (events q) event;
  _ ← cassert (scheduled (ev e));
  _ ← cassert (initialized (ev e));
  _ ← cassert (negb par || (eq_this q =? cur));
  q ← remove_event q event;
  q ← upd_ev q event (fun i => i ⟨ flags := flag_clear (flag_clear (flags i) Squashed) Scheduled ⟩);
  release q event.

Definition reschedule (par : bool) (cur : Z) (q : EventQueue) (event when : Z) (always : bool) : res EventQueue :=
  _ ← cassert (_curTick q <=? when);
  e ← deref (events q) event;
  _ ← cassert (always || scheduled (ev e));
  _ ← cassert (initialized (ev e));
  _ ← cassert (negb par || (eq_this q =? cur));
  q ← (if scheduled (ev e) then remove_event q event else Ok q);
  q ← upd_ev q event (fun i => setWhen i when (eq_this q));
  q ← insert_event q event;
  upd_ev q event (fun i => i ⟨ flags := flag_set (flag_clear (flags i) Squashed) Scheduled ⟩).

(** [Event::squash()]. *)
Definition squash (q : EventQueue) (event : Z) : res EventQueue :=
  upd_ev q event (fun i => i ⟨ flags := flag_set (flags i) Squashed ⟩).

Definition handleAsyncInsertions (cur : Z) (q : EventQueue) : res EventQueue :=
  _ ← cassert (eq_this q =? cur);
  q ← foldM insert_event (async_queue q) q;
  Ok (q ⟨ async_queue := [] ⟩).

(** Take the first event off the queue. *)
Definition pop_event (q : EventQueue) : res (EventQueue * Z) :=
  match head q with
  | None => Err EUninit
  | Some event =>
      e ← deref (events q) event;
      let next := nextInBin e in
      let e := e ⟨ ev := ev e ⟨ flags := flag_clear (flags (ev e)) Scheduled ⟩ ⟩ in
      let h := <[event := e]> (events q) in
      match next with
      | Some n =>
          ne ← deref h n;
          Ok (q ⟨ events := <[n := ne ⟨ nextBin := nextBin e ⟩]> h ⟩ ⟨ head := Some n ⟩, event)
      | None => Ok (q ⟨ events := h ⟩ ⟨ head := nextBin e ⟩, event)
      end
  end.

Section Service.
Context (process : Z -> EventQueue -> res EventQueue).

(** The exit event, if one was served. *)
Definition serviceOne (q : EventQueue) : res (EventQueue * option Z) :=
  x ← pop_event q;
  let '(q, event) := x in
  e ← deref (events q) event;
  if negb (squashed (ev e)) then
    q ← process event (q ⟨ _curTick := _when (ev e) ⟩);
    e ← deref (events q) event;
    if isExitEvent (ev e) then
      _ ← cassert (negb (isManaged (ev e)) || negb (isSet (flags (ev e)) IsMainQueue));
      Ok (q, Some event)
    else q ← release q event; Ok (q, None)
  else
    q ← upd_ev q event (fun i => i ⟨ flags := flag_clear (flags i) Squashed ⟩);
    q ← release q event;
    Ok (q, None).
End Service.

(** [serviceEvents]: all events up to [when]; [fuel] bounds the number served,
    since handlers can schedule without end.  The result of [serviceOne] is ignored. *)
Fixpoint service_loop (process : Z -> EventQueue -> res EventQueue) (fuel : nat) (q : EventQueue) (when : Z)
    : res EventQueue :=
  match head q with
  | None => Ok q
  | Some hd =>
      he ← deref (events q) hd;
      if when <? _when (ev he) then Ok q
      else
        match fuel with
        | O => Err EFuel
        | S fuel => x ← serviceOne process q; service_loop process fuel x.1 when
        end
  end.
Definition serviceEvents (process : Z -> EventQueue -> res EventQueue) (fuel : nat) (q : EventQueue) (when : Z)
    : res EventQueue :=
  q ← service_loop process fuel q when; Ok (q ⟨ _curTick := when ⟩).

Definition checkpointReschedule (q : EventQueue) (event : Z) : res EventQueue :=
  e ← deref (events q) event; if scheduled (ev e) then insert_event q event else Ok q.

Definition replaceHead (q : EventQueue) (s : option Z) : EventQueue * option Z := (q ⟨ head := s ⟩, head q).

(** ** [debugVerify]

    The state of the two loops: the time and priority of the last event and the
    events seen; [None] when a check failed. *)
Fixpoint verify_bin (fuel : nat) (h : gmap Z Event) (next : option Z) (st : Z * Z * gset Z)
    : res (option (Z * Z * gset Z)) :=
  match next with
  | None => Ok (Some st)
  | Some n =>
      let '(time, priority, seen) := st in
      e ← deref h n;
      if _when (ev e) <? time then Ok None
      else if (_when (ev e) =? time) && (_priority (ev e) <? priority) then Ok None
      else if bool_decide (n ∈ seen) then Ok None
      else
        match fuel with
        | O => Err EFuel
        | S fuel => verify_bin fuel h (nextInBin e) (_when (ev e), _priority (ev e), {[n]} ∪ seen)
        end
  end.

Fixpoint verify_bins (fuel : nat) (h : gmap Z Event) (next : option Z) (st : Z * Z * gset Z) : res bool :=
  match next with
  | None => Ok true
  | Some n =>
      r ← verify_bin (store_fuel h) h (Some n) st;
      match r with
      | None => Ok false
      | Some st =>
          e ← deref h n;
          match fuel with
          | O => Err EFuel
          | S fuel => verify_bins fuel h (nextBin e) st
          end
      end
  end.

Definition debugVerify (q : EventQueue) : res bool :=
  verify_bins (store_fuel (events q)) (events q) (head q) (0, 0, ∅).

(** ** The abstract queue: bins in order of their keys *)

Abbreviation key := (Z * Z)%type.
Abbreviation bins := (list (key * list Z)).

Definition ekey (i : EvInfo) : key := (_when i, _priority i).
Definition klt (k k' : key) : Prop := k.1 < k'.1 \/ (k.1 = k'.1 /\ k.2 < k'.2).

#[export] Instance klt_dec k k' : Decision (klt k k').
Proof. unfold klt. apply _. Defined.

(** All events, in the order in which they will be served. *)
Definition members (bs : bins) : list Z := bs ≫= snd.

(** On top of the bin of its key. *)
Fixpoint abs_insert (k : key) (a : Z) (bs : bins) : bins :=
  match bs with
  | [] => [(k, [a])]
  | (k', l) :: bs' =>
      if decide (klt k k') then (k, [a]) :: bs
      else if decide (k = k') then (k, a :: l) :: bs'
      else (k', l) :: abs_insert k a bs'
  end.

Definition drop_event (a : Z) (b : key * list Z) : option (key * list Z) :=
  match filter (fun x => x <> a) b.2 with [] => None | l => Some (b.1, l) end.
Definition abs_remove (a : Z) (bs : bins) : bins := omap (drop_event a) bs.

Lemma klt_irrefl k : ~ klt k k.
Proof. unfold klt. lia. Qed.
Lemma klt_trans k1 k2 k3 : klt k1 k2 -> klt k2 k3 -> klt k1 k3.
Proof. unfold klt. lia. Qed.
Lemma klt_total k k' : klt k k' \/ k = k' \/ klt k' k.
Proof. destruct k as [a b], k' as [c d]. unfold klt. cbn [fst snd]. destruct (decide (a = c)), (decide (b = d)); subst; auto; lia. Qed.

Lemma ev_lt_key l r : ev_lt l r = true <-> klt (ekey l) (ekey r).
Proof. unfold ev_lt, klt, ekey. cbn [fst snd]. lia. Qed.
Lemma ev_eq_key l r : ev_eq l r = true <-> ekey l = ekey r.
Proof. unfold ev_eq, ekey. split; [intros ?; f_equal; lia | intros [= ? ?]; lia]. Qed.
Lemma ev_le_key l r : ev_le l r = true <-> klt (ekey l) (ekey r) \/ ekey l = ekey r.
Proof.
  unfold ev_le, klt, ekey. cbn [fst snd]. split.
  - intros H. destruct (decide (_priority l = _priority r /\ _when l = _when r)) as [[-> ->]|]; [by right | left; lia].
  - intros [?|[= ? ?]]; lia.
Qed.

(** ** The pointer structure *)

(** [p] points to the stack [l]. *)
Fixpoint in_bin (h : gmap Z Event) (p : option Z) (l : list Z) : Prop :=
  match l with
  | [] => p = None
  | a :: l => p = Some a /\ exists e, h !! a = Some e /\ in_bin h (nextInBin e) l
  end.

(** [p] points to the list of bins [bs]; only the [nextBin] of tops is followed. *)
Fixpoint bin_list (h : gmap Z Event) (p : option Z) (bs : bins) : Prop :=
  match bs with
  | [] => p = None
  | (_, l) :: bs => exists a r e, l = a :: r /\ p = Some a /\ h !! a = Some e /\
      in_bin h (nextInBin e) r /\ bin_list h (nextBin e) bs
  end.

Lemma in_bin_ext h h' l : forall p,
  (forall x e, x ∈ l -> h !! x = Some e -> exists e', h' !! x = Some e' /\ nextInBin e' = nextInBin e) ->
  in_bin h p l -> in_bin h' p l.
Proof.
  induction l as [|a l IH]; intros p Hext; [done |]. intros (-> & e & He & Hl). split; [done |].
  destruct (Hext a e) as (e' & He' & Hn); [left | done |]. exists e'. split; [done |]. rewrite Hn.
  apply IH; [| done]. intros x ex Hx. apply Hext. by right.
Qed.

Lemma in_bin_frame h a e l p : a ∉ l -> in_bin h p l -> in_bin (<[a := e]> h) p l.
Proof.
  intros Ha. apply in_bin_ext. intros x ex Hx Hex. exists ex. split; [| done].
  rewrite lookup_insert_ne by (intros ->; done). done.
Qed.

Lemma members_cons k l bs : members ((k, l) :: bs) = l ++ members bs.
Proof. done. Qed.
Lemma members_app bs1 bs2 : members (bs1 ++ bs2) = members bs1 ++ members bs2.
Proof. unfold members. by rewrite bind_app. Qed.

(** The same pointers in the members: the same list. *)
Lemma bin_list_ext h h' bs : forall p,
  (forall x e, x ∈ members bs -> h !! x = Some e ->
     exists e', h' !! x = Some e' /\ nextInBin e' = nextInBin e /\ nextBin e' = nextBin e) ->
  bin_list h p bs -> bin_list h' p bs.
Proof.
  induction bs as [|[k l] bs IH]; intros p Hext; [done |]. intros (a & r & e & -> & -> & He & Hr & Hbs).
  rewrite members_cons in Hext. destruct (Hext a e) as (e' & He' & Hin & Hnb); [set_solver | done |].
  exists a, r, e'. split_and!; [done | done | done | |].
  - rewrite Hin. eapply in_bin_ext; [| done]. intros x ex Hx Hex. destruct (Hext x ex) as (ex' & ? & ? & _); [set_solver | done |].
    by exists ex'.
  - rewrite Hnb. apply IH; [| done]. intros x ex Hx. apply Hext. set_solver.
Qed.

Lemma bin_list_frame h a e bs p : a ∉ members bs -> bin_list h p bs -> bin_list (<[a := e]> h) p bs.
Proof.
  intros Ha. apply bin_list_ext. intros x ex Hx Hex. exists ex. split; [| done].
  rewrite lookup_insert_ne by (intros ->; done). done.
Qed.

(** Replace what follows a bin by changing the [nextBin] of its top. *)
Lemma bin_list_splice h h' bs1 k t r bs2 bs2' e : forall p,
  bin_list h p (bs1 ++ (k, t :: r) :: bs2) ->
  (forall x, x ∈ members bs1 ++ r -> h' !! x = h !! x) ->
  h !! t = Some e -> (exists e', h' !! t = Some e' /\ nextInBin e' = nextInBin e /\ bin_list h' (nextBin e') bs2') ->
  bin_list h' p (bs1 ++ (k, t :: r) :: bs2').
Proof.
  induction bs1 as [|[k1 l1] bs1 IH]; intros p Hl Hsame Ht (e' & Ht' & Hin & Hb); cbn [app bin_list] in *.
  - destruct Hl as (a & r' & e0 & [= <- <-] & -> & He0 & Hr & _). rewrite Ht in He0. injection He0 as <-.
    exists t, r, e'. split_and!; [done | done | done | | done]. rewrite Hin.
    eapply in_bin_ext; [| done]. intros x ex Hx Hex. exists ex. split; [| done]. by rewrite Hsame.
  - destruct Hl as (a & r' & e0 & -> & -> & He0 & Hr & Hbs). rewrite members_cons in Hsame.
    exists a, r', e0. split_and!; [done | done | by rewrite Hsame by set_solver | |].
    + eapply in_bin_ext; [| done]. intros x ex Hx Hex. exists ex. split; [| done]. rewrite Hsame by set_solver. done.
    + apply IH; [done | | done | by exists e']. intros x Hx. apply Hsame. set_solver.
Qed.

(** ** Insertion refines [abs_insert] *)

Record wf (h : gmap Z Event) (hd : option Z) (bs : bins) : Prop := {
  wf_list : bin_list h hd bs;
  wf_sorted : StronglySorted klt (fst <$> bs);
  wf_nodup : NoDup (members bs);
  wf_keys : forall k l a, (k, l) ∈ bs -> a ∈ l -> exists e, h !! a = Some e /\ ekey (ev e) = k
}.

Lemma elem_of_members a bs : a ∈ members bs <-> exists k l, (k, l) ∈ bs /\ a ∈ l.
Proof.
  unfold members. rewrite list_elem_of_bind. split.
  - intros ([k l] & ? & ?). by exists k, l.
  - intros (k & l & ? & ?). by exists (k, l).
Qed.

Lemma abs_insert_app k a bs1 bs2 :
  Forall (fun b => klt b.1 k) bs1 -> abs_insert k a (bs1 ++ bs2) = bs1 ++ abs_insert k a bs2.
Proof.
  induction 1 as [|[k' l] bs1 Hk _ IH]; [done |]. cbn [app abs_insert fst] in *.
  rewrite decide_False by (intros ?; eapply klt_irrefl, klt_trans; done).
  rewrite decide_False by (intros ->; by eapply klt_irrefl). by rewrite IH.
Qed.

Lemma abs_insert_members k a bs : members (abs_insert k a bs) ≡ₚ a :: members bs.
Proof.
  induction bs as [|[k' l] bs IH]; [done |]. cbn [abs_insert]. repeat case_decide; rewrite ?members_cons; [done | done |].
  rewrite IH. solve_Permutation.
Qed.

Lemma abs_insert_in k a bs k' l' :
  (k', l') ∈ abs_insert k a bs -> (k' = k /\ l' = [a]) \/ (k', l') ∈ bs \/ (k' = k /\ exists l, l' = a :: l /\ (k, l) ∈ bs).
Proof.
  induction bs as [|[k0 l0] bs IH]; cbn [abs_insert]; [intros [= -> ->]%list_elem_of_singleton; by left |].
  repeat case_decide; rewrite elem_of_cons.
  - intros [[= -> ->]|?]; [by left | by right; left].
  - subst. intros [[= -> ->]|?]; [right; right | right; left; by right]. split; [done |]. exists l0. split; [done | left].
  - intros [[= -> ->]|Hin]; [right; left; left |]. destruct (IH Hin) as [?|[?|(-> & l & -> & ?)]]; [by left | right; left; by right |].
    right; right. split; [done |]. exists l. split; [done | by right].
Qed.

Lemma abs_insert_keys k a bs x : x ∈ (fst <$> abs_insert k a bs) -> x = k \/ x ∈ fst <$> bs.
Proof.
  intros ([k' l'] & -> & Hin)%list_elem_of_fmap. cbn [fst].
  destruct (abs_insert_in _ _ _ _ _ Hin) as [[-> _]|[Hb|(-> & _)]]; [by left | right | by left].
  apply list_elem_of_fmap. by exists (k', l').
Qed.

Lemma abs_insert_sorted k a bs : StronglySorted klt (fst <$> bs) -> StronglySorted klt (fst <$> abs_insert k a bs).
Proof.
  induction bs as [|[k' l] bs IH]; intros Hs; [repeat constructor |].
  cbn [fmap list_fmap fst] in Hs. apply StronglySorted_inv in Hs as [Hs Hf]. cbn [abs_insert].
  case_decide as H1; [| case_decide as H2]; cbn [fmap list_fmap fst].
  - constructor; [by constructor |]. constructor; [done |]. eapply Forall_impl; [exact Hf |]. intros x. by apply klt_trans.
  - subst. by constructor.
  - constructor; [by apply IH |]. apply Forall_forall. intros x [->|Hx]%abs_insert_keys.
    + destruct (klt_total k k') as [?|[?|?]]; done.
    + rewrite Forall_forall in Hf. by apply Hf.
Qed.

(** The bins the loop of [insert] and [remove] passes over. *)
Lemma find_bin_spec h info bs : forall fuel k t r c,
  bin_list h c bs -> (forall k l a, (k, l) ∈ bs -> a ∈ l -> exists e, h !! a = Some e /\ ekey (ev e) = k) ->
  (length bs <= fuel)%nat ->
  exists bs1 bs2 pre k' t' r' c', bs = bs1 ++ bs2 /\ find_bin fuel h info t c = Ok (t', c') /\
    Forall (fun b => klt b.1 (ekey info)) bs1 /\ (k, t :: r) :: bs1 = pre ++ [(k', t' :: r')] /\
    bin_list h c' bs2 /\ match bs2 with [] => True | b :: _ => ~ klt b.1 (ekey info) end.
Proof.
  induction bs as [|[k0 l0] bs IH]; intros fuel k t r c Hl Hkeys Hfuel.
  - cbn in Hl. subst c. exists [], [], [], k, t, r, None. by destruct fuel.
  - pose proof Hl as (a & r0 & e & -> & -> & He & Hr & Hbs).
    destruct (Hkeys k0 (a :: r0) a) as (e' & He' & Hk); [left | left |]. rewrite He in He'. injection He' as <-.
    assert (find_bin fuel h info t (Some a) = if ev_lt (ev e) info then
        match fuel with O => Err EFuel | S fuel => find_bin fuel h info a (nextBin e) end else Ok (t, Some a)) as Hstep.
    { destruct fuel; cbn [find_bin]; unfold deref; by rewrite He. }
    destruct (ev_lt (ev e) info) eqn:Elt.
    + destruct fuel as [|fuel]; [cbn in Hfuel; lia |]. apply ev_lt_key in Elt. rewrite Hk in Elt.
      destruct (IH fuel k0 a r0 (nextBin e)) as (bs1 & bs2 & pre & k' & t' & r' & c' & -> & Hf & Hlt & Hpre & Hl2 & Hhd);
        [done | | cbn in Hfuel; lia |].
      { intros k1 l1 a1 Hin. apply Hkeys. by right. }
      exists ((k0, a :: r0) :: bs1), bs2, ((k, t :: r) :: pre), k', t', r', c'. rewrite Hstep. split_and!; try done.
      * by constructor.
      * rewrite <- app_comm_cons. by f_equal.
    + exists [], ((k0, a :: r0) :: bs), [], k, t, r, (Some a). split_and!; try done. cbn [fst].
      rewrite <- Hk, <- ev_lt_key, Elt. done.
Qed.

(** [insertBefore] puts the event on top of the right bin. *)
Lemma insertBefore_spec h a e c bs :
  h !! a = Some e -> a ∉ members bs -> bin_list h c bs ->
  (forall k l a, (k, l) ∈ bs -> a ∈ l -> exists e, h !! a = Some e /\ ekey (ev e) = k) ->
  match bs with [] => True | b :: _ => ~ klt b.1 (ekey (ev e)) end ->
  exists nb nib, insertBefore h a c = Ok (<[a := {| nextBin := nb; nextInBin := nib; ev := ev e |}]> h) /\
    bin_list (<[a := {| nextBin := nb; nextInBin := nib; ev := ev e |}]> h) (Some a) (abs_insert (ekey (ev e)) a bs).
Proof.
  intros Ha Hnin Hl Hkeys Hhd. unfold insertBefore, deref. rewrite Ha. rsimpl. destruct bs as [|[k l] bs].
  - cbn in Hl. subst c. eexists _, _. split; [done |]. cbn [abs_insert bin_list].
    exists a, []. eexists. split_and!; [done | done | apply lookup_insert_eq | done | done].
  - pose proof Hl as (t & r & te & -> & -> & Ht & Hr & Hbs). rewrite Ht. rsimpl. cbn [fst] in Hhd.
    rewrite members_cons in Hnin.
    destruct (Hkeys k (t :: r) t) as (te' & Hte & Hk); [left | left |]. rewrite Ht in Hte. injection Hte as <-.
    cbn [abs_insert]. destruct (ev_lt (ev e) (ev te)) eqn:Elt.
    + apply ev_lt_key in Elt. rewrite Hk in Elt. rewrite decide_True by done. do 2 eexists. split; [done |].
      exists a, []. eexists. split_and!; [done | done | apply lookup_insert_eq | done |].
      apply bin_list_frame; [by rewrite members_cons | done].
    + assert (~ klt (ekey (ev e)) k) as Hn by (rewrite <- Hk, <- ev_lt_key, Elt; done).
      assert (ekey (ev e) = k) as Hek by (destruct (klt_total (ekey (ev e)) k) as [?|[?|?]]; done).
      rewrite decide_False, decide_True by done. do 2 eexists. split; [done |].
      exists a, (t :: r). eexists. split_and!; [done | done | apply lookup_insert_eq | | apply bin_list_frame; [set_solver | done]].
      apply in_bin_frame; [set_solver |]. split; [done |]. exists te. done.
Qed.

Lemma wf_dom h hd bs a : wf h hd bs -> a ∈ members bs -> is_Some (h !! a).
Proof. intros Hwf (k & l & Hb & Hl)%elem_of_members. destruct (wf_keys _ _ _ Hwf k l a Hb Hl) as (e & He & _). by exists e. Qed.

(** The fuel of the loops is enough: there are no more bins, and no more events
    in a bin, than events in the store. *)
Lemma members_size h hd bs : wf h hd bs -> (length (members bs) <= size h)%nat.
Proof.
  intros Hwf. rewrite <- size_dom. rewrite <- (size_list_to_set (C := gset Z) (members bs)) by apply Hwf.
  apply subseteq_size. intros a Ha%elem_of_list_to_set. apply elem_of_dom. by eapply wf_dom.
Qed.

Lemma bin_list_length h bs : forall p, bin_list h p bs -> (length bs <= length (members bs))%nat.
Proof.
  induction bs as [|[k l] bs IH]; intros p Hl; [done |]. destruct Hl as (a & r & e & -> & _ & _ & _ & Hbs).
  rewrite members_cons, length_app. cbn [length]. specialize (IH _ Hbs). lia.
Qed.

Lemma bins_fuel h hd bs : wf h hd bs -> (length bs <= store_fuel h)%nat.
Proof. intros Hwf. pose proof (members_size _ _ _ Hwf). pose proof (bin_list_length _ _ _ (wf_list _ _ _ Hwf)). unfold store_fuel. lia. Qed.

(** Keys, sortedness and distinctness after an insertion. *)
Lemma wf_insert h h' hd hd' bs a e :
  wf h hd bs -> a ∉ members bs -> h !! a = Some e -> ev <$> h' = ev <$> h ->
  bin_list h' hd' (abs_insert (ekey (ev e)) a bs) -> wf h' hd' (abs_insert (ekey (ev e)) a bs).
Proof.
  intros Hwf Ha He Hev Hl.
  assert (forall x k, (exists ex, h !! x = Some ex /\ ekey (ev ex) = k) -> exists ex, h' !! x = Some ex /\ ekey (ev ex) = k) as Hk.
  { intros x k (ex & Hx & <-). assert ((ev <$> h') !! x = Some (ev ex)) as Hx' by (by rewrite Hev, lookup_fmap, Hx).
    rewrite lookup_fmap in Hx'. destruct (h' !! x) as [ex'|]; [| done]. injection Hx' as Hx'. exists ex'. by rewrite Hx'. }
  split; [done | apply abs_insert_sorted, Hwf | |].
  - rewrite abs_insert_members. constructor; [done | apply Hwf].
  - intros k l x Hb Hx. apply Hk.
    destruct (abs_insert_in _ _ _ _ _ Hb) as [[-> ->]|[Hb'|(-> & l' & -> & Hb')]].
    + apply list_elem_of_singleton in Hx as ->. by exists e.
    + by apply (wf_keys _ _ _ Hwf k l).
    + apply elem_of_cons in Hx as [->|Hx]; [by exists e | by apply (wf_keys _ _ _ Hwf _ l')].
Qed.

Lemma fmap_ev_insert (h : gmap Z Event) a e e' : h !! a = Some e -> ev e' = ev e -> ev <$> <[a := e']> h = ev <$> h.
Proof. intros He Hev. rewrite fmap_insert, Hev. apply insert_id. by rewrite lookup_fmap, He. Qed.

Lemma deref_some h a e : h !! a = Some e -> deref h a = Ok e.
Proof. unfold deref. by intros ->. Qed.

(** The event goes behind the bin of [t], in front of or into what follows. *)
Lemma insert_behind h hd a e pre k t r bs2 nb nib :
  let h1 := <[a := {| nextBin := nb; nextInBin := nib; ev := ev e |}]> h in
  let bs := pre ++ (k, t :: r) :: bs2 in
  wf h hd bs -> h !! a = Some e -> a ∉ members bs -> Forall (fun b => klt b.1 (ekey (ev e))) (pre ++ [(k, t :: r)]) ->
  bin_list h1 (Some a) (abs_insert (ekey (ev e)) a bs2) ->
  exists pe, deref h1 t = Ok pe /\ ev <$> <[t := pe ⟨ nextBin := Some a ⟩]> h1 = ev <$> h /\
    wf (<[t := pe ⟨ nextBin := Some a ⟩]> h1) hd (abs_insert (ekey (ev e)) a bs).
Proof.
  intros h1 bs Hwf He Ha Hlt Hl2. destruct (wf_keys _ _ _ Hwf k (t :: r) t) as (pe & Hpe & _); [set_solver | left |].
  assert (t <> a) as Hta by (intros ->; apply Ha; unfold bs; rewrite members_app, members_cons; set_solver).
  assert (h1 !! t = Some pe) as Hpe1 by (unfold h1; by rewrite lookup_insert_ne).
  exists pe. split; [by apply deref_some |].
  assert (ev <$> <[t := pe ⟨ nextBin := Some a ⟩]> h1 = ev <$> h) as Hev.
  { rewrite (fmap_ev_insert h1 t pe) by done. by eapply fmap_ev_insert. }
  split; [done |]. eapply wf_insert; try done. pose proof (wf_nodup _ _ _ Hwf) as Hnd.
  unfold bs in Ha, Hnd |- *. rewrite members_app, members_cons in Ha, Hnd.
  apply NoDup_app in Hnd as (_ & Hd1 & Hnd2). cbn [app] in Hnd2. apply NoDup_cons in Hnd2 as [Hnt Hnd2].
  replace (pre ++ (k, t :: r) :: bs2) with ((pre ++ [(k, t :: r)]) ++ bs2) by (by rewrite <- app_assoc).
  rewrite abs_insert_app, <- app_assoc by done.
  eapply (bin_list_splice h _ pre k t r bs2 _ pe); [apply Hwf | | done |].
  - intros x Hx. assert (x <> t /\ x <> a) as [? ?].
    { split; intros ->; [| set_solver]. apply elem_of_app in Hx as [Hx|Hx]; [by eapply Hd1; [exact Hx | left] | set_solver]. }
    rewrite lookup_insert_ne by done. unfold h1. by rewrite lookup_insert_ne.
  - exists (pe ⟨ nextBin := Some a ⟩). split; [apply lookup_insert_eq |]. split; [done |].
    apply bin_list_frame; [| done]. rewrite abs_insert_members. set_solver.
Qed.

Lemma same_head q h hd : head q = hd -> q ⟨ events := h ⟩ = q ⟨ events := h ⟩ ⟨ head := hd ⟩.
Proof. intros <-. by destruct q. Qed.

Lemma insert_event_spec q bs a e :
  wf (events q) (head q) bs -> events q !! a = Some e -> a ∉ members bs ->
  exists h hd, insert_event q a = Ok (q ⟨ events := h ⟩ ⟨ head := hd ⟩) /\
    ev <$> h = ev <$> events q /\ wf h hd (abs_insert (ekey (ev e)) a bs).
Proof.
  intros Hwf He Ha. pose proof (wf_list _ _ _ Hwf) as Hl. pose proof (wf_keys _ _ _ Hwf) as Hkeys.
  unfold insert_event. rewrite (deref_some _ _ _ He). rsimpl.
  assert (match bs with [] => True | b :: _ => ~ klt b.1 (ekey (ev e)) end ->
    exists h, insertBefore (events q) a (head q) = Ok h /\ ev <$> h = ev <$> events q /\
      wf h (Some a) (abs_insert (ekey (ev e)) a bs)) as Hfront.
  { intros Hhd. destruct (insertBefore_spec _ a e (head q) bs He Ha Hl Hkeys Hhd) as (nb & nib & -> & Hl').
    eexists. split; [done |]. split; [by eapply fmap_ev_insert |]. eapply wf_insert; try done. by eapply fmap_ev_insert. }
  destruct bs as [|[k0 l0] bs]; cbn in Hl.
  { rewrite Hl in *. destruct (Hfront I) as (h & -> & Hev & Hwf'). rsimpl. by eexists _, _. }
  destruct Hl as (t & r & te & -> & Hhd & Ht & Hr & Hbs). rewrite Hhd in *. rewrite (deref_some _ _ _ Ht). rsimpl.
  destruct (Hkeys k0 (t :: r) t) as (te' & Hte & Hk); [left | left |]. rewrite Ht in Hte. injection Hte as <-.
  destruct (ev_le (ev e) (ev te)) eqn:Ele.
  - destruct Hfront as (h & -> & Hev & Hwf'); [| rsimpl; by eexists _, _].
    cbn [fst]. apply ev_le_key in Ele. rewrite Hk in Ele. intros Hlt.
    destruct Ele as [Hlt'|Heq]; [exact (klt_irrefl _ (klt_trans _ _ _ Hlt Hlt')) | rewrite Heq in Hlt; by eapply klt_irrefl].
  - assert (klt k0 (ekey (ev e))) as Hlt0.
    { rewrite <- Hk. destruct (klt_total (ekey (ev te)) (ekey (ev e))) as [?|[Heq|Hlt]]; [done | |];
        (assert (ev_le (ev e) (ev te) = true) as Hc; [apply ev_le_key | by rewrite Hc in Ele]); auto. }
    pose proof (bins_fuel _ _ _ Hwf) as Hfuel. cbn [length] in Hfuel.
    destruct (find_bin_spec (events q) (ev e) bs (store_fuel (events q)) k0 t r (nextBin te))
      as (bs1 & bs2 & pre & k' & t' & r' & c' & -> & -> & Hlt & Hpre & Hl2 & Hhd2); [done | | lia |].
    { intros k l x Hin. apply Hkeys. by right. }
    rsimpl. assert ((k0, t :: r) :: bs1 ++ bs2 = pre ++ (k', t' :: r') :: bs2) as Hall.
    { change ((k0, t :: r) :: bs1 ++ bs2) with (((k0, t :: r) :: bs1) ++ bs2). rewrite Hpre, <- app_assoc. done. }
    pose proof Ha as Ha'. rewrite members_cons, members_app in Ha'.
    destruct (insertBefore_spec _ a e c' bs2 He ltac:(set_solver) Hl2) as (nb & nib & -> & Hl2'); [| done |].
    { intros k l x Hin. apply Hkeys. set_solver. }
    rsimpl. rewrite Hall in *. destruct (insert_behind (events q) (Some t) a e pre k' t' r' bs2 nb nib)
      as (pe & -> & Hev & Hwf'); [done | done | done | rewrite <- Hpre; by constructor | done |].
    rsimpl. eexists _, (Some t). split; [f_equal; by apply same_head | done].
Qed.

(** ** Removal refines [abs_remove] *)

Lemma find_item_found h a l2 l1 : forall fuel c p,
  in_bin h p (l1 ++ a :: l2) -> a ∉ l1 -> (length l1 <= fuel)%nat ->
  exists pre c', find_item fuel h a c p = Ok c' /\ c :: l1 = pre ++ [c'].
Proof.
  induction l1 as [|n l1 IH]; intros fuel c p Hl Ha Hf; cbn [app in_bin] in Hl; destruct Hl as (-> & e & He & Hl).
  - exists [], c. split; [| done]. destruct fuel; cbn [find_item]; by rewrite Z.eqb_refl.
  - destruct fuel as [|fuel]; [cbn in Hf; lia |]. cbn [find_item].
    rewrite (proj2 (Z.eqb_neq a n)) by set_solver. rewrite (deref_some _ _ _ He). rsimpl.
    destruct (IH fuel n (nextInBin e)) as (pre & c' & -> & Heq); [done | set_solver | cbn in Hf; lia |].
    exists (c :: pre), c'. split; [done |]. by rewrite Heq.
Qed.

Lemma find_item_missing h a l : forall fuel c p,
  in_bin h p l -> a ∉ l -> (length l <= fuel)%nat -> find_item fuel h a c p = Err EPanic.
Proof.
  induction l as [|n l IH]; intros fuel c p Hl Ha Hf; cbn [in_bin] in Hl; [subst p; by destruct fuel |].
  destruct Hl as (-> & e & He & Hl). destruct fuel as [|fuel]; [cbn in Hf; lia |]. cbn [find_item].
  rewrite (proj2 (Z.eqb_neq a n)) by set_solver. rewrite (deref_some _ _ _ He). rsimpl.
  apply IH; [done | set_solver | cbn in Hf; lia].
Qed.

Lemma in_bin_drop h c ce a ae l2 l1 : forall p,
  in_bin h p (l1 ++ c :: a :: l2) -> NoDup (l1 ++ c :: a :: l2) -> h !! c = Some ce -> h !! a = Some ae ->
  in_bin (<[c := ce ⟨ nextInBin := nextInBin ae ⟩]> h) p (l1 ++ c :: l2).
Proof.
  induction l1 as [|n l1 IH]; intros p Hl Hnd Hc Ha; cbn [app in_bin] in Hl |- *.
  - destruct Hl as (-> & e & He & _ & e' & He' & Hl). rewrite Ha in He'. injection He' as <-.
    split; [done |]. eexists. split; [apply lookup_insert_eq |]. cbn [app] in Hnd.
    apply NoDup_cons in Hnd as [Hc2 _]. apply in_bin_frame; [set_solver | done].
  - destruct Hl as (-> & e & He & Hl). split; [done |]. cbn [app] in Hnd. apply NoDup_cons in Hnd as [Hn Hnd].
    exists e. split; [rewrite lookup_insert_ne by set_solver; done | by apply IH].
Qed.

Lemma filter_all_ne (a : Z) (l : list Z) : a ∉ l -> filter (fun x => x <> a) l = l.
Proof.
  induction l as [|b l IH]; intros Ha; [done |]. rewrite filter_cons_True by set_solver. f_equal. apply IH. set_solver.
Qed.

Lemma abs_remove_other a bs : Forall (fun b => b.2 <> []) bs -> a ∉ members bs -> abs_remove a bs = bs.
Proof.
  induction 1 as [|[k l] bs Hl _ IH]; intros Ha; [done |]. rewrite members_cons in Ha.
  unfold abs_remove, drop_event. cbn [omap list_omap fst snd] in *. rewrite filter_all_ne by set_solver.
  destruct l; [done |]. f_equal. apply IH. set_solver.
Qed.

Lemma bin_list_nonempty h bs : forall p, bin_list h p bs -> Forall (fun b => b.2 <> []) bs.
Proof.
  induction bs as [|[k l] bs IH]; intros p Hl; [done |]. destruct Hl as (a & r & e & -> & _ & _ & _ & Hbs).
  constructor; [done | by eapply IH].
Qed.

Lemma in_bin_dom h l x : forall p, in_bin h p l -> x ∈ l -> is_Some (h !! x).
Proof.
  induction l as [|y l IH]; intros p Hl Hx; [by apply not_elem_of_nil in Hx |].
  destruct Hl as (_ & e & He & Hl). apply elem_of_cons in Hx as [->|Hx]; [by exists e | by eapply IH].
Qed.

(** The event is on top of its bin: the next one takes over the [nextBin] pointer. *)
Lemma removeItem_top h k t r te bs2 :
  h !! t = Some te -> in_bin h (nextInBin te) r -> bin_list h (nextBin te) bs2 -> NoDup (r ++ members bs2) ->
  exists h' p', removeItem h t t = Ok (h', p') /\
    bin_list h' p' (match r with [] => bs2 | _ => (k, r) :: bs2 end) /\
    ev <$> h' = ev <$> h /\ (forall x, x ∉ r -> h' !! x = h !! x).
Proof.
  intros Ht Hr Hbs Hnd. unfold removeItem. rewrite (deref_some _ _ _ Ht). rsimpl. rewrite Z.eqb_refl.
  destruct r as [|n r]; cbn [in_bin] in Hr.
  - rewrite Hr. eexists h, _. split; [done |]. by split_and!.
  - destruct Hr as (Hn & ne & Hne' & Hr). rewrite Hn, (deref_some _ _ _ Hne'). rsimpl.
    eexists _, _. split; [done |]. cbn [app] in Hnd. apply NoDup_cons in Hnd as [Hnn Hnd]. split_and!.
    + exists n, r. eexists. split_and!; [done | done | apply lookup_insert_eq | |].
      * apply in_bin_frame; [set_solver | done].
      * apply bin_list_frame; [set_solver | done].
    + by eapply fmap_ev_insert.
    + intros x Hx. apply lookup_insert_ne. set_solver.
Qed.

(** The event is further down: it is unlinked from the one above it. *)
Lemma removeItem_below h k t r1 a r2 te bs2 :
  let l := t :: r1 ++ a :: r2 in
  h !! t = Some te -> in_bin h (nextInBin te) (r1 ++ a :: r2) -> bin_list h (nextBin te) bs2 ->
  NoDup (l ++ members bs2) -> (length l <= store_fuel h)%nat ->
  exists h', removeItem h a t = Ok (h', Some t) /\ bin_list h' (Some t) ((k, t :: r1 ++ r2) :: bs2) /\
    ev <$> h' = ev <$> h /\ (forall x, x ∉ l -> h' !! x = h !! x).
Proof.
  intros l Ht Hr Hbs Hnd Hfuel. unfold removeItem. rewrite (deref_some _ _ _ Ht). rsimpl.
  pose proof Hnd as (Hndl & Hd & _)%NoDup_app. unfold l in *. pose proof Hndl as [Htn Hndr]%NoDup_cons.
  rewrite (proj2 (Z.eqb_neq a t)) by set_solver. apply NoDup_app in Hndr as (_ & Hd1 & _).
  destruct (find_item_found h a r2 r1 (store_fuel h) t (nextInBin te) Hr) as (pre & c & -> & Hpre).
  { intros Ha. by apply (Hd1 a Ha); left. }
  { rewrite length_cons, length_app in Hfuel. cbn [length] in Hfuel. lia. }
  rsimpl. assert (t :: r1 ++ a :: r2 = pre ++ c :: a :: r2) as Hsplit.
  { change (t :: r1 ++ a :: r2) with ((t :: r1) ++ a :: r2). rewrite Hpre, <- app_assoc. done. }
  assert (in_bin h (Some t) (pre ++ c :: a :: r2)) as Hbin by (rewrite <- Hsplit; split; [done | by exists te]).
  destruct (in_bin_dom h _ c _ Hbin) as [ce Hc]; [set_solver |]. destruct (in_bin_dom h _ a _ Hbin) as [ae Hae]; [set_solver |].
  rewrite (deref_some _ _ _ Hae). rsimpl. rewrite (deref_some _ _ _ Hc). rsimpl. rewrite Hsplit in Hndl.
  assert (c ∈ t :: r1) as Hct by (rewrite Hpre; set_solver).
  eexists. split; [done |]. split_and!; [| by eapply fmap_ev_insert | intros x Hx; apply lookup_insert_ne; set_solver].
  pose proof (in_bin_drop h c ce a ae r2 pre (Some t) Hbin Hndl Hc Hae) as Hdrop.
  replace (pre ++ c :: r2) with (t :: r1 ++ r2) in Hdrop.
  2: { change (t :: r1 ++ r2) with ((t :: r1) ++ r2). rewrite Hpre, <- app_assoc. done. }
  destruct Hdrop as (_ & te' & Hte' & Hrest). exists t, (r1 ++ r2), te'. split_and!; [done | done | done | done |].
  assert (nextBin te' = nextBin te) as ->.
  { destruct (decide (c = t)) as [->|Hct']; [| by rewrite lookup_insert_ne in Hte' by done; congruence].
    rewrite lookup_insert_eq in Hte'. injection Hte' as <-. cbn. congruence. }
  apply bin_list_frame; [| done]. apply Hd. set_solver.
Qed.

(** What [removeItem] does to a bin [l] that holds the event and the bins behind it. *)
Lemma removeItem_spec h k l bs2 top a :
  bin_list h (Some top) ((k, l) :: bs2) -> NoDup (l ++ members bs2) -> a ∈ l -> (length l <= store_fuel h)%nat ->
  exists h' p', removeItem h a top = Ok (h', p') /\ bin_list h' p' (abs_remove a ((k, l) :: bs2)) /\
    ev <$> h' = ev <$> h /\ (forall x, x ∉ l -> h' !! x = h !! x).
Proof.
  intros Hl Hnd Ha Hfuel. pose proof (bin_list_nonempty _ _ _ Hl) as Hne. apply Forall_cons in Hne as [_ Hne].
  destruct Hl as (t & r & te & -> & [= ->] & Ht & Hr & Hbs).
  assert (abs_remove a ((k, t :: r) :: bs2) = option_list (drop_event a (k, t :: r)) ++ bs2) as ->.
  { unfold abs_remove. cbn [omap list_omap]. fold (abs_remove a bs2). rewrite abs_remove_other; [| done |].
    - by destruct (drop_event a (k, t :: r)).
    - apply NoDup_app in Hnd as (_ & Hd & _). by apply Hd. }
  unfold drop_event. cbn [fst snd]. destruct (decide (a = t)) as [->|Hat].
  - cbn [app] in Hnd. apply NoDup_cons in Hnd as [Htn Hnd].
    rewrite filter_cons_False by (intros H; by apply H). rewrite filter_all_ne by set_solver.
    destruct (removeItem_top h k t r te bs2 Ht Hr Hbs Hnd) as (h' & p' & -> & Hl' & Hev & Hsame).
    exists h', p'. split_and!; [done | by destruct r | done |]. intros x Hx. apply Hsame. set_solver.
  - apply elem_of_cons in Ha as [|Ha]; [done |]. destruct (list_elem_of_split_l _ _ Ha) as (r1 & r2 & -> & Ha1).
    destruct (removeItem_below h k t r1 a r2 te bs2 Ht Hr Hbs Hnd Hfuel) as (h' & -> & Hl' & Hev & Hsame).
    rewrite filter_cons_True, filter_app, filter_cons_False by (done || (intros H; by apply H)).
    rewrite !filter_all_ne; [by eexists _, _ | | done].
    apply NoDup_app in Hnd as (Hnd & _ & _). apply NoDup_cons in Hnd as [_ Hnd].
    apply NoDup_app in Hnd as (_ & _ & Hnd). by apply NoDup_cons in Hnd as [? _].
Qed.

Lemma removeItem_missing h k l bs2 top a :
  bin_list h (Some top) ((k, l) :: bs2) -> a ∉ l -> (length l <= store_fuel h)%nat -> removeItem h a top = Err EPanic.
Proof.
  intros (t & r & te & -> & [= ->] & Ht & Hr & _) Ha Hf. unfold removeItem. rewrite (deref_some _ _ _ Ht). rsimpl.
  rewrite (proj2 (Z.eqb_neq a t)) by set_solver. rewrite (find_item_missing h a r); [done | done | set_solver | cbn in Hf; lia].
Qed.

Lemma abs_remove_members a bs : members (abs_remove a bs) = filter (fun x => x <> a) (members bs).
Proof.
  induction bs as [|[k l] bs IH]; [done |]. rewrite members_cons, filter_app, <- IH.
  unfold abs_remove, drop_event. cbn [omap list_omap fst snd]. destruct (filter _ l) eqn:E; [done |]. by rewrite members_cons.
Qed.

Lemma abs_remove_in a bs k l : (k, l) ∈ abs_remove a bs -> exists l0, (k, l0) ∈ bs /\ forall x, x ∈ l -> x ∈ l0.
Proof.
  intros ([k' l'] & Hb & Hd)%list_elem_of_omap. unfold drop_event in Hd. cbn [fst snd] in Hd.
  destruct (filter _ l') eqn:E; [done |]. injection Hd as <- <-. exists l'. split; [done |]. rewrite <- E.
  intros x Hx. by apply list_elem_of_filter in Hx as [_ ?].
Qed.

Lemma abs_remove_sorted a bs : StronglySorted klt (fst <$> bs) -> StronglySorted klt (fst <$> abs_remove a bs).
Proof.
  induction bs as [|[k l] bs IH]; intros Hs; [done |]. cbn [fmap list_fmap fst] in Hs.
  apply StronglySorted_inv in Hs as [Hs Hf]. unfold abs_remove. cbn [omap list_omap]. fold (abs_remove a bs).
  unfold drop_event at 1. cbn [fst snd]. destruct (filter _ l); [by apply IH |]. cbn [fmap list_fmap fst].
  constructor; [by apply IH |]. apply Forall_forall. intros x ([k' l'] & -> & (l1 & Hb & _)%abs_remove_in)%list_elem_of_fmap.
  rewrite Forall_forall in Hf. apply Hf, list_elem_of_fmap. by exists (k', l1).
Qed.

Lemma wf_remove h h' hd hd' bs a :
  wf h hd bs -> ev <$> h' = ev <$> h -> bin_list h' hd' (abs_remove a bs) -> wf h' hd' (abs_remove a bs).
Proof.
  intros Hwf Hev Hl. split; [done | apply abs_remove_sorted, Hwf | |].
  - rewrite abs_remove_members. apply NoDup_filter, Hwf.
  - intros k l x (l0 & Hb & Hsub)%abs_remove_in Hx.
    destruct (wf_keys _ _ _ Hwf k l0 x Hb (Hsub x Hx)) as (ex & Hex & <-).
    assert ((ev <$> h') !! x = Some (ev ex)) as Hx' by (by rewrite Hev, lookup_fmap, Hex).
    rewrite lookup_fmap in Hx'. destruct (h' !! x) as [ex'|]; [| done]. injection Hx' as Hx'. exists ex'. by rewrite Hx'.
Qed.

Lemma abs_remove_app a bs1 bs2 : abs_remove a (bs1 ++ bs2) = abs_remove a bs1 ++ abs_remove a bs2.
Proof. apply omap_app. Qed.

(** Members have the key of their bin, so an event can only be in the bin of its key. *)
Lemma bin_of_key h hd bs a e k l :
  wf h hd bs -> h !! a = Some e -> (k, l) ∈ bs -> a ∈ l -> k = ekey (ev e).
Proof. intros Hwf He Hb Ha. destruct (wf_keys _ _ _ Hwf k l a Hb Ha) as (e' & He' & <-). congruence. Qed.

(** Bins after the first have greater keys. *)
Lemma sorted_tail k0 l0 (bs : bins) k l :
  StronglySorted klt (fst <$> ((k0, l0) :: bs)) -> (k, l) ∈ bs -> klt k0 k.
Proof.
  cbn [fmap list_fmap fst]. intros [_ Hf]%StronglySorted_inv Hb. rewrite Forall_forall in Hf. apply Hf, list_elem_of_fmap. by exists (k, l).
Qed.

Lemma sorted_app_r (bs1 bs2 : bins) : StronglySorted klt (fst <$> (bs1 ++ bs2)) -> StronglySorted klt (fst <$> bs2).
Proof. induction bs1 as [|[k l] bs1 IH]; [done |]. intros [Hs _]%StronglySorted_inv. by apply IH. Qed.

Lemma bin_length h hd bs k l : wf h hd bs -> (k, l) ∈ bs -> (length l <= store_fuel h)%nat.
Proof.
  intros Hwf (bs1 & bs2 & ->)%list_elem_of_split. pose proof (members_size _ _ _ Hwf) as Hs.
  rewrite members_app, members_cons, !length_app in Hs. unfold store_fuel. lia.
Qed.

(** Removal from a bin that is not the first. *)
Lemma remove_behind h hd pre k t r k2 t2 r2 bs2 a :
  let bs := pre ++ (k, t :: r) :: (k2, t2 :: r2) :: bs2 in
  wf h hd bs -> bin_list h (Some t2) ((k2, t2 :: r2) :: bs2) -> a ∈ t2 :: r2 ->
  exists h' p' pe, removeItem h a t2 = Ok (h', p') /\ deref h' t = Ok pe /\
    ev <$> <[t := pe ⟨ nextBin := p' ⟩]> h' = ev <$> h /\ wf (<[t := pe ⟨ nextBin := p' ⟩]> h') hd (abs_remove a bs).
Proof.
  intros bs Hwf Hl2 Ha. pose proof (wf_nodup _ _ _ Hwf) as Hnd. unfold bs in Hnd.
  rewrite members_app, !members_cons in Hnd. pose proof Hnd as (Hnd1 & Hd1 & Hnd2)%NoDup_app.
  pose proof Hnd2 as (Hnd3 & Hd2 & Hnd4)%NoDup_app.
  destruct (removeItem_spec h k2 (t2 :: r2) bs2 t2 a Hl2 Hnd4 Ha) as (h' & p' & Hrem & Hl' & Hev & Hsame).
  { eapply (bin_length _ _ _ k2); [exact Hwf | unfold bs; set_solver]. }
  destruct (wf_keys _ _ _ Hwf k (t :: r) t) as (pe & Hpe & _); [unfold bs; set_solver | left |].
  assert (forall x, x ∈ members pre ++ t :: r -> h' !! x = h !! x) as Hsame'.
  { intros x Hx. apply Hsame. intros Hx2. apply elem_of_app in Hx as [Hx|Hx]; [apply (Hd1 x Hx) | apply (Hd2 x Hx)]; set_solver. }
  assert (h' !! t = Some pe) as Hpe' by (rewrite Hsame' by set_solver; done).
  exists h', p', pe. split_and!; [done | by apply deref_some | by rewrite (fmap_ev_insert h' t pe) |].
  eapply wf_remove; [exact Hwf | by rewrite (fmap_ev_insert h' t pe) |].
  assert (a ∉ members (pre ++ [(k, t :: r)])) as Hna.
  { rewrite members_app. cbn. rewrite app_nil_r. intros [Hx|Hx]%elem_of_app; [apply (Hd1 a Hx) | apply (Hd2 a Hx)]; set_solver. }
  assert (abs_remove a bs = pre ++ (k, t :: r) :: abs_remove a ((k2, t2 :: r2) :: bs2)) as ->.
  { unfold bs. change (pre ++ (k, t :: r) :: ?x) with (pre ++ [(k, t :: r)] ++ x). rewrite !app_assoc, abs_remove_app.
    rewrite (abs_remove_other a (pre ++ _)); [done | | done].
    pose proof (bin_list_nonempty _ _ _ (wf_list _ _ _ Hwf)) as Hne. unfold bs in Hne.
    apply Forall_app in Hne as [? [? _]%Forall_cons]. apply Forall_app. split; [done | by constructor]. }
  eapply (bin_list_splice h _ pre k t r _ _ pe); [apply Hwf | | done |].
  - intros x Hx. apply NoDup_cons in Hnd3 as [Htr _]. rewrite lookup_insert_ne; [apply Hsame'; set_solver |].
    intros <-. apply elem_of_app in Hx as [Hx|Hx]; [apply (Hd1 t Hx) |]; set_solver.
  - exists (pe ⟨ nextBin := p' ⟩). split; [apply lookup_insert_eq |]. split; [done |]. apply bin_list_frame; [| done].
    rewrite abs_remove_members, members_cons. intros [_ Hx]%list_elem_of_filter. apply (Hd2 t); [left | done].
Qed.

(** After the loop, the event is on the queue exactly if it is in the bin that was found. *)
Lemma found_bin h hd k0 l0 bs1 bs2 a e :
  wf h hd ((k0, l0) :: bs1 ++ bs2) -> h !! a = Some e -> k0 <> ekey (ev e) ->
  Forall (fun b => klt b.1 (ekey (ev e))) bs1 -> match bs2 with [] => True | b :: _ => ~ klt b.1 (ekey (ev e)) end ->
  a ∈ members ((k0, l0) :: bs1 ++ bs2) <-> match bs2 with [] => False | b :: _ => b.1 = ekey (ev e) /\ a ∈ b.2 end.
Proof.
  intros Hwf He Hne Hlt Hhd. rewrite elem_of_members. split.
  - intros (k & l & Hb & Ha). pose proof (bin_of_key _ _ _ _ _ k l Hwf He Hb Ha) as ->.
    apply elem_of_cons in Hb as [Hb|Hb]; [exfalso; apply Hne; congruence |]. apply elem_of_app in Hb as [Hb|Hb].
    { rewrite Forall_forall in Hlt. by apply Hlt, klt_irrefl in Hb. }
    destruct bs2 as [|[k2 l2] bs2]; [by apply not_elem_of_nil in Hb |]. apply elem_of_cons in Hb as [Hb|Hb]; [cbn [fst snd]; split; congruence |].
    exfalso. apply Hhd. eapply sorted_tail; [| exact Hb]. pose proof (wf_sorted _ _ _ Hwf) as [Hs _]%StronglySorted_inv.
    by apply sorted_app_r in Hs.
  - destruct bs2 as [|[k2 l2] bs2]; [done |]. intros [_ Ha]. exists k2, l2. split; [set_solver | done].
Qed.

Lemma remove_event_spec q bs a e :
  wf (events q) (head q) bs -> events q !! a = Some e -> ev_queue (ev e) = Some (eq_this q) ->
  if decide (a ∈ members bs) then
    exists h hd, remove_event q a = Ok (q ⟨ events := h ⟩ ⟨ head := hd ⟩) /\
      ev <$> h = ev <$> events q /\ wf h hd (abs_remove a bs)
  else remove_event q a = Err EPanic.
Proof.
  intros Hwf He Hq. pose proof (wf_list _ _ _ Hwf) as Hl. pose proof (wf_sorted _ _ _ Hwf) as Hsort.
  unfold remove_event. destruct bs as [|[k0 l0] bs]; [cbn in Hl; by rewrite Hl |].
  pose proof Hl as (t & r & te & -> & Hhd & Ht & Hr & Hbs). rewrite Hhd in *.
  rewrite (deref_some _ _ _ He). rsimpl. rewrite bool_decide_true by done. rsimpl. rewrite (deref_some _ _ _ Ht). rsimpl.
  pose proof (bin_of_key _ _ _ _ _ k0 (t :: r) Hwf Ht ltac:(left) ltac:(left)) as Hk0.
  destruct (ev_eq (ev te) (ev e)) eqn:Eeq.
  - apply ev_eq_key in Eeq. rewrite <- Hk0 in Eeq.
    assert (a ∈ members ((k0, t :: r) :: bs) <-> a ∈ t :: r) as Hiff.
    { rewrite members_cons, elem_of_app. split; [| by left]. intros [?|(k & l & Hb & Ha)%elem_of_members]; [done |].
      pose proof (sorted_tail _ _ _ _ _ Hsort Hb) as Hlt.
      rewrite (bin_of_key _ _ _ _ _ k l Hwf He), Eeq in Hlt; [by apply klt_irrefl in Hlt | by right | done]. }
    pose proof (bin_length _ _ _ k0 (t :: r) Hwf ltac:(left)) as Hfuel.
    pose proof (wf_nodup _ _ _ Hwf) as Hnd. rewrite members_cons in Hnd. case_decide as Hin; rewrite Hiff in Hin.
    + destruct (removeItem_spec _ k0 (t :: r) bs t a Hl Hnd Hin Hfuel) as (h' & p' & -> & Hl' & Hev & _). rsimpl.
      eexists _, _. split; [done |]. split; [done |]. by eapply wf_remove.
    + by rewrite (removeItem_missing _ k0 (t :: r) bs t a Hl Hin Hfuel).
  - assert (k0 <> ekey (ev e)) as Hne by (rewrite Hk0, <- ev_eq_key, Eeq; done).
    pose proof (bins_fuel _ _ _ Hwf) as Hfuel. cbn [length] in Hfuel.
    destruct (find_bin_spec (events q) (ev e) bs (store_fuel (events q)) k0 t r (nextBin te))
      as (bs1 & bs2 & pre & k' & t' & r' & c' & -> & -> & Hlt & Hpre & Hl2 & Hhd2); [done | | lia |].
    { intros k l x Hin. apply (wf_keys _ _ _ Hwf). by right. }
    rsimpl. pose proof (found_bin _ _ _ _ _ _ a e Hwf He Hne Hlt Hhd2) as Hiff.
    destruct bs2 as [|[k2 l2] bs2]; [cbn in Hl2; subst c'; case_decide as Hd; [by apply Hiff in Hd | done] |].
    pose proof Hl2 as (t2 & r2 & te2 & -> & -> & Ht2 & _ & _). rewrite (deref_some _ _ _ Ht2). rsimpl. cbn [fst snd] in Hiff.
    pose proof (bin_of_key _ _ _ _ _ k2 (t2 :: r2) Hwf Ht2 ltac:(set_solver) ltac:(left)) as Hk2.
    assert (Hall : (k0, t :: r) :: bs1 ++ (k2, t2 :: r2) :: bs2 = pre ++ (k', t' :: r') :: (k2, t2 :: r2) :: bs2).
    { change (?x :: bs1 ++ ?y) with ((x :: bs1) ++ y). rewrite Hpre, <- app_assoc. done. }
    destruct (ev_eq (ev te2) (ev e)) eqn:Eeq2; cbn [negb].
    + apply ev_eq_key in Eeq2. pose proof (bin_length _ _ _ k2 (t2 :: r2) Hwf ltac:(set_solver)) as Hfuel2.
      case_decide as Hin; rewrite Hiff in Hin.
      * destruct Hin as [_ Hin]. rewrite Hall in *.
        destruct (remove_behind _ _ pre k' t' r' k2 t2 r2 bs2 a Hwf Hl2 Hin) as (h' & p' & pe & -> & Hpe & Hev & Hwf').
        rsimpl. rewrite Hpe. rsimpl. eexists _, (Some t). split; [f_equal; by apply same_head | done].
      * rewrite (removeItem_missing _ k2 (t2 :: r2) bs2 t2 a Hl2); [done | | done]. intros Ha. apply Hin. split; [congruence | done].
    + case_decide as Hin; [| done]. apply Hiff in Hin as [Hk _]. rewrite Hk2, <- ev_eq_key, Eeq2 in Hk. done.
Qed.

(** ** Taking the first event *)

Definition unschedule (i : EvInfo) : EvInfo := i ⟨ flags := flag_clear (flags i) Scheduled ⟩.

Lemma wf_upd h hd bs a e f :
  wf h hd bs -> h !! a = Some e -> (a ∈ members bs -> ekey (f (ev e)) = ekey (ev e)) ->
  wf (<[a := e ⟨ ev := f (ev e) ⟩]> h) hd bs.
Proof.
  intros Hwf Ha Hf. split; [| apply Hwf | apply Hwf |].
  - eapply bin_list_ext; [| apply Hwf]. intros x ex Hx Hex. destruct (decide (x = a)) as [->|Hne].
    + rewrite lookup_insert_eq. eexists. split; [done |]. rewrite Ha in Hex. by injection Hex as <-.
    + rewrite lookup_insert_ne by done. by exists ex.
  - intros k l x Hb Hx. destruct (wf_keys _ _ _ Hwf k l x Hb Hx) as (ex & Hex & <-).
    destruct (decide (x = a)) as [->|Hne].
    + rewrite lookup_insert_eq. eexists. split; [done |]. rewrite Ha in Hex. injection Hex as <-. cbn.
      apply Hf, elem_of_members. by exists (ekey (ev e)), l.
    + rewrite lookup_insert_ne by done. by exists ex.
Qed.

Lemma wf_delete h hd bs a : wf h hd bs -> a ∉ members bs -> wf (delete a h) hd bs.
Proof.
  intros Hwf Ha. split; [| apply Hwf | apply Hwf |].
  - eapply bin_list_ext; [| apply Hwf]. intros x ex Hx Hex. exists ex. by rewrite lookup_delete_ne by (intros ->; done).
  - intros k l x Hb Hx. destruct (wf_keys _ _ _ Hwf k l x Hb Hx) as (ex & Hex & <-). exists ex.
    rewrite lookup_delete_ne; [done |]. intros ->. apply Ha, elem_of_members. by exists (ekey (ev ex)), l.
Qed.

(** [serviceOne] unlinks the head as [removeItem] would. *)
Lemma pop_removeItem q a e h p :
  head q = Some a -> events q !! a = Some e -> nextInBin e <> Some a -> removeItem (events q) a a = Ok (h, p) ->
  pop_event q = Ok (q ⟨ events := <[a := e ⟨ ev := unschedule (ev e) ⟩]> h ⟩ ⟨ head := p ⟩, a).
Proof.
  intros Hhd He Hne. unfold removeItem, pop_event. rewrite Hhd, (deref_some _ _ _ He), Z.eqb_refl. rsimpl.
  cbn [setf nextBin nextInBin ev]. destruct (nextInBin e) as [n|]; [| by intros [= <- <-]].
  intros (ne & Hd & [= <- <-])%res_bind_Ok_inv. unfold deref in Hd |- *.
  rewrite lookup_insert_ne by congruence. destruct (events q !! n) as [ne'|]; [| done]. injection Hd as ->.
  rsimpl. do 3 f_equal. rewrite insert_insert_ne by congruence. done.
Qed.

Lemma abs_remove_top k a r bs :
  NoDup (members ((k, a :: r) :: bs)) -> Forall (fun b => b.2 <> []) bs ->
  abs_remove a ((k, a :: r) :: bs) = match r with [] => bs | _ => (k, r) :: bs end.
Proof.
  rewrite members_cons. cbn [app]. intros [Ha _]%NoDup_cons Hne. unfold abs_remove, drop_event. cbn [omap list_omap fst snd].
  rewrite filter_cons_False by (intros H; by apply H). rewrite filter_all_ne by set_solver.
  fold (drop_event a). change (omap (drop_event a) bs) with (abs_remove a bs).
  rewrite abs_remove_other by (done || set_solver). by destruct r.
Qed.

Lemma pop_event_spec q k a r bs :
  wf (events q) (head q) ((k, a :: r) :: bs) ->
  exists h hd e, pop_event q = Ok (q ⟨ events := h ⟩ ⟨ head := hd ⟩, a) /\ events q !! a = Some e /\
    ev <$> h = <[a := unschedule (ev e)]> (ev <$> events q) /\ wf h hd (abs_remove a ((k, a :: r) :: bs)).
Proof.
  intros Hwf. pose proof (wf_list _ _ _ Hwf) as (t & r' & e & [= <- <-] & Hhd & He & Hr & Hbs).
  pose proof (wf_nodup _ _ _ Hwf) as Hnd. pose proof Hnd as Hnd0. rewrite members_cons in Hnd. cbn [app] in Hnd.
  apply NoDup_cons in Hnd as [Ha Hnd].
  destruct (removeItem_top _ k a r e bs He Hr Hbs Hnd) as (h & p & Hrem & Hl & Hev & Hsame).
  rewrite <- (abs_remove_top k a r bs) in Hl by (done || by eapply bin_list_nonempty).
  assert (h !! a = Some e) as Hea by (rewrite Hsame; [done | set_solver]).
  eexists _, p, e. split; [eapply pop_removeItem; try done | split; [done |]].
  { destruct r as [|n r]; [by rewrite Hr |]. destruct Hr as [-> _]. intros [= ->]. set_solver. }
  split; [by rewrite fmap_insert, Hev |]. apply wf_upd; [by eapply wf_remove | done |].
  rewrite abs_remove_members. by intros [? _]%list_elem_of_filter.
Qed.
