(* ===== verification/EventRefinement.v ===== *)
(** * The event queue refines a sorted list of bins

    Every operation of [EventQueue.v], with its assertions and panics, and runs
    of the simulation loop in which events schedule, deschedule and squash
    others, against an abstract queue without pointers. *)
From S2P Require Import Prelude EventQueue.

#[local] Set Default Proof Using "Type".

(** ** Flags *)

Lemma isSet_bit fl n : 0 <= n -> isSet fl (2 ^ n) = Z.testbit fl n.
Proof.
  intros Hn. unfold isSet.
  assert (Z.land fl (2 ^ n) = if Z.testbit fl n then 2 ^ n else 0) as ->.
  { apply Z.bits_inj'. intros m Hm. rewrite Z.land_spec, Z.pow2_bits_eqb by done.
    destruct (n =? m) eqn:E; b2p; [subst m |].
    - destruct (Z.testbit fl n) eqn:F; rewrite ?Z.bits_0; [| done]. by rewrite Z.pow2_bits_true by done.
    - rewrite andb_false_r. destruct (Z.testbit fl n); rewrite ?Z.bits_0; [| done]. rewrite Z.pow2_bits_false by done. done. }
  destruct (Z.testbit fl n); [| done]. pose proof (Z.pow_pos_nonneg 2 n). lia.
Qed.

Lemma scheduled_bit e : scheduled e = Z.testbit (flags e) 1.
Proof. apply (isSet_bit _ 1). lia. Qed.

Lemma scheduled_set i : scheduled (i ⟨ flags := flag_set (flags i) Scheduled ⟩) = true.
Proof. rewrite scheduled_bit. cbn [setf flags unschedule]. unfold flag_set. by rewrite Z.lor_spec, orb_true_r. Qed.
Lemma scheduled_clear i : scheduled (unschedule i) = false.
Proof. rewrite scheduled_bit. cbn [setf flags unschedule]. unfold flag_clear. by rewrite Z.ldiff_spec, andb_false_r. Qed.
Lemma scheduled_squash i : scheduled (i ⟨ flags := flag_set (flags i) Squashed ⟩) = scheduled i.
Proof. rewrite !scheduled_bit. cbn [setf flags unschedule]. unfold flag_set. by rewrite Z.lor_spec, orb_false_r. Qed.
Lemma scheduled_unsquash i : scheduled (i ⟨ flags := flag_clear (flags i) Squashed ⟩) = scheduled i.
Proof. rewrite !scheduled_bit. cbn [setf flags unschedule]. unfold flag_clear. by rewrite Z.ldiff_spec, andb_true_r. Qed.

(** ** The abstract queue *)

Record AQ := { a_evs : gmap Z EvInfo; a_bins : bins; a_tick : Z; a_async : list Z }.

#[export] Instance AQ_eta : Eta AQ := {| eta := fun s =>
  {| a_evs := a_evs s; a_bins := a_bins s; a_tick := a_tick s; a_async := a_async s |} |}.

Definition a_get (s : AQ) (a : Z) : res EvInfo :=
  match a_evs s !! a with Some i => Ok i | None => Err EUninit end.
Definition a_put (s : AQ) (a : Z) (i : EvInfo) : AQ := s ⟨ a_evs := <[a := i]> (a_evs s) ⟩.

Definition a_release (s : AQ) (a : Z) : res AQ :=
  i ← a_get s a;
  if isManaged i && negb (scheduled i) then Ok (s ⟨ a_evs := delete a (a_evs s) ⟩) else Ok s.

Section Abstract.
Context (this cur : Z) (par : bool).

Definition a_schedule (s : AQ) (a when : Z) (global : bool) : res AQ :=
  _ ← cassert (a_tick s <=? when);
  i ← a_get s a;
  _ ← cassert (negb (scheduled i));
  _ ← cassert (initialized i);
  let i := setWhen i when this in
  let s := if par && (negb (this =? cur) || global) then s ⟨ a_async := a_async s ++ [a] ⟩
           else s ⟨ a_bins := abs_insert (ekey i) a (a_bins s) ⟩ in
  Ok (a_put s a (i ⟨ flags := flag_set (flags i) Scheduled ⟩)).

(** Only events in the bins can be removed, not those still in the asynchronous queue. *)
Definition a_remove (s : AQ) (a : Z) : res AQ :=
  if decide (a ∈ members (a_bins s)) then Ok (s ⟨ a_bins := abs_remove a (a_bins s) ⟩) else Err EPanic.

Definition a_deschedule (s : AQ) (a : Z) : res AQ :=
  i ← a_get s a;
  _ ← cassert (scheduled i);
  _ ← cassert (initialized i);
  _ ← cassert (negb par || (this =? cur));
  s ← a_remove s a;
  a_release (a_put s a (i ⟨ flags := flag_clear (flag_clear (flags i) Squashed) Scheduled ⟩)) a.

Definition a_reschedule (s : AQ) (a when : Z) (always : bool) : res AQ :=
  _ ← cassert (a_tick s <=? when);
  i ← a_get s a;
  _ ← cassert (always || scheduled i);
  _ ← cassert (initialized i);
  _ ← cassert (negb par || (this =? cur));
  s ← (if scheduled i then a_remove s a else Ok s);
  let i := setWhen i when this in
  let s := s ⟨ a_bins := abs_insert (ekey i) a (a_bins s) ⟩ in
  Ok (a_put s a (i ⟨ flags := flag_set (flag_clear (flags i) Squashed) Scheduled ⟩)).

Definition a_squash (s : AQ) (a : Z) : res AQ :=
  i ← a_get s a; Ok (a_put s a (i ⟨ flags := flag_set (flags i) Squashed ⟩)).

Definition a_key (s : AQ) (a : Z) : key := match a_evs s !! a with Some i => ekey i | None => (0, 0) end.

Definition a_handleAsync (s : AQ) : res AQ :=
  _ ← cassert (this =? cur);
  Ok (s ⟨ a_bins := foldl (fun bs a => abs_insert (a_key s a) a bs) (a_bins s) (a_async s) ⟩ ⟨ a_async := [] ⟩).

(** ** What an event's [process()] does to the queue *)

Inductive ev_op :=
  | OpSchedule (a when : Z) (global : bool)
  | OpDeschedule (a : Z)
  | OpReschedule (a when : Z) (always : bool)
  | OpSquash (a : Z)
  | OpAsync.

Definition ev_step (q : EventQueue) (o : ev_op) : res EventQueue :=
  match o with
  | OpSchedule a when global => schedule par cur q a when global
  | OpDeschedule a => deschedule par cur q a
  | OpReschedule a when always => reschedule par cur q a when always
  | OpSquash a => squash q a
  | OpAsync => handleAsyncInsertions cur q
  end.

Definition a_step (s : AQ) (o : ev_op) : res AQ :=
  match o with
  | OpSchedule a when global => a_schedule s a when global
  | OpDeschedule a => a_deschedule s a
  | OpReschedule a when always => a_reschedule s a when always
  | OpSquash a => a_squash s a
  | OpAsync => a_handleAsync s
  end.

(** ** The refinement relation *)

Record a_ok (s : AQ) : Prop := {
  ao_sched : forall a i, a_evs s !! a = Some i -> (scheduled i = true <-> a ∈ members (a_bins s) \/ a ∈ a_async s);
  ao_queue : forall a, a ∈ members (a_bins s) \/ a ∈ a_async s -> exists i, a_evs s !! a = Some i /\ ev_queue i = Some this;
  ao_nodup : NoDup (members (a_bins s) ++ a_async s)
}.

(** The pointer structure represents the bins; the flags are not looked at. *)
Record linked (q : EventQueue) (s : AQ) : Prop := {
  lk_this : eq_this q = this;
  lk_evs : ev <$> events q = a_evs s;
  lk_tick : _curTick q = a_tick s;
  lk_async : async_queue q = a_async s;
  lk_wf : wf (events q) (head q) (a_bins s)
}.

Definition refines (q : EventQueue) (s : AQ) : Prop := linked q s /\ a_ok s.

(** The same error, or related results. *)
Definition simulates {A B} (R : A -> B -> Prop) (m : res A) (m' : res B) : Prop :=
  match m' with Ok b => exists a, m = Ok a /\ R a b | Err e => m = Err e end.

Lemma simulates_bind {A B A' B'} (R : A -> B -> Prop) (R' : A' -> B' -> Prop) m m' f f' :
  simulates R m m' -> (forall a b, R a b -> simulates R' (f a) (f' b)) -> simulates R' (m ≫= f) (m' ≫= f').
Proof. unfold simulates. destruct m' as [b|e]; [intros (a & -> & HR) Hf; by apply Hf | by intros ->]. Qed.

Lemma simulates_assert {A B} (R : A -> B -> Prop) b (m : res A) (m' : res B) :
  (b = true -> simulates R m m') -> simulates R (_ ← cassert b; m) (_ ← cassert b; m').
Proof. destruct b; [by intros H; apply H | done]. Qed.

Lemma foldM_simulates {A} (f : EventQueue -> A -> res EventQueue) (g : AQ -> A -> res AQ) l : forall q s,
  (forall q s x, refines q s -> simulates refines (f q x) (g s x)) -> refines q s -> simulates refines (foldM f l q) (foldM g l s).
Proof.
  induction l as [|x l IH]; intros q s Hf Hr; cbn [foldM]; [by exists q |].
  eapply simulates_bind; [by apply Hf |]. intros q' s' Hr'. by apply IH.
Qed.

(** ** The primitives *)

Lemma linked_get q s a : linked q s ->
  simulates (fun e i => events q !! a = Some e /\ a_evs s !! a = Some i /\ ev e = i) (deref (events q) a) (a_get s a).
Proof.
  intros Hl. unfold simulates, a_get, deref. rewrite <- (lk_evs _ _ Hl), lookup_fmap.
  destruct (events q !! a) as [e|] eqn:E; cbn; [| done]. by exists e.
Qed.

Lemma linked_lookup q s a i : linked q s -> a_evs s !! a = Some i -> exists e, events q !! a = Some e /\ ev e = i.
Proof.
  intros Hl. rewrite <- (lk_evs _ _ Hl), lookup_fmap. destruct (events q !! a) as [e|]; [| done].
  intros [= <-]. by exists e.
Qed.

Lemma linked_upd q s a i f :
  linked q s -> a_evs s !! a = Some i -> (a ∈ members (a_bins s) -> ekey (f i) = ekey i) ->
  exists q', upd_ev q a f = Ok q' /\ linked q' (a_put s a (f i)).
Proof.
  intros Hl Ha Hf. destruct (linked_lookup q s a i Hl Ha) as (e & He & <-). unfold upd_ev.
  rewrite (deref_some _ _ _ He). rsimpl. eexists. split; [done |]. destruct Hl as [H1 H2 H3 H4 H5].
  split; cbn; [done | by rewrite fmap_insert, H2 | done | done |]. by apply wf_upd.
Qed.

Lemma linked_insert q s a i :
  linked q s -> a_evs s !! a = Some i -> a ∉ members (a_bins s) ->
  exists q', insert_event q a = Ok q' /\ linked q' (s ⟨ a_bins := abs_insert (ekey i) a (a_bins s) ⟩).
Proof.
  intros Hl Ha Hn. destruct (linked_lookup q s a i Hl Ha) as (e & He & <-). destruct Hl as [H1 H2 H3 H4 H5].
  destruct (insert_event_spec q (a_bins s) a e H5 He Hn) as (h & hd & -> & Hev & Hwf).
  eexists. split; [done |]. split; cbn; [done | by rewrite Hev | done | done | done].
Qed.

Lemma linked_remove q s a i :
  linked q s -> a_evs s !! a = Some i -> ev_queue i = Some this ->
  simulates linked (remove_event q a) (a_remove s a).
Proof.
  intros Hl Ha Hq. destruct (linked_lookup q s a i Hl Ha) as (e & He & <-). destruct Hl as [H1 H2 H3 H4 H5].
  rewrite <- H1 in Hq. pose proof (remove_event_spec q (a_bins s) a e H5 He Hq) as Hr.
  unfold simulates, a_remove. case_decide; [| done]. destruct Hr as (h & hd & -> & Hev & Hwf).
  eexists. split; [done |]. split; cbn; [done | by rewrite Hev | done | done | done].
Qed.

Lemma linked_release q s a :
  linked q s -> (forall i, a_evs s !! a = Some i -> scheduled i = false -> a ∉ members (a_bins s)) ->
  simulates linked (release q a) (a_release s a).
Proof.
  intros Hl Hn. unfold release, a_release. eapply simulates_bind; [by apply linked_get |].
  intros e i (He & Hi & <-). destruct (isManaged (ev e) && negb (scheduled (ev e))) eqn:E; [| by exists q].
  apply andb_true_iff in E as [_ E%negb_true_iff]. eexists. split; [done |]. destruct Hl as [H1 H2 H3 H4 H5].
  split; cbn; [done | by rewrite fmap_delete, H2 | done | done |]. apply wf_delete; [done | by eapply Hn].
Qed.

Lemma put_put s a i j : a_put (a_put s a i) a j = a_put s a j.
Proof. unfold a_put. cbn. by rewrite insert_insert_eq. Qed.

(** ** The operations *)

Lemma schedule_linked q s a when global :
  refines q s -> simulates linked (schedule par cur q a when global) (a_schedule s a when global).
Proof.
  intros [Hl Hok]. unfold schedule, a_schedule. rewrite (lk_tick _ _ Hl). apply simulates_assert. intros _.
  eapply simulates_bind; [by apply linked_get |]. intros e i (He & Hi & <-).
  apply simulates_assert. intros Hs%negb_true_iff. apply simulates_assert. intros _.
  assert (a ∉ members (a_bins s)) as Hn.
  { intros Hin. rewrite (proj2 (ao_sched _ Hok a _ Hi)) in Hs by (by left). done. }
  rewrite (lk_this _ _ Hl). destruct (linked_upd q s a (ev e) (fun i => setWhen i when this) Hl Hi) as (q1 & -> & Hl1); [done |].
  rsimpl. rewrite (lk_this _ _ Hl1). set (i1 := setWhen (ev e) when this) in *. set (b := par && _).
  set (s2 := if b then a_put s a i1 ⟨ a_async := a_async s ++ [a] ⟩
             else a_put s a i1 ⟨ a_bins := abs_insert (ekey i1) a (a_bins s) ⟩).
  assert (exists q2, (if b then Ok (asyncInsert q1 a) else insert_event q1 a) = Ok q2 /\ linked q2 s2) as (q2 & -> & Hl2).
  { unfold s2. destruct b.
    - eexists. split; [done |]. destruct Hl1 as [H1 H2 H3 H4 H5]. split; cbn in *; [done | done | done | by rewrite H4 | done].
    - destruct (linked_insert q1 _ a i1 Hl1) as (q2 & ? & ?); [apply lookup_insert_eq | done | by exists q2]. }
  rsimpl. assert (a_evs s2 !! a = Some i1) as Hi2 by (unfold s2; destruct b; apply lookup_insert_eq).
  destruct (linked_upd q2 s2 a i1 (fun i => i ⟨ flags := flag_set (flags i) Scheduled ⟩) Hl2 Hi2) as (q3 & -> & Hl3); [done |].
  exists q3. split; [done |]. revert Hl3. unfold s2. destruct b; unfold a_put; cbn; by rewrite insert_insert_eq.
Qed.

(** Removal of a scheduled event. *)
Lemma removal_cases q s a i :
  refines q s -> a_evs s !! a = Some i -> scheduled i = true ->
  (exists q1, remove_event q a = Ok q1 /\ a_remove s a = Ok (s ⟨ a_bins := abs_remove a (a_bins s) ⟩) /\
     linked q1 (s ⟨ a_bins := abs_remove a (a_bins s) ⟩)) \/
  (remove_event q a = Err EPanic /\ a_remove s a = Err EPanic).
Proof.
  intros [Hl Hok] Hi Hs. pose proof (proj1 (ao_sched _ Hok a _ Hi) Hs) as Hin.
  destruct (ao_queue _ Hok a Hin) as (i' & Hi' & Hq). rewrite Hi in Hi'. injection Hi' as <-.
  pose proof (linked_remove q s a i Hl Hi Hq) as Hr. unfold a_remove in *. case_decide; [| by right].
  destruct Hr as (q1 & -> & Hl1). left. by exists q1.
Qed.

Lemma not_in_removed a bs : a ∉ members (abs_remove a bs).
Proof. rewrite abs_remove_members. by intros [? _]%list_elem_of_filter. Qed.

Lemma deschedule_linked q s a :
  refines q s -> simulates linked (deschedule par cur q a) (a_deschedule s a).
Proof.
  intros Hr. pose proof Hr as [Hl Hok]. unfold deschedule, a_deschedule.
  eapply simulates_bind; [by apply linked_get |]. intros e i (He & Hi & <-).
  apply simulates_assert. intros Hs. apply simulates_assert. intros _. rewrite (lk_this _ _ Hl). apply simulates_assert. intros _.
  destruct (removal_cases q s a (ev e) Hr Hi Hs) as [(q1 & -> & -> & Hl1)|[-> ->]]; [| done]. rsimpl.
  set (s1 := s ⟨ a_bins := _ ⟩) in *.
  destruct (linked_upd q1 s1 a (ev e) (fun i => i ⟨ flags := flag_clear (flag_clear (flags i) Squashed) Scheduled ⟩) Hl1 Hi)
    as (q2 & -> & Hl2); [done |]. rsimpl.
  apply linked_release; [done |]. intros _ _ _. apply not_in_removed.
Qed.

Lemma reschedule_linked q s a when always :
  refines q s -> simulates linked (reschedule par cur q a when always) (a_reschedule s a when always).
Proof.
  intros Hr. pose proof Hr as [Hl Hok]. unfold reschedule, a_reschedule. rewrite (lk_tick _ _ Hl).
  apply simulates_assert. intros _. eapply simulates_bind; [by apply linked_get |]. intros e i (He & Hi & <-).
  apply simulates_assert. intros _. apply simulates_assert. intros _. rewrite (lk_this _ _ Hl). apply simulates_assert. intros _.
  assert (forall q1 s1, linked q1 s1 -> a_evs s1 !! a = Some (ev e) -> a ∉ members (a_bins s1) ->
    simulates linked (q ← upd_ev q1 a (fun i => setWhen i when (eq_this q1)); q ← insert_event q a;
      upd_ev q a (fun i => i ⟨ flags := flag_set (flag_clear (flags i) Squashed) Scheduled ⟩))
    (let i := setWhen (ev e) when this in let s := s1 ⟨ a_bins := abs_insert (ekey i) a (a_bins s1) ⟩ in
     Ok (a_put s a (i ⟨ flags := flag_set (flag_clear (flags i) Squashed) Scheduled ⟩)))) as Hrest.
  { clear. intros q1 s1 Hl Hi Hn. rewrite (lk_this _ _ Hl). set (i1 := setWhen (ev e) when this).
    destruct (linked_upd q1 s1 a (ev e) (fun i => setWhen i when this) Hl Hi) as (q2 & -> & Hl2); [done |]. rsimpl.
    destruct (linked_insert q2 _ a i1 Hl2) as (q3 & -> & Hl3); [apply lookup_insert_eq | done |]. rsimpl.
    set (s3 := _ ⟨ a_bins := _ ⟩) in Hl3.
    destruct (linked_upd q3 s3 a i1 (fun i => i ⟨ flags := flag_set (flag_clear (flags i) Squashed) Scheduled ⟩) Hl3)
      as (q4 & -> & Hl4); [apply lookup_insert_eq | done |].
    exists q4. split; [done |]. revert Hl4. unfold s3, a_put. cbn. by rewrite insert_insert_eq. }
  destruct (scheduled (ev e)) eqn:Hs.
  - destruct (removal_cases q s a (ev e) Hr Hi Hs) as [(q1 & -> & -> & Hl1)|[-> ->]]; [| done]. rsimpl.
    exact (Hrest q1 _ Hl1 Hi (not_in_removed a _)).
  - rsimpl. apply (Hrest q s Hl Hi). intros Hin. rewrite (proj2 (ao_sched _ Hok a _ Hi)) in Hs by (by left). done.
Qed.

Lemma squash_linked q s a : refines q s -> simulates linked (squash q a) (a_squash s a).
Proof.
  intros [Hl Hok]. unfold squash, a_squash, a_get. destruct (a_evs s !! a) as [i|] eqn:Hi.
  - destruct (linked_upd q s a i (fun i => i ⟨ flags := flag_set (flags i) Squashed ⟩) Hl Hi) as (q' & -> & Hl'); [done |].
    by exists q'.
  - unfold upd_ev, deref. rewrite <- (lk_evs _ _ Hl), lookup_fmap in Hi. by destruct (events q !! a).
Qed.

Lemma async_linked l : forall q s,
  linked q s -> (forall a, a ∈ l -> is_Some (a_evs s !! a)) -> NoDup (members (a_bins s) ++ l) ->
  exists q', foldM insert_event l q = Ok q' /\
    linked q' (s ⟨ a_bins := foldl (fun bs a => abs_insert (a_key s a) a bs) (a_bins s) l ⟩).
Proof.
  induction l as [|a l IH]; intros q s Hl Hev Hnd; cbn [foldM foldl].
  - exists q. split; [done |]. by destruct s.
  - destruct (Hev a) as [i Hi]; [left |].
    assert (a ∉ members (a_bins s)) as Hn by (apply NoDup_app in Hnd as (_ & Hd & _); intros Hin; apply (Hd a Hin); left).
    destruct (linked_insert q s a i Hl Hi Hn) as (q1 & -> & Hl1). rsimpl.
    destruct (IH q1 _ Hl1) as (q2 & -> & Hl2).
    + intros b Hb. apply Hev. by right.
    + cbn. rewrite abs_insert_members. cbn. rewrite (Permutation_middle (members (a_bins s)) l a). done.
    + exists q2. split; [done |]. unfold a_key at 2. rewrite Hi. exact Hl2.
Qed.

Lemma handleAsync_linked q s : refines q s -> simulates linked (handleAsyncInsertions cur q) (a_handleAsync s).
Proof.
  intros [Hl Hok]. unfold handleAsyncInsertions, a_handleAsync. rewrite (lk_this _ _ Hl). apply simulates_assert. intros _.
  rewrite (lk_async _ _ Hl). destruct (async_linked (a_async s) q s Hl) as (q' & -> & Hl').
  - intros a Ha. destruct (ao_queue _ Hok a) as (i & Hi & _); [by right | by exists i].
  - apply Hok.
  - eexists. split; [done |]. destruct Hl' as [H1 H2 H3 H4 H5]. split; cbn in *; done.
Qed.
(** ** Flags and membership stay in step *)

Definition queued (s : AQ) (a : Z) : Prop := a ∈ members (a_bins s) \/ a ∈ a_async s.

Lemma a_ok_put s s' a i :
  a_ok s -> a_evs s' = <[a := i]> (a_evs s) -> (forall b, b <> a -> queued s' b <-> queued s b) ->
  (scheduled i = true <-> queued s' a) -> (queued s' a -> ev_queue i = Some this) ->
  NoDup (members (a_bins s') ++ a_async s') -> a_ok s'.
Proof.
  intros [H1 H2 _] Hev Hoth Hs Hq Hnd. split; [| | done].
  - intros b j. rewrite Hev. destruct (decide (b = a)) as [->|Hne].
    + rewrite lookup_insert_eq. intros [= <-]. done.
    + rewrite lookup_insert_ne by done. intros Hj. rewrite (H1 b j Hj). symmetry. by apply Hoth.
  - intros b Hb. rewrite Hev. destruct (decide (b = a)) as [->|Hne].
    + rewrite lookup_insert_eq. exists i. split; [done | by apply Hq].
    + rewrite lookup_insert_ne by done. by apply H2, Hoth.
Qed.

Lemma queued_insert s a k b :
  queued (s ⟨ a_bins := abs_insert k a (a_bins s) ⟩) b <-> b = a \/ queued s b.
Proof. unfold queued. cbn. rewrite abs_insert_members, elem_of_cons. naive_solver. Qed.

Lemma queued_remove s a b :
  NoDup (members (a_bins s) ++ a_async s) -> a ∈ members (a_bins s) ->
  queued (s ⟨ a_bins := abs_remove a (a_bins s) ⟩) b <-> b <> a /\ queued s b.
Proof.
  intros (_ & Hd & _)%NoDup_app Ha. unfold queued. cbn. rewrite abs_remove_members, list_elem_of_filter.
  destruct (decide (b = a)) as [->|Hne]; [| naive_solver]. pose proof (Hd a Ha). naive_solver.
Qed.

Lemma nodup_insert s a k : a_ok s -> ~ queued s a ->
  NoDup (members (abs_insert k a (a_bins s)) ++ a_async s).
Proof.
  intros [_ _ Hnd] Hn. rewrite abs_insert_members. cbn [app]. apply NoDup_cons. split; [| done].
  rewrite elem_of_app. exact Hn.
Qed.

Lemma nodup_remove s a : a_ok s -> NoDup (members (abs_remove a (a_bins s)) ++ a_async s).
Proof.
  intros [_ _ Hnd]. rewrite abs_remove_members. apply NoDup_app in Hnd as (H1 & H2 & H3). apply NoDup_app.
  split_and!; [by apply NoDup_filter | | done]. intros x [_ Hx]%list_elem_of_filter. by apply H2.
Qed.

Lemma a_release_ok s s' a : a_ok s -> a_release s a = Ok s' -> a_ok s'.
Proof.
  intros Hok. unfold a_release, a_get. destruct (a_evs s !! a) as [i|] eqn:Hi; [| done]. rsimpl.
  destruct (isManaged i && negb (scheduled i)) eqn:E; [| by intros [= <-]]. intros [= <-].
  apply andb_true_iff in E as [_ E%negb_true_iff]. destruct Hok as [H1 H2 H3].
  assert (~ queued s a) as Hn by (intros Hq%(H1 a i Hi); congruence). split; cbn; [| | done].
  - intros b j [_ Hj]%lookup_delete_Some. by apply H1.
  - intros b Hb. rewrite lookup_delete_ne by (intros ->; done). by apply H2.
Qed.

(** The event leaves the queue, its flag is cleared. *)
Lemma a_ok_remove s a i :
  a_ok s -> a ∈ members (a_bins s) -> scheduled i = false ->
  a_ok (a_put (s ⟨ a_bins := abs_remove a (a_bins s) ⟩) a i).
Proof.
  intros Hok Ha Hf. pose proof (ao_nodup _ Hok) as Hnd. set (s1 := s ⟨ a_bins := _ ⟩).
  assert (~ queued (a_put s1 a i) a) as Hn.
  { change (~ queued s1 a). unfold s1. rewrite queued_remove by done. by intros [? _]. }
  eapply (a_ok_put s); [done | done | | | done | exact (nodup_remove s a Hok)].
  - intros b Hb. change (queued s1 b <-> queued s b). unfold s1. rewrite queued_remove by done. naive_solver.
  - rewrite Hf. split; [done | by intros ?%Hn].
Qed.

(** The event enters the bins, its flag is set. *)
Lemma a_ok_insert s a k i :
  a_ok s -> ~ queued s a -> scheduled i = true -> ev_queue i = Some this ->
  a_ok (a_put (s ⟨ a_bins := abs_insert k a (a_bins s) ⟩) a i).
Proof.
  intros Hok Hn Hs Hq. set (s1 := s ⟨ a_bins := _ ⟩).
  assert (forall b, queued (a_put s1 a i) b <-> b = a \/ queued s b) as Hqd.
  { intros b. change (queued s1 b <-> b = a \/ queued s b). apply queued_insert. }
  eapply (a_ok_put s); [done | done | | | done | exact (nodup_insert s a k Hok Hn)].
  - intros b Hb. rewrite Hqd. naive_solver.
  - rewrite Hs, Hqd. naive_solver.
Qed.

Lemma a_get_some s a i : a_get s a = Ok i -> a_evs s !! a = Some i.
Proof. unfold a_get. destruct (a_evs s !! a); [by intros [= ->] | done]. Qed.

Lemma unscheduled_not_queued s a i : a_ok s -> a_evs s !! a = Some i -> scheduled i = false -> ~ queued s a.
Proof. intros Hok Hi Hs Hq. apply (ao_sched _ Hok a i Hi) in Hq. congruence. Qed.
Lemma a_remove_inv s s' a : a_remove s a = Ok s' ->
  a ∈ members (a_bins s) /\ s' = s ⟨ a_bins := abs_remove a (a_bins s) ⟩.
Proof. unfold a_remove. case_decide; [by intros [= <-] | done]. Qed.

Lemma a_schedule_ok s s' a when global : a_ok s -> a_schedule s a when global = Ok s' -> a_ok s'.
Proof.
  intros Hok H. unfold a_schedule in H.
  apply res_bind_Ok_inv in H as (_ & _ & H). apply res_bind_Ok_inv in H as (i & Hi%a_get_some & H).
  apply res_bind_Ok_inv in H as (_ & Hs%cassert_Ok & H). apply res_bind_Ok_inv in H as (_ & _ & H).
  apply negb_true_iff in Hs. pose proof (unscheduled_not_queued s a i Hok Hi Hs) as Hn.
  injection H as <-. set (j := _ ⟨ flags := _ ⟩).
  assert (scheduled j = true) as Hj by exact (scheduled_set (setWhen i when this)).
  destruct (par && _); [| by apply a_ok_insert].
  set (s1 := s ⟨ a_async := _ ⟩). assert (forall b, queued (a_put s1 a j) b <-> b = a \/ queued s b) as Hqd.
  { intros b. unfold queued. cbn. rewrite elem_of_app, list_elem_of_singleton. naive_solver. }
  eapply (a_ok_put s); [done | done | | | done |].
  - intros b Hb. rewrite Hqd. naive_solver.
  - rewrite Hj, Hqd. naive_solver.
  - cbn. rewrite app_assoc. apply NoDup_app. split_and!; [apply Hok | | apply NoDup_singleton].
    intros x Hx ->%list_elem_of_singleton. apply Hn. unfold queued. by rewrite <- elem_of_app.
Qed.

Lemma a_deschedule_ok s s' a : a_ok s -> a_deschedule s a = Ok s' -> a_ok s'.
Proof.
  intros Hok H. unfold a_deschedule in H. apply res_bind_Ok_inv in H as (i & Hi%a_get_some & H).
  apply res_bind_Ok_inv in H as (_ & _ & H). apply res_bind_Ok_inv in H as (_ & _ & H).
  apply res_bind_Ok_inv in H as (_ & _ & H). apply res_bind_Ok_inv in H as (s1 & [Ha ->]%a_remove_inv & H).
  eapply a_release_ok; [| exact H]. apply a_ok_remove; [done | done |].
  exact (scheduled_clear (i ⟨ flags := flag_clear (flags i) Squashed ⟩)).
Qed.

Lemma a_reschedule_ok s s' a when always : a_ok s -> a_reschedule s a when always = Ok s' -> a_ok s'.
Proof.
  intros Hok H. unfold a_reschedule in H. apply res_bind_Ok_inv in H as (_ & _ & H).
  apply res_bind_Ok_inv in H as (i & Hi%a_get_some & H).
  do 3 apply res_bind_Ok_inv in H as (_ & _ & H). apply res_bind_Ok_inv in H as (s1 & Hs1 & H).
  set (j := (setWhen i when this) ⟨ flags := flag_set (flag_clear (flags (setWhen i when this)) Squashed) Scheduled ⟩) in H.
  assert (scheduled j = true) as Hj by exact (scheduled_set ((setWhen i when this) ⟨ flags := flag_clear (flags i) Squashed ⟩)).
  injection H as <-. destruct (scheduled i) eqn:Hs.
  - apply a_remove_inv in Hs1 as [Ha ->].
    pose proof (a_ok_remove s a (unschedule i) Hok Ha (scheduled_clear i)) as Hok1.
    pose proof (a_ok_insert _ a (ekey (setWhen i when this)) j Hok1) as Hok2. unfold a_put in Hok2 |- *. cbn in Hok2 |- *.
    rewrite insert_insert_eq in Hok2. apply Hok2; [| done | done]. unfold queued. cbn.
    pose proof (ao_nodup _ Hok) as (_ & Hd & _)%NoDup_app. pose proof (not_in_removed a (a_bins s)). specialize (Hd a Ha). naive_solver.
  - injection Hs1 as <-. apply a_ok_insert; [done | by eapply unscheduled_not_queued | done | done].
Qed.

Lemma a_squash_ok s s' a : a_ok s -> a_squash s a = Ok s' -> a_ok s'.
Proof.
  intros Hok H. unfold a_squash in H. apply res_bind_Ok_inv in H as (i & Hi%a_get_some & [= <-]).
  eapply (a_ok_put s); [done | done | done | | | apply Hok].
  - rewrite scheduled_squash. by apply Hok.
  - intros Hq. destruct (ao_queue _ Hok a Hq) as (i' & Hi' & Hq'). cbn. congruence.
Qed.

Lemma async_members s l : forall bs, members (foldl (fun bs a => abs_insert (a_key s a) a bs) bs l) ≡ₚ members bs ++ l.
Proof.
  induction l as [|a l IH]; intros bs; cbn [foldl]; [by rewrite app_nil_r |].
  rewrite IH, abs_insert_members. cbn. by rewrite Permutation_middle.
Qed.

Lemma a_handleAsync_ok s s' : a_ok s -> a_handleAsync s = Ok s' -> a_ok s'.
Proof.
  intros [H1 H2 H3] H. unfold a_handleAsync in H. apply res_bind_Ok_inv in H as (_ & _ & [= <-]).
  split; cbn; rewrite ?app_nil_r, ?async_members; [| | done].
  - intros a i Hi. rewrite async_members, elem_of_app, (H1 a i Hi). set_solver.
  - intros a. rewrite async_members, elem_of_app. intros Ha. apply H2. set_solver.
Qed.

Lemma a_step_ok s s' o : a_ok s -> a_step s o = Ok s' -> a_ok s'.
Proof.
  intros Hok. destruct o; [by apply a_schedule_ok | by apply a_deschedule_ok | by apply a_reschedule_ok |
    by apply a_squash_ok | by apply a_handleAsync_ok].
Qed.

Lemma ev_step_refines q s o : refines q s -> simulates refines (ev_step q o) (a_step s o).
Proof.
  intros Hr. assert (simulates linked (ev_step q o) (a_step s o)) as Hs.
  { destruct o; [by apply schedule_linked | by apply deschedule_linked | by apply reschedule_linked |
      by apply squash_linked | by apply handleAsync_linked]. }
  unfold simulates in *. destruct (a_step s o) as [s'|e] eqn:E; [| done]. destruct Hs as (q' & Hq & Hl).
  exists q'. split; [done |]. split; [done |]. destruct Hr as [_ Hok]. by eapply a_step_ok.
Qed.

(** ** Serving events *)

Context (handlers : Z -> list ev_op).

Definition process (a : Z) (q : EventQueue) : res EventQueue := foldM ev_step (handlers a) q.
Definition a_process (a : Z) (s : AQ) : res AQ := foldM a_step (handlers a) s.

(** Serve the first event: the top of the first bin. *)
Definition a_service (s : AQ) : res (AQ * option Z) :=
  match members (a_bins s) with
  | [] => Err EUninit
  | a :: _ =>
      i ← a_get s a;
      let s := a_put (s ⟨ a_bins := abs_remove a (a_bins s) ⟩) a (unschedule i) in
      if negb (squashed (unschedule i)) then
        s ← a_process a (s ⟨ a_tick := _when i ⟩);
        i ← a_get s a;
        if isExitEvent i then
          _ ← cassert (negb (isManaged i) || negb (isSet (flags i) IsMainQueue));
          Ok (s, Some a)
        else s ← a_release s a; Ok (s, None)
      else
        s ← a_release (a_put s a (unschedule i ⟨ flags := flag_clear (flags (unschedule i)) Squashed ⟩)) a;
        Ok (s, None)
  end.

(** The simulation: operations from outside, and the service of events. *)
Inductive sim_op := Op (o : ev_op) | Serve.

Definition sim_step (q : EventQueue) (o : sim_op) : res EventQueue :=
  match o with
  | Op o => ev_step q o
  | Serve => x ← serviceOne process q; Ok x.1
  end.
Definition a_sim_step (s : AQ) (o : sim_op) : res AQ :=
  match o with
  | Op o => a_step s o
  | Serve => x ← a_service s; Ok x.1
  end.

Lemma process_refines a q s : refines q s -> simulates refines (process a q) (a_process a s).
Proof. apply foldM_simulates. intros. by apply ev_step_refines. Qed.

Lemma linked_pop q s a i l :
  refines q s -> members (a_bins s) = a :: l -> a_evs s !! a = Some i ->
  exists q1, pop_event q = Ok (q1, a) /\ refines q1 (a_put (s ⟨ a_bins := abs_remove a (a_bins s) ⟩) a (unschedule i)).
Proof.
  intros [Hl Hok] Hm Hi. pose proof Hl as [H1 H2 H3 H4 H5].
  assert (exists k r bs, a_bins s = (k, a :: r) :: bs) as (k & r & bs & Hb).
  { pose proof (wf_list _ _ _ H5) as Hbl. destruct (a_bins s) as [|[k l0] bs]; [done |].
    destruct Hbl as (b & r & e & -> & _). injection Hm as <-. by exists k, r, bs. }
  rewrite Hb in H5. destruct (pop_event_spec q k a r bs H5) as (h & hd & e & -> & He & Hev & Hwf).
  rewrite <- Hb in Hwf. eexists. split; [done |]. split.
  - assert (ev e = i) as Hei by (rewrite <- H2, lookup_fmap, He in Hi; by injection Hi).
    split; cbn; [done | by rewrite Hev, H2, Hei | done | done | done].
  - apply a_ok_remove; [done | rewrite Hm; left | apply scheduled_clear].
Qed.

Definition same_result (x : EventQueue * option Z) (y : AQ * option Z) : Prop := refines x.1 y.1 /\ x.2 = y.2.

Lemma release_refines q s a : refines q s -> simulates same_result (q ← release q a; Ok (q, None)) (s ← a_release s a; Ok (s, None)).
Proof.
  intros [Hl Hok]. assert (simulates linked (release q a) (a_release s a)) as Hr.
  { apply linked_release; [done |]. intros i Hi Hs Hin. apply (unscheduled_not_queued s a i Hok Hi Hs). by left. }
  unfold simulates in *. destruct (a_release s a) as [s'|] eqn:E; [| by rewrite Hr]. destruct Hr as (q' & -> & Hl').
  eexists. split; [done |]. split; [| done]. split; [done |]. by eapply a_release_ok.
Qed.

Lemma service_refines q s : refines q s -> simulates same_result (serviceOne process q) (a_service s).
Proof.
  intros Hr. pose proof Hr as [Hl Hok]. unfold serviceOne, a_service. destruct (members (a_bins s)) as [|a l] eqn:Hm.
  { pose proof (wf_list _ _ _ (lk_wf _ _ Hl)) as Hbl. destruct (a_bins s) as [|[k l0] bs]; cbn in Hbl.
    - unfold pop_event. by rewrite Hbl.
    - destruct Hbl as (b & r & e & -> & _). done. }
  destruct (ao_queue _ Hok a) as (i & Hi & _); [left; rewrite Hm; left |].
  assert (a_get s a = Ok i) as -> by (unfold a_get; by rewrite Hi). rsimpl. destruct (linked_pop q s a i l Hr Hm Hi) as (q1 & -> & Hr1). rsimpl.
  set (s1 := a_put _ a (unschedule i)) in *. pose proof Hr1 as [Hl1 _].
  assert (a_evs s1 !! a = Some (unschedule i)) as Hi1 by apply lookup_insert_eq.
  destruct (linked_lookup q1 s1 a _ Hl1 Hi1) as (e & He & Hev). rewrite (deref_some _ _ _ He). rsimpl. rewrite Hev.
  destruct (squashed (unschedule i)) eqn:Esq; cbn [negb].
  - assert (refines q1 s1) as [_ Hok1] by done.
    destruct (linked_upd q1 s1 a _ (fun i => i ⟨ flags := flag_clear (flags i) Squashed ⟩) Hl1 Hi1) as (q2 & -> & Hl2); [done |].
    rsimpl. apply release_refines. split; [done |].
    eapply (a_ok_put s1); [done | done | done | | | apply Hok1].
    + rewrite scheduled_unsquash. by apply Hok1.
    + intros Hq. destruct (ao_queue _ Hok1 a Hq) as (i' & Hi' & Hq'). cbn. rewrite Hi1 in Hi'. injection Hi' as <-. exact Hq'.
  - eapply simulates_bind; [apply (process_refines a _ (s1 ⟨ a_tick := _when i ⟩)) |].
    { destruct Hr1 as [[G1 G2 G3 G4 G5] [G6 G7 G8]]. by split; split. }
    intros q2 s2 Hr2. eapply simulates_bind; [apply (linked_get q2 s2); apply Hr2 |]. intros e2 i2 (_ & _ & <-).
    destruct (isExitEvent (ev e2)); [| by apply release_refines].
    apply simulates_assert. intros _. by exists (q2, Some a).
Qed.

Lemma sim_step_refines q s o : refines q s -> simulates refines (sim_step q o) (a_sim_step s o).
Proof.
  intros Hr. destruct o as [o|]; [by apply ev_step_refines |]. cbn [sim_step a_sim_step].
  eapply simulates_bind; [by apply service_refines |]. intros x y [Hx _]. by exists x.1.
Qed.

(** A store of events none of which is scheduled yet. *)
Definition fresh_store (store : gmap Z Event) : Prop := forall a e, store !! a = Some e -> scheduled (ev e) = false.
Definition a_init (store : gmap Z Event) : AQ := {| a_evs := ev <$> store; a_bins := []; a_tick := 0; a_async := [] |}.

Lemma init_refines store : fresh_store store -> refines (EventQueue_ctor this store) (a_init store).
Proof.
  intros Hf. split.
  - split; try done. split; [done | constructor | constructor |]. by intros k l a ?%not_elem_of_nil.
  - split; cbn.
    + intros a i. rewrite lookup_fmap. destruct (store !! a) as [e|] eqn:E; [| done]. intros [= <-].
      rewrite (Hf a e E). split; [done |]. by intros [?%not_elem_of_nil|?%not_elem_of_nil].
    + intros a [?%not_elem_of_nil|?%not_elem_of_nil]; done.
    + constructor.
Qed.
End Abstract.

(** C4.  The event queue's linked bins, with their stale pointers, implement
    an ordinary list of bins sorted by time and priority: from any store of
    unscheduled events, every run of schedule, deschedule, reschedule, squash,
    asynchronous insertions and service of events whose handlers do the same
    fails in exactly the same way as the abstract run, or ends in a queue
    whose pointers represent the bins of the abstract one, with the same time,
    flags and asynchronous queue. *)
Theorem event_queue_refines (this cur : Z) (par : bool) (handlers : Z -> list ev_op) (store : gmap Z Event)
    (ops : list sim_op) :
  fresh_store store ->
  simulates (linked this) (foldM (sim_step cur par handlers) ops (EventQueue_ctor this store))
    (foldM (a_sim_step this cur par handlers) ops (a_init store)).
Proof.
  intros Hf. assert (simulates (refines this) (foldM (sim_step cur par handlers) ops (EventQueue_ctor this store))
    (foldM (a_sim_step this cur par handlers) ops (a_init store))) as H.
  { apply foldM_simulates; [| by apply init_refines]. intros. by apply sim_step_refines. }
  unfold simulates in *. destruct (foldM (a_sim_step _ _ _ _) _ _) as [s|e]; [| done].
  destruct H as (q & -> & Hl & _). by exists q.
Qed.

(** Three events; the first, when served, schedules the second again and
    squashes the third. *)
Definition demo_store : gmap Z Event :=
  <[1 := new_event 0 0]> (<[2 := new_event (-1) 0]> (<[3 := new_event 0 0]> ∅)).
Definition demo_handlers (a : Z) : list ev_op :=
  if a =? 1 then [OpReschedule 2 30 true; OpSquash 3] else [].
Definition demo_ops : list sim_op :=
  [Op (OpSchedule 1 10 false); Op (OpSchedule 3 10 false); Op (OpSchedule 2 10 false); Serve;
   Op (OpDeschedule 3); Serve; Serve].

Lemma demo_store_fresh : fresh_store demo_store.
Proof.
  intros a e. unfold demo_store. intros [[_ <-]|[_ H]]%lookup_insert_Some; [done |].
  apply lookup_insert_Some in H as [[_ <-]|[_ H]]; [done |]. apply lookup_insert_Some in H as [[_ <-]|[_ H]]; [done |].
  by rewrite lookup_empty in H.
Qed.

Lemma event_queue_refines_witness :
  (exists q, foldM (sim_step 0 false demo_handlers) demo_ops (EventQueue_ctor 0 demo_store) = Ok q /\
     head q = None /\ _curTick q = 30) /\
  simulates (linked 0) (foldM (sim_step 0 false demo_handlers) demo_ops (EventQueue_ctor 0 demo_store))
    (foldM (a_sim_step 0 0 false demo_handlers) demo_ops (a_init demo_store)).
Proof.
  split; [eexists; split_and!; vm_compute; reflexivity |].
  apply (event_queue_refines 0 0 false demo_handlers demo_store demo_ops demo_store_fresh).
Defined.

(** ** Time *)

Section Time.
Context (this cur : Z) (handlers : Z -> list ev_op).

(** Nothing on the queue is in the past; without parallel mode nothing is asynchronous. *)
Definition a_future (s : AQ) : Prop :=
  a_async s = [] /\ forall a i, a ∈ members (a_bins s) -> a_evs s !! a = Some i -> a_tick s <= _when i.

Lemma future_release s s' a : a_future s -> a_release s a = Ok s' -> a_future s' /\ a_tick s' = a_tick s.
Proof.
  intros [Ha Hf] H. unfold a_release in H. apply res_bind_Ok_inv in H as (i & _ & H).
  destruct (_ && _); injection H as <-; [| done]. split; [| done]. split; [done |]. cbn.
  intros b j Hb [_ Hj]%lookup_delete_Some. by eapply Hf.
Qed.

Lemma future_put s a i : a_future s -> (a ∈ members (a_bins s) -> a_tick s <= _when i) -> a_future (a_put s a i).
Proof.
  intros [Ha Hf] Hi. split; [done |]. cbn. intros b j Hb. destruct (decide (b = a)) as [->|Hne].
  - rewrite lookup_insert_eq. intros [= <-]. by apply Hi.
  - rewrite lookup_insert_ne by done. by apply Hf.
Qed.

Lemma future_remove s a : a_future s -> a_future (s ⟨ a_bins := abs_remove a (a_bins s) ⟩).
Proof.
  intros [Ha Hf]. split; [done |]. cbn. intros b j. rewrite abs_remove_members. intros [_ Hb]%list_elem_of_filter. by apply Hf.
Qed.

Lemma future_insert s a k i :
  a_future s -> a_tick s <= _when i -> a_future (a_put (s ⟨ a_bins := abs_insert k a (a_bins s) ⟩) a i).
Proof.
  intros [Ha Hf] Hi. split; [done |]. cbn. intros b j. rewrite abs_insert_members, elem_of_cons.
  destruct (decide (b = a)) as [->|Hne].
  - rewrite lookup_insert_eq. by intros _ [= <-].
  - rewrite lookup_insert_ne by done. intros [?|Hb]; [done | by apply Hf].
Qed.

Lemma future_remove_inv s s' a : a_future s -> a_remove s a = Ok s' -> a_future s' /\ a_tick s' = a_tick s.
Proof. intros Hf [_ ->]%a_remove_inv. split; [by apply future_remove | done]. Qed.

Lemma future_step s s' o :
  a_ok this s -> a_future s -> a_step this cur false s o = Ok s' -> a_future s' /\ a_tick s' = a_tick s.
Proof.
  intros Hok Hf. destruct o as [a when global | a | a when always | a |]; cbn [a_step]; intros H.
  - unfold a_schedule in H. apply res_bind_Ok_inv in H as (_ & Hw%cassert_Ok & H). b2p.
    apply res_bind_Ok_inv in H as (i & _ & H). do 2 apply res_bind_Ok_inv in H as (_ & _ & H). injection H as <-.
    split; [| done]. by apply future_insert.
  - unfold a_deschedule in H. apply res_bind_Ok_inv in H as (i & Hi%a_get_some & H). do 3 apply res_bind_Ok_inv in H as (_ & _ & H).
    apply res_bind_Ok_inv in H as (s1 & [Ha ->]%a_remove_inv & H). eapply future_release in H; [done |].
    apply future_put; [by apply future_remove |]. by intros ?%not_in_removed.
  - unfold a_reschedule in H. apply res_bind_Ok_inv in H as (_ & Hw%cassert_Ok & H). b2p.
    apply res_bind_Ok_inv in H as (i & _ & H). do 3 apply res_bind_Ok_inv in H as (_ & _ & H).
    apply res_bind_Ok_inv in H as (s1 & Hs1 & H). injection H as <-.
    assert (a_future s1 /\ a_tick s1 = a_tick s) as [Hf1 Ht1].
    { destruct (scheduled i); [by eapply future_remove_inv | by injection Hs1 as <-]. }
    split; [| done]. apply future_insert; [done | cbn; lia].
  - unfold a_squash in H. apply res_bind_Ok_inv in H as (i & Hi%a_get_some & [= <-]). split; [| done].
    apply future_put; [done |]. intros Ha. cbn. by eapply Hf.
  - unfold a_handleAsync in H. apply res_bind_Ok_inv in H as (_ & _ & [= <-]). destruct Hf as [Ha Hf]. by rewrite Ha.
Qed.

Lemma future_process l : forall s s',
  a_ok this s -> a_future s -> foldM (a_step this cur false) l s = Ok s' -> a_future s' /\ a_tick s' = a_tick s.
Proof.
  induction l as [|o l IH]; intros s s' Hok Hf H; cbn [foldM] in H; [by injection H as <- |].
  apply res_bind_Ok_inv in H as (s1 & H1 & H2). destruct (future_step s s1 o Hok Hf H1) as [Hf1 <-].
  apply (IH s1); [by eapply a_step_ok | done | done].
Qed.

(** The first member has the least key. *)
Lemma first_least h hd bs a l b ea eb :
  wf h hd bs -> members bs = a :: l -> b ∈ members bs -> h !! a = Some ea -> h !! b = Some eb -> ev_le (ev ea) (ev eb) = true.
Proof.
  intros Hwf Hm Hb Ha Hbl. apply ev_le_key. pose proof (wf_list _ _ _ Hwf) as Hl. pose proof (wf_sorted _ _ _ Hwf) as Hs.
  destruct bs as [|[k l0] bs]; [done |]. destruct Hl as (t & r & e & -> & _). injection Hm as -> _.
  rewrite <- (bin_of_key _ _ _ a ea k (a :: r) Hwf Ha ltac:(left) ltac:(left)).
  apply elem_of_members in Hb as (kb & lb & Hb & Hin). rewrite <- (bin_of_key _ _ _ b eb kb lb Hwf Hbl Hb Hin).
  apply elem_of_cons in Hb as [[= -> _]|Hb]; [by right | left; by eapply sorted_tail].
Qed.
Lemma least_when q s a i b j l :
  linked this q s -> members (a_bins s) = a :: l -> a_evs s !! a = Some i -> b ∈ members (a_bins s) -> a_evs s !! b = Some j ->
  ev_le i j = true /\ _when i <= _when j.
Proof.
  intros Hl Hm Hi Hb Hj. destruct (linked_lookup _ _ _ _ _ Hl Hi) as (ea & Ha & <-), (linked_lookup _ _ _ _ _ Hl Hj) as (eb & Hb' & <-).
  pose proof (first_least _ _ _ a l b ea eb (lk_wf _ _ _ Hl) Hm Hb Ha Hb') as Hle. split; [done |].
  unfold ev_le in Hle. lia.
Qed.

Lemma future_service q s x :
  refines this q s -> a_future s -> a_service this cur false handlers s = Ok x -> a_future x.1 /\ a_tick s <= a_tick x.1.
Proof.
  intros [Hl Hok] Hf H. unfold a_service in H. destruct (members (a_bins s)) as [|a l] eqn:Hm; [done |].
  apply res_bind_Ok_inv in H as (i & Hi%a_get_some & H).
  assert (a ∈ members (a_bins s)) as Ha by (rewrite Hm; left). pose proof (proj2 Hf a i Ha Hi) as Hti.
  set (s1 := a_put _ a (unschedule i)) in H. assert (a_future s1) as Hf1.
  { apply future_put; [by apply future_remove |]. by intros ?%not_in_removed. }
  assert (a_ok this s1) as Hok1 by (apply a_ok_remove; [done | done | apply scheduled_clear]).
  destruct (negb (squashed (unschedule i))).
  - assert (a_future (s1 ⟨ a_tick := _when i ⟩)) as Hf2.
    { split; [apply Hf1 |]. cbn. rewrite abs_remove_members. intros b j [Hne Hb]%list_elem_of_filter.
      rewrite lookup_insert_ne by done. intros Hj. eapply (least_when q s a i b j l); done. }
    apply res_bind_Ok_inv in H as (s2 & H2 & H). unfold a_process in H2.
    destruct (future_process _ (s1 ⟨ a_tick := _when i ⟩) s2 ltac:(by destruct Hok1; split) Hf2 H2) as [Hf3 Ht3]. cbn in Ht3.
    apply res_bind_Ok_inv in H as (i2 & _ & H). destruct (isExitEvent i2).
    + apply res_bind_Ok_inv in H as (_ & _ & [= <-]). split; [done | cbn; lia].
    + apply res_bind_Ok_inv in H as (s3 & H3 & [= <-]). destruct (future_release s2 s3 a Hf3 H3) as [Hf4 Ht4].
      split; [done | cbn; lia].
  - apply res_bind_Ok_inv in H as (s3 & H3 & [= <-]). eapply future_release in H3 as [Hf4 Ht4].
    + split; [done |]. cbn in *. rewrite Ht4. done.
    + apply future_put; [done |]. by intros ?%not_in_removed.
Qed.

Lemma reachable_future ops : forall q s q',
  refines this q s -> a_future s -> foldM (sim_step cur false handlers) ops q = Ok q' ->
  exists s', refines this q' s' /\ a_future s'.
Proof.
  induction ops as [|o ops IH]; intros q s q' Hr Hf H; cbn [foldM] in H; [injection H as <-; by exists s |].
  apply res_bind_Ok_inv in H as (q1 & H1 & H2). pose proof (sim_step_refines this cur false handlers q s o Hr) as Hs.
  unfold simulates in Hs. destruct (a_sim_step this cur false handlers s o) as [s1|] eqn:E; [| congruence].
  destruct Hs as (q1' & Hq1 & Hr1). assert (q1' = q1) as -> by congruence. apply (IH q1 s1); [done | | done].
  destruct o as [o|]; cbn [a_sim_step] in E; [by eapply future_step in E as [? _]; [| apply Hr |] |].
  apply res_bind_Ok_inv in E as (x & Hx & [= <-]). by eapply future_service in Hx as [? _].
Qed.
End Time.

(** C15.  Simulated time runs forward: in every state a (non-parallel) run of the
    simulation reaches, the head of the queue is a scheduled event that is not
    in the past and that no scheduled event precedes in time and priority; the
    queue is empty only when no event is scheduled; and serving an event never
    moves the current tick back. *)
Theorem events_in_order (this cur : Z) (handlers : Z -> list ev_op) (store : gmap Z Event) (ops : list sim_op) (q : EventQueue) :
  fresh_store store ->
  foldM (sim_step cur false handlers) ops (EventQueue_ctor this store) = Ok q ->
  (forall a, head q = Some a -> exists e, events q !! a = Some e /\ scheduled (ev e) = true /\ _curTick q <= _when (ev e) /\
     forall b eb, events q !! b = Some eb -> scheduled (ev eb) = true -> ev_le (ev e) (ev eb) = true) /\
  (head q = None -> forall b eb, events q !! b = Some eb -> scheduled (ev eb) = false) /\
  (forall q', sim_step cur false handlers q Serve = Ok q' -> _curTick q <= _curTick q').
Proof.
  intros Hst H. destruct (reachable_future this cur handlers ops _ (a_init store) q (init_refines this store Hst)) as (s & Hr & Hf); [| done |].
  { split; [done |]. by intros a i ?%not_elem_of_nil. }
  pose proof Hr as [Hl Hok]. pose proof (wf_list _ _ _ (lk_wf _ _ _ Hl)) as Hbl.
  assert (forall b eb, events q !! b = Some eb -> a_evs s !! b = Some (ev eb)) as Hev.
  { intros b eb Hb. by rewrite <- (lk_evs _ _ _ Hl), lookup_fmap, Hb. }
  assert (forall b eb, events q !! b = Some eb -> scheduled (ev eb) = true -> b ∈ members (a_bins s)) as Hin.
  { intros b eb Hb Hs. destruct (proj1 (ao_sched _ _ Hok b _ (Hev b eb Hb)) Hs) as [|Has]; [done |].
    rewrite (proj1 Hf) in Has. by apply not_elem_of_nil in Has. }
  split_and!.
  - intros a Hhd. rewrite Hhd in Hbl. destruct (a_bins s) as [|[k l0] bs] eqn:Eb; [done |].
    destruct Hbl as (t & r & e & -> & [= <-] & He & _ & _). rewrite <- Eb in *.
    assert (members (a_bins s) = a :: r ++ members bs) as Hm by (by rewrite Eb). exists e. split_and!; [done | | |].
    + apply (ao_sched _ _ Hok a _ (Hev a e He)). left. rewrite Hm. left.
    + rewrite (lk_tick _ _ _ Hl). apply (proj2 Hf a); [rewrite Hm; left | by apply Hev].
    + intros b eb Hb Hs. eapply (least_when this q s a (ev e) b (ev eb)); [done | exact Hm | by apply Hev | by eapply Hin | by apply Hev].
  - intros Hhd b eb Hb. destruct (scheduled (ev eb)) eqn:Es; [| done]. pose proof (Hin b eb Hb Es) as Hx.
    rewrite Hhd in Hbl. destruct (a_bins s) as [|[k l0] bs]; [by apply not_elem_of_nil in Hx |]. by destruct Hbl as (t & r & e & _ & ? & _).
  - intros q' H'. cbn [sim_step] in H'. apply res_bind_Ok_inv in H' as (x & Hx & [= <-]).
    pose proof (service_refines this cur false handlers q s Hr) as Hs. unfold simulates in Hs.
    destruct (a_service this cur false handlers s) as [y|] eqn:E; [| congruence]. destruct Hs as (x' & Hx' & [[Hlx _] _]).
    assert (x' = x) as -> by congruence. rewrite (lk_tick _ _ _ Hl), (lk_tick _ _ _ Hlx).
    by eapply (future_service this cur handlers q s).
Qed.

Lemma events_in_order_witness : exists q,
  foldM (sim_step 0 false demo_handlers) (take 5 demo_ops) (EventQueue_ctor 0 demo_store) = Ok q /\
  (forall a, head q = Some a -> exists e, events q !! a = Some e /\ scheduled (ev e) = true /\ _curTick q <= _when (ev e) /\
     forall b eb, events q !! b = Some eb -> scheduled (ev eb) = true -> ev_le (ev e) (ev eb) = true).
Proof.
  eexists. split; [vm_compute; reflexivity |].
  eapply (events_in_order 0 0 demo_handlers demo_store (take 5 demo_ops)); [apply demo_store_fresh | vm_compute; reflexivity].
Defined.

(** ** [debugVerify] *)

Definition all_keyed (h : gmap Z Event) (k : key) (l : list Z) : Prop :=
  forall a, a ∈ l -> exists e, h !! a = Some e /\ ekey (ev e) = k.

(** One bin whose key does not go back. *)
Lemma verify_bin_ok h k l : forall fuel p t pr seen,
  in_bin h p l -> all_keyed h k l -> NoDup l -> (forall a, a ∈ l -> a ∉ seen) -> (length l <= fuel)%nat ->
  ~ klt k (t, pr) -> l <> [] ->
  verify_bin fuel h p (t, pr, seen) = Ok (Some (k.1, k.2, list_to_set l ∪ seen)).
Proof.
  induction l as [|a l IH]; intros fuel p t pr seen Hl Hk Hnd Hs Hf Hlt Hne; [done |].
  destruct Hl as (-> & e & He & Hl). destruct (Hk a) as (e' & He' & Hek); [left |]. rewrite He in He'. injection He' as <-.
  destruct fuel as [|fuel]; [cbn in Hf; lia |]. cbn [verify_bin]. rewrite (deref_some _ _ _ He). rsimpl.
  unfold klt in Hlt. cbn [fst snd] in Hlt. subst k. cbn [ekey fst snd] in *.
  rewrite (proj2 (Z.ltb_ge _ _)) by lia.
  assert ((_when (ev e) =? t) && (_priority (ev e) <? pr) = false) as -> by lia.
  rewrite bool_decide_false by (apply Hs; left). apply NoDup_cons in Hnd as [Ha Hnd]. destruct l as [|b l].
  - cbn in Hl. rewrite Hl. destruct fuel; cbn; do 3 f_equal; set_solver.
  - rewrite IH; [do 3 f_equal; set_solver | done | intros x Hx; apply Hk; by right | done | | cbn in Hf |- *; lia | | done].
    + intros x Hx. specialize (Hs x). set_solver.
    + unfold klt, ekey. cbn. lia.
Qed.

Lemma verify_bins_ok h bs : forall fuel p t pr seen,
  bin_list h p bs -> StronglySorted klt (fst <$> bs) -> (forall k l, (k, l) ∈ bs -> all_keyed h k l) ->
  NoDup (members bs) -> (forall a, a ∈ members bs -> a ∉ seen) -> (length bs <= fuel)%nat ->
  (length (members bs) <= store_fuel h)%nat -> match bs with [] => True | b :: _ => ~ klt b.1 (t, pr) end ->
  verify_bins fuel h p (t, pr, seen) = Ok true.
Proof.
  induction bs as [|[k l] bs IH]; intros fuel p t pr seen Hl Hs Hk Hnd Hseen Hf Hm Hlt; [cbn in Hl; subst p; by destruct fuel |].
  pose proof Hl as (a & r & e & -> & -> & He & Hr & Hbs). destruct fuel as [|fuel]; [cbn in Hf; lia |].
  rewrite members_cons in Hnd, Hseen, Hm. rewrite length_app in Hm. apply NoDup_app in Hnd as (Hnd1 & Hd & Hnd2).
  assert (verify_bin (store_fuel h) h (Some a) (t, pr, seen) = Ok (Some (k.1, k.2, list_to_set (a :: r) ∪ seen))) as Hv.
  { apply verify_bin_ok; [split; [done | by exists e] | apply Hk; left | done | | lia | done | done].
    intros x Hx. apply Hseen. set_solver. }
  cbn [verify_bins]. rewrite Hv. rsimpl. rewrite (deref_some _ _ _ He). rsimpl.
  apply IH; [done | by apply StronglySorted_inv in Hs as [? _] | intros k' l' Hin; apply Hk; by right | done | | cbn in Hf; lia | lia |].
  - intros x Hx. specialize (Hseen x). specialize (Hd x). set_solver.
  - destruct bs as [|[k2 l2] bs2]; [done |]. cbn [fst]. destruct k as [k1 k1']. intros Hlt2.
    assert (klt (k1, k1') k2) as H12 by (eapply sorted_tail; [exact Hs | left]).
    exact (klt_irrefl _ (klt_trans _ _ _ H12 Hlt2)).
Qed.

(** The first event is at tick 0 with a negative priority. *)
Definition early_negative (q : EventQueue) : bool :=
  match head q ≫= fun a => events q !! a with
  | Some e => (_when (ev e) =? 0) && (_priority (ev e) <? 0)
  | None => false
  end.

(** [debugVerify] is right about well-formed queues but for one case: it
    returns true unless the first event is at tick 0 with a negative priority,
    which it reports as inverted because it starts from priority 0. *)
Theorem debugVerify_exact (this : Z) (q : EventQueue) (s : AQ) :
  linked this q s -> (forall a i, a_evs s !! a = Some i -> 0 <= _when i) ->
  debugVerify q = Ok (negb (early_negative q)).
Proof.
  intros Hl Hpos. pose proof (lk_wf _ _ _ Hl) as Hwf. unfold debugVerify, early_negative.
  destruct (a_bins s) as [|[k l] bs] eqn:Eb.
  - pose proof (wf_list _ _ _ Hwf) as Hb. cbn in Hb. rewrite Hb. by destruct (store_fuel _).
  - pose proof (wf_list _ _ _ Hwf) as (a & r & e & -> & Hhd & He & Hr & Hbs).
    pose proof (bin_of_key _ _ _ a e k (a :: r) Hwf He ltac:(left) ltac:(left)) as Hk.
    assert (0 <= _when (ev e)) as H0 by (apply (Hpos a); by rewrite <- (lk_evs _ _ _ Hl), lookup_fmap, He).
    rewrite Hhd. cbn [mbind option_bind]. rewrite He. destruct ((_when (ev e) =? 0) && (_priority (ev e) <? 0)) eqn:En; cbn [negb].
    + apply andb_true_iff in En as [Hw%Z.eqb_eq Hp%Z.ltb_lt].
      assert (verify_bin (store_fuel (events q)) (events q) (Some a) (0, 0, ∅) = Ok None) as Hv.
      { destruct (store_fuel (events q)); cbn [verify_bin]; rewrite (deref_some _ _ _ He); rsimpl;
          rewrite Hw; cbn [Z.ltb Z.compare Z.eqb andb]; by rewrite (proj2 (Z.ltb_lt _ 0) Hp). }
      enough (forall n, verify_bins n (events q) (Some a) (0, 0, ∅) = Ok false) as Hall by apply Hall.
      intros [|n]; cbn [verify_bins]; by rewrite Hv.
    + rewrite <- Hhd. apply (verify_bins_ok _ ((k, a :: r) :: bs)); [apply Hwf | apply Hwf | | apply Hwf | set_solver | | |].
      * intros k' l' Hin x Hx. by eapply (wf_keys _ _ _ Hwf).
      * by eapply bins_fuel.
      * by eapply members_size.
      * cbn [fst]. rewrite Hk. unfold klt, ekey. cbn. lia.
Qed.

Definition early_store : gmap Z Event := <[1 := new_event (-1) 0]> ∅.
Definition early_run : res EventQueue :=
  foldM (sim_step 0 false (fun _ => [])) [Op (OpSchedule 1 0 false)] (EventQueue_ctor 0 early_store).

Lemma debugVerify_exact_witness : exists q, early_run = Ok q /\ debugVerify q = Ok false.
Proof.
  destruct (foldM_simulates 0 (sim_step 0 false (fun _ => [])) (a_sim_step 0 0 false (fun _ => []))
    [Op (OpSchedule 1 0 false)] (EventQueue_ctor 0 early_store) (a_init early_store)) as (q & Hq & Hl & _).
  - intros. by apply sim_step_refines.
  - apply init_refines. unfold early_store. intros a e [[_ <-]|[_ H]]%lookup_insert_Some; [done | by rewrite lookup_empty in H].
  - exists q. split; [exact Hq |]. rewrite (debugVerify_exact 0 q _ Hl).
    + vm_compute in Hq. injection Hq as <-. vm_compute. reflexivity.
    + intros a i. revert i. vm_compute. intros i. destruct a as [|[]|]; try done. all: by intros [= <-].
Defined.
