(* ===== verification/IoStream.v ===== *)
(** * Decimal formatted input and output

    The inter-chiplet channel of [sim/pseudo_inst.cc] is a text file: it is
    written with [operator<<] and read back with [std::getline] and
    [operator>>].  This file models what the channel uses of [iostream]:
    decimal output of an integer, formatted extraction (white space skipped,
    sign, digits, range check, and the rule that a stream that is no longer
    good leaves its target untouched), and line extraction; and it proves
    that what was printed is what is extracted. *)
From S2P Require Import Prelude.
From Stdlib Require Export Ascii.

(** Characters, as bytes. *)
Abbreviation chars := (list ascii).

Definition chr (z : Z) : ascii := ascii_of_N (Z.to_N (z mod 256)).
Definition ord (c : ascii) : Z := Z.of_N (N_of_ascii c).
Definition newline : ascii := chr 10.
Definition space : ascii := chr 32.
Definition minus : ascii := chr 45.
Definition plus : ascii := chr 43.

Definition is_digit (c : ascii) : bool := (48 <=? ord c) && (ord c <=? 57).
Definition is_space (c : ascii) : bool :=
  (ord c =? 32) || ((9 <=? ord c) && (ord c <=? 13)).

Lemma ord_chr z : 0 <= z < 256 -> ord (chr z) = z.
Proof.
  intros H. unfold ord, chr. rewrite Z.mod_small by done.
  rewrite N_ascii_embedding; [lia |]. apply N2Z.inj_lt. rewrite Z2N.id; simpl; lia.
Qed.

Lemma chr_eq a b : chr a = chr b -> a mod 256 = b mod 256.
Proof.
  intros H. pose proof (Z.mod_pos_bound a 256). pose proof (Z.mod_pos_bound b 256).
  assert (forall z, chr (z mod 256) = chr z) as Hm by (intros; unfold chr; by rewrite Z.mod_mod).
  apply (f_equal ord) in H. rewrite <- (Hm a), <- (Hm b), !ord_chr in H by lia. done.
Qed.

Lemma chr_inj a b : 0 <= a < 256 -> 0 <= b < 256 -> chr a = chr b -> a = b.
Proof. intros Ha Hb H. apply (f_equal ord) in H. by rewrite !ord_chr in H. Qed.

(** ** Output *)

Definition digit (d : Z) : ascii := chr (48 + d).

Fixpoint digits_aux (fuel : nat) (n : Z) (acc : chars) : chars :=
  match fuel with
  | O => acc
  | S fuel =>
      if n <? 10 then digit n :: acc
      else digits_aux fuel (n / 10) (digit (n mod 10) :: acc)
  end.

Definition print_nonneg (n : Z) : chars := digits_aux (S (Z.to_nat (Z.log2 n))) n [].

(** [os << z] for an integer type. *)
Definition print_dec (z : Z) : chars :=
  if z <? 0 then minus :: print_nonneg (- z) else print_nonneg z.

(** ** Formatted extraction *)

(** What is left of a [stringstream], and whether it is still [good()]. *)
Record istream := { rest : chars; good : bool }.

(** [ss.clear(); ss.str(line)] *)
Definition istream_of (line : chars) : istream := {| rest := line; good := true |}.

Fixpoint skip_ws (l : chars) : chars :=
  match l with
  | c :: l' => if is_space c then skip_ws l' else l
  | [] => []
  end.

Fixpoint parse_digits (l : chars) (n : nat) (v : Z) : nat * Z * chars :=
  match l with
  | c :: l' => if is_digit c then parse_digits l' (S n) (v * 10 + (ord c - 48)) else (n, v, l)
  | [] => (n, v, [])
  end.

Definition parse_sign (l : chars) : bool * chars :=
  match l with
  | c :: l' =>
      if bool_decide (c = minus) then (true, l')
      else if bool_decide (c = plus) then (false, l') else (false, l)
  | [] => (false, [])
  end.

(** [is >> x] for a type that takes the values [lo..hi]; a value above the
    range stores [hi], one below it stores [below]; [None] is "x not written". *)
Definition extract (lo hi below : Z) (st : istream) : option Z * istream :=
  if negb (good st) then (None, st)
  else match skip_ws (rest st) with
  | [] => (None, {| rest := []; good := false |})
  | l =>
      let '(neg, l1) := parse_sign l in
      let '(n, v, l2) := parse_digits l1 0 0 in
      match n with
      | O => (Some 0, {| rest := l2; good := false |})
      | S _ =>
          let x := if neg : bool then - v else v in
          if x <? lo then (Some below, {| rest := l2; good := false |})
          else if hi <? x then (Some hi, {| rest := l2; good := false |})
          else (Some x, {| rest := l2; good := bool_decide (l2 <> []) |})
      end
  end.

Definition extract_int : istream -> option Z * istream := extract (- 2 ^ 31) (2 ^ 31 - 1) (- 2 ^ 31).

(** Extraction into [unsigned long long]: a minus sign negates modulo 2^64; a
    magnitude of 2^64 or more, with either sign, stores the largest value. *)
Definition extract_ull (st : istream) : option Z * istream :=
  let '(v, st') := extract (- (2 ^ 64 - 1)) (2 ^ 64 - 1) (2 ^ 64 - 1) st in (u64 <$> v, st').

(** ** Line extraction *)

(** [getline]: the line, whether it was ended by a newline (otherwise by the
    end of the file, which sets [eofbit]), and what follows; [None] when
    nothing could be extracted. *)
Fixpoint take_line (l : chars) : chars * bool * chars :=
  match l with
  | [] => ([], false, [])
  | c :: l' =>
      if bool_decide (c = newline) then ([], true, l')
      else let '(line, b, r) := take_line l' in (c :: line, b, r)
  end.

Definition getline (l : chars) : option (chars * bool * chars) :=
  match l with [] => None | _ => Some (take_line l) end.

(** ** Printed numbers read back *)

Lemma digit_ord d : 0 <= d < 10 -> ord (digit d) = 48 + d.
Proof. intros. unfold digit. apply ord_chr. lia. Qed.

Lemma digit_is_digit d : 0 <= d < 10 -> is_digit (digit d) = true.
Proof. intros. unfold is_digit. rewrite digit_ord by done. lia. Qed.

Lemma digits_aux_app fuel n acc : digits_aux fuel n acc = digits_aux fuel n [] ++ acc.
Proof.
  revert n acc. induction fuel as [|f IH]; intros n acc; simpl; [done |].
  destruct (n <? 10); [done |].
  rewrite (IH _ (_ :: acc)), (IH _ [_]), <- app_assoc. done.
Qed.

Lemma digits_aux_digits fuel n :
  0 <= n -> Forall (fun c => is_digit c = true) (digits_aux fuel n []).
Proof.
  revert n. induction fuel as [|f IH]; intros n Hn; simpl; [constructor |].
  destruct (n <? 10) eqn:E; b2p.
  - constructor; [apply digit_is_digit; lia | constructor].
  - rewrite digits_aux_app. apply Forall_app. split.
    + apply IH. apply Z.div_pos; lia.
    + constructor; [apply digit_is_digit, Z.mod_pos_bound; lia | constructor].
Qed.

Lemma parse_digits_app ds l n v :
  Forall (fun c => is_digit c = true) ds ->
  parse_digits (ds ++ l) n v =
    parse_digits l (n + length ds)%nat (foldl (fun v c => v * 10 + (ord c - 48)) v ds).
Proof.
  intros H. revert n v. induction H as [|c ds Hc _ IH]; intros n v; simpl.
  - by rewrite Nat.add_0_r.
  - rewrite Hc, IH. f_equal. lia.
Qed.

Lemma digits_aux_value fuel n :
  0 <= n < 2 ^ Z.of_nat fuel -> foldl (fun v c => v * 10 + (ord c - 48)) 0 (digits_aux fuel n []) = n.
Proof.
  revert n. induction fuel as [|f IH]; intros n Hn; simpl digits_aux; [simpl in *; lia |].
  rewrite Nat2Z.inj_succ, Z.pow_succ_r in Hn by lia.
  destruct (n <? 10) eqn:E; b2p; simpl.
  - rewrite digit_ord; lia.
  - pose proof (Z.div_mod n 10). pose proof (Z.mod_pos_bound n 10).
    rewrite digits_aux_app, foldl_app, IH by lia. simpl. rewrite digit_ord; lia.
Qed.

(** The fuel of [print_nonneg] is enough: it halves at every digit. *)
Lemma print_fuel n : 0 <= n -> 0 <= n < 2 ^ Z.of_nat (S (Z.to_nat (Z.log2 n))).
Proof.
  intros Hn. rewrite Nat2Z.inj_succ, Z2Nat.id by apply Z.log2_nonneg.
  destruct (decide (n = 0)) as [->|]; [done |].
  pose proof (Z.log2_spec n). lia.
Qed.

(** A character that ends a number: not a digit. *)
Definition ends_number (l : chars) : Prop :=
  match l with [] => True | c :: _ => is_digit c = false end.

Lemma print_nonneg_nonempty n : 0 <= n -> print_nonneg n <> [].
Proof.
  intros Hn. unfold print_nonneg. simpl. destruct (n <? 10); [done |].
  rewrite digits_aux_app. intros [_ ?]%app_eq_nil. discriminate.
Qed.

Lemma parse_print_nonneg n l :
  0 <= n -> ends_number l ->
  exists k, parse_digits (print_nonneg n ++ l) 0 0 = (S k, n, l).
Proof.
  intros Hn Hl. rewrite parse_digits_app by (apply digits_aux_digits; done).
  unfold print_nonneg at 2. rewrite digits_aux_value by (by apply print_fuel).
  destruct (print_nonneg n) as [|c ds] eqn:E; [by apply print_nonneg_nonempty in E |].
  exists (length ds). destruct l as [|c' l]; simpl in *; [done |]. by rewrite Hl.
Qed.

Lemma digit_not_sign c : is_digit c = true ->
  is_space c = false /\ c <> minus /\ c <> plus.
Proof.
  unfold is_digit, is_space. intros H. b2p. split; [lia |].
  split; intros ->; [change (ord minus) with 45 in * | change (ord plus) with 43 in *]; lia.
Qed.

Lemma skip_parse_print z l :
  ends_number l ->
  exists c t k, print_dec z ++ l = c :: t /\ is_space c = false /\
    parse_digits (parse_sign (c :: t)).2 0 0 = (S k, Z.abs z, l) /\
    (parse_sign (c :: t)).1 = (z <? 0).
Proof.
  intros Hl. unfold print_dec. destruct (z <? 0) eqn:E; b2p.
  - destruct (parse_print_nonneg (- z) l) as [k Hk]; [lia | done |].
    exists minus, (print_nonneg (- z) ++ l), k. simpl.
    replace (Z.abs z) with (- z) by lia. done.
  - destruct (parse_print_nonneg z l) as [k Hk]; [lia | done |].
    pose proof (digits_aux_digits (S (Z.to_nat (Z.log2 z))) z ltac:(lia)) as Hd.
    destruct (print_nonneg z) as [|c ds] eqn:Ep; [apply print_nonneg_nonempty in Ep; lia |].
    unfold print_nonneg in Ep. rewrite Ep in Hd. inversion Hd as [|? ? Hc _]; subst.
    apply digit_not_sign in Hc as (Hs & Hm & Hpl).
    exists c, (ds ++ l), k. simpl. split; [done |]. split; [done |].
    rewrite !bool_decide_false by done. simpl. replace (Z.abs z) with z by lia. done.
Qed.

(** What [<<] printed, [>>] reads. *)
Lemma extract_print lo hi below z l :
  lo <= z <= hi -> ends_number l ->
  extract lo hi below {| rest := print_dec z ++ l; good := true |} =
    (Some z, {| rest := l; good := bool_decide (l <> []) |}).
Proof.
  intros Hz Hl. destruct (skip_parse_print z l Hl) as (c & t & k & E & Hc & Hp & Hs).
  unfold extract. cbn [rest good negb]. rewrite E. cbn [skip_ws]. rewrite Hc. cbv iota beta.
  destruct (parse_sign (c :: t)) as [neg l1]. simpl in Hp, Hs. rewrite Hp, Hs.
  replace (if z <? 0 then - Z.abs z else Z.abs z) with z.
  - destruct (Z.ltb_spec z lo); [lia |]. destruct (Z.ltb_spec hi z); [lia | done].
  - destruct (Z.ltb_spec z 0); lia.
Qed.

(** A blank before the number changes nothing. *)
Lemma extract_space lo hi below l :
  extract lo hi below {| rest := space :: l; good := true |} =
  extract lo hi below {| rest := l; good := true |}.
Proof. reflexivity. Qed.

(** ** Lines read back *)

Lemma take_line_app line l :
  newline ∉ line -> take_line (line ++ newline :: l) = (line, true, l).
Proof.
  induction line as [|c line IH]; intros Hn; simpl.
  - done.
  - rewrite bool_decide_false by (intros ->; apply Hn; left).
    rewrite IH; [done |]. intros ?; apply Hn. by right.
Qed.

Lemma print_dec_no_newline z : newline ∉ print_dec z.
Proof.
  assert (Hd : forall n, 0 <= n -> newline ∉ print_nonneg n).
  { intros n Hn Hin. unfold print_nonneg in Hin.
    pose proof (digits_aux_digits (S (Z.to_nat (Z.log2 n))) n Hn) as H.
    rewrite Forall_forall in H. apply H in Hin. discriminate. }
  unfold print_dec. destruct (z <? 0) eqn:E; b2p; [| apply Hd; lia].
  rewrite not_elem_of_cons. split; [done | apply Hd; lia].
Qed.
