(* ===== verification/Gadia.v ===== *)
(** * The inter-chiplet channel: [gadia_call] and [gadia_receive]

    Models the two pseudo instructions the fork adds to
    [gem5/src/sim/pseudo_inst.cc].  A chiplet (one simulator process) sends a
    word to another by appending a line "tick src target data" to the file
    [communication<target>]; the receiver keeps one static file position and
    scans forward for the next line addressed to it.

    The state is the shared directory (a map from path to contents) and the
    receiver's [gadia_last_position].  The theorems show that a receiver that
    polls its own file sees exactly the messages sent to it, once and in
    order (a refinement of a FIFO queue), and what happens outside that use:
    broadcasts are lost, and the single static position makes a receiver that
    polls two files skip messages. *)
From S2P Require Import Prelude IoStream.

#[global] Instance ascii_eq_decision : EqDecision ascii := ascii_dec.

(** ** Files *)

(** The shared directory: path to contents.  A path that ends in a slash
    names a directory and is never a file. *)
Abbreviation files := (gmap chars chars).

Definition slash : ascii := chr 47.

Definition can_open (path : chars) : bool := bool_decide (last path <> Some slash).

Definition fs_ok (fs : files) : Prop :=
  forall path, can_open path = false -> fs !! path = None.

(** [c_str()]: the path handed to the operating system ends at a NUL. *)
Fixpoint c_str (l : chars) : chars :=
  match l with
  | [] => []
  | c :: l => if bool_decide (c = chr 0) then [] else c :: c_str l
  end.

Definition append_file (fs : files) (path bytes : chars) : files :=
  if can_open path then <[path := default [] (fs !! path) ++ bytes]> fs else fs.

(** ["communication"] *)
Definition communication : chars :=
  map chr [99; 111; 109; 109; 117; 110; 105; 99; 97; 116; 105; 111; 110].

(** [fileName += ((int) n) + '0'] : one character, whatever [n]. *)
Definition file_name (n : Z) : chars := communication ++ [chr (i32 n + 48)].

#[global] Arguments c_str : simpl never.
#[global] Arguments file_name : simpl never.

#[global] Arguments communication : simpl never.

(** ** Messages *)
Record msg := Msg { m_tick : Z; m_src : Z; m_tgt : Z; m_data : Z }.

Definition render_body (m : msg) : chars :=
  print_dec (m_tick m) ++ space :: print_dec (m_src m) ++
  space :: print_dec (m_tgt m) ++ space :: print_dec (m_data m).

Definition render (m : msg) : chars := render_body m ++ [newline].

Definition render_all (ms : list msg) : chars := concat (map render ms).

(** The four [ss >> x] of the receive loop; every variable is read by the
    trace output that follows, so none may be left indeterminate. *)
Definition parse_line (line : chars) : res (Z * Z * Z * Z) :=
  let '(time, s1) := extract_ull (istream_of line) in
  let '(a, s2) := extract_int s1 in
  let '(b, s3) := extract_int s2 in
  let '(c, _) := extract_int s3 in
  match time, a, b, c with
  | Some time, Some a, Some b, Some c => Ok (time, a, b, c)
  | _, _, _, _ => Err EUninit
  end.

(** ** The two pseudo instructions *)

Definition gadia_call (curTick srcCore targetCoreNum data init : Z) (fs : files) : files :=
  if init =? 0 then
    append_file fs (c_str (file_name targetCoreNum))
      (render (Msg curTick (i32 srcCore) (i32 targetCoreNum) (i32 data)))
  else fs.

(** The condition under which a line is taken. *)
Definition addressed (srcCore a b : Z) : bool :=
  (srcCore =? b) || ((-1 =? b) && negb (a =? srcCore)).

(** The [while (getline(file, line))] loop; [pos] is the read position, and
    [tellg] is -1 once the end of the file was hit. *)
Fixpoint receive_loop (fuel : nat) (srcCore : Z) (l : chars) (pos last : Z) : res (Z * Z) :=
  match fuel with
  | O => Ok (u64 (-1), last)
  | S fuel =>
      match getline l with
      | None => Ok (u64 (-1), last)
      | Some (line, nl, l') =>
          r ← parse_line line;
          let '(_, a, b, c) := r in
          let pos' := pos + Z.of_nat (length l - length l') in
          if addressed srcCore a b then Ok (u64 c, if nl : bool then pos' else -1)
          else if nl : bool then receive_loop fuel srcCore l' pos' last
          else Ok (u64 (-1), last)
      end
  end.

(** [gadia_receive]: the returned word and the new [gadia_last_position]. *)
Definition gadia_receive (srcCoreNumber : Z) (fs : files) (last : Z) : res (Z * Z) :=
  match fs !! c_str (file_name srcCoreNumber) with
  | None => Ok (u64 (-3), last)
  | Some content =>
      if last <? 0 then Ok (u64 (-1), last)
      else
        let l := drop (Z.to_nat last) content in
        receive_loop (S (length l)) (i32 srcCoreNumber) l last last
  end.

(** ** Lines *)

Definition msg_ok (m : msg) : Prop :=
  in_u64 (m_tick m) /\ in_i32 (m_src m) /\ in_i32 (m_tgt m) /\ in_i32 (m_data m).

Lemma ends_number_space l : ends_number (space :: l).
Proof. done. Qed.

Lemma extract_int_print_space z l :
  in_i32 z ->
  extract_int {| rest := space :: print_dec z ++ space :: l; good := true |} =
    (Some z, {| rest := space :: l; good := true |}).
Proof.
  unfold extract_int, in_i32. intros Hz. rewrite extract_space, extract_print by (first [lia | done]).
  f_equal.
Qed.

Lemma extract_int_print_end z :
  in_i32 z ->
  extract_int {| rest := space :: print_dec z; good := true |} =
    (Some z, {| rest := []; good := false |}).
Proof.
  unfold extract_int, in_i32. intros Hz. rewrite extract_space.
  rewrite <- (app_nil_r (print_dec z)), extract_print by (first [lia | done]). done.
Qed.

Lemma extract_ull_print_space z l :
  in_u64 z ->
  extract_ull {| rest := print_dec z ++ space :: l; good := true |} =
    (Some z, {| rest := space :: l; good := true |}).
Proof.
  unfold extract_ull, in_u64. intros Hz. rewrite extract_print by (first [lia | done]).
  simpl. by rewrite u64_id.
Qed.

(** A written line is read back as the four numbers that were written. *)
Lemma parse_render_body m :
  msg_ok m -> parse_line (render_body m) = Ok (m_tick m, m_src m, m_tgt m, m_data m).
Proof.
  intros (Ht & Hs & Hg & Hd). unfold parse_line, render_body, istream_of.
  rewrite extract_ull_print_space by done.
  rewrite extract_int_print_space by done.
  rewrite extract_int_print_space by done.
  rewrite extract_int_print_end by done. done.
Qed.

Lemma render_body_no_newline m : newline ∉ render_body m.
Proof.
  unfold render_body.
  repeat (rewrite ?elem_of_app, ?elem_of_cons; intros [H|H]; revert H);
    try (intros H; by apply print_dec_no_newline in H); try (intros H; discriminate H).
  all: intros H; repeat (rewrite ?elem_of_app, ?elem_of_cons in H; destruct H as [H|H]);
    try discriminate H; by apply print_dec_no_newline in H.
Qed.

Lemma render_nonempty m : render m <> [].
Proof. unfold render. intros [_ ?]%app_eq_nil. done. Qed.

Lemma getline_render m l : getline (render m ++ l) = Some (render_body m, true, l).
Proof.
  unfold getline, render. rewrite <- app_assoc. simpl.
  destruct (render_body m ++ newline :: l) eqn:E; [by apply app_eq_nil in E as [_ ?] |].
  rewrite <- E. by rewrite take_line_app by apply render_body_no_newline.
Qed.

Lemma render_all_cons m ms : render_all (m :: ms) = render m ++ render_all ms.
Proof. done. Qed.

Lemma render_all_app ms ms' : render_all (ms ++ ms') = render_all ms ++ render_all ms'.
Proof. unfold render_all. by rewrite map_app, concat_app. Qed.

Lemma render_all_snoc ms m : render_all (ms ++ [m]) = render_all ms ++ render m.
Proof. rewrite render_all_app. unfold render_all at 2. simpl. by rewrite app_nil_r. Qed.

(** ** The abstract channel: a queue of undelivered messages *)

(** A message is for a core if it was sent to it, or to everyone by another. *)
Definition for_core (core : Z) (m : msg) : bool :=
  bool_decide (m_tgt m = core \/ (m_tgt m = -1 /\ m_src m <> core)).

Lemma addressed_for_core core m : addressed core (m_src m) (m_tgt m) = for_core core m.
Proof. unfold addressed, for_core. case_bool_decide; lia. Qed.

(** Dequeue the first message addressed to [core]; the lines before it are
    passed over for good. *)
Fixpoint queue_recv (core : Z) (q : list msg) : option (msg * list msg) :=
  match q with
  | [] => None
  | m :: q => if for_core core m then Some (m, q) else queue_recv core q
  end.

Lemma receive_loop_spec fuel core q pos last :
  Forall msg_ok q -> (length (render_all q) < fuel)%nat ->
  receive_loop fuel core (render_all q) pos last =
    Ok match queue_recv core q with
       | Some (m, q') =>
           (u64 (m_data m), pos + Z.of_nat (length (render_all q) - length (render_all q')))
       | None => (u64 (-1), last)
       end.
Proof.
  intros Hq. revert fuel pos. induction Hq as [|m q Hm Hq IH]; intros [|f] pos Hf;
    try (simpl in Hf; lia); [done |].
  rewrite render_all_cons. cbn [receive_loop]. rewrite getline_render.
  rewrite parse_render_body by done. cbn [mbind res_bind].
  cbn [queue_recv]. rewrite addressed_for_core.
  rewrite render_all_cons, length_app in Hf.
  assert (0 < length (render m))%nat
    by (destruct (render m) eqn:E; [by apply render_nonempty in E | simpl; lia]).
  destruct (for_core core m); [done |].
  rewrite IH by lia. f_equal.
  destruct (queue_recv core q) as [[m' q']|] eqn:E; [| done].
  f_equal. rewrite !length_app.
  assert (length (render_all q') <= length (render_all q))%nat; [| lia].
  clear -E. revert E. induction q as [|x q IH]; simpl; [done |].
  rewrite render_all_cons, length_app. destruct (for_core core x).
  - intros [= <- <-]. lia.
  - intros E. specialize (IH E). lia.
Qed.

Lemma queue_recv_split core q m q' :
  queue_recv core q = Some (m, q') ->
  exists skipped, q = skipped ++ m :: q' /\ for_core core m = true /\
    Forall (fun x => for_core core x = false) skipped.
Proof.
  induction q as [|x q IH]; simpl; [done |]. destruct (for_core core x) eqn:E.
  - intros [= -> ->]. exists []. done.
  - intros (sk & -> & ? & ?)%IH. exists (x :: sk). split_and!; [done | done | by constructor].
Qed.

(** ** Simulation

    The abstract state of the channel a core polls: whether the file exists,
    and the queue of messages behind the read position. *)
Record chan := { created : bool; queue : list msg }.

Inductive op :=
  | OCall (tick src tgt data init : Z)
  | ORecv.

Section Channel.
Context (core : Z).

Definition conc_step (st : files * Z) (o : op) : res (option Z * (files * Z)) :=
  match o with
  | OCall tick src tgt data init => Ok (None, (gadia_call tick src tgt data init st.1, st.2))
  | ORecv => r ← gadia_receive core st.1 st.2; Ok (Some r.1, (st.1, r.2))
  end.

Definition abs_step (c : chan) (o : op) : option Z * chan :=
  match o with
  | OCall tick src tgt data init =>
      if (init =? 0) && bool_decide (c_str (file_name tgt) = c_str (file_name core)) then
        (None, {| created := true;
                  queue := queue c ++ [Msg tick (i32 src) (i32 tgt) (i32 data)] |})
      else (None, c)
  | ORecv =>
      if created c then
        match queue_recv (i32 core) (queue c) with
        | Some (m, q) => (Some (u64 (m_data m)), {| created := true; queue := q |})
        | None => (Some (u64 (-1)), c)
        end
      else (Some (u64 (-3)), c)
  end.

Fixpoint conc_run (os : list op) (st : files * Z) : res (list Z * (files * Z)) :=
  match os with
  | [] => Ok ([], st)
  | o :: os =>
      r ← conc_step st o;
      r' ← conc_run os r.2;
      Ok (option_list r.1 ++ r'.1, r'.2)
  end.

Fixpoint abs_run (os : list op) (c : chan) : list Z * chan :=
  match os with
  | [] => ([], c)
  | o :: os =>
      let '(out, c') := abs_step c o in
      let '(outs, c'') := abs_run os c' in
      (option_list out ++ outs, c'')
  end.

(** The file is what was delivered or passed over, then the queue; the
    position is the boundary between the two. *)
Definition chan_rel (st : files * Z) (c : chan) : Prop :=
  Forall msg_ok (queue c) /\
  if created c then
    exists old, st.1 !! c_str (file_name core) = Some (render_all (old ++ queue c)) /\
      st.2 = Z.of_nat (length (render_all old))
  else st.1 !! c_str (file_name core) = None /\ st.2 = 0 /\ queue c = [].

Definition op_ok (o : op) : Prop :=
  match o with OCall tick _ _ _ _ => in_u64 tick | ORecv => True end.

Hypothesis Hopen : can_open (c_str (file_name core)) = true.

Lemma chan_rel_call st c tick src tgt data init :
  in_u64 tick -> chan_rel st c ->
  chan_rel (gadia_call tick src tgt data init st.1, st.2)
           (abs_step c (OCall tick src tgt data init)).2.
Proof.
  intros Ht [Hok Hrel]. unfold gadia_call, abs_step. destruct (init =? 0); [| done].
  set (m := Msg tick (i32 src) (i32 tgt) (i32 data)).
  assert (Hm : msg_ok m) by (split_and!; [done | apply i32_range..]).
  case_bool_decide as Hn; cbn [andb fst snd].
  - rewrite Hn. unfold append_file. rewrite Hopen. split.
    + simpl. apply Forall_app. split; [done | by constructor].
    + simpl. destruct (created c) eqn:Ec.
      * destruct Hrel as (old & Hf & Hp). exists old. simpl.
        rewrite lookup_insert_eq, Hf. simpl. rewrite app_assoc, <- render_all_snoc. done.
      * destruct Hrel as (Hf & -> & Hq). exists []. simpl.
        rewrite lookup_insert_eq, Hf, Hq. simpl. unfold render_all. simpl. by rewrite app_nil_r.
  - split; [done |]. unfold append_file. destruct (can_open (c_str (file_name tgt))); [| done].
    destruct (created c); [destruct Hrel as (old & ? & ?); exists old |];
      cbn [fst snd]; rewrite lookup_insert_ne by done; done.
Qed.

Lemma chan_rel_recv st c :
  chan_rel st c ->
  exists last, gadia_receive core st.1 st.2 = Ok (default 0 (abs_step c ORecv).1, last) /\
    is_Some (abs_step c ORecv).1 /\ chan_rel (st.1, last) (abs_step c ORecv).2.
Proof.
  intros [Hok Hrel]. unfold gadia_receive, abs_step. destruct (created c) eqn:Ec.
  - destruct Hrel as (old & Hf & Hp). rewrite Hf, Hp.
    destruct (Z.ltb_spec (Z.of_nat (length (render_all old))) 0); [lia |].
    rewrite Nat2Z.id, render_all_app, drop_app_length.
    rewrite receive_loop_spec by (done || lia).
    destruct (queue_recv (i32 core) (queue c)) as [[m q']|] eqn:E.
    + eexists. split; [done |]. split; [done |].
      apply queue_recv_split in E as (sk & Hq & _ & _).
      rewrite Hq in *. apply Forall_app in Hok as [Hsk Hok]. inversion Hok; subst.
      split; [done |]. simpl. exists (old ++ sk ++ [m]). split.
      * rewrite Hf. f_equal. f_equal. by rewrite <- !app_assoc.
      * rewrite !render_all_app, !length_app, render_all_cons, length_app.
        change (render_all [m]) with (render m ++ []). rewrite length_app. simpl. lia.
    + eexists. split; [done |]. split; [done |]. split; [done |].
      simpl. rewrite Ec. exists old. done.
  - destruct Hrel as (Hf & Hp & Hq). rewrite Hf. eexists. split; [done |]. split; [done |].
    split; [done |]. simpl. rewrite Ec. done.
Qed.

Lemma step_refines st c o :
  op_ok o -> chan_rel st c ->
  exists st1, conc_step st o = Ok ((abs_step c o).1, st1) /\ chan_rel st1 (abs_step c o).2.
Proof.
  intros Ho Hrel. destruct o as [tick src tgt data init|].
  - eexists. split; [| by apply (chan_rel_call st c tick src tgt data init)].
    unfold conc_step, abs_step. f_equal. by destruct (_ && _).
  - destruct (chan_rel_recv st c Hrel) as (last & Hrecv & [v Hv] & Hrel').
    exists (st.1, last). split; [| done]. rewrite Hv in Hrecv.
    unfold conc_step. rewrite Hrecv, Hv. done.
Qed.

Lemma run_refines os st c :
  Forall op_ok os -> chan_rel st c ->
  exists st', conc_run os st = Ok ((abs_run os c).1, st') /\ chan_rel st' (abs_run os c).2.
Proof.
  intros Hos. revert st c. induction Hos as [|o os Ho _ IH]; intros st c Hrel.
  { exists st. done. }
  cbn [conc_run abs_run]. destruct (step_refines st c o Ho Hrel) as (st1 & Hs & Hrel1).
  rewrite Hs. destruct (abs_step c o) as [out c']. cbn [mbind res_bind fst snd] in *.
  destruct (IH _ _ Hrel1) as (st' & Hr & Hrel2). rewrite Hr.
  destruct (abs_run os c') as [outs c'']. cbn [mbind res_bind fst snd] in *. eauto.
Qed.
End Channel.

(** ** Properties of the channel *)

(** A path of the channel is openable unless its last character is '/'
    (or, being a C string, NUL). *)
Lemma file_name_open core :
  (i32 core + 48) mod 256 <> 47 -> can_open (c_str (file_name core)) = true.
Proof.
  intros H. unfold can_open. apply bool_decide_eq_true. unfold c_str, file_name. simpl.
  case_bool_decide; simpl; [done |]. intros [= E].
  by apply chr_eq in E.
Qed.

(** Distinct cores 0..9 use distinct files. *)
Lemma file_name_inj a b :
  0 <= a <= 9 -> 0 <= b <= 9 -> c_str (file_name a) = c_str (file_name b) -> a = b.
Proof.
  intros Ha Hb H. unfold c_str, file_name in H. simpl in H.
  rewrite !i32_id in H by (unfold in_i32; lia).
  assert (forall x, 0 <= x <= 9 -> chr (x + 48) <> chr 0) as Hz.
  { intros x Hx E. apply chr_inj in E; lia. }
  rewrite !bool_decide_false in H by (apply Hz; done). simplify_eq.
  apply chr_inj in H; lia.
Qed.

(** C7.  Over any interleaving of [gadia_call]s (by anyone, to anyone) with
    [gadia_receive]s of one core, starting from an empty directory, the words
    the core receives are those of the abstract queue: its messages, each
    once, in the order they were sent; -3 before the file exists and -1 when
    nothing is pending.  The file and the read position stay related to the
    queue: what was delivered or passed over lies before the position, the
    queue behind it.  No receive ever reads an indeterminate value.  The core's
    file name must be one that can be opened (its digit character is not a
    slash, which excludes core -1), and tick values are 64-bit. *)
Theorem gadia_refines_queue (core : Z) (os : list op) :
  (i32 core + 48) mod 256 <> 47 -> Forall op_ok os ->
  let abs := abs_run core os {| created := false; queue := [] |} in
  exists st, conc_run core os (∅, 0) = Ok (abs.1, st) /\ chan_rel core st abs.2.
Proof.
  intros Hn Hos. apply (run_refines core (file_name_open core Hn)); [done |]. split; [constructor | done].
Qed.

Lemma gadia_refines_queue_witness :
  exists st, conc_run 1 [ORecv; OCall 500 0 1 42 0; OCall 501 0 2 7 0; OCall 502 3 1 (-5) 0;
                         ORecv; ORecv; ORecv] (∅, 0) =
    Ok ([u64 (-3); 42; u64 (-5); u64 (-1)], st) /\ chan_rel 1 st {| created := true; queue := [] |}.
Proof.
  apply (gadia_refines_queue 1
    [ORecv; OCall 500 0 1 42 0; OCall 501 0 2 7 0; OCall 502 3 1 (-5) 0; ORecv; ORecv; ORecv]);
    [done | repeat constructor; done].
Defined.

Lemma abs_run_app core os1 os2 c :
  abs_run core (os1 ++ os2) c =
    let '(o1, c1) := abs_run core os1 c in
    let '(o2, c2) := abs_run core os2 c1 in (o1 ++ o2, c2).
Proof.
  revert c. induction os1 as [|o os1 IH]; intros c; simpl.
  - by destruct (abs_run core os2 c).
  - destruct (abs_step core c o) as [out c']. rewrite IH.
    destruct (abs_run core os1 c') as [o1 c1]. destruct (abs_run core os2 c1) as [o2 c2].
    by rewrite app_assoc.
Qed.

(** A send to [core] from core [src] with data [d], as the operation and as
    the message it queues. *)
Definition send_to (core : Z) (sd : Z * Z * Z) : op := OCall sd.1.1 sd.1.2 core sd.2 0.
Definition sent_msg (core : Z) (sd : Z * Z * Z) : msg :=
  Msg sd.1.1 (i32 sd.1.2) (i32 core) (i32 sd.2).

Lemma abs_step_send core sd c :
  abs_step core c (send_to core sd) =
    (None, {| created := true; queue := queue c ++ [sent_msg core sd] |}).
Proof.
  unfold abs_step, send_to. rewrite Z.eqb_refl, bool_decide_true by reflexivity. reflexivity.
Qed.

Lemma abs_run_sends core sends c :
  abs_run core (map (send_to core) sends) c =
    ([], {| created := created c || bool_decide (sends <> []);
            queue := queue c ++ map (sent_msg core) sends |}).
Proof.
  revert c. induction sends as [|sd sends IH]; intros c; cbn [map abs_run].
  - rewrite app_nil_r, orb_false_r. by destruct c.
  - rewrite abs_step_send, IH. cbn [created queue option_list].
    rewrite orb_true_l, <- app_assoc, (bool_decide_true (sd :: sends <> [])), orb_true_r by done.
    done.
Qed.

Lemma abs_step_recv core sd sends :
  abs_step core {| created := true; queue := map (sent_msg core) (sd :: sends) |} ORecv =
    (Some (u64 (i32 sd.2)), {| created := true; queue := map (sent_msg core) sends |}).
Proof.
  unfold abs_step. cbn [created queue map queue_recv]. unfold for_core.
  rewrite bool_decide_true by (by left). done.
Qed.

Lemma abs_run_drain core sends :
  (abs_run core (replicate (length sends) ORecv)
     {| created := true; queue := map (sent_msg core) sends |}) =
  (map (fun sd => u64 (i32 sd.2)) sends, {| created := true; queue := [] |}).
Proof.
  induction sends as [|sd sends IH]; [done |].
  cbn [length replicate abs_run]. rewrite abs_step_recv, IH. done.
Qed.

(** Exactly-once, in-order delivery: after any number of sends to a
    core, as many receives return exactly the data words in order, and one
    more receive reports that nothing is left. *)
Theorem gadia_fifo (core : Z) (sends : list (Z * Z * Z)) :
  (i32 core + 48) mod 256 <> 47 ->
  Forall (fun sd => in_u64 sd.1.1) sends -> sends <> [] ->
  exists st, conc_run core (map (send_to core) sends ++
                            replicate (length sends) ORecv ++ [ORecv]) (∅, 0) =
    Ok (map (fun sd => u64 (i32 sd.2)) sends ++ [u64 (-1)], st).
Proof.
  intros Hn Hs Hne.
  destruct (run_refines core (file_name_open core Hn)
    (map (send_to core) sends ++ replicate (length sends) ORecv ++ [ORecv]) (∅, 0)
    {| created := false; queue := [] |}) as (st & H & _).
  - repeat (apply Forall_app; split).
    + apply Forall_map. by eapply Forall_impl.
    + by apply Forall_replicate.
    + by constructor.
  - split; [constructor | done].
  - exists st. rewrite H. f_equal. f_equal.
    rewrite abs_run_app, abs_run_sends. cbn [created queue].
    rewrite app_nil_l, orb_false_l, bool_decide_true by done.
    rewrite abs_run_app, abs_run_drain. done.
Qed.

Lemma gadia_fifo_witness :
  exists st, conc_run 2 (map (send_to 2) [(10, 0, 7); (11, 1, -2)] ++ [ORecv; ORecv; ORecv]) (∅, 0) =
    Ok ([7; u64 (-2); u64 (-1)], st).
Proof.
  apply (gadia_fifo 2 [(10, 0, 7); (11, 1, -2)]); [done | repeat constructor; done | done].
Defined.

(** A [gadia_call] to target -1, the "all cores" target of the comment
    in [gadia_receive], is lost: '0' - 1 is '/', the path names a directory,
    nothing is written, whoever sends and whatever the directory holds. *)
Theorem gadia_broadcast_lost (tick src data init : Z) (fs : files) :
  gadia_call tick src (-1) data init fs = fs /\
  gadia_call tick src (2 ^ 64 - 1) data init fs = fs.
Proof. split; unfold gadia_call; destruct (init =? 0); done. Qed.

(** A receive on core -1 finds no file in any directory and reports -3
    without moving: it can never deliver a message. *)
Theorem gadia_receive_minus_one (fs : files) (last : Z) :
  fs_ok fs -> gadia_receive (u64 (-1)) fs last = Ok (u64 (-3), last).
Proof. intros Hfs. unfold gadia_receive. by rewrite Hfs. Qed.

Lemma gadia_receive_minus_one_witness :
  gadia_receive (u64 (-1)) (gadia_call 1 0 3 9 0 ∅) 0 = Ok (u64 (-3), 0).
Proof.
  apply (gadia_receive_minus_one (gadia_call 1 0 3 9 0 ∅) 0).
  intros path Hp. unfold gadia_call. simpl. unfold append_file.
  replace (can_open (c_str (file_name 3))) with true by reflexivity.
  rewrite lookup_insert_ne; [done |]. intros <-. discriminate Hp.
Defined.

(** The position is one static variable for every file: after a
    receiver took a message from one channel, a message at the head of
    another channel is passed over. *)
Theorem gadia_shared_position_skips :
  let fs := gadia_call 2 0 5 60 0 (gadia_call 1 0 4 50 0 ∅) in
  gadia_receive 5 fs 0 = Ok (60, 9) /\
  gadia_receive 4 fs 0 = Ok (50, 9) /\ gadia_receive 5 fs 9 = Ok (u64 (-1), 9).
Proof. vm_compute. done. Qed.

(** ** The file as a whole *)

(** All lines of a file, as the receive loop would read them. *)
Fixpoint read_records (fuel : nat) (l : chars) : res (list (Z * Z * Z * Z)) :=
  match fuel with
  | O => Err EFuel
  | S fuel =>
      match getline l with
      | None => Ok []
      | Some (line, _, l') =>
          r ← parse_line line;
          rs ← read_records fuel l';
          Ok (r :: rs)
      end
  end.

Lemma read_render_all ms : forall fuel,
  Forall msg_ok ms -> (length (render_all ms) < fuel)%nat ->
  read_records fuel (render_all ms) = Ok (map (fun m => (m_tick m, m_src m, m_tgt m, m_data m)) ms).
Proof.
  induction ms as [|m ms IH]; intros [|fuel] Hok Hf; try lia; [done |].
  apply Forall_cons in Hok as [Hm Hms]. rewrite render_all_cons, length_app in Hf.
  assert (0 < length (render m))%nat
    by (destruct (render m) eqn:E; [by apply render_nonempty in E | cbn; lia]).
  rewrite render_all_cons. cbn [read_records]. rewrite getline_render, parse_render_body by done. rsimpl.
  rewrite IH by (done || lia). done.
Qed.

(** A call: tick, source core and data word. *)
Definition call_all (tgt : Z) (calls : list (Z * Z * Z)) (fs : files) : files :=
  foldl (fun fs c => gadia_call c.1.1 c.1.2 tgt c.2 0 fs) fs calls.

Lemma call_all_content tgt calls : forall fs ms,
  can_open (c_str (file_name tgt)) = true ->
  default [] (fs !! c_str (file_name tgt)) = render_all ms ->
  default [] (call_all tgt calls fs !! c_str (file_name tgt)) =
    render_all (ms ++ map (fun c => Msg c.1.1 (i32 c.1.2) (i32 tgt) (i32 c.2)) calls).
Proof.
  unfold call_all. induction calls as [|[[t s] d] calls IH]; intros fs ms Ho Hf; cbn [foldl map].
  { by rewrite app_nil_r. }
  cbn [fst snd]. rewrite (IH _ (ms ++ [Msg t (i32 s) (i32 tgt) (i32 d)])); [by rewrite <- app_assoc | done |].
  unfold gadia_call. cbn [Z.eqb]. unfold append_file. rewrite Ho, lookup_insert_eq. cbn [default].
  by rewrite Hf, render_all_snoc.
Qed.

(** C37.  What [gadia_call] writes is what the parser of [gadia_receive]
    reads: after any sequence of calls to a core whose file did not exist, the
    lines of its file parse to the tick and the [int] values of source, target
    and data of the calls, in their order. *)
Theorem gadia_record_roundtrip (tgt : Z) (calls : list (Z * Z * Z)) (fs : files) :
  can_open (c_str (file_name tgt)) = true -> fs !! c_str (file_name tgt) = None ->
  Forall (fun c => in_u64 c.1.1) calls ->
  let content := default [] (call_all tgt calls fs !! c_str (file_name tgt)) in
  read_records (S (length content)) content =
    Ok (map (fun c => (c.1.1, i32 c.1.2, i32 tgt, i32 c.2)) calls).
Proof.
  intros Ho Hf Hok content.
  assert (Hc : content = render_all (map (fun c => Msg c.1.1 (i32 c.1.2) (i32 tgt) (i32 c.2)) calls)).
  { unfold content. apply (call_all_content tgt calls fs []); [done | by rewrite Hf]. }
  rewrite Hc, read_render_all; [by rewrite map_map | | lia].
  apply Forall_map. eapply Forall_impl; [exact Hok |]. intros c Hc'. split_and!; [done | apply i32_range..].
Qed.

Lemma gadia_record_roundtrip_witness :
  let content := default [] (call_all 2 [(5, 1, 42); (9, 0, 2 ^ 64 - 7)] ∅ !! c_str (file_name 2)) in
  read_records (S (length content)) content = Ok [(5, 1, 2, 42); (9, 0, 2, -7)].
Proof.
  apply (gadia_record_roundtrip 2 [(5, 1, 42); (9, 0, 2 ^ 64 - 7)] ∅);
    [reflexivity | reflexivity | repeat constructor; cbn; lia].
Defined.
