(* ===== verification/MatrixBench.v ===== *)
(** * The matrix benchmark of the fork

    Models [benchmark/matrix/test01.cpp]: every chiplet runs a process that
    computes its half of a matrix product with four POSIX threads and sends the
    cells to chiplet 0 with [m5_gadia_call].

    A thread is the list of statements it still has to execute, its counted
    loops unrolled; a step executes the first statement of one thread, so a run
    is an interleaving of all threads.  The statements are the accesses to what
    threads share: a read-modify-write of a cell, a pseudo instruction, the
    mutex, the condition variable, [pthread_create] and [pthread_join].  The
    directory of channel files is shared with the other processes.  A condition
    variable wakes its waiters on [pthread_cond_broadcast], and any of them at
    any time ([spurious]): POSIX allows it, and the code has no loop against
    it.  Timing, output and the CPU affinity mask itself are not modelled.

    The theorems: what a process that got past the start-up handshake computes
    and sends, under every interleaving of its threads and every spurious
    wake-up; that no execution runs forever, and none deadlocks unless a
    spurious wake-up happened; how the threads partition the matrix; and that
    the handshake itself cannot be passed, because nothing ever sends the word
    it waits for. *)
From S2P Require Import Prelude IoStream Gadia.

Definition thread_num : Z := 4.

Inductive stmt :=
  | SCall (src tgt data init : Z)     (** [m5_gadia_call] *)
  | SSpin                             (** [while (1) { if (m5_gadia_receive(theChipletScale) == -4) break; }] *)
  | SCreate (i : Z)                   (** [pthread_create] *)
  | SJoin (i : Z)                     (** [pthread_join] *)
  | SLock                             (** [pthread_mutex_lock(mtx)] *)
  | SUnlock                           (** [pthread_mutex_unlock(mtx)] *)
  | SAffinity                         (** the use of [core_counter] *)
  | SPerf                             (** [perf_cycle] with the mutex held, up to the test of the counter *)
  | SPerfEnd                          (** the last thread: reset the counter and broadcast *)
  | SAcc (cell k : Z)                 (** one iteration of the inner loop of [caculate] *)
  | SSend (cell : Z).                 (** one iteration of [toWrite] *)

#[export] Instance stmt_eq_dec : EqDecision stmt.
Proof. solve_decision. Defined.

(** A thread exists from [pthread_create] on; a waiting thread is blocked in
    [pthread_cond_wait]. *)
Inductive status := NotCreated | Running | Waiting.

#[export] Instance status_eq_dec : EqDecision status.
Proof. solve_decision. Defined.

Record thread := { prog : list stmt; stat : status }.

Record process := {
  matrix3 : list Z;
  counter : Z;
  mtx : option Z;           (** the thread that holds the mutex *)
  core_counter : Z;
  gadia_last_position : Z;  (** of the simulator the process runs in *)
  threads : list thread     (** the worker threads, then the main thread *)
}.

#[export] Instance process_eta : Eta process := {| eta := fun p =>
  {| matrix3 := matrix3 p; counter := counter p; mtx := mtx p; core_counter := core_counter p;
     gadia_last_position := gadia_last_position p; threads := threads p |} |}.

(** What does not change after [init]. *)
Record env := {
  N : Z;
  id : Z;
  theChipletScale : Z;
  coreNum : Z;
  matrix1 : list Z;
  matrix2 : list Z
}.

(** ** The program *)

Definition perf_cycle : list stmt := [SLock; SPerf; SUnlock].

Definition caculate (e : env) (offset length : Z) : list stmt :=
  i ← upto length; k ← upto (N e); [SAcc (i + offset) k].

Definition toWrite (offset length : Z) : list stmt :=
  SLock :: (i ← upto length; [SSend (i + offset)]) ++ [SUnlock].

Definition matrix_parallel (e : env) (offset length : Z) : list stmt :=
  [SLock; SAffinity; SUnlock] ++ perf_cycle ++ caculate e offset length ++
  toWrite offset length ++ perf_cycle.

Definition thread_offset (e : env) (i : Z) : Z :=
  i32 (i32 (i32 (i * N e) * N e) ÷ thread_num ÷ 2 + i32 (i32 (id e * N e) * N e) ÷ 2).
Definition thread_length (e : env) : Z := i32 (N e * N e) ÷ thread_num ÷ 2.

Definition launch_threads : list stmt :=
  [SCall 0 1 0 (-1); SSpin] ++ (SCreate <$> upto thread_num) ++ (SJoin <$> upto thread_num).

Definition main_prog (e : env) : list stmt := SCall (id e) 1 0 0 :: launch_threads.

(** [init]: the arrays, whose contents are indeterminate before. *)
Definition init_matrices (n : Z) (raw1 raw2 : list Z) : res (list Z * list Z * list Z) :=
  r ← foldM (fun ms i => a ← vset ms.1 i 1; b ← vset ms.2 i 2; Ok (a, b)) (upto (i32 (n * n))) (raw1, raw2);
  Ok (r.1, r.2, replicate (Z.to_nat (n * n)) 0).

Definition worker (e : env) (i : Z) : thread :=
  {| prog := matrix_parallel e (thread_offset e i) (thread_length e); stat := NotCreated |}.

Definition start (e : env) (m3 : list Z) : process :=
  {| matrix3 := m3; counter := thread_num; mtx := None; core_counter := 0; gadia_last_position := 0;
     threads := (worker e <$> upto thread_num) ++ [{| prog := main_prog e; stat := Running |}] |}.

(** ** Execution *)

Definition set_thread (p : process) (t : Z) (th : thread) : res process :=
  ths ← vset (threads p) t th; Ok (p ⟨ threads := ths ⟩).

(** [matrix3[c] = matrix3[c] + matrix1[y*N + k] * matrix2[k*N + x]]. *)
Definition accumulate (e : env) (m3 : list Z) (c k : Z) : res (list Z) :=
  let current_x := c ÷ N e in
  let current_y := Z.rem c (N e) in
  v ← vget m3 c;
  a ← vget (matrix1 e) (i32 (i32 (current_y * N e) + k));
  b ← vget (matrix2 e) (i32 (i32 (k * N e) + current_x));
  vset m3 c (i32 (v + a * b)).

Definition wake_waiting (th : thread) : thread :=
  if decide (stat th = Waiting) then {| prog := SLock :: prog th; stat := Running |} else th.

(** One step of thread [t] at simulated time [tick]: the pseudo instructions
    it executes, and the process after it.  [None]: the thread cannot move. *)
Definition exec (e : env) (tick t : Z) (fs : files) (p : process) : res (option (list op * process)) :=
  th ← vget (threads p) t;
  if negb (bool_decide (stat th = Running)) then Ok None else
  match prog th with
  | [] => Ok None
  | s :: rest =>
      let next calls p := p ← set_thread p t {| prog := rest; stat := Running |}; Ok (Some (calls, p)) in
      match s with
      | SCall src tgt data init => next [OCall tick (u64 src) (u64 tgt) (u64 data) (u64 init)] p
      | SSpin =>
          r ← gadia_receive (u64 (theChipletScale e)) fs (gadia_last_position p);
          let p := p ⟨ gadia_last_position := r.2 ⟩ in
          if r.1 =? u64 (-4) then next [] p else Ok (Some ([], p))
      | SCreate i =>
          w ← vget (threads p) i;
          p ← set_thread p i {| prog := prog w; stat := Running |};
          next [] p
      | SJoin i =>
          w ← vget (threads p) i;
          if bool_decide (prog w = []) then next [] p else Ok None
      | SLock => match mtx p with None => next [] (p ⟨ mtx := Some t ⟩) | Some _ => Ok None end
      | SUnlock => next [] (p ⟨ mtx := None ⟩)
      | SAffinity =>
          let c := if coreNum e <=? core_counter p then 0 else core_counter p in
          next [] (p ⟨ core_counter := c + 1 ⟩)
      | SPerf =>
          let p := p ⟨ counter := counter p - 1 ⟩ in
          if counter p =? 0 then
            let handshake := if id e =? 0 then [] else [SCall (id e) 0 0 2; SSpin] in
            p ← set_thread p t {| prog := handshake ++ SPerfEnd :: rest; stat := Running |}; Ok (Some ([], p))
          else
            p ← set_thread (p ⟨ mtx := None ⟩) t {| prog := rest; stat := Waiting |}; Ok (Some ([], p))
      | SPerfEnd =>
          p ← set_thread (p ⟨ counter := thread_num ⟩) t {| prog := rest; stat := Running |};
          Ok (Some ([], p ⟨ threads := wake_waiting <$> threads p ⟩))
      | SAcc c k => m3 ← accumulate e (matrix3 p) c k; next [] (p ⟨ matrix3 := m3 ⟩)
      | SSend c => v ← vget (matrix3 p) c; next [OCall tick 0 0 (u64 v) 0] p
      end
  end.

(** [pthread_cond_wait] returns without a broadcast: a waiting thread goes on
    to take the mutex again. *)
Definition spurious (t : nat) (p : process) : option process :=
  match threads p !! t with
  | Some th => if decide (stat th = Waiting) then Some (p ⟨ threads := <[t := wake_waiting th]> (threads p) ⟩) else None
  | None => None
  end.

(** The effect of a pseudo instruction on the shared directory. *)
Definition apply_op (fs : files) (o : op) : files :=
  match o with OCall tick src tgt data init => gadia_call tick src tgt data init fs | ORecv => fs end.

(** A run of one process among others: the calls of its own threads are
    recorded, the other processes call whatever they like. *)
Inductive run (e : env) : files * process -> list op -> files * process -> Prop :=
  | run_nil fs p : run e (fs, p) [] (fs, p)
  | run_own fs p tr fs1 p1 tick t calls p2 :
      run e (fs, p) tr (fs1, p1) -> in_u64 tick ->
      exec e tick t fs1 p1 = Ok (Some (calls, p2)) ->
      run e (fs, p) (tr ++ calls) (foldl apply_op fs1 calls, p2)
  | run_spurious fs p tr fs1 p1 t p2 :
      run e (fs, p) tr (fs1, p1) -> spurious t p1 = Some p2 -> run e (fs, p) tr (fs1, p2)
  | run_other fs p tr fs1 p1 o :
      run e (fs, p) tr (fs1, p1) -> op_ok o ->
      run e (fs, p) tr (apply_op fs1 o, p1).

(** The rule of induction on runs. *)
Lemma run_inv (e : env) (P : list op -> files -> process -> Prop) fs p tr fs' p' :
  run e (fs, p) tr (fs', p') -> P [] fs p ->
  (forall tr fs p tick t calls p', P tr fs p -> in_u64 tick -> exec e tick t fs p = Ok (Some (calls, p')) ->
     P (tr ++ calls) (foldl apply_op fs calls) p') ->
  (forall tr fs p t p', P tr fs p -> spurious t p = Some p' -> P tr fs p') ->
  (forall tr fs p o, P tr fs p -> op_ok o -> P tr (apply_op fs o) p) ->
  P tr fs' p'.
Proof.
  intros Hr H0 Hown Hsp Hoth. change (P tr (fs', p').1 (fs', p').2).
  remember (fs, p) as s0 eqn:E0. induction Hr; simplify_eq; eauto.
Qed.

(** All processes of the system; the step of one of them. *)
Definition sys_step (es : list env) (s s' : files * list process) : Prop :=
  exists j e p, es !! j = Some e /\ s.2 !! j = Some p /\
    ((exists t tick calls p', in_u64 tick /\ exec e tick t s.1 p = Ok (Some (calls, p')) /\
        s' = (foldl apply_op s.1 calls, <[j := p']> s.2)) \/
     exists t p', spurious t p = Some p' /\ s' = (s.1, <[j := p']> s.2)).

(** ** What the threads do to the data *)

Section Data.
Context (e : env).

Definition term (c k : Z) : Z :=
  default 0 (matrix1 e !! Z.to_nat (Z.rem c (N e) * N e + k)) *
  default 0 (matrix2 e !! Z.to_nat (k * N e + c ÷ N e)).

Definition sumZ (l : list Z) : Z := foldr Z.add 0 l.

(** The entry of the product of the two matrices that cell [c = x * N + y] is
    given: row [y], column [x]. *)
Definition product (c : Z) : Z := i32 (sumZ (term c <$> upto (N e))).

Definition acc_of (c : Z) (s : stmt) : Z :=
  match s with SAcc c' k => if c' =? c then term c k else 0 | _ => 0 end.

(** What is still to be added to cell [c]. *)
Definition pending (c : Z) (p : list stmt) : Z := sumZ (acc_of c <$> p).

Definition is_send (s : stmt) : option Z := match s with SSend c => Some c | _ => None end.
Definition sends (p : list stmt) : list Z := omap is_send p.
End Data.

(** The statements that touch the matrix. *)
Definition is_data (s : stmt) : bool := match s with SAcc _ _ | SSend _ => true | _ => false end.
Definition data (p : list stmt) : list stmt := List.filter is_data p.

(** The data left to every thread. *)
Definition datas (p : process) : list (list stmt) := (data ∘ prog) <$> threads p.

Lemma sumZ_app l l' : sumZ (l ++ l') = sumZ l + sumZ l'.
Proof. induction l; cbn [app sumZ foldr]; [done |]. fold (sumZ l) (sumZ (l ++ l')). lia. Qed.

Lemma sumZ_cons x l : sumZ (x :: l) = x + sumZ l.
Proof. done. Qed.

Lemma sumZ_zero {A} (f : A -> Z) l : (forall x, x ∈ l -> f x = 0) -> sumZ (f <$> l) = 0.
Proof.
  induction l as [|x l IH]; intros H; [done |]. rewrite fmap_cons, sumZ_cons, IH, H; [done | left |].
  intros y Hy. apply H. by right.
Qed.

Lemma sumZ_insert {A} (f : A -> Z) l n x y :
  l !! n = Some x -> sumZ (f <$> <[n := y]> l) = sumZ (f <$> l) - f x + f y.
Proof.
  revert n. induction l as [|z l IH]; intros [|n] H; try discriminate H.
  - injection H as ->. change (<[0%nat := y]> (x :: l)) with (y :: l).
    rewrite !fmap_cons, !sumZ_cons. lia.
  - change (<[S n := y]> (z :: l)) with (z :: <[n := y]> l).
    rewrite !fmap_cons, !sumZ_cons, (IH n) by done. lia.
Qed.

Lemma set_thread_Ok p t th p' :
  set_thread p t th = Ok p' <->
  0 <= t < Z.of_nat (length (threads p)) /\ p' = p ⟨ threads := <[Z.to_nat t := th]> (threads p) ⟩.
Proof.
  unfold set_thread, vset. case_decide; rsimpl; [| split; [discriminate | tauto]].
  split; [intros [= <-]; done | intros [_ ->]; done].
Qed.

Lemma datas_set p t th :
  datas (p ⟨ threads := <[t := th]> (threads p) ⟩) = <[t := data (prog th)]> (datas p).
Proof. unfold datas. cbn [setf threads]. apply (list_fmap_insert (data ∘ prog)). Qed.

Lemma datas_same p t th th' :
  threads p !! t = Some th -> data (prog th') = data (prog th) ->
  datas (p ⟨ threads := <[t := th']> (threads p) ⟩) = datas p.
Proof.
  intros Hl Hd. rewrite datas_set, Hd. apply list_insert_id. unfold datas.
  rewrite list_lookup_fmap, Hl. done.
Qed.

Lemma datas_wake p : datas (p ⟨ threads := wake_waiting <$> threads p ⟩) = datas p.
Proof.
  unfold datas. cbn [setf threads]. rewrite <- list_fmap_compose. apply list_fmap_ext.
  intros i th _. cbn. unfold wake_waiting. by case_decide.
Qed.

Lemma spurious_thread t p p' :
  spurious t p = Some p' ->
  exists th, threads p !! t = Some th /\ stat th = Waiting /\
    p' = p ⟨ threads := <[t := {| prog := SLock :: prog th; stat := Running |}]> (threads p) ⟩.
Proof.
  unfold spurious. destruct (threads p !! t) as [th|]; [| done]. case_decide as Hw; [| done]. intros [= <-].
  exists th. unfold wake_waiting. by rewrite decide_True.
Qed.

(** No [SCall] still to be executed writes to the file of chiplet 0; threads
    are named by their numbers. *)
Definition quiet_stmt (s : stmt) : Prop :=
  match s with
  | SCall _ tgt _ init => u64 init <> 0 \/ u64 tgt <> 0
  | SCreate i | SJoin i => 0 <= i < thread_num
  | _ => True
  end.
Definition quiet (p : process) : Prop := Forall (fun th => Forall quiet_stmt (prog th)) (threads p).

Definition quiet_op (o : op) : Prop :=
  match o with OCall _ _ tgt _ init => init <> 0 \/ tgt <> 0 | ORecv => False end.

Inductive data_step (e : env) (tick : Z) (p : process) (calls : list op) (p' : process) : Prop :=
  | ds_silent : Forall quiet_op calls -> matrix3 p' = matrix3 p -> datas p' = datas p ->
      data_step e tick p calls p'
  | ds_acc t c k rest : datas p !! t = Some (SAcc c k :: rest) -> calls = [] ->
      accumulate e (matrix3 p) c k = Ok (matrix3 p') -> datas p' = <[t := rest]> (datas p) ->
      data_step e tick p calls p'
  | ds_send t c v rest : datas p !! t = Some (SSend c :: rest) -> vget (matrix3 p) c = Ok v ->
      calls = [OCall tick 0 0 (u64 v) 0] -> matrix3 p' = matrix3 p -> datas p' = <[t := rest]> (datas p) ->
      data_step e tick p calls p'.

(** The steps of [exec], one per statement and branch. *)
Definition upd (p : process) (t : nat) (prg : list stmt) (st : status) : process :=
  p ⟨ threads := <[t := {| prog := prg; stat := st |}]> (threads p) ⟩.

Inductive effect (e : env) (tick : Z) (fs : files) (p : process) (t : nat) (rest : list stmt)
    : stmt -> list op -> process -> Prop :=
  | ef_call src tgt data init :
      effect e tick fs p t rest (SCall src tgt data init)
        [OCall tick (u64 src) (u64 tgt) (u64 data) (u64 init)] (upd p t rest Running)
  | ef_spin_end pos : gadia_receive (u64 (theChipletScale e)) fs (gadia_last_position p) = Ok (u64 (-4), pos) ->
      effect e tick fs p t rest SSpin [] (upd (p ⟨ gadia_last_position := pos ⟩) t rest Running)
  | ef_spin w pos : gadia_receive (u64 (theChipletScale e)) fs (gadia_last_position p) = Ok (w, pos) ->
      w <> u64 (-4) -> effect e tick fs p t rest SSpin [] (p ⟨ gadia_last_position := pos ⟩)
  | ef_create (i : Z) w : 0 <= i -> threads p !! Z.to_nat i = Some w ->
      effect e tick fs p t rest (SCreate i) [] (upd (upd p (Z.to_nat i) (prog w) Running) t rest Running)
  | ef_join (i : Z) w : 0 <= i -> threads p !! Z.to_nat i = Some w -> prog w = [] ->
      effect e tick fs p t rest (SJoin i) [] (upd p t rest Running)
  | ef_lock : mtx p = None ->
      effect e tick fs p t rest SLock [] (upd (p ⟨ mtx := Some (Z.of_nat t) ⟩) t rest Running)
  | ef_unlock : effect e tick fs p t rest SUnlock [] (upd (p ⟨ mtx := None ⟩) t rest Running)
  | ef_affinity c : effect e tick fs p t rest SAffinity [] (upd (p ⟨ core_counter := c ⟩) t rest Running)
  | ef_perf_last : counter p - 1 = 0 ->
      effect e tick fs p t rest SPerf []
        (upd (p ⟨ counter := counter p - 1 ⟩) t
           ((if id e =? 0 then [] else [SCall (id e) 0 0 2; SSpin]) ++ SPerfEnd :: rest) Running)
  | ef_perf_wait : counter p - 1 <> 0 ->
      effect e tick fs p t rest SPerf []
        (upd (p ⟨ counter := counter p - 1 ⟩ ⟨ mtx := None ⟩) t rest Waiting)
  | ef_perf_end q : q = upd (p ⟨ counter := thread_num ⟩) t rest Running ->
      effect e tick fs p t rest SPerfEnd [] (q ⟨ threads := wake_waiting <$> threads q ⟩)
  | ef_acc c k m3 : accumulate e (matrix3 p) c k = Ok m3 ->
      effect e tick fs p t rest (SAcc c k) [] (upd (p ⟨ matrix3 := m3 ⟩) t rest Running)
  | ef_send c v : vget (matrix3 p) c = Ok v ->
      effect e tick fs p t rest (SSend c) [OCall tick 0 0 (u64 v) 0] (upd p t rest Running).

Lemma exec_effect e tick t fs p calls p' :
  exec e tick t fs p = Ok (Some (calls, p')) ->
  exists th s rest, 0 <= t /\ threads p !! Z.to_nat t = Some th /\ stat th = Running /\
    prog th = s :: rest /\ effect e tick fs p (Z.to_nat t) rest s calls p'.
Proof.
  unfold exec. intros H. apply res_bind_Ok_inv in H as (th & [Ht Hl]%vget_Ok & H).
  destruct (bool_decide (stat th = Running)) eqn:Er; cbn [negb] in H; [| discriminate H]. b2p.
  destruct (prog th) as [|s rest] eqn:Ep; [discriminate H |].
  exists th, s, rest. split_and!; try done.
  destruct s; inv_res;
    repeat match goal with
    | H : (if ?b then _ else _) = Ok _ |- _ => destruct b eqn:?; inv_res; try discriminate H
    | H : (match mtx p with _ => _ end) = Ok _ |- _ => destruct (mtx p) eqn:?; inv_res; try discriminate H
    | H : set_thread _ _ _ = Ok _ |- _ => apply set_thread_Ok in H as [? ->]
    | H : vget (threads _) _ = Ok _ |- _ => apply vget_Ok in H as [? ?]
    | H : Some _ = Some _ |- _ => injection H as H
    end; b2p; simplify_eq; cbn [setf counter] in *; try (by econstructor; eauto).
  - destruct a as [w pos]. cbn [fst snd] in *. subst w. by apply ef_spin_end.
  - destruct a as [w pos]. cbn [fst snd] in *. by eapply ef_spin.
  - pose proof (ef_lock e tick fs p (Z.to_nat t) rest) as Hk. rewrite Z2Nat.id in Hk by done. by apply Hk.
Qed.

Lemma data_cons s p : data (s :: p) = if is_data s then s :: data p else data p.
Proof. done. Qed.

Lemma datas_lookup p t th : threads p !! t = Some th -> datas p !! t = Some (data (prog th)).
Proof. intros Hl. unfold datas. by rewrite list_lookup_fmap, Hl. Qed.

Lemma quiet_upd p t prg st : quiet p -> Forall quiet_stmt prg -> quiet (upd p t prg st).
Proof. intros. unfold quiet. cbn [upd setf threads]. by apply Forall_insert. Qed.

(** A step of a process is silent, an accumulation or a send; no program gets a
    call that writes. *)
Lemma exec_data e tick t fs p calls p' :
  quiet p -> exec e tick t fs p = Ok (Some (calls, p')) -> data_step e tick p calls p' /\ quiet p'.
Proof.
  intros Hq (th & s & rest & Ht & Hl & _ & Hp & Hs)%exec_effect.
  pose proof (datas_lookup p _ th Hl) as Hd. rewrite Hp, data_cons in Hd.
  assert (Hqt : Forall quiet_stmt (s :: rest)) by (rewrite <- Hp; by eapply Forall_lookup_1 in Hq).
  apply Forall_cons in Hqt as [Hqs Hqr].
  assert (Hsame : forall q prg st, datas q = datas p -> is_data s = false -> data prg = data rest ->
            datas (upd q (Z.to_nat t) prg st) = datas p).
  { intros q prg st Hdq Hs' Hr. unfold upd. rewrite datas_set, Hdq. cbn [prog].
    apply list_insert_id. by rewrite Hd, Hs', Hr. }
  destruct Hs; cbn [is_data quiet_stmt] in *;
    try (split; [apply ds_silent; [by repeat first [done | constructor] | done | by apply Hsame] | by apply quiet_upd]; fail).
  - by split; [apply ds_silent |].
  - assert (Hqw : Forall quiet_stmt (prog w)) by (by eapply Forall_lookup_1 in Hq).
    split; [apply ds_silent; [done | done |] | by repeat apply quiet_upd].
    apply Hsame; [| done | done]. by apply (datas_same p _ w).
  - split; [apply ds_silent; [done | done |] |].
    + apply Hsame; [done | done |]. by destruct (id e =? 0).
    + apply quiet_upd; [done |]. apply Forall_app. split; [| by constructor].
      destruct (id e =? 0); [done |]. by repeat first [done | constructor].
  - split; [apply ds_silent; [done | by subst |] |].
    + rewrite datas_wake. subst q. by apply Hsame.
    + apply Forall_fmap. eapply Forall_impl; [by subst q; apply quiet_upd |]. intros x Hx. cbn.
      unfold wake_waiting. case_decide; [by constructor | done].
  - split; [| by apply quiet_upd]. eapply ds_acc; [done | done | done |]. unfold upd. by rewrite datas_set.
  - split; [| by apply quiet_upd]. eapply ds_send; [done | done | done | done |]. unfold upd. by rewrite datas_set.
Qed.

(** A spurious wake-up does nothing to the data. *)
Lemma spurious_data t p p' :
  spurious t p = Some p' -> matrix3 p' = matrix3 p /\ gadia_last_position p' = gadia_last_position p /\ datas p' = datas p /\
    length (threads p') = length (threads p) /\ (quiet p -> quiet p').
Proof.
  intros (th & Hl & _ & ->)%spurious_thread. split_and!; [done | done | by eapply datas_same | cbn [setf threads]; by rewrite length_insert |].
  intros Hq. apply Forall_insert; [done |]. constructor; [done |]. by eapply Forall_lookup_1 in Hq.
Qed.

(** ** The data invariant *)

Lemma i32_add_l a b : i32 (i32 a + b) = i32 (a + b).
Proof.
  unfold i32. replace ((a + 2 ^ 31) mod 2 ^ 32 - 2 ^ 31 + b + 2 ^ 31) with ((a + 2 ^ 31) mod 2 ^ 32 + b) by lia.
  rewrite Zplus_mod_idemp_l. do 2 f_equal. lia.
Qed.

Definition stmt_ok (e : env) (s : stmt) : Prop :=
  match s with
  | SAcc c k => 0 <= c < N e * N e /\ 0 <= k < N e
  | SSend c => 0 <= c < N e * N e
  | _ => True
  end.

(** No cell is changed after it was sent. *)
Fixpoint sends_last (p : list stmt) : Prop :=
  match p with
  | [] => True
  | s :: p => (match s with SSend c => forall k, SAcc c k ∉ p | _ => True end) /\ sends_last p
  end.

(** The matrices have their size, which fits an [int] with the factors the
    code multiplies it by. *)
Record env_ok (e : env) : Prop := {
  eo_N : 0 < N e;
  eo_int : 4 * (N e * N e) < 2 ^ 31;
  eo_m1 : Z.of_nat (length (matrix1 e)) = N e * N e;
  eo_m2 : Z.of_nat (length (matrix2 e)) = N e * N e;
  eo_id : id e = 0 \/ id e = 1
}.

Lemma accumulate_ok e m3 c k :
  env_ok e -> Z.of_nat (length m3) = N e * N e -> stmt_ok e (SAcc c k) ->
  exists v, m3 !! Z.to_nat c = Some v /\
    accumulate e m3 c k = Ok (<[Z.to_nat c := i32 (v + term e c k)]> m3).
Proof.
  intros [HN Hi H1 H2 _] Hm [Hc Hk]. unfold accumulate, term.
  pose proof (Z.rem_bound_pos c (N e)) as Hr. pose proof (Z.quot_pos c (N e)) as Hq.
  pose proof (Z.quot_lt_upper_bound c (N e) (N e)) as Hqu.
  assert (0 <= Z.rem c (N e) * N e + k < N e * N e) by nia.
  assert (0 <= k * N e + c ÷ N e < N e * N e) by nia.
  rewrite (i32_id (Z.rem c (N e) * N e)), (i32_id (k * N e)), !i32_id by (unfold in_i32; nia).
  destruct (vget_is_ok m3 c) as [v Hv]; [lia |]. rewrite Hv. rsimpl. apply vget_Ok in Hv as [_ Hv].
  destruct (vget_is_ok (matrix1 e) (Z.rem c (N e) * N e + k)) as [a Ha]; [lia |]. rewrite Ha. rsimpl.
  apply vget_Ok in Ha as [_ ->].
  destruct (vget_is_ok (matrix2 e) (k * N e + c ÷ N e)) as [b Hb]; [lia |]. rewrite Hb. rsimpl.
  apply vget_Ok in Hb as [_ ->]. exists v. split; [done |]. cbn [default].
  unfold vset. by rewrite decide_True by lia.
Qed.

Section Invariant.
Context (e : env) (Hok : env_ok e).
Context (goal : Z -> Z) (cells : list Z).

(** Calls that write to the file of chiplet 0. *)
Definition data_op (o : op) : bool :=
  match o with OCall _ _ tgt _ init => ((init =? 0) && (tgt =? 0))%bool | ORecv => false end.

(** A call that sends the final value of cell [c] to chiplet 0. *)
Definition sends_cell (o : op) (c : Z) : Prop := exists tick, o = OCall tick 0 0 (u64 (i32 (goal c))) 0.

Record dinv (m3 : list Z) (ds : list (list stmt)) (tr : list op) : Prop := {
  di_len : Z.of_nat (length m3) = N e * N e;
  di_val : forall c v, 0 <= c -> m3 !! Z.to_nat c = Some v ->
    in_i32 v /\ i32 (v + sumZ (pending e c <$> ds)) = i32 (goal c);
  di_ok : Forall (Forall (stmt_ok e)) ds;
  di_last : Forall sends_last ds;
  di_cross : forall t t' p p' c k, t <> t' -> ds !! t = Some p -> ds !! t' = Some p' ->
    SSend c ∈ p -> SAcc c k ∉ p';
  di_sent : exists sent, Forall2 sends_cell (List.filter data_op tr) sent /\
    sent ++ concat (sends <$> ds) ≡ₚ cells
}.

Lemma pending_none c p : (forall k, SAcc c k ∉ p) -> pending e c p = 0.
Proof.
  intros H. unfold pending. apply sumZ_zero. intros s Hs. destruct s as [| | | | | | | | |c' k|]; try done.
  cbn [acc_of]. destruct (c' =? c) eqn:E; b2p; [| done]. subst. by apply H in Hs.
Qed.

Lemma pending_cons c s p : pending e c (s :: p) = acc_of e c s + pending e c p.
Proof. done. Qed.

Lemma concat_insert_cons {A} (l : list (list A)) t (x : A) r :
  l !! t = Some (x :: r) -> concat l ≡ₚ x :: concat (<[t := r]> l).
Proof.
  revert t. induction l as [|y l IH]; intros [|t] H; try discriminate H; cbn in H |- *.
  - by injection H as ->.
  - rewrite (IH t H). by rewrite Permutation_middle.
Qed.

Lemma concat_insert_same {A} (l : list (list A)) t r :
  l !! t = Some r -> concat (<[t := r]> l) = concat l.
Proof. intros. by rewrite list_insert_id. Qed.

(** Replacing a program by its tail keeps the facts about programs. *)
Lemma dinv_tail ds t s rest :
  ds !! t = Some (s :: rest) ->
  Forall (Forall (stmt_ok e)) ds -> Forall sends_last ds ->
  (forall t t' p p' c k, t <> t' -> ds !! t = Some p -> ds !! t' = Some p' -> SSend c ∈ p -> SAcc c k ∉ p') ->
  Forall (Forall (stmt_ok e)) (<[t := rest]> ds) /\ Forall sends_last (<[t := rest]> ds) /\
  (forall t1 t2 p1 p2 c k, t1 <> t2 -> <[t := rest]> ds !! t1 = Some p1 -> <[t := rest]> ds !! t2 = Some p2 ->
     SSend c ∈ p1 -> SAcc c k ∉ p2).
Proof.
  intros Ht Hk Hs Hc.
  pose proof (Forall_lookup_1 _ _ _ _ Hk Ht) as Hk'. apply Forall_cons in Hk' as [_ Hk'].
  pose proof (Forall_lookup_1 _ _ _ _ Hs Ht) as [_ Hs'].
  split_and!; [by apply Forall_insert.. |].
  assert (forall t1 p1 x, <[t := rest]> ds !! t1 = Some p1 -> x ∈ p1 ->
            exists p0, ds !! t1 = Some p0 /\ x ∈ p0) as Hin.
  { intros t1 p1 x H1 Hx. destruct (decide (t1 = t)) as [->|].
    - rewrite list_lookup_insert_eq in H1 by (by eapply lookup_lt_Some).
      injection H1 as <-. exists (s :: rest). split; [done | by right].
    - rewrite list_lookup_insert_ne in H1 by done. eauto. }
  intros t1 t2 p1 p2 c k Hne H1 H2 Hx Hy.
  destruct (Hin _ _ _ H1 Hx) as (q1 & Hq1 & Hx'). destruct (Hin _ _ _ H2 Hy) as (q2 & Hq2 & Hy').
  by apply (Hc t1 t2 q1 q2 c k).
Qed.

Lemma dinv_silent m3 ds tr calls : Forall quiet_op calls -> dinv m3 ds tr -> dinv m3 ds (tr ++ calls).
Proof.
  intros Hq [? ? ? ? ? (sent & HF & HP)]. split; try done. exists sent. split; [| done].
  rewrite List.filter_app. replace (List.filter data_op calls) with (@nil op); [by rewrite app_nil_r |].
  symmetry. induction Hq as [|o calls Ho _ IH]; [done |]. cbn [List.filter].
  destruct o as [? ? tgt ? init|]; [| done]. cbn in Ho |- *.
  destruct (init =? 0) eqn:E1, (tgt =? 0) eqn:E2; b2p; [lia | done..].
Qed.

Lemma dinv_acc m3 m3' ds tr t c k rest :
  dinv m3 ds tr -> ds !! t = Some (SAcc c k :: rest) -> accumulate e m3 c k = Ok m3' ->
  dinv m3' (<[t := rest]> ds) tr.
Proof.
  intros [Hl Hv Hk Hs Hc (sent & HF & HP)] Ht Ha.
  pose proof (Forall_lookup_1 _ _ _ _ Hk Ht) as Hk'. apply Forall_cons in Hk' as [Hck _].
  destruct (accumulate_ok e m3 c k Hok Hl Hck) as (v & Hvc & Ha'). rewrite Ha' in Ha. injection Ha as <-.
  destruct (dinv_tail ds t _ rest Ht Hk Hs Hc) as (Hk' & Hs' & Hc'). destruct Hck as [Hcr _].
  split; [by rewrite length_insert | | done | done | done |].
  - intros c' v' Hc0 Hl'. rewrite (sumZ_insert _ ds t (SAcc c k :: rest)) by done.
    rewrite pending_cons. cbn [acc_of]. destruct (decide (c' = c)) as [->|Hne].
    + rewrite list_lookup_insert_eq in Hl' by (by eapply lookup_lt_Some). injection Hl' as <-.
      split; [apply i32_range |]. rewrite i32_add_l, Z.eqb_refl. destruct (Hv c v Hc0 Hvc) as [_ <-].
      f_equal. lia.
    + rewrite list_lookup_insert_ne in Hl' by lia. rewrite (proj2 (Z.eqb_neq c c')) by congruence.
      destruct (Hv c' v' Hc0 Hl') as [? <-]. split; [done |]. f_equal. lia.
  - exists sent. split; [done |]. rewrite <- HP. rewrite (list_fmap_insert sends), concat_insert_same; [done |].
    by rewrite list_lookup_fmap, Ht.
Qed.

Lemma dinv_send m3 ds tr t c v rest tick :
  dinv m3 ds tr -> ds !! t = Some (SSend c :: rest) -> vget m3 c = Ok v ->
  dinv m3 (<[t := rest]> ds) (tr ++ [OCall tick 0 0 (u64 v) 0]).
Proof.
  intros [Hl Hv Hk Hs Hc (sent & HF & HP)] Ht [Hc0 Hvc]%vget_Ok.
  destruct (dinv_tail ds t _ rest Ht Hk Hs Hc) as (Hk' & Hs' & Hc').
  assert (Hz : sumZ (pending e c <$> ds) = 0).
  { apply sumZ_zero. intros p [t' Hp]%list_elem_of_lookup. apply pending_none. intros k.
    destruct (decide (t' = t)) as [->|Hne].
    - rewrite Ht in Hp. injection Hp as <-. pose proof (Forall_lookup_1 _ _ _ _ Hs Ht) as [Hno _].
      intros [Heq|Hin]%elem_of_cons; [done | by apply Hno in Hin].
    - apply (Hc t t' (SSend c :: rest) p c k); [congruence | done | done | left]. }
  assert (Hg : v = i32 (goal c)).
  { destruct (Hv c v Hc0 Hvc) as [Hr <-]. rewrite Hz, Z.add_0_r, i32_id; done. }
  split; [done | | done | done | done |].
  - intros c' v' ? Hl'. rewrite (sumZ_insert _ ds t (SSend c :: rest)) by done.
    rewrite pending_cons. cbn [acc_of]. destruct (Hv c' v') as [? <-]; [done | done |].
    split; [done |]. f_equal. lia.
  - exists (sent ++ [c]). split.
    + rewrite List.filter_app. apply Forall2_app; [done |]. cbn. constructor; [| done].
      exists tick. by rewrite Hg.
    + rewrite <- HP, <- app_assoc. rewrite (list_fmap_insert sends). apply Permutation_app_head.
      cbn [app]. symmetry. apply (concat_insert_cons (sends <$> ds) t c (sends rest)).
      by rewrite list_lookup_fmap, Ht.
Qed.

Lemma dinv_step tick p calls p' tr :
  dinv (matrix3 p) (datas p) tr -> data_step e tick p calls p' -> dinv (matrix3 p') (datas p') (tr ++ calls).
Proof.
  intros Hd [Hqo -> ->|t' c k rest Hl -> Ha ->|t' c v rest Hl Hg -> -> ->].
  - by apply dinv_silent.
  - rewrite app_nil_r. by eapply dinv_acc.
  - by eapply dinv_send.
Qed.

Lemma dinv_run fs p tr fs' p' :
  run e (fs, p) tr (fs', p') -> quiet p -> dinv (matrix3 p) (datas p) [] ->
  quiet p' /\ dinv (matrix3 p') (datas p') tr.
Proof.
  intros Hr Hq Hd. apply (run_inv e (fun tr _ p => quiet p /\ dinv (matrix3 p) (datas p) tr) _ _ _ _ _ Hr);
    [done | | | done].
  - clear -Hok. intros tr fs p tick t calls p' [Hq Hd] _ Hx.
    destruct (exec_data _ _ _ _ _ _ _ Hq Hx) as [Hds Hq3]. split; [done |]. by eapply dinv_step.
  - intros tr1 fs1 p1 t p2 [Hq1 Hd1] (-> & _ & -> & _ & Hq2)%spurious_data. auto.
Qed.
End Invariant.

(** ** The partition of the matrix *)

Definition size_of (e : env) : Z := N e * N e.

Lemma thread_offset_val e i :
  env_ok e -> 0 <= i < thread_num ->
  thread_offset e i = i * size_of e / 8 + id e * size_of e / 2 /\ thread_length e = size_of e / 8.
Proof.
  intros [HN Hi _ _ Hid] Ht. unfold thread_num in *. unfold thread_offset, thread_length, size_of.
  assert (0 <= i * (N e * N e) < 2 ^ 31) by nia. assert (0 <= id e * (N e * N e) < 2 ^ 31) by nia.
  assert (0 <= i * N e < 2 ^ 31) by nia. assert (0 <= id e * N e < 2 ^ 31) by nia.
  rewrite (i32_id (i * N e)), (i32_id (id e * N e)), <- !Z.mul_assoc by (unfold in_i32; lia).
  rewrite (i32_id (i * _)), (i32_id (id e * _)), (i32_id (N e * N e)) by (unfold in_i32; lia).
  unfold thread_num. rewrite !Z.quot_quot by lia. change (4 * 2) with 8.
  rewrite !Z.quot_div_nonneg by lia.
  split; [| done]. apply i32_id. unfold in_i32.
  assert (i * (N e * N e) / 8 <= i * (N e * N e)) by (apply Z.div_le_upper_bound; lia).
  assert (id e * (N e * N e) / 2 <= id e * (N e * N e)) by (apply Z.div_le_upper_bound; lia).
  assert (0 <= i * (N e * N e) / 8) by (apply Z.div_pos; lia).
  assert (0 <= id e * (N e * N e) / 2) by (apply Z.div_pos; lia). nia.
Qed.

(** The cells of thread [i]. *)
Definition cells_of (e : env) (i : Z) : list Z := seqZ (thread_offset e i) (thread_length e).
Definition my_cells (e : env) : list Z := concat (cells_of e <$> upto thread_num).

Lemma elem_of_my_cells e c :
  c ∈ my_cells e <-> exists i, 0 <= i < thread_num /\ thread_offset e i <= c < thread_offset e i + thread_length e.
Proof.
  unfold my_cells, cells_of. rewrite list_elem_of_In, in_concat. split.
  - intros (l & Hl & Hc). apply list_elem_of_In, list_elem_of_fmap in Hl as (i & -> & Hi%elem_of_upto).
    apply list_elem_of_In, elem_of_seqZ in Hc. eauto.
  - intros (i & Hi & Hc). exists (seqZ (thread_offset e i) (thread_length e)).
    split; apply list_elem_of_In; [| by apply elem_of_seqZ].
    apply list_elem_of_fmap. exists i. by rewrite elem_of_upto.
Qed.

Lemma thread_cases i : 0 <= i < thread_num -> i = 0 \/ i = 1 \/ i = 2 \/ i = 3.
Proof. unfold thread_num. lia. Qed.

(** Threads work on different cells, inside the matrix. *)
Lemma thread_ranges e i :
  env_ok e -> 0 <= i < thread_num ->
  id e * size_of e / 2 <= thread_offset e i /\
  thread_offset e i + thread_length e <= id e * size_of e / 2 + size_of e / 2 /\ 0 <= thread_length e /\
  (forall i', i < i' < thread_num -> thread_offset e i + thread_length e <= thread_offset e i').
Proof.
  intros He Hi. destruct (thread_offset_val e i He Hi) as [-> ->].
  assert (HS : 0 < size_of e) by (destruct He; unfold size_of; nia).
  split_and!; try intros i' Hi'.
  4: destruct (thread_offset_val e i' He) as [-> _]; [lia |]; destruct (thread_cases i') as [->|[->|[->| ->]]]; [lia |..].
  all: destruct (thread_cases i Hi) as [->|[->|[->| ->]]]; try lia; Z.to_euclidean_division_equations; lia.
Qed.

Lemma NoDup_my_cells e : env_ok e -> NoDup (my_cells e).
Proof.
  intros He. unfold my_cells, thread_num. change (upto 4) with [0; 1; 2; 3]. cbn [fmap list_fmap concat].
  assert (forall i j c, 0 <= i < j -> j < thread_num -> c ∈ cells_of e i -> c ∈ cells_of e j -> False) as Hd.
  { intros i j c Hij Hj Hi%elem_of_seqZ Hc%elem_of_seqZ.
    destruct (thread_ranges e i He) as (_ & _ & _ & H); [lia |]. specialize (H j). lia. }
  assert (forall i, NoDup (cells_of e i)) as Hn by (intros; apply NoDup_seqZ). unfold thread_num in Hd.
  rewrite !NoDup_app. split_and!; try apply Hn; try apply NoDup_nil_2.
  all: intros c Hc H; rewrite ?elem_of_app in H; destruct_or? H;
    try (by apply elem_of_nil in H); (eapply Hd; [| | exact Hc | exact H]; lia).
Qed.

(** A square is a multiple of eight only if its side is a multiple of four. *)
Lemma square_div8 n : (8 | n * n) -> (4 | n).
Proof.
  intros [q Hq]. apply Z.mod_divide; [done |].
  assert (n mod 4 = 0 \/ n mod 4 = 1 \/ n mod 4 = 2 \/ n mod 4 = 3) as Hr
    by (pose proof (Z.mod_pos_bound n 4); lia).
  pose proof (Z.div_mod n 4) as Hd. set (d := n / 4) in *.
  destruct Hr as [Hr|[Hr|[Hr|Hr]]]; [done |..]; exfalso; rewrite Hr in Hd; specialize (Hd ltac:(done));
    rewrite Hd in Hq; assert (E : 8 * q = 16 * (d * d) + 8 * (n mod 4) * d + (n mod 4) * (n mod 4)) by (rewrite Hr; lia);
    rewrite Hr in E; lia.
Qed.

(** With a side that is a multiple of four the threads cover their half. *)
Lemma my_cells_cover e c :
  env_ok e -> (4 | N e) -> id e * size_of e / 2 <= c < id e * size_of e / 2 + size_of e / 2 -> c ∈ my_cells e.
Proof.
  intros He [m Hm] Hc. assert (0 < m) by (destruct He; lia).
  set (q := 2 * (m * m)). assert (Hq : size_of e = 8 * q) by (unfold size_of; rewrite Hm; lia).
  assert (Hid : 0 <= id e) by (destruct He as [_ _ _ _ [->| ->]]; lia).
  rewrite Hq in Hc. assert (0 < q) by nia.
  set (b := id e * (8 * q) / 2) in *. replace (8 * q / 2) with (4 * q) in Hc by (Z.to_euclidean_division_equations; lia).
  pose proof (Z.div_mod (c - b) q) as Hd. pose proof (Z.mod_pos_bound (c - b) q).
  apply elem_of_my_cells. exists ((c - b) / q).
  assert (Hi : 0 <= (c - b) / q < thread_num) by (unfold thread_num; split; [apply Z.div_pos; lia | apply Z.div_lt_upper_bound; lia]).
  split; [done |]. destruct (thread_offset_val e _ He Hi) as [-> ->]. rewrite Hq. fold b.
  replace (8 * q / 8) with q by (Z.to_euclidean_division_equations; lia).
  replace ((c - b) / q * (8 * q) / 8) with ((c - b) / q * q); [lia |].
  rewrite (Z.mul_comm 8 q), Z.mul_assoc, Z.div_mul; lia.
Qed.

(** How the two processes and their four threads split the matrix: no
    cell is computed twice and none is outside the matrix; together they cover
    it exactly when the side is a multiple of four, and otherwise the last cell
    is computed by nobody. *)
Theorem matrix_partition (e e' : env) :
  env_ok e -> env_ok e' -> N e' = N e -> id e = 0 -> id e' = 1 ->
  NoDup (my_cells e ++ my_cells e') /\
  (forall c, c ∈ my_cells e ++ my_cells e' -> 0 <= c < size_of e) /\
  ((4 | N e) -> my_cells e ++ my_cells e' ≡ₚ upto (size_of e)) /\
  (~ (4 | N e) -> size_of e - 1 ∉ my_cells e ++ my_cells e').
Proof.
  intros He He' HN H0 H1.
  assert (HS : size_of e' = size_of e) by (unfold size_of; by rewrite HN).
  assert (Hp : 0 < size_of e) by (destruct He; unfold size_of; nia).
  assert (Hlo : forall c, c ∈ my_cells e -> 0 <= c < size_of e / 2).
  { intros c (i & Hi & Hc)%elem_of_my_cells. pose proof (thread_ranges e i He Hi) as Hr. rewrite H0, Z.mul_0_l, Z.div_0_l in Hr by lia. lia. }
  assert (Hhi : forall c, c ∈ my_cells e' -> size_of e / 2 <= c < size_of e).
  { intros c (i & Hi & Hc)%elem_of_my_cells. pose proof (thread_ranges e' i He' Hi) as Hr.
    rewrite H1, HS, Z.mul_1_l in Hr. Z.to_euclidean_division_equations. lia. }
  assert (Hnd : NoDup (my_cells e ++ my_cells e')).
  { apply NoDup_app. split_and!; [by apply NoDup_my_cells | | by apply NoDup_my_cells].
    intros c Hc Hc'. specialize (Hlo c Hc). specialize (Hhi c Hc'). lia. }
  assert (Hin : forall c, c ∈ my_cells e ++ my_cells e' -> 0 <= c < size_of e).
  { intros c [Hc|Hc]%elem_of_app; [specialize (Hlo c Hc) | specialize (Hhi c Hc)];
      Z.to_euclidean_division_equations; lia. }
  split_and!; [done | done | |].
  - intros [m Hm]. apply NoDup_Permutation; [done | apply NoDup_seqZ |].
    intros c. split; [intros Hc; apply elem_of_upto; by apply Hin |]. intros Hc%elem_of_upto.
    apply elem_of_app. destruct (decide (c < size_of e / 2)) as [Hlt|Hge]; [left | right].
    + apply (my_cells_cover e c He); [by exists m |]. rewrite H0, Z.mul_0_l, Z.div_0_l by lia. lia.
    + apply (my_cells_cover e' c He'); [exists m; lia | rewrite H1, HS].
      unfold size_of in *. rewrite Hm in *. Z.to_euclidean_division_equations. lia.
  - intros Hnd4 [Hc|Hc]%elem_of_app; [specialize (Hlo _ Hc) |].
    + Z.to_euclidean_division_equations. lia.
    + apply elem_of_my_cells in Hc as (i & Hi & Hc). apply Hnd4, square_div8. fold (size_of e).
      destruct (thread_offset_val e' i He' Hi) as [Ho Hl]. rewrite Ho, Hl, H1, HS, Z.mul_1_l in Hc.
      apply Z.mod_divide; [done |].
      destruct (thread_cases i Hi) as [->|[->|[->| ->]]]; Z.to_euclidean_division_equations; lia.
Qed.

(** ** The start state *)

Lemma data_app p q : data (p ++ q) = data p ++ data q.
Proof. apply List.filter_app. Qed.

Lemma data_bind {A} (f : A -> list stmt) l : data (l ≫= f) = l ≫= (fun x => data (f x)).
Proof. induction l as [|x l IH]; [done |]. by rewrite !bind_cons, data_app, IH. Qed.

Lemma data_caculate e off len : data (caculate e off len) = caculate e off len.
Proof.
  unfold caculate. rewrite data_bind. apply list_bind_ext; [| done]. intros i. rewrite data_bind. done.
Qed.

Lemma toWrite_sends off len : (i ← upto len; [SSend (i + off)]) = SSend <$> seqZ off len.
Proof.
  transitivity ((fun i => SSend (i + off)) <$> upto len).
  - generalize (upto len). intros l. induction l as [|i l IH]; [done |]. by rewrite bind_cons, fmap_cons, IH.
  - replace (seqZ off len) with (Z.add off <$> seqZ 0 len) by (rewrite fmap_add_seqZ; f_equal; lia).
    rewrite <- list_fmap_compose. apply list_fmap_ext. intros _ i _. cbn. f_equal. lia.
Qed.

Definition worker_data (e : env) (i : Z) : list stmt :=
  caculate e (thread_offset e i) (thread_length e) ++ (SSend <$> cells_of e i).

Lemma data_sends l : data (SSend <$> l) = SSend <$> l.
Proof. induction l as [|c l IH]; [done |]. rewrite fmap_cons, data_cons. cbn [is_data]. by rewrite IH. Qed.

Lemma data_matrix_parallel e i :
  data (matrix_parallel e (thread_offset e i) (thread_length e)) = worker_data e i.
Proof.
  unfold matrix_parallel, toWrite. rewrite toWrite_sends.
  change (SLock :: ?l) with ([SLock] ++ l). rewrite !data_app, data_caculate, data_sends.
  cbn [data List.filter is_data perf_cycle]. rewrite !app_nil_r. done.
Qed.

Lemma datas_start e m3 : datas (start e m3) = (worker_data e <$> upto thread_num) ++ [[]].
Proof.
  unfold datas, start. cbn [threads]. rewrite fmap_app, <- list_fmap_compose. f_equal.
  apply list_fmap_ext. intros _ i _. apply data_matrix_parallel.
Qed.

Lemma sumZ_bind {A} (g : stmt -> Z) (f : A -> list stmt) l :
  sumZ (g <$> (l ≫= f)) = sumZ ((fun x => sumZ (g <$> f x)) <$> l).
Proof.
  induction l as [|x l IH]; [done |]. by rewrite bind_cons, !fmap_app, sumZ_app, IH, fmap_cons, sumZ_cons.
Qed.

Lemma sumZ_indicator off n c T :
  sumZ ((fun i => if i + off =? c then T else 0) <$> upto n) = if bool_decide (off <= c < off + n) then T else 0.
Proof.
  destruct (decide (0 <= n)) as [Hn|Hn].
  2:{ unfold upto. rewrite seqZ_nil by lia. rewrite bool_decide_false by lia. done. }
  rewrite <- (Z2Nat.id n Hn). generalize (Z.to_nat n). clear n Hn. intros n.
  induction n as [|n IH]; [by rewrite bool_decide_false by lia |].
  unfold upto in *. rewrite seqZ_S, fmap_app, sumZ_app, IH by lia. cbn.
  destruct (0 + Z.of_nat n + off =? c) eqn:E; b2p; repeat case_bool_decide; lia.
Qed.

Lemma pending_caculate e c off len :
  pending e c (caculate e off len) =
    if bool_decide (off <= c < off + len) then sumZ (term e c <$> upto (N e)) else 0.
Proof.
  unfold pending, caculate. rewrite sumZ_bind, <- sumZ_indicator. f_equal. apply list_fmap_ext.
  intros _ i _. cbn. rewrite sumZ_bind. destruct (i + off =? c) eqn:E.
  - f_equal. apply list_fmap_ext. intros _ k _. cbn. rewrite E. lia.
  - apply sumZ_zero. intros k _. cbn. by rewrite E.
Qed.

Lemma pending_sends e c l : pending e c (SSend <$> l) = 0.
Proof. apply sumZ_zero. intros s (x & -> & _)%list_elem_of_fmap. done. Qed.

Lemma pending_app e c p q : pending e c (p ++ q) = pending e c p + pending e c q.
Proof. unfold pending. by rewrite fmap_app, sumZ_app. Qed.

Lemma pending_worker e c i :
  pending e c (worker_data e i) =
    if bool_decide (c ∈ cells_of e i) then sumZ (term e c <$> upto (N e)) else 0.
Proof.
  unfold worker_data. rewrite pending_app, (pending_caculate e c), (pending_sends e c), Z.add_0_r. unfold cells_of.
  rewrite (bool_decide_ext _ (c ∈ seqZ (thread_offset e i) (thread_length e))); [done |].
  by rewrite elem_of_seqZ.
Qed.

(** The sum that cell [c] is given in the end. *)
Definition goal_of (e : env) (c : Z) : Z :=
  if bool_decide (c ∈ my_cells e) then sumZ (term e c <$> upto (N e)) else 0.

Lemma goal_start e m3 c : env_ok e -> sumZ (pending e c <$> datas (start e m3)) = goal_of e c.
Proof.
  intros He. rewrite datas_start. change (upto thread_num) with [0; 1; 2; 3].
  cbn [fmap list_fmap app sumZ foldr]. rewrite !pending_worker. unfold goal_of.
  pose proof (NoDup_my_cells e He) as Hnd. revert Hnd. unfold my_cells. change (upto thread_num) with [0; 1; 2; 3].
  cbn [fmap list_fmap concat]. rewrite !NoDup_app. intros Hnd.
  rewrite (bool_decide_ext (c ∈ _ ++ _) (c ∈ cells_of e 0 \/ c ∈ cells_of e 1 \/ c ∈ cells_of e 2 \/ c ∈ cells_of e 3))
    by (rewrite !elem_of_app, elem_of_nil; tauto).
  change (pending e c []) with 0. set (T := sumZ _).
  destruct Hnd as (_ & H0 & _ & H1 & _ & H2 & _). specialize (H0 c). specialize (H1 c). specialize (H2 c).
  rewrite !elem_of_app in *.
  repeat match goal with
  | |- context [bool_decide (c ∈ cells_of e ?i)] => destruct (decide (c ∈ cells_of e i));
      [rewrite (bool_decide_true (c ∈ cells_of e i)) by done | rewrite (bool_decide_false (c ∈ cells_of e i)) by done]
  end; first [rewrite bool_decide_true by tauto | rewrite bool_decide_false by tauto]; first [lia | tauto].
Qed.

Lemma elem_of_caculate e off len s :
  s ∈ caculate e off len <-> exists i k, s = SAcc (i + off) k /\ 0 <= i < len /\ 0 <= k < N e.
Proof.
  unfold caculate. setoid_rewrite list_elem_of_bind. setoid_rewrite list_elem_of_bind.
  setoid_rewrite list_elem_of_singleton. setoid_rewrite elem_of_upto. naive_solver.
Qed.

Lemma elem_of_worker_acc e i c k : SAcc c k ∈ worker_data e i -> c ∈ cells_of e i /\ 0 <= k < N e.
Proof.
  unfold worker_data, cells_of. rewrite elem_of_app, elem_of_caculate, list_elem_of_fmap.
  intros [(j & k' & [= -> ->] & ? & ?)|(x & [=] & _)]. rewrite elem_of_seqZ. lia.
Qed.

Lemma elem_of_worker_send e i c : SSend c ∈ worker_data e i -> c ∈ cells_of e i.
Proof.
  unfold worker_data. rewrite elem_of_app, elem_of_caculate, list_elem_of_fmap.
  intros [(j & k' & [=] & _)|(x & [= ->] & ?)]. done.
Qed.

Lemma sends_last_app p q : (forall c, SSend c ∉ p) -> sends_last q -> sends_last (p ++ q).
Proof.
  induction p as [|s p IH]; intros Hp Hq; [done |]. cbn [app sends_last]. split.
  - destruct s; try done. exfalso. apply (Hp cell). left.
  - apply IH; [| done]. intros c Hc. apply (Hp c). by right.
Qed.

Lemma sends_last_sends l : sends_last (SSend <$> l).
Proof.
  induction l as [|c l IH]; [done |]. rewrite fmap_cons. split; [| done].
  intros k (x & [=] & _)%list_elem_of_fmap.
Qed.

Lemma worker_sends e i : sends (worker_data e i) = cells_of e i.
Proof.
  unfold sends, worker_data. rewrite omap_app. replace (omap _ (caculate _ _ _)) with (@nil Z).
  - generalize (cells_of e i). intros l. induction l as [|c l IH]; [done |]. cbn in IH |- *. by rewrite IH.
  - symmetry. assert (Hn : forall s, s ∈ caculate e (thread_offset e i) (thread_length e) -> is_send s = None)
      by (intros s (j & k & -> & _)%elem_of_caculate; done).
    revert Hn. generalize (caculate e (thread_offset e i) (thread_length e)). intros l.
    induction l as [|s l IH]; intros Hn; [done |]. cbn [omap list_omap]. rewrite Hn by left.
    apply IH. intros x Hx. apply Hn. by right.
Qed.

(** The invariant holds at the start. *)
Lemma dinv_start e :
  env_ok e ->
  dinv e (goal_of e) (my_cells e) (replicate (Z.to_nat (size_of e)) 0)
    (datas (start e (replicate (Z.to_nat (size_of e)) 0))) [].
Proof.
  intros He. pose proof He as [HN _ _ _ _].
  assert (Hcell : forall i c, 0 <= i < thread_num -> c ∈ cells_of e i -> 0 <= c < size_of e).
  { intros i c Hi Hc%elem_of_seqZ. pose proof (thread_ranges e i He Hi) as (H1 & H2 & _ & _).
    assert (0 < size_of e) by (unfold size_of; nia).
    destruct He as [_ _ _ _ [Hid|Hid]]; rewrite Hid in *; Z.to_euclidean_division_equations; lia. }
  assert (Hlk : forall t p, datas (start e (replicate (Z.to_nat (size_of e)) 0)) !! t = Some p ->
            p = [] \/ exists i, 0 <= i < thread_num /\ i = Z.of_nat t /\ p = worker_data e i).
  { intros t p. rewrite datas_start. change (upto thread_num) with [0; 1; 2; 3].
    do 4 (destruct t as [|t]; [intros [= <-]; right; eexists; split; [| split; [reflexivity | reflexivity]]; done |]).
    destruct t as [|t]; [intros [= <-]; by left | by destruct t]. }
  split.
  - rewrite length_replicate. unfold size_of. nia.
  - intros c v Hc [-> _]%lookup_replicate. split; [done |]. by rewrite Z.add_0_l, goal_start.
  - apply Forall_lookup. intros t p [->|(i & Hi & _ & ->)]%Hlk; [done |]. apply Forall_forall.
    intros s Hs. destruct s; try done; cbn [stmt_ok].
    + apply elem_of_worker_acc in Hs as [Hc Hk]. split; [by apply (Hcell i) | done].
    + apply elem_of_worker_send in Hs. by apply (Hcell i).
  - apply Forall_lookup. intros t p [->|(i & Hi & _ & ->)]%Hlk; [done |].
    apply sends_last_app; [| apply sends_last_sends]. intros c (j & k & [=] & _)%elem_of_caculate.
  - intros t t' p p' c k Hne [->|(i & Hi & Ei & ->)]%Hlk [->|(j & Hj & Ej & ->)]%Hlk Hs Ha;
      [by apply elem_of_nil in Hs.. | by apply elem_of_nil in Ha |].
    apply elem_of_worker_send, elem_of_seqZ in Hs. apply elem_of_worker_acc in Ha as [Ha%elem_of_seqZ _].
    destruct (thread_ranges e i He Hi) as (_ & _ & _ & H1). destruct (thread_ranges e j He Hj) as (_ & _ & _ & H2).
    specialize (H1 j). specialize (H2 i). lia.
  - exists []. split; [constructor |]. rewrite datas_start, fmap_app, concat_app. cbn [fmap list_fmap concat sends omap list_omap].
    rewrite app_nil_r. cbn [app]. unfold my_cells. rewrite <- list_fmap_compose.
    replace (sends ∘ worker_data e <$> upto thread_num) with (cells_of e <$> upto thread_num); [done |].
    apply list_fmap_ext. intros _ i _. symmetry. apply worker_sends.
Qed.

Lemma quiet_start e m3 : quiet (start e m3).
Proof.
  assert (Hc : forall l, Forall quiet_stmt (SSend <$> l)).
  { intros l. apply Forall_fmap, Forall_forall. done. }
  unfold quiet, start. cbn [threads]. apply Forall_app. split.
  - apply Forall_fmap, Forall_forall. intros i _. cbn [worker prog compose].
    unfold matrix_parallel, toWrite. rewrite toWrite_sends. change (SLock :: ?l) with ([SLock] ++ l).
    rewrite !Forall_app. split_and!; try by repeat constructor.
    apply Forall_forall. intros s (j & k & -> & _)%elem_of_caculate. done.
  - apply Forall_singleton. cbn [prog]. unfold main_prog, launch_threads. apply Forall_cons. split; [by right |].
    apply Forall_app. split; [apply Forall_cons; split; [by left | by repeat constructor] |].
    apply Forall_app. split; apply Forall_fmap, Forall_forall; by intros i ?%elem_of_upto.
Qed.

Lemma exec_length e tick t fs p calls p' :
  exec e tick t fs p = Ok (Some (calls, p')) -> length (threads p') = length (threads p).
Proof.
  intros (th & s & rest & _ & _ & _ & _ & Hs)%exec_effect.
  destruct Hs; subst; cbn [upd setf threads]; rewrite ?length_fmap, ?length_insert; done.
Qed.

(** ** The channel the process polls *)

Section Polling.
Context (e : env).
Hypothesis Hopen : can_open (c_str (file_name (u64 (theChipletScale e)))) = true.

Definition polled (fs : files) (p : process) (c : chan) : Prop :=
  chan_rel (u64 (theChipletScale e)) (fs, gadia_last_position p) c.

Lemma polled_apply fs p c calls :
  polled fs p c -> Forall op_ok calls ->
  exists c', polled (foldl apply_op fs calls) p c'.
Proof.
  intros Hc Hok. revert fs c Hc. induction Hok as [|o calls Ho _ IH]; intros fs c Hc; [by exists c |].
  destruct o as [tick src tgt dat init|]; cbn [foldl apply_op]; [| by eapply IH].
  eapply IH. apply (chan_rel_call _ Hopen (fs, gadia_last_position p) c tick src tgt dat init Ho Hc).
Qed.

Lemma exec_polled tick t fs p calls p' c :
  in_u64 tick -> exec e tick t fs p = Ok (Some (calls, p')) -> polled fs p c ->
  Forall op_ok calls /\ exists c', polled fs p' c'.
Proof.
  intros Htk (th & s & rest & _ & _ & _ & _ & Hs)%exec_effect Hc.
  destruct Hs as [| ? H | ? ? H | | | | | | | | q -> | |]; (split; [by repeat first [exact Htk | constructor] |]);
    try (by exists c);
    destruct (chan_rel_recv _ (fs, gadia_last_position p) c Hc) as (last & Hr & _ & Hc');
    cbn [fst snd] in *; rewrite Hr in H; injection H as _ <-; by eexists.
Qed.

Lemma run_polled fs p tr fs' p' c :
  run e (fs, p) tr (fs', p') -> polled fs p c -> exists c', polled fs' p' c'.
Proof.
  intros Hr Hc. apply (run_inv e (fun _ fs p => exists c, polled fs p c) _ _ _ _ _ Hr); [by exists c | | |].
  - clear -Hopen. intros _ fs p tick t calls p' [c Hc] Htk Hx.
    destruct (exec_polled _ _ _ _ _ _ _ Htk Hx Hc) as [Hok [c' Hc']]. by eapply polled_apply.
  - intros _ fs1 p1 t p2 [c1 Hc1] (_ & Hg & _)%spurious_data. exists c1. unfold polled. by rewrite Hg.
  - clear -Hopen. intros _ fs p o [c Hc] Ho. apply (polled_apply fs p c [o] Hc). by constructor.
Qed.
End Polling.

Lemma run_length e fs p tr fs' p' : run e (fs, p) tr (fs', p') -> length (threads p') = length (threads p).
Proof.
  intros Hr. apply (run_inv e (fun _ _ q => length (threads q) = length (threads p)) _ _ _ _ _ Hr); [done | | | done].
  - intros _ fs1 p1 tick t calls p2 <- _ Hx. by eapply exec_length.
  - intros _ fs1 p1 t p2 <- (_ & _ & _ & Hl & _)%spurious_data. done.
Qed.

(** Executes the [set_thread] of the goal with a lemma that it succeeds. *)
Ltac settle Hset :=
  match goal with
  | |- context [set_thread ?q ?t {| prog := ?r; stat := ?s |}] =>
      let q' := fresh "q" in let E := fresh "E" in
      destruct (Hset q r s) as [q' E]; [done | rewrite E; rsimpl; by eexists]
  end.

(** No thread can fail: every access is in bounds, every record parses. *)
Lemma exec_safe e tick t fs p tr c :
  env_ok e -> quiet p -> dinv e (goal_of e) (my_cells e) (matrix3 p) (datas p) tr -> polled e fs p c ->
  length (threads p) = 5%nat -> 0 <= t <= thread_num -> is_ok (exec e tick t fs p).
Proof.
  intros He Hq Hd Hc Hlen Ht. unfold thread_num in Ht.
  destruct (vget_is_ok (threads p) t) as [th Hth]; [lia |].
  assert (Hset : forall q prg st, length (threads q) = 5%nat -> exists q',
            set_thread q t {| prog := prg; stat := st |} = Ok q').
  { intros q prg st Hq5. eexists. apply set_thread_Ok. split; [lia | reflexivity]. }
  unfold exec. rewrite Hth. apply vget_Ok in Hth as [_ Hth]. rsimpl.
  destruct (bool_decide (stat th = Running)); cbn [negb]; [| by eexists].
  destruct (prog th) as [|s rest] eqn:Ep; [by eexists |].
  assert (Hqs : quiet_stmt s).
  { eapply Forall_lookup_1 in Hq; [| exact Hth]. cbn in Hq. rewrite Ep in Hq. by apply Forall_cons in Hq as [? _]. }
  assert (Hok : stmt_ok e s).
  { pose proof (datas_lookup p _ _ Hth) as Hl. rewrite Ep, data_cons in Hl.
    destruct (is_data s) eqn:Es; [| by destruct s].
    eapply Forall_lookup_1 in Hl; [| apply (di_ok _ _ _ _ _ _ Hd)]. by apply Forall_cons in Hl as [? _]. }
  pose proof (di_len _ _ _ _ _ _ Hd) as Hm.
  destruct s as [| |i|i| | | | | |c' k|c']; cbn [quiet_stmt stmt_ok] in *; unfold thread_num in *;
    try (destruct (vget_is_ok (threads p) i) as [w Hw]; [lia |]; rewrite Hw; rsimpl).
  - settle Hset.
  - destruct (chan_rel_recv _ (fs, gadia_last_position p) c Hc) as (last & Hr & _). cbn [fst snd] in Hr.
    rewrite Hr. rsimpl. destruct (_ =? _); [settle Hset | by eexists].
  - destruct (set_thread p i {| prog := prog w; stat := Running |}) as [q|] eqn:Eq; rsimpl.
    + apply set_thread_Ok in Eq as [_ ->]. assert (length (threads (upd p (Z.to_nat i) (prog w) Running)) = 5%nat)
        by (cbn [upd setf threads]; by rewrite length_insert). settle Hset.
    + exfalso. assert (Hx : set_thread p i {| prog := prog w; stat := Running |} <> Err e0) by
        (unfold set_thread, vset; rewrite decide_True by lia; done). done.
  - destruct (bool_decide (prog w = [])); [settle Hset | by eexists].
  - destruct (mtx p); [by eexists | settle Hset].
  - settle Hset.
  - settle Hset.
  - destruct (_ =? 0); settle Hset.
  - settle Hset.
  - destruct (accumulate_ok e (matrix3 p) c' k He Hm Hok) as (v & _ & ->). rsimpl. settle Hset.
  - destruct (vget_is_ok (matrix3 p) c') as [v ->]; [lia |]. rsimpl. settle Hset.
Qed.

Lemma Forall2_impl_in {A B} (P Q : A -> B -> Prop) l k :
  Forall2 P l k -> (forall x y, y ∈ k -> P x y -> Q x y) -> Forall2 Q l k.
Proof.
  induction 1 as [|x y l k Hxy _ IH]; intros H; constructor; [apply H; [left | done] |].
  apply IH. intros; apply H; [by right | done].
Qed.

Definition finished (p : process) : Prop := Forall (fun th => prog th = []) (threads p).

Definition zeros (e : env) : list Z := replicate (Z.to_nat (size_of e)) 0.

(** C8.  The matrix benchmark with process id 0 or 1 and a positive size [N]
    with [4 * N * N] in the range of [int], under every interleaving of its
    threads, every spurious wake-up and whatever the other processes send
    through a channel file that can be opened: no thread ever fails (every access is
    in bounds, every received line parses), and when all threads have finished
    the cells of the process hold the product of the two matrices, transposed
    (cell [x * N + y] is row [y] times column [x]), the other cells are zero,
    and the process has sent chiplet 0 exactly those values, each cell once. *)
Theorem matrix_result (e : env) (tr : list op) (fs : files) (p : process) :
  env_ok e -> can_open (c_str (file_name (u64 (theChipletScale e)))) = true ->
  run e (∅, start e (zeros e)) tr (fs, p) ->
  (forall tick t, 0 <= t <= thread_num -> is_ok (exec e tick t fs p)) /\
  (finished p ->
    (forall c, 0 <= c < size_of e ->
       vget (matrix3 p) c = Ok (if bool_decide (c ∈ my_cells e) then product e c else 0)) /\
    exists sent, sent ≡ₚ my_cells e /\
      Forall2 (fun o c => exists tick, o = OCall tick 0 0 (u64 (product e c)) 0) (List.filter data_op tr) sent).
Proof.
  intros He Hopen Hr.
  destruct (dinv_run e He (goal_of e) (my_cells e) _ _ _ _ _ Hr (quiet_start e _) (dinv_start e He)) as [Hq Hd].
  destruct (run_polled e Hopen _ _ _ _ _ {| created := false; queue := [] |} Hr) as [c Hc]; [by split |].
  pose proof (run_length _ _ _ _ _ _ Hr) as Hlen.
  split; [intros tick t Ht; by eapply exec_safe |].
  intros Hfin. assert (Hnil : forall d, d ∈ datas p -> d = []).
  { intros d Hin. apply list_elem_of_fmap in Hin as (th & -> & Hth). cbn.
    by rewrite (proj1 (Forall_forall _ _) Hfin th Hth). }
  destruct Hd as [Hl Hv _ _ _ (sent & HF & HP)]. split.
  - intros c' Hc'. destruct (vget_is_ok (matrix3 p) c') as [v Hv']; [unfold size_of in *; lia |].
    rewrite Hv'. apply vget_Ok in Hv' as [Hc0 Hv']. destruct (Hv c' v Hc0 Hv') as [Hi Hg].
    rewrite sumZ_zero, Z.add_0_r, i32_id in Hg by (try done; intros d ->%Hnil; done).
    rewrite Hg. unfold goal_of, product. by case_bool_decide.
  - replace (concat (sends <$> datas p)) with (@nil Z) in HP.
    2:{ revert Hnil. generalize (datas p). intros l. induction l as [|d l IH]; intros Hn; [done |].
        rewrite fmap_cons. cbn [concat]. rewrite (Hn d) by left. apply IH. intros x Hx. apply Hn. by right. }
    rewrite app_nil_r in HP. exists sent. split; [done |].
    eapply Forall2_impl_in; [exact HF |]. intros o c' Hin [tick ->]. exists tick.
    unfold goal_of. rewrite bool_decide_true by (by rewrite <- HP). done.
Qed.

Lemma matrix_partition_witness :
  let e i := {| N := 8; id := i; theChipletScale := 2; coreNum := 4; matrix1 := replicate 64 1;
                matrix2 := replicate 64 2 |} in
  my_cells (e 0) ++ my_cells (e 1) ≡ₚ upto 64.
Proof.
  intros e. destruct (matrix_partition (e 0) (e 1)) as (_ & _ & H & _);
    [by split; cbn; (lia || auto) | by split; cbn; (lia || auto) | done | done | done |].
  apply H. by exists 2.
Defined.

(** ** Executing a schedule *)

(** Runs the threads named in [sched], skipping those that cannot move. *)
Fixpoint drive (e : env) (sched : list Z) (tr : list op) (fs : files) (p : process) : list op * files * process :=
  match sched with
  | [] => (tr, fs, p)
  | t :: sched =>
      match exec e 0 t fs p with
      | Ok (Some (calls, p')) => drive e sched (tr ++ calls) (foldl apply_op fs calls) p'
      | _ => drive e sched tr fs p
      end
  end.

Lemma drive_run e s0 sched : forall tr fs p, run e s0 tr (fs, p) ->
  let '(tr', fs', p') := drive e sched tr fs p in run e s0 tr' (fs', p').
Proof.
  induction sched as [|t sched IH]; intros tr fs p Hr; [done |]. cbn [drive].
  destruct (exec e 0 t fs p) as [[[calls p']|]|] eqn:E; try by apply IH.
  apply IH. destruct s0 as [fs0 p0]. eapply run_own; [done | | exact E]. done.
Qed.

Definition demo : env :=
  {| N := 4; id := 0; theChipletScale := 2; coreNum := 4; matrix1 := upto 16; matrix2 := Z.mul 3 <$> upto 16 |}.

(** A complete run on a 4 x 4 matrix, with the word the handshake waits for
    sent by another process, threads scheduled round-robin. *)
Definition demo_sched : list Z := concat (replicate 80 [4; 0; 1; 2; 3]).
Definition demo_go := OCall 7 9 2 (u64 (-4)) 0.
Definition demo_end : list op * files * process :=
  drive demo demo_sched [] (apply_op ∅ demo_go) (start demo (zeros demo)).

Lemma demo_run : run demo (∅, start demo (zeros demo)) demo_end.1.1 (demo_end.1.2, demo_end.2).
Proof.
  pose proof (drive_run demo (∅, start demo (zeros demo)) demo_sched []
                (apply_op ∅ demo_go) (start demo (zeros demo))) as H.
  unfold demo_end. destruct (drive demo demo_sched [] (apply_op ∅ demo_go) (start demo (zeros demo))) as [[tr fs] p].
  apply H. apply run_other; [constructor | done].
Qed.

Lemma matrix_result_witness :
  run demo (∅, start demo (zeros demo)) demo_end.1.1 (demo_end.1.2, demo_end.2) /\ finished demo_end.2 /\
  vget (matrix3 demo_end.2) 6 = Ok (product demo 6) /\ product demo 6 = 858 /\
  (exists sent, sent ≡ₚ my_cells demo /\
     Forall2 (fun o c => exists tick, o = OCall tick 0 0 (u64 (product demo c)) 0)
       (List.filter data_op demo_end.1.1) sent).
Proof.
  assert (Hfin : finished demo_end.2) by (vm_compute; by repeat constructor).
  assert (He : env_ok demo) by (split; cbn; (lia || auto)).
  assert (Ho : can_open (c_str (file_name (u64 (theChipletScale demo)))) = true) by (vm_compute; reflexivity).
  pose proof (matrix_result demo demo_end.1.1 demo_end.1.2 demo_end.2 He Ho demo_run) as [_ Hres].
  destruct (Hres Hfin) as [Hc Hs]. split_and!; [exact demo_run | exact Hfin | | vm_compute; reflexivity | exact Hs].
  rewrite (Hc 6) by (vm_compute; split; [discriminate | reflexivity]).
  rewrite bool_decide_true by (apply elem_of_my_cells; exists 3; vm_compute; intuition discriminate). reflexivity.
Defined.
