(* ===== verification/MatrixThreads.v ===== *)
(** * The matrix benchmark: start-up and progress

    Two facts about the threads of [MatrixBench.v].  The start-up handshake of
    [launch_threads] waits for the word -4, and no process of a system that
    runs the benchmark ever sends it, so no worker thread is ever created.
    Once a process on chiplet 0 is past the handshake its threads never run
    forever, and they do not deadlock in the mutex and the counting barrier of
    [perf_cycle] as long as [pthread_cond_wait] returns after a broadcast only;
    one spurious wake-up is enough for a deadlock. *)
From S2P Require Import Prelude IoStream Gadia MatrixBench.

(** ** The handshake *)

Definition zero_chan (c : chan) : Prop := Forall (fun m => m_data m = 0) (queue c).

Definition before_launch (e : env) (prg : list stmt) : Prop :=
  prg = main_prog e \/ prg = launch_threads \/ prg = tail launch_threads.

Definition waiting_main (e : env) (p : process) : Prop :=
  exists prg, threads p = (worker e <$> upto thread_num) ++ [{| prog := prg; stat := Running |}] /\
    before_launch e prg.

Definition hs_inv (e : env) (fs : files) (p : process) : Prop :=
  waiting_main e p /\ matrix3 p = zeros e /\ exists c, polled e fs p c /\ zero_chan c.

(** The calls made before the handshake carry the word 0. *)
Definition zero_op (o : op) : Prop := match o with OCall tick _ _ data _ => in_u64 tick /\ data = 0 | ORecv => True end.

Lemma zero_call e fs p c o :
  can_open (c_str (file_name (u64 (theChipletScale e)))) = true -> zero_op o ->
  polled e fs p c -> zero_chan c -> exists c', polled e (apply_op fs o) p c' /\ zero_chan c'.
Proof.
  intros Ho Hz Hp Hc. destruct o as [tick src tgt data init|]; [| by exists c]. destruct Hz as [Ht ->].
  eexists. split; [apply (chan_rel_call _ Ho (fs, gadia_last_position p) c tick src tgt 0 init Ht Hp) |].
  unfold zero_chan, abs_step. destruct (_ && _); [| done]. cbn [queue snd].
  apply Forall_app. split; [done | by repeat constructor].
Qed.

(** A channel that holds only zeros never delivers -4. *)
Lemma zero_recv core st c :
  chan_rel core st c -> zero_chan c ->
  exists w last, gadia_receive core st.1 st.2 = Ok (w, last) /\ w <> u64 (-4) /\
    exists c', chan_rel core (st.1, last) c' /\ zero_chan c'.
Proof.
  intros Hr Hz. destruct (chan_rel_recv core st c Hr) as (last & Hg & _ & Hr').
  exists (default 0 (abs_step core c ORecv).1), last. split; [done |].
  enough (default 0 (abs_step core c ORecv).1 <> u64 (-4) /\ zero_chan (abs_step core c ORecv).2) as [? ?] by eauto.
  clear -Hz. unfold abs_step. destruct (created c); [| done].
  destruct (queue_recv (i32 core) (queue c)) as [[m q]|] eqn:E; [| done].
  apply queue_recv_split in E as (sk & Hq & _ & _). unfold zero_chan in *. rewrite Hq in Hz.
  apply Forall_app in Hz as [_ [Hm Hz]%Forall_cons]. cbn [fst snd default queue]. by rewrite Hm.
Qed.

Lemma hs_exec e tick t fs p calls p' :
  in_u64 tick -> hs_inv e fs p -> exec e tick t fs p = Ok (Some (calls, p')) ->
  hs_inv e fs p' /\ Forall zero_op calls.
Proof.
  intros Htk ((prg & Hth & Hb) & Hm3 & c & Hc & Hz) (th & s & rest & Ht & Hl & Hrun & Hp & Hs)%exec_effect.
  assert (Z.to_nat t = 4%nat) as Et.
  { rewrite Hth in Hl. change (upto thread_num) with [0; 1; 2; 3] in Hl.
    destruct (Z.to_nat t) as [|[|[|[|[|n]]]]]; cbn in Hl; try done; injection Hl as <-; discriminate Hrun. }
  rewrite Et in *. rewrite Hth in Hl. change (upto thread_num) with [0; 1; 2; 3] in Hl. cbn in Hl.
  injection Hl as <-. cbn [prog] in Hp. subst prg.
  assert (Hnext : forall q, threads q = threads p -> before_launch e rest -> waiting_main e (upd q 4 rest Running)).
  { intros q Hq Hr. exists rest. split; [| done]. cbn [upd setf threads]. by rewrite Hq, Hth. }
  destruct Hb as [Hb|[Hb|Hb]]; injection Hb as -> ->; inversion Hs; subst.
  - split; [| by repeat first [exact (conj Htk eq_refl) | constructor]]. split_and!; [| done | by exists c]. apply Hnext; [done |]. right; by left.
  - split; [| by repeat first [exact (conj Htk eq_refl) | constructor]]. split_and!; [| done | by exists c]. apply Hnext; [done |]. by right; right.
  - destruct (zero_recv _ (fs, gadia_last_position p) c Hc Hz) as (w & last & Hg & Hw & _). cbn [fst snd] in Hg.
    by same_ok; simplify_eq.
  - destruct (zero_recv _ (fs, gadia_last_position p) c Hc Hz) as (w' & last & Hg & Hw & c' & Hc' & Hz').
    cbn [fst snd] in *. rewrite Hg in H. injection H as -> ->.
    split; [| done]. split_and!; [| done | by exists c']. eexists. split; [exact Hth |]. by right; right.
Qed.

(** Nobody waits before the handshake. *)
Lemma hs_not_waiting e fs p t p' : hs_inv e fs p -> spurious t p = Some p' -> False.
Proof.
  intros ((prg & Hth & _) & _) (th & Hl & Hw & _)%spurious_thread. rewrite Hth in Hl. change (upto thread_num) with [0; 1; 2; 3] in Hl.
  destruct t as [|[|[|[|[|t]]]]]; cbn in Hl; try done; injection Hl as <-; done.
Qed.

(** C29.  The start-up handshake cannot be passed: in a system of any number of
    processes of the benchmark, whatever their ids, chiplet numbers and matrices
    and however they interleave, no process ever gets past its wait for the
    word -4, so no worker thread is created and no cell is computed. *)
Theorem handshake_blocks (es : list env) (fs : files) (ps : list process) :
  Forall (fun e => can_open (c_str (file_name (u64 (theChipletScale e)))) = true) es ->
  rtc (sys_step es) (∅, (fun e => start e (zeros e)) <$> es) (fs, ps) ->
  Forall2 (fun e p => waiting_main e p /\ matrix3 p = zeros e) es ps.
Proof.
  intros Ho Hr. assert (Hi : Forall2 (fun e p => hs_inv e fs p) es ps).
  2:{ eapply Forall2_impl; [exact Hi |]. intros e p (? & ? & _). done. }
  change (Forall2 (fun e p => hs_inv e (fs, ps).1 p) es (fs, ps).2). revert Hr. generalize (fs, ps). intros s Hr.
  remember (∅, (fun e => start e (zeros e)) <$> es) as s0 eqn:E0.
  assert (H0 : Forall2 (fun e p => hs_inv e s0.1 p) es s0.2).
  { subst s0. cbn [fst snd]. apply Forall2_fmap_r, Forall_Forall2_diag, Forall_forall. intros e _.
    split_and!; [| done |].
    - eexists. split; [reflexivity | by left].
    - exists {| created := false; queue := [] |}. split; [split; [constructor | done] | constructor]. }
  clear E0. induction Hr as [|s0 s1 s Hstep _ IH]; [done |]. apply IH. clear IH.
  destruct Hstep as (j & e & p & He & Hp & Hstep). pose proof (Forall2_lookup_lr _ _ _ _ _ _ H0 He Hp) as Hj.
  destruct Hstep as [(t & tick & calls & p' & Htk & Hx & ->)|(t & p' & Hx & _)]; [cbn [fst snd] | by apply (hs_not_waiting e s0.1 p t) in Hx].
  destruct (hs_exec _ _ _ _ _ _ _ Htk Hj Hx) as [Hj' Hz].
  assert (Hall : Forall2 (fun e p => hs_inv e s0.1 p) es (<[j := p']> s0.2)).
  { rewrite <- (list_insert_id es j e He). by apply Forall2_insert. }
  revert Hall. generalize (<[j := p']> s0.2). intros ps' Hall. clear -Ho Hz Hall.
  revert Hall. generalize (s0.1). induction Hz as [|o calls Hzo _ IH]; intros f Hall; [done |].
  cbn [foldl]. apply IH. clear -Ho Hzo Hall.
  apply Forall2_lookup. intros i. destruct (es !! i) as [e|] eqn:He.
  - destruct (Forall2_lookup_l _ _ _ _ _ Hall He) as (p & Hp & (Hw & Hm & c & Hc & Hzc)). rewrite Hp. constructor.
    pose proof (Forall_lookup_1 _ _ _ _ Ho He) as Hopen.
    split_and!; [done | done |]. by apply (zero_call e f p c o Hopen).
  - assert (ps' !! i = None) as ->; [| constructor].
    apply lookup_ge_None. rewrite <- (Forall2_length _ _ _ Hall). by apply lookup_ge_None.
Qed.

(** The second of two processes makes its first call. *)
Definition demo_first : files * process :=
  match exec demo 5 4 ∅ (start demo (zeros demo)) with
  | Ok (Some (calls, p)) => (foldl apply_op ∅ calls, p)
  | _ => (∅, start demo (zeros demo))
  end.

Lemma handshake_blocks_witness :
  rtc (sys_step [demo; demo]) (∅, [start demo (zeros demo); start demo (zeros demo)])
    (demo_first.1, [start demo (zeros demo); demo_first.2]) /\
  Forall2 (fun e p => waiting_main e p /\ matrix3 p = zeros e) [demo; demo] [start demo (zeros demo); demo_first.2].
Proof.
  assert (Hr : rtc (sys_step [demo; demo]) (∅, [start demo (zeros demo); start demo (zeros demo)])
                 (demo_first.1, [start demo (zeros demo); demo_first.2])).
  { apply rtc_once. exists 1%nat, demo, (start demo (zeros demo)). split; [reflexivity |]. split; [reflexivity |]. left.
    exists 4, 5. eexists _, _. split; [by vm_compute |]. split; [reflexivity | reflexivity]. }
  split; [exact Hr |].
  apply (handshake_blocks [demo; demo] demo_first.1); [by repeat constructor | exact Hr].
Defined.

(** ** Progress of the threads *)

(** The start state with the main thread past the handshake. *)
Definition launched (e : env) : process :=
  start e (zeros e) ⟨ threads := (worker e <$> upto thread_num) ++
    [{| prog := (SCreate <$> upto thread_num) ++ (SJoin <$> upto thread_num); stat := Running |}] ⟩.

Definition own_step (e : env) (p p' : process) : Prop :=
  exists tick t fs calls, in_u64 tick /\ exec e tick t fs p = Ok (Some (calls, p')).

(** Statements of the worker threads. *)
Definition worker_stmt (s : stmt) : bool :=
  match s with SLock | SUnlock | SAffinity | SPerf | SPerfEnd | SAcc _ _ | SSend _ => true | _ => false end.

(** Locks are balanced; [b]: the thread is inside a critical section. *)
Fixpoint wfp (b : bool) (p : list stmt) : Prop :=
  match p with
  | [] => b = false
  | SLock :: p => b = false /\ wfp true p
  | SUnlock :: p => b = true /\ wfp false p
  | (SPerf | SPerfEnd) :: p => b = true /\ wfp true p
  | _ :: p => wfp b p
  end.

Definition nperf (p : list stmt) : nat := length (filter (fun s => s = SPerf) p).

Definition held (p : process) (t : nat) : bool := bool_decide (mtx p = Some (Z.of_nat t)).

(** Thread [t] and the mutex agree. *)
Definition lock_ok (p : process) (t : nat) (th : thread) : Prop :=
  match stat th with
  | Waiting => wfp true (prog th) /\ held p t = false
  | NotCreated => wfp false (prog th) /\ held p t = false
  | Running => wfp (held p t) (prog th)
  end.

Definition is_waiting (th : thread) : bool := bool_decide (stat th = Waiting).
Definition nwait (p : process) : nat := length (List.filter is_waiting (threads p)).

(** Every worker has [r] barriers ahead, a waiting one the barrier it waits at
    included, and the counter counts those that have not arrived.  Between the
    arrival of the last and its broadcast, that thread holds the mutex. *)
Inductive barrier (p : process) (r : nat) : Prop :=
  | filling :
      counter p = thread_num - Z.of_nat (nwait p) -> 0 < counter p ->
      (forall t th, (t < 4)%nat -> threads p !! t = Some th ->
         SPerfEnd ∉ prog th /\ (nperf (prog th) + (if is_waiting th then 1 else 0))%nat = r) ->
      barrier p r
  | releasing t th rest :
      (t < 4)%nat -> threads p !! t = Some th -> stat th = Running -> prog th = SPerfEnd :: rest ->
      SPerfEnd ∉ rest -> held p t = true ->
      (forall t' th', (t' < 4)%nat -> t' <> t -> threads p !! t' = Some th' -> stat th' = Waiting /\ SPerfEnd ∉ prog th') ->
      (forall t' th', (t' < 4)%nat -> threads p !! t' = Some th' -> nperf (prog th') = r) ->
      barrier p r.

(** The main thread: it has created the threads that run, and joins the rest. *)
Definition main_ok (p : process) : Prop :=
  exists m cr jn, threads p !! 4%nat = Some m /\ stat m = Running /\
    prog m = (SCreate <$> cr) ++ (SJoin <$> jn) /\ NoDup cr /\
    Forall (fun i => 0 <= i < thread_num) (cr ++ jn) /\
    forall t th, (t < 4)%nat -> threads p !! t = Some th -> stat th = NotCreated <-> Z.of_nat t ∈ cr.

Record live_inv (p : process) : Prop := {
  li_len : length (threads p) = 5%nat;
  li_lock : forall t th, threads p !! t = Some th -> lock_ok p t th;
  li_worker : forall t th, (t < 4)%nat -> threads p !! t = Some th -> Forall (fun s => worker_stmt s = true) (prog th);
  li_main : main_ok p;
  li_barrier : exists r, barrier p r;
  li_mtx : forall z, mtx p = Some z -> 0 <= z < thread_num
}.

(** *** Preservation *)

Lemma filter_insert {A} (f : A -> bool) l n x y :
  l !! n = Some x ->
  (length (List.filter f (<[n := y]> l)) + (if f x then 1 else 0) =
   length (List.filter f l) + (if f y then 1 else 0))%nat.
Proof.
  revert n. induction l as [|z l IH]; intros [|n] H; try discriminate H.
  - injection H as ->. change (<[0%nat := y]> (x :: l)) with (y :: l). cbn [List.filter].
    destruct (f x), (f y); cbn [length]; lia.
  - change (<[S n := y]> (z :: l)) with (z :: <[n := y]> l). cbn [List.filter].
    specialize (IH n H). destruct (f z); cbn [length]; lia.
Qed.

Lemma insert_cases {A} (l : list A) t t' (x y : A) :
  <[t := x]> l !! t' = Some y -> (t' = t /\ y = x) \/ (t' <> t /\ l !! t' = Some y).
Proof. rewrite list_lookup_insert_Some. naive_solver. Qed.

Lemma nperf_cons s p : nperf (s :: p) = (if decide (s = SPerf) then S (nperf p) else nperf p).
Proof. unfold nperf. rewrite filter_cons. by case_decide. Qed.

Lemma nperf_app p q : nperf (p ++ q) = (nperf p + nperf q)%nat.
Proof. unfold nperf. by rewrite filter_app, length_app. Qed.

Section Worker.
Context (p : process) (t : nat) (th : thread) (s : stmt) (rest : list stmt).
Hypothesis Ht : (t < 4)%nat.
Hypothesis Hl : threads p !! t = Some th.
Hypothesis Hrun : stat th = Running.
Hypothesis Hp : prog th = s :: rest.

Lemma not_releasing r : barrier p r -> s <> SPerfEnd ->
  counter p = thread_num - Z.of_nat (nwait p) /\ 0 < counter p /\
  (forall t th, (t < 4)%nat -> threads p !! t = Some th ->
     SPerfEnd ∉ prog th /\ (nperf (prog th) + (if is_waiting th then 1 else 0))%nat = r).
Proof.
  intros [|t' th' rest' Ht' Hl' Hr' Hp' _ _ Hw _] Hs; [done |]. exfalso.
  destruct (decide (t = t')) as [->|Hne]; [rewrite Hl in Hl'; injection Hl' as <-; congruence |].
  destruct (Hw t th Ht Hne Hl) as [Hx _]. congruence.
Qed.

Lemma nwait_upd q prg st : threads q = threads p ->
  (nwait (upd q t prg st) + (if is_waiting th then 1 else 0) =
   nwait p + (if is_waiting {| prog := prg; stat := st |} then 1 else 0))%nat.
Proof. intros Hth. unfold nwait. cbn [upd setf threads]. rewrite Hth. by apply filter_insert. Qed.

Lemma barrier_simple q r :
  barrier p r -> s <> SPerf -> s <> SPerfEnd -> counter q = counter p -> threads q = threads p ->
  barrier (upd q t rest Running) r.
Proof.
  intros Hb Hs1 Hs2 Hc Hth. destruct (not_releasing r Hb Hs2) as (Hcnt & Hpos & Hall).
  assert (Hw : is_waiting th = false) by (unfold is_waiting; by rewrite Hrun).
  apply filling; cbn [upd setf counter threads]; rewrite ?Hc; [| done |].
  - rewrite Hcnt. pose proof (nwait_upd q rest Running Hth) as Hf. rewrite Hw in Hf.
    change (is_waiting {| prog := rest; stat := Running |}) with false in Hf. cbv iota in Hf. lia.
  - intros t' th' Ht' Hl'. rewrite Hth in Hl'. apply insert_cases in Hl' as [[-> ->]|[_ Hl']]; [| by eapply Hall].
    destruct (Hall t th Ht Hl) as [Hne Hr]. rewrite Hp, Hw, nperf_cons in Hr. rewrite decide_False in Hr by done.
    cbn [prog]. split; [| done]. rewrite Hp in Hne. intros Hin. apply Hne. by right.
Qed.

Lemma main_worker q prg st :
  main_ok p -> threads q = threads p -> st <> NotCreated -> main_ok (upd q t prg st).
Proof.
  intros (m & cr & jn & Hm & Hmr & Hmp & Hnd & Hr & Hst) Hth Hs. exists m, cr, jn. cbn [upd setf threads]. rewrite Hth.
  split_and!; try done; [by rewrite list_lookup_insert_ne by lia |].
  intros t' th' Ht' [[-> ->]|[_ Hl']]%insert_cases; [| by apply Hst].
  cbn [stat]. rewrite <- (Hst t th Ht Hl), Hrun. done.
Qed.

Lemma worker_frame q prg st t' th' :
  (forall t th, (t < 4)%nat -> threads p !! t = Some th -> Forall (fun s => worker_stmt s = true) (prog th)) ->
  threads q = threads p -> Forall (fun s => worker_stmt s = true) prg ->
  (t' < 4)%nat -> threads (upd q t prg st) !! t' = Some th' -> Forall (fun s => worker_stmt s = true) (prog th').
Proof.
  intros Hw Hth Hprg Ht'. cbn [upd setf threads]. rewrite Hth. intros [[-> ->]|[_ Hl']]%insert_cases; [done |].
  by eapply Hw.
Qed.

Lemma lock_frame q prg st :
  (forall t th, threads p !! t = Some th -> lock_ok p t th) -> threads q = threads p ->
  (forall t', t' <> t -> held q t' = held p t') ->
  lock_ok (upd q t prg st) t {| prog := prg; stat := st |} ->
  forall t' th', threads (upd q t prg st) !! t' = Some th' -> lock_ok (upd q t prg st) t' th'.
Proof.
  intros Hlk Hth Hh Ht0 t' th'. cbn [upd setf threads]. rewrite Hth.
  intros [[-> ->]|[Hne Hl']]%insert_cases; [done |].
  specialize (Hlk t' th' Hl'). unfold lock_ok in *. change (held (upd q t prg st) t') with (held q t').
  by rewrite (Hh t' Hne).
Qed.

(** A statement of a worker that leaves barrier and counter alone. *)
Lemma live_simple q :
  live_inv p -> s <> SPerf -> s <> SPerfEnd -> counter q = counter p -> threads q = threads p ->
  (forall t', t' <> t -> held q t' = held p t') -> wfp (held q t) rest ->
  (forall z, mtx q = Some z -> 0 <= z < thread_num) ->
  live_inv (upd q t rest Running).
Proof.
  intros [Hlen Hlk Hwk Hm [r Hb] Hmx] Hs1 Hs2 Hc Hth Hh Hwf Hmq.
  assert (Hwr : Forall (fun s => worker_stmt s = true) rest).
  { pose proof (Hwk t th Ht Hl) as Hw. rewrite Hp in Hw. by apply Forall_cons in Hw as [_ ?]. }
  split.
  - cbn [upd setf threads]. by rewrite length_insert, Hth.
  - by apply lock_frame.
  - intros t' th'. by apply worker_frame.
  - by apply main_worker.
  - exists r. by apply barrier_simple.
  - exact Hmq.
Qed.

Lemma live_perf_wait :
  live_inv p -> s = SPerf -> counter p - 1 <> 0 ->
  live_inv (upd (p ⟨ counter := counter p - 1 ⟩ ⟨ mtx := None ⟩) t rest Waiting).
Proof.
  intros [Hlen Hlk Hwk Hm [r Hb] Hmx] Hs Hc. assert (Hp' : prog th = SPerf :: rest) by (by rewrite Hp, Hs).
  pose proof (Hlk t th Hl) as Hlt. unfold lock_ok in Hlt. rewrite Hrun, Hp' in Hlt. destruct Hlt as [Hh Hwf].
  assert (Hw : is_waiting th = false) by (unfold is_waiting; by rewrite Hrun).
  destruct (not_releasing r Hb) as (Hcnt & Hpos & Hall); [by rewrite Hs |].
  split.
  - cbn [upd setf threads]. by rewrite length_insert.
  - apply lock_frame; [done | done | | by split].
    intros t' Hne. unfold held in *. cbn [setf mtx]. b2p. rewrite Hh.
    rewrite !bool_decide_false; [done | | done]. intros [= ?]. lia.
  - intros t' th'. apply worker_frame; [done | done |].
    pose proof (Hwk t th Ht Hl) as Hx. rewrite Hp' in Hx. by apply Forall_cons in Hx as [_ ?].
  - by apply main_worker.
  - exists r. apply filling.
    + change (counter (upd _ t rest Waiting)) with (counter p - 1).
      match goal with |- context [nwait (upd ?q _ _ _)] => pose proof (nwait_upd q rest Waiting eq_refl) as Hf end.
      rewrite Hw in Hf. change (is_waiting {| prog := rest; stat := Waiting |}) with true in Hf. cbv iota in Hf. lia.
    + cbn [upd setf counter]. lia.
    + intros t' th' Ht' [[-> ->]|[_ Hl']]%insert_cases; [| by eapply Hall].
      destruct (Hall t th Ht Hl) as [Hne Hr]. rewrite Hp', Hw, nperf_cons, decide_True in Hr by done.
      cbn [prog]. split; [| change (is_waiting _) with true; cbv iota; lia]. rewrite Hp' in Hne. intros Hin. apply Hne. by right.
  - done.
Qed.

(** When the counter is one, all other workers wait. *)
Lemma others_wait r :
  live_inv p -> barrier p r -> s <> SPerfEnd -> counter p = 1 ->
  forall t' th', (t' < 4)%nat -> t' <> t -> threads p !! t' = Some th' -> stat th' = Waiting.
Proof.
  intros [Hlen _ _ (m & cr & jn & Hm & Hmr & _) _ _] Hb Hs Hc t' th' Ht' Hne Hl'.
  destruct (not_releasing r Hb Hs) as (Hcnt & _). unfold thread_num, nwait in Hcnt.
  assert (is_waiting th = false) by (unfold is_waiting; by rewrite Hrun).
  assert (is_waiting m = false) by (unfold is_waiting; by rewrite Hmr).
  destruct (is_waiting th') eqn:Ew; [by unfold is_waiting in Ew; b2p |]. exfalso.
  destruct (threads p) as [|a [|b [|c [|d [|m' [|]]]]]]; try discriminate Hlen. cbn in Hm. injection Hm as ->.
  cbn [List.filter] in Hcnt.
  destruct t as [|[|[|[|]]]], t' as [|[|[|[|]]]]; try lia; cbn in Hl, Hl'; simplify_eq;
    repeat match goal with
    | H : is_waiting _ = false |- _ => rewrite H in Hcnt; clear H
    | _ : context [if is_waiting ?x then _ else _] |- _ => destruct (is_waiting x)
    end; cbn [length] in Hcnt; lia.
Qed.

Lemma live_perf_last :
  live_inv p -> s = SPerf -> counter p - 1 = 0 ->
  live_inv (upd (p ⟨ counter := counter p - 1 ⟩) t (SPerfEnd :: rest) Running).
Proof.
  intros Hinv Hs Hc. assert (Hp' : prog th = SPerf :: rest) by (by rewrite Hp, Hs). pose proof Hinv as [Hlen Hlk Hwk Hm [r Hb] Hmx].
  pose proof (Hlk t th Hl) as Hlt. unfold lock_ok in Hlt. rewrite Hrun, Hp' in Hlt. destruct Hlt as [Hh Hwf].
  destruct (not_releasing r Hb) as (Hcnt & Hpos & Hall); [by rewrite Hs |].
  pose proof (others_wait r Hinv Hb ltac:(by rewrite Hs) ltac:(lia)) as Ho.
  pose proof (Hwk t th Ht Hl) as Hx. rewrite Hp' in Hx. apply Forall_cons in Hx as [_ Hx].
  destruct (Hall t th Ht Hl) as [Hne Hr].
  assert (Hw : is_waiting th = false) by (unfold is_waiting; by rewrite Hrun).
  rewrite Hp', Hw, nperf_cons, decide_True in Hr by done.
  assert (Hl2 : (t < length (threads p))%nat) by lia.
  split.
  - cbn [upd setf threads]. by rewrite length_insert.
  - apply lock_frame; [done | done | done |]. unfold lock_ok. cbn [stat prog]. by split.
  - intros t' th'. apply worker_frame; [done | done |]. by constructor.
  - by apply main_worker.
  - exists (r - 1)%nat. eapply (releasing _ _ t); cbn [upd setf threads].
    + done.
    + by apply list_lookup_insert_eq.
    + done.
    + done.
    + rewrite Hp' in Hne. intros Hin. apply Hne. by right.
    + exact Hh.
    + intros t' th' Ht' Hn [[-> _]|[_ Hl']]%insert_cases; [done |]. split; [by eapply Ho |]. by apply (Hall t').
    + intros t' th' Ht' [[-> ->]|[Hn Hl']]%insert_cases.
      * cbn [prog]. rewrite nperf_cons, decide_False by done. lia.
      * destruct (Hall t' th' Ht' Hl') as [_ Hr']. assert (Hw' : is_waiting th' = true) by
          (unfold is_waiting; by rewrite (Ho t' th' Ht' Hn Hl')). rewrite Hw' in Hr'. cbv iota in Hr'. lia.
  - exact Hmx.
Qed.

Lemma live_perf_end :
  live_inv p -> s = SPerfEnd ->
  let q := upd (p ⟨ counter := thread_num ⟩) t rest Running in
  live_inv (q ⟨ threads := wake_waiting <$> threads q ⟩).
Proof.
  intros [Hlen Hlk Hwk Hm [r Hb] Hmx] Hs q. assert (Hp' : prog th = SPerfEnd :: rest) by (by rewrite Hp, Hs).
  match goal with |- live_inv ?x => set (q' := x) end.
  pose proof (Hlk t th Hl) as Hlt. unfold lock_ok in Hlt. rewrite Hrun, Hp' in Hlt. destruct Hlt as [Hh Hwf].
  pose proof (Hwk t th Ht Hl) as Hx. rewrite Hp' in Hx. apply Forall_cons in Hx as [_ Hx].
  destruct Hb as [_ _ Hall|t0 th0 rest0 Ht0 Hl0 Hr0 Hp0 Hne0 _ Hw Hn].
  { destruct (Hall t th Ht Hl) as [Hne _]. rewrite Hp' in Hne. exfalso. apply Hne. left. }
  assert (t0 = t) as ->.
  { destruct (decide (t = t0)) as [|Hne]; [done |]. destruct (Hw t th Ht Hne Hl) as [Hx' _]. congruence. }
  rewrite Hl in Hl0. injection Hl0 as <-. rewrite Hp' in Hp0. injection Hp0 as <-.
  assert (Hcase : forall t' th', threads q' !! t' = Some th' ->
            (t' = t /\ th' = {| prog := rest; stat := Running |}) \/
            (t' <> t /\ exists th0, threads p !! t' = Some th0 /\ th' = wake_waiting th0)).
  { intros t' th'. cbn [q' setf threads]. rewrite list_lookup_fmap. intros (th0 & H0 & ->)%fmap_Some.
    cbn [q upd setf threads] in H0. apply insert_cases in H0 as [[-> ->]|[Hne H0]]; [by left | right; eauto]. }
  split.
  - cbn [q' q upd setf threads]. by rewrite length_fmap, length_insert.
  - intros t' th' [[-> ->]|(Hne & th0 & H0 & ->)]%Hcase.
    + unfold lock_ok. cbn [stat prog]. change (wfp (held p t) rest). by rewrite Hh.
    + specialize (Hlk t' th0 H0). unfold lock_ok in *.
      change (held q' t') with (held p t').
      unfold wake_waiting. case_decide as Hws; [| done].
      rewrite Hws in Hlk. destruct Hlk as [Hw1 Hw2]. cbn [stat prog wfp]. by rewrite Hw2.
  - intros t' th' Ht' [[-> ->]|(Hne & th0 & H0 & ->)]%Hcase; [done |].
    specialize (Hwk t' th0 Ht' H0). unfold wake_waiting. case_decide; [| done]. by constructor.
  - destruct (main_worker p rest Running Hm) as (m & cr & jn & Hm1 & Hm2 & Hm3 & Hm4 & Hm5 & Hm6);
      [done | done |].
    exists m, cr, jn. split_and!; try done.
    + cbn [q' setf threads]. rewrite list_lookup_fmap. change (threads q) with (threads (upd p t rest Running)).
      rewrite Hm1. cbn. unfold wake_waiting. by rewrite Hm2.
    + intros t' th' Ht' H'. cbn [q' setf threads] in H'. rewrite list_lookup_fmap in H'.
      apply fmap_Some in H' as (th0 & H0 & ->). rewrite <- (Hm6 t' th0 Ht' H0).
      unfold wake_waiting. case_decide as Hws; [| done]. by rewrite Hws.
  - exists r. apply filling; [| done |].
    + change (counter _) with thread_num. replace (nwait _) with 0%nat; [lia |]. symmetry. unfold nwait.
      apply length_zero_iff_nil. cbn [q' setf threads].
      generalize (threads q). intros l. induction l as [|x l IH]; [done |]. rewrite fmap_cons. cbn [List.filter].
      rewrite IH. unfold wake_waiting. case_decide as Hws; [done |]. unfold is_waiting. by rewrite bool_decide_false.
    + intros t' th' Ht' [[-> ->]|(Hne & th0 & H0 & ->)]%Hcase.
      * split; [done |]. change (is_waiting _) with false. cbv iota. cbn [prog].
        rewrite <- (Hn t th Ht Hl), Hp', nperf_cons, decide_False by done. lia.
      * destruct (Hw t' th0 Ht' Hne H0) as [Hws Hnot]. unfold wake_waiting. rewrite decide_True by done.
        change (is_waiting _) with false. cbv iota. cbn [prog]. rewrite nperf_cons, decide_False by done.
        rewrite <- (Hn t' th0 Ht' H0). split; [| lia]. intros [?|?]%elem_of_cons; done.
  - exact Hmx.
Qed.
End Worker.

(** *** The main thread *)

Lemma nwait_same p t th prg st :
  threads p !! t = Some th -> stat th <> Waiting -> st <> Waiting -> nwait (upd p t prg st) = nwait p.
Proof.
  intros Hl H1 H2. pose proof (filter_insert is_waiting (threads p) t th {| prog := prg; stat := st |} Hl) as Hf.
  unfold is_waiting in Hf at 2 4. cbn [stat] in Hf. rewrite !bool_decide_false in Hf by done.
  unfold nwait. cbn [upd setf threads]. lia.
Qed.

(** Changing the main thread. *)
Lemma live_main p m rest :
  length (threads p) = 5%nat -> (forall t th, threads p !! t = Some th -> lock_ok p t th) ->
  (forall t th, (t < 4)%nat -> threads p !! t = Some th -> Forall (fun s => worker_stmt s = true) (prog th)) ->
  (exists r, barrier p r) -> (forall z, mtx p = Some z -> 0 <= z < thread_num) ->
  threads p !! 4%nat = Some m -> stat m = Running -> wfp (held p 4) rest ->
  main_ok (upd p 4 rest Running) -> live_inv (upd p 4 rest Running).
Proof.
  intros Hlen Hlk Hwk [r Hb] Hmx Hm Hr Hlm Hmain.
  assert (Hsame : forall t, (t < 4)%nat -> threads (upd p 4 rest Running) !! t = threads p !! t).
  { intros t Ht. cbn [upd setf threads]. by rewrite list_lookup_insert_ne by lia. }
  split; [| | | done | |].
  - cbn [upd setf threads]. by rewrite length_insert.
  - intros t th [[-> ->]|[Hne Hl]]%insert_cases; [exact Hlm | exact (Hlk t th Hl)].
  - intros t th Ht. rewrite Hsame by done. by apply Hwk.
  - exists r. destruct Hb as [Hc Hp Ha|t th rs Ht Hl Hs Hpr Hn Hh Hw Hnp].
    + apply filling; [| done |].
      * rewrite (nwait_same p 4 m) by (done || congruence). done.
      * intros t th Ht. rewrite Hsame by done. by apply Ha.
    + eapply (releasing _ _ t th rs); [done | by rewrite Hsame | done | done | done | done | |].
      * intros t' th' Ht' Hne. rewrite Hsame by done. by apply Hw.
      * intros t' th' Ht'. rewrite Hsame by done. by apply Hnp.
  - exact Hmx.
Qed.

(** Starting a thread that was not created. *)
Lemma live_start p i w :
  live_inv p -> (i < 4)%nat -> threads p !! i = Some w -> stat w = NotCreated ->
  let q := upd p i (prog w) Running in
  length (threads q) = 5%nat /\ (forall t th, threads q !! t = Some th -> lock_ok q t th) /\
  (forall t th, (t < 4)%nat -> threads q !! t = Some th -> Forall (fun s => worker_stmt s = true) (prog th)) /\
  exists r, barrier q r.
Proof.
  intros [Hlen Hlk Hwk _ [r Hb] Hmx] Hi Hl Hs q. split_and!.
  - cbn [q upd setf threads]. by rewrite length_insert.
  - intros t th [[-> ->]|[Hne Hl']]%insert_cases; [| exact (Hlk t th Hl')].
    apply Hlk in Hl. unfold lock_ok in *. rewrite Hs in Hl. destruct Hl as [Hw Hh].
    cbn [stat prog]. change (held q i) with (held p i). by rewrite Hh.
  - intros t th Ht [[-> ->]|[Hne Hl']]%insert_cases; [exact (Hwk i w Hi Hl) | exact (Hwk t th Ht Hl')].
  - exists r. destruct Hb as [Hc Hp Ha|t th rs Ht Hl' Hr _ _ _ Hw _].
    + apply filling; [| done |].
      * unfold q. rewrite (nwait_same p i w) by (done || congruence). done.
      * intros t th Ht [[-> ->]|[Hne Hl']]%insert_cases; [| by apply (Ha t)].
        destruct (Ha i w Hi Hl) as [Hne Hn]. assert (Hw : is_waiting w = false) by (unfold is_waiting; by rewrite Hs).
        rewrite Hw in Hn. cbn [prog]. by split.
    + exfalso. destruct (decide (i = t)) as [->|Hne]; [congruence |]. destruct (Hw i w Hi Hne Hl). congruence.
Qed.

Lemma wfp_main l l' b : wfp b ((SCreate <$> l) ++ (SJoin <$> l')) <-> b = false.
Proof. induction l as [|i l IH]; cbn; [| done]. induction l' as [|i l' IH]; cbn; done. Qed.

Lemma live_create p m i w rest :
  live_inv p -> threads p !! 4%nat = Some m -> prog m = SCreate i :: rest -> 0 <= i ->
  threads p !! Z.to_nat i = Some w ->
  live_inv (upd (upd p (Z.to_nat i) (prog w) Running) 4 rest Running).
Proof.
  intros Hinv Hm Hp Hi Hw. pose proof Hinv as [Hlen Hlk Hwk (m' & cr & jn & Hm' & Hr & Hpm & Hnd & Hrg & Hst) _ Hmx].
  rewrite Hm in Hm'. injection Hm' as <-. rewrite Hp in Hpm.
  destruct cr as [|i' cr]; [by destruct jn |]. rewrite fmap_cons in Hpm. injection Hpm as <- ->.
  apply NoDup_cons in Hnd as [Hni Hnd]. apply Forall_cons in Hrg as [Hir Hrg]. unfold thread_num in Hir.
  assert (Hws : stat w = NotCreated) by (apply (Hst (Z.to_nat i) w); [lia | done | rewrite Z2Nat.id by lia; left]).
  destruct (live_start p (Z.to_nat i) w Hinv) as (H1 & H2 & H3 & [r H4]); [lia | done | done |].
  set (q := upd p (Z.to_nat i) (prog w) Running) in *.
  assert (Hm4 : threads q !! 4%nat = Some m) by (cbn [q upd setf threads]; by rewrite list_lookup_insert_ne by lia).
  assert (Hh : held p 4 = false).
  { pose proof (Hlk 4%nat m Hm) as Hx. unfold lock_ok in Hx. rewrite Hr, Hp in Hx. by apply (wfp_main cr jn) in Hx. }
  apply (live_main q m); try done; [by exists r | by apply wfp_main |].
  exists {| prog := (SCreate <$> cr) ++ (SJoin <$> jn); stat := Running |}, cr, jn. cbn [upd setf threads].
  split_and!; try done; [by apply list_lookup_insert_eq; lia |].
  intros t th Ht [[-> _]|[_ Hl]]%insert_cases; [lia |]. apply insert_cases in Hl as [[-> ->]|[Hne Hl]].
  - rewrite Z2Nat.id by lia. cbn [stat]. split; [done | by intros ?].
  - rewrite (Hst t th Ht Hl), elem_of_cons. split; [intros [Hx|?]; [lia | done] | by right].
Qed.

Lemma live_join p m i rest :
  live_inv p -> threads p !! 4%nat = Some m -> prog m = SJoin i :: rest -> live_inv (upd p 4 rest Running).
Proof.
  intros [Hlen Hlk Hwk (m' & cr & jn & Hm' & Hr & Hpm & Hnd & Hrg & Hst) Hb Hmx] Hm Hp.
  rewrite Hm in Hm'. injection Hm' as <-. rewrite Hp in Hpm.
  destruct cr as [|i' cr]; [| discriminate Hpm]. destruct jn as [|j jn]; [discriminate Hpm |]. injection Hpm as <- ->.
  assert (Hh : held p 4 = false).
  { pose proof (Hlk 4%nat m Hm) as Hx. unfold lock_ok in Hx. rewrite Hr, Hp in Hx. by apply (wfp_main [] (i :: jn)) in Hx. }
  apply (live_main p m); try done; [by apply (wfp_main [] jn) |].
  exists {| prog := SJoin <$> jn; stat := Running |}, [], jn. cbn [upd setf threads].
  split_and!; try done; [by apply list_lookup_insert_eq; lia | by apply Forall_cons in Hrg as [_ ?] |].
  intros t th Ht [[-> _]|[_ Hl]]%insert_cases; [lia | by apply Hst].
Qed.

(** Every step keeps the invariant. *)
Lemma live_step e p p' : id e = 0 -> live_inv p -> own_step e p p' -> live_inv p'.
Proof.
  intros Hid Hinv (tick & t & fs & calls & _ & (th & s & rest & Ht & Hl & Hrun & Hp & Hs)%exec_effect).
  revert Hl Hs. generalize (Z.to_nat t). clear t Ht. intros t Hl Hs.
  pose proof Hinv as [Hlen Hlk Hwk (m & cr & jn & Hm & Hmr & Hmp & _) _ Hmx].
  destruct (decide (t = 4%nat)) as [->|Hne].
  - rewrite Hm in Hl. injection Hl as <-. rewrite Hp in Hmp.
    destruct cr as [|i cr]; [destruct jn as [|i jn] |]; [discriminate Hmp |..]; injection Hmp as -> _; inversion Hs; subst.
    + by eapply live_join.
    + by eapply live_create.
  - assert (Ht : (t < 4)%nat) by (apply lookup_lt_Some in Hl; lia).
    pose proof (Hwk t th Ht Hl) as Hw. rewrite Hp in Hw. apply Forall_cons in Hw as [Hw _].
    pose proof (Hlk t th Hl) as Hx. unfold lock_ok in Hx. rewrite Hrun, Hp in Hx.
    destruct Hs; cbn [worker_stmt] in Hw; try discriminate Hw; cbn [wfp] in Hx.
    + destruct Hx as [Hx1 Hx2].
      eapply live_simple; try done; [intros t' Hn; unfold held in *; cbn [setf mtx] | unfold held; cbn [setf mtx]
        | unfold thread_num; intros z [= <-]; lia].
      * rewrite H, !bool_decide_false; [done | done | intros [= ?]; lia].
      * by rewrite bool_decide_true.
    + destruct Hx as [Hx1 Hx2].
      eapply live_simple; try done. intros t' Hn. unfold held in *. cbn [setf mtx].
      b2p. rewrite Hx1, !bool_decide_false; [done | intros [= ?]; lia | done].
    + by eapply live_simple.
    + rewrite Hid. cbn [Z.eqb app]. by eapply live_perf_last.
    + by eapply live_perf_wait.
    + subst q. by eapply live_perf_end.
    + by eapply live_simple.
    + by eapply live_simple.
Qed.

(** *** The measure *)

Definition weight (s : stmt) : nat := match s with SPerf => 6 | SPerfEnd => 2 | _ => 1 end.
Definition wprog (p : list stmt) : nat := list_sum (weight <$> p).

(** A waiting thread still has to be woken and to take the mutex. *)
Definition wthread (th : thread) : nat := wprog (prog th) + (if is_waiting th then 2 else 0).
Definition wproc (p : process) : nat := list_sum (wthread <$> threads p).

Lemma sum_insert {A} (f : A -> nat) l n x y :
  l !! n = Some x -> (list_sum (f <$> <[n := y]> l) + f x = list_sum (f <$> l) + f y)%nat.
Proof.
  revert n. induction l as [|z l IH]; intros [|n] H; try discriminate H.
  - injection H as ->. change (<[0%nat := y]> (x :: l)) with (y :: l). rewrite !fmap_cons. cbn [list_sum foldr]. lia.
  - change (<[S n := y]> (z :: l)) with (z :: <[n := y]> l). rewrite !fmap_cons. specialize (IH n H).
    cbn [list_sum foldr]. unfold list_sum in *. lia.
Qed.

Lemma wproc_upd p q t th prg st :
  threads p !! t = Some th -> threads q = threads p ->
  (wproc (upd q t prg st) + wthread th = wproc p + wthread {| prog := prg; stat := st |})%nat.
Proof.
  intros Hl Hth. unfold wproc. cbn [upd setf threads]. rewrite Hth.
  exact (sum_insert wthread (threads p) t th {| prog := prg; stat := st |} Hl).
Qed.

Lemma wprog_cons s p : wprog (s :: p) = (weight s + wprog p)%nat.
Proof. done. Qed.

Lemma wthread_running prg : wthread {| prog := prg; stat := Running |} = wprog prg.
Proof. unfold wthread, is_waiting. rewrite bool_decide_false by done. cbn [prog]. lia. Qed.

Lemma wthread_waiting th : stat th = Waiting -> wthread th = (wprog (prog th) + 2)%nat.
Proof. intros Hw. unfold wthread, is_waiting. by rewrite bool_decide_true. Qed.

Lemma wthread_wake th : (wthread (wake_waiting th) <= wthread th)%nat.
Proof.
  unfold wake_waiting. case_decide as Hw; [| done]. rewrite wthread_running, (wthread_waiting th Hw), wprog_cons. cbn [weight]. lia.
Qed.

Lemma sum_wake l : (list_sum (wthread <$> (wake_waiting <$> l)) <= list_sum (wthread <$> l))%nat.
Proof.
  induction l as [|x l IH]; [done |]. rewrite !fmap_cons. cbn [list_sum foldr] in *. unfold list_sum in *.
  pose proof (wthread_wake x). lia.
Qed.

(** No thread of a launched process on chiplet 0 polls the channel. *)
Definition no_spin (p : process) : Prop := Forall (fun th => SSpin ∉ prog th) (threads p).

(** A step of a thread, or a spurious wake-up. *)
Definition any_step (e : env) (p p' : process) : Prop := own_step e p p' \/ exists t, spurious t p = Some p'.

Lemma own_no_spin e p p' : id e = 0 -> no_spin p -> own_step e p p' -> no_spin p'.
Proof.
  intros Hid Hn (tick & t & fs & calls & _ & (th & s & rest & Ht & Hl & Hrun & Hp & Hs)%exec_effect).
  pose proof (Forall_lookup_1 _ _ _ _ Hn Hl) as Hth. cbn in Hth. rewrite Hp in Hth. apply not_elem_of_cons in Hth as [Hs' Hr].
  assert (forall q prg st, no_spin q -> SSpin ∉ prg -> no_spin (upd q (Z.to_nat t) prg st)) as Hu
    by (intros q prg st Hq Hprg; by apply Forall_insert).
  destruct Hs; try done; try (by apply Hu).
  - apply Hu; [| done]. apply Forall_insert; [done |]. exact (Forall_lookup_1 _ _ _ _ Hn H0).
  - apply Hu; [done |]. rewrite Hid. cbn [Z.eqb app]. by apply not_elem_of_cons.
  - subst q. apply Forall_fmap. eapply Forall_impl; [apply (Hu _ rest Running); [exact Hn | done] |]. intros x Hx. cbn.
    unfold wake_waiting. case_decide; [| done]. by apply not_elem_of_cons.
Qed.

Lemma wproc_own e p p' : id e = 0 -> no_spin p -> own_step e p p' -> (wproc p' < wproc p)%nat.
Proof.
  intros Hid Hn (tick & t & fs & calls & _ & (th & s & rest & Ht & Hl & Hrun & Hp & Hs)%exec_effect).
  revert Hl Hs. generalize (Z.to_nat t). clear t Ht. intros t Hl Hs.
  assert (Hwt : wthread th = (weight s + wprog rest)%nat) by (unfold wthread, is_waiting; rewrite bool_decide_false, Hp, wprog_cons by congruence; lia).
  assert (Hdec : forall q prg st, threads q = threads p -> (wthread {| prog := prg; stat := st |} < weight s + wprog rest)%nat ->
            (wproc (upd q t prg st) < wproc p)%nat).
  { intros q prg st Hth Hw. pose proof (wproc_upd p q t th prg st Hl Hth) as Hx. lia. }
  assert (Hpos : (1 <= weight s)%nat) by (destruct s; cbn; lia).
  assert (Hgo : (wthread {| prog := rest; stat := Running |} < weight s + wprog rest)%nat) by (rewrite wthread_running; lia).
  pose proof (Forall_lookup_1 _ _ _ _ Hn Hl) as Hspin. cbn in Hspin. rewrite Hp in Hspin. apply not_elem_of_cons in Hspin as [Hspin _].
  destruct Hs; try done; try (apply Hdec; done); cbn [weight] in *.
  - pose proof (wproc_upd p p (Z.to_nat i) w (prog w) Running H0 eq_refl) as Hw.
    set (q := upd p (Z.to_nat i) (prog w) Running) in *.
    assert (wthread {| prog := prog w; stat := Running |} <= wthread w)%nat as Hle by (rewrite wthread_running; unfold wthread; lia).
    assert (exists th', threads q !! t = Some th' /\ wthread th' = wthread th) as (th' & Hl' & Hp').
    { cbn [q upd setf threads]. destruct (decide (t = Z.to_nat i)) as [->|Hne].
      - rewrite Hl in H0. injection H0 as <-. eexists. rewrite list_lookup_insert_eq by (by eapply lookup_lt_Some). split; [done |].
        rewrite wthread_running, Hwt, Hp, wprog_cons. done.
      - rewrite list_lookup_insert_ne by done. eauto. }
    pose proof (wproc_upd q q t th' rest Running Hl' eq_refl) as Hx. lia.
  - apply Hdec; [done |]. rewrite Hid. cbn [Z.eqb app]. rewrite wthread_running, wprog_cons. cbn [weight]. lia.
  - apply Hdec; [done |]. rewrite wthread_waiting by done. cbn [prog]. lia.
  - subst q. unfold wproc at 1. cbn [setf threads]. eapply Nat.le_lt_trans; [apply sum_wake |]. by apply Hdec.
Qed.

Lemma any_step_finite e p p' : id e = 0 -> no_spin p -> any_step e p p' -> no_spin p' /\ (wproc p' < wproc p)%nat.
Proof.
  intros Hid Hn [Hs|[t (th & Hl & Hw & ->)%spurious_thread]]; [split; [by eapply own_no_spin | by eapply wproc_own] |]. split.
  - apply Forall_insert; [done |]. cbn [prog]. apply not_elem_of_cons. split; [done |]. exact (Forall_lookup_1 _ _ _ _ Hn Hl).
  - pose proof (wproc_upd p p t th (SLock :: prog th) Running Hl eq_refl) as Hx. unfold upd in Hx.
    rewrite wthread_running, (wthread_waiting th Hw), wprog_cons in Hx. cbn [weight] in Hx. lia.
Qed.

(** *** Progress *)

Lemma step_intro e p t th s rest calls p' :
  threads p !! t = Some th -> stat th = Running -> prog th = s :: rest ->
  exec e 0 (Z.of_nat t) ∅ p = Ok (Some (calls, p')) -> own_step e p p'.
Proof. intros _ _ _ H. exists 0, (Z.of_nat t), ∅, calls. done. Qed.

(** A running thread can execute the statement it is at, unless it has to wait
    for the mutex. *)
Lemma can_step e p t th s rest :
  env_ok e -> Z.of_nat (length (matrix3 p)) = N e * N e -> threads p !! t = Some th -> stat th = Running ->
  prog th = s :: rest -> worker_stmt s = true -> stmt_ok e s -> (s = SLock -> mtx p = None) ->
  exists p', own_step e p p'.
Proof.
  intros He Hm Hl Hr Hp Hw Hok Hlock.
  assert (Hlen : (t < length (threads p))%nat) by (by eapply lookup_lt_Some).
  assert (Hset : forall q prg st, length (threads q) = length (threads p) -> exists q',
            set_thread q (Z.of_nat t) {| prog := prg; stat := st |} = Ok q').
  { intros q prg st Hq. eexists. apply set_thread_Ok. split; [lia | reflexivity]. }
  enough (exists calls p', exec e 0 (Z.of_nat t) ∅ p = Ok (Some (calls, p'))) as (calls & p' & Hx)
    by (exists p'; by eapply step_intro).
  unfold exec. rewrite (vget_nat _ _ _ Hl). rsimpl. rewrite Hr, bool_decide_true, Hp by done. cbn [negb].
  assert (Hgo : forall q prg st calls f, length (threads q) = length (threads p) ->
            exists c p', (x ← set_thread q (Z.of_nat t) {| prog := prg; stat := st |}; Ok (Some (calls, f x)))
              = Ok (Some (c : list op, p' : process))).
  { intros q prg st calls f Hq. destruct (Hset q prg st Hq) as [q' ->]. by do 2 eexists. }
  destruct s; try discriminate Hw; cbn [stmt_ok] in Hok.
  - rewrite Hlock by done. by apply (Hgo _ _ _ _ (fun x => x)).
  - by apply (Hgo _ _ _ _ (fun x => x)).
  - by apply (Hgo _ _ _ _ (fun x => x)).
  - destruct (_ =? 0); by apply (Hgo _ _ _ _ (fun x => x)).
  - by apply Hgo.
  - destruct (accumulate_ok e (matrix3 p) cell k He Hm Hok) as (v & _ & ->). rsimpl. by apply (Hgo _ _ _ _ (fun x => x)).
  - destruct (vget_is_ok (matrix3 p) cell) as [v ->]; [lia |]. rsimpl. by apply (Hgo _ _ _ _ (fun x => x)).
Qed.

(** Main can create and join. *)
Lemma can_main e p m s rest :
  length (threads p) = 5%nat -> threads p !! 4%nat = Some m -> stat m = Running -> prog m = s :: rest ->
  (exists i, s = SCreate i /\ 0 <= i < thread_num) \/
  (exists i w, s = SJoin i /\ 0 <= i /\ threads p !! Z.to_nat i = Some w /\ prog w = []) ->
  exists p', own_step e p p'.
Proof.
  intros Hlen Hm Hr Hp Hs. unfold thread_num in Hs.
  enough (exists calls p', exec e 0 4 ∅ p = Ok (Some (calls, p'))) as (calls & p' & Hx)
    by (exists p'; eapply (step_intro e p 4); [exact Hm | exact Hr | exact Hp | exact Hx]).
  unfold exec. rewrite (vget_nat _ 4 _ Hm : vget (threads p) 4 = Ok m). rsimpl.
  rewrite Hr, bool_decide_true, Hp by done. cbn [negb].
  destruct Hs as [(i & -> & Hi)|(i & w & -> & Hi & Hw & Hn)].
  - destruct (vget_is_ok (threads p) i) as [w Hw]; [lia |]. rewrite Hw. rsimpl. unfold set_thread.
    destruct (vset_is_ok (threads p) i {| prog := prog w; stat := Running |}) as [l Hl]; [lia |]. rewrite Hl. rsimpl.
    apply vset_length in Hl. cbn [setf threads].
    destruct (vset_is_ok l 4 {| prog := rest; stat := Running |}) as [l' ->]; [lia |]. rsimpl. by do 2 eexists.
  - assert (vget (threads p) i = Ok w) as -> by (by apply vget_Ok). rsimpl. rewrite bool_decide_true by done.
    unfold set_thread. destruct (vset_is_ok (threads p) 4 {| prog := rest; stat := Running |}) as [l' ->]; [lia |].
    rsimpl. by do 2 eexists.
Qed.

(** If fewer than four threads wait, some worker does not. *)
Lemma arrived_one p m :
  length (threads p) = 5%nat -> threads p !! 4%nat = Some m -> stat m = Running -> (nwait p < 4)%nat ->
  exists t th, (t < 4)%nat /\ threads p !! t = Some th /\ stat th <> Waiting.
Proof.
  intros Hlen Hm Hr Hn. unfold nwait in Hn.
  destruct (threads p) as [|a [|b [|c [|d [|m' [|]]]]]] eqn:E; try discriminate Hlen.
  destruct (decide (stat a = Waiting)) as [Ha|]; [| by exists 0%nat, a; auto with lia].
  destruct (decide (stat b = Waiting)) as [Hb|]; [| by exists 1%nat, b; auto with lia].
  destruct (decide (stat c = Waiting)) as [Hc|]; [| by exists 2%nat, c; auto with lia].
  destruct (decide (stat d = Waiting)) as [Hd|]; [| by exists 3%nat, d; auto with lia].
  exfalso. revert Hn. cbn [List.filter]. unfold is_waiting. rewrite !(bool_decide_true (_ = Waiting)) by done.
  destruct (bool_decide _); cbn [length]; lia.
Qed.

Lemma live_progress e p :
  env_ok e -> live_inv p -> Z.of_nat (length (matrix3 p)) = N e * N e ->
  (forall t th, threads p !! t = Some th -> Forall (stmt_ok e) (prog th)) ->
  finished p \/ exists p', own_step e p p'.
Proof.
  intros He [Hlen Hlk Hwk (m & cr & jn & Hm & Hmr & Hmp & Hnd & Hrg & Hst) [r Hb] Hmx] Hm3 Hok.
  assert (Hrun : forall t th s rest, (t < 4)%nat -> threads p !! t = Some th -> stat th = Running -> prog th = s :: rest ->
            (s = SLock -> mtx p = None) -> exists p', own_step e p p').
  { intros t th s rest Ht Hl Hr Hp Hlock. pose proof (Hwk t th Ht Hl) as Hw. pose proof (Hok t th Hl) as Ho.
    rewrite Hp in Hw, Ho. apply Forall_cons in Hw as [Hw _]. apply Forall_cons in Ho as [Ho _].
    by eapply can_step. }
  destruct Hb as [Hcnt Hpos Ha|t th rs Ht Hl Hs Hp _ _ _ _]; [| right; by eapply Hrun].
  assert (Hex : forall t, (t < 4)%nat -> exists th, threads p !! t = Some th)
    by (intros t Ht; apply lookup_lt_is_Some_2; lia).
  destruct (mtx p) as [z|] eqn:Emx.
  { (** the holder of the mutex can move *)
    right. specialize (Hmx z eq_refl). unfold thread_num in Hmx. destruct (Hex (Z.to_nat z)) as [th Hl]; [lia |].
    pose proof (Hlk _ _ Hl) as Hx.
    assert (Hh : held p (Z.to_nat z) = true) by (unfold held; rewrite Emx, Z2Nat.id by lia; by apply bool_decide_true).
    unfold lock_ok in Hx. rewrite Hh in Hx. destruct (stat th) eqn:Es; [by destruct Hx | | by destruct Hx].
    destruct (prog th) as [|s rest] eqn:Ep; [done |]. eapply (Hrun (Z.to_nat z)); [lia | done | done | done |].
    intros ->. by destruct Hx. }
  (** some running worker has work left *)
  destruct (decide (Exists (fun th => stat th = Running /\ prog th <> []) (take 4 (threads p)))) as [Hex1|Hno].
  { right. apply Exists_exists in Hex1 as (th & [t Hl]%list_elem_of_lookup & Hs & Hn).
    apply lookup_take_Some in Hl as [Hl Ht]. destruct (prog th) as [|s rest] eqn:Ep; [done |]. by eapply (Hrun t). }
  assert (Hidle : forall t th, (t < 4)%nat -> threads p !! t = Some th -> stat th = Running -> prog th = []).
  { intros t th Ht Hl Hs. destruct (decide (prog th = [])) as [|Hn]; [done |]. exfalso. apply Hno, Exists_exists.
    exists th. split; [| done]. apply list_elem_of_lookup. exists t. by rewrite lookup_take_lt. }
  destruct cr as [|i cr].
  2:{ (** some worker is not created *)
      right. apply Forall_app in Hrg as [Hrg _]. apply Forall_cons in Hrg as [Hi _].
      eapply (can_main e p m); [done | done | done | by rewrite Hmp | left; by exists i]. }
  (** nobody waits: the last to arrive would still have to *)
  assert (Hall : forall t th, (t < 4)%nat -> threads p !! t = Some th -> stat th = Running /\ prog th = []).
  { assert (Hnw : forall t th, (t < 4)%nat -> threads p !! t = Some th -> stat th <> NotCreated).
    { intros t th Ht Hl Hs. apply (Hst t th Ht Hl) in Hs. by apply elem_of_nil in Hs. }
    assert (Hr0 : r = 0%nat).
    { destruct (arrived_one p m) as (t & th & Ht & Hl & Hw); [done.. | unfold thread_num in Hcnt; lia |].
      destruct (Ha t th Ht Hl) as [_ Hn]. unfold is_waiting in Hn. rewrite bool_decide_false in Hn by done.
      rewrite (Hidle t th Ht Hl) in Hn; [cbn in Hn; lia |]. specialize (Hnw t th Ht Hl). by destruct (stat th). }
    intros t th Ht Hl. assert (stat th = Running) as Hs; [| split; [done | by eapply Hidle]].
    specialize (Hnw t th Ht Hl). destruct (stat th) eqn:Es; [done | done |]. exfalso.
    destruct (Ha t th Ht Hl) as [_ Hn]. unfold is_waiting in Hn. rewrite bool_decide_true in Hn by done. lia. }
  destruct jn as [|i jn].
  - left. apply Forall_lookup. intros t th Hl. destruct (decide (t = 4%nat)) as [->|Hne].
    + rewrite Hm in Hl. injection Hl as <-. done.
    + apply (Hall t th); [apply lookup_lt_Some in Hl; lia | done].
  - right. apply Forall_cons in Hrg as [Hi _]. unfold thread_num in Hi. destruct (Hex (Z.to_nat i)) as [w Hw]; [lia |].
    eapply (can_main e p m); [done | done | done | by rewrite Hmp |]. right. exists i, w.
    split_and!; [done | lia | done | by apply (Hall (Z.to_nat i) w); [lia |]].
Qed.

(** *** The launched process *)

Lemma wfp_data b p q : Forall (fun s => is_data s = true) p -> wfp b (p ++ q) <-> wfp b q.
Proof. induction 1 as [|s p Hs _ IH]; [done |]. destruct s; try discriminate Hs; exact IH. Qed.

Lemma nperf_data p q : Forall (fun s => is_data s = true) p -> nperf (p ++ q) = nperf q.
Proof.
  induction 1 as [|s p Hs _ IH]; [done |]. cbn [app]. rewrite nperf_cons, decide_False; [done |].
  intros ->. discriminate Hs.
Qed.

Lemma caculate_data e off len : Forall (fun s => is_data s = true) (caculate e off len).
Proof. apply Forall_forall. intros s (i & k & -> & _)%elem_of_caculate. done. Qed.

Lemma sends_data l : Forall (fun s => is_data s = true) (SSend <$> l).
Proof. apply Forall_fmap, Forall_forall. done. Qed.

(** A worker program is data statements between synchronisation. *)
Lemma matrix_parallel_shape e off len :
  matrix_parallel e off len =
    [SLock; SAffinity; SUnlock; SLock; SPerf; SUnlock] ++ caculate e off len ++
    SLock :: (SSend <$> seqZ off len) ++ [SUnlock; SLock; SPerf; SUnlock].
Proof. unfold matrix_parallel, toWrite. rewrite toWrite_sends. cbn [app perf_cycle]. by rewrite <- app_assoc. Qed.

Lemma worker_live e off len :
  wfp false (matrix_parallel e off len) /\ nperf (matrix_parallel e off len) = 2%nat /\
  SPerfEnd ∉ matrix_parallel e off len /\ Forall (fun s => worker_stmt s = true) (matrix_parallel e off len).
Proof.
  rewrite matrix_parallel_shape.
  assert (Hd : forall l, Forall (fun s => is_data s = true) l -> Forall (fun s => worker_stmt s = true /\ s <> SPerfEnd) l).
  { intros l Hl. eapply Forall_impl; [exact Hl |]. intros s Hs. by destruct s. }
  assert (Hall : Forall (fun s => worker_stmt s = true /\ s <> SPerfEnd)
            ([SLock; SAffinity; SUnlock; SLock; SPerf; SUnlock] ++ caculate e off len ++
             SLock :: (SSend <$> seqZ off len) ++ [SUnlock; SLock; SPerf; SUnlock])).
  { apply Forall_app. split; [by repeat constructor |]. apply Forall_app. split; [apply Hd, caculate_data |].
    apply Forall_cons. split; [done |]. apply Forall_app. split; [apply Hd, sends_data | by repeat constructor]. }
  split_and!.
  - cbn [app wfp]. do 6 (split; [done |] || idtac). rewrite wfp_data by apply caculate_data. cbn [wfp].
    split; [done |]. rewrite wfp_data by apply sends_data. by cbn.
  - rewrite nperf_app, nperf_data by apply caculate_data.
    change (nperf (SLock :: ?l)) with (nperf l). rewrite nperf_data by apply sends_data. done.
  - intros Hin. by apply (proj1 (Forall_forall _ _) Hall) in Hin as [_ ?].
  - eapply Forall_impl; [exact Hall |]. by intros s [? _].
Qed.

Lemma launched_lookup e t th :
  threads (launched e) !! t = Some th ->
  (t < 4)%nat /\ th = worker e (Z.of_nat t) \/
  t = 4%nat /\ th = {| prog := (SCreate <$> upto thread_num) ++ (SJoin <$> upto thread_num); stat := Running |}.
Proof.
  unfold launched. cbn [setf threads]. change (upto thread_num) with [0; 1; 2; 3].
  do 4 (destruct t as [|t]; [intros [= <-]; left; split; [lia | reflexivity] |]).
  destruct t as [|t]; [intros [= <-]; by right | by destruct t].
Qed.

Lemma launched_live e : live_inv (launched e).
Proof.
  assert (Hw : forall t th, (t < 4)%nat -> threads (launched e) !! t = Some th -> th = worker e (Z.of_nat t)).
  { intros t th Ht [[_ ->]|[-> _]]%launched_lookup; [done | lia]. }
  split.
  - done.
  - intros t th [[_ ->]|[-> ->]]%launched_lookup; [| done]. split; [apply worker_live | done].
  - intros t th Ht ->%Hw; [| done]. apply worker_live.
  - exists {| prog := (SCreate <$> upto thread_num) ++ (SJoin <$> upto thread_num); stat := Running |}, (upto thread_num),
      (upto thread_num). split_and!; try done; [apply NoDup_seqZ | |].
    + apply Forall_forall. intros i. rewrite elem_of_app, elem_of_upto. tauto.
    + intros t th Ht ->%Hw; [| done]. split; [intros _ | done]. apply elem_of_upto. unfold thread_num. lia.
  - exists 2%nat. apply filling; [done | done |]. intros t th Ht ->%Hw; [| done].
    destruct (worker_live e (thread_offset e (Z.of_nat t)) (thread_length e)) as (_ & Hn & Hp & _).
    split; [exact Hp |]. change (is_waiting _) with false. cbv iota. cbn [worker prog]. lia.
  - done.
Qed.

Lemma launched_no_spin e : no_spin (launched e).
Proof.
  apply Forall_lookup. intros t th [[_ ->]|[_ ->]]%launched_lookup.
  - intros Hin. destruct (worker_live e (thread_offset e (Z.of_nat t)) (thread_length e)) as (_ & _ & _ & Hw).
    by apply (proj1 (Forall_forall _ _) Hw) in Hin.
  - cbn [prog]. rewrite elem_of_app, !list_elem_of_fmap. naive_solver.
Qed.

(** A run without spurious wake-ups keeps the invariants. *)
Lemma own_steps_inv (e : env) (n : nat) (p : process) :
  env_ok e -> id e = 0 -> nsteps (own_step e) n (launched e) p ->
  live_inv p /\ quiet p /\ exists tr, dinv e (goal_of e) (my_cells e) (matrix3 p) (datas p) tr.
Proof.
  intros He Hid. revert p. induction n as [|n IH]; intros p Hn.
  - inversion Hn; subst. split_and!; [apply launched_live | |].
    + pose proof (quiet_start e (zeros e)) as Hq. unfold quiet, start in Hq. cbn [threads] in Hq.
      apply Forall_app in Hq as [Hq _]. unfold quiet, launched. cbn [setf threads]. apply Forall_app. split; [done |].
      apply Forall_singleton. cbn [prog]. apply Forall_app. split; apply Forall_fmap, Forall_forall; by intros i ?%elem_of_upto.
    + exists []. exact (dinv_start e He).
  - apply nsteps_inv_r in Hn as (p1 & (Hl & Hq & [tr Hd])%IH & Hstep).
    pose proof (live_step e p1 p Hid Hl Hstep) as Hl2. destruct Hstep as (tick & t & fs & calls & _ & Hx).
    destruct (exec_data _ _ _ _ _ _ _ Hq Hx) as [Hds Hq2]. split_and!; [done | done |].
    exists (tr ++ calls). by eapply dinv_step.
Qed.

Lemma own_progress (e : env) (n : nat) (p : process) :
  env_ok e -> id e = 0 -> nsteps (own_step e) n (launched e) p -> finished p \/ exists p', own_step e p p'.
Proof.
  intros He Hid Hn. destruct (own_steps_inv e n p He Hid Hn) as (Hl & Hq & [tr Hd]).
  apply live_progress; [done | done | apply (di_len _ _ _ _ _ _ Hd) |].
  intros t th Hlk. pose proof (datas_lookup p t th Hlk) as Hdl.
  pose proof (Forall_lookup_1 _ _ _ _ (di_ok _ _ _ _ _ _ Hd) Hdl) as Hok.
  apply Forall_forall. intros s Hs. destruct (is_data s) eqn:E; [| by destruct s].
  apply (proj1 (Forall_forall _ _) Hok). unfold data. apply list_elem_of_In, List.filter_In. split; [by apply list_elem_of_In | done].
Qed.

(** C23.  Termination: once a process with id 0 has launched its threads, every
    execution is finite, whatever the scheduler does and however often
    [pthread_cond_wait] returns spuriously.  And an execution without spurious
    wake-ups gets on until all threads have finished: as long as one has not,
    some thread can move.  (With a spurious wake-up it need not:
    [spurious_wakeup_deadlocks].) *)
Theorem matrix_terminates (e : env) (n : nat) (p : process) :
  env_ok e -> id e = 0 -> nsteps (any_step e) n (launched e) p ->
  (n + wproc p <= wproc (launched e))%nat /\
  (nsteps (own_step e) n (launched e) p -> finished p \/ exists p', own_step e p p').
Proof.
  intros He Hid Hn. split; [| by apply own_progress].
  enough (no_spin p /\ (n + wproc p <= wproc (launched e))%nat) by tauto. revert p Hn.
  induction n as [|n IH]; intros p Hn; [inversion Hn; subst; split; [apply launched_no_spin | lia] |].
  apply nsteps_inv_r in Hn as (p1 & [Hs Hk]%IH & Hstep). destruct (any_step_finite e p1 p Hid Hs Hstep). split; [done | lia].
Qed.

(** The threads named in the schedule make their steps; a negative number
    [- t - 1] wakes thread [t] spuriously. *)
Fixpoint replay (e : env) (sched : list Z) (p : process) : option process :=
  match sched with
  | [] => Some p
  | t :: sched =>
      if t <? 0 then match spurious (Z.to_nat (- t - 1)) p with Some p => replay e sched p | None => None end
      else match exec e 0 t ∅ p with Ok (Some (_, p)) => replay e sched p | _ => None end
  end.

Lemma replay_steps e sched : forall p p', replay e sched p = Some p' -> nsteps (any_step e) (length sched) p p'.
Proof.
  induction sched as [|t sched IH]; intros p p' H; cbn [replay] in H; [injection H as ->; constructor |]. cbn [length].
  destruct (t <? 0).
  - destruct (spurious _ p) as [q|] eqn:E; [| done]. econstructor; [right; by eexists | by apply IH].
  - destruct (exec e 0 t ∅ p) as [[[calls q]|]|] eqn:E; try done. econstructor; [left; by exists 0, t, ∅, calls | by apply IH].
Qed.

Lemma matrix_terminates_witness :
  exists p, nsteps (any_step demo) 5 (launched demo) p /\ (5 + wproc p <= wproc (launched demo))%nat /\
    (finished (launched demo) \/ exists p', own_step demo (launched demo) p').
Proof.
  assert (He : env_ok demo) by (split; cbn; (lia || auto)).
  destruct (replay demo [4; 0; 0; 0; 0] (launched demo)) as [p|] eqn:E; [| vm_compute in E; discriminate].
  pose proof (replay_steps demo _ _ _ E) as Hn. exists p. split; [exact Hn |]. split.
  - apply (matrix_terminates demo 5 p He eq_refl Hn).
  - apply (matrix_terminates demo 0 (launched demo) He eq_refl (nsteps_O _ _)). constructor.
Defined.

(** *** A spurious wake-up *)

(** Thread 0 is woken while it waits for the others to arrive, computes, sends
    and counts itself a second time at the first barrier.  Thread 2 then passes
    as the fourth, and thread 3 is left waiting with only three to come. *)
Definition stuck_sched : list Z :=
  replicate 4 4 ++ replicate 5 0 ++ [-1] ++ replicate 16 0 ++ replicate 5 1 ++ replicate 7 2 ++ replicate 2 0 ++
  replicate 16 1 ++ replicate 14 2 ++ replicate 5 3 ++ [4].

(** One spurious wake-up can block the process for good: after it three
    workers wait for a broadcast, the main thread waits for them, and no thread
    can move. *)
Theorem spurious_wakeup_deadlocks :
  exists p, length (List.filter (fun t => t <? 0) stuck_sched) = 1%nat /\
    nsteps (any_step demo) (length stuck_sched) (launched demo) p /\ ~ finished p /\ forall p', ~ own_step demo p p'.
Proof.
  destruct (replay demo stuck_sched (launched demo)) as [p|] eqn:E; [| vm_compute in E; discriminate].
  pose proof (replay_steps demo _ _ _ E) as Hn. exists p. split; [reflexivity |]. split; [exact Hn |]. clear Hn.
  vm_compute in E. injection E as <-. split.
  - intros Hf. apply Forall_cons in Hf as [_ Hf]. apply Forall_cons in Hf as [Hf _]. discriminate Hf.
  - intros p' (tick & t & fs & calls & _ & (th & s & rest & _ & Hl & Hr & Hp & Hs)%exec_effect).
    destruct (Z.to_nat t) as [|[|[|[|[|n]]]]]; cbn in Hl; try discriminate Hl; injection Hl as <-; try discriminate Hr; try discriminate Hp.
    injection Hp as <- <-. inversion Hs as [| | | |i w Hi Hw Hnil| | | | | | | |]; subst. cbn in Hw. injection Hw as <-. discriminate Hnil.
Qed.
