(* ===== verification/TreeBench.v ===== *)
(** * The graph search benchmark of the fork

    Models [benchmark/treeSearching/test01.cpp]: the graph read from
    [data.csv] into an adjacency matrix, the breadth-first search of the main
    thread, the queue access of the worker threads ([unsafeGetData]), their
    [my_DFS], and the thread that polls the other chiplet ([checkThread]).

    The thread of [normalBFS_for_test] is a step function: it waits at the
    barrier, searches one vertex a step, and then waits for [subThread].  Other
    threads act on it through the barrier and [subThread] only; that workers
    take vertices from the queue meanwhile is not modelled.  The other functions
    are sequential: each is modelled as it runs without another thread in
    between.  Global variables are the fields of [globals]; the
    vertex count [totalVertex] and the line count are constants of the source
    and parameters here.  A pseudo instruction is returned as a call.  Output,
    timing and the mutexes, which are taken and released inside one function,
    are not modelled; neither is [Idon_tKnowHow2Quit], which only decides when a
    worker sleeps.

    The theorems: the edge list is read into a symmetric matrix; the search,
    which starts when the barrier opens, ends, stays in bounds, visits exactly
    the vertices reachable from the root in breadth-first order and sends each
    of them but the root to chiplet 0 once; [my_DFS] marks vertices without
    looking at the graph; and the polling thread writes outside its array. *)
From S2P Require Import Prelude IoStream Gadia.

Record globals := {
  totalNode : list Z;
  resultNode : list Z;
  bfsQueue : list Z;
  bfsQueue_length : Z;
  bfsQueue_counter : Z;
  visited : list bool;
  mainThread : bool;
  subThread : bool
}.

#[export] Instance globals_eta : Eta globals := {| eta := fun g =>
  {| totalNode := totalNode g; resultNode := resultNode g; bfsQueue := bfsQueue g;
     bfsQueue_length := bfsQueue_length g; bfsQueue_counter := bfsQueue_counter g;
     visited := visited g; mainThread := mainThread g; subThread := subThread g |} |}.

Section Search.
Context (totalVertex : Z).

(** ** The graph *)

Definition connectNode (number1 number2 : Z) (num : list Z) : res (list Z) :=
  let postion1 := i32 (i32 (number1 * totalVertex) + number2) in
  let position2 := i32 (i32 (number2 * totalVertex) + number1) in
  num ← vset num position2 1;
  vset num postion1 1.

(** [fscanf(file, "%d")]: what was read, [None] on a matching failure, and
    [EOF] if the input ended before. *)
Inductive scanned := Eof | Mismatch | Got (x : Z).

Definition scan_int (l : chars) : scanned * chars :=
  match skip_ws l with
  | [] => (Eof, [])
  | l =>
      let '(neg, l1) := parse_sign l in
      let '(n, v, l2) := parse_digits l1 0 0 in
      match n with
      | O => (Mismatch, l2)
      | S _ => (Got (i32 (if neg : bool then - v else v)), l2)
      end
  end.

Definition comma : ascii := chr 44.

(** [fscanf(file, "%d,%d", &a, &b)]: the pair if both were read, [None] at the
    end of the input; the code reads both variables whenever the result is not
    [EOF]. *)
Definition scan_pair (l : chars) : res (option (Z * Z) * chars) :=
  match scan_int l with
  | (Eof, l) => Ok (None, l)
  | (Mismatch, _) => Err EUninit
  | (Got a, c :: l) =>
      if bool_decide (c = comma) then
        match scan_int l with (Got b, l) => Ok (Some (a, b), l) | _ => Err EUninit end
      else Err EUninit
  | (Got a, []) => Err EUninit
  end.

(** The loop over at most [lines] lines, left at the end of the file. *)
Fixpoint read_edges (lines : nat) (l : chars) (num : list Z) : res (list Z) :=
  match lines with
  | O => Ok num
  | S lines =>
      r ← scan_pair l;
      match r with
      | (None, _) => Ok num
      | (Some (a, b), l) => num ← connectNode a b num; read_edges lines l num
      end
  end.

Definition initVetex : list Z := replicate (Z.to_nat (totalVertex * totalVertex)) 0.

(** [content] is the file; the first 13 characters are skipped. *)
Definition initGraph (totalFileLine : nat) (content : chars) : res (list Z) :=
  read_edges totalFileLine (drop 13 content) initVetex.

(** The queue is not allocated yet. *)
Definition init (totalFileLine : nat) (content : chars) : res globals :=
  num ← initGraph totalFileLine content;
  Ok {| totalNode := num; resultNode := initVetex; bfsQueue := [];
        bfsQueue_length := 0; bfsQueue_counter := 0; visited := replicate (Z.to_nat totalVertex) false;
        mainThread := false; subThread := false |}.

(** ** The queue *)

Fixpoint in_line (fuel : nat) (id : Z) (myStack : list Z) (counter : Z) : res bool :=
  match fuel with
  | O => Err EFuel
  | S fuel =>
      if counter =? totalVertex then Ok false
      else
        x ← vget myStack counter;
        if x =? -1 then Ok false
        else if x =? id then Ok true
        else in_line fuel id myStack (counter + 1)
  end.

(** Every iteration moves one position on, up to [totalVertex]. *)
Definition whertherInLine (id : Z) (myStack : list Z) (counter : Z) : res bool :=
  in_line (S (Z.to_nat (totalVertex - counter))) id myStack counter.

(** The [m5_gadia_call(0, 0, v, 0)] of the source. *)
Definition report (tick v : Z) : op := OCall tick 0 0 (u64 v) 0.

Definition push_neighbour (tick id : Z) (st : globals * list op) (i : Z) : res (globals * list op) :=
  let '(g, calls) := st in
  edge ← vget (totalNode g) (i32 (i32 (id * totalVertex) + i));
  if edge =? 1 then
    v ← vget (visited g) i;
    if negb v then
      inq ← whertherInLine i (bfsQueue g) 0;
      if negb inq then
        q ← vset (bfsQueue g) (bfsQueue_length g) i;
        Ok (g ⟨ bfsQueue := q ⟩ ⟨ bfsQueue_length := bfsQueue_length g + 1 ⟩, calls ++ [report tick i])
      else Ok (g, calls)
    else Ok (g, calls)
  else Ok (g, calls).

Definition processCurrentNode (tick id : Z) (g : globals) : res (globals * list op) :=
  seen ← vget (visited g) id;
  if (seen : bool) then Ok (g, [])
  else
    vs ← vset (visited g) id true;
    foldM (push_neighbour tick id) (upto totalVertex) (g ⟨ visited := vs ⟩, []).

(** The result and the new counter; -1 stands for nothing to do. *)
Definition unsafeGetData (isMain : bool) (g : globals) : res (Z * globals) :=
  if (negb isMain && (bfsQueue_length g - bfsQueue_counter g <=? 2))%bool then Ok (-1, g)
  else
    x ← vget (bfsQueue g) (bfsQueue_counter g);
    if ((x =? -1) || (bfsQueue_counter g =? totalVertex))%bool then Ok (-1, g)
    else if bfsQueue_counter g =? bfsQueue_length g then Ok (-1, g)
    else
      tmp ← vget (bfsQueue g) (bfsQueue_counter g);
      Ok (tmp, g ⟨ bfsQueue_counter := bfsQueue_counter g + 1 ⟩).

(** ** The search of the main thread *)

(** One iteration of the loop on vertex [previous]: the next vertex, [None]
    when the loop is left, and the calls made. *)
Definition bfs_iter (tick previous : Z) (g : globals) : res (globals * option Z * list op) :=
  r ← processCurrentNode tick previous g;
  let '(g, calls) := r in
  x ← vget (bfsQueue g) (bfsQueue_counter g);
  if ((x =? -1) || (bfsQueue_counter g =? totalVertex))%bool then Ok (g, None, calls)
  else
    r ← unsafeGetData true g;
    let '(current, g) := r in
    if current =? -1 then Ok (g, None, calls)
    else
      rn ← connectNode previous current (resultNode g);
      Ok (g ⟨ resultNode := rn ⟩, Some current, calls).

(** Where the thread is: before its first statement, at the barrier, at the
    top of the search loop, in the busy wait, returned. *)
Inductive bfs_pc := BInit | BBarrier | BLoop (previous : Z) | BWait | BRet.

#[export] Instance bfs_pc_eq_dec : EqDecision bfs_pc.
Proof. solve_decision. Defined.

(** The next step of the thread.  [barrier_open] says whether the barrier lets
    the thread through; a closed barrier and the busy wait leave it where it is. *)
Definition normalBFS_for_test (tick initValue : Z) (barrier_open : bool) (st : bfs_pc * globals)
    : res (bfs_pc * globals * list op) :=
  let '(pc, g) := st in
  match pc with
  | BInit => Ok (BBarrier, g ⟨ bfsQueue := replicate (Z.to_nat totalVertex) (-1) ⟩, [])
  | BBarrier => Ok (if barrier_open then BLoop initValue else BBarrier, g, [])
  | BLoop previous =>
      r ← bfs_iter tick previous g;
      let '(g, next, calls) := r in
      match next with
      | Some current => Ok (BLoop current, g, calls)
      | None => Ok (BWait, g ⟨ mainThread := true ⟩, calls)
      end
  | BWait => Ok (if subThread g then BRet else BWait, g, [])
  | BRet => Ok (BRet, g, [])
  end.

(** A run of the thread: before each step the other threads set the barrier
    and [subThread]. *)
Fixpoint bfs_run (tick initValue : Z) (es : list (bool * bool)) (st : bfs_pc * globals)
    : res (bfs_pc * globals * list op) :=
  match es with
  | [] => Ok (st.1, st.2, [])
  | (barrier_open, sub) :: es =>
      r ← normalBFS_for_test tick initValue barrier_open (st.1, st.2 ⟨ subThread := sub ⟩);
      r' ← bfs_run tick initValue es r.1;
      Ok (r'.1, r.2 ++ r'.2)
  end.

(** ** The worker threads *)

Definition stackPush (st : list Z * Z) (value : Z) : res (list Z * Z) :=
  let counter := st.2 + 1 in s ← vset st.1 counter value; Ok (s, counter).

Definition dfs_visit (tick : Z) (st : list bool * list Z * (list Z * Z) * list op) (current_vertex : Z)
    : res (list bool * list Z * (list Z * Z) * list op) :=
  let '(vs, q, stk, calls) := st in
  v ← vget vs current_vertex;
  if (v : bool) then Ok st
  else
    inq ← whertherInLine current_vertex q 0;
    if (inq : bool) then Ok st
    else
      vs ← vset vs current_vertex true;
      stk ← stackPush stk current_vertex;
      Ok (vs, q, stk, calls ++ [report tick current_vertex]).

Fixpoint dfs_loop (fuel : nat) (tick previous : Z) (g : globals) (stk : list Z * Z) (calls : list op)
    : res (globals * list op) :=
  match fuel with
  | O => Err EFuel
  | S fuel =>
      r ← foldM (dfs_visit tick) (upto totalVertex) (visited g, bfsQueue g, stk, calls);
      let '(vs, _, stk, calls) := r in
      let g := g ⟨ visited := vs ⟩ in
      if stk.2 =? -1 then Ok (g, calls)
      else
        current ← vget stk.1 stk.2;
        s ← vset stk.1 stk.2 (-1);
        rn ← connectNode previous current (resultNode g);
        dfs_loop fuel tick current (g ⟨ resultNode := rn ⟩) (s, stk.2 - 1) calls
  end.

(** The stack never holds more than [totalVertex] vertices, and every iteration
    but the last takes one off. *)
Definition my_DFS (tick id : Z) (g : globals) : res (globals * list op) :=
  stk ← stackPush (replicate (Z.to_nat totalVertex) (-1), -1) id;
  dfs_loop (S (S (Z.to_nat totalVertex))) tick id g stk [].

(** ** The polling thread *)

(** One iteration of the loop of [checkThread]; [None] when it is left. *)
Definition checkThread (fs : files) (pos : Z) (g : globals) : res (option (Z * globals)) :=
  if (mainThread g && subThread g)%bool then Ok None
  else
    r ← gadia_receive (u64 (-1)) fs pos;
    let '(result, pos) := r in
    if ((result =? u64 (-2)) || (result =? u64 (-1)) || (result =? u64 (-4)) || (result =? u64 (-6)))%bool
    then Ok (Some (pos, g))
    else
      let tmp := i32 result in
      vs ← vset (visited g) tmp true;
      Ok (Some (pos, g ⟨ visited := vs ⟩)).
End Search.

(** ** The breadth-first search *)

Section Proofs.
Context (V : Z) (HV : 0 < V) (Hint : V * V < 2 ^ 31).

Definition in_range (v : Z) : Prop := 0 <= v < V.

(** The queue holds [q] and is free behind it. *)
Definition holds_queue (g : globals) (q : list Z) : Prop :=
  bfsQueue g = q ++ replicate (Z.to_nat V - length q) (-1) /\ bfsQueue_length g = Z.of_nat (length q).

Lemma in_line_spec (q pre : list Z) fuel n v :
  Forall in_range q -> in_range v -> Z.of_nat (length (pre ++ q)) + Z.of_nat n = V ->
  (length q + n < fuel)%nat ->
  in_line V fuel v (pre ++ q ++ replicate n (-1)) (Z.of_nat (length pre)) = Ok (bool_decide (v ∈ q)).
Proof.
  intros Hq Hv. revert pre fuel. induction Hq as [|x q Hx _ IH]; intros pre [|fuel] Hlen Hf; try lia; cbn [in_line].
  - rewrite app_nil_r in Hlen. cbn [app]. destruct (_ =? V) eqn:E; b2p; [done |].
    destruct n as [|n]; [lia |]. rewrite (vget_nat _ (length pre) (-1)); [done |].
    rewrite lookup_app_r, Nat.sub_diag by lia. done.
  - rewrite length_app in Hlen. cbn [length] in Hlen. rewrite (proj2 (Z.eqb_neq _ V)) by lia.
    rewrite (vget_nat _ (length pre) x) by (rewrite lookup_app_r, Nat.sub_diag by lia; done). rsimpl.
    unfold in_range in Hx. rewrite (proj2 (Z.eqb_neq x (-1))) by lia. destruct (x =? v) eqn:E; b2p.
    + subst. by rewrite bool_decide_true by left.
    + replace (Z.of_nat (length pre) + 1) with (Z.of_nat (length (pre ++ [x]))) by (rewrite length_app; cbn; lia).
      change (pre ++ (x :: q) ++ replicate n (-1)) with (pre ++ [x] ++ q ++ replicate n (-1)).
      rewrite (app_assoc pre [x]), IH by (rewrite ?length_app in *; cbn [length] in *; lia).
      f_equal. apply bool_decide_ext. rewrite elem_of_cons. naive_solver.
Qed.

Lemma NoDup_range_length l : NoDup l -> Forall in_range l -> Z.of_nat (length l) <= V.
Proof.
  intros Hnd Hr. assert (Hs : l ⊆+ upto V).
  { apply NoDup_submseteq; [done |]. intros x Hx. apply elem_of_upto. by apply (proj1 (Forall_forall _ _) Hr). }
  apply submseteq_length in Hs. rewrite length_upto in Hs. lia.
Qed.

Lemma wherther_spec g q v :
  holds_queue g q -> NoDup q -> Forall in_range q -> in_range v ->
  whertherInLine V v (bfsQueue g) 0 = Ok (bool_decide (v ∈ q)).
Proof.
  intros [Hq _] Hnd Hr Hv. pose proof (NoDup_range_length q Hnd Hr) as Hl. unfold whertherInLine. rewrite Hq.
  apply (in_line_spec q []); try done; cbn [app]; lia.
Qed.

Definition edge (num : list Z) (u v : Z) : bool := bool_decide (num !! Z.to_nat (u * V + v) = Some 1).

Definition is_visited (g : globals) (v : Z) : bool := default false (visited g !! Z.to_nat v).

Lemma index_ok u v : in_range u -> in_range v -> i32 (i32 (u * V) + v) = u * V + v /\ 0 <= u * V + v < V * V.
Proof. unfold in_range. intros. rewrite !i32_id; unfold in_i32; [nia.. |]. rewrite i32_id; unfold in_i32; nia. Qed.

Lemma get_visited g v : Z.of_nat (length (visited g)) = V -> in_range v -> vget (visited g) v = Ok (is_visited g v).
Proof.
  intros Hl Hv. unfold in_range in Hv. destruct (vget_is_ok (visited g) v) as [b Hb]; [lia |]. rewrite Hb.
  apply vget_Ok in Hb as [_ Hb]. unfold is_visited. by rewrite Hb.
Qed.

(** A queue with room takes one more vertex. *)
Lemma queue_push g q v :
  holds_queue g q -> Z.of_nat (length q) < V ->
  exists q', vset (bfsQueue g) (bfsQueue_length g) v = Ok q' /\
    holds_queue (g ⟨ bfsQueue := q' ⟩ ⟨ bfsQueue_length := bfsQueue_length g + 1 ⟩) (q ++ [v]).
Proof.
  intros [Hq Hl] Hlt. eexists. split.
  - unfold vset. rewrite decide_True; [reflexivity |]. rewrite Hq, Hl, length_app, length_replicate. lia.
  - unfold holds_queue. cbn [setf bfsQueue bfsQueue_length]. rewrite Hq, Hl, length_app. cbn [length].
    split; [| lia]. rewrite Nat2Z.id, insert_app_r_alt, Nat.sub_diag by lia.
    replace (Z.to_nat V - length q)%nat with (S (Z.to_nat V - (length q + 1))) by lia.
    cbn [replicate]. by rewrite <- app_assoc.
Qed.

(** The vertices a node adds to the queue: its neighbours below [i] that are
    neither visited nor queued, in increasing order. *)
Definition adds (g : globals) (q : list Z) (u i : Z) : list Z :=
  List.filter (fun v => edge (totalNode g) u v && negb (is_visited g v) && negb (bool_decide (v ∈ q)))%bool (upto i).

Lemma elem_of_adds g q u i v :
  v ∈ adds g q u i <-> 0 <= v < i /\ edge (totalNode g) u v = true /\ is_visited g v = false /\ v ∉ q.
Proof.
  unfold adds. rewrite list_elem_of_In, List.filter_In, <- list_elem_of_In, elem_of_upto, !andb_true_iff, !negb_true_iff,
    bool_decide_eq_false. tauto.
Qed.

Lemma adds_succ g q u i : 0 <= i ->
  adds g q u (i + 1) = adds g q u i ++
    (if edge (totalNode g) u i && negb (is_visited g i) && negb (bool_decide (i ∈ q)) then [i] else [])%bool.
Proof. intros Hi. unfold adds. by rewrite upto_succ, List.filter_app by done. Qed.

Definition same_but_queue (g g' : globals) : Prop :=
  totalNode g' = totalNode g /\ resultNode g' = resultNode g /\ visited g' = visited g /\
  bfsQueue_counter g' = bfsQueue_counter g.

Section PushLoop.
Context (tick u r : Z) (g : globals) (q : list Z).
Hypothesis Hu : in_range u.
Hypothesis Hr : in_range r.
Hypothesis Hvr : is_visited g r = true.
Hypothesis Hrq : r ∉ q.
Hypothesis Hn : Z.of_nat (length (totalNode g)) = V * V.
Hypothesis Hvl : Z.of_nat (length (visited g)) = V.
Hypothesis Hnd : NoDup q.
Hypothesis Hrg : Forall in_range q.

(** The state after the neighbours below [i]. *)
Definition pushed (i : Z) (st : globals * list op) : Prop :=
  let new := adds g q u i in
  st.2 = report tick <$> new /\ same_but_queue g st.1 /\ holds_queue st.1 (q ++ new) /\
    NoDup (q ++ new) /\ Forall in_range new.

Lemma push_one i st : in_range i -> pushed i st -> exists st', push_neighbour V tick u st i = Ok st' /\ pushed (i + 1) st'.
Proof.
  destruct st as [g1 calls].
  intros Hi (Hcalls & Hs & Hq1 & Hnd1 & Hrn). cbn [fst snd] in *. subst calls.
  pose proof Hs as (Ht & Hrs & Hvs & Hcn). cbn [push_neighbour].
  destruct (index_ok u i Hu Hi) as [-> Hix].
  destruct (vget_is_ok (totalNode g1) (u * V + i)) as [x Hx]; [rewrite Ht; lia |]. rewrite Hx. rsimpl.
  apply vget_Ok in Hx as [_ Hx]. rewrite Ht in Hx.
  assert (He : (x =? 1) = edge (totalNode g) u i).
  { unfold edge. rewrite Hx. destruct (x =? 1) eqn:E; b2p; [subst; by rewrite bool_decide_true |].
    rewrite bool_decide_false; [done | congruence]. }
  assert (Hvi : is_visited g1 i = is_visited g i) by (unfold is_visited; by rewrite Hvs).
  rewrite He, (get_visited g1), Hvi by (done || (rewrite Hvs; done)). rsimpl.
  unfold pushed. rewrite adds_succ by (unfold in_range in Hi; lia). set (new := adds g q u i) in *.
  rewrite (wherther_spec g1 (q ++ new)) by (try done; by apply Forall_app).
  assert (Hin : i ∈ q ++ new <-> i ∈ q).
  { unfold new. rewrite elem_of_app, elem_of_adds. split; [intros [?|?]; [done | lia] | by left]. }
  destruct (edge (totalNode g) u i) eqn:Ee; [destruct (is_visited g i) eqn:Ev; [| destruct (decide (i ∈ q)) as [Hiq|Hiq]] |];
    cbn [negb andb]; rsimpl; rewrite ?(bool_decide_true (i ∈ q ++ new)), ?(bool_decide_true (i ∈ q)) by (done || (by apply Hin));
    cbn [negb andb].
  1,2,4: rewrite app_nil_r; eexists; split; [reflexivity |]; by split_and!.
  rewrite (bool_decide_false (i ∈ q ++ new)), (bool_decide_false (i ∈ q)) by (by rewrite ?Hin). cbn [negb andb].
  assert (Hlt : Z.of_nat (length (q ++ new)) < V).
  { assert (Hb : NoDup (r :: q ++ new)).
    { apply NoDup_cons. split; [| done]. unfold new. rewrite elem_of_app, elem_of_adds. intros [?|(_ & _ & Hvv & _)]; congruence. }
    apply NoDup_range_length in Hb; [cbn [length] in Hb; lia |]. constructor; [done | by apply Forall_app]. }
  destruct (queue_push g1 (q ++ new) i Hq1 Hlt) as (q' & -> & Hq'). rsimpl.
  eexists. split; [reflexivity |]. cbn [fst snd]. rewrite app_assoc, fmap_app. split_and!; try done.
  + apply NoDup_app. split_and!; [done | | apply NoDup_singleton].
    intros v Hv ->%list_elem_of_singleton. by apply Hin in Hv.
  + apply Forall_app. split; [done | by constructor].
Qed.

Lemma push_loop :
  holds_queue g q ->
  let new := adds g q u V in
  exists g', foldM (push_neighbour V tick u) (upto V) (g, []) = Ok (g', report tick <$> new) /\
    same_but_queue g g' /\ holds_queue g' (q ++ new) /\ NoDup (q ++ new) /\ Forall in_range new.
Proof.
  intros Hq new. destruct (foldM_upto (push_neighbour V tick u) pushed V (g, [])) as ([g' calls] & Hf & Hc & H1);
    [lia | | by intros; apply push_one |].
  - unfold pushed. change (adds g q u 0) with (@nil Z). rewrite app_nil_r. by split_and!.
  - exists g'. cbn [fst snd] in *. by subst calls.
Qed.
End PushLoop.

Lemma insert_visited g u vs v :
  Z.of_nat (length (visited g)) = V -> in_range u -> in_range v -> vset (visited g) u true = Ok vs ->
  is_visited (g ⟨ visited := vs ⟩) v = (bool_decide (v = u) || is_visited g v)%bool.
Proof.
  unfold in_range. intros Hl Hu Hv [_ ->]%vset_Ok. unfold is_visited. cbn [setf visited].
  case_bool_decide as E; [subst; by rewrite list_lookup_insert_eq by lia |].
  rewrite list_lookup_insert_ne by lia. done.
Qed.

(** ** The state between two iterations

    [Q] is the root followed by everything that was ever queued; the vertices
    before position [n] have been processed, position [n] is the next. *)
Definition adj (num : list Z) (u v : Z) : Prop := in_range u /\ in_range v /\ edge num u v = true.

(** *** Reference order

    What vertex [u] finds: its neighbours in increasing order that were not
    found before; the vertices are taken in the order they were found. *)
Definition found_by (num : list Z) (Q : list Z) (u : Z) : list Z :=
  List.filter (fun v => edge num u v && negb (bool_decide (v ∈ Q)))%bool (upto V).

Fixpoint search_from (fuel : nat) (num Q : list Z) (n : nat) : list Z :=
  match fuel with
  | O => Q
  | S fuel => match Q !! n with None => Q | Some u => search_from fuel num (Q ++ found_by num Q u) (S n) end
  end.

(** The breadth-first order from [r], [r] first; no more than [V] vertices are
    found. *)
Definition bfs_order (num : list Z) (r : Z) : list Z := search_from (Z.to_nat V) num [r] 0.

Record bfs_inv (num : list Z) (r : Z) (g : globals) (Q : list Z) (n : nat) : Prop := {
  bi_num : totalNode g = num;
  bi_res : Z.of_nat (length (resultNode g)) = V * V;
  bi_vis : Z.of_nat (length (visited g)) = V;
  bi_Q : exists q, Q = r :: q /\ holds_queue g q;
  bi_nd : NoDup Q;
  bi_rg : Forall in_range Q;
  bi_n : bfsQueue_counter g = Z.of_nat n;
  bi_done : forall v, in_range v -> is_visited g v = true <-> v ∈ take n Q;
  bi_reach : forall v, v ∈ Q -> rtc (adj num) r v;
  bi_closed : forall u v, u ∈ take n Q -> adj num u v -> v ∈ Q
}.

(** Processing the vertex at position [n]. *)
Lemma process_step num r g Q n u tick :
  Z.of_nat (length num) = V * V -> bfs_inv num r g Q n -> Q !! n = Some u ->
  let new := found_by num Q u in
  exists g', processCurrentNode V tick u g = Ok (g', report tick <$> new) /\
    bfsQueue_counter g' = Z.of_nat n /\
    bfs_inv num r (g' ⟨ bfsQueue_counter := Z.of_nat (S n) ⟩) (Q ++ new) (S n) /\
    exists q, Q ++ new = r :: q /\ holds_queue g' q.
Proof.
  intros Hnum [Hn Hres Hvl (q & -> & Hq) Hnd Hrg Hcnt Hdone Hreach Hcl] Hu new.
  pose proof (list_elem_of_lookup_2 _ _ _ Hu) as Huin.
  assert (Hur : in_range u) by (by apply (proj1 (Forall_forall _ _) Hrg)).
  assert (Hrr : in_range r) by (by apply Forall_cons in Hrg as [? _]).
  assert (Huv : is_visited g u = false).
  { destruct (is_visited g u) eqn:E; [| done]. apply Hdone in E; [| done].
    apply list_elem_of_lookup in E as [k Hk]. apply lookup_take_Some in Hk as [Hk Hkn].
    rewrite (NoDup_lookup _ _ _ _ Hnd Hk Hu) in Hkn. lia. }
  unfold processCurrentNode. rewrite get_visited, Huv by done. rsimpl.
  destruct (vset_is_ok (visited g) u true) as [vs Hvs]; [unfold in_range in Hur; lia |]. rewrite Hvs. rsimpl.
  pose proof (fun v => insert_visited g u vs v Hvl Hur) as Hiv. pose proof (vset_length _ _ _ _ Hvs) as Hlen.
  match goal with |- context [foldM _ _ (?x, [])] => set (g1 := x) in * end.
  apply NoDup_cons in Hnd as Hnd'. destruct Hnd' as [Hrq Hndq]. apply Forall_cons in Hrg as Hrg'. destruct Hrg' as [_ Hrgq].
  assert (Hr1 : is_visited g1 r = true).
  { rewrite Hiv by done. destruct n as [|n]; [injection Hu as <-; by rewrite bool_decide_true |].
    rewrite (proj2 (Hdone r Hrr)) by left. apply orb_true_r. }
  destruct (push_loop tick u r g1 q) as (g' & Hf & (Ht & Hrs & Hvs' & Hc) & Hq' & Hnd2 & Hrn);
    [done | done | done | done | by rewrite <- Hn in Hnum | cbn [g1 setf visited]; lia | done | done | exact Hq |].
  pose proof (elem_of_adds g1 q u V) as Hadds.
  assert (adds g1 q u V = new) as Enew.
  { unfold adds, new, found_by. apply List.filter_ext_in. intros v Hv%list_elem_of_In%elem_of_upto. cbn [g1 setf totalNode].
    rewrite Hn, <- andb_assoc. f_equal. rewrite Hiv by done. destruct (decide (v ∈ r :: q)) as [Hvq|Hvq].
    - rewrite (bool_decide_true (v ∈ r :: q)) by done. apply elem_of_cons in Hvq as [->|Hvq].
      + rewrite <- Hiv, Hr1 by done. done.
      + rewrite (bool_decide_true (v ∈ q)) by done. apply andb_false_r.
    - rewrite (bool_decide_false (v ∈ r :: q)) by done. apply not_elem_of_cons in Hvq as [Hvr Hvq].
      rewrite (bool_decide_false (v ∈ q)), andb_true_r by done. f_equal.
      rewrite bool_decide_false by (intros ->; apply elem_of_cons in Huin as [?|?]; done). cbn [orb].
      destruct (is_visited g v) eqn:Ev; [| done]. apply Hdone in Ev; [| done].
      apply list_elem_of_lookup in Ev as [k [Hk _]%lookup_take_Some]. apply list_elem_of_lookup_2, elem_of_cons in Hk as [?|?]; done. }
  rewrite Enew in *. exists g'. split; [done |]. split; [by rewrite Hc |].
  assert (Hlt : (n < length (r :: q))%nat) by (by eapply lookup_lt_Some).
  assert (Htk : take (S n) ((r :: q) ++ new) = take n (r :: q) ++ [u]).
  { rewrite take_app_le by lia. by apply take_S_r. }
  assert (Hvis : forall v, in_range v -> is_visited g' v = true <-> v ∈ take n (r :: q) ++ [u]).
  { intros v Hv. replace (is_visited g' v) with (is_visited g1 v) by (unfold is_visited; by rewrite Hvs').
    rewrite Hiv, elem_of_app, list_elem_of_singleton, <- (Hdone v Hv), orb_true_iff, bool_decide_eq_true by done. tauto. }
  split; [| by exists (q ++ new)].
  split; cbn [setf totalNode resultNode visited bfsQueue_counter].
  - by rewrite Ht.
  - by rewrite Hrs.
  - rewrite Hvs'. cbn [g1 setf visited]. lia.
  - by exists (q ++ new).
  - cbn [app]. apply NoDup_cons. split; [| done]. rewrite elem_of_app, Hadds. intros [?|(_ & _ & Hx & _)]; congruence.
  - by apply Forall_app.
  - done.
  - intros v Hv. rewrite Htk. by apply Hvis.
  - intros v [Hv|Hv]%elem_of_app; [by apply Hreach |]. apply rtc_r with u; [by apply Hreach |].
    split_and!; [done | by apply (proj1 (Forall_forall _ _) Hrn) |]. apply Hadds in Hv as (_ & He & _). by rewrite <- Hn.
  - intros w v. rewrite Htk, elem_of_app, list_elem_of_singleton. intros Hw (Hwr & Hvr & He).
    destruct (decide (v ∈ r :: q)) as [|Hnq]; [apply elem_of_app; by left |].
    destruct Hw as [Hw| ->]; [exfalso; by apply Hnq, (Hcl w v) |].
    apply elem_of_app. right. apply Hadds. split_and!; [apply Hvr | apply Hvr | by cbn [g1 setf totalNode]; rewrite Hn | |].
    + destruct (is_visited g1 v) eqn:Ev; [| done]. exfalso. apply Hnq. rewrite Hiv in Ev by done.
      apply orb_true_iff in Ev as [Ev|Ev]; [b2p; by subst |]. apply Hdone in Ev; [| done].
      by apply list_elem_of_lookup in Ev as [k [Hk _]%lookup_take_Some]; apply list_elem_of_lookup_2 in Hk.
    + intros Hvq. apply Hnq. by right.
Qed.

Lemma queue_get g q n :
  holds_queue g q -> Z.of_nat (length q) < V -> (n <= length q)%nat ->
  vget (bfsQueue g) (Z.of_nat n) = Ok (match q !! n with Some x => x | None => -1 end).
Proof.
  intros [Hq _] Hlt Hn. apply vget_nat. rewrite Hq. destruct (decide (n < length q)%nat) as [Hl|Hl].
  - rewrite lookup_app_l by done. destruct (lookup_lt_is_Some_2 q n Hl) as [x ->]. done.
  - rewrite lookup_app_r, lookup_replicate_2, (lookup_ge_None_2 q n) by lia. done.
Qed.

Lemma connectNode_ok u v num :
  in_range u -> in_range v -> Z.of_nat (length num) = V * V ->
  connectNode V u v num = Ok (<[Z.to_nat (u * V + v) := 1]> (<[Z.to_nat (v * V + u) := 1]> num)).
Proof.
  intros Hu Hv Hl. unfold connectNode. destruct (index_ok u v Hu Hv) as [-> ?]. destruct (index_ok v u Hv Hu) as [-> ?].
  rewrite (vset_val num) by lia. rsimpl. rewrite vset_val by (rewrite length_insert; lia). done.
Qed.

(** One iteration: either there is a next vertex and the state between two
    iterations is reached again, or all vertices found are processed. *)
Lemma bfs_iter_spec num r tick g Q n u :
  Z.of_nat (length num) = V * V -> bfs_inv num r g Q n -> Q !! n = Some u ->
  let Q' := Q ++ found_by num Q u in
  exists g', bfs_iter V tick u g = Ok (g', Q' !! S n, report tick <$> found_by num Q u) /\
    match Q' !! S n with
    | Some _ => bfs_inv num r g' Q' (S n)
    | None => length Q' = S n /\ bfs_inv num r (g' ⟨ bfsQueue_counter := Z.of_nat (S n) ⟩) Q' (S n)
    end.
Proof.
  intros Hnum Hinv Hu Q'. destruct (process_step num r g Q n u tick Hnum Hinv Hu) as (g1 & Hp & Hc & Hinv1 & q1 & HQ & Hq1).
  fold Q' in Hinv1, HQ. unfold bfs_iter. rewrite Hp. rsimpl. rewrite Hc.
  assert (Hlen : (n < length Q)%nat) by (by eapply lookup_lt_Some).
  pose proof (NoDup_range_length _ (bi_nd _ _ _ _ _ Hinv1) (bi_rg _ _ _ _ _ Hinv1)) as HlQ. rewrite HQ in HlQ. cbn [length] in HlQ.
  assert (Hnq : (n <= length q1)%nat).
  { apply (f_equal length) in HQ. unfold Q' in HQ. rewrite length_app in HQ. cbn [length] in HQ. lia. }
  rewrite (queue_get g1 q1 n) by (done || lia). rsimpl. rewrite HQ in *. cbn [lookup list_lookup].
  destruct (q1 !! n) as [x|] eqn:Ex.
  - assert (Hxr : in_range x).
    { pose proof (bi_rg _ _ _ _ _ Hinv1) as Hrg. apply Forall_cons in Hrg as [_ Hrg]. by eapply Forall_lookup_1 in Hrg. }
    pose proof (lookup_lt_Some _ _ _ Ex) as Hlt. unfold in_range in Hxr.
    rewrite (proj2 (Z.eqb_neq x (-1))), (proj2 (Z.eqb_neq (Z.of_nat n) V)) by lia. cbn [orb].
    unfold unsafeGetData. cbn [negb andb]. rewrite Hc, (queue_get g1 q1 n), Ex by (done || lia). rsimpl.
    rewrite (proj2 (Z.eqb_neq x (-1))), (proj2 (Z.eqb_neq (Z.of_nat n) V)), (proj2 Hq1) by lia. cbn [orb].
    rewrite (proj2 (Z.eqb_neq (Z.of_nat n) (Z.of_nat (length q1)))) by lia. rsimpl.
    rewrite (proj2 (Z.eqb_neq x (-1))) by lia.
    assert (Hur : in_range u) by (eapply Forall_lookup_1; [apply (bi_rg _ _ _ _ _ Hinv) | done]).
    destruct Hinv1 as [H1 H2 H3 H4 H5 H6 H7 H8 H9 H10]. cbn [setf totalNode resultNode visited bfsQueue_counter] in *.
    rewrite (connectNode_ok u x) by done. rsimpl. eexists. split; [done |].
    split; try done; cbn [setf resultNode bfsQueue_counter]; [by rewrite !length_insert | lia].
  - rewrite Z.eqb_refl. cbn [orb]. apply lookup_ge_None in Ex. eexists. split; [done |]. split; [cbn [length]; lia | done].
Qed.

Lemma search_prefix fuel num : forall Q n, Q `prefix_of` search_from fuel num Q n.
Proof.
  induction fuel as [|fuel IH]; intros Q n; cbn [search_from]; [done |]. destruct (Q !! n) as [u|]; [| done].
  etrans; [by apply prefix_app_r | apply IH].
Qed.

(** What the other threads write does not matter to the search. *)
Lemma bfs_inv_sub num r g Q n sub : bfs_inv num r g Q n -> bfs_inv num r (g ⟨ subThread := sub ⟩) Q n.
Proof. intros [H1 H2 H3 H4 H5 H6 H7 H8 H9 H10]. by split. Qed.

(** The thread in its busy wait: it returns when it finds [subThread] set. *)
Lemma wait_run tick r es : forall pc g,
  pc = BWait \/ pc = BRet ->
  exists g', bfs_run V tick r es (pc, g) =
      Ok (if decide (pc = BRet) then BRet else if existsb snd es then BRet else BWait, g', []) /\
    visited g' = visited g /\ mainThread g' = mainThread g.
Proof.
  induction es as [|[b sub] es IH]; intros pc g Hpc; cbn [bfs_run existsb fst snd].
  - exists g. by destruct Hpc as [-> | ->].
  - destruct Hpc as [-> | ->]; cbn [normalBFS_for_test]; rsimpl; cbn [setf subThread].
    + destruct sub; cbn [orb].
      * destruct (IH BRet (g ⟨ subThread := true ⟩)) as (g' & -> & Hv & Hm); [by right |]. rsimpl. by exists g'.
      * destruct (IH BWait (g ⟨ subThread := false ⟩)) as (g' & -> & Hv & Hm); [by left |]. rsimpl. by exists g'.
    + destruct (IH BRet (g ⟨ subThread := sub ⟩)) as (g' & -> & Hv & Hm); [by right |]. rsimpl. by exists g'.
Qed.

(** What the thread has done when its steps [es] found the loop at position
    [n] of [Q]: the vertices of [all] found so far are reported in order; after
    as many steps as vertices remain the search is over. *)
Definition searched (num : list Z) (r tick : Z) (all Q : list Z) (n : nat) (es : list (bool * bool))
    (res : res (bfs_pc * globals * list op)) : Prop :=
  exists pc g' k, res = Ok (pc, g', report tick <$> take k (drop (length Q) all)) /\
    ((length all <= n + length es)%nat ->
     take k (drop (length Q) all) = drop (length Q) all /\ mainThread g' = true /\
     (forall v, in_range v -> is_visited g' v = true <-> v ∈ all) /\
     pc = if existsb snd (drop (length all - n) es) then BRet else BWait).

Lemma search_run num r tick : Z.of_nat (length num) = V * V -> forall es fuel g Q n u,
  bfs_inv num r g Q n -> Q !! n = Some u -> (Z.to_nat V <= fuel + n)%nat ->
  searched num r tick (search_from fuel num Q n) Q n es (bfs_run V tick r es (BLoop u, g)).
Proof.
  intros Hnum. induction es as [|[b sub] es IH]; intros fuel g Q n u Hinv Hu Hf.
  { pose proof (lookup_lt_Some _ _ _ Hu). destruct (search_prefix fuel num Q n) as [l Hl]. cbn [bfs_run fst snd].
    exists (BLoop u), g, 0%nat. split; [done |]. rewrite Hl, length_app. cbn [length]. lia. }
  pose proof (lookup_lt_Some _ _ _ Hu) as Hlt.
  destruct fuel as [|fuel].
  { pose proof (NoDup_range_length Q (bi_nd _ _ _ _ _ Hinv) (bi_rg _ _ _ _ _ Hinv)). lia. }
  cbn [bfs_run normalBFS_for_test fst snd search_from]. rewrite Hu.
  destruct (bfs_iter_spec num r tick (g ⟨ subThread := sub ⟩) Q n u Hnum (bfs_inv_sub _ _ _ _ _ _ Hinv) Hu) as (g1 & -> & Hnext).
  rsimpl. set (Q' := Q ++ found_by num Q u) in *. destruct (search_prefix fuel num Q' (S n)) as [l Hl]. rewrite Hl in *.
  assert (Hdrop : drop (length Q) (Q' ++ l) = found_by num Q u ++ drop (length Q') (Q' ++ l)).
  { unfold Q'. by rewrite <- app_assoc, !drop_app_length, app_assoc, drop_app_length. }
  unfold searched. rewrite Hdrop. destruct (Q' !! S n) as [x|] eqn:Ex; rsimpl.
  - destruct (IH fuel g1 Q' (S n) x) as (pc & g' & k & Hrun & Hend); [done | done | lia |]. rewrite Hl in Hrun, Hend.
    rewrite Hrun. rsimpl. cbn [fst snd]. exists pc, g', (length (found_by num Q u) + k)%nat. rewrite take_app_add, fmap_app.
    split; [done |]. cbn [length]. intros Hlen. destruct Hend as (-> & Hm & Hv & ->); [lia |].
    split_and!; [done | done | done |].
    replace (length (Q' ++ l) - n)%nat with (S (length (Q' ++ l) - S n)); [done |].
    apply lookup_lt_Some in Ex. rewrite length_app. lia.
  - destruct Hnext as [Hlen Hinv1].
    assert (l = []) as ->.
    { destruct fuel as [|fuel]; cbn [search_from] in Hl; [| rewrite Ex in Hl]; by apply (app_inv_head Q'); rewrite app_nil_r. }
    rewrite app_nil_r in *. destruct (wait_run tick r es BWait (g1 ⟨ mainThread := true ⟩)) as (g' & Hw & Hv & Hm); [by left |].
    rewrite Hw. rsimpl. cbn [fst snd]. rewrite app_nil_r, drop_all, app_nil_r. eexists _, g', (length (found_by num Q u)).
    rewrite take_ge by lia. split; [done |]. intros _. split_and!; [done | done | |].
    + intros v Hvr. pose proof (bi_done _ _ _ _ _ Hinv1 v Hvr) as Hd. rewrite take_ge in Hd by lia. rewrite <- Hd.
      unfold is_visited. by rewrite Hv.
    + rewrite Hlen. by replace (S n - n)%nat with 1%nat by lia.
Qed.

(** The globals when the search starts. *)
Record fresh (g : globals) : Prop := {
  fr_num : Z.of_nat (length (totalNode g)) = V * V;
  fr_res : Z.of_nat (length (resultNode g)) = V * V;
  fr_len : bfsQueue_length g = 0;
  fr_cnt : bfsQueue_counter g = 0;
  fr_vis : visited g = replicate (Z.to_nat V) false
}.

Lemma fresh_inv g r : fresh g -> in_range r -> bfs_inv (totalNode g) r (g ⟨ bfsQueue := replicate (Z.to_nat V) (-1) ⟩) [r] 0.
Proof.
  intros [Hn Hr Hl Hc Hv] Hrr. split; try done.
  - cbn [setf visited]. rewrite Hv, length_replicate. lia.
  - exists []. split; [done |]. split; [| done]. cbn [app length setf bfsQueue]. by rewrite Nat.sub_0_r.
  - apply NoDup_singleton.
  - by constructor.
  - intros v Hv'. unfold is_visited. cbn [setf visited]. rewrite Hv. unfold in_range in Hv'. rewrite lookup_replicate_2 by lia.
    split; [done | by intros ?%elem_of_nil].
  - intros v ->%list_elem_of_singleton. done.
  - intros u v Hu. by apply elem_of_nil in Hu.
Qed.

Lemma reach_closed num r (S : Z -> Prop) v :
  S r -> (forall u w, S u -> adj num u w -> S w) -> rtc (adj num) r v -> S v.
Proof. intros Hr Hc. induction 1 as [|u w v Huw _ IH]; [done |]. apply IH. by eapply Hc. Qed.

(** The reference order lists the component of the root, each vertex once. *)
Lemma search_spec num r : Z.of_nat (length num) = V * V -> forall fuel g Q n u,
  bfs_inv num r g Q n -> Q !! n = Some u -> (Z.to_nat V <= fuel + n)%nat ->
  let all := search_from fuel num Q n in
  exists g', bfs_inv num r g' all (length all).
Proof.
  intros Hnum. induction fuel as [|fuel IH]; intros g Q n u Hinv Hu Hf all; pose proof (lookup_lt_Some _ _ _ Hu) as Hlt.
  { pose proof (NoDup_range_length Q (bi_nd _ _ _ _ _ Hinv) (bi_rg _ _ _ _ _ Hinv)). lia. }
  subst all. cbn [search_from]. rewrite Hu.
  destruct (bfs_iter_spec num r 0 g Q n u Hnum Hinv Hu) as (g1 & _ & Hnext). destruct (_ !! S n) as [x|] eqn:Ex.
  - by apply (IH g1 _ (S n) x); [| | lia].
  - destruct Hnext as [Hlen Hinv1].
    assert (search_from fuel num (Q ++ found_by num Q u) (S n) = Q ++ found_by num Q u) as ->.
    { destruct fuel; cbn [search_from]; [done |]. by rewrite Ex. }
    rewrite Hlen. eauto.
Qed.

Lemma bfs_order_component g r :
  fresh g -> in_range r ->
  NoDup (bfs_order (totalNode g) r) /\ head (bfs_order (totalNode g) r) = Some r /\
  forall v, v ∈ bfs_order (totalNode g) r <-> rtc (adj (totalNode g)) r v.
Proof.
  intros Hf Hr. pose proof (fresh_inv g r Hf Hr) as Hinv.
  destruct (search_spec (totalNode g) r (fr_num g Hf) (Z.to_nat V) _ [r] 0 r Hinv) as (g' & Hfin); [done | lia |].
  fold (bfs_order (totalNode g) r) in Hfin. destruct (search_prefix (Z.to_nat V) (totalNode g) [r] 0) as [q Hq].
  fold (bfs_order (totalNode g) r) in Hq. destruct Hfin as [_ _ _ _ Hnd _ _ _ Hreach Hcl]. rewrite take_ge in Hcl by done.
  split_and!; [done | by rewrite Hq |]. intros v. split; [apply Hreach |].
  apply (reach_closed (totalNode g) r (fun v => v ∈ bfs_order (totalNode g) r)); [rewrite Hq; left |]. intros u w. apply Hcl.
Qed.

(** A closed barrier holds the thread. *)
Lemma barrier_run tick r closed : forall g es,
  Forall (fun e => e.1 = false) closed ->
  exists sub, bfs_run V tick r (closed ++ es) (BBarrier, g) = bfs_run V tick r es (BBarrier, g ⟨ subThread := sub ⟩).
Proof.
  induction closed as [|[b sub] closed IH]; intros g es Hc; cbn [app].
  - exists (subThread g). by destruct g.
  - apply Forall_cons in Hc as [Hb Hc]. cbn [fst] in Hb. subst b. cbn [bfs_run normalBFS_for_test fst snd]. rsimpl.
    destruct (IH (g ⟨ subThread := sub ⟩) es Hc) as (sub' & ->). cbn [setf]. exists sub'.
    destruct (bfs_run V tick r es _) as [[[pc g'] l]|]; [| done]. done.
Qed.

(** ** The worker threads *)

(** The stack holds [st], free behind it. *)
Definition holds_stack (stk : list Z * Z) (st : list Z) : Prop :=
  stk.1 = st ++ replicate (Z.to_nat V - length st) (-1) /\ stk.2 = Z.of_nat (length st) - 1 /\
  Z.of_nat (length st) <= V.

Lemma stack_push stk st v :
  holds_stack stk st -> Z.of_nat (length st) < V ->
  exists stk', stackPush stk v = Ok stk' /\ holds_stack stk' (st ++ [v]).
Proof.
  intros (Hs & Ht & _) Hlt. unfold stackPush. rewrite Hs, Ht.
  rewrite vset_val by (rewrite length_app, length_replicate; lia). rsimpl. eexists. split; [reflexivity |].
  unfold holds_stack. cbn [fst snd]. rewrite length_app. cbn [length]. split_and!; [| lia | lia].
  replace (Z.to_nat (Z.of_nat (length st) - 1 + 1)) with (length st) by lia. rewrite insert_app_r_alt, Nat.sub_diag by lia.
  replace (Z.to_nat V - length st)%nat with (S (Z.to_nat V - (length st + 1))) by lia.
  cbn [replicate]. by rewrite <- app_assoc.
Qed.

(** The vertices below [i] that a pass over all vertices marks. *)
Definition marked (vs : list bool) (q : list Z) (i : Z) : list Z :=
  List.filter (fun v => negb (default false (vs !! Z.to_nat v)) && negb (bool_decide (v ∈ q)))%bool (upto i).

Lemma marked_succ vs q i : 0 <= i ->
  marked vs q (i + 1) = marked vs q i ++
    (if negb (default false (vs !! Z.to_nat i)) && negb (bool_decide (i ∈ q)) then [i] else [])%bool.
Proof.
  intros Hi. unfold marked. rewrite upto_succ, List.filter_app by done. f_equal.
Qed.

Lemma elem_of_marked vs q i v :
  v ∈ marked vs q i <-> 0 <= v < i /\ default false (vs !! Z.to_nat v) = false /\ v ∉ q.
Proof.
  unfold marked. rewrite list_elem_of_In, List.filter_In, <- list_elem_of_In, elem_of_upto, andb_true_iff, !negb_true_iff,
    bool_decide_eq_false. tauto.
Qed.

Lemma NoDup_marked vs q i : NoDup (marked vs q i).
Proof. unfold marked. apply NoDup_ListNoDup, List.NoDup_filter, NoDup_ListNoDup, NoDup_seqZ. Qed.

(** One pass over all vertices marks, pushes and reports every vertex that is
    neither visited nor queued. *)
Section Pass.
Context (tick : Z) (vs : list bool) (g : globals) (q st : list Z) (calls : list op).
Hypothesis Hvl : Z.of_nat (length vs) = V.
Hypothesis Hq : holds_queue g q.
Hypothesis Hnd : NoDup q.
Hypothesis Hrg : Forall in_range q.
Hypothesis Hcap : Z.of_nat (length (st ++ marked vs q V)) <= V.

Definition seen (vs : list bool) (v : Z) : bool := default false (vs !! Z.to_nat v).

(** The state after the vertices below [i]. *)
Definition passed (i : Z) (s : list bool * list Z * (list Z * Z) * list op) : Prop :=
  exists vs' stk', s = (vs', bfsQueue g, stk', calls ++ (report tick <$> marked vs q i)) /\
    Z.of_nat (length vs') = V /\ holds_stack stk' (st ++ marked vs q i) /\
    forall v, in_range v -> seen vs' v = (seen vs v || (bool_decide (v < i) && negb (bool_decide (v ∈ q))))%bool.

Lemma seen_step i vs' vs'' :
  (forall v, in_range v -> seen vs' v = (seen vs v || (bool_decide (v < i) && negb (bool_decide (v ∈ q))))%bool) ->
  (forall v, in_range v ->
     seen vs'' v = if decide (v = i) then (seen vs i || negb (bool_decide (i ∈ q)))%bool else seen vs' v) ->
  forall v, in_range v -> seen vs'' v = (seen vs v || (bool_decide (v < i + 1) && negb (bool_decide (v ∈ q))))%bool.
Proof.
  intros Hv' Hvs v Hvr. rewrite (Hvs v Hvr). destruct (decide (v = i)) as [->|Hne].
  - by rewrite (bool_decide_true (i < i + 1)) by lia.
  - rewrite (Hv' v Hvr). do 2 f_equal. apply bool_decide_ext. lia.
Qed.

Lemma marked_room i : in_range i -> seen vs i = false -> i ∉ q -> Z.of_nat (length (st ++ marked vs q i)) < V.
Proof.
  intros Hi Hs Hiq. unfold in_range in Hi.
  assert (Hsub : i :: marked vs q i ⊆+ marked vs q V).
  { apply NoDup_submseteq.
    - apply NoDup_cons. split; [rewrite elem_of_marked; lia | apply NoDup_marked].
    - intros v [-> |Hv]%elem_of_cons; [apply elem_of_marked; split_and!; [lia | lia | done..] |].
      apply elem_of_marked in Hv as ([? ?] & ? & ?). apply elem_of_marked. split_and!; [lia | lia | done..]. }
  apply submseteq_length in Hsub. cbn [length] in Hsub. rewrite length_app in *. lia.
Qed.

Lemma pass_one i s : in_range i -> passed i s -> exists s', dfs_visit V tick s i = Ok s' /\ passed (i + 1) s'.
Proof.
  intros Hi (vs' & stk' & -> & Hl' & Hst' & Hv'). cbn [dfs_visit]. pose proof Hi as Hi'. unfold in_range in Hi'.
  destruct (vget_is_ok vs' i) as [b Hb]; [lia |]. rewrite Hb. rsimpl. apply vget_Ok in Hb as [_ Hb].
  assert (Ebi : b = seen vs i).
  { specialize (Hv' i Hi). unfold seen in Hv' at 1. rewrite Hb, (bool_decide_false (i < i)), orb_false_r in Hv' by lia. done. }
  unfold passed. rewrite marked_succ by lia. fold (seen vs i). rewrite <- Ebi.
  assert (Hskip : negb b && negb (bool_decide (i ∈ q)) = false -> forall v, in_range v ->
            seen vs' v = (seen vs v || (bool_decide (v < i + 1) && negb (bool_decide (v ∈ q))))%bool).
  { intros Hs. apply (seen_step i vs' vs' Hv'). intros v Hvr. destruct (decide (v = i)) as [->|]; [| done]. rewrite <- Ebi.
    unfold seen. rewrite Hb. destruct b, (bool_decide (i ∈ q)); done. }
  destruct b; cbn [negb andb].
  { rewrite app_nil_r. eexists. split; [reflexivity |]. exists vs', stk'. split_and!; try done. by apply Hskip. }
  rewrite (wherther_spec g q i) by done. rsimpl. destruct (decide (i ∈ q)) as [Hiq|Hiq].
  { rewrite bool_decide_true in * by done. cbn [negb]. rewrite app_nil_r. eexists. split; [reflexivity |]. exists vs', stk'.
    split_and!; try done. by apply Hskip. }
  rewrite (bool_decide_false (i ∈ q)) by done. cbn [negb]. rewrite vset_val by lia. rsimpl.
  destruct (stack_push stk' (st ++ marked vs q i) i Hst') as (stk2 & -> & Hst2); [by apply marked_room |]. rsimpl.
  eexists. split; [reflexivity |]. exists (<[Z.to_nat i := true]> vs'), stk2. rewrite !app_assoc, fmap_app. split_and!; try done.
  - by rewrite <- app_assoc.
  - by rewrite length_insert.
  - apply (seen_step i vs'); [done |]. intros v Hvr. unfold seen at 1. destruct (decide (v = i)) as [->|Hne].
    + rewrite list_lookup_insert_eq by lia. by rewrite (bool_decide_false (i ∈ q)), orb_true_r.
    + unfold in_range in Hvr. by rewrite list_lookup_insert_ne by lia.
Qed.

Lemma dfs_pass stk :
  holds_stack stk st ->
  exists vs' stk', foldM (dfs_visit V tick) (upto V) (vs, bfsQueue g, stk, calls) =
      Ok (vs', bfsQueue g, stk', calls ++ (report tick <$> marked vs q V)) /\
    Z.of_nat (length vs') = V /\ holds_stack stk' (st ++ marked vs q V) /\
    forall v, in_range v -> seen vs' v = (seen vs v || negb (bool_decide (v ∈ q)))%bool.
Proof.
  intros Hst. destruct (foldM_upto (dfs_visit V tick) passed V (vs, bfsQueue g, stk, calls))
    as (s & Hf & vs' & stk' & -> & H1 & H2 & H3); [lia | | by intros; apply pass_one |].
  - exists vs, stk. change (marked vs q 0) with (@nil Z). rewrite !app_nil_r. split_and!; try done.
    intros v Hv. rewrite (bool_decide_false (v < 0)) by (unfold in_range in Hv; lia). by rewrite orb_false_r.
  - exists vs', stk'. split_and!; try done. intros v Hvr. rewrite (H3 v Hvr), (bool_decide_true (v < V)) by apply Hvr. done.
Qed.
End Pass.

Lemma marked_none vs q : (forall v, in_range v -> v ∉ q -> seen vs v = true) -> marked vs q V = [].
Proof.
  intros H. destruct (marked vs q V) as [|v l] eqn:E; [done |]. exfalso.
  assert (Hv : v ∈ marked vs q V) by (rewrite E; left). apply elem_of_marked in Hv as (Hr & Hs & Hq).
  unfold seen in H. rewrite H in Hs; done.
Qed.

(** The loop marks what is outside the queue and then empties its stack. *)
Lemma dfs_loop_spec tick q : NoDup q -> Forall in_range q -> forall fuel g stk st prev calls,
  holds_queue g q -> Z.of_nat (length (visited g)) = V -> Z.of_nat (length (resultNode g)) = V * V ->
  Z.of_nat (length (st ++ marked (visited g) q V)) <= V ->
  holds_stack stk st -> Forall in_range st -> in_range prev -> (length (st ++ marked (visited g) q V) < fuel)%nat ->
  exists g', dfs_loop V fuel tick prev g stk calls = Ok (g', calls ++ (report tick <$> marked (visited g) q V)) /\
    forall v, in_range v -> is_visited g' v = (is_visited g v || negb (bool_decide (v ∈ q)))%bool.
Proof.
  intros Hnd Hrg. induction fuel as [|fuel IH]; intros g stk st prev calls Hq Hvl Hrl Hcap Hst Hsr Hp Hf; [lia |].
  destruct (dfs_pass tick (visited g) g q st calls Hvl Hq Hnd Hrg Hcap stk Hst) as (vs' & stk' & Hfold & Hl' & (Hs1 & Hs2 & Hs3) & Hv').
  cbn [dfs_loop]. rewrite Hfold. rsimpl.
  assert (Hmr : Forall in_range (st ++ marked (visited g) q V)).
  { apply Forall_app. split; [done |]. apply Forall_forall. intros v Hv. by apply elem_of_marked in Hv as [? _]. }
  destruct (stk'.2 =? -1) eqn:E; b2p; [eexists; split; [reflexivity |]; exact Hv' |].
  destruct (exists_last (l := st ++ marked (visited g) q V)) as (st' & top & Est); [by intros Ex; rewrite Ex in Hs2; cbn in Hs2; lia |].
  rewrite Est in *. rewrite length_app in *. cbn [length] in *. apply Forall_app in Hmr as [Hsr' Htop]. apply Forall_cons in Htop as [Htop _].
  assert (Ei : stk'.2 = Z.of_nat (length st')) by lia.
  rewrite Ei, (vget_nat _ (length st') top) by (rewrite Hs1, <- app_assoc, lookup_app_r, Nat.sub_diag by lia; done). rsimpl.
  rewrite vset_val by (rewrite Hs1, !length_app; cbn [length]; lia). rsimpl.
  cbn [setf resultNode]. rewrite connectNode_ok; [| exact Hp | exact Htop | exact Hrl]. rsimpl.
  match goal with |- context [dfs_loop V fuel tick top ?g0 _ _] => set (g1 := g0) end.
  assert (Hmk : marked (visited g1) q V = []).
  { apply marked_none. intros v Hvr Hnq. change (visited g1) with vs'. rewrite (Hv' v Hvr), bool_decide_false by done.
    apply orb_true_r. }
  edestruct (IH g1 (<[Z.to_nat (Z.of_nat (length st')) := -1]> stk'.1, Z.of_nat (length st') - 1) st' top)
    as (g' & HB & Hsm); try done.
  - cbn [g1 setf resultNode]. by rewrite !length_insert.
  - rewrite Hmk, app_nil_r. lia.
  - split_and!; cbn [fst snd]; [| done | lia]. rewrite Hs1, Nat2Z.id, <- app_assoc, insert_app_r_alt, Nat.sub_diag by lia.
    f_equal. change (<[0%nat := -1]> ([top] ++ ?l)) with (replicate 1 (-1) ++ l).
    rewrite <- replicate_add. f_equal. cbn [length]. lia.
  - rewrite Hmk, app_nil_r. lia.
  - rewrite Hmk in HB. exists g'. rewrite HB. change (report tick <$> []) with (@nil op). rewrite app_nil_r. split; [done |].
    intros v Hvr. rewrite (Hsm v Hvr). change (is_visited g1 v) with (seen vs' v). rewrite (Hv' v Hvr).
    change (seen (visited g) v) with (is_visited g v). by destruct (is_visited g v), (bool_decide (v ∈ q)).
Qed.

(** What [my_DFS] does: the graph is not read. *)
Lemma my_DFS_spec tick u g q :
  holds_queue g q -> NoDup q -> Forall in_range q -> in_range u -> u ∈ q \/ is_visited g u = true ->
  Z.of_nat (length (visited g)) = V -> Z.of_nat (length (resultNode g)) = V * V ->
  exists g', my_DFS V tick u g = Ok (g', report tick <$> marked (visited g) q V) /\
    forall v, in_range v -> is_visited g' v = (is_visited g v || negb (bool_decide (v ∈ q)))%bool.
Proof.
  intros Hq Hnd Hrg Hu Huq Hvl Hrl. unfold my_DFS.
  destruct (stack_push (replicate (Z.to_nat V) (-1), -1) [] u) as (stk & -> & Hst);
    [by split_and!; cbn; [rewrite Nat.sub_0_r | | lia] | cbn; lia |]. rsimpl. cbn [app] in Hst.
  assert (Hcap : Z.of_nat (length ([u] ++ marked (visited g) q V)) <= V).
  { apply NoDup_range_length.
    - cbn [app]. apply NoDup_cons. split; [| apply NoDup_marked]. rewrite elem_of_marked. intros (_ & Hs & Hn).
      destruct Huq as [?|Hx]; [done |]. unfold is_visited in Hx. congruence.
    - cbn [app]. constructor; [done |]. apply Forall_forall. intros v Hv. by apply elem_of_marked in Hv as [? _]. }
  destruct (dfs_loop_spec tick q Hnd Hrg (S (S (Z.to_nat V))) g stk [u] u []) as (g' & HB & Hs);
    try done; [by constructor | lia |]. by exists g'.
Qed.

(** ** Reading the graph *)

Definition csv_line (e : Z * Z) : chars := newline :: print_dec e.1 ++ comma :: print_dec e.2.

(** The file: a header of 13 characters, one line per edge. *)
Definition csv (header : chars) (edges : list (Z * Z)) : chars :=
  header ++ concat (map csv_line edges) ++ [newline].

Lemma scan_int_print ws z l :
  Forall (fun c => is_space c = true) ws -> ends_number l ->
  scan_int (ws ++ print_dec z ++ l) = (Got (i32 z), l).
Proof.
  intros Hws Hl. destruct (skip_parse_print z l Hl) as (c & t & k & E & Hc & Hp & Hs).
  unfold scan_int. replace (skip_ws (ws ++ print_dec z ++ l)) with (c :: t).
  - destruct (parse_sign (c :: t)) as [neg l1]. cbn [fst snd] in Hp, Hs. rewrite Hp, Hs.
    do 3 f_equal. destruct (Z.ltb_spec z 0); lia.
  - rewrite E. induction Hws as [|w ws Hw _ IH]; cbn [app skip_ws]; [by rewrite Hc | by rewrite Hw].
Qed.

Lemma scan_pair_line e l :
  in_range e.1 -> in_range e.2 -> ends_number l -> scan_pair (csv_line e ++ l) = Ok (Some e, l).
Proof.
  intros H1 H2 Hl. unfold scan_pair, csv_line. unfold in_range in *.
  replace ((newline :: print_dec e.1 ++ comma :: print_dec e.2) ++ l)
    with ([newline] ++ print_dec e.1 ++ comma :: print_dec e.2 ++ l) by (cbn [app]; by rewrite <- app_assoc).
  rewrite scan_int_print by (by repeat constructor). rewrite bool_decide_true by done.
  pose proof (scan_int_print [] e.2 l (List.Forall_nil _) Hl) as Hx. cbn [app] in Hx. rewrite Hx. rewrite !i32_id by (unfold in_i32; nia). by destruct e.
Qed.

(** An edge is recorded in both directions, and no other cell changes. *)
Lemma edge_connect num u v a b :
  Z.of_nat (length num) = V * V -> in_range u -> in_range v -> in_range a -> in_range b ->
  edge (<[Z.to_nat (u * V + v) := 1]> (<[Z.to_nat (v * V + u) := 1]> num)) a b = true <->
  (a, b) = (u, v) \/ (a, b) = (v, u) \/ edge num a b = true.
Proof.
  intros Hl Hu Hv Ha Hb. unfold edge. rewrite !bool_decide_eq_true.
  destruct (index_ok u v Hu Hv) as [_ H1]. destruct (index_ok v u Hv Hu) as [_ H2]. destruct (index_ok a b Ha Hb) as [_ H3].
  assert (Hinj : forall x y, in_range x -> in_range y -> a * V + b = x * V + y -> (a, b) = (x, y)).
  { unfold in_range in *. intros x y Hx Hy He. assert (a = x) by nia. subst. f_equal. lia. }
  destruct (decide ((a, b) = (u, v))) as [E|E].
  { injection E as -> ->. rewrite list_lookup_insert_eq by (rewrite length_insert; lia). split; [by left | done]. }
  rewrite list_lookup_insert_ne by (intros ?; apply E, Hinj; [done | done | lia]).
  destruct (decide ((a, b) = (v, u))) as [E'|E'].
  { injection E' as -> ->. rewrite list_lookup_insert_eq by lia. split; [by right; left | done]. }
  rewrite list_lookup_insert_ne by (intros ?; apply E', Hinj; [done | done | lia]). tauto.
Qed.

Lemma read_edges_spec edges : forall lines num,
  Forall (fun e => in_range e.1 /\ in_range e.2) edges -> (length edges <= lines)%nat ->
  Z.of_nat (length num) = V * V ->
  exists num', read_edges V lines (concat (map csv_line edges) ++ [newline]) num = Ok num' /\
    Z.of_nat (length num') = V * V /\
    forall a b, in_range a -> in_range b ->
      edge num' a b = true <-> (a, b) ∈ edges \/ (b, a) ∈ edges \/ edge num a b = true.
Proof.
  induction edges as [|e edges IH]; intros lines num Hr Hlen Hl.
  - exists num. split; [by destruct lines |]. split; [done |]. intros a b _ _. rewrite !elem_of_nil. tauto.
  - apply Forall_cons in Hr as [[H1 H2] Hr]. destruct lines as [|lines]; [cbn in Hlen; lia |].
    cbn [map concat read_edges]. rewrite <- app_assoc, scan_pair_line by (done || by destruct edges). rsimpl.
    destruct e as [u v]. cbn [fst snd] in *. rewrite connectNode_ok by done. rsimpl.
    destruct (IH lines (<[Z.to_nat (u * V + v) := 1]> (<[Z.to_nat (v * V + u) := 1]> num))) as (num' & -> & Hl' & Hiff);
      [done | cbn in Hlen; lia | by rewrite !length_insert |].
    exists num'. split; [done |]. split; [done |]. intros a b Ha Hb. rewrite (Hiff a b Ha Hb), edge_connect by done.
    rewrite !elem_of_cons. assert ((b, a) = (u, v) <-> (a, b) = (v, u)) by (split; intros [= -> ->]; done). tauto.
Qed.
End Proofs.

(** Reading the graph: from a file with a header of 13 characters and one
    line "a,b" per edge, with at most as many lines as the program reads,
    [initGraph] builds the adjacency matrix of the undirected graph: a cell is
    set exactly if one of the two directions is in the file. *)
Theorem graph_roundtrip (V : Z) (header : chars) (edges : list (Z * Z)) (lines : nat) :
  0 < V -> V * V < 2 ^ 31 -> length header = 13%nat -> (length edges <= lines)%nat ->
  Forall (fun e => 0 <= e.1 < V /\ 0 <= e.2 < V) edges ->
  exists num, initGraph V lines (csv header edges) = Ok num /\ Z.of_nat (length num) = V * V /\
    forall a b, 0 <= a < V -> 0 <= b < V ->
      edge V num a b = true <-> (a, b) ∈ edges \/ (b, a) ∈ edges.
Proof.
  intros HV Hi Hh Hl Hr. unfold initGraph, csv. rewrite drop_app_length' by done.
  destruct (read_edges_spec V HV Hi edges lines (initVetex V) Hr Hl) as (num & -> & Hn & Hiff).
  { unfold initVetex. rewrite length_replicate. lia. }
  exists num. split; [done |]. split; [done |]. intros a b Ha Hb. rewrite (Hiff a b Ha Hb).
  assert (edge V (initVetex V) a b = false) as ->; [| split; [by intros [?|[?|?]]; [left | right |] | tauto]].
  unfold edge, initVetex. apply bool_decide_eq_false. intros Hx.
  apply lookup_replicate in Hx as [Hx _]. discriminate Hx.
Qed.

Definition demo_header : chars := replicate 13 comma.
Definition demo_edges : list (Z * Z) := [(0, 3); (3, 1); (2, 4)].

Lemma graph_roundtrip_witness :
  exists num, initGraph 5 9 (csv demo_header demo_edges) = Ok num /\ edge 5 num 1 3 = true /\ edge 5 num 0 1 = false.
Proof.
  destruct (graph_roundtrip 5 demo_header demo_edges 9) as (num & Hn & _ & Hiff);
    [lia | lia | done | cbn; lia | by repeat constructor |].
  exists num. split; [done |]. split.
  - apply Hiff; [lia | lia |]. right. right. left.
  - destruct (edge 5 num 0 1) eqn:E; [| done]. apply Hiff in E; [| lia | lia].
    exfalso. destruct E as [E|E]; repeat (apply elem_of_cons in E as [E|E]; [discriminate E |]); by apply elem_of_nil in E.
Defined.

(** C30.  The thread of [normalBFS_for_test], on any graph, while no worker
    takes vertices from the queue.  As long as the barrier is closed it visits
    and reports nothing.  Once the barrier opens it searches: in every run no
    access is outside its arrays, and the vertices it reports to chiplet 0 are,
    in this order and each once, those of the breadth-first order from the
    root, without the root.  That order lists exactly the vertices reachable
    from the root.  After one step per reachable vertex all of them are reported
    and marked visited and [mainThread] is set; the thread then waits, and
    returns exactly when it finds [subThread] set. *)
Theorem bfs_visits_component (V tick r : Z) (g : globals) (first opens : bool * bool) (closed es : list (bool * bool)) :
  0 < V -> V * V < 2 ^ 31 -> fresh V g -> 0 <= r < V ->
  Forall (fun e => e.1 = false) closed -> opens.1 = true ->
  let all := bfs_order V (totalNode g) r in
  (NoDup all /\ head all = Some r /\ forall v, v ∈ all <-> rtc (adj V (totalNode g)) r v) /\
  (exists g', bfs_run V tick r (first :: closed) (BInit, g) = Ok (BBarrier, g', []) /\ visited g' = visited g) /\
  exists pc g' k, bfs_run V tick r (first :: closed ++ opens :: es) (BInit, g) = Ok (pc, g', report tick <$> take k (tail all)) /\
    ((length all <= length es)%nat ->
     take k (tail all) = tail all /\ mainThread g' = true /\
     (forall v, 0 <= v < V -> is_visited g' v = true <-> v ∈ all) /\
     pc = if existsb snd (drop (length all) es) then BRet else BWait).
Proof.
  intros HV Hi Hf Hr Hc Ho all. destruct (bfs_order_component V HV Hi g r Hf Hr) as (Hnd & Hhd & Hall).
  split; [done |]. destruct first as [b0 sub0]. cbn [bfs_run normalBFS_for_test fst snd]. rsimpl.
  set (g0 := g ⟨ subThread := sub0 ⟩ ⟨ bfsQueue := replicate (Z.to_nat V) (-1) ⟩). split.
  - destruct (barrier_run V tick r closed g0 [] Hc) as [sub E]. rewrite app_nil_r in E. rewrite E. cbn [bfs_run]. rsimpl.
    eexists. split; [done | done].
  - destruct (barrier_run V tick r closed g0 (opens :: es) Hc) as [sub E]. rewrite E. destruct opens as [b1 sub1]. cbn [fst] in Ho. subst b1.
    cbn [bfs_run normalBFS_for_test fst snd]. rsimpl.
    pose proof (fresh_inv V HV g r Hf Hr) as Hinv.
    assert (bfs_inv V (totalNode g) r (g0 ⟨ subThread := sub ⟩ ⟨ subThread := sub1 ⟩) [r] 0) as Hinv0.
    { destruct Hinv as [I1 I2 I3 I4 I5 I6 I7 I8 I9 I10]. by split. }
    destruct (search_run V HV Hi (totalNode g) r tick (fr_num V g Hf) es (Z.to_nat V) _ [r] 0 r Hinv0) as (pc & g' & k & Hrun & Hend);
      [done | lia |].
    change (search_from V (Z.to_nat V) (totalNode g) [r] 0) with all in Hrun, Hend. cbn [length] in Hrun, Hend.
    assert (drop 1 all = tail all) as Htl by (by destruct all). rewrite Htl in Hrun, Hend.
    rewrite Hrun. rsimpl. exists pc, g', k. split; [done |].
    intros Hl. destruct Hend as (Ht & Hm & Hv & Hpc); [lia |]. rewrite Nat.sub_0_r in Hpc. by split_and!.
Qed.

Lemma bfs_visits_component_witness :
  exists g, init 5 9 (csv demo_header demo_edges) = Ok g /\ bfs_order 5 (totalNode g) 0 = [0; 3; 1] /\
  exists pc g' k, bfs_run 5 7 0 ([(false, false); (false, false)] ++ (true, false) :: replicate 4 (false, false) ++ [(false, true)]) (BInit, g) =
      Ok (pc, g', report 7 <$> take k [3; 1]) /\
    take k [3; 1] = [3; 1] /\ pc = BRet.
Proof.
  eexists. split; [reflexivity |]. split; [reflexivity |]. match goal with |- context [(BInit, ?x)] => set (g := x) end.
  assert (Hf : fresh 5 g) by (split; reflexivity).
  destruct (bfs_visits_component 5 7 0 g (false, false) (true, false) [(false, false)] (replicate 4 (false, false) ++ [(false, true)])
    ltac:(lia) ltac:(lia) Hf ltac:(lia) ltac:(by repeat constructor) eq_refl) as (_ & _ & pc & g' & k & Hb & Hend).
  destruct Hend as (Ht & _ & _ & Hpc); [vm_compute; lia |]. exists pc, g', k. split_and!; [exact Hb | exact Ht | exact Hpc].
Defined.

(** The depth-first search of a worker does not look at the graph: run on
    its own on a queued vertex it marks as visited, and reports to chiplet 0,
    every vertex that is neither visited nor in the queue, connected or not. *)
Theorem my_DFS_ignores_graph (V tick u : Z) (g : globals) (q : list Z) :
  0 < V -> V * V < 2 ^ 31 -> holds_queue V g q -> NoDup q -> Forall (in_range V) q -> u ∈ q ->
  Z.of_nat (length (visited g)) = V -> Z.of_nat (length (resultNode g)) = V * V ->
  exists g', my_DFS V tick u g = Ok (g', report tick <$> marked (visited g) q V) /\
    (forall v, 0 <= v < V -> is_visited g' v = (is_visited g v || negb (bool_decide (v ∈ q)))%bool) /\
    (forall v, v ∈ marked (visited g) q V <-> 0 <= v < V /\ is_visited g v = false /\ v ∉ q).
Proof.
  intros HV Hi Hq Hnd Hrg Hu Hvl Hrl.
  assert (Hur : in_range V u) by (by apply (proj1 (Forall_forall _ _) Hrg)).
  destruct (my_DFS_spec V HV Hi tick u g q Hq Hnd Hrg Hur (or_introl Hu) Hvl Hrl) as (g' & Hd & Hv).
  exists g'. split_and!; [done | done |]. intros v. apply elem_of_marked.
Qed.

Lemma my_DFS_ignores_graph_witness :
  let g := {| totalNode := replicate 25 0; resultNode := replicate 25 0; bfsQueue := [4; 2; -1; -1; -1];
              bfsQueue_length := 2; bfsQueue_counter := 1; visited := [true; false; false; false; false];
              mainThread := false; subThread := false |} in
  exists g', my_DFS 5 7 4 g = Ok (g', report 7 <$> [1; 3]) /\ is_visited g' 3 = true /\ is_visited g' 2 = false.
Proof.
  intros g. destruct (my_DFS_ignores_graph 5 7 4 g [4; 2]) as (g' & Hd & Hv & _);
    [lia | lia | split; reflexivity | | by repeat constructor | left | reflexivity | reflexivity |].
  - apply NoDup_ListNoDup. repeat constructor; cbn; lia.
  - exists g'. split; [exact Hd |]. rewrite !Hv by lia. split; reflexivity.
Defined.

(** The polling thread of the benchmark polls core -1, whose file can never
    be opened; the error code -3 is not among those it ignores and it writes
    [visited[-3]]: its first iteration is an access outside the array, in every
    directory and state in which the loop is not left. *)
Theorem checkThread_out_of_bounds (fs : files) (pos : Z) (g : globals) :
  fs_ok fs -> (mainThread g && subThread g)%bool = false -> checkThread fs pos g = Err EOutOfRange.
Proof.
  intros Hfs Hm. unfold checkThread, gadia_receive. rewrite Hm, Hfs by done. rsimpl. done.
Qed.

Lemma checkThread_out_of_bounds_witness :
  checkThread (gadia_call 1 0 3 9 0 ∅) 0
    {| totalNode := []; resultNode := []; bfsQueue := []; bfsQueue_length := 0; bfsQueue_counter := 0;
       visited := replicate 5 false; mainThread := false; subThread := false |} = Err EOutOfRange.
Proof.
  apply checkThread_out_of_bounds; [| reflexivity]. intros path Hp. unfold gadia_call. cbn [Z.eqb]. unfold append_file.
  replace (can_open (c_str (file_name 3))) with true by reflexivity.
  rewrite lookup_insert_ne; [done |]. intros <-. discriminate Hp.
Defined.
