(* ===== verification/NetDest.v ===== *)
(** * Destination sets: [Set] and [NetDest]

    Models [mem/ruby/common/Set.hh] (a bit set of [NUMBER_BITS_PER_SET] bits
    of which [m_nSize] are in use) and [mem/ruby/common/NetDest.{hh,cc}] (one
    [Set] per machine type), the destination of every message and the entry
    of every routing table.

    The machine types and the number of controllers of each are produced by
    the SLICC compiler for the protocol that is built; they are the parameter
    [counts] ([MachineType_base_count]).  [MachineType_base_number] and
    [MachineType_base_level] are the functions its generator writes: the
    number of controllers of the preceding types, and the index of the type.

    The theorems give every operation its meaning as a set of machine
    identifiers ([nd_mem]), and show that node numbers and machine
    identifiers are in bijection. *)
From S2P Require Import Prelude.

(** The build-time default of [SConstruct]. *)
Definition NUMBER_BITS_PER_SET : Z := 64.

(** ** [Set] *)
Record rset := RSet { m_nSize : Z; bits : Z }.

Definition all_bits : Z := Z.ones NUMBER_BITS_PER_SET.

Definition Set_ctor (size : Z) : res rset :=
  _ ← fatal_if (NUMBER_BITS_PER_SET <? size); Ok (RSet size 0).

#[global] Arguments all_bits : simpl never.

(** [std::bitset::set/reset/test] throw out of range. *)
Definition bit_ok (index : Z) : bool := (0 <=? index) && (index <? NUMBER_BITS_PER_SET).

Definition Set_add (s : rset) (index : Z) : res rset :=
  if bit_ok index then Ok (RSet (m_nSize s) (Z.setbit (bits s) index)) else Err EThrow.

Definition Set_addSet (s obj : rset) : res rset :=
  _ ← cassert (m_nSize s =? m_nSize obj); Ok (RSet (m_nSize s) (Z.lor (bits s) (bits obj))).

Definition Set_remove (s : rset) (index : Z) : res rset :=
  if bit_ok index then Ok (RSet (m_nSize s) (Z.clearbit (bits s) index)) else Err EThrow.

Definition Set_removeSet (s obj : rset) : res rset :=
  _ ← cassert (m_nSize s =? m_nSize obj);
  Ok (RSet (m_nSize s) (Z.land (bits s) (Z.ldiff all_bits (bits obj)))).

Definition Set_clear (s : rset) : rset := RSet (m_nSize s) 0.

Definition Set_broadcast (s : rset) : rset :=
  RSet (m_nSize s)
    (foldl Z.clearbit all_bits (seqZ (m_nSize s) (NUMBER_BITS_PER_SET - m_nSize s))).

Definition Set_count (s : rset) : Z :=
  Z.of_nat (length (filter (fun i => Z.testbit (bits s) i = true) (upto NUMBER_BITS_PER_SET))).

Definition Set_isEqual (s obj : rset) : res bool :=
  _ ← cassert (m_nSize s =? m_nSize obj); Ok (bits s =? bits obj).

Definition Set_OR (s obj : rset) : res rset :=
  _ ← cassert (m_nSize s =? m_nSize obj);
  r ← Set_ctor (m_nSize s); Ok (RSet (m_nSize r) (Z.lor (bits s) (bits obj))).

Definition Set_AND (s obj : rset) : res rset :=
  _ ← cassert (m_nSize s =? m_nSize obj);
  r ← Set_ctor (m_nSize s); Ok (RSet (m_nSize r) (Z.land (bits s) (bits obj))).

Definition Set_intersectionIsEmpty (s obj : rset) : bool := Z.land (bits s) (bits obj) =? 0.

Definition Set_isSuperset (s test : rset) : res bool :=
  _ ← cassert (m_nSize s =? m_nSize test); Ok (Z.lor (bits s) (bits test) =? bits s).

Definition Set_isElement (s : rset) (element : Z) : res bool :=
  if bit_ok element then Ok (Z.testbit (bits s) element) else Err EThrow.

Definition Set_isBroadcast (s : rset) : bool := Set_count s =? m_nSize s.

Definition Set_isEmpty (s : rset) : bool := bits s =? 0.

Definition Set_smallestElement (s : rset) : res Z :=
  match list_find (fun i => Z.testbit (bits s) i = true) (upto (m_nSize s)) with
  | Some (_, i) => Ok i
  | None => Err EPanic
  end.

Definition Set_elementAt (s : rset) (index : Z) : res bool :=
  if bit_ok index then Ok (Z.testbit (bits s) index) else Err EOutOfRange.

Definition Set_setSize (s : rset) (size : Z) : res rset :=
  _ ← fatal_if (NUMBER_BITS_PER_SET <? size); Ok (RSet size 0).

(** The bits in use are the only ones set. *)
Definition set_ok (s : rset) : Prop :=
  0 <= m_nSize s <= NUMBER_BITS_PER_SET /\ 0 <= bits s < 2 ^ m_nSize s.

(** ** [NetDest] *)
Record machineID := MachineID { mtype : Z; mnum : Z }.

#[export] Instance machineID_eq_dec : EqDecision machineID.
Proof. solve_decision. Defined.

Definition mid_eqb (a b : machineID) : bool := (mtype a =? mtype b) && (mnum a =? mnum b).

Abbreviation netdest := (list rset).

(** The loops that combine two [NetDest]s set by set. *)
Fixpoint map2M {A B C} (f : A -> B -> res C) (l : list A) (k : list B) : res (list C) :=
  match l, k with
  | a :: l, b :: k => c ← f a b; r ← map2M f l k; Ok (c :: r)
  | [], _ => Ok []
  | _ :: _, [] => Err EOutOfRange
  end.

(** Loops that leave at the first set for which the test says [stop]. *)
Fixpoint all2M (f : rset -> rset -> res bool) (l k : netdest) : res bool :=
  match l, k with
  | a :: l, b :: k => c ← f a b; if (c : bool) then all2M f l k else Ok false
  | [], _ => Ok true
  | _ :: _, [] => Err EOutOfRange
  end.

Section NetDest.
(** [MachineType_base_count], by machine type. *)
Context (counts : list Z).

Definition MachineType_NUM : Z := Z.of_nat (length counts).
Definition MachineType_base_count (m : Z) : res Z :=
  match vget counts m with Ok c => Ok c | Err _ => Err EPanic end.
Definition MachineType_base_number (m : Z) : res Z :=
  if (0 <=? m) && (m <=? MachineType_NUM) then Ok (foldr Z.add 0 (take (Z.to_nat m) counts))
  else Err EPanic.
Definition MachineType_base_level (m : Z) : res Z :=
  if (0 <=? m) && (m <=? MachineType_NUM) then Ok m else Err EPanic.
Definition MachineType_from_base_level (i : Z) : res Z :=
  if (0 <=? i) && (i <? MachineType_NUM) then Ok i else Err EPanic.

(** [NetDest::NetDest()] and [resize]. *)
Definition NetDest_resize (d : netdest) : res netdest :=
  n ← MachineType_base_level MachineType_NUM;
  let d' := take (Z.to_nat n) d ++ replicate (Z.to_nat n - length d) (RSet 0 0) in
  _ ← cassert (Z.of_nat (length d') =? MachineType_NUM);
  foldM (fun d i => c ← MachineType_base_count i; vupd d i (fun s => Set_setSize s c))
    (upto (Z.of_nat (length d'))) d'.

Definition NetDest_ctor : res netdest := NetDest_resize [].

Definition vecIndex (d : netdest) (m : machineID) : res Z :=
  vec_index ← MachineType_base_level (mtype m);
  _ ← cassert (vec_index <? Z.of_nat (length d)); Ok vec_index.

Definition bitIndex (index : Z) : Z := index.

Definition NetDest_add (d : netdest) (e : machineID) : res netdest :=
  v ← vecIndex d e;
  s ← vget d v;
  _ ← cassert (bitIndex (mnum e) <? m_nSize s);
  vupd d v (fun s => Set_add s (bitIndex (mnum e))).

Definition NetDest_addNetDest (d o : netdest) : res netdest :=
  _ ← cassert (Z.of_nat (length d) =? Z.of_nat (length o)); map2M Set_addSet d o.

Definition NetDest_setNetDest (d : netdest) (machine : Z) (s : rset) : res netdest :=
  l1 ← MachineType_base_level (machine + 1);
  l0 ← MachineType_base_level machine;
  _ ← cassert (l1 - l0 =? 1);
  vset d l0 s.

Definition NetDest_remove (d : netdest) (e : machineID) : res netdest :=
  v ← vecIndex d e; vupd d v (fun s => Set_remove s (bitIndex (mnum e))).

Definition NetDest_removeNetDest (d o : netdest) : res netdest :=
  _ ← cassert (Z.of_nat (length d) =? Z.of_nat (length o)); map2M Set_removeSet d o.

Definition NetDest_clear (d : netdest) : netdest := map Set_clear d.

Definition NetDest_broadcast_type (d : netdest) (machineType : Z) : res netdest :=
  n ← MachineType_base_count machineType;
  foldM (fun d i => NetDest_add d (MachineID machineType i)) (upto n) d.

Definition NetDest_broadcast (d : netdest) : res netdest :=
  foldM NetDest_broadcast_type (upto MachineType_NUM) d.

(** The two nested loops of [getAllDest]. *)
Definition getAllDest_bit (i : Z) (s : rset) (dest : list Z) (j : Z) : res (list Z) :=
  b ← Set_isElement s j;
  if (b : bool) then base ← MachineType_base_number i; Ok (dest ++ [u32 (base + j)])
  else Ok dest.

Definition getAllDest_set (d : netdest) (dest : list Z) (i : Z) : res (list Z) :=
  s ← vget d i; foldM (getAllDest_bit i s) (upto (m_nSize s)) dest.

Definition NetDest_getAllDest (d : netdest) : res (list Z) :=
  foldM (getAllDest_set d) (upto (Z.of_nat (length d))) [].

Definition NetDest_count (d : netdest) : Z := foldl (fun c s => c + Set_count s) 0 d.

Definition NetDest_elementAt (d : netdest) (index : machineID) : res Z :=
  v ← vecIndex d index; s ← vget d v;
  b ← Set_elementAt s (bitIndex (mnum index)); Ok (if (b : bool) then 1 else 0).

Definition NetDest_smallestElement_type (d : netdest) (machine : Z) : res machineID :=
  l ← MachineType_base_level machine; s ← vget d l;
  r ← foldM_brk (fun _ j => b ← Set_isElement s j; Ok (b, j)) (upto (m_nSize s)) 0;
  if (r.1 : bool) then Ok (MachineID machine r.2) else Err EPanic.

Definition NetDest_smallestElement (d : netdest) : res machineID :=
  _ ← cassert (0 <? NetDest_count d);
  r ← foldM_brk (fun acc i =>
        s ← vget d i;
        r ← foldM_brk (fun _ j => b ← Set_isElement s j; Ok (b, j)) (upto (m_nSize s)) 0;
        if (r.1 : bool) then t ← MachineType_from_base_level i; Ok (true, MachineID t r.2)
        else Ok (false, acc)) (upto (Z.of_nat (length d))) (MachineID 0 0);
  if (r.1 : bool) then Ok r.2 else Err EPanic.

Definition NetDest_isBroadcast (d : netdest) : bool := forallb Set_isBroadcast d.
Definition NetDest_isEmpty (d : netdest) : bool := forallb Set_isEmpty d.

(** [OR] and [AND] fill a fresh [NetDest] index by index. *)
Definition NetDest_combine (f : rset -> rset -> res rset) (d o : netdest) : res netdest :=
  _ ← cassert (Z.of_nat (length d) =? Z.of_nat (length o));
  result ← NetDest_ctor;
  foldM (fun result i =>
    a ← vget d i; b ← vget o i; s ← f a b; vset result i s)
    (upto (Z.of_nat (length d))) result.

Definition NetDest_OR := NetDest_combine Set_OR.
Definition NetDest_AND := NetDest_combine Set_AND.

Definition NetDest_intersectionIsNotEmpty (d o : netdest) : res bool :=
  _ ← cassert (Z.of_nat (length d) =? Z.of_nat (length o));
  r ← all2M (fun a b => Ok (Set_intersectionIsEmpty a b)) d o;
  Ok (negb r).

Definition NetDest_isSuperset (d test : netdest) : res bool :=
  _ ← cassert (Z.of_nat (length d) =? Z.of_nat (length test)); all2M Set_isSuperset d test.

Definition NetDest_isElement (d : netdest) (e : machineID) : res bool :=
  v ← vecIndex d e; s ← vget d v; Set_isElement s (bitIndex (mnum e)).

Definition NetDest_isEqual (d n : netdest) : res bool :=
  _ ← cassert (Z.of_nat (length d) =? Z.of_nat (length n)); all2M Set_isEqual d n.
End NetDest.

(** ** Meaning of a [NetDest]: a set of machine identifiers *)

Definition nd_mem (d : netdest) (e : machineID) : Prop :=
  exists s, vget d (mtype e) = Ok s /\ Z.testbit (bits s) (mnum e) = true.

(** Configurations: every count fits a [Set], node numbers fit a [NodeID]. *)
Definition counts_ok (counts : list Z) : Prop :=
  Forall (fun c => 0 <= c <= NUMBER_BITS_PER_SET) counts /\ foldr Z.add 0 counts < 2 ^ 32.

(** The invariant of a [NetDest]: one set per machine type, of its size. *)
Definition nd_ok (counts : list Z) (d : netdest) : Prop :=
  length d = length counts /\
  forall i s, vget d i = Ok s -> vget counts i = Ok (m_nSize s) /\ set_ok s.

Definition mid_ok (counts : list Z) (e : machineID) : Prop :=
  0 <= mnum e /\ exists c, vget counts (mtype e) = Ok c /\ mnum e < c.

(** Node number of a machine identifier. *)
Definition base_of (counts : list Z) (i : Z) : Z := foldr Z.add 0 (take (Z.to_nat i) counts).
Definition node_of (counts : list Z) (e : machineID) : Z :=
  base_of counts (mtype e) + mnum e.

Lemma set_ok_bits s : set_ok s <->
  0 <= m_nSize s <= NUMBER_BITS_PER_SET /\ 0 <= bits s /\
  forall i, m_nSize s <= i -> Z.testbit (bits s) i = false.
Proof.
  unfold set_ok. split.
  - intros [Hn Hb]. split; [done |]. apply bits_bound; [lia | done].
  - intros (Hn & Hb). split; [done |]. apply bits_bound; [lia | done].
Qed.

Lemma set_bits_lt s i : set_ok s -> Z.testbit (bits s) i = true -> 0 <= i < m_nSize s.
Proof.
  intros (Hn & Hb & Hz)%set_ok_bits Hi. split.
  - destruct (decide (0 <= i)); [done |]. rewrite Z.testbit_neg_r in Hi by lia. done.
  - destruct (decide (m_nSize s <= i)); [| lia]. by rewrite Hz in Hi.
Qed.

Lemma all_bits_testbit i : 0 <= i < NUMBER_BITS_PER_SET -> Z.testbit all_bits i = true.
Proof. intros. apply Z.ones_spec_low. done. Qed.

(** Pointwise combination of two well-formed [NetDest]s. *)
Lemma map2M_spec (f : rset -> rset -> res rset) (g : bool -> bool -> bool) counts d o :
  nd_ok counts d -> nd_ok counts o ->
  (forall a b, set_ok a -> set_ok b -> m_nSize a = m_nSize b ->
    exists c, f a b = Ok c /\ m_nSize c = m_nSize a /\ set_ok c /\
      forall i, Z.testbit (bits c) i = g (Z.testbit (bits a) i) (Z.testbit (bits b) i)) ->
  exists r, map2M f d o = Ok r /\ nd_ok counts r /\
    forall i a b, vget d i = Ok a -> vget o i = Ok b ->
      exists c, vget r i = Ok c /\
        forall j, Z.testbit (bits c) j = g (Z.testbit (bits a) j) (Z.testbit (bits b) j).
Proof.
  intros [Hld Hd] [Hlo Ho] Hf.
  assert (exists r, map2M f d o = Ok r /\ length r = length d /\
    forall n a b, d !! n = Some a -> o !! n = Some b -> exists c, r !! n = Some c /\
      f a b = Ok c) as (r & Hr & Hlen & Hpt).
  { assert (Hsz : forall n a b, d !! n = Some a -> o !! n = Some b ->
      set_ok a /\ set_ok b /\ m_nSize a = m_nSize b).
    { intros n a b Ha Hb.
      destruct (Hd (Z.of_nat n) a) as [Ha1 Ha2]; [by apply vget_nat |].
      destruct (Ho (Z.of_nat n) b) as [Hb1 Hb2]; [by apply vget_nat |].
      split_and!; [done | done | congruence]. }
    assert (Hlen : length d = length o) by lia. clear Hd Ho Hld Hlo.
    revert o Hlen Hsz. induction d as [|a d IH]; intros [|b o] Hlen Hsz; simplify_eq/=.
    - exists []. done.
    - destruct (Hsz O a b) as (? & ? & ?); [done | done |].
      destruct (Hf a b) as (c & Hc & _); [done | done | done |]. rewrite Hc. simpl.
      destruct (IH o) as (r & -> & Hl & Hpt); [lia | intros n; apply (Hsz (S n)) |]. simpl.
      exists (c :: r). split_and!; [done | simpl; lia |].
      intros [|n] a' b' Ha Hb; simplify_eq/=; [eauto |]. by apply Hpt. }
  exists r. split; [done |].
  assert (Hc : forall i c, vget r i = Ok c -> exists a b, vget d i = Ok a /\ vget o i = Ok b /\
    f a b = Ok c /\ set_ok a /\ set_ok b /\ m_nSize a = m_nSize b /\ vget counts i = Ok (m_nSize a)).
  { intros i c Hc. pose proof (vget_range _ _ _ Hc) as Hi.
    destruct (vget_is_ok d i) as [a Ha]; [lia |]. destruct (vget_is_ok o i) as [b Hb]; [lia |].
    exists a, b. destruct (Hd i a Ha) as [Ha1 Ha2], (Ho i b Hb) as [Hb1 Hb2].
    split_and!; try done; [| congruence].
    apply vget_Ok in Ha as [_ Ha], Hb as [_ Hb], Hc as [_ Hc].
    destruct (Hpt _ a b Ha Hb) as (c' & Hc' & Hfc). congruence. }
  split.
  - split; [lia |]. intros i c Hic. destruct (Hc i c Hic) as (a & b & _ & _ & Hfc & Ha & Hb & Hab & Hct).
    destruct (Hf a b Ha Hb Hab) as (c' & Hc' & Hn & Hok & _). simplify_eq.
    rewrite Hfc in Hc'. simplify_eq. by rewrite Hn.
  - intros i a b Ha Hb. pose proof (vget_range _ _ _ Ha).
    destruct (vget_is_ok r i) as [c Hic]; [lia |]. exists c. split; [done |].
    destruct (Hc i c Hic) as (a' & b' & Ha' & Hb' & Hfc & Hoa & Hob & Hab & _).
    rewrite Ha in Ha'. rewrite Hb in Hb'. simplify_eq.
    destruct (Hf a' b' Hoa Hob Hab) as (c' & Hc' & _ & _ & Hbits).
    rewrite Hfc in Hc'. by simplify_eq.
Qed.

Lemma nd_ok_length_eqb counts d o :
  nd_ok counts d -> nd_ok counts o -> (Z.of_nat (length d) =? Z.of_nat (length o)) = true.
Proof. intros [? _] [? _]. lia. Qed.

Lemma nd_mem_pointwise (g : bool -> bool -> bool) counts d o r :
  nd_ok counts d -> nd_ok counts o -> nd_ok counts r ->
  (forall i a b, vget d i = Ok a -> vget o i = Ok b ->
      exists c, vget r i = Ok c /\
        forall j, Z.testbit (bits c) j = g (Z.testbit (bits a) j) (Z.testbit (bits b) j)) ->
  forall e, 0 <= mtype e < MachineType_NUM counts ->
    exists a b, vget d (mtype e) = Ok a /\ vget o (mtype e) = Ok b /\
      (nd_mem d e <-> Z.testbit (bits a) (mnum e) = true) /\
      (nd_mem o e <-> Z.testbit (bits b) (mnum e) = true) /\
      (nd_mem r e <-> g (Z.testbit (bits a) (mnum e)) (Z.testbit (bits b) (mnum e)) = true).
Proof.
  intros [Hld _] [Hlo _] _ Hpt e He. unfold MachineType_NUM in He.
  destruct (vget_is_ok d (mtype e)) as [a Ha]; [lia |].
  destruct (vget_is_ok o (mtype e)) as [b Hb]; [lia |].
  destruct (Hpt _ a b Ha Hb) as (c & Hc & Hbit).
  exists a, b. unfold nd_mem. rewrite Ha, Hb, Hc, <- Hbit.
  split_and!; try done; split; try (intros (? & ? & ?); by simplify_eq); eauto.
Qed.

Lemma nd_mem_type counts d e : nd_ok counts d -> nd_mem d e -> 0 <= mtype e < MachineType_NUM counts.
Proof. intros [Hl _] (s & Hs%vget_range & _). unfold MachineType_NUM. lia. Qed.

(** Membership after a pointwise operation, for all machine identifiers. *)
Lemma nd_mem_op (g : bool -> bool -> bool) counts d o r e :
  g false false = false ->
  nd_ok counts d -> nd_ok counts o -> nd_ok counts r ->
  (forall i a b, vget d i = Ok a -> vget o i = Ok b ->
      exists c, vget r i = Ok c /\
        forall j, Z.testbit (bits c) j = g (Z.testbit (bits a) j) (Z.testbit (bits b) j)) ->
  nd_mem r e <-> exists x y, (x = true <-> nd_mem d e) /\ (y = true <-> nd_mem o e) /\ g x y = true.
Proof.
  intros Hg Hd Ho Hr Hpt. destruct (decide (0 <= mtype e < MachineType_NUM counts)) as [He|He].
  - destruct (nd_mem_pointwise g counts d o r Hd Ho Hr Hpt e He) as (a & b & Ha & Hb & Hma & Hmb & Hmr).
    rewrite Hmr. setoid_rewrite Hma. setoid_rewrite Hmb. split.
    + intros. eexists _, _. split_and!; [reflexivity | reflexivity | done].
    + intros (x & y & Hx & Hy & Hxy).
      apply Bool.eq_iff_eq_true in Hx, Hy. by subst x y.
  - split.
    + intros H. by apply (nd_mem_type counts) in H.
    + intros (x & y & Hx & Hy & Hxy). exfalso. apply He.
      destruct x; [apply (nd_mem_type counts d); naive_solver |].
      destruct y; [apply (nd_mem_type counts o); naive_solver |]. congruence.
Qed.

Lemma set_combine_ok a b z :
  set_ok a -> m_nSize a = m_nSize b -> 0 <= z ->
  (forall i, m_nSize a <= i -> Z.testbit z i = false) ->
  set_ok (RSet (m_nSize a) z).
Proof. intros Ha Hab Hz Hi. apply set_ok_bits. apply set_ok_bits in Ha as (? & _). done. Qed.

Lemma Set_addSet_spec a b :
  set_ok a -> set_ok b -> m_nSize a = m_nSize b ->
  exists c, Set_addSet a b = Ok c /\ m_nSize c = m_nSize a /\ set_ok c /\
    forall i, Z.testbit (bits c) i = Z.testbit (bits a) i || Z.testbit (bits b) i.
Proof.
  intros Ha Hb Hab. unfold Set_addSet. rewrite Hab, Z.eqb_refl. rsimpl. eexists. split; [done |].
  split; [done |]. rewrite <- Hab. split; [| intros; apply Z.lor_spec].
  pose proof Ha as Ha'. apply set_ok_bits in Ha' as (_ & ? & Hza). apply set_ok_bits in Hb as (_ & ? & Hzb).
  apply (set_combine_ok a b); [done | done | by apply Z.lor_nonneg |].
  intros i Hi. rewrite Z.lor_spec, Hza, Hzb by lia. done.
Qed.

Lemma Set_removeSet_spec a b :
  set_ok a -> set_ok b -> m_nSize a = m_nSize b ->
  exists c, Set_removeSet a b = Ok c /\ m_nSize c = m_nSize a /\ set_ok c /\
    forall i, Z.testbit (bits c) i = Z.testbit (bits a) i && negb (Z.testbit (bits b) i).
Proof.
  intros Ha Hb Hab. unfold Set_removeSet. rewrite Hab, Z.eqb_refl. rsimpl. eexists. split; [done |].
  split; [done |]. rewrite <- Hab.
  pose proof Ha as Ha'. apply set_ok_bits in Ha' as (? & ? & Hza).
  assert (Hbit : forall i, Z.testbit (Z.land (bits a) (Z.ldiff all_bits (bits b))) i =
    Z.testbit (bits a) i && negb (Z.testbit (bits b) i)).
  { intros i. rewrite Z.land_spec, Z.ldiff_spec.
    destruct (Z.testbit (bits a) i) eqn:E; [| done]. simpl.
    apply set_bits_lt in E; [| done]. by rewrite all_bits_testbit by lia. }
  split; [| done]. apply (set_combine_ok a b); [done | done | apply Z.land_nonneg; by left |].
  intros i Hi. by rewrite Hbit, Hza.
Qed.

(** The two whole-destination updates of the network interface and of the
    topology, as set operations. *)
Lemma addNetDest_spec counts d o :
  nd_ok counts d -> nd_ok counts o ->
  exists r, NetDest_addNetDest d o = Ok r /\ nd_ok counts r /\
    forall e, nd_mem r e <-> nd_mem d e \/ nd_mem o e.
Proof.
  intros Hd Ho. unfold NetDest_addNetDest. rewrite (nd_ok_length_eqb counts) by done. rsimpl.
  destruct (map2M_spec Set_addSet orb counts d o Hd Ho Set_addSet_spec) as (r & Hr & Hok & Hpt).
  exists r. split_and!; [done | done |]. intros e.
  rewrite (nd_mem_op orb counts d o r e eq_refl Hd Ho Hok Hpt). split.
  - intros ([] & [] & ? & ? & ?); naive_solver.
  - assert (Hdec : forall d', Decision (nd_mem d' e)).
    { intros d'. unfold nd_mem. destruct (vget d' (mtype e)) as [s|] eqn:E.
      - destruct (Z.testbit (bits s) (mnum e)) eqn:Et; [left; eauto |].
        right. intros (s' & ? & ?). simplify_eq. congruence.
      - right. intros (s' & ? & ?). done. }
    intros H. exists (bool_decide (nd_mem d e)), (bool_decide (nd_mem o e)).
    rewrite !bool_decide_eq_true. split_and!; [done | done |].
    apply orb_true_iff. rewrite !bool_decide_eq_true. done.
Qed.

Lemma removeNetDest_spec counts d o :
  nd_ok counts d -> nd_ok counts o ->
  exists r, NetDest_removeNetDest d o = Ok r /\ nd_ok counts r /\
    forall e, nd_mem r e <-> nd_mem d e /\ ~ nd_mem o e.
Proof.
  intros Hd Ho. unfold NetDest_removeNetDest. rewrite (nd_ok_length_eqb counts) by done. rsimpl.
  destruct (map2M_spec Set_removeSet (fun x y => x && negb y) counts d o Hd Ho Set_removeSet_spec)
    as (r & Hr & Hok & Hpt).
  exists r. split_and!; [done | done |]. intros e.
  rewrite (nd_mem_op (fun x y => x && negb y) counts d o r e eq_refl Hd Ho Hok Hpt). split.
  - intros ([] & [] & ? & ? & ?); naive_solver.
  - intros [H1 H2]. exists true, false. split_and!; naive_solver.
Qed.

(** A fresh [NetDest] is well formed and empty. *)
Lemma NetDest_ctor_spec counts :
  counts_ok counts ->
  exists d, NetDest_ctor counts = Ok d /\ nd_ok counts d /\ forall e, ~ nd_mem d e.
Proof.
  intros [Hc _]. unfold NetDest_ctor, NetDest_resize, MachineType_base_level.
  assert (0 <= MachineType_NUM counts) by (unfold MachineType_NUM; lia).
  rewrite (proj2 (Z.leb_le 0 _)), Z.leb_refl by done. cbn [andb]. rsimpl.
  rewrite take_nil, app_nil_l, length_replicate.
  replace (Z.to_nat (MachineType_NUM counts) - length (@nil rset))%nat with (length counts)
    by (unfold MachineType_NUM; simpl; lia).
  fold (MachineType_NUM counts). rewrite Z.eqb_refl. rsimpl.
  destruct (foldM_upto (fun d i => c ← MachineType_base_count counts i;
      vupd d i (fun s => Set_setSize s c))
    (fun k d => length d = length counts /\
      forall i s, vget d i = Ok s -> bits s = 0 /\
        if decide (i < k) then vget counts i = Ok (m_nSize s) else True)
    (MachineType_NUM counts) (replicate (length counts) (RSet 0 0))) as (d & -> & Hlen & Hd).
  - done.
  - split; [apply length_replicate |]. intros i s Hs.
    apply vget_Ok in Hs as [Hi [-> _]%lookup_replicate]. split; [done |].
    by rewrite decide_False by lia.
  - intros i d Hi [Hlen Hd]. unfold MachineType_NUM in Hi.
    destruct (vget_is_ok counts i) as [c Hci]; [lia |].
    unfold MachineType_base_count. rewrite Hci. rsimpl.
    pose proof Hci as [_ Hc2]%vget_Ok. rewrite Forall_lookup in Hc.
    pose proof (Hc _ _ Hc2) as Hcr. cbn beta in Hcr.
    destruct (vget_is_ok d i) as [s Hs]; [lia |].
    unfold vupd. rewrite Hs. rsimpl. unfold Set_setSize.
    rewrite (proj2 (Z.ltb_ge NUMBER_BITS_PER_SET c)) by lia. rsimpl.
    unfold vset. rewrite decide_True by lia. eexists. split; [done |].
    split; [by rewrite length_insert |]. intros j s' Hs'.
    apply vget_Ok in Hs' as [Hj Hs'].
    destruct (decide (i = j)) as [<-|Hne].
    + rewrite list_lookup_insert_eq in Hs' by lia. simplify_eq. split; [done |].
      by rewrite decide_True by lia.
    + rewrite list_lookup_insert_ne in Hs' by lia.
      destruct (Hd j s') as [Hb Hcj]; [by apply vget_Ok |]. split; [done |].
      destruct (decide (j < i + 1)); [| done]. rewrite decide_True in Hcj by lia. done.
  - exists d. split; [done |]. split.
    + split; [done |]. intros i s Hs. destruct (Hd i s Hs) as [Hb Hci].
      pose proof (vget_range _ _ _ Hs). unfold MachineType_NUM in Hci.
      rewrite decide_True in Hci by lia. split; [done |].
      apply vget_Ok in Hci as [_ Hci]. rewrite Forall_lookup in Hc. pose proof (Hc _ _ Hci) as Hcr.
      cbn beta in Hcr. split; [done |]. rewrite Hb. split; [lia |]. apply Z.pow_pos_nonneg; lia.
    + intros e (s & Hs & Ht). destruct (Hd _ _ Hs) as [Hb _]. rewrite Hb, Z.bits_0 in Ht. done.
Qed.

(** [add] of an existing machine adds exactly that machine. *)
Lemma NetDest_add_spec counts d e :
  nd_ok counts d -> mid_ok counts e ->
  exists r, NetDest_add counts d e = Ok r /\ nd_ok counts r /\
    forall x, nd_mem r x <-> x = e \/ nd_mem d x.
Proof.
  intros [Hlen Hd] (Hn0 & c & Hc & Hn). pose proof (vget_range _ _ _ Hc) as Hr.
  unfold NetDest_add, vecIndex, MachineType_base_level.
  replace ((0 <=? mtype e) && (mtype e <=? MachineType_NUM counts)) with true
    by (unfold MachineType_NUM; lia). rsimpl.
  replace (mtype e <? Z.of_nat (length d)) with true by lia. rsimpl.
  destruct (vget_is_ok d (mtype e)) as [s Hs]; [lia |]. rewrite Hs. rsimpl.
  destruct (Hd _ _ Hs) as [Hcs Hsok]. rewrite Hc in Hcs. simplify_eq.
  unfold bitIndex. rewrite (proj2 (Z.ltb_lt _ _)) by done. rsimpl.
  pose proof Hsok as (Hsz & Hb0 & Hbz)%set_ok_bits.
  unfold vupd. rewrite Hs. rsimpl. unfold Set_add, bit_ok.
  replace ((0 <=? mnum e) && (mnum e <? NUMBER_BITS_PER_SET)) with true by lia. rsimpl.
  unfold vset. rewrite decide_True by lia. eexists. split; [done |].
  assert (Hbit : forall i, Z.testbit (Z.setbit (bits s) (mnum e)) i =
    bool_decide (i = mnum e) || Z.testbit (bits s) i).
  { intros i. rewrite Z.setbit_eqb by done. rewrite Z.eqb_sym. f_equal.
    destruct (Z.eqb_spec i (mnum e)); [by rewrite bool_decide_true | by rewrite bool_decide_false]. }
  split.
  - split; [by rewrite length_insert |]. intros i s' Hs'. apply vget_Ok in Hs' as [Hi Hs'].
    destruct (decide (mtype e = i)) as [<-|Hne].
    + rewrite list_lookup_insert_eq in Hs' by lia. simplify_eq. split; [done |].
      apply set_ok_bits. cbn [m_nSize bits]. split_and!; [lia | lia | |].
      * rewrite Z.setbit_spec'. apply Z.lor_nonneg. split; [done | by apply Z.pow_nonneg].
      * intros i Hi2. rewrite Hbit, Hbz by done. by rewrite bool_decide_false by lia.
    + rewrite list_lookup_insert_ne in Hs' by lia. apply Hd. by apply vget_Ok.
  - intros x. unfold nd_mem. destruct (decide (mtype x = mtype e)) as [Ht|Ht].
    + rewrite Ht, Hs. split.
      * intros (s' & [_ Hs']%vget_Ok & Hx). rewrite list_lookup_insert_eq in Hs' by lia.
        simplify_eq. cbn [bits] in Hx. rewrite Hbit in Hx. apply orb_true_iff in Hx as [Hx|Hx].
        -- apply bool_decide_eq_true in Hx. left. destruct x, e; simpl in *; congruence.
        -- right. eauto.
      * intros Hx. eexists. split.
        { apply vget_Ok. split; [lia |]. apply list_lookup_insert_eq. lia. }
        cbn [bits]. rewrite Hbit. destruct Hx as [->|(s' & Hs' & Hx)].
        -- by rewrite bool_decide_true.
        -- simplify_eq. rewrite Hx. apply orb_true_r.
    + assert (vget (<[Z.to_nat (mtype e):=RSet (m_nSize s) (Z.setbit (bits s) (mnum e))]> d) (mtype x)
        = vget d (mtype x)) as ->.
      { unfold vget. case_decide; [| done]. by rewrite list_lookup_insert_ne by lia. }
      split; [by right |]. intros [->|H]; done.
Qed.

(** The routing-table test: two destinations intersect. *)
Lemma intersectionIsNotEmpty_spec counts d o :
  nd_ok counts d -> nd_ok counts o ->
  exists b, NetDest_intersectionIsNotEmpty d o = Ok b /\
    (b = true <-> exists e, nd_mem d e /\ nd_mem o e).
Proof.
  intros Hd Ho. unfold NetDest_intersectionIsNotEmpty.
  rewrite (nd_ok_length_eqb counts) by done. rsimpl.
  assert (exists b, all2M (fun a b => Ok (Set_intersectionIsEmpty a b)) d o = Ok b /\
    (b = false <-> exists n a c, d !! n = Some a /\ o !! n = Some c /\
       Set_intersectionIsEmpty a c = false)) as (b & Hb & Hbspec).
  { destruct Hd as [Hl1 _], Ho as [Hl2 _].
    assert (Hlen : length d = length o) by lia. clear Hl1 Hl2.
    revert o Hlen. induction d as [|a d IH]; intros [|c o] Hlen; simplify_eq/=.
    - exists true. split; [done |]. split; [done |]. intros (n & ? & ? & ? & _). done.
    - destruct (Set_intersectionIsEmpty a c) eqn:E.
      + destruct (IH o) as (b & -> & Hb); [lia |]. exists b. split; [done |]. rewrite Hb. split.
        * intros (n & x & y & ?). exists (S n), x, y. done.
        * intros ([|n] & x & y & Hx & Hy & ?); simplify_eq/=; [congruence | by exists n, x, y].
      + exists false. split; [done |]. split; [| done]. intros _. exists O, a, c. done. }
  rewrite Hb. rsimpl. exists (negb b). split; [done |]. rewrite negb_true_iff, Hbspec.
  split.
  - intros (n & a & c & Ha & Hc & E). unfold Set_intersectionIsEmpty in E. b2p.
    destruct Hd as [_ Hd]. destruct (Hd (Z.of_nat n) a (vget_nat _ _ _ Ha)) as [_ (_ & Hb0 & _)%set_ok_bits].
    assert (0 < Z.land (bits a) (bits c)) as Hpos.
    { assert (0 <= Z.land (bits a) (bits c)) by (apply Z.land_nonneg; by left). lia. }
    pose proof (Z.bit_log2 _ Hpos) as Ht. rewrite Z.land_spec in Ht. b2p.
    exists (MachineID (Z.of_nat n) (Z.log2 (Z.land (bits a) (bits c)))).
    split; [exists a | exists c]; (split; [by apply vget_nat | done]).
  - intros (e & (a & Ha & Hta) & (c & Hc & Htc)).
    apply vget_Ok in Ha as [_ Ha], Hc as [_ Hc]. exists (Z.to_nat (mtype e)), a, c.
    split_and!; [done | done |]. unfold Set_intersectionIsEmpty. apply Z.eqb_neq. intros E.
    assert (Z.testbit (Z.land (bits a) (bits c)) (mnum e) = true) as Ht
      by (rewrite Z.land_spec, Hta, Htc; done).
    rewrite E, Z.bits_0 in Ht. done.
Qed.

(** [AND] is the intersection. *)
Lemma map2M_lookup (f : rset -> rset -> res rset) d o r :
  map2M f d o = Ok r -> length r = length d /\
    forall n a b, d !! n = Some a -> o !! n = Some b -> exists c, r !! n = Some c /\ f a b = Ok c.
Proof.
  revert o r. induction d as [|a d IH]; intros o r H; cbn [map2M] in H.
  - injection H as <-. done.
  - destruct o as [|b o]; [done |]. inv_res. subst r. destruct (IH _ _ E0) as [Hl Hp].
    split; [cbn; lia |]. intros [|n] x y Hx Hy; cbn in *; simplify_eq; eauto.
Qed.

Lemma combine_map2M counts f d o r :
  counts_ok counts -> length d = length counts -> length o = length counts ->
  map2M f d o = Ok r -> NetDest_combine counts f d o = Ok r.
Proof.
  intros Hc Hd Ho Hr. destruct (map2M_lookup _ _ _ _ Hr) as [Hlr Hp]. unfold NetDest_combine.
  rewrite (proj2 (Z.eqb_eq _ _)) by lia. rsimpl.
  destruct (NetDest_ctor_spec counts Hc) as (d0 & -> & [Hl0 _] & _). rsimpl.
  match goal with |- context [foldM ?g _ _] =>
    destruct (foldM_upto g (fun k x => length x = length r /\ forall j, 0 <= j < k -> vget x j = vget r j)
      (Z.of_nat (length d)) d0) as (x & -> & Hlx & Hx) end.
  - lia.
  - split; [lia |]. lia.
  - intros i x Hi [Hlx Hx]. destruct (vget_is_ok d i) as [a Ha]; [lia |]. destruct (vget_is_ok o i) as [b Hb]; [lia |].
    rewrite Ha, Hb. rsimpl. apply vget_Ok in Ha as [_ Ha], Hb as [_ Hb]. destruct (Hp _ _ _ Ha Hb) as (c & Hc' & ->).
    rsimpl. destruct (vset_is_ok x i c) as [x' Hx']; [lia |]. rewrite Hx'. exists x'. split; [done |].
    split; [by rewrite (vset_length _ _ _ _ Hx') |]. intros j Hj. destruct (decide (j = i)) as [->|Hne].
    + rewrite (vset_get_eq _ _ _ _ Hx'). symmetry. apply vget_Ok. split; [lia | done].
    + rewrite (vset_get_ne _ _ _ _ _ Hx') by done. apply Hx. lia.
  - f_equal. apply list_eq. intros n. destruct (decide (n < length r)%nat) as [Hn|Hn].
    + destruct (lookup_lt_is_Some_2 r n Hn) as [c Hcn]. pose proof (vget_nat _ _ _ Hcn) as Hg.
      rewrite <- Hx in Hg by lia. apply vget_Ok in Hg as [_ Hg]. rewrite Nat2Z.id in Hg. congruence.
    + rewrite !lookup_ge_None_2 by lia. done.
Qed.

Lemma Set_AND_spec a b :
  set_ok a -> set_ok b -> m_nSize a = m_nSize b ->
  exists c, Set_AND a b = Ok c /\ m_nSize c = m_nSize a /\ set_ok c /\
    forall i, Z.testbit (bits c) i = Z.testbit (bits a) i && Z.testbit (bits b) i.
Proof.
  intros Ha Hb Hab. unfold Set_AND, Set_ctor. rewrite <- Hab, Z.eqb_refl. rsimpl.
  pose proof Ha as Ha'. apply set_ok_bits in Ha' as (Hn & ? & Hza).
  rewrite (proj2 (Z.ltb_ge _ _)) by lia. rsimpl. eexists. split; [done |]. cbn [m_nSize bits].
  split; [done |]. split; [| intros; apply Z.land_spec].
  apply (set_combine_ok a b); [done | done | apply Z.land_nonneg; by left |].
  intros i Hi. by rewrite Z.land_spec, Hza.
Qed.

Lemma NetDest_AND_spec counts d o :
  counts_ok counts -> nd_ok counts d -> nd_ok counts o ->
  exists r, NetDest_AND counts d o = Ok r /\ nd_ok counts r /\
    forall e, nd_mem r e <-> nd_mem d e /\ nd_mem o e.
Proof.
  intros Hc Hd Ho. destruct (map2M_spec Set_AND andb counts d o Hd Ho Set_AND_spec) as (r & Hr & Hok & Hpt).
  exists r. split_and!; [by apply combine_map2M; [done | apply Hd | apply Ho |] | done |]. intros e.
  rewrite (nd_mem_op andb counts d o r e eq_refl Hd Ho Hok Hpt). split.
  - intros ([] & [] & ? & ? & ?); naive_solver.
  - intros [H1 H2]. exists true, true. split_and!; naive_solver.
Qed.

(** ** The machines of a [NetDest] as a list *)

Definition nd_row (d : netdest) (i : Z) : list machineID :=
  match vget d i with
  | Ok s => MachineID i <$> filter (fun j => Z.testbit (bits s) j = true) (upto NUMBER_BITS_PER_SET)
  | Err _ => []
  end.
Definition nd_list (d : netdest) : list machineID := upto (Z.of_nat (length d)) ≫= nd_row d.

Lemma elem_of_nd_list counts d e : nd_ok counts d -> e ∈ nd_list d <-> nd_mem d e.
Proof.
  intros [Hl Hd]. unfold nd_list, nd_row. rewrite list_elem_of_bind. split.
  - intros (i & He & _). destruct (vget d i) as [s|] eqn:Es; [| by apply not_elem_of_nil in He].
    apply list_elem_of_fmap in He as (j & -> & [Hj _]%list_elem_of_filter). by exists s.
  - intros (s & Hs & Hb). exists (mtype e). rewrite Hs. pose proof (vget_range _ _ _ Hs).
    split; [| by apply elem_of_upto]. apply list_elem_of_fmap. exists (mnum e). split; [by destruct e |].
    apply list_elem_of_filter. split; [done |]. apply elem_of_upto. destruct (Hd _ _ Hs) as [_ Hs2].
    pose proof (set_bits_lt _ _ Hs2 Hb). destruct Hs2. lia.
Qed.

Lemma NoDup_nd_list d : NoDup (nd_list d).
Proof.
  unfold nd_list, nd_row. apply NoDup_bind.
  - intros i j x _ _ Hi Hj. destruct (vget d i), (vget d j); try by apply not_elem_of_nil in Hi || apply not_elem_of_nil in Hj.
    apply list_elem_of_fmap in Hi as (? & -> & _), Hj as (? & ? & _). congruence.
  - intros i _. destruct (vget d i); [| by constructor]. apply (NoDup_fmap_2_strong _).
    + intros x y _ _ [=]. done.
    + apply NoDup_filter, NoDup_seqZ.
  - apply NoDup_seqZ.
Qed.

Lemma length_nd_list d : Z.of_nat (length (nd_list d)) = NetDest_count d.
Proof.
  unfold NetDest_count. enough (forall c, foldl (fun c s => c + Set_count s) c d = c + Z.of_nat (length (nd_list d)))
    as -> by lia.
  induction d as [|s d IH] using rev_ind; intros c; [change (length (nd_list [])) with O; cbn [foldl]; lia |].
  rewrite foldl_app, IH. cbn [foldl]. unfold nd_list. rewrite length_app. cbn [length].
  replace (Z.of_nat (length d + 1)) with (Z.of_nat (length d) + 1) by lia. rewrite upto_succ, bind_app, length_app by lia.
  cbn [mbind list_bind]. rewrite app_nil_r.
  assert (nd_row (d ++ [s]) (Z.of_nat (length d)) =
    MachineID (Z.of_nat (length d)) <$> filter (fun j => Z.testbit (bits s) j = true) (upto NUMBER_BITS_PER_SET)) as ->.
  { unfold nd_row. rewrite (vget_nat _ _ s); [done |]. rewrite lookup_app_r, Nat.sub_diag by lia. done. }
  rewrite length_fmap. unfold Set_count.
  enough (upto (Z.of_nat (length d)) ≫= nd_row (d ++ [s]) = upto (Z.of_nat (length d)) ≫= nd_row d) as -> by lia.
  assert (forall i, i ∈ upto (Z.of_nat (length d)) -> nd_row (d ++ [s]) i = nd_row d i) as Hext.
  { intros i Hi%elem_of_upto. unfold nd_row, vget. case_decide; [| done]. by rewrite lookup_app_l by lia. }
  induction (upto _) as [|x l IHl]; [done |]. cbn [mbind list_bind].
  rewrite Hext by left. f_equal. apply IHl. intros i Hi. apply Hext. by right.
Qed.

Lemma NetDest_count_0 counts d : nd_ok counts d -> NetDest_count d = 0 <-> forall e, ~ nd_mem d e.
Proof.
  intros Hd. rewrite <- length_nd_list. split.
  - intros H e He%(elem_of_nd_list counts); [| done]. destruct (nd_list d); [by apply not_elem_of_nil in He | done].
  - intros H. destruct (nd_list d) as [|e l] eqn:E; [done |]. exfalso. apply (H e).
    apply (elem_of_nd_list counts); [done |]. rewrite E. left.
Qed.

(** ** Node numbers *)

Lemma base_number_ok counts m :
  0 <= m <= MachineType_NUM counts -> MachineType_base_number counts m = Ok (base_of counts m).
Proof.
  intros Hm. unfold MachineType_base_number.
  by replace ((0 <=? m) && (m <=? MachineType_NUM counts))%bool with true by lia.
Qed.

Lemma base_of_succ counts i c :
  vget counts i = Ok c -> base_of counts (i + 1) = base_of counts i + c.
Proof.
  intros [Hi Hc]%vget_Ok. unfold base_of.
  replace (Z.to_nat (i + 1)) with (S (Z.to_nat i)) by lia.
  rewrite (take_S_r _ _ _ Hc), foldr_app. simpl.
  generalize (take (Z.to_nat i) counts). intros l. induction l; simpl; lia.
Qed.

Lemma base_of_bound counts i :
  counts_ok counts -> 0 <= base_of counts i <= foldr Z.add 0 counts.
Proof.
  intros [Hc _]. unfold base_of. generalize (Z.to_nat i). clear i.
  induction Hc as [|c l Hc Hl IH]; intros [|n]; simpl; try lia.
  - clear IH. induction Hl; simpl; lia.
  - specialize (IH n). lia.
Qed.

Lemma base_of_mono counts i j :
  counts_ok counts -> 0 <= i <= j -> j <= MachineType_NUM counts ->
  base_of counts i <= base_of counts j.
Proof.
  intros Hc Hij Hj. assert (exists k, j = i + Z.of_nat k) as [k ->] by (exists (Z.to_nat (j - i)); lia).
  induction k as [|k IH]; [replace (i + Z.of_nat 0) with i by lia; lia |].
  unfold MachineType_NUM in *. etrans; [apply IH; lia |].
  destruct (vget_is_ok counts (i + Z.of_nat k)) as [c Hck]; [lia |].
  replace (i + Z.of_nat (S k)) with (i + Z.of_nat k + 1) by lia.
  rewrite (base_of_succ _ _ c) by done.
  apply vget_Ok in Hck as [_ Hck]. destruct Hc as [Hc _]. rewrite Forall_lookup in Hc.
  specialize (Hc _ _ Hck). simpl in Hc. lia.
Qed.

Lemma mid_ok_node counts e :
  counts_ok counts -> mid_ok counts e ->
  base_of counts (mtype e) <= node_of counts e < base_of counts (mtype e + 1) /\
  in_u32 (node_of counts e).
Proof.
  intros Hc (H0 & c & Hcm & Hlt). unfold node_of.
  rewrite (base_of_succ _ _ _ Hcm). pose proof (base_of_bound counts (mtype e) Hc).
  pose proof (base_of_bound counts (mtype e + 1) Hc) as Hb. rewrite (base_of_succ _ _ _ Hcm) in Hb.
  destruct Hc as [_ Hs]. unfold in_u32. lia.
Qed.

Lemma mid_ok_type counts e : mid_ok counts e -> 0 <= mtype e < MachineType_NUM counts.
Proof. intros (_ & c & Hx%vget_range & _). unfold MachineType_NUM. lia. Qed.

Lemma nd_mem_mid_ok counts d e : nd_ok counts d -> nd_mem d e -> mid_ok counts e.
Proof.
  intros [_ Hd] (s & Hs & Ht). destruct (Hd _ _ Hs) as [Hc Hok].
  pose proof (set_bits_lt _ _ Hok Ht). split; [lia |]. eexists. split; [done |]. lia.
Qed.

(** The state of [getAllDest] when the sets below [i], and the first [j]
    bits of set [i], have been listed. *)
Definition listed (counts : list Z) (d : netdest) (i j : Z) (dest : list Z) : Prop :=
  StronglySorted Z.lt dest /\
  (forall n, n ∈ dest <-> exists e, nd_mem d e /\
     (mtype e < i \/ mtype e = i /\ mnum e < j) /\ n = node_of counts e) /\
  (forall n, n ∈ dest -> n < base_of counts i + j).

Lemma listed_step counts d i j s dest :
  counts_ok counts -> nd_ok counts d -> vget d i = Ok s -> 0 <= j < m_nSize s ->
  listed counts d i j dest ->
  listed counts d i (j + 1)
    (if Z.testbit (bits s) j then dest ++ [node_of counts (MachineID i j)] else dest).
Proof.
  intros Hc Hd Hs Hj (Hsort & Hmem & Hlt).
  assert (forall e, nd_mem d e -> mtype e = i -> mnum e = j -> Z.testbit (bits s) j = true) as Hbit.
  { intros e (s' & Hs' & Ht) <- <-. rewrite Hs in Hs'. by injection Hs' as <-. }
  destruct (Z.testbit (bits s) j) eqn:E.
  - split_and!.
    + apply StronglySorted_append; [done |]. rewrite Forall_forall. intros y Hy. unfold node_of. simpl. by apply Hlt.
    + intros n. rewrite elem_of_app, list_elem_of_singleton, Hmem. split.
      * intros [(e & He & Hij & ->)| ->].
        -- exists e. split_and!; [done | lia | done].
        -- exists (MachineID i j). split_and!; [by exists s | simpl; lia | done].
      * intros (e & He & Hij & ->).
        destruct (decide (mtype e = i /\ mnum e = j)) as [[<- <-]|Hne].
        -- right. by destruct e.
        -- left. exists e. split_and!; [done | lia | done].
    + intros n. rewrite elem_of_app, list_elem_of_singleton.
      intros [Hn%Hlt| ->]; [lia |]. unfold node_of. simpl. lia.
  - split_and!; [done | | intros n Hn%Hlt; lia].
    intros n. rewrite Hmem. split; intros (e & He & Hij & ->); exists e; (split_and!; [done | | done]).
    + lia.
    + destruct (decide (mtype e = i /\ mnum e = j)) as [[? ?]|]; [| lia].
      specialize (Hbit e He). naive_solver.
Qed.

(** Listing one whole set. *)
Lemma getAllDest_set_listed counts d i s dest :
  counts_ok counts -> nd_ok counts d -> vget d i = Ok s -> listed counts d i 0 dest ->
  exists dest', getAllDest_set counts d dest i = Ok dest' /\ listed counts d (i + 1) 0 dest'.
Proof.
  intros Hc Hd Hs Hl. unfold getAllDest_set. rewrite Hs. rsimpl.
  pose proof (vget_range _ _ _ Hs) as Hi.
  pose proof (proj2 Hd _ _ Hs) as [Hcs Hok]. pose proof Hok as [Hsz _].
  assert (0 <= i <= MachineType_NUM counts) as Hin by (unfold MachineType_NUM; destruct Hd; lia).
  destruct (foldM_upto (getAllDest_bit counts i s) (listed counts d i)
    (m_nSize s) dest) as (dest' & Hdest' & Hl'); [lia | exact Hl | |].
  - intros j dest1 Hj Hl1. unfold getAllDest_bit, Set_isElement, bit_ok.
    replace ((0 <=? j) && (j <? NUMBER_BITS_PER_SET)) with true by lia. rsimpl.
    eexists. split; [| by apply (listed_step counts d i j s dest1)].
    destruct (Z.testbit (bits s) j) eqn:Ht; [| done].
    unfold MachineType_base_number. replace ((0 <=? i) && (i <=? MachineType_NUM counts)) with true by lia.
    rsimpl. rewrite u32_id; [done |].
    apply (mid_ok_node counts (MachineID i j)); [done |].
    split; [simpl; lia |]. exists (m_nSize s). simpl. split; [done | lia].
  - exists dest'. split; [exact Hdest' |]. destruct Hl' as (H1 & H2 & H3).
    split_and!; [done | | intros n Hn%H3; rewrite (base_of_succ _ _ _ Hcs); lia].
    intros n. rewrite H2. split; intros (e & He & Hij & ->); exists e; (split_and!; [done | | done]).
    + lia.
    + destruct (decide (mtype e = i)) as [Ei|]; [| pose proof (nd_mem_mid_ok _ _ _ Hd He) as [? _]; lia].
      right. split; [done |]. destruct He as (s' & Hs' & Ht).
      rewrite Ei, Hs in Hs'. injection Hs' as <-. by apply (set_bits_lt s).
Qed.

Lemma getAllDest_listed counts d :
  counts_ok counts -> nd_ok counts d ->
  exists dest, NetDest_getAllDest counts d = Ok dest /\ listed counts d (Z.of_nat (length d)) 0 dest.
Proof.
  intros Hc Hd. apply (foldM_upto (getAllDest_set counts d) (fun i => listed counts d i 0)); [lia | |].
  - split_and!; [constructor | | intros n Hn; by apply not_elem_of_nil in Hn].
    intros n. split; [intros Hn; by apply not_elem_of_nil in Hn |].
    intros (e & He & Hi & _). pose proof (nd_mem_type _ _ _ Hd He).
    pose proof (nd_mem_mid_ok _ _ _ Hd He) as [? _]. lia.
  - intros i dest Hi Hl. destruct (vget_is_ok d i) as [s Hs]; [done |].
    by apply (getAllDest_set_listed counts d i s).
Qed.

Lemma listed_all counts d dest n :
  listed counts d (Z.of_nat (length d)) 0 dest ->
  n ∈ dest <-> exists e, nd_mem d e /\ n = node_of counts e.
Proof.
  intros (_ & H & _). rewrite H. split; intros (e & He & Hij); [naive_solver |].
  exists e. split_and!; [done | | done]. left. destruct He as (s & Hs%vget_range & _). lia.
Qed.

(** [getAllDest] lists the node number of every destination, each
    once and in increasing order, and nothing else: the network interface
    turns a multicast into one packet per destination from this list. *)
Theorem getAllDest_complete (counts : list Z) (d : netdest) :
  counts_ok counts -> nd_ok counts d ->
  exists dest, NetDest_getAllDest counts d = Ok dest /\ StronglySorted Z.lt dest /\
    forall n, n ∈ dest <-> exists e, nd_mem d e /\ n = node_of counts e.
Proof.
  intros Hc Hd. destruct (getAllDest_listed counts d Hc Hd) as (dest & Hdest & Hl).
  exists dest. split_and!; [done | apply Hl |]. intros n. by apply listed_all.
Qed.

(** Two controllers of type 0 and three of type 1; destinations 0-1 and 1-2. *)
Lemma getAllDest_complete_witness :
  let counts := [2; 3] in let d := [RSet 2 2; RSet 3 4] in
  NetDest_getAllDest counts d = Ok [1; 4] /\
  exists dest, NetDest_getAllDest counts d = Ok dest /\ StronglySorted Z.lt dest /\
    forall n, n ∈ dest <-> exists e, nd_mem d e /\ n = node_of counts e.
Proof.
  split; [reflexivity |]. apply getAllDest_complete.
  - split; [repeat constructor; done | done].
  - split; [done |]. intros i s Hs. pose proof (vget_range _ _ _ Hs).
    assert (i = 0 \/ i = 1) as [->| ->] by (simpl in *; lia); simpl in Hs; injection Hs as <-;
      (split; [done | split; done]).
Defined.

(** Distinct machine identifiers have distinct node numbers. *)
Lemma node_of_inj counts e e' :
  counts_ok counts -> mid_ok counts e -> mid_ok counts e' ->
  node_of counts e = node_of counts e' -> e = e'.
Proof.
  intros Hc He He' Heq.
  destruct (mid_ok_node counts e Hc He) as [Hb _], (mid_ok_node counts e' Hc He') as [Hb' _].
  assert (forall x, mid_ok counts x -> 0 <= mtype x < MachineType_NUM counts) as Hr.
  { intros x (_ & c & Hx%vget_range & _). unfold MachineType_NUM. lia. }
  pose proof (Hr _ He). pose proof (Hr _ He').
  assert (mtype e = mtype e') as Ht.
  { destruct (Z.lt_trichotomy (mtype e) (mtype e')) as [Hlt|[->|Hlt]]; [| done |].
    - pose proof (base_of_mono counts (mtype e + 1) (mtype e') Hc). lia.
    - pose proof (base_of_mono counts (mtype e' + 1) (mtype e) Hc). lia. }
  unfold node_of in Heq. rewrite Ht in Heq. destruct e, e'; simpl in *. f_equal; [done | lia].
Qed.

(** The updates and tests of a [NetDest] are the set operations their
    names say, on the set of machine identifiers it denotes, and they keep
    it well formed: [add], [addNetDest], [removeNetDest] and
    [intersectionIsNotEmpty]. *)
Theorem netdest_set_operations (counts : list Z) (d o : netdest) (m : machineID) :
  nd_ok counts d -> nd_ok counts o -> mid_ok counts m ->
  (exists r, NetDest_add counts d m = Ok r /\ nd_ok counts r /\
     forall e, nd_mem r e <-> e = m \/ nd_mem d e) /\
  (exists r, NetDest_addNetDest d o = Ok r /\ nd_ok counts r /\
     forall e, nd_mem r e <-> nd_mem d e \/ nd_mem o e) /\
  (exists r, NetDest_removeNetDest d o = Ok r /\ nd_ok counts r /\
     forall e, nd_mem r e <-> nd_mem d e /\ ~ nd_mem o e) /\
  (exists b, NetDest_intersectionIsNotEmpty d o = Ok b /\
     (b = true <-> exists e, nd_mem d e /\ nd_mem o e)).
Proof.
  intros Hd Ho Hm. split_and!.
  - by apply NetDest_add_spec.
  - by apply addNetDest_spec.
  - by apply removeNetDest_spec.
  - by apply (intersectionIsNotEmpty_spec counts).
Qed.

Lemma netdest_set_operations_witness :
  NetDest_add [2; 3] [RSet 2 2; RSet 3 4] (MachineID 1 0) = Ok [RSet 2 2; RSet 3 5] /\
  exists b, NetDest_intersectionIsNotEmpty [RSet 2 2; RSet 3 4] [RSet 2 1; RSet 3 6] = Ok b /\
     (b = true <-> exists e, nd_mem [RSet 2 2; RSet 3 4] e /\ nd_mem [RSet 2 1; RSet 3 6] e).
Proof.
  split; [reflexivity |].
  assert (Hok : forall x y, 0 <= x < 4 -> 0 <= y < 8 -> nd_ok [2; 3] [RSet 2 x; RSet 3 y]).
  { intros x y Hx Hy. split; [done |]. intros i s Hs. pose proof (vget_range _ _ _ Hs).
    assert (i = 0 \/ i = 1) as [->| ->] by (simpl in *; lia); simpl in Hs; injection Hs as <-;
      (split; [done | split; [done | simpl; lia]]). }
  apply (netdest_set_operations [2; 3] [RSet 2 2; RSet 3 4] [RSet 2 1; RSet 3 6] (MachineID 1 0));
    [apply Hok; lia | apply Hok; lia |].
  split; [done |]. exists 3. done.
Defined.
