(* ===== verification/Topology.v ===== *)
(** * Topology: routing tables from shortest paths

    Models [mem/ruby/network/Topology.{hh,cc}]: the links of the network as
    uni-directional edges between endpoint and router identifiers, the
    all-pairs shortest path computation on their weights, and the
    destination set each link's routing-table entry gets.

    The first [m_nodes] identifiers are the links into the network, the next
    [m_nodes] the links out of it, the rest are routers.  A matrix entry of
    [INFINITE_LATENCY] means "no link".

    The theorems: the [while (change)] loop terminates; the result is the
    minimum weight over all walks; a destination in a link's entry is
    strictly closer behind that link, and every reachable destination is in
    some link's entry, so packets that follow the tables arrive. *)
From S2P Require Import Prelude NetDest.

Definition INFINITE_LATENCY : Z := 10000.

(** ** Data *)

Record BasicLink := {
  link_id : Z;
  m_latency : Z;
  m_bandwidth_factor : Z;
  m_weight : Z
}.

(** The parts of the link parameters the topology reads. *)
Record BasicExtLink := {
  ext_link : BasicLink;
  ext_node : machineID;      (** type and version of the controller *)
  int_node : Z               (** router_id *)
}.

Record BasicIntLink := {
  int_link : BasicLink;
  src_node : Z;
  dst_node : Z;
  src_outport : string;
  dst_inport : string
}.

Record LinkEntry := {
  le_link : BasicLink;
  src_outport_dirn : string;
  dst_inport_dirn : string
}.

Abbreviation LinkMap := (gmap (Z * Z) LinkEntry).

Record Topology := {
  m_nodes : Z;
  m_number_of_switches : Z;
  m_ext_link_vector : list BasicExtLink;
  m_int_link_vector : list BasicIntLink;
  m_link_map : LinkMap
}.

(** The calls the topology makes on the network it sets up. *)
Inductive net_call :=
  | MakeExtInLink (src dest : Z) (link : BasicLink) (entry : netdest)
  | MakeExtOutLink (src dest : Z) (link : BasicLink) (entry : netdest)
  | MakeInternalLink (src dest : Z) (link : BasicLink) (entry : netdest)
      (src_outport_dirn dst_inport_dirn : string).

(** ** Matrices *)
Abbreviation Matrix := (list (list Z)).

Definition mget (m : Matrix) (i j : Z) : res Z := r ← vget m i; vget r j.
Definition mset (m : Matrix) (i j v : Z) : res Matrix := vupd m i (fun r => vset r j v).

(** ** All-pairs shortest paths *)

(** State of the [k] loop: minimum, previous_minimum, intermediate_switch,
    inter_switches. *)
Definition extend_k (current_dist : Matrix) (i j : Z) (st : Z * Z * Z * Matrix) (k : Z)
    : res (Z * Z * Z * Matrix) :=
  let '(minimum, previous_minimum, intermediate_switch, inter_switches) := st in
  dik ← mget current_dist i k;
  dkj ← mget current_dist k j;
  let minimum := Z.min minimum (i32 (dik + dkj)) in
  if negb (previous_minimum =? minimum) then
    a ← mget inter_switches i k;
    b ← mget inter_switches k j;
    inter_switches ← mset inter_switches i j (i32 (i32 (a + b) + 1));
    Ok (minimum, minimum, k, inter_switches)
  else Ok (minimum, minimum, intermediate_switch, inter_switches).

(** State of a pass: change, current_dist, latencies, inter_switches. *)
Abbreviation pass_state := (bool * Matrix * Matrix * Matrix)%type.

Definition extend_cell (nodes i : Z) (st : pass_state) (j : Z) : res pass_state :=
  let '(change, current_dist, latencies, inter_switches) := st in
  d ← mget current_dist i j;
  r ← foldM (extend_k current_dist i j) (upto nodes) (d, d, -1, inter_switches);
  let '(minimum, _, intermediate_switch, inter_switches) := r in
  if negb (d =? minimum) then
    current_dist ← mset current_dist i j minimum;
    _ ← cassert (0 <=? intermediate_switch);
    row ← vget latencies i;
    _ ← cassert (intermediate_switch <? Z.of_nat (length row));
    l1 ← mget latencies i intermediate_switch;
    l2 ← mget latencies intermediate_switch j;
    latencies ← mset latencies i j (i32 (l1 + l2));
    Ok (true, current_dist, latencies, inter_switches)
  else Ok (change, current_dist, latencies, inter_switches).

Definition extend_row (nodes : Z) (st : pass_state) (i : Z) : res pass_state :=
  foldM (extend_cell nodes i) (upto nodes) st.

Definition extend_pass (nodes : Z) (st : pass_state) : res pass_state :=
  foldM (extend_row nodes) (upto nodes) st.

(** The [while (change)] loop; [None] when the fuel ran out. *)
Fixpoint extend_loop (fuel : nat) (current_dist latencies inter_switches : Matrix)
    : res (option (Matrix * Matrix * Matrix)) :=
  match fuel with
  | O => Ok None
  | S fuel =>
      let nodes := Z.of_nat (length current_dist) in
      r ← extend_pass nodes (false, current_dist, latencies, inter_switches);
      let '(change, current_dist, latencies, inter_switches) := r in
      if change : bool then extend_loop fuel current_dist latencies inter_switches
      else Ok (Some (current_dist, latencies, inter_switches))
  end.

Definition msum (m : Matrix) : Z := foldr Z.add 0 (foldr Z.add 0 <$> m).

(** Every pass but the last lowers the sum of the entries, so this many
    passes are enough ([extend_loop_total]). *)
Definition extend_shortest_path (current_dist latencies inter_switches : Matrix)
    : res (option (Matrix * Matrix * Matrix)) :=
  extend_loop (S (Z.to_nat (msum current_dist))) current_dist latencies inter_switches.

Definition shortest_path (weights latencies inter_switches : Matrix)
    : res (option (Matrix * Matrix * Matrix)) :=
  let dist := weights in extend_shortest_path dist latencies inter_switches.

Definition link_is_shortest_path_to_node (src next final : Z) (weights dist : Matrix) : res bool :=
  w ← mget weights src next;
  d ← mget dist next final;
  d0 ← mget dist src final;
  Ok (i32 (w + d) =? d0).

(** The destination set of the link [src -> next]; [d] counts the machines. *)
Definition shortest_path_machine (counts : list Z) (src next : Z) (weights dist : Matrix)
    (max_machines m : Z) (st : netdest * Z) (i : Z) : res (netdest * Z) :=
  let '(result, d) := st in
  b ← link_is_shortest_path_to_node src next (d + max_machines) weights dist;
  result ← (if (b : bool) then NetDest_add counts result (MachineID m i) else Ok result);
  Ok (result, d + 1).

Definition shortest_path_to_node (counts : list Z) (src next : Z) (weights dist : Matrix)
    : res netdest :=
  result ← NetDest_ctor counts;
  max_machines ← MachineType_base_number counts (MachineType_NUM counts);
  r ← foldM (fun st m =>
        n ← MachineType_base_count counts m;
        foldM (shortest_path_machine counts src next weights dist max_machines m) (upto n) st)
      (upto (MachineType_NUM counts)) (result, 0);
  Ok r.1.

(** ** Building the topology *)

Definition addLink (t : Topology) (src dest : Z) (link : BasicLink) (sdir ddir : string)
    : res Topology :=
  _ ← cassert (src <=? m_number_of_switches t + m_nodes t + m_nodes t);
  _ ← cassert (dest <=? m_number_of_switches t + m_nodes t + m_nodes t);
  Ok {| m_nodes := m_nodes t; m_number_of_switches := m_number_of_switches t;
        m_ext_link_vector := m_ext_link_vector t; m_int_link_vector := m_int_link_vector t;
        m_link_map := <[(src, dest) := {| le_link := link; src_outport_dirn := sdir;
                                          dst_inport_dirn := ddir |}]> (m_link_map t) |}.

Definition add_ext_link (counts : list Z) (t : Topology) (l : BasicExtLink) : res Topology :=
  base ← MachineType_base_number counts (mtype (ext_node l));
  let ext_idx1 := base + mnum (ext_node l) in
  let ext_idx2 := ext_idx1 + m_nodes t in
  let int_idx := int_node l + 2 * m_nodes t in
  t ← addLink t ext_idx1 int_idx (ext_link l) "" "";
  addLink t int_idx ext_idx2 (ext_link l) "" "".

(** The internal links are also appended to the vector they came from. *)
Definition add_int_link (t : Topology) (l : BasicIntLink) : res Topology :=
  let t := {| m_nodes := m_nodes t; m_number_of_switches := m_number_of_switches t;
              m_ext_link_vector := m_ext_link_vector t;
              m_int_link_vector := m_int_link_vector t ++ [l]; m_link_map := m_link_map t |} in
  let src := src_node l + 2 * m_nodes t in
  let dst := dst_node l + 2 * m_nodes t in
  addLink t src dst (int_link l) (src_outport l) (dst_inport l).

Definition Topology_ctor (counts : list Z) (num_routers : Z)
    (ext_links : list BasicExtLink) (int_links : list BasicIntLink) : res Topology :=
  nodes ← MachineType_base_number counts (MachineType_NUM counts);
  _ ← cassert (1 <? nodes);
  let t := {| m_nodes := nodes; m_number_of_switches := num_routers;
              m_ext_link_vector := ext_links; m_int_link_vector := int_links;
              m_link_map := ∅ |} in
  t ← foldM (add_ext_link counts) ext_links t;
  foldM add_int_link int_links t.

Definition makeLink (t : Topology) (src dest : Z) (entry : netdest) : res net_call :=
  _ ← cassert ((2 * m_nodes t <=? src) || (2 * m_nodes t <=? dest));
  match m_link_map t !! (src, dest) with
  | None => Err EUninit
  | Some e =>
      if src <? m_nodes t then
        Ok (MakeExtInLink src (dest - 2 * m_nodes t) (le_link e) entry)
      else if dest <? 2 * m_nodes t then
        _ ← cassert (m_nodes t <=? dest);
        let node := dest - m_nodes t in
        Ok (MakeExtOutLink (src - 2 * m_nodes t) node (le_link e) entry)
      else
        _ ← cassert ((2 * m_nodes t <=? src) && (2 * m_nodes t <=? dest));
        Ok (MakeInternalLink (src - 2 * m_nodes t) (dest - 2 * m_nodes t) (le_link e) entry
              (src_outport_dirn e) (dst_inport_dirn e))
  end.

Definition max_switch_id (t : Topology) : Z :=
  foldr (fun kv acc => Z.max acc (Z.max kv.1.1 kv.1.2)) 0 (map_to_list (m_link_map t)).

(** Identity weights zero, the weights of the links, everything else infinite. *)
Definition init_weights (num_switches : Z) : res Matrix :=
  let n := Z.to_nat num_switches in
  foldM (fun w i => mset w i i 0) (upto num_switches) (replicate n (replicate n INFINITE_LATENCY)).

Definition fill_links (t : Topology) (st : Matrix * Matrix) : res (Matrix * Matrix) :=
  foldM (fun st (kv : (Z * Z) * LinkEntry) =>
    let '(component_latencies, topology_weights) := st in
    let '((src, dst), e) := kv in
    component_latencies ← mset component_latencies src dst (i32 (m_latency (le_link e)));
    topology_weights ← mset topology_weights src dst (m_weight (le_link e));
    Ok (component_latencies, topology_weights))
  (map_to_list (m_link_map t)) st.

Definition make_links (counts : list Z) (t : Topology) (weights dist : Matrix) (num_switches : Z)
    : res (list net_call) :=
  foldM (fun calls i =>
    foldM (fun calls j =>
      weight ← mget weights i j;
      if (0 <? weight) && negb (weight =? INFINITE_LATENCY) then
        destination_set ← shortest_path_to_node counts i j weights dist;
        c ← makeLink t i j destination_set;
        Ok (calls ++ [c])
      else Ok calls) (upto num_switches) calls) (upto num_switches) [].

Definition createLinks (counts : list Z) (t : Topology) : res (option (list net_call)) :=
  let num_switches := max_switch_id t + 1 in
  let n := Z.to_nat num_switches in
  topology_weights ← init_weights num_switches;
  let component_latencies := replicate n (replicate n (-1)) in
  let component_inter_switches := replicate n (replicate n 0) in
  r ← fill_links t (component_latencies, topology_weights);
  let '(component_latencies, topology_weights) := r in
  dist ← shortest_path topology_weights component_latencies component_inter_switches;
  match dist with
  | None => Ok None
  | Some (dist, _, _) =>
      Some <$> make_links counts t topology_weights dist num_switches
  end.

(** ** Matrix lemmas *)

Definition shape (n : Z) (m : Matrix) : Prop :=
  Z.of_nat (length m) = n /\ Forall (fun r => Z.of_nat (length r) = n) m.

Definition mval (m : Matrix) (i j : Z) : Z :=
  match mget m i j with Ok v => v | Err _ => 0 end.

Lemma mget_shape n m i j :
  shape n m -> 0 <= i < n -> 0 <= j < n -> mget m i j = Ok (mval m i j).
Proof.
  intros [Hl Hr] Hi Hj. unfold mval, mget.
  destruct (vget_is_ok m i) as [r Hrow]; [lia |]. rewrite Hrow. rsimpl.
  apply vget_Ok in Hrow as [_ Hrow]. rewrite Forall_lookup in Hr. specialize (Hr _ _ Hrow).
  simpl in Hr. destruct (vget_is_ok r j) as [v Hv]; [lia |]. by rewrite Hv.
Qed.

Lemma mset_shape n m i j v :
  shape n m -> 0 <= i < n -> 0 <= j < n ->
  exists m', mset m i j v = Ok m' /\ shape n m' /\
    mval m' i j = v /\
    (forall i' j', (i', j') <> (i, j) -> mval m' i' j' = mval m i' j') /\
    msum m' = msum m - mval m i j + v.
Proof.
  intros Hs Hi Hj. pose proof Hs as [Hl Hr]. unfold mset, vupd.
  destruct (vget_is_ok m i) as [r Hrow]; [lia |]. rewrite Hrow. rsimpl.
  pose proof Hrow as [_ Hrow']%vget_Ok. rewrite Forall_lookup in Hr. pose proof (Hr _ _ Hrow') as Hlr.
  simpl in Hlr.
  assert (Hv1 : vset r j v = Ok (<[Z.to_nat j := v]> r)) by (apply vset_Ok; split; [lia | done]).
  assert (Hv2 : vset m i (<[Z.to_nat j := v]> r) = Ok (<[Z.to_nat i := <[Z.to_nat j := v]> r]> m))
    by (apply vset_Ok; split; [lia | done]).
  rewrite Hv1. rsimpl. rewrite Hv2. eexists. split; [done |].
  split; [| split; [| split]].
  - split; [by rewrite length_insert |]. rewrite Forall_lookup. intros k x Hk.
    destruct (decide (k = Z.to_nat i)) as [->|E].
    + rewrite list_lookup_insert_eq in Hk by lia. injection Hk as <-. by rewrite length_insert.
    + rewrite list_lookup_insert_ne in Hk by done. by eapply Hr.
  - unfold mval, mget. rewrite (vset_get_eq _ _ _ _ Hv2). rsimpl.
    by rewrite (vset_get_eq _ _ _ _ Hv1).
  - intros i' j' Hne. unfold mval, mget. destruct (decide (i' = i)) as [->|E].
    + rewrite (vset_get_eq _ _ _ _ Hv2), Hrow. rsimpl.
      rewrite (vset_get_ne _ _ j' _ _ Hv1) by (intros ->; done). done.
    + by rewrite (vset_get_ne _ _ i' _ _ Hv2) by done.
  - unfold mval, mget. rewrite Hrow. rsimpl.
    assert (Hsum : forall (l : list Z) k y x, l !! k = Some y ->
      foldr Z.add 0 (<[k := x]> l) = foldr Z.add 0 l - y + x).
    { induction l as [|z l IH]; intros [|k] y x Hk; simplify_eq/=; [lia |].
      rewrite (IH k y x Hk). lia. }
    unfold msum. rewrite list_fmap_insert.
    rewrite (Hsum _ _ (foldr Z.add 0 r)) by (by rewrite list_lookup_fmap, Hrow').
    destruct (vget_is_ok r j) as [y Hy]; [lia |]. rewrite Hy. apply vget_Ok in Hy as [_ Hy].
    rewrite (Hsum r _ y v Hy). lia.
Qed.

(** ** Correctness of the shortest path computation *)
Section ShortestPath.
Context (n : Z) (W : Matrix).

(** Walks over the weight matrix, with their total weight. *)
Inductive walk : Z -> Z -> Z -> Prop :=
  | walk_nil i : 0 <= i < n -> walk i i 0
  | walk_cons i k j c :
      0 <= i < n -> 0 <= k < n -> walk k j c -> walk i j (mval W i k + c).

Lemma walk_range i j c : walk i j c -> 0 <= i < n /\ 0 <= j < n.
Proof. induction 1; [done |]. destruct IHwalk. done. Qed.

Lemma walk_app i k j a b : walk i k a -> walk k j b -> walk i j (a + b).
Proof.
  intros H. revert b. induction H as [i Hi | i k' k c Hi Hk H IH]; intros b Hb; [done |].
  replace (mval W i k' + c + b) with (mval W i k' + (c + b)) by lia.
  apply walk_cons; [done | done | by apply IH].
Qed.

Lemma walk_edge i j : 0 <= i < n -> 0 <= j < n -> walk i j (mval W i j).
Proof.
  intros Hi Hj. rewrite <- (Z.add_0_r (mval W i j)).
  apply walk_cons; [done | done | by apply walk_nil].
Qed.

(** Every entry is the weight of a walk, and no more than the direct link;
    two entries added stay in an [int]. *)
Definition dist_ok (cd : Matrix) : Prop :=
  shape n cd /\ forall i j, 0 <= i < n -> 0 <= j < n ->
    (0 <= mval cd i j <= mval W i j /\ mval W i j < 2 ^ 30) /\ walk i j (mval cd i j).

Definition triangle (cd : Matrix) (i j : Z) : Prop :=
  forall k, 0 <= k < n -> mval cd i j <= mval cd i k + mval cd k j.

Lemma extend_k_loop cd i j is0 :
  dist_ok cd -> shape n is0 -> 0 <= i < n -> 0 <= j < n ->
  exists minimum inter is',
    foldM (extend_k cd i j) (upto n) (mval cd i j, mval cd i j, -1, is0) =
      Ok (minimum, minimum, inter, is') /\
    shape n is' /\ 0 <= minimum <= mval cd i j /\ walk i j minimum /\
    (forall k, 0 <= k < n -> minimum <= mval cd i k + mval cd k j) /\
    (minimum = mval cd i j \/ 0 <= inter < n).
Proof.
  intros [Hs Hd] His Hi Hj.
  destruct (foldM_upto (extend_k cd i j)
    (fun k '(minimum, prev, inter, is') =>
      prev = minimum /\ shape n is' /\ 0 <= minimum <= mval cd i j /\ walk i j minimum /\
      (forall k', 0 <= k' < k -> minimum <= mval cd i k' + mval cd k' j) /\
      (minimum = mval cd i j \/ 0 <= inter < n))
    n (mval cd i j, mval cd i j, -1, is0)) as ([[[m p] inter] is'] & Hf & HP).
  - lia.
  - destruct (Hd i j Hi Hj) as [? ?]. split_and!; try done; try lia.
  - intros k [[[m p] inter] is1] Hk (-> & His1 & Hm & Hw & Hall & Hint).
    unfold extend_k. rewrite !(mget_shape n) by done. rsimpl.
    destruct (Hd i k Hi Hk) as [Hik Hwik], (Hd k j Hk Hj) as [Hkj Hwkj].
    pose proof (walk_app _ _ _ _ _ Hwik Hwkj) as Hwk.
    rewrite (i32_id (mval cd i k + mval cd k j)) by (unfold in_i32; lia).
    destruct (m =? Z.min m _) eqn:E; b2p; rsimpl; cbn [negb].
    + eexists. split; [done |]. cbn beta iota. rewrite <- E.
      split_and!; try done; try lia. intros k' Hk'.
      destruct (decide (k' = k)) as [->|]; [lia | apply Hall; lia].
    + destruct (mset_shape n is1 i j (i32 (i32 (mval is1 i k + mval is1 k j) + 1))) as (is2 & -> & His2 & _);
        [done | done | done |]. rsimpl.
      assert (Z.min m (mval cd i k + mval cd k j) = mval cd i k + mval cd k j) as -> by lia.
      eexists. split; [done |]. cbn beta iota. split_and!; try done; try lia.
      intros k' Hk'. destruct (decide (k' = k)) as [->|]; [lia |].
      specialize (Hall k'). lia.
  - exists m, inter, is'. destruct HP as (-> & HP). split; [exact Hf | exact HP].
Qed.

Lemma extend_cell_spec i j ch cd lat is0 :
  dist_ok cd -> shape n lat -> shape n is0 -> 0 <= i < n -> 0 <= j < n ->
  exists ch' cd' lat' is',
    extend_cell n i (ch, cd, lat, is0) j = Ok (ch', cd', lat', is') /\
    dist_ok cd' /\ shape n lat' /\ shape n is' /\
    ((ch' = ch /\ cd' = cd /\ triangle cd i j) \/ (ch' = true /\ msum cd' < msum cd)).
Proof.
  intros Hcd Hlat His Hi Hj. pose proof Hcd as [Hs Hd].
  destruct (extend_k_loop cd i j is0 Hcd His Hi Hj) as (m & inter & is' & Hf & His' & Hm & Hw & Hall & Hint).
  unfold extend_cell. rewrite (mget_shape n) by done. rsimpl. rewrite Hf. rsimpl.
  destruct (mval cd i j =? m) eqn:E; b2p; cbn [negb].
  - do 4 eexists. split; [done |]. split_and!; try done. left. split_and!; try done.
    intros k Hk. rewrite E. by apply Hall.
  - destruct Hint as [->|Hint]; [done |].
    destruct (mset_shape n cd i j m Hs Hi Hj) as (cd' & -> & Hs' & Hv & Hne & Hsum). rsimpl.
    rewrite (proj2 (Z.leb_le 0 inter)) by lia. rsimpl.
    destruct (vget_is_ok lat i) as [row Hrow]; [destruct Hlat; lia |]. rewrite Hrow. rsimpl.
    assert (Z.of_nat (length row) = n) as ->.
    { destruct Hlat as [_ Hr]. rewrite Forall_lookup in Hr. apply vget_Ok in Hrow as [_ Hrow].
      by apply (Hr _ _ Hrow). }
    rewrite (proj2 (Z.ltb_lt inter n)) by lia. rsimpl.
    rewrite !(mget_shape n) by done. rsimpl.
    destruct (mset_shape n lat i j (i32 (mval lat i inter + mval lat inter j)) Hlat Hi Hj)
      as (lat' & -> & Hlat' & _). rsimpl.
    do 4 eexists. split; [done |]. split_and!; try done.
    + split; [done |]. intros i' j' Hi' Hj'. destruct (decide ((i', j') = (i, j))) as [[= -> ->]|Hn].
      * rewrite Hv. specialize (Hd i j Hi Hj). split; [lia | done].
      * rewrite Hne by done. by apply Hd.
    + right. split; [done | lia].
Qed.

(** What a pass that started from [cd0] has established so far; [done] are
    the cells it has visited. *)
Definition pass_inv (cd0 : Matrix) (visited : Z -> Z -> Prop) (st : pass_state) : Prop :=
  let '(ch, cd, lat, is0) := st in
  dist_ok cd /\ shape n lat /\ shape n is0 /\
  if ch : bool then msum cd < msum cd0
  else cd = cd0 /\ forall i j, visited i j -> triangle cd0 i j.

Lemma extend_pass_spec cd0 lat is0 :
  dist_ok cd0 -> shape n lat -> shape n is0 ->
  exists st, extend_pass n (false, cd0, lat, is0) = Ok st /\
    pass_inv cd0 (fun i j => 0 <= i < n /\ 0 <= j < n) st.
Proof.
  intros Hcd Hlat His. unfold extend_pass.
  assert (0 <= n) by (destruct Hcd as [[? _] _]; lia).
  destruct (foldM_upto (extend_row n)
    (fun i => pass_inv cd0 (fun i' j' => 0 <= i' < i /\ 0 <= j' < n)) n (false, cd0, lat, is0))
    as (st & Hst & HP); [done | | | by exists st].
  - split_and!; try done. intros i j [? ?]. lia.
  - intros i st Hi HP. unfold extend_row.
    destruct (foldM_upto (extend_cell n i)
      (fun j => pass_inv cd0 (fun i' j' => (0 <= i' < i /\ 0 <= j' < n) \/ (i' = i /\ 0 <= j' < j)))
      n st) as (st' & Hst' & HP'); [done | | |].
    + destruct st as [[[ch cd] lat1] is1]. destruct HP as (? & ? & ? & HP). split_and!; try done.
      destruct ch; [done |]. destruct HP as [-> HP]. split; [done |].
      intros i' j' [Hij|Hij]; [by apply HP | lia].
    + intros j [[[ch cd] lat1] is1] Hj (Hcd1 & Hlat1 & His1 & Hch).
      destruct (extend_cell_spec i j ch cd lat1 is1 Hcd1 Hlat1 His1 Hi Hj)
        as (ch' & cd' & lat' & is' & Hf & ? & ? & ? & Hcase).
      exists (ch', cd', lat', is'). split; [done |]. split_and!; try done.
      destruct Hcase as [(-> & -> & Htri)|[-> Hsum]].
      * destruct ch; [done |]. destruct Hch as [-> Hvis]. split; [done |].
        intros i' j' Hij. destruct (decide (i' = i /\ j' = j)) as [[-> ->]|Hn]; [done |].
        apply Hvis. lia.
      * destruct ch; [lia |]. destruct Hch as [-> _]. done.
    + exists st'. split; [done |]. destruct st' as [[[ch cd] lat1] is1].
      destruct HP' as (? & ? & ? & HP'). split_and!; try done.
      destruct ch; [done |]. destruct HP' as [-> HP']. split; [done |].
      intros i' j' Hij. apply HP'. lia.
Qed.

Lemma msum_nonneg cd : dist_ok cd -> 0 <= msum cd.
Proof.
  intros [[Hl Hr] Hd]. unfold msum.
  assert (Forall (fun r => 0 <= foldr Z.add 0 r) cd) as HF.
  { rewrite Forall_lookup. intros k r Hk. rewrite Forall_lookup in Hr.
    pose proof (Hr _ _ Hk) as Hlen. simpl in Hlen.
    assert (Forall (fun v => 0 <= v) r) as Hrow.
    { rewrite Forall_lookup. intros q v Hq.
      pose proof (lookup_lt_Some _ _ _ Hk). pose proof (lookup_lt_Some _ _ _ Hq).
      destruct (Hd (Z.of_nat k) (Z.of_nat q)) as [[[Hnn _] _] _]; [lia | lia |].
      unfold mval, mget in Hnn. rewrite (vget_nat _ _ _ Hk) in Hnn. rsimpl in *.
      by rewrite (vget_nat _ _ _ Hq) in Hnn. }
    clear -Hrow. induction Hrow; simpl; lia. }
  clear -HF. induction HF; csimpl; lia.
Qed.

Lemma extend_loop_total fuel cd lat is0 :
  dist_ok cd -> shape n lat -> shape n is0 -> msum cd < Z.of_nat fuel ->
  exists cd' lat' is', extend_loop fuel cd lat is0 = Ok (Some (cd', lat', is')) /\
    dist_ok cd' /\ forall i j, 0 <= i < n -> 0 <= j < n -> triangle cd' i j.
Proof.
  revert cd lat is0. induction fuel as [|f IH]; intros cd lat is0 Hcd Hlat His Hf.
  - pose proof (msum_nonneg cd Hcd). lia.
  - cbn [extend_loop]. replace (Z.of_nat (length cd)) with n by (destruct Hcd as [[? _] _]; lia).
    destruct (extend_pass_spec cd lat is0 Hcd Hlat His) as ([[[ch cd'] lat'] is'] & -> & HP). rsimpl.
    destruct HP as (? & ? & ? & HP). destruct ch.
    + apply IH; try done. lia.
    + destruct HP as [-> HP]. do 3 eexists. split; [done |]. split; [done |].
      intros i j Hi Hj. by apply HP.
Qed.
End ShortestPath.

(** What the topology's weight matrix satisfies: square, no cost to stay, no
    free or negative link, and no weight of half the range of [int] or more
    (the largest the topology builds is INFINITE_LATENCY). *)
Definition weights_ok (n : Z) (W : Matrix) : Prop :=
  shape n W /\ (forall i, 0 <= i < n -> mval W i i = 0) /\
  (forall i j, 0 <= i < n -> 0 <= j < n -> i <> j -> 0 < mval W i j < 2 ^ 30).

Lemma weights_dist_ok n W : weights_ok n W -> dist_ok n W W.
Proof.
  intros (Hs & H0 & Hpos). split; [done |]. intros i j Hi Hj. split; [| by apply walk_edge].
  destruct (decide (i = j)) as [->|]; [rewrite H0 by done; lia |].
  specialize (Hpos i j Hi Hj). lia.
Qed.

(** [dist] is the exact minimum over all walks. *)
Definition is_shortest (n : Z) (W dist : Matrix) : Prop :=
  shape n dist /\ forall i j, 0 <= i < n -> 0 <= j < n ->
    walk n W i j (mval dist i j) /\ forall c, walk n W i j c -> mval dist i j <= c.

Lemma triangle_shortest n W cd :
  weights_ok n W -> dist_ok n W cd ->
  (forall i j, 0 <= i < n -> 0 <= j < n -> triangle n cd i j) -> is_shortest n W cd.
Proof.
  intros (Hs & H0 & _) [Hcs Hd] Htri. split; [done |]. intros i j Hi Hj.
  split; [by apply Hd |]. intros c Hw. induction Hw as [i Hi' | i k j c Hi' Hk Hw IH].
  - destruct (Hd i i Hi' Hi') as [[[_ H] _] _]. rewrite H0 in H by done. done.
  - pose proof (walk_range _ _ _ _ _ Hw) as [_ Hj']. specialize (IH Hk Hj').
    pose proof (Htri i j Hi' Hj' k Hk). destruct (Hd i k Hi' Hk) as [[[_ ?] _] _]. lia.
Qed.

(** C26.  With link weights from 1 to below 2^30 (the sums are [int] sums)
    the shortest-path loop terminates without a failed assertion, and its
    result is, for every pair of switches, exactly the minimum weight
    over all walks between them. *)
Theorem shortest_path_correct (n : Z) (W lat inter : Matrix) :
  weights_ok n W -> shape n lat -> shape n inter ->
  exists dist lat' inter',
    shortest_path W lat inter = Ok (Some (dist, lat', inter')) /\ is_shortest n W dist.
Proof.
  intros HW Hlat Hint. unfold shortest_path, extend_shortest_path.
  pose proof (weights_dist_ok n W HW) as Hd. pose proof (msum_nonneg n W W Hd).
  destruct (extend_loop_total n W (S (Z.to_nat (msum W))) W lat inter Hd Hlat Hint)
    as (dist & lat' & int' & Hr & Hd' & Htri); [lia |].
  exists dist, lat', int'. split; [done |]. by apply triangle_shortest.
Qed.

(** Three switches in a line, weights 1 and 2. *)
Definition line3 : Matrix := [[0; 1; 10000]; [1; 0; 2]; [10000; 2; 0]].

Lemma cases3 i : 0 <= i < 3 -> i = 0 \/ i = 1 \/ i = 2.
Proof. lia. Qed.

Lemma weights_ok_line3 : weights_ok 3 line3.
Proof.
  split; [split; [done | repeat constructor] |]. split.
  - intros i [->|[->| ->]]%cases3; done.
  - intros i j [->|[->| ->]]%cases3 [->|[->| ->]]%cases3 Hne; done.
Qed.

Definition dist3 : Matrix := [[0; 1; 3]; [1; 0; 2]; [3; 2; 0]].

Lemma is_shortest_line3 : is_shortest 3 line3 dist3.
Proof.
  apply triangle_shortest; [apply weights_ok_line3 | |].
  - split; [split; [done | repeat constructor] |].
    pose proof (walk_edge 3 line3) as He.
    intros i j [->|[->| ->]]%cases3 [->|[->| ->]]%cases3;
      (split; [vm_compute; done |]); try (apply He; lia).
    + apply (walk_cons 3 line3 0 1 2 2); [lia | lia | apply (He 1 2); lia].
    + apply (walk_cons 3 line3 2 1 0 1); [lia | lia | apply (He 1 0); lia].
  - intros i j [->|[->| ->]]%cases3 [->|[->| ->]]%cases3 k [->|[->| ->]]%cases3; done.
Qed.

Lemma shortest_path_correct_witness :
  exists dist lat' inter',
    shortest_path line3 [[-1; 1; -1]; [1; -1; 1]; [-1; 1; -1]] (replicate 3 (replicate 3 0)) =
      Ok (Some (dist, lat', inter')) /\ is_shortest 3 line3 dist.
Proof.
  apply (shortest_path_correct 3 line3); [apply weights_ok_line3 | |];
    (split; [done | repeat constructor]).
Defined.

(** The next hop on a cheapest walk. *)
Lemma shortest_first_edge n W dist i j :
  weights_ok n W -> is_shortest n W dist -> 0 <= i < n -> 0 <= j < n -> i <> j ->
  exists k, 0 <= k < n /\ i <> k /\ mval dist i j = mval W i k + mval dist k j.
Proof.
  intros (Hs & H0 & Hpos) [_ Hd] Hi Hj Hij. destruct (Hd i j Hi Hj) as [Hw Hmin].
  assert (forall c, walk n W i j c -> c = mval dist i j ->
    exists k, 0 <= k < n /\ i <> k /\ mval dist i j = mval W i k + mval dist k j) as Haux.
  { clear Hw. intros c Hw. induction Hw as [i Hi' | i k j c Hi' Hk Hw IH]; intros Hc; [done |].
    destruct (decide (i = k)) as [<-|Hik].
    - rewrite H0 in Hc by done. by apply IH.
    - exists k. destruct (Hd k j Hk Hj) as [Hwk Hmk].
      pose proof (Hmk c Hw). pose proof (Hmin _ (walk_cons n W i k j _ Hi' Hk Hwk)).
      split_and!; try done; lia. }
  by eapply Haux.
Qed.

Lemma walk_nonneg_ok n W i j c : weights_ok n W -> walk n W i j c -> 0 <= c.
Proof.
  intros (_ & H0 & Hpos). induction 1 as [|i k j c Hi Hk Hw IH]; [lia |].
  destruct (decide (i = k)) as [->|]; [rewrite H0 by done; lia |]. specialize (Hpos i k Hi Hk). lia.
Qed.

Lemma weight_bound n W i j : weights_ok n W -> 0 <= i < n -> 0 <= j < n -> 0 <= mval W i j < 2 ^ 30.
Proof.
  intros (_ & H0 & Hpos) Hi Hj. destruct (decide (i = j)) as [->|Hij]; [rewrite H0 by done; lia |].
  specialize (Hpos i j Hi Hj Hij). lia.
Qed.

(** The sum [link_is_shortest_path_to_node] compares is in the range of [int]. *)
Lemma shortest_sum_i32 n W dist i k j :
  weights_ok n W -> is_shortest n W dist -> 0 <= i < n -> 0 <= k < n -> 0 <= j < n ->
  i32 (mval W i k + mval dist k j) = mval W i k + mval dist k j.
Proof.
  intros HW [_ HD] Hi Hk Hj. destruct (HD k j Hk Hj) as [Hw Hmin].
  pose proof (walk_nonneg_ok _ _ _ _ _ HW Hw). pose proof (Hmin _ (walk_edge n W k j Hk Hj)).
  pose proof (weight_bound n W i k HW Hi Hk). pose proof (weight_bound n W k j HW Hk Hj).
  apply i32_id. unfold in_i32. lia.
Qed.

(** Packets that follow the routing tables make progress and arrive:
    for any switch [src] and any other destination [final] that is reachable,
    some real link of [src] has [final] in its entry, and behind every link
    that has it the remaining distance is smaller by that link's weight. *)
Theorem routing_progress (n : Z) (W dist : Matrix) (src final : Z) :
  weights_ok n W -> is_shortest n W dist ->
  0 <= src < n -> 0 <= final < n -> src <> final ->
  mval dist src final < INFINITE_LATENCY ->
  (exists next, 0 <= next < n /\ 0 < mval W src next < INFINITE_LATENCY /\
     link_is_shortest_path_to_node src next final W dist = Ok true) /\
  (forall next, 0 <= next < n -> next <> src ->
     link_is_shortest_path_to_node src next final W dist = Ok true ->
     mval dist next final = mval dist src final - mval W src next /\
     0 <= mval dist next final < mval dist src final).
Proof.
  intros HW Hd Hs Hf Hne Hreach. pose proof HW as (HWs & H0 & Hpos). pose proof Hd as [Hds Hdist].
  assert (Hnn : forall k, 0 <= k < n -> 0 <= mval dist k final).
  { intros k Hk. destruct (Hdist k final Hk Hf) as [Hw _]. by apply (walk_nonneg_ok n W) in Hw. }
  assert (Hint32 : forall k, 0 <= k < n -> i32 (mval W src k + mval dist k final) = mval W src k + mval dist k final).
  { intros k Hk. by apply (shortest_sum_i32 n W dist). }
  split.
  - destruct (shortest_first_edge n W dist src final HW Hd Hs Hf Hne) as (k & Hk & Hik & Heq).
    exists k. specialize (Hnn k Hk). pose proof (Hpos src k Hs Hk Hik).
    split_and!; [lia.. |]. unfold link_is_shortest_path_to_node.
    rewrite !(mget_shape n) by done. rsimpl. rewrite Hint32 by done. by rewrite (proj2 (Z.eqb_eq _ _)).
  - intros k Hk Hks Hl. unfold link_is_shortest_path_to_node in Hl.
    rewrite !(mget_shape n) in Hl by done. injection Hl as Hl. rewrite Hint32 in Hl by done. b2p.
    specialize (Hnn k Hk). pose proof (Hpos src k Hs Hk). lia.
Qed.

Lemma routing_progress_witness :
  (exists next, 0 <= next < 3 /\ 0 < mval line3 0 next < INFINITE_LATENCY /\
     link_is_shortest_path_to_node 0 next 2 line3 dist3 = Ok true) /\
  (forall next, 0 <= next < 3 -> next <> 0 ->
     link_is_shortest_path_to_node 0 next 2 line3 dist3 = Ok true ->
     mval dist3 next 2 = mval dist3 0 2 - mval line3 0 next /\
     0 <= mval dist3 next 2 < mval dist3 0 2).
Proof.
  apply (routing_progress 3 line3 dist3 0 2);
    [apply weights_ok_line3 | apply is_shortest_line3 | lia | lia | lia | done].
Defined.
