(* ===== verification/RoutingTables.v ===== *)
(** * The routing tables the topology computes

    Proves [Topology::createLinks] correct: it runs to its end on every sensible
    topology, makes one call on the network per link, and the destination set
    it gives with a link is exactly the set of machines to which that link
    begins a path of least weight. *)
From S2P Require Import Prelude NetDest Topology.

(** ** Sensible topologies

    [m] external nodes, [2m] switch numbers for their two directions, routers
    from [2m] on.  Links run from a node to a router, from a router to a node,
    or between two different routers, with a weight below the code's infinity;
    every router number is below [number_of_switches]. *)
Definition link_shape (m s d : Z) : Prop :=
  (0 <= s < m /\ 2 * m <= d) \/ (2 * m <= s /\ m <= d < 2 * m) \/ (2 * m <= s /\ 2 * m <= d /\ s <> d).

Record topo_ok (counts : list Z) (t : Topology) : Prop := {
  tk_counts : counts_ok counts;
  tk_nodes : m_nodes t = base_of counts (MachineType_NUM counts);
  tk_pos : 0 < m_nodes t;
  tk_nonempty : m_link_map t <> ∅;
  tk_links : forall s d e, m_link_map t !! (s, d) = Some e ->
    link_shape (m_nodes t) s d /\ s < 2 * m_nodes t + m_number_of_switches t /\
    d < 2 * m_nodes t + m_number_of_switches t /\ 0 < m_weight (le_link e) < INFINITE_LATENCY
}.

Definition num_switches (t : Topology) : Z := max_switch_id t + 1.

Lemma max_switch_bound t s d e :
  m_link_map t !! (s, d) = Some e -> s <= max_switch_id t /\ d <= max_switch_id t.
Proof.
  intros H%elem_of_map_to_list. unfold max_switch_id.
  induction (map_to_list (m_link_map t)) as [|[[s' d'] e'] l IH]; [by apply not_elem_of_nil in H |].
  cbn [foldr fst snd]. apply elem_of_cons in H as [[= <- <- <-]|H]; [lia |]. specialize (IH H). lia.
Qed.

Lemma topo_range counts t s d e :
  topo_ok counts t -> m_link_map t !! (s, d) = Some e ->
  0 <= s < num_switches t /\ 0 <= d < num_switches t /\ s <> d /\ 2 * m_nodes t < num_switches t.
Proof.
  intros Hok He. destruct (tk_links _ _ Hok s d e He) as (Hs & _). pose proof (tk_pos _ _ Hok).
  destruct (max_switch_bound t s d e He). unfold num_switches. unfold link_shape in Hs. lia.
Qed.

Lemma topo_switches counts t : topo_ok counts t -> 2 * m_nodes t < num_switches t.
Proof.
  intros Hok. destruct (map_choose _ (tk_nonempty _ _ Hok)) as ([s d] & e & He).
  by destruct (topo_range counts t s d e Hok He) as (_ & _ & _ & H).
Qed.

(** ** The weight matrix *)

(** Weight of the step from [i] to [j]. *)
Definition link_weight (t : Topology) (i j : Z) : Z :=
  match m_link_map t !! (i, j) with
  | Some e => m_weight (le_link e)
  | None => if decide (i = j) then 0 else INFINITE_LATENCY
  end.

Lemma shape_replicate n v : 0 <= n -> shape n (replicate (Z.to_nat n) (replicate (Z.to_nat n) v)).
Proof.
  intros Hn. split; [rewrite length_replicate; lia |]. rewrite Forall_forall. intros r Hr.
  apply elem_of_replicate in Hr as [-> _]. rewrite length_replicate. lia.
Qed.

Lemma mval_replicate n v i j :
  0 <= i < n -> 0 <= j < n -> mval (replicate (Z.to_nat n) (replicate (Z.to_nat n) v)) i j = v.
Proof.
  intros Hi Hj. unfold mval, mget.
  rewrite (proj2 (vget_Ok _ i (replicate (Z.to_nat n) v))) by (rewrite lookup_replicate; split_and!; [lia | done | lia]).
  rsimpl. rewrite (proj2 (vget_Ok _ j v)) by (rewrite lookup_replicate; split_and!; [lia | done | lia]). done.
Qed.

Lemma init_weights_ok n :
  0 <= n -> exists W, init_weights n = Ok W /\ shape n W /\
    forall i j, 0 <= i < n -> 0 <= j < n -> mval W i j = if decide (i = j) then 0 else INFINITE_LATENCY.
Proof.
  intros Hn. unfold init_weights.
  destruct (foldM_upto (fun w i => mset w i i 0)
    (fun k W => shape n W /\ forall i j, 0 <= i < n -> 0 <= j < n ->
       mval W i j = if decide (i = j /\ i < k) then 0 else INFINITE_LATENCY)
    n (replicate (Z.to_nat n) (replicate (Z.to_nat n) INFINITE_LATENCY))) as (W & -> & Hs & HW); [done | | |].
  - split; [by apply shape_replicate |]. intros i j Hi Hj. rewrite mval_replicate by done.
    by rewrite decide_False by lia.
  - intros k W Hk [Hs HW]. destruct (mset_shape n W k k 0 Hs Hk Hk) as (W' & -> & Hs' & Hkk & Hne & _).
    eexists. split; [done |]. split; [done |]. intros i j Hi Hj.
    destruct (decide ((i, j) = (k, k))) as [[= -> ->]|Hij].
    + rewrite Hkk. by rewrite decide_True by lia.
    + rewrite Hne, HW by done. apply decide_ext. split; [lia |]. intros [-> Hik]. split; [done |].
      destruct (decide (j = k)) as [->|]; [done | lia].
  - exists W. split; [done |]. split; [done |]. intros i j Hi Hj. rewrite HW by done.
    apply decide_ext. lia.
Qed.

Lemma fill_list_ok n l : forall lat W,
  shape n lat -> shape n W -> NoDup l.*1 ->
  (forall k e, (k, e) ∈ l -> 0 <= k.1 < n /\ 0 <= k.2 < n) ->
  exists lat' W', foldM (fun st (kv : (Z * Z) * LinkEntry) =>
      let '(component_latencies, topology_weights) := st in
      let '((src, dst), e) := kv in
      component_latencies ← mset component_latencies src dst (i32 (m_latency (le_link e)));
      topology_weights ← mset topology_weights src dst (m_weight (le_link e));
      Ok (component_latencies, topology_weights)) l (lat, W) = Ok (lat', W') /\
    shape n lat' /\ shape n W' /\
    forall i j, mval W' i j = match (list_to_map l : gmap (Z * Z) LinkEntry) !! (i, j) with
                              | Some e => m_weight (le_link e) | None => mval W i j end.
Proof.
  induction l as [|[[s d] e] l IH]; intros lat W Hlat HW Hnd Hr; cbn [foldM].
  - exists lat, W. split_and!; done.
  - apply NoDup_cons in Hnd as [Hnin Hnd]. destruct (Hr (s, d) e) as [Hs Hd]; [left |]. cbn [fst snd] in *.
    destruct (mset_shape n lat s d (i32 (m_latency (le_link e))) Hlat Hs Hd) as (lat1 & -> & Hlat1 & _). rsimpl.
    destruct (mset_shape n W s d (m_weight (le_link e)) HW Hs Hd) as (W1 & -> & HW1 & Hsd & Hne & _). rsimpl.
    destruct (IH lat1 W1 Hlat1 HW1 Hnd) as (lat' & W' & -> & Hl' & HW' & Hv).
    { intros k e' Hk. apply (Hr k e'). by right. }
    exists lat', W'. split_and!; [done | done | done |]. intros i j. rewrite Hv. cbn [list_to_map foldr fst snd].
    destruct (decide ((i, j) = (s, d))) as [[= -> ->]|Hij].
    + rewrite lookup_insert_eq. rewrite not_elem_of_list_to_map_1 by done. done.
    + rewrite lookup_insert_ne by done. rewrite Hne by done. done.
Qed.

(** The matrices [createLinks] passes to the shortest-path computation. *)
Lemma topology_weights_ok counts t :
  topo_ok counts t ->
  let n := num_switches t in
  exists W0 lat W, init_weights n = Ok W0 /\
    fill_links t (replicate (Z.to_nat n) (replicate (Z.to_nat n) (-1)), W0) = Ok (lat, W) /\
    shape n lat /\ weights_ok n W /\
    forall i j, 0 <= i < n -> 0 <= j < n -> mval W i j = link_weight t i j.
Proof.
  intros Hok n. pose proof (topo_switches counts t Hok) as Hsw. pose proof (tk_pos _ _ Hok) as Hpos.
  fold n in Hsw. destruct (init_weights_ok n) as (W0 & HW0 & Hs0 & Hv0); [lia |].
  destruct (fill_list_ok n (map_to_list (m_link_map t)) (replicate (Z.to_nat n) (replicate (Z.to_nat n) (-1))) W0)
    as (lat & W & Hfill & Hlat & HW & Hv); [apply shape_replicate; lia | done | apply NoDup_fst_map_to_list | |].
  { intros [s d] e He%elem_of_map_to_list. destruct (topo_range counts t s d e Hok He) as (? & ? & _). done. }
  rewrite list_to_map_to_list in Hv.
  assert (Hlw : forall i j, 0 <= i < n -> 0 <= j < n -> mval W i j = link_weight t i j).
  { intros i j Hi Hj. rewrite Hv. unfold link_weight. destruct (m_link_map t !! (i, j)); [done | by apply Hv0]. }
  exists W0, lat, W. split; [done |]. split; [done |]. split; [done |]. split; [| done]. split; [done |]. split.
  - intros i Hi. rewrite Hlw by done. unfold link_weight. destruct (m_link_map t !! (i, i)) as [e|] eqn:E.
    + by destruct (topo_range counts t i i e Hok E) as (_ & _ & ? & _).
    + by rewrite decide_True.
  - intros i j Hi Hj Hij. rewrite Hlw by done. unfold link_weight. destruct (m_link_map t !! (i, j)) as [e|] eqn:E.
    + destruct (tk_links _ _ Hok i j e E) as (_ & _ & _ & ?). unfold INFINITE_LATENCY in *. lia.
    + by rewrite decide_False.
Qed.

(** ** The destination set of a link *)

(** Machine [e] is reached over the link [src -> next] on a least path. *)
Definition on_path (counts : list Z) (W dist : Matrix) (src next : Z) (e : machineID) : Prop :=
  let final := node_of counts e + base_of counts (MachineType_NUM counts) in
  mval W src next + mval dist next final = mval dist src final.

Lemma machine_step_ok counts n W dist src next m j d result :
  counts_ok counts -> weights_ok n W -> is_shortest n W dist -> 0 <= src < n -> 0 <= next < n ->
  2 * base_of counts (MachineType_NUM counts) <= n ->
  mid_ok counts (MachineID m j) -> nd_ok counts result -> d = node_of counts (MachineID m j) ->
  exists result', shortest_path_machine counts src next W dist (base_of counts (MachineType_NUM counts)) m
      (result, d) j = Ok (result', d + 1) /\ nd_ok counts result' /\
    forall e, nd_mem result' e <->
      nd_mem result e \/ (e = MachineID m j /\ on_path counts W dist src next e).
Proof.
  intros Hc HW Hd Hs Hn H2 Hm Hr ->. unfold shortest_path_machine, link_is_shortest_path_to_node.
  destruct (mid_ok_node counts _ Hc Hm) as [Hnode _].
  pose proof (mid_ok_type _ _ Hm) as Hmt.
  pose proof (base_of_mono counts (mtype (MachineID m j) + 1) (MachineType_NUM counts) Hc ltac:(lia) ltac:(lia)).
  pose proof (base_of_bound counts (mtype (MachineID m j)) Hc).
  assert (0 <= node_of counts (MachineID m j) + base_of counts (MachineType_NUM counts) < n) as Hf.
  { pose proof (base_of_bound counts (MachineType_NUM counts) Hc). lia. }
  rewrite !(mget_shape n) by (try apply HW; try apply Hd; done). rsimpl.
  rewrite (shortest_sum_i32 n W dist) by done.
  destruct (_ =? _) eqn:E; b2p.
  - destruct (NetDest_add_spec counts result (MachineID m j) Hr Hm) as (r' & -> & Hr' & Hmem). rsimpl.
    exists r'. split_and!; [done | done |]. intros e. rewrite Hmem. unfold on_path. naive_solver.
  - rsimpl. exists result. split_and!; [done | done |]. intros e. unfold on_path. naive_solver.
Qed.

Lemma shortest_path_to_node_ok counts n W dist src next :
  counts_ok counts -> weights_ok n W -> is_shortest n W dist -> 0 <= src < n -> 0 <= next < n ->
  2 * base_of counts (MachineType_NUM counts) <= n ->
  exists entry, shortest_path_to_node counts src next W dist = Ok entry /\ nd_ok counts entry /\
    forall e, nd_mem entry e <-> mid_ok counts e /\ on_path counts W dist src next e.
Proof.
  intros Hc HW Hd Hs Hn H2. unfold shortest_path_to_node.
  destruct (NetDest_ctor_spec counts Hc) as (d0 & -> & Hd0 & He0). rsimpl.
  rewrite base_number_ok by (unfold MachineType_NUM; lia). rsimpl.
  set (below := fun m j (e : machineID) => mtype e < m \/ mtype e = m /\ mnum e < j).
  set (inv := fun m j (st : netdest * Z) => nd_ok counts st.1 /\ st.2 = base_of counts m + j /\
    forall e, nd_mem st.1 e <-> mid_ok counts e /\ below m j e /\ on_path counts W dist src next e).
  destruct (foldM_upto (fun st m => n0 ← MachineType_base_count counts m;
      foldM (shortest_path_machine counts src next W dist (base_of counts (MachineType_NUM counts)) m) (upto n0) st)
    (fun m => inv m 0) (MachineType_NUM counts) (d0, 0)) as ([r d] & -> & Hr & _ & Hmem).
  - unfold MachineType_NUM. lia.
  - split_and!; [done | done |]. intros e. split; [intros H; by apply He0 in H |].
    intros ((Hn0 & c & Hcm%vget_range & _) & Hb & _). unfold below in Hb. exfalso. lia.
  - intros m st Hm (Hok & Hdd & Hmem). unfold MachineType_NUM in Hm.
    destruct (vget_is_ok counts m) as [c Hcm]; [done |]. unfold MachineType_base_count. rewrite Hcm. rsimpl.
    assert (0 <= c) as Hc0.
    { destruct Hc as [Hall _]. rewrite Forall_lookup in Hall. apply vget_Ok in Hcm as [_ Hcm'].
      specialize (Hall _ _ Hcm'). cbn beta in Hall. lia. }
    destruct (foldM_upto (shortest_path_machine counts src next W dist (base_of counts (MachineType_NUM counts)) m) (inv m) c st)
      as (st' & -> & Hok' & Hdd' & Hmem'); [done | done | |].
    + intros j [res d] Hj (Hok1 & Hd1 & Hm1). cbn [fst snd] in *.
      assert (mid_ok counts (MachineID m j)) as Hmid by (split; [cbn; lia |]; exists c; cbn; split; [done | lia]).
      destruct (machine_step_ok counts n W dist src next m j d res) as (res' & -> & Hok2 & Hm2); try done.
      exists (res', d + 1). split; [done |]. split_and!; [done | cbn [snd]; lia |].
      intros e. cbn [fst]. rewrite Hm2, Hm1. unfold below. split.
      * intros [(? & ? & ?)|[-> ?]]; [split_and!; [done | lia | done] | split_and!; [done | cbn; lia | done]].
      * intros (? & Hb & ?). destruct (decide (e = MachineID m j)) as [->|Hne]; [by right |].
        left. split_and!; [done | | done]. destruct e as [mt mn]. cbn [mtype mnum] in *.
        assert (mt <> m \/ mn <> j) by (destruct (decide (mt = m)), (decide (mn = j)); try tauto; subst; done). lia.
    + exists st'. split; [done |]. split_and!; [done | rewrite (base_of_succ _ _ _ Hcm); lia |].
      intros e. rewrite Hmem'. split; intros (He & Hb & Hp); (split_and!; [done | | done]); unfold below in *.
      * lia.
      * destruct He as (? & c' & Hc' & ?). destruct (decide (mtype e = m)) as [<-|]; [| lia]. right. split; [done |].
        assert (c' = c) by congruence. lia.
  - exists r. split_and!; [done | done |]. intros e. cbn [fst] in Hmem. rewrite Hmem. unfold below. split.
    + intros (? & _ & ?). done.
    + intros [He Hp]. split_and!; [done | | done]. destruct He as (_ & c & Hx%vget_range & _). unfold MachineType_NUM. lia.
Qed.

(** ** The calls on the network *)

(** The call [makeLink] makes for the link [s -> d]. *)
Definition call_of (t : Topology) (s d : Z) (e : LinkEntry) (entry : netdest) : net_call :=
  let m := m_nodes t in
  if s <? m then MakeExtInLink s (d - 2 * m) (le_link e) entry
  else if d <? 2 * m then MakeExtOutLink (s - 2 * m) (d - m) (le_link e) entry
  else MakeInternalLink (s - 2 * m) (d - 2 * m) (le_link e) entry (src_outport_dirn e) (dst_inport_dirn e).

(** The link a call is about, in the topology's numbering. *)
Definition call_key (m : Z) (c : net_call) : Z * Z :=
  match c with
  | MakeExtInLink s d _ _ => (s, d + 2 * m)
  | MakeExtOutLink s d _ _ => (s + 2 * m, d + m)
  | MakeInternalLink s d _ _ _ _ => (s + 2 * m, d + 2 * m)
  end.

Definition call_entry (c : net_call) : netdest :=
  match c with
  | MakeExtInLink _ _ _ entry | MakeExtOutLink _ _ _ entry | MakeInternalLink _ _ _ entry _ _ => entry
  end.

Lemma call_key_of t s d e entry : call_key (m_nodes t) (call_of t s d e entry) = (s, d).
Proof. unfold call_of. repeat case_match; cbn [call_key]; f_equal; lia. Qed.

Lemma call_entry_of t s d e entry : call_entry (call_of t s d e entry) = entry.
Proof. unfold call_of. by repeat case_match. Qed.

Lemma makeLink_ok counts t s d e entry :
  topo_ok counts t -> m_link_map t !! (s, d) = Some e ->
  makeLink t s d entry = Ok (call_of t s d e entry).
Proof.
  intros Hok He. destruct (tk_links _ _ Hok s d e He) as (Hs & _). pose proof (tk_pos _ _ Hok).
  unfold makeLink, call_of. rewrite He. unfold link_shape in Hs.
  assert ((2 * m_nodes t <=? s) || (2 * m_nodes t <=? d) = true) as -> by (apply orb_true_iff; rewrite !Z.leb_le; lia).
  rsimpl. destruct (s <? m_nodes t) eqn:E1; [done |]. destruct (d <? 2 * m_nodes t) eqn:E2; b2p.
  - by rewrite (proj2 (Z.leb_le (m_nodes t) d)) by lia.
  - by rewrite (proj2 (Z.leb_le _ s)), (proj2 (Z.leb_le _ d)) by lia.
Qed.

Section MakeLinks.
Context (counts : list Z) (t : Topology) (W dist : Matrix).
Context (Hok : topo_ok counts t).
Let n := num_switches t.
Context (HW : weights_ok n W) (HD : is_shortest n W dist).
Context (Hw : forall i j, 0 <= i < n -> 0 <= j < n -> mval W i j = link_weight t i j).

(** [c] is the call for a link, with the machines that link leads to. *)
Definition good_call (c : net_call) : Prop :=
  exists s d e entry, m_link_map t !! (s, d) = Some e /\ c = call_of t s d e entry /\
    nd_ok counts entry /\
    forall x, nd_mem entry x <-> mid_ok counts x /\ on_path counts W dist s d x.

(** All links before [(i, j)] in the order of the two loops have their call. *)
Definition links_done (i j : Z) (calls : list net_call) : Prop :=
  Forall good_call calls /\ NoDup (call_key (m_nodes t) <$> calls) /\
  forall s d, (s, d) ∈ call_key (m_nodes t) <$> calls <->
    is_Some (m_link_map t !! (s, d)) /\ (s < i \/ s = i /\ d < j).

Lemma link_weight_test i j :
  0 <= i < n -> 0 <= j < n ->
  (0 <? mval W i j) && negb (mval W i j =? INFINITE_LATENCY) = true <-> is_Some (m_link_map t !! (i, j)).
Proof.
  intros Hi Hj. rewrite Hw by done. unfold link_weight. destruct (m_link_map t !! (i, j)) as [e|] eqn:E.
  - destruct (tk_links _ _ Hok i j e E) as (_ & _ & _ & He).
    split; [by eexists |]. intros _. rewrite (proj2 (Z.ltb_lt _ _)), (proj2 (Z.eqb_neq _ _)) by lia. done.
  - split; [| by intros []]. by destruct (decide (i = j)).
Qed.

Lemma make_link_step i j calls :
  0 <= i < n -> 0 <= j < n -> links_done i j calls ->
  exists calls', (weight ← mget W i j;
    if (0 <? weight) && negb (weight =? INFINITE_LATENCY) then
      destination_set ← shortest_path_to_node counts i j W dist;
      c ← makeLink t i j destination_set;
      Ok (calls ++ [c])
    else Ok calls) = Ok calls' /\ links_done i (j + 1) calls'.
Proof.
  intros Hi Hj (Hg & Hnd & Hdom). rewrite (mget_shape n) by (done || apply HW). rsimpl.
  pose proof (link_weight_test i j Hi Hj) as Htest. destruct (_ && _).
  - destruct (proj1 Htest eq_refl) as [e He].
    destruct (shortest_path_to_node_ok counts n W dist i j) as (entry & -> & Hent & Hmem);
      [apply Hok | done.. | |]; [rewrite <- (tk_nodes _ _ Hok); pose proof (topo_switches _ _ Hok); fold n in H; lia |].
    rsimpl. rewrite (makeLink_ok counts t i j e entry Hok He). rsimpl. eexists. split; [done |].
    split_and!.
    + apply Forall_app. split; [done |]. constructor; [| done]. by exists i, j, e, entry.
    + rewrite fmap_app, list_fmap_singleton, call_key_of. apply NoDup_app. split_and!; [done | | apply NoDup_singleton].
      intros [s d] [_ Hx]%Hdom [= -> ->]%list_elem_of_singleton. lia.
    + intros s d. rewrite fmap_app, list_fmap_singleton, call_key_of, elem_of_app, list_elem_of_singleton, Hdom.
      split; [intros [[? ?]|[= -> ->]]; [split; [done | lia] | split; [by eexists | lia]] |].
      intros [? ?]. destruct (decide ((s, d) = (i, j))) as [|Hne]; [by right | left]. split; [done |].
      destruct (decide (s = i)) as [->|]; [| lia]. destruct (decide (d = j)) as [->|]; [done | lia].
  - eexists. split; [done |]. split_and!; [done | done |]. intros s d. rewrite Hdom.
    split; [intros [? ?]; split; [done | lia] |]. intros [Hs ?]. split; [done |].
    destruct (decide (s = i)) as [->|]; [| lia]. destruct (decide (d = j)) as [->|]; [| lia].
    by apply Htest in Hs.
Qed.

Lemma make_links_ok :
  exists calls, make_links counts t W dist n = Ok calls /\
    Forall good_call calls /\ NoDup (call_key (m_nodes t) <$> calls) /\
    forall s d, (s, d) ∈ call_key (m_nodes t) <$> calls <-> is_Some (m_link_map t !! (s, d)).
Proof.
  unfold make_links. pose proof (topo_switches _ _ Hok) as Hsw. pose proof (tk_pos _ _ Hok). fold n in Hsw.
  match goal with |- context [foldM ?f (upto n) []] =>
    destruct (foldM_upto f (fun i => links_done i 0) n []) as (calls & -> & Hg & Hnd & Hdom) end.
  - lia.
  - split_and!; [done | constructor |]. intros s d. split; [by intros ?%not_elem_of_nil |].
    intros [[e He] ?]. destruct (topo_range counts t s d e Hok He) as (? & ? & _). lia.
  - intros i calls Hi Hinv.
    match goal with |- context [foldM ?f (upto n) calls] =>
      destruct (foldM_upto f (fun j => links_done i j) n calls) as (calls' & -> & Hg & Hnd & Hdom) end.
    + lia.
    + done.
    + intros j cs Hj Hcs. by apply make_link_step.
    + exists calls'. split; [done |]. split_and!; [done | done |]. intros s d. rewrite Hdom.
      split; intros [[e He] ?]; (split; [by eexists |]);
        destruct (topo_range counts t s d e Hok He) as (Ha & Hb & _); fold n in Ha, Hb; lia.
  - exists calls. split_and!; [done | done | done |]. intros s d. rewrite Hdom.
    split; [by intros [? _] |]. intros [e He]. split; [by eexists |].
    destruct (topo_range counts t s d e Hok He) as (Ha & Hb & _). fold n in Ha, Hb. lia.
Qed.
End MakeLinks.

Lemma createLinks_ok counts t :
  topo_ok counts t ->
  let n := num_switches t in
  exists W dist calls, createLinks counts t = Ok (Some calls) /\
    weights_ok n W /\ is_shortest n W dist /\
    (forall i j, 0 <= i < n -> 0 <= j < n -> mval W i j = link_weight t i j) /\
    Forall (good_call counts t W dist) calls /\ NoDup (call_key (m_nodes t) <$> calls) /\
    forall s d, (s, d) ∈ call_key (m_nodes t) <$> calls <-> is_Some (m_link_map t !! (s, d)).
Proof.
  intros Hok n. pose proof (topo_switches _ _ Hok) as Hsw. pose proof (tk_pos _ _ Hok) as Hpos. fold n in Hsw.
  destruct (topology_weights_ok counts t Hok) as (W0 & lat & W & HW0 & Hfill & Hlat & HW & Hval).
  fold n in HW0, Hfill, Hlat, HW, Hval.
  unfold createLinks. change (max_switch_id t + 1) with n. rewrite HW0. rsimpl. rewrite Hfill. rsimpl.
  unfold shortest_path, extend_shortest_path.
  pose proof (weights_dist_ok n W HW) as Hd. pose proof (msum_nonneg n W W Hd).
  destruct (extend_loop_total n W (S (Z.to_nat (msum W))) W lat (replicate (Z.to_nat n) (replicate (Z.to_nat n) 0)) Hd Hlat)
    as (dist & lat' & int' & -> & Hd' & Htri); [apply shape_replicate; lia | lia |]. rsimpl.
  destruct (make_links_ok counts t W dist Hok) as (calls & Hcalls & Hg & Hnd & Hdom); [done | by apply triangle_shortest | done |].
  fold n in Hcalls. exists W, dist, calls. rewrite Hcalls. split_and!; try done. by apply triangle_shortest.
Qed.

(** ** Paths over the links *)

Inductive link_path (t : Topology) : Z -> Z -> Z -> Prop :=
  | lp_nil i : link_path t i i 0
  | lp_cons i k j e c : m_link_map t !! (i, k) = Some e -> link_path t k j c ->
      link_path t i j (m_weight (le_link e) + c).

(** Machine [x] is reached over the link [s -> d] of weight [w] on a path no
    other path from [s] undercuts, and not longer than the code's infinity. *)
Definition best_link (counts : list Z) (t : Topology) (s d w : Z) (x : machineID) : Prop :=
  let final := node_of counts x + m_nodes t in
  exists c, link_path t d final c /\ w + c <= INFINITE_LATENCY /\
    forall c', link_path t s final c' -> w + c <= c'.

Section Paths.
Context (counts : list Z) (t : Topology) (W dist : Matrix).
Let n := num_switches t.
Context (Hok : topo_ok counts t) (HW : weights_ok n W) (HD : is_shortest n W dist).
Context (Hval : forall i j, 0 <= i < n -> 0 <= j < n -> mval W i j = link_weight t i j).

Lemma link_weight_some i j e : m_link_map t !! (i, j) = Some e -> link_weight t i j = m_weight (le_link e).
Proof. intros He. unfold link_weight. by rewrite He. Qed.

Lemma link_path_walk i j c : link_path t i j c -> 0 <= i < n -> walk n W i j c.
Proof.
  induction 1 as [i | i k j e c He Hp IH]; intros Hi; [by apply walk_nil |].
  destruct (topo_range counts t i k e Hok He) as (_ & Hk & _). rewrite <- (link_weight_some i k) by done.
  rewrite <- Hval by done. apply walk_cons; [done | done | by apply IH].
Qed.

Lemma walk_nonneg i j c : walk n W i j c -> 0 <= c.
Proof. by apply walk_nonneg_ok. Qed.

Lemma walk_link_path i j c : walk n W i j c -> c < INFINITE_LATENCY -> link_path t i j c.
Proof.
  induction 1 as [i | i k j c Hi Hk Hw IH]; intros Hc; [apply lp_nil |].
  pose proof (walk_nonneg _ _ _ Hw). rewrite Hval in Hc |- * by done. unfold link_weight in *.
  destruct (m_link_map t !! (i, k)) as [e|] eqn:E.
  - destruct (tk_links _ _ Hok i k e E) as (_ & _ & _ & ?). apply (lp_cons _ _ _ _ _ _ E), IH. lia.
  - destruct (decide (i = k)) as [<-|]; [by apply IH | unfold INFINITE_LATENCY in *; lia].
Qed.

Lemma dist_le_path i j c : 0 <= i < n -> 0 <= j < n -> link_path t i j c -> mval dist i j <= c.
Proof. intros Hi Hj Hp. destruct HD as [_ Hd]. apply (Hd i j Hi Hj). by apply link_path_walk. Qed.

Lemma dist_path i j :
  0 <= i < n -> 0 <= j < n -> mval dist i j < INFINITE_LATENCY -> link_path t i j (mval dist i j).
Proof. intros Hi Hj Hlt. destruct HD as [_ Hd]. apply walk_link_path; [by apply Hd | done]. Qed.

Lemma dist_bound i j : 0 <= i < n -> 0 <= j < n -> 0 <= mval dist i j <= INFINITE_LATENCY.
Proof.
  intros Hi Hj. destruct HD as [_ Hd]. destruct (Hd i j Hi Hj) as [Hw Hmin]. split; [by apply walk_nonneg in Hw |].
  pose proof (Hmin _ (walk_edge n W i j Hi Hj)). rewrite Hval in * by done. unfold link_weight in *.
  destruct (m_link_map t !! (i, j)) as [e|] eqn:E.
  - destruct (tk_links _ _ Hok i j e E) as (_ & _ & _ & ?). lia.
  - destruct (decide (i = j)); [unfold INFINITE_LATENCY; lia | done].
Qed.

Lemma final_range x : mid_ok counts x -> 0 <= node_of counts x + m_nodes t < n.
Proof.
  intros Hx. pose proof (topo_switches _ _ Hok) as Hsw. fold n in Hsw. pose proof (tk_counts _ _ Hok) as Hc.
  destruct (mid_ok_node counts x Hc Hx) as [Hnode _].
  pose proof (mid_ok_type _ _ Hx) as Hmt.
  pose proof (base_of_mono counts (mtype x + 1) (MachineType_NUM counts) Hc ltac:(lia) ltac:(lia)) as Hm.
  pose proof (base_of_bound counts (mtype x) Hc). rewrite (tk_nodes _ _ Hok) in *. lia.
Qed.

Lemma on_path_best s d e x :
  m_link_map t !! (s, d) = Some e -> mid_ok counts x ->
  on_path counts W dist s d x <-> best_link counts t s d (m_weight (le_link e)) x.
Proof.
  intros He Hx. destruct (topo_range counts t s d e Hok He) as (Hs & Hd & _). fold n in Hs, Hd.
  pose proof (final_range x Hx) as Hf. destruct (tk_links _ _ Hok s d e He) as (_ & _ & _ & Hw).
  unfold on_path, best_link. rewrite <- (tk_nodes _ _ Hok). set (f := node_of counts x + m_nodes t) in *.
  rewrite Hval, (link_weight_some s d e) by done. pose proof (dist_bound s f Hs Hf). pose proof (dist_bound d f Hd Hf).
  assert (mval dist s f <= m_weight (le_link e) + mval dist d f) as Hle.
  { destruct HD as [_ Hdd]. apply (Hdd s f Hs Hf). rewrite <- (link_weight_some s d), <- Hval by done.
    apply walk_cons; [done | done | by apply Hdd]. }
  split.
  - intros Heq. exists (mval dist d f). split_and!; [apply dist_path; [done | done | lia] | lia |].
    intros c' Hp. pose proof (dist_le_path s f c' Hs Hf Hp). lia.
  - intros (c & Hp & Hb & Hmin). pose proof (dist_le_path d f c Hd Hf Hp).
    destruct (decide (mval dist s f < INFINITE_LATENCY)) as [Hlt|]; [| lia].
    pose proof (Hmin _ (dist_path s f Hs Hf Hlt)). lia.
Qed.
End Paths.

(** ** From the configuration to the tables *)

Definition weight_ok (l : BasicLink) : Prop := 0 < m_weight l < INFINITE_LATENCY.

(** What the Python configuration passes: controllers of the system, existing
    routers, no link from a router to itself. *)
Record config_ok (counts : list Z) (num_routers : Z)
    (ext_links : list BasicExtLink) (int_links : list BasicIntLink) : Prop := {
  ck_counts : counts_ok counts;
  ck_nodes : 1 < base_of counts (MachineType_NUM counts);
  ck_ext : ext_links <> [];
  ck_ext_links : Forall (fun l => mid_ok counts (ext_node l) /\ 0 <= int_node l < num_routers /\
    weight_ok (ext_link l)) ext_links;
  ck_int_links : Forall (fun l => 0 <= src_node l < num_routers /\ 0 <= dst_node l < num_routers /\
    src_node l <> dst_node l /\ weight_ok (int_link l)) int_links
}.

(** The two uni-directional links of an external link, the one of an internal link. *)
Definition ext_keys (counts : list Z) (m : Z) (l : BasicExtLink) : list (Z * Z) :=
  let node := node_of counts (ext_node l) in
  [(node, int_node l + 2 * m); (int_node l + 2 * m, node + m)].
Definition int_key (m : Z) (l : BasicIntLink) : Z * Z := (src_node l + 2 * m, dst_node l + 2 * m).

Section Configured.
Context (counts : list Z) (m num_routers : Z).
Context (Hc : counts_ok counts) (Hm : m = base_of counts (MachineType_NUM counts)) (Hpos : 0 < m).

(** The topology built so far has exactly the links [keys]. *)
Definition built (keys : list (Z * Z)) (t : Topology) : Prop :=
  m_nodes t = m /\ m_number_of_switches t = num_routers /\
  (forall s d, is_Some (m_link_map t !! (s, d)) <-> (s, d) ∈ keys) /\
  forall s d e, m_link_map t !! (s, d) = Some e ->
    link_shape m s d /\ s < 2 * m + num_routers /\ d < 2 * m + num_routers /\ weight_ok (le_link e).

Lemma addLink_built keys t s d l sd dd :
  built keys t -> link_shape m s d -> s < 2 * m + num_routers -> d < 2 * m + num_routers -> weight_ok l ->
  exists t', addLink t s d l sd dd = Ok t' /\ built (keys ++ [(s, d)]) t'.
Proof.
  intros (Hn & Hs & Hk & Hl) Hsh Hs1 Hd1 Hw. unfold addLink. rewrite Hn, Hs.
  rewrite (proj2 (Z.leb_le s _)), (proj2 (Z.leb_le d _)) by lia. rsimpl. eexists. split; [done |].
  split_and!; [done | done | |]; cbn [m_link_map].
  - intros s' d'. rewrite elem_of_app, list_elem_of_singleton, <- Hk.
    destruct (decide ((s', d') = (s, d))) as [->|Hne].
    + rewrite lookup_insert_eq. split; [by right | by eexists].
    + rewrite lookup_insert_ne by done. naive_solver.
  - intros s' d' e. destruct (decide ((s', d') = (s, d))) as [[= -> ->]|Hne].
    + rewrite lookup_insert_eq. by intros [= <-].
    + rewrite lookup_insert_ne by done. apply Hl.
Qed.

Lemma node_range x : mid_ok counts x -> 0 <= node_of counts x < m.
Proof.
  intros Hx. destruct (mid_ok_node counts x Hc Hx) as [Hnode _].
  pose proof (mid_ok_type _ _ Hx) as Hmt.
  pose proof (base_of_mono counts (mtype x + 1) (MachineType_NUM counts) Hc ltac:(lia) ltac:(lia)).
  pose proof (base_of_bound counts (mtype x) Hc). lia.
Qed.

Lemma add_ext_link_built keys t l :
  mid_ok counts (ext_node l) -> 0 <= int_node l < num_routers -> weight_ok (ext_link l) -> built keys t ->
  exists t', add_ext_link counts t l = Ok t' /\ built (keys ++ ext_keys counts m l) t'.
Proof.
  intros Hx Hi Hw Hb. unfold add_ext_link. pose proof (mid_ok_type _ _ Hx).
  rewrite base_number_ok by lia. rsimpl.
  pose proof (node_range _ Hx) as Hnode. pose proof Hb as (Hn & _). fold (node_of counts (ext_node l)). rewrite Hn.
  destruct (addLink_built keys t (node_of counts (ext_node l)) (int_node l + 2 * m) (ext_link l) "" "" Hb)
    as (t1 & -> & Hb1); [left; lia | lia | lia | done |]. rsimpl.
  destruct (addLink_built _ t1 (int_node l + 2 * m) (node_of counts (ext_node l) + m) (ext_link l) "" "" Hb1)
    as (t2 & -> & Hb2); [right; left; lia | lia | lia | done |].
  exists t2. split; [done |]. by rewrite <- app_assoc in Hb2.
Qed.

Lemma add_ext_links_built ext_links : forall keys t,
  Forall (fun l => mid_ok counts (ext_node l) /\ 0 <= int_node l < num_routers /\ weight_ok (ext_link l)) ext_links ->
  built keys t ->
  exists t', foldM (add_ext_link counts) ext_links t = Ok t' /\ built (keys ++ (ext_links ≫= ext_keys counts m)) t'.
Proof.
  induction ext_links as [|l ls IH]; intros keys t Hall Hb; cbn [foldM].
  { exists t. split; [done |]. by rewrite app_nil_r. }
  apply Forall_cons in Hall as [(Hx & Hi & Hw) Hall].
  destruct (add_ext_link_built keys t l Hx Hi Hw Hb) as (t1 & -> & Hb1). rsimpl.
  destruct (IH _ t1 Hall Hb1) as (t2 & -> & Hb2). exists t2. split; [done |]. by rewrite <- app_assoc in Hb2.
Qed.

Lemma add_int_link_built keys t l :
  0 <= src_node l < num_routers -> 0 <= dst_node l < num_routers -> src_node l <> dst_node l ->
  weight_ok (int_link l) -> built keys t ->
  exists t', add_int_link t l = Ok t' /\ built (keys ++ [int_key m l]) t'.
Proof.
  intros Hs Hd Hne Hw Hb. unfold add_int_link. pose proof Hb as (Hn & _). cbn [m_nodes]. rewrite Hn.
  apply addLink_built; [by destruct Hb as (? & ? & ? & ?) | right; right; lia | lia | lia | done].
Qed.

Lemma add_int_links_built int_links : forall keys t,
  Forall (fun l => 0 <= src_node l < num_routers /\ 0 <= dst_node l < num_routers /\
    src_node l <> dst_node l /\ weight_ok (int_link l)) int_links ->
  built keys t ->
  exists t', foldM add_int_link int_links t = Ok t' /\ built (keys ++ (int_key m <$> int_links)) t'.
Proof.
  induction int_links as [|l ls IH]; intros keys t Hall Hb; cbn [foldM].
  { exists t. split; [done |]. by rewrite app_nil_r. }
  apply Forall_cons in Hall as [(Hs & Hd & Hne & Hw) Hall].
  destruct (add_int_link_built keys t l Hs Hd Hne Hw Hb) as (t1 & -> & Hb1). rsimpl.
  destruct (IH _ t1 Hall Hb1) as (t2 & -> & Hb2). exists t2. split; [done |]. by rewrite <- app_assoc in Hb2.
Qed.
End Configured.

Definition config_keys (counts : list Z) (ext_links : list BasicExtLink) (int_links : list BasicIntLink)
    : list (Z * Z) :=
  let m := base_of counts (MachineType_NUM counts) in
  (ext_links ≫= ext_keys counts m) ++ (int_key m <$> int_links).

Lemma Topology_ctor_ok counts nr ext_links int_links :
  config_ok counts nr ext_links int_links ->
  exists t, Topology_ctor counts nr ext_links int_links = Ok t /\ topo_ok counts t /\
    m_number_of_switches t = nr /\
    forall s d, is_Some (m_link_map t !! (s, d)) <-> (s, d) ∈ config_keys counts ext_links int_links.
Proof.
  intros [Hc Hm He Hel Hil]. unfold Topology_ctor, config_keys.
  rewrite base_number_ok by (unfold MachineType_NUM; lia). rsimpl.
  set (m := base_of counts (MachineType_NUM counts)) in *. rewrite (proj2 (Z.ltb_lt 1 m)) by lia. rsimpl.
  match goal with |- context [foldM (add_ext_link counts) ext_links ?t0] =>
    destruct (add_ext_links_built counts m nr Hc eq_refl ltac:(lia) ext_links [] t0 Hel) as (t1 & -> & Hb1) end.
  { split_and!; [done | done | |]; cbn [m_link_map].
    - intros s d. rewrite lookup_empty. split; [by intros [] | by intros ?%not_elem_of_nil].
    - intros s d e. by rewrite lookup_empty. }
  rsimpl. destruct (add_int_links_built counts m nr eq_refl ltac:(lia) int_links _ t1 Hil Hb1) as (t2 & -> & Hn & Hs & Hk & Hl).
  exists t2. split_and!; [done | | done | done]. split; rewrite ?Hn, ?Hs; [done | done | lia | | exact Hl].
  intros Hempty. destruct ext_links as [|l ls]; [done |].
  destruct (proj2 (Hk (node_of counts (ext_node l)) (int_node l + 2 * m))) as [e Hx].
  - rewrite elem_of_app. left. cbn. left.
  - by rewrite Hempty, lookup_empty in Hx.
Qed.

(** C14.  The routing tables are right: for every configuration the topology
    is built and [createLinks] runs to its end; it makes exactly one call on
    the network per configured uni-directional link, and the entry it passes
    with a link of weight [w] from [s] to [d] holds exactly the machines of
    the system to which a path of least weight from [s] starts with that
    link, as long as that weight does not exceed the code's infinity. *)
Theorem createLinks_tables (counts : list Z) (num_routers : Z)
    (ext_links : list BasicExtLink) (int_links : list BasicIntLink) :
  config_ok counts num_routers ext_links int_links ->
  exists t calls,
    Topology_ctor counts num_routers ext_links int_links = Ok t /\
    createLinks counts t = Ok (Some calls) /\
    NoDup (call_key (m_nodes t) <$> calls) /\
    (forall s d, (s, d) ∈ call_key (m_nodes t) <$> calls <-> (s, d) ∈ config_keys counts ext_links int_links) /\
    forall c, c ∈ calls -> exists s d e,
      call_key (m_nodes t) c = (s, d) /\ m_link_map t !! (s, d) = Some e /\
      forall x, nd_mem (call_entry c) x <->
        mid_ok counts x /\ best_link counts t s d (m_weight (le_link e)) x.
Proof.
  intros Hcfg. destruct (Topology_ctor_ok counts num_routers ext_links int_links Hcfg) as (t & Ht & Hok & _ & Hkeys).
  destruct (createLinks_ok counts t Hok) as (W & dist & calls & Hcl & HW & HD & Hval & Hg & Hnd & Hdom).
  exists t, calls. split_and!; [done | done | done | |].
  { intros s d. by rewrite Hdom, Hkeys. }
  intros c Hc. rewrite Forall_forall in Hg. destruct (Hg c Hc) as (s & d & e & entry & He & -> & _ & Hmem).
  exists s, d, e. rewrite call_key_of, call_entry_of. split_and!; [done | done |]. intros x. rewrite Hmem.
  split; intros [Hx Hp]; (split; [done |]); by eapply (on_path_best counts t W dist).
Qed.

(** Two caches and a directory on three routers in a ring with one slow link. *)
Definition ring_ext (i : Z) (x : machineID) : BasicExtLink :=
  {| ext_link := {| link_id := i; m_latency := 1; m_bandwidth_factor := 16; m_weight := 1 |};
     ext_node := x; int_node := i |}.
Definition ring_int (id s d w : Z) : BasicIntLink :=
  {| int_link := {| link_id := id; m_latency := 1; m_bandwidth_factor := 16; m_weight := w |};
     src_node := s; dst_node := d; src_outport := "East"; dst_inport := "West" |}.
Definition ring_counts : list Z := [2; 1].
Definition ring_exts : list BasicExtLink :=
  [ring_ext 0 (MachineID 0 0); ring_ext 1 (MachineID 0 1); ring_ext 2 (MachineID 1 0)].
Definition ring_ints : list BasicIntLink :=
  [ring_int 3 0 1 1; ring_int 4 1 2 1; ring_int 5 2 0 1; ring_int 6 0 2 5].

Lemma ring_config : config_ok ring_counts 3 ring_exts ring_ints.
Proof.
  assert (forall c i a, vget ring_counts i = Ok c -> 0 <= a < c -> mid_ok ring_counts (MachineID i a)) as Hmid.
  { intros c i a Hv Ha. split; [cbn; lia |]. exists c. split; [done | cbn; lia]. }
  split.
  - split; [| done]. by repeat constructor.
  - done.
  - done.
  - repeat (apply Forall_cons; split); [| | | done];
      (split; [(by apply (Hmid 2)) || (by apply (Hmid 1)) | done]).
  - by repeat (apply Forall_cons; split).
Qed.

Lemma createLinks_tables_witness :
  exists t calls,
    Topology_ctor ring_counts 3 ring_exts ring_ints = Ok t /\
    createLinks ring_counts t = Ok (Some calls) /\
    NoDup (call_key (m_nodes t) <$> calls) /\
    (forall s d, (s, d) ∈ call_key (m_nodes t) <$> calls <-> (s, d) ∈ config_keys ring_counts ring_exts ring_ints) /\
    forall c, c ∈ calls -> exists s d e,
      call_key (m_nodes t) c = (s, d) /\ m_link_map t !! (s, d) = Some e /\
      forall x, nd_mem (call_entry c) x <->
        mid_ok ring_counts x /\ best_link ring_counts t s d (m_weight (le_link e)) x.
Proof. apply (createLinks_tables ring_counts 3 ring_exts ring_ints), ring_config. Defined.
