(* ===== verification/Common.v ===== *)
(** * Shared machinery of the simulator

    - [base/bitfield.hh], [base/intmath.hh]: [mask], [bits], [mbits], [divCeil];
    - [mem/ruby/common/Address.cc]: line address and offset of an address;
    - [sim/clocked_object.hh]: the [Clocked] base class, which aligns a
      component's cycle counter with the global tick;
    - [mem/ruby/common/Consumer.{hh,cc}]: the wake-ups a component asks for.

    The theorems: an address is its line address plus its offset; [update]
    finds the first clock edge not before the current tick; and a [Consumer]
    is woken exactly once for every tick it was scheduled at. *)
From S2P Require Import Prelude.

(** ** Bit fields *)

Definition mask (nbits : Z) : Z :=
  if 64 <=? nbits then 2 ^ 64 - 1 else u64 (Z.shiftl 1 nbits - 1).

Definition bits (val first last : Z) : Z :=
  let nbits := first - last + 1 in Z.land (Z.shiftr val last) (mask nbits).

(** [~x] of a 64-bit unsigned operand. *)
Definition lnot64 (x : Z) : Z := u64 (Z.lnot x).

Definition mbits (val first last : Z) : Z :=
  Z.land val (Z.land (mask (first + 1)) (lnot64 (mask last))).

(** [divCeil] on two 64-bit unsigned operands. *)
Definition divCeil (a b : Z) : Z := u64 (u64 (a + b) - 1) / b.

(** ** Addresses: [block_size_bits] is [RubySystem::getBlockSizeBits()] *)

Definition bitSelect (addr small big : Z) : res Z :=
  _ ← cassert (small <=? big); Ok (bits addr big small).

Definition maskLowOrderBits (addr number : Z) : Z := mbits addr 63 number.

Definition getOffset (block_size_bits addr : Z) : res Z :=
  bitSelect addr 0 (u32 (block_size_bits - 1)).

Definition makeLineAddress (block_size_bits addr : Z) : Z := mbits addr 63 block_size_bits.

(** [getBlockSizeBytes()] is a [uint32_t], so the product with the [int]
    stride is taken modulo [2 ^ 32] before it is widened. *)
Definition makeNextStrideAddress (block_size_bits block_size_bytes addr stride : Z) : Z :=
  u64 (makeLineAddress block_size_bits addr + u32 (block_size_bytes * stride)).

Lemma mask_ones n : 0 <= n <= 64 -> mask n = Z.ones n.
Proof.
  intros Hn. unfold mask. destruct (64 <=? n) eqn:E; b2p.
  - by replace n with 64 by lia.
  - rewrite Z.shiftl_1_l, Z.ones_equiv, u64_id; [lia |].
    pose proof (Z.pow_pos_nonneg 2 n). pose proof (Z.pow_le_mono_r 2 n 64). unfold in_u64. lia.
Qed.

Lemma mbits_high b val : 0 <= b <= 64 -> in_u64 val -> mbits val 63 b = val - val mod 2 ^ b.
Proof.
  intros Hb Hval. unfold mbits, lnot64, u64. rewrite !mask_ones by lia.
  rewrite <- Z.land_ones, <- (Z.land_ones val b) by lia.
  transitivity (Z.ldiff val (Z.ones b)).
  - apply Z.bits_inj'. intros i Hi. rewrite !Z.land_spec, Z.ldiff_spec, Z.lnot_spec by done.
    change (63 + 1) with 64. destruct (decide (i < 64)) as [Hlt|Hge].
    + rewrite (Z.ones_spec_low 64) by lia. by rewrite !andb_true_l, andb_true_r.
    + rewrite <- (Z.mod_small val (2 ^ 64)) by done.
      rewrite Z.mod_pow2_bits_high by lia. done.
  - pose proof (Z.sub_nocarry_ldiff val (Z.land val (Z.ones b))) as ->.
    + apply Z.bits_inj'. intros i Hi. rewrite !Z.ldiff_spec, Z.land_spec.
      by destruct (Z.testbit val i), (Z.testbit (Z.ones b) i).
    + apply Z.bits_inj'. intros i Hi. rewrite Z.ldiff_spec, Z.land_spec, Z.bits_0.
      by destruct (Z.testbit val i), (Z.testbit (Z.ones b) i).
Qed.

(** The bits [mbits] keeps, and repeated masking. *)
Lemma mbits_testbit v k i : 0 <= k <= 64 -> 0 <= i -> Z.testbit (mbits v 63 k) i = Z.testbit v i && ((k <=? i) && (i <? 64)).
Proof.
  intros Hk Hi. unfold mbits, lnot64, u64. rewrite !mask_ones by lia. rewrite !Z.land_spec. f_equal. change (63 + 1) with 64.
  destruct (decide (i < 64)).
  - rewrite (Z.ones_spec_low 64), Z.mod_pow2_bits_low, Z.lnot_spec, (proj2 (Z.ltb_lt i 64)), andb_true_r by lia. cbn [andb].
    destruct (decide (i < k)).
    + rewrite (Z.ones_spec_low k), (proj2 (Z.leb_gt k i)) by lia. done.
    + rewrite (Z.ones_spec_high k), (proj2 (Z.leb_le k i)) by lia. done.
  - rewrite (Z.ones_spec_high 64), (proj2 (Z.ltb_ge i 64)), andb_false_r by lia. done.
Qed.

Lemma mbits_mbits v k k' : 0 <= k <= k' -> k' <= 64 -> mbits (mbits v 63 k) 63 k' = mbits v 63 k'.
Proof.
  intros Hk Hk'. apply Z.bits_inj'. intros i Hi. rewrite !mbits_testbit by lia.
  destruct (Z.testbit v i), (k <=? i) eqn:E1, (k' <=? i) eqn:E2, (i <? 64); try done. lia.
Qed.

Lemma mbits_u64 v k : 0 <= k <= 64 -> u64 (mbits v 63 k) = mbits v 63 k.
Proof.
  intros Hk. unfold u64. apply Z.bits_inj'. intros i Hi. destruct (decide (i < 64)).
  - by rewrite Z.mod_pow2_bits_low by lia.
  - rewrite Z.mod_pow2_bits_high, mbits_testbit, (proj2 (Z.ltb_ge i 64)) by lia. by rewrite !andb_false_r.
Qed.

Lemma getOffset_mod b addr :
  0 < b <= 64 -> in_u64 addr -> getOffset b addr = Ok (addr mod 2 ^ b).
Proof.
  intros Hb Ha. unfold getOffset, bitSelect. rewrite u32_id by (unfold in_u32; lia).
  rewrite (proj2 (Z.leb_le 0 (b - 1))) by lia. rsimpl. unfold bits.
  rewrite Z.shiftr_0_r, mask_ones by lia. replace (b - 1 - 0 + 1) with b by lia.
  by rewrite Z.land_ones by lia.
Qed.

(** With a block size of [2^b] bytes, [makeLineAddress] clears exactly
    the offset: the two parts add up to the address, the line address is a
    multiple of the block size and is a fixed point. *)
Theorem line_address_decomposition (b addr : Z) :
  0 < b <= 64 -> in_u64 addr ->
  exists off, getOffset b addr = Ok off /\ 0 <= off < 2 ^ b /\
    makeLineAddress b addr + off = addr /\
    (2 ^ b | makeLineAddress b addr) /\
    makeLineAddress b (makeLineAddress b addr) = makeLineAddress b addr /\
    getOffset b (makeLineAddress b addr) = Ok 0.
Proof.
  intros Hb Ha. assert (Hp : 0 < 2 ^ b) by (apply Z.pow_pos_nonneg; lia).
  pose proof (Z.mod_pos_bound addr (2 ^ b) Hp). pose proof (Z.mod_le addr (2 ^ b)).
  assert (Hl : makeLineAddress b addr = addr - addr mod 2 ^ b) by (apply mbits_high; [lia | done]).
  assert (Hu : in_u64 (makeLineAddress b addr)) by (unfold in_u64 in *; lia).
  assert (Hz : makeLineAddress b addr mod 2 ^ b = 0).
  { rewrite Hl, Zminus_mod_idemp_r, Z.sub_diag. by apply Z.mod_0_l; lia. }
  exists (addr mod 2 ^ b). split_and!; try lia.
  - apply getOffset_mod; done.
  - apply Z.mod_divide; lia.
  - unfold makeLineAddress in *. rewrite (mbits_high b (mbits addr 63 b)); [lia | lia | done].
  - rewrite getOffset_mod, Hz; done.
Qed.

Lemma line_address_decomposition_witness :
  exists off, getOffset 6 4675 = Ok off /\ 0 <= off < 2 ^ 6 /\
    makeLineAddress 6 4675 + off = 4675 /\ (2 ^ 6 | makeLineAddress 6 4675) /\
    makeLineAddress 6 (makeLineAddress 6 4675) = makeLineAddress 6 4675 /\
    getOffset 6 (makeLineAddress 6 4675) = Ok 0.
Proof. apply line_address_decomposition; [lia | unfold in_u64; lia]. Defined.

(** ** Clocked objects *)

Record Clocked := {
  tick : Z;       (** of the next clock edge *)
  cycle : Z       (** the cycle number of [tick] *)
}.

Definition Clocked_ctor : Clocked := {| tick := 0; cycle := 0 |}.

Definition update (period curTick : Z) (c : Clocked) : Clocked :=
  if curTick <=? tick c then c
  else
    let c := {| tick := u64 (tick c + period); cycle := u64 (cycle c + 1) |} in
    if curTick <=? tick c then c
    else
      let elapsedCycles := divCeil (u64 (curTick - tick c)) period in
      {| tick := u64 (tick c + u64 (elapsedCycles * period));
         cycle := u64 (cycle c + elapsedCycles) |}.

Definition resetClock (period curTick : Z) : Clocked :=
  let elapsedCycles := divCeil curTick period in
  {| tick := u64 (elapsedCycles * period); cycle := elapsedCycles |}.

Definition clockEdge (period curTick : Z) (c : Clocked) (cycles : Z) : Clocked * Z :=
  let c := update period curTick c in (c, u64 (tick c + u64 (period * cycles))).

Definition curCycle (period curTick : Z) (c : Clocked) : Clocked * Z :=
  let c := update period curTick c in (c, cycle c).

Definition nextCycle (period curTick : Z) (c : Clocked) : Clocked * Z :=
  clockEdge period curTick c 1.

(** The counters agree, for a clock whose period does not change. *)
Definition clocked_ok (period : Z) (c : Clocked) : Prop :=
  0 <= cycle c /\ tick c = cycle c * period.

Lemma divCeil_spec a b :
  0 < a -> 0 < b -> a + b < 2 ^ 64 ->
  a <= divCeil a b * b < a + b /\ 0 < divCeil a b.
Proof.
  intros Ha Hb Hab. unfold divCeil. rewrite !u64_id by (unfold in_u64; rewrite ?u64_id; unfold in_u64; lia).
  pose proof (Z.div_mod (a + b - 1) b). pose proof (Z.mod_pos_bound (a + b - 1) b). nia.
Qed.

(** [update] moves a clocked object to the first clock edge that is
    not before the current tick and keeps its cycle counter in step, whichever
    of its three paths it takes; an object already ahead is left alone. *)
Theorem update_next_edge (period curTick : Z) (c : Clocked) :
  0 < period -> 0 <= curTick -> curTick + 2 * period < 2 ^ 64 -> clocked_ok period c ->
  tick c < 2 ^ 64 ->
  let c' := update period curTick c in
  clocked_ok period c' /\ curTick <= tick c' /\
  (tick c < curTick -> tick c' < curTick + period) /\
  (curTick <= tick c -> c' = c) /\
  update period curTick c' = c'.
Proof.
  intros Hp Hc Hov [Hcy Ht] Hlt c'.
  assert (clocked_ok period c' /\ curTick <= tick c' /\ (tick c < curTick -> tick c' < curTick + period) /\
    (curTick <= tick c -> c' = c)) as (Hok & Hge & Hbd & Hsame).
  { unfold c', update. destruct (curTick <=? tick c) eqn:E1; b2p; [done || (split_and!; [done | lia | lia | done]) |].
    cbn [tick cycle]. assert (cycle c <= tick c) by nia.
    rewrite (u64_id (tick c + period)), (u64_id (cycle c + 1)) by (unfold in_u64; lia).
    destruct (curTick <=? tick c + period) eqn:E2; b2p.
    - split_and!; cbn [tick cycle]; [unfold clocked_ok; cbn [tick cycle]; nia | lia..].
    - rewrite (u64_id (curTick - (tick c + period))) by (unfold in_u64; lia).
      destruct (divCeil_spec (curTick - (tick c + period)) period) as [Hd Hpos]; [lia.. |].
      set (e := divCeil _ _) in *. assert (e <= e * period) by nia.
      rewrite (u64_id (e * period)) by (unfold in_u64; lia).
      rewrite !u64_id by (unfold in_u64; nia).
      split_and!; cbn [tick cycle]; [unfold clocked_ok; cbn [tick cycle]; nia | lia..]. }
  split_and!; try done. unfold update at 1. by rewrite (proj2 (Z.leb_le _ _) Hge).
Qed.

Lemma update_next_edge_witness :
  let c' := update 500 2300 {| tick := 1000; cycle := 2 |} in
  clocked_ok 500 c' /\ 2300 <= tick c' /\ (1000 < 2300 -> tick c' < 2300 + 500) /\
  (2300 <= 1000 -> c' = {| tick := 1000; cycle := 2 |}) /\ update 500 2300 c' = c'.
Proof.
  apply (update_next_edge 500 2300 {| tick := 1000; cycle := 2 |}); [lia | lia | lia | | done].
  split; done.
Defined.

(** ** Consumers *)

(** [m_scheduled_wakeups], and the wake-up events the consumer has put into
    the event queue so far. *)
Record Consumer := {
  m_scheduled_wakeups : gset Z;
  wakeup_events : list Z
}.

Definition Consumer_ctor : Consumer := {| m_scheduled_wakeups := ∅; wakeup_events := [] |}.

Definition alreadyScheduled (c : Consumer) (time : Z) : bool :=
  bool_decide (time ∈ m_scheduled_wakeups c).

Definition insertScheduledWakeupTime (c : Consumer) (time : Z) : Consumer :=
  {| m_scheduled_wakeups := {[ time ]} ∪ m_scheduled_wakeups c; wakeup_events := wakeup_events c |}.

(** [edge] is [em->clockEdge()], [curTick] the time [em->schedule] asserts
    the event is not before. *)
Definition scheduleEventAbsolute (curTick edge : Z) (c : Consumer) (evt_time : Z) : res Consumer :=
  c ← (if negb (alreadyScheduled c evt_time) then
         _ ← cassert (curTick <=? evt_time);
         Ok (insertScheduledWakeupTime
               {| m_scheduled_wakeups := m_scheduled_wakeups c;
                  wakeup_events := wakeup_events c ++ [evt_time] |} evt_time)
       else Ok c);
  Ok {| m_scheduled_wakeups := filter (fun t => edge <= t) (m_scheduled_wakeups c);
        wakeup_events := wakeup_events c |}.

Definition scheduleEvent (period curTick : Z) (clk : Clocked) (c : Consumer) (timeDelta : Z)
    : res (Clocked * Consumer) :=
  let '(clk, t) := clockEdge period curTick clk timeDelta in
  let '(clk, edge) := clockEdge period curTick clk 0 in
  c ← scheduleEventAbsolute curTick edge c t; Ok (clk, c).

(** A run of requests: each is made at a tick, with the clock edge then
    current, for a time. *)
Record request := { rq_tick : Z; rq_edge : Z; rq_time : Z }.

Definition run_requests (c : Consumer) (rs : list request) : res Consumer :=
  foldM (fun c r => scheduleEventAbsolute (rq_tick r) (rq_edge r) c (rq_time r)) rs c.

(** Requests as the simulator makes them: time does not go back, and a wake-up
    is asked for at a clock edge, the current one or a later one. *)
Fixpoint requests_ok (edge : Z) (rs : list request) : Prop :=
  match rs with
  | [] => True
  | r :: rs => edge <= rq_edge r /\ rq_tick r <= rq_edge r /\ rq_edge r <= rq_time r /\
               requests_ok (rq_edge r) rs
  end.

(** The set holds the pending events and nothing else. *)
Definition consumer_ok (edge : Z) (c : Consumer) : Prop :=
  NoDup (wakeup_events c) /\
  forall t, edge <= t -> t ∈ m_scheduled_wakeups c <-> t ∈ wakeup_events c.

Lemma scheduleEventAbsolute_ok curTick edge edge' c t :
  consumer_ok edge c -> edge <= edge' -> curTick <= edge' -> edge' <= t ->
  exists c', scheduleEventAbsolute curTick edge' c t = Ok c' /\ consumer_ok edge' c' /\
    forall t', t' ∈ wakeup_events c' <-> t' = t \/ t' ∈ wakeup_events c.
Proof.
  intros [Hnd Hiff] Hee Hct Het. unfold scheduleEventAbsolute, alreadyScheduled.
  destruct (decide (t ∈ m_scheduled_wakeups c)) as [Hin|Hnin].
  - rewrite bool_decide_eq_true_2 by done. cbn [negb]. rsimpl.
    pose proof (proj1 (Hiff t ltac:(lia)) Hin) as Hev.
    eexists. split; [done |]. cbn [wakeup_events]. split.
    + split; [done |]. intros t' Ht'. cbn [m_scheduled_wakeups wakeup_events].
      rewrite elem_of_filter, <- Hiff by lia. naive_solver.
    + naive_solver.
  - rewrite bool_decide_eq_false_2 by done. cbn [negb].
    rewrite (proj2 (Z.leb_le curTick t)) by lia. rsimpl.
    eexists. split; [done |]. cbn [wakeup_events insertScheduledWakeupTime]. split.
    + split; cbn [m_scheduled_wakeups wakeup_events].
      * apply NoDup_app. split_and!; [done | | by apply NoDup_singleton].
        intros x Hx ->%list_elem_of_singleton. apply Hnin, Hiff; [lia | done].
      * intros t' Ht'. cbn [insertScheduledWakeupTime m_scheduled_wakeups wakeup_events].
        rewrite elem_of_filter, elem_of_union, elem_of_singleton, elem_of_app,
          list_elem_of_singleton, Hiff by lia. naive_solver.
    + intros t'. rewrite elem_of_app, list_elem_of_singleton. naive_solver.
Qed.

Lemma run_requests_ok edge c rs :
  consumer_ok edge c -> requests_ok edge rs ->
  exists c', run_requests c rs = Ok c' /\ NoDup (wakeup_events c') /\
    forall t, t ∈ wakeup_events c' <-> t ∈ wakeup_events c \/ t ∈ rq_time <$> rs.
Proof.
  revert edge c. induction rs as [|r rs IH]; intros edge c Hc Hrs.
  - exists c. split; [done |]. split; [apply Hc |]. intros t. rewrite fmap_nil, elem_of_nil. tauto.
  - destruct Hrs as (He & Ht & Hr & Hrs).
    destruct (scheduleEventAbsolute_ok (rq_tick r) edge (rq_edge r) c (rq_time r)) as (c1 & H1 & Hok1 & Hev1);
      try done.
    destruct (IH (rq_edge r) c1 Hok1 Hrs) as (c' & Hrun & Hnd & Hev).
    exists c'. unfold run_requests in *. cbn [foldM]. rewrite H1. rsimpl. split; [done |]. split; [done |].
    intros t. rewrite Hev, Hev1, fmap_cons, elem_of_cons. tauto.
Qed.

(** A consumer is woken exactly once per requested tick: after any run
    of wake-up requests at clock edges, the events put into the event queue
    are the requested times, each once, and no scheduling assertion fails. *)
Theorem wakeups_exactly_once (rs : list request) :
  requests_ok 0 rs ->
  exists c, run_requests Consumer_ctor rs = Ok c /\ NoDup (wakeup_events c) /\
    forall t, t ∈ wakeup_events c <-> t ∈ rq_time <$> rs.
Proof.
  intros Hrs. destruct (run_requests_ok 0 Consumer_ctor rs) as (c & Hr & Hnd & Hev); [| done |].
  - split; [by apply NoDup_nil |]. cbn [Consumer_ctor m_scheduled_wakeups wakeup_events].
    intros t _. split; [set_solver | by intros ?%elem_of_nil].
  - exists c. split_and!; [done | done |]. intros t. rewrite Hev.
    cbn [Consumer_ctor wakeup_events]. rewrite elem_of_nil. tauto.
Qed.

Lemma wakeups_exactly_once_witness :
  let rs := [{| rq_tick := 3; rq_edge := 5; rq_time := 10 |}; {| rq_tick := 5; rq_edge := 5; rq_time := 10 |};
             {| rq_tick := 9; rq_edge := 10; rq_time := 10 |}] in
  exists c, run_requests Consumer_ctor rs = Ok c /\ NoDup (wakeup_events c) /\
    forall t, t ∈ wakeup_events c <-> t ∈ rq_time <$> rs.
Proof. apply wakeups_exactly_once. cbn. lia. Defined.
