(* ===== verification/MessageBuffer.v ===== *)
(** * Messages and message buffers

    Models [mem/ruby/slicc_interface/Message.hh] and
    [mem/ruby/network/MessageBuffer.{hh,cc}]: the queues between the coherence
    controllers and the network, which the NetworkInterface of every chiplet
    reads and writes.

    A message is a value here.  The code shares it through a [shared_ptr], and
    changes its time stamps while it is in one queue only; the parts that enter
    the heap order are changed while the message is outside the heap, so the
    copy in the heap and the shared object never differ.

    The theorems: the exact condition under which the arrival-time assertion
    of [enqueue] holds, message conservation over any run of operations, the
    FIFO order of ordered buffers, and the capacity bound that
    [areNSlotsAvailable] gives. *)
From S2P Require Import Prelude StdHeap NetDest Common.

(** ** Messages *)

Inductive MessageSizeType :=
  | Control | Data | Request_Control | Reissue_Control | Response_Data
  | ResponseL2hit_Data | ResponseLocal_Data | Response_Control | Writeback_Data
  | Writeback_Control | Broadcast_Control | Multicast_Control | Forwarded_Control
  | Invalidate_Control | Unblock_Control | Persistent_Control | Completion_Control.

(** [m_Destination], [m_MessageSize] and [payload] stand for what the protocol's
    own message classes add. *)
Record Message := {
  m_time : Z;
  m_LastEnqueueTime : Z;
  m_DelayedTicks : Z;
  msg_counter : Z;
  incoming_link : Z;
  vnet : Z;
  m_Destination : netdest;
  m_MessageSize : MessageSizeType;
  payload : Z
}.

#[export] Instance Message_eta : Eta Message := {| eta := fun m =>
  {| m_time := m_time m; m_LastEnqueueTime := m_LastEnqueueTime m;
     m_DelayedTicks := m_DelayedTicks m; msg_counter := msg_counter m;
     incoming_link := incoming_link m; vnet := vnet m; m_Destination := m_Destination m;
     m_MessageSize := m_MessageSize m; payload := payload m |} |}.

Definition updateDelayedTicks (m : Message) (curTime : Z) : res Message :=
  _ ← cassert (m_LastEnqueueTime m <=? curTime);
  let delta := u64 (curTime - m_LastEnqueueTime m) in
  Ok (m ⟨ m_DelayedTicks := u64 (m_DelayedTicks m + delta) ⟩).

(** [operator>] on [MsgPtr]. *)
Definition msg_gt (l r : Message) : bool :=
  if m_LastEnqueueTime l =? m_LastEnqueueTime r then msg_counter r <? msg_counter l
  else m_LastEnqueueTime r <? m_LastEnqueueTime l.

Lemma msg_gt_lex l r : msg_gt l r = true <->
  m_LastEnqueueTime r < m_LastEnqueueTime l \/
  (m_LastEnqueueTime r = m_LastEnqueueTime l /\ msg_counter r < msg_counter l).
Proof. unfold msg_gt. destruct (_ =? _) eqn:E; b2p; rewrite Z.ltb_lt; lia. Qed.

Lemma msg_le_lex l r : msg_gt l r = false <->
  m_LastEnqueueTime l < m_LastEnqueueTime r \/
  (m_LastEnqueueTime l = m_LastEnqueueTime r /\ msg_counter l <= msg_counter r).
Proof. unfold msg_gt. destruct (_ =? _) eqn:E; b2p; rewrite Z.ltb_ge; lia. Qed.

#[export] Instance msg_gt_StrictWeak : StrictWeak msg_gt.
Proof.
  split.
  - intros a. apply msg_le_lex. lia.
  - intros a b c. rewrite !msg_gt_lex. lia.
  - intros a b c. rewrite !msg_le_lex. lia.
Qed.

(** ** The buffer *)

Record MessageBuffer := {
  m_consumer : option Z;                     (** the consumer, if set *)
  m_prio_heap : list Message;
  m_dequeue_callback : option Z;             (** the callback, if registered *)
  m_stall_msg_map : gmap Z (list Message);
  m_stall_map_size : Z;
  m_max_size : Z;
  m_time_last_time_size_checked : Z;
  m_size_last_time_size_checked : Z;
  m_time_last_time_enqueue : Z;
  m_time_last_time_pop : Z;
  m_last_arrival_time : Z;
  m_size_at_cycle_start : Z;
  m_stalled_at_cycle_start : Z;
  m_msgs_this_cycle : Z;
  m_not_avail_count : Z;
  m_msg_counter : Z;
  m_priority_rank : Z;
  m_strict_fifo : bool;
  m_randomization : bool;
  m_input_link_id : Z;
  m_vnet_id : Z;
  m_buf_msgs : Z;
  m_stall_time : Z;
  m_stall_count : Z
}.

#[export] Instance MessageBuffer_eta : Eta MessageBuffer := {| eta := fun b =>
  {| m_consumer := m_consumer b; m_prio_heap := m_prio_heap b;
     m_dequeue_callback := m_dequeue_callback b; m_stall_msg_map := m_stall_msg_map b;
     m_stall_map_size := m_stall_map_size b; m_max_size := m_max_size b;
     m_time_last_time_size_checked := m_time_last_time_size_checked b;
     m_size_last_time_size_checked := m_size_last_time_size_checked b;
     m_time_last_time_enqueue := m_time_last_time_enqueue b;
     m_time_last_time_pop := m_time_last_time_pop b;
     m_last_arrival_time := m_last_arrival_time b;
     m_size_at_cycle_start := m_size_at_cycle_start b;
     m_stalled_at_cycle_start := m_stalled_at_cycle_start b;
     m_msgs_this_cycle := m_msgs_this_cycle b; m_not_avail_count := m_not_avail_count b;
     m_msg_counter := m_msg_counter b; m_priority_rank := m_priority_rank b;
     m_strict_fifo := m_strict_fifo b; m_randomization := m_randomization b;
     m_input_link_id := m_input_link_id b; m_vnet_id := m_vnet_id b;
     m_buf_msgs := m_buf_msgs b; m_stall_time := m_stall_time b;
     m_stall_count := m_stall_count b |} |}.

(** What a buffer asks of others while it runs: wake-ups and stored event
    information for its consumer, and the dequeue callback. *)
Inductive mb_event :=
  | ScheduleEventAbsolute (t : Z)
  | StoreEventInfo (info : Z)
  | DequeueCallback (cb : Z).

(** The static configuration of [RubySystem] the buffers read. *)
Record RubySystem := {
  getRandomization : bool;
  getWarmupEnabled : bool;
  getBlockSizeBits : Z
}.

Definition MessageBuffer_ctor (buffer_size : Z) (ordered randomization : bool) : MessageBuffer :=
  {| m_consumer := None; m_prio_heap := []; m_dequeue_callback := None; m_stall_msg_map := ∅;
     m_stall_map_size := 0; m_max_size := buffer_size; m_time_last_time_size_checked := 0;
     m_size_last_time_size_checked := 0; m_time_last_time_enqueue := 0;
     m_time_last_time_pop := 0; m_last_arrival_time := 0; m_size_at_cycle_start := 0;
     m_stalled_at_cycle_start := 0; m_msgs_this_cycle := 0; m_not_avail_count := 0;
     m_msg_counter := 0; m_priority_rank := 0; m_strict_fifo := ordered;
     m_randomization := randomization; m_input_link_id := 0; m_vnet_id := 0; m_buf_msgs := 0;
     m_stall_time := 0; m_stall_count := 0 |}.

Definition setConsumer (b : MessageBuffer) (consumer : Z) : res MessageBuffer :=
  _ ← fatal_if (bool_decide (m_consumer b <> None));
  Ok (b ⟨ m_consumer := Some consumer ⟩).

Definition setPriority (b : MessageBuffer) (rank : Z) := b ⟨ m_priority_rank := rank ⟩.
Definition setIncomingLink (b : MessageBuffer) (link_id : Z) := b ⟨ m_input_link_id := link_id ⟩.
Definition mb_setVnet (b : MessageBuffer) (net : Z) := b ⟨ m_vnet_id := net ⟩.
Definition clearStats (b : MessageBuffer) := b ⟨ m_not_avail_count := 0 ⟩ ⟨ m_msg_counter := 0 ⟩.

Definition heap_size (b : MessageBuffer) : Z := Z.of_nat (length (m_prio_heap b)).

Definition isEmpty (b : MessageBuffer) : bool := heap_size b =? 0.
Definition getStallMapSize (b : MessageBuffer) : Z := Z.of_nat (size (m_stall_msg_map b)).
Definition isStallMapEmpty (b : MessageBuffer) : bool := getStallMapSize b =? 0.

Definition getSize (b : MessageBuffer) (curTime : Z) : MessageBuffer * Z :=
  let b := if negb (m_time_last_time_size_checked b =? curTime)
           then b ⟨ m_time_last_time_size_checked := curTime ⟩
                  ⟨ m_size_last_time_size_checked := u32 (heap_size b) ⟩
           else b in
  (b, m_size_last_time_size_checked b).

Definition areNSlotsAvailable (b : MessageBuffer) (n current_time : Z) : MessageBuffer * bool :=
  if m_max_size b =? 0 then (b, true)
  else
    let '(current_size, current_stall_size) :=
      if m_time_last_time_pop b <? current_time then
        (u32 (heap_size b), u32 (m_stall_map_size b))
      else
        ((if m_time_last_time_enqueue b <? current_time then m_size_at_cycle_start b
          else u32 (m_size_at_cycle_start b + m_msgs_this_cycle b)),
         m_stalled_at_cycle_start b) in
    if u32 (u32 (current_size + current_stall_size) + n) <=? m_max_size b then (b, true)
    else (b ⟨ m_not_avail_count := m_not_avail_count b + 1 ⟩, false).

Definition peek (b : MessageBuffer) : res Message := vfront (m_prio_heap b).

(** [random_time]; the three draws are in [[0,3]], [[0,7]] and [[1,15]]. *)
Definition random_time (r : Z * Z * Z) : Z :=
  let '(r1, r2, r3) := r in
  let time := 1 + r1 in if r2 =? 0 then time + (100 + r3) else time.

Definition draws_ok (r : Z * Z * Z) : Prop :=
  let '(r1, r2, r3) := r in 0 <= r1 <= 3 /\ 0 <= r2 <= 7 /\ 1 <= r3 <= 15.

Definition enqueue (rs : RubySystem) (r : Z * Z * Z) (b : MessageBuffer) (message : Message)
    (current_time delta : Z) : res (MessageBuffer * list mb_event) :=
  let b := if m_time_last_time_enqueue b <? current_time
           then b ⟨ m_msgs_this_cycle := 0 ⟩ ⟨ m_time_last_time_enqueue := current_time ⟩ else b in
  let b := b ⟨ m_msg_counter := u64 (m_msg_counter b + 1) ⟩ in
  let b := b ⟨ m_msgs_this_cycle := u32 (m_msgs_this_cycle b + 1) ⟩ in
  _ ← cassert (0 <? delta);
  let '(b, arrival_time) :=
    if (negb (getRandomization rs) && negb (m_randomization b))%bool then
      (b, u64 (current_time + delta))
    else if m_strict_fifo b then
      let b := if m_last_arrival_time b <? current_time
               then b ⟨ m_last_arrival_time := current_time ⟩ else b in
      (b, u64 (m_last_arrival_time b + random_time r))
    else (b, u64 (current_time + random_time r)) in
  _ ← cassert (current_time <? arrival_time);
  _ ← panic_if (m_strict_fifo b && (arrival_time <? m_last_arrival_time b))%bool;
  let b := if negb (getWarmupEnabled rs) then b ⟨ m_last_arrival_time := arrival_time ⟩ else b in
  _ ← cassert (m_LastEnqueueTime message <=? current_time);
  message ← updateDelayedTicks message current_time;
  let message := message ⟨ m_LastEnqueueTime := arrival_time ⟩ in
  let message := message ⟨ msg_counter := m_msg_counter b ⟩ in
  let b := b ⟨ m_prio_heap := heap_insert msg_gt (m_prio_heap b) message ⟩ in
  let b := b ⟨ m_buf_msgs := m_buf_msgs b + 1 ⟩ in
  _ ← cassert (bool_decide (m_consumer b <> None));
  Ok (b, [ScheduleEventAbsolute arrival_time; StoreEventInfo (m_vnet_id b)]).

Definition isReady (b : MessageBuffer) (current_time : Z) : bool :=
  match m_prio_heap b with
  | [] => false
  | m :: _ => m_LastEnqueueTime m <=? current_time
  end.

(** Returns the buffer, the message taken out (the caller reads it with [peek]
    before), its total delay, and the callback. *)
Definition dequeue (curTick : Z) (b : MessageBuffer) (current_time : Z) (decrement_messages : bool)
    : res (MessageBuffer * Message * Z * list mb_event) :=
  _ ← cassert (isReady b current_time);
  message ← vfront (m_prio_heap b);
  message ← updateDelayedTicks message current_time;
  let delay := m_DelayedTicks message in
  let b := b ⟨ m_stall_time := u64 (curTick - m_time message) ⟩ in
  let b := if m_time_last_time_pop b <? current_time
           then b ⟨ m_size_at_cycle_start := u32 (heap_size b) ⟩
                  ⟨ m_stalled_at_cycle_start := u32 (m_stall_map_size b) ⟩
                  ⟨ m_time_last_time_pop := current_time ⟩
           else b in
  let b := b ⟨ m_prio_heap := heap_remove msg_gt (m_prio_heap b) ⟩ in
  let b := if decrement_messages then b ⟨ m_buf_msgs := m_buf_msgs b - 1 ⟩ else b in
  Ok (b, message, delay, match m_dequeue_callback b with Some cb => [DequeueCallback cb] | None => [] end).

Definition registerDequeueCallback (b : MessageBuffer) (callback : Z) :=
  b ⟨ m_dequeue_callback := Some callback ⟩.
Definition unregisterDequeueCallback (b : MessageBuffer) := b ⟨ m_dequeue_callback := None ⟩.

Definition clear (b : MessageBuffer) : MessageBuffer :=
  b ⟨ m_prio_heap := [] ⟩ ⟨ m_msg_counter := 0 ⟩ ⟨ m_time_last_time_enqueue := 0 ⟩
    ⟨ m_time_last_time_pop := 0 ⟩ ⟨ m_size_at_cycle_start := 0 ⟩
    ⟨ m_stalled_at_cycle_start := 0 ⟩ ⟨ m_msgs_this_cycle := 0 ⟩.

(** [m_consumer->scheduleEventAbsolute(t)]. *)
Definition wake (b : MessageBuffer) (t : Z) : res mb_event :=
  match m_consumer b with Some _ => Ok (ScheduleEventAbsolute t) | None => Err EUninit end.

(** [pop_heap] leaves the head in the last slot, where it is given its new
    time and pushed again. *)
Definition recycle (b : MessageBuffer) (current_time recycle_latency : Z)
    : res (MessageBuffer * list mb_event) :=
  _ ← cassert (isReady b current_time);
  node ← vfront (m_prio_heap b);
  let future_time := u64 (current_time + recycle_latency) in
  let node := node ⟨ m_LastEnqueueTime := future_time ⟩ in
  let b := b ⟨ m_prio_heap := heap_insert msg_gt (heap_remove msg_gt (m_prio_heap b)) node ⟩ in
  e ← wake b future_time; Ok (b, [e]).

Definition delayHead (rs : RubySystem) (r : Z * Z * Z) (b : MessageBuffer) (current_time delta : Z)
    : res (MessageBuffer * list mb_event) :=
  m ← vfront (m_prio_heap b);
  enqueue rs r (b ⟨ m_prio_heap := heap_remove msg_gt (m_prio_heap b) ⟩) m current_time delta.

Fixpoint reanalyzeList (b : MessageBuffer) (lt : list Message) (schdTick : Z)
    : res (MessageBuffer * list mb_event) :=
  match lt with
  | [] => Ok (b, [])
  | m :: lt =>
      _ ← cassert (m_LastEnqueueTime m <=? schdTick);
      let b := b ⟨ m_prio_heap := heap_insert msg_gt (m_prio_heap b) m ⟩ in
      e ← wake b schdTick;
      r ← reanalyzeList b lt schdTick; Ok (r.1, e :: r.2)
  end.

(** The map's entries in the order a [std::map] is iterated in. *)
Definition addr_le (a b : Z * list Message) : Prop := a.1 <= b.1.
#[export] Instance addr_le_dec : RelDecision addr_le := fun a b => Z.le_dec a.1 b.1.

Definition stall_list (m : gmap Z (list Message)) : list (Z * list Message) :=
  merge_sort addr_le (map_to_list m).

(** All stalled messages, in that order. *)
Definition stalled (m : gmap Z (list Message)) : list Message := stall_list m ≫= snd.

(** All messages of the buffer, in the order [functionalAccess] visits them. *)
Definition all_messages (b : MessageBuffer) : list Message :=
  m_prio_heap b ++ stalled (m_stall_msg_map b).

Definition reanalyze_entry (current_time : Z) (st : MessageBuffer * list mb_event)
    (e : Z * list Message) : res (MessageBuffer * list mb_event) :=
  let '(b, evs) := st in
  let b := b ⟨ m_stall_map_size := i32 (m_stall_map_size b - Z.of_nat (length e.2)) ⟩ in
  _ ← cassert (0 <=? m_stall_map_size b);
  r ← reanalyzeList b e.2 current_time;
  Ok (r.1, evs ++ r.2).

Definition reanalyzeMessages (b : MessageBuffer) (addr current_time : Z)
    : res (MessageBuffer * list mb_event) :=
  match m_stall_msg_map b !! addr with
  | None => Err EAssert
  | Some lt =>
      r ← reanalyze_entry current_time (b, []) (addr, lt);
      Ok (r.1 ⟨ m_stall_msg_map := delete addr (m_stall_msg_map r.1) ⟩, r.2)
  end.

Definition reanalyzeAllMessages (b : MessageBuffer) (current_time : Z)
    : res (MessageBuffer * list mb_event) :=
  r ← foldM (reanalyze_entry current_time) (stall_list (m_stall_msg_map b)) (b, []);
  Ok (r.1 ⟨ m_stall_msg_map := ∅ ⟩, r.2).

Definition stallMessage (rs : RubySystem) (curTick : Z) (b : MessageBuffer) (addr current_time : Z)
    : res (MessageBuffer * list mb_event) :=
  _ ← cassert (isReady b current_time);
  off ← getOffset (getBlockSizeBits rs) addr;
  _ ← cassert (off =? 0);
  r ← dequeue curTick b current_time false;
  let '(b, message, _, evs) := r in
  let lt := default [] (m_stall_msg_map b !! addr) in
  let b := b ⟨ m_stall_msg_map := <[addr := lt ++ [message]]> (m_stall_msg_map b) ⟩ in
  let b := b ⟨ m_stall_map_size := m_stall_map_size b + 1 ⟩ in
  Ok (b ⟨ m_stall_count := m_stall_count b + 1 ⟩, evs).

(** ** Functional accesses

    [fread] and [fwrite] are the accessors of the protocol's message class:
    [fread] gives the packet filled from the message, [fwrite] the message
    updated from the packet, [None] when the addresses do not match. *)
Section Functional.
Context {Packet : Type}.
Context (fread : Message -> Packet -> option Packet) (fwrite : Message -> Packet -> option Message).

Fixpoint read_first (l : list Message) (pkt : Packet) : option Packet :=
  match l with
  | [] => None
  | m :: l => match fread m pkt with Some p => Some p | None => read_first l pkt end
  end.

Definition write_all (pkt : Packet) (l : list Message) : list Message :=
  map (fun m => default m (fwrite m pkt)) l.
Definition written (pkt : Packet) (l : list Message) : nat :=
  length (filter (fun m => is_Some (fwrite m pkt)) l).

Definition mb_functionalRead (b : MessageBuffer) (pkt : Packet) : bool * Packet :=
  match read_first (all_messages b) pkt with Some p => (true, p) | None => (false, pkt) end.

Definition mb_functionalWrite (b : MessageBuffer) (pkt : Packet) : MessageBuffer * Z :=
  (b ⟨ m_prio_heap := write_all pkt (m_prio_heap b) ⟩
     ⟨ m_stall_msg_map := write_all pkt <$> m_stall_msg_map b ⟩,
   Z.of_nat (written pkt (all_messages b))).
End Functional.

(** ** What the operations do *)

(** Unfolds field assignments. *)
Ltac fields := cbn [setf m_time m_LastEnqueueTime m_DelayedTicks msg_counter incoming_link vnet
  m_Destination m_MessageSize payload m_consumer m_prio_heap m_dequeue_callback m_stall_msg_map
  m_stall_map_size m_max_size m_time_last_time_size_checked m_size_last_time_size_checked
  m_time_last_time_enqueue m_time_last_time_pop m_last_arrival_time m_size_at_cycle_start
  m_stalled_at_cycle_start m_msgs_this_cycle m_not_avail_count m_msg_counter m_priority_rank
  m_strict_fifo m_randomization m_input_link_id m_vnet_id m_buf_msgs m_stall_time m_stall_count] in *.

Lemma random_time_range r : draws_ok r -> 1 <= random_time r <= 119.
Proof. destruct r as [[r1 r2] r3]. cbn. destruct (r2 =? 0); lia. Qed.

(** The part of the state that no operation but the constructor sets. *)
Definition same_config (b b' : MessageBuffer) : Prop :=
  m_max_size b' = m_max_size b /\ m_strict_fifo b' = m_strict_fifo b /\
  m_randomization b' = m_randomization b /\ m_consumer b' = m_consumer b.

Lemma enqueue_spec rs r b m t d b' evs :
  enqueue rs r b m t d = Ok (b', evs) ->
  exists arrival m',
    m_prio_heap b' = heap_insert msg_gt (m_prio_heap b) m' /\
    payload m' = payload m /\ m_LastEnqueueTime m' = arrival /\
    msg_counter m' = u64 (m_msg_counter b + 1) /\ t < arrival /\
    m_stall_msg_map b' = m_stall_msg_map b /\ m_stall_map_size b' = m_stall_map_size b /\
    m_buf_msgs b' = m_buf_msgs b + 1 /\ m_msg_counter b' = u64 (m_msg_counter b + 1) /\
    m_time_last_time_pop b' = m_time_last_time_pop b /\
    m_size_at_cycle_start b' = m_size_at_cycle_start b /\
    m_stalled_at_cycle_start b' = m_stalled_at_cycle_start b /\
    m_time_last_time_enqueue b' = Z.max (m_time_last_time_enqueue b) t /\
    m_msgs_this_cycle b' =
      (if m_time_last_time_enqueue b <? t then 1 else u32 (m_msgs_this_cycle b + 1)) /\
    (m_strict_fifo b = true -> m_last_arrival_time b <= arrival) /\
    (getWarmupEnabled rs = false -> m_last_arrival_time b' = arrival) /\
    same_config b b'.
Proof.
  unfold enqueue, updateDelayedTicks. intros H.
  destruct (m_time_last_time_enqueue b <? t) eqn:Et; fields; b2p;
  destruct (m_strict_fifo b) eqn:Es, (getWarmupEnabled rs) eqn:Ew; fields;
  (destruct (negb (getRandomization rs) && negb (m_randomization b))%bool;
    [| try destruct (m_last_arrival_time b <? t) eqn:El]; fields; rewrite ?Es in H; cbn [negb andb] in H;
   inv_res; b2p; subst; fields; unfold same_config;
   do 2 eexists; split_and!; fields; first [done | lia | intros _; fields; lia]).
Qed.

Lemma dequeue_spec curTick b t dec b' m' delay evs :
  dequeue curTick b t dec = Ok (b', m', delay, evs) ->
  exists m, head (m_prio_heap b) = Some m /\ payload m' = payload m /\
    m_LastEnqueueTime m' = m_LastEnqueueTime m /\ m_LastEnqueueTime m <= t /\
    m_prio_heap b' = heap_remove msg_gt (m_prio_heap b) /\
    m_stall_msg_map b' = m_stall_msg_map b /\ m_stall_map_size b' = m_stall_map_size b /\
    m_buf_msgs b' = (if dec then m_buf_msgs b - 1 else m_buf_msgs b) /\
    m_msg_counter b' = m_msg_counter b /\
    m_time_last_time_enqueue b' = m_time_last_time_enqueue b /\
    m_msgs_this_cycle b' = m_msgs_this_cycle b /\ m_last_arrival_time b' = m_last_arrival_time b /\
    m_time_last_time_pop b' = Z.max (m_time_last_time_pop b) t /\
    m_size_at_cycle_start b' =
      (if m_time_last_time_pop b <? t then u32 (heap_size b) else m_size_at_cycle_start b) /\
    m_stalled_at_cycle_start b' =
      (if m_time_last_time_pop b <? t then u32 (m_stall_map_size b) else m_stalled_at_cycle_start b) /\
    same_config b b'.
Proof.
  unfold dequeue, updateDelayedTicks, isReady. intros H.
  destruct (m_prio_heap b) as [|m l] eqn:Eh; [discriminate H |]. cbn [vfront] in H.
  inv_res. exists m. unfold same_config.
  destruct (m_time_last_time_pop b <? t) eqn:Et, dec; b2p; subst; fields; rewrite ?Eh;
    split_and!; first [done | lia].
Qed.

Lemma recycle_spec b t lat b' evs :
  recycle b t lat = Ok (b', evs) ->
  exists m, head (m_prio_heap b) = Some m /\ m_LastEnqueueTime m <= t /\
    b' = b ⟨ m_prio_heap := heap_insert msg_gt (heap_remove msg_gt (m_prio_heap b))
                              (m ⟨ m_LastEnqueueTime := u64 (t + lat) ⟩) ⟩.
Proof.
  unfold recycle, isReady. intros H.
  destruct (m_prio_heap b) as [|m l] eqn:Eh; [discriminate H |]. cbn [vfront] in H.
  inv_res. b2p. exists m. split_and!; [done | done |]. by subst.
Qed.

Lemma reanalyzeList_spec b lt t b' evs :
  reanalyzeList b lt t = Ok (b', evs) ->
  b' = b ⟨ m_prio_heap := m_prio_heap b' ⟩ /\ m_prio_heap b' ≡ₚ lt ++ m_prio_heap b /\
  (is_heap msg_gt (m_prio_heap b) -> is_heap msg_gt (m_prio_heap b')).
Proof.
  revert b evs. induction lt as [|m lt IH]; intros b evs H; cbn [reanalyzeList] in H.
  - injection H as <- _. by destruct b.
  - inv_res. destruct a1 as [b1 evs1]. cbn [fst snd] in H. subst b1.
    apply IH in E1 as (-> & HP & Hh). fields. split_and!; [done | |].
    + rewrite HP, heap_insert_Permutation. symmetry. apply Permutation_middle.
    + intros ?. apply Hh. apply (heap_insert_heap msg_gt). done.
Qed.

(** ** Stalled messages *)

Lemma stalled_map_to_list m : stalled m ≡ₚ map_to_list m ≫= snd.
Proof. unfold stalled, stall_list. by rewrite merge_sort_Permutation. Qed.

Lemma stalled_delete m a l : m !! a = Some l -> stalled m ≡ₚ l ++ stalled (delete a m).
Proof. intros Hl. rewrite !stalled_map_to_list, <- (map_to_list_delete m a l Hl). done. Qed.

Lemma stalled_insert m a l : stalled (<[a := l]> m) ≡ₚ l ++ stalled (delete a m).
Proof.
  rewrite <- insert_delete_eq, !stalled_map_to_list, map_to_list_insert; [done |].
  apply lookup_delete_eq.
Qed.

Lemma stalled_push m a x :
  stalled (<[a := default [] (m !! a) ++ [x]]> m) ≡ₚ x :: stalled m.
Proof.
  rewrite stalled_insert. destruct (m !! a) as [l|] eqn:E; cbn [default].
  - rewrite (stalled_delete m a l E). by rewrite <- Permutation_cons_append.
  - by rewrite delete_id.
Qed.

Lemma stalled_empty : stalled ∅ = [].
Proof. done. Qed.

Definition stalled_count (b : MessageBuffer) : Z := Z.of_nat (length (stalled (m_stall_msg_map b))).

Lemma reanalyze_entry_spec t b evs e b' evs' :
  reanalyze_entry t (b, evs) e = Ok (b', evs') ->
  Z.of_nat (length e.2) <= m_stall_map_size b < 2 ^ 31 ->
  exists h, b' = b ⟨ m_prio_heap := h ⟩
                   ⟨ m_stall_map_size := m_stall_map_size b - Z.of_nat (length e.2) ⟩ /\
    h ≡ₚ e.2 ++ m_prio_heap b /\
    (is_heap msg_gt (m_prio_heap b) -> is_heap msg_gt h).
Proof.
  unfold reanalyze_entry. intros H Hsz. inv_res. destruct a0 as [b1 evs1]. cbn [fst snd] in H. subst b1.
  apply reanalyzeList_spec in E0 as (-> & HP & Hh). fields.
  exists (m_prio_heap b'). rewrite i32_id by (unfold in_i32; lia). done.
Qed.

Lemma reanalyze_entries_spec t es b evs b' evs' :
  foldM (reanalyze_entry t) es (b, evs) = Ok (b', evs') ->
  Z.of_nat (length (es ≫= snd)) <= m_stall_map_size b < 2 ^ 31 ->
  exists h, b' = b ⟨ m_prio_heap := h ⟩
                   ⟨ m_stall_map_size := m_stall_map_size b - Z.of_nat (length (es ≫= snd)) ⟩ /\
    h ≡ₚ (es ≫= snd) ++ m_prio_heap b /\
    (is_heap msg_gt (m_prio_heap b) -> is_heap msg_gt h).
Proof.
  revert b evs. induction es as [|e es IH]; intros b evs H Hsz; cbn [foldM] in H.
  - injection H as <- _. exists (m_prio_heap b). split_and!; [| done | done].
    destruct b. fields. by rewrite Z.sub_0_r.
  - apply res_bind_Ok_inv in H as ([b1 evs1] & H1 & H2). rewrite bind_cons, length_app in *.
    apply reanalyze_entry_spec in H1 as (h1 & -> & HP1 & Hh1); [| lia].
    apply IH in H2 as (h & -> & HP & Hh); fields; [| lia]. exists h. split_and!.
    + unfold setf. fields. f_equal. lia.
    + rewrite HP, HP1. by rewrite !app_assoc, (Permutation_app_comm _ e.2).
    + eauto.
Qed.

(** ** Runs of operations *)

Inductive mb_op :=
  | OpEnqueue (r : Z * Z * Z) (m : Message) (delta : Z)
  | OpDequeue
  | OpRecycle (latency : Z)
  | OpDelayHead (r : Z * Z * Z) (delta : Z)
  | OpStall (addr : Z)
  | OpReanalyze (addr : Z)
  | OpReanalyzeAll
  | OpSlots (n : Z)
  | OpGetSize.

(** One call at time [t]; the message it hands out, if it hands one out. *)
Definition mb_step (rs : RubySystem) (t : Z) (b : MessageBuffer) (op : mb_op)
    : res (MessageBuffer * list Message) :=
  match op with
  | OpEnqueue r m delta => x ← enqueue rs r b m t delta; Ok (x.1, [])
  | OpDequeue => x ← dequeue t b t true; Ok (x.1.1.1, [x.1.1.2])
  | OpRecycle latency => x ← recycle b t latency; Ok (x.1, [])
  | OpDelayHead r delta => x ← delayHead rs r b t delta; Ok (x.1, [])
  | OpStall addr => x ← stallMessage rs t b addr t; Ok (x.1, [])
  | OpReanalyze addr => x ← reanalyzeMessages b addr t; Ok (x.1, [])
  | OpReanalyzeAll => x ← reanalyzeAllMessages b t; Ok (x.1, [])
  | OpSlots n => Ok ((areNSlotsAvailable b n t).1, [])
  | OpGetSize => Ok ((getSize b t).1, [])
  end.

Fixpoint mb_run (rs : RubySystem) (b : MessageBuffer) (ops : list (Z * mb_op))
    : res (MessageBuffer * list Message) :=
  match ops with
  | [] => Ok (b, [])
  | (t, op) :: ops =>
      x ← mb_step rs t b op;
      y ← mb_run rs x.1 ops;
      Ok (y.1, x.2 ++ y.2)
  end.

Definition op_in (op : mb_op) : list Z :=
  match op with OpEnqueue _ m _ => [payload m] | _ => [] end.
Definition op_delays (op : mb_op) : Z := match op with OpDelayHead _ _ => 1 | _ => 0 end.

(** The buffer's representation invariant. *)
Definition mb_ok (b : MessageBuffer) : Prop :=
  is_heap msg_gt (m_prio_heap b) /\ m_stall_map_size b = stalled_count b.

Definition occupancy (b : MessageBuffer) : Z := Z.of_nat (length (all_messages b)).

Lemma occupancy_eq b : occupancy b = heap_size b + stalled_count b.
Proof. unfold occupancy, all_messages, heap_size, stalled_count. rewrite length_app. lia. Qed.

(** What one operation does to the contents: heap order and stall count kept,
    the occupancy, and the payloads as a multiset. *)
Definition conserves (b b' : MessageBuffer) (inp : list Z) (out : list Message) : Prop :=
  mb_ok b' /\ same_config b b' /\
  (payload <$> out) ++ (payload <$> all_messages b') ≡ₚ inp ++ (payload <$> all_messages b).

Lemma fmap_heap_insert l m : payload <$> heap_insert msg_gt l m ≡ₚ payload m :: (payload <$> l).
Proof. by rewrite heap_insert_Permutation. Qed.

Lemma fmap_heap_remove l m :
  head l = Some m -> payload <$> l ≡ₚ payload m :: (payload <$> heap_remove msg_gt l).
Proof. intros H. by rewrite (heap_remove_Permutation msg_gt l m H) at 1. Qed.

Lemma enqueue_conserves rs r b m t d b' evs :
  mb_ok b -> enqueue rs r b m t d = Ok (b', evs) -> conserves b b' [payload m] [].
Proof.
  intros [Hh Hs] (arr & m' & Hheap & Hp & _ & _ & _ & Hmap & Hsz & _ & _ & _ & _ & _ & _ & _ & _ & _ & Hc)
    %enqueue_spec.
  unfold conserves, mb_ok, stalled_count, all_messages in *. rewrite Hheap, Hmap, Hsz. split_and!; try done.
  - by apply (heap_insert_heap msg_gt).
  - rewrite !fmap_app, fmap_heap_insert, Hp. done.
Qed.

Lemma dequeue_conserves curTick b t dec b' m' delay evs :
  mb_ok b -> dequeue curTick b t dec = Ok (b', m', delay, evs) -> conserves b b' [] [m'].
Proof.
  intros [Hh Hs] (m & Hm & Hp & _ & _ & Hheap & Hmap & Hsz & _ & _ & _ & _ & _ & _ & _ & _ & Hc)%dequeue_spec.
  unfold conserves, mb_ok, stalled_count, all_messages in *. rewrite Hheap, Hmap, Hsz. split_and!; try done.
  - by apply (heap_remove_heap msg_gt).
  - rewrite !fmap_app, (fmap_heap_remove _ _ Hm). by rewrite <- Hp.
Qed.

Lemma recycle_conserves b t lat b' evs :
  mb_ok b -> recycle b t lat = Ok (b', evs) -> conserves b b' [] [].
Proof.
  intros [Hh Hs] (m & Hm & _ & ->)%recycle_spec.
  unfold conserves, mb_ok, same_config, stalled_count, all_messages in *. fields. split_and!; try done.
  - by apply (heap_insert_heap msg_gt), (heap_remove_heap msg_gt).
  - rewrite !fmap_app, fmap_heap_insert, (fmap_heap_remove _ _ Hm). done.
Qed.

Lemma delayHead_conserves rs r b t d b' evs :
  mb_ok b -> delayHead rs r b t d = Ok (b', evs) -> conserves b b' [] [].
Proof.
  unfold delayHead. intros [Hh Hs] H. apply res_bind_Ok_inv in H as (m & Hm & H).
  destruct (m_prio_heap b) as [|x l] eqn:E; [done |]. injection Hm as ->. rewrite <- E in *.
  apply enqueue_conserves in H as (Hok & Hc & HP).
  - split; [done |]. split; [done |]. rewrite HP. unfold all_messages. fields.
    rewrite !fmap_app, (fmap_heap_remove (m_prio_heap b) m); [done | by rewrite E].
  - split; [by apply (heap_remove_heap msg_gt) | done].
Qed.

Lemma stallMessage_conserves rs curTick b addr t b' evs :
  mb_ok b -> stallMessage rs curTick b addr t = Ok (b', evs) -> conserves b b' [] [].
Proof.
  unfold stallMessage. intros Hok H. inv_res. destruct a2 as [[[b1 m] dl] evs1].
  apply (dequeue_conserves _ _ _ _ _ _ _ _ Hok) in E2 as ([Hh Hs] & Hc & HP).
  injection H as <- _.
  unfold conserves, mb_ok, same_config, stalled_count, all_messages in *. fields. split_and!; try done.
  - rewrite stalled_push. cbn [length]. lia.
  - by apply Hc.
  - by apply Hc.
  - by apply Hc.
  - by apply Hc.
  - rewrite !fmap_app, stalled_push in *. cbn [fmap list_fmap app] in *. rewrite <- HP.
    symmetry. apply Permutation_middle.
Qed.

Lemma reanalyzeMessages_conserves b addr t b' evs :
  mb_ok b -> occupancy b < 2 ^ 31 ->
  reanalyzeMessages b addr t = Ok (b', evs) ->
  conserves b b' [] [] /\ b' = b ⟨ m_prio_heap := m_prio_heap b' ⟩
    ⟨ m_stall_map_size := m_stall_map_size b' ⟩ ⟨ m_stall_msg_map := m_stall_msg_map b' ⟩.
Proof.
  unfold reanalyzeMessages. intros [Hh Hs] Hocc H. rewrite occupancy_eq in Hocc.
  destruct (m_stall_msg_map b !! addr) as [lt|] eqn:E; [| discriminate H].
  pose proof (stalled_delete _ _ _ E) as HP. pose proof (Permutation_length HP) as Hlen.
  rewrite length_app in Hlen. unfold stalled_count, heap_size in *.
  apply res_bind_Ok_inv in H as ([b1 evs1] & H1 & H2). injection H2 as <- _.
  apply reanalyze_entry_spec in H1 as (h & -> & HPh & Hhh); cbn [snd] in *; [| lia].
  unfold conserves, mb_ok, same_config, stalled_count, all_messages. cbn [fst]. fields. split; [| done].
  split_and!; try done; [by apply Hhh | lia |].
  cbn [fmap list_fmap app]. rewrite !fmap_app, HPh, HP, !fmap_app.
  by rewrite (Permutation_app_comm (payload <$> lt)), <- app_assoc.
Qed.

Lemma reanalyzeAllMessages_conserves b t b' evs :
  mb_ok b -> occupancy b < 2 ^ 31 ->
  reanalyzeAllMessages b t = Ok (b', evs) ->
  conserves b b' [] [] /\ b' = b ⟨ m_prio_heap := m_prio_heap b' ⟩
    ⟨ m_stall_map_size := m_stall_map_size b' ⟩ ⟨ m_stall_msg_map := m_stall_msg_map b' ⟩.
Proof.
  unfold reanalyzeAllMessages. intros [Hh Hs] Hocc H. rewrite occupancy_eq in Hocc.
  unfold stalled_count, heap_size in *.
  apply res_bind_Ok_inv in H as ([b1 evs1] & H1 & H2). injection H2 as <- _.
  apply reanalyze_entries_spec in H1 as (h & -> & HPh & Hhh); fold (stalled (m_stall_msg_map b)) in *; [| lia].
  unfold conserves, mb_ok, same_config, stalled_count, all_messages. cbn [fst]. fields. split; [| done].
  rewrite stalled_empty. split_and!; try done; [by apply Hhh | cbn [length]; lia |].
  cbn [fmap list_fmap app]. rewrite app_nil_r, HPh, !fmap_app. apply Permutation_app_comm.
Qed.

Lemma conserves_same b b' :
  mb_ok b -> m_prio_heap b' = m_prio_heap b -> m_stall_msg_map b' = m_stall_msg_map b ->
  m_stall_map_size b' = m_stall_map_size b -> same_config b b' -> conserves b b' [] [].
Proof.
  intros [Hh Hs] H1 H2 H3 Hc. unfold conserves, mb_ok, stalled_count, all_messages in *.
  rewrite H1, H2, H3. done.
Qed.

Lemma areNSlots_same b n t : exists c, (areNSlotsAvailable b n t).1 = b ⟨ m_not_avail_count := c ⟩.
Proof.
  assert (b = b ⟨ m_not_avail_count := m_not_avail_count b ⟩) as Hb by by destruct b.
  unfold areNSlotsAvailable. destruct (m_max_size b =? 0); [by exists (m_not_avail_count b) |].
  destruct (m_time_last_time_pop b <? t); (destruct (_ <=? _); [exists (m_not_avail_count b); done |]);
    eexists; done.
Qed.

Lemma getSize_same b t : exists c d, (getSize b t).1 =
  b ⟨ m_time_last_time_size_checked := c ⟩ ⟨ m_size_last_time_size_checked := d ⟩.
Proof.
  unfold getSize. destruct (negb _).
  - by do 2 eexists.
  - exists (m_time_last_time_size_checked b), (m_size_last_time_size_checked b). by destruct b.
Qed.

Lemma mb_step_conserves rs t b op b' out :
  mb_ok b -> occupancy b < 2 ^ 31 ->
  mb_step rs t b op = Ok (b', out) -> conserves b b' (op_in op) out.
Proof.
  intros Hok Hocc H. destruct op; cbn [mb_step op_in] in *;
    try (apply res_bind_Ok_inv in H as (x & Hx & H); injection H as <- <-).
  - destruct x. by eapply enqueue_conserves.
  - destruct x as [[[? ?] ?] ?]. by eapply dequeue_conserves.
  - destruct x. by eapply recycle_conserves.
  - destruct x. by eapply delayHead_conserves.
  - destruct x. by eapply stallMessage_conserves.
  - destruct x. by eapply reanalyzeMessages_conserves.
  - destruct x. by eapply reanalyzeAllMessages_conserves.
  - injection H as <- <-. destruct (areNSlots_same b n t) as [c ->].
    apply conserves_same; done.
  - destruct (getSize_same b t) as (c & d & E). rewrite E in H. injection H as <- <-.
    apply conserves_same; done.
Qed.

Lemma conserves_occupancy b b' op out :
  conserves b b' (op_in op) out ->
  occupancy b' + Z.of_nat (length out) = occupancy b + Z.of_nat (length (op_in op)).
Proof.
  intros (_ & _ & HP). apply Permutation_length in HP.
  rewrite !length_app, !length_fmap in HP. unfold occupancy. lia.
Qed.

Lemma length_op_in op : (length (op_in op) <= 1)%nat.
Proof. destruct op; simpl; lia. Qed.

Lemma mb_run_conserves rs b ops b' out :
  mb_ok b -> occupancy b + Z.of_nat (length ops) < 2 ^ 31 ->
  mb_run rs b ops = Ok (b', out) ->
  mb_ok b' /\ same_config b b' /\
  (payload <$> out) ++ (payload <$> all_messages b') ≡ₚ
    (ops ≫= op_in ∘ snd) ++ (payload <$> all_messages b).
Proof.
  revert b out. induction ops as [|[t op] ops IH]; intros b out Hok Hocc H; cbn [mb_run] in H.
  - injection H as <- <-. split; [done |]. split; [by split_and! | done].
  - apply res_bind_Ok_inv in H as ([b1 o1] & H1 & H2).
    apply res_bind_Ok_inv in H2 as ([b2 o2] & H2 & H3). injection H3 as <- <-. cbn [fst snd length] in *.
    pose proof (mb_step_conserves rs t b op b1 o1 Hok ltac:(lia) H1) as Hc.
    pose proof (conserves_occupancy _ _ _ _ Hc). pose proof (length_op_in op).
    destruct Hc as (Hok1 & Hcf1 & HP1).
    destruct (IH b1 o2 Hok1 ltac:(lia) H2) as (Hok2 & Hcf2 & HP2).
    split; [done |]. split; [unfold same_config in *; intuition congruence |].
    rewrite bind_cons, fmap_app, <- app_assoc, HP2. cbn [compose snd].
    rewrite (Permutation_app_comm _ (payload <$> all_messages b1)), app_assoc, HP1.
    rewrite <- !app_assoc. apply Permutation_app_head, Permutation_app_comm.
Qed.

Lemma stallMessage_spec rs curTick b addr t b' evs :
  stallMessage rs curTick b addr t = Ok (b', evs) ->
  exists b1 m dl evs1, dequeue curTick b t false = Ok (b1, m, dl, evs1) /\
    b' = b1 ⟨ m_stall_msg_map := m_stall_msg_map b' ⟩ ⟨ m_stall_map_size := m_stall_map_size b' ⟩
            ⟨ m_stall_count := m_stall_count b' ⟩.
Proof.
  unfold stallMessage. intros H. inv_res. destruct a2 as [[[b1 m] dl] evs1].
  injection H as <- _. exists b1, m, dl, evs1. split; [done |]. done.
Qed.

Lemma delayHead_spec rs r b t d b' evs :
  delayHead rs r b t d = Ok (b', evs) ->
  exists m, head (m_prio_heap b) = Some m /\
    enqueue rs r (b ⟨ m_prio_heap := heap_remove msg_gt (m_prio_heap b) ⟩) m t d = Ok (b', evs).
Proof.
  unfold delayHead. intros H. apply res_bind_Ok_inv in H as (m & Hm & H). exists m.
  destruct (m_prio_heap b); [done |]. by injection Hm as ->.
Qed.

Lemma mb_step_buf_msgs rs t b op b' out :
  mb_ok b -> occupancy b < 2 ^ 31 -> mb_step rs t b op = Ok (b', out) ->
  m_buf_msgs b' - occupancy b' = m_buf_msgs b - occupancy b + op_delays op.
Proof.
  intros Hok Hocc H.
  pose proof (conserves_occupancy _ _ _ _ (mb_step_conserves rs t b op b' out Hok Hocc H)) as Ho.
  destruct op; cbn [mb_step op_in op_delays length] in *;
    try (apply res_bind_Ok_inv in H as (x & Hx & H); injection H as <- <-; cbn [length] in *).
  - destruct x. apply enqueue_spec in Hx as (? & ? & ? & ? & ? & ? & ? & ? & ? & ? & _). cbn [fst] in *. lia.
  - destruct x as [[[? ?] ?] ?]. apply dequeue_spec in Hx as (? & ? & ? & ? & ? & ? & ? & ? & ? & _).
    cbn [fst snd] in *. lia.
  - destruct x. apply recycle_spec in Hx as (m1 & _ & _ & ->). cbn [fst] in *. fields. lia.
  - destruct x. apply delayHead_spec in Hx as (m' & _ & Hx).
    apply enqueue_spec in Hx as (? & ? & ? & ? & ? & ? & ? & ? & ? & Hm & _).
    cbn [fst] in *. fields. lia.
  - destruct x as [b1 ?]. apply stallMessage_spec in Hx as (b2 & m' & dl & evs1 & Hx & Hb).
    apply dequeue_spec in Hx as (? & ? & ? & ? & ? & ? & ? & ? & Hm & _).
    assert (m_buf_msgs b1 = m_buf_msgs b2) by (rewrite Hb; done). cbn [fst] in *. lia.
  - destruct x as [b1 ?]. apply reanalyzeMessages_conserves in Hx as [_ Hb]; [| done | done].
    assert (m_buf_msgs b1 = m_buf_msgs b) by (rewrite Hb; done). cbn [fst] in *. lia.
  - destruct x as [b1 ?]. apply reanalyzeAllMessages_conserves in Hx as [_ Hb]; [| done | done].
    assert (m_buf_msgs b1 = m_buf_msgs b) by (rewrite Hb; done). cbn [fst] in *. lia.
  - destruct (areNSlots_same b n t) as [c E]. rewrite E in H. injection H as <- <-. fields.
    cbn [length] in *. lia.
  - destruct (getSize_same b t) as (c & d & E). rewrite E in H. injection H as <- <-. fields.
    cbn [length] in *. lia.
Qed.

Definition delays (ops : list (Z * mb_op)) : Z := foldr (fun o n => op_delays o.2 + n) 0 ops.

Lemma mb_run_buf_msgs rs b ops b' out :
  mb_ok b -> occupancy b + Z.of_nat (length ops) < 2 ^ 31 ->
  mb_run rs b ops = Ok (b', out) ->
  m_buf_msgs b' - occupancy b' = m_buf_msgs b - occupancy b + delays ops.
Proof.
  revert b out. induction ops as [|[t op] ops IH]; intros b out Hok Hocc H; cbn [mb_run] in H.
  - injection H as <- <-. cbn. lia.
  - apply res_bind_Ok_inv in H as ([b1 o1] & H1 & H2).
    apply res_bind_Ok_inv in H2 as ([b2 o2] & H2 & H3). injection H3 as <- <-. cbn [fst snd length] in *.
    pose proof (mb_step_conserves rs t b op b1 o1 Hok ltac:(lia) H1) as Hc.
    pose proof (conserves_occupancy _ _ _ _ Hc). pose proof (length_op_in op).
    pose proof (mb_step_buf_msgs rs t b op b1 o1 Hok ltac:(lia) H1).
    destruct Hc as [Hok1 _]. specialize (IH b1 o2 Hok1 ltac:(lia) H2).
    unfold delays in *. cbn [foldr snd]. lia.
Qed.

(** A buffer as the network sets it up: constructed, then given a consumer. *)
Definition fresh_buffer (buffer_size : Z) (ordered randomization : bool) (consumer vnet_id : Z) : MessageBuffer :=
  mb_setVnet (MessageBuffer_ctor buffer_size ordered randomization ⟨ m_consumer := Some consumer ⟩) vnet_id.

Lemma fresh_buffer_ok sz o rnd c v : mb_ok (fresh_buffer sz o rnd c v) /\ occupancy (fresh_buffer sz o rnd c v) = 0.
Proof. split; [split; [apply is_heap_nil | done] | done]. Qed.

(** C6.  No message is lost, duplicated or invented by a message buffer:
    after any run of operations (enqueue, dequeue, recycle, delayed head,
    stalls and reanalyses), the messages handed out and the messages still
    held, in the heap or in the stall map, are exactly the messages enqueued.
    The stall counter is the number of stalled messages, the heap is ordered,
    and the occupancy statistic exceeds the occupancy by one for every
    [delayHead], which enqueues again without un-counting. *)
Theorem message_conservation rs sz o rnd c v ops b out :
  Z.of_nat (length ops) < 2 ^ 31 ->
  mb_run rs (fresh_buffer sz o rnd c v) ops = Ok (b, out) ->
  (payload <$> out) ++ (payload <$> all_messages b) ≡ₚ (ops ≫= op_in ∘ snd) /\
  is_heap msg_gt (m_prio_heap b) /\ m_stall_map_size b = stalled_count b /\
  m_buf_msgs b = occupancy b + delays ops.
Proof.
  intros Hlen H. destruct (fresh_buffer_ok sz o rnd c v) as [Hok Hocc].
  pose proof (mb_run_buf_msgs rs _ ops b out Hok ltac:(lia) H) as Hb. rewrite Hocc in Hb.
  apply mb_run_conserves in H as ([Hh Hs] & _ & HP); [| done | lia].
  split_and!; [| done | done |].
  - rewrite HP. cbn [fresh_buffer mb_setVnet]. unfold all_messages. fields. by rewrite app_nil_r.
  - change (m_buf_msgs (fresh_buffer sz o rnd c v)) with 0 in Hb. lia.
Qed.

(** A message as a controller creates it at time [t]. *)
Definition Message_ctor (t : Z) (dest : netdest) (sz : MessageSizeType) (p : Z) : Message :=
  {| m_time := t; m_LastEnqueueTime := t; m_DelayedTicks := 0; msg_counter := 0; incoming_link := 0;
     vnet := 0; m_Destination := dest; m_MessageSize := sz; payload := p |}.

Definition rs_plain : RubySystem :=
  {| getRandomization := false; getWarmupEnabled := false; getBlockSizeBits := 6 |}.

Definition demo_ops : list (Z * mb_op) :=
  [(1, OpEnqueue (0, 0, 1) (Message_ctor 1 [] Control 7) 2);
   (1, OpEnqueue (0, 0, 1) (Message_ctor 1 [] Data 8) 1);
   (3, OpStall 64); (3, OpDelayHead (0, 0, 1) 2); (4, OpReanalyze 64); (5, OpDequeue)].

Lemma message_conservation_witness :
  exists b out, mb_run rs_plain (fresh_buffer 0 false false 1 0) demo_ops = Ok (b, out) /\
    (payload <$> out) ++ (payload <$> all_messages b) ≡ₚ (demo_ops ≫= op_in ∘ snd) /\
    is_heap msg_gt (m_prio_heap b) /\ m_stall_map_size b = stalled_count b /\
    m_buf_msgs b = occupancy b + delays demo_ops.
Proof.
  do 2 eexists. split; [vm_compute; reflexivity |].
  eapply (message_conservation rs_plain 0 false false 1 0 demo_ops); [done | vm_compute; reflexivity].
Defined.

(** ** Arrival times *)

(** Without randomisation, an enqueue into an unordered buffer at tick
    [t] with delay [delta] succeeds exactly when [t + delta] fits the 64-bit
    tick counter, and then wakes the consumer at exactly [t + delta]; when the
    sum wraps around, the arrival-time assertion catches it. *)
Theorem enqueue_arrival rs r b m t delta c :
  getRandomization rs = false -> m_randomization b = false -> m_strict_fifo b = false ->
  m_consumer b = Some c -> m_LastEnqueueTime m <= t -> in_u64 t -> 0 < delta < 2 ^ 64 ->
  (t + delta < 2 ^ 64 -> exists b',
     enqueue rs r b m t delta =
       Ok (b', [ScheduleEventAbsolute (t + delta); StoreEventInfo (m_vnet_id b)])) /\
  (2 ^ 64 <= t + delta -> enqueue rs r b m t delta = Err EAssert).
Proof.
  intros Hr Hmr Hsf Hc Hl Ht Hd. pose proof (u64_add_gt t delta Ht Hd) as Hgt.
  unfold enqueue, updateDelayedTicks. rewrite (proj2 (Z.ltb_lt 0 delta)) by lia. rewrite Hr.
  destruct (m_time_last_time_enqueue b <? t); fields; rewrite Hmr, Hsf; cbn [negb andb]; rsimpl.
  all: split; intros Hov;
    [| rewrite (proj2 (Z.ltb_ge t (u64 (t + delta)))); [done | unfold in_u64 in Hgt; lia]].
  all: rewrite (proj2 (Z.ltb_lt t (u64 (t + delta)))) by (apply Hgt; unfold in_u64 in *; lia); rsimpl.
  all: fields; rewrite ?Hsf; cbn [andb]; rsimpl; rewrite (proj2 (Z.leb_le _ _) Hl); rsimpl.
  all: rewrite bool_decide_eq_true_2 by (destruct (getWarmupEnabled rs); cbn [negb]; fields; by rewrite Hc).
  all: rsimpl; rewrite (u64_id (t + delta)) by (unfold in_u64 in *; lia).
  all: destruct (getWarmupEnabled rs); cbn [negb]; fields; eexists; reflexivity.
Qed.

Lemma enqueue_arrival_witness :
  (2 ^ 64 - 5 + 3 < 2 ^ 64 -> exists b',
     enqueue rs_plain (0, 0, 1) (fresh_buffer 0 false false 1 2) (Message_ctor 1 [] Control 7) (2 ^ 64 - 5) 3 =
       Ok (b', [ScheduleEventAbsolute (2 ^ 64 - 5 + 3); StoreEventInfo 2])) /\
  (2 ^ 64 <= 2 ^ 64 - 5 + 3 ->
     enqueue rs_plain (0, 0, 1) (fresh_buffer 0 false false 1 2) (Message_ctor 1 [] Control 7) (2 ^ 64 - 5) 3 =
       Err EAssert).
Proof.
  apply (enqueue_arrival rs_plain (0, 0, 1) (fresh_buffer 0 false false 1 2) (Message_ctor 1 [] Control 7)
           (2 ^ 64 - 5) 3 1); first [done | unfold in_u64; cbn [Message_ctor m_LastEnqueueTime]; lia].
Defined.

(** ** FIFO order of ordered buffers *)

Definition fifo_op (op : mb_op) : bool :=
  match op with OpEnqueue _ _ _ | OpDequeue | OpSlots _ | OpGetSize => true | _ => false end.

Definition msg_lt (a b : Message) : Prop := msg_gt b a = true.

(** The heap holds the queue [q], in order of arrival time and counter. *)
Definition fifo_rel (b : MessageBuffer) (q : list Message) : Prop :=
  m_prio_heap b ≡ₚ q /\ is_heap msg_gt (m_prio_heap b) /\ StronglySorted msg_lt q /\
  Forall (fun m => m_LastEnqueueTime m <= m_last_arrival_time b /\ msg_counter m <= m_msg_counter b) q.

Lemma fifo_enqueue rs r b m t d b' evs q :
  getWarmupEnabled rs = false -> m_strict_fifo b = true -> 0 <= m_msg_counter b < 2 ^ 64 - 1 ->
  fifo_rel b q -> enqueue rs r b m t d = Ok (b', evs) ->
  exists m', payload m' = payload m /\ fifo_rel b' (q ++ [m']) /\ m_msg_counter b' = m_msg_counter b + 1.
Proof.
  intros Hw Hsf Hcnt (HP & Hh & Hs & Hall)
    (arr & m' & Hheap & Hp & Harr & Hctr & _ & _ & _ & _ & Hc' & _ & _ & _ & _ & _ & Hla & Hla' & _)%enqueue_spec.
  rewrite (u64_id (m_msg_counter b + 1)) in * by (unfold in_u64; lia).
  specialize (Hla Hsf). specialize (Hla' Hw).
  exists m'. split_and!; [done | | done]. split_and!.
  - rewrite Hheap, heap_insert_Permutation, HP. apply Permutation_cons_append.
  - rewrite Hheap. by apply (heap_insert_heap msg_gt).
  - apply StronglySorted_append; [done |]. eapply Forall_impl; [exact Hall |].
    intros x [? ?]. apply msg_gt_lex. lia.
  - apply Forall_app. split; [| by repeat constructor; lia].
    eapply Forall_impl; [exact Hall |]. cbn beta. intros x [? ?]. lia.
Qed.

Lemma fifo_dequeue curTick b t dec b' m' dl evs q :
  fifo_rel b q -> dequeue curTick b t dec = Ok (b', m', dl, evs) ->
  exists m q', q = m :: q' /\ payload m' = payload m /\ fifo_rel b' q' /\ m_msg_counter b' = m_msg_counter b.
Proof.
  intros (HP & Hh & Hs & Hall)
    (m & Hm & Hp & _ & _ & Hheap & _ & _ & _ & Hctr & _ & _ & Hla & _)%dequeue_spec.
  destruct q as [|a q].
  { apply Permutation_nil_r in HP. rewrite HP in Hm. discriminate. }
  assert (m = a) as ->.
  { assert (m ∈ a :: q) as Hin by (rewrite <- HP; by apply head_Some_elem_of).
    apply elem_of_cons in Hin as [-> | Hin]; [done |].
    apply StronglySorted_inv in Hs as [_ Hs]. rewrite Forall_forall in Hs. specialize (Hs m Hin).
    assert (a ∈ m_prio_heap b) as Ha by (rewrite HP; left).
    pose proof (is_heap_front msg_gt _ _ Hh Hm a Ha) as Hle. unfold hle, msg_lt in *. congruence. }
  exists a, q. split_and!; try done. unfold fifo_rel. rewrite Hheap, Hctr, Hla. split_and!.
  - apply (Permutation_cons_inv (a := a)). rewrite <- HP. symmetry. by apply heap_remove_Permutation.
  - by apply (heap_remove_heap msg_gt).
  - by apply StronglySorted_inv in Hs as [? _].
  - by apply Forall_cons in Hall as [_ ?].
Qed.

Lemma fifo_run rs b ops b' out q :
  getWarmupEnabled rs = false -> m_strict_fifo b = true ->
  0 <= m_msg_counter b -> m_msg_counter b + Z.of_nat (length ops) < 2 ^ 64 ->
  forallb (fifo_op ∘ snd) ops = true -> fifo_rel b q -> mb_run rs b ops = Ok (b', out) ->
  exists q', (payload <$> q) ++ (ops ≫= op_in ∘ snd) = (payload <$> out) ++ (payload <$> q') /\ fifo_rel b' q'.
Proof.
  intros Hw. revert b out q. induction ops as [|[t op] ops IH]; intros b out q Hsf Hc0 Hc Hops Hq H;
    cbn [mb_run] in H.
  - injection H as <- <-. exists q. split; [by rewrite app_nil_r | done].
  - apply res_bind_Ok_inv in H as ([b1 o1] & H1 & H2).
    apply res_bind_Ok_inv in H2 as ([b2 o2] & H2 & H3). injection H3 as <- <-. cbn [fst snd length] in *.
    cbn [forallb compose snd] in Hops. apply andb_true_iff in Hops as [Hop Hops].
    rewrite bind_cons. cbn [compose snd].
    destruct op; try discriminate Hop; cbn [mb_step op_in] in *.
    + apply res_bind_Ok_inv in H1 as ([b3 ev] & Hx & H1). injection H1 as <- <-.
      pose proof (enqueue_spec _ _ _ _ _ _ _ _ Hx) as
        (_ & _ & _ & _ & _ & _ & _ & _ & _ & _ & _ & _ & _ & _ & _ & _ & _ & _ & _ & Hsf' & _).
      destruct (fifo_enqueue rs r b m t delta b3 ev q) as (m' & Hp & Hq' & Hc'); [done | done | lia | done | done |].
      cbn [fst] in *. destruct (IH b3 o2 (q ++ [m'])) as (q' & Heq & Hr); [congruence | lia | lia | done | done | done |].
      exists q'. split; [| done]. cbn [app]. rewrite <- Heq, fmap_app, <- app_assoc, <- Hp. done.
    + apply res_bind_Ok_inv in H1 as ([[[b3 m'] dl] ev] & Hx & H1). injection H1 as <- <-.
      pose proof (dequeue_spec _ _ _ _ _ _ _ _ Hx) as
        (_ & _ & _ & _ & _ & _ & _ & _ & _ & _ & _ & _ & _ & _ & _ & _ & _ & Hsf' & _).
      destruct (fifo_dequeue t b t true b3 m' dl ev q Hq Hx) as (m & q1 & -> & Hp & Hq' & Hc').
      cbn [fst snd] in *. destruct (IH b3 o2 q1) as (q' & Heq & Hr); [congruence | lia | lia | done | done | done |].
      exists q'. split; [| done]. cbn [app fmap list_fmap] in *. by rewrite Hp, <- Heq.
    + destruct (areNSlots_same b n t) as [c E]. rewrite E in H1. injection H1 as <- <-.
      eapply IH in H2 as (q' & Heq & Hr); [by exists q' | fields; done || lia..].
    + destruct (getSize_same b t) as (c & d & E). rewrite E in H1. injection H1 as <- <-.
      eapply IH in H2 as (q' & Heq & Hr); [by exists q' | fields; done || lia..].
Qed.

(** C36.  Outside cache warm-up an ordered buffer is a FIFO queue: over any
    run of fewer than 2^64 enqueues, dequeues and size queries, with or without
    random delays, the messages come out in the order they went in, and what has
    not come out yet is what the heap holds.  (During warm-up [enqueue] does not
    keep the order of arrival times; [warmup_reorders] receives 8 before 7.) *)
Theorem ordered_buffer_fifo rs sz rnd c v ops b out :
  getWarmupEnabled rs = false -> Z.of_nat (length ops) < 2 ^ 64 ->
  forallb (fifo_op ∘ snd) ops = true ->
  mb_run rs (fresh_buffer sz true rnd c v) ops = Ok (b, out) ->
  exists rest, (ops ≫= op_in ∘ snd) = (payload <$> out) ++ rest /\ rest ≡ₚ payload <$> m_prio_heap b.
Proof.
  intros Hw Hl Hops H.
  destruct (fifo_run rs (fresh_buffer sz true rnd c v) ops b out [] Hw ltac:(reflexivity) ltac:(done) Hl Hops) as (q & Heq & HP & _);
    [| exact H |].
  - split_and!; [done | apply is_heap_nil | constructor | constructor].
  - exists (payload <$> q). split; [done |]. by rewrite HP.
Qed.

Definition fifo_demo : list (Z * mb_op) :=
  [(1, OpEnqueue (0, 1, 1) (Message_ctor 1 [] Control 7) 4);
   (2, OpEnqueue (0, 1, 1) (Message_ctor 1 [] Data 8) 3); (5, OpDequeue)].

Lemma ordered_buffer_fifo_witness :
  exists b out, mb_run rs_plain (fresh_buffer 0 true false 1 0) fifo_demo = Ok (b, out) /\
    exists rest, (fifo_demo ≫= op_in ∘ snd) = (payload <$> out) ++ rest /\
      rest ≡ₚ payload <$> m_prio_heap b.
Proof.
  do 2 eexists. split; [vm_compute; reflexivity |].
  eapply (ordered_buffer_fifo rs_plain 0 false 1 0 fifo_demo); [done | done | done | vm_compute; reflexivity].
Defined.

(** During warm-up a strict FIFO buffer gives the second message first. *)
Definition warmup_out : res (list Z) :=
  r ← mb_run {| getRandomization := false; getWarmupEnabled := true; getBlockSizeBits := 6 |}
        (fresh_buffer 0 true false 1 0)
        [(1, OpEnqueue (0, 1, 1) (Message_ctor 1 [] Control 7) 4); (2, OpEnqueue (0, 1, 1) (Message_ctor 1 [] Data 8) 1);
         (5, OpDequeue); (9, OpDequeue)];
  Ok (map payload r.2).
Example warmup_reorders : warmup_out = Ok [8; 7].
Proof. vm_compute. reflexivity. Qed.

(** ** Capacity *)

(** The bound behind [areNSlotsAvailable]: the sizes recorded at the first pop
    of the cycle, plus the messages enqueued in this cycle, cover what the
    buffer holds.  [N] bounds the number of operations so far. *)
Definition cap_inv (N t : Z) (b : MessageBuffer) : Prop :=
  mb_ok b /\ occupancy b <= N /\
  m_time_last_time_pop b <= t /\ m_time_last_time_enqueue b <= t /\
  0 <= m_size_at_cycle_start b <= N /\ 0 <= m_stalled_at_cycle_start b <= N /\
  0 <= m_msgs_this_cycle b <= N /\
  (m_time_last_time_pop b = t ->
   occupancy b <= m_size_at_cycle_start b + m_stalled_at_cycle_start b +
     (if m_time_last_time_enqueue b <? t then 0 else m_msgs_this_cycle b)).

Lemma heap_size_bound b : 0 <= heap_size b <= occupancy b /\ 0 <= stalled_count b <= occupancy b.
Proof. rewrite occupancy_eq. unfold heap_size, stalled_count. lia. Qed.

(** A positive answer of [areNSlotsAvailable] means the room is there. *)
Lemma areNSlots_room N t b n :
  cap_inv N t b -> N < 2 ^ 30 -> 0 <= n < 2 ^ 30 -> m_max_size b <> 0 ->
  (areNSlotsAvailable b n t).2 = true -> occupancy b + n <= m_max_size b.
Proof.
  intros ((_ & Hss) & Hocc & Hp & He & Hs1 & Hs2 & Hm & Hcov) HN Hn Hmax H.
  unfold areNSlotsAvailable in H. rewrite (proj2 (Z.eqb_neq _ _) Hmax) in H.
  pose proof (heap_size_bound b). pose proof (occupancy_eq b).
  destruct (m_time_last_time_pop b <? t) eqn:Et; b2p.
  - rewrite !u32_id in H; rewrite ?u32_id; try (unfold in_u32; lia).
    all: rewrite ?u32_id; unfold in_u32; try lia.
    destruct (_ <=? m_max_size b) eqn:E; [b2p; lia | discriminate H].
  - specialize (Hcov ltac:(lia)). destruct (m_time_last_time_enqueue b <? t) eqn:Ee; b2p.
    all: rewrite !u32_id in H; rewrite ?u32_id; try (unfold in_u32; lia).
    all: rewrite ?u32_id; unfold in_u32; try lia.
    all: destruct (_ <=? m_max_size b) eqn:E; [b2p; lia | discriminate H].
Qed.

Lemma cap_inv_later N t t' b : cap_inv N t b -> t <= t' -> cap_inv N t' b.
Proof.
  intros (? & ? & ? & ? & ? & ? & ? & Hcov) Ht. split_and!; try done; try lia.
  intros Heq. replace t' with t by lia. apply Hcov. lia.
Qed.

(** Operations that move messages around but touch no size record. *)
Lemma cap_inv_same N t b b' :
  cap_inv N t b -> mb_ok b' -> occupancy b' = occupancy b ->
  m_time_last_time_pop b' = m_time_last_time_pop b ->
  m_time_last_time_enqueue b' = m_time_last_time_enqueue b ->
  m_size_at_cycle_start b' = m_size_at_cycle_start b ->
  m_stalled_at_cycle_start b' = m_stalled_at_cycle_start b ->
  m_msgs_this_cycle b' = m_msgs_this_cycle b -> cap_inv (N + 1) t b'.
Proof.
  intros (Q1 & Q2 & Q3 & Q4 & Q5 & Q6 & Q7 & Q8) Hok Ho Hp He H1 H2 H3. unfold cap_inv.
  rewrite Ho, Hp, He, H1, H2, H3. split_and!; try done; lia.
Qed.

(** [n] messages leave the heap before the enqueue proper ([delayHead]: 1). *)
Lemma cap_inv_enqueue N t rs r b b0 m d b' evs n :
  cap_inv N t b -> N < 2 ^ 30 -> mb_ok b' -> 0 <= n <= 1 -> occupancy b' = occupancy b + 1 - n ->
  m_time_last_time_pop b0 = m_time_last_time_pop b ->
  m_time_last_time_enqueue b0 = m_time_last_time_enqueue b ->
  m_size_at_cycle_start b0 = m_size_at_cycle_start b ->
  m_stalled_at_cycle_start b0 = m_stalled_at_cycle_start b ->
  m_msgs_this_cycle b0 = m_msgs_this_cycle b ->
  enqueue rs r b0 m t d = Ok (b', evs) -> cap_inv (N + 1) t b'.
Proof.
  intros (Q1 & Q2 & Q3 & Q4 & Q5 & Q6 & Q7 & Hcov) HN Hok Hn Ho Hp He H1 H2 H3
    (_ & _ & _ & _ & _ & _ & _ & _ & _ & _ & _ & Hp' & H1' & H2' & He' & H3' & _)%enqueue_spec.
  unfold cap_inv. rewrite Hp', H1', H2', He', H3', Hp, H1, H2, He, H3, Ho.
  replace (Z.max (m_time_last_time_enqueue b) t) with t by lia. rewrite Z.ltb_irrefl.
  destruct (m_time_last_time_enqueue b <? t) eqn:Et; b2p;
    rewrite ?(u32_id (m_msgs_this_cycle b + 1)) by (unfold in_u32; lia);
    split_and!; try done; try lia; intros Heq; specialize (Hcov Heq); lia.
Qed.

Lemma cap_inv_dequeue N t curTick b b1 b' dec m dl evs :
  cap_inv N t b -> N < 2 ^ 30 -> mb_ok b' -> occupancy b' <= occupancy b ->
  dequeue curTick b t dec = Ok (b1, m, dl, evs) ->
  m_time_last_time_pop b' = m_time_last_time_pop b1 ->
  m_time_last_time_enqueue b' = m_time_last_time_enqueue b1 ->
  m_size_at_cycle_start b' = m_size_at_cycle_start b1 ->
  m_stalled_at_cycle_start b' = m_stalled_at_cycle_start b1 ->
  m_msgs_this_cycle b' = m_msgs_this_cycle b1 -> cap_inv (N + 1) t b'.
Proof.
  intros ((Hh & Hss) & Q2 & Q3 & Q4 & Q5 & Q6 & Q7 & Hcov) HN Hok Ho
    (_ & _ & _ & _ & _ & _ & _ & _ & _ & _ & He' & H3' & _ & Hp' & H1' & H2' & _)%dequeue_spec Hp He H1 H2 H3.
  pose proof (heap_size_bound b). pose proof (occupancy_eq b).
  unfold cap_inv. rewrite Hp, H1, H2, He, H3, Hp', H1', H2', He', H3', Hss.
  destruct (m_time_last_time_pop b <? t) eqn:Et; b2p;
    rewrite ?u32_id by (unfold in_u32; lia); split_and!; try done; try lia.
  intros _. destruct (m_time_last_time_enqueue b <? t); lia.
Qed.

Lemma cap_step N t rs b op b' out :
  cap_inv N t b -> N < 2 ^ 30 -> mb_step rs t b op = Ok (b', out) ->
  cap_inv (N + 1) t b' /\ m_max_size b' = m_max_size b /\
  occupancy b' <= occupancy b + Z.of_nat (length (op_in op)).
Proof.
  intros Hcap HN H. pose proof Hcap as (Hok & Hocc & _).
  pose proof (mb_step_conserves rs t b op b' out Hok ltac:(lia) H) as Hc.
  pose proof (conserves_occupancy _ _ _ _ Hc) as Ho. destruct Hc as (Hok' & (Hmax & _) & _).
  split_and!; [| done | lia].
  destruct op; cbn [mb_step op_in length] in *;
    try (apply res_bind_Ok_inv in H as (x & Hx & H); injection H as <- <-; cbn [length] in * ).
  - destruct x as [b1 ?]. apply (cap_inv_enqueue N t rs r b b m delta b1 l 0); done || (cbn [fst] in *; lia).
  - destruct x as [[[b1 ?] ?] ?]. cbn [fst snd] in *.
    eapply (cap_inv_dequeue N t t b b1 b1); done || lia.
  - destruct x as [b1 ?]. apply recycle_spec in Hx as (m1 & _ & _ & ->).
    eapply cap_inv_same; try done. cbn [fst] in *. lia.
  - destruct x as [b1 ?]. apply delayHead_spec in Hx as (m1 & _ & Hx).
    apply (cap_inv_enqueue N t rs r b (b ⟨ m_prio_heap := heap_remove msg_gt (m_prio_heap b) ⟩) m1 delta b1 l 1);
      done || (cbn [fst] in *; lia).
  - destruct x as [b1 ?]. apply stallMessage_spec in Hx as (b2 & m' & dl & evs1 & Hx & Hb).
    cbn [fst] in *. eapply (cap_inv_dequeue N t t b b2 b1); try done; try lia; by rewrite Hb.
  - destruct x as [b1 ?]. apply reanalyzeMessages_conserves in Hx as [_ Hb]; [| done | lia].
    cbn [fst] in *. eapply cap_inv_same; try done; first [lia | by rewrite Hb].
  - destruct x as [b1 ?]. apply reanalyzeAllMessages_conserves in Hx as [_ Hb]; [| done | lia].
    cbn [fst] in *. eapply cap_inv_same; try done; first [lia | by rewrite Hb].
  - destruct (areNSlots_same b n t) as [c E]. rewrite E in H. injection H as <- <-. cbn [length] in *.
    eapply cap_inv_same; try done.
  - destruct (getSize_same b t) as (c & d & E). rewrite E in H. injection H as <- <-. cbn [length] in *.
    eapply cap_inv_same; try done; try lia.
Qed.

(** A sender that respects back-pressure: it enqueues only after
    [areNSlotsAvailable(1, t)] said yes, and gives up otherwise. *)
Definition guarded_step (rs : RubySystem) (t : Z) (b : MessageBuffer) (op : mb_op)
    : res (MessageBuffer * list Message) :=
  match op with
  | OpEnqueue _ _ _ =>
      let '(b, ok) := areNSlotsAvailable b 1 t in
      if ok : bool then mb_step rs t b op else Ok (b, [])
  | _ => mb_step rs t b op
  end.

Fixpoint guarded_run (rs : RubySystem) (b : MessageBuffer) (ops : list (Z * mb_op))
    : res (MessageBuffer * list Message) :=
  match ops with
  | [] => Ok (b, [])
  | (t, op) :: ops =>
      x ← guarded_step rs t b op; y ← guarded_run rs x.1 ops; Ok (y.1, x.2 ++ y.2)
  end.

Lemma guarded_step_room N t rs b op b' out :
  cap_inv N t b -> N + 2 < 2 ^ 30 -> m_max_size b <> 0 -> occupancy b <= m_max_size b ->
  guarded_step rs t b op = Ok (b', out) ->
  cap_inv (N + 2) t b' /\ m_max_size b' = m_max_size b /\ occupancy b' <= m_max_size b.
Proof.
  intros Hcap HN Hmax Hle H.
  assert (forall b, cap_inv (N + 1) t b -> cap_inv (N + 2) t b) as Hw
    by (intros b1 (?&?&?&?&?&?&?&?); split_and!; try done; lia).
  destruct op; cbn [guarded_step] in H;
    try (apply cap_step with (N := N) in H as (? & -> & ?); [| done | lia]; cbn [op_in length] in *;
         split_and!; [by apply Hw | done | lia]).
  pose proof (cap_step N t rs b (OpSlots 1) _ _ Hcap ltac:(lia) eq_refl) as (Hc1 & Hm1 & Ho1).
  pose proof (areNSlots_room N t b 1 Hcap ltac:(lia) ltac:(lia) Hmax) as Hroom.
  cbn [op_in length] in Ho1. destruct (areNSlotsAvailable b 1 t) as [b1 ok]. cbn [fst snd] in *. destruct ok.
  - specialize (Hroom eq_refl). apply cap_step with (N := N + 1) in H as (Hc & Hm2 & Ho); [| done | lia].
    cbn [op_in length] in Ho. replace (N + 1 + 1) with (N + 2) in Hc by lia. split_and!; [done | congruence | lia].
  - injection H as <- <-. split_and!; [by apply Hw | done | lia].
Qed.

Lemma guarded_run_room N t rs b ops b' out :
  cap_inv N t b -> N + 2 * Z.of_nat (length ops) < 2 ^ 30 ->
  Sorted Z.le (t :: ops.*1) -> m_max_size b <> 0 -> occupancy b <= m_max_size b ->
  guarded_run rs b ops = Ok (b', out) -> occupancy b' <= m_max_size b /\ m_max_size b' = m_max_size b.
Proof.
  revert N t b out. induction ops as [|[t1 op] ops IH]; intros N t b out Hcap HN Hs Hmax Hle H;
    cbn [guarded_run] in H.
  - by injection H as <- _.
  - apply res_bind_Ok_inv in H as ([b1 o1] & H1 & H2).
    apply res_bind_Ok_inv in H2 as ([b2 o2] & H2 & H3). injection H3 as <- <-. cbn [fst length] in *.
    apply Sorted_inv in Hs as [Hs Hhd]. apply HdRel_inv in Hhd. cbn [fst] in *.
    apply (guarded_step_room N) in H1 as (Hc1 & Hm1 & Ho1); [| by eapply cap_inv_later | lia | done | done].
    destruct (IH (N + 2) t1 b1 o2) as [? ?]; try done; try lia; congruence || lia.
Qed.

(** Finite buffers do not overflow: if every enqueue is preceded by a
    positive [areNSlotsAvailable(1, t)], then over any run of operations at
    non-decreasing times the heap and the stall map together never hold more
    than [m_max_size] messages, although pops only become visible to the
    check in the next cycle. *)
Theorem buffer_capacity rs sz o rnd c v ops b out :
  0 < sz -> Z.of_nat (length ops) < 2 ^ 29 ->
  Sorted Z.le (0 :: ops.*1) ->
  guarded_run rs (fresh_buffer sz o rnd c v) ops = Ok (b, out) ->
  occupancy b <= sz.
Proof.
  intros Hsz Hlen Hs H. destruct (fresh_buffer_ok sz o rnd c v) as [Hok Hocc].
  apply (guarded_run_room 0 0) in H as [H _]; [done | | lia | done | cbn; lia | rewrite Hocc; cbn; lia].
  unfold cap_inv. rewrite Hocc. split_and!; try done.
Qed.

Definition full_demo : list (Z * mb_op) :=
  [(1, OpEnqueue (0, 1, 1) (Message_ctor 1 [] Control 7) 1);
   (1, OpEnqueue (0, 1, 1) (Message_ctor 1 [] Data 8) 1);
   (2, OpDequeue); (2, OpEnqueue (0, 1, 1) (Message_ctor 1 [] Data 9) 1)].

Lemma buffer_capacity_witness :
  exists b out, guarded_run rs_plain (fresh_buffer 1 false false 1 0) full_demo = Ok (b, out) /\
    occupancy b <= 1.
Proof.
  do 2 eexists. split; [vm_compute; reflexivity |].
  eapply (buffer_capacity rs_plain 1 false false 1 0 full_demo); [done | done | | vm_compute; reflexivity].
  cbn. repeat first [apply Sorted_nil | apply Sorted_cons | apply HdRel_nil | apply HdRel_cons]; lia.
Defined.
