(* ===== verification/Flit.v ===== *)
(** * Flits, credits and flit buffers

    Models [garnet2.0/CommonTypes.hh], [flit.{hh,cc}], [Credit.{hh,cc}] and
    [flitBuffer.{hh,cc}].  A packet travels as flits; a buffer slot that was
    freed travels back as a credit, which the code derives from [flit].

    Flits are values.  The code holds them by pointer and changes the stage,
    the output port and the virtual channel of a flit that is already in a
    buffer; the heap order of a buffer reads only [m_time] and [m_id], which
    are changed outside buffers (in [CrossbarSwitch::wakeup] on the front
    element just before it is removed, and removal does not compare the front).

    The theorems: the constructor marks exactly the first flit of a packet as
    its head and the last as its tail; a buffer hands its flits out in order of
    time, then of position in the packet. *)
From S2P Require Import Prelude StdHeap NetDest MessageBuffer.

Inductive flit_type := HEAD_ | BODY_ | TAIL_ | HEAD_TAIL_.
Inductive VC_state_type := IDLE_ | VC_AB_ | ACTIVE_.
Inductive VNET_type := CTRL_VNET_ | DATA_VNET_ | NULL_VNET_.
Inductive flit_stage := I_ | VA_ | SA_ | ST_ | LT_.
Inductive link_type := EXT_IN_ | EXT_OUT_ | INT_ | NUM_LINK_TYPES_.

#[export] Instance flit_type_eq_dec : EqDecision flit_type.
Proof. solve_decision. Defined.
#[export] Instance VC_state_type_eq_dec : EqDecision VC_state_type.
Proof. solve_decision. Defined.
#[export] Instance VNET_type_eq_dec : EqDecision VNET_type.
Proof. solve_decision. Defined.
#[export] Instance flit_stage_eq_dec : EqDecision flit_stage.
Proof. solve_decision. Defined.
#[export] Instance link_type_eq_dec : EqDecision link_type.
Proof. solve_decision. Defined.

Definition INFINITE_ : Z := 10000.

Record RouteInfo := {
  ri_vnet : Z;
  net_dest : netdest;
  src_ni : Z;
  src_router : Z;
  dest_ni : Z;
  dest_router : Z;
  hops_traversed : Z
}.

#[export] Instance RouteInfo_eta : Eta RouteInfo := {| eta := fun r =>
  {| ri_vnet := ri_vnet r; net_dest := net_dest r; src_ni := src_ni r; src_router := src_router r;
     dest_ni := dest_ni r; dest_router := dest_router r; hops_traversed := hops_traversed r |} |}.

(** [m_is_free_signal] is the field [Credit] adds; [None] for a flit. *)
Record flit := {
  m_id : Z;
  m_vnet : Z;
  m_vc : Z;
  m_route : RouteInfo;
  m_size : Z;
  m_enqueue_time : Z;
  m_dequeue_time : Z;
  f_time : Z;
  m_type : flit_type;
  m_msg_ptr : Message;
  m_outport : Z;
  src_delay : Z;
  m_stage : flit_stage * Z;
  m_is_free_signal : option bool
}.

#[export] Instance flit_eta : Eta flit := {| eta := fun f =>
  {| m_id := m_id f; m_vnet := m_vnet f; m_vc := m_vc f; m_route := m_route f; m_size := m_size f;
     m_enqueue_time := m_enqueue_time f; m_dequeue_time := m_dequeue_time f; f_time := f_time f;
     m_type := m_type f; m_msg_ptr := m_msg_ptr f; m_outport := m_outport f; src_delay := src_delay f;
     m_stage := m_stage f; m_is_free_signal := m_is_free_signal f |} |}.

(** [m_outport] and [src_delay] are left unset by the constructor. *)
Definition flit_ctor (id vc vnet : Z) (route : RouteInfo) (size : Z) (msg_ptr : Message) (curTime : Z) : flit :=
  {| m_size := size; m_msg_ptr := msg_ptr; m_enqueue_time := curTime; m_dequeue_time := curTime;
     f_time := curTime; m_id := id; m_vnet := vnet; m_vc := vc; m_route := route;
     m_stage := (I_, curTime);
     m_type := if size =? 1 then HEAD_TAIL_ else if id =? 0 then HEAD_
               else if id =? size - 1 then TAIL_ else BODY_;
     m_outport := -1; src_delay := 0; m_is_free_signal := None |}.

Definition no_route : RouteInfo :=
  {| ri_vnet := 0; net_dest := []; src_ni := 0; src_router := 0; dest_ni := 0; dest_router := 0;
     hops_traversed := 0 |}.

(** Sets [m_id], [m_vc], [m_is_free_signal] and [m_time]; the other fields of
    the base class stay indeterminate and are never read from a credit. *)
Definition Credit_ctor (vc : Z) (is_free_signal : bool) (curTime : Z) : flit :=
  {| m_id := 0; m_vc := vc; m_is_free_signal := Some is_free_signal; f_time := curTime;
     m_vnet := 0; m_route := no_route; m_size := 0; m_enqueue_time := 0; m_dequeue_time := 0;
     m_type := HEAD_TAIL_; m_msg_ptr := Message_ctor 0 [] Control 0; m_outport := 0; src_delay := 0;
     m_stage := (I_, 0) |}.

(** [((Credit * ) f)->is_free_signal()]: the cast is only valid on a credit. *)
Definition is_free_signal (f : flit) : res bool :=
  match m_is_free_signal f with Some b => Ok b | None => Err EUninit end.

Definition is_stage (f : flit) (stage : flit_stage) (time : Z) : bool :=
  (bool_decide (stage = (m_stage f).1) && ((m_stage f).2 <=? time))%bool.

Definition advance_stage (f : flit) (t_stage : flit_stage) (newTime : Z) : flit :=
  f ⟨ m_stage := (t_stage, newTime) ⟩.

Definition increment_hops (f : flit) : flit :=
  f ⟨ m_route := m_route f ⟨ hops_traversed := hops_traversed (m_route f) + 1 ⟩ ⟩.

Definition is_tail (f : flit) : bool := bool_decide (m_type f = TAIL_ \/ m_type f = HEAD_TAIL_).
Definition is_head (f : flit) : bool := bool_decide (m_type f = HEAD_ \/ m_type f = HEAD_TAIL_).

Definition flit_greater (n1 n2 : flit) : bool :=
  if f_time n1 =? f_time n2 then m_id n2 <? m_id n1 else f_time n2 <? f_time n1.

Lemma flit_gt_lex l r : flit_greater l r = true <->
  f_time r < f_time l \/ (f_time r = f_time l /\ m_id r < m_id l).
Proof. unfold flit_greater. destruct (_ =? _) eqn:E; b2p; rewrite Z.ltb_lt; lia. Qed.

Lemma flit_le_lex l r : flit_greater l r = false <->
  f_time l < f_time r \/ (f_time l = f_time r /\ m_id l <= m_id r).
Proof. unfold flit_greater. destruct (_ =? _) eqn:E; b2p; rewrite Z.ltb_ge; lia. Qed.

#[export] Instance flit_greater_StrictWeak : StrictWeak flit_greater.
Proof.
  split.
  - intros a. apply flit_le_lex. lia.
  - intros a b c. rewrite !flit_gt_lex. lia.
  - intros a b c. rewrite !flit_le_lex. lia.
Qed.

(** ** Flit buffers *)

Record flitBuffer := { m_buffer : list flit; max_size : Z }.

Definition flitBuffer_ctor : flitBuffer := {| m_buffer := []; max_size := INFINITE_ |}.
Definition flitBuffer_ctor_size (maximum_size : Z) : flitBuffer := {| m_buffer := []; max_size := maximum_size |}.

Definition fb_getSize (b : flitBuffer) : Z := Z.of_nat (length (m_buffer b)).
Definition fb_isEmpty (b : flitBuffer) : bool := fb_getSize b =? 0.
Definition peekTopFlit (b : flitBuffer) : res flit := vfront (m_buffer b).

Definition fb_isReady (b : flitBuffer) (curTime : Z) : bool :=
  match m_buffer b with [] => false | t_flit :: _ => f_time t_flit <=? curTime end.

(** [size_t >= int]: a negative maximum is converted to unsigned. *)
Definition fb_isFull (b : flitBuffer) : bool := u64 (max_size b) <=? fb_getSize b.
Definition setMaxSize (b : flitBuffer) (maximum : Z) : flitBuffer :=
  {| m_buffer := m_buffer b; max_size := maximum |}.

Definition fb_insert (b : flitBuffer) (flt : flit) : flitBuffer :=
  {| m_buffer := heap_insert flit_greater (m_buffer b) flt; max_size := max_size b |}.

Definition getTopFlit (b : flitBuffer) : res (flitBuffer * flit) :=
  f ← vfront (m_buffer b);
  Ok ({| m_buffer := heap_remove flit_greater (m_buffer b); max_size := max_size b |}, f).

(** [fwrite] as for message buffers: the message updated from the packet. *)
Definition fb_functionalWrite {Packet} (fwrite : Message -> Packet -> option Message)
    (b : flitBuffer) (pkt : Packet) : flitBuffer * Z :=
  ({| m_buffer := map (fun f => f ⟨ m_msg_ptr := default (m_msg_ptr f) (fwrite (m_msg_ptr f) pkt) ⟩)
                      (m_buffer b); max_size := max_size b |},
   Z.of_nat (length (filter (fun f => is_Some (fwrite (m_msg_ptr f) pkt)) (m_buffer b)))).

(** ** Properties *)

Definition fb_ok (b : flitBuffer) : Prop := is_heap flit_greater (m_buffer b).

Lemma fb_ctor_ok : fb_ok flitBuffer_ctor.
Proof. apply is_heap_nil. Qed.

Lemma fb_insert_ok b f : fb_ok b -> fb_ok (fb_insert b f).
Proof. apply (heap_insert_heap flit_greater). Qed.

Lemma fb_insert_perm b f : m_buffer (fb_insert b f) ≡ₚ f :: m_buffer b.
Proof. apply heap_insert_Permutation. Qed.

Lemma getTopFlit_perm b b' f : getTopFlit b = Ok (b', f) ->
  m_buffer b ≡ₚ f :: m_buffer b' /\ head (m_buffer b) = Some f /\ max_size b' = max_size b.
Proof.
  unfold getTopFlit. intros H. apply res_bind_Ok_inv in H as (x & Hx & H). injection H as <- <-.
  destruct (m_buffer b) as [|y l] eqn:E; [done |]. injection Hx as ->. cbn [m_buffer].
  split_and!; [by apply heap_remove_Permutation | done | done].
Qed.

Lemma getTopFlit_ok b b' f : fb_ok b -> getTopFlit b = Ok (b', f) -> fb_ok b'.
Proof.
  unfold getTopFlit, fb_ok. intros Hok H. apply res_bind_Ok_inv in H as (x & Hx & H).
  injection H as <- <-. by apply (heap_remove_heap flit_greater).
Qed.

Lemma fb_isReady_top b t : fb_isReady b t = true ->
  exists f b', getTopFlit b = Ok (b', f) /\ peekTopFlit b = Ok f /\ f_time f <= t.
Proof.
  unfold fb_isReady, getTopFlit, peekTopFlit. destruct (m_buffer b) as [|f l]; [done |].
  intros H. b2p. exists f. eexists. cbn [vfront]. rsimpl. done.
Qed.

#[export] Hint Resolve fb_ctor_ok fb_insert_ok : gem5.

(** A flit buffer is a priority queue: taking the top flit succeeds
    whenever the buffer is not empty, removes exactly that flit, keeps the
    heap order, and the flit taken is no later than any other, flits of the
    same cycle being taken in the order of their position in the packet. *)
Theorem flitBuffer_order (b : flitBuffer) :
  fb_ok b -> fb_isEmpty b = false ->
  exists b' f, getTopFlit b = Ok (b', f) /\ fb_ok b' /\ m_buffer b ≡ₚ f :: m_buffer b' /\
    (forall g, g ∈ m_buffer b' -> f_time f < f_time g \/ (f_time f = f_time g /\ m_id f <= m_id g)) /\
    (forall t, fb_isReady b t = true <-> exists g, g ∈ m_buffer b /\ f_time g <= t).
Proof.
  intros Hok Hne. unfold fb_isEmpty, fb_getSize in Hne. b2p.
  destruct (m_buffer b) as [|f l] eqn:E; [done |].
  assert (getTopFlit b = Ok ({| m_buffer := heap_remove flit_greater (m_buffer b); max_size := max_size b |}, f))
    as Hg by (unfold getTopFlit; rewrite E; done).
  destruct (getTopFlit_perm _ _ _ Hg) as (HP & Hhd & _). cbn [m_buffer] in HP.
  do 2 eexists. split; [exact Hg |]. split; [by eapply getTopFlit_ok |]. rewrite <- E. split; [done |].
  assert (forall g, g ∈ m_buffer b -> f_time f < f_time g \/ (f_time f = f_time g /\ m_id f <= m_id g)) as Hmin.
  { intros g Hin. apply flit_le_lex. apply (is_heap_front flit_greater (m_buffer b) f Hok Hhd g Hin). }
  split.
  - intros g Hin. apply Hmin. rewrite HP. by right.
  - intros t. unfold fb_isReady. rewrite E, <- E, Z.leb_le. split.
    + intros Ht. exists f. split; [| done]. rewrite E. left.
    + intros (g & Hin & Ht). specialize (Hmin g Hin). lia.
Qed.

Definition demo_flit (id t : Z) : flit := flit_ctor id 0 0 no_route 3 (Message_ctor 0 [] Data 5) t.

Lemma flitBuffer_order_witness :
  let b := fb_insert (fb_insert (fb_insert flitBuffer_ctor (demo_flit 2 7)) (demo_flit 1 7)) (demo_flit 0 7) in
  exists b' f, getTopFlit b = Ok (b', f) /\ fb_ok b' /\ m_buffer b ≡ₚ f :: m_buffer b' /\
    (forall g, g ∈ m_buffer b' -> f_time f < f_time g \/ (f_time f = f_time g /\ m_id f <= m_id g)) /\
    (forall t, fb_isReady b t = true <-> exists g, g ∈ m_buffer b /\ f_time g <= t).
Proof. apply flitBuffer_order; [auto with gem5 | reflexivity]. Defined.

(** Framing of packets: among the [size] flits the network interface
    creates for a packet, exactly the one with index 0 is a head and exactly
    the one with index [size - 1] is a tail. *)
Theorem flit_framing (size vc vnet : Z) (route : RouteInfo) (msg : Message) (t id : Z) :
  1 <= size -> 0 <= id < size ->
  let f := flit_ctor id vc vnet route size msg t in
  (is_head f = true <-> id = 0) /\ (is_tail f = true <-> id = size - 1).
Proof.
  intros Hs Hid f. unfold f, is_head, is_tail, flit_ctor. cbn [m_type]. rewrite !bool_decide_eq_true.
  destruct (size =? 1) eqn:E1; b2p; [naive_solver lia |].
  destruct (id =? 0) eqn:E2; b2p; [naive_solver lia |].
  destruct (id =? size - 1) eqn:E3; b2p; naive_solver lia.
Qed.

Lemma flit_framing_witness :
  let f := flit_ctor 4 0 2 no_route 5 (Message_ctor 0 [] Data 5) 9 in
  (is_head f = true <-> 4 = 0) /\ (is_tail f = true <-> 4 = 5 - 1).
Proof. apply flit_framing; lia. Defined.
