(* ===== verification/Network.v ===== *)
(** * The network base class and its configuration

    Models [mem/ruby/network/Network.cc]: message sizes, the queues between
    controllers and network, and the map from addresses to the controllers
    responsible for them; and the accessors of [garnet2.0/GarnetNetwork.hh]
    through which routers and network interfaces read the configuration.

    A queue is represented by its identifier; [None] is [nullptr]. *)
From S2P Require Import Prelude NetDest MessageBuffer Flit.

(** ** Address ranges ([base/addr_range.hh]) *)

Record AddrRange := { _start : Z; _end : Z; masks : list Z; intlvMatch : Z }.

Definition popCount (val : Z) : Z :=
  Z.of_nat (length (filter (fun i => Z.testbit val i = true) (upto 64))).

Definition contains (r : AddrRange) (a : Z) : bool :=
  let in_range := ((_start r <=? a) && (a <? _end r))%bool in
  if in_range then
    let sel := foldl (fun sel i =>
      let masked := Z.land a (default 0 (masks r !! Z.to_nat i)) in
      Z.lor sel (Z.shiftl (popCount masked mod 2) i)) 0 (upto (Z.of_nat (length (masks r)))) in
    sel =? intlvMatch r
  else false.

Record AddrMapNode := { amn_id : Z; ranges : list AddrRange }.

(** ** Network *)

Record Network := {
  m_nodes : Z;
  m_virtual_networks : Z;
  m_vnet_type_names : list string;
  m_control_msg_size : Z;
  m_data_msg_size : Z;
  m_toNetQueues : list (list (option Z));
  m_fromNetQueues : list (list (option Z));
  m_ordered : list bool;
  addrMap : list (Z * AddrMapNode)
}.

#[export] Instance Network_eta : Eta Network := {| eta := fun n =>
  {| m_nodes := m_nodes n; m_virtual_networks := m_virtual_networks n;
     m_vnet_type_names := m_vnet_type_names n; m_control_msg_size := m_control_msg_size n;
     m_data_msg_size := m_data_msg_size n; m_toNetQueues := m_toNetQueues n;
     m_fromNetQueues := m_fromNetQueues n; m_ordered := m_ordered n; addrMap := addrMap n |} |}.

(** The constructor up to the calls into the controllers: [cntrls] are the
    machine identifiers and address ranges of the controllers behind the
    external links, in the order of the links. *)
Definition Network_ctor (counts : list Z) (number_of_virtual_networks control_msg_size : Z)
    (cntrls : list (machineID * list AddrRange)) : res Network :=
  nodes ← MachineType_base_number counts (MachineType_NUM counts);
  _ ← cassert (negb (nodes =? 0));
  _ ← cassert (negb (number_of_virtual_networks =? 0));
  Ok {| m_nodes := nodes; m_virtual_networks := number_of_virtual_networks;
        m_vnet_type_names := replicate (Z.to_nat number_of_virtual_networks) ""%string;
        m_control_msg_size := control_msg_size; m_data_msg_size := 0;
        m_toNetQueues := replicate (Z.to_nat nodes) [];
        m_fromNetQueues := replicate (Z.to_nat nodes) [];
        m_ordered := replicate (Z.to_nat number_of_virtual_networks) false;
        addrMap := omap (fun '(mid, rs) => match rs with
                           | [] => None
                           | _ => Some (mtype mid, {| amn_id := mnum mid; ranges := rs |})
                           end) cntrls |}.

Definition Network_init (block_size_bytes : Z) (n : Network) : Network :=
  n ⟨ m_data_msg_size := u32 (block_size_bytes + m_control_msg_size n) ⟩.

Definition MessageSizeType_to_int (n : Network) (size_type : MessageSizeType) : Z :=
  match size_type with
  | Control | Request_Control | Reissue_Control | Response_Control | Writeback_Control
  | Broadcast_Control | Multicast_Control | Forwarded_Control | Invalidate_Control
  | Unblock_Control | Persistent_Control | Completion_Control => m_control_msg_size n
  | Data | Response_Data | ResponseLocal_Data | ResponseL2hit_Data | Writeback_Data =>
      m_data_msg_size n
  end.

(** [network_num] is an [int] compared with a [uint32_t]: a negative number
    is converted and so out of range. *)
Definition checkNetworkAllocation (n : Network) (id : Z) (ordered : bool) (network_num : Z)
    (vnet_type : string) : res Network :=
  _ ← fatal_if (m_nodes n <=? id);
  _ ← fatal_if (m_virtual_networks n <=? u32 network_num);
  ord ← (if ordered then vset (m_ordered n) network_num true else Ok (m_ordered n));
  names ← vset (m_vnet_type_names n) network_num vnet_type;
  Ok (n ⟨ m_ordered := ord ⟩ ⟨ m_vnet_type_names := names ⟩).

(** [while (v.size() <= k) v.push_back(nullptr)]. *)
Definition grow (v : list (option Z)) (k : Z) : list (option Z) :=
  v ++ replicate (Z.to_nat (k + 1) - length v) None.

Definition setToNetQueue (n : Network) (id : Z) (ordered : bool) (network_num : Z)
    (vnet_type : string) (b : option Z) : res Network :=
  n ← checkNetworkAllocation n id ordered network_num vnet_type;
  qs ← vupd (m_toNetQueues n) id (fun v => vset (grow v network_num) network_num b);
  Ok (n ⟨ m_toNetQueues := qs ⟩).

Definition setFromNetQueue (n : Network) (id : Z) (ordered : bool) (network_num : Z)
    (vnet_type : string) (b : option Z) : res Network :=
  n ← checkNetworkAllocation n id ordered network_num vnet_type;
  qs ← vupd (m_fromNetQueues n) id (fun v => vset (grow v network_num) network_num b);
  Ok (n ⟨ m_fromNetQueues := qs ⟩).

(** The entries of [mtype], in the order the multimap gives them. *)
Definition addressToNodeID (counts : list Z) (n : Network) (addr mtype : Z) : res Z :=
  match List.find (fun e => (e.1 =? mtype) && existsb (fun r => contains r addr) (ranges e.2))%bool
                  (addrMap n) with
  | Some e => Ok (amn_id e.2)
  | None => MachineType_base_count counts mtype
  end.

(** ** Configuration read by routers and interfaces *)

Record NetConfig := {
  cfg_net : Network;
  m_num_rows : Z;
  m_num_cols : Z;
  m_ni_flit_size : Z;
  m_vcs_per_vnet : Z;
  m_buffers_per_ctrl_vc : Z;
  m_buffers_per_data_vc : Z;
  m_routing_algorithm : Z;
  m_vnet_type : list VNET_type
}.

Definition isVNetOrdered (cfg : NetConfig) (vnet : Z) : res bool := vget (m_ordered (cfg_net cfg)) vnet.

Definition get_vnet_type (cfg : NetConfig) (vc : Z) : res VNET_type :=
  vget (m_vnet_type cfg) (vc / m_vcs_per_vnet cfg).

(** ** Properties *)

(** What two entries that both answer for an address have in common. *)
Definition disjoint_for (m : list (Z * AddrMapNode)) (addr mtype : Z) : Prop :=
  forall e e', e ∈ m -> e' ∈ m -> e.1 = mtype -> e'.1 = mtype ->
    existsb (fun r => contains r addr) (ranges e.2) = true ->
    existsb (fun r => contains r addr) (ranges e'.2) = true -> amn_id e.2 = amn_id e'.2.

Lemma find_hit {A} (p : A -> bool) l : (exists x, x ∈ l /\ p x = true) -> exists y, List.find p l = Some y.
Proof.
  intros (x & Hx & Hp). destruct (List.find p l) as [y|] eqn:E; [by exists y |].
  pose proof (List.find_none p l E x) as Hn. rewrite Hn in Hp; [done | by apply list_elem_of_In].
Qed.

(** The responsible node is well defined: when no two nodes of a type
    claim the same address, [addressToNodeID] gives the same answer in
    whatever order the unordered multimap is traversed, it is a node of the
    right type that has the address in one of its ranges, and the
    out-of-range answer [MachineType_base_count] is given exactly when no node
    of the type has the address. *)
Theorem addressToNodeID_unique (counts : list Z) (n n' : Network) (addr mtype c : Z) :
  addrMap n ≡ₚ addrMap n' -> disjoint_for (addrMap n) addr mtype ->
  MachineType_base_count counts mtype = Ok c ->
  addressToNodeID counts n addr mtype = addressToNodeID counts n' addr mtype /\
  ((exists e, e ∈ addrMap n /\ e.1 = mtype /\ existsb (fun r => contains r addr) (ranges e.2) = true /\
      addressToNodeID counts n addr mtype = Ok (amn_id e.2)) \/
   ((forall e, e ∈ addrMap n -> e.1 = mtype -> existsb (fun r => contains r addr) (ranges e.2) = false) /\
      addressToNodeID counts n addr mtype = Ok c)).
Proof.
  intros HP Hd Hc. unfold addressToNodeID. set (p := fun e : Z * AddrMapNode => _).
  destruct (List.find p (addrMap n)) as [e|] eqn:E.
  - pose proof (List.find_some p _ E) as [Hin Hp]. apply list_elem_of_In in Hin.
    destruct (find_hit p (addrMap n')) as [e' E']; [exists e; split; [by rewrite <- HP | done] |].
    rewrite E'. pose proof (List.find_some p _ E') as [Hin' Hp']. apply list_elem_of_In in Hin'.
    unfold p in Hp, Hp'. apply andb_true_iff in Hp as [Ht Hr], Hp' as [Ht' Hr']. b2p. split.
    + f_equal. apply (Hd e e'); try done. by rewrite HP.
    + left. exists e. done.
  - assert (forall e, e ∈ addrMap n -> p e = false) as Hnone.
    { intros e He. apply (List.find_none p _ E). by apply list_elem_of_In. }
    destruct (List.find p (addrMap n')) as [e'|] eqn:E'.
    + pose proof (List.find_some p _ E') as [Hin' Hp']. apply list_elem_of_In in Hin'.
      rewrite Hnone in Hp'; [done | by rewrite HP].
    + split; [done |]. right. split; [| done]. intros e He Ht. specialize (Hnone e He).
      unfold p in Hnone. by rewrite (proj2 (Z.eqb_eq _ _) Ht) in Hnone.
Qed.

Definition demo_net : Network :=
  {| m_nodes := 4; m_virtual_networks := 3; m_vnet_type_names := ["request"; "forward"; "response"]%string;
     m_control_msg_size := 8; m_data_msg_size := 72; m_toNetQueues := [[]; []; []; []];
     m_fromNetQueues := [[]; []; []; []]; m_ordered := [false; true; false];
     addrMap := [(1, {| amn_id := 0; ranges := [{| _start := 0; _end := 4096; masks := [64]; intlvMatch := 0 |}] |});
                 (1, {| amn_id := 1; ranges := [{| _start := 0; _end := 4096; masks := [64]; intlvMatch := 1 |}] |})] |}.

Lemma addressToNodeID_unique_witness :
  let n' := demo_net ⟨ addrMap := reverse (addrMap demo_net) ⟩ in
  addressToNodeID [2; 2] demo_net 192 1 = addressToNodeID [2; 2] n' 192 1 /\
  ((exists e, e ∈ addrMap demo_net /\ e.1 = 1 /\ existsb (fun r => contains r 192) (ranges e.2) = true /\
      addressToNodeID [2; 2] demo_net 192 1 = Ok (amn_id e.2)) \/
   ((forall e, e ∈ addrMap demo_net -> e.1 = 1 -> existsb (fun r => contains r 192) (ranges e.2) = false) /\
      addressToNodeID [2; 2] demo_net 192 1 = Ok 2)).
Proof.
  apply addressToNodeID_unique; [apply Permutation_swap | | reflexivity].
  intros e e' He He' _ _.
  repeat (apply elem_of_cons in He as [-> | He] || apply elem_of_nil in He as []);
    repeat (apply elem_of_cons in He' as [-> | He'] || apply elem_of_nil in He' as []); vm_compute; done.
Defined.

Lemma grow_length v k : 0 <= k -> k < Z.of_nat (length (grow v k)).
Proof. intros. unfold grow. rewrite length_app, length_replicate. lia. Qed.

Lemma grow_get v k i q : vget v i = Ok q -> vget (grow v k) i = Ok q.
Proof.
  intros [? Hl]%vget_Ok. apply vget_Ok. split; [done |]. unfold grow. by apply lookup_app_l_Some.
Qed.

(** Registering a controller queue: for a valid node and virtual network
    [setToNetQueue] succeeds, the registered queue is found under its node and
    network, every other queue already registered is unchanged, and the
    network is marked ordered if asked; for a node or network out of range,
    negative network numbers included, it stops with a fatal error. *)
Theorem setToNetQueue_spec (n : Network) (id : Z) (ordered : bool) (net : Z) (ty : string) (b : option Z) :
  m_nodes n = Z.of_nat (length (m_toNetQueues n)) ->
  m_virtual_networks n = Z.of_nat (length (m_ordered n)) ->
  length (m_vnet_type_names n) = length (m_ordered n) ->
  0 <= id -> in_i32 net -> m_virtual_networks n < 2 ^ 31 ->
  (id < m_nodes n -> 0 <= net < m_virtual_networks n ->
   exists n' v v', setToNetQueue n id ordered net ty b = Ok n' /\
     vget (m_toNetQueues n) id = Ok v /\ vget (m_toNetQueues n') id = Ok v' /\ vget v' net = Ok b /\
     (forall net' q, net' <> net -> vget v net' = Ok q -> vget v' net' = Ok q) /\
     (forall id', id' <> id -> vget (m_toNetQueues n') id' = vget (m_toNetQueues n) id') /\
     (ordered = true -> vget (m_ordered n') net = Ok true)) /\
  (m_nodes n <= id \/ net < 0 \/ m_virtual_networks n <= net ->
   setToNetQueue n id ordered net ty b = Err EFatal).
Proof.
  intros Hq Ho Hv Hid Hnet Hvn. unfold setToNetQueue, checkNetworkAllocation. split.
  - intros Hlt Hn. rewrite (proj2 (Z.leb_gt _ _) Hlt). rsimpl.
    rewrite u32_id by (unfold in_u32; lia). rewrite (proj2 (Z.leb_gt (m_virtual_networks n) net)) by lia. rsimpl.
    assert (exists o, (if ordered then vset (m_ordered n) net true else Ok (m_ordered n)) = Ok o /\
              (ordered = true -> vget o net = Ok true)) as (o & -> & Hord).
    { destruct ordered; [| by eexists].
      destruct (vset_is_ok (m_ordered n) net true) as [o Ho']; [lia |].
      exists o. split; [done |]. intros _. by eapply vset_get_eq. }
    rsimpl. destruct (vset_is_ok (m_vnet_type_names n) net ty) as [nm ->]; [lia |]. rsimpl.
    cbn [setf m_toNetQueues]. unfold vupd.
    destruct (vget_is_ok (m_toNetQueues n) id) as [v Hg]; [lia |]. rewrite Hg. rsimpl.
    destruct (vset_is_ok (grow v net) net b) as [v' Ev'];
      [pose proof (grow_length v net); lia |]. rewrite Ev'. rsimpl.
    destruct (vset_is_ok (m_toNetQueues n) id v') as [qs Eq]; [lia |]. rewrite Eq.
    rsimpl. eexists _, v, v'. split; [done |]. cbn [setf m_toNetQueues m_ordered]. split_and!; try done.
    + by eapply vset_get_eq.
    + by eapply vset_get_eq.
    + intros net' q Hne Hgq. rewrite (vset_get_ne _ _ _ _ _ Ev') by congruence. by apply grow_get.
    + intros id' Hne. apply (vset_get_ne _ _ _ _ _ Eq). congruence.
  - intros Hbad. destruct (m_nodes n <=? id) eqn:E; [done |]. b2p. rsimpl.
    rewrite (proj2 (Z.leb_le (m_virtual_networks n) (u32 net))); [done |].
    destruct Hbad as [?|[Hneg|?]]; [lia | | rewrite u32_id; unfold in_u32, in_i32 in *; lia].
    unfold u32, in_i32 in *. rewrite <- (Z.mod_add net 1), Z.mod_small; lia.
Qed.

Lemma setToNetQueue_spec_witness :
  (1 < 4 -> 0 <= 2 < 3 ->
   exists n' v v', setToNetQueue demo_net 1 true 2 "response" (Some 7) = Ok n' /\
     vget (m_toNetQueues demo_net) 1 = Ok v /\ vget (m_toNetQueues n') 1 = Ok v' /\ vget v' 2 = Ok (Some 7) /\
     (forall net' q, net' <> 2 -> vget v net' = Ok q -> vget v' net' = Ok q) /\
     (forall id', id' <> 1 -> vget (m_toNetQueues n') id' = vget (m_toNetQueues demo_net) id') /\
     (true = true -> vget (m_ordered n') 2 = Ok true)) /\
  (4 <= 1 \/ 2 < 0 \/ 3 <= 2 -> setToNetQueue demo_net 1 true 2 "response" (Some 7) = Err EFatal).
Proof. apply (setToNetQueue_spec demo_net 1 true 2 "response" (Some 7)); first [done | unfold in_i32; lia]. Defined.
