(* ===== verification/RoutingUnit.v ===== *)
(** * Route computation

    Models [garnet2.0/RoutingUnit.{hh,cc}]: the default table routing, XY
    routing on a mesh, and the selection between them; and the links that
    [configs/topologies/Mesh_XY.py] lays between the routers of a mesh, over
    which XY routes run.

    [rand()] is a parameter: the value it returns.

    The theorems: table routing picks a link of least weight among those that
    lead to the destination (the first one, in an ordered virtual network);
    XY routing arrives, in the Manhattan distance, and none of its turn
    assertions fails on the way. *)
From S2P Require Import Prelude NetDest Flit Network.

Abbreviation PortDirection := string.

Record RoutingUnit := {
  m_routing_table : list netdest;
  m_weight_table : list Z;
  m_inports_dirn2idx : gmap string Z;
  m_inports_idx2dirn : gmap Z string;
  m_outports_idx2dirn : gmap Z string;
  m_outports_dirn2idx : gmap string Z
}.

#[export] Instance RoutingUnit_eta : Eta RoutingUnit := {| eta := fun r =>
  {| m_routing_table := m_routing_table r; m_weight_table := m_weight_table r;
     m_inports_dirn2idx := m_inports_dirn2idx r; m_inports_idx2dirn := m_inports_idx2dirn r;
     m_outports_idx2dirn := m_outports_idx2dirn r; m_outports_dirn2idx := m_outports_dirn2idx r |} |}.

Definition RoutingUnit_ctor : RoutingUnit :=
  {| m_routing_table := []; m_weight_table := []; m_inports_dirn2idx := ∅; m_inports_idx2dirn := ∅;
     m_outports_idx2dirn := ∅; m_outports_dirn2idx := ∅ |}.

Definition addRoute (r : RoutingUnit) (routing_table_entry : netdest) : RoutingUnit :=
  r ⟨ m_routing_table := m_routing_table r ++ [routing_table_entry] ⟩.

Definition addWeight (r : RoutingUnit) (link_weight : Z) : RoutingUnit :=
  r ⟨ m_weight_table := m_weight_table r ++ [link_weight] ⟩.

Definition addInDirection (r : RoutingUnit) (inport_dirn : PortDirection) (inport_idx : Z) : RoutingUnit :=
  r ⟨ m_inports_dirn2idx := <[inport_dirn := inport_idx]> (m_inports_dirn2idx r) ⟩
    ⟨ m_inports_idx2dirn := <[inport_idx := inport_dirn]> (m_inports_idx2dirn r) ⟩.

Definition addOutDirection (r : RoutingUnit) (outport_dirn : PortDirection) (outport_idx : Z) : RoutingUnit :=
  r ⟨ m_outports_dirn2idx := <[outport_dirn := outport_idx]> (m_outports_dirn2idx r) ⟩
    ⟨ m_outports_idx2dirn := <[outport_idx := outport_dirn]> (m_outports_idx2dirn r) ⟩.

(** ** Table routing *)

(** The two loops over the routing table: the least weight, then the links
    that have it. *)
Definition min_weight_step (r : RoutingUnit) (msg_destination : netdest) (min_weight link : Z) : res Z :=
  e ← vget (m_routing_table r) link;
  hit ← NetDest_intersectionIsNotEmpty msg_destination e;
  if (hit : bool) then
    w ← vget (m_weight_table r) link;
    Ok (if w <=? min_weight then w else min_weight)
  else Ok min_weight.

Definition candidate_step (r : RoutingUnit) (msg_destination : netdest) (min_weight : Z)
    (cands : list Z) (link : Z) : res (list Z) :=
  e ← vget (m_routing_table r) link;
  hit ← NetDest_intersectionIsNotEmpty msg_destination e;
  if (hit : bool) then
    w ← vget (m_weight_table r) link;
    Ok (if w =? min_weight then cands ++ [link] else cands)
  else Ok cands.

Definition lookupRoutingTable (cfg : NetConfig) (rand : Z) (r : RoutingUnit) (vnet : Z)
    (msg_destination : netdest) : res Z :=
  let links := upto (Z.of_nat (length (m_routing_table r))) in
  min_weight ← foldM (min_weight_step r msg_destination) links INFINITE_;
  cands ← foldM (candidate_step r msg_destination min_weight) links [];
  let num_candidates := Z.of_nat (length cands) in
  if num_candidates =? 0 then Err EFatal
  else
    ord ← isVNetOrdered cfg vnet;
    let candidate := if (ord : bool) then 0 else rand mod num_candidates in
    vget cands candidate.

(** ** XY routing *)

(** The direction part of [outportComputeXY]. *)
Definition XY_dirn (cfg : NetConfig) (my_id dest_id : Z) (inport_dirn : PortDirection) : res PortDirection :=
  let num_rows := m_num_rows cfg in
  let num_cols := m_num_cols cfg in
  _ ← cassert ((0 <? num_rows) && (0 <? num_cols))%bool;
  let my_x := Z.rem my_id num_cols in
  let my_y := Z.quot my_id num_cols in
  let dest_x := Z.rem dest_id num_cols in
  let dest_y := Z.quot dest_id num_cols in
  let x_hops := Z.abs (dest_x - my_x) in
  let y_hops := Z.abs (dest_y - my_y) in
  let x_dirn := my_x <=? dest_x in
  let y_dirn := my_y <=? dest_y in
  _ ← cassert (negb ((x_hops =? 0) && (y_hops =? 0)))%bool;
  if 0 <? x_hops then
    if x_dirn then
      _ ← cassert (bool_decide (inport_dirn = "Local" \/ inport_dirn = "West")%string); Ok "East"%string
    else
      _ ← cassert (bool_decide (inport_dirn = "Local" \/ inport_dirn = "East")%string); Ok "West"%string
  else if 0 <? y_hops then
    if y_dirn then
      _ ← cassert (bool_decide (inport_dirn <> "North"%string)); Ok "North"%string
    else
      _ ← cassert (bool_decide (inport_dirn <> "South"%string)); Ok "South"%string
  else Err EPanic.

(** [m_outports_dirn2idx[dirn]]: a missing direction is inserted with index 0. *)
Definition dirn2idx (r : RoutingUnit) (dirn : PortDirection) : RoutingUnit * Z :=
  match m_outports_dirn2idx r !! dirn with
  | Some i => (r, i)
  | None => (r ⟨ m_outports_dirn2idx := <[dirn := 0]> (m_outports_dirn2idx r) ⟩, 0)
  end.

Definition outportComputeXY (cfg : NetConfig) (my_id : Z) (r : RoutingUnit) (route : RouteInfo)
    (inport_dirn : PortDirection) : res (RoutingUnit * Z) :=
  dirn ← XY_dirn cfg my_id (dest_router route) inport_dirn;
  Ok (dirn2idx r dirn).

Definition outportComputeCustom : res (RoutingUnit * Z) := Err EPanic.

Definition outportCompute (cfg : NetConfig) (rand my_id : Z) (r : RoutingUnit) (route : RouteInfo)
    (inport_dirn : PortDirection) : res (RoutingUnit * Z) :=
  let table := o ← lookupRoutingTable cfg rand r (ri_vnet route) (net_dest route); Ok (r, o) in
  if dest_router route =? my_id then table
  else
    x ← (if m_routing_algorithm cfg =? 0 then table
         else if m_routing_algorithm cfg =? 1 then outportComputeXY cfg my_id r route inport_dirn
         else if m_routing_algorithm cfg =? 2 then outportComputeCustom
         else table);
    _ ← cassert (negb (x.2 =? -1));
    Ok x.

(** ** Table routing is right *)

Section Lookup.
Context (counts : list Z) (r : RoutingUnit) (d : netdest).
Context (Hd : nd_ok counts d) (Ht : Forall (nd_ok counts) (m_routing_table r))
        (Hw : length (m_weight_table r) = length (m_routing_table r)).

Let n : Z := Z.of_nat (length (m_routing_table r)).

(** Link [i] leads to a destination of [d]. *)
Definition leads (i : Z) : Prop :=
  exists e, vget (m_routing_table r) i = Ok e /\ exists m, nd_mem d m /\ nd_mem e m.

Lemma link_cases i : 0 <= i < n ->
  exists e w b, vget (m_routing_table r) i = Ok e /\ vget (m_weight_table r) i = Ok w /\
    NetDest_intersectionIsNotEmpty d e = Ok b /\ (b = true <-> leads i).
Proof using Hd Ht Hw.
  intros Hi. destruct (vget_is_ok (m_routing_table r) i Hi) as [e He].
  destruct (vget_is_ok (m_weight_table r) i) as [w Hwi]; [unfold n in Hi; lia |].
  assert (nd_ok counts e) as Hek.
  { pose proof He as [_ Hl]%vget_Ok. rewrite Forall_lookup in Ht. by eapply Ht. }
  destruct (intersectionIsNotEmpty_spec counts d e Hd Hek) as (b & Hb & Hiff).
  exists e, w, b. split_and!; try done. rewrite Hiff. split.
  - intros Hm. by exists e.
  - intros (e' & He' & Hm). rewrite He in He'. by injection He' as <-.
Qed.

Definition is_min (k min : Z) : Prop :=
  min <= INFINITE_ /\
  (forall i w, 0 <= i < k -> leads i -> vget (m_weight_table r) i = Ok w -> min <= w) /\
  (min = INFINITE_ \/ exists i, 0 <= i < k /\ leads i /\ vget (m_weight_table r) i = Ok min).

Lemma min_weight_loop : exists min,
  foldM (min_weight_step r d) (upto n) INFINITE_ = Ok min /\ is_min n min.
Proof using Hd Ht Hw.
  apply (foldM_upto (min_weight_step r d) is_min); [unfold n; lia | |].
  - split_and!; [lia | intros; lia | by left].
  - intros i min Hi (Hle & Hall & Hex). unfold min_weight_step.
    destruct (link_cases i Hi) as (e & w & b & -> & Hwi & Hb & Hiff). rsimpl. rewrite Hb. rsimpl. destruct b.
    + rewrite Hwi. rsimpl. eexists. split; [done |].
      assert (leads i) as Hli by by apply Hiff. destruct (w <=? min) eqn:E; b2p.
      * split_and!; [lia | | right; exists i; split_and!; [lia | lia | done | done]].
        intros j wj Hj Hlj Hwj. destruct (decide (j = i)) as [->|]; [rewrite Hwi in Hwj; injection Hwj; lia |].
        specialize (Hall j wj ltac:(lia) Hlj Hwj). lia.
      * split_and!; [lia | | destruct Hex as [->|(j & ? & ? & ?)]; [by left | right; exists j; split_and!; done || lia]].
        intros j wj Hj Hlj Hwj. destruct (decide (j = i)) as [->|]; [rewrite Hwi in Hwj; injection Hwj; lia |].
        apply (Hall j); [lia | done | done].
    + exists min. split; [done |].
      split_and!; [lia | | destruct Hex as [->|(j & ? & ? & ?)]; [by left | right; exists j; split_and!; done || lia]].
      intros j wj Hj Hlj Hwj. destruct (decide (j = i)) as [->|].
      * apply Hiff in Hlj. discriminate.
      * apply (Hall j); [lia | done | done].
Qed.

Definition is_cands (min k : Z) (cands : list Z) : Prop :=
  StronglySorted Z.lt cands /\
  forall i, i ∈ cands <-> 0 <= i < k /\ leads i /\ vget (m_weight_table r) i = Ok min.

Lemma candidate_loop min : exists cands,
  foldM (candidate_step r d min) (upto n) [] = Ok cands /\ is_cands min n cands.
Proof using Hd Ht Hw.
  apply (foldM_upto (candidate_step r d min) (is_cands min)); [unfold n; lia | |].
  - split; [constructor |]. intros i. rewrite elem_of_nil. lia.
  - intros i cands Hi (Hs & Hin). unfold candidate_step.
    destruct (link_cases i Hi) as (e & w & b & -> & Hwi & Hb & Hiff). rsimpl. rewrite Hb. rsimpl.
    assert (forall j, 0 <= j < i + 1 <-> 0 <= j < i \/ j = i) as Hsplit by lia.
    destruct b; [rewrite Hwi; rsimpl; destruct (w =? min) eqn:E; b2p |].
    + eexists. split; [done |]. split.
      * apply StronglySorted_append; [done |]. rewrite Forall_forall. intros j Hj%Hin. lia.
      * intros j. rewrite elem_of_app, list_elem_of_singleton, Hin, Hsplit. split; [| naive_solver].
        intros [?| ->]; [naive_solver |]. split_and!; [by right | by apply Hiff | congruence].
    + eexists. split; [done |]. split; [done |]. intros j. rewrite Hin, Hsplit. split; [naive_solver |].
      intros ([?| ->] & ? & Hj); [naive_solver | congruence].
    + eexists. split; [done |]. split; [done |]. intros j. rewrite Hin, Hsplit. split; [naive_solver |].
      intros ([?| ->] & Hj & ?); [naive_solver |]. apply Hiff in Hj. discriminate.
Qed.
End Lookup.

Section LookupResult.
Context (cfg : NetConfig) (counts : list Z) (r : RoutingUnit) (rand vnet : Z) (d : netdest) (ord : bool).
Context (Hd : nd_ok counts d) (Ht : Forall (nd_ok counts) (m_routing_table r))
        (Hw : length (m_weight_table r) = length (m_routing_table r)) (Hord : isVNetOrdered cfg vnet = Ok ord).

Lemma leads_range i : leads r d i -> 0 <= i < Z.of_nat (length (m_routing_table r)).
Proof. intros (e & He & _). by eapply vget_range. Qed.

Lemma lookup_leads i0 w0 :
  leads r d i0 -> vget (m_weight_table r) i0 = Ok w0 -> w0 <= INFINITE_ ->
  exists link w, lookupRoutingTable cfg rand r vnet d = Ok link /\ leads r d link /\
    vget (m_weight_table r) link = Ok w /\
    (forall i wi, leads r d i -> vget (m_weight_table r) i = Ok wi -> w <= wi) /\
    (ord = true -> forall i, leads r d i -> vget (m_weight_table r) i = Ok w -> link <= i).
Proof using Hd Ht Hw Hord.
  intros Hl0 Hw0 Hle0. unfold lookupRoutingTable.
  destruct (min_weight_loop counts r d Hd Ht Hw) as (min & -> & Hle & Hall & Hex). rsimpl.
  destruct (candidate_loop counts r d Hd Ht Hw min) as (cands & -> & Hs & Hin). rsimpl.
  assert (exists i, leads r d i /\ vget (m_weight_table r) i = Ok min) as (i & Hli & Hwi).
  { destruct Hex as [->|(i & Hi & Hli & Hwi)]; [| by exists i].
    exists i0. split; [done |]. pose proof (Hall i0 w0 (leads_range i0 Hl0) Hl0 Hw0). rewrite Hw0. f_equal. lia. }
  assert (i ∈ cands) as Hc by (apply Hin; split_and!; [by apply leads_range.. | done | done]).
  destruct cands as [|c0 cs]; [by apply elem_of_nil in Hc |].
  assert (Hlen : Z.of_nat (length (c0 :: cs)) <> 0) by (cbn; lia).
  rewrite (proj2 (Z.eqb_neq _ _) Hlen), Hord. rsimpl.
  set (cand := if ord then 0 else rand mod Z.of_nat (length (c0 :: cs))).
  assert (0 <= cand < Z.of_nat (length (c0 :: cs))) as Hcand.
  { unfold cand. destruct ord; [cbn; lia | apply Z.mod_pos_bound; cbn; lia]. }
  destruct (vget_is_ok (c0 :: cs) cand Hcand) as [link Hlink]. exists link, min.
  assert (link ∈ c0 :: cs) as Hinl by (apply vget_Ok in Hlink as [_ Hlk]; by eapply list_elem_of_lookup_2).
  apply Hin in Hinl as (_ & Hll & Hwl). split_and!; try done.
  - intros j wj Hlj. apply Hall; [by apply leads_range | done].
  - intros Hot j Hlj Hwj. unfold cand in Hlink. rewrite Hot in Hlink. injection Hlink as <-.
    assert (j ∈ c0 :: cs) as Hj by (apply Hin; split_and!; [by apply leads_range.. | done | done]).
    apply elem_of_cons in Hj as [-> | Hj]; [lia |].
    apply StronglySorted_inv in Hs as [_ Hs]. rewrite Forall_forall in Hs. specialize (Hs j Hj). lia.
Qed.

Lemma lookup_none :
  (forall i w, leads r d i -> vget (m_weight_table r) i = Ok w -> INFINITE_ < w) ->
  lookupRoutingTable cfg rand r vnet d = Err EFatal.
Proof using Hd Ht Hw.
  intros Hno. unfold lookupRoutingTable.
  destruct (min_weight_loop counts r d Hd Ht Hw) as (min & -> & Hle & Hall & Hex). rsimpl.
  destruct (candidate_loop counts r d Hd Ht Hw min) as (cands & -> & Hs & Hin). rsimpl.
  destruct cands as [|c0 cs]; [done |].
  assert (c0 ∈ c0 :: cs) as (_ & Hl & Hw0)%Hin by left. specialize (Hno c0 min Hl Hw0). lia.
Qed.
End LookupResult.

(** Table routing picks a right link: if some link of weight at most
    [INFINITE_] leads to a destination of the packet, the lookup succeeds,
    the link it returns leads to a destination, no link that leads there is
    lighter, and in an ordered virtual network it is the first of the lightest
    ones, whatever [rand()] returned, so packets of that network stay on one
    path; if there is none the simulation stops with a fatal error. *)
Theorem lookupRoutingTable_spec (cfg : NetConfig) (counts : list Z) (r : RoutingUnit) (rand vnet : Z)
    (d : netdest) (ord : bool) :
  nd_ok counts d -> Forall (nd_ok counts) (m_routing_table r) ->
  length (m_weight_table r) = length (m_routing_table r) ->
  isVNetOrdered cfg vnet = Ok ord ->
  ((exists i w, leads r d i /\ vget (m_weight_table r) i = Ok w /\ w <= INFINITE_) ->
   exists link w, lookupRoutingTable cfg rand r vnet d = Ok link /\ leads r d link /\
     vget (m_weight_table r) link = Ok w /\
     (forall i wi, leads r d i -> vget (m_weight_table r) i = Ok wi -> w <= wi) /\
     (ord = true -> forall i, leads r d i -> vget (m_weight_table r) i = Ok w -> link <= i)) /\
  ((forall i w, leads r d i -> vget (m_weight_table r) i = Ok w -> INFINITE_ < w) ->
   lookupRoutingTable cfg rand r vnet d = Err EFatal).
Proof.
  intros Hd Ht Hw Hord. split.
  - intros (i0 & w0 & Hl0 & Hw0 & Hle0). by eapply lookup_leads.
  - by eapply lookup_none.
Qed.

Definition demo_cfg : NetConfig :=
  {| cfg_net := demo_net; m_num_rows := 2; m_num_cols := 3; m_ni_flit_size := 16; m_vcs_per_vnet := 2;
     m_buffers_per_ctrl_vc := 1; m_buffers_per_data_vc := 4; m_routing_algorithm := 1;
     m_vnet_type := [CTRL_VNET_; CTRL_VNET_; DATA_VNET_] |}.

Definition nd2 (a b : Z) : netdest := [RSet 2 a; RSet 2 b].

Lemma nd2_ok a b : 0 <= a < 4 -> 0 <= b < 4 -> nd_ok [2; 2] (nd2 a b).
Proof.
  intros Ha Hb. split; [done |]. intros i s Hs. pose proof (vget_range _ _ _ Hs) as Hi. cbn in Hi.
  assert (i = 0 \/ i = 1) as [-> | ->] by lia; injection Hs as <-; (split; [done |]);
    unfold set_ok, NUMBER_BITS_PER_SET; cbn [m_nSize NetDest.bits]; split; cbn; lia.
Qed.

Definition demo_ru : RoutingUnit :=
  addWeight (addRoute (addWeight (addRoute (addWeight (addRoute RoutingUnit_ctor
    (nd2 1 0)) 1) (nd2 2 3)) 2) (nd2 2 1)) 2.

Lemma lookupRoutingTable_spec_witness :
  ((exists i w, leads demo_ru (nd2 0 1) i /\ vget (m_weight_table demo_ru) i = Ok w /\ w <= INFINITE_) ->
   exists link w, lookupRoutingTable demo_cfg 5 demo_ru 1 (nd2 0 1) = Ok link /\ leads demo_ru (nd2 0 1) link /\
     vget (m_weight_table demo_ru) link = Ok w /\
     (forall i wi, leads demo_ru (nd2 0 1) i -> vget (m_weight_table demo_ru) i = Ok wi -> w <= wi) /\
     (true = true -> forall i, leads demo_ru (nd2 0 1) i -> vget (m_weight_table demo_ru) i = Ok w -> link <= i)) /\
  ((forall i w, leads demo_ru (nd2 0 1) i -> vget (m_weight_table demo_ru) i = Ok w -> INFINITE_ < w) ->
   lookupRoutingTable demo_cfg 5 demo_ru 1 (nd2 0 1) = Err EFatal).
Proof.
  apply (lookupRoutingTable_spec demo_cfg [2; 2]); [apply nd2_ok; lia | | done | done].
  repeat (apply Forall_cons; split; [apply nd2_ok; lia |]). apply Forall_nil. done.
Defined.

(** ** XY routing on a mesh *)

(** The mesh's links: the router reached from [id] in a direction, and the
    input port it is entered by. *)
Definition mesh_link (rows cols id : Z) (dirn : PortDirection) : option (Z * PortDirection) :=
  let col := id mod cols in
  let row := id / cols in
  if decide (dirn = "East"%string) then
    if col + 1 <? cols then Some (id + 1, "West"%string) else None
  else if decide (dirn = "West"%string) then
    if 0 <? col then Some (id - 1, "East"%string) else None
  else if decide (dirn = "North"%string) then
    if row + 1 <? rows then Some (id + cols, "South"%string) else None
  else if decide (dirn = "South"%string) then
    if 0 <? row then Some (id - cols, "North"%string) else None
  else None.

(** The output directions of a routing unit whose ports were added in the
    order [outs], the first one with index [idx]. *)
Fixpoint add_out_ports (r : RoutingUnit) (idx : Z) (outs : list PortDirection) : RoutingUnit :=
  match outs with
  | [] => r
  | d :: outs => add_out_ports (addOutDirection r d idx) (idx + 1) outs
  end.

(** The ports of router [id] of the mesh: every direction with a neighbour is
    that of exactly one port (there may be any number of other ports). *)
Definition ports_ok (rows cols id : Z) (outs : list PortDirection) : Prop :=
  forall d, is_Some (mesh_link rows cols id d) -> exists i, outs !! i = Some d /\ forall j, outs !! j = Some d -> j = i.

(** The routers a packet with [route] visits after [my_id]; [None] when it has
    not arrived within [fuel] hops or was sent off the mesh.  The routing unit
    of a router knows its ports [outs]; the packet leaves by the port that
    [outportCompute] returns, over the link of that port's direction. *)
Fixpoint xy_walk (cfg : NetConfig) (rand : Z) (outs : Z -> list PortDirection) (route : RouteInfo) (fuel : nat) (my_id : Z)
    (inport_dirn : PortDirection) : res (option (list Z)) :=
  if dest_router route =? my_id then Ok (Some [])
  else match fuel with
  | O => Ok None
  | S fuel =>
      x ← outportCompute cfg rand my_id (add_out_ports RoutingUnit_ctor 0 (outs my_id)) route inport_dirn;
      dirn ← vget (outs my_id) x.2;
      match mesh_link (m_num_rows cfg) (m_num_cols cfg) my_id dirn with
      | None => Ok None
      | Some (next, inport) =>
          r ← xy_walk cfg rand outs route fuel next inport;
          Ok (cons next <$> (r : option (list Z)))
      end
  end.

Lemma add_ports_other d outs : forall r idx, d ∉ outs ->
  m_outports_dirn2idx (add_out_ports r idx outs) !! d = m_outports_dirn2idx r !! d.
Proof.
  induction outs as [|x outs IH]; intros r idx Hd; cbn [add_out_ports]; [done |]. apply not_elem_of_cons in Hd as [Hx Hd].
  rewrite IH by done. unfold addOutDirection. cbn [setf m_outports_dirn2idx]. by rewrite lookup_insert_ne.
Qed.

(** The index of the only port of a direction. *)
Lemma add_ports_idx d outs : forall r idx i, outs !! i = Some d -> (forall j, outs !! j = Some d -> j = i) ->
  m_outports_dirn2idx (add_out_ports r idx outs) !! d = Some (idx + Z.of_nat i).
Proof.
  induction outs as [|x outs IH]; intros r idx i Hi Hu; [done |]. cbn [add_out_ports]. destruct i as [|i].
  - injection Hi as ->. rewrite add_ports_other.
    + unfold addOutDirection. cbn [setf m_outports_dirn2idx]. rewrite lookup_insert_eq. f_equal. lia.
    + intros [j Hj]%list_elem_of_lookup. specialize (Hu (S j) Hj). done.
  - rewrite (IH _ (idx + 1) i); [f_equal; lia | done |]. intros j Hj. specialize (Hu (S j) Hj). lia.
Qed.

Definition manhattan (cols a b : Z) : Z := Z.abs (b mod cols - a mod cols) + Z.abs (b / cols - a / cols).

(** Which way a packet can have come: along the row towards the destination's
    column, then along that column. *)
Definition xy_inv (cols my_id dest : Z) (inport_dirn : PortDirection) : Prop :=
  inport_dirn = "Local"%string \/
  (inport_dirn = "West"%string /\ my_id mod cols <= dest mod cols) \/
  (inport_dirn = "East"%string /\ dest mod cols <= my_id mod cols) \/
  (inport_dirn = "South"%string /\ my_id mod cols = dest mod cols /\ my_id / cols <= dest / cols) \/
  (inport_dirn = "North"%string /\ my_id mod cols = dest mod cols /\ dest / cols <= my_id / cols).

Section XY.
Context (cfg : NetConfig) (Hrows : 0 < m_num_rows cfg) (Hcols : 0 < m_num_cols cfg).
Context (Halg : m_routing_algorithm cfg = 1) (rand : Z) (outs : Z -> list PortDirection).
Let rows : Z := m_num_rows cfg.
Let cols : Z := m_num_cols cfg.

Lemma coords id : 0 <= id < rows * cols ->
  id = cols * (id / cols) + id mod cols /\ 0 <= id mod cols < cols /\ 0 <= id / cols < rows.
Proof using Hrows Hcols.
  intros Hid. pose proof (Z.div_mod id cols). pose proof (Z.mod_pos_bound id cols).
  pose proof (Z.div_pos id cols). pose proof (Z.div_lt_upper_bound id cols rows). lia.
Qed.

Lemma coords_of x y : 0 <= x < cols -> (cols * y + x) mod cols = x /\ (cols * y + x) / cols = y.
Proof using Hrows Hcols.
  intros Hx. rewrite Z.mul_comm, Z.add_comm, Z.mod_add, Z.div_add by lia.
  rewrite Z.mod_small, Z.div_small; lia.
Qed.

(** One hop: some direction is chosen without a failed assertion, the mesh has
    that link, and the packet gets one hop closer. *)
Lemma xy_step my_id dest inport :
  0 <= my_id < rows * cols -> 0 <= dest < rows * cols -> my_id <> dest -> xy_inv cols my_id dest inport ->
  exists dirn next inport', XY_dirn cfg my_id dest inport = Ok dirn /\
    mesh_link rows cols my_id dirn = Some (next, inport') /\ 0 <= next < rows * cols /\
    xy_inv cols next dest inport' /\ manhattan cols next dest = manhattan cols my_id dest - 1.
Proof using Hrows Hcols.
  intros Hm Hd Hne Hinv. unfold XY_dirn. unfold xy_inv, manhattan in *. fold rows cols.
  rewrite (proj2 (Z.ltb_lt 0 rows) Hrows), (proj2 (Z.ltb_lt 0 cols) Hcols). cbn [andb]. rsimpl.
  rewrite !Z.rem_mod_nonneg, !Z.quot_div_nonneg by lia.
  pose proof (coords my_id Hm) as (Em & Hmx & Hmy). pose proof (coords dest Hd) as (Ed & Hdx & Hdy).
  set (mx := my_id mod cols) in *. set (my := my_id / cols) in *.
  set (dx := dest mod cols) in *. set (dy := dest / cols) in *.
  assert (negb ((Z.abs (dx - mx) =? 0) && (Z.abs (dy - my) =? 0)) = true) as ->.
  { apply negb_true_iff, andb_false_iff. rewrite !Z.eqb_neq.
    destruct (decide (dx = mx)); [right | left; lia]. intros ?. apply Hne. rewrite Em, Ed. f_equal; [f_equal; lia | lia]. }
  rsimpl.
  destruct (0 <? Z.abs (dx - mx)) eqn:Ex; b2p; [destruct (mx <=? dx) eqn:Edir; b2p |
    assert (dy <> my) as Hyne by (intros ?; apply Hne; rewrite Em, Ed; f_equal; [f_equal; lia | lia]);
    rewrite (proj2 (Z.ltb_lt 0 (Z.abs (dy - my)))) by lia;
    destruct (my <=? dy) eqn:Edir; b2p].
  - rewrite bool_decide_eq_true_2 by (destruct Hinv as [?|[[? ?]|[[? ?]|[(? & ? & ?)|(? & ? & ?)]]]]; first [by left | by right | lia]).
    rsimpl. exists "East"%string, (my_id + 1), "West"%string. split; [done |].
    unfold mesh_link. fold mx my. cbn [decide]. rewrite decide_True by done.
    rewrite (proj2 (Z.ltb_lt (mx + 1) cols)) by lia.
    replace (my_id + 1) with (cols * my + (mx + 1)) by lia.
    destruct (coords_of (mx + 1) my) as [-> ->]; [lia |].
    split_and!; [done | nia | nia | right; left; split; [done | lia] | lia].
  - rewrite bool_decide_eq_true_2 by (destruct Hinv as [?|[[? ?]|[[? ?]|[(? & ? & ?)|(? & ? & ?)]]]]; first [by left | by right | lia]).
    rsimpl. exists "West"%string, (my_id - 1), "East"%string. split; [done |].
    unfold mesh_link. fold mx my. rewrite decide_False, decide_True by done.
    rewrite (proj2 (Z.ltb_lt 0 mx)) by lia.
    replace (my_id - 1) with (cols * my + (mx - 1)) by lia.
    destruct (coords_of (mx - 1) my) as [-> ->]; [lia |].
    split_and!; [done | nia | nia | right; right; left; split; [done | lia] | lia].
  - rewrite bool_decide_eq_true_2 by (destruct Hinv as [->|[[-> ?]|[[-> ?]|[(-> & ? & ?)|(-> & ? & ?)]]]]; first [done | lia]).
    rsimpl. exists "North"%string, (my_id + cols), "South"%string. split; [done |].
    unfold mesh_link. fold mx my. rewrite !decide_False, decide_True by done.
    rewrite (proj2 (Z.ltb_lt (my + 1) rows)) by lia.
    replace (my_id + cols) with (cols * (my + 1) + mx) by lia.
    destruct (coords_of mx (my + 1)) as [-> ->]; [lia |].
    split_and!; [done | nia | nia | right; right; right; left; split_and!; [done | lia | lia] | lia].
  - rewrite bool_decide_eq_true_2 by (destruct Hinv as [->|[[-> ?]|[[-> ?]|[(-> & ? & ?)|(-> & ? & ?)]]]]; first [done | lia]).
    rsimpl. exists "South"%string, (my_id - cols), "North"%string. split; [done |].
    unfold mesh_link. fold mx my. rewrite !decide_False, decide_True by done.
    rewrite (proj2 (Z.ltb_lt 0 my)) by lia.
    replace (my_id - cols) with (cols * (my - 1) + mx) by lia.
    destruct (coords_of mx (my - 1)) as [-> ->]; [lia |].
    split_and!; [done | nia | nia | right; right; right; right; split_and!; [done | lia | lia] | lia].
Qed.

Lemma manhattan_zero a b :
  0 <= a < rows * cols -> 0 <= b < rows * cols -> manhattan cols a b = 0 -> a = b.
Proof using Hrows Hcols.
  intros Ha Hb H. pose proof (coords a Ha) as (Ea & _). pose proof (coords b Hb) as (Eb & _).
  unfold manhattan in H. rewrite Ea, Eb. f_equal; [f_equal; lia | lia].
Qed.

(** The port [outportCompute] returns is the port of the direction of XY. *)
Lemma xy_port my_id route inport dirn :
  dest_router route <> my_id -> ports_ok rows cols my_id (outs my_id) -> is_Some (mesh_link rows cols my_id dirn) ->
  XY_dirn cfg my_id (dest_router route) inport = Ok dirn ->
  exists r i, outportCompute cfg rand my_id (add_out_ports RoutingUnit_ctor 0 (outs my_id)) route inport = Ok (r, i) /\
    vget (outs my_id) i = Ok dirn.
Proof using Halg.
  intros Hne Hp Hl Hx. destruct (Hp dirn Hl) as (i & Hi & Hu). unfold outportCompute, outportComputeXY, dirn2idx.
  rewrite (proj2 (Z.eqb_neq _ _) Hne), Halg, Hx. change (1 =? 0) with false. change (1 =? 1) with true. rsimpl.
  rewrite (add_ports_idx dirn (outs my_id) _ 0 i Hi Hu). rsimpl. rewrite (proj2 (Z.eqb_neq _ (-1))) by lia. rsimpl.
  eexists _, _. split; [done |]. by apply vget_nat.
Qed.

Lemma xy_walk_arrives fuel my_id route inport :
  let dest := dest_router route in
  (forall id, 0 <= id < rows * cols -> ports_ok rows cols id (outs id)) ->
  0 <= my_id < rows * cols -> 0 <= dest < rows * cols -> xy_inv cols my_id dest inport ->
  manhattan cols my_id dest = Z.of_nat fuel ->
  exists path, xy_walk cfg rand outs route fuel my_id inport = Ok (Some path) /\ length path = fuel /\
    last (my_id :: path) = Some dest.
Proof using Hrows Hcols Halg.
  intros dest Hports. revert my_id inport. induction fuel as [|fuel IH]; intros my_id inport Hm Hd Hinv Hdist.
  - apply manhattan_zero in Hdist as ->; [| done | done]. exists []. cbn. by rewrite Z.eqb_refl.
  - assert (my_id <> dest) as Hne.
    { intros ->. unfold manhattan in Hdist. rewrite !Z.sub_diag in Hdist. cbn in Hdist. lia. }
    destruct (xy_step my_id dest inport Hm Hd Hne Hinv) as (dirn & next & inport' & Hx & Hl & Hn & Hi & Hdec).
    destruct (IH next inport' Hn Hd Hi ltac:(lia)) as (path & Hw & Hlen & Hlast).
    destruct (xy_port my_id route inport dirn) as (r & i & Hout & Hport); [by apply not_eq_sym | by apply Hports | by eexists | done |].
    exists (next :: path). cbn [xy_walk]. rewrite (proj2 (Z.eqb_neq _ my_id)) by (by apply not_eq_sym).
    rewrite Hout. rsimpl. rewrite Hport. rsimpl. fold rows cols. rewrite Hl, Hw. rsimpl. split_and!; [done | by cbn; rewrite Hlen |].
    by rewrite last_cons_cons.
Qed.
End XY.

(** C35.  XY routing arrives: on a mesh of [rows * cols] routers, in which
    every direction with a neighbour has exactly one output port, with the
    routing algorithm set to XY, a packet injected at any router that leaves
    each router by the port [outportCompute] returns reaches its destination
    router after exactly the Manhattan distance in hops.  Neither the turn
    assertions nor the panic of [outportComputeXY] fire on the way, so the
    packet never turns from the column back into a row. *)
Theorem xy_routing_arrives (cfg : NetConfig) (rand : Z) (outs : Z -> list PortDirection) (route : RouteInfo) (src : Z) :
  let rows := m_num_rows cfg in let cols := m_num_cols cfg in let dest := dest_router route in
  0 < rows -> 0 < cols -> m_routing_algorithm cfg = 1 ->
  (forall id, 0 <= id < rows * cols -> ports_ok rows cols id (outs id)) ->
  0 <= src < rows * cols -> 0 <= dest < rows * cols ->
  exists path,
    xy_walk cfg rand outs route (Z.to_nat (manhattan cols src dest)) src "Local" = Ok (Some path) /\
    Z.of_nat (length path) = manhattan cols src dest /\ last (src :: path) = Some dest.
Proof.
  intros rows cols dest Hr Hc Ha Hp Hs Hd.
  destruct (xy_walk_arrives cfg Hr Hc Ha rand outs (Z.to_nat (manhattan cols src dest)) src route "Local")
    as (path & Hw & Hl & Hlast); [done | done | done | by left | unfold manhattan, cols, dest; lia |].
  exists path. split_and!; [done | rewrite Hl; unfold manhattan; lia | done].
Qed.

(** The ports in the order a local port and then the links are added. *)
Definition mesh_outs (rows cols id : Z) : list PortDirection :=
  "Local"%string :: List.filter (fun d => match mesh_link rows cols id d with Some _ => true | None => false end)
    ["North"; "West"; "South"; "East"]%string.

Lemma NoDup_unique (l : list PortDirection) d : NoDup l -> d ∈ l -> exists i, l !! i = Some d /\ forall j, l !! j = Some d -> j = i.
Proof.
  intros Hnd [i Hi]%list_elem_of_lookup. exists i. split; [done |]. intros j Hj. by eapply NoDup_lookup.
Qed.

Lemma mesh_outs_ok rows cols id : ports_ok rows cols id (mesh_outs rows cols id).
Proof.
  intros d [x Hx]. apply NoDup_unique.
  - unfold mesh_outs. apply NoDup_cons. split.
    + rewrite list_elem_of_In, List.filter_In. by intros [_ ?].
    + apply NoDup_ListNoDup, List.NoDup_filter, NoDup_ListNoDup.
      apply (bool_decide_eq_true_1 (NoDup ["North"; "West"; "South"; "East"]%string)). reflexivity.
  - right. rewrite list_elem_of_In, List.filter_In, Hx. split; [| done].
    unfold mesh_link in Hx. repeat (destruct (decide _) as [->|] in Hx; [cbn; tauto |]). done.
Qed.

Definition route_to_5 : RouteInfo :=
  {| ri_vnet := 0; net_dest := []; src_ni := 0; src_router := 0; dest_ni := 0; dest_router := 5; hops_traversed := 0 |}.

Lemma xy_routing_arrives_witness :
  exists path, xy_walk demo_cfg 0 (mesh_outs 2 3) route_to_5
      (Z.to_nat (manhattan 3 0 5)) 0 "Local" = Ok (Some path) /\
    Z.of_nat (length path) = manhattan 3 0 5 /\ last (0 :: path) = Some 5.
Proof.
  apply (xy_routing_arrives demo_cfg 0 (mesh_outs 2 3) route_to_5 0); cbn; try lia.
  intros id _. apply mesh_outs_ok.
Defined.
