(* ===== verification/PortUnits.v ===== *)
(** * Virtual channels, links and router ports

    Models [garnet2.0/VirtualChannel.{hh,cc}], [OutVcState.{hh,cc}],
    [NetworkLink.{hh,cc}] (and [CreditLink.hh], which adds nothing),
    [InputUnit.{hh,cc}] and [OutputUnit.{hh,cc}].

    The objects around a port refer to each other by pointer; here an
    operation takes the objects it touches and returns them.  [cyc] is the
    [curCycle()] of the owner.  Requests to wake another component are
    returned as a list of [rt_event]s.

    The theorem of this file is the credit protocol of a channel: over any
    sequence of sends, link traversals, grants and credit returns, the credits
    of an output VC plus everything in flight for it are its buffer size. *)
From S2P Require Import Prelude StdHeap NetDest MessageBuffer Flit Network RoutingUnit.

(** Wake-ups a port or router asks for. *)
Inductive rt_event :=
  | WakeRouter (cycles : Z)          (** [schedule_wakeup(cycles)] *)
  | WakeCreditLink (inport : Z)      (** next cycle *)
  | WakeOutLink (outport : Z).       (** next cycle *)

(** ** Virtual channels *)

Record VirtualChannel := {
  inputBuffer : flitBuffer;
  vc_state : VC_state_type * Z;
  m_output_port : Z;
  vc_enqueue_time : Z;
  m_output_vc : Z
}.

#[export] Instance VirtualChannel_eta : Eta VirtualChannel := {| eta := fun v =>
  {| inputBuffer := inputBuffer v; vc_state := vc_state v; m_output_port := m_output_port v;
     vc_enqueue_time := vc_enqueue_time v; m_output_vc := m_output_vc v |} |}.

Definition VirtualChannel_ctor : VirtualChannel :=
  {| inputBuffer := flitBuffer_ctor; vc_state := (IDLE_, 0); m_output_port := -1;
     vc_enqueue_time := INFINITE_; m_output_vc := -1 |}.

Definition set_idle (v : VirtualChannel) (curTime : Z) : VirtualChannel :=
  v ⟨ vc_state := (IDLE_, curTime) ⟩ ⟨ vc_enqueue_time := INFINITE_ ⟩
    ⟨ m_output_port := -1 ⟩ ⟨ m_output_vc := -1 ⟩.

Definition set_active (v : VirtualChannel) (curTime : Z) : VirtualChannel :=
  v ⟨ vc_state := (ACTIVE_, curTime) ⟩ ⟨ vc_enqueue_time := curTime ⟩.

Definition need_stage (v : VirtualChannel) (stage : flit_stage) (time : Z) : res bool :=
  if fb_isReady (inputBuffer v) time then
    _ ← cassert (bool_decide ((vc_state v).1 = ACTIVE_) && ((vc_state v).2 <=? time))%bool;
    t_flit ← peekTopFlit (inputBuffer v);
    Ok (is_stage t_flit stage time)
  else Ok false.

Definition insertFlit (v : VirtualChannel) (t_flit : flit) : VirtualChannel :=
  v ⟨ inputBuffer := fb_insert (inputBuffer v) t_flit ⟩.

Definition vc_getTopFlit (v : VirtualChannel) : res (VirtualChannel * flit) :=
  x ← getTopFlit (inputBuffer v); Ok (v ⟨ inputBuffer := x.1 ⟩, x.2).

(** ** Credits of an output VC *)

Record OutVcState := {
  ov_id : Z;
  ov_time : Z;
  ov_state : VC_state_type;
  m_credit_count : Z;
  m_max_credit_count : Z
}.

#[export] Instance OutVcState_eta : Eta OutVcState := {| eta := fun s =>
  {| ov_id := ov_id s; ov_time := ov_time s; ov_state := ov_state s;
     m_credit_count := m_credit_count s; m_max_credit_count := m_max_credit_count s |} |}.

Definition OutVcState_ctor (cfg : NetConfig) (id : Z) : res OutVcState :=
  ty ← get_vnet_type cfg id;
  let max := if decide (ty = DATA_VNET_) then m_buffers_per_data_vc cfg else m_buffers_per_ctrl_vc cfg in
  _ ← cassert (1 <=? max);
  Ok {| ov_id := id; ov_time := 0; ov_state := IDLE_; m_credit_count := max; m_max_credit_count := max |}.

Definition ov_has_credit (s : OutVcState) : bool := 0 <? m_credit_count s.

Definition ov_increment_credit (s : OutVcState) : res OutVcState :=
  let s := s ⟨ m_credit_count := m_credit_count s + 1 ⟩ in
  _ ← cassert (m_credit_count s <=? m_max_credit_count s); Ok s.

Definition ov_decrement_credit (s : OutVcState) : res OutVcState :=
  let s := s ⟨ m_credit_count := m_credit_count s - 1 ⟩ in
  _ ← cassert (0 <=? m_credit_count s); Ok s.

Definition isInState (s : OutVcState) (state : VC_state_type) (request_time : Z) : bool :=
  (bool_decide (ov_state s = state) && (ov_time s <=? request_time))%bool.

Definition setState (s : OutVcState) (state : VC_state_type) (time : Z) : OutVcState :=
  s ⟨ ov_state := state ⟩ ⟨ ov_time := time ⟩.

(** ** Links *)

Record NetworkLink := {
  nl_id : Z;
  nl_type : link_type;
  nl_latency : Z;
  linkBuffer : flitBuffer;
  link_consumer : option Z;
  m_link_utilized : Z;
  m_vc_load : list Z
}.

#[export] Instance NetworkLink_eta : Eta NetworkLink := {| eta := fun l =>
  {| nl_id := nl_id l; nl_type := nl_type l; nl_latency := nl_latency l; linkBuffer := linkBuffer l;
     link_consumer := link_consumer l; m_link_utilized := m_link_utilized l; m_vc_load := m_vc_load l |} |}.

Definition NetworkLink_ctor (link_id link_latency vcs_per_vnet virt_nets : Z) : NetworkLink :=
  {| nl_id := link_id; nl_type := NUM_LINK_TYPES_; nl_latency := link_latency;
     linkBuffer := flitBuffer_ctor; link_consumer := None; m_link_utilized := 0;
     m_vc_load := replicate (Z.to_nat (vcs_per_vnet * virt_nets)) 0 |}.

Definition setLinkConsumer (l : NetworkLink) (consumer : Z) := l ⟨ link_consumer := Some consumer ⟩.
Definition setType (l : NetworkLink) (ty : link_type) := l ⟨ nl_type := ty ⟩.

Definition link_isReady (l : NetworkLink) (curTime : Z) : bool := fb_isReady (linkBuffer l) curTime.

Definition consumeLink (l : NetworkLink) : res (NetworkLink * flit) :=
  x ← getTopFlit (linkBuffer l); Ok (l ⟨ linkBuffer := x.1 ⟩, x.2).

(** [src] is [link_srcQueue], [None] while it is not set.  The last component
    of the result is the delay after which the consumer is to be woken. *)
Definition NetworkLink_wakeup (cyc : Z) (l : NetworkLink) (src : option flitBuffer)
    : res (NetworkLink * flitBuffer * option Z) :=
  match src with
  | None => Err EAssert
  | Some src =>
      if fb_isReady src cyc then
        x ← getTopFlit src;
        let t_flit := x.2 ⟨ f_time := u64 (cyc + nl_latency l) ⟩ in
        let l := l ⟨ linkBuffer := fb_insert (linkBuffer l) t_flit ⟩ in
        match link_consumer l with
        | None => Err EUninit
        | Some _ =>
            load ← vupd (m_vc_load l) (m_vc t_flit) (fun n => Ok (u32 (n + 1)));
            Ok (l ⟨ m_link_utilized := u32 (m_link_utilized l + 1) ⟩ ⟨ m_vc_load := load ⟩,
                x.1, Some (nl_latency l))
        end
      else Ok (l, src, None)
  end.

Definition link_resetStats (l : NetworkLink) : NetworkLink :=
  l ⟨ m_vc_load := replicate (length (m_vc_load l)) 0 ⟩ ⟨ m_link_utilized := 0 ⟩.

(** ** Input ports *)

Record InputUnit := {
  iu_id : Z;
  iu_direction : PortDirection;
  iu_vc_per_vnet : Z;
  creditQueue : flitBuffer;
  virtualChannels : list VirtualChannel;
  m_num_buffer_writes : list Z;
  m_num_buffer_reads : list Z
}.

#[export] Instance InputUnit_eta : Eta InputUnit := {| eta := fun u =>
  {| iu_id := iu_id u; iu_direction := iu_direction u; iu_vc_per_vnet := iu_vc_per_vnet u;
     creditQueue := creditQueue u; virtualChannels := virtualChannels u;
     m_num_buffer_writes := m_num_buffer_writes u; m_num_buffer_reads := m_num_buffer_reads u |} |}.

Definition InputUnit_ctor (id : Z) (direction : PortDirection) (num_vcs vc_per_vnet : Z) : InputUnit :=
  {| iu_id := id; iu_direction := direction; iu_vc_per_vnet := vc_per_vnet;
     creditQueue := flitBuffer_ctor;
     virtualChannels := replicate (Z.to_nat num_vcs) VirtualChannel_ctor;
     m_num_buffer_writes := replicate (Z.to_nat (num_vcs / vc_per_vnet)) 0;
     m_num_buffer_reads := replicate (Z.to_nat (num_vcs / vc_per_vnet)) 0 |}.

Definition iu_upd_vc (u : InputUnit) (vc : Z) (f : VirtualChannel -> res VirtualChannel) : res InputUnit :=
  vcs ← vupd (virtualChannels u) vc f; Ok (u ⟨ virtualChannels := vcs ⟩).

Definition set_vc_idle (u : InputUnit) (vc curTime : Z) := iu_upd_vc u vc (fun v => Ok (set_idle v curTime)).
Definition set_vc_active (u : InputUnit) (vc curTime : Z) := iu_upd_vc u vc (fun v => Ok (set_active v curTime)).
Definition grant_outport (u : InputUnit) (vc outport : Z) :=
  iu_upd_vc u vc (fun v => Ok (v ⟨ m_output_port := outport ⟩)).
Definition grant_outvc (u : InputUnit) (vc outvc : Z) :=
  iu_upd_vc u vc (fun v => Ok (v ⟨ m_output_vc := outvc ⟩)).
Definition get_outport (u : InputUnit) (invc : Z) : res Z := v ← vget (virtualChannels u) invc; Ok (m_output_port v).
Definition get_outvc (u : InputUnit) (invc : Z) : res Z := v ← vget (virtualChannels u) invc; Ok (m_output_vc v).
Definition get_enqueue_time (u : InputUnit) (invc : Z) : res Z :=
  v ← vget (virtualChannels u) invc; Ok (vc_enqueue_time v).
Definition iu_need_stage (u : InputUnit) (vc : Z) (stage : flit_stage) (time : Z) : res bool :=
  v ← vget (virtualChannels u) vc; need_stage v stage time.
Definition iu_isReady (u : InputUnit) (invc curTime : Z) : res bool :=
  v ← vget (virtualChannels u) invc; Ok (fb_isReady (inputBuffer v) curTime).

Definition iu_getTopFlit (u : InputUnit) (vc : Z) : res (InputUnit * flit) :=
  v ← vget (virtualChannels u) vc;
  x ← vc_getTopFlit v;
  vcs ← vset (virtualChannels u) vc x.1;
  Ok (u ⟨ virtualChannels := vcs ⟩, x.2).

(** [cfg], [rand], [my_id] and [ru] are what [Router::route_compute] uses;
    [pipe_stages] is the router's latency. *)
Definition InputUnit_wakeup (cfg : NetConfig) (rand my_id pipe_stages cyc : Z) (u : InputUnit)
    (ru : RoutingUnit) (in_link : NetworkLink)
    : res (InputUnit * RoutingUnit * NetworkLink * list rt_event) :=
  if link_isReady in_link cyc then
    x ← consumeLink in_link;
    let '(in_link, t_flit) := x in
    let vc := m_vc t_flit in
    let t_flit := increment_hops t_flit in
    v ← vget (virtualChannels u) vc;
    y ← (if is_head t_flit then
           _ ← cassert (bool_decide ((vc_state v).1 = IDLE_));
           u ← set_vc_active u vc cyc;
           r ← outportCompute cfg rand my_id ru (m_route t_flit) (iu_direction u);
           u ← grant_outport u vc r.2;
           Ok (u, r.1)
         else
           _ ← cassert (bool_decide ((vc_state v).1 = ACTIVE_));
           Ok (u, ru));
    let '(u, ru) := y in
    let vnet := Z.quot vc (iu_vc_per_vnet u) in
    wr ← vupd (m_num_buffer_writes u) vnet (fun n => Ok (n + 1));
    rd ← vupd (m_num_buffer_reads u) vnet (fun n => Ok (n + 1));
    z ← (if pipe_stages =? 1 then Ok (cyc, [])
         else _ ← cassert (1 <? pipe_stages); Ok (u64 (cyc + (pipe_stages - 1)), [WakeRouter (pipe_stages - 1)]));
    u ← iu_upd_vc u vc (fun v => Ok (insertFlit v (advance_stage t_flit SA_ z.1)));
    Ok (u ⟨ m_num_buffer_writes := wr ⟩ ⟨ m_num_buffer_reads := rd ⟩, ru, in_link, z.2)
  else Ok (u, ru, in_link, []).

Definition iu_increment_credit (u : InputUnit) (in_vc : Z) (free_signal : bool) (curTime : Z)
    : InputUnit * list rt_event :=
  (u ⟨ creditQueue := fb_insert (creditQueue u) (Credit_ctor in_vc free_signal curTime) ⟩,
   [WakeCreditLink (iu_id u)]).

Definition iu_resetStats (u : InputUnit) : InputUnit :=
  u ⟨ m_num_buffer_reads := replicate (length (m_num_buffer_reads u)) 0 ⟩
    ⟨ m_num_buffer_writes := replicate (length (m_num_buffer_reads u)) 0 ⟩.

(** ** Output ports *)

Record OutputUnit := {
  ou_id : Z;
  ou_direction : PortDirection;
  ou_vc_per_vnet : Z;
  outBuffer : flitBuffer;
  outVcState : list OutVcState
}.

#[export] Instance OutputUnit_eta : Eta OutputUnit := {| eta := fun u =>
  {| ou_id := ou_id u; ou_direction := ou_direction u; ou_vc_per_vnet := ou_vc_per_vnet u;
     outBuffer := outBuffer u; outVcState := outVcState u |} |}.

Definition OutputUnit_ctor (cfg : NetConfig) (id : Z) (direction : PortDirection) (num_vcs vc_per_vnet : Z)
    : res OutputUnit :=
  ovs ← foldM (fun l i => s ← OutVcState_ctor cfg i; Ok (l ++ [s])) (upto num_vcs) [];
  Ok {| ou_id := id; ou_direction := direction; ou_vc_per_vnet := vc_per_vnet;
        outBuffer := flitBuffer_ctor; outVcState := ovs |}.

Definition ou_upd_vc (u : OutputUnit) (vc : Z) (f : OutVcState -> res OutVcState) : res OutputUnit :=
  ovs ← vupd (outVcState u) vc f; Ok (u ⟨ outVcState := ovs ⟩).

Definition ou_decrement_credit (u : OutputUnit) (out_vc : Z) := ou_upd_vc u out_vc ov_decrement_credit.
Definition ou_increment_credit (u : OutputUnit) (out_vc : Z) := ou_upd_vc u out_vc ov_increment_credit.
Definition set_vc_state (u : OutputUnit) (state : VC_state_type) (vc curTime : Z) :=
  ou_upd_vc u vc (fun s => Ok (setState s state curTime)).

Definition ou_has_credit (u : OutputUnit) (out_vc cyc : Z) : res bool :=
  s ← vget (outVcState u) out_vc;
  _ ← cassert (isInState s ACTIVE_ cyc);
  Ok (ov_has_credit s).

Definition is_vc_idle (u : OutputUnit) (vc curTime : Z) : res bool :=
  s ← vget (outVcState u) vc; Ok (isInState s IDLE_ curTime).

(** The VCs of a virtual network, [vc_base] to [vc_base + m_vc_per_vnet - 1]. *)
Definition vcs_of (u : OutputUnit) (vnet : Z) : list Z :=
  seqZ (vnet * ou_vc_per_vnet u) (ou_vc_per_vnet u).

Fixpoint has_free_vc_loop (u : OutputUnit) (cyc : Z) (vcs : list Z) : res bool :=
  match vcs with
  | [] => Ok false
  | vc :: vcs => b ← is_vc_idle u vc cyc; if (b : bool) then Ok true else has_free_vc_loop u cyc vcs
  end.
Definition has_free_vc (u : OutputUnit) (vnet cyc : Z) : res bool := has_free_vc_loop u cyc (vcs_of u vnet).

Fixpoint select_free_vc_loop (u : OutputUnit) (cyc : Z) (vcs : list Z) : res (OutputUnit * Z) :=
  match vcs with
  | [] => Ok (u, -1)
  | vc :: vcs =>
      b ← is_vc_idle u vc cyc;
      if (b : bool) then u ← set_vc_state u ACTIVE_ vc cyc; Ok (u, vc) else select_free_vc_loop u cyc vcs
  end.
Definition select_free_vc (u : OutputUnit) (vnet cyc : Z) : res (OutputUnit * Z) :=
  select_free_vc_loop u cyc (vcs_of u vnet).

Definition OutputUnit_wakeup (cyc : Z) (u : OutputUnit) (credit_link : NetworkLink)
    : res (OutputUnit * NetworkLink) :=
  if link_isReady credit_link cyc then
    x ← consumeLink credit_link;
    let '(credit_link, t_credit) := x in
    u ← ou_increment_credit u (m_vc t_credit);
    free ← is_free_signal t_credit;
    u ← (if (free : bool) then set_vc_state u IDLE_ (m_vc t_credit) cyc else Ok u);
    Ok (u, credit_link)
  else Ok (u, credit_link).

Definition insert_flit (u : OutputUnit) (t_flit : flit) : OutputUnit * list rt_event :=
  (u ⟨ outBuffer := fb_insert (outBuffer u) t_flit ⟩, [WakeOutLink (ou_id u)]).

(** ** The credit protocol of a channel

    A channel is what lies between an output port and the input port it feeds:
    the flits that won the switch, the port's buffer, the link, the VC buffers,
    and the way back of the credits. *)

Record channel := {
  ch_switch : flitBuffer;       (** crossbar buffers, restricted to this output port *)
  ch_out : OutputUnit;
  ch_link : NetworkLink;
  ch_in : InputUnit;
  ch_ru : RoutingUnit;          (** of the receiving router *)
  ch_clink : NetworkLink
}.

#[export] Instance channel_eta : Eta channel := {| eta := fun c =>
  {| ch_switch := ch_switch c; ch_out := ch_out c; ch_link := ch_link c; ch_in := ch_in c;
     ch_ru := ch_ru c; ch_clink := ch_clink c |} |}.

Inductive ch_op :=
  | CSend (vc : Z) (f : flit)          (** switch allocation upstream grants a flit *)
  | CTraverse                          (** the crossbar moves it to the output port *)
  | CLink (cyc : Z)                    (** the link wakes up *)
  | CArrive (rand cyc : Z)             (** the input port wakes up *)
  | CGrant (vc : Z) (free : bool) (cyc : Z)   (** switch allocation downstream *)
  | CCreditLink (cyc : Z)              (** the credit link wakes up *)
  | CCredit (cyc : Z).                 (** the output port wakes up *)

(** One event, in terms of the operations of the components.  A flit is sent
    only if [has_credit] holds, as [send_allowed] checks. *)
Definition ch_step (cfg : NetConfig) (my_id pipe : Z) (c : channel) (op : ch_op) : res channel :=
  match op with
  | CSend vc f =>
      s ← vget (outVcState (ch_out c)) vc;
      if ov_has_credit s then
        out ← ou_decrement_credit (ch_out c) vc;
        Ok (c ⟨ ch_out := out ⟩ ⟨ ch_switch := fb_insert (ch_switch c) (f ⟨ m_vc := vc ⟩) ⟩)
      else Ok c
  | CTraverse =>
      x ← getTopFlit (ch_switch c);
      Ok (c ⟨ ch_switch := x.1 ⟩ ⟨ ch_out := (insert_flit (ch_out c) x.2).1 ⟩)
  | CLink cyc =>
      x ← NetworkLink_wakeup cyc (ch_link c) (Some (outBuffer (ch_out c)));
      Ok (c ⟨ ch_link := x.1.1 ⟩ ⟨ ch_out := ch_out c ⟨ outBuffer := x.1.2 ⟩ ⟩)
  | CArrive rand cyc =>
      x ← InputUnit_wakeup cfg rand my_id pipe cyc (ch_in c) (ch_ru c) (ch_link c);
      Ok (c ⟨ ch_in := x.1.1.1 ⟩ ⟨ ch_ru := x.1.1.2 ⟩ ⟨ ch_link := x.1.2 ⟩)
  | CGrant vc free cyc =>
      x ← iu_getTopFlit (ch_in c) vc;
      Ok (c ⟨ ch_in := (iu_increment_credit x.1 vc free cyc).1 ⟩)
  | CCreditLink cyc =>
      x ← NetworkLink_wakeup cyc (ch_clink c) (Some (creditQueue (ch_in c)));
      Ok (c ⟨ ch_clink := x.1.1 ⟩ ⟨ ch_in := ch_in c ⟨ creditQueue := x.1.2 ⟩ ⟩)
  | CCredit cyc =>
      x ← OutputUnit_wakeup cyc (ch_out c) (ch_clink c);
      Ok (c ⟨ ch_out := x.1 ⟩ ⟨ ch_clink := x.2 ⟩)
  end.

Definition ch_run (cfg : NetConfig) (my_id pipe : Z) (c : channel) (ops : list ch_op) : res channel :=
  foldM (ch_step cfg my_id pipe) ops c.

(** Flits (or credits) of VC [v] in a buffer, and the length of VC [v]'s own. *)
Definition cnt (v : Z) (l : list flit) : Z := Z.of_nat (length (filter (fun f => m_vc f = v) l)).
Definition vclen (vcs : list VirtualChannel) (v : Z) : Z :=
  match vcs !! Z.to_nat v with Some c => fb_getSize (inputBuffer c) | None => 0 end.

(** Everything in flight for VC [v]. *)
Definition in_flight (c : channel) (v : Z) : Z :=
  cnt v (m_buffer (ch_switch c)) + cnt v (m_buffer (outBuffer (ch_out c))) +
  cnt v (m_buffer (linkBuffer (ch_link c))) + vclen (virtualChannels (ch_in c)) v +
  cnt v (m_buffer (creditQueue (ch_in c))) + cnt v (m_buffer (linkBuffer (ch_clink c))).

Definition is_credit (n : Z) (f : flit) : Prop := 0 <= m_vc f < n /\ exists b, m_is_free_signal f = Some b.

Definition ch_inv (c : channel) : Prop :=
  let n := Z.of_nat (length (outVcState (ch_out c))) in
  length (virtualChannels (ch_in c)) = length (outVcState (ch_out c)) /\
  Forall (is_credit n) (m_buffer (creditQueue (ch_in c))) /\
  Forall (is_credit n) (m_buffer (linkBuffer (ch_clink c))) /\
  forall v s, vget (outVcState (ch_out c)) v = Ok s ->
    0 <= m_credit_count s /\ m_credit_count s + in_flight c v = m_max_credit_count s.

Lemma cnt_perm v l l' : l ≡ₚ l' -> cnt v l = cnt v l'.
Proof. intros H. unfold cnt. by rewrite H. Qed.

Lemma cnt_cons v f l : cnt v (f :: l) = (if decide (m_vc f = v) then 1 else 0) + cnt v l.
Proof. unfold cnt. rewrite filter_cons. destruct (decide (m_vc f = v)); cbn [length]; lia. Qed.

Lemma cnt_nonneg v l : 0 <= cnt v l.
Proof. unfold cnt. lia. Qed.

Lemma cnt_insert v b f :
  cnt v (m_buffer (fb_insert b f)) = (if decide (m_vc f = v) then 1 else 0) + cnt v (m_buffer b).
Proof. by rewrite (cnt_perm v _ _ (fb_insert_perm b f)), cnt_cons. Qed.

Lemma cnt_top v b b' f : getTopFlit b = Ok (b', f) ->
  cnt v (m_buffer b) = (if decide (m_vc f = v) then 1 else 0) + cnt v (m_buffer b').
Proof. intros (HP & _ & _)%getTopFlit_perm. by rewrite (cnt_perm v _ _ HP), cnt_cons. Qed.

Lemma vupd_vclen vcs i f vcs' k :
  vupd vcs i f = Ok vcs' ->
  (forall x y, vget vcs i = Ok x -> f x = Ok y ->
     fb_getSize (inputBuffer y) = fb_getSize (inputBuffer x) + k) ->
  length vcs' = length vcs /\ 0 <= i < Z.of_nat (length vcs) /\
  forall v, 0 <= v -> vclen vcs' v = vclen vcs v + (if decide (i = v) then k else 0).
Proof.
  intros (x & y & Hx & Hy & Hs)%vupd_Ok Hf. pose proof (Hf x y Hx Hy) as Hxy.
  split; [by eapply vset_length |]. split; [by eapply vget_range |]. intros v Hv. unfold vclen.
  pose proof Hx as [Hi Hl]%vget_Ok. apply vset_Ok in Hs as [Hr ->].
  destruct (decide (i = v)) as [->|Hne].
  - rewrite list_lookup_insert_eq by lia. rewrite Hl. lia.
  - rewrite list_lookup_insert_ne by lia. lia.
Qed.

Lemma NetworkLink_wakeup_spec cyc l src l' src' ev :
  NetworkLink_wakeup cyc l (Some src) = Ok (l', src', ev) ->
  (forall v, cnt v (m_buffer src') + cnt v (m_buffer (linkBuffer l')) =
             cnt v (m_buffer src) + cnt v (m_buffer (linkBuffer l))) /\
  (forall P : flit -> Prop, (forall f t, P f -> P (f ⟨ f_time := t ⟩)) ->
     Forall P (m_buffer src) -> Forall P (m_buffer (linkBuffer l)) ->
     Forall P (m_buffer src') /\ Forall P (m_buffer (linkBuffer l'))).
Proof.
  unfold NetworkLink_wakeup. destruct (fb_isReady src cyc); intros H; [| by injection H as <- <- <-].
  apply res_bind_Ok_inv in H as ([b f] & Hg & H). cbn [fst snd setf link_consumer] in H.
  destruct (link_consumer l); [| discriminate H].
  apply res_bind_Ok_inv in H as (load & _ & H). injection H as <- <- <-. cbn [setf linkBuffer]. split.
  - intros v. rewrite (cnt_top v _ _ _ Hg), cnt_insert. cbn [setf m_vc]. lia.
  - intros P HP Hs Hl. pose proof (getTopFlit_perm _ _ _ Hg) as (Hperm & _ & _).
    rewrite Hperm in Hs. apply Forall_cons in Hs as [Hf Hs]. split; [done |].
    rewrite fb_insert_perm. apply Forall_cons. split; [by apply HP | done].
Qed.

Lemma fb_insert_size b f : fb_getSize (fb_insert b f) = fb_getSize b + 1.
Proof. unfold fb_getSize. cbn [fb_insert m_buffer]. rewrite heap_insert_length. lia. Qed.

Lemma getTopFlit_size b b' f : getTopFlit b = Ok (b', f) -> fb_getSize b = fb_getSize b' + 1.
Proof. intros (HP & _ & _)%getTopFlit_perm. unfold fb_getSize. rewrite HP. cbn [length]. lia. Qed.

Lemma iu_upd_vc_keep u vc f u' :
  iu_upd_vc u vc f = Ok u' ->
  (forall x y, f x = Ok y -> inputBuffer y = inputBuffer x) ->
  creditQueue u' = creditQueue u /\ length (virtualChannels u') = length (virtualChannels u) /\
  forall v, 0 <= v -> vclen (virtualChannels u') v = vclen (virtualChannels u) v.
Proof.
  unfold iu_upd_vc. intros H Hf. apply res_bind_Ok_inv in H as (vcs & Hv & H). injection H as <-.
  apply (vupd_vclen _ _ _ _ 0) in Hv as (Hl & _ & Hvc).
  - cbn [setf virtualChannels creditQueue]. split_and!; [done | done |]. intros v Hv. rewrite Hvc by done.
    destruct (decide _); lia.
  - intros x y _ Hxy. rewrite (Hf x y Hxy). lia.
Qed.

Lemma InputUnit_wakeup_spec cfg rand my_id pipe cyc u ru l u' ru' l' evs :
  InputUnit_wakeup cfg rand my_id pipe cyc u ru l = Ok (u', ru', l', evs) ->
  creditQueue u' = creditQueue u /\ length (virtualChannels u') = length (virtualChannels u) /\
  forall v, 0 <= v -> vclen (virtualChannels u') v + cnt v (m_buffer (linkBuffer l')) =
                      vclen (virtualChannels u) v + cnt v (m_buffer (linkBuffer l)).
Proof.
  unfold InputUnit_wakeup. destruct (link_isReady l cyc); intros H; [| by injection H as <- <- <- <-].
  apply res_bind_Ok_inv in H as ([l1 f] & Hc & H).
  apply res_bind_Ok_inv in H as (v0 & Hv0 & H).
  apply res_bind_Ok_inv in H as ([u1 ru1] & Hr & H).
  apply res_bind_Ok_inv in H as (wr & _ & H). apply res_bind_Ok_inv in H as (rd & _ & H).
  apply res_bind_Ok_inv in H as (z & _ & H). apply res_bind_Ok_inv in H as (u2 & Hu2 & H).
  injection H as <- <- <- <-. cbn [setf creditQueue virtualChannels].
  assert (creditQueue u1 = creditQueue u /\ length (virtualChannels u1) = length (virtualChannels u) /\
    forall v, 0 <= v -> vclen (virtualChannels u1) v = vclen (virtualChannels u) v) as (Hq1 & Hl1 & Hv1).
  { destruct (is_head (increment_hops f)).
    - apply res_bind_Ok_inv in Hr as (? & _ & Hr). apply res_bind_Ok_inv in Hr as (ua & Ha & Hr).
      apply res_bind_Ok_inv in Hr as (rr & _ & Hr). apply res_bind_Ok_inv in Hr as (ub & Hb & Hr).
      injection Hr as <- <-. unfold set_vc_active, grant_outport in *.
      apply iu_upd_vc_keep in Ha as (Qa & La & Va); [| by intros ? ? [= <-]].
      apply iu_upd_vc_keep in Hb as (Qb & Lb & Vb); [| by intros ? ? [= <-]].
      split_and!; [congruence | congruence |]. intros v Hv. by rewrite Vb, Va.
    - apply res_bind_Ok_inv in Hr as (? & _ & Hr). by injection Hr as <- <-. }
  unfold iu_upd_vc in Hu2. apply res_bind_Ok_inv in Hu2 as (vcs & Hvu & Hu2). injection Hu2 as <-.
  cbn [setf creditQueue virtualChannels].
  apply (vupd_vclen _ _ _ _ 1) in Hvu as (Hl & _ & Hvc);
    [| intros x y _ [= <-]; cbn [insertFlit setf inputBuffer]; apply fb_insert_size].
  unfold consumeLink in Hc. apply res_bind_Ok_inv in Hc as ([lb g] & Hg & Hc). injection Hc as <- <-.
  split_and!; [done | congruence |]. intros v Hv. cbn [setf linkBuffer fst].
  rewrite Hvc, Hv1, (cnt_top v _ _ _ Hg) by done. cbn [snd]. lia.
Qed.

Lemma consumeLink_spec l l' f : consumeLink l = Ok (l', f) ->
  m_buffer (linkBuffer l) ≡ₚ f :: m_buffer (linkBuffer l').
Proof.
  unfold consumeLink. intros H. apply res_bind_Ok_inv in H as ([b g] & Hg & H). injection H as <- <-.
  by apply getTopFlit_perm in Hg as (HP & _ & _).
Qed.

(** An output VC whose state is replaced by one with other credits. *)
Lemma ou_upd_vc_spec u vc f u' :
  ou_upd_vc u vc f = Ok u' ->
  exists s s', vget (outVcState u) vc = Ok s /\ f s = Ok s' /\ outBuffer u' = outBuffer u /\
    length (outVcState u') = length (outVcState u) /\ vget (outVcState u') vc = Ok s' /\
    forall v, v <> vc -> vget (outVcState u') v = vget (outVcState u) v.
Proof.
  unfold ou_upd_vc. intros H. apply res_bind_Ok_inv in H as (ovs & Hv & H). injection H as <-.
  apply vupd_Ok in Hv as (s & s' & Hs & Hf & Hset). exists s, s'. cbn [setf outVcState outBuffer].
  split_and!; try done.
  - by eapply vset_length.
  - by eapply vset_get_eq.
  - intros v Hne. eapply vset_get_ne; [done | congruence].
Qed.

Lemma ou_upd_vc_ok u vc f s s' :
  vget (outVcState u) vc = Ok s -> f s = Ok s' -> exists u', ou_upd_vc u vc f = Ok u'.
Proof.
  intros Hs Hf. unfold ou_upd_vc, vupd. rewrite Hs. rsimpl. rewrite Hf. rsimpl.
  destruct (vset_is_ok (outVcState u) vc s') as [l ->]; [by eapply vget_range | by eexists].
Qed.

(** The wake-up of the output port: the credit assertion holds, and one credit
    moves from the link to the counter. *)
Lemma OutputUnit_wakeup_spec c cyc :
  ch_inv c ->
  exists out' clink', OutputUnit_wakeup cyc (ch_out c) (ch_clink c) = Ok (out', clink') /\
    ch_inv (c ⟨ ch_out := out' ⟩ ⟨ ch_clink := clink' ⟩).
Proof.
  intros (Hlen & HQ & HL & Hinv). unfold OutputUnit_wakeup.
  destruct (link_isReady (ch_clink c) cyc) eqn:Er.
  2: { do 2 eexists. split; [done |]. by split_and!. }
  destruct (fb_isReady_top _ _ Er) as (f & b & Hg & _ & _).
  unfold consumeLink. rewrite Hg. rsimpl.
  pose proof (getTopFlit_perm _ _ _ Hg) as (HP & _ & _).
  rewrite HP in HL. apply Forall_cons in HL as [(Hvc & free & Hfree) HL].
  destruct (vget_is_ok (outVcState (ch_out c)) (m_vc f) Hvc) as [s Hs].
  destruct (Hinv _ _ Hs) as [Hnn Hsum].
  assert (0 < cnt (m_vc f) (m_buffer (linkBuffer (ch_clink c)))) as Hpos.
  { rewrite (cnt_top (m_vc f) _ _ _ Hg). rewrite decide_True by done.
    pose proof (cnt_nonneg (m_vc f) (m_buffer b)). lia. }
  assert (Hle : m_credit_count s + 1 <= m_max_credit_count s).
  { unfold in_flight in Hsum. pose proof (cnt_nonneg (m_vc f) (m_buffer (ch_switch c))).
    pose proof (cnt_nonneg (m_vc f) (m_buffer (outBuffer (ch_out c)))).
    pose proof (cnt_nonneg (m_vc f) (m_buffer (linkBuffer (ch_link c)))).
    pose proof (cnt_nonneg (m_vc f) (m_buffer (creditQueue (ch_in c)))).
    assert (0 <= vclen (virtualChannels (ch_in c)) (m_vc f))
      by (unfold vclen, fb_getSize; destruct (_ !! _); lia). lia. }
  assert (ov_increment_credit s = Ok (s ⟨ m_credit_count := m_credit_count s + 1 ⟩)) as Hinc.
  { unfold ov_increment_credit. cbn [setf m_credit_count m_max_credit_count].
    by rewrite (proj2 (Z.leb_le _ _) Hle). }
  unfold ou_increment_credit. destruct (ou_upd_vc_ok _ _ _ _ _ Hs Hinc) as [u1 Hu1]. rewrite Hu1. rsimpl.
  unfold is_free_signal. rewrite Hfree. rsimpl.
  apply ou_upd_vc_spec in Hu1 as (s0 & s1 & Hs0 & Hs1 & Hb1 & Hl1 & Hg1 & Hn1).
  rewrite Hs in Hs0. injection Hs0 as <-. rewrite Hinc in Hs1. injection Hs1 as <-.
  assert (exists u2, (if free then set_vc_state u1 IDLE_ (m_vc f) cyc else Ok u1) = Ok u2 /\
    outBuffer u2 = outBuffer u1 /\ length (outVcState u2) = length (outVcState u1) /\
    (exists s2, vget (outVcState u2) (m_vc f) = Ok s2 /\ m_credit_count s2 = m_credit_count s + 1 /\
       m_max_credit_count s2 = m_max_credit_count s) /\
    forall v, v <> m_vc f -> vget (outVcState u2) v = vget (outVcState u1) v) as (u2 & -> & Hb2 & Hl2 & (s2 & Hg2 & Hc2 & Hm2) & Hn2).
  { destruct free; [| exists u1; split_and!; try done; by eexists].
    unfold set_vc_state. destruct (ou_upd_vc_ok u1 (m_vc f) (fun s => Ok (setState s IDLE_ cyc)) _ _ Hg1 eq_refl) as [u2 Hu2].
    pose proof (ou_upd_vc_spec _ _ _ _ Hu2) as (sa & sb & Ha & [= <-] & ? & ? & Hg2 & ?).
    rewrite Hg1 in Ha. injection Ha as <-. exists u2. split_and!; try done. by eexists. }
  rsimpl. do 2 eexists. split; [done |].
  unfold ch_inv, in_flight. cbn [setf ch_out ch_clink ch_in ch_switch ch_link linkBuffer].
  rewrite Hl2, Hl1. split_and!; try done. intros v s' Hs'. rewrite Hb2, Hb1.
  unfold in_flight in Hinv. destruct (decide (v = m_vc f)) as [->|Hne].
  - rewrite Hg2 in Hs'. injection Hs' as <-. rewrite Hc2, Hm2.
    specialize (Hinv _ _ Hs). rewrite (cnt_top (m_vc f) _ _ _ Hg), decide_True in Hinv by done. lia.
  - rewrite Hn2, Hn1 in Hs' by done. specialize (Hinv _ _ Hs').
    rewrite (cnt_top v _ _ _ Hg), decide_False in Hinv by congruence. lia.
Qed.

Lemma iu_getTopFlit_spec u vc u' f :
  iu_getTopFlit u vc = Ok (u', f) ->
  creditQueue u' = creditQueue u /\ length (virtualChannels u') = length (virtualChannels u) /\
  0 <= vc < Z.of_nat (length (virtualChannels u)) /\
  forall v, 0 <= v -> vclen (virtualChannels u) v =
    vclen (virtualChannels u') v + (if decide (vc = v) then 1 else 0).
Proof.
  unfold iu_getTopFlit, vc_getTopFlit. intros H.
  apply res_bind_Ok_inv in H as (c & Hc & H). apply res_bind_Ok_inv in H as ([c' g] & Hg & H).
  apply res_bind_Ok_inv in H as (vcs & Hs & H). injection H as <- <-. cbn [setf creditQueue virtualChannels].
  apply res_bind_Ok_inv in Hg as ([b g'] & Hb & Hg). injection Hg as <- <-. cbn [fst] in *.
  assert (vupd (virtualChannels u) vc (fun _ => Ok (c ⟨ inputBuffer := b ⟩)) = Ok vcs) as Hu
    by (unfold vupd; rewrite Hc; rsimpl; done).
  apply (vupd_vclen _ _ _ _ (-1)) in Hu as (Hl & Hr & Hvc).
  - split_and!; try done; try lia. intros v Hv. rewrite Hvc by done. destruct (decide (vc = v)); lia.
  - intros x y Hx [= <-]. rewrite Hc in Hx. injection Hx as <-. cbn [setf inputBuffer].
    rewrite (getTopFlit_size _ _ _ Hb). lia.
Qed.

Lemma ch_step_inv cfg my_id pipe c op c' :
  ch_inv c -> ch_step cfg my_id pipe c op = Ok c' -> ch_inv c'.
Proof.
  intros Hc H. pose proof Hc as (Hlen & HQ & HL & Hinv).
  destruct op as [vc f| |cyc|rand cyc|vc free cyc|cyc|cyc]; cbn [ch_step] in H.
  - apply res_bind_Ok_inv in H as (s & Hs & H). destruct (ov_has_credit s) eqn:Hcr; [| by injection H as <-].
    unfold ov_has_credit in Hcr. b2p. apply res_bind_Ok_inv in H as (out & Ho & H). injection H as <-.
    apply ou_upd_vc_spec in Ho as (s0 & s1 & Hs0 & Hd & Hb & Hl & Hg & Hn).
    rewrite Hs in Hs0. injection Hs0 as <-. unfold ov_decrement_credit in Hd.
    apply res_bind_Ok_inv in Hd as (? & _ & Hd). injection Hd as <-.
    unfold ch_inv, in_flight in *. cbn [setf ch_out ch_clink ch_in ch_switch ch_link].
    rewrite Hl, Hb. split_and!; try done. intros v s' Hs'. rewrite cnt_insert. cbn [setf m_vc].
    destruct (decide (vc = v)) as [->|Hne].
    + rewrite Hg in Hs'. injection Hs' as <-. cbn [setf m_credit_count m_max_credit_count].
      specialize (Hinv _ _ Hs). lia.
    + rewrite Hn in Hs' by congruence. specialize (Hinv _ _ Hs'). lia.
  - apply res_bind_Ok_inv in H as ([b f] & Hg & H). injection H as <-.
    unfold ch_inv, in_flight in *. cbn [setf ch_out ch_clink ch_in ch_switch ch_link insert_flit fst snd outVcState outBuffer].
    split_and!; try done. intros v s Hs. specialize (Hinv v s Hs).
    rewrite (cnt_top v _ _ _ Hg) in Hinv. rewrite cnt_insert. lia.
  - apply res_bind_Ok_inv in H as ([[l src] ev] & Hw & H). injection H as <-.
    apply NetworkLink_wakeup_spec in Hw as [Hcnt _].
    unfold ch_inv, in_flight in *. cbn [setf ch_out ch_clink ch_in ch_switch ch_link fst snd outVcState outBuffer].
    split_and!; try done. intros v s Hs. specialize (Hinv v s Hs). specialize (Hcnt v). lia.
  - apply res_bind_Ok_inv in H as ([[[u ru] l] ev] & Hw & H). injection H as <-.
    apply InputUnit_wakeup_spec in Hw as (HcQ & Hvl & Hcnt).
    unfold ch_inv, in_flight in *. cbn [setf ch_out ch_clink ch_in ch_switch ch_link ch_ru fst snd].
    rewrite HcQ. split_and!; try done; [congruence |]. intros v s Hs. specialize (Hinv v s Hs).
    pose proof (vget_range _ _ _ Hs). specialize (Hcnt v ltac:(lia)). lia.
  - apply res_bind_Ok_inv in H as ([u f] & Hg & H). injection H as <-.
    apply iu_getTopFlit_spec in Hg as (HcQ & Hvl & Hr & Hcnt).
    unfold ch_inv, in_flight in *.
    cbn [setf ch_out ch_clink ch_in ch_switch ch_link fst snd iu_increment_credit creditQueue virtualChannels].
    rewrite HcQ. split_and!; try done; [congruence | |].
    + rewrite fb_insert_perm. apply Forall_cons. split; [| done].
      split; [cbn [Credit_ctor m_vc]; lia | by eexists].
    + intros v s Hs. specialize (Hinv v s Hs). pose proof (vget_range _ _ _ Hs).
      rewrite Hcnt in Hinv by lia. rewrite cnt_insert. cbn [Credit_ctor m_vc]. lia.
  - apply res_bind_Ok_inv in H as ([[l src] ev] & Hw & H). injection H as <-.
    apply NetworkLink_wakeup_spec in Hw as [Hcnt HP].
    destruct (HP (is_credit (Z.of_nat (length (outVcState (ch_out c)))))) as [HQ' HL']; [done | done | done |].
    unfold ch_inv, in_flight in *. cbn [setf ch_out ch_clink ch_in ch_switch ch_link fst snd creditQueue virtualChannels].
    split_and!; try done. intros v s Hs. specialize (Hinv v s Hs). specialize (Hcnt v). lia.
  - destruct (OutputUnit_wakeup_spec c cyc Hc) as (out & cl & Hw & Hi). rewrite Hw in H. rsimpl in *.
    by injection H as <-.
Qed.

Lemma ch_run_inv cfg my_id pipe c ops c' : ch_inv c -> ch_run cfg my_id pipe c ops = Ok c' -> ch_inv c'.
Proof. intros Hc. apply (foldM_inv ch_inv); [done |]. intros c1 op c2 _. apply ch_step_inv. Qed.

(** A channel as [Router::addOutPort] and [addInPort] set it up: all credits
    at the sender, nothing in flight. *)
Definition ch_init (out : OutputUnit) (inp : InputUnit) (ru : RoutingUnit) (link clink : NetworkLink) : channel :=
  {| ch_switch := flitBuffer_ctor; ch_out := out; ch_link := link; ch_in := inp; ch_ru := ru; ch_clink := clink |}.

Lemma OutVcState_ctor_full cfg i s : OutVcState_ctor cfg i = Ok s ->
  1 <= m_credit_count s /\ m_credit_count s = m_max_credit_count s /\ ov_state s = IDLE_.
Proof.
  unfold OutVcState_ctor. intros H. inv_res. subst s. b2p. done.
Qed.

Definition full_credits (s : OutVcState) : Prop :=
  1 <= m_credit_count s /\ m_credit_count s = m_max_credit_count s /\ ov_state s = IDLE_.

Lemma OutVcStates_full cfg n ovs :
  0 <= n -> foldM (fun l i => s ← OutVcState_ctor cfg i; Ok (l ++ [s])) (upto n) [] = Ok ovs ->
  Z.of_nat (length ovs) = n /\ Forall full_credits ovs.
Proof.
  intros Hn. unfold upto.
  assert (forall m k l, Z.of_nat (length l) = k -> Forall full_credits l ->
    foldM (fun l i => s ← OutVcState_ctor cfg i; Ok (l ++ [s])) (seqZ k (Z.of_nat m)) l = Ok ovs ->
    Z.of_nat (length ovs) = k + Z.of_nat m /\ Forall full_credits ovs) as Haux.
  { induction m as [|m IH]; intros k l Hk Hf H.
    - injection H as <-. split; [lia | done].
    - rewrite seqZ_cons in H by lia. cbn [foldM] in H. apply res_bind_Ok_inv in H as (l1 & H1 & H2).
      apply res_bind_Ok_inv in H1 as (s & Hs & H1). injection H1 as <-.
      replace (Z.pred (Z.of_nat (S m))) with (Z.of_nat m) in H2 by lia.
      apply IH in H2 as [Hlen Hf']; [split; [lia | done] | rewrite length_app; cbn [length]; lia |].
      apply Forall_app. split; [done |]. apply Forall_singleton. by apply (OutVcState_ctor_full cfg k). }
  intros H. specialize (Haux (Z.to_nat n) 0 []). rewrite Z2Nat.id in Haux by done.
  destruct Haux as [? ?]; [done | constructor | done | split; [lia | done]].
Qed.

Lemma vclen_fresh n v : vclen (replicate n VirtualChannel_ctor) v = 0.
Proof.
  unfold vclen. destruct (replicate n VirtualChannel_ctor !! Z.to_nat v) eqn:E; [| done].
  apply lookup_replicate in E as [-> _]. done.
Qed.

Lemma ch_init_inv cfg id id' dirn dirn' num_vcs vpv out ru link clink :
  0 <= num_vcs -> OutputUnit_ctor cfg id dirn num_vcs vpv = Ok out ->
  linkBuffer link = flitBuffer_ctor -> linkBuffer clink = flitBuffer_ctor ->
  ch_inv (ch_init out (InputUnit_ctor id' dirn' num_vcs vpv) ru link clink).
Proof.
  intros Hn Ho Hl Hcl. unfold OutputUnit_ctor in Ho. apply res_bind_Ok_inv in Ho as (ovs & Hovs & Ho).
  injection Ho as <-. apply OutVcStates_full in Hovs as [Hlen Hf]; [| done].
  unfold ch_inv, in_flight, ch_init.
  cbn [ch_out ch_clink ch_in ch_switch ch_link outVcState outBuffer InputUnit_ctor creditQueue virtualChannels].
  rewrite Hl, Hcl, length_replicate. split_and!; [lia | constructor | constructor |].
  intros v s Hs. rewrite vclen_fresh. unfold cnt. cbn [flitBuffer_ctor m_buffer filter list_filter length].
  apply vget_Ok in Hs as [_ Hs]. rewrite Forall_lookup in Hf. destruct (Hf _ _ Hs) as (? & ? & _). cbn. lia.
Qed.

(** C1.  Credit-based flow control is sound.  From a freshly connected
    channel, over any interleaving of sends with credit, crossbar and link
    traversals, arrivals, grants and credit returns: for every VC the sender's
    credits plus everything in flight (flits on the way, flits buffered,
    credits on the way back) is the VC's buffer size; so no input VC ever
    holds more flits than it has buffers, the assertions of
    [increment_credit] and [decrement_credit] never fail, and a VC whose
    buffer and credits have all drained has all its credits back. *)
Theorem credit_flow_control cfg my_id pipe id id' dirn dirn' num_vcs vpv out ru link clink ops c :
  0 <= num_vcs -> OutputUnit_ctor cfg id dirn num_vcs vpv = Ok out ->
  linkBuffer link = flitBuffer_ctor -> linkBuffer clink = flitBuffer_ctor ->
  ch_run cfg my_id pipe (ch_init out (InputUnit_ctor id' dirn' num_vcs vpv) ru link clink) ops = Ok c ->
  (forall v s, vget (outVcState (ch_out c)) v = Ok s ->
     0 <= m_credit_count s /\ m_credit_count s + in_flight c v = m_max_credit_count s /\
     vclen (virtualChannels (ch_in c)) v <= m_max_credit_count s /\
     (ov_has_credit s = true -> is_ok (ou_decrement_credit (ch_out c) v)) /\
     (in_flight c v = 0 -> m_credit_count s = m_max_credit_count s)) /\
  (forall cyc, is_ok (OutputUnit_wakeup cyc (ch_out c) (ch_clink c))).
Proof.
  intros Hn Ho Hl Hcl H. apply ch_run_inv in H; [| by eapply ch_init_inv]. split.
  - intros v s Hs. pose proof H as (_ & _ & _ & Hinv). destruct (Hinv v s Hs) as [Hnn Hsum].
    split_and!; try done; try lia.
    + unfold in_flight in Hsum.
      pose proof (cnt_nonneg v (m_buffer (ch_switch c))). pose proof (cnt_nonneg v (m_buffer (outBuffer (ch_out c)))).
      pose proof (cnt_nonneg v (m_buffer (linkBuffer (ch_link c)))). pose proof (cnt_nonneg v (m_buffer (creditQueue (ch_in c)))).
      pose proof (cnt_nonneg v (m_buffer (linkBuffer (ch_clink c)))). lia.
    + intros Hc. unfold ov_has_credit in Hc. b2p. eapply ou_upd_vc_ok; [exact Hs |].
      unfold ov_decrement_credit. cbn [setf m_credit_count].
      by rewrite (proj2 (Z.leb_le 0 (m_credit_count s - 1))) by lia.
  - intros cyc. destruct (OutputUnit_wakeup_spec c cyc H) as (o & l & Hw & _). by eexists.
Qed.

Definition demo_out : res OutputUnit := OutputUnit_ctor demo_cfg 0 "East" 6 2.
Definition demo_link (id : Z) : NetworkLink := setLinkConsumer (NetworkLink_ctor id 1 2 3) 1.
Definition demo_head : flit :=
  flit_ctor 0 4 2 (no_route ⟨ dest_router := 1 ⟩) 1 (Message_ctor 0 [] Data 5) 3.
Definition demo_events : list ch_op :=
  [CSend 4 demo_head; CTraverse; CLink 4; CArrive 0 5; CGrant 4 true 6; CCreditLink 7; CCredit 8].

Lemma credit_flow_control_witness :
  exists out c, demo_out = Ok out /\
  ch_run demo_cfg 0 1 (ch_init out (InputUnit_ctor 0 "Local" 6 2) RoutingUnit_ctor (demo_link 0) (demo_link 1))
    demo_events = Ok c /\
  (forall v s, vget (outVcState (ch_out c)) v = Ok s ->
     0 <= m_credit_count s /\ m_credit_count s + in_flight c v = m_max_credit_count s /\
     vclen (virtualChannels (ch_in c)) v <= m_max_credit_count s /\
     (ov_has_credit s = true -> is_ok (ou_decrement_credit (ch_out c) v)) /\
     (in_flight c v = 0 -> m_credit_count s = m_max_credit_count s)) /\
  (forall cyc, is_ok (OutputUnit_wakeup cyc (ch_out c) (ch_clink c))).
Proof.
  do 2 eexists. split; [vm_compute; reflexivity |]. split; [vm_compute; reflexivity |].
  eapply (credit_flow_control demo_cfg 0 1 0 0 "East" "Local" 6 2 _ RoutingUnit_ctor (demo_link 0) (demo_link 1) demo_events);
    [done | vm_compute; reflexivity | done | done | vm_compute; reflexivity].
Defined.
