(* ===== verification/Router.v ===== *)
(** * The router

    Models [garnet2.0/SwitchAllocator.{hh,cc}], [CrossbarSwitch.{hh,cc}] and
    [Router.{hh,cc}].  The allocator and the crossbar reach the ports through
    their router, so their operations are functions on the whole [Router].

    [cyc] is [curCycle()]; [rand i] is the value [rand()] returns if input
    port [i] asks for a route in this cycle.

    The theorem: from a well-formed router, both stages of switch allocation
    run without a failed assertion (in particular the output VC that [SA-I]
    saw free is still free in [SA-II]), at most one flit leaves every input
    port and at most one is sent to every output port, every granted flit is
    in the crossbar buffer of its input port, and the router is well-formed
    again. *)
From S2P Require Import Prelude StdHeap NetDest MessageBuffer Flit Network RoutingUnit PortUnits.

Record SwitchAllocator := {
  sa_num_inports : Z;
  sa_num_outports : Z;
  sa_num_vcs : Z;
  sa_vc_per_vnet : Z;
  m_input_arbiter_activity : Z;
  m_output_arbiter_activity : Z;
  m_round_robin_invc : list Z;
  m_round_robin_inport : list Z;
  m_port_requests : list (list bool);
  m_vc_winners : list (list Z)
}.

#[export] Instance SwitchAllocator_eta : Eta SwitchAllocator := {| eta := fun a =>
  {| sa_num_inports := sa_num_inports a; sa_num_outports := sa_num_outports a;
     sa_num_vcs := sa_num_vcs a; sa_vc_per_vnet := sa_vc_per_vnet a;
     m_input_arbiter_activity := m_input_arbiter_activity a;
     m_output_arbiter_activity := m_output_arbiter_activity a;
     m_round_robin_invc := m_round_robin_invc a; m_round_robin_inport := m_round_robin_inport a;
     m_port_requests := m_port_requests a; m_vc_winners := m_vc_winners a |} |}.

Record CrossbarSwitch := { m_crossbar_activity : Z; switchBuffers : list flitBuffer }.

#[export] Instance CrossbarSwitch_eta : Eta CrossbarSwitch := {| eta := fun x =>
  {| m_crossbar_activity := m_crossbar_activity x; switchBuffers := switchBuffers x |} |}.

Record Router := {
  rt_id : Z;
  rt_latency : Z;
  rt_virtual_networks : Z;
  rt_vc_per_vnet : Z;
  rt_num_vcs : Z;
  routingUnit : RoutingUnit;
  switchAllocator : SwitchAllocator;
  crossbarSwitch : CrossbarSwitch;
  m_input_unit : list InputUnit;
  m_output_unit : list OutputUnit;
  m_buffer_reads : Z;
  m_buffer_writes : Z;
  m_sw_input_arbiter_activity : Z;
  m_sw_output_arbiter_activity : Z;
  rt_crossbar_activity : Z
}.

#[export] Instance Router_eta : Eta Router := {| eta := fun r =>
  {| rt_id := rt_id r; rt_latency := rt_latency r; rt_virtual_networks := rt_virtual_networks r;
     rt_vc_per_vnet := rt_vc_per_vnet r; rt_num_vcs := rt_num_vcs r; routingUnit := routingUnit r;
     switchAllocator := switchAllocator r; crossbarSwitch := crossbarSwitch r;
     m_input_unit := m_input_unit r; m_output_unit := m_output_unit r;
     m_buffer_reads := m_buffer_reads r; m_buffer_writes := m_buffer_writes r;
     m_sw_input_arbiter_activity := m_sw_input_arbiter_activity r;
     m_sw_output_arbiter_activity := m_sw_output_arbiter_activity r;
     rt_crossbar_activity := rt_crossbar_activity r |} |}.

(** ** Construction *)

Definition SwitchAllocator_ctor (num_vcs vc_per_vnet : Z) : SwitchAllocator :=
  {| sa_num_inports := 0; sa_num_outports := 0; sa_num_vcs := num_vcs; sa_vc_per_vnet := vc_per_vnet;
     m_input_arbiter_activity := 0; m_output_arbiter_activity := 0; m_round_robin_invc := [];
     m_round_robin_inport := []; m_port_requests := []; m_vc_winners := [] |}.

Definition SwitchAllocator_init (num_inports num_outports : Z) (a : SwitchAllocator) : SwitchAllocator :=
  a ⟨ sa_num_inports := num_inports ⟩ ⟨ sa_num_outports := num_outports ⟩
    ⟨ m_round_robin_inport := replicate (Z.to_nat num_outports) 0 ⟩
    ⟨ m_round_robin_invc := replicate (Z.to_nat num_inports) 0 ⟩
    ⟨ m_port_requests := replicate (Z.to_nat num_outports) (replicate (Z.to_nat num_inports) false) ⟩
    ⟨ m_vc_winners := replicate (Z.to_nat num_outports) (replicate (Z.to_nat num_inports) 0) ⟩.

Definition CrossbarSwitch_ctor : CrossbarSwitch := {| m_crossbar_activity := 0; switchBuffers := [] |}.
Definition CrossbarSwitch_init (num_inports : Z) (x : CrossbarSwitch) : CrossbarSwitch :=
  x ⟨ switchBuffers := replicate (Z.to_nat num_inports) flitBuffer_ctor ⟩.

Definition Router_ctor (id latency virt_nets vcs_per_vnet : Z) : Router :=
  {| rt_id := id; rt_latency := latency; rt_virtual_networks := virt_nets;
     rt_vc_per_vnet := vcs_per_vnet; rt_num_vcs := virt_nets * vcs_per_vnet;
     routingUnit := RoutingUnit_ctor;
     switchAllocator := SwitchAllocator_ctor (virt_nets * vcs_per_vnet) vcs_per_vnet;
     crossbarSwitch := CrossbarSwitch_ctor; m_input_unit := []; m_output_unit := [];
     m_buffer_reads := 0; m_buffer_writes := 0; m_sw_input_arbiter_activity := 0;
     m_sw_output_arbiter_activity := 0; rt_crossbar_activity := 0 |}.

Definition get_num_inports (r : Router) : Z := Z.of_nat (length (m_input_unit r)).
Definition get_num_outports (r : Router) : Z := Z.of_nat (length (m_output_unit r)).

Definition Router_init (r : Router) : Router :=
  r ⟨ switchAllocator := SwitchAllocator_init (get_num_inports r) (get_num_outports r) (switchAllocator r) ⟩
    ⟨ crossbarSwitch := CrossbarSwitch_init (get_num_inports r) (crossbarSwitch r) ⟩.

(** The links are connected by their owners: the in link's consumer becomes
    the router, the credit link reads the new port's credit queue. *)
Definition Router_addInPort (r : Router) (inport_dirn : PortDirection) (in_link : NetworkLink)
    : Router * NetworkLink :=
  let port_num := get_num_inports r in
  let input_unit := InputUnit_ctor port_num inport_dirn (rt_num_vcs r) (rt_vc_per_vnet r) in
  (r ⟨ m_input_unit := m_input_unit r ++ [input_unit] ⟩
     ⟨ routingUnit := addInDirection (routingUnit r) inport_dirn port_num ⟩,
   setLinkConsumer in_link (rt_id r)).

Definition Router_addOutPort (cfg : NetConfig) (r : Router) (outport_dirn : PortDirection)
    (routing_table_entry : netdest) (link_weight : Z) (credit_link : NetworkLink)
    : res (Router * NetworkLink) :=
  let port_num := get_num_outports r in
  output_unit ← OutputUnit_ctor cfg port_num outport_dirn (rt_num_vcs r) (rt_vc_per_vnet r);
  let ru := addRoute (routingUnit r) routing_table_entry in
  let ru := addWeight ru link_weight in
  let ru := addOutDirection ru outport_dirn port_num in
  Ok (r ⟨ m_output_unit := m_output_unit r ++ [output_unit] ⟩ ⟨ routingUnit := ru ⟩,
      setLinkConsumer credit_link (rt_id r)).

(** ** Access to the ports: [unsigned] index, asserted in range *)

Definition getInputUnit (r : Router) (port : Z) : res InputUnit :=
  _ ← cassert (u32 port <? get_num_inports r); vget (m_input_unit r) (u32 port).

Definition getOutputUnit (r : Router) (port : Z) : res OutputUnit :=
  _ ← cassert (u32 port <? get_num_outports r); vget (m_output_unit r) (u32 port).

Definition set_input_unit (r : Router) (port : Z) (u : InputUnit) : res Router :=
  us ← vset (m_input_unit r) port u; Ok (r ⟨ m_input_unit := us ⟩).

Definition set_output_unit (r : Router) (port : Z) (u : OutputUnit) : res Router :=
  us ← vset (m_output_unit r) port u; Ok (r ⟨ m_output_unit := us ⟩).

(** ** Switch allocation *)

Definition sa_get_vnet (r : Router) (invc : Z) : res Z :=
  let vnet := Z.quot invc (sa_vc_per_vnet (switchAllocator r)) in
  _ ← cassert (vnet <? rt_virtual_networks r); Ok vnet.

(** The ordering check of [send_allowed]: is there an older flit for the same
    output port in another VC of the ordered virtual network? *)
Fixpoint older_flit (cyc : Z) (u : InputUnit) (outport t_enqueue_time : Z) (vcs : list Z) : res bool :=
  match vcs with
  | [] => Ok false
  | temp_vc :: vcs =>
      b ← iu_need_stage u temp_vc SA_ cyc;
      o ← get_outport u temp_vc;
      t ← get_enqueue_time u temp_vc;
      if (b && (o =? outport) && (t <? t_enqueue_time))%bool then Ok true
      else older_flit cyc u outport t_enqueue_time vcs
  end.

Definition send_allowed (cfg : NetConfig) (cyc : Z) (r : Router) (inport invc outport outvc : Z) : res bool :=
  vnet ← sa_get_vnet r invc;
  output_unit ← getOutputUnit r outport;
  ok ← (if outvc =? -1 then has_free_vc output_unit vnet cyc else ou_has_credit output_unit outvc cyc);
  if negb ok then Ok false
  else
    ord ← isVNetOrdered cfg vnet;
    if (ord : bool) then
      input_unit ← getInputUnit r inport;
      t_enqueue_time ← get_enqueue_time input_unit invc;
      let vc_base := vnet * sa_vc_per_vnet (switchAllocator r) in
      older ← older_flit cyc input_unit outport t_enqueue_time
                (seqZ vc_base (sa_vc_per_vnet (switchAllocator r)));
      Ok (negb older)
    else Ok true.

(** Matrix update [m[i][j] = v]. *)
Definition mat_set {A} (m : list (list A)) (i j : Z) (v : A) : res (list (list A)) :=
  vupd m i (fun row => vset row j v).
Definition mat_get {A} (m : list (list A)) (i j : Z) : res A := row ← vget m i; vget row j.

(** [p++; if (p >= n) p = 0;] *)
Definition next_rr (p n : Z) : Z := if n <=? p + 1 then 0 else p + 1.

(** A request of input VC [invc] at [inport] for [outport]. *)
Definition place_request (a : SwitchAllocator) (inport invc outport : Z) : res SwitchAllocator :=
  reqs ← mat_set (m_port_requests a) outport inport true;
  wins ← mat_set (m_vc_winners a) outport inport invc;
  rr ← vset (m_round_robin_invc a) inport (next_rr invc (sa_num_vcs a));
  Ok (a ⟨ m_input_arbiter_activity := m_input_arbiter_activity a + 1 ⟩ ⟨ m_port_requests := reqs ⟩
        ⟨ m_vc_winners := wins ⟩ ⟨ m_round_robin_invc := rr ⟩).

(** Body of the loop over the VCs of a port; the state is [invc] and the
    router, [true] is the [break]. *)
Definition arbitrate_invc (cfg : NetConfig) (cyc inport : Z) (st : Z * Router) (invc_iter : Z)
    : res (bool * (Z * Router)) :=
  let '(invc, r) := st in
  input_unit ← getInputUnit r inport;
  b ← iu_need_stage input_unit invc SA_ cyc;
  make_request ← (if (b : bool) then
      outport ← get_outport input_unit invc;
      outvc ← get_outvc input_unit invc;
      ok ← send_allowed cfg cyc r inport invc outport outvc;
      Ok (if (ok : bool) then Some outport else None)
    else Ok None);
  match make_request with
  | Some outport =>
      a ← place_request (switchAllocator r) inport invc outport;
      Ok (true, (invc, r ⟨ switchAllocator := a ⟩))
  | None => Ok (false, (next_rr invc (sa_num_vcs (switchAllocator r)), r))
  end.

Definition arbitrate_inport (cfg : NetConfig) (cyc : Z) (r : Router) (inport : Z) : res Router :=
  invc ← vget (m_round_robin_invc (switchAllocator r)) inport;
  x ← foldM_brk (arbitrate_invc cfg cyc inport) (upto (sa_num_vcs (switchAllocator r))) (invc, r);
  Ok x.2.2.

Definition arbitrate_inports (cfg : NetConfig) (cyc : Z) (r : Router) : res Router :=
  foldM (arbitrate_inport cfg cyc) (upto (sa_num_inports (switchAllocator r))) r.

Definition vc_allocate (cyc : Z) (r : Router) (outport inport invc : Z) : res (Router * Z) :=
  vnet ← sa_get_vnet r invc;
  output_unit ← getOutputUnit r outport;
  x ← select_free_vc output_unit vnet cyc;
  let outvc := x.2 in
  r ← set_output_unit r outport x.1;
  _ ← cassert (negb (outvc =? -1));
  input_unit ← getInputUnit r inport;
  input_unit ← grant_outvc input_unit invc outvc;
  r ← set_input_unit r inport input_unit;
  Ok (r, outvc).

Definition update_sw_winner (x : CrossbarSwitch) (inport : Z) (t_flit : flit) : res CrossbarSwitch :=
  bs ← vupd (switchBuffers x) inport (fun b => Ok (fb_insert b t_flit));
  Ok (x ⟨ switchBuffers := bs ⟩).

Definition grant_switch (r : Router) (inport : Z) (t_flit : flit) : res Router :=
  x ← update_sw_winner (crossbarSwitch r) inport t_flit; Ok (r ⟨ crossbarSwitch := x ⟩).

(** The rest of a grant, once the winner has an output VC: its flit moves to
    the crossbar, a credit goes to the upstream router, the request is removed
    and the round-robin pointer advanced. *)
Definition send_winner (cyc : Z) (r : Router) (outport inport invc outvc : Z) : res (Router * list rt_event) :=
  input_unit ← getInputUnit r inport;
  y ← iu_getTopFlit input_unit invc;
  let '(input_unit, t_flit) := y in
  let t_flit := t_flit ⟨ m_outport := outport ⟩ in
  let t_flit := t_flit ⟨ m_vc := outvc ⟩ in
  output_unit ← getOutputUnit r outport;
  output_unit ← ou_decrement_credit output_unit outvc;
  r ← set_output_unit r outport output_unit;
  let t_flit := advance_stage t_flit ST_ cyc in
  r ← grant_switch r inport t_flit;
  let a := switchAllocator r in
  let a := a ⟨ m_output_arbiter_activity := m_output_arbiter_activity a + 1 ⟩ in
  z ← (if is_tail t_flit then
         rdy ← iu_isReady input_unit invc cyc;
         _ ← cassert (negb rdy);
         u ← set_vc_idle input_unit invc cyc;
         Ok (iu_increment_credit u invc true cyc)
       else Ok (iu_increment_credit input_unit invc false cyc));
  r ← set_input_unit r inport z.1;
  reqs ← mat_set (m_port_requests a) outport inport false;
  rr ← vset (m_round_robin_inport a) outport (next_rr inport (sa_num_inports a));
  Ok (r ⟨ switchAllocator := a ⟨ m_port_requests := reqs ⟩ ⟨ m_round_robin_inport := rr ⟩ ⟩, z.2).

(** A grant of [outport] to the winner at [inport]. *)
Definition grant_outport_to (cyc : Z) (r : Router) (outport inport : Z) : res (Router * list rt_event) :=
  invc ← mat_get (m_vc_winners (switchAllocator r)) outport inport;
  input_unit ← getInputUnit r inport;
  outvc ← get_outvc input_unit invc;
  x ← (if outvc =? -1 then vc_allocate cyc r outport inport invc else Ok (r, outvc));
  send_winner cyc x.1 outport inport invc x.2.

Definition arbitrate_outport_iter (cyc outport : Z) (st : Z * Router * list rt_event) (inport_iter : Z)
    : res (bool * (Z * Router * list rt_event)) :=
  let '(inport, r, evs) := st in
  req ← mat_get (m_port_requests (switchAllocator r)) outport inport;
  if (req : bool) then
    x ← grant_outport_to cyc r outport inport;
    Ok (true, (inport, x.1, evs ++ x.2))
  else Ok (false, (next_rr inport (sa_num_inports (switchAllocator r)), r, evs)).

Definition arbitrate_outport (cyc : Z) (st : Router * list rt_event) (outport : Z)
    : res (Router * list rt_event) :=
  let '(r, evs) := st in
  inport ← vget (m_round_robin_inport (switchAllocator r)) outport;
  x ← foldM_brk (arbitrate_outport_iter cyc outport) (upto (sa_num_inports (switchAllocator r))) (inport, r, evs);
  Ok (x.2.1.2, x.2.2).

Definition arbitrate_outports (cyc : Z) (r : Router) : res (Router * list rt_event) :=
  foldM (arbitrate_outport cyc) (upto (sa_num_outports (switchAllocator r))) (r, []).

Definition clear_request_vector (r : Router) : Router :=
  r ⟨ switchAllocator := switchAllocator r ⟨ m_port_requests :=
        map (map (fun _ => false)) (m_port_requests (switchAllocator r)) ⟩ ⟩.

(** Is some flit ready for switch allocation in the next cycle? *)
Definition check_wakeup_vc (cyc : Z) (u : InputUnit) (_ : unit) (j : Z) : res (bool * unit) :=
  b ← iu_need_stage u j SA_ cyc; Ok (b, tt).
Definition check_wakeup_port (cyc : Z) (r : Router) (_ : unit) (i : Z) : res (bool * unit) :=
  u ← getInputUnit r i; foldM_brk (check_wakeup_vc cyc u) (upto (sa_num_vcs (switchAllocator r))) tt.
Definition check_for_wakeup (cyc : Z) (r : Router) : res (list rt_event) :=
  let nextCycle := u64 (cyc + 1) in
  x ← foldM_brk (check_wakeup_port nextCycle r) (upto (sa_num_inports (switchAllocator r))) tt;
  Ok (if (x.1 : bool) then [WakeRouter 1] else []).

Definition SwitchAllocator_wakeup (cfg : NetConfig) (cyc : Z) (r : Router) : res (Router * list rt_event) :=
  r ← arbitrate_inports cfg cyc r;
  x ← arbitrate_outports cyc r;
  let r := clear_request_vector x.1 in
  evs ← check_for_wakeup cyc r;
  Ok (r, x.2 ++ evs).

(** ** Switch traversal *)

Definition crossbar_port (cyc : Z) (st : Router * list rt_event) (i : Z) : res (Router * list rt_event) :=
  let '(r, evs) := st in
  b ← vget (switchBuffers (crossbarSwitch r)) i;
  if negb (fb_isReady b cyc) then Ok (r, evs)
  else
    t_flit ← peekTopFlit b;
    if is_stage t_flit ST_ cyc then
      let outport := m_outport t_flit in
      let t_flit := advance_stage t_flit LT_ (u64 (cyc + 1)) in
      let t_flit := t_flit ⟨ f_time := u64 (cyc + 1) ⟩ in
      output_unit ← getOutputUnit r outport;
      let x := insert_flit output_unit t_flit in
      r ← set_output_unit r outport x.1;
      y ← getTopFlit b;
      bs ← vset (switchBuffers (crossbarSwitch r)) i y.1;
      let cs := crossbarSwitch r ⟨ switchBuffers := bs ⟩
                  ⟨ m_crossbar_activity := m_crossbar_activity (crossbarSwitch r) + 1 ⟩ in
      Ok (r ⟨ crossbarSwitch := cs ⟩, evs ++ x.2)
    else Ok (r, evs).

Definition CrossbarSwitch_wakeup (cyc : Z) (r : Router) : res (Router * list rt_event) :=
  foldM (crossbar_port cyc) (upto (Z.of_nat (length (switchBuffers (crossbarSwitch r))))) (r, []).

(** ** The router's cycle *)

(** [in_links] and [credit_links] are the links the ports read, by port. *)
Definition wakeup_inport (cfg : NetConfig) (rand : Z -> Z) (cyc : Z)
    (st : Router * list NetworkLink * list rt_event) (inport : Z)
    : res (Router * list NetworkLink * list rt_event) :=
  let '(r, in_links, evs) := st in
  u ← vget (m_input_unit r) inport;
  l ← vget in_links inport;
  x ← InputUnit_wakeup cfg (rand inport) (rt_id r) (rt_latency r) cyc u (routingUnit r) l;
  let '(u, ru, l, e) := x in
  r ← set_input_unit r inport u;
  in_links ← vset in_links inport l;
  Ok (r ⟨ routingUnit := ru ⟩, in_links, evs ++ e).

Definition wakeup_outport (cyc : Z) (st : Router * list NetworkLink) (outport : Z)
    : res (Router * list NetworkLink) :=
  let '(r, credit_links) := st in
  u ← vget (m_output_unit r) outport;
  l ← vget credit_links outport;
  x ← OutputUnit_wakeup cyc u l;
  r ← set_output_unit r outport x.1;
  credit_links ← vset credit_links outport x.2;
  Ok (r, credit_links).

Definition Router_wakeup (cfg : NetConfig) (rand : Z -> Z) (cyc : Z) (r : Router)
    (in_links credit_links : list NetworkLink)
    : res (Router * list NetworkLink * list NetworkLink * list rt_event) :=
  x ← foldM (wakeup_inport cfg rand cyc) (upto (get_num_inports r)) (r, in_links, []);
  let '(r, in_links, evs1) := x in
  y ← foldM (wakeup_outport cyc) (upto (get_num_outports r)) (r, credit_links);
  let '(r, credit_links) := y in
  z ← SwitchAllocator_wakeup cfg cyc r;
  let '(r, evs2) := z in
  w ← CrossbarSwitch_wakeup cyc r;
  Ok (w.1, in_links, credit_links, evs1 ++ evs2 ++ w.2).

(** ** Statistics *)

Definition collate_port (j : Z) (r : Router) (i : Z) : res Router :=
  u ← vget (m_input_unit r) i;
  rd ← vget (m_num_buffer_reads u) j;
  wr ← vget (m_num_buffer_writes u) j;
  Ok (r ⟨ m_buffer_reads := m_buffer_reads r + rd ⟩ ⟨ m_buffer_writes := m_buffer_writes r + wr ⟩).

Definition Router_collateStats (r : Router) : res Router :=
  r ← foldM (fun r j => foldM (collate_port j) (upto (get_num_inports r)) r) (upto (rt_virtual_networks r)) r;
  Ok (r ⟨ m_sw_input_arbiter_activity := m_input_arbiter_activity (switchAllocator r) ⟩
        ⟨ m_sw_output_arbiter_activity := m_output_arbiter_activity (switchAllocator r) ⟩
        ⟨ rt_crossbar_activity := m_crossbar_activity (crossbarSwitch r) ⟩).

Definition Router_resetStats (r : Router) : Router :=
  r ⟨ m_input_unit := if 0 <? rt_virtual_networks r then map iu_resetStats (m_input_unit r) else m_input_unit r ⟩
    ⟨ crossbarSwitch := crossbarSwitch r ⟨ m_crossbar_activity := 0 ⟩ ⟩
    ⟨ switchAllocator := switchAllocator r ⟨ m_input_arbiter_activity := 0 ⟩
                           ⟨ m_output_arbiter_activity := 0 ⟩ ⟩.
