(* ===== verification/SwitchAllocation.v ===== *)
(** * Switch allocation is sound

    Well-formedness of a router between cycles ([router_ok]) and the proof
    that [SwitchAllocator_wakeup] of [Router.v] never fails an assertion from
    a well-formed router, keeps it well-formed, and grants every input and
    every output port to at most one flit. *)
From S2P Require Import Prelude StdHeap NetDest MessageBuffer Flit Network RoutingUnit PortUnits Router.

(** ** Well-formedness *)

Definition flit_lt (a b : flit) : Prop := flit_greater b a = true.

(** The flits of a VC are those of one packet, in order; a tail is the last. *)
Definition vc_order (b : flitBuffer) : Prop :=
  exists q, m_buffer b ≡ₚ q /\ StronglySorted flit_lt q /\
    forall k f, q !! k = Some f -> is_tail f = true -> S k = length q.

(** A VC that holds flits is active and routed; if it holds an output VC, that
    VC is active. *)
Definition vc_routed (cyc : Z) (outs : list OutputUnit) (v : VirtualChannel) : Prop :=
  m_buffer (inputBuffer v) <> [] ->
  (vc_state v).1 = ACTIVE_ /\ (vc_state v).2 <= cyc /\
  exists ou, vget outs (m_output_port v) = Ok ou /\
    (m_output_vc v = -1 \/
     exists s, vget (outVcState ou) (m_output_vc v) = Ok s /\ isInState s ACTIVE_ cyc = true).

Definition vc_ok (cyc : Z) (outs : list OutputUnit) (v : VirtualChannel) : Prop :=
  fb_ok (inputBuffer v) /\ vc_order (inputBuffer v) /\ vc_routed cyc outs v.

Definition iu_ok (cyc nvc : Z) (outs : list OutputUnit) (u : InputUnit) : Prop :=
  Z.of_nat (length (virtualChannels u)) = nvc /\
  forall j v, vget (virtualChannels u) j = Ok v -> vc_ok cyc outs v.

(** An idle output VC has a credit. *)
Definition ou_ok (nvc vpv : Z) (u : OutputUnit) : Prop :=
  Z.of_nat (length (outVcState u)) = nvc /\ ou_vc_per_vnet u = vpv /\
  forall j s, vget (outVcState u) j = Ok s -> ov_state s = IDLE_ -> 1 <= m_credit_count s.

Definition mat_shape {A} (n m : Z) (x : list (list A)) : Prop :=
  Z.of_nat (length x) = n /\ forall i row, vget x i = Ok row -> Z.of_nat (length row) = m.

Definition sa_ok (nin nout nvc vpv : Z) (a : SwitchAllocator) : Prop :=
  sa_num_inports a = nin /\ sa_num_outports a = nout /\ sa_num_vcs a = nvc /\ sa_vc_per_vnet a = vpv /\
  Z.of_nat (length (m_round_robin_invc a)) = nin /\ Z.of_nat (length (m_round_robin_inport a)) = nout /\
  (forall i p, vget (m_round_robin_invc a) i = Ok p -> 0 <= p < nvc) /\
  (forall o p, vget (m_round_robin_inport a) o = Ok p -> 0 <= p < nin) /\
  mat_shape nout nin (m_port_requests a) /\ mat_shape nout nin (m_vc_winners a).

Definition router_ok (cyc : Z) (r : Router) : Prop :=
  let nin := get_num_inports r in let nout := get_num_outports r in
  0 < nin < 2 ^ 32 /\ nout < 2 ^ 32 /\ 0 < rt_vc_per_vnet r /\
  rt_num_vcs r = rt_virtual_networks r * rt_vc_per_vnet r /\
  sa_ok nin nout (rt_num_vcs r) (rt_vc_per_vnet r) (switchAllocator r) /\
  Z.of_nat (length (switchBuffers (crossbarSwitch r))) = nin /\
  (forall i u, vget (m_input_unit r) i = Ok u -> iu_ok cyc (rt_num_vcs r) (m_output_unit r) u) /\
  (forall o u, vget (m_output_unit r) o = Ok u -> ou_ok (rt_num_vcs r) (rt_vc_per_vnet r) u).

Definition requested (r : Router) (o i : Z) : Prop :=
  mat_get (m_port_requests (switchAllocator r)) o i = Ok true.
Definition winner (r : Router) (o i invc : Z) : Prop :=
  mat_get (m_vc_winners (switchAllocator r)) o i = Ok invc.
Definition no_requests (r : Router) : Prop := forall o i, ~ requested r o i.

(** What [SA-I] checked of the VC it places a request for. *)
Definition req_ok (cyc : Z) (r : Router) (o i invc : Z) : Prop :=
  exists u v ou, vget (m_input_unit r) i = Ok u /\ vget (virtualChannels u) invc = Ok v /\
    vget (m_output_unit r) o = Ok ou /\ m_buffer (inputBuffer v) <> [] /\ m_output_port v = o /\
    ((m_output_vc v = -1 /\ has_free_vc ou (Z.quot invc (rt_vc_per_vnet r)) cyc = Ok true) \/
     (m_output_vc v <> -1 /\ exists s, vget (outVcState ou) (m_output_vc v) = Ok s /\ 0 < m_credit_count s)).

(** ** Ports and matrices *)

Lemma getInputUnit_ok r i u :
  get_num_inports r < 2 ^ 32 -> vget (m_input_unit r) i = Ok u -> getInputUnit r i = Ok u.
Proof.
  intros Hn Hu. pose proof (vget_range _ _ _ Hu). unfold getInputUnit, get_num_inports in *.
  rewrite u32_id by (unfold in_u32; lia). by rewrite (proj2 (Z.ltb_lt i _)) by lia.
Qed.

Lemma getOutputUnit_ok r o u :
  get_num_outports r < 2 ^ 32 -> vget (m_output_unit r) o = Ok u -> getOutputUnit r o = Ok u.
Proof.
  intros Hn Hu. pose proof (vget_range _ _ _ Hu). unfold getOutputUnit, get_num_outports in *.
  rewrite u32_id by (unfold in_u32; lia). by rewrite (proj2 (Z.ltb_lt o _)) by lia.
Qed.

Lemma mat_get_ok {A} n m (x : list (list A)) i j :
  mat_shape n m x -> 0 <= i < n -> 0 <= j < m -> exists v, mat_get x i j = Ok v.
Proof.
  intros [Hn Hm] Hi Hj. unfold mat_get. destruct (vget_is_ok x i) as [row Hr]; [lia |]. rewrite Hr. rsimpl.
  apply vget_is_ok. rewrite (Hm i row Hr). lia.
Qed.

Lemma mat_get_range {A} n m (x : list (list A)) i j v :
  mat_shape n m x -> mat_get x i j = Ok v -> 0 <= i < n /\ 0 <= j < m.
Proof.
  intros [Hn Hm] H. apply res_bind_Ok_inv in H as (row & Hr & Hv).
  pose proof (vget_range _ _ _ Hr). pose proof (vget_range _ _ _ Hv). rewrite (Hm _ _ Hr) in *. lia.
Qed.

Lemma mat_set_ok {A} n m (x : list (list A)) i j (v : A) :
  mat_shape n m x -> 0 <= i < n -> 0 <= j < m ->
  exists x', mat_set x i j v = Ok x' /\ mat_shape n m x' /\ mat_get x' i j = Ok v /\
    forall i' j', (i', j') <> (i, j) -> mat_get x' i' j' = mat_get x i' j'.
Proof.
  intros [Hn Hm] Hi Hj. unfold mat_set, vupd. destruct (vget_is_ok x i) as [row Hr]; [lia |]. rewrite Hr. rsimpl.
  pose proof (Hm _ _ Hr) as Hrow. destruct (vset_is_ok row j v) as [row' Hr']; [lia |]. rewrite Hr'. rsimpl.
  destruct (vset_is_ok x i row') as [x' Hx']; [lia |]. exists x'. split; [done |]. split_and!.
  - split; [by rewrite (vset_length _ _ _ _ Hx') |]. intros i' row1 H1. destruct (decide (i = i')) as [<-|Hne].
    + rewrite (vset_get_eq _ _ _ _ Hx') in H1. injection H1 as <-. by rewrite (vset_length _ _ _ _ Hr').
    + rewrite (vset_get_ne _ _ _ _ _ Hx' Hne) in H1. by eapply Hm.
  - unfold mat_get. rewrite (vset_get_eq _ _ _ _ Hx'). rsimpl. by eapply vset_get_eq.
  - intros i' j' Hne. unfold mat_get. destruct (decide (i = i')) as [<-|Hni].
    + rewrite (vset_get_eq _ _ _ _ Hx'), Hr. rsimpl. apply (vset_get_ne _ _ _ _ _ Hr'). congruence.
    + by rewrite (vset_get_ne _ _ _ _ _ Hx' Hni).
Qed.

Lemma next_rr_range p n : 0 <= p < n -> 0 <= next_rr p n < n.
Proof. unfold next_rr. intros H. destruct (n <=? p + 1) eqn:E; b2p; lia. Qed.

(** ** Virtual channels *)

Lemma need_stage_ok cyc cyc' outs v st :
  vc_ok cyc outs v -> cyc <= cyc' ->
  exists b, need_stage v st cyc' = Ok b /\ (b = true -> m_buffer (inputBuffer v) <> []).
Proof.
  intros (_ & _ & Hr) Hle. unfold need_stage. destruct (fb_isReady (inputBuffer v) cyc') eqn:E; [| by eexists].
  unfold fb_isReady in E. destruct (m_buffer (inputBuffer v)) as [|f l] eqn:Eb; [done |].
  destruct Hr as (Hs & Ht & _); [by rewrite Eb |]. rewrite bool_decide_eq_true_2 by done.
  rewrite (proj2 (Z.leb_le _ _)) by lia. rsimpl. unfold peekTopFlit. rewrite Eb. cbn [vfront]. rsimpl.
  by eexists.
Qed.

Lemma iu_need_stage_ok cyc cyc' nvc outs u j st :
  iu_ok cyc nvc outs u -> cyc <= cyc' -> 0 <= j < nvc ->
  exists v b, vget (virtualChannels u) j = Ok v /\ vc_ok cyc outs v /\ iu_need_stage u j st cyc' = Ok b /\
    (b = true -> m_buffer (inputBuffer v) <> []).
Proof.
  intros [Hl Hv] Hle Hj. destruct (vget_is_ok (virtualChannels u) j) as [v Hg]; [lia |].
  destruct (need_stage_ok cyc cyc' outs v st (Hv j v Hg) Hle) as (b & Hb & Hne).
  exists v, b. unfold iu_need_stage. rewrite Hg. rsimpl. split_and!; try done. by eapply Hv.
Qed.

Lemma older_flit_ok cyc nvc outs u outport t vcs :
  iu_ok cyc nvc outs u -> Forall (fun j => 0 <= j < nvc) vcs ->
  exists b, older_flit cyc u outport t vcs = Ok b.
Proof.
  intros Hu. induction 1 as [|j vcs Hj Hvcs IH]; [by eexists |]. cbn [older_flit].
  destruct (iu_need_stage_ok cyc cyc nvc outs u j SA_ Hu ltac:(lia) Hj) as (v & b & Hg & _ & -> & _). rsimpl.
  unfold get_outport, get_enqueue_time. rewrite Hg. rsimpl. destruct (_ && _ && _)%bool; [by eexists | done].
Qed.

Lemma vnet_range r invc :
  0 < rt_vc_per_vnet r -> rt_num_vcs r = rt_virtual_networks r * rt_vc_per_vnet r -> 0 <= invc < rt_num_vcs r ->
  0 <= Z.quot invc (rt_vc_per_vnet r) < rt_virtual_networks r.
Proof.
  intros Hp Hn Hi. rewrite Z.quot_div_nonneg by lia. split; [apply Z.div_pos; lia |].
  apply Z.div_lt_upper_bound; lia.
Qed.

(** The VCs of a virtual network of the router exist. *)
Lemma vnet_vcs r vnet :
  0 < rt_vc_per_vnet r -> rt_num_vcs r = rt_virtual_networks r * rt_vc_per_vnet r ->
  0 <= vnet < rt_virtual_networks r ->
  Forall (fun j => 0 <= j < rt_num_vcs r) (seqZ (vnet * rt_vc_per_vnet r) (rt_vc_per_vnet r)).
Proof. intros Hp Hn Hv. rewrite Forall_forall. intros j Hj%elem_of_seqZ. nia. Qed.

Lemma has_free_vc_ok nvc vpv u cyc vcs :
  ou_ok nvc vpv u -> Forall (fun j => 0 <= j < nvc) vcs ->
  exists b, has_free_vc_loop u cyc vcs = Ok b.
Proof.
  intros [Hl _]. induction 1 as [|j vcs Hj Hvcs IH]; [by eexists |]. cbn [has_free_vc_loop].
  unfold is_vc_idle. destruct (vget_is_ok (outVcState u) j) as [s ->]; [lia |]. rsimpl.
  destruct (isInState s IDLE_ cyc); [by eexists | done].
Qed.

(** [has_free_vc] and [select_free_vc] agree: a VC reported free is found,
    becomes active and keeps its credits; nothing else changes. *)
Lemma select_free_vc_found nvc vpv u cyc vcs :
  ou_ok nvc vpv u -> Forall (fun j => 0 <= j < nvc) vcs -> has_free_vc_loop u cyc vcs = Ok true ->
  exists u' vc s, select_free_vc_loop u cyc vcs = Ok (u', vc) /\ vc ∈ vcs /\ 0 <= vc < nvc /\
    vget (outVcState u) vc = Ok s /\ isInState s IDLE_ cyc = true /\
    outBuffer u' = outBuffer u /\ ou_vc_per_vnet u' = ou_vc_per_vnet u /\ ou_id u' = ou_id u /\
    vset (outVcState u) vc (setState s ACTIVE_ cyc) = Ok (outVcState u').
Proof.
  intros [Hl _] Hvcs. induction Hvcs as [|j vcs Hj Hvcs IH]; [done |].
  cbn [has_free_vc_loop select_free_vc_loop]. unfold is_vc_idle.
  destruct (vget_is_ok (outVcState u) j) as [s Hs]; [lia |]. rewrite Hs. rsimpl.
  destruct (isInState s IDLE_ cyc) eqn:Ei.
  2: { intros Hb. destruct (IH Hb) as (u' & vc & s' & Hl' & Hin & Hrest). exists u', vc, s'.
    split; [exact Hl' |]. split; [by right | exact Hrest]. }
  intros _.
  unfold set_vc_state, ou_upd_vc, vupd. rewrite Hs. rsimpl.
  destruct (vset_is_ok (outVcState u) j (setState s ACTIVE_ cyc)) as [l Hset]; [lia |]. rewrite Hset. rsimpl.
  exists (u ⟨ outVcState := l ⟩), j, s. cbn [setf outVcState outBuffer ou_vc_per_vnet ou_id].
  split_and!; try done; [left | lia | lia].
Qed.

Lemma send_allowed_ok cfg cyc r i u v invc :
  router_ok cyc r -> Z.of_nat (length (m_ordered (cfg_net cfg))) = rt_virtual_networks r ->
  vget (m_input_unit r) i = Ok u -> vget (virtualChannels u) invc = Ok v ->
  m_buffer (inputBuffer v) <> [] ->
  exists b, send_allowed cfg cyc r i invc (m_output_port v) (m_output_vc v) = Ok b /\
    (b = true -> req_ok cyc r (m_output_port v) i invc).
Proof.
  intros (Hin & Hout & Hp & Hn & Hsa & _ & Hius & Hous) Hord Hu Hv Hne.
  pose proof (Hius i u Hu) as Hiu. destruct Hiu as [Hlen Hvcs]. pose proof (vget_range _ _ _ Hv) as Hr.
  destruct (Hvcs invc v Hv) as (_ & _ & Hrt). destruct (Hrt Hne) as (_ & _ & ou & Hou & Hovc).
  pose proof (vnet_range r invc Hp Hn ltac:(lia)) as Hvn. destruct Hsa as (_ & _ & _ & Hvpv & _).
  unfold send_allowed, sa_get_vnet. rewrite Hvpv. rewrite (proj2 (Z.ltb_lt _ _)) by lia. rsimpl.
  rewrite (getOutputUnit_ok r _ ou ltac:(lia) Hou). rsimpl.
  pose proof (Hous _ _ Hou) as Hook.
  assert (exists ok, (if m_output_vc v =? -1 then has_free_vc ou (Z.quot invc (rt_vc_per_vnet r)) cyc
                      else ou_has_credit ou (m_output_vc v) cyc) = Ok ok /\
            (ok = true -> req_ok cyc r (m_output_port v) i invc)) as (ok & -> & Hreq).
  { destruct (m_output_vc v =? -1) eqn:E; b2p.
    - destruct (has_free_vc_ok _ _ ou cyc (vcs_of ou (Z.quot invc (rt_vc_per_vnet r))) Hook) as [b Hb].
      { unfold vcs_of. destruct Hook as (_ & -> & _). by apply vnet_vcs. }
      exists b. split; [done |]. intros ->. exists u, v, ou. split_and!; try done. left. done.
    - destruct Hovc as [?|(s & Hs & Ha)]; [done |]. unfold ou_has_credit. rewrite Hs. rsimpl. rewrite Ha. rsimpl.
      eexists. split; [done |]. intros Hc. unfold ov_has_credit in Hc. b2p.
      exists u, v, ou. split_and!; try done. right. split; [done |]. by exists s. }
  rsimpl. destruct ok; cbn [negb]; [| by eexists].
  unfold isVNetOrdered. destruct (vget_is_ok (m_ordered (cfg_net cfg)) (Z.quot invc (rt_vc_per_vnet r))) as [ord ->]; [lia |].
  rsimpl. destruct ord; [| exists true; split; [done | by intros _; apply Hreq]].
  rewrite (getInputUnit_ok r i u ltac:(lia) Hu). rsimpl. unfold get_enqueue_time. rewrite Hv. rsimpl.
  destruct (older_flit_ok cyc (rt_num_vcs r) (m_output_unit r) u (m_output_port v) (vc_enqueue_time v)
    (seqZ (Z.quot invc (rt_vc_per_vnet r) * rt_vc_per_vnet r) (rt_vc_per_vnet r)) ltac:(by eapply Hius)
    (vnet_vcs r _ Hp Hn Hvn)) as [b ->].
  rsimpl. eexists. split; [done |]. intros _. by apply Hreq.
Qed.

(** ** First stage *)

Lemma place_request_ok nin nout nvc vpv a inport invc outport :
  sa_ok nin nout nvc vpv a -> 0 <= inport < nin -> 0 <= invc < nvc -> 0 <= outport < nout ->
  exists a', place_request a inport invc outport = Ok a' /\ sa_ok nin nout nvc vpv a' /\
    mat_get (m_port_requests a') outport inport = Ok true /\
    mat_get (m_vc_winners a') outport inport = Ok invc /\
    (forall o i, (o, i) <> (outport, inport) ->
       mat_get (m_port_requests a') o i = mat_get (m_port_requests a) o i /\
       mat_get (m_vc_winners a') o i = mat_get (m_vc_winners a) o i).
Proof.
  intros (H1 & H2 & H3 & H4 & H5 & H6 & H7 & H8 & H9 & H10) Hi Hv Ho. unfold place_request.
  destruct (mat_set_ok nout nin (m_port_requests a) outport inport true H9 Ho Hi) as (reqs & -> & Sr & Gr & Nr). rsimpl.
  destruct (mat_set_ok nout nin (m_vc_winners a) outport inport invc H10 Ho Hi) as (wins & -> & Sw & Gw & Nw). rsimpl.
  destruct (vset_is_ok (m_round_robin_invc a) inport (next_rr invc (sa_num_vcs a))) as [rr Hrr]; [lia |].
  rewrite Hrr. rsimpl. eexists. split; [done |]. split.
  - unfold sa_ok. cbn [setf sa_num_inports sa_num_outports sa_num_vcs sa_vc_per_vnet m_round_robin_invc
      m_round_robin_inport m_port_requests m_vc_winners].
    split_and!; try done.
    + by rewrite (vset_length _ _ _ _ Hrr).
    + intros i p Hp. destruct (decide (inport = i)) as [<-|Hne].
      * rewrite (vset_get_eq _ _ _ _ Hrr) in Hp. injection Hp as <-. rewrite H3. by apply next_rr_range.
      * rewrite (vset_get_ne _ _ _ _ _ Hrr Hne) in Hp. by eapply H7.
  - cbn [setf m_port_requests m_vc_winners]. split_and!; try done. intros o i Hne. split; [by apply Nr | by apply Nw].
Qed.

(** The request an input port has placed, if any. *)
Definition sa1_inv (cyc : Z) (r0 : Router) (k : Z) (r : Router) : Prop :=
  exists a, r = r0 ⟨ switchAllocator := a ⟩ /\
    sa_ok (get_num_inports r0) (get_num_outports r0) (rt_num_vcs r0) (rt_vc_per_vnet r0) a /\
    (forall o i, requested r o i -> 0 <= i < k /\ exists invc, winner r o i invc /\ req_ok cyc r0 o i invc) /\
    (forall o o' i, requested r o i -> requested r o' i -> o = o').

Lemma router_ok_sa cyc r a :
  router_ok cyc r -> sa_ok (get_num_inports r) (get_num_outports r) (rt_num_vcs r) (rt_vc_per_vnet r) a ->
  router_ok cyc (r ⟨ switchAllocator := a ⟩).
Proof. intros (H1 & H2 & H3 & H4 & _ & H6 & H7 & H8) Ha. exact (conj H1 (conj H2 (conj H3 (conj H4 (conj Ha (conj H6 (conj H7 H8))))))). Qed.

(** The round-robin scan of one port: it places no request, or one for a VC
    that may send. *)
Lemma arbitrate_scan cfg cyc r i :
  router_ok cyc r -> Z.of_nat (length (m_ordered (cfg_net cfg))) = rt_virtual_networks r ->
  0 <= i < get_num_inports r -> forall invc, 0 <= invc < rt_num_vcs r ->
  exists b invc' r', foldM_brk (arbitrate_invc cfg cyc i) (upto (rt_num_vcs r)) (invc, r) = Ok (b, (invc', r')) /\
    if b : bool then exists o a, place_request (switchAllocator r) i invc' o = Ok a /\
      r' = r ⟨ switchAllocator := a ⟩ /\ req_ok cyc r o i invc' /\ 0 <= invc' < rt_num_vcs r
    else r' = r.
Proof.
  intros Hok Hord Hi invc Hinvc. pose proof Hok as (Hin & Hout & Hp & Hn & Hsa & Hsb & Hius & Hous).
  destruct (foldM_brk_upto (arbitrate_invc cfg cyc i)
    (fun _ '(vc, r1) => 0 <= vc < rt_num_vcs r /\ r1 = r)
    (fun _ '(vc, r1) => exists o a, place_request (switchAllocator r) i vc o = Ok a /\
       r1 = r ⟨ switchAllocator := a ⟩ /\ req_ok cyc r o i vc /\ 0 <= vc < rt_num_vcs r)
    (rt_num_vcs r) (invc, r)) as (b & [vc r1] & Hf & HQ); [lia | done | |].
  - intros k0 [vc r1] _ [Hvc ->]. destruct (vget_is_ok (m_input_unit r) i Hi) as [u Hu].
    unfold arbitrate_invc. rewrite (getInputUnit_ok r i u ltac:(lia) Hu). rsimpl.
    destruct (iu_need_stage_ok cyc cyc _ _ u vc SA_ (Hius i u Hu) ltac:(lia) Hvc) as (v & b & Hv & Hvok & -> & Hne).
    rsimpl. pose proof Hsa as (_ & _ & Hnv & _). rewrite Hnv.
    destruct b; rsimpl; [| eexists false, _; split; [done |]; split; [by apply next_rr_range | done]].
    specialize (Hne eq_refl). unfold get_outport, get_outvc. rewrite Hv. rsimpl.
    destruct (send_allowed_ok cfg cyc r i u v vc Hok Hord Hu Hv Hne) as (ok & -> & Hreq). rsimpl.
    destruct ok; [| eexists false, _; split; [done |]; split; [by apply next_rr_range | done]].
    specialize (Hreq eq_refl). pose proof Hreq as (_ & _ & ou & _ & _ & Hou & _).
    destruct (place_request_ok _ _ _ _ (switchAllocator r) i vc (m_output_port v) Hsa Hi Hvc (vget_range _ _ _ Hou))
      as (a & Ha & _). rewrite Ha. rsimpl.
    eexists true, _. split; [done |]. by exists (m_output_port v), a.
  - exists b, vc, r1. split; [done |]. destruct b; [by destruct HQ as (_ & _ & HQ) | by destruct HQ].
Qed.

Lemma arbitrate_inport_ok cfg cyc r0 k r :
  router_ok cyc r0 -> Z.of_nat (length (m_ordered (cfg_net cfg))) = rt_virtual_networks r0 ->
  0 <= k < get_num_inports r0 -> sa1_inv cyc r0 k r ->
  exists r', arbitrate_inport cfg cyc r k = Ok r' /\ sa1_inv cyc r0 (k + 1) r'.
Proof.
  intros Hok Hord Hk (a & -> & Ha & Hreq & Huniq).
  pose proof (router_ok_sa cyc r0 a Hok Ha) as Hok1. unfold arbitrate_inport. cbn [setf switchAllocator].
  pose proof Ha as (_ & _ & Hnv & _ & Hlrr & _ & Hrr & _). rewrite Hnv.
  destruct (vget_is_ok (m_round_robin_invc a) k) as [invc Hg]; [lia |]. rewrite Hg. rsimpl.
  destruct (arbitrate_scan cfg cyc (r0 ⟨ switchAllocator := a ⟩) k Hok1 Hord Hk invc ltac:(by eapply Hrr))
    as (b & invc' & r' & Hf & Hres). cbn [setf rt_num_vcs] in Hf. rewrite Hf. rsimpl.
  exists r'. split; [done |]. destruct b.
  - destruct Hres as (o & a' & Hp & -> & Hrq & Hvc). cbn [setf switchAllocator rt_num_vcs] in *.
    destruct (place_request_ok _ _ _ _ a k invc' o Ha Hk Hvc) as (a2 & Hp2 & Hsa2 & Gr & Gw & Hframe).
    { destruct Hrq as (_ & _ & ou & _ & _ & Hou & _). exact (vget_range _ _ _ Hou). }
    rewrite Hp in Hp2. injection Hp2 as <-. exists a'. split; [done |]. split; [done |].
    unfold requested, winner in *. cbn [setf switchAllocator] in *. split.
    + intros o1 i1 H1. destruct (decide ((o1, i1) = (o, k))) as [[= -> ->]|Hne].
      * split; [lia |]. by exists invc'.
      * destruct (Hframe o1 i1 Hne) as [Hr1 Hw1]. rewrite Hr1 in H1. destruct (Hreq o1 i1 H1) as (? & vc1 & Hw & Hq).
        split; [lia |]. exists vc1. by rewrite Hw1.
    + assert (forall o1, mat_get (m_port_requests a') o1 k = Ok true -> o1 = o) as Honly.
      { intros o1 H1. destruct (decide (o1 = o)) as [|Hne]; [done |].
        rewrite (proj1 (Hframe o1 k ltac:(congruence))) in H1. destruct (Hreq o1 k H1). lia. }
      intros o1 o2 i1 H1 H2. destruct (decide (i1 = k)) as [->|Hne].
      * by rewrite (Honly o1 H1), (Honly o2 H2).
      * rewrite (proj1 (Hframe o1 i1 ltac:(congruence))) in H1. rewrite (proj1 (Hframe o2 i1 ltac:(congruence))) in H2.
        by eapply Huniq.
  - subst r'. exists a. split_and!; try done. intros o i H1. destruct (Hreq o i H1) as (? & ?). split; [lia | done].
Qed.

(** [SA-I]: every input port has at most one request, for a VC that may send. *)
Lemma arbitrate_inports_ok cfg cyc r0 :
  router_ok cyc r0 -> Z.of_nat (length (m_ordered (cfg_net cfg))) = rt_virtual_networks r0 -> no_requests r0 ->
  exists r, arbitrate_inports cfg cyc r0 = Ok r /\ sa1_inv cyc r0 (get_num_inports r0) r.
Proof.
  intros Hok Hord Hno. unfold arbitrate_inports. pose proof Hok as (Hin & _ & _ & _ & Hsa & _).
  pose proof Hsa as (-> & _).
  apply (foldM_upto (arbitrate_inport cfg cyc) (sa1_inv cyc r0)); [lia | |].
  - exists (switchAllocator r0). split_and!; try done.
    + by destruct r0.
    + intros o i H. by apply Hno in H.
    + intros o o' i H. by apply Hno in H.
  - intros k r Hk Hinv. by apply arbitrate_inport_ok.
Qed.

(** ** Second stage *)

Lemma vc_pop b b' f :
  fb_ok b -> vc_order b -> getTopFlit b = Ok (b', f) ->
  fb_ok b' /\ vc_order b' /\ (is_tail f = true -> m_buffer b' = []).
Proof.
  intros Hok (q & HP & Hs & Ht) Hg. pose proof (getTopFlit_perm _ _ _ Hg) as (HP' & Hhd & _).
  split; [by eapply getTopFlit_ok |].
  destruct q as [|a q]; [apply Permutation_nil_r in HP; rewrite HP in Hhd; done |].
  assert (f = a) as ->.
  { assert (f ∈ a :: q) as Hin by (rewrite <- HP; by apply head_Some_elem_of).
    apply elem_of_cons in Hin as [-> | Hin]; [done |].
    apply StronglySorted_inv in Hs as [_ Hs]. rewrite Forall_forall in Hs. specialize (Hs f Hin).
    assert (a ∈ m_buffer b) as Ha by (rewrite HP; left).
    pose proof (is_heap_front flit_greater _ _ Hok Hhd a Ha) as Hle. unfold hle, flit_lt in *. congruence. }
  assert (m_buffer b' ≡ₚ q) as HPq by (apply (Permutation_cons_inv (a := a)); by rewrite <- HP').
  split.
  - exists q. split_and!; [done | by apply StronglySorted_inv in Hs as [? _] |].
    intros k g Hk Hg'. specialize (Ht (S k) g Hk Hg'). cbn [length] in Ht. lia.
  - intros Htail. specialize (Ht 0%nat a eq_refl Htail). cbn [length] in Ht.
    destruct q; [by apply Permutation_nil_r in HPq | cbn [length] in Ht; lia].
Qed.

(** Output VCs that were active stay active. *)
Definition ou_mono (cyc : Z) (u u' : OutputUnit) : Prop :=
  forall vc s, vget (outVcState u) vc = Ok s -> isInState s ACTIVE_ cyc = true ->
    exists s', vget (outVcState u') vc = Ok s' /\ isInState s' ACTIVE_ cyc = true.

Lemma ou_mono_vset cyc u l vc s s' :
  vget (outVcState u) vc = Ok s -> vset (outVcState u) vc s' = Ok l ->
  (isInState s ACTIVE_ cyc = true -> isInState s' ACTIVE_ cyc = true) -> ou_mono cyc u (u ⟨ outVcState := l ⟩).
Proof.
  intros Hs Hl Himp v t Ht Ha. cbn [setf outVcState]. destruct (decide (vc = v)) as [<-|Hne].
  - rewrite Hs in Ht. injection Ht as <-. exists s'. split; [by eapply vset_get_eq | by apply Himp].
  - exists t. by rewrite (vset_get_ne _ _ _ _ _ Hl Hne).
Qed.

Lemma ou_ok_vset nvc vpv u l vc s' :
  ou_ok nvc vpv u -> vset (outVcState u) vc s' = Ok l -> (ov_state s' = IDLE_ -> 1 <= m_credit_count s') ->
  ou_ok nvc vpv (u ⟨ outVcState := l ⟩).
Proof.
  intros (Hl & Hp & Hc) Hset Hs'. split_and!; cbn [setf outVcState ou_vc_per_vnet]; [| done |].
  - by rewrite (vset_length _ _ _ _ Hset).
  - intros j s Hs. destruct (decide (vc = j)) as [<-|Hne].
    + rewrite (vset_get_eq _ _ _ _ Hset) in Hs. by injection Hs as <-.
    + rewrite (vset_get_ne _ _ _ _ _ Hset Hne) in Hs. by eapply Hc.
Qed.

(** Replacing one output port by a later state of it keeps VCs routed. *)
Lemma vc_ok_mono cyc outs outs' o ou ou' v :
  vget outs o = Ok ou -> vset outs o ou' = Ok outs' -> ou_mono cyc ou ou' -> vc_ok cyc outs v -> vc_ok cyc outs' v.
Proof.
  intros Ho Hset Hm (H1 & H2 & H3). split_and!; [done | done |]. intros Hne.
  destruct (H3 Hne) as (? & ? & ou1 & Hou1 & Hvc). split_and!; [done | done |].
  destruct (decide (o = m_output_port v)) as [->|Hno].
  - rewrite Ho in Hou1. injection Hou1 as <-. exists ou'. split; [by eapply vset_get_eq |].
    destruct Hvc as [?|(s & Hs & Ha)]; [by left | right]. by eapply Hm.
  - exists ou1. by rewrite (vset_get_ne _ _ _ _ _ Hset Hno).
Qed.

Lemma router_ok_update cyc r o i ou ou' u' ius ous a x :
  router_ok cyc r -> vset (m_input_unit r) i u' = Ok ius -> vset (m_output_unit r) o ou' = Ok ous ->
  vget (m_output_unit r) o = Ok ou -> ou_mono cyc ou ou' ->
  ou_ok (rt_num_vcs r) (rt_vc_per_vnet r) ou' -> iu_ok cyc (rt_num_vcs r) ous u' ->
  sa_ok (get_num_inports r) (get_num_outports r) (rt_num_vcs r) (rt_vc_per_vnet r) a ->
  Z.of_nat (length (switchBuffers x)) = get_num_inports r ->
  router_ok cyc (r ⟨ m_input_unit := ius ⟩ ⟨ m_output_unit := ous ⟩ ⟨ switchAllocator := a ⟩ ⟨ crossbarSwitch := x ⟩).
Proof.
  intros (H1 & H2 & H3 & H4 & _ & _ & H7 & H8) Hi Ho Hou Hm Hook Hiok Ha Hx.
  unfold router_ok, get_num_inports, get_num_outports in *.
  cbn [setf m_input_unit m_output_unit switchAllocator crossbarSwitch rt_vc_per_vnet rt_num_vcs rt_virtual_networks].
  rewrite (vset_length _ _ _ _ Hi), (vset_length _ _ _ _ Ho).
  refine (conj H1 (conj H2 (conj H3 (conj H4 (conj Ha (conj Hx (conj _ _))))))).
  - intros i1 u1 Hu1. destruct (decide (i = i1)) as [<-|Hne].
    + rewrite (vset_get_eq _ _ _ _ Hi) in Hu1. by injection Hu1 as <-.
    + rewrite (vset_get_ne _ _ _ _ _ Hi Hne) in Hu1. destruct (H7 _ _ Hu1) as [Hl Hv]. split; [done |].
      intros j v Hj. eapply vc_ok_mono; [exact Hou | exact Ho | exact Hm | by eapply Hv].
  - intros o1 u1 Hu1. destruct (decide (o = o1)) as [<-|Hne].
    + rewrite (vset_get_eq _ _ _ _ Ho) in Hu1. by injection Hu1 as <-.
    + rewrite (vset_get_ne _ _ _ _ _ Ho Hne) in Hu1. by eapply H8.
Qed.

(** An input port with one VC replaced. *)
Lemma iu_ok_vset cyc nvc outs outs' u j v' vcs :
  iu_ok cyc nvc outs u -> vset (virtualChannels u) j v' = Ok vcs ->
  (forall v, vc_ok cyc outs v -> vc_ok cyc outs' v) -> vc_ok cyc outs' v' ->
  iu_ok cyc nvc outs' (u ⟨ virtualChannels := vcs ⟩).
Proof.
  intros [Hl Hv] Hset Hmono Hv'. split; cbn [setf virtualChannels]; [by rewrite (vset_length _ _ _ _ Hset) |].
  intros k v Hk. destruct (decide (j = k)) as [<-|Hne].
  - rewrite (vset_get_eq _ _ _ _ Hset) in Hk. by injection Hk as <-.
  - rewrite (vset_get_ne _ _ _ _ _ Hset Hne) in Hk. by eapply Hmono, Hv.
Qed.

Lemma vset_again {A} (l l1 l2 : list A) k x y : vset l k x = Ok l1 -> vset l1 k y = Ok l2 -> vset l k y = Ok l2.
Proof.
  intros [Hr ->]%vset_Ok [_ ->]%vset_Ok. apply vset_Ok. by rewrite list_insert_insert_eq.
Qed.

Lemma vset_same {A} (l : list A) k x : vget l k = Ok x -> vset l k x = Ok l.
Proof.
  intros Hx. pose proof (vget_range _ _ _ Hx). apply vget_Ok in Hx as [_ Hx].
  apply vset_Ok. split; [done |]. by rewrite list_insert_id.
Qed.

(** ** What a grant does *)

(** A grant: the ports, the input VC and the output VC, and the flit the
    winner takes off its VC. *)
Record grant := { g_out : Z; g_in : Z; g_invc : Z; g_outvc : Z; g_top : flit }.

(** The flit as it enters the crossbar: it carries its output port, the VC it
    will have at the next hop, and the stage. *)
Definition sent (cyc o vc : Z) (f : flit) : flit :=
  advance_stage (f ⟨ m_outport := o ⟩ ⟨ m_vc := vc ⟩) ST_ cyc.
Definition g_flit (cyc : Z) (g : grant) : flit := sent cyc (g_out g) (g_outvc g) (g_top g).

(** The input VC once its flit [f] left: a tail frees it. *)
Definition left_vc (cyc : Z) (v : VirtualChannel) (f : flit) : VirtualChannel :=
  if is_tail f then set_idle v cyc else v.

(** Input port: the front flit of VC [invc] left, the VC holds output VC
    [outvc] (or is idle, after a tail), the other VCs are as they were, and
    one credit for [invc] was queued for the upstream router. *)
Definition input_served (cyc invc outvc : Z) (f : flit) (v : VirtualChannel) (u u' : InputUnit) : Prop :=
  exists b, vget (virtualChannels u) invc = Ok v /\ getTopFlit (inputBuffer v) = Ok (b, f) /\
    vset (virtualChannels u) invc (left_vc cyc (v ⟨ m_output_vc := outvc ⟩ ⟨ inputBuffer := b ⟩) f) =
      Ok (virtualChannels u') /\
    creditQueue u' = fb_insert (creditQueue u) (Credit_ctor invc (is_tail f) cyc).

(** Output port: VC [vc] had a credit, has one less and is in use; the other
    VCs are as they were. *)
Definition output_charged (cyc vc : Z) (s : OutVcState) (ou ou' : OutputUnit) : Prop :=
  exists s', vget (outVcState ou) vc = Ok s /\ 0 < m_credit_count s /\
    vset (outVcState ou) vc s' = Ok (outVcState ou') /\
    isInState s' ACTIVE_ cyc = true /\ m_credit_count s' = m_credit_count s - 1.

(** The output VC was the winner's already, or was a free one of its virtual
    network. *)
Definition outvc_right (cyc invc vc : Z) (v : VirtualChannel) (s : OutVcState) (ou : OutputUnit) : Prop :=
  (m_output_vc v = vc /\ isInState s ACTIVE_ cyc = true) \/
  (m_output_vc v = -1 /\ isInState s IDLE_ cyc = true /\ vc ∈ vcs_of ou (Z.quot invc (ou_vc_per_vnet ou))).

(** The grant [g] took router [r] to [r'], as far as its two ports go. *)
Definition grant_done (cyc : Z) (r r' : Router) (g : grant) : Prop :=
  exists u u' v ou ou' s,
    vget (m_input_unit r) (g_in g) = Ok u /\ vget (m_input_unit r') (g_in g) = Ok u' /\
    vget (m_output_unit r) (g_out g) = Ok ou /\ vget (m_output_unit r') (g_out g) = Ok ou' /\
    m_output_port v = g_out g /\
    input_served cyc (g_invc g) (g_outvc g) (g_top g) v u u' /\
    output_charged cyc (g_outvc g) s ou ou' /\ outvc_right cyc (g_invc g) (g_outvc g) v s ou.

(** A winner that holds an output VC with a credit. *)
Definition send_ready (cyc : Z) (r : Router) (o i invc vc : Z) : Prop :=
  exists u v ou s, vget (m_input_unit r) i = Ok u /\ vget (virtualChannels u) invc = Ok v /\
    m_buffer (inputBuffer v) <> [] /\ m_output_port v = o /\ m_output_vc v = vc /\
    vget (m_output_unit r) o = Ok ou /\ vget (outVcState ou) vc = Ok s /\
    isInState s ACTIVE_ cyc = true /\ 0 < m_credit_count s.

(** What a grant of [o] to [i] leaves alone. *)
Definition same_elsewhere (r r' : Router) (o i : Z) : Prop :=
  get_num_inports r' = get_num_inports r /\ get_num_outports r' = get_num_outports r /\
  rt_num_vcs r' = rt_num_vcs r /\ rt_vc_per_vnet r' = rt_vc_per_vnet r /\
  rt_virtual_networks r' = rt_virtual_networks r /\
  (forall i', i' <> i -> vget (m_input_unit r') i' = vget (m_input_unit r) i') /\
  (forall o', o' <> o -> vget (m_output_unit r') o' = vget (m_output_unit r) o') /\
  m_vc_winners (switchAllocator r') = m_vc_winners (switchAllocator r).

Lemma same_elsewhere_trans r1 r2 r3 o i :
  same_elsewhere r1 r2 o i -> same_elsewhere r2 r3 o i -> same_elsewhere r1 r3 o i.
Proof.
  intros (? & ? & ? & ? & ? & Hi & Ho & ?) (? & ? & ? & ? & ? & Hi' & Ho' & ?).
  split_and!; try congruence.
  - intros i' Hne. by rewrite Hi', Hi.
  - intros o' Hne. by rewrite Ho', Ho.
Qed.

(** The winner's VC and the output VC it now holds, before and after. *)
Definition acquired (cyc : Z) (r r1 : Router) (o i invc vc : Z) : Prop :=
  exists u u1 v ou ou1 s s1,
    vget (m_input_unit r) i = Ok u /\ vget (m_input_unit r1) i = Ok u1 /\
    vget (m_output_unit r) o = Ok ou /\ vget (m_output_unit r1) o = Ok ou1 /\
    vget (virtualChannels u) invc = Ok v /\ m_output_port v = o /\
    vset (virtualChannels u) invc (v ⟨ m_output_vc := vc ⟩) = Ok (virtualChannels u1) /\
    creditQueue u1 = creditQueue u /\
    vget (outVcState ou) vc = Ok s /\ vset (outVcState ou) vc s1 = Ok (outVcState ou1) /\
    m_credit_count s1 = m_credit_count s /\ outvc_right cyc invc vc v s ou.

Lemma acquire_ok cyc r o i invc :
  router_ok cyc r -> req_ok cyc r o i invc ->
  exists u outvc r1 vc, vget (m_input_unit r) i = Ok u /\ get_outvc u invc = Ok outvc /\
    (if outvc =? -1 then vc_allocate cyc r o i invc else Ok (r, outvc)) = Ok (r1, vc) /\
    router_ok cyc r1 /\ send_ready cyc r1 o i invc vc /\ same_elsewhere r r1 o i /\
    switchAllocator r1 = switchAllocator r /\ crossbarSwitch r1 = crossbarSwitch r /\
    acquired cyc r r1 o i invc vc.
Proof.
  intros Hok (u & v & ou & Hu & Hv & Hou & Hne & Hport & Hcase).
  pose proof Hok as (Hin & Hout & Hp & Hn & Hsa & Hsb & Hius & Hous).
  pose proof (Hius _ _ Hu) as Hiu. pose proof Hiu as [Hlen Hvcs]. pose proof (Hous _ _ Hou) as Hook.
  pose proof (Hvcs _ _ Hv) as Hvok. pose proof Hvok as (Hfb & Hord & Hrt). pose proof (vget_range _ _ _ Hv) as Hr.
  exists u, (m_output_vc v). unfold get_outvc. rewrite Hv.
  destruct Hcase as [[Hm1 Hfree]|[Hm1 (s & Hs & Hcr)]].
  - rewrite Hm1, Z.eqb_refl. unfold vc_allocate, sa_get_vnet.
    pose proof Hsa as (_ & _ & _ & -> & _).
    rewrite (proj2 (Z.ltb_lt _ _)) by (apply vnet_range; [done | done | lia]). rsimpl.
    rewrite (getOutputUnit_ok r o ou ltac:(lia) Hou). rsimpl.
    destruct (select_free_vc_found _ _ ou cyc (vcs_of ou (Z.quot invc (rt_vc_per_vnet r))) Hook) as
      (ou' & vc & s & Hsel & Hvcin & Hvcr & Hs & Hidle & Hb' & Hvpv' & Hid' & Hset); [| done |].
    { unfold vcs_of. destruct Hook as (_ & -> & _). apply vnet_vcs; [done | done |]. apply vnet_range; [done | done | lia]. }
    unfold select_free_vc. rewrite Hsel. rsimpl. unfold set_output_unit.
    destruct (vset_is_ok (m_output_unit r) o ou') as [ous Hous']; [by eapply vget_range |]. rewrite Hous'. rsimpl.
    rewrite (proj2 (Z.eqb_neq vc (-1))) by lia. cbn [negb]. rsimpl.
    erewrite getInputUnit_ok; [| exact (proj2 Hin) | exact Hu]. rsimpl.
    unfold grant_outvc, iu_upd_vc, vupd. rewrite Hv. rsimpl.
    destruct (vset_is_ok (virtualChannels u) invc (v ⟨ m_output_vc := vc ⟩)) as [vcs Hvset]; [lia |].
    rewrite Hvset. rsimpl. unfold set_input_unit. cbn [setf m_input_unit].
    destruct (vset_is_ok (m_input_unit r) i (u ⟨ virtualChannels := vcs ⟩)) as [ius Hiset]; [by eapply vget_range |].
    rewrite Hiset. rsimpl. do 2 eexists. split; [done |]. split; [by rewrite Hm1 |]. split; [done |].
    assert (ou' = ou ⟨ outVcState := outVcState ou' ⟩) as Hou'.
    { revert Hsel. generalize (vcs_of ou (Z.quot invc (rt_vc_per_vnet r))). clear.
      induction l as [|j l IH]; intros H; cbn [select_free_vc_loop] in H; [by injection H as <- _; destruct ou |].
      apply res_bind_Ok_inv in H as (b & _ & H). destruct b; [| by apply IH].
      apply res_bind_Ok_inv in H as (u1 & Hu1 & H). injection H as <- _.
      unfold set_vc_state, ou_upd_vc in Hu1. apply res_bind_Ok_inv in Hu1 as (ovs & _ & Hu1). by injection Hu1 as <-. }
    assert (ou_mono cyc ou ou') as Hmono.
    { rewrite Hou'. eapply ou_mono_vset; [exact Hs | exact Hset |]. intros _. unfold isInState, setState.
      cbn [setf ov_state ov_time]. rewrite bool_decide_eq_true_2 by done. by rewrite Z.leb_refl. }
    assert (isInState (setState s ACTIVE_ cyc) ACTIVE_ cyc = true) as Hact.
    { unfold isInState, setState. cbn [setf ov_state ov_time]. rewrite bool_decide_eq_true_2 by done.
      by rewrite Z.leb_refl. }
    assert (1 <= m_credit_count s) as Hcs.
    { destruct Hook as (_ & _ & Hc). eapply Hc; [done |]. unfold isInState in Hidle. by b2p. }
    split_and!.
    + apply (router_ok_update cyc r o i ou ou' (u ⟨ virtualChannels := vcs ⟩) ius ous (switchAllocator r) (crossbarSwitch r));
        try done.
      * rewrite Hou'. eapply ou_ok_vset; [done | exact Hset |]. intros _. cbn [setState setf m_credit_count]. done.
      * eapply iu_ok_vset; [exact Hiu | exact Hvset | intros; by eapply vc_ok_mono |].
        split_and!; [done | done |]. intros Hne'. destruct (Hrt Hne') as (? & ? & _). split_and!; [done | done |].
        cbn [setf m_output_port m_output_vc]. exists ou'. rewrite Hport. split; [by eapply vset_get_eq |].
        right. exists (setState s ACTIVE_ cyc). split; [by eapply vset_get_eq | done].
    + exists (u ⟨ virtualChannels := vcs ⟩), (v ⟨ m_output_vc := vc ⟩), ou', (setState s ACTIVE_ cyc).
      cbn [setf m_input_unit m_output_unit virtualChannels inputBuffer m_output_port m_output_vc].
      split_and!; try done; first [by eapply vset_get_eq | cbn [setState setf m_credit_count]; lia].
    + unfold same_elsewhere, get_num_inports, get_num_outports. cbn [setf m_input_unit m_output_unit switchAllocator rt_num_vcs rt_vc_per_vnet rt_virtual_networks].
      rewrite (vset_length _ _ _ _ Hiset), (vset_length _ _ _ _ Hous'). split_and!; try done.
      * intros i' Hne'. apply (vset_get_ne _ _ _ _ _ Hiset). congruence.
      * intros o' Hne'. apply (vset_get_ne _ _ _ _ _ Hous'). congruence.
    + done.
    + done.
    + exists u, (u ⟨ virtualChannels := vcs ⟩), v, ou, ou', s, (setState s ACTIVE_ cyc).
      cbn [setf m_input_unit m_output_unit virtualChannels creditQueue].
      split_and!; try done; try (by eapply vset_get_eq).
      right. split_and!; try done. destruct Hook as (_ & -> & _). done.
  - rewrite (proj2 (Z.eqb_neq _ _) Hm1). exists r, (m_output_vc v). split; [done |]. split; [done |]. split; [done |].
    split; [done |]. split_and!; try done.
    + exists u, v, ou, s. destruct (Hrt Hne) as (_ & _ & ou1 & Hou1 & Hact).
      rewrite Hport, Hou in Hou1. injection Hou1 as <-.
      destruct Hact as [?|(s1 & Hs1 & Ha)]; [done |]. rewrite Hs in Hs1. injection Hs1 as <-. split_and!; done.
    + destruct (Hrt Hne) as (_ & _ & ou1 & Hou1 & Hact). rewrite Hport, Hou in Hou1. injection Hou1 as <-.
      destruct Hact as [?|(s1 & Hs1 & Ha)]; [done |]. rewrite Hs in Hs1. injection Hs1 as <-.
      exists u, u, v, ou, ou, s, s. split_and!; try done; [| by apply vset_same | by left].
      apply vset_same. rewrite Hv. by destruct v.
Qed.

(** The flit has left its VC for the crossbar buffer of its input port. *)
Definition in_switch (cyc : Z) (r r' : Router) (o i invc vc : Z) (f : flit) : Prop :=
  (exists b, vget (switchBuffers (crossbarSwitch r)) i = Ok b /\
     vset (switchBuffers (crossbarSwitch r)) i (fb_insert b (sent cyc o vc f)) =
       Ok (switchBuffers (crossbarSwitch r'))) /\
  exists u u' v ou ou' s, vget (m_input_unit r) i = Ok u /\ vget (m_input_unit r') i = Ok u' /\
    vget (m_output_unit r) o = Ok ou /\ vget (m_output_unit r') o = Ok ou' /\
    input_served cyc invc vc f v u u' /\ output_charged cyc vc s ou ou'.

Definition request_removed (r r' : Router) (o i : Z) : Prop :=
  ~ requested r' o i /\ forall o' i', requested r' o' i' -> requested r o' i'.

(** The winner's flit leaves the input VC; a VC whose tail left is idle. *)
Lemma pop_vc cyc u v invc outs :
  vget (virtualChannels u) invc = Ok v -> m_buffer (inputBuffer v) <> [] -> vc_ok cyc outs v ->
  exists b f vcs, iu_getTopFlit u invc = Ok (u ⟨ virtualChannels := vcs ⟩, f) /\
    vset (virtualChannels u) invc (v ⟨ inputBuffer := b ⟩) = Ok vcs /\
    fb_ok b /\ vc_order b /\ (is_tail f = true -> m_buffer b = []) /\
    getTopFlit (inputBuffer v) = Ok (b, f).
Proof.
  intros Hv Hne (Hfb & Hord & _). unfold iu_getTopFlit, vc_getTopFlit. rewrite Hv. rsimpl.
  assert (exists b f, getTopFlit (inputBuffer v) = Ok (b, f)) as (b & f & Hg).
  { unfold getTopFlit. destruct (m_buffer (inputBuffer v)); [done |]. cbn [vfront]. rsimpl. by do 2 eexists. }
  rewrite Hg. rsimpl. destruct (vset_is_ok (virtualChannels u) invc (v ⟨ inputBuffer := b ⟩)) as [vcs Hset];
    [by eapply vget_range |]. rewrite Hset. rsimpl. exists b, f, vcs.
  by destruct (vc_pop _ _ _ Hfb Hord Hg) as (? & ? & ?).
Qed.

Lemma send_winner_ok cyc r o i invc vc :
  router_ok cyc r -> send_ready cyc r o i invc vc ->
  exists r' evs f, send_winner cyc r o i invc vc = Ok (r', evs) /\ router_ok cyc r' /\
    same_elsewhere r r' o i /\ in_switch cyc r r' o i invc vc f /\ request_removed r r' o i.
Proof.
  intros Hok (u & v & ou & s & Hu & Hv & Hne & Hport & Hovc & Hou & Hs & Hact & Hcr).
  pose proof Hok as (Hin & Hout & Hp & Hn & Hsa & Hsb & Hius & Hous).
  pose proof (Hius _ _ Hu) as Hiu. pose proof Hiu as [Hlen Hvcs]. pose proof (Hous _ _ Hou) as Hook.
  pose proof (Hvcs _ _ Hv) as Hvok. pose proof Hvok as (_ & _ & Hrt). destruct (Hrt Hne) as (Hst & Hstt & _).
  pose proof (vget_range _ _ _ Hu) as Hir. pose proof (vget_range _ _ _ Hou) as Hor. unfold send_winner.
  rewrite (getInputUnit_ok r i u ltac:(lia) Hu). rsimpl.
  destruct (pop_vc cyc u v invc (m_output_unit r) Hv Hne Hvok) as (b & f & vcs & -> & Hvset & Hfb & Hord & Htail & Htop).
  rsimpl. rewrite (getOutputUnit_ok r o ou ltac:(lia) Hou). rsimpl.
  unfold ou_decrement_credit, ou_upd_vc, vupd at 1. rewrite Hs. rsimpl.
  unfold ov_decrement_credit. cbn [setf m_credit_count]. rewrite (proj2 (Z.leb_le 0 (m_credit_count s - 1))) by lia. rsimpl.
  destruct (vset_is_ok (outVcState ou) vc (s ⟨ m_credit_count := m_credit_count s - 1 ⟩)) as [ovs Hovs];
    [by eapply vget_range |]. rewrite Hovs. rsimpl. unfold set_output_unit.
  destruct (vset_is_ok (m_output_unit r) o (ou ⟨ outVcState := ovs ⟩)) as [ous Hoset]; [done |]. rewrite Hoset. rsimpl.
  unfold grant_switch, update_sw_winner, vupd at 1. cbn [setf crossbarSwitch].
  destruct (vget_is_ok (switchBuffers (crossbarSwitch r)) i) as [sb Hsbi]; [unfold get_num_inports in *; lia |].
  rewrite Hsbi. rsimpl. set (t_flit := advance_stage _ ST_ cyc).
  destruct (vset_is_ok (switchBuffers (crossbarSwitch r)) i (fb_insert sb t_flit)) as [sbs Hsbs];
    [unfold get_num_inports in *; lia |]. rewrite Hsbs. rsimpl.
  set (z := if is_tail t_flit then _ else _).
  assert (exists u' evs vcs', z = Ok (u', evs) /\ virtualChannels u' = vcs' /\
    creditQueue u' = fb_insert (creditQueue u) (Credit_ctor invc (is_tail f) cyc) /\
    (exists v', vset (virtualChannels u) invc v' = Ok vcs' /\ v' = left_vc cyc (v ⟨ inputBuffer := b ⟩) f /\
       inputBuffer v' = b /\ (v' = v ⟨ inputBuffer := b ⟩ \/ m_buffer b = [])))
    as (u' & evs & vcs' & -> & Hvc' & Hcq & v' & Hv'set & Hv'eq & Hv'b & Hv'c).
  { unfold z, left_vc. change (is_tail t_flit) with (is_tail f). destruct (is_tail f).
    - specialize (Htail eq_refl). unfold iu_isReady. cbn [setf virtualChannels].
      rewrite (vset_get_eq _ _ _ _ Hvset). rsimpl. unfold fb_isReady. cbn [setf inputBuffer]. rewrite Htail. cbn [negb]. rsimpl.
      unfold set_vc_idle, iu_upd_vc, vupd. cbn [setf virtualChannels]. rewrite (vset_get_eq _ _ _ _ Hvset). rsimpl.
      destruct (vset_is_ok vcs invc (set_idle (v ⟨ inputBuffer := b ⟩) cyc)) as [vcs2 Hv2];
        [rewrite (vset_length _ _ _ _ Hvset); by eapply vget_range |]. rewrite Hv2. rsimpl.
      do 3 eexists. split; [done |]. split; [done |]. split; [done |]. cbn [setf virtualChannels].
      exists (set_idle (v ⟨ inputBuffer := b ⟩) cyc). split; [by eapply vset_again | by split_and!; [| | right]].
    - do 3 eexists. split; [done |]. split; [done |]. split; [done |]. cbn [setf virtualChannels].
      exists (v ⟨ inputBuffer := b ⟩). split; [done |]. split_and!; [done | done | by left]. }
  rsimpl. unfold set_input_unit. cbn [setf m_input_unit].
  destruct (vset_is_ok (m_input_unit r) i u') as [ius Hiset]; [done |]. rewrite Hiset. rsimpl.
  pose proof Hsa as (S1 & S2 & S3 & S4 & S5 & S6 & S7 & S8 & S9 & S10).
  cbn [setf m_port_requests m_round_robin_inport sa_num_inports switchAllocator].
  destruct (mat_set_ok _ _ (m_port_requests (switchAllocator r)) o i false S9 Hor Hir) as (reqs & -> & Sr & Gr & Nr). rsimpl.
  destruct (vset_is_ok (m_round_robin_inport (switchAllocator r)) o (next_rr i (sa_num_inports (switchAllocator r))))
    as [rr Hrr]; [unfold get_num_outports in *; lia |]. rewrite Hrr. rsimpl.
  do 2 eexists. exists f. split; [done |]. split_and!.
  - eapply (router_ok_update cyc r o i ou (ou ⟨ outVcState := ovs ⟩) u' ius ous
      (switchAllocator r ⟨ m_output_arbiter_activity := m_output_arbiter_activity (switchAllocator r) + 1 ⟩
         ⟨ m_port_requests := reqs ⟩ ⟨ m_round_robin_inport := rr ⟩)
      (crossbarSwitch r ⟨ switchBuffers := sbs ⟩)); try done.
    + by eapply ou_mono_vset.
    + eapply ou_ok_vset; [done | exact Hovs |]. unfold isInState in Hact. b2p. cbn [setf ov_state]. congruence.
    + destruct (iu_ok_vset cyc (rt_num_vcs r) (m_output_unit r) ous u invc v' vcs' Hiu Hv'set) as [HL HV].
      * intros w. eapply vc_ok_mono; [exact Hou | exact Hoset | by eapply ou_mono_vset].
      * split_and!; [by rewrite Hv'b | by rewrite Hv'b |]. intros Hne'. rewrite Hv'b in Hne'.
        destruct Hv'c as [-> | ?]; [| done]. cbn [setf vc_state m_output_port m_output_vc].
        split_and!; [done | done |]. exists (ou ⟨ outVcState := ovs ⟩). rewrite Hport, Hovc.
        split; [by eapply vset_get_eq |]. right. eexists. split; [by eapply vset_get_eq |]. done.
      * cbn [setf virtualChannels] in HL, HV. unfold iu_ok. rewrite Hvc'. done.
    + unfold sa_ok. cbn [setf sa_num_inports sa_num_outports sa_num_vcs sa_vc_per_vnet m_round_robin_invc
        m_round_robin_inport m_port_requests m_vc_winners]. split_and!; try done.
      * by rewrite (vset_length _ _ _ _ Hrr).
      * intros o1 p Hp1. destruct (decide (o = o1)) as [<-|Hno].
        -- rewrite (vset_get_eq _ _ _ _ Hrr) in Hp1. injection Hp1 as <-. rewrite S1. by apply next_rr_range.
        -- rewrite (vset_get_ne _ _ _ _ _ Hrr Hno) in Hp1. by eapply S8.
    + cbn [setf switchBuffers]. by rewrite (vset_length _ _ _ _ Hsbs).
  - unfold same_elsewhere, get_num_inports, get_num_outports. cbn [setf m_input_unit m_output_unit switchAllocator rt_num_vcs rt_vc_per_vnet rt_virtual_networks m_vc_winners].
    rewrite (vset_length _ _ _ _ Hiset), (vset_length _ _ _ _ Hoset). split_and!; try done.
    + intros i' Hne'. apply (vset_get_ne _ _ _ _ _ Hiset). congruence.
    + intros o' Hne'. apply (vset_get_ne _ _ _ _ _ Hoset). congruence.
  - split; [by exists sb |]. exists u, u', v, ou, (ou ⟨ outVcState := ovs ⟩), s. cbn [setf m_input_unit m_output_unit].
    split_and!; [done | by eapply vset_get_eq | done | by eapply vset_get_eq | |].
    + exists b. rewrite Hvc'. split_and!; [done | done | | done].
      replace (v ⟨ m_output_vc := vc ⟩) with v by (destruct v; cbn in Hovc |- *; by subst). by rewrite <- Hv'eq.
    + eexists. split_and!; [done | done | exact Hovs | done | done].
  - split; unfold requested; cbn [setf switchAllocator m_port_requests]; [by rewrite Gr |].
    intros o' i' Hreq. destruct (decide ((o', i') = (o, i))) as [[= -> ->]|Hne']; [by rewrite Gr in Hreq |].
    by rewrite Nr in Hreq.
Qed.

Definition granted_to (cyc : Z) (r r' : Router) (g : grant) : Prop :=
  (exists b, vget (switchBuffers (crossbarSwitch r)) (g_in g) = Ok b /\
     vset (switchBuffers (crossbarSwitch r)) (g_in g) (fb_insert b (g_flit cyc g)) =
       Ok (switchBuffers (crossbarSwitch r'))) /\
  grant_done cyc r r' g.

(** Taking the output VC and sending the flit compose to one grant. *)
Lemma acquire_send cyc r r1 r' o i invc vc f :
  acquired cyc r r1 o i invc vc -> in_switch cyc r1 r' o i invc vc f ->
  grant_done cyc r r' {| g_out := o; g_in := i; g_invc := invc; g_outvc := vc; g_top := f |}.
Proof.
  intros (u & u1 & v & ou & ou1 & s & s1 & Hu & Hu1 & Hou & Hou1 & Hv & Hp & Hset & Hcq & Hs & Hsset & Hcr & Hr)
    (_ & u2 & u' & v2 & ou2 & ou' & s2 & Hu2 & Hu' & Hou2 & Hou' & (b & Hv2 & Htop & Hset2 & Hcq2)
      & s' & Hs2 & Hpos & Hsset2 & Hact & Hdec).
  rewrite Hu1 in Hu2. injection Hu2 as <-. rewrite Hou1 in Hou2. injection Hou2 as <-.
  rewrite (vset_get_eq _ _ _ _ Hset) in Hv2. injection Hv2 as <-.
  rewrite (vset_get_eq _ _ _ _ Hsset) in Hs2. injection Hs2 as <-.
  exists u, u', v, ou, ou', s. cbn [g_out g_in g_invc g_outvc g_top]. split_and!; try done.
  - exists b. split_and!; [done | done | by eapply vset_again | by rewrite Hcq2, Hcq].
  - exists s'. split_and!; [done | lia | by eapply vset_again | done | lia].
Qed.

Lemma grant_ok cyc r o i invc :
  router_ok cyc r -> winner r o i invc -> req_ok cyc r o i invc ->
  exists r' evs vc f, grant_outport_to cyc r o i = Ok (r', evs) /\ router_ok cyc r' /\
    same_elsewhere r r' o i /\ granted_to cyc r r' {| g_out := o; g_in := i; g_invc := invc; g_outvc := vc; g_top := f |} /\
    request_removed r r' o i.
Proof.
  intros Hok Hw Hreq.
  destruct (acquire_ok cyc r o i invc Hok Hreq) as (u & outvc & r1 & vc & Hu & Hov & Hacq & Hok1 & Hrdy & Hs1 & Hsa & Hxb & Hacqd).
  destruct (send_winner_ok cyc r1 o i invc vc Hok1 Hrdy) as (r' & evs & f & Hsend & Hok' & Hs2 & Hsw & Hrem).
  exists r', evs, vc, f. unfold grant_outport_to. unfold winner in Hw. rewrite Hw. rsimpl.
  pose proof Hok as (Hin & _). rewrite (getInputUnit_ok r i u ltac:(lia) Hu). rsimpl.
  rewrite Hov. rsimpl. rewrite Hacq. rsimpl. split; [done |]. split; [done |].
  split; [by eapply same_elsewhere_trans |]. split.
  - split; [| by eapply acquire_send]. destruct Hsw as [Hsb _]. by rewrite Hxb in Hsb.
  - unfold request_removed, requested in *. by rewrite Hsa in Hrem.
Qed.

(** The flits granted to input port [i], as they enter the crossbar. *)
Definition granted (cyc : Z) (gs : list grant) (i : Z) : list flit := g_flit cyc <$> filter (fun g => g_in g = i) gs.

(** From [r0] to [r] the ports of the grants [gs] did their grant and no other
    port changed. *)
Definition grants_done (cyc : Z) (r0 r : Router) (gs : list grant) : Prop :=
  (forall g, g ∈ gs -> grant_done cyc r0 r g) /\
  (forall i, i ∉ g_in <$> gs -> vget (m_input_unit r) i = vget (m_input_unit r0) i) /\
  (forall o, o ∉ g_out <$> gs -> vget (m_output_unit r) o = vget (m_output_unit r0) o) /\
  (forall i b0, vget (switchBuffers (crossbarSwitch r0)) i = Ok b0 ->
     exists b, vget (switchBuffers (crossbarSwitch r)) i = Ok b /\ m_buffer b ≡ₚ granted cyc gs i ++ m_buffer b0).

(** What the output ports below [k] have been granted. *)
Definition sa2_inv (cyc : Z) (r0 : Router) (k : Z) (gs : list grant) (r : Router) : Prop :=
  router_ok cyc r /\
  get_num_inports r = get_num_inports r0 /\ get_num_outports r = get_num_outports r0 /\
  rt_virtual_networks r = rt_virtual_networks r0 /\
  (forall o i, requested r o i -> k <= o -> exists invc, winner r o i invc /\ req_ok cyc r o i invc) /\
  (forall o o' i, requested r o i -> requested r o' i -> o = o') /\
  StronglySorted Z.lt (g_out <$> gs) /\ NoDup (g_in <$> gs) /\
  (forall g, g ∈ gs -> 0 <= g_out g < k /\ (forall o, ~ requested r o (g_in g))) /\
  grants_done cyc r0 r gs.

Lemma req_ok_elsewhere cyc r r' o i o' i' invc :
  same_elsewhere r r' o i -> o' <> o -> i' <> i -> req_ok cyc r o' i' invc -> req_ok cyc r' o' i' invc.
Proof.
  intros (_ & _ & _ & Hp & _ & Hi & Ho & _) Hno Hni (u & v & ou & H1 & H2 & H3 & H4). exists u, v, ou.
  rewrite Hi, Ho, Hp by done. done.
Qed.

Lemma granted_snoc cyc gs g j :
  granted cyc (gs ++ [g]) j = granted cyc gs j ++ (if decide (g_in g = j) then [g_flit cyc g] else []).
Proof.
  unfold granted. rewrite filter_app, fmap_app. f_equal. cbn [filter list_filter].
  by destruct (decide (g_in g = j)).
Qed.

(** A grant between two other ports keeps what is known of [g]. *)
Lemma grant_done_elsewhere cyc r0 r r' o i g :
  same_elsewhere r r' o i -> g_out g <> o -> g_in g <> i -> grant_done cyc r0 r g -> grant_done cyc r0 r' g.
Proof.
  intros (_ & _ & _ & _ & _ & Hi & Ho & _) Hno Hni (u & u' & v & ou & ou' & s & H1 & H2 & H3 & H4 & H5).
  exists u, u', v, ou, ou', s. rewrite Hi, Ho by done. done.
Qed.

(** A grant at ports nothing was granted at before starts from the old state. *)
Lemma grant_done_first cyc r0 r r' g :
  vget (m_input_unit r) (g_in g) = vget (m_input_unit r0) (g_in g) ->
  vget (m_output_unit r) (g_out g) = vget (m_output_unit r0) (g_out g) ->
  grant_done cyc r r' g -> grant_done cyc r0 r' g.
Proof.
  intros Hi Ho (u & u' & v & ou & ou' & s & H1 & H2 & H3 & H4 & H5).
  exists u, u', v, ou, ou', s. rewrite <- Hi, <- Ho. done.
Qed.

Lemma grants_done_snoc cyc r0 r r' gs g :
  grants_done cyc r0 r gs -> granted_to cyc r r' g -> same_elsewhere r r' (g_out g) (g_in g) ->
  g_in g ∉ g_in <$> gs -> g_out g ∉ g_out <$> gs -> grants_done cyc r0 r' (gs ++ [g]).
Proof.
  intros (Hgs & Hin & Hout & Hsb) [(b1 & Hb1 & Hsbs) Hg] Hse Hni Hno.
  pose proof Hse as (_ & _ & _ & _ & _ & Hsi & Hso & _). split_and!.
  - intros g' [Hg'| ->%list_elem_of_singleton]%elem_of_app.
    + eapply grant_done_elsewhere; [exact Hse | | | by apply Hgs]; intros E;
        [apply Hno | apply Hni]; rewrite <- E; by apply list_elem_of_fmap_2.
    + by apply (grant_done_first _ _ r); [apply Hin | apply Hout |].
  - intros i. rewrite fmap_app, not_elem_of_app, list_fmap_singleton, list_elem_of_singleton. intros [H1 H2].
    by rewrite Hsi, Hin.
  - intros o. rewrite fmap_app, not_elem_of_app, list_fmap_singleton, list_elem_of_singleton. intros [H1 H2].
    by rewrite Hso, Hout.
  - intros j b0 Hb0. destruct (Hsb j b0 Hb0) as (b & Hb & HP). rewrite granted_snoc.
    destruct (decide (g_in g = j)) as [<-|Hne].
    + exists (fb_insert b1 (g_flit cyc g)). split; [by eapply vset_get_eq |]. rewrite Hb1 in Hb. injection Hb as <-.
      rewrite fb_insert_perm, HP, <- app_assoc. apply Permutation_middle.
    + exists b. rewrite (vset_get_ne _ _ _ _ _ Hsbs Hne). by rewrite app_nil_r.
Qed.

(** One more grant. *)
Lemma sa2_grant cyc r0 k gs r r' g :
  sa2_inv cyc r0 k gs r -> g_out g = k -> requested r k (g_in g) -> 0 <= k -> router_ok cyc r' ->
  same_elsewhere r r' k (g_in g) -> granted_to cyc r r' g -> request_removed r r' k (g_in g) ->
  sa2_inv cyc r0 (k + 1) (gs ++ [g]) r'.
Proof.
  intros (Hok & Hn1 & Hn2 & Hn3 & Hreq & Huniq & Hso & Hnd & Hgs & Hdone) <- Hki Hk Hok' Hse Hgr [Hrem Hsub].
  pose proof Hse as (S1 & S2 & _ & _ & S5 & _ & _ & Hwin).
  assert (g_in g ∉ g_in <$> gs) as Hfresh.
  { intros (g' & Hgi & Hg')%list_elem_of_fmap. destruct (Hgs g' Hg') as (_ & Hnr).
    apply (Hnr (g_out g)). by rewrite <- Hgi. }
  assert (g_out g ∉ g_out <$> gs) as Hfresho.
  { intros (g' & Hgi & Hg')%list_elem_of_fmap. destruct (Hgs g' Hg') as (? & _). lia. }
  split_and!; try congruence; try done.
  - intros o j Hr Hle. pose proof (Hsub _ _ Hr) as Hr0.
    destruct (decide (o = g_out g)) as [->|Hno]; [lia |].
    assert (j <> g_in g) as Hni by (intros ->; apply Hno; by eapply Huniq).
    destruct (Hreq o j Hr0 ltac:(lia)) as (vc & Hw & Hq). exists vc. split.
    + unfold winner in *. by rewrite Hwin.
    + by eapply req_ok_elsewhere.
  - intros o o' j H1%Hsub H2%Hsub. by eapply Huniq.
  - rewrite fmap_app. apply StronglySorted_append; [done |]. rewrite Forall_fmap, Forall_forall.
    intros g' Hg'. destruct (Hgs g' Hg') as [? _]. cbn. lia.
  - rewrite fmap_app. apply NoDup_app. split_and!; [done | | apply NoDup_singleton].
    by intros j Hj ->%list_elem_of_singleton.
  - intros g' [Hg'| ->%list_elem_of_singleton]%elem_of_app.
    + destruct (Hgs g' Hg') as (? & Hnr). split; [lia |]. intros o Ho%Hsub. by eapply Hnr.
    + split; [lia |]. intros o Ho. pose proof (Hsub _ _ Ho) as Ho0.
      by rewrite (Huniq o _ _ Ho0 Hki) in Ho.
  - by eapply grants_done_snoc.
Qed.

Lemma arbitrate_outport_ok cyc r0 k gs r evs :
  sa2_inv cyc r0 k gs r -> 0 <= k < get_num_outports r0 ->
  exists r' evs' gs', arbitrate_outport cyc (r, evs) k = Ok (r', evs') /\ sa2_inv cyc r0 (k + 1) gs' r'.
Proof.
  intros Hinv Hk. pose proof Hinv as (Hok & Hn1 & Hn2 & Hn3 & Hreq & Huniq & Hrest).
  pose proof Hok as (Hin & _ & _ & _ & Hsa & _). pose proof Hsa as (S1 & S2 & _ & _ & _ & S6 & _ & S8 & S9 & _).
  unfold arbitrate_outport. destruct (vget_is_ok (m_round_robin_inport (switchAllocator r)) k) as [p Hp]; [lia |].
  rewrite Hp. rsimpl. rewrite S1.
  destruct (foldM_brk_upto (arbitrate_outport_iter cyc k)
    (fun _ '(i, r1, e) => 0 <= i < get_num_inports r /\ r1 = r)
    (fun _ '(i, r1, e) => exists g, g_out g = k /\ g_in g = i /\ requested r k i /\ router_ok cyc r1 /\
       same_elsewhere r r1 k i /\ granted_to cyc r r1 g /\ request_removed r r1 k i)
    (get_num_inports r) (p, r, evs)) as (b & [[i r1] e] & Hf & HQ); [lia | split; [by eapply S8 | done] | |].
  - intros k0 [[i r1] e] _ [Hi ->]. unfold arbitrate_outport_iter.
    destruct (mat_get_ok _ _ (m_port_requests (switchAllocator r)) k i S9 ltac:(lia) Hi) as [rq Hrq]. rewrite Hrq. rsimpl.
    destruct rq; [| eexists false, _; split; [done |]; split; [rewrite S1; by apply next_rr_range | done]].
    destruct (Hreq k i Hrq ltac:(lia)) as (vc & Hw & Hq).
    destruct (grant_ok cyc r k i vc Hok Hw Hq) as (r' & evs' & ovc & f & -> & Hg). rsimpl.
    eexists true, _. split; [done |]. by exists {| g_out := k; g_in := i; g_invc := vc; g_outvc := ovc; g_top := f |}.
  - rewrite Hf. rsimpl. destruct b.
    + destruct HQ as (_ & _ & g & Hgo & <- & Hrq & Hok' & Hse & Hgr & Hrem).
      exists r1, e, (gs ++ [g]). split; [done |]. eapply sa2_grant; try done. lia.
    + destruct HQ as [_ ->]. exists r, e, gs. split; [done |].
      destruct Hrest as (Hso & Hnd & Hgs & Hdone). split_and!; try done; try apply Hdone.
      * intros o j Hr Hle. apply Hreq; [done | lia].
      * intros g Hg. destruct (Hgs g Hg) as (? & ?). split_and!; try done; lia.
Qed.

Lemma arbitrate_outports_ok cyc r0 r :
  router_ok cyc r0 -> sa1_inv cyc r0 (get_num_inports r0) r ->
  exists r' evs gs, arbitrate_outports cyc r = Ok (r', evs) /\ sa2_inv cyc r0 (get_num_outports r0) gs r'.
Proof.
  intros Hok (a & -> & Ha & Hreq & Huniq). unfold arbitrate_outports. cbn [setf switchAllocator].
  pose proof Ha as (_ & S2 & _). rewrite S2.
  destruct (foldM_upto (arbitrate_outport cyc)
    (fun k '(r1, _) => exists gs, sa2_inv cyc r0 k gs r1) (get_num_outports r0) (r0 ⟨ switchAllocator := a ⟩, []))
    as ([r' evs] & Hf & gs & Hinv).
  - unfold get_num_outports. lia.
  - exists []. split_and!; try done; try (by constructor).
    + by apply router_ok_sa.
    + intros o i Hr _. by apply Hreq in Hr as [_ ?].
    + intros g Hg. by apply elem_of_nil in Hg.
    + split_and!; [intros g Hg; by apply elem_of_nil in Hg | done | done | intros i b Hb; by exists b].
  - intros k [r1 e] Hk (gs & Hinv). destruct (arbitrate_outport_ok cyc r0 k gs r1 e Hinv Hk) as (r' & e' & gs' & Hr & Hi').
    exists (r', e'). split; [done |]. by exists gs'.
  - by exists r', evs, gs.
Qed.

(** ** The allocator's cycle *)

Lemma mat_get_map {A B} (g : A -> B) x i j : mat_get (map (map g) x) i j = (g <$> mat_get x i j).
Proof.
  unfold mat_get, vget. destruct (decide (0 <= i)); [| done]. rewrite list_lookup_fmap.
  destruct (x !! Z.to_nat i) as [row|]; [| done]. cbn. destruct (decide (0 <= j)); [| done].
  rewrite list_lookup_fmap. by destruct (row !! Z.to_nat j).
Qed.

Lemma clear_requests_ok cyc r : router_ok cyc r -> router_ok cyc (clear_request_vector r) /\ no_requests (clear_request_vector r).
Proof.
  intros Hok. split.
  - apply router_ok_sa; [done |]. destruct Hok as (_ & _ & _ & _ & (S1 & S2 & S3 & S4 & S5 & S6 & S7 & S8 & [S9 S9'] & S10) & _).
    unfold sa_ok. cbn [setf sa_num_inports sa_num_outports sa_num_vcs sa_vc_per_vnet m_round_robin_invc
        m_round_robin_inport m_port_requests m_vc_winners]. split_and!; try done. split; [by rewrite length_map |].
    intros i row Hrow. apply vget_Ok in Hrow as [Hi Hrow]. rewrite list_lookup_fmap in Hrow.
    destruct (m_port_requests (switchAllocator r) !! Z.to_nat i) as [row0|] eqn:E; [| done]. injection Hrow as <-.
    rewrite length_map. apply (S9' i). apply vget_Ok. done.
  - intros o i. unfold requested, clear_request_vector. cbn [setf switchAllocator m_port_requests].
    rewrite mat_get_map. by destruct (mat_get _ o i).
Qed.

Lemma check_for_wakeup_ok cyc r : router_ok cyc r -> 0 <= cyc -> cyc + 1 < 2 ^ 64 ->
  exists evs, check_for_wakeup cyc r = Ok evs.
Proof.
  intros (Hin & _ & _ & _ & (S1 & _ & S3 & _) & _ & Hius & _) Hc Hc1. unfold check_for_wakeup.
  rewrite (u64_id (cyc + 1)) by (unfold in_u64; lia). rewrite S1.
  destruct (foldM_brk_upto (check_wakeup_port (cyc + 1) r) (fun _ _ => True) (fun _ _ => True) (get_num_inports r) tt)
    as (b & st & -> & _); [lia | done | | by eexists].
  intros i s0 Hi _. unfold check_wakeup_port. destruct (vget_is_ok (m_input_unit r) i Hi) as [u Hu].
  rewrite (getInputUnit_ok r i u ltac:(lia) Hu). rsimpl. rewrite S3. pose proof (Hius _ _ Hu) as Hiu.
  destruct (foldM_brk_upto (check_wakeup_vc (cyc + 1) u) (fun _ _ => True) (fun _ _ => True) (rt_num_vcs r) tt)
    as (b & st & -> & _); [destruct Hiu; lia | done | | by exists b, st; destruct b].
  intros j s1 Hj _. unfold check_wakeup_vc.
  destruct (iu_need_stage_ok cyc (cyc + 1) _ _ u j SA_ Hiu ltac:(lia) Hj) as (v & b & _ & _ & -> & _). rsimpl.
  exists b, tt. by destruct b.
Qed.

(** C3.  Switch allocation is sound.  From a well-formed router with no
    pending requests, a wake-up of the switch allocator runs to its end (no
    assertion fails, and the output VC that the first stage saw free is free
    when the second stage takes it), leaves the router well-formed with no
    pending requests, and makes a set of grants in which every output port
    and every input port occurs at most once.  For every grant: the front flit
    of the winning VC, and nothing else, left the VCs of its input port, the
    VC is routed to the granted port, a tail frees the VC, and one credit is
    queued upstream; the output VC was the winner's or a free one of its
    virtual network, had a credit, is in use and has one credit less.  The
    crossbar buffer of every input port received exactly the granted flit,
    marked with its output port, its output VC and stage [ST_].  Ports without
    a grant are unchanged. *)
Theorem switch_allocation_sound (cfg : NetConfig) (cyc : Z) (r : Router) :
  router_ok cyc r -> Z.of_nat (length (m_ordered (cfg_net cfg))) = rt_virtual_networks r ->
  no_requests r -> 0 <= cyc -> cyc + 1 < 2 ^ 64 ->
  exists r' evs gs, SwitchAllocator_wakeup cfg cyc r = Ok (r', evs) /\
    router_ok cyc r' /\ no_requests r' /\
    StronglySorted Z.lt (g_out <$> gs) /\ NoDup (g_in <$> gs) /\ grants_done cyc r r' gs.
Proof.
  intros Hok Hord Hno Hc Hc1. unfold SwitchAllocator_wakeup.
  destruct (arbitrate_inports_ok cfg cyc r Hok Hord Hno) as (r1 & -> & H1). rsimpl.
  destruct (arbitrate_outports_ok cyc r r1 Hok H1) as (r2 & evs & gs & -> & H2). rsimpl.
  destruct H2 as (Hok2 & _ & _ & _ & _ & _ & Hso & Hnd & Hgs & Hdone).
  destruct (clear_requests_ok cyc r2 Hok2) as [Hok3 Hno3].
  destruct (check_for_wakeup_ok cyc (clear_request_vector r2) Hok3 Hc Hc1) as [ev2 ->]. rsimpl.
  do 3 eexists. split; [done |]. split_and!; try done; apply Hdone.
Qed.

(** ** A router with one flit waiting *)

Lemma vget_Forall {A} (P : A -> Prop) l i x : Forall P l -> vget l i = Ok x -> P x.
Proof. intros Hl [_ Hx]%vget_Ok. rewrite Forall_lookup in Hl. by eapply Hl. Qed.

Lemma vc_ok_empty cyc outs v : m_buffer (inputBuffer v) = [] -> vc_ok cyc outs v.
Proof.
  intros He. unfold vc_ok, fb_ok, vc_order, vc_routed. rewrite He. split_and!; [apply is_heap_nil | | done].
  exists []. split_and!; [done | constructor | intros k f Hk; by destruct k].
Qed.

Definition demo_waiting : flit := advance_stage (flit_ctor 0 4 2 no_route 1 (Message_ctor 0 [] Data 5) 3) SA_ 3.
Definition demo_vc : VirtualChannel :=
  {| inputBuffer := fb_insert flitBuffer_ctor demo_waiting; vc_state := (ACTIVE_, 3); m_output_port := 1;
     vc_enqueue_time := 3; m_output_vc := -1 |}.
Definition demo_ov : OutVcState :=
  {| ov_id := 0; ov_time := 0; ov_state := IDLE_; m_credit_count := 4; m_max_credit_count := 4 |}.
Definition demo_outs : list OutputUnit :=
  [{| ou_id := 0; ou_direction := "East"; ou_vc_per_vnet := 2; outBuffer := flitBuffer_ctor; outVcState := replicate 6 demo_ov |};
   {| ou_id := 1; ou_direction := "North"; ou_vc_per_vnet := 2; outBuffer := flitBuffer_ctor; outVcState := replicate 6 demo_ov |}].
Definition demo_router : Router :=
  Router_init (Router_ctor 0 1 3 2
    ⟨ m_input_unit := [InputUnit_ctor 0 "Local" 6 2 ⟨ virtualChannels := replicate 4 VirtualChannel_ctor ++ [demo_vc; VirtualChannel_ctor] ⟩;
                       InputUnit_ctor 1 "West" 6 2] ⟩
    ⟨ m_output_unit := demo_outs ⟩).

Lemma demo_vc_ok cyc : 3 <= cyc -> vc_ok cyc demo_outs demo_vc.
Proof.
  intros Hc. split_and!.
  - apply fb_insert_ok, fb_ctor_ok.
  - exists [demo_waiting]. split_and!; [done | by repeat constructor |]. intros [|k] f Hk; [done | by destruct k].
  - intros _. split_and!; [done | done |]. eexists. split; [reflexivity | by left].
Qed.

Lemma demo_shape {A} (x : A) : mat_shape 2 2 (replicate 2 (replicate 2 x)).
Proof.
  split; [done |]. intros i row. apply (vget_Forall (fun row => Z.of_nat (length row) = 2)).
  by repeat (apply Forall_cons_2 || apply Forall_nil_2).
Qed.

Lemma demo_router_ok : router_ok 5 demo_router /\ no_requests demo_router.
Proof.
  split.
  - unfold router_ok. split_and!; try done.
    + unfold sa_ok. split_and!; try done.
      * intros i p. apply (vget_Forall (fun p => 0 <= p < rt_num_vcs demo_router)).
        by repeat (apply Forall_cons_2 || apply Forall_nil_2).
      * intros i p. apply (vget_Forall (fun p => 0 <= p < get_num_inports demo_router)).
        by repeat (apply Forall_cons_2 || apply Forall_nil_2).
      * apply demo_shape.
      * apply demo_shape.
    + intros i u. apply vget_Forall. change (m_output_unit demo_router) with demo_outs.
      repeat apply Forall_cons_2; [split; [done |] .. | apply Forall_nil_2];
        intros j v; apply vget_Forall; repeat (apply Forall_cons_2 || apply Forall_nil_2);
        first [by apply vc_ok_empty | apply demo_vc_ok; lia].
    + intros o u. apply vget_Forall.
      repeat apply Forall_cons_2; [split_and!; [done | done |] .. | apply Forall_nil_2];
        intros j s; apply (vget_Forall (fun s => ov_state s = IDLE_ -> 1 <= m_credit_count s));
        by repeat (apply Forall_cons_2 || apply Forall_nil_2).
  - intros o i H. unfold requested in H. pose proof (mat_get_range 2 2 (m_port_requests (switchAllocator demo_router)) o i true) as Hr.
    destruct Hr as [Ho Hi]; [apply demo_shape | done |].
    assert (o = 0 \/ o = 1) as [-> | ->] by lia; assert (i = 0 \/ i = 1) as [-> | ->] by lia; discriminate H.
Qed.

Lemma switch_allocation_sound_witness :
  exists r' evs gs, SwitchAllocator_wakeup demo_cfg 5 demo_router = Ok (r', evs) /\
    router_ok 5 r' /\ no_requests r' /\
    StronglySorted Z.lt (g_out <$> gs) /\ NoDup (g_in <$> gs) /\ grants_done 5 demo_router r' gs.
Proof.
  apply (switch_allocation_sound demo_cfg 5 demo_router); [apply demo_router_ok | done | apply demo_router_ok | lia | lia].
Defined.
