(* ===== verification/Crossbar.v ===== *)
(** * Switch traversal

    Proves [CrossbarSwitch::wakeup] correct: in one cycle exactly the flits that
    won switch allocation and are due leave the buffers of their input ports,
    each into the buffer of its own output port, none lost, duplicated or sent
    to another port. *)
From S2P Require Import Prelude StdHeap NetDest Common MessageBuffer Flit Network RoutingUnit PortUnits Router SwitchAllocation.

(** Unfolds assignments to the fields of a router and its parts. *)
Ltac rtfields := cbn [setf rt_id rt_latency rt_virtual_networks rt_vc_per_vnet rt_num_vcs routingUnit
  switchAllocator crossbarSwitch m_input_unit m_output_unit switchBuffers m_crossbar_activity
  outBuffer outVcState ou_id].

(** The flit of an input port that crosses the switch in cycle [cyc]. *)
Definition crossing (cyc : Z) (b : flitBuffer) : option flit :=
  match m_buffer b with
  | f :: _ => if ((f_time f <=? cyc) && is_stage f ST_ cyc)%bool then Some f else None
  | [] => None
  end.

(** The buffer after that flit left, and the flit as it reaches the output. *)
Definition crossed (cyc : Z) (b : flitBuffer) : flitBuffer :=
  match crossing cyc b with
  | Some _ => {| m_buffer := heap_remove flit_greater (m_buffer b); max_size := max_size b |}
  | None => b
  end.
Definition lt_flit (cyc : Z) (f : flit) : flit :=
  advance_stage f LT_ (u64 (cyc + 1)) ⟨ f_time := u64 (cyc + 1) ⟩.

(** Flits among [fs] for output port [o]. *)
Definition to_port (o : Z) (fs : list flit) : list flit := filter (fun f => m_outport f = o) fs.

Lemma to_port_app o l k : to_port o (l ++ k) = to_port o l ++ to_port o k.
Proof. apply filter_app. Qed.

(** Router [r'] is [r] after the flits [fs] were put into the output ports. *)
Definition delivered (cyc : Z) (r r' : Router) (fs : list flit) : Prop :=
  m_input_unit r' = m_input_unit r /\ switchAllocator r' = switchAllocator r /\
  routingUnit r' = routingUnit r /\ length (m_output_unit r') = length (m_output_unit r) /\
  m_crossbar_activity (crossbarSwitch r') = m_crossbar_activity (crossbarSwitch r) + Z.of_nat (length fs) /\
  forall o u, vget (m_output_unit r) o = Ok u ->
    exists u', vget (m_output_unit r') o = Ok u' /\ outVcState u' = outVcState u /\
      m_buffer (outBuffer u') ≡ₚ (lt_flit cyc <$> to_port o fs) ++ m_buffer (outBuffer u).

Lemma crossbar_port_ok cyc r evs i b :
  vget (switchBuffers (crossbarSwitch r)) i = Ok b ->
  (forall f, crossing cyc b = Some f -> 0 <= m_outport f < get_num_outports r) ->
  get_num_outports r < 2 ^ 32 ->
  exists r' evs', crossbar_port cyc (r, evs) i = Ok (r', evs') /\
    switchBuffers (crossbarSwitch r') = <[Z.to_nat i := crossed cyc b]> (switchBuffers (crossbarSwitch r)) /\
    delivered cyc r r' (option_list (crossing cyc b)).
Proof.
  intros Hb Hport H32. unfold crossbar_port. rewrite Hb. rsimpl.
  pose proof (vget_range _ _ _ Hb) as Hir. pose proof Hb as [_ Hbl]%vget_Ok.
  unfold crossed. destruct (crossing cyc b) as [f|] eqn:Ec; [change (option_list (Some f)) with [f] | change (option_list None) with (@nil flit)].
  - specialize (Hport f eq_refl). unfold crossing in Ec. destruct (m_buffer b) as [|g l] eqn:Eb; [done |].
    destruct ((f_time g <=? cyc) && is_stage g ST_ cyc)%bool eqn:E; [| done]. injection Ec as ->. b2p.
    unfold fb_isReady. rewrite Eb, (proj2 (Z.leb_le _ _)) by done. cbn [negb]. unfold peekTopFlit. rewrite Eb.
    cbn [vfront]. rsimpl. match goal with H : is_stage f ST_ cyc = true |- _ => rewrite H end.
    destruct (vget_is_ok (m_output_unit r) (m_outport f)) as [u Hu]; [done |].
    rewrite (getOutputUnit_ok r _ u) by done. rsimpl. unfold set_output_unit.
    destruct (vset_is_ok (m_output_unit r) (m_outport f) (insert_flit u (lt_flit cyc f)).1) as [us Hus]; [done |].
    unfold lt_flit in Hus. rewrite Hus. rsimpl. unfold getTopFlit. rewrite Eb. cbn [vfront]. rsimpl. rtfields.
    rewrite <- Eb. apply vset_Ok in Hus as [_ ->].
    rewrite (proj2 (vset_Ok _ i _ _) (conj Hir eq_refl)). rsimpl.
    do 2 eexists. split; [done |]. split; [done |]. unfold delivered. rtfields. cbn [length].
    split_and!; [done | done | done | by rewrite length_insert | lia |].
    intros o v Hv. unfold to_port. cbn [filter list_filter]. destruct (decide (m_outport f = o)) as [<-|Hne].
    + eexists. split; [apply (vset_get_eq (m_output_unit r)); by apply vset_Ok |].
      rewrite Hu in Hv. injection Hv as <-. unfold insert_flit. cbn [fst]. rtfields. split; [done |].
      cbn [fmap list_fmap app]. apply fb_insert_perm.
    + exists v. split; [| done]. rewrite <- Hv. eapply (vset_get_ne (m_output_unit r)); [by apply vset_Ok | done].
  - exists r, evs. split.
    + unfold crossing in Ec. unfold fb_isReady, peekTopFlit. destruct (m_buffer b) as [|g l]; [done |].
      cbn [vfront]. destruct (f_time g <=? cyc); cbn [negb andb] in *; [| done]. rsimpl.
      destruct (is_stage g ST_ cyc); done.
    + split; [by rewrite list_insert_id |]. unfold delivered. cbn [length]. split_and!; try done; [lia |].
      intros o u Hu. by exists u.
Qed.

Lemma delivered_trans cyc r r1 r2 f1 f2 :
  delivered cyc r r1 f1 -> delivered cyc r1 r2 f2 -> delivered cyc r r2 (f1 ++ f2).
Proof.
  intros (A1 & A2 & A3 & A4 & A5 & A6) (B1 & B2 & B3 & B4 & B5 & B6). unfold delivered.
  split_and!; try congruence; [rewrite length_app; lia |]. intros o u Hu.
  destruct (A6 o u Hu) as (u1 & Hu1 & Es1 & HP1). destruct (B6 o u1 Hu1) as (u2 & Hu2 & Es2 & HP2).
  exists u2. split_and!; [done | congruence |]. rewrite HP2, HP1, to_port_app, fmap_app.
  rewrite app_assoc. f_equiv. apply Permutation_app_comm.
Qed.

Lemma omap_snoc {A B} (f : A -> option B) l x : omap f (l ++ [x]) = omap f l ++ option_list (f x).
Proof. rewrite omap_app. cbn [omap list_omap]. by destruct (f x). Qed.

(** C38.  Switch traversal: in one wake-up of the crossbar every input port's due
    flit crosses, and only those: each switch buffer loses exactly its crossing
    flit, each output port gains exactly the crossing flits addressed to it,
    now in stage [LT_] with the next cycle's time, the activity counter counts
    them, and no port outside the router is ever asked for. *)
Theorem crossbar_delivers (cyc : Z) (r : Router) :
  get_num_outports r < 2 ^ 32 ->
  (forall b f, b ∈ switchBuffers (crossbarSwitch r) -> crossing cyc b = Some f ->
     0 <= m_outport f < get_num_outports r) ->
  exists r' evs, CrossbarSwitch_wakeup cyc r = Ok (r', evs) /\
    switchBuffers (crossbarSwitch r') = crossed cyc <$> switchBuffers (crossbarSwitch r) /\
    delivered cyc r r' (omap (crossing cyc) (switchBuffers (crossbarSwitch r))).
Proof.
  intros H32 Hport. unfold CrossbarSwitch_wakeup. set (bs := switchBuffers (crossbarSwitch r)) in *.
  destruct (foldM_upto (crossbar_port cyc)
    (fun k st => switchBuffers (crossbarSwitch st.1) =
         (crossed cyc <$> take (Z.to_nat k) bs) ++ drop (Z.to_nat k) bs /\
       delivered cyc r st.1 (omap (crossing cyc) (take (Z.to_nat k) bs)))
    (Z.of_nat (length bs)) (r, [])) as ([r' evs] & -> & Hbs & Hd); [lia | | |].
  - split; [done |]. change (omap (crossing cyc) (take (Z.to_nat 0) bs)) with (@nil flit).
    unfold delivered. cbn [fst length]. split_and!; try done; [lia |]. intros o u Hu. by exists u.
  - intros i [r1 evs] Hi [Hbs Hd]. cbn [fst] in *.
    destruct (vget_is_ok bs i) as [b Hb]; [done |]. pose proof Hb as [_ Hbl]%vget_Ok.
    assert (Hlen : length (crossed cyc <$> take (Z.to_nat i) bs) = Z.to_nat i)
      by (rewrite length_fmap, length_take; lia).
    assert (get_num_outports r1 = get_num_outports r) as Hn
      by (unfold get_num_outports; by rewrite (proj1 (proj2 (proj2 (proj2 Hd))))).
    destruct (crossbar_port_ok cyc r1 evs i b) as (r2 & evs2 & Hr2 & Hbs2 & Hd2).
    + apply vget_Ok. split; [lia |]. rewrite Hbs, lookup_app_r, Hlen, Nat.sub_diag by lia.
      by rewrite lookup_drop, Nat.add_0_r.
    + rewrite Hn. intros f Hf. apply (Hport b f); [| done]. by eapply list_elem_of_lookup_2.
    + by rewrite Hn.
    + exists (r2, evs2). split; [done |]. cbn [fst]. replace (Z.to_nat (i + 1)) with (S (Z.to_nat i)) by lia.
      rewrite (take_S_r _ _ _ Hbl), omap_snoc. split; [| by eapply delivered_trans].
      rewrite Hbs2, Hbs, (drop_S _ _ _ Hbl), insert_app_r_alt, Hlen, Nat.sub_diag by lia.
      cbn [insert list_insert]. rewrite fmap_app. cbn [fmap list_fmap]. by rewrite <- app_assoc.
  - exists r', evs. cbn [fst] in *. rewrite Nat2Z.id, take_ge, drop_ge, app_nil_r in * by lia. done.
Qed.

(** The demonstration router with one granted flit for output port 0. *)
Definition xbar_flit : flit := advance_stage demo_waiting ST_ 5 ⟨ m_outport := 0 ⟩.
Definition xbar_router : Router :=
  demo_router ⟨ crossbarSwitch := {| m_crossbar_activity := 0;
    switchBuffers := [fb_insert flitBuffer_ctor xbar_flit] |} ⟩.

Lemma crossbar_delivers_witness :
  crossing 5 (fb_insert flitBuffer_ctor xbar_flit) = Some xbar_flit /\
  exists r' evs, CrossbarSwitch_wakeup 5 xbar_router = Ok (r', evs) /\
    switchBuffers (crossbarSwitch r') = crossed 5 <$> switchBuffers (crossbarSwitch xbar_router) /\
    delivered 5 xbar_router r' (omap (crossing 5) (switchBuffers (crossbarSwitch xbar_router))).
Proof.
  split; [vm_compute; reflexivity |]. apply crossbar_delivers; [reflexivity |].
  intros b f Hb. apply list_elem_of_singleton in Hb as ->. vm_compute. intros [= <-]. done.
Defined.
