(* ===== verification/NetworkInterface.v ===== *)
(** * The network interface

    Models [garnet2.0/NetworkInterface.{hh,cc}]: messages from the protocol are
    cut into flits and sent under credit flow control; arriving flits are
    turned back into messages, with a stall queue for messages whose protocol
    buffer is full.

    The interface owns, in this model, the message buffers it is connected to;
    the protocol's own accesses happen between wake-ups.  Calls into the
    network's statistics act on a [NetStats] record; wake-up requests are
    collected in a list of [ni_event]s.

    The number of flits, [ceil((double) size / flit_size)] on 32-bit operands,
    is modelled by integer division rounding up: the quotient of two such
    numbers is either an integer or further from one than the rounding error
    of a [double], so both agree. *)
From S2P Require Import Prelude StdHeap NetDest Common MessageBuffer Flit Network RoutingUnit PortUnits.

Record NetworkInterface := {
  ni_id : Z;
  ni_virtual_networks : Z;
  ni_vc_per_vnet : Z;
  m_router_id : Z;
  m_vc_allocator : list Z;
  m_vc_round_robin : Z;
  outFlitQueue : flitBuffer;
  outCreditQueue : flitBuffer;
  m_deadlock_threshold : Z;
  ni_outVcState : list OutVcState;
  m_stall_queue : list flit;
  ni_stall_count : list Z;
  niOutVcs : list flitBuffer;
  m_ni_out_vcs_enqueue_time : list Z;
  inNode_ptr : list (option MessageBuffer);
  outNode_ptr : list (option MessageBuffer);
  vc_busy_counter : list Z
}.

#[export] Instance NetworkInterface_eta : Eta NetworkInterface := {| eta := fun n =>
  {| ni_id := ni_id n; ni_virtual_networks := ni_virtual_networks n; ni_vc_per_vnet := ni_vc_per_vnet n;
     m_router_id := m_router_id n; m_vc_allocator := m_vc_allocator n; m_vc_round_robin := m_vc_round_robin n;
     outFlitQueue := outFlitQueue n; outCreditQueue := outCreditQueue n;
     m_deadlock_threshold := m_deadlock_threshold n; ni_outVcState := ni_outVcState n;
     m_stall_queue := m_stall_queue n; ni_stall_count := ni_stall_count n; niOutVcs := niOutVcs n;
     m_ni_out_vcs_enqueue_time := m_ni_out_vcs_enqueue_time n; inNode_ptr := inNode_ptr n;
     outNode_ptr := outNode_ptr n; vc_busy_counter := vc_busy_counter n |} |}.

(** The network's counters the interface updates. *)
Record NetStats := {
  m_packets_received : list Z;
  m_packets_injected : list Z;
  m_packet_network_latency : list Z;
  m_packet_queueing_latency : list Z;
  m_flits_received : list Z;
  m_flits_injected : list Z;
  m_flit_network_latency : list Z;
  m_flit_queueing_latency : list Z;
  m_total_hops : Z
}.

#[export] Instance NetStats_eta : Eta NetStats := {| eta := fun s =>
  {| m_packets_received := m_packets_received s; m_packets_injected := m_packets_injected s;
     m_packet_network_latency := m_packet_network_latency s;
     m_packet_queueing_latency := m_packet_queueing_latency s; m_flits_received := m_flits_received s;
     m_flits_injected := m_flits_injected s; m_flit_network_latency := m_flit_network_latency s;
     m_flit_queueing_latency := m_flit_queueing_latency s; m_total_hops := m_total_hops s |} |}.

Definition bump (l : list Z) (vnet d : Z) : res (list Z) := vupd l vnet (fun n => Ok (n + d)).

Definition increment_injected_packets (s : NetStats) (vnet : Z) : res NetStats :=
  l ← bump (m_packets_injected s) vnet 1; Ok (s ⟨ m_packets_injected := l ⟩).
Definition increment_received_packets (s : NetStats) (vnet : Z) : res NetStats :=
  l ← bump (m_packets_received s) vnet 1; Ok (s ⟨ m_packets_received := l ⟩).
Definition increment_packet_network_latency (s : NetStats) (latency vnet : Z) : res NetStats :=
  l ← bump (m_packet_network_latency s) vnet latency; Ok (s ⟨ m_packet_network_latency := l ⟩).
Definition increment_packet_queueing_latency (s : NetStats) (latency vnet : Z) : res NetStats :=
  l ← bump (m_packet_queueing_latency s) vnet latency; Ok (s ⟨ m_packet_queueing_latency := l ⟩).
Definition increment_injected_flits (s : NetStats) (vnet : Z) : res NetStats :=
  l ← bump (m_flits_injected s) vnet 1; Ok (s ⟨ m_flits_injected := l ⟩).
Definition increment_received_flits (s : NetStats) (vnet : Z) : res NetStats :=
  l ← bump (m_flits_received s) vnet 1; Ok (s ⟨ m_flits_received := l ⟩).
Definition increment_flit_network_latency (s : NetStats) (latency vnet : Z) : res NetStats :=
  l ← bump (m_flit_network_latency s) vnet latency; Ok (s ⟨ m_flit_network_latency := l ⟩).
Definition increment_flit_queueing_latency (s : NetStats) (latency vnet : Z) : res NetStats :=
  l ← bump (m_flit_queueing_latency s) vnet latency; Ok (s ⟨ m_flit_queueing_latency := l ⟩).
Definition increment_total_hops (s : NetStats) (hops : Z) : NetStats := s ⟨ m_total_hops := m_total_hops s + hops ⟩.

Inductive ni_event :=
  | WakeSelf (cycles : Z)            (** the interface itself, after that many cycles *)
  | WakeOutNetLink                   (** next cycle *)
  | WakeOutCreditLink                (** next cycle *)
  | BufferEvent (vnet : Z) (e : mb_event).

(** What an interface reads of its surroundings during a wake-up: [cyc] is
    [curCycle()], [now] is [clockEdge()] in ticks, [curTick] the global tick,
    [period] its clock period, [routers] the router of every interface, and
    [draws] the random numbers of [MessageBuffer::enqueue]. *)
Record Env := {
  e_cfg : NetConfig;
  e_rs : RubySystem;
  e_counts : list Z;
  routers : list Z;
  cyc : Z;
  now : Z;
  curTick : Z;
  period : Z;
  draws : Z * Z * Z
}.

Definition ticksToCycles (env : Env) (t : Z) : Z := divCeil t (period env).
Definition cyclesToTicks (env : Env) (c : Z) : Z := u64 (period env * c).

(** ** Construction *)

Definition NetworkInterface_ctor (id virt_nets vcs_per_vnet deadlock_threshold : Z) : NetworkInterface :=
  let num_vcs := vcs_per_vnet * virt_nets in
  {| ni_id := id; ni_virtual_networks := virt_nets; ni_vc_per_vnet := vcs_per_vnet; m_router_id := -1;
     m_vc_allocator := replicate (Z.to_nat virt_nets) 0; m_vc_round_robin := 0;
     outFlitQueue := flitBuffer_ctor; outCreditQueue := flitBuffer_ctor;
     m_deadlock_threshold := deadlock_threshold; ni_outVcState := []; m_stall_queue := [];
     ni_stall_count := replicate (Z.to_nat virt_nets) 0;
     niOutVcs := replicate (Z.to_nat num_vcs) flitBuffer_ctor;
     m_ni_out_vcs_enqueue_time := replicate (Z.to_nat num_vcs) INFINITE_;
     inNode_ptr := []; outNode_ptr := []; vc_busy_counter := replicate (Z.to_nat virt_nets) 0 |}.

Definition NetworkInterface_init (cfg : NetConfig) (n : NetworkInterface) : res NetworkInterface :=
  ovs ← foldM (fun l i => s ← OutVcState_ctor cfg i; Ok (l ++ [s]))
          (upto (ni_vc_per_vnet n * ni_virtual_networks n)) (ni_outVcState n);
  Ok (n ⟨ ni_outVcState := ovs ⟩).

(** The links read the interface's queues and wake it. *)
Definition NI_addInPort (n : NetworkInterface) (in_link : NetworkLink) : NetworkLink :=
  setLinkConsumer in_link (ni_id n).
Definition NI_addOutPort (n : NetworkInterface) (credit_link : NetworkLink) (router_id : Z)
    : NetworkInterface * NetworkLink :=
  (n ⟨ m_router_id := router_id ⟩, setLinkConsumer credit_link (ni_id n)).

Fixpoint set_consumers (id : Z) (l : list (option MessageBuffer)) : res (list (option MessageBuffer)) :=
  match l with
  | [] => Ok []
  | None :: l => l ← set_consumers id l; Ok (None :: l)
  | Some b :: l => b ← setConsumer b id; l ← set_consumers id l; Ok (Some b :: l)
  end.

Definition addNode (n : NetworkInterface) (inb out : list (option MessageBuffer)) : res NetworkInterface :=
  inb ← set_consumers (ni_id n) inb;
  Ok (n ⟨ inNode_ptr := inb ⟩ ⟨ outNode_ptr := out ⟩).

Definition dequeueCallback : list ni_event := [WakeSelf 1].

(** ** Statistics, credits, output VCs *)

Definition incrementStats (env : Env) (s : NetStats) (t_flit : flit) : res NetStats :=
  let vnet := m_vnet t_flit in
  s ← increment_received_flits s vnet;
  d ← cycles_sub (m_dequeue_time t_flit) (m_enqueue_time t_flit);
  network_delay ← cycles_sub d 1;
  dest_queueing_delay ← cycles_sub (cyc env) (m_dequeue_time t_flit);
  let queueing_delay := u64 (src_delay t_flit + dest_queueing_delay) in
  s ← increment_flit_network_latency s network_delay vnet;
  s ← increment_flit_queueing_latency s queueing_delay vnet;
  s ← (if is_tail t_flit then
         s ← increment_received_packets s vnet;
         s ← increment_packet_network_latency s network_delay vnet;
         increment_packet_queueing_latency s queueing_delay vnet
       else Ok s);
  Ok (increment_total_hops s (hops_traversed (m_route t_flit))).

Definition sendCredit (env : Env) (n : NetworkInterface) (t_flit : flit) (is_free : bool) : NetworkInterface :=
  n ⟨ outCreditQueue := fb_insert (outCreditQueue n) (Credit_ctor (m_vc t_flit) is_free (cyc env)) ⟩.

(** [outVcState[vc].op(...)]. *)
Definition ni_upd_vc (n : NetworkInterface) (vc : Z) (f : OutVcState -> res OutVcState) : res NetworkInterface :=
  ovs ← vupd (ni_outVcState n) vc f; Ok (n ⟨ ni_outVcState := ovs ⟩).

(** The round-robin search of [calculateVC]; [true] when an idle VC is found. *)
Definition calculateVC_iter (env : Env) (vnet : Z) (st : NetworkInterface * Z) (i : Z)
    : res (bool * (NetworkInterface * Z)) :=
  let n := st.1 in
  delta ← vget (m_vc_allocator n) vnet;
  let next := delta + 1 in
  al ← vset (m_vc_allocator n) vnet (if next =? ni_vc_per_vnet n then 0 else next);
  let n := n ⟨ m_vc_allocator := al ⟩ in
  let vc := vnet * ni_vc_per_vnet n + delta in
  s ← vget (ni_outVcState n) vc;
  if isInState s IDLE_ (cyc env) then
    bc ← vset (vc_busy_counter n) vnet 0;
    Ok (true, (n ⟨ vc_busy_counter := bc ⟩, vc))
  else Ok (false, (n, -1)).

Definition calculateVC (env : Env) (n : NetworkInterface) (vnet : Z) : res (NetworkInterface * Z) :=
  x ← foldM_brk (calculateVC_iter env vnet) (upto (ni_vc_per_vnet n)) (n, -1);
  if (x.1 : bool) then Ok x.2
  else
    let n := x.2.1 in
    c ← vget (vc_busy_counter n) vnet;
    bc ← vset (vc_busy_counter n) vnet (c + 1);
    _ ← panic_if (m_deadlock_threshold n <? c + 1);
    Ok (n ⟨ vc_busy_counter := bc ⟩, -1).

(** ** Sending messages *)

Definition num_flits_of (env : Env) (m : Message) : Z :=
  let size := MessageSizeType_to_int (cfg_net (e_cfg env)) (m_MessageSize m) in
  (size + m_ni_flit_size (e_cfg env) - 1) / m_ni_flit_size (e_cfg env).

(** The loop over machine types that finds the [NetDest] of one node. *)
Definition personal_dest_iter (counts : list Z) (destID : Z) (st : netdest) (m : Z) : res (bool * netdest) :=
  lo ← MachineType_base_number counts m;
  hi ← MachineType_base_number counts (m + 1);
  if ((lo <=? destID) && (destID <? hi))%bool then
    d ← NetDest_add counts (NetDest_clear st) (MachineID m (destID - lo)); Ok (true, d)
  else Ok (false, st).

(** The message and the interface after node [destID] has been taken out of the
    destinations; [found] tells whether the clone gets the personal one. *)
Definition personalise (counts : list Z) (msg_ptr : Message) (destID : Z) : res (Message * Message) :=
  d0 ← NetDest_ctor counts;
  x ← foldM_brk (personal_dest_iter counts destID) (upto (MachineType_NUM counts)) d0;
  let new_msg := if (x.1 : bool) then msg_ptr ⟨ m_Destination := x.2 ⟩ else msg_ptr in
  rest ← NetDest_removeNetDest (m_Destination msg_ptr) x.2;
  Ok (msg_ptr ⟨ m_Destination := rest ⟩, new_msg).

Definition insert_one_flit (env : Env) (vc vnet : Z) (route : RouteInfo) (num_flits msg_time : Z) (new_msg : Message)
    (st : NetworkInterface * NetStats) (i : Z) : res (NetworkInterface * NetStats) :=
  let '(n, s) := st in
  s ← increment_injected_flits s vnet;
  delay ← cycles_sub (cyc env) (ticksToCycles env msg_time);
  let fl := flit_ctor i vc vnet route num_flits new_msg (cyc env) ⟨ src_delay := delay ⟩ in
  vs ← vupd (niOutVcs n) vc (fun b => Ok (fb_insert b fl));
  Ok (n ⟨ niOutVcs := vs ⟩, s).

(** A packet for [destID] in the output VC [vc]. *)
Definition send_packet (env : Env) (n : NetworkInterface) (s : NetStats) (msg_ptr new_msg : Message)
    (vnet vc destID num_flits : Z) : res (NetworkInterface * NetStats) :=
  dest_rt ← vget (routers env) destID;
  let route := {| ri_vnet := vnet; net_dest := m_Destination new_msg; src_ni := ni_id n;
                  src_router := m_router_id n; dest_ni := destID; dest_router := dest_rt;
                  hops_traversed := -1 |} in
  s ← increment_injected_packets s vnet;
  x ← foldM (insert_one_flit env vc vnet route num_flits (m_time msg_ptr) new_msg) (upto num_flits) (n, s);
  let '(n, s) := x in
  ts ← vset (m_ni_out_vcs_enqueue_time n) vc (cyc env);
  let n := n ⟨ m_ni_out_vcs_enqueue_time := ts ⟩ in
  n ← ni_upd_vc n vc (fun o => Ok (setState o ACTIVE_ (cyc env)));
  Ok (n, s).

(** One destination; [true] is [return false], no free VC. *)
Definition flitisize_dest (env : Env) (vnet num_flits num_dests : Z)
    (st : NetworkInterface * NetStats * Message) (destID : Z)
    : res (bool * (NetworkInterface * NetStats * Message)) :=
  let '(n, s, msg_ptr) := st in
  x ← calculateVC env n vnet;
  let '(n, vc) := x in
  if vc =? -1 then Ok (true, (n, s, msg_ptr))
  else
    y ← (if 1 <? num_dests then personalise (e_counts env) msg_ptr destID else Ok (msg_ptr, msg_ptr));
    let '(msg_ptr, new_msg) := y in
    z ← send_packet env n s msg_ptr new_msg vnet vc destID num_flits;
    Ok (false, (z.1, z.2, msg_ptr)).

(** Also returns the message, whose destinations shrink as packets are made. *)
Definition flitisizeMessage (env : Env) (n : NetworkInterface) (s : NetStats) (msg_ptr : Message) (vnet : Z)
    : res (bool * (NetworkInterface * NetStats * Message)) :=
  dest_nodes ← NetDest_getAllDest (e_counts env) (m_Destination msg_ptr);
  let num_flits := num_flits_of env msg_ptr in
  x ← foldM_brk (flitisize_dest env vnet num_flits (Z.of_nat (length dest_nodes))) dest_nodes (n, s, msg_ptr);
  Ok (negb x.1, x.2).

(** ** The output link *)

Fixpoint ni_get_vnet_loop (n : NetworkInterface) (vc : Z) (l : list Z) : res Z :=
  match l with
  | [] => Err EFatal
  | i :: l =>
      if ((i * ni_vc_per_vnet n <=? vc) && (vc <? (i + 1) * ni_vc_per_vnet n))%bool then Ok i
      else ni_get_vnet_loop n vc l
  end.
Definition ni_get_vnet (n : NetworkInterface) (vc : Z) : res Z := ni_get_vnet_loop n vc (upto (ni_virtual_networks n)).

(** Is an older packet of the ordered virtual network waiting? *)
Definition older_packet_iter (env : Env) (n : NetworkInterface) (vc vc_base : Z) (_ : unit) (vc_offset : Z)
    : res (bool * unit) :=
  let t_vc := vc_base + vc_offset in
  b ← vget (niOutVcs n) t_vc;
  if fb_isReady b (cyc env) then
    t1 ← vget (m_ni_out_vcs_enqueue_time n) t_vc;
    t2 ← vget (m_ni_out_vcs_enqueue_time n) vc;
    Ok (t1 <? t2, tt)
  else Ok (false, tt).

Definition send_flit (env : Env) (n : NetworkInterface) (vc : Z) : res NetworkInterface :=
  n ← ni_upd_vc (n ⟨ m_vc_round_robin := vc ⟩) vc ov_decrement_credit;
  b ← vget (niOutVcs n) vc;
  x ← getTopFlit b;
  vs ← vset (niOutVcs n) vc x.1;
  let t_flit := x.2 ⟨ f_time := u64 (cyc env + 1) ⟩ in
  let n := n ⟨ niOutVcs := vs ⟩ ⟨ outFlitQueue := fb_insert (outFlitQueue n) t_flit ⟩ in
  if is_tail t_flit then
    ts ← vset (m_ni_out_vcs_enqueue_time n) vc INFINITE_; Ok (n ⟨ m_ni_out_vcs_enqueue_time := ts ⟩)
  else Ok n.

Definition schedule_iter (env : Env) (st : NetworkInterface * Z) (i : Z) : res (bool * (NetworkInterface * Z)) :=
  let '(n, vc) := st in
  let vc := if vc + 1 =? Z.of_nat (length (niOutVcs n)) then 0 else vc + 1 in
  b ← vget (niOutVcs n) vc;
  s ← vget (ni_outVcState n) vc;
  if (fb_isReady b (cyc env) && ov_has_credit s)%bool then
    t_vnet ← ni_get_vnet n vc;
    let vc_base := t_vnet * ni_vc_per_vnet n in
    ord ← isVNetOrdered (e_cfg env) t_vnet;
    older ← (if (ord : bool) then
               foldM_brk (older_packet_iter env n vc vc_base) (upto (ni_vc_per_vnet n)) tt
             else Ok (false, tt));
    if (older.1 : bool) then Ok (false, (n, vc))
    else n ← send_flit env n vc; Ok (true, (n, vc))
  else Ok (false, (n, vc)).

Definition scheduleOutputLink (env : Env) (n : NetworkInterface) : res (NetworkInterface * list ni_event) :=
  x ← foldM_brk (schedule_iter env) (upto (Z.of_nat (length (niOutVcs n)))) (n, m_vc_round_robin n);
  Ok (x.2.1, if (x.1 : bool) then [WakeOutNetLink] else []).

Definition checkReschedule (env : Env) (n : NetworkInterface) : list ni_event :=
  if existsb (fun b => match b with Some b => isReady b (now env) | None => false end) (inNode_ptr n)
  then [WakeSelf 1]
  else if existsb (fun b => fb_isReady b (u64 (cyc env + 1))) (niOutVcs n) then [WakeSelf 1]
  else [].

(** ** Receiving *)

(** [outNode_ptr[vnet]->...]; a null pointer is dereferenced otherwise. *)
Definition out_buffer (n : NetworkInterface) (vnet : Z) : res MessageBuffer :=
  b ← vget (outNode_ptr n) vnet; match b with Some b => Ok b | None => Err EUninit end.
Definition set_out_buffer (n : NetworkInterface) (vnet : Z) (b : MessageBuffer) : res NetworkInterface :=
  l ← vset (outNode_ptr n) vnet (Some b); Ok (n ⟨ outNode_ptr := l ⟩).

(** Hand the message of a tail flit to the protocol and free its VC. *)
Definition eject (env : Env) (n : NetworkInterface) (s : NetStats) (t_flit : flit)
    : res (NetworkInterface * NetStats * list ni_event) :=
  let vnet := m_vnet t_flit in
  b ← out_buffer n vnet;
  x ← enqueue (e_rs env) (draws env) b (m_msg_ptr t_flit) (now env) (cyclesToTicks env 1);
  n ← set_out_buffer n vnet x.1;
  let n := sendCredit env n t_flit true in
  s ← incrementStats env s t_flit;
  Ok (n, s, map (BufferEvent vnet) x.2).

(** The room check, which counts refusals in the buffer. *)
Definition has_room (env : Env) (n : NetworkInterface) (vnet : Z) : res (NetworkInterface * bool) :=
  b ← out_buffer n vnet;
  let '(b, ok) := areNSlotsAvailable b 1 (now env) in
  n ← set_out_buffer n vnet b; Ok (n, ok).

(** The loop over the stall queue: [seen] are the flits left in place. *)
Fixpoint check_stall (env : Env) (n : NetworkInterface) (s : NetStats) (seen rest : list flit)
    : res (bool * (NetworkInterface * NetStats * list ni_event)) :=
  match rest with
  | [] => Ok (false, (n, s, []))
  | stallFlit :: rest =>
      let vnet := m_vnet stallFlit in
      x ← has_room env n vnet;
      let '(n, ok) := x in
      if (ok : bool) then
        y ← eject env n s stallFlit;
        let '(n, s, evs) := y in
        let n := n ⟨ m_stall_queue := seen ++ rest ⟩ in
        c ← vget (ni_stall_count n) vnet;
        sc ← vset (ni_stall_count n) vnet (c - 1);
        let n := n ⟨ ni_stall_count := sc ⟩ in
        n ← (if c - 1 =? 0 then
               b ← out_buffer n vnet; set_out_buffer n vnet (unregisterDequeueCallback b)
             else Ok n);
        Ok (true, (n, s, evs))
      else check_stall env n s (seen ++ [stallFlit]) rest
  end.

Definition checkStallQueue (env : Env) (n : NetworkInterface) (s : NetStats)
    : res (bool * (NetworkInterface * NetStats * list ni_event)) :=
  check_stall env n s [] (m_stall_queue n).

(** A flit from the network. *)
Definition receive_flit (env : Env) (n : NetworkInterface) (s : NetStats) (messageEnqueuedThisCycle : bool)
    (t_flit : flit) : res (NetworkInterface * NetStats * list ni_event) :=
  let vnet := m_vnet t_flit in
  let t_flit := t_flit ⟨ m_dequeue_time := cyc env ⟩ in
  if is_tail t_flit then
    x ← (if messageEnqueuedThisCycle then Ok (n, false) else has_room env n vnet);
    let '(n, ok) := x in
    if (ok : bool) then eject env n s t_flit
    else
      let n := n ⟨ m_stall_queue := m_stall_queue n ++ [t_flit] ⟩ in
      sc ← vupd (ni_stall_count n) vnet (fun c => Ok (c + 1));
      b ← out_buffer n vnet;
      n ← set_out_buffer (n ⟨ ni_stall_count := sc ⟩) vnet (registerDequeueCallback b (ni_id n));
      Ok (n, s, [])
  else
    let n := sendCredit env n t_flit false in
    s ← incrementStats env s t_flit;
    Ok (n, s, []).

(** A credit from the router. *)
Definition receive_credit (env : Env) (n : NetworkInterface) (t_credit : flit) : res NetworkInterface :=
  n ← ni_upd_vc n (m_vc t_credit) ov_increment_credit;
  free ← is_free_signal t_credit;
  if (free : bool) then ni_upd_vc n (m_vc t_credit) (fun o => Ok (setState o IDLE_ (cyc env))) else Ok n.

(** ** The interface's cycle *)

(** The protocol buffer of one virtual network. *)
Definition send_vnet (env : Env) (st : NetworkInterface * NetStats * list ni_event) (vnet : Z)
    : res (NetworkInterface * NetStats * list ni_event) :=
  let '(n, s, evs) := st in
  ob ← vget (inNode_ptr n) vnet;
  match ob with
  | None => Ok (n, s, evs)
  | Some b =>
      if isReady b (now env) then
        msg_ptr ← vfront (m_prio_heap b);
        x ← flitisizeMessage env n s msg_ptr vnet;
        let '(sent, (n, s, msg)) := x in
        let b := b ⟨ m_prio_heap := msg :: tail (m_prio_heap b) ⟩ in
        y ← (if (sent : bool) then
               d ← dequeue (curTick env) b (now env) true; Ok (d.1.1.1, map (BufferEvent vnet) d.2)
             else Ok (b, []));
        l ← vset (inNode_ptr n) vnet (Some y.1);
        Ok (n ⟨ inNode_ptr := l ⟩, s, evs ++ y.2)
      else Ok (n, s, evs)
  end.

Definition NetworkInterface_wakeup (env : Env) (n : NetworkInterface) (s : NetStats)
    (inNetLink inCreditLink : NetworkLink)
    : res (NetworkInterface * NetStats * NetworkLink * NetworkLink * list ni_event) :=
  x ← foldM (send_vnet env) (upto (Z.of_nat (length (inNode_ptr n)))) (n, s, []);
  let '(n, s, e1) := x in
  y ← scheduleOutputLink env n;
  let '(n, e2) := y in
  let e3 := checkReschedule env n in
  z ← checkStallQueue env n s;
  let '(enqueued, (n, s, e4)) := z in
  w ← (if link_isReady inNetLink (cyc env) then
         c ← consumeLink inNetLink;
         r ← receive_flit env n s enqueued c.2;
         Ok (r, c.1)
       else Ok ((n, s, []), inNetLink));
  let '((n, s, e5), inNetLink) := w in
  v ← (if link_isReady inCreditLink (cyc env) then
         c ← consumeLink inCreditLink;
         n ← receive_credit env n c.2;
         Ok (n, c.1)
       else Ok (n, inCreditLink));
  let '(n, inCreditLink) := v in
  let e6 := if 0 <? fb_getSize (outCreditQueue n) then [WakeOutCreditLink] else [] in
  Ok (n, s, inNetLink, inCreditLink, e1 ++ e2 ++ e3 ++ e4 ++ e5 ++ e6).
