(* ===== verification/Ejection.v ===== *)
(** * Ejection: from flits back to messages

    The receiving side of [NetworkInterface.v].  When a protocol buffer is
    full, tail flits wait in one stall queue shared by all virtual networks,
    and at most one message per cycle is handed over.  The theorem: per
    virtual network, messages reach the protocol in the order in which their
    tail flits arrived, none is lost or duplicated, and at most one message is
    ejected per cycle. *)
From S2P Require Import Prelude StdHeap NetDest Common MessageBuffer Flit Network RoutingUnit PortUnits NetworkInterface.

(** The receiving part of a wake-up: the stall queue, then the arriving flit. *)
Definition eject_phase (env : Env) (n : NetworkInterface) (s : NetStats) (arrival : option flit)
    : res (NetworkInterface * NetStats * list ni_event) :=
  z ← checkStallQueue env n s;
  let '(enqueued, (n, s, e1)) := z in
  match arrival with
  | None => Ok (n, s, e1)
  | Some f => r ← receive_flit env n s enqueued f; Ok (r.1, e1 ++ r.2)
  end.

Definition of_vnet (v : Z) (l : list flit) : list flit := filter (fun f => m_vnet f = v) l.

Definition held (n : NetworkInterface) (v : Z) : list Z :=
  match out_buffer n v with Ok b => payload <$> all_messages b | Err _ => [] end.

(** The answer of the room check, as a function of the state. *)
Definition room (env : Env) (n : NetworkInterface) (v : Z) : res bool :=
  b ← out_buffer n v; Ok (areNSlotsAvailable b 1 (now env)).2.

Lemma areNSlots_count b k c t : (areNSlotsAvailable (b ⟨ m_not_avail_count := c ⟩) k t).2 = (areNSlotsAvailable b k t).2.
Proof.
  unfold areNSlotsAvailable. cbn [setf m_max_size m_time_last_time_pop m_time_last_time_enqueue m_size_at_cycle_start
    m_msgs_this_cycle m_stalled_at_cycle_start m_stall_map_size].
  change (heap_size (b ⟨ m_not_avail_count := c ⟩)) with (heap_size b).
  destruct (m_max_size b =? 0); [done |]. destruct (m_time_last_time_pop b <? t); by destruct (_ <=? _).
Qed.

Lemma set_out_buffer_spec n v b n' :
  set_out_buffer n v b = Ok n' ->
  out_buffer n' v = Ok b /\ (forall v', v' <> v -> out_buffer n' v' = out_buffer n v') /\
  m_stall_queue n' = m_stall_queue n /\ ni_stall_count n' = ni_stall_count n.
Proof.
  unfold set_out_buffer, out_buffer. intros H. apply res_bind_Ok_inv in H as (l & Hl & H). injection H as <-.
  cbn [setf outNode_ptr m_stall_queue ni_stall_count]. split_and!; try done.
  - rewrite (vset_get_eq _ _ _ _ Hl). done.
  - intros v' Hne. rewrite (vset_get_ne _ _ _ _ _ Hl); [done | congruence].
Qed.

Lemma has_room_spec env n v n' ok :
  has_room env n v = Ok (n', ok) ->
  room env n v = Ok ok /\ (forall v', room env n' v' = room env n v') /\ (forall v', held n' v' = held n v') /\
  m_stall_queue n' = m_stall_queue n.
Proof.
  unfold has_room. intros H. apply res_bind_Ok_inv in H as (b & Hb & H).
  destruct (areNSlotsAvailable b 1 (now env)) as [b' ok'] eqn:Ea.
  apply res_bind_Ok_inv in H as (n1 & Hs & H). injection H as <- <-.
  apply set_out_buffer_spec in Hs as (Hv & Hne & Hq & _).
  destruct (areNSlots_same b 1 (now env)) as [c Hc]. rewrite Ea in Hc. cbn [fst] in Hc.
  unfold room, held. split; [rewrite Hb; rsimpl; by rewrite Ea |]. split_and!; [| | done]; intros v'.
  - destruct (decide (v' = v)) as [->|Hn]; [| by rewrite Hne]. rewrite Hv, Hb. rsimpl.
    by rewrite Hc, areNSlots_count.
  - destruct (decide (v' = v)) as [->|Hn]; [| by rewrite Hne]. by rewrite Hv, Hb, Hc.
Qed.

Lemma eject_spec env n s f n' s' evs :
  eject env n s f = Ok (n', s', evs) ->
  m_stall_queue n' = m_stall_queue n /\ ni_stall_count n' = ni_stall_count n /\
  held n' (m_vnet f) ≡ₚ payload (m_msg_ptr f) :: held n (m_vnet f) /\
  forall v, v <> m_vnet f -> held n' v = held n v.
Proof.
  unfold eject. intros H. apply res_bind_Ok_inv in H as (b & Hb & H).
  apply res_bind_Ok_inv in H as ([b1 ev1] & He & H). apply res_bind_Ok_inv in H as (n1 & Hs & H).
  apply res_bind_Ok_inv in H as (s1 & _ & H). injection H as <- <- <-.
  apply set_out_buffer_spec in Hs as (Hv & Hne & Hq & Hc).
  change (m_stall_queue (sendCredit env n1 f true)) with (m_stall_queue n1).
  change (ni_stall_count (sendCredit env n1 f true)) with (ni_stall_count n1).
  assert (forall v, out_buffer (sendCredit env n1 f true) v = out_buffer n1 v) as Hout by done.
  split_and!; [done | done | |].
  - unfold held. rewrite Hout, Hv, Hb. cbn [fst] in *.
    apply enqueue_spec in He as (arr & m' & Hheap & Hp & _ & _ & _ & Hmap & _).
    unfold all_messages. rewrite Hheap, Hmap, fmap_app, fmap_heap_insert, Hp, fmap_app. done.
  - intros v Hn. unfold held. by rewrite Hout, Hne.
Qed.

(** The stall queue: the first flit whose virtual network has room is taken. *)
Lemma check_stall_spec env n s seen rest b n' s' evs :
  check_stall env n s seen rest = Ok (b, (n', s', evs)) ->
  Forall (fun g => room env n (m_vnet g) = Ok false) seen -> m_stall_queue n = seen ++ rest ->
  if b : bool then exists pre f post, rest = pre ++ f :: post /\ m_stall_queue n' = seen ++ pre ++ post /\
    Forall (fun g => m_vnet g <> m_vnet f) (seen ++ pre) /\
    held n' (m_vnet f) ≡ₚ payload (m_msg_ptr f) :: held n (m_vnet f) /\
    (forall v, v <> m_vnet f -> held n' v = held n v)
  else m_stall_queue n' = seen ++ rest /\ (forall v, held n' v = held n v) /\
    Forall (fun g => room env n' (m_vnet g) = Ok false) (seen ++ rest).
Proof.
  revert n seen. induction rest as [|f rest IH]; intros n seen H Hseen Hq; cbn [check_stall] in H.
  - injection H as <- <- <- <-. by rewrite app_nil_r in *.
  - apply res_bind_Ok_inv in H as ([n1 ok] & Hr & H).
    apply has_room_spec in Hr as (Hroom & Hr' & Hh1 & Hq1). destruct ok.
    + clear IH. apply res_bind_Ok_inv in H as ([[n2 s2] ev2] & He & H).
      apply eject_spec in He as (_ & _ & Hh2 & Hhne2).
      apply res_bind_Ok_inv in H as (c & _ & H). apply res_bind_Ok_inv in H as (sc & _ & H).
      apply res_bind_Ok_inv in H as (n3 & Hn3 & H). injection H as <- <- <- <-.
      assert (m_stall_queue n3 = seen ++ rest /\ forall v, held n3 v = held n2 v) as [Hq3 Hh3].
      { destruct (c - 1 =? 0); [| by injection Hn3 as <-].
        apply res_bind_Ok_inv in Hn3 as (b & Hb & Hn3). apply set_out_buffer_spec in Hn3 as (Hv & Hne & Hq3 & _).
        split; [done |]. intros v. unfold held. destruct (decide (v = m_vnet f)) as [->|Hn].
        - rewrite Hv. change (out_buffer n2 (m_vnet f) = Ok b) in Hb. rewrite Hb. done.
        - by rewrite Hne. }
      exists [], f, rest. split_and!; [done | done | | |].
      * rewrite app_nil_r. eapply Forall_impl; [exact Hseen |]. cbn. intros g Hg Heq. rewrite Heq, Hroom in Hg. done.
      * by rewrite Hh3, Hh2, Hh1.
      * intros v Hv. by rewrite Hh3, Hhne2, Hh1.
    + apply IH in H.
      * destruct b.
        -- destruct H as (pre & g & post & -> & Hq' & Hpre & Hh & Hhne). exists (f :: pre), g, post.
           rewrite <- !app_assoc in *. split_and!; try done; [by rewrite Hh, Hh1 | intros v Hv; by rewrite Hhne, Hh1].
        -- destruct H as (Hq' & Hh & Hno). rewrite <- !app_assoc in *. split_and!; try done. intros v. by rewrite Hh, Hh1.
      * apply Forall_app. split; [eapply Forall_impl; [exact Hseen |]; intros g Hg; by rewrite Hr' |].
        apply Forall_singleton. by rewrite Hr'.
      * by rewrite <- app_assoc, Hq1.
Qed.

Lemma of_vnet_app v l k : of_vnet v (l ++ k) = of_vnet v l ++ of_vnet v k.
Proof. apply filter_app. Qed.

Lemma of_vnet_none v l : Forall (fun g => m_vnet g <> v) l -> of_vnet v l = [].
Proof.
  induction 1 as [|g l Hg Hl IH]; [done |]. unfold of_vnet in *. by rewrite filter_cons_False.
Qed.

(** The tail flit that arrives, with its arrival time. *)
Definition arrived (env : Env) (arrival : option flit) : list flit :=
  match arrival with
  | Some f => if is_tail f then [f ⟨ m_dequeue_time := cyc env ⟩] else []
  | None => []
  end.

Lemma receive_flit_spec env n s enq f n' s' evs :
  receive_flit env n s enq f = Ok (n', s', evs) ->
  (m_stall_queue n' = m_stall_queue n ++ arrived env (Some f) /\ (forall v, held n' v = held n v)) \/
  (m_stall_queue n' = m_stall_queue n /\ enq = false /\ room env n (m_vnet f) = Ok true /\
   arrived env (Some f) = [f ⟨ m_dequeue_time := cyc env ⟩] /\
   held n' (m_vnet f) ≡ₚ payload (m_msg_ptr f) :: held n (m_vnet f) /\
   forall v, v <> m_vnet f -> held n' v = held n v).
Proof.
  unfold receive_flit, arrived. change (is_tail (f ⟨ m_dequeue_time := cyc env ⟩)) with (is_tail f).
  destruct (is_tail f).
  - intros H. apply res_bind_Ok_inv in H as ([n1 ok] & Hx & H).
    assert ((forall v, held n1 v = held n v) /\ m_stall_queue n1 = m_stall_queue n /\
            (ok = true -> enq = false /\ room env n (m_vnet f) = Ok true)) as (Hh1 & Hq1 & Hok).
    { destruct enq; [by injection Hx as <- <- | apply has_room_spec in Hx as (Hr & _ & ? & ?)]. split_and!; try done.
      by intros ->. }
    destruct ok.
    + right. destruct (Hok eq_refl) as [-> Hroom].
      apply eject_spec in H as (Hq & _ & Hh & Hhne). cbn [setf m_vnet m_msg_ptr] in *.
      split_and!; try done; [congruence | by rewrite Hh, Hh1 | intros v Hv; by rewrite Hhne, Hh1].
    + left. apply res_bind_Ok_inv in H as (sc & _ & H). apply res_bind_Ok_inv in H as (b & Hb & H).
      apply res_bind_Ok_inv in H as (n2 & Hs & H). injection H as <- <- <-.
      apply set_out_buffer_spec in Hs as (Hv & Hne & Hq & _). cbn [setf m_stall_queue] in Hq.
      split; [by rewrite Hq, Hq1 |]. intros v. rewrite <- Hh1. unfold held.
      destruct (decide (v = m_vnet f)) as [->|Hn]; [| by rewrite Hne].
      rewrite Hv. change (out_buffer n1 (m_vnet f) = Ok b) in Hb. by rewrite Hb.
  - intros H. apply res_bind_Ok_inv in H as (s1 & _ & H). injection H as <- <- <-. left. by rewrite app_nil_r.
Qed.

(** C11.  Ejection keeps the order of every virtual network.  In one wake-up
    of a network interface at most one message ([out]) is handed to the
    protocol, and for every virtual network the stalled flits followed by the
    arriving tail flit are the ejected flits followed by the flits stalled
    afterwards, in the same order; the protocol buffer of the network has
    gained exactly the messages ejected for it.  In particular an arriving
    flit never overtakes a stalled one of its own network. *)
Theorem ejection_keeps_order env n s arrival n' s' evs :
  eject_phase env n s arrival = Ok (n', s', evs) ->
  exists out, (length out <= 1)%nat /\ forall v,
    of_vnet v (m_stall_queue n ++ arrived env arrival) = of_vnet v (out ++ m_stall_queue n') /\
    held n' v ≡ₚ ((fun f => payload (m_msg_ptr f)) <$> of_vnet v out) ++ held n v.
Proof.
  unfold eject_phase, checkStallQueue. intros H. apply res_bind_Ok_inv in H as ([b [[n1 s1] e1]] & Hc & H).
  pose proof (check_stall_spec env n s [] (m_stall_queue n) b n1 s1 e1 Hc (Forall_nil_2 _) eq_refl) as Hspec.
  assert (exists out1, (length out1 <= 1)%nat /\ (b = true <-> out1 <> []) /\
    (b = false -> m_stall_queue n1 = m_stall_queue n /\ Forall (fun g => room env n1 (m_vnet g) = Ok false) (m_stall_queue n)) /\
    forall v, of_vnet v (m_stall_queue n) = of_vnet v (out1 ++ m_stall_queue n1) /\
      held n1 v ≡ₚ ((fun f => payload (m_msg_ptr f)) <$> of_vnet v out1) ++ held n v) as (out1 & Hlen & Hb & Hnb & Hout1).
  { destruct b.
    - destruct Hspec as (pre & f & post & Hq & Hq' & Hpre & Hh & Hhne). cbn [app] in *.
      exists [f]. split_and!; [done | done | done |]. intros v. rewrite Hq, Hq'. split.
      + rewrite !of_vnet_app. change (f :: post) with ([f] ++ post). rewrite of_vnet_app.
        destruct (decide (m_vnet f = v)) as [<-|Hn].
        * by rewrite (of_vnet_none (m_vnet f) pre).
        * by rewrite (of_vnet_none v [f]) by by apply Forall_singleton.
      + destruct (decide (m_vnet f = v)) as [<-|Hn].
        * unfold of_vnet. rewrite filter_cons_True, filter_nil by done. cbn [fmap list_fmap app]. done.
        * rewrite (of_vnet_none v [f]) by by apply Forall_singleton. cbn [fmap list_fmap app]. by rewrite Hhne.
    - destruct Hspec as (Hq & Hh & Hno). exists []. cbn [app length] in *. split_and!; [lia | done | done |].
      intros v. rewrite Hq, Hh. done. }
  destruct arrival as [f|].
  2: { injection H as <- <- <-. exists out1. split; [done |]. intros v. cbn [arrived]. by rewrite app_nil_r. }
  apply res_bind_Ok_inv in H as ([[n2 s2] e2] & Hr & H). injection H as <- <- <-.
  apply receive_flit_spec in Hr as [[Hq2 Hh2]|(Hq2 & -> & Hroom & Harr & Hh2 & Hhne2)].
  - exists out1. split; [done |]. intros v. destruct (Hout1 v) as [Ho Hh]. rewrite Hq2, Hh2. split; [| done].
    rewrite app_assoc, of_vnet_app, Ho, <- of_vnet_app. done.
  - destruct (Hnb eq_refl) as [Hq1 Hno]. destruct out1; [| destruct Hb as [_ Hb]; by discriminate Hb].
    exists [f ⟨ m_dequeue_time := cyc env ⟩]. split; [done |]. intros v. destruct (Hout1 v) as [_ Hh].
    rewrite Harr, Hq2, Hq1. cbn [app fmap list_fmap] in Hh.
    destruct (decide (m_vnet f = v)) as [<-|Hn].
    + rewrite of_vnet_app, (of_vnet_none (m_vnet f) (m_stall_queue n)).
      * split.
        -- rewrite of_vnet_app, (of_vnet_none (m_vnet f) (m_stall_queue n)); [by rewrite app_nil_r |].
           eapply Forall_impl; [exact Hno |]. cbn. intros g Hg Heq. rewrite Heq, Hroom in Hg. done.
        -- unfold of_vnet. rewrite filter_cons_True, filter_nil by done. cbn [fmap list_fmap app setf m_msg_ptr].
           by rewrite Hh2, Hh.
      * eapply Forall_impl; [exact Hno |]. cbn. intros g Hg Heq. rewrite Heq, Hroom in Hg. done.
    + assert (of_vnet v [f ⟨ m_dequeue_time := cyc env ⟩] = []) as Hnil by (apply of_vnet_none; by apply Forall_singleton).
      rewrite !of_vnet_app, Hnil, app_nil_r. split; [done |]. cbn [fmap list_fmap app]. by rewrite Hhne2, Hh.
Qed.

(** One stalled message of network 0, whose buffer is full; a message of
    network 1 arrives. *)
Definition ej_msg (p : Z) : Message := Message_ctor 1 [] Control p.
Definition ej_flit (v p : Z) : flit := flit_ctor 0 (2 * v) v no_route 1 (ej_msg p) 3.
Definition ej_env : Env :=
  {| e_cfg := demo_cfg; e_rs := rs_plain; e_counts := [2; 2]; routers := [0; 1; 2; 3]; cyc := 9; now := 4500;
     curTick := 4500; period := 500; draws := (0, 1, 1) |}.
Definition ej_ni : NetworkInterface :=
  NetworkInterface_ctor 1 3 2 50000
    ⟨ outNode_ptr := [Some (fresh_buffer 1 false false 1 0 ⟨ m_prio_heap := [ej_msg 4] ⟩);
                      Some (fresh_buffer 1 false false 1 1); None] ⟩
    ⟨ m_stall_queue := [ej_flit 0 5] ⟩ ⟨ ni_stall_count := [1; 0; 0] ⟩.
Definition ej_stats : NetStats :=
  {| m_packets_received := [0; 0; 0]; m_packets_injected := [0; 0; 0]; m_packet_network_latency := [0; 0; 0];
     m_packet_queueing_latency := [0; 0; 0]; m_flits_received := [0; 0; 0]; m_flits_injected := [0; 0; 0];
     m_flit_network_latency := [0; 0; 0]; m_flit_queueing_latency := [0; 0; 0]; m_total_hops := 0 |}.

Lemma ejection_keeps_order_witness :
  exists n' s' evs, eject_phase ej_env ej_ni ej_stats (Some (ej_flit 1 6)) = Ok (n', s', evs) /\
  exists out, (length out <= 1)%nat /\ forall v,
    of_vnet v (m_stall_queue ej_ni ++ arrived ej_env (Some (ej_flit 1 6))) = of_vnet v (out ++ m_stall_queue n') /\
    held n' v ≡ₚ ((fun f => payload (m_msg_ptr f)) <$> of_vnet v out) ++ held ej_ni v.
Proof.
  do 3 eexists. split; [vm_compute; reflexivity |].
  eapply (ejection_keeps_order ej_env ej_ni ej_stats (Some (ej_flit 1 6))). vm_compute. reflexivity.
Defined.
