(* ===== verification/Injection.v ===== *)
(** * Injection: from protocol messages to flits on the link

    Proves the sending half of the network interface ([NetworkInterface.v])
    correct: the round-robin choice of an output VC and its deadlock counter,
    the splitting of a multicast message into one packet per destination, and
    the scheduling of one flit per cycle on the output link. *)
From S2P Require Import Prelude StdHeap NetDest Common MessageBuffer Flit Network RoutingUnit PortUnits NetworkInterface.

(** Unfolds assignments to the fields of an interface. *)
Ltac nifields := cbn [setf ni_id ni_virtual_networks ni_vc_per_vnet m_router_id m_vc_allocator
  m_vc_round_robin outFlitQueue outCreditQueue m_deadlock_threshold ni_outVcState m_stall_queue
  ni_stall_count niOutVcs m_ni_out_vcs_enqueue_time inNode_ptr outNode_ptr vc_busy_counter].

(** ** The invariant of the sending side *)

Definition num_vcs (n : NetworkInterface) : Z := ni_vc_per_vnet n * ni_virtual_networks n.

Definition inj_ok (n : NetworkInterface) : Prop :=
  0 < ni_vc_per_vnet n /\ 0 <= ni_virtual_networks n /\
  Z.of_nat (length (m_vc_allocator n)) = ni_virtual_networks n /\
  Forall (fun d => 0 <= d < ni_vc_per_vnet n) (m_vc_allocator n) /\
  Z.of_nat (length (vc_busy_counter n)) = ni_virtual_networks n /\
  Z.of_nat (length (ni_outVcState n)) = num_vcs n /\
  Z.of_nat (length (niOutVcs n)) = num_vcs n /\
  Z.of_nat (length (m_ni_out_vcs_enqueue_time n)) = num_vcs n /\
  Forall fb_ok (niOutVcs n) /\ fb_ok (outFlitQueue n).

(** ** Choosing an output VC *)

Definition vc_free (env : Env) (n : NetworkInterface) (vc : Z) : Prop :=
  exists s, vget (ni_outVcState n) vc = Ok s /\ isInState s IDLE_ (cyc env) = true.

(** The VC looked at in the [k]-th step of the round robin that starts at
    offset [d]. *)
Definition rr_vc (n : NetworkInterface) (vnet d k : Z) : Z :=
  vnet * ni_vc_per_vnet n + (d + k) mod ni_vc_per_vnet n.

Lemma vc_of_vnet n vnet d :
  inj_ok n -> 0 <= vnet < ni_virtual_networks n -> 0 <= d < ni_vc_per_vnet n ->
  0 <= vnet * ni_vc_per_vnet n + d < num_vcs n.
Proof. intros (Hv & _) Hn Hd. unfold num_vcs. nia. Qed.

Lemma vget_insert_eq {A} (l : list A) i x : 0 <= i < Z.of_nat (length l) -> vget (<[Z.to_nat i := x]> l) i = Ok x.
Proof. intros H. apply (vset_get_eq l i x). by apply vset_Ok. Qed.

Lemma vset_eq {A} (l : list A) i x : 0 <= i < Z.of_nat (length l) -> vset l i x = Ok (<[Z.to_nat i := x]> l).
Proof. intros H. by apply vset_Ok. Qed.

(** The state of the interface after [k] unsuccessful steps. *)
Definition rr_state (n : NetworkInterface) (vnet d k : Z) : NetworkInterface :=
  n ⟨ m_vc_allocator := <[Z.to_nat vnet := (d + k) mod ni_vc_per_vnet n]> (m_vc_allocator n) ⟩.

Lemma rr_next d k v : 0 < v ->
  (if (d + k) mod v + 1 =? v then 0 else (d + k) mod v + 1) = (d + (k + 1)) mod v.
Proof.
  intros Hv. replace (d + (k + 1)) with (d + k + 1) by lia.
  pose proof (Z.mod_pos_bound (d + k) v Hv). rewrite <- (Zplus_mod_idemp_l (d + k) 1 v).
  destruct (Z.eqb_spec ((d + k) mod v + 1) v) as [E|E].
  - rewrite E. symmetry. by apply Z_mod_same_full.
  - symmetry. apply Z.mod_small. lia.
Qed.

Lemma calculateVC_iter_ok env n vnet d k x :
  inj_ok n -> 0 <= vnet < ni_virtual_networks n ->
  exists s, vget (ni_outVcState n) (rr_vc n vnet d k) = Ok s /\
    calculateVC_iter env vnet (rr_state n vnet d k, x) k =
      Ok (if isInState s IDLE_ (cyc env)
          then (true, (rr_state n vnet d (k + 1) ⟨ vc_busy_counter := <[Z.to_nat vnet := 0]> (vc_busy_counter n) ⟩,
                       rr_vc n vnet d k))
          else (false, (rr_state n vnet d (k + 1), -1))).
Proof.
  intros Hok Hvn. pose proof Hok as (Hv & _ & Hal & _ & Hb & Hs & _).
  pose proof (Z.mod_pos_bound (d + k) (ni_vc_per_vnet n) Hv) as Hm.
  destruct (vget_is_ok (ni_outVcState n) (rr_vc n vnet d k)) as [s Hsv].
  { rewrite Hs. by apply vc_of_vnet. }
  exists s. split; [done |]. unfold calculateVC_iter, rr_state. cbn [fst]. nifields.
  rewrite vget_insert_eq by lia. rsimpl. rewrite rr_next by done.
  rewrite (vset_eq (<[_ := _]> _)) by (rewrite length_insert; lia). rsimpl. rewrite list_insert_insert_eq.
  change (vnet * ni_vc_per_vnet n + (d + k) mod ni_vc_per_vnet n) with (rr_vc n vnet d k).
  nifields. rewrite Hsv. rsimpl. destruct (isInState s IDLE_ (cyc env)); [| done].
  rewrite vset_eq by lia. done.
Qed.

Lemma rr_state_0 n vnet d :
  vget (m_vc_allocator n) vnet = Ok d -> 0 <= d < ni_vc_per_vnet n -> rr_state n vnet d 0 = n.
Proof.
  intros [_ Hd]%vget_Ok Hr. unfold rr_state. rewrite Z.add_0_r, Z.mod_small by done.
  rewrite list_insert_id by done. by destruct n.
Qed.

Lemma rr_state_full n vnet d :
  0 < ni_vc_per_vnet n -> rr_state n vnet d (ni_vc_per_vnet n) = rr_state n vnet d 0.
Proof.
  intros Hv. unfold rr_state. rewrite Z.add_0_r.
  rewrite <- (Z.mod_add d 1 (ni_vc_per_vnet n)), Z.mul_1_l by lia. done.
Qed.

Lemma isInState_free env n vc s :
  vget (ni_outVcState n) vc = Ok s -> (isInState s IDLE_ (cyc env) = true <-> vc_free env n vc).
Proof. intros Hs. split; [by exists s |]. intros (s' & Hs' & H). congruence. Qed.

(** Either the first free VC of the round robin is chosen, or there is none and
    the deadlock counter goes up. *)
Lemma calculateVC_cases env n vnet d c :
  inj_ok n -> 0 <= vnet < ni_virtual_networks n ->
  vget (m_vc_allocator n) vnet = Ok d -> vget (vc_busy_counter n) vnet = Ok c ->
  (exists k, 0 <= k < ni_vc_per_vnet n /\ vc_free env n (rr_vc n vnet d k) /\
     (forall j, 0 <= j < k -> ~ vc_free env n (rr_vc n vnet d j)) /\
     calculateVC env n vnet =
       Ok (rr_state n vnet d (k + 1) ⟨ vc_busy_counter := <[Z.to_nat vnet := 0]> (vc_busy_counter n) ⟩,
           rr_vc n vnet d k)) \/
  ((forall k, 0 <= k < ni_vc_per_vnet n -> ~ vc_free env n (rr_vc n vnet d k)) /\
   calculateVC env n vnet =
     if m_deadlock_threshold n <? c + 1 then Err EPanic
     else Ok (n ⟨ vc_busy_counter := <[Z.to_nat vnet := c + 1]> (vc_busy_counter n) ⟩, -1)).
Proof.
  intros Hok Hvn Hd Hc. pose proof Hok as (Hv & _ & Hal & Hall & Hb & _).
  assert (Hdr : 0 <= d < ni_vc_per_vnet n).
  { rewrite Forall_lookup in Hall. apply vget_Ok in Hd as [_ Hd]. by apply Hall in Hd. }
  unfold calculateVC.
  destruct (foldM_brk_upto (calculateVC_iter env vnet)
    (fun k st => st = (rr_state n vnet d k, -1) /\ forall j, 0 <= j < k -> ~ vc_free env n (rr_vc n vnet d j))
    (fun k st => vc_free env n (rr_vc n vnet d k) /\ (forall j, 0 <= j < k -> ~ vc_free env n (rr_vc n vnet d j)) /\
       st = (rr_state n vnet d (k + 1) ⟨ vc_busy_counter := <[Z.to_nat vnet := 0]> (vc_busy_counter n) ⟩,
             rr_vc n vnet d k))
    (ni_vc_per_vnet n) (n, -1)) as (b & st & -> & H); [lia | | |].
  - rewrite rr_state_0 by done. split; [done | lia].
  - intros k st Hk [-> Hnone]. destruct (calculateVC_iter_ok env n vnet d k (-1) Hok Hvn) as (s & Hs & ->).
    pose proof (isInState_free env n _ s Hs) as Hf. destruct (isInState s IDLE_ (cyc env)); do 2 eexists.
    + split; [done |]. split_and!; [by apply Hf | done | done].
    + split; [done |]. split; [done |]. intros j Hj.
      destruct (decide (j = k)) as [->|]; [by intros ?%Hf | apply Hnone; lia].
  - rsimpl. destruct b.
    + destruct H as (k & Hk & Hfree & Hnone & ->). left. by exists k.
    + destruct H as [-> Hnone]. right. split; [done |]. rsimpl.
      rewrite rr_state_full, rr_state_0 by done. rewrite Hc. rsimpl. rewrite vset_eq by lia. rsimpl.
      by destruct (m_deadlock_threshold n <? c + 1).
Qed.

(** ** One packet *)

Definition packet_flits (env : Env) (vc vnet : Z) (route : RouteInfo) (nf delay : Z) (msg : Message) : list flit :=
  (fun i => flit_ctor i vc vnet route nf msg (cyc env) ⟨ src_delay := delay ⟩) <$> upto nf.

Lemma cycles_sub_ok a b : b <= a -> cycles_sub a b = Ok (a - b).
Proof. intros H. unfold cycles_sub. by rewrite (proj2 (Z.leb_le b a) H). Qed.

(** The flit loop puts exactly the packet's flits into the VC. *)
Lemma insert_flits_ok env n s vc vnet route nf t msg b f0 :
  0 <= nf -> vget (niOutVcs n) vc = Ok b -> fb_ok b -> vget (m_flits_injected s) vnet = Ok f0 ->
  ticksToCycles env t <= cyc env ->
  exists b',
    foldM (insert_one_flit env vc vnet route nf t msg) (upto nf) (n, s) =
      Ok (n ⟨ niOutVcs := <[Z.to_nat vc := b']> (niOutVcs n) ⟩,
          s ⟨ m_flits_injected := <[Z.to_nat vnet := f0 + nf]> (m_flits_injected s) ⟩) /\
    fb_ok b' /\
    m_buffer b' ≡ₚ packet_flits env vc vnet route nf (cyc env - ticksToCycles env t) msg ++ m_buffer b.
Proof.
  intros Hnf Hb Hok Hf Ht. pose proof (vget_range _ _ _ Hb) as Hvr. pose proof (vget_range _ _ _ Hf) as Hfr.
  set (delay := cyc env - ticksToCycles env t).
  set (fl := fun i => flit_ctor i vc vnet route nf msg (cyc env) ⟨ src_delay := delay ⟩).
  destruct (foldM_upto (insert_one_flit env vc vnet route nf t msg)
    (fun k st => exists b', st = (n ⟨ niOutVcs := <[Z.to_nat vc := b']> (niOutVcs n) ⟩,
          s ⟨ m_flits_injected := <[Z.to_nat vnet := f0 + k]> (m_flits_injected s) ⟩) /\
       fb_ok b' /\ m_buffer b' ≡ₚ (fl <$> upto k) ++ m_buffer b) nf (n, s))
    as (st & Hst & b' & -> & Hb' & HP); [done | | | by exists b'].
  - exists b. split_and!; [| done | done]. rewrite Z.add_0_r.
    rewrite !list_insert_id by (by apply vget_Ok). by destruct n, s.
  - intros i st Hi (b' & -> & Hb' & HP). unfold insert_one_flit, increment_injected_flits, bump.
    cbn [setf m_flits_injected]. unfold vupd. rewrite vget_insert_eq by done. rsimpl.
    rewrite vset_eq by (rewrite length_insert; lia). rsimpl.
    rewrite cycles_sub_ok by done. rsimpl. nifields. rewrite vget_insert_eq by done. rsimpl.
    rewrite vset_eq by (rewrite length_insert; lia). rsimpl. rewrite !list_insert_insert_eq.
    eexists. split; [done |]. fold delay. exists (fb_insert b' (fl i)). split_and!.
    + by rewrite Z.add_assoc.
    + by apply fb_insert_ok.
    + rewrite upto_succ, fmap_app by lia. cbn [fmap list_fmap app]. rewrite fb_insert_perm, HP.
      rewrite <- app_assoc. cbn [app]. by rewrite Permutation_middle.
Qed.

(** ** The destination of one packet *)

Lemma NetDest_clear_spec counts d :
  nd_ok counts d -> nd_ok counts (NetDest_clear d) /\ forall e, ~ nd_mem (NetDest_clear d) e.
Proof.
  intros [Hl Hd].
  assert (Hc : forall i s, vget (NetDest_clear d) i = Ok s ->
    exists s0, vget d i = Ok s0 /\ s = Set_clear s0).
  { intros i s [Hi Hs]%vget_Ok. unfold NetDest_clear in Hs. rewrite list_lookup_fmap in Hs.
    destruct (d !! Z.to_nat i) as [s0|] eqn:E; [| done]. injection Hs as <-. exists s0.
    split; [by apply vget_Ok | done]. }
  split.
  - split; [unfold NetDest_clear; by rewrite length_map |]. intros i s Hs.
    destruct (Hc i s Hs) as (s0 & H0 & ->). destruct (Hd i s0 H0) as [H1 [H2 H3]].
    unfold set_ok, Set_clear. cbn [m_nSize NetDest.bits]. split_and!; try done; lia.
  - intros e (s & Hs & Ht). destruct (Hc _ s Hs) as (s0 & _ & ->). cbn [NetDest.bits Set_clear] in Ht.
    by rewrite Z.bits_0 in Ht.
Qed.

(** The loop over the machine types finds the machine of a node number. *)
Lemma personal_dest_ok counts d0 e :
  counts_ok counts -> nd_ok counts d0 -> mid_ok counts e ->
  exists pd, foldM_brk (personal_dest_iter counts (node_of counts e)) (upto (MachineType_NUM counts)) d0 =
      Ok (true, pd) /\ nd_ok counts pd /\ forall x, nd_mem pd x <-> x = e.
Proof.
  intros Hc Hd He. destruct (mid_ok_node counts e Hc He) as [Hn _].
  assert (Ht : 0 <= mtype e < MachineType_NUM counts).
  { destruct He as (_ & c & Hx%vget_range & _). unfold MachineType_NUM. lia. }
  destruct (NetDest_clear_spec counts d0 Hd) as [Hcl Hce].
  destruct (foldM_brk_upto (personal_dest_iter counts (node_of counts e))
    (fun k st => st = d0 /\ k <= mtype e)
    (fun _ st => nd_ok counts st /\ forall x, nd_mem st x <-> x = e)
    (MachineType_NUM counts) d0) as (b & pd & Hr & H); [lia | split; [done | lia] | |].
  - intros m st Hm [-> Hle]. unfold personal_dest_iter. rewrite !base_number_ok by lia. rsimpl.
    destruct ((base_of counts m <=? node_of counts e) && (node_of counts e <? base_of counts (m + 1)))%bool eqn:E.
    + b2p. assert (m = mtype e) as ->.
      { destruct (decide (m = mtype e)); [done |]. pose proof (base_of_mono counts (m + 1) (mtype e) Hc). lia. }
      replace (MachineID (mtype e) (node_of counts e - base_of counts (mtype e))) with e
        by (unfold node_of; destruct e; simpl; f_equal; lia).
      destruct (NetDest_add_spec counts (NetDest_clear d0) e Hcl He) as (r & -> & Hr & Hm').
      rsimpl. do 2 eexists. split; [done |]. split; [done |]. intros x. rewrite Hm'.
      specialize (Hce x). naive_solver.
    + do 2 eexists. split; [done |]. split; [done |].
      destruct (decide (m = mtype e)) as [->|]; [exfalso; lia | lia].
  - exists pd. destruct b; [| lia]. destruct H as (_ & _ & H1 & H2). done.
Qed.

Lemma personalise_ok counts msg e :
  counts_ok counts -> nd_ok counts (m_Destination msg) -> mid_ok counts e ->
  exists rest pd,
    personalise counts msg (node_of counts e) =
      Ok (msg ⟨ m_Destination := rest ⟩, msg ⟨ m_Destination := pd ⟩) /\
    nd_ok counts rest /\ (forall x, nd_mem rest x <-> nd_mem (m_Destination msg) x /\ x <> e) /\
    (forall x, nd_mem pd x <-> x = e).
Proof.
  intros Hc Hd He. unfold personalise. destruct (NetDest_ctor_spec counts Hc) as (d0 & -> & Hd0 & _). rsimpl.
  destruct (personal_dest_ok counts d0 e Hc Hd0 He) as (pd & -> & Hpd & Hm). rsimpl.
  destruct (removeNetDest_spec counts (m_Destination msg) pd Hd Hpd) as (rest & -> & Hrest & Hx). rsimpl.
  exists rest, pd. split_and!; [done | done | | done]. intros x. rewrite Hx, Hm. done.
Qed.

(** ** What sending adds to the interface *)

(** The flits put into VC [v] by a list of packets (VC, flits). *)
Definition flits_for (v : Z) (sent : list (Z * list flit)) : list flit :=
  concat (snd <$> filter (fun p => p.1 = v) sent).

(** [n'] is [n] after the packets [sent] were put into VCs that were free in
    [n], each VC at most once, and that are no longer free in [n']. *)
Definition extends (env : Env) (n n' : NetworkInterface) (sent : list (Z * list flit)) : Prop :=
  inj_ok n' /\
  (ni_id n' = ni_id n /\ ni_virtual_networks n' = ni_virtual_networks n /\
   ni_vc_per_vnet n' = ni_vc_per_vnet n /\ m_router_id n' = m_router_id n /\
   m_deadlock_threshold n' = m_deadlock_threshold n) /\
  (forall v, vc_free env n' v -> vc_free env n v /\ v ∉ sent.*1) /\
  Forall (fun p => vc_free env n p.1) sent /\ NoDup sent.*1 /\
  (forall v b, vget (niOutVcs n) v = Ok b ->
     exists b', vget (niOutVcs n') v = Ok b' /\ m_buffer b' ≡ₚ flits_for v sent ++ m_buffer b).

Lemma flits_for_app v s1 s2 : flits_for v (s1 ++ s2) = flits_for v s1 ++ flits_for v s2.
Proof. unfold flits_for. by rewrite filter_app, fmap_app, concat_app. Qed.

Lemma extends_trans env n n1 n2 s1 s2 :
  extends env n n1 s1 -> extends env n1 n2 s2 -> extends env n n2 (s1 ++ s2).
Proof.
  intros (_ & (E1 & E2 & E3 & E4 & E5) & Hf1 & Ha1 & Hn1 & Hb1) (Hok & (F1 & F2 & F3 & F4 & F5) & Hf2 & Ha2 & Hn2 & Hb2).
  rewrite Forall_forall in Ha2. split_and!; try done; try congruence.
  - intros v Hv. rewrite fmap_app, elem_of_app. destruct (Hf2 v Hv) as [Hv1 Hv2].
    destruct (Hf1 v Hv1). naive_solver.
  - apply Forall_app. split; [done |]. rewrite Forall_forall. intros p Hp. apply Hf1, Ha2, Hp.
  - rewrite fmap_app. apply NoDup_app. split_and!; [done | | done]. intros v Hv1 Hv2.
    apply list_elem_of_fmap in Hv2 as (p & -> & Hp). destruct (Hf1 p.1); [by apply Ha2 | done].
  - intros v b Hb. destruct (Hb1 v b Hb) as (b1 & Hv1 & HP1). destruct (Hb2 v b1 Hv1) as (b2 & Hv2 & HP2).
    exists b2. split; [done |]. rewrite HP2, HP1, flits_for_app, app_assoc.
    f_equiv. apply Permutation_app_comm.
Qed.

(** Only the allocation pointers and the deadlock counters changed. *)
Lemma extends_alloc env n al bc :
  inj_ok n -> length al = length (m_vc_allocator n) -> length bc = length (vc_busy_counter n) ->
  Forall (fun d => 0 <= d < ni_vc_per_vnet n) al ->
  extends env n (n ⟨ m_vc_allocator := al ⟩ ⟨ vc_busy_counter := bc ⟩) [].
Proof.
  intros (H1 & H2 & H3 & H4 & H5 & H6 & H7 & H8 & H9 & H10) Hal Hbc Hall.
  unfold extends, inj_ok, num_vcs, vc_free in *. nifields. cbn [fmap list_fmap].
  split_and!; try done; try lia; try constructor; try done; [by apply not_elem_of_nil |].
  intros v b Hb. exists b. split; done.
Qed.

Lemma extends_refl env n : inj_ok n -> extends env n n [].
Proof.
  intros Hok. pose proof Hok as (_ & _ & _ & Hall & _).
  pose proof (extends_alloc env n _ _ Hok eq_refl eq_refl Hall) as H. by destruct n.
Qed.

Lemma Forall_insert_Z {A} (P : A -> Prop) l i x : Forall P l -> P x -> Forall P (<[Z.to_nat i := x]> l).
Proof. intros. by apply Forall_insert. Qed.

(** Putting one packet into a free VC. *)
Lemma extends_packet env n vc b b' o fl :
  inj_ok n -> vc_free env n vc -> vget (niOutVcs n) vc = Ok b -> vget (ni_outVcState n) vc = Ok o ->
  fb_ok b' -> m_buffer b' ≡ₚ fl ++ m_buffer b ->
  extends env n (n ⟨ niOutVcs := <[Z.to_nat vc := b']> (niOutVcs n) ⟩
                   ⟨ m_ni_out_vcs_enqueue_time := <[Z.to_nat vc := cyc env]> (m_ni_out_vcs_enqueue_time n) ⟩
                   ⟨ ni_outVcState := <[Z.to_nat vc := setState o ACTIVE_ (cyc env)]> (ni_outVcState n) ⟩)
    [(vc, fl)].
Proof.
  intros (H1 & H2 & H3 & H4 & H5 & H6 & H7 & H8 & H9 & H10) Hfree Hb Ho Hok HP.
  pose proof (vget_range _ _ _ Hb) as Hbr. pose proof (vget_range _ _ _ Ho) as Hor.
  unfold extends, inj_ok, num_vcs in *. nifields. rewrite !length_insert. cbn [fmap list_fmap fst].
  split; [split_and!; try done; by apply Forall_insert_Z |]. split; [done |]. split_and!.
  - intros v (s & Hs & Hi). cbn [setf ni_outVcState] in Hs. destruct (decide (v = vc)) as [->|Hne].
    + rewrite vget_insert_eq in Hs by done. injection Hs as <-. done.
    + rewrite not_elem_of_cons. split_and!; [| done | apply not_elem_of_nil].
      exists s. split; [| done]. by rewrite <- (vset_get_ne _ vc v _ _ (vset_eq _ vc (setState o ACTIVE_ (cyc env)) Hor)).
  - by repeat constructor.
  - apply NoDup_singleton.
  - intros v b0 Hb0. unfold flits_for. cbn [filter list_filter fst]. destruct (decide (vc = v)) as [<-|Hne].
    + exists b'. rewrite vget_insert_eq by done. split; [done |].
      rewrite Hb in Hb0. injection Hb0 as <-. cbn [fmap list_fmap snd concat]. by rewrite app_nil_r.
    + exists b0. split; [| done].
      by rewrite (vset_get_ne _ vc v _ _ (vset_eq _ vc b' Hbr)).
Qed.

(** ** A message to all its destinations *)

Section Flitisize.
Context (env : Env) (vnet nf : Z).
Context (counts_good : counts_ok (e_counts env)) (nf_nonneg : 0 <= nf).

(** [p] is the packet for machine [e] of message [msg]: [nf] flits in one VC of
    the virtual network, whose route leads to exactly that machine. *)
Definition sent_packet (n : NetworkInterface) (msg : Message) (e : machineID) (p : Z * list flit) : Prop :=
  exists route new_msg delay,
    p.2 = packet_flits env p.1 vnet route nf delay new_msg /\
    vnet * ni_vc_per_vnet n <= p.1 < (vnet + 1) * ni_vc_per_vnet n /\
    ri_vnet route = vnet /\ hops_traversed route = -1 /\
    src_ni route = ni_id n /\ src_router route = m_router_id n /\
    dest_ni route = node_of (e_counts env) e /\
    vget (routers env) (dest_ni route) = Ok (dest_router route) /\
    net_dest route = m_Destination new_msg /\ (forall x, nd_mem (net_dest route) x <-> x = e) /\
    payload new_msg = payload msg.

(** What the interface needs to send: well-formed state, no deadlock panic
    pending, statistics vectors that cover the virtual network. *)
Definition send_ok (n : NetworkInterface) (s : NetStats) (p0 f0 : Z) : Prop :=
  inj_ok n /\ 0 <= vnet < ni_virtual_networks n /\
  (exists c, vget (vc_busy_counter n) vnet = Ok c /\ 0 <= c < m_deadlock_threshold n) /\
  vget (m_packets_injected s) vnet = Ok p0 /\ vget (m_flits_injected s) vnet = Ok f0.

Definition dest_ok (e : machineID) : Prop :=
  mid_ok (e_counts env) e /\ exists rt, vget (routers env) (node_of (e_counts env) e) = Ok rt.

Lemma calculateVC_extends n c :
  inj_ok n -> 0 <= vnet < ni_virtual_networks n ->
  vget (vc_busy_counter n) vnet = Ok c -> 0 <= c < m_deadlock_threshold n ->
  exists n' vc, calculateVC env n vnet = Ok (n', vc) /\ extends env n n' [] /\
    ((vc = -1 /\ (forall v, vnet * ni_vc_per_vnet n <= v < (vnet + 1) * ni_vc_per_vnet n -> ~ vc_free env n v)) \/
     (vnet * ni_vc_per_vnet n <= vc < (vnet + 1) * ni_vc_per_vnet n /\ vc_free env n' vc /\
      vget (vc_busy_counter n') vnet = Ok 0)).
Proof.
  intros Hok Hvn Hc Hcr. pose proof Hok as (Hv & _ & Hal & Hall & Hb & _).
  destruct (vget_is_ok (m_vc_allocator n) vnet) as [d Hd]; [lia |].
  destruct (calculateVC_cases env n vnet d c Hok Hvn Hd Hc) as [(k & Hk & Hfree & _ & Hr)|[Hnone Hr]]; rewrite Hr.
  - do 2 eexists. split; [done |]. pose proof (Z.mod_pos_bound (d + k) (ni_vc_per_vnet n) Hv).
    pose proof (Z.mod_pos_bound (d + (k + 1)) (ni_vc_per_vnet n) Hv). split.
    + unfold rr_state. apply extends_alloc; rewrite ?length_insert; try done. by apply Forall_insert_Z.
    + right. unfold rr_vc in *. split_and!; [lia | lia | exact Hfree |].
      cbn [setf vc_busy_counter rr_state]. apply vget_insert_eq. lia.
  - rewrite (proj2 (Z.ltb_ge _ _)) by lia. do 2 eexists. split; [done |]. split.
    + pose proof (extends_alloc env n (m_vc_allocator n) (<[Z.to_nat vnet:=c + 1]> (vc_busy_counter n)) Hok) as He.
      rewrite length_insert in He. specialize (He eq_refl eq_refl Hall). by destruct n.
    + left. split; [done |]. intros v Hvr Hfree. apply (Hnone ((v - vnet * ni_vc_per_vnet n - d) mod ni_vc_per_vnet n)).
      * apply Z.mod_pos_bound. done.
      * unfold rr_vc. rewrite Zplus_mod_idemp_r.
        replace (d + (v - vnet * ni_vc_per_vnet n - d)) with (v - vnet * ni_vc_per_vnet n) by lia.
        rewrite Z.mod_small by lia. by replace (vnet * ni_vc_per_vnet n + (v - vnet * ni_vc_per_vnet n)) with v by lia.
Qed.

Lemma send_packet_ok n s msg new_msg vc e p0 f0 :
  inj_ok n -> 0 <= vnet < ni_virtual_networks n -> vc_free env n vc ->
  vget (m_packets_injected s) vnet = Ok p0 -> vget (m_flits_injected s) vnet = Ok f0 ->
  vnet * ni_vc_per_vnet n <= vc < (vnet + 1) * ni_vc_per_vnet n ->
  dest_ok e -> ticksToCycles env (m_time msg) <= cyc env ->
  (forall x, nd_mem (m_Destination new_msg) x <-> x = e) -> payload new_msg = payload msg ->
  exists n' s' fl,
    send_packet env n s msg new_msg vnet vc (node_of (e_counts env) e) nf = Ok (n', s') /\
    extends env n n' [(vc, fl)] /\ sent_packet n msg e (vc, fl) /\ vc_busy_counter n' = vc_busy_counter n /\
    vget (m_packets_injected s') vnet = Ok (p0 + 1) /\ vget (m_flits_injected s') vnet = Ok (f0 + nf).
Proof.
  intros Hok Hvn Hfree Hp Hf Hvc (He & rt & Hrt) Ht Hmem Hpl.
  pose proof Hok as (Hv & _ & _ & _ & _ & Ho & Hq & Hts & Hfb & _).
  assert (Hvr : 0 <= vc < num_vcs n) by (unfold num_vcs; nia).
  destruct (vget_is_ok (niOutVcs n) vc) as [b Hb]; [lia |].
  assert (Hbok : fb_ok b) by (rewrite Forall_lookup in Hfb; apply vget_Ok in Hb as [_ Hb]; by eapply Hfb).
  destruct (vget_is_ok (ni_outVcState n) vc) as [o Hov]; [lia |].
  pose proof (vget_range _ _ _ Hp) as Hpr. pose proof (vget_range _ _ _ Hf) as Hfr.
  unfold send_packet. rewrite Hrt. rsimpl. set (route := {| ri_vnet := vnet |}).
  unfold increment_injected_packets, bump, vupd. rewrite Hp. rsimpl. rewrite vset_eq by done. rsimpl.
  set (s1 := s ⟨ m_packets_injected := <[Z.to_nat vnet := p0 + 1]> (m_packets_injected s) ⟩).
  destruct (insert_flits_ok env n s1 vc vnet route nf (m_time msg) new_msg b f0 nf_nonneg Hb Hbok Hf Ht)
    as (b' & -> & Hb' & HP). rsimpl.
  nifields. rewrite (vset_eq _ vc) by lia. rsimpl. unfold ni_upd_vc, vupd. nifields.
  rewrite Hov. rsimpl. rewrite vset_eq by lia. rsimpl.
  do 3 eexists. split; [done |]. split_and!.
  - by apply (extends_packet env n vc b b' o).
  - exists route, new_msg. eexists. cbn [fst snd]. split_and!; first [done | lia].
  - done.
  - cbn [setf m_packets_injected]. by apply vget_insert_eq.
  - cbn [setf m_flits_injected]. by apply vget_insert_eq.
Qed.

(** One destination: either no VC of the virtual network is free and nothing
    is sent, or its packet is. *)
Lemma flitisize_dest_ok n s msg nd e p0 f0 :
  send_ok n s p0 f0 -> dest_ok e -> ticksToCycles env (m_time msg) <= cyc env ->
  nd_ok (e_counts env) (m_Destination msg) ->
  (nd <= 1 -> forall x, nd_mem (m_Destination msg) x <-> x = e) ->
  (exists n', flitisize_dest env vnet nf nd (n, s, msg) (node_of (e_counts env) e) = Ok (true, (n', s, msg)) /\
     extends env n n' [] /\
     forall v, vnet * ni_vc_per_vnet n <= v < (vnet + 1) * ni_vc_per_vnet n -> ~ vc_free env n v) \/
  (exists n' s' d' p,
     flitisize_dest env vnet nf nd (n, s, msg) (node_of (e_counts env) e) =
       Ok (false, (n', s', msg ⟨ m_Destination := d' ⟩)) /\
     extends env n n' [p] /\ sent_packet n msg e p /\ send_ok n' s' (p0 + 1) (f0 + nf) /\
     nd_ok (e_counts env) d' /\
     (1 < nd -> forall x, nd_mem d' x <-> nd_mem (m_Destination msg) x /\ x <> e)).
Proof.
  intros (Hok & Hvn & (c & Hc & Hcr) & Hp & Hf) He Ht Hd Hone. unfold flitisize_dest.
  destruct (calculateVC_extends n c Hok Hvn Hc Hcr) as (n1 & vc & -> & Hext & Hvc). rsimpl.
  destruct Hvc as [[-> Hnone]|(Hvc & Hfree & Hb0)].
  { left. exists n1. done. }
  right. pose proof Hext as (Hok1 & (E1 & E2 & E3 & E4 & E5) & _).
  assert (0 <= vc) by (destruct Hok as (? & _); nia).
  rewrite (proj2 (Z.eqb_neq vc (-1))) by lia.
  assert (exists d' pd, (if 1 <? nd then personalise (e_counts env) msg (node_of (e_counts env) e) else Ok (msg, msg)) =
      Ok (msg ⟨ m_Destination := d' ⟩, msg ⟨ m_Destination := pd ⟩) /\ nd_ok (e_counts env) d' /\
      (forall x, nd_mem pd x <-> x = e) /\
      (1 < nd -> forall x, nd_mem d' x <-> nd_mem (m_Destination msg) x /\ x <> e)) as (d' & pd & -> & Hd' & Hpd & Hmem).
  { destruct (Z.ltb_spec 1 nd) as [Hlt|Hge].
    - destruct (personalise_ok (e_counts env) msg e counts_good Hd (proj1 He)) as (rest & pd & -> & ? & ? & ?).
      exists rest, pd. done.
    - exists (m_Destination msg), (m_Destination msg). split_and!; [by destruct msg | done | by apply Hone | lia]. }
  rsimpl.
  destruct (send_packet_ok n1 s (msg ⟨ m_Destination := d' ⟩) (msg ⟨ m_Destination := pd ⟩) vc e p0 f0)
    as (n2 & s2 & fl & -> & Hext2 & Hsp & Hbc & Hp2 & Hf2); try done; try (rewrite ?E2, ?E3; done).
  rsimpl. exists n2, s2, d', (vc, fl). split; [done |].
  pose proof (extends_trans _ _ _ _ _ _ Hext Hext2) as H12. pose proof H12 as (Hok2 & (F1 & F2 & F3 & F4 & F5) & _).
  split_and!; try done.
  - destruct Hsp as (route & new_msg & delay & Hsp). exists route, new_msg, delay.
    rewrite E1, E3, E4 in Hsp. exact Hsp.
  - split_and!; [done | lia | lia | | done | done]. exists 0. rewrite Hbc. split; [done |]. lia.
Qed.

Lemma flitisize_loop nd es : forall n s msg p0 f0,
  send_ok n s p0 f0 -> Forall dest_ok es -> ticksToCycles env (m_time msg) <= cyc env ->
  nd_ok (e_counts env) (m_Destination msg) ->
  (nd <= 1 -> forall e, e ∈ es -> es = [e] /\ forall x, nd_mem (m_Destination msg) x <-> x = e) ->
  exists b n' s' d' done rest sent,
    foldM_brk (flitisize_dest env vnet nf nd) (node_of (e_counts env) <$> es) (n, s, msg) =
      Ok (b, (n', s', msg ⟨ m_Destination := d' ⟩)) /\
    es = done ++ rest /\ (b = true <-> rest <> []) /\
    extends env n n' sent /\ Forall2 (sent_packet n msg) done sent /\
    vget (m_packets_injected s') vnet = Ok (p0 + Z.of_nat (length done)) /\
    vget (m_flits_injected s') vnet = Ok (f0 + nf * Z.of_nat (length done)) /\
    nd_ok (e_counts env) d' /\
    (rest <> [] -> (forall x, nd_mem d' x <-> nd_mem (m_Destination msg) x /\ x ∉ done) /\
       forall v, vnet * ni_vc_per_vnet n <= v < (vnet + 1) * ni_vc_per_vnet n -> ~ vc_free env n' v).
Proof.
  induction es as [|e es IH]; intros n s msg p0 f0 Hs He Ht Hd Hone.
  - pose proof Hs as (Hok & _ & _ & Hp & Hf).
    exists false, n, s, (m_Destination msg), [], [], []. cbn [length Z.of_nat]. rewrite Z.mul_0_r, !Z.add_0_r.
    split_and!; try done; [by destruct msg | by apply extends_refl].
  - apply Forall_cons in He as [He Hes]. cbn [fmap list_fmap foldM_brk].
    destruct (flitisize_dest_ok n s msg nd e p0 f0 Hs He Ht Hd) as
      [(n' & -> & Hext & Hnone)|(n1 & s1 & d1 & p & -> & Hext & Hsp & Hs1 & Hd1 & Hm1)].
    { intros Hnd. apply Hone; [done | left]. }
    + rsimpl. pose proof Hs as (_ & _ & _ & Hp & Hf). pose proof Hext as (_ & _ & Hfree & _).
      exists true, n', s, (m_Destination msg), [], (e :: es), []. cbn [length Z.of_nat].
      rewrite Z.mul_0_r, !Z.add_0_r. split_and!; try done; [by destruct msg |].
      intros _. split; [set_solver |]. intros v Hv Hf'. by apply (Hnone v Hv), Hfree.
    + rsimpl. pose proof Hext as (_ & (E1 & E2 & E3 & E4 & E5) & _).
      set (msg1 := msg ⟨ m_Destination := d1 ⟩).
      destruct (IH n1 s1 msg1 (p0 + 1) (f0 + nf) Hs1 Hes Ht Hd1)
        as (b & n' & s' & d' & dn & rest & sent & Hr & -> & Hb & Hext' & Hsent & Hp' & Hf' & Hd' & Hrest).
      { intros Hnd e' He'. destruct (Hone Hnd e) as [Hes1 _]; [left |]. injection Hes1 as ->. by apply not_elem_of_nil in He'. }
      exists b, n', s', d', (e :: dn), rest, (p :: sent). split; [exact Hr |]. split_and!; try done.
      * apply (extends_trans env n n1 n' [p] sent Hext Hext').
      * constructor; [done |]. eapply Forall2_impl; [exact Hsent |].
        intros x q (route & m' & dl & Hq). exists route, m', dl. rewrite E1, E3, E4 in Hq. exact Hq.
      * rewrite Hp'. cbn [length]. f_equal. lia.
      * rewrite Hf'. cbn [length]. f_equal. lia.
      * intros Hne. destruct (Hrest Hne) as [Hx Hv]. split; [| by rewrite E3 in Hv].
        destruct (decide (nd <= 1)) as [Hle|Hgt].
        { destruct (Hone Hle e) as [Hes1 _]; [left |]. injection Hes1 as Hnil.
          apply app_eq_nil in Hnil as [_ ->]. done. }
        intros x. rewrite (Hx x). change (m_Destination msg1) with d1. rewrite (Hm1 ltac:(lia) x), not_elem_of_cons. naive_solver.
Qed.
End Flitisize.

(** Output VC allocation: if some VC of the virtual network is free,
    [calculateVC] takes the first free one in round-robin order, moves the
    round-robin pointer just past it and clears the deadlock counter; if none
    is, it only counts the failure, and panics exactly when the number of
    failures in a row exceeds the deadlock threshold. *)
Theorem output_vc_allocation (env : Env) (n : NetworkInterface) (vnet d c : Z) :
  inj_ok n -> 0 <= vnet < ni_virtual_networks n ->
  vget (m_vc_allocator n) vnet = Ok d -> vget (vc_busy_counter n) vnet = Ok c ->
  ((exists v, vnet * ni_vc_per_vnet n <= v < (vnet + 1) * ni_vc_per_vnet n /\ vc_free env n v) ->
   exists n' k, calculateVC env n vnet = Ok (n', rr_vc n vnet d k) /\ 0 <= k < ni_vc_per_vnet n /\
     vc_free env n (rr_vc n vnet d k) /\ (forall j, 0 <= j < k -> ~ vc_free env n (rr_vc n vnet d j)) /\
     vget (m_vc_allocator n') vnet = Ok ((d + k + 1) mod ni_vc_per_vnet n) /\
     vget (vc_busy_counter n') vnet = Ok 0 /\ ni_outVcState n' = ni_outVcState n /\ inj_ok n') /\
  ((forall v, vnet * ni_vc_per_vnet n <= v < (vnet + 1) * ni_vc_per_vnet n -> ~ vc_free env n v) ->
   calculateVC env n vnet =
     if m_deadlock_threshold n <? c + 1 then Err EPanic
     else Ok (n ⟨ vc_busy_counter := <[Z.to_nat vnet := c + 1]> (vc_busy_counter n) ⟩, -1)).
Proof.
  intros Hok Hvn Hd Hc. pose proof Hok as (Hv & _ & Hal & Hall & Hb & _).
  assert (Hrange : forall k, vnet * ni_vc_per_vnet n <= rr_vc n vnet d k < (vnet + 1) * ni_vc_per_vnet n).
  { intros k. unfold rr_vc. pose proof (Z.mod_pos_bound (d + k) (ni_vc_per_vnet n) Hv). lia. }
  assert (Hreach : forall v, vnet * ni_vc_per_vnet n <= v < (vnet + 1) * ni_vc_per_vnet n ->
    exists k, 0 <= k < ni_vc_per_vnet n /\ v = rr_vc n vnet d k).
  { intros v Hvr. exists ((v - vnet * ni_vc_per_vnet n - d) mod ni_vc_per_vnet n).
    split; [by apply Z.mod_pos_bound |]. unfold rr_vc. rewrite Zplus_mod_idemp_r.
    replace (d + (v - vnet * ni_vc_per_vnet n - d)) with (v - vnet * ni_vc_per_vnet n) by lia.
    rewrite Z.mod_small; lia. }
  destruct (calculateVC_cases env n vnet d c Hok Hvn Hd Hc) as [(k & Hk & Hfree & Hfirst & Hr)|[Hnone Hr]].
  - split; [| intros H; exfalso; by apply (H _ (Hrange k))]. intros _.
    eexists _, k. split; [exact Hr |]. cbn [setf rr_state m_vc_allocator vc_busy_counter ni_outVcState].
    rewrite !vget_insert_eq by lia. rewrite Z.add_assoc. split_and!; try done; try lia.
    apply (extends_alloc env n); rewrite ?length_insert; try done.
    apply Forall_insert_Z; [done |]. apply Z.mod_pos_bound. done.
  - split; [| done]. intros (v & Hvr & Hfree). destruct (Hreach v Hvr) as (k & Hk & ->). by apply Hnone in Hfree.
Qed.

(** The node list of a destination set, as machine identifiers. *)
Lemma dest_machines counts d dest :
  counts_ok counts -> nd_ok counts d -> listed counts d (Z.of_nat (length d)) 0 dest ->
  exists es, dest = node_of counts <$> es /\ NoDup es /\ forall e, e ∈ es <-> nd_mem d e.
Proof.
  intros Hc Hd Hl. pose proof Hl as (Hsort & _).
  pose proof (fun n => listed_all counts d dest n Hl) as Hmem.
  assert (exists es, dest = node_of counts <$> es /\ Forall (nd_mem d) es) as (es & -> & Hes).
  { clear Hl Hsort. induction dest as [|x dest IH]; [by exists [] |].
    assert (exists e, nd_mem d e /\ x = node_of counts e) as (e & He & ->) by (apply Hmem; left).
    assert (exists es, dest = node_of counts <$> es /\ Forall (nd_mem d) es) as (es & -> & Hes).
    { clear IH. assert (Hsub : forall n, n ∈ dest -> exists e, nd_mem d e /\ n = node_of counts e) by (intros n Hn; apply Hmem; by right).
      clear Hmem. induction dest as [|y dest IH]; [by exists [] |].
      destruct (Hsub y) as (e' & He' & ->); [left |]. destruct IH as (es & -> & Hes); [intros n Hn; apply Hsub; by right |].
      exists (e' :: es). split; [done | by constructor]. }
    exists (e :: es). split; [done | by constructor]. }
  exists es. rewrite Forall_forall in Hes. split_and!; [done | |].
  - apply (NoDup_fmap_1 (node_of counts)). clear -Hsort. induction Hsort as [|x l Hs IH Hx]; constructor; [| done].
    intros Hin. rewrite Forall_forall in Hx. specialize (Hx x Hin). lia.
  - intros e. split; [apply Hes |]. intros He.
    assert (node_of counts e ∈ node_of counts <$> es) as (e' & Heq & He')%list_elem_of_fmap by (apply Hmem; by exists e).
    apply (node_of_inj counts) in Heq; [by subst | done | by eapply nd_mem_mid_ok | eapply nd_mem_mid_ok; [done | by apply Hes]].
Qed.

(** C25.  Multicast: [flitisizeMessage] makes one packet of the right number of
    flits per destination, in distinct free VCs of the virtual network, routed
    to exactly that destination.  If it runs out of free VCs it says so, and
    the destinations left in the message are exactly those that got no packet:
    the retry in a later cycle loses no destination and serves none twice. *)
Theorem multicast_split (env : Env) (n : NetworkInterface) (s : NetStats) (msg : Message) (vnet p0 f0 : Z) :
  counts_ok (e_counts env) -> nd_ok (e_counts env) (m_Destination msg) ->
  (forall e, nd_mem (m_Destination msg) e -> is_ok (vget (routers env) (node_of (e_counts env) e))) ->
  0 <= num_flits_of env msg -> ticksToCycles env (m_time msg) <= cyc env -> send_ok vnet n s p0 f0 ->
  exists ok n' s' msg' done rest sent,
    flitisizeMessage env n s msg vnet = Ok (ok, (n', s', msg')) /\
    NoDup (done ++ rest) /\ (forall e, nd_mem (m_Destination msg) e <-> e ∈ done ++ rest) /\
    (ok = true <-> rest = []) /\
    Forall2 (sent_packet env vnet (num_flits_of env msg) n msg) done sent /\ extends env n n' sent /\
    (ok = false -> forall e, nd_mem (m_Destination msg') e <-> e ∈ rest) /\
    vget (m_packets_injected s') vnet = Ok (p0 + Z.of_nat (length done)) /\
    vget (m_flits_injected s') vnet = Ok (f0 + num_flits_of env msg * Z.of_nat (length done)).
Proof.
  intros Hc Hd Hrt Hnf Ht Hs. unfold flitisizeMessage.
  destruct (getAllDest_listed (e_counts env) (m_Destination msg) Hc Hd) as (dest & -> & Hl). rsimpl.
  destruct (dest_machines _ _ _ Hc Hd Hl) as (es & -> & Hnd & Hmem). rewrite length_fmap.
  destruct (flitisize_loop env vnet (num_flits_of env msg) Hc Hnf (Z.of_nat (length es)) es n s msg p0 f0 Hs)
    as (b & n' & s' & d' & dn & rest & sent & -> & -> & Hb & Hext & Hsent & Hp & Hf & Hd' & Hrest); [| done | done | |].
  - rewrite Forall_forall. intros e He%Hmem. split; [by eapply nd_mem_mid_ok | by apply Hrt].
  - intros Hle e He. destruct es as [|e0 [|]]; cbn [length] in Hle; [by apply not_elem_of_nil in He | | lia].
    apply list_elem_of_singleton in He as ->. split; [done |]. intros x. rewrite <- Hmem. apply list_elem_of_singleton.
  - rsimpl. do 7 eexists. split; [done |]. split_and!; try done.
    + destruct b, rest; naive_solver.
    + intros Hok e. destruct b; [| done]. destruct Hrest as [Hx _]; [by apply Hb |].
      cbn [setf m_Destination]. rewrite (Hx e), <- Hmem, elem_of_app.
      apply NoDup_app in Hnd as (_ & Hdisj & _). specialize (Hdisj e). naive_solver.
Qed.

(** ** An interface with one free VC and a message for two nodes *)

Definition inj_env : Env :=
  {| e_cfg := demo_cfg; e_rs := rs_plain; e_counts := [2; 2]; routers := [0; 1; 2; 3]; cyc := 9; now := 4500;
     curTick := 4500; period := 500; draws := (0, 1, 1) |}.
Definition inj_ov (id : Z) (st : VC_state_type) : OutVcState :=
  {| ov_id := id; ov_time := 0; ov_state := st; m_credit_count := 1; m_max_credit_count := 1 |}.
Definition inj_ni : NetworkInterface :=
  NetworkInterface_ctor 1 3 2 50000
    ⟨ ni_outVcState := [inj_ov 0 ACTIVE_; inj_ov 1 IDLE_; inj_ov 2 IDLE_; inj_ov 3 IDLE_; inj_ov 4 IDLE_; inj_ov 5 IDLE_] ⟩.
Definition inj_stats : NetStats :=
  {| m_packets_received := [0; 0; 0]; m_packets_injected := [0; 0; 0]; m_packet_network_latency := [0; 0; 0];
     m_packet_queueing_latency := [0; 0; 0]; m_flits_received := [0; 0; 0]; m_flits_injected := [0; 0; 0];
     m_flit_network_latency := [0; 0; 0]; m_flit_queueing_latency := [0; 0; 0]; m_total_hops := 0 |}.
Definition inj_msg : Message := Message_ctor 1000 (nd2 2 1) Control 7.

Lemma inj_ni_ok : inj_ok inj_ni.
Proof.
  unfold inj_ok, num_vcs, inj_ni. nifields. split_and!; try done; repeat constructor; try done; apply fb_ctor_ok.
Qed.

Lemma output_vc_allocation_witness :
  calculateVC inj_env inj_ni 0 = Ok (inj_ni, 1) /\
  ((exists v, 0 * 2 <= v < (0 + 1) * 2 /\ vc_free inj_env inj_ni v) ->
   exists n' k, calculateVC inj_env inj_ni 0 = Ok (n', rr_vc inj_ni 0 0 k) /\ 0 <= k < 2 /\
     vc_free inj_env inj_ni (rr_vc inj_ni 0 0 k) /\ (forall j, 0 <= j < k -> ~ vc_free inj_env inj_ni (rr_vc inj_ni 0 0 j)) /\
     vget (m_vc_allocator n') 0 = Ok ((0 + k + 1) mod 2) /\
     vget (vc_busy_counter n') 0 = Ok 0 /\ ni_outVcState n' = ni_outVcState inj_ni /\ inj_ok n').
Proof.
  split; [vm_compute; reflexivity |].
  apply (output_vc_allocation inj_env inj_ni 0 0 0 inj_ni_ok); [split; reflexivity || done | reflexivity | reflexivity].
Defined.

(** Node 1 of type 0 and node 0 of type 1, with one VC free: the first is
    served, the second is left in the message. *)
Lemma multicast_split_witness :
  (exists n' s', flitisizeMessage inj_env inj_ni inj_stats inj_msg 0 =
     Ok (false, (n', s', inj_msg ⟨ m_Destination := nd2 0 1 ⟩))) /\
  exists ok n' s' msg' done rest sent,
    flitisizeMessage inj_env inj_ni inj_stats inj_msg 0 = Ok (ok, (n', s', msg')) /\
    NoDup (done ++ rest) /\ (forall e, nd_mem (m_Destination inj_msg) e <-> e ∈ done ++ rest) /\
    (ok = true <-> rest = []) /\
    Forall2 (sent_packet inj_env 0 (num_flits_of inj_env inj_msg) inj_ni inj_msg) done sent /\
    extends inj_env inj_ni n' sent /\
    (ok = false -> forall e, nd_mem (m_Destination msg') e <-> e ∈ rest) /\
    vget (m_packets_injected s') 0 = Ok (0 + Z.of_nat (length done)) /\
    vget (m_flits_injected s') 0 = Ok (0 + num_flits_of inj_env inj_msg * Z.of_nat (length done)).
Proof.
  split; [do 2 eexists; vm_compute; reflexivity |].
  apply (multicast_split inj_env inj_ni inj_stats inj_msg 0 0 0).
  - split; [repeat constructor; done | done].
  - apply nd2_ok; lia.
  - intros e He. assert (mid_ok [2; 2] e) as Hm by (apply (nd_mem_mid_ok [2; 2] (nd2 2 1)); [apply nd2_ok; lia | exact He]).
    destruct (mid_ok_node [2; 2] e) as [Hr _]; [split; [repeat constructor; done | done] | done |].
    assert (0 <= node_of [2; 2] e < 4) as Hn.
    { pose proof (base_of_bound [2; 2] (mtype e)) as H1. pose proof (base_of_bound [2; 2] (mtype e + 1)) as H2.
      cbn [foldr] in H1, H2. assert (counts_ok [2; 2]) as Hc by (split; [repeat constructor; done | done]).
      specialize (H1 Hc). specialize (H2 Hc). lia. }
    change (is_ok (vget [0; 1; 2; 3] (node_of [2; 2] e))). apply vget_is_ok. cbn [length]. lia.
  - vm_compute. discriminate.
  - vm_compute. discriminate.
  - split; [exact inj_ni_ok |]. split; [split; reflexivity || done |]. split_and!; [| reflexivity | reflexivity].
    exists 0. split; [reflexivity | split; [done | reflexivity]].
Defined.
