(* ===== verification/OutputLink.v ===== *)
(** * Scheduling of the network interface's output link

    Proves [NetworkInterface::scheduleOutputLink] correct: every cycle at most
    one flit is put on the link, only under a credit, from the first eligible
    VC in round-robin order, and in an ordered virtual network only from the
    VC of the oldest waiting packet; if any VC is eligible a flit is sent. *)
From S2P Require Import Prelude StdHeap NetDest Common MessageBuffer Flit Network RoutingUnit PortUnits NetworkInterface Injection.

(** ** Eligible VCs *)

Definition vc_ready (env : Env) (n : NetworkInterface) (vc : Z) : Prop :=
  exists b, vget (niOutVcs n) vc = Ok b /\ fb_isReady b (cyc env) = true.

Definition vc_credit (n : NetworkInterface) (vc : Z) : Prop :=
  exists s, vget (ni_outVcState n) vc = Ok s /\ ov_has_credit s = true.

(** No ready VC of the same virtual network holds an older packet. *)
Definition vc_oldest (env : Env) (n : NetworkInterface) (vc : Z) : Prop :=
  forall v t1 t2, v / ni_vc_per_vnet n = vc / ni_vc_per_vnet n -> vc_ready env n v ->
    vget (m_ni_out_vcs_enqueue_time n) v = Ok t1 -> vget (m_ni_out_vcs_enqueue_time n) vc = Ok t2 -> t2 <= t1.

Definition eligible (env : Env) (n : NetworkInterface) (vc : Z) : Prop :=
  vc_ready env n vc /\ vc_credit n vc /\
  (isVNetOrdered (e_cfg env) (vc / ni_vc_per_vnet n) = Ok true -> vc_oldest env n vc).

(** ** The pieces of one iteration *)

Lemma ni_get_vnet_ok n vc :
  inj_ok n -> 0 <= vc < num_vcs n -> ni_get_vnet n vc = Ok (vc / ni_vc_per_vnet n).
Proof.
  intros (Hv & Hn & _) Hvc. unfold num_vcs in Hvc.
  pose proof (Z.div_mod vc (ni_vc_per_vnet n) ltac:(lia)) as Hdm.
  pose proof (Z.mod_pos_bound vc (ni_vc_per_vnet n) Hv) as Hm.
  set (q := vc / ni_vc_per_vnet n) in *. assert (0 <= q < ni_virtual_networks n) as Hq by nia.
  unfold ni_get_vnet, upto.
  assert (forall m k, Z.of_nat m = ni_virtual_networks n - k -> 0 <= k <= q ->
    ni_get_vnet_loop n vc (seqZ k (ni_virtual_networks n - k)) = Ok q) as Haux.
  { induction m as [|m IH]; intros k Hmk Hk; [lia |]. rewrite seqZ_cons by lia. cbn [ni_get_vnet_loop].
    destruct ((k * ni_vc_per_vnet n <=? vc) && (vc <? (k + 1) * ni_vc_per_vnet n))%bool eqn:E.
    - b2p. f_equal. nia.
    - replace (Z.pred (ni_virtual_networks n - k)) with (ni_virtual_networks n - Z.succ k) by lia.
      apply IH; [lia |]. destruct (decide (k = q)) as [->|]; [| lia]. exfalso. nia. }
  specialize (Haux (Z.to_nat (ni_virtual_networks n)) 0). rewrite Z.sub_0_r in Haux. apply Haux; lia.
Qed.

Lemma older_packet_ok env n vc :
  inj_ok n -> 0 <= vc < num_vcs n ->
  exists b, foldM_brk (older_packet_iter env n vc (vc / ni_vc_per_vnet n * ni_vc_per_vnet n))
      (upto (ni_vc_per_vnet n)) tt = Ok (b, tt) /\ (b = false <-> vc_oldest env n vc).
Proof.
  intros Hok Hvc. pose proof Hok as (Hv & Hn & _ & _ & _ & _ & Hq & Hts & _).
  pose proof (Z.div_mod vc (ni_vc_per_vnet n) ltac:(lia)) as Hdm.
  pose proof (Z.mod_pos_bound vc (ni_vc_per_vnet n) Hv) as Hm.
  set (q := vc / ni_vc_per_vnet n) in *. assert (0 <= q < ni_virtual_networks n) as Hqr by (unfold num_vcs in Hvc; nia).
  destruct (vget_is_ok (m_ni_out_vcs_enqueue_time n) vc) as [t2 Ht2]; [lia |].
  set (old := fun j => exists t1, vc_ready env n (q * ni_vc_per_vnet n + j) /\
    vget (m_ni_out_vcs_enqueue_time n) (q * ni_vc_per_vnet n + j) = Ok t1 /\ t1 < t2).
  destruct (foldM_brk_upto (older_packet_iter env n vc (q * ni_vc_per_vnet n))
    (fun k _ => forall j, 0 <= j < k -> ~ old j) (fun k _ => old k) (ni_vc_per_vnet n) tt)
    as (b & [] & -> & H); [lia | lia | |].
  - intros j [] Hj Hnone. unfold older_packet_iter.
    assert (0 <= q * ni_vc_per_vnet n + j < num_vcs n) as Hr by (unfold num_vcs; nia).
    destruct (vget_is_ok (niOutVcs n) (q * ni_vc_per_vnet n + j)) as [b Hb]; [lia |].
    destruct (vget_is_ok (m_ni_out_vcs_enqueue_time n) (q * ni_vc_per_vnet n + j)) as [t1 Ht1]; [lia |].
    rewrite Hb. rsimpl. destruct (fb_isReady b (cyc env)) eqn:Er.
    + rewrite Ht1, Ht2. rsimpl. do 2 eexists. split; [done |]. destruct (Z.ltb_spec t1 t2).
      * exists t1. split_and!; [by exists b | done | done].
      * intros i Hi. destruct (decide (i = j)) as [->|]; [| apply Hnone; lia].
        intros (t & _ & Ht & ?). assert (t = t1) by congruence. lia.
    + do 2 eexists. split; [done |]. intros i Hi. destruct (decide (i = j)) as [->|]; [| apply Hnone; lia].
      intros (t & (b' & Hb' & Er') & _). congruence.
  - exists b. split; [done |]. unfold vc_oldest. fold q. destruct b.
    + destruct H as (j & Hj & t1 & Hr & Ht1 & Hlt). split; [done |]. intros Hold.
      specialize (Hold (q * ni_vc_per_vnet n + j) t1 t2).
      rewrite Z.div_add_l, Z.div_small, Z.add_0_r in Hold by lia. specialize (Hold eq_refl Hr Ht1 Ht2). lia.
    + split; [| done]. intros _ v t1 t2' Hvq Hrdy Ht1 Ht2'. assert (t2' = t2) as -> by congruence.
      destruct (decide (t2 <= t1)); [done |]. exfalso.
      pose proof (Z.div_mod v (ni_vc_per_vnet n) ltac:(lia)) as Hvdm.
      pose proof (Z.mod_pos_bound v (ni_vc_per_vnet n) Hv). rewrite Hvq in Hvdm.
      apply (H (v mod ni_vc_per_vnet n)); [done |]. exists t1.
      replace (q * ni_vc_per_vnet n + v mod ni_vc_per_vnet n) with v by lia. split_and!; [done | done | lia].
Qed.

(** What putting the top flit of [vc] on the link does. *)
Definition flit_sent (env : Env) (n n' : NetworkInterface) (vc : Z) : Prop :=
  exists b b' f s,
    vget (niOutVcs n) vc = Ok b /\ getTopFlit b = Ok (b', f) /\
    niOutVcs n' = <[Z.to_nat vc := b']> (niOutVcs n) /\
    m_buffer (outFlitQueue n') ≡ₚ f ⟨ f_time := u64 (cyc env + 1) ⟩ :: m_buffer (outFlitQueue n) /\
    vget (ni_outVcState n) vc = Ok s /\ 0 < m_credit_count s /\
    ni_outVcState n' = <[Z.to_nat vc := s ⟨ m_credit_count := m_credit_count s - 1 ⟩]> (ni_outVcState n) /\
    m_vc_round_robin n' = vc /\ inj_ok n'.

Lemma fb_isReady_getTop b t : fb_isReady b t = true -> exists b' f, getTopFlit b = Ok (b', f).
Proof. unfold fb_isReady, getTopFlit. destruct (m_buffer b); [done |]. rsimpl. eauto. Qed.

Lemma send_flit_ok env n vc :
  inj_ok n -> vc_ready env n vc -> vc_credit n vc ->
  exists n', send_flit env n vc = Ok n' /\ flit_sent env n n' vc.
Proof.
  intros Hok (b & Hb & Hr) (s & Hs & Hc). unfold ov_has_credit in Hc. b2p.
  pose proof Hok as (H1 & H2 & H3 & H4 & H5 & H6 & H7 & H8 & H9 & H10).
  pose proof (vget_range _ _ _ Hb) as Hbr. pose proof (vget_range _ _ _ Hs) as Hsr.
  destruct (fb_isReady_getTop b _ Hr) as (b' & f & Hf).
  assert (fb_ok b') as Hb'.
  { eapply getTopFlit_ok; [| exact Hf]. rewrite Forall_lookup in H9. apply vget_Ok in Hb as [_ Hb]. by eapply H9. }
  unfold send_flit, ni_upd_vc, vupd. nifields. rewrite Hs. rsimpl. unfold ov_decrement_credit.
  cbn [setf m_credit_count]. rewrite (proj2 (Z.leb_le 0 (m_credit_count s - 1))) by lia. rsimpl.
  rewrite (vset_eq _ vc) by done. rsimpl. nifields. rewrite Hb. rsimpl. rewrite Hf. rsimpl.
  rewrite (vset_eq _ vc b') by done. rsimpl.
  assert (forall ts, length ts = length (m_ni_out_vcs_enqueue_time n) ->
    flit_sent env n (n ⟨ m_vc_round_robin := vc ⟩
        ⟨ ni_outVcState := <[Z.to_nat vc := s ⟨ m_credit_count := m_credit_count s - 1 ⟩]> (ni_outVcState n) ⟩
        ⟨ niOutVcs := <[Z.to_nat vc := b']> (niOutVcs n) ⟩
        ⟨ outFlitQueue := fb_insert (outFlitQueue n) (f ⟨ f_time := u64 (cyc env + 1) ⟩) ⟩
        ⟨ m_ni_out_vcs_enqueue_time := ts ⟩) vc) as Hdone.
  { intros ts Hts. exists b, b', f, s. unfold inj_ok, num_vcs in *. nifields. rewrite !length_insert, Hts.
    split_and!; try done; [apply fb_insert_perm | by apply Forall_insert_Z | by apply fb_insert_ok]. }
  destruct (is_tail _).
  - rewrite (vset_eq _ vc) by lia. rsimpl. eexists. split; [done |]. apply Hdone. apply length_insert.
  - eexists. split; [done |]. specialize (Hdone (m_ni_out_vcs_enqueue_time n) eq_refl). by destruct n.
Qed.

(** One iteration looks at the VC after [vc] and sends from it iff eligible. *)
Lemma schedule_iter_ok env n k i :
  inj_ok n -> 0 < num_vcs n ->
  Z.of_nat (length (m_ordered (cfg_net (e_cfg env)))) = ni_virtual_networks n ->
  let vc := (k + 1) mod num_vcs n in
  exists b n', schedule_iter env (n, k mod num_vcs n) i = Ok (b, (n', vc)) /\
    (if b : bool then eligible env n vc /\ flit_sent env n n' vc else ~ eligible env n vc /\ n' = n).
Proof.
  intros Hok Hpos Hord vc. pose proof Hok as (Hv & Hn & _ & _ & _ & Ho & Hq & _).
  pose proof (Z.mod_pos_bound (k + 1) (num_vcs n) Hpos) as Hvc. fold vc in Hvc.
  unfold schedule_iter. rewrite Hq.
  replace (if k mod num_vcs n + 1 =? num_vcs n then 0 else k mod num_vcs n + 1) with vc
    by (unfold vc; rewrite <- (rr_next 0 k) by done; by rewrite !Z.add_0_l).
  destruct (vget_is_ok (niOutVcs n) vc) as [b Hb]; [lia |].
  destruct (vget_is_ok (ni_outVcState n) vc) as [s Hs]; [lia |].
  rewrite Hb, Hs. rsimpl.
  destruct (fb_isReady b (cyc env)) eqn:Er; [| exists false, n; split; [done |]; split; [| done];
    intros ((b' & Hb' & ?) & _); congruence].
  destruct (ov_has_credit s) eqn:Ec; cbn [andb]; [| exists false, n; split; [done |]; split; [| done];
    intros (_ & (s' & Hs' & ?) & _); congruence].
  assert (vc_ready env n vc) as Hr by by exists b. assert (vc_credit n vc) as Hc by by exists s.
  rewrite ni_get_vnet_ok by done. rsimpl.
  destruct (vget_is_ok (m_ordered (cfg_net (e_cfg env))) (vc / ni_vc_per_vnet n)) as [ord Hod].
  { rewrite Hord. split; [apply Z.div_pos; lia |]. apply Z.div_lt_upper_bound; [lia |]. unfold num_vcs in Hvc. lia. }
  unfold isVNetOrdered at 1. rewrite Hod. rsimpl.
  assert (exists old, (if ord then foldM_brk (older_packet_iter env n vc (vc / ni_vc_per_vnet n * ni_vc_per_vnet n))
      (upto (ni_vc_per_vnet n)) tt else Ok (false, tt)) = Ok (old, tt) /\
    (old = false <-> (ord = true -> vc_oldest env n vc))) as (old & -> & Hold).
  { destruct ord; [| by exists false]. destruct (older_packet_ok env n vc Hok Hvc) as (o & -> & Hoo).
    exists o. split; [done |]. rewrite Hoo. naive_solver. }
  rsimpl. destruct old.
  - exists false, n. split; [done |]. split; [| done]. intros (_ & _ & He).
    assert (true = false); [| done]. apply Hold. intros ->. apply He. exact Hod.
  - destruct (send_flit_ok env n vc Hok Hr Hc) as (n' & -> & Hsent). rsimpl. exists true, n'.
    split; [done |]. split; [| done]. split_and!; [done | done |]. intros He. apply Hold; [done |].
    unfold isVNetOrdered in He. congruence.
Qed.

(** One flit per cycle on the output link.  The scheduler looks at the VCs
    in round-robin order after the last one served and sends the top flit of
    the first eligible one: ready, with a credit, and in an ordered virtual
    network no younger than any other ready VC of that network.  That flit
    moves to the link queue with the next cycle's time and costs one credit;
    if no VC is eligible nothing changes. *)
Theorem output_link_scheduling (env : Env) (n : NetworkInterface) :
  inj_ok n -> 0 <= m_vc_round_robin n < num_vcs n ->
  Z.of_nat (length (m_ordered (cfg_net (e_cfg env)))) = ni_virtual_networks n ->
  (exists n' k, scheduleOutputLink env n = Ok (n', [WakeOutNetLink]) /\ 0 <= k < num_vcs n /\
     let vc j := (m_vc_round_robin n + 1 + j) mod num_vcs n in
     eligible env n (vc k) /\ (forall j, 0 <= j < k -> ~ eligible env n (vc j)) /\ flit_sent env n n' (vc k)) \/
  (scheduleOutputLink env n = Ok (n, []) /\ forall v, 0 <= v < num_vcs n -> ~ eligible env n v).
Proof.
  intros Hok Hrr Hord. pose proof Hok as (_ & _ & _ & _ & _ & _ & Hq & _). unfold scheduleOutputLink. rewrite Hq.
  set (r := m_vc_round_robin n). set (vc := fun j => (r + 1 + j) mod num_vcs n).
  destruct (foldM_brk_upto (schedule_iter env)
    (fun i st => st = (n, (r + i) mod num_vcs n) /\ forall j, 0 <= j < i -> ~ eligible env n (vc j))
    (fun i st => eligible env n (vc i) /\ (forall j, 0 <= j < i -> ~ eligible env n (vc j)) /\ flit_sent env n st.1 (vc i))
    (num_vcs n) (n, r)) as (b & st & -> & H); [lia | | |].
  - rewrite Z.add_0_r, Z.mod_small by done. split; [done | lia].
  - intros i st Hi [-> Hnone]. destruct (schedule_iter_ok env n (r + i) i Hok ltac:(lia) Hord) as (b & n' & -> & H).
    replace (r + i + 1) with (r + 1 + i) in * by lia. do 2 eexists. split; [done |]. destruct b.
    + destruct H. split_and!; done.
    + destruct H as [Hne ->]. replace (r + (i + 1)) with (r + 1 + i) by lia. split; [done |].
      intros j Hj. destruct (decide (j = i)) as [->|]; [done | apply Hnone; lia].
  - rsimpl. destruct b.
    + left. destruct H as (i & Hi & He & Hnone & Hs). exists st.1, i. done.
    + right. destruct H as [-> Hnone]. split; [done |]. intros v Hv He.
      apply (Hnone ((v - r - 1) mod num_vcs n)); [apply Z.mod_pos_bound; lia |].
      unfold vc. rewrite Zplus_mod_idemp_r. replace (r + 1 + (v - r - 1)) with v by lia. by rewrite Z.mod_small.
Qed.

(** A control packet of the ordered virtual network 1 waits in VC 3. *)
Definition link_flit : flit := flit_ctor 0 3 1 no_route 1 inj_msg 8.
Definition link_ni : NetworkInterface :=
  inj_ni ⟨ niOutVcs := <[3%nat := fb_insert flitBuffer_ctor link_flit]> (niOutVcs inj_ni) ⟩
         ⟨ m_ni_out_vcs_enqueue_time := <[3%nat := 8]> (m_ni_out_vcs_enqueue_time inj_ni) ⟩.

Lemma output_link_scheduling_witness :
  (exists n', scheduleOutputLink inj_env link_ni = Ok (n', [WakeOutNetLink])) /\
  ((exists n' k, scheduleOutputLink inj_env link_ni = Ok (n', [WakeOutNetLink]) /\ 0 <= k < num_vcs link_ni /\
     let vc j := (m_vc_round_robin link_ni + 1 + j) mod num_vcs link_ni in
     eligible inj_env link_ni (vc k) /\ (forall j, 0 <= j < k -> ~ eligible inj_env link_ni (vc j)) /\
     flit_sent inj_env link_ni n' (vc k)) \/
   (scheduleOutputLink inj_env link_ni = Ok (link_ni, []) /\
    forall v, 0 <= v < num_vcs link_ni -> ~ eligible inj_env link_ni v)).
Proof.
  split; [eexists; vm_compute; reflexivity |]. apply output_link_scheduling.
  - pose proof inj_ni_ok as (H1 & H2 & H3 & H4 & H5 & H6 & H7 & H8 & H9 & H10).
    unfold inj_ok, link_ni, num_vcs in *. nifields. rewrite !length_insert. split_and!; try done.
    apply Forall_insert; [done |]. apply fb_insert_ok, fb_ctor_ok.
  - split; reflexivity || done.
  - reflexivity.
Defined.
