(* ===== verification/GarnetNetwork.v ===== *)
(** * The assembled network

    Models [garnet2.0/GarnetNetwork.{hh,cc}]: the constructor, the calls by which
    the topology connects routers and network interfaces
    ([makeExtInLink], [makeExtOutLink], [makeInternalLink]), [init], and the
    accessors of routers.

    [m_networklinks] and [m_creditlinks], which the code fills in step, are one
    list of [wire]s: the network link, the credit link that runs the other way,
    and the two ends the pointers of the source connect
    ([setSourceQueue] / [setLinkConsumer]).  The network links of a
    [GarnetExtLink] or [GarnetIntLink] take their parameters from the link they
    belong to, as [GarnetLink.py] declares.  The fault model is not modelled:
    [init] declares the routers to it and prints when it is enabled. *)
From S2P Require Import Prelude NetDest Topology Common MessageBuffer Flit Network RoutingUnit PortUnits Router NetworkInterface.

(** ** Data *)

Inductive endpoint :=
  | AtRouter (id port : Z)
  | AtNI (id : Z).

#[export] Instance endpoint_eq_dec : EqDecision endpoint.
Proof. solve_decision. Defined.

Record wire := {
  w_net : NetworkLink;
  w_credit : NetworkLink;
  w_src : endpoint;      (** whose queue the network link reads *)
  w_dst : endpoint       (** who consumes it *)
}.

Record GarnetNetwork := {
  gn_cfg : NetConfig;
  m_routers : list Router;
  m_nis : list NetworkInterface;
  gn_wires : list wire
}.

#[export] Instance NetConfig_eta : Eta NetConfig := {| eta := fun c =>
  {| cfg_net := cfg_net c; m_num_rows := m_num_rows c; m_num_cols := m_num_cols c;
     m_ni_flit_size := m_ni_flit_size c; m_vcs_per_vnet := m_vcs_per_vnet c;
     m_buffers_per_ctrl_vc := m_buffers_per_ctrl_vc c; m_buffers_per_data_vc := m_buffers_per_data_vc c;
     m_routing_algorithm := m_routing_algorithm c; m_vnet_type := m_vnet_type c |} |}.

#[export] Instance GarnetNetwork_eta : Eta GarnetNetwork := {| eta := fun g =>
  {| gn_cfg := gn_cfg g; m_routers := m_routers g; m_nis := m_nis g; gn_wires := gn_wires g |} |}.

(** ** Construction *)

(** The parameters of [GarnetNetworkParams] the constructor reads. *)
Record GarnetParams := {
  p_num_rows : Z;
  p_ni_flit_size : Z;
  p_vcs_per_vnet : Z;
  p_buffers_per_data_vc : Z;
  p_buffers_per_ctrl_vc : Z;
  p_routing_algorithm : Z;
  p_routers : list Router;
  p_netifs : list NetworkInterface
}.

Definition vnet_type_of (name : string) : VNET_type :=
  if bool_decide (name = "response"%string) then DATA_VNET_ else CTRL_VNET_.

(** [net] is the part [Network::Network] has built. *)
Definition GarnetNetwork_ctor (net : Network) (p : GarnetParams) : GarnetNetwork :=
  {| gn_cfg := {| cfg_net := net; m_num_rows := p_num_rows p; m_num_cols := 0;
                  m_ni_flit_size := p_ni_flit_size p; m_vcs_per_vnet := p_vcs_per_vnet p;
                  m_buffers_per_ctrl_vc := p_buffers_per_ctrl_vc p;
                  m_buffers_per_data_vc := p_buffers_per_data_vc p;
                  m_routing_algorithm := p_routing_algorithm p;
                  m_vnet_type := vnet_type_of <$> m_vnet_type_names net |};
     m_routers := p_routers p; m_nis := p_netifs p; gn_wires := [] |}.

Definition getNumRouters (g : GarnetNetwork) : Z := Z.of_nat (length (m_routers g)).

Definition get_router_id (g : GarnetNetwork) (ni : Z) : res Z :=
  n ← vget (m_nis g) ni; Ok (m_router_id n).

(** A network or credit link of the Garnet link [l]. *)
Definition garnet_link (cfg : NetConfig) (l : BasicLink) : NetworkLink :=
  NetworkLink_ctor (link_id l) (m_latency l) (m_vcs_per_vnet cfg) (m_virtual_networks (cfg_net cfg)).

Definition makeExtInLink (g : GarnetNetwork) (src dest : Z) (link : BasicLink) : res GarnetNetwork :=
  _ ← cassert (src <? Network.m_nodes (cfg_net (gn_cfg g)));
  let net_link := setType (garnet_link (gn_cfg g) link) EXT_IN_ in
  let credit_link := garnet_link (gn_cfg g) link in
  router ← vget (m_routers g) dest;
  let '(router', net_link) := Router_addInPort router "Local" net_link in
  routers ← vset (m_routers g) dest router';
  ni ← vget (m_nis g) src;
  let '(ni, credit_link) := NI_addOutPort ni credit_link dest in
  nis ← vset (m_nis g) src ni;
  Ok (g ⟨ m_routers := routers ⟩ ⟨ m_nis := nis ⟩
        ⟨ gn_wires := gn_wires g ++ [{| w_net := net_link; w_credit := credit_link; w_src := AtNI src;
                                        w_dst := AtRouter dest (get_num_inports router) |}] ⟩).

Definition makeExtOutLink (g : GarnetNetwork) (src dest : Z) (link : BasicLink) (entry : netdest)
    : res GarnetNetwork :=
  _ ← cassert (dest <? Network.m_nodes (cfg_net (gn_cfg g)));
  _ ← cassert (src <? getNumRouters g);
  let net_link := setType (garnet_link (gn_cfg g) link) EXT_OUT_ in
  let credit_link := garnet_link (gn_cfg g) link in
  router ← vget (m_routers g) src;
  x ← Router_addOutPort (gn_cfg g) router "Local" entry (m_weight link) credit_link;
  let '(router', credit_link) := x in
  routers ← vset (m_routers g) src router';
  ni ← vget (m_nis g) dest;
  let net_link := NI_addInPort ni net_link in
  Ok (g ⟨ m_routers := routers ⟩
        ⟨ gn_wires := gn_wires g ++ [{| w_net := net_link; w_credit := credit_link;
                                        w_src := AtRouter src (get_num_outports router); w_dst := AtNI dest |}] ⟩).

Definition makeInternalLink (g : GarnetNetwork) (src dest : Z) (link : BasicLink) (entry : netdest)
    (src_outport_dirn dst_inport_dirn : string) : res GarnetNetwork :=
  let net_link := setType (garnet_link (gn_cfg g) link) INT_ in
  let credit_link := garnet_link (gn_cfg g) link in
  rd ← vget (m_routers g) dest;
  let '(rd', net_link) := Router_addInPort rd dst_inport_dirn net_link in
  routers ← vset (m_routers g) dest rd';
  rs ← vget routers src;
  x ← Router_addOutPort (gn_cfg g) rs src_outport_dirn entry (m_weight link) credit_link;
  let '(rs', credit_link) := x in
  routers ← vset routers src rs';
  Ok (g ⟨ m_routers := routers ⟩
        ⟨ gn_wires := gn_wires g ++ [{| w_net := net_link; w_credit := credit_link;
                                        w_src := AtRouter src (get_num_outports rs);
                                        w_dst := AtRouter dest (get_num_inports rd) |}] ⟩).

(** The calls of [Topology::createLinks]. *)
Definition net_apply (g : GarnetNetwork) (c : net_call) : res GarnetNetwork :=
  match c with
  | MakeExtInLink src dest link _ => makeExtInLink g src dest link
  | MakeExtOutLink src dest link entry => makeExtOutLink g src dest link entry
  | MakeInternalLink src dest link entry sd dd => makeInternalLink g src dest link entry sd dd
  end.

(** ** [init]; [buf] gives the message buffer behind a queue pointer *)

Definition add_node (buf : Z -> MessageBuffer) (g : GarnetNetwork) (i : Z) : res GarnetNetwork :=
  ni ← vget (m_nis g) i;
  inq ← vget (m_toNetQueues (cfg_net (gn_cfg g))) i;
  outq ← vget (m_fromNetQueues (cfg_net (gn_cfg g))) i;
  ni ← addNode ni (map (option_map buf) inq) (map (option_map buf) outq);
  nis ← vset (m_nis g) i ni;
  Ok (g ⟨ m_nis := nis ⟩).

(** Rows and columns of a mesh; -1 for any other topology. *)
Definition set_mesh (g : GarnetNetwork) : res GarnetNetwork :=
  let num_rows := m_num_rows (gn_cfg g) in
  if 0 <? num_rows then
    let num_cols := getNumRouters g / num_rows in
    _ ← cassert (num_rows * num_cols =? getNumRouters g);
    Ok (g ⟨ gn_cfg := gn_cfg g ⟨ m_num_cols := num_cols ⟩ ⟩)
  else Ok (g ⟨ gn_cfg := gn_cfg g ⟨ m_num_rows := -1 ⟩ ⟨ m_num_cols := -1 ⟩ ⟩).

(** [None] if the fuel of the shortest-path loop ran out, which does not
    happen ([Topology.shortest_path_correct]). *)
Definition GarnetNetwork_init (counts : list Z) (block_size_bytes : Z) (buf : Z -> MessageBuffer) (topo : Topology)
    (g : GarnetNetwork) : res (option GarnetNetwork) :=
  let g := g ⟨ gn_cfg := gn_cfg g ⟨ cfg_net := Network_init block_size_bytes (cfg_net (gn_cfg g)) ⟩ ⟩ in
  g ← foldM (add_node buf) (upto (Network.m_nodes (cfg_net (gn_cfg g)))) g;
  calls ← createLinks counts topo;
  match calls with
  | None => Ok None
  | Some calls => g ← foldM net_apply calls g; Some <$> set_mesh g
  end.
