(* ===== verification/TableRouting.v ===== *)
(** * Routing over the assembled network

    Connects the topology's tables to the routers: [GarnetNetwork::init] runs
    to its end and gives every output port of every router the entry and the
    weight of the link behind it; packets that follow the tables, whatever
    [rand()] returns, reach the network interface of their destination. *)
From S2P Require Import Prelude NetDest Topology RoutingTables Common MessageBuffer Flit Network RoutingUnit PortUnits Router NetworkInterface GarnetNetwork.

(** ** What the calls give a router *)

Inductive target := ToRouter (id : Z) | ToNI (id : Z).

Record out := { o_target : target; o_entry : netdest; o_weight : Z }.

(** The output port the call [c] adds to router [i]. *)
Definition out_of (i : Z) (c : net_call) : option out :=
  match c with
  | MakeExtInLink _ _ _ _ => None
  | MakeExtOutLink src dest link entry =>
      if decide (src = i) then Some {| o_target := ToNI dest; o_entry := entry; o_weight := m_weight link |} else None
  | MakeInternalLink src dest link entry _ _ =>
      if decide (src = i) then Some {| o_target := ToRouter dest; o_entry := entry; o_weight := m_weight link |} else None
  end.

Definition target_of (e : endpoint) : target :=
  match e with AtRouter id _ => ToRouter id | AtNI id => ToNI id end.

(** The port of router [i] the wire leaves, and where it leads. *)
Definition out_wire (i : Z) (w : wire) : option (Z * target) :=
  match w_src w with
  | AtRouter id port => if decide (id = i) then Some (port, target_of (w_dst w)) else None
  | AtNI _ => None
  end.

(** Router [r], number [i], has the ports of [outs], and the wires lead there. *)
Record has_ports (i : Z) (outs : list out) (wires : list wire) (r : Router) : Prop := {
  hp_units : length (m_output_unit r) = length outs;
  hp_table : m_routing_table (routingUnit r) = o_entry <$> outs;
  hp_weights : m_weight_table (routingUnit r) = o_weight <$> outs;
  hp_wires : omap (out_wire i) wires = imap (fun p o => (Z.of_nat p, o_target o)) outs
}.

(** The network after the calls [cs]. *)
Record assembled (vcs nodes nr : Z) (cfg : NetConfig) (cs : list net_call) (g : GarnetNetwork) : Prop := {
  as_cfg : gn_cfg g = cfg;
  as_nis : Z.of_nat (length (m_nis g)) = nodes;
  as_routers : Z.of_nat (length (m_routers g)) = nr;
  as_ports : forall i r, vget (m_routers g) i = Ok r ->
    rt_num_vcs r = vcs /\ has_ports i (omap (out_of i) cs) (gn_wires g) r
}.

Definition call_range (nodes nr : Z) (c : net_call) : Prop :=
  match c with
  | MakeExtInLink s d _ _ => 0 <= s < nodes /\ 0 <= d < nr
  | MakeExtOutLink s d _ _ => 0 <= s < nr /\ 0 <= d < nodes
  | MakeInternalLink s d _ _ _ _ => 0 <= s < nr /\ 0 <= d < nr /\ s <> d
  end.

(** The virtual channels of the configuration, so that output ports can be built. *)
Record vcs_ok (cfg : NetConfig) (vcs : Z) : Prop := {
  vk_num : 0 <= vcs;
  vk_per : 0 < m_vcs_per_vnet cfg;
  vk_types : vcs <= m_vcs_per_vnet cfg * Z.of_nat (length (m_vnet_type cfg));
  vk_data : 1 <= m_buffers_per_data_vc cfg;
  vk_ctrl : 1 <= m_buffers_per_ctrl_vc cfg
}.

Lemma OutputUnit_ctor_ok cfg vcs id dirn per :
  vcs_ok cfg vcs -> exists u, OutputUnit_ctor cfg id dirn vcs per = Ok u.
Proof.
  intros [Hn Hp Ht Hd Hc]. unfold OutputUnit_ctor.
  destruct (foldM_upto (fun l i => s ← OutVcState_ctor cfg i; Ok (l ++ [s])) (fun _ _ => True) vcs [])
    as (ovs & -> & _); [done | done | | by eexists].
  intros i l Hi _. unfold OutVcState_ctor, get_vnet_type.
  destruct (vget_is_ok (m_vnet_type cfg) (i / m_vcs_per_vnet cfg)) as [ty ->].
  { split; [apply Z.div_pos; lia | apply Z.div_lt_upper_bound; lia]. }
  rsimpl. assert ((1 <=? (if decide (ty = DATA_VNET_) then m_buffers_per_data_vc cfg else m_buffers_per_ctrl_vc cfg)) = true)
    as -> by (apply Z.leb_le; by case_decide).
  rsimpl. by eexists.
Qed.

(** ** One call *)

Lemma out_wire_router i id p d net credit :
  out_wire i {| w_net := net; w_credit := credit; w_src := AtRouter id p; w_dst := d |} =
    if decide (id = i) then Some (p, target_of d) else None.
Proof. done. Qed.

Lemma has_ports_other i outs wires w r r' :
  has_ports i outs wires r -> out_wire i w = None ->
  m_output_unit r' = m_output_unit r ->
  m_routing_table (routingUnit r') = m_routing_table (routingUnit r) ->
  m_weight_table (routingUnit r') = m_weight_table (routingUnit r) ->
  has_ports i outs (wires ++ [w]) r'.
Proof.
  intros [Hu Ht Hw Hwi] Hn E1 E2 E3. split; rewrite ?E1, ?E2, ?E3; try done.
  rewrite omap_app. cbn [omap list_omap]. rewrite Hn. by rewrite app_nil_r.
Qed.

Lemma addOutPort_ports cfg vcs i r dirn o credit outs :
  vcs_ok cfg vcs -> rt_num_vcs r = vcs ->
  exists r' credit', Router_addOutPort cfg r dirn (o_entry o) (o_weight o) credit = Ok (r', credit') /\
    rt_num_vcs r' = vcs /\
    forall wires w, has_ports i outs wires r -> out_wire i w = Some (get_num_outports r, o_target o) ->
      has_ports i (outs ++ [o]) (wires ++ [w]) r'.
Proof.
  intros Hv Hr. unfold Router_addOutPort. rewrite Hr.
  destruct (OutputUnit_ctor_ok cfg vcs (get_num_outports r) dirn (rt_vc_per_vnet r) Hv) as [u ->]. rsimpl.
  do 2 eexists. split; [done |]. split; [done |].
  intros wires w [Hu Ht Hw Hwi] Ho. split; cbn.
  - rewrite !length_app, Hu. done.
  - by rewrite fmap_app, <- Ht.
  - by rewrite fmap_app, <- Hw.
  - rewrite omap_app, imap_app, Hwi. cbn [omap list_omap imap]. rewrite Ho. cbn.
    unfold get_num_outports. by rewrite Hu, Nat.add_0_r.
Qed.

Section Assembly.
Context (cfg : NetConfig) (vcs nodes nr : Z).
Context (Hv : vcs_ok cfg vcs) (Hnodes : Network.m_nodes (cfg_net cfg) = nodes).

Lemma vset_in {A} (l : list A) i x :
  0 <= i < Z.of_nat (length l) -> exists l', vset l i x = Ok l' /\ length l' = length l /\
    vget l' i = Ok x /\ forall j, j <> i -> vget l' j = vget l j.
Proof.
  intros Hi. assert (vset l i x = Ok (<[Z.to_nat i := x]> l)) as Hs by (apply vset_Ok; split; [lia | done]).
  exists (<[Z.to_nat i := x]> l). split_and!; [done | by rewrite length_insert | by eapply vset_get_eq |].
  intros j Hj. by eapply vset_get_ne.
Qed.

(** Router [i] after an input port was added and the wire [w] laid. *)
Lemma addInPort_ports i r dirn link outs wires w :
  has_ports i outs wires r -> out_wire i w = None ->
  has_ports i outs (wires ++ [w]) (Router_addInPort r dirn link).1.
Proof. intros H Hw. by eapply has_ports_other. Qed.

Lemma outs_snoc_none i cs c : out_of i c = None -> omap (out_of i) (cs ++ [c]) = omap (out_of i) cs.
Proof. intros Hc. rewrite omap_app. cbn [omap list_omap]. rewrite Hc. by rewrite app_nil_r. Qed.

Lemma outs_snoc_some i cs c o : out_of i c = Some o -> omap (out_of i) (cs ++ [c]) = omap (out_of i) cs ++ [o].
Proof. intros Hc. rewrite omap_app. cbn [omap list_omap]. by rewrite Hc. Qed.

Lemma makeExtInLink_ok cs g src dest link entry :
  assembled vcs nodes nr cfg cs g -> 0 <= src < nodes -> 0 <= dest < nr ->
  exists g', makeExtInLink g src dest link = Ok g' /\
    assembled vcs nodes nr cfg (cs ++ [MakeExtInLink src dest link entry]) g'.
Proof.
  intros [Hcfg Hnis Hrt Hports] Hs Hd. unfold makeExtInLink. rewrite Hcfg, Hnodes.
  rewrite (proj2 (Z.ltb_lt src nodes)) by lia. rsimpl.
  destruct (vget_is_ok (m_routers g) dest) as [r Hr]; [lia |]. rewrite Hr. rsimpl.
  destruct (Router_addInPort r "Local" _) as [r' nl] eqn:Ein. rsimpl.
  destruct (vset_in (m_routers g) dest r') as (routers & -> & Hlen & Heq & Hne); [lia |]. rsimpl.
  destruct (vget_is_ok (m_nis g) src) as [ni ->]; [lia |]. rsimpl.
  destruct (NI_addOutPort ni _ dest) as [ni' cl]. rsimpl.
  destruct (vset_in (m_nis g) src ni') as (nis & -> & Hlen' & _); [lia |]. rsimpl.
  eexists. split; [done |]. split; cbn; [done | lia | lia |].
  intros i x Hx. rewrite outs_snoc_none by done. destruct (decide (i = dest)) as [->|Hi].
  - rewrite Heq in Hx. injection Hx as <-. destruct (Hports dest r Hr) as [Hvc Hp].
    replace r' with (Router_addInPort r "Local" (setType (garnet_link cfg link) EXT_IN_)).1 by (by rewrite Ein).
    split; [done |]. by apply addInPort_ports.
  - rewrite Hne in Hx by done. destruct (Hports i x Hx) as [Hvc Hp]. split; [done |]. by eapply has_ports_other.
Qed.

Lemma makeExtOutLink_ok cs g src dest link entry :
  assembled vcs nodes nr cfg cs g -> 0 <= src < nr -> 0 <= dest < nodes ->
  exists g', makeExtOutLink g src dest link entry = Ok g' /\
    assembled vcs nodes nr cfg (cs ++ [MakeExtOutLink src dest link entry]) g'.
Proof.
  intros [Hcfg Hnis Hrt Hports] Hs Hd. unfold makeExtOutLink, getNumRouters. rewrite Hcfg, Hnodes, Hrt.
  rewrite (proj2 (Z.ltb_lt dest nodes)), (proj2 (Z.ltb_lt src nr)) by lia. rsimpl.
  destruct (vget_is_ok (m_routers g) src) as [r Hr]; [lia |]. rewrite Hr. rsimpl.
  destruct (Hports src r Hr) as [Hvc Hp].
  destruct (addOutPort_ports cfg vcs src r "Local" {| o_target := ToNI dest; o_entry := entry; o_weight := m_weight link |}
    (garnet_link cfg link) (omap (out_of src) cs) Hv Hvc) as (r' & cl & Hadd & Hvc' & Hp').
  cbn [o_entry o_weight] in Hadd. rewrite Hadd. rsimpl.
  destruct (vset_in (m_routers g) src r') as (routers & -> & Hlen & Heq & Hne); [lia |]. rsimpl.
  destruct (vget_is_ok (m_nis g) dest) as [ni ->]; [lia |]. rsimpl.
  eexists. split; [done |]. split; cbn; [done | lia | lia |].
  intros i x Hx. destruct (decide (i = src)) as [->|Hi].
  - rewrite Heq in Hx. injection Hx as <-. split; [done |].
    erewrite outs_snoc_some by (cbn; by rewrite decide_True). apply Hp'; [done |].
    rewrite out_wire_router. by rewrite decide_True.
  - rewrite Hne in Hx by done. destruct (Hports i x Hx) as [Hvci Hpi]. split; [done |].
    rewrite outs_snoc_none by (cbn; by rewrite decide_False). eapply has_ports_other; try done.
    rewrite out_wire_router. by rewrite decide_False.
Qed.

Lemma makeInternalLink_ok cs g src dest link entry sd dd :
  assembled vcs nodes nr cfg cs g -> 0 <= src < nr -> 0 <= dest < nr -> src <> dest ->
  exists g', makeInternalLink g src dest link entry sd dd = Ok g' /\
    assembled vcs nodes nr cfg (cs ++ [MakeInternalLink src dest link entry sd dd]) g'.
Proof.
  intros [Hcfg Hnis Hrt Hports] Hs Hd Hsd. unfold makeInternalLink. rewrite Hcfg.
  destruct (vget_is_ok (m_routers g) dest) as [rd Hrd]; [lia |]. rewrite Hrd. rsimpl.
  destruct (Router_addInPort rd dd _) as [rd' nl] eqn:Ein. rsimpl.
  destruct (vset_in (m_routers g) dest rd') as (rts & -> & Hlen & Heq & Hne); [lia |]. rsimpl.
  rewrite Hne by done. destruct (vget_is_ok (m_routers g) src) as [r Hr]; [lia |]. rewrite Hr. rsimpl.
  destruct (Hports src r Hr) as [Hvc Hp].
  destruct (addOutPort_ports cfg vcs src r sd {| o_target := ToRouter dest; o_entry := entry; o_weight := m_weight link |}
    (garnet_link cfg link) (omap (out_of src) cs) Hv Hvc) as (r' & cl & Hadd & Hvc' & Hp').
  cbn [o_entry o_weight] in Hadd. rewrite Hadd. rsimpl.
  destruct (vset_in rts src r') as (rts' & -> & Hlen' & Heq' & Hne'); [lia |]. rsimpl.
  eexists. split; [done |]. split; cbn; [done | lia | lia |].
  intros i x Hx. destruct (decide (i = src)) as [->|Hi].
  - rewrite Heq' in Hx. injection Hx as <-. split; [done |].
    erewrite outs_snoc_some by (cbn; by rewrite decide_True). apply Hp'; [done |].
    rewrite out_wire_router. by rewrite decide_True.
  - rewrite Hne' in Hx by done. rewrite outs_snoc_none by (cbn; by rewrite decide_False).
    set (w := {| w_src := AtRouter src _ |}). assert (out_wire i w = None) as Hw.
    { unfold w. rewrite out_wire_router. by rewrite decide_False. }
    destruct (decide (i = dest)) as [->|Hid].
    + rewrite Heq in Hx. injection Hx as <-. destruct (Hports dest rd Hrd) as [Hvcd Hpd].
      replace rd' with (Router_addInPort rd dd (setType (garnet_link cfg link) INT_)).1 by (by rewrite Ein).
      split; [done |]. by apply addInPort_ports.
    + rewrite Hne in Hx by done. destruct (Hports i x Hx) as [Hvci Hpi]. split; [done |]. by eapply has_ports_other.
Qed.

Lemma net_apply_ok cs g c :
  assembled vcs nodes nr cfg cs g -> call_range nodes nr c ->
  exists g', net_apply g c = Ok g' /\ assembled vcs nodes nr cfg (cs ++ [c]) g'.
Proof.
  intros Hg Hc. destruct c as [s d l en | s d l en | s d l en sd dd]; cbn [net_apply call_range] in *.
  - destruct Hc. by apply makeExtInLink_ok.
  - destruct Hc. by apply makeExtOutLink_ok.
  - destruct Hc as (? & ? & ?). by apply makeInternalLink_ok.
Qed.

Lemma net_apply_all calls : forall cs g,
  assembled vcs nodes nr cfg cs g -> Forall (call_range nodes nr) calls ->
  exists g', foldM net_apply calls g = Ok g' /\ assembled vcs nodes nr cfg (cs ++ calls) g'.
Proof.
  induction calls as [|c calls IH]; intros cs g Hg Hc; cbn [foldM].
  - exists g. by rewrite app_nil_r.
  - apply Forall_cons in Hc as [Hc Hcs]. destruct (net_apply_ok cs g c Hg Hc) as (g1 & -> & Hg1). rsimpl.
    destruct (IH _ g1 Hg1 Hcs) as (g2 & -> & Hg2). exists g2. split; [done |]. by rewrite <- app_assoc in Hg2.
Qed.
End Assembly.

(** ** [init] runs to its end *)

(** A network as the constructors leave it, for [nr] routers. *)
Record ready (nr : Z) (buf : Z -> MessageBuffer) (g : GarnetNetwork) : Prop := {
  rd_nodes : 0 <= Network.m_nodes (cfg_net (gn_cfg g));
  rd_nis : Z.of_nat (length (m_nis g)) = Network.m_nodes (cfg_net (gn_cfg g));
  rd_to : Z.of_nat (length (m_toNetQueues (cfg_net (gn_cfg g)))) = Network.m_nodes (cfg_net (gn_cfg g));
  rd_from : Z.of_nat (length (m_fromNetQueues (cfg_net (gn_cfg g)))) = Network.m_nodes (cfg_net (gn_cfg g));
  rd_buf : forall q, m_consumer (buf q) = None;
  rd_routers : Z.of_nat (length (m_routers g)) = nr;
  rd_fresh : Forall (fun r => exists id latency, r = Router_ctor id latency
    (m_virtual_networks (cfg_net (gn_cfg g))) (m_vcs_per_vnet (gn_cfg g))) (m_routers g);
  rd_vcs : vcs_ok (gn_cfg g) (m_virtual_networks (cfg_net (gn_cfg g)) * m_vcs_per_vnet (gn_cfg g));
  rd_wires : gn_wires g = [];
  rd_mesh : m_num_rows (gn_cfg g) <= 0 \/ nr mod m_num_rows (gn_cfg g) = 0
}.

Lemma set_consumers_ok buf id l :
  (forall q : Z, m_consumer (buf q) = None) -> exists l', set_consumers id (map (option_map buf) l) = Ok l'.
Proof.
  intros Hb. induction l as [|[q|] l [l' IH]]; cbn [map option_map set_consumers].
  - by eexists.
  - unfold setConsumer. rewrite Hb. rewrite bool_decide_eq_false_2 by (intros H; by apply H). rsimpl.
    rewrite IH. rsimpl. by eexists.
  - rewrite IH. rsimpl. by eexists.
Qed.

(** Only the interfaces change while the nodes are added. *)
Definition same_but_nis (g g' : GarnetNetwork) : Prop :=
  gn_cfg g' = gn_cfg g /\ m_routers g' = m_routers g /\ gn_wires g' = gn_wires g /\
  length (m_nis g') = length (m_nis g).

Lemma add_nodes_ok buf g :
  let nodes := Network.m_nodes (cfg_net (gn_cfg g)) in
  0 <= nodes -> Z.of_nat (length (m_nis g)) = nodes ->
  Z.of_nat (length (m_toNetQueues (cfg_net (gn_cfg g)))) = nodes ->
  Z.of_nat (length (m_fromNetQueues (cfg_net (gn_cfg g)))) = nodes ->
  (forall q, m_consumer (buf q) = None) ->
  exists g', foldM (add_node buf) (upto nodes) g = Ok g' /\ same_but_nis g g'.
Proof.
  intros nodes Hp Hn Ht Hf Hb.
  destruct (foldM_upto (add_node buf) (fun _ => same_but_nis g) nodes g) as (g' & Hg & HP); [done | done | | by exists g'].
  intros i x Hi (Hc & Hr & Hw & Hl). unfold add_node. rewrite Hc.
  destruct (vget_is_ok (m_nis x) i) as [ni ->]; [lia |]. rsimpl.
  destruct (vget_is_ok (m_toNetQueues (cfg_net (gn_cfg g))) i) as [inq ->]; [lia |]. rsimpl.
  destruct (vget_is_ok (m_fromNetQueues (cfg_net (gn_cfg g))) i) as [outq ->]; [lia |]. rsimpl.
  unfold addNode. destruct (set_consumers_ok buf (ni_id ni) inq Hb) as [l ->]. rsimpl.
  set (ni' := _ ⟨ outNode_ptr := _ ⟩).
  destruct (vset_in (m_nis x) i ni') as (nis & -> & Hln & _); [lia |]. rsimpl.
  eexists. split; [done |]. split_and!; cbn; [done | done | done | lia].
Qed.

Lemma set_mesh_ok nr g :
  Z.of_nat (length (m_routers g)) = nr -> (m_num_rows (gn_cfg g) <= 0 \/ nr mod m_num_rows (gn_cfg g) = 0) ->
  exists g', set_mesh g = Ok g' /\ m_routers g' = m_routers g /\ gn_wires g' = gn_wires g /\
    m_routing_algorithm (gn_cfg g') = m_routing_algorithm (gn_cfg g) /\ cfg_net (gn_cfg g') = cfg_net (gn_cfg g).
Proof.
  intros Hr Hm. unfold set_mesh, getNumRouters. rewrite Hr. destruct (0 <? m_num_rows (gn_cfg g)) eqn:E; b2p.
  - destruct Hm as [|Hm]; [lia |].
    assert ((m_num_rows (gn_cfg g) * (nr / m_num_rows (gn_cfg g)) =? nr) = true) as ->.
    { apply Z.eqb_eq. pose proof (Z.div_mod nr (m_num_rows (gn_cfg g))). lia. }
    rsimpl. by eexists.
  - by eexists.
Qed.

Lemma assembled_fresh vcs nodes nr cfg g :
  gn_cfg g = cfg -> Z.of_nat (length (m_nis g)) = nodes -> Z.of_nat (length (m_routers g)) = nr -> gn_wires g = [] ->
  Forall (fun r => exists id latency vn per, r = Router_ctor id latency vn per /\ vn * per = vcs) (m_routers g) ->
  assembled vcs nodes nr cfg [] g.
Proof.
  intros Hc Hn Hr Hw Hf. split; [done | done | done |]. intros i r [_ Hi]%vget_Ok.
  rewrite Forall_lookup in Hf. destruct (Hf _ _ Hi) as (id & lat & vn & per & -> & Hvn).
  split; [done |]. split; [done | done | done | by rewrite Hw].
Qed.

Lemma good_call_range counts t W dist c :
  topo_ok counts t -> good_call counts t W dist c -> call_range (Topology.m_nodes t) (m_number_of_switches t) c.
Proof.
  intros Hok (s & d & e & entry & He & -> & _). destruct (tk_links _ _ Hok s d e He) as (Hsh & Hs & Hd & _).
  pose proof (tk_pos _ _ Hok). unfold call_of, link_shape in *.
  repeat case_match; b2p; cbn [call_range]; lia.
Qed.

(** The assembled network: one output port per link, with the link's entry. *)
Lemma init_ok counts block buf t g :
  topo_ok counts t -> ready (m_number_of_switches t) buf g -> Network.m_nodes (cfg_net (gn_cfg g)) = Topology.m_nodes t ->
  let n := num_switches t in
  exists g' W dist calls, GarnetNetwork_init counts block buf t g = Ok (Some g') /\
    weights_ok n W /\ is_shortest n W dist /\
    (forall i j, 0 <= i < n -> 0 <= j < n -> mval W i j = link_weight t i j) /\
    Forall (good_call counts t W dist) calls /\
    (forall s d, (s, d) ∈ call_key (Topology.m_nodes t) <$> calls <-> is_Some (m_link_map t !! (s, d))) /\
    m_routing_algorithm (gn_cfg g') = m_routing_algorithm (gn_cfg g) /\
    m_ordered (cfg_net (gn_cfg g')) = m_ordered (cfg_net (gn_cfg g)) /\
    (forall i, 0 <= i < m_number_of_switches t -> exists r, vget (m_routers g') i = Ok r /\
       has_ports i (omap (out_of i) calls) (gn_wires g') r).
Proof.
  intros Hok [Hn0 Hnis Hto Hfrom Hbuf Hrt Hfresh Hvcs Hw Hmesh] Hnodes n. unfold GarnetNetwork_init.
  set (g1 := g ⟨ gn_cfg := _ ⟩).
  destruct (add_nodes_ok buf g1) as (g2 & Hadd & Hc2 & Hr2 & Hw2 & Hl2); [done.. |]. rewrite Hadd. rsimpl.
  destruct (createLinks_ok counts t Hok) as (W & dist & calls & -> & HW & HD & Hval & Hg & _ & Hdom). rsimpl.
  destruct (net_apply_all (gn_cfg g1) (m_virtual_networks (cfg_net (gn_cfg g)) * m_vcs_per_vnet (gn_cfg g)) (Topology.m_nodes t)
    (m_number_of_switches t) ltac:(by destruct Hvcs) Hnodes calls [] g2) as (g3 & -> & [Hc3 _ Hr3 Hp3]).
  { apply assembled_fresh; [done | rewrite Hl2; etransitivity; done | by rewrite Hr2 | by rewrite Hw2 |].
    rewrite Hr2. eapply Forall_impl; [exact Hfresh |]. intros r (id & lat & ->). by do 4 eexists. }
  { eapply Forall_impl; [exact Hg |]. intros c Hc. by apply (good_call_range counts t W dist). }
  rsimpl. destruct (set_mesh_ok (m_number_of_switches t) g3) as (g4 & -> & Hr4 & Hw4 & Ha4 & Hn4); [done | by rewrite Hc3 |].
  exists g4, W, dist, calls. split_and!; try done.
  - by rewrite Ha4, Hc3.
  - by rewrite Hn4, Hc3.
  - intros i Hi. destruct (vget_is_ok (m_routers g3) i) as [r Hr]; [lia |]. exists r. rewrite Hr4, Hw4.
    split; [done |]. by apply Hp3.
Qed.

(** ** Following the tables *)

(** What is behind output port [port] of router [i]. *)
Definition next_hop (g : GarnetNetwork) (i port : Z) : option target :=
  (list_to_map (omap (out_wire i) (gn_wires g)) : gmap Z target) !! port.

(** The interface a packet with route [route] is delivered to, starting in
    router [i]: the router computes the output port, the wire leads on.
    [orc] gives, hop by hop, what [rand()] returns and the direction of the
    input port.  [None] if the packet is still under way after [fuel] hops,
    or the port leads nowhere. *)
Fixpoint table_walk (g : GarnetNetwork) (orc : nat -> Z * PortDirection) (fuel : nat) (i : Z) (route : RouteInfo)
    : res (option Z) :=
  r ← vget (m_routers g) i;
  x ← outportCompute (gn_cfg g) (orc fuel).1 (rt_id r) (routingUnit r) route (orc fuel).2;
  match next_hop g i x.2 with
  | None => Ok None
  | Some (ToNI id) => Ok (Some id)
  | Some (ToRouter j) =>
      match fuel with
      | O => Ok None
      | S fuel => table_walk g orc fuel j route
      end
  end.

Lemma next_hop_port i outs r g p o :
  has_ports i outs (gn_wires g) r -> outs !! p = Some o -> next_hop g i (Z.of_nat p) = Some (o_target o).
Proof.
  intros [_ _ _ Hw] Ho. unfold next_hop. rewrite Hw. apply elem_of_list_to_map_1'.
  - intros y (q & o' & [= Hq ->] & Ho')%elem_of_lookup_imap. assert (q = p) as -> by lia. congruence.
  - apply elem_of_lookup_imap. by exists p, o.
Qed.

(** With table routing the direction a packet came from does not matter. *)
Lemma outportCompute_table cfg rand my_id ru route dirn link :
  m_routing_algorithm cfg = 0 -> lookupRoutingTable cfg rand ru (ri_vnet route) (net_dest route) = Ok link ->
  0 <= link -> outportCompute cfg rand my_id ru route dirn = Ok (ru, link).
Proof.
  intros Ha Hl Hp. unfold outportCompute. rewrite Ha, Hl. rsimpl. destruct (_ =? my_id); [done |].
  cbn [Z.eqb snd mbind res_bind]. rewrite (proj2 (Z.eqb_neq link (-1))) by lia. done.
Qed.

(** The targets of a router's calls, in the topology's numbering. *)
Definition target_key (m : Z) (x : target) : Z :=
  match x with ToRouter j => j + 2 * m | ToNI j => j + m end.

Lemma out_of_call counts t W dist i c o :
  topo_ok counts t -> 0 <= i -> good_call counts t W dist c -> out_of i c = Some o ->
  exists e, let s := i + 2 * Topology.m_nodes t in let d := target_key (Topology.m_nodes t) (o_target o) in
    m_link_map t !! (s, d) = Some e /\ o_weight o = m_weight (le_link e) /\ nd_ok counts (o_entry o) /\
    (match o_target o with ToRouter j => 0 <= j < m_number_of_switches t | ToNI j => 0 <= j < Topology.m_nodes t end) /\
    forall x, nd_mem (o_entry o) x <-> mid_ok counts x /\ on_path counts W dist s d x.
Proof.
  intros Hok Hi (s & d & e & entry & He & -> & Hent & Hmem) Ho. exists e.
  destruct (tk_links _ _ Hok s d e He) as (Hsh & Hsn & Hdn & _). pose proof (tk_pos _ _ Hok).
  unfold call_of in Ho. unfold link_shape in Hsh.
  destruct (s <? _) eqn:E1; [done |]. destruct (d <? _) eqn:E2; b2p; cbn [out_of] in Ho;
    (case_decide as Hsi; [| done]); injection Ho as <-; cbn [o_target o_weight o_entry target_key].
  - replace (i + 2 * Topology.m_nodes t) with s by lia.
    replace (d - Topology.m_nodes t + Topology.m_nodes t) with d by lia. split_and!; done || lia.
  - replace (i + 2 * Topology.m_nodes t) with s by lia.
    replace (d - 2 * Topology.m_nodes t + 2 * Topology.m_nodes t) with d by lia. split_and!; done || lia.
Qed.

Lemma call_out_of t i d e entry :
  0 <= i -> 0 < Topology.m_nodes t ->
  exists o, out_of i (call_of t (i + 2 * Topology.m_nodes t) d e entry) = Some o /\ o_entry o = entry /\
    o_weight o = m_weight (le_link e).
Proof.
  intros Hi Hm. unfold call_of. rewrite (proj2 (Z.ltb_ge _ _)) by lia.
  destruct (_ <? _); cbn [out_of]; (rewrite decide_True by lia); by eexists.
Qed.

(** No link leaves the out side of a node. *)
Lemma node_is_sink counts t i f c :
  topo_ok counts t -> Topology.m_nodes t <= i < 2 * Topology.m_nodes t -> link_path t i f c -> i = f.
Proof.
  intros Hok Hi Hp. destruct Hp as [i | i k j e c He Hp]; [done |].
  destruct (tk_links _ _ Hok i k e He) as (Hsh & _). unfold link_shape in Hsh. lia.
Qed.

(** ** Outputs on least paths

    What the routing tables promise, for any network built by the calls: an
    output that lists the destination exists wherever there is a path, and every
    output that lists it leads closer. *)
Section Paths.
Context (counts : list Z) (t : Topology) (W dist : Matrix) (calls : list net_call).
Let n := num_switches t.
Let m := Topology.m_nodes t.
Context (Hok : topo_ok counts t) (HW : weights_ok n W) (HD : is_shortest n W dist).
Context (Hval : forall i j, 0 <= i < n -> 0 <= j < n -> mval W i j = link_weight t i j).
Context (Hg : Forall (good_call counts t W dist) calls).
Context (Hdom : forall s d, (s, d) ∈ call_key m <$> calls <-> is_Some (m_link_map t !! (s, d))).
Context (x : machineID) (Hx : mid_ok counts x).
Let f := node_of counts x + m.

Lemma outs_good i : 0 <= i -> forall o, o ∈ omap (out_of i) calls -> exists c, good_call counts t W dist c /\ out_of i c = Some o.
Proof using Hg.
  intros Hi o (c & Hc & Ho)%list_elem_of_omap. exists c. rewrite Forall_forall in Hg. split; [by apply Hg | done].
Qed.

Lemma outs_nd_ok i : 0 <= i -> Forall (nd_ok counts) (o_entry <$> omap (out_of i) calls).
Proof using Hok Hg.
  intros Hi. apply Forall_fmap, Forall_forall. intros o Ho. destruct (outs_good i Hi o Ho) as (c & Hc & Hco).
  by destruct (out_of_call counts t W dist i c o Hok Hi Hc Hco) as (e & _ & _ & ? & _).
Qed.

Lemma out_exists i :
  0 <= i -> i + 2 * m < n -> mval dist (i + 2 * m) f < INFINITE_LATENCY ->
  exists p o, omap (out_of i) calls !! p = Some o /\ nd_mem (o_entry o) x /\ o_weight o <= INFINITE_.
Proof using All.
  intros Hi Hin Hlt. pose proof (tk_pos _ _ Hok) as Hpos. fold m in Hpos.
  pose proof (final_range counts t Hok x Hx) as Hf. fold n m in Hf. fold f in Hf.
  destruct (shortest_first_edge n W dist (i + 2 * m) f HW HD) as (k & Hk & Hne & Hedge); [lia | done | |].
  { pose proof (node_range counts m (tk_counts _ _ Hok) (tk_nodes _ _ Hok) x Hx). unfold f. lia. }
  pose proof (dist_bound counts t W dist Hok HW HD Hval k f Hk Hf) as Hkb.
  rewrite Hval in Hedge by lia. unfold link_weight in Hedge.
  destruct (m_link_map t !! (i + 2 * m, k)) as [e|] eqn:Ee;
    [| rewrite decide_False in Hedge by done; unfold INFINITE_LATENCY in *; lia].
  destruct (tk_links _ _ Hok _ _ e Ee) as (_ & _ & _ & Hwe).
  assert ((i + 2 * m, k) ∈ call_key m <$> calls) as (c & Hck & Hc)%list_elem_of_fmap by (apply Hdom; by eexists).
  rewrite Forall_forall in Hg. destruct (Hg c Hc) as (s & d & e' & entry & He' & -> & _ & Hmem).
  unfold m in Hck. rewrite call_key_of in Hck. injection Hck as <- <-. fold m in He', Hmem, Hc.
  rewrite Ee in He'. injection He' as <-. destruct (call_out_of t i k e entry) as (o & Ho & <- & Hwo); [lia | done |].
  assert (o ∈ omap (out_of i) calls) as [p Hpo]%list_elem_of_lookup_1 by (apply list_elem_of_omap; by eexists).
  exists p, o. split_and!; [done | | rewrite Hwo; unfold INFINITE_, INFINITE_LATENCY in *; lia].
  apply Hmem. split; [done |]. unfold on_path. rewrite <- (tk_nodes _ _ Hok). fold m f.
  rewrite Hval by lia. unfold link_weight. rewrite Ee. lia.
Qed.

Lemma out_closer i o :
  0 <= i -> i + 2 * m < n -> mval dist (i + 2 * m) f < INFINITE_LATENCY ->
  o ∈ omap (out_of i) calls -> nd_mem (o_entry o) x ->
  0 < mval dist (i + 2 * m) f /\
  match o_target o with
  | ToRouter j => 0 <= j < m_number_of_switches t /\ j + 2 * m < n /\ mval dist (j + 2 * m) f < mval dist (i + 2 * m) f
  | ToNI j => j = node_of counts x
  end.
Proof using All.
  intros Hi Hin Hlt Ho Hmem. pose proof (tk_pos _ _ Hok) as Hpos. fold m in Hpos.
  pose proof (final_range counts t Hok x Hx) as Hf. fold n m in Hf. fold f in Hf.
  destruct (outs_good i Hi o Ho) as (c & Hc & Hco).
  destruct (out_of_call counts t W dist i c o Hok Hi Hc Hco) as (e & He & _ & _ & Htg & Hiff).
  fold m in He, Htg, Hiff. apply Hiff in Hmem as [_ Hon].
  unfold on_path in Hon. rewrite <- (tk_nodes _ _ Hok) in Hon. fold m f in Hon.
  destruct (topo_range counts t _ _ e Hok He) as (Hs & Hd & _). fold n in Hs, Hd.
  pose proof (tk_links _ _ Hok _ _ e He) as (_ & _ & _ & Hwe).
  rewrite Hval, (link_weight_some t _ _ e He) in Hon by done.
  pose proof (dist_bound counts t W dist Hok HW HD Hval _ f Hd Hf) as Hdb.
  destruct (o_target o) as [j|j]; cbn [target_key] in *; (split; [lia |]); [split_and!; lia |].
  enough (j + m = f) by (unfold f in *; lia). eapply (node_is_sink counts t); [done | unfold m in *; lia |].
  apply (dist_path counts t W dist Hok HW HD Hval); [done | done | lia].
Qed.
End Paths.

Section Walk.
Context (counts : list Z) (t : Topology) (W dist : Matrix) (calls : list net_call) (g : GarnetNetwork).
Let n := num_switches t.
Let m := Topology.m_nodes t.
Context (Hok : topo_ok counts t) (HW : weights_ok n W) (HD : is_shortest n W dist).
Context (Hval : forall i j, 0 <= i < n -> 0 <= j < n -> mval W i j = link_weight t i j).
Context (Hg : Forall (good_call counts t W dist) calls).
Context (Hdom : forall s d, (s, d) ∈ call_key m <$> calls <-> is_Some (m_link_map t !! (s, d))).
Context (Hports : forall i, 0 <= i < m_number_of_switches t -> exists r, vget (m_routers g) i = Ok r /\
  has_ports i (omap (out_of i) calls) (gn_wires g) r).
Context (Halg : m_routing_algorithm (gn_cfg g) = 0).
Context (x : machineID) (route : RouteInfo) (ord : bool).
Context (Hx : mid_ok counts x) (Hroute : nd_ok counts (net_dest route)).
Context (Hdest : forall y, nd_mem (net_dest route) y <-> y = x).
Context (Hvnet : isVNetOrdered (gn_cfg g) (ri_vnet route) = Ok ord).
Let f := node_of counts x + m.

(** The router's lookup picks a port on a least path. *)
Lemma lookup_on_path i r rand :
  0 <= i < m_number_of_switches t -> vget (m_routers g) i = Ok r -> i + 2 * m < n ->
  mval dist (i + 2 * m) f < INFINITE_LATENCY ->
  exists p o, lookupRoutingTable (gn_cfg g) rand (routingUnit r) (ri_vnet route) (net_dest route) = Ok (Z.of_nat p) /\
    omap (out_of i) calls !! p = Some o /\ nd_mem (o_entry o) x.
Proof using All.
  intros Hi Hr Hin Hlt. destruct (Hports i Hi) as (r' & Hr' & Hp). rewrite Hr in Hr'. injection Hr' as <-.
  pose proof (tk_pos _ _ Hok) as Hpos. fold m in Hpos.
  pose proof (final_range counts t Hok x Hx) as Hf. fold n m in Hf. fold f in Hf.
  assert (Forall (nd_ok counts) (m_routing_table (routingUnit r))) as Htab.
  { rewrite (hp_table _ _ _ _ Hp). apply (outs_nd_ok counts t W dist calls Hok Hg). lia. }
  assert (length (m_weight_table (routingUnit r)) = length (m_routing_table (routingUnit r))) as Hlen.
  { by rewrite (hp_table _ _ _ _ Hp), (hp_weights _ _ _ _ Hp), !length_fmap. }
  destruct (out_exists counts t W dist calls Hok HW HD Hval Hg Hdom x Hx i) as (p0 & o0 & Ho0 & Hm0 & Hw0); [lia | done | done |].
  destruct (lookup_leads (gn_cfg g) counts (routingUnit r) rand (ri_vnet route) (net_dest route) ord Hroute Htab Hlen Hvnet
    (Z.of_nat p0) (o_weight o0)) as (link & w & Hlk & (en & Hen & y & Hy & Hye) & _).
  - exists (o_entry o0). split; [| exists x; split; [by apply Hdest | done]].
    apply vget_nat. by rewrite (hp_table _ _ _ _ Hp), list_lookup_fmap, Ho0.
  - apply vget_nat. by rewrite (hp_weights _ _ _ _ Hp), list_lookup_fmap, Ho0.
  - done.
  - apply vget_Ok in Hen as [Hl0 Hen]. rewrite (hp_table _ _ _ _ Hp), list_lookup_fmap in Hen.
    destruct (omap (out_of i) calls !! Z.to_nat link) as [o|] eqn:Eo; [| done]. injection Hen as <-.
    exists (Z.to_nat link), o. rewrite Z2Nat.id by done. apply Hdest in Hy as ->. done.
Qed.

Lemma walk_arrives orc fuel : forall i,
  0 <= i < m_number_of_switches t -> i + 2 * m < n -> mval dist (i + 2 * m) f < INFINITE_LATENCY ->
  mval dist (i + 2 * m) f <= Z.of_nat fuel ->
  table_walk g orc fuel i route = Ok (Some (node_of counts x)).
Proof using All.
  induction fuel as [|fuel IH]; intros i Hi Hin Hlt Hfuel; cbn [table_walk];
    destruct (Hports i Hi) as (r & Hr & Hp); rewrite Hr; rsimpl;
    [set (k := O) | set (k := S fuel)];
    destruct (lookup_on_path i r (orc k).1 Hi Hr Hin Hlt) as (p & o & Hlk & Ho & Hmem);
    rewrite (outportCompute_table _ _ _ _ _ _ _ Halg Hlk) by lia; rsimpl;
    rewrite (next_hop_port i _ r g p o Hp Ho);
    destruct (out_closer counts t W dist calls Hok HW HD Hval Hg Hdom x Hx i o ltac:(lia) Hin Hlt
      (list_elem_of_lookup_2 _ _ _ Ho) Hmem) as [Hpos Htg]; fold m f in Hpos, Htg;
    destruct (o_target o) as [j|j].
  - lia.
  - lia.
  - destruct Htg as (? & ? & ?). apply IH; lia.
  - by rewrite Htg.
Qed.
End Walk.

(** C2.  Packets arrive: for every configuration the network initialises,
    and with table routing a packet for machine [x], started in any router
    from which there is a path of links to [x] of weight [c] below the code's
    infinity, is handed from router to router over the ports the routers
    compute and delivered to [x]'s network interface within [c] hops,
    whatever [rand()] returns along the way. *)
Theorem table_routing_arrives (counts : list Z) (num_routers : Z)
    (ext_links : list BasicExtLink) (int_links : list BasicIntLink)
    (block_size : Z) (buf : Z -> MessageBuffer) (g0 : GarnetNetwork) (x : machineID) (route : RouteInfo) (ord : bool) :
  config_ok counts num_routers ext_links int_links ->
  ready num_routers buf g0 ->
  Network.m_nodes (cfg_net (gn_cfg g0)) = base_of counts (MachineType_NUM counts) ->
  m_routing_algorithm (gn_cfg g0) = 0 ->
  isVNetOrdered (gn_cfg g0) (ri_vnet route) = Ok ord ->
  mid_ok counts x -> nd_ok counts (net_dest route) ->
  (forall y, nd_mem (net_dest route) y <-> y = x) ->
  exists t g, Topology_ctor counts num_routers ext_links int_links = Ok t /\
    GarnetNetwork_init counts block_size buf t g0 = Ok (Some g) /\
    forall i c orc, 0 <= i < num_routers ->
      link_path t (i + 2 * Topology.m_nodes t) (node_of counts x + Topology.m_nodes t) c -> c < INFINITE_LATENCY ->
      table_walk g orc (Z.to_nat c) i route = Ok (Some (node_of counts x)).
Proof.
  intros Hcfg Hready Hnodes Halg Hv Hx Hr Hdest.
  destruct (Topology_ctor_ok counts num_routers ext_links int_links Hcfg) as (t & Ht & Hok & Hnr & _).
  rewrite <- Hnr in *. destruct (init_ok counts block_size buf t g0 Hok Hready) as
    (g & W & dist & calls & Hinit & HW & HD & Hval & Hg & Hdom & Ha & Hord & Hports).
  { by rewrite Hnodes, (tk_nodes _ _ Hok). }
  exists t, g. split_and!; [done | done |]. intros i c orc Hi Hp Hc.
  pose proof (final_range counts t Hok x Hx) as Hf.
  assert (i + 2 * Topology.m_nodes t < num_switches t) as Hin.
  { pose proof (topo_switches counts t Hok).
    pose proof (node_range counts _ (tk_counts _ _ Hok) (tk_nodes _ _ Hok) x Hx).
    inversion Hp as [a E1 E2 | a k j e c' He Hp' E1 E2]; [lia |].
    by destruct (topo_range counts t _ k e Hok He) as ([_ ?] & _). }
  pose proof (tk_pos _ _ Hok).
  pose proof (dist_le_path counts t W dist Hok HD Hval (i + 2 * Topology.m_nodes t) _ c ltac:(lia) Hf Hp) as Hle.
  pose proof (dist_bound counts t W dist Hok HW HD Hval (i + 2 * Topology.m_nodes t) _ ltac:(lia) Hf).
  eapply (walk_arrives counts t W dist calls g Hok HW HD Hval Hg Hdom Hports); try done; try lia.
  unfold isVNetOrdered. rewrite Hord. exact Hv.
Qed.

(** The ring of three routers with its two caches and one directory. *)
Definition ring_net : Network :=
  {| Network.m_nodes := 3; m_virtual_networks := 3; m_vnet_type_names := ["request"; "forward"; "response"]%string;
     m_control_msg_size := 8; m_data_msg_size := 0; m_toNetQueues := [[Some 0]; [Some 1]; []];
     m_fromNetQueues := [[]; [None; Some 2]; []]; m_ordered := [false; true; false]; addrMap := [] |}.
Definition ring_g : GarnetNetwork :=
  GarnetNetwork_ctor ring_net
    {| p_num_rows := 0; p_ni_flit_size := 16; p_vcs_per_vnet := 2; p_buffers_per_data_vc := 4;
       p_buffers_per_ctrl_vc := 1; p_routing_algorithm := 0;
       p_routers := [Router_ctor 0 1 3 2; Router_ctor 1 1 3 2; Router_ctor 2 1 3 2];
       p_netifs := [NetworkInterface_ctor 0 3 2 50000; NetworkInterface_ctor 1 3 2 50000;
                    NetworkInterface_ctor 2 3 2 50000] |}.
Definition ring_buf (_ : Z) : MessageBuffer := MessageBuffer_ctor 0 false false.
Definition ring_route : RouteInfo :=
  {| ri_vnet := 1; net_dest := [RSet 2 0; RSet 1 1]; src_ni := 0; src_router := 0; dest_ni := 2; dest_router := 2;
     hops_traversed := -1 |}.

Lemma ring_ready : ready 3 ring_buf ring_g.
Proof.
  split; try done.
  - repeat (apply Forall_cons; split; [by do 2 eexists |]). by apply Forall_nil.
  - by left.
Qed.

Lemma ring_dest : nd_ok ring_counts (net_dest ring_route) /\
  forall y, nd_mem (net_dest ring_route) y <-> y = MachineID 1 0.
Proof.
  split.
  - split; [done |]. intros i s Hs. pose proof (vget_range _ _ _ Hs) as Hi. cbn in Hi.
    assert (i = 0 \/ i = 1) as [-> | ->] by lia; injection Hs as <-; (split; [done |]);
      unfold set_ok, NUMBER_BITS_PER_SET; cbn [m_nSize NetDest.bits]; split; cbn; lia.
  - intros [mt mn]. split; [| intros ->; by eexists].
    intros (s & Hs & Hb). cbn [mtype mnum] in *. pose proof (vget_range _ _ _ Hs) as Hi. cbn in Hi.
    assert (mt = 0 \/ mt = 1) as [-> | ->] by lia; injection Hs as <-; cbn [NetDest.bits] in Hb.
    + by rewrite Z.testbit_0_l in Hb.
    + destruct (decide (mn = 0)) as [->|Hn]; [done |]. destruct (decide (mn < 0)); [by rewrite Z.testbit_neg_r in Hb |].
      rewrite Z.bits_above_log2 in Hb; [done | lia | cbn; lia].
Qed.

#[local] Instance Ok_inj {A} : Inj (=) (=) (@Ok A).
Proof. intros a b H. by injection H. Qed.

Definition ring_topo : Topology :=
  match Topology_ctor ring_counts 3 ring_exts ring_ints with
  | Ok t => t
  | Err _ => {| Topology.m_nodes := 0; m_number_of_switches := 0; m_ext_link_vector := []; m_int_link_vector := [];
                m_link_map := ∅ |}
  end.

Lemma ring_path : link_path ring_topo 6 5 3.
Proof.
  assert (exists a b c, m_link_map ring_topo !! (6, 7) = Some a /\ m_link_map ring_topo !! (7, 8) = Some b /\
    m_link_map ring_topo !! (8, 5) = Some c /\
    m_weight (le_link a) + (m_weight (le_link b) + (m_weight (le_link c) + 0)) = 3) as (a & b & c & Ha & Hb & Hc & <-).
  { do 3 eexists. split_and!; vm_compute; reflexivity. }
  by apply (lp_cons _ 6 7 5 _ _ Ha), (lp_cons _ 7 8 5 _ _ Hb), (lp_cons _ 8 5 5 _ _ Hc), lp_nil.
Qed.

Lemma ring_topo_eq : Topology_ctor ring_counts 3 ring_exts ring_ints = Ok ring_topo.
Proof. vm_compute. reflexivity. Qed.

Lemma table_routing_arrives_witness :
  exists t g, Topology_ctor ring_counts 3 ring_exts ring_ints = Ok t /\
    GarnetNetwork_init ring_counts 64 ring_buf t ring_g = Ok (Some g) /\
    (forall orc, table_walk g orc 3 0 ring_route = Ok (Some 2)).
Proof.
  destruct (table_routing_arrives ring_counts 3 ring_exts ring_ints 64 ring_buf ring_g (MachineID 1 0) ring_route true
    ring_config ring_ready eq_refl eq_refl eq_refl) as (t & g & Ht & Hg & Hwalk); [| apply ring_dest.. |].
  - split; [done |]. by exists 1.
  - exists t, g. split_and!; [done | done |]. intros orc. apply (Hwalk 0 3 orc); [lia | | done].
    rewrite ring_topo_eq in Ht. rewrite <- (inj Ok _ _ Ht). exact ring_path.
Defined.
