(* ===== verification/SimpleNetwork.v ===== *)
(** * The simple network

    Models [mem/ruby/network/simple]: [PerfectSwitch] (routing inside a
    switch), [Throttle] (the bandwidth of a link), [Switch] (a perfect switch
    whose output ports each feed a throttle) and [SimpleNetwork] (the assembly,
    called by the topology, and functional accesses).  It is the network the
    simulator uses instead of Garnet when the interconnect need not be detailed.

    Message buffers are shared by pointer between controllers, switches and
    throttles: they live in a store, a vector of buffers, and a pointer is an
    index of it ([None] is [nullptr]).  Messages are values; a clone is the
    value itself.  What an operation asks of consumers is returned as a list of
    events, each with the buffer it comes from; [Self] is the wake-up a
    component schedules for itself, in cycles.  The random draws of adaptive
    routing and of the buffers come from oracles indexed by a counter.
    [std::sort] may order links of equal load in any way, so it is a parameter
    ([sort]).  Statistics are not modelled. *)
From S2P Require Import Prelude StdHeap NetDest Topology Common MessageBuffer Flit Network.

Abbreviation store := (list MessageBuffer).

Inductive sn_event :=
  | Self (cycles : Z)               (** [scheduleEvent(Cycles(n))] *)
  | FromBuffer (b : Z) (e : mb_event).

(** What the components read while they run: the static configuration, the
    clock edge and the clock period of the switch, and the random draws. *)
Record sn_env := {
  se_counts : list Z;
  se_ruby : RubySystem;
  se_adaptive : bool;
  se_ordered : list bool;
  se_now : Z;                       (** [m_switch->clockEdge()] *)
  se_period : Z;                    (** [clockPeriod()] *)
  se_curTick : Z;
  se_random : nat -> Z;             (** [random_mt.random(0, 0xff)] *)
  se_draws : nat -> Z * Z * Z       (** of [MessageBuffer::random_time] *)
}.

Definition cyclesToTicks (e : sn_env) (c : Z) : Z := u64 (se_period e * c).

(** ** PerfectSwitch *)

Record LinkOrder := { lo_link : Z; lo_value : Z }.

Record PerfectSwitch := {
  m_switch_id : Z;
  ps_in : list (list (option Z));
  ps_out : list (list Z);
  m_routing_table : list netdest;
  m_link_order : list LinkOrder;
  ps_virtual_networks : Z;
  m_round_robin_start : Z;
  ps_wakeups_wo_switch : Z;
  m_pending_message_count : list Z
}.

#[export] Instance PerfectSwitch_eta : Eta PerfectSwitch := {| eta := fun p =>
  {| m_switch_id := m_switch_id p; ps_in := ps_in p; ps_out := ps_out p; m_routing_table := m_routing_table p;
     m_link_order := m_link_order p; ps_virtual_networks := ps_virtual_networks p;
     m_round_robin_start := m_round_robin_start p; ps_wakeups_wo_switch := ps_wakeups_wo_switch p;
     m_pending_message_count := m_pending_message_count p |} |}.

Definition PRIORITY_SWITCH_LIMIT : Z := 128.

Definition PerfectSwitch_ctor (sid virt_nets : Z) : PerfectSwitch :=
  {| m_switch_id := sid; ps_in := []; ps_out := []; m_routing_table := []; m_link_order := [];
     ps_virtual_networks := virt_nets; m_round_robin_start := 0; ps_wakeups_wo_switch := 0;
     m_pending_message_count := [] |}.

Definition PerfectSwitch_init (p : PerfectSwitch) : PerfectSwitch :=
  p ⟨ m_pending_message_count := m_pending_message_count p ++ replicate (Z.to_nat (ps_virtual_networks p)) 0 ⟩.

(** The number a buffer knows its consumer by. *)
Definition switch_consumer (sid : Z) : Z := 2 ^ 32 * sid.
Definition throttle_consumer (sid node : Z) : Z := 2 ^ 32 * sid + node + 1.

(** Updates the buffer behind a pointer. *)
Definition with_buffer {A} (s : store) (b : Z) (f : MessageBuffer -> res (MessageBuffer * A)) : res (store * A) :=
  mb ← vget s b;
  r ← f mb;
  s ← vset s b r.1;
  Ok (s, r.2).

Definition connect_in (sid port : Z) (s : store) (ib : Z * option Z) : res store :=
  match ib.2 with
  | None => Ok s
  | Some b =>
      r ← with_buffer s b (fun mb =>
        mb ← setConsumer mb (switch_consumer sid);
        Ok (mb_setVnet (setIncomingLink mb port) ib.1, tt));
      Ok r.1
  end.

Definition PerfectSwitch_addInPort (p : PerfectSwitch) (s : store) (inq : list (option Z))
    : res (PerfectSwitch * store) :=
  let port := Z.of_nat (length (ps_in p)) in
  s ← foldM (connect_in (m_switch_id p) port) (zip (upto (Z.of_nat (length inq))) inq) s;
  Ok (p ⟨ ps_in := ps_in p ++ [inq] ⟩, s).

Definition PerfectSwitch_addOutPort (p : PerfectSwitch) (outq : list Z) (entry : netdest) : PerfectSwitch :=
  p ⟨ m_link_order := m_link_order p ++ [{| lo_link := Z.of_nat (length (ps_out p)); lo_value := 0 |}] ⟩
    ⟨ ps_out := ps_out p ++ [outq] ⟩ ⟨ m_routing_table := m_routing_table p ++ [entry] ⟩.

Section Switching.
Context (sort : list LinkOrder -> list LinkOrder).
Context (e : sn_env).

(** The state threaded through a wake-up: the store, the draws used so far,
    and the events so far. *)
Record sw_state := { st_bufs : store; st_draws : nat; st_events : list sn_event }.

Definition link_load (p : PerfectSwitch) (st : store * Z) (outv : Z * Z) : res (store * Z) :=
  row ← vget (ps_out p) outv.1;
  b ← vget row outv.2;
  r ← with_buffer st.1 b (fun mb => Ok (getSize mb (se_now e)));
  Ok (r.1, st.2 + r.2).

(** How clogged a link is. *)
Definition weigh_link (p : PerfectSwitch) (st : store * nat * list LinkOrder) (out : Z)
    : res (store * nat * list LinkOrder) :=
  let '(s, n, order) := st in
  r ← foldM (link_load p) ((fun v => (out, v)) <$> upto (ps_virtual_networks p)) (s, 0);
  let value := i32 (Z.lor (Z.shiftl r.2 8) (se_random e n)) in
  order ← vset order out {| lo_link := out; lo_value := value |};
  Ok (r.1, S n, order).

(** The order in which links are tried for the next message. *)
Definition order_links (p : PerfectSwitch) (vnet : Z) (s : store) (n : nat)
    : res (PerfectSwitch * store * nat) :=
  if se_adaptive e then
    ord ← vget (se_ordered e) vnet;
    if (ord : bool) then
      order ← foldM (fun order out => vset order out {| lo_link := out; lo_value := 0 |})
                (upto (Z.of_nat (length (ps_out p)))) (m_link_order p);
      Ok (p ⟨ m_link_order := order ⟩, s, n)
    else
      r ← foldM (weigh_link p) (upto (Z.of_nat (length (ps_out p)))) (s, n, m_link_order p);
      let '(s, n, order) := r in
      Ok (p ⟨ m_link_order := sort order ⟩, s, n)
  else Ok (p, s, n).

(** One link of the routing loop: the destinations left, the links chosen. *)
Definition route_link (p : PerfectSwitch) (st : netdest * list (Z * netdest)) (lo : LinkOrder)
    : res (netdest * list (Z * netdest)) :=
  let '(msg_dsts, outs) := st in
  dst ← vget (m_routing_table p) (lo_link lo);
  meets ← NetDest_intersectionIsNotEmpty msg_dsts dst;
  if negb meets then Ok (msg_dsts, outs)
  else
    part ← NetDest_AND (se_counts e) msg_dsts dst;
    msg_dsts ← NetDest_removeNetDest msg_dsts dst;
    Ok (msg_dsts, outs ++ [(lo_link lo, part)]).

(** [output_links] and [output_link_destinations] of a message. *)
Definition route_message (p : PerfectSwitch) (d : netdest) : res (list (Z * netdest)) :=
  r ← foldM (route_link p) (m_link_order p) (d, []);
  _ ← cassert (NetDest_count r.1 =? 0);
  Ok r.2.

Definition out_buffer (p : PerfectSwitch) (outgoing vnet : Z) : res Z :=
  row ← vget (ps_out p) outgoing; vget row vnet.

Definition check_link (p : PerfectSwitch) (vnet : Z) (st : store * bool) (o : Z * netdest) : res (store * bool) :=
  b ← out_buffer p o.1 vnet;
  r ← with_buffer st.1 b (fun mb => Ok (areNSlotsAvailable mb 1 (se_now e)));
  Ok (r.1, if (r.2 : bool) then st.2 else false).

Definition send_copy (p : PerfectSwitch) (vnet : Z) (st : sw_state) (mo : Message * (Z * netdest)) : res sw_state :=
  let '(m, (outgoing, dests)) := mo in
  b ← out_buffer p outgoing vnet;
  r ← with_buffer (st_bufs st) b (fun mb =>
        enqueue (se_ruby e) (se_draws e (st_draws st)) mb (m ⟨ m_Destination := dests ⟩) (se_now e) (cyclesToTicks e 1));
  Ok {| st_bufs := r.1; st_draws := S (st_draws st); st_events := st_events st ++ (FromBuffer b <$> r.2) |}.

(** The message the first link gets is the one that was dequeued; the others
    get clones made before. *)
Definition copies (first clone : Message) (outs : list (Z * netdest)) : list (Message * (Z * netdest)) :=
  match outs with [] => [] | o :: outs => (first, o) :: ((fun o => (clone, o)) <$> outs) end.

(** One iteration of the loop of [operateMessageBuffer]; [true]: [break]. *)
Definition operate_message (buffer vnet : Z) (p : PerfectSwitch) (st : sw_state)
    : res (bool * PerfectSwitch * sw_state) :=
  mb ← vget (st_bufs st) buffer;
  msg ← peek mb;
  _ ← cassert (Z.of_nat (length (m_link_order p)) =? Z.of_nat (length (m_routing_table p)));
  _ ← cassert (Z.of_nat (length (m_link_order p)) =? Z.of_nat (length (ps_out p)));
  x ← order_links p vnet (st_bufs st) (st_draws st);
  let '(p, s, n) := x in
  outs ← route_message p (m_Destination msg);
  c ← foldM (check_link p vnet) outs (s, true);
  let '(s, enough) := c in
  if negb enough then
    Ok (true, p, {| st_bufs := s; st_draws := n; st_events := st_events st ++ [Self 1] |})
  else
    mb ← vget s buffer;
    d ← dequeue (se_curTick e) mb (se_now e) true;
    let '(mb, first, _, evs) := d in
    s ← vset s buffer mb;
    count ← vget (m_pending_message_count p) vnet;
    pending ← vset (m_pending_message_count p) vnet (count - 1);
    let p := p ⟨ m_pending_message_count := pending ⟩ in
    st ← foldM (send_copy p vnet) (copies first msg outs)
           {| st_bufs := s; st_draws := n; st_events := st_events st ++ (FromBuffer buffer <$> evs) |};
    Ok (false, p, st).

Fixpoint operate_loop (fuel : nat) (buffer vnet : Z) (p : PerfectSwitch) (st : sw_state)
    : res (PerfectSwitch * sw_state) :=
  mb ← vget (st_bufs st) buffer;
  if isReady mb (se_now e) then
    match fuel with
    | O => Err EFuel
    | S fuel =>
        r ← operate_message buffer vnet p st;
        let '(brk, p, st) := r in
        if (brk : bool) then Ok (p, st) else operate_loop fuel buffer vnet p st
    end
  else Ok (p, st).

(** Every iteration takes one message from the buffer, and what is put back
    into it (if it is an output buffer too) is not ready in this cycle. *)
Definition operateMessageBuffer (buffer vnet : Z) (p : PerfectSwitch) (st : sw_state)
    : res (PerfectSwitch * sw_state) :=
  mb ← vget (st_bufs st) buffer;
  operate_loop (length (m_prio_heap mb)) buffer vnet p st.

Definition operate_port (vnet : Z) (pst : Z * PerfectSwitch * sw_state) (_ : Z) : res (Z * PerfectSwitch * sw_state) :=
  let '(incoming, p, st) := pst in
  let incoming := incoming + 1 in
  let incoming := if Z.of_nat (length (ps_in p)) <=? incoming then 0 else incoming in
  row ← vget (ps_in p) incoming;
  if Z.of_nat (length row) <=? vnet then Ok (incoming, p, st)
  else
    b ← vget row vnet;
    match b with
    | None => Ok (incoming, p, st)
    | Some buffer => r ← operateMessageBuffer buffer vnet p st; Ok (incoming, r.1, r.2)
    end.

Definition PerfectSwitch_operateVnet (vnet : Z) (p : PerfectSwitch) (st : sw_state) : res (PerfectSwitch * sw_state) :=
  let incoming := m_round_robin_start p in
  let next := m_round_robin_start p + 1 in
  let p := p ⟨ m_round_robin_start := if Z.of_nat (length (ps_in p)) <=? next then 0 else next ⟩ in
  count ← vget (m_pending_message_count p) vnet;
  if 0 <? count then
    r ← foldM (operate_port vnet) (upto (Z.of_nat (length (ps_in p)))) (incoming, p, st);
    let '(_, p, st) := r in Ok (p, st)
  else Ok (p, st).

(** The virtual networks in the order of the wake-up's priority. *)
Definition vnet_order (inverted : bool) (n : Z) : list Z := if inverted then upto n else reverse (upto n).

Definition PerfectSwitch_wakeup (p : PerfectSwitch) (st : sw_state) : res (PerfectSwitch * sw_state) :=
  let w := ps_wakeups_wo_switch p + 1 in
  let inverted := PRIORITY_SWITCH_LIMIT <? w in
  let p := p ⟨ ps_wakeups_wo_switch := if inverted then 0 else w ⟩ in
  foldM (fun ps vnet => PerfectSwitch_operateVnet vnet ps.1 ps.2) (vnet_order inverted (ps_virtual_networks p)) (p, st).

Definition PerfectSwitch_storeEventInfo (p : PerfectSwitch) (info : Z) : res PerfectSwitch :=
  c ← vget (m_pending_message_count p) info;
  counts ← vset (m_pending_message_count p) info (c + 1);
  Ok (p ⟨ m_pending_message_count := counts ⟩).
End Switching.

(** ** Throttle *)

Record Throttle := {
  th_switch_id : Z;
  th_node : Z;
  th_in : list (option Z);
  th_out : list (option Z);
  th_vnets : Z;
  m_units_remaining : list Z;
  m_link_bandwidth_multiplier : Z;
  th_link_latency : Z;
  th_wakeups_wo_switch : Z;
  m_endpoint_bandwidth : Z
}.

#[export] Instance Throttle_eta : Eta Throttle := {| eta := fun t =>
  {| th_switch_id := th_switch_id t; th_node := th_node t; th_in := th_in t; th_out := th_out t;
     th_vnets := th_vnets t; m_units_remaining := m_units_remaining t;
     m_link_bandwidth_multiplier := m_link_bandwidth_multiplier t; th_link_latency := th_link_latency t;
     th_wakeups_wo_switch := th_wakeups_wo_switch t; m_endpoint_bandwidth := m_endpoint_bandwidth t |} |}.

Definition MESSAGE_SIZE_MULTIPLIER : Z := 1000.

Definition Throttle_ctor (sID node link_latency link_bandwidth_multiplier endpoint_bandwidth : Z) : res Throttle :=
  _ ← cassert (0 <? link_bandwidth_multiplier);
  Ok {| th_switch_id := sID; th_node := node; th_in := []; th_out := []; th_vnets := 0; m_units_remaining := [];
        m_link_bandwidth_multiplier := link_bandwidth_multiplier; th_link_latency := link_latency;
        th_wakeups_wo_switch := 0; m_endpoint_bandwidth := endpoint_bandwidth |}.

Definition getLinkBandwidth (t : Throttle) : Z := i32 (m_endpoint_bandwidth t * m_link_bandwidth_multiplier t).

(** One pair of buffers; the input is dereferenced. *)
Definition add_link (st : Throttle * store) (io : option Z * option Z) : res (Throttle * store) :=
  let '(t, s) := st in
  match io.1 with
  | None => Err EUninit
  | Some b =>
      let t := t ⟨ th_vnets := th_vnets t + 1 ⟩ ⟨ m_units_remaining := m_units_remaining t ++ [0] ⟩
                 ⟨ th_in := th_in t ++ [io.1] ⟩ ⟨ th_out := th_out t ++ [io.2] ⟩ in
      r ← with_buffer s b (fun mb =>
            mb ← setConsumer mb (throttle_consumer (th_switch_id t) (th_node t)); Ok (mb, tt));
      Ok (t, r.1)
  end.

Definition Throttle_addLinks (t : Throttle) (s : store) (in_vec out_vec : list (option Z)) : res (Throttle * store) :=
  _ ← cassert (Z.of_nat (length in_vec) =? Z.of_nat (length out_vec));
  foldM add_link (zip in_vec out_vec) (t, s).

(** The broadcast scaling of the source is 1 and changes nothing. *)
Definition network_message_to_size (net : Network) (m : Message) : Z :=
  i32 (i32 (MessageSizeType_to_int net (m_MessageSize m)) * MESSAGE_SIZE_MULTIPLIER).

Section Throttling.
Context (net : Network).
Context (e : sn_env).

Record th_state := { ts_bufs : store; ts_draws : nat; ts_events : list sn_event }.

(** The bandwidth spent on the message under way. *)
Definition spend (t : Throttle) (vnet bw : Z) : res (Throttle * Z) :=
  units ← vget (m_units_remaining t) vnet;
  let diff := i32 (units - bw) in
  us ← vset (m_units_remaining t) vnet (Z.max 0 diff);
  Ok (t ⟨ m_units_remaining := us ⟩, Z.max 0 (i32 (- diff))).

(** Moves the next message. *)
Definition move_message (t : Throttle) (vnet inb outb : Z) (st : th_state) : res (Throttle * th_state) :=
  mb ← vget (ts_bufs st) inb;
  msg ← peek mb;
  units ← vget (m_units_remaining t) vnet;
  us ← vset (m_units_remaining t) vnet (i32 (units + network_message_to_size net msg));
  d ← dequeue (se_curTick e) mb (se_now e) true;
  let '(mb, msg, _, evs) := d in
  s ← vset (ts_bufs st) inb mb;
  r ← with_buffer s outb (fun ob =>
        enqueue (se_ruby e) (se_draws e (ts_draws st)) ob msg (se_now e) (cyclesToTicks e (th_link_latency t)));
  Ok (t ⟨ m_units_remaining := us ⟩,
      {| ts_bufs := r.1; ts_draws := S (ts_draws st);
         ts_events := ts_events st ++ (FromBuffer inb <$> evs) ++ (FromBuffer outb <$> r.2) |}).

(** [in->isReady(t) || m_units_remaining[vnet] > 0]. *)
Definition has_work (t : Throttle) (vnet inb : Z) (s : store) : res bool :=
  mb ← vget s inb;
  if isReady mb (se_now e) then Ok true
  else units ← vget (m_units_remaining t) vnet; Ok (0 <? units).

(** Whether the loop goes on; a test that fails may count a refusal. *)
Definition may_send (t : Throttle) (vnet bw inb outb : Z) (s : store) : res (store * bool) :=
  if 0 <? bw then
    w ← has_work t vnet inb s;
    if (w : bool) then with_buffer s outb (fun ob => Ok (areNSlotsAvailable ob 1 (se_now e)))
    else Ok (s, false)
  else Ok (s, false).

Fixpoint throttle_loop (fuel : nat) (vnet inb outb : Z) (t : Throttle) (bw : Z) (st : th_state)
    : res (Throttle * Z * th_state) :=
  g ← may_send t vnet bw inb outb (ts_bufs st);
  let st := {| ts_bufs := g.1; ts_draws := ts_draws st; ts_events := ts_events st |} in
  if (g.2 : bool) then
    match fuel with
    | O => Err EFuel
    | S fuel =>
        units ← vget (m_units_remaining t) vnet;
        mb ← vget (ts_bufs st) inb;
        r ← (if ((units =? 0) && isReady mb (se_now e))%bool then move_message t vnet inb outb st else Ok (t, st));
        let '(t, st) := r in
        x ← spend t vnet bw;
        throttle_loop fuel vnet inb outb x.1 x.2 st
    end
  else Ok (t, bw, st).

(** An iteration that leaves bandwidth has finished the message under way, so
    the next one takes a message from the buffer. *)
Definition Throttle_operateVnet (vnet : Z) (inp outp : option Z) (x : Throttle * Z * bool * th_state)
    : res (Throttle * Z * bool * th_state) :=
  let '(t, bw, schedule_wakeup, st) := x in
  match inp, outp with
  | Some inb, Some outb =>
      units ← vget (m_units_remaining t) vnet;
      _ ← cassert (0 <=? units);
      mb ← vget (ts_bufs st) inb;
      r ← throttle_loop (S (length (m_prio_heap mb))) vnet inb outb t bw st;
      let '(t, bw, st) := r in
      if 0 <? bw then
        w ← has_work t vnet inb (ts_bufs st);
        if (w : bool) then
          a ← with_buffer (ts_bufs st) outb (fun ob => Ok (areNSlotsAvailable ob 1 (se_now e)));
          let st := {| ts_bufs := a.1; ts_draws := ts_draws st; ts_events := ts_events st |} in
          Ok (t, bw, if negb a.2 then true else schedule_wakeup, st)
        else Ok (t, bw, schedule_wakeup, st)
      else Ok (t, bw, schedule_wakeup, st)
  | _, _ => Ok x
  end.

Definition Throttle_vnet (x : Throttle * Z * bool * th_state) (vnet : Z) : res (Throttle * Z * bool * th_state) :=
  inb ← vget (th_in x.1.1.1) vnet;
  outb ← vget (th_out x.1.1.1) vnet;
  Throttle_operateVnet vnet inb outb x.

Definition Throttle_wakeup (t : Throttle) (st : th_state) : res (Throttle * th_state) :=
  _ ← cassert (0 <? getLinkBandwidth t);
  let w := th_wakeups_wo_switch t + 1 in
  let inverted := PRIORITY_SWITCH_LIMIT <? w in
  let t := t ⟨ th_wakeups_wo_switch := if inverted then 0 else w ⟩ in
  r ← foldM Throttle_vnet (vnet_order inverted (th_vnets t)) (t, getLinkBandwidth t, false, st);
  let '(t, bw_remaining, schedule_wakeup, st) := r in
  if ((0 <? bw_remaining) && negb schedule_wakeup)%bool then Ok (t, st)
  else Ok (t, {| ts_bufs := ts_bufs st; ts_draws := ts_draws st; ts_events := ts_events st ++ [Self 1] |}).
End Throttling.

(** ** Switch *)

Record Switch := {
  sw_id : Z;
  perfectSwitch : PerfectSwitch;
  throttles : list Throttle;
  sw_num_connected_buffers : Z;
  m_port_buffers : list Z
}.

#[export] Instance Switch_eta : Eta Switch := {| eta := fun w =>
  {| sw_id := sw_id w; perfectSwitch := perfectSwitch w; throttles := throttles w;
     sw_num_connected_buffers := sw_num_connected_buffers w; m_port_buffers := m_port_buffers w |} |}.

Definition Switch_ctor (id virt_nets : Z) (port_buffers : list Z) : Switch :=
  {| sw_id := id; perfectSwitch := PerfectSwitch_ctor id virt_nets; throttles := [];
     sw_num_connected_buffers := 0; m_port_buffers := port_buffers |}.

Definition Switch_init (w : Switch) : Switch := w ⟨ perfectSwitch := PerfectSwitch_init (perfectSwitch w) ⟩.

Definition Switch_addInPort (w : Switch) (s : store) (inq : list (option Z)) : res (Switch * store) :=
  r ← PerfectSwitch_addInPort (perfectSwitch w) s inq;
  Ok (w ⟨ perfectSwitch := r.1 ⟩, r.2).

(** The next port buffer that is free. *)
Definition take_buffer (buffers : list Z) (st : Z * list Z) (_ : Z) : res (Z * list Z) :=
  _ ← cassert (st.1 <? Z.of_nat (length buffers));
  b ← vget buffers st.1;
  Ok (st.1 + 1, st.2 ++ [b]).

Definition Switch_addOutPort (w : Switch) (s : store) (outq : list (option Z)) (entry : netdest)
    (link_latency bw_multiplier endpoint_bandwidth : Z) : res (Switch * store) :=
  t ← Throttle_ctor (sw_id w) (Z.of_nat (length (throttles w))) link_latency bw_multiplier endpoint_bandwidth;
  r ← foldM (take_buffer (m_port_buffers w)) (upto (Z.of_nat (length outq))) (sw_num_connected_buffers w, []);
  let '(n, intermediateBuffers) := r in
  x ← Throttle_addLinks t s (Some <$> intermediateBuffers) outq;
  Ok (w ⟨ sw_num_connected_buffers := n ⟩
        ⟨ perfectSwitch := PerfectSwitch_addOutPort (perfectSwitch w) intermediateBuffers entry ⟩
        ⟨ throttles := throttles w ++ [x.1] ⟩, x.2).

(** ** SimpleNetwork *)

Record SimpleNetwork := {
  sn_net : Network;
  m_switches : list Switch;
  m_int_link_buffers : list Z;
  sn_num_connected_buffers : Z;
  m_buffer_size : Z;
  sn_endpoint_bandwidth : Z;
  m_adaptive_routing : bool;
  sn_store : store
}.

#[export] Instance SimpleNetwork_eta : Eta SimpleNetwork := {| eta := fun n =>
  {| sn_net := sn_net n; m_switches := m_switches n; m_int_link_buffers := m_int_link_buffers n;
     sn_num_connected_buffers := sn_num_connected_buffers n; m_buffer_size := m_buffer_size n;
     sn_endpoint_bandwidth := sn_endpoint_bandwidth n; m_adaptive_routing := m_adaptive_routing n;
     sn_store := sn_store n |} |}.

Definition SimpleNetwork_ctor (net : Network) (routers : list Switch) (int_link_buffers : list Z)
    (buffer_size endpoint_bandwidth : Z) (adaptive_routing : bool) (s : store) : SimpleNetwork :=
  {| sn_net := net; m_switches := routers; m_int_link_buffers := int_link_buffers; sn_num_connected_buffers := 0;
     m_buffer_size := buffer_size; sn_endpoint_bandwidth := endpoint_bandwidth;
     m_adaptive_routing := adaptive_routing; sn_store := s |}.

(** Updates a switch and the store. *)
Definition with_switch (n : SimpleNetwork) (i : Z) (f : Switch -> store -> res (Switch * store)) : res SimpleNetwork :=
  w ← vget (m_switches n) i;
  r ← f w (sn_store n);
  ws ← vset (m_switches n) i r.1;
  Ok (n ⟨ m_switches := ws ⟩ ⟨ sn_store := r.2 ⟩).

(** The bandwidth multiplier of a simple link is its bandwidth factor. *)
Definition sn_makeExtOutLink (n : SimpleNetwork) (src dest : Z) (link : BasicLink) (entry : netdest) : res SimpleNetwork :=
  _ ← cassert (dest <? Network.m_nodes (sn_net n));
  _ ← cassert (src <? Z.of_nat (length (m_switches n)));
  q ← vget (m_fromNetQueues (sn_net n)) dest;
  with_switch n src (fun w s =>
    Switch_addOutPort w s q entry (m_latency link) (m_bandwidth_factor link) (sn_endpoint_bandwidth n)).

Definition sn_makeExtInLink (n : SimpleNetwork) (src dest : Z) : res SimpleNetwork :=
  _ ← cassert (src <? Network.m_nodes (sn_net n));
  q ← vget (m_toNetQueues (sn_net n)) src;
  with_switch n dest (fun w s => Switch_addInPort w s q).

Definition sn_makeInternalLink (n : SimpleNetwork) (src dest : Z) (link : BasicLink) (entry : netdest) : res SimpleNetwork :=
  r ← foldM (take_buffer (m_int_link_buffers n)) (upto (m_virtual_networks (sn_net n))) (sn_num_connected_buffers n, []);
  let n := n ⟨ sn_num_connected_buffers := r.1 ⟩ in
  let queues := Some <$> r.2 in
  n ← with_switch n dest (fun w s => Switch_addInPort w s queues);
  with_switch n src (fun w s =>
    Switch_addOutPort w s queues entry (m_latency link) (m_bandwidth_factor link) (sn_endpoint_bandwidth n)).

Definition sn_apply (n : SimpleNetwork) (c : net_call) : res SimpleNetwork :=
  match c with
  | MakeExtInLink src dest _ _ => sn_makeExtInLink n src dest
  | MakeExtOutLink src dest link entry => sn_makeExtOutLink n src dest link entry
  | MakeInternalLink src dest link entry _ _ => sn_makeInternalLink n src dest link entry
  end.

(** [init]; the switches, being simulation objects, are initialised too. *)
Definition SimpleNetwork_init (counts : list Z) (block_size_bytes : Z) (topo : Topology) (n : SimpleNetwork)
    : res (option SimpleNetwork) :=
  let n := n ⟨ sn_net := Network_init block_size_bytes (sn_net n) ⟩
             ⟨ m_switches := Switch_init <$> m_switches n ⟩ in
  calls ← createLinks counts topo;
  match calls with
  | None => Ok None
  | Some calls => Some <$> foldM sn_apply calls n
  end.

(** ** Functional accesses *)
Section Functional.
Context {Packet : Type}.
Context (fread : Message -> Packet -> option Packet) (fwrite : Message -> Packet -> option Message).

(** The first of the buffers with a match. *)
Definition read_buffers (s : store) (bs : list Z) (pkt : Packet) : res (bool * Packet) :=
  foldM_brk (fun pkt b => mb ← vget s b; Ok (mb_functionalRead fread mb pkt)) bs pkt.

Definition Switch_functionalRead (w : Switch) (s : store) (pkt : Packet) : res (bool * Packet) :=
  read_buffers s (m_port_buffers w) pkt.

Definition write_buffer (pkt : Packet) (st : store * Z) (b : Z) : res (store * Z) :=
  r ← with_buffer st.1 b (fun mb => Ok (mb_functionalWrite fwrite mb pkt));
  Ok (r.1, u32 (st.2 + r.2)).

Definition Switch_functionalWrite (w : Switch) (s : store) (pkt : Packet) : res (store * Z) :=
  foldM (write_buffer pkt) (m_port_buffers w) (s, 0).

Definition SimpleNetwork_functionalRead (n : SimpleNetwork) (pkt : Packet) : res (bool * Packet) :=
  r ← foldM_brk (fun pkt w => Switch_functionalRead w (sn_store n) pkt) (m_switches n) pkt;
  if (r.1 : bool) then Ok r else read_buffers (sn_store n) (m_int_link_buffers n) r.2.

Definition SimpleNetwork_functionalWrite (n : SimpleNetwork) (pkt : Packet) : res (SimpleNetwork * Z) :=
  r ← foldM (fun st w => x ← Switch_functionalWrite w st.1 pkt; Ok (x.1, u32 (st.2 + x.2))) (m_switches n)
        (sn_store n, 0);
  r ← foldM (write_buffer pkt) (m_int_link_buffers n) r;
  Ok (n ⟨ sn_store := r.1 ⟩, r.2).
End Functional.
