(* ===== verification/SwitchRouting.v ===== *)
(** * Routing inside a switch of the simple network

    How a perfect switch splits the destinations of a message over its output
    links: every destination is taken care of by exactly one copy, on the first
    link, in the order of the attempt, whose table entry lists it. *)
From S2P Require Import Prelude StdHeap NetDest Topology Common MessageBuffer Flit Network SimpleNetwork.

(** The table entry of a link lists a machine. *)
Definition leads_to (p : PerfectSwitch) (link : Z) (x : machineID) : Prop :=
  exists entry, vget (m_routing_table p) link = Ok entry /\ nd_mem entry x.

#[export] Instance nd_mem_dec d x : Decision (nd_mem d x).
Proof.
  unfold nd_mem. destruct (vget d (mtype x)) as [s|] eqn:E.
  - destruct (Z.testbit (NetDest.bits s) (mnum x)) eqn:Et; [left; eauto |].
    right. intros (s' & ? & ?). simplify_eq. congruence.
  - right. intros (s' & ? & ?). done.
Defined.

#[export] Instance leads_to_dec p link x : Decision (leads_to p link x).
Proof.
  unfold leads_to. destruct (vget (m_routing_table p) link) as [en|] eqn:E.
  - destruct (decide (nd_mem en x)) as [H|H]; [left; eauto |]. right. intros (en' & He & Hx). injection He as <-. done.
  - right. intros (en' & ? & ?). done.
Defined.

(** What a switch must be like to route: the order holds every link once, and
    there is an output port and a table entry for each. *)
Record switch_ok (counts : list Z) (p : PerfectSwitch) : Prop := {
  sk_counts : counts_ok counts;
  sk_links : lo_link <$> m_link_order p ≡ₚ upto (Z.of_nat (length (m_routing_table p)));
  sk_outs : length (ps_out p) = length (m_routing_table p);
  sk_table : Forall (nd_ok counts) (m_routing_table p)
}.

Lemma switch_ok_order counts p : switch_ok counts p -> length (m_link_order p) = length (m_routing_table p).
Proof.
  intros Hp. pose proof (Permutation_length (sk_links _ _ Hp)) as H. rewrite length_fmap, length_upto in H. lia.
Qed.

(** One copy: its link leads to all of its destinations, of which there are some. *)
Definition copy_ok (counts : list Z) (p : PerfectSwitch) (d : netdest) (o : Z * netdest) : Prop :=
  nd_ok counts o.2 /\ (exists x, nd_mem o.2 x) /\ forall x, nd_mem o.2 x -> nd_mem d x /\ leads_to p o.1 x.

(** The destinations of [d], copy by copy. *)
Definition split_dests (outs : list (Z * netdest)) : list machineID := outs.*2 ≫= nd_list.

(** [x] is sent over the link [l]: no link before it in the order leads there. *)
Definition first_link (p : PerfectSwitch) (order : list LinkOrder) (x : machineID) (l : Z) : Prop :=
  exists pre lo post, order = pre ++ lo :: post /\ lo_link lo = l /\ leads_to p l x /\
    Forall (fun lo => ~ leads_to p (lo_link lo) x) pre.

Lemma nd_list_split counts d a b :
  nd_ok counts d -> nd_ok counts a -> nd_ok counts b ->
  (forall x, nd_mem d x <-> nd_mem a x \/ nd_mem b x) -> (forall x, nd_mem a x -> ~ nd_mem b x) ->
  nd_list a ++ nd_list b ≡ₚ nd_list d.
Proof.
  intros Hd Ha Hb Hun Hdis. apply NoDup_Permutation.
  - apply NoDup_app. split_and!; [apply NoDup_nd_list | | apply NoDup_nd_list].
    intros x. rewrite !(elem_of_nd_list counts) by done. apply Hdis.
  - apply NoDup_nd_list.
  - intros x. rewrite elem_of_app, !(elem_of_nd_list counts) by done. by rewrite Hun.
Qed.

Section Route.
Context (e : sn_env) (p : PerfectSwitch).
Context (Hp : switch_ok (se_counts e) p).
Notation counts := (se_counts e).

(** A link that leads to some of the destinations takes those, and only those. *)
Lemma route_link_ok d outs lo :
  nd_ok counts d -> 0 <= lo_link lo < Z.of_nat (length (m_routing_table p)) ->
  exists rest new, route_link e p (d, outs) lo = Ok (rest, outs ++ new) /\ nd_ok counts rest /\
    (forall x, nd_mem rest x <-> nd_mem d x /\ ~ leads_to p (lo_link lo) x) /\
    (forall x, nd_mem d x -> leads_to p (lo_link lo) x -> exists part, new = [(lo_link lo, part)] /\ nd_mem part x) /\
    new.*1 `sublist_of` [lo_link lo] /\ Forall (copy_ok counts p d) new /\
    split_dests new ++ nd_list rest ≡ₚ nd_list d.
Proof using Hp.
  intros Hd Hl. unfold route_link. destruct (vget_is_ok (m_routing_table p) (lo_link lo)) as [en Hen]; [done |].
  rewrite Hen. rsimpl. assert (nd_ok counts en) as Hno.
  { pose proof (sk_table _ _ Hp) as Ht. rewrite Forall_lookup in Ht. apply vget_Ok in Hen as [_ Hen]. by eapply Ht. }
  assert (Hlead : forall x, leads_to p (lo_link lo) x <-> nd_mem en x).
  { intros x. split; [intros (en' & He & Hx); rewrite Hen in He; by injection He as <- | intros H; by exists en]. }
  setoid_rewrite Hlead.
  destruct (intersectionIsNotEmpty_spec counts d en Hd Hno) as ([] & -> & Hm); rsimpl; cbn [negb].
  - destruct (NetDest_AND_spec counts d en (sk_counts _ _ Hp) Hd Hno) as (part & -> & Hpok & Hpm). rsimpl.
    destruct (removeNetDest_spec counts d en Hd Hno) as (rest & -> & Hrok & Hrm). rsimpl.
    exists rest, [(lo_link lo, part)]. split_and!; try done.
    + intros x Hx He. exists part. split; [done |]. by apply Hpm.
    + apply Forall_singleton. split; [done |]. split.
      * destruct (proj1 Hm eq_refl) as (x & Hx). exists x. by apply Hpm.
      * intros x [Hx He]%Hpm. split; [done |]. by exists en.
    + unfold split_dests. cbn [fmap list_fmap snd mbind list_bind]. rewrite app_nil_r.
      apply (nd_list_split counts); try done; intros x; rewrite Hpm, Hrm; [| tauto].
      destruct (decide (nd_mem en x)); tauto.
  - exists d, []. rewrite app_nil_r. assert (forall x, nd_mem d x -> nd_mem en x -> False) as Hno'.
    { intros x Hx He. enough (false = true) by done. apply Hm. by exists x. }
    split_and!; try done.
    + intros x. split; [| by intros []]. intros Hx. split; [done |]. intros He. by apply (Hno' x).
    + intros x Hx He. by destruct (Hno' x).
    + apply sublist_nil_l.
Qed.

Lemma copy_ok_mono d d' o : (forall x, nd_mem d' x -> nd_mem d x) -> copy_ok counts p d' o -> copy_ok counts p d o.
Proof. intros Hsub (? & ? & H). split_and!; [done | done |]. intros x Hx. destruct (H x Hx). auto. Qed.

Lemma route_links_ok order : forall d outs,
  nd_ok counts d -> Forall (fun lo => 0 <= lo_link lo < Z.of_nat (length (m_routing_table p))) order ->
  exists rest new, foldM (route_link e p) order (d, outs) = Ok (rest, outs ++ new) /\ nd_ok counts rest /\
    (forall x, nd_mem rest x <-> nd_mem d x /\ Forall (fun lo => ~ leads_to p (lo_link lo) x) order) /\
    (forall x l, nd_mem d x -> first_link p order x l -> exists part, (l, part) ∈ new /\ nd_mem part x) /\
    new.*1 `sublist_of` (lo_link <$> order) /\ Forall (copy_ok counts p d) new /\
    split_dests new ++ nd_list rest ≡ₚ nd_list d.
Proof using Hp.
  induction order as [|lo order IH]; intros d outs Hd Hl; cbn [foldM].
  { exists d, []. rewrite app_nil_r. split_and!; try done.
    - intros x. split; [| by intros []]. intros Hx. split; [done | by apply Forall_nil].
    - intros x l _ (pre & ? & ? & Hnil & _). by destruct pre. }
  apply Forall_cons in Hl as [Hlo Hl].
  destruct (route_link_ok d outs lo Hd Hlo) as (d1 & n1 & -> & Hd1 & Hm1 & Hf1 & Hs1 & Hc1 & Hp1). rsimpl.
  destruct (IH d1 (outs ++ n1) Hd1 Hl) as (d2 & n2 & -> & Hd2 & Hm2 & Hf2 & Hs2 & Hc2 & Hp2).
  exists d2, (n1 ++ n2). rewrite app_assoc. split_and!; try done.
  - intros x. rewrite Hm2, Hm1, Forall_cons. tauto.
  - intros x l Hx (pre & lo' & post & Heq & <- & Hlead & Hpre). destruct pre as [|lo0 pre]; injection Heq as -> Heq.
    + destruct (Hf1 x Hx Hlead) as (part & -> & Hpart). exists part. split; [left | done].
    + apply Forall_cons in Hpre as [Hnot Hpre]. destruct (Hf2 x (lo_link lo')) as (part & Hin & Hpart).
      * apply Hm1. done.
      * by exists pre, lo', post.
      * exists part. split; [| done]. apply elem_of_app. by right.
  - rewrite fmap_app. cbn [fmap list_fmap]. change (lo_link lo :: ?l) with ([lo_link lo] ++ l). by apply sublist_app.
  - apply Forall_app. split; [done |]. eapply Forall_impl; [exact Hc2 |]. intros o. apply copy_ok_mono.
    intros x Hx. by apply Hm1 in Hx as [? _].
  - unfold split_dests in *. rewrite fmap_app, bind_app, <- app_assoc, Hp2. exact Hp1.
Qed.

Lemma leads_in_order x : (exists l, leads_to p l x) <-> ~ Forall (fun lo => ~ leads_to p (lo_link lo) x) (m_link_order p).
Proof using Hp.
  split.
  - intros (l & Hl) Hall. assert (l ∈ lo_link <$> m_link_order p) as (lo & -> & Hlo)%list_elem_of_fmap.
    { rewrite (sk_links _ _ Hp). apply elem_of_upto. destruct Hl as (en & Hen%vget_range & _). done. }
    rewrite Forall_forall in Hall. by apply (Hall lo).
  - intros Hn. apply not_Forall_Exists in Hn; [| apply _]. apply Exists_exists in Hn as (lo & _ & Hlo).
    exists (lo_link lo). by apply dec_stable.
Qed.

Lemma route_message_ok d :
  nd_ok counts d -> (forall x, nd_mem d x -> exists l, leads_to p l x) ->
  exists outs, route_message e p d = Ok outs /\
    outs.*1 `sublist_of` (lo_link <$> m_link_order p) /\ Forall (copy_ok counts p d) outs /\
    split_dests outs ≡ₚ nd_list d /\
    forall x l, nd_mem d x -> first_link p (m_link_order p) x l -> exists part, (l, part) ∈ outs /\ nd_mem part x.
Proof using Hp.
  intros Hd Hcov. destruct (route_links_ok (m_link_order p) d [] Hd) as (rest & outs & Hr & Hrok & Hm & Hf & Hs & Hc & Hperm).
  { apply Forall_forall. intros lo Hlo. apply elem_of_upto. rewrite <- (sk_links _ _ Hp). apply list_elem_of_fmap. by exists lo. }
  rewrite app_nil_l in Hr. unfold route_message. rewrite Hr. rsimpl.
  assert (forall x, ~ nd_mem rest x) as Hnone.
  { intros x [Hx Hall]%Hm. by apply (proj1 (leads_in_order x) (Hcov x Hx)). }
  pose proof (proj2 (NetDest_count_0 counts rest Hrok) Hnone) as H0. rewrite H0. rsimpl.
  exists outs. split_and!; try done.
  pose proof (length_nd_list rest) as Hlen. rewrite H0 in Hlen. destruct (nd_list rest); [| done].
  by rewrite app_nil_r in Hperm.
Qed.
End Route.

Lemma route_message_uncovered e p d x :
  switch_ok (se_counts e) p -> nd_ok (se_counts e) d -> nd_mem d x -> (forall l, ~ leads_to p l x) ->
  route_message e p d = Err EAssert.
Proof.
  intros Hp Hd Hx Hno. destruct (route_links_ok e p Hp (m_link_order p) d [] Hd) as (rest & outs & Hr & Hrok & Hm & _).
  { apply Forall_forall. intros lo Hlo. apply elem_of_upto. rewrite <- (sk_links _ _ Hp). apply list_elem_of_fmap. by exists lo. }
  unfold route_message. rewrite Hr. rsimpl. destruct (NetDest_count rest =? 0) eqn:E; [| done]. b2p. exfalso.
  apply (proj1 (NetDest_count_0 _ rest Hrok) E x). apply Hm. split; [done |]. apply Forall_forall. intros lo _. apply Hno.
Qed.

(** Routing in a switch splits the destinations: when every destination of
    a message is behind some link, the copies the switch makes go over different
    links, each has at least one destination and only destinations its link's
    table entry lists, together they serve every destination exactly once, and
    every destination is served over the first link of the order in force
    (adaptive or not) that leads there; when some destination is behind no link
    the assertion after the routing loop fails. *)
Theorem switch_routing_partition (e : sn_env) (p : PerfectSwitch) (d : netdest) :
  switch_ok (se_counts e) p -> nd_ok (se_counts e) d ->
  ((forall x, nd_mem d x -> exists l, leads_to p l x) ->
    exists outs, route_message e p d = Ok outs /\
      NoDup outs.*1 /\ Forall (copy_ok (se_counts e) p d) outs /\ split_dests outs ≡ₚ nd_list d /\
      forall x l, nd_mem d x -> first_link p (m_link_order p) x l -> exists part, (l, part) ∈ outs /\ nd_mem part x) /\
  (forall x, nd_mem d x -> (forall l, ~ leads_to p l x) -> route_message e p d = Err EAssert).
Proof.
  intros Hp Hd. split; [| intros x; by apply route_message_uncovered].
  intros Hcov. destruct (route_message_ok e p Hp d Hd Hcov) as (outs & Hr & Hs & Hc & Hsp & Hf).
  exists outs. split_and!; try done. eapply sublist_NoDup; [| exact Hs]. rewrite (sk_links _ _ Hp). apply NoDup_seqZ.
Qed.

(** ** A switch with two links: two caches behind the first, the directory (and
    the second cache again) behind the second *)
Definition demo_counts : list Z := [2; 1].
Definition demo_env : sn_env :=
  {| se_counts := demo_counts;
     se_ruby := {| getRandomization := false; getWarmupEnabled := false; getBlockSizeBits := 6 |};
     se_adaptive := true; se_ordered := [false]; se_now := 1000; se_period := 500; se_curTick := 1000;
     se_random := fun n => Z.of_nat n; se_draws := fun _ => (0, 1, 1) |}.
Definition demo_switch : PerfectSwitch :=
  PerfectSwitch_addOutPort (PerfectSwitch_addOutPort (PerfectSwitch_init (PerfectSwitch_ctor 0 1)) [1] [RSet 2 3; RSet 1 0])
    [2] [RSet 2 2; RSet 1 1].
Definition demo_dest : netdest := [RSet 2 3; RSet 1 1].

Lemma demo_nd (a b : Z) : 0 <= a < 4 -> 0 <= b < 2 -> nd_ok demo_counts [RSet 2 a; RSet 1 b].
Proof.
  intros Ha Hb. split; [done |]. intros i s Hs. pose proof (vget_range _ _ _ Hs) as Hi. cbn in Hi.
  assert (i = 0 \/ i = 1) as [-> | ->] by lia; injection Hs as <-; (split; [done |]);
    unfold set_ok, NUMBER_BITS_PER_SET; cbn [m_nSize NetDest.bits]; lia.
Qed.

Lemma demo_mem (a b : Z) x : 0 <= a < 4 -> 0 <= b < 2 -> nd_mem [RSet 2 a; RSet 1 b] x ->
  x = MachineID 0 0 \/ x = MachineID 0 1 \/ x = MachineID 1 0.
Proof.
  intros Ha Hb Hx. destruct (nd_mem_mid_ok demo_counts _ x (demo_nd a b Ha Hb) Hx) as (Hn & c & Hc & Hlt).
  destruct x as [t n]. cbn [mtype mnum] in *. pose proof (vget_range _ _ _ Hc) as Ht. cbn in Ht.
  assert (t = 0 \/ t = 1) as [-> | ->] by lia; injection Hc as <-.
  - assert (n = 0 \/ n = 1) as [-> | ->] by lia; auto.
  - assert (n = 0) as -> by lia. auto.
Qed.

Lemma demo_switch_ok : switch_ok demo_counts demo_switch.
Proof.
  split; [| done | done |].
  - split; [| done]. repeat (apply Forall_cons; split; [unfold NUMBER_BITS_PER_SET; lia |]). by apply Forall_nil.
  - repeat (apply Forall_cons; split; [apply demo_nd; lia |]). by apply Forall_nil.
Qed.

Lemma demo_covered x : nd_mem demo_dest x -> exists l, leads_to demo_switch l x.
Proof.
  intros [-> | [-> | ->]]%demo_mem; [exists 0 | exists 0 | exists 1 | lia | lia]; eexists; (split; [reflexivity |]);
    eexists; (split; [reflexivity | reflexivity]).
Qed.

Lemma switch_routing_partition_witness :
  exists outs, route_message demo_env demo_switch demo_dest = Ok outs /\
    NoDup outs.*1 /\ split_dests outs ≡ₚ [MachineID 0 0; MachineID 0 1; MachineID 1 0].
Proof.
  destruct (switch_routing_partition demo_env demo_switch demo_dest demo_switch_ok) as [H _]; [apply demo_nd; lia |].
  destruct (H demo_covered) as (outs & ? & ? & _ & ? & _). by exists outs.
Defined.
