(* ===== verification/BufferStore.v ===== *)
(** * Buffers in the store of the simple network

    What the operations of a message buffer do to a buffer in a store, for the
    proofs about switches and throttles: counting (size queries), taking a
    message out, putting one in.  The abstraction is the list of deliveries
    that are still due: one pair (payload, machine) for every destination of
    every message. *)
From S2P Require Import Prelude StdHeap NetDest Topology Common MessageBuffer Flit Network SimpleNetwork.

Definition deliveries_of (m : Message) : list (Z * machineID) := pair (payload m) <$> nd_list (m_Destination m).
Definition deliveries (b : MessageBuffer) : list (Z * machineID) := all_messages b ≫= deliveries_of.
Definition store_deliveries (s : store) : list (Z * machineID) := s ≫= deliveries.

Lemma deliveries_heap h b : m_prio_heap b ≡ₚ h -> deliveries b ≡ₚ (h ≫= deliveries_of) ++ (stalled (m_stall_msg_map b) ≫= deliveries_of).
Proof. intros Hh. unfold deliveries, all_messages. by rewrite bind_app, Hh. Qed.

(** ** The three kinds of change to a buffer *)

(** Counting does not change what the buffer holds. *)
Record touch (b b' : MessageBuffer) : Prop := {
  tc_heap : m_prio_heap b' = m_prio_heap b;
  tc_stall : m_stall_msg_map b' = m_stall_msg_map b;
  tc_stall_size : m_stall_map_size b' = m_stall_map_size b;
  tc_arrival : m_last_arrival_time b' = m_last_arrival_time b;
  tc_config : same_config b b'
}.

#[export] Instance touch_preorder : PreOrder touch.
Proof.
  split.
  - intros b. by split.
  - intros a b c [H1 H2 H3 H4 (?&?&?&?)] [K1 K2 K3 K4 (?&?&?&?)]. split; try congruence.
    unfold same_config. split_and!; congruence.
Qed.

Lemma touch_slots b n t : touch b (areNSlotsAvailable b n t).1.
Proof. destruct (areNSlots_same b n t) as [c ->]. by split. Qed.

Lemma touch_size b t : touch b (getSize b t).1.
Proof. destruct (getSize_same b t) as (c & d & ->). by split. Qed.

Lemma touch_deliveries b b' : touch b b' -> deliveries b' = deliveries b.
Proof. intros H. unfold deliveries, all_messages. by rewrite (tc_heap _ _ H), (tc_stall _ _ H). Qed.

Lemma touch_mb_ok b b' : touch b b' -> mb_ok b -> mb_ok b'.
Proof.
  intros H [Hh Hs]. unfold mb_ok, stalled_count. by rewrite (tc_heap _ _ H), (tc_stall _ _ H), (tc_stall_size _ _ H).
Qed.

Lemma touch_ready b b' t : touch b b' -> isReady b' t = isReady b t.
Proof. intros H. unfold isReady. by rewrite (tc_heap _ _ H). Qed.

(** What two versions of a message share while it travels. *)
Definition same_message (m m' : Message) : Prop :=
  payload m' = payload m /\ m_Destination m' = m_Destination m /\ m_MessageSize m' = m_MessageSize m.

Lemma same_message_deliveries m m' : same_message m m' -> deliveries_of m' = deliveries_of m.
Proof. intros (H1 & H2 & _). unfold deliveries_of. by rewrite H1, H2. Qed.

(** [m] leaves the buffer. *)
Record takes (m : Message) (b b' : MessageBuffer) : Prop := {
  tk_head : head (m_prio_heap b) = Some m;
  tk_heap : m_prio_heap b' = heap_remove msg_gt (m_prio_heap b);
  tk_stall : m_stall_msg_map b' = m_stall_msg_map b;
  tk_stall_size : m_stall_map_size b' = m_stall_map_size b;
  tk_arrival : m_last_arrival_time b' = m_last_arrival_time b;
  tk_config : same_config b b'
}.

(** [m] enters the buffer and is ready from [arrival] on. *)
Record puts (m : Message) (arrival : Z) (b b' : MessageBuffer) : Prop := {
  pt_heap : m_prio_heap b' = heap_insert msg_gt (m_prio_heap b) m;
  pt_time : m_LastEnqueueTime m = arrival;
  pt_stall : m_stall_msg_map b' = m_stall_msg_map b;
  pt_stall_size : m_stall_map_size b' = m_stall_map_size b;
  pt_arrival : m_last_arrival_time b' <= Z.max (m_last_arrival_time b) arrival;
  pt_config : same_config b b'
}.

Lemma takes_deliveries m b b' : takes m b b' -> deliveries b ≡ₚ deliveries_of m ++ deliveries b'.
Proof.
  intros H. rewrite (deliveries_heap _ b (heap_remove_Permutation msg_gt _ _ (tk_head _ _ _ H))). cbn [mbind list_bind].
  rewrite <- app_assoc. f_equiv. unfold deliveries, all_messages.
  by rewrite bind_app, (tk_heap _ _ _ H), (tk_stall _ _ _ H).
Qed.

Lemma puts_deliveries m a b b' : puts m a b b' -> deliveries b' ≡ₚ deliveries_of m ++ deliveries b.
Proof.
  intros H. rewrite (deliveries_heap (m :: m_prio_heap b) b').
  2: { rewrite (pt_heap _ _ _ _ H). apply heap_insert_Permutation. }
  cbn [mbind list_bind]. rewrite <- app_assoc. f_equiv. unfold deliveries, all_messages.
  by rewrite bind_app, (pt_stall _ _ _ _ H).
Qed.

Lemma takes_mb_ok m b b' : takes m b b' -> mb_ok b -> mb_ok b'.
Proof.
  intros H [Hh Hs]. unfold mb_ok, stalled_count. rewrite (tk_heap _ _ _ H), (tk_stall _ _ _ H), (tk_stall_size _ _ _ H).
  split; [| done]. by apply (heap_remove_heap msg_gt).
Qed.

Lemma puts_mb_ok m a b b' : puts m a b b' -> mb_ok b -> mb_ok b'.
Proof.
  intros H [Hh Hs]. unfold mb_ok, stalled_count.
  rewrite (pt_heap _ _ _ _ H), (pt_stall _ _ _ _ H), (pt_stall_size _ _ _ _ H).
  split; [| done]. by apply (heap_insert_heap msg_gt).
Qed.

(** ** When the operations succeed *)

(** A buffer that a component may put messages into at time [now], to arrive at
    [arrival]: it has a consumer, does not randomise arrivals, and no earlier
    message of an ordered buffer arrives later. *)
Definition can_receive (arrival : Z) (b : MessageBuffer) : Prop :=
  m_consumer b <> None /\ m_randomization b = false /\ (m_strict_fifo b = true -> m_last_arrival_time b <= arrival).

Lemma touch_can_receive a b b' : touch b b' -> can_receive a b -> can_receive a b'.
Proof. intros [_ _ _ H4 (_&H7&H5&H6)] (?&?&?). unfold can_receive. by rewrite H4, H5, H6, H7. Qed.

Lemma takes_can_receive m a b b' : takes m b b' -> can_receive a b -> can_receive a b'.
Proof. intros [_ _ _ _ H4 (_&H7&H5&H6)] (?&?&?). unfold can_receive. by rewrite H4, H5, H6, H7. Qed.

Lemma puts_can_receive m a a' b b' : puts m a' b b' -> a' <= a -> can_receive a b -> can_receive a b'.
Proof.
  intros [_ _ _ _ H4 (_&H7&H5&H6)] Ha (?&?&Hl). unfold can_receive. rewrite H5, H6, H7. split_and!; [done | done |].
  intros Hs. specialize (Hl Hs). lia.
Qed.

Lemma enqueue_ok rs r b m t d :
  getRandomization rs = false -> 0 <= t -> 0 < d -> t + d < 2 ^ 64 ->
  can_receive (t + d) b -> m_LastEnqueueTime m <= t ->
  exists b' m', enqueue rs r b m t d = Ok (b', [ScheduleEventAbsolute (t + d); StoreEventInfo (m_vnet_id b)]) /\
    puts m' (t + d) b b' /\ same_message m m'.
Proof.
  intros Hrs Ht Hd Hr (Hc & Hrand & Hlast) Hm.
  destruct (enqueue rs r b m t d) as [[b' evs]|err] eqn:E.
  - pose proof (enqueue_spec _ _ _ _ _ _ _ _ E) as (arr & m0 & Hheap & _ & Harr & _ & _ & Hmap & Hsz & _ & _ & _ & _ & _ & _ & _ & _ & _ & Hcfg).
    revert E. unfold enqueue, updateDelayedTicks. rewrite Hrs.
    destruct (m_time_last_time_enqueue b <? t), (getWarmupEnabled rs) eqn:Ew; fields; rewrite ?Hrand; cbn [negb andb]; intros E;
      inv_res; b2p; subst; rewrite (u64_id (t + d)) by (unfold in_u64; lia);
      eexists _, _; (split; [reflexivity |]); (split; [split; fields; first [reflexivity | lia | done | by unfold same_config; split_and!; fields] | unfold same_message; by split_and!; fields]).
  - exfalso. revert E. unfold enqueue, updateDelayedTicks. rewrite Hrs.
    destruct (m_time_last_time_enqueue b <? t), (getWarmupEnabled rs) eqn:Ew; fields; rewrite ?Hrand; cbn [negb andb];
      rewrite (u64_id (t + d)) by (unfold in_u64; lia);
      rewrite (proj2 (Z.ltb_lt 0 d)), (proj2 (Z.ltb_lt t (t + d))), (proj2 (Z.leb_le _ _) Hm) by lia; rsimpl; fields;
      (assert ((m_strict_fifo b && (t + d <? m_last_arrival_time b))%bool = false) as ->
        by (destruct (m_strict_fifo b); [specialize (Hlast eq_refl); cbn [andb]; lia | done])); rsimpl; fields;
      by rewrite bool_decide_eq_true_2 by done.
Qed.

Lemma dequeue_ok curTick b t :
  isReady b t = true ->
  exists b' m m' delay evs, dequeue curTick b t true = Ok (b', m', delay, evs) /\ peek b = Ok m /\
    takes m b b' /\ same_message m m' /\ m_LastEnqueueTime m' <= t /\ m_LastEnqueueTime m <= t.
Proof.
  intros Hr. destruct (m_prio_heap b) as [|m l] eqn:Eh; [unfold isReady in Hr; by rewrite Eh in Hr |].
  assert (m_LastEnqueueTime m <= t) as Hm by (unfold isReady in Hr; rewrite Eh in Hr; lia).
  destruct (dequeue curTick b t true) as [[[[b' m'] delay] evs]|err] eqn:E.
  - pose proof (dequeue_spec _ _ _ _ _ _ _ _ E) as (m0 & Hh & Hp & Ht & Hle & Hheap & Hmap & Hsz & _ & _ & _ & _ & Harr & _ & _ & _ & Hcfg).
    rewrite Eh in Hh. injection Hh as <-. exists b', m, m', delay, evs. split; [done |].
    split; [unfold peek; by rewrite Eh |]. split; [by split; rewrite ?Eh in *|].
    split; [| lia]. revert E. unfold dequeue, updateDelayedTicks. rewrite Hr, Eh. cbn [vfront]. intros E.
    inv_res. subst. unfold same_message. by split_and!; fields.
  - exfalso. revert E. unfold dequeue, updateDelayedTicks. rewrite Hr, Eh. cbn [vfront]. rsimpl.
    rewrite (proj2 (Z.leb_le _ _) Hm). by rsimpl.
Qed.

(** ** A buffer in the store *)

Lemma store_update (s : store) b mb mb' :
  vget s b = Ok mb -> exists s', vset s b mb' = Ok s' /\ length s' = length s /\ vget s' b = Ok mb' /\
    (forall j, j <> b -> vget s' j = vget s j) /\
    deliveries mb ++ store_deliveries s' ≡ₚ deliveries mb' ++ store_deliveries s.
Proof.
  intros Hb. pose proof (vget_range _ _ _ Hb) as Hr. destruct (vset_is_ok s b mb' Hr) as [s' Hs']. exists s'.
  split_and!; [done | by eapply vset_length | by eapply vset_get_eq | intros j Hj; by eapply vset_get_ne |].
  apply vset_Ok in Hs' as [Hr' ->]. apply vget_Ok in Hb as [_ Hb].
  pose proof (take_drop_middle _ _ _ Hb) as Hsplit.
  assert (<[Z.to_nat b := mb']> s = take (Z.to_nat b) s ++ mb' :: drop (S (Z.to_nat b)) s) as ->.
  { by rewrite insert_take_drop by lia. }
  rewrite <- Hsplit at 3. unfold store_deliveries. rewrite !bind_app. cbn [mbind list_bind]. solve_Permutation.
Qed.
