(* ===== verification/SwitchForward.v ===== *)
(** * A wake-up of a perfect switch

    [PerfectSwitch::wakeup] on any store in which the switch can route: it runs
    to its end, no delivery is lost or duplicated, and no message is left ready
    in an input buffer without another wake-up being scheduled. *)
From S2P Require Import Prelude StdHeap NetDest Topology Common MessageBuffer Flit Network SimpleNetwork SwitchRouting BufferStore.

(** ** How the buffers change during a wake-up *)

Section Forward.
Context (sort : list LinkOrder -> list LinkOrder).
Context (e : sn_env).
Context (Hsort : forall l, sort l ≡ₚ l).
Notation counts := (se_counts e).
Notation now := (se_now e).
Notation due := (se_now e + se_period e).

(** The clock runs, arrivals are not randomised, and times fit their type. *)
Record env_ok : Prop := {
  ek_now : 0 <= now;
  ek_period : 0 < se_period e;
  ek_range : due < 2 ^ 64;
  ek_random : getRandomization (se_ruby e) = false
}.
Context (He : env_ok).

Definition wf_buffer (b : MessageBuffer) : Prop :=
  mb_ok b /\ Forall (fun m => nd_ok counts (m_Destination m)) (m_prio_heap b).

(** The messages a component may take now. *)
Definition ready_heap (b : MessageBuffer) : list Message := filter (fun m => m_LastEnqueueTime m <= now) (m_prio_heap b).

(** Every destination of the message is behind some link of the switch. *)
Definition routable (p : PerfectSwitch) (m : Message) : Prop :=
  forall x, nd_mem (m_Destination m) x -> exists l, leads_to p l x.

(** What no step of a wake-up breaks, buffer by buffer. *)
Record evolves (p : PerfectSwitch) (b b' : MessageBuffer) : Prop := {
  ev_wf : wf_buffer b -> wf_buffer b';
  ev_receive : can_receive due b -> can_receive due b';
  ev_routable : Forall (routable p) (m_prio_heap b) -> Forall (routable p) (m_prio_heap b');
  ev_ready : ready_heap b' ⊆+ ready_heap b
}.

#[local] Instance evolves_preorder p : PreOrder (evolves p).
Proof. split; [intros b; by split |]. intros a b c [] []. split; auto. by etrans. Qed.

Definition store_evolves (p : PerfectSwitch) : relation store := Forall2 (evolves p).

#[local] Instance store_evolves_preorder p : PreOrder (store_evolves p).
Proof. split; apply _. Qed.

Lemma touch_evolves p b b' : touch b b' -> evolves p b b'.
Proof.
  intros H. split.
  - intros [Hb Hf]. split; [by eapply touch_mb_ok |]. by rewrite (tc_heap _ _ H).
  - by apply touch_can_receive.
  - by rewrite (tc_heap _ _ H).
  - unfold ready_heap. by rewrite (tc_heap _ _ H).
Qed.

Lemma takes_ready m b b' : takes m b b' -> m_LastEnqueueTime m <= now -> ready_heap b ≡ₚ m :: ready_heap b'.
Proof.
  intros H Hm. unfold ready_heap. rewrite (heap_remove_Permutation msg_gt _ _ (tk_head _ _ _ H)) at 1.
  rewrite filter_cons_True by done. by rewrite (tk_heap _ _ _ H).
Qed.

Lemma takes_Forall (P : Message -> Prop) m b b' :
  takes m b b' -> Forall P (m_prio_heap b) -> Forall P (m_prio_heap b') /\ P m.
Proof.
  intros H Hf. rewrite (heap_remove_Permutation msg_gt _ _ (tk_head _ _ _ H)) in Hf. apply Forall_cons in Hf as [? ?].
  by rewrite (tk_heap _ _ _ H).
Qed.

Lemma takes_evolves p m b b' : takes m b b' -> m_LastEnqueueTime m <= now -> evolves p b b'.
Proof.
  intros H Hm. split.
  - intros [Hb Hf]. split; [by eapply takes_mb_ok | exact (proj1 (takes_Forall _ _ _ _ H Hf))].
  - by eapply takes_can_receive.
  - intros Hf. exact (proj1 (takes_Forall _ _ _ _ H Hf)).
  - rewrite (takes_ready _ _ _ H Hm). by apply submseteq_cons.
Qed.

Lemma puts_evolves p m a b b' :
  puts m a b b' -> now < a <= due -> nd_ok counts (m_Destination m) -> routable p m -> evolves p b b'.
Proof.
  intros H Ha Hd Hr. assert (m_prio_heap b' ≡ₚ m :: m_prio_heap b) as Hh.
  { rewrite (pt_heap _ _ _ _ H). apply heap_insert_Permutation. }
  split.
  - intros [Hb Hf]. split; [by eapply puts_mb_ok |]. rewrite Hh. by apply Forall_cons.
  - eapply puts_can_receive; [done | lia].
  - intros Hf. rewrite Hh. by apply Forall_cons.
  - unfold ready_heap. rewrite Hh. rewrite filter_cons_False; [done |]. rewrite (pt_time _ _ _ _ H). lia.
Qed.

(** A buffer with no ready message at its head has none at all. *)
Lemma ready_heap_head b : wf_buffer b -> isReady b now = true <-> ready_heap b <> [].
Proof.
  intros [[Hh _] _]. unfold isReady, ready_heap. destruct (m_prio_heap b) as [|m l] eqn:E; [done |].
  rewrite filter_cons. case_decide as Hm; [split; [done |]; intros _; lia |]. split; [lia |]. intros Hne. exfalso.
  apply Hne. destruct (filter _ l) as [|x k] eqn:Ef; [done |]. exfalso.
  assert (x ∈ filter (fun m => m_LastEnqueueTime m <= now) l) as [Hx Hin]%list_elem_of_filter by (rewrite Ef; left).
  pose proof (is_heap_front msg_gt (m :: l) m Hh eq_refl x ltac:(by right)) as Hle.
  unfold hle in Hle. apply msg_le_lex in Hle. lia.
Qed.

(** One buffer of the store is replaced. *)
Lemma store_evolves_set p (s : store) b mb mb' :
  vget s b = Ok mb -> evolves p mb mb' ->
  exists s', vset s b mb' = Ok s' /\ store_evolves p s s' /\ vget s' b = Ok mb' /\
    (forall j, j <> b -> vget s' j = vget s j) /\
    deliveries mb ++ store_deliveries s' ≡ₚ deliveries mb' ++ store_deliveries s.
Proof.
  intros Hb Hev. destruct (store_update s b mb mb' Hb) as (s' & Hs & Hl & Heq & Hne & Hd).
  exists s'. split_and!; try done. apply Forall2_same_length_lookup_2; [done |].
  intros i x y Hx Hy. destruct (decide (Z.of_nat i = b)) as [<-|Hi].
  - rewrite (vget_nat _ _ _ Hx) in Hb. rewrite (vget_nat _ _ _ Hy) in Heq. by simplify_eq.
  - specialize (Hne _ Hi). rewrite (vget_nat _ _ _ Hx), (vget_nat _ _ _ Hy) in Hne. injection Hne as ->. done.
Qed.

Lemma store_evolves_get p s s' b mb :
  store_evolves p s s' -> vget s b = Ok mb -> exists mb', vget s' b = Ok mb' /\ evolves p mb mb'.
Proof.
  intros H [Hb Hmb]%vget_Ok. destruct (Forall2_lookup_l _ _ _ _ _ H Hmb) as (mb' & Hmb' & Hev).
  exists mb'. split; [by apply vget_Ok | done].
Qed.

Lemma store_evolves_length p s s' : store_evolves p s s' -> length s' = length s.
Proof. intros H. symmetry. by eapply Forall2_length. Qed.

(** ** The switch and the store together *)

Definition rr_ok (p : PerfectSwitch) : Prop :=
  0 <= m_round_robin_start p /\ (m_round_robin_start p < Z.of_nat (length (ps_in p)) \/ m_round_robin_start p = 0).

(** The switch is wired: it can route what is in its input buffers, and its
    output buffers can receive. *)
Record sw_inv (p : PerfectSwitch) (s : store) : Prop := {
  si_switch : switch_ok counts p;
  si_rr : rr_ok p;
  si_wf : Forall wf_buffer s;
  si_in : forall row b, row ∈ ps_in p -> Some b ∈ row ->
    exists mb, vget s b = Ok mb /\ Forall (routable p) (m_prio_heap mb);
  si_out : forall row, row ∈ ps_out p -> ps_virtual_networks p <= Z.of_nat (length row) /\
    forall b, b ∈ row -> exists mb, vget s b = Ok mb /\ can_receive due mb;
  si_pending : ps_virtual_networks p <= Z.of_nat (length (m_pending_message_count p));
  si_ordered : se_adaptive e = true -> ps_virtual_networks p <= Z.of_nat (length (se_ordered e))
}.

(** What a wake-up leaves alone in the switch. *)
Record same_switch (p p' : PerfectSwitch) : Prop := {
  ss_in : ps_in p' = ps_in p;
  ss_out : ps_out p' = ps_out p;
  ss_table : m_routing_table p' = m_routing_table p;
  ss_vnets : ps_virtual_networks p' = ps_virtual_networks p;
  ss_pending : length (m_pending_message_count p') = length (m_pending_message_count p);
  ss_rr : rr_ok p -> rr_ok p';
  ss_links : switch_ok counts p -> switch_ok counts p'
}.

#[local] Instance same_switch_preorder : PreOrder same_switch.
Proof. split; [intros p; by split |]. intros a b c [] []. split; try congruence; auto. Qed.

Lemma routable_same p p' m : same_switch p p' -> routable p' m <-> routable p m.
Proof. intros H. unfold routable, leads_to. by rewrite (ss_table _ _ H). Qed.

Lemma evolves_same p p' b b' : same_switch p p' -> evolves p' b b' -> evolves p b b'.
Proof.
  intros H [? ? Hr ?]. split; try done. intros Hf. eapply Forall_impl; [apply Hr; eapply Forall_impl; [exact Hf |] |];
    intros m; by rewrite (routable_same p p' m H).
Qed.

Lemma store_evolves_same p p' s s' : same_switch p p' -> store_evolves p' s s' -> store_evolves p s s'.
Proof. intros H Hs. eapply Forall2_impl; [exact Hs |]. intros b b'. by apply evolves_same. Qed.

Lemma sw_inv_mono p p' s s' : same_switch p p' -> store_evolves p s s' -> sw_inv p s -> sw_inv p' s'.
Proof.
  intros Hp Hs [H1 H2 H3 H4 H5 H6 H7]. split.
  - by apply (ss_links _ _ Hp).
  - by apply (ss_rr _ _ Hp).
  - apply Forall_lookup. intros i mb' Hi. destruct (Forall2_lookup_r _ _ _ _ _ Hs Hi) as (mb & Hmb & Hev).
    apply (ev_wf _ _ _ Hev). rewrite Forall_lookup in H3. by eapply H3.
  - intros row b. rewrite (ss_in _ _ Hp). intros Hrow Hb. destruct (H4 row b Hrow Hb) as (mb & Hmb & Hf).
    destruct (store_evolves_get _ _ _ _ _ Hs Hmb) as (mb' & Hmb' & Hev). exists mb'. split; [done |].
    eapply Forall_impl; [by apply (ev_routable _ _ _ Hev) |]. intros m. by rewrite (routable_same p p' m Hp).
  - intros row. rewrite (ss_out _ _ Hp), (ss_vnets _ _ Hp). intros Hrow. destruct (H5 row Hrow) as [Hl Hb].
    split; [done |]. intros b Hin. destruct (Hb b Hin) as (mb & Hmb & Hf).
    destruct (store_evolves_get _ _ _ _ _ Hs Hmb) as (mb' & Hmb' & Hev). exists mb'. split; [done |].
    by apply (ev_receive _ _ _ Hev).
  - by rewrite (ss_vnets _ _ Hp), (ss_pending _ _ Hp).
  - by rewrite (ss_vnets _ _ Hp).
Qed.

(** ** Counting *)

Definition touches : relation store := Forall2 touch.

#[local] Instance touches_preorder : PreOrder touches.
Proof. split; apply _. Qed.

Lemma touches_evolves p s s' : touches s s' -> store_evolves p s s'.
Proof. intros H. eapply Forall2_impl; [exact H |]. intros b b'. by apply touch_evolves. Qed.

Lemma touches_deliveries s s' : touches s s' -> store_deliveries s' = store_deliveries s.
Proof.
  unfold store_deliveries. induction 1 as [|b b' s s' Hb Hs IH]; [done |]. cbn [mbind list_bind].
  by rewrite (touch_deliveries _ _ Hb), IH.
Qed.

Lemma with_buffer_touch {A} (s : store) b mb (g : MessageBuffer -> MessageBuffer * A) :
  vget s b = Ok mb -> touch mb (g mb).1 ->
  exists s', with_buffer s b (fun mb => Ok (g mb)) = Ok (s', (g mb).2) /\ touches s s'.
Proof.
  intros Hb Ht. unfold with_buffer. rewrite Hb. rsimpl.
  destruct (vset_is_ok s b (g mb).1 (vget_range _ _ _ Hb)) as [s' Hs']. rewrite Hs'. rsimpl. exists s'. split; [done |].
  apply vset_Ok in Hs' as [Hr ->]. apply vget_Ok in Hb as [_ Hb].
  rewrite <- (list_insert_id _ _ _ Hb) at 1. by apply Forall2_insert.
Qed.

Lemma out_buffer_ok p s out v :
  sw_inv p s -> 0 <= out < Z.of_nat (length (ps_out p)) -> 0 <= v < ps_virtual_networks p ->
  exists b mb, out_buffer p out v = Ok b /\ vget s b = Ok mb /\ can_receive due mb.
Proof.
  intros Hi Ho Hv. unfold out_buffer. destruct (vget_is_ok (ps_out p) out Ho) as [row Hrow]. rewrite Hrow. rsimpl.
  apply vget_Ok in Hrow as [_ Hrow]. apply list_elem_of_lookup_2 in Hrow.
  destruct (si_out _ _ Hi row Hrow) as [Hl Hb]. destruct (vget_is_ok row v) as [b Hbv]; [lia |]. rewrite Hbv.
  apply vget_Ok in Hbv as [_ Hbv]. apply list_elem_of_lookup_2 in Hbv. destruct (Hb b Hbv) as (mb & ? & ?).
  by exists b, mb.
Qed.

Lemma sw_inv_touches p s s' : touches s s' -> sw_inv p s -> sw_inv p s'.
Proof. intros Ht. apply sw_inv_mono; [done |]. by apply touches_evolves. Qed.

Lemma link_load_ok p s q out v :
  sw_inv p s -> 0 <= out < Z.of_nat (length (ps_out p)) -> 0 <= v < ps_virtual_networks p ->
  exists s' q', link_load e p (s, q) (out, v) = Ok (s', q') /\ touches s s'.
Proof.
  intros Hi Ho Hv. destruct (out_buffer_ok p s out v Hi Ho Hv) as (b & mb & Hb & Hmb & _).
  unfold out_buffer in Hb. unfold link_load. inv_res. cbn [fst snd]. rewrite E. rsimpl. rewrite Hb. rsimpl.
  destruct (with_buffer_touch s b mb (fun mb => getSize mb now) Hmb (touch_size mb now)) as (s' & -> & Ht). rsimpl.
  by eexists _, _.
Qed.

(** The links found so far: link [j] in slot [j]. *)
Definition slots_filled (n k : Z) (order : list LinkOrder) : Prop :=
  Z.of_nat (length order) = n /\ forall j, 0 <= j < k -> exists lo, vget order j = Ok lo /\ lo_link lo = j.

Lemma slots_filled_set n k order value :
  slots_filled n k order -> 0 <= k < n ->
  exists order', vset order k {| lo_link := k; lo_value := value |} = Ok order' /\ slots_filled n (k + 1) order'.
Proof.
  intros [Hl Hf] Hk. destruct (vset_is_ok order k {| lo_link := k; lo_value := value |}) as [o Ho]; [lia |].
  exists o. split; [done |]. split; [by rewrite (vset_length _ _ _ _ Ho) |]. intros j Hj.
  destruct (decide (j = k)) as [->|Hne].
  - eexists. split; [by eapply vset_get_eq | done].
  - rewrite (vset_get_ne _ _ _ _ _ Ho) by done. apply Hf. lia.
Qed.

Lemma slots_filled_links n order : slots_filled n n order -> lo_link <$> order = upto n.
Proof.
  intros [Hl Hf]. apply list_eq. intros i. rewrite list_lookup_fmap. destruct (decide (i < length order)%nat) as [Hi|Hi].
  - destruct (Hf (Z.of_nat i)) as (lo & [_ Hlo]%vget_Ok & Hj); [lia |]. rewrite Nat2Z.id in Hlo. rewrite Hlo. cbn.
    rewrite Hj. symmetry. apply lookup_seqZ. lia.
  - rewrite (lookup_ge_None_2 order) by lia. cbn. symmetry. apply lookup_ge_None_2. rewrite length_upto. lia.
Qed.

Lemma reorder_same p order :
  lo_link <$> order ≡ₚ upto (Z.of_nat (length (m_routing_table p))) -> same_switch p (p ⟨ m_link_order := order ⟩).
Proof. intros Ho. split; try done. intros [H1 H2 H3 H4]. by split. Qed.

Lemma order_links_ok p s vnet n :
  sw_inv p s -> 0 <= vnet < ps_virtual_networks p ->
  exists p' s' n', order_links sort e p vnet s n = Ok (p', s', n') /\ same_switch p p' /\ touches s s' /\
    m_pending_message_count p' = m_pending_message_count p.
Proof.
  intros Hi Hv. unfold order_links. pose proof (si_switch _ _ Hi) as Hsw.
  pose proof (switch_ok_order _ _ Hsw) as Hlen. pose proof (sk_outs _ _ Hsw) as Houts.
  destruct (se_adaptive e) eqn:Ead; [| by exists p, s, n].
  destruct (vget_is_ok (se_ordered e) vnet) as [[] ->]; [pose proof (si_ordered _ _ Hi Ead); lia | |]; rsimpl.
  - destruct (foldM_upto (fun order out => vset order out {| lo_link := out; lo_value := 0 |})
      (slots_filled (Z.of_nat (length (ps_out p)))) (Z.of_nat (length (ps_out p))) (m_link_order p)) as (o & -> & Ho).
    + lia.
    + split; [lia |]. lia.
    + intros i o Hik Ho. by apply slots_filled_set.
    + rsimpl. do 3 eexists. split; [done |]. split_and!; try done. apply reorder_same.
      by rewrite (slots_filled_links _ _ Ho), Houts.
  - destruct (foldM_upto (weigh_link e p) (fun k st => touches s st.1.1 /\ slots_filled (Z.of_nat (length (ps_out p))) k st.2)
      (Z.of_nat (length (ps_out p))) (s, n, m_link_order p)) as ([[s' n'] o] & -> & Ht & Ho).
    + lia.
    + split; [done |]. split; [cbn; lia |]. lia.
    + intros i [[s1 n1] o] Hik [Ht Ho]. cbn [fst snd] in Ht, Ho. unfold weigh_link.
      destruct (foldM_ok (fun st => touches s st.1) (link_load e p) ((fun v => (i, v)) <$> upto (ps_virtual_networks p)) (s1, 0))
        as ([s2 q] & -> & Ht2); [done | |].
      { intros [s2 q] iv Hin Ht2. apply list_elem_of_fmap in Hin as (v & -> & Hv'%elem_of_upto).
        destruct (link_load_ok p s2 q i v) as (s3 & q3 & -> & Ht3); [by eapply sw_inv_touches | done | done |].
        eexists. split; [done |]. by etrans. }
      rsimpl. destruct (slots_filled_set _ i o (i32 (Z.lor (Z.shiftl q 8) (se_random e n1))) Ho Hik) as (o' & -> & Ho').
      rsimpl. eexists. split; [done |]. by split.
    + rsimpl. do 3 eexists. split; [done |]. split_and!; try done. apply reorder_same.
      cbn [snd] in Ho. by rewrite Hsort, (slots_filled_links _ _ Ho), Houts.
Qed.

Lemma check_links_ok p s vnet outs :
  sw_inv p s -> 0 <= vnet < ps_virtual_networks p ->
  Forall (fun o => 0 <= o.1 < Z.of_nat (length (ps_out p))) outs ->
  exists s' b, foldM (check_link e p vnet) outs (s, true) = Ok (s', b) /\ touches s s'.
Proof.
  intros Hi Hv Ho. destruct (foldM_ok (fun st => touches s st.1) (check_link e p vnet) outs (s, true)) as ([s' b] & -> & Ht).
  - done.
  - intros [s1 b] o Hin Ht. cbn [fst] in Ht. rewrite Forall_forall in Ho. unfold check_link.
    destruct (out_buffer_ok p s1 o.1 vnet (sw_inv_touches _ _ _ Ht Hi) (Ho o Hin) Hv) as (ob & mb & -> & Hmb & _). rsimpl.
    destruct (with_buffer_touch s1 ob mb (fun mb => areNSlotsAvailable mb 1 now) Hmb (touch_slots mb 1 now)) as (s2 & -> & Ht2).
    rsimpl. eexists. split; [done |]. by etrans.
  - by exists s', b.
Qed.

(** ** Progress of a wake-up *)

(** What holds between two points of a wake-up while it serves [vnet]. *)
Record adv (vnet : Z) (x y : PerfectSwitch * sw_state) : Prop := {
  ad_switch : same_switch x.1 y.1;
  ad_store : store_evolves x.1 (st_bufs x.2) (st_bufs y.2);
  ad_deliveries : store_deliveries (st_bufs y.2) ≡ₚ store_deliveries (st_bufs x.2);
  ad_events : st_events x.2 `prefix_of` st_events y.2;
  ad_pending : forall v, v <> vnet -> vget (m_pending_message_count y.1) v = vget (m_pending_message_count x.1) v
}.

#[local] Instance adv_preorder vnet : PreOrder (adv vnet).
Proof.
  split; [intros x; by split |]. intros x y z [H1 H2 H3 H4 H5] [K1 K2 K3 K4 K5]. split.
  - by etrans.
  - etrans; [exact H2 |]. by eapply store_evolves_same.
  - by rewrite K3.
  - by etrans.
  - intros v Hv. by rewrite K5, H5.
Qed.

Definition inv (x : PerfectSwitch * sw_state) : Prop := sw_inv x.1 (st_bufs x.2).

Lemma adv_inv vnet x y : adv vnet x y -> inv x -> inv y.
Proof. intros [Hp Hs _ _]. by apply sw_inv_mono. Qed.

(** The copies of a message: where they go and for whom. *)
Definition sendable (p : PerfectSwitch) (mo : Message * (Z * netdest)) : Prop :=
  m_LastEnqueueTime mo.1 <= now /\ 0 <= mo.2.1 < Z.of_nat (length (ps_out p)) /\ nd_ok counts mo.2.2 /\
  forall x, nd_mem mo.2.2 x -> exists l, leads_to p l x.

Definition copy_deliveries (mo : Message * (Z * netdest)) : list (Z * machineID) := pair (payload mo.1) <$> nd_list mo.2.2.

Lemma send_copy_ok p vnet st mo :
  sw_inv p (st_bufs st) -> 0 <= vnet < ps_virtual_networks p -> sendable p mo ->
  exists st', send_copy e p vnet st mo = Ok st' /\ store_evolves p (st_bufs st) (st_bufs st') /\
    store_deliveries (st_bufs st') ≡ₚ copy_deliveries mo ++ store_deliveries (st_bufs st) /\
    st_events st `prefix_of` st_events st'.
Proof using He.
  intros Hi Hv. destruct mo as [m [out part]]. intros (Hm & Ho & Hnd & Hr). cbn [fst snd] in *. unfold send_copy.
  destruct (out_buffer_ok p (st_bufs st) out vnet Hi Ho Hv) as (b & mb & -> & Hmb & Hrc). rsimpl.
  unfold with_buffer. rewrite Hmb. rsimpl.
  assert (cyclesToTicks e 1 = se_period e) as ->.
  { unfold cyclesToTicks. rewrite Z.mul_1_r. apply u64_id. destruct He. unfold in_u64. lia. }
  destruct (enqueue_ok (se_ruby e) (se_draws e (st_draws st)) mb (m ⟨ m_Destination := part ⟩) now (se_period e))
    as (mb' & m' & -> & Hput & Hsame); [by destruct He.. | done | done |]. rsimpl.
  destruct Hsame as (Hpay & Hdest & _). cbn in Hpay, Hdest.
  destruct (store_evolves_set p (st_bufs st) b mb mb') as (s' & -> & Hev & _ & _ & Hd); [done | |].
  { eapply puts_evolves; [done | destruct He; lia | by rewrite Hdest |]. intros x. rewrite Hdest. apply Hr. }
  rsimpl. eexists. split; [done |]. cbn [st_bufs st_events]. split_and!; [done | | by apply prefix_app_r].
  rewrite (puts_deliveries _ _ _ _ Hput) in Hd.
  assert (deliveries_of m' = copy_deliveries (m, (out, part))) as Hcd.
  { unfold deliveries_of, copy_deliveries. by rewrite Hpay, Hdest. }
  rewrite Hcd in Hd. apply (Permutation_app_inv_l (deliveries mb)). rewrite Hd. solve_Permutation.
Qed.

Lemma send_copies_ok p vnet l : forall st,
  sw_inv p (st_bufs st) -> 0 <= vnet < ps_virtual_networks p -> Forall (sendable p) l ->
  exists st', foldM (send_copy e p vnet) l st = Ok st' /\ store_evolves p (st_bufs st) (st_bufs st') /\
    store_deliveries (st_bufs st') ≡ₚ (l ≫= copy_deliveries) ++ store_deliveries (st_bufs st) /\
    st_events st `prefix_of` st_events st'.
Proof using He.
  induction l as [|mo l IH]; intros st Hi Hv Hl; cbn [foldM].
  { exists st. by split_and!. }
  apply Forall_cons in Hl as [Hmo Hl]. destruct (send_copy_ok p vnet st mo Hi Hv Hmo) as (st1 & -> & Hev1 & Hd1 & Hp1).
  rsimpl. destruct (IH st1) as (st2 & -> & Hev2 & Hd2 & Hp2); [by eapply sw_inv_mono | done | done |].
  exists st2. split_and!; [done | by etrans | | by etrans].
  rewrite Hd2, Hd1. cbn [mbind list_bind]. solve_Permutation.
Qed.

Lemma copies_deliveries m m' d outs :
  payload m' = payload m -> split_dests outs ≡ₚ nd_list d -> m_Destination m = d ->
  copies m' m outs ≫= copy_deliveries ≡ₚ deliveries_of m.
Proof.
  intros Hp Hs Hd. unfold deliveries_of. rewrite Hd, <- Hs. clear Hs Hd.
  assert (forall l, ((fun o => (m, o)) <$> l) ≫= copy_deliveries = pair (payload m) <$> split_dests l) as Hl.
  { intros l. induction l as [|o l IH]; [done |]. cbn [fmap list_fmap mbind list_bind]. unfold split_dests in *.
    cbn [fmap list_fmap mbind list_bind]. rewrite fmap_app. f_equal. exact IH. }
  unfold copies. destruct outs as [|o outs]; [done |]. cbn [mbind list_bind]. rewrite Hl.
  unfold split_dests. cbn [fmap list_fmap mbind list_bind]. rewrite fmap_app. unfold copy_deliveries. cbn [fst snd].
  by rewrite Hp.
Qed.

(** ** One message *)

Lemma copies_sendable p m m' d outs :
  m_LastEnqueueTime m <= now -> m_LastEnqueueTime m' <= now ->
  (forall o, o ∈ outs -> 0 <= o.1 < Z.of_nat (length (ps_out p))) -> Forall (copy_ok counts p d) outs ->
  Forall (sendable p) (copies m' m outs).
Proof.
  intros Hm Hm' Ho Hc. assert (forall x o, m_LastEnqueueTime x <= now -> o ∈ outs -> sendable p (x, o)) as Hall.
  { intros x o Hx Hin. rewrite Forall_forall in Hc. destruct (Hc o Hin) as (Hok & _ & Hl). split_and!; try done.
    - by apply (Ho o).
    - by apply (Ho o).
    - intros y Hy. exists o.1. by apply (Hl y). }
  unfold copies. destruct outs as [|o outs]; [by apply Forall_nil |]. apply Forall_cons. split; [apply Hall; [done | left] |].
  apply Forall_forall. intros y (o' & -> & Hin)%list_elem_of_fmap. apply Hall; [done | by right].
Qed.

(** The links chosen for a message are output ports of the switch. *)
Lemma outs_range p outs :
  switch_ok counts p -> outs.*1 `sublist_of` (lo_link <$> m_link_order p) ->
  forall o : Z * netdest, o ∈ outs -> 0 <= o.1 < Z.of_nat (length (ps_out p)).
Proof.
  intros Hp Hs o Ho. rewrite (sk_outs _ _ Hp). apply elem_of_upto. rewrite <- (sk_links _ _ Hp).
  apply (sublist_submseteq _ _) in Hs. eapply elem_of_submseteq; [| exact Hs]. apply list_elem_of_fmap. by exists o.
Qed.

Definition post_message (buffer vnet : Z) (mb : MessageBuffer) (x : PerfectSwitch * sw_state)
    (r : bool * PerfectSwitch * sw_state) : Prop :=
  let y := (r.1.2, r.2) in
  adv vnet x y /\ if r.1.1 then Self 1 ∈ st_events r.2
    else exists mb', vget (st_bufs r.2) buffer = Ok mb' /\ (length (ready_heap mb') < length (ready_heap mb))%nat.

(** Taking the message out and decrementing the count. *)
Lemma pending_same p v c :
  forall pend, vset (m_pending_message_count p) v c = Ok pend ->
  same_switch p (p ⟨ m_pending_message_count := pend ⟩).
Proof. intros pend H. split; try done; [exact (vset_length _ _ _ _ H) |]. intros [? ? ? ?]. by split. Qed.

Lemma deliver_ok p st buffer mb vnet msg outs :
  sw_inv p (st_bufs st) -> 0 <= vnet < ps_virtual_networks p ->
  vget (st_bufs st) buffer = Ok mb -> isReady mb now = true -> peek mb = Ok msg ->
  outs.*1 `sublist_of` (lo_link <$> m_link_order p) -> Forall (copy_ok counts p (m_Destination msg)) outs ->
  split_dests outs ≡ₚ nd_list (m_Destination msg) ->
  exists mb' first delay evs s' count pend st',
    dequeue (se_curTick e) mb now true = Ok (mb', first, delay, evs) /\ vset (st_bufs st) buffer mb' = Ok s' /\
    vget (m_pending_message_count p) vnet = Ok count /\ vset (m_pending_message_count p) vnet (count - 1) = Ok pend /\
    (let p' := p ⟨ m_pending_message_count := pend ⟩ in
     foldM (send_copy e p' vnet) (copies first msg outs)
       {| st_bufs := s'; st_draws := st_draws st; st_events := st_events st ++ (FromBuffer buffer <$> evs) |} = Ok st' /\
     post_message buffer vnet mb (p, st) (false, p', st')).
Proof using He.
  intros Hi Hv Hmb Hr Hpk Hsub Hco Hsp.
  destruct (dequeue_ok (se_curTick e) mb now Hr) as (mb' & m & m' & delay & evs & Hdq & Hpk' & Htk & Hsame & Hlm' & Hlm).
  rewrite Hpk in Hpk'. injection Hpk' as <-. destruct Hsame as (Hpay & _ & _).
  destruct (store_evolves_set p (st_bufs st) buffer mb mb' Hmb (takes_evolves p msg mb mb' Htk Hlm))
    as (s' & Hs' & Hev & Hget & _ & Hd).
  destruct (vget_is_ok (m_pending_message_count p) vnet) as [count Hcount]; [pose proof (si_pending _ _ Hi); lia |].
  destruct (vset_is_ok (m_pending_message_count p) vnet (count - 1) (vget_range _ _ _ Hcount)) as [pend Hpend].
  pose proof (pending_same _ _ _ _ Hpend) as Hsw.
  match type of Hsw with same_switch _ ?q => set (p' := q) in * end.
  destruct (send_copies_ok p' vnet (copies m' msg outs)
    {| st_bufs := s'; st_draws := st_draws st; st_events := st_events st ++ (FromBuffer buffer <$> evs) |})
    as (st' & Hsend & Hev' & Hd' & Hpre).
  - by eapply sw_inv_mono.
  - done.
  - change (Forall (sendable p) (copies m' msg outs)). eapply copies_sendable; try done.
    apply outs_range; [apply (si_switch _ _ Hi) | done].
  - exists mb', m', delay, evs, s', count, pend, st'. split_and!; try done. fold p'. split; [exact Hsend |].
    cbn [st_bufs st_events] in *. split; cbn [fst snd].
    + split; cbn [fst snd].
      * done.
      * etrans; [exact Hev |]. by eapply store_evolves_same.
      * rewrite Hd', (copies_deliveries msg m' (m_Destination msg) outs Hpay Hsp eq_refl).
        rewrite (takes_deliveries _ _ _ Htk), <- app_assoc in Hd.
        apply (Permutation_app_inv_l (deliveries mb')). rewrite <- Hd. solve_Permutation.
      * etrans; [| exact Hpre]. by apply prefix_app_r.
      * intros v Hv'. by apply (vset_get_ne _ _ _ _ _ Hpend).
    + destruct (store_evolves_get _ _ _ _ _ Hev' Hget) as (mb2 & Hmb2 & Hev2). exists mb2. split; [done |].
      pose proof (submseteq_length _ _ (ev_ready _ _ _ Hev2)). rewrite (takes_ready _ _ _ Htk Hlm). cbn [length]. lia.
Qed.

Lemma operate_message_ok p st buffer vnet mb :
  sw_inv p (st_bufs st) -> 0 <= vnet < ps_virtual_networks p ->
  (exists row, row ∈ ps_in p /\ Some buffer ∈ row) -> vget (st_bufs st) buffer = Ok mb -> isReady mb now = true ->
  exists r, operate_message sort e buffer vnet p st = Ok r /\ post_message buffer vnet mb (p, st) r.
Proof using He Hsort.
  intros Hi Hv (row & Hrow & Hbuf) Hmb Hr. unfold operate_message. rewrite Hmb. rsimpl.
  assert (exists msg, peek mb = Ok msg /\ msg ∈ m_prio_heap mb) as (msg & Hpk & Hin).
  { unfold isReady, peek in *. destruct (m_prio_heap mb) as [|m l]; [done |]. exists m. split; [done | left]. }
  rewrite Hpk. rsimpl. pose proof (si_switch _ _ Hi) as Hsw.
  pose proof (switch_ok_order _ _ Hsw) as Hlen. pose proof (sk_outs _ _ Hsw) as Houts.
  rewrite (proj2 (Z.eqb_eq _ _)) by lia. rsimpl. rewrite (proj2 (Z.eqb_eq _ _)) by lia. rsimpl.
  destruct (order_links_ok p (st_bufs st) vnet (st_draws st) Hi Hv) as (p1 & s1 & n1 & -> & Hss & Ht1 & Hpend). rsimpl.
  assert (Hi1 : sw_inv p1 s1) by (eapply sw_inv_mono; [done | by apply touches_evolves | done]).
  destruct (si_in _ _ Hi row buffer Hrow Hbuf) as (mb0 & Hmb0 & Hrout). rewrite Hmb in Hmb0. injection Hmb0 as <-.
  pose proof (si_wf _ _ Hi) as Hwf. rewrite Forall_lookup in Hwf.
  destruct (Hwf _ mb (proj2 (proj1 (vget_Ok _ _ _) Hmb))) as [_ Hnd]. rewrite Forall_forall in Hrout, Hnd.
  destruct (route_message_ok e p1 (si_switch _ _ Hi1) (m_Destination msg)) as (outs & -> & Hsub & Hco & Hsp & _).
  { by apply Hnd. }
  { intros x Hx. apply (routable_same p p1 msg Hss); [by apply Hrout | done]. }
  rsimpl. destruct (check_links_ok p1 s1 vnet outs Hi1) as (s2 & enough & -> & Ht2).
  { by rewrite (ss_vnets _ _ Hss). }
  { apply Forall_forall. apply outs_range; [apply (si_switch _ _ Hi1) | done]. }
  rsimpl. assert (Htt : touches (st_bufs st) s2) by (by etrans).
  assert (Hbase : forall n evs, adv vnet (p, st) (p1, {| st_bufs := s2; st_draws := n; st_events := st_events st ++ evs |})).
  { intros n evs. split; cbn [fst snd st_bufs st_events].
    - done.
    - by apply touches_evolves.
    - by rewrite (touches_deliveries _ _ Htt).
    - by apply prefix_app_r.
    - intros v _. by rewrite Hpend. }
  destruct enough; cbn [negb].
  - destruct (Forall2_lookup_l _ _ _ _ _ Htt (proj2 (proj1 (vget_Ok _ _ _) Hmb))) as (mb2 & Hmb2 & Htm).
    assert (vget s2 buffer = Ok mb2) as Hg2 by (apply vget_Ok; split; [apply vget_range in Hmb; lia | done]).
    rewrite Hg2. rsimpl. pose proof (Hbase n1 []) as Hb0. rewrite app_nil_r in Hb0.
    destruct (deliver_ok p1 {| st_bufs := s2; st_draws := n1; st_events := st_events st |} buffer mb2 vnet msg outs)
      as (mb' & first & delay & evs & s' & count & pend & st' & -> & Hset & Hcnt & Hpn & Hfold & Hadv & Hready); cbn [st_bufs]; try done.
    + exact (sw_inv_touches p1 s1 s2 Ht2 Hi1).
    + by rewrite (ss_vnets _ _ Hss).
    + by rewrite (touch_ready _ _ _ Htm).
    + unfold peek. rewrite (tc_heap _ _ Htm). exact Hpk.
    + rsimpl. cbn [st_bufs st_draws st_events] in *. rewrite Hset. rsimpl. rewrite Hcnt. rsimpl. rewrite Hpn. rsimpl.
      rewrite Hfold. rsimpl. eexists. split; [done |]. split; cbn [fst snd] in *.
      * etrans; [exact Hb0 | exact Hadv].
      * destruct Hready as (mb3 & ? & Hlt). exists mb3. split; [done |]. unfold ready_heap in *. by rewrite (tc_heap _ _ Htm) in Hlt.
  - eexists. split; [done |]. split; [apply Hbase |]. cbn. apply elem_of_app. right. by apply list_elem_of_singleton.
Qed.

(** ** One buffer, one virtual network, the wake-up *)

(** Nothing is left ready in the buffer, unless the switch wakes again. *)
Definition served (st : sw_state) (b : Z) : Prop :=
  exists mb, vget (st_bufs st) b = Ok mb /\ (isReady mb now = true -> Self 1 ∈ st_events st).

Lemma evolves_not_ready p b b' : evolves p b b' -> wf_buffer b -> isReady b now = false -> isReady b' now = false.
Proof.
  intros Hev Hwf Hr. apply not_true_iff_false. rewrite ready_heap_head by (by apply (ev_wf _ _ _ Hev)). intros Hne.
  apply not_true_iff_false in Hr. apply Hr. apply ready_heap_head; [done |]. intros Hnil.
  pose proof (ev_ready _ _ _ Hev) as Hsub. rewrite Hnil in Hsub. by apply submseteq_nil_r in Hsub.
Qed.

Lemma inv_wf x b mb : inv x -> vget (st_bufs x.2) b = Ok mb -> wf_buffer mb.
Proof. intros Hi [_ Hmb]%vget_Ok. pose proof (si_wf _ _ Hi) as Hwf. rewrite Forall_lookup in Hwf. by eapply Hwf. Qed.

Lemma served_mono vnet x y b : inv x -> adv vnet x y -> served x.2 b -> served y.2 b.
Proof.
  intros Hi Ha (mb & Hmb & Hs). destruct (store_evolves_get _ _ _ _ _ (ad_store _ _ _ Ha) Hmb) as (mb' & Hmb' & Hev).
  exists mb'. split; [done |]. intros Hr. destruct (isReady mb now) eqn:E.
  - destruct (ad_events _ _ _ Ha) as [k ->]. apply elem_of_app. left. by apply Hs.
  - rewrite (evolves_not_ready _ _ _ Hev) in Hr; [done | by eapply inv_wf | done].
Qed.

Lemma operate_loop_ok fuel : forall p st buffer vnet mb,
  inv (p, st) -> 0 <= vnet < ps_virtual_networks p -> (exists row, row ∈ ps_in p /\ Some buffer ∈ row) ->
  vget (st_bufs st) buffer = Ok mb -> (length (ready_heap mb) <= fuel)%nat ->
  exists y, operate_loop sort e fuel buffer vnet p st = Ok y /\ adv vnet (p, st) y /\ served y.2 buffer.
Proof using He Hsort.
  induction fuel as [|fuel IH]; intros p st buffer vnet mb Hi Hv Hin Hmb Hf; cbn [operate_loop]; rewrite Hmb; rsimpl;
    (destruct (isReady mb now) eqn:Er;
      [| exists (p, st); split; [done |]; split; [done |]; exists mb; split; [done | by rewrite Er]]).
  - apply ready_heap_head in Er; [| exact (inv_wf (p, st) buffer mb Hi Hmb)]. destruct (ready_heap mb); [done | cbn in Hf; lia].
  - destruct (operate_message_ok p st buffer vnet mb Hi Hv Hin Hmb Er) as ([[brk p1] st1] & -> & Ha & Hpost).
    rsimpl. cbn [fst snd] in Ha, Hpost. destruct brk.
    + exists (p1, st1). split; [done |]. split; [done |].
      destruct (store_evolves_get _ _ _ _ _ (ad_store _ _ _ Ha) Hmb) as (mb' & Hmb' & _). by exists mb'.
    + destruct Hpost as (mb' & Hmb' & Hlt).
      destruct (IH p1 st1 buffer vnet mb') as (y & -> & Ha' & Hsv).
      * exact (adv_inv _ _ _ Ha Hi).
      * pose proof (ss_vnets _ _ (ad_switch _ _ _ Ha)) as Hvn. cbn in Hvn. by rewrite Hvn.
      * pose proof (ss_in _ _ (ad_switch _ _ _ Ha)) as Hpi. cbn in Hpi. by rewrite Hpi.
      * done.
      * lia.
      * exists y. split_and!; [done | by etrans | done].
Qed.

Lemma operateMessageBuffer_ok p st buffer vnet :
  inv (p, st) -> 0 <= vnet < ps_virtual_networks p -> (exists row, row ∈ ps_in p /\ Some buffer ∈ row) ->
  exists y, operateMessageBuffer sort e buffer vnet p st = Ok y /\ adv vnet (p, st) y /\ served y.2 buffer.
Proof using He Hsort.
  intros Hi Hv Hin. destruct Hin as (row & Hrow & Hb). destruct (si_in _ _ Hi row buffer Hrow Hb) as (mb & Hmb & _).
  unfold operateMessageBuffer. cbn [fst snd] in Hmb. rewrite Hmb. rsimpl. apply (operate_loop_ok _ _ _ _ _ mb); try done.
  - by exists row.
  - unfold ready_heap. apply length_filter.
Qed.

(** The input buffer of a port on a virtual network, if it has one. *)
Definition input_buffer (p : PerfectSwitch) (port vnet b : Z) : Prop :=
  exists row, vget (ps_in p) port = Ok row /\ vget row vnet = Ok (Some b).

Lemma input_buffer_same p p' port vnet b : same_switch p p' -> input_buffer p' port vnet b <-> input_buffer p port vnet b.
Proof. intros H. unfold input_buffer. by rewrite (ss_in _ _ H). Qed.

(** The port visited in round [k] of the round robin that starts after [start]. *)
Definition visited (start n k : Z) : Z := if k =? 0 then start else (start + k) mod n.

Lemma visited_next start n k :
  0 <= start < n -> 0 <= k < n ->
  (if n <=? visited start n k + 1 then 0 else visited start n k + 1) = visited start n (k + 1).
Proof.
  intros Hs Hk. unfold visited. rewrite (proj2 (Z.eqb_neq (k + 1) 0)) by lia. destruct (k =? 0) eqn:E; b2p.
  - subst k. destruct (n <=? start + 1) eqn:Ec; b2p.
    + replace (start + (0 + 1)) with (n * 1) by lia. by rewrite Z.mul_comm, Z.mod_mul by lia.
    + rewrite Z.mod_small; lia.
  - replace (start + (k + 1)) with (start + k + 1) by lia. pose proof (Z.mod_pos_bound (start + k) n ltac:(lia)) as Hb.
    rewrite (Z.add_mod (start + k) 1 n) by lia.
    destruct (decide (n = 1)) as [->|Hn]; [rewrite Z.mod_1_r in *; cbn; by rewrite Z.mod_1_r |].
    rewrite (Z.mod_small 1 n) by lia. destruct (n <=? (start + k) mod n + 1) eqn:Ec; b2p.
    + replace ((start + k) mod n + 1) with (1 * n) by lia. by rewrite Z.mod_mul by lia.
    + symmetry. apply Z.mod_small. lia.
Qed.

Lemma visited_all start n i : 0 <= start < n -> 0 <= i < n -> exists k, 0 < k <= n /\ visited start n k = i.
Proof.
  intros Hs Hi. exists ((i - start - 1) mod n + 1). pose proof (Z.mod_pos_bound (i - start - 1) n ltac:(lia)).
  split; [lia |]. unfold visited. rewrite (proj2 (Z.eqb_neq _ 0)) by lia.
  replace (start + ((i - start - 1) mod n + 1)) with (start + 1 + (i - start - 1) mod n) by lia.
  rewrite Zplus_mod_idemp_r. replace (start + 1 + (i - start - 1)) with i by lia. by apply Z.mod_small.
Qed.

Lemma operate_ports_ok p st vnet start :
  inv (p, st) -> 0 <= vnet < ps_virtual_networks p -> let n := Z.of_nat (length (ps_in p)) in
  0 <= start -> start < n \/ n = 0 ->
  exists k y, foldM (operate_port sort e vnet) (upto n) (start, p, st) = Ok (k, y.1, y.2) /\ adv vnet (p, st) y /\
    forall port b, input_buffer p port vnet b -> served y.2 b.
Proof using He Hsort.
  intros Hi Hv n Hs Hn. destruct Hn as [Hn|Hn].
  2: { exists start, (p, st). rewrite Hn. split; [done |]. split; [done |].
       intros port b (row & Hrow%vget_range & _). fold n in Hrow. lia. }
  destruct (foldM_upto (operate_port sort e vnet)
    (fun k x => x.1.1 = visited start n k /\ adv vnet (p, st) (x.1.2, x.2) /\
       forall j b, 0 < j <= k -> input_buffer p (visited start n j) vnet b -> served x.2 b)
    n (start, p, st)) as ([[k p'] st'] & Hk & _ & Ha & Hsv).
  - lia.
  - split_and!; [done | done | lia].
  - intros k [[incoming p1] st1] Hk (Hin & Ha & Hsv). cbn [fst snd] in Hin, Ha, Hsv. unfold operate_port.
    pose proof (ad_switch _ _ _ Ha) as Hss. cbn [fst] in Hss. rewrite (ss_in _ _ Hss). fold n.
    rewrite Hin, visited_next by lia.
    pose proof (Z.mod_pos_bound (start + (k + 1)) n ltac:(lia)) as Hb.
    assert (0 <= visited start n (k + 1) < n) as Hr by (unfold visited; destruct (_ =? 0); lia).
    destruct (vget_is_ok (ps_in p) (visited start n (k + 1))) as [row Hrow]; [done |]. rewrite Hrow. rsimpl.
    assert (forall y, adv vnet (p1, st1) y -> (forall b, vget row vnet = Ok (Some b) -> served y.2 b) ->
      adv vnet (p, st) y /\ forall j b, 0 < j <= k + 1 -> input_buffer p (visited start n j) vnet b -> served y.2 b) as Hdone.
    { intros y Hy Hserved. split; [by etrans |]. intros j b Hj Hib. destruct (decide (j = k + 1)) as [->|Hne].
      - destruct Hib as (row' & Hrow' & Hb'). rewrite Hrow in Hrow'. injection Hrow' as <-. by apply Hserved.
      - eapply (served_mono vnet (p1, st1)); [exact (adv_inv _ _ _ Ha Hi) | done |]. cbn. apply (Hsv j); [lia | done]. }
    destruct (Z.of_nat (length row) <=? vnet) eqn:El; b2p.
    + eexists. split; [done |]. split; [done |]. apply (Hdone (p1, st1)); [done |]. intros b Hb'%vget_range. lia.
    + destruct (vget_is_ok row vnet) as [[b|] Hbv]; [lia | |]; rewrite Hbv; rsimpl.
      * destruct (operateMessageBuffer_ok p1 st1 b vnet) as ([p2 st2] & -> & Ha2 & Hsv2).
        -- exact (adv_inv _ _ _ Ha Hi).
        -- by rewrite (ss_vnets _ _ Hss).
        -- rewrite (ss_in _ _ Hss). exists row. apply vget_Ok in Hrow as [_ Hrow], Hbv as [_ Hbv].
           by split; eapply list_elem_of_lookup_2.
        -- rsimpl. eexists. split; [done |]. split; [done |]. apply (Hdone (p2, st2)); [done |].
           intros b' Hb'. rewrite Hbv in Hb'. by injection Hb' as <-.
      * eexists. split; [done |]. split; [done |]. apply (Hdone (p1, st1)); [done |].
        intros b' Hb'. by rewrite Hbv in Hb'.
  - exists k, (p', st'). split; [done |]. split; [done |]. intros port b Hib.
    destruct (visited_all start n port) as (j & Hj & Hjp); [lia | | ].
    { destruct Hib as (row & Hrow%vget_range & _). done. }
    apply (Hsv j); [done |]. by rewrite Hjp.
Qed.

(** A buffer is looked at only while messages are pending on its network. *)
Definition pending_ok (p : PerfectSwitch) (st : sw_state) (vnet : Z) : Prop :=
  forall port b mb c, input_buffer p port vnet b -> vget (st_bufs st) b = Ok mb -> isReady mb now = true ->
    vget (m_pending_message_count p) vnet = Ok c -> 0 < c.

Lemma pending_ok_adv v vnet x y :
  inv x -> adv v x y -> vnet <> v -> pending_ok x.1 x.2 vnet -> pending_ok y.1 y.2 vnet.
Proof.
  intros Hi Ha Hne Hp port b mb' c Hib Hmb' Hr Hc. rewrite (ad_pending _ _ _ Ha) in Hc by done.
  apply (input_buffer_same _ _ _ _ _ (ad_switch _ _ _ Ha)) in Hib.
  assert (exists mb, vget (st_bufs x.2) b = Ok mb) as [mb Hmb].
  { apply vget_is_ok. apply vget_range in Hmb'. rewrite (store_evolves_length _ _ _ (ad_store _ _ _ Ha)) in Hmb'. done. }
  eapply (Hp port b mb); [done | done | | done].
  destruct (store_evolves_get _ _ _ _ _ (ad_store _ _ _ Ha) Hmb) as (mb2 & Hmb2 & Hev).
  rewrite Hmb' in Hmb2. injection Hmb2 as <-. destruct (isReady mb now) eqn:E; [done |].
  rewrite (evolves_not_ready _ _ _ Hev) in Hr; [done | by eapply inv_wf | done].
Qed.

Lemma operateVnet_ok vnet p st :
  inv (p, st) -> 0 <= vnet < ps_virtual_networks p -> pending_ok p st vnet ->
  exists y, PerfectSwitch_operateVnet sort e vnet p st = Ok y /\ adv vnet (p, st) y /\
    forall port b, input_buffer p port vnet b -> served y.2 b.
Proof using He Hsort.
  intros Hi Hv Hpend. unfold PerfectSwitch_operateVnet. pose proof (si_rr _ _ Hi) as [Hr0 Hr1]. cbn [fst] in Hr0, Hr1.
  match goal with |- context [setf m_round_robin_start ?f p] => set (p1 := setf m_round_robin_start f p) end.
  assert (same_switch p p1) as Hss.
  { split; try done.
    - intros _. split; cbn; destruct (_ <=? _) eqn:El; b2p; lia.
    - intros [? ? ? ?]. by split. }
  assert (adv vnet (p, st) (p1, st)) as Ha1 by (split; try done; by apply (store_evolves_preorder p)).
  change (m_pending_message_count p1) with (m_pending_message_count p).
  destruct (vget_is_ok (m_pending_message_count p) vnet) as [c Hc]; [pose proof (si_pending _ _ Hi); cbn [fst] in *; lia |].
  rewrite Hc. rsimpl. destruct (0 <? c) eqn:Ec; b2p.
  - destruct (operate_ports_ok p1 st vnet (m_round_robin_start p)) as (k & [p2 st2] & Hfold & Ha2 & Hsv).
    + exact (adv_inv _ _ _ Ha1 Hi).
    + done.
    + done.
    + change (ps_in p1) with (ps_in p). lia.
    + rewrite Hfold. rsimpl. exists (p2, st2). split; [done |]. split; [by etrans |].
      intros port b Hib. apply (Hsv port b). by apply (input_buffer_same _ _ _ _ _ Hss).
  - exists (p1, st). split; [done |]. split; [done |]. intros port b Hib.
    assert (exists mb, vget (st_bufs st) b = Ok mb) as [mb Hmb].
    { destruct Hib as (row & [_ Hrow%list_elem_of_lookup_2]%vget_Ok & [_ Hb%list_elem_of_lookup_2]%vget_Ok).
      destruct (si_in _ _ Hi row b Hrow Hb) as (mb & Hmb & _). by exists mb. }
    exists mb. split; [done |]. intros Hr. pose proof (Hpend port b mb c Hib Hmb Hr Hc). lia.
Qed.

Lemma operate_vnets_ok vnets : forall x,
  inv x -> NoDup vnets -> (forall v, v ∈ vnets -> 0 <= v < ps_virtual_networks x.1 /\ pending_ok x.1 x.2 v) ->
  exists y, foldM (fun ps vnet => PerfectSwitch_operateVnet sort e vnet ps.1 ps.2) vnets x = Ok y /\
    same_switch x.1 y.1 /\ inv y /\ store_deliveries (st_bufs y.2) ≡ₚ store_deliveries (st_bufs x.2) /\
    (forall b, served x.2 b -> served y.2 b) /\
    forall v port b, v ∈ vnets -> input_buffer x.1 port v b -> served y.2 b.
Proof using He Hsort.
  induction vnets as [|v vnets IH]; intros x Hi Hnd Hv; cbn [foldM].
  { exists x. split_and!; try done. intros v port b Hin. by apply not_elem_of_nil in Hin. }
  apply NoDup_cons in Hnd as [Hnin Hnd]. destruct (Hv v) as [Hvr Hvp]; [left |].
  destruct x as [p st]. cbn [fst snd] in *. destruct (operateVnet_ok v p st Hi Hvr Hvp) as (x1 & -> & Ha & Hsv). rsimpl.
  pose proof (ad_switch _ _ _ Ha) as Hss. cbn [fst] in Hss.
  destruct (IH x1) as (y & -> & Hss' & Hi' & Hd & Hmono & Hsv').
  - exact (adv_inv _ _ _ Ha Hi).
  - done.
  - intros w Hw. destruct (Hv w) as [Hwr Hwp]; [by right |]. rewrite (ss_vnets _ _ Hss). split; [done |].
    apply (pending_ok_adv v w (p, st) x1); [done | done | | done]. intros ->. done.
  - exists y. split_and!; [done | by etrans | done | | |].
    + rewrite Hd. exact (ad_deliveries _ _ _ Ha).
    + intros b Hb. apply Hmono. exact (served_mono _ (p, st) _ _ Hi Ha Hb).
    + intros w port b Hw Hib. apply elem_of_cons in Hw as [->|Hw].
      * apply Hmono. by apply (Hsv port b).
      * apply (Hsv' w port b Hw). by apply (input_buffer_same _ _ _ _ _ Hss).
Qed.

Lemma elem_of_vnet_order inverted n v : v ∈ vnet_order inverted n <-> 0 <= v < n.
Proof. unfold vnet_order. destruct inverted; rewrite ?elem_of_reverse; apply elem_of_upto. Qed.

Lemma NoDup_vnet_order inverted n : NoDup (vnet_order inverted n).
Proof. unfold vnet_order. destruct inverted; [| rewrite reverse_Permutation]; apply NoDup_seqZ. Qed.

Lemma wakeup_ok p st :
  inv (p, st) -> (forall v, 0 <= v < ps_virtual_networks p -> pending_ok p st v) ->
  exists y, PerfectSwitch_wakeup sort e p st = Ok y /\ inv y /\
    store_deliveries (st_bufs y.2) ≡ₚ store_deliveries (st_bufs st) /\
    forall v port b, 0 <= v < ps_virtual_networks p -> input_buffer p port v b -> served y.2 b.
Proof using He Hsort.
  intros Hi Hp. unfold PerfectSwitch_wakeup.
  match goal with |- context [setf ps_wakeups_wo_switch ?f p] => set (p1 := setf ps_wakeups_wo_switch f p) end.
  assert (same_switch p p1) as Hss by (split; try done; intros [? ? ? ?]; by split).
  destruct (operate_vnets_ok (vnet_order (PRIORITY_SWITCH_LIMIT <? ps_wakeups_wo_switch p + 1) (ps_virtual_networks p1)) (p1, st))
    as (y & Hy & _ & Hi' & Hd & _ & Hsv).
  - exact (sw_inv_mono _ _ _ _ Hss (reflexivity _) Hi).
  - apply NoDup_vnet_order.
  - intros v Hv%elem_of_vnet_order. split; [done |]. by apply Hp.
  - exists y. split_and!; [exact Hy | done | exact Hd |]. intros v port b Hv Hib. apply (Hsv v port b); [| done].
    by apply elem_of_vnet_order.
Qed.
End Forward.

(** C9.  A switch loses nothing, duplicates nothing and forgets nothing: from
    any state in which the switch is wired and can route what waits in its
    input buffers, a wake-up returns (no assertion fails, the loops end), the
    deliveries still due over the whole store - pairs of a payload and a
    destination machine - are the same multiset before and after, whatever the
    order of the links, the sort of the links by load, the random bits and the
    buffers that are full; and an input buffer that still has a message ready
    afterwards has made the switch schedule itself for the next cycle.  The
    state reached is wired again. *)
Theorem switch_wakeup_forwards (sort : list LinkOrder -> list LinkOrder) (e : sn_env) (p : PerfectSwitch) (st : sw_state) :
  (forall l, sort l ≡ₚ l) -> env_ok e -> sw_inv e p (st_bufs st) ->
  (forall v, 0 <= v < ps_virtual_networks p -> pending_ok e p st v) ->
  exists p' st', PerfectSwitch_wakeup sort e p st = Ok (p', st') /\ sw_inv e p' (st_bufs st') /\
    store_deliveries (st_bufs st') ≡ₚ store_deliveries (st_bufs st) /\
    forall v port b, 0 <= v < ps_virtual_networks p -> input_buffer p port v b ->
      exists mb, vget (st_bufs st') b = Ok mb /\ (isReady mb (se_now e) = true -> Self 1 ∈ st_events st').
Proof.
  intros Hsort He Hi Hp. destruct (wakeup_ok sort e Hsort He p st Hi Hp) as ([p' st'] & Hw & Hi' & Hd & Hsv).
  by exists p', st'.
Qed.

(** ** A multicast message waits in the input buffer of the switch with two links *)
Definition load_le (a b : LinkOrder) : Prop := lo_value a <= lo_value b.
#[export] Instance load_le_dec : RelDecision load_le.
Proof. intros a b. unfold load_le. apply _. Defined.
Definition by_load : list LinkOrder -> list LinkOrder := merge_sort load_le.

Definition demo_message : Message :=
  {| m_time := 100; m_LastEnqueueTime := 900; m_DelayedTicks := 0; msg_counter := 1; incoming_link := 0; vnet := 0;
     m_Destination := demo_dest; m_MessageSize := Control; payload := 7 |}.
Definition demo_buffer (size consumer : Z) (heap : list Message) : MessageBuffer :=
  MessageBuffer_ctor size true false ⟨ m_consumer := Some consumer ⟩ ⟨ m_prio_heap := heap ⟩.
Definition demo_state : sw_state :=
  {| st_bufs := [demo_buffer 0 0 [demo_message]; demo_buffer 2 1 []; demo_buffer 2 2 []]; st_draws := 0; st_events := [] |}.
Definition demo_wired : PerfectSwitch :=
  demo_switch ⟨ ps_in := [[Some 0]] ⟩ ⟨ m_pending_message_count := [1] ⟩.

Lemma demo_buffer_wf size c heap :
  (length heap <= 1)%nat -> Forall (fun m => nd_ok demo_counts (m_Destination m)) heap ->
  wf_buffer demo_env (demo_buffer size c heap).
Proof.
  intros Hl Hf. split; [| done]. split; [| done]. destruct heap as [|m [|? ?]]; [apply is_heap_nil | | cbn in Hl; lia].
  exact (heap_insert_heap msg_gt [] m (is_heap_nil msg_gt)).
Qed.

Lemma demo_inv : sw_inv demo_env demo_wired (st_bufs demo_state).
Proof.
  split.
  - destruct demo_switch_ok. by split.
  - by split; [| left].
  - repeat (apply Forall_cons; split; [apply demo_buffer_wf; [cbn; lia |] |]); try by apply Forall_nil.
    apply Forall_singleton. apply demo_nd; lia.
  - intros row b ->%list_elem_of_singleton [= ->]%list_elem_of_singleton. eexists. split; [reflexivity |].
    apply Forall_singleton. intros x. apply demo_covered.
  - assert (forall b, b ∈ [1; 2] -> exists mb, vget (st_bufs demo_state) b = Ok mb /\
      can_receive (se_now demo_env + se_period demo_env) mb) as Hb.
    { intros b [-> | [-> | []%not_elem_of_nil]%elem_of_cons]%elem_of_cons; eexists; (split; [reflexivity |]); by split_and!. }
    intros row [-> | [-> | []%not_elem_of_nil]%elem_of_cons]%elem_of_cons; (split; [cbn; lia |]);
      intros b ->%list_elem_of_singleton; apply Hb; [left | right; left].
  - cbn. lia.
  - cbn. lia.
Qed.

Lemma switch_wakeup_forwards_witness :
  exists p' st', PerfectSwitch_wakeup by_load demo_env demo_wired demo_state = Ok (p', st') /\
    store_deliveries (st_bufs st') ≡ₚ [(7, MachineID 0 0); (7, MachineID 0 1); (7, MachineID 1 0)].
Proof.
  destruct (switch_wakeup_forwards by_load demo_env demo_wired demo_state) as (p' & st' & Hw & _ & Hd & _).
  - apply merge_sort_Permutation.
  - by split.
  - exact demo_inv.
  - intros v Hv port b mb c _ _ _ Hc. cbn in Hv. assert (v = 0) as -> by lia. by injection Hc as <-.
  - exists p', st'. split; [exact Hw | exact Hd].
Defined.
