(* ===== verification/ThrottleProofs.v ===== *)
(** * A wake-up of a throttle

    [Throttle::wakeup] as a server of bounded bandwidth: it runs to its end,
    loses no message, serves exactly the bandwidth of the link unless there is
    nothing it can send, and wakes again whenever it leaves work behind.  Work
    is counted in units of a message's size: what is left of the message under
    way on a virtual network and the messages still in its input buffer. *)
From S2P Require Import Prelude StdHeap NetDest Topology Common MessageBuffer Flit Network SimpleNetwork BufferStore.

Section Throttling.
Context (net : Network).
Context (e : sn_env).
Notation now := (se_now e).

(** Message sizes fit an [int] after scaling. *)
Definition sizes_ok : Prop := forall ty, 0 <= MessageSizeType_to_int net ty * MESSAGE_SIZE_MULTIPLIER < 2 ^ 31.
Context (Hsz : sizes_ok).

Definition msg_units (m : Message) : Z := MessageSizeType_to_int net (m_MessageSize m) * MESSAGE_SIZE_MULTIPLIER.
Definition heap_units (b : MessageBuffer) : Z := foldr (fun m n => msg_units m + n) 0 (m_prio_heap b).

Lemma msg_units_range m : 0 <= msg_units m < 2 ^ 31.
Proof using Hsz. apply Hsz. Qed.

Lemma network_message_to_size_eq m : network_message_to_size net m = msg_units m.
Proof using Hsz.
  pose proof (msg_units_range m) as H. unfold network_message_to_size, msg_units in *. unfold MESSAGE_SIZE_MULTIPLIER in *.
  rewrite (i32_id (MessageSizeType_to_int net (m_MessageSize m))) by (unfold in_i32; lia).
  apply i32_id. unfold in_i32. lia.
Qed.

Lemma heap_units_perm b b' l :
  m_prio_heap b ≡ₚ l -> m_prio_heap b' = l -> heap_units b = heap_units b'.
Proof.
  intros Hl Hb. unfold heap_units. rewrite Hb. clear Hb. induction Hl; cbn [foldr]; lia.
Qed.

Lemma takes_units m b b' : takes m b b' -> heap_units b = msg_units m + heap_units b'.
Proof.
  intros H. unfold heap_units. pose proof (heap_remove_Permutation msg_gt _ _ (tk_head _ _ _ H)) as Hp.
  rewrite (tk_heap _ _ _ H). change (msg_units m + ?f) with (foldr (fun m n => msg_units m + n) 0 (m :: heap_remove msg_gt (m_prio_heap b))).
  clear H. induction Hp; cbn [foldr]; lia.
Qed.

Lemma touch_units b b' : touch b b' -> heap_units b' = heap_units b.
Proof. intros H. unfold heap_units. by rewrite (tc_heap _ _ H). Qed.

(** ** The loop of one virtual network *)

Definition ready_count (b : MessageBuffer) : nat := length (filter (fun m => m_LastEnqueueTime m <= now) (m_prio_heap b)).

Lemma takes_ready_count m b b' : takes m b b' -> m_LastEnqueueTime m <= now -> ready_count b = S (ready_count b').
Proof.
  intros H Hm. unfold ready_count. rewrite (heap_remove_Permutation msg_gt _ _ (tk_head _ _ _ H)).
  rewrite filter_cons_True by done. by rewrite (tk_heap _ _ _ H).
Qed.

Lemma ready_positive b : isReady b now = true -> (0 < ready_count b)%nat.
Proof.
  unfold isReady, ready_count. destruct (m_prio_heap b) as [|m l]; [done |]. intros H. rewrite filter_cons_True by lia.
  cbn. lia.
Qed.

(** When messages put into the output buffer arrive. *)
Context (latency : Z).
Notation due := (now + se_period e * latency).

Record th_env_ok : Prop := {
  tk_now : 0 <= now;
  tk_latency : 0 < se_period e * latency;
  tk_range : due < 2 ^ 64;
  tk_random : getRandomization (se_ruby e) = false
}.
Context (He : th_env_ok).

(** The virtual network [v] of a throttle: its two buffers, the units left of
    the message under way, the bandwidth left. *)
Record link_state (v inb outb : Z) (x : Throttle * Z * th_state) (u : Z) (ib ob : MessageBuffer) : Prop := {
  ls_units : vget (m_units_remaining x.1.1) v = Ok u;
  ls_range : 0 <= u < 2 ^ 31;
  ls_bw : 0 <= x.1.2 < 2 ^ 31;
  ls_latency : th_link_latency x.1.1 = latency;
  ls_in : vget (ts_bufs x.2) inb = Ok ib;
  ls_out : vget (ts_bufs x.2) outb = Ok ob;
  ls_in_ok : mb_ok ib;
  ls_out_ok : mb_ok ob;
  ls_receive : can_receive due ob
}.

(** What serving the virtual network does to everything else, and the account
    of the bandwidth. *)
Record serves (v inb outb : Z) (x y : Throttle * Z * th_state) : Prop := {
  sv_throttle : y.1.1 = x.1.1 ⟨ m_units_remaining := m_units_remaining y.1.1 ⟩;
  sv_units : length (m_units_remaining y.1.1) = length (m_units_remaining x.1.1);
  sv_other_units : forall w, w <> v -> vget (m_units_remaining y.1.1) w = vget (m_units_remaining x.1.1) w;
  sv_length : length (ts_bufs y.2) = length (ts_bufs x.2);
  sv_other_bufs : forall b, b <> inb -> b <> outb -> vget (ts_bufs y.2) b = vget (ts_bufs x.2) b;
  sv_deliveries : store_deliveries (ts_bufs y.2) ≡ₚ store_deliveries (ts_bufs x.2);
  sv_events : ts_events x.2 `prefix_of` ts_events y.2;
  sv_bw : y.1.2 <= x.1.2;
  sv_account : forall u ib ob, link_state v inb outb x u ib ob -> exists u' ib' ob', link_state v inb outb y u' ib' ob' /\
    u + heap_units ib + y.1.2 = u' + heap_units ib' + x.1.2
}.

#[local] Instance serves_preorder v inb outb : PreOrder (serves v inb outb).
Proof.
  split.
  - intros [[t bw] st]. split; try done; [by destruct t |]. intros u ib ob H. exists u, ib, ob. split; [done | lia].
  - intros x y z [H1 H2 H3 H4 H5 H6 H7 H9 H8] [K1 K2 K3 K4 K5 K6 K7 K9 K8]. split; try congruence; try lia.
    + rewrite K1, H1. done.
    + intros w Hw. by rewrite K3, H3.
    + intros b Hb Hb'. by rewrite K5, H5.
    + by rewrite K6.
    + by etrans.
    + intros u ib ob Hls. destruct (H8 _ _ _ Hls) as (u1 & ib1 & ob1 & Hls1 & Ha1).
      destruct (K8 _ _ _ Hls1) as (u2 & ib2 & ob2 & Hls2 & Ha2). exists u2, ib2, ob2. split; [done | lia].
Qed.

Lemma spend_ok v inb outb t bw st u ib ob :
  link_state v inb outb (t, bw, st) u ib ob ->
  exists t', spend t v bw = Ok (t', Z.max 0 (bw - u)) /\ serves v inb outb (t, bw, st) (t', Z.max 0 (bw - u), st) /\
    link_state v inb outb (t', Z.max 0 (bw - u), st) (Z.max 0 (u - bw)) ib ob.
Proof.
  intros Hls. pose proof Hls as [H1 H2 H3 H4 H5 H6 H7 H8 H9]. cbn [fst snd] in *. unfold spend. rewrite H1. rsimpl.
  rewrite (i32_id (u - bw)) by (unfold in_i32; lia). rewrite (i32_id (- (u - bw))) by (unfold in_i32; lia).
  destruct (vset_is_ok (m_units_remaining t) v (Z.max 0 (u - bw)) (vget_range _ _ _ H1)) as [us Hus]. rewrite Hus. rsimpl.
  replace (- (u - bw)) with (bw - u) by lia. eexists. split; [done |].
  match goal with |- serves _ _ _ _ (?q, _, _) /\ _ => set (t' := q) end.
  assert (link_state v inb outb (t', Z.max 0 (bw - u), st) (Z.max 0 (u - bw)) ib ob) as Hls'.
  { split; cbn; try done; [by eapply vset_get_eq | lia | lia]. }
  split; [| done]. split; cbn; try done.
  - by eapply vset_length.
  - intros w Hw. by eapply vset_get_ne.
  - lia.
  - intros u0 ib0 ob0 [K1 _ _ _ K5 K6 _ _ _]. cbn in *. simplify_eq. rewrite H1 in K1. rewrite H5 in K5. simplify_eq.
    do 3 eexists. split; [done |]. lia.
Qed.

Lemma cyclesToTicks_latency : cyclesToTicks e latency = se_period e * latency.
Proof using He. unfold cyclesToTicks. apply u64_id. destruct He. unfold in_u64. lia. Qed.

(** A message crosses from the input to the output buffer. *)
Lemma move_message_ok v inb outb t bw st ib ob :
  inb <> outb -> link_state v inb outb (t, bw, st) 0 ib ob -> isReady ib now = true ->
  exists t' st' u ib' ob', move_message net e t v inb outb st = Ok (t', st') /\
    serves v inb outb (t, bw, st) (t', bw, st') /\ link_state v inb outb (t', bw, st') u ib' ob' /\
    ready_count ib = S (ready_count ib').
Proof using He Hsz.
  intros Hne Hls Hr. pose proof Hls as [H1 H2 H3 H4 H5 H6 H7 H8 H9]. cbn [fst snd] in *. unfold move_message. rewrite H5. rsimpl.
  destruct (dequeue_ok (se_curTick e) ib now Hr) as (ib' & m & m' & delay & evs & -> & -> & Htk & Hsame & Hlm' & Hlm). rsimpl.
  rewrite H1. rsimpl. rewrite network_message_to_size_eq. pose proof (msg_units_range m) as Hmu.
  rewrite (i32_id (0 + msg_units m)) by (unfold in_i32; lia).
  destruct (vset_is_ok (m_units_remaining t) v (0 + msg_units m) (vget_range _ _ _ H1)) as [us Hus]. rewrite Hus. rsimpl.
  destruct (store_update (ts_bufs st) inb ib ib' H5) as (s1 & -> & Hl1 & Hg1 & Hne1 & Hd1). rsimpl.
  unfold with_buffer. rewrite Hne1, H6 by done. rsimpl. rewrite H4, cyclesToTicks_latency.
  destruct (enqueue_ok (se_ruby e) (se_draws e (ts_draws st)) ob m' now (se_period e * latency))
    as (ob' & m2 & -> & Hput & Hsame2); [by destruct He.. | done | done |]. rsimpl.
  assert (vget s1 outb = Ok ob) as Hso by (by rewrite Hne1).
  destruct (store_update s1 outb ob ob' Hso) as (s2 & -> & Hl2 & Hg2 & Hne2 & Hd2). rsimpl.
  do 3 eexists. exists ib', ob'. split; [done |]. rewrite <- H4.
  match goal with |- serves _ _ _ _ (?q, _, ?r) /\ _ => set (t' := q); set (st' := r) end. rewrite H4 in *.
  assert (link_state v inb outb (t', bw, st') (0 + msg_units m) ib' ob') as Hls'.
  { split; cbn; try done.
    - by eapply vset_get_eq.
    - rewrite Hne2 by done. done.
    - by eapply takes_mb_ok.
    - by eapply puts_mb_ok.
    - eapply puts_can_receive; [done | lia | done]. }
  split_and!; [| exact Hls' | by eapply takes_ready_count].
  split; cbn; try done.
  - by eapply vset_length.
  - intros w Hw. by eapply vset_get_ne.
  - by rewrite Hl2, Hl1.
  - intros b Hb Hb'. by rewrite Hne2, Hne1.
  - rewrite (takes_deliveries _ _ _ Htk), <- app_assoc in Hd1. rewrite (puts_deliveries _ _ _ _ Hput) in Hd2.
    rewrite (same_message_deliveries _ _ Hsame2), (same_message_deliveries _ _ Hsame) in Hd2.
    apply (Permutation_app_inv_l (deliveries ob)). rewrite Hd2.
    apply (Permutation_app_inv_l (deliveries ib')). 
    transitivity (deliveries ob ++ (deliveries_of m ++ deliveries ib' ++ store_deliveries s1)); [solve_Permutation |].
    rewrite Hd1. solve_Permutation.
  - by apply prefix_app_r.
  - intros u0 ib0 ob0 [K1 _ _ _ K5 K6 _ _ _]. cbn in *. rewrite H1 in K1. rewrite H5 in K5. simplify_eq.
    exists (0 + msg_units m), ib', ob'. split; [done |]. rewrite (takes_units _ _ _ Htk). lia.
Qed.

(** The test of the loop counts a refusal, and says whether there is work, room
    and bandwidth. *)
Definition works (u : Z) (ib : MessageBuffer) : bool := isReady ib now || (0 <? u).
Definition room (ob : MessageBuffer) : bool := (areNSlotsAvailable ob 1 now).2.

Lemma has_work_ok t v inb s u ib :
  vget (m_units_remaining t) v = Ok u -> vget s inb = Ok ib -> has_work e t v inb s = Ok (works u ib).
Proof.
  intros Hu Hi. unfold has_work, works. rewrite Hi. rsimpl. destruct (isReady ib now); [done |]. rewrite Hu. done.
Qed.

Lemma room_again b : room (areNSlotsAvailable b 1 now).1 = room b.
Proof.
  destruct (areNSlots_same b 1 now) as [c ->]. unfold room, areNSlotsAvailable. fields.
  destruct (m_max_size b =? 0); [done |]. destruct (m_time_last_time_pop b <? now); by destruct (_ <=? _).
Qed.

Lemma ask_room_ok v inb outb t bw st u ib ob :
  inb <> outb -> link_state v inb outb (t, bw, st) u ib ob ->
  exists s', with_buffer (ts_bufs st) outb (fun ob => Ok (areNSlotsAvailable ob 1 now)) = Ok (s', room ob) /\
    let st' := {| ts_bufs := s'; ts_draws := ts_draws st; ts_events := ts_events st |} in
    serves v inb outb (t, bw, st) (t, bw, st') /\
    link_state v inb outb (t, bw, st') u ib (areNSlotsAvailable ob 1 now).1.
Proof.
  intros Hne Hls. pose proof Hls as [H1 H2 H3 H4 H5 H6 H7 H8 H9]. cbn [fst snd] in *. unfold with_buffer. rewrite H6. rsimpl.
  pose proof (touch_slots ob 1 now) as Ht. set (ob' := (areNSlotsAvailable ob 1 now).1) in *.
  destruct (store_update (ts_bufs st) outb ob ob' H6) as (s' & -> & Hl & Hg & Hne' & Hd). rsimpl. eexists. split; [done |].
  set (st' := {| ts_bufs := s' |}). assert (link_state v inb outb (t, bw, st') u ib ob') as Hls'.
  { split; cbn; try done; [by rewrite Hne' | by eapply touch_mb_ok | by eapply touch_can_receive]. }
  split; [| done]. split; cbn; try done.
  - by destruct t.
  - intros b Hb Hb'. by rewrite Hne'.
  - rewrite (touch_deliveries _ _ Ht) in Hd. by apply Permutation_app_inv_l in Hd.
  - intros u0 ib0 ob0 [K1 _ _ _ K5 K6 _ _ _]. cbn in *. rewrite H1 in K1. rewrite H5 in K5. simplify_eq.
    do 3 eexists. split; [done |]. lia.
Qed.

Definition cost (bw u : Z) (ib : MessageBuffer) : nat :=
  if bw =? 0 then O else (ready_count ib + (if (0 <? u)%Z then 1 else 0))%nat.

(** The loop stops only when something is missing. *)
Definition stuck (bw u : Z) (ib ob : MessageBuffer) : Prop := bw = 0 \/ works u ib = false \/ room ob = false.

Lemma may_send_ok v inb outb t bw st u ib ob :
  inb <> outb -> link_state v inb outb (t, bw, st) u ib ob ->
  exists s' b ob', may_send e t v bw inb outb (ts_bufs st) = Ok (s', b) /\
    let st' := {| ts_bufs := s'; ts_draws := ts_draws st; ts_events := ts_events st |} in
    serves v inb outb (t, bw, st) (t, bw, st') /\ link_state v inb outb (t, bw, st') u ib ob' /\
    if b then 0 < bw /\ works u ib = true else stuck bw u ib ob'.
Proof.
  intros Hne Hls. pose proof Hls as [H1 H2 H3 H4 H5 H6 H7 H8 H9]. cbn [fst snd] in *. unfold may_send, stuck.
  assert (Hsame : {| ts_bufs := ts_bufs st; ts_draws := ts_draws st; ts_events := ts_events st |} = st) by by destruct st.
  destruct (0 <? bw) eqn:Eb; b2p.
  2: { exists (ts_bufs st), false, ob. cbn zeta. rewrite Hsame. split_and!; [done | done | done |]. left. lia. }
  rewrite (has_work_ok _ _ _ _ _ _ H1 H5). rsimpl. destruct (works u ib) eqn:Ew.
  2: { exists (ts_bufs st), false, ob. cbn zeta. rewrite Hsame. split_and!; [done | done | done |]. by right; left. }
  destruct (ask_room_ok v inb outb t bw st u ib ob Hne Hls) as (s' & -> & Hsv & Hls').
  exists s', (room ob), (areNSlotsAvailable ob 1 now).1. cbn zeta in *. split_and!; [done | done | done |].
  destruct (room ob) eqn:Er; [done |]. right. right. by rewrite room_again.
Qed.

Lemma throttle_loop_ok fuel : forall v inb outb t bw st u ib ob,
  inb <> outb -> link_state v inb outb (t, bw, st) u ib ob -> (cost bw u ib <= fuel)%nat ->
  exists y u' ib' ob', throttle_loop net e fuel v inb outb t bw st = Ok y /\ serves v inb outb (t, bw, st) y /\
    link_state v inb outb y u' ib' ob' /\ stuck y.1.2 u' ib' ob'.
Proof using He Hsz.
  induction fuel as [|fuel IH]; intros v inb outb t bw st u ib ob Hne Hls Hc; cbn [throttle_loop];
    destruct (may_send_ok v inb outb t bw st u ib ob Hne Hls) as (s1 & b & ob1 & -> & Hsv1 & Hls1 & Hb); rsimpl;
    cbn zeta in *; set (st1 := {| ts_bufs := s1 |}) in *;
    (destruct b; [| by exists (t, bw, st1), u, ib, ob1]); destruct Hb as [Hbw Hw].
  - exfalso. unfold cost in Hc. rewrite (proj2 (Z.eqb_neq bw 0)) in Hc by lia. unfold works in Hw.
    apply orb_true_iff in Hw as [Hr|Hu]; [apply ready_positive in Hr; lia |]. rewrite Hu in Hc. lia.
  - pose proof (ls_units _ _ _ _ _ _ _ Hls1) as Hu1. pose proof (ls_in _ _ _ _ _ _ _ Hls1) as Hi1. cbn [fst snd] in Hu1, Hi1.
    rewrite Hu1. rsimpl. rewrite Hi1. rsimpl.
    assert (exists t2 st2 u2 ib2 ob2, (if (u =? 0) && isReady ib now then move_message net e t v inb outb st1 else Ok (t, st1)) = Ok (t2, st2) /\
      serves v inb outb (t, bw, st1) (t2, bw, st2) /\ link_state v inb outb (t2, bw, st2) u2 ib2 ob2 /\
      (ready_count ib2 < ready_count ib + (if (0 <? u)%Z then 1 else 0))%nat)
      as (t2 & st2 & u2 & ib2 & ob2 & -> & Hsv2 & Hls2 & Hlt).
    { destruct (u =? 0) eqn:Eu; b2p; cbn [andb].
      - subst u. unfold works in Hw. cbn in Hw. rewrite orb_false_r in Hw. rewrite Hw.
        destruct (move_message_ok v inb outb t bw st1 ib ob1 Hne Hls1 Hw) as (t2 & st2 & u2 & ib2 & ob2 & -> & ? & ? & Hrc).
        exists t2, st2, u2, ib2, ob2. split_and!; try done. cbn. lia.
      - pose proof (ls_range _ _ _ _ _ _ _ Hls1). exists t, st1, u, ib, ob1. split_and!; try done.
        rewrite (proj2 (Z.ltb_lt 0 u)) by lia. lia. }
    rsimpl. destruct (spend_ok v inb outb t2 bw st2 u2 ib2 ob2 Hls2) as (t3 & -> & Hsv3 & Hls3). rsimpl.
    destruct (IH v inb outb t3 (Z.max 0 (bw - u2)) st2 _ ib2 ob2 Hne Hls3) as (y & u' & ib' & ob' & -> & Hsv & Hls' & Hst).
    { unfold cost in *. rewrite (proj2 (Z.eqb_neq bw 0)) in Hc by lia. destruct (Z.max 0 (bw - u2) =? 0) eqn:Em; b2p; [lia |].
      rewrite (proj2 (Z.ltb_ge 0 (Z.max 0 (u2 - bw)))) by lia. destruct (0 <? u); lia. }
    exists y, u', ib', ob'. split_and!; try done. etrans; [exact Hsv1 |]. etrans; [exact Hsv2 |]. by etrans.
Qed.

(** ** All virtual networks *)

Abbreviation vstate := (Throttle * Z * bool * th_state)%type.
Definition core (x : vstate) : Throttle * Z * th_state := (x.1.1.1, x.1.1.2, x.2).

(** Virtual network [v] carries messages from [inb] to [outb]. *)
Definition link_of (t : Throttle) (v inb outb : Z) : Prop :=
  vget (th_in t) v = Ok (Some inb) /\ vget (th_out t) v = Ok (Some outb).

(** A wired throttle: every virtual network has its own buffers. *)
Record th_inv (t : Throttle) (s : store) : Prop := {
  ti_in : Z.of_nat (length (th_in t)) = th_vnets t;
  ti_out : Z.of_nat (length (th_out t)) = th_vnets t;
  ti_len : Z.of_nat (length (m_units_remaining t)) = th_vnets t;
  ti_latency : th_link_latency t = latency;
  ti_units : Forall (fun u => 0 <= u < 2 ^ 31) (m_units_remaining t);
  ti_bufs : forall v inb outb, link_of t v inb outb -> inb <> outb /\
    exists ib ob, vget s inb = Ok ib /\ vget s outb = Ok ob /\ mb_ok ib /\ mb_ok ob /\ can_receive due ob;
  ti_apart : forall v w inb outb inb' outb', link_of t v inb outb -> link_of t w inb' outb' -> v <> w ->
    inb <> inb' /\ inb <> outb' /\ outb <> inb' /\ outb <> outb'
}.

Lemma th_inv_link t bw st v inb outb :
  th_inv t (ts_bufs st) -> 0 <= bw < 2 ^ 31 -> link_of t v inb outb ->
  inb <> outb /\ exists u ib ob, link_state v inb outb (t, bw, st) u ib ob.
Proof.
  intros Hi Hbw Hl. destruct (ti_bufs _ _ Hi _ _ _ Hl) as (Hne & ib & ob & H1 & H2 & H3 & H4 & H5). split; [done |].
  destruct (vget_is_ok (m_units_remaining t) v) as [u Hu].
  { rewrite (ti_len _ _ Hi), <- (ti_in _ _ Hi). by eapply vget_range, Hl. }
  exists u, ib, ob. split; try done; [| apply (ti_latency _ _ Hi)].
  pose proof (ti_units _ _ Hi) as Hf. rewrite Forall_lookup in Hf. apply vget_Ok in Hu as [_ Hu]. by eapply Hf.
Qed.

Lemma serves_config v inb outb x y : serves v inb outb x y ->
  th_in y.1.1 = th_in x.1.1 /\ th_out y.1.1 = th_out x.1.1 /\ th_vnets y.1.1 = th_vnets x.1.1 /\
  th_link_latency y.1.1 = th_link_latency x.1.1 /\ getLinkBandwidth y.1.1 = getLinkBandwidth x.1.1.
Proof. intros H. rewrite (sv_throttle _ _ _ _ _ H). done. Qed.

Lemma link_of_serves v inb outb x y w a b : serves v inb outb x y -> link_of y.1.1 w a b <-> link_of x.1.1 w a b.
Proof. intros (H1 & H2 & _)%serves_config. unfold link_of. by rewrite H1, H2. Qed.

(** The state of another virtual network is left alone. *)
Lemma serves_other v inb outb x y w a b u ib ob :
  serves v inb outb x y -> th_inv x.1.1 (ts_bufs x.2) -> 0 <= y.1.2 -> link_of x.1.1 v inb outb -> link_of x.1.1 w a b -> v <> w ->
  link_state w a b x u ib ob -> link_state w a b y u ib ob.
Proof.
  intros Hs Hi Hbw Hv Hw Hne [H1 H2 H3 H4 H5 H6 H7 H8 H9].
  destruct (ti_apart _ _ Hi _ _ _ _ _ _ Hv Hw Hne) as (? & ? & ? & ?).
  destruct (serves_config _ _ _ _ _ Hs) as (_ & _ & _ & Hlat & _). pose proof (sv_bw _ _ _ _ _ Hs).
  split; try done; try congruence; try lia.
  - by rewrite (sv_other_units _ _ _ _ _ Hs).
  - by rewrite (sv_other_bufs _ _ _ _ _ Hs).
  - by rewrite (sv_other_bufs _ _ _ _ _ Hs).
Qed.

Lemma th_inv_serves v inb outb x y u ib ob :
  serves v inb outb x y -> th_inv x.1.1 (ts_bufs x.2) -> 0 <= x.1.2 < 2 ^ 31 -> link_of x.1.1 v inb outb ->
  link_state v inb outb y u ib ob -> th_inv y.1.1 (ts_bufs y.2).
Proof.
  intros Hs Hi Hbw Hv Hls. destruct (serves_config _ _ _ _ _ Hs) as (E1 & E2 & E3 & E4 & _). split.
  - by rewrite E1, E3, (ti_in _ _ Hi).
  - by rewrite E2, E3, (ti_out _ _ Hi).
  - by rewrite (sv_units _ _ _ _ _ Hs), E3, (ti_len _ _ Hi).
  - by rewrite E4, (ti_latency _ _ Hi).
  - apply Forall_lookup. intros i w Hw. destruct (decide (Z.of_nat i = v)) as [<-|Hne].
    + pose proof (ls_units _ _ _ _ _ _ _ Hls) as Hu. rewrite (vget_nat _ _ _ Hw) in Hu. injection Hu as ->.
      by apply (ls_range _ _ _ _ _ _ _ Hls).
    + pose proof (vget_nat _ _ _ Hw) as Hg. rewrite (sv_other_units _ _ _ _ _ Hs) in Hg by done.
      pose proof (ti_units _ _ Hi) as Hf. rewrite Forall_lookup in Hf. apply vget_Ok in Hg as [_ Hg]. by eapply Hf.
  - intros w a b Hl%(link_of_serves _ _ _ _ _ _ _ _ Hs). destruct (decide (v = w)) as [<-|Hne].
    + destruct Hv as [Hv1 Hv2], Hl as [Hl1 Hl2]. rewrite Hv1 in Hl1. rewrite Hv2 in Hl2. injection Hl1 as <-. injection Hl2 as <-.
      split; [by eapply (ti_bufs _ _ Hi); split |]. destruct Hls as [_ _ _ _ ? ? ? ? ?]. by exists ib, ob.
    + destruct x as [[t bw] st]. cbn [fst snd] in *.
      destruct (th_inv_link t bw st w a b Hi Hbw Hl) as (Hab & u0 & ib0 & ob0 & Hls0). split; [done |].
      eapply serves_other in Hls0; [| done | done | by apply (ls_bw _ _ _ _ _ _ _ Hls) | done | done | done].
      destruct Hls0 as [_ _ _ _ ? ? ? ? ?]. by exists ib0, ob0.
  - intros w w' a b a' b' Hl%(link_of_serves _ _ _ _ _ _ _ _ Hs) Hl'%(link_of_serves _ _ _ _ _ _ _ _ Hs).
    by apply (ti_apart _ _ Hi).
Qed.

(** After its turn, a virtual network has no work left, or the bandwidth is
    used up, or its output is full and a wake-up is asked for. *)
Definition settled (x : vstate) (v : Z) : Prop :=
  forall inb outb, link_of x.1.1.1 v inb outb -> exists u ib ob, link_state v inb outb (core x) u ib ob /\
    (works u ib = false \/ x.1.1.2 = 0 \/ room ob = false /\ x.1.2 = true).

Lemma throttle_vnet_served v inb outb (x : vstate) :
  th_inv x.1.1.1 (ts_bufs x.2) -> 0 <= x.1.1.2 < 2 ^ 31 -> link_of x.1.1.1 v inb outb ->
  exists y, Throttle_operateVnet net e v (Some inb) (Some outb) x = Ok y /\ serves v inb outb (core x) (core y) /\
    (x.1.2 = true -> y.1.2 = true) /\ settled y v.
Proof using He Hsz.
  destruct x as [[[t bw] sch] st]. cbn [fst snd]. intros Hi Hbw Hl.
  destruct (th_inv_link t bw st v inb outb Hi Hbw Hl) as (Hne & u & ib & ob & Hls).
  unfold Throttle_operateVnet. pose proof (ls_units _ _ _ _ _ _ _ Hls) as Hu. pose proof (ls_in _ _ _ _ _ _ _ Hls) as Hib.
  cbn [fst snd] in Hu, Hib. rewrite Hu. rsimpl. pose proof (ls_range _ _ _ _ _ _ _ Hls) as Hur.
  rewrite (proj2 (Z.leb_le 0 u)) by lia. rsimpl. rewrite Hib. rsimpl.
  destruct (throttle_loop_ok (S (length (m_prio_heap ib))) v inb outb t bw st u ib ob Hne Hls)
    as ([[t1 bw1] st1] & u1 & ib1 & ob1 & -> & Hsv & Hls1 & Hst).
  { unfold cost, ready_count. pose proof (length_filter (fun m => m_LastEnqueueTime m <= now) (m_prio_heap ib)).
    destruct (bw =? 0); [lia |]. destruct (0 <? u); lia. }
  rsimpl. cbn [fst snd] in Hst. unfold settled, core; cbn [fst snd].
  assert (Hlk : forall a b, link_of t1 v a b -> a = inb /\ b = outb).
  { intros a b Hab%(link_of_serves _ _ _ _ _ _ _ _ Hsv). cbn in Hab. destruct Hab as [Ha Hb], Hl as [Hl1 Hl2].
    rewrite Hl1 in Ha. rewrite Hl2 in Hb. by injection Ha as <-; injection Hb as <-. }
  destruct (0 <? bw1) eqn:Eb; b2p.
  2: { exists (t1, bw1, sch, st1). cbn [fst snd]. split_and!; try done. intros a b [-> ->]%Hlk. exists u1, ib1, ob1. split; [done |].
       right. left. pose proof (ls_bw _ _ _ _ _ _ _ Hls1) as Hb. cbn in Hb. lia. }
  pose proof (ls_units _ _ _ _ _ _ _ Hls1) as Hu1. pose proof (ls_in _ _ _ _ _ _ _ Hls1) as Hib1. cbn [fst snd] in Hu1, Hib1.
  rewrite (has_work_ok _ _ _ _ _ _ Hu1 Hib1). rsimpl. destruct (works u1 ib1) eqn:Ew.
  - destruct (ask_room_ok v inb outb t1 bw1 st1 u1 ib1 ob1 Hne Hls1) as (s2 & -> & Hsv2 & Hls2). rsimpl. cbn zeta in *.
    assert (room ob1 = false) as Hroom.
    { destruct Hst as [Hst|[Hst|Hst]]; [lia | congruence | done]. }
    rewrite Hroom. cbn [negb]. eexists. split; [done |]. cbn [fst snd]. split_and!; [by etrans | done |].
    intros a b [-> ->]%Hlk. do 3 eexists. split; [exact Hls2 |]. right. right. by rewrite room_again.
  - exists (t1, bw1, sch, st1). cbn [fst snd]. split_and!; try done. intros a b [-> ->]%Hlk. exists u1, ib1, ob1. split; [done |].
    by left.
Qed.

(** ** The work in front of a throttle *)

(** Units in front of virtual network [v]. *)
Definition load (t : Throttle) (s : store) (v : Z) : Z :=
  match vget (th_in t) v, vget (th_out t) v with
  | Ok (Some inb), Ok (Some _) =>
      match vget (m_units_remaining t) v, vget s inb with Ok u, Ok ib => u + heap_units ib | _, _ => 0 end
  | _, _ => 0
  end.
Definition backlog (t : Throttle) (s : store) : Z := foldr (fun v n => load t s v + n) 0 (upto (th_vnets t)).

Lemma sum_update (f g : Z -> Z) v l :
  NoDup l -> v ∈ l -> (forall w, w <> v -> g w = f w) ->
  foldr (fun v n => g v + n) 0 l = foldr (fun v n => f v + n) 0 l + g v - f v.
Proof.
  intros Hnd Hv Hw. induction Hnd as [|w l Hn Hnd IH]; [by apply not_elem_of_nil in Hv |]. cbn [foldr].
  assert (v ∉ l -> foldr (fun v n => g v + n) 0 l = foldr (fun v n => f v + n) 0 l) as Hext.
  { clear -Hw. induction l as [|x l IH]; intros Hn; [done |]. cbn [foldr].
    apply not_elem_of_cons in Hn as [Hx Hn]. rewrite IH, Hw by done. done. }
  apply elem_of_cons in Hv as [->|Hv].
  - rewrite Hext by done. lia.
  - rewrite IH, (Hw w) by (done || intros ->; done). lia.
Qed.

Lemma load_link v inb outb x u ib ob :
  link_of x.1.1 v inb outb -> link_state v inb outb x u ib ob -> load x.1.1 (ts_bufs x.2) v = u + heap_units ib.
Proof.
  intros [H1 H2] Hls. unfold load. rewrite H1, H2, (ls_units _ _ _ _ _ _ _ Hls), (ls_in _ _ _ _ _ _ _ Hls). done.
Qed.

Lemma serves_backlog v inb outb x y :
  serves v inb outb x y -> th_inv x.1.1 (ts_bufs x.2) -> 0 <= x.1.2 < 2 ^ 31 -> link_of x.1.1 v inb outb ->
  backlog x.1.1 (ts_bufs x.2) + y.1.2 = backlog y.1.1 (ts_bufs y.2) + x.1.2 /\ 0 <= y.1.2 /\ th_inv y.1.1 (ts_bufs y.2).
Proof.
  intros Hs Hi Hbw Hv. destruct (serves_config _ _ _ _ _ Hs) as (E1 & E2 & E3 & _).
  assert (exists u ib ob, link_state v inb outb x u ib ob) as (u & ib & ob & Hls).
  { destruct x as [[t bw] st]. by apply (th_inv_link t bw st). }
  destruct (sv_account _ _ _ _ _ Hs _ _ _ Hls) as (u' & ib' & ob' & Hls' & Hacc).
  pose proof (ls_bw _ _ _ _ _ _ _ Hls') as Hb'. split_and!; [| lia | by eapply th_inv_serves].
  unfold backlog. rewrite E3. rewrite (sum_update (load x.1.1 (ts_bufs x.2)) (load y.1.1 (ts_bufs y.2)) v).
  - rewrite (load_link _ _ _ _ _ _ _ Hv Hls), (load_link v inb outb y u' ib' ob'); [lia | | done].
    by apply (link_of_serves _ _ _ _ _ _ _ _ Hs).
  - apply NoDup_seqZ.
  - apply elem_of_upto. rewrite <- (ti_in _ _ Hi). eapply vget_range. apply Hv.
  - intros w Hw. unfold load. rewrite E1, E2, (sv_other_units _ _ _ _ _ Hs) by done.
    destruct (vget (th_in x.1.1) w) as [[a|]|] eqn:Ea; [| done | done].
    destruct (vget (th_out x.1.1) w) as [[b|]|] eqn:Eb; [| done | done].
    destruct (ti_apart _ _ Hi v w inb outb a b Hv (conj Ea Eb)) as (? & ? & ? & ?); [done |].
    by rewrite (sv_other_bufs _ _ _ _ _ Hs).
Qed.

(** What holds between the beginning and the end of a round over some virtual
    networks. *)
Record round (x y : vstate) : Prop := {
  rn_inv : th_inv y.1.1.1 (ts_bufs y.2);
  rn_config : getLinkBandwidth y.1.1.1 = getLinkBandwidth x.1.1.1 /\ th_vnets y.1.1.1 = th_vnets x.1.1.1;
  rn_links : forall v a b, link_of y.1.1.1 v a b <-> link_of x.1.1.1 v a b;
  rn_account : backlog x.1.1.1 (ts_bufs x.2) + y.1.1.2 = backlog y.1.1.1 (ts_bufs y.2) + x.1.1.2;
  rn_bw : 0 <= y.1.1.2 <= x.1.1.2;
  rn_deliveries : store_deliveries (ts_bufs y.2) ≡ₚ store_deliveries (ts_bufs x.2);
  rn_events : ts_events x.2 `prefix_of` ts_events y.2;
  rn_schedule : x.1.2 = true -> y.1.2 = true
}.

Lemma round_refl x : th_inv x.1.1.1 (ts_bufs x.2) -> 0 <= x.1.1.2 -> round x x.
Proof. intros Hi Hb. split; try done. Qed.

Lemma round_trans x y z : round x y -> round y z -> round x z.
Proof.
  intros [H1 [H2 H2'] H3 H4 H5 H6 H7 H8] [K1 [K2 K2'] K3 K4 K5 K6 K7 K8]. split; try done; try lia.
  - intros v a b. by rewrite K3.
  - by rewrite K6.
  - by etrans.
  - auto.
Qed.

Lemma Throttle_vnet_ok (x : vstate) v :
  th_inv x.1.1.1 (ts_bufs x.2) -> 0 <= x.1.1.2 < 2 ^ 31 -> 0 <= v < th_vnets x.1.1.1 ->
  exists y, Throttle_vnet net e x v = Ok y /\ round x y /\ settled y v /\ forall w, w <> v -> settled x w -> settled y w.
Proof using He Hsz.
  intros Hi Hbw Hv. unfold Throttle_vnet.
  destruct (vget_is_ok (th_in x.1.1.1) v) as [oi Hoi]; [rewrite (ti_in _ _ Hi); done |]. rewrite Hoi. rsimpl.
  destruct (vget_is_ok (th_out x.1.1.1) v) as [oo Hoo]; [rewrite (ti_out _ _ Hi); done |]. rewrite Hoo. rsimpl.
  assert ((exists inb outb, oi = Some inb /\ oo = Some outb) \/
    (Throttle_operateVnet net e v oi oo x = Ok x /\ forall a b, ~ link_of x.1.1.1 v a b)) as [(inb & outb & -> & ->)|[Hnone Hno]].
  { destruct x as [[[t bw] sch] st]. destruct oi as [inb|], oo as [outb|]; [left; by exists inb, outb | right..];
      (split; [done |]); intros a b [Ha Hb]; cbn in *; congruence. }
  - assert (link_of x.1.1.1 v inb outb) as Hl by done.
    destruct (throttle_vnet_served v inb outb x Hi Hbw Hl) as (y & -> & Hsv & Hsch & Hset).
    destruct (serves_backlog v inb outb (core x) (core y) Hsv Hi Hbw Hl) as (Hacc & Hb0 & Hi').
    pose proof (sv_bw _ _ _ _ _ Hsv) as Hle. cbn [core fst snd] in Hacc, Hb0, Hi', Hle.
    exists y. split_and!; [done | | done |].
    + destruct (serves_config _ _ _ _ _ Hsv) as (_ & _ & E3 & _ & E5). cbn in E3, E5. split; try done; try lia.
      * intros w a b. exact (link_of_serves _ _ _ (core x) (core y) w a b Hsv).
      * exact (sv_deliveries _ _ _ _ _ Hsv).
      * exact (sv_events _ _ _ _ _ Hsv).
    + intros w Hw Hsx a b Hab%(link_of_serves _ _ _ (core x) (core y) _ _ _ Hsv).
      destruct (Hsx a b Hab) as (u & ib & ob & Hls & Hc). exists u, ib, ob. split.
      * eapply serves_other; [exact Hsv | done | done | exact Hl | done | done | done].
      * destruct Hc as [Hc|[Hc|[Hc Hs]]]; [by left | right; left; lia | right; right; auto].
  - rewrite Hnone. exists x. split_and!; [done | by apply round_refl; [| lia] | | done].
    intros a b Hab. by destruct (Hno a b).
Qed.

Lemma Throttle_vnets_ok vnets : forall x : vstate,
  th_inv x.1.1.1 (ts_bufs x.2) -> 0 <= x.1.1.2 < 2 ^ 31 -> NoDup vnets ->
  (forall v, v ∈ vnets -> 0 <= v < th_vnets x.1.1.1) ->
  exists y, foldM (Throttle_vnet net e) vnets x = Ok y /\ round x y /\
    (forall v, v ∈ vnets -> settled y v) /\ forall w, w ∉ vnets -> settled x w -> settled y w.
Proof using He Hsz.
  induction vnets as [|v vnets IH]; intros x Hi Hbw Hnd Hv; cbn [foldM].
  { exists x. split_and!; [done | by apply round_refl; [| lia] | | done]. intros v Hin. by apply not_elem_of_nil in Hin. }
  apply NoDup_cons in Hnd as [Hnin Hnd].
  destruct (Throttle_vnet_ok x v Hi Hbw) as (x1 & -> & Hr1 & Hs1 & Ho1); [apply Hv; left |]. rsimpl.
  destruct (IH x1) as (y & -> & Hr & Hsv & Ho).
  - apply (rn_inv _ _ Hr1).
  - pose proof (rn_bw _ _ Hr1). lia.
  - done.
  - intros w Hw. rewrite (proj2 (rn_config _ _ Hr1)). apply Hv. by right.
  - exists y. split_and!; [done | by eapply round_trans | |].
    + intros w [->|Hw]%elem_of_cons; [by apply Ho | by apply Hsv].
    + intros w [Hw Hn]%not_elem_of_cons Hs. apply Ho; [done |]. by apply Ho1.
Qed.
End Throttling.

(** C24.  A throttle serves the bandwidth of its link, exactly: from any wired
    state a wake-up returns, no delivery is lost or duplicated, and the work in
    front of the throttle (what is left of the messages under way plus the
    messages in the input buffers, in units of message size) shrinks by [used]
    units, at most the bandwidth of the link.  If a virtual network still has
    work afterwards, then either the whole bandwidth was used or its output
    buffer is full, and the throttle has scheduled itself for the next cycle. *)
Theorem throttle_wakeup_serves (net : Network) (e : sn_env) (t : Throttle) (st : th_state) :
  sizes_ok net -> th_env_ok e (th_link_latency t) -> th_inv e (th_link_latency t) t (ts_bufs st) ->
  0 < getLinkBandwidth t ->
  exists t' st' used, Throttle_wakeup net e t st = Ok (t', st') /\
    th_inv e (th_link_latency t) t' (ts_bufs st') /\
    store_deliveries (ts_bufs st') ≡ₚ store_deliveries (ts_bufs st) /\
    backlog net t (ts_bufs st) = backlog net t' (ts_bufs st') + used /\ 0 <= used <= getLinkBandwidth t /\
    forall v inb outb, link_of t v inb outb ->
      exists u ib ob, vget (m_units_remaining t') v = Ok u /\ vget (ts_bufs st') inb = Ok ib /\ vget (ts_bufs st') outb = Ok ob /\
        (works e u ib = true -> Self 1 ∈ ts_events st' /\ (used = getLinkBandwidth t \/ room e ob = false)).
Proof.
  intros Hsz He Hi Hbw. unfold Throttle_wakeup. rewrite (proj2 (Z.ltb_lt 0 _) Hbw). rsimpl.
  match goal with |- context [setf th_wakeups_wo_switch ?f t] => set (t1 := setf th_wakeups_wo_switch f t) end.
  pose proof (i32_range (m_endpoint_bandwidth t * m_link_bandwidth_multiplier t)) as Hrange. unfold in_i32 in Hrange.
  set (x := (t1, getLinkBandwidth t1, false, st)).
  destruct (Throttle_vnets_ok net e Hsz (th_link_latency t) He
    (vnet_order (PRIORITY_SWITCH_LIMIT <? th_wakeups_wo_switch t + 1) (th_vnets t1)) x) as ([[[t' bw] sch] st'] & Hf & Hr & Hs & _).
  - destruct Hi as [H1 H2 H3 H4 H5 H6 H7]. by split.
  - cbn. unfold getLinkBandwidth in *. cbn. lia.
  - unfold vnet_order. destruct (_ <? _); [| rewrite reverse_Permutation]; apply NoDup_seqZ.
  - intros v. unfold vnet_order. destruct (_ <? _); rewrite ?elem_of_reverse; apply elem_of_upto.
  - rewrite Hf. rsimpl. destruct Hr as [H1 _ H3 H4 H5 H6 _ _]. unfold x in *. cbn [fst snd] in *.
    change (getLinkBandwidth t1) with (getLinkBandwidth t) in *. change (backlog net t1) with (backlog net t) in *.
    assert (Hsettled : forall v inb outb, link_of t v inb outb -> exists u ib ob,
      link_state e (th_link_latency t) v inb outb (t', bw, st') u ib ob /\
      (works e u ib = false \/ bw = 0 \/ room e ob = false /\ sch = true)).
    { intros v inb outb Hl. apply (Hs v); [| by apply H3]. assert (0 <= v < th_vnets t) as Hv.
      { rewrite <- (ti_in _ _ _ _ Hi). eapply vget_range. apply Hl. }
      unfold vnet_order. destruct (_ <? _); rewrite ?elem_of_reverse; by apply elem_of_upto. }
    destruct ((0 <? bw) && negb sch)%bool eqn:Eg; do 2 eexists; exists (getLinkBandwidth t - bw); (split; [reflexivity |]);
      cbn [ts_bufs ts_events]; (split_and!; [done | done | lia | lia | lia |]); intros v inb outb Hl;
      destruct (Hsettled v inb outb Hl) as (u & ib & ob & [K1 _ _ _ K5 K6 _ _ _] & Hc); exists u, ib, ob;
      (split_and!; [done | done | done |]); intros Hw.
    + b2p. destruct Hc as [Hc|[Hc|[Hc Hsch]]]; [congruence | lia | congruence].
    + split; [apply elem_of_app; right; by apply list_elem_of_singleton |].
      destruct Hc as [Hc|[Hc|[Hc Hsch]]]; [congruence | left; lia | by right].
Qed.

(** ** A link of 1000 units per cycle with two messages of 8000 units waiting *)
Definition demo_net : Network :=
  {| Network.m_nodes := 3; m_virtual_networks := 1; m_vnet_type_names := ["request"]%string;
     m_control_msg_size := 8; m_data_msg_size := 72; m_toNetQueues := []; m_fromNetQueues := []; m_ordered := [false];
     addrMap := [] |}.
Definition demo_tenv : sn_env :=
  {| se_counts := [2; 1];
     se_ruby := {| getRandomization := false; getWarmupEnabled := false; getBlockSizeBits := 6 |};
     se_adaptive := false; se_ordered := [false]; se_now := 1000; se_period := 500; se_curTick := 1000;
     se_random := fun _ => 0; se_draws := fun _ => (0, 1, 1) |}.
Definition demo_tmessage (p time : Z) : Message :=
  {| m_time := 100; m_LastEnqueueTime := time; m_DelayedTicks := 0; msg_counter := p; incoming_link := 0; vnet := 0;
     m_Destination := [RSet 2 1; RSet 1 0]; m_MessageSize := Control; payload := p |}.
Definition demo_tstate : th_state :=
  {| ts_bufs := [MessageBuffer_ctor 0 true false ⟨ m_consumer := Some 1 ⟩ ⟨ m_prio_heap := [demo_tmessage 1 800; demo_tmessage 2 900] ⟩;
                 MessageBuffer_ctor 1 true false ⟨ m_consumer := Some 2 ⟩]; ts_draws := 0; ts_events := [] |}.
Definition demo_throttle : Throttle :=
  {| th_switch_id := 0; th_node := 0; th_in := [Some 0]; th_out := [Some 1]; th_vnets := 1; m_units_remaining := [0];
     m_link_bandwidth_multiplier := 1; th_link_latency := 1; th_wakeups_wo_switch := 0; m_endpoint_bandwidth := 1000 |}.

Lemma demo_link v a b : link_of demo_throttle v a b -> v = 0 /\ a = 0 /\ b = 1.
Proof.
  intros [Ha Hb]. pose proof (vget_range _ _ _ Ha) as Hv. cbn in Hv. assert (v = 0) as -> by lia.
  by injection Ha as <-; injection Hb as <-.
Qed.

Lemma demo_th_inv : th_inv demo_tenv 1 demo_throttle (ts_bufs demo_tstate).
Proof.
  split; try done.
  - apply Forall_singleton. lia.
  - intros v a b (-> & -> & ->)%demo_link. split; [done |]. do 2 eexists. split; [reflexivity |]. split; [reflexivity |].
    split_and!; try done; (split; [| done]).
    exact (heap_insert_heap msg_gt [_] (demo_tmessage 2 900) (heap_insert_heap msg_gt [] (demo_tmessage 1 800) (is_heap_nil msg_gt))).
  - intros v w a b a' b' (-> & _)%demo_link (-> & _)%demo_link. done.
Qed.

Lemma throttle_wakeup_serves_witness :
  exists t' st' used, Throttle_wakeup demo_net demo_tenv demo_throttle demo_tstate = Ok (t', st') /\
    16000 = backlog demo_net t' (ts_bufs st') + used /\ 0 <= used <= 1000.
Proof.
  destruct (throttle_wakeup_serves demo_net demo_tenv demo_throttle demo_tstate) as (t' & st' & used & Hw & _ & _ & Hb & Hu & _).
  - intros ty. destruct ty; split; by vm_compute.
  - by split.
  - exact demo_th_inv.
  - done.
  - exists t', st', used. split_and!; [exact Hw | exact Hb | apply Hu | apply Hu].
Defined.
