(* ===== verification/SimpleRouting.v ===== *)
(** * Routing over the assembled simple network

    [SimpleNetwork::init] runs to its end on every sensible topology with
    enough buffers, and wires the switches: each output link of a switch has a
    throttle that feeds the buffers of the switch or the node at the other end
    of the link.  Messages that follow the tables, whatever order the links are
    tried in, reach the node of their destination. *)
From S2P Require Import Prelude StdHeap NetDest Topology RoutingTables Common MessageBuffer Flit Network RoutingUnit PortUnits Router NetworkInterface GarnetNetwork TableRouting SimpleNetwork SwitchRouting.

(** ** Buffers without a consumer *)

Definition unclaimed (s : store) (b : Z) : Prop := exists mb, vget s b = Ok mb /\ m_consumer mb = None.
Definition claimed (s : store) (c b : Z) : Prop := exists mb, vget s b = Ok mb /\ m_consumer mb = Some c.

(** The buffers of [bs] get the consumer [c]; the others stay as they are. *)
Record claims (c : Z) (bs : list Z) (s s' : store) : Prop := {
  cl_claimed : forall b, b ∈ bs -> claimed s' c b;
  cl_other : forall b, b ∉ bs -> vget s' b = vget s b
}.

Lemma claims_nil c s : claims c [] s s.
Proof. split; [intros b Hb; by apply not_elem_of_nil in Hb | done]. Qed.

Lemma claims_cons c b bs s s1 s2 :
  b ∉ bs -> claims c [b] s s1 -> claims c bs s1 s2 -> claims c (b :: bs) s s2.
Proof.
  intros Hb [H1 H2] [K1 K2]. split.
  - intros x [->|Hx]%elem_of_cons; [| by apply K1]. unfold claimed. rewrite K2 by done. apply H1. by apply list_elem_of_singleton.
  - intros x [Hx Hxs]%not_elem_of_cons. rewrite K2, H2; [done | | done]. by apply not_elem_of_cons; split; [| apply not_elem_of_nil].
Qed.

(** What has a consumer keeps it. *)
Lemma claims_keeps c bs s s' c' b :
  (forall x, x ∈ bs -> unclaimed s x) -> claims c bs s s' -> claimed s c' b -> claimed s' c' b.
Proof.
  intros Hun Hc (mb & Hmb & Hcb). exists mb. split; [| done]. rewrite (cl_other _ _ _ _ Hc); [done |].
  intros Hin. destruct (Hun b Hin) as (mb' & Hmb' & Hn). rewrite Hmb in Hmb'. injection Hmb' as <-. congruence.
Qed.

Lemma claims_unclaimed c bs s s' b : claims c bs s s' -> b ∉ bs -> unclaimed s b -> unclaimed s' b.
Proof. intros Hc Hb. unfold unclaimed. by rewrite (cl_other _ _ _ _ Hc). Qed.

(** One buffer: the consumer is set, and then what [f] sets besides. *)
Lemma claim_one s b c (f : MessageBuffer -> MessageBuffer) :
  unclaimed s b -> (forall mb, m_consumer (f mb) = m_consumer mb) ->
  exists s', with_buffer s b (fun mb => mb ← setConsumer mb c; Ok (f mb, tt)) = Ok (s', tt) /\ claims c [b] s s'.
Proof.
  intros (mb & Hmb & Hn) Hf. unfold with_buffer, setConsumer. rewrite Hmb. rsimpl. rewrite Hn.
  rewrite bool_decide_eq_false_2 by (intros H; by apply H). rsimpl.
  match goal with |- context [vset s b ?y] => set (x := y) end. assert (m_consumer x = Some c) as Hx by (unfold x; by rewrite Hf).
  destruct (vset_is_ok s b x (vget_range _ _ _ Hmb)) as [s' Hs']. rewrite Hs'. rsimpl. exists s'. split; [done |]. split.
  - intros y ->%list_elem_of_singleton. exists x. split; [by eapply vset_get_eq | done].
  - intros y Hy. eapply vset_get_ne; [done |]. intros ->. apply Hy. by apply list_elem_of_singleton.
Qed.

(** ** Ports *)

Lemma connect_all sid port inq : forall (k : Z) s,
  NoDup (omap id inq) -> (forall b, b ∈ omap id inq -> unclaimed s b) ->
  exists s', foldM (connect_in sid port) (zip (seqZ k (Z.of_nat (length inq))) inq) s = Ok s' /\
    claims (switch_consumer sid) (omap id inq) s s'.
Proof.
  induction inq as [|q inq IH]; intros k s Hnd Hun; [exists s; split; [done | apply claims_nil] |].
  replace (Z.of_nat (length (q :: inq))) with (Z.succ (Z.of_nat (length inq))) by (cbn; lia).
  rewrite seqZ_cons by lia. cbn [zip zip_with foldM]. rewrite Z.pred_succ. unfold connect_in at 2. cbn [fst snd].
  destruct q as [b|]; cbn [omap list_omap id] in Hnd, Hun |- *.
  - apply NoDup_cons in Hnd as [Hb Hnd].
    destruct (claim_one s b (switch_consumer sid) (fun mb => mb_setVnet (setIncomingLink mb port) k)) as (s1 & -> & Hc1);
      [apply Hun; left | done |]. rsimpl.
    destruct (IH (Z.succ k) s1) as (s2 & -> & Hc2); [done | |].
    { intros x Hx. eapply claims_unclaimed; [exact Hc1 | | apply Hun; by right].
      intros ->%list_elem_of_singleton. done. }
    exists s2. split; [done |]. by eapply claims_cons.
  - rsimpl. by apply IH.
Qed.

Lemma PerfectSwitch_addInPort_ok p s inq :
  NoDup (omap id inq) -> (forall b, b ∈ omap id inq -> unclaimed s b) ->
  exists s', PerfectSwitch_addInPort p s inq = Ok (p ⟨ ps_in := ps_in p ++ [inq] ⟩, s') /\
    claims (switch_consumer (m_switch_id p)) (omap id inq) s s'.
Proof.
  intros Hnd Hun. unfold PerfectSwitch_addInPort, upto.
  destruct (connect_all (m_switch_id p) (Z.of_nat (length (ps_in p))) inq 0 s Hnd Hun) as (s' & -> & Hc). rsimpl. by exists s'.
Qed.

Lemma add_links_ok ins : forall outs t s,
  length ins = length outs -> NoDup ins -> (forall b, b ∈ ins -> unclaimed s b) ->
  exists t' s', foldM add_link (zip (Some <$> ins) outs) (t, s) = Ok (t', s') /\
    th_out t' = th_out t ++ outs /\ th_in t' = th_in t ++ (Some <$> ins) /\
    claims (throttle_consumer (th_switch_id t) (th_node t)) ins s s'.
Proof.
  induction ins as [|b ins IH]; intros [|o outs] t s Hl Hnd Hun; try done.
  { exists t, s. split; [done |]. rewrite !app_nil_r. split_and!; [done | done | apply claims_nil]. }
  cbn [fmap list_fmap zip zip_with foldM]. unfold add_link at 2. cbn [fst snd].
  match goal with |- context [throttle_consumer (th_switch_id ?q) (th_node ?q)] => set (t1 := q) end.
  change (throttle_consumer (th_switch_id t1) (th_node t1)) with (throttle_consumer (th_switch_id t) (th_node t)).
  apply NoDup_cons in Hnd as [Hb Hnd].
  destruct (claim_one s b (throttle_consumer (th_switch_id t) (th_node t)) (fun mb => mb)) as (s1 & Hw & Hc1);
    [apply Hun; left | done |]. rewrite Hw. rsimpl.
  destruct (IH outs t1 s1) as (t2 & s2 & -> & Ho & Hi & Hc2); [cbn in Hl; lia | done | |].
  { intros x Hx. eapply claims_unclaimed; [exact Hc1 | | apply Hun; by right]. intros ->%list_elem_of_singleton. done. }
  exists t2, s2. split; [done |]. rewrite Ho, Hi. change (th_out t1) with (th_out t ++ [o]).
  change (th_in t1) with (th_in t ++ [Some b]). rewrite <- !app_assoc. split_and!; [done | done |]. by eapply claims_cons.
Qed.

Lemma take_buffers_ok buffers k n0 acc :
  0 <= k -> 0 <= n0 -> n0 + k <= Z.of_nat (length buffers) ->
  foldM (take_buffer buffers) (upto k) (n0, acc) =
    Ok (n0 + k, acc ++ take (Z.to_nat k) (drop (Z.to_nat n0) buffers)).
Proof.
  intros Hk Hn Hl.
  destruct (foldM_upto (take_buffer buffers) (fun j st => st = (n0 + j, acc ++ take (Z.to_nat j) (drop (Z.to_nat n0) buffers)))
    k (n0, acc)) as (st & -> & ->); [done | | | done].
  - by rewrite Z.add_0_r, take_0, app_nil_r.
  - intros i st Hi ->. unfold take_buffer. cbn [fst snd]. rewrite (proj2 (Z.ltb_lt _ _)) by lia. rsimpl.
    destruct (vget_is_ok buffers (n0 + i)) as [b Hb]; [lia |]. rewrite Hb. rsimpl. eexists. split; [done |].
    replace (n0 + (i + 1)) with (n0 + i + 1) by lia. f_equal. rewrite <- app_assoc. f_equal.
    replace (Z.to_nat (i + 1)) with (S (Z.to_nat i)) by lia.
    symmetry. apply take_S_r. rewrite lookup_drop. apply vget_Ok in Hb as [_ Hb]. by rewrite <- Z2Nat.inj_add by lia.
Qed.

Definition remaining (w : Switch) : list Z := drop (Z.to_nat (sw_num_connected_buffers w)) (m_port_buffers w).

Lemma Switch_addOutPort_ok w s outq entry latency mult bw :
  0 < mult -> 0 <= sw_num_connected_buffers w ->
  sw_num_connected_buffers w + Z.of_nat (length outq) <= Z.of_nat (length (m_port_buffers w)) ->
  NoDup (remaining w) -> (forall b, b ∈ remaining w -> unclaimed s b) ->
  exists w' s' bs th, Switch_addOutPort w s outq entry latency mult bw = Ok (w', s') /\
    sw_id w' = sw_id w /\ m_port_buffers w' = m_port_buffers w /\
    sw_num_connected_buffers w' = sw_num_connected_buffers w + Z.of_nat (length outq) /\
    remaining w = bs ++ remaining w' /\ length bs = length outq /\
    perfectSwitch w' = PerfectSwitch_addOutPort (perfectSwitch w) bs entry /\
    throttles w' = throttles w ++ [th] /\ th_in th = Some <$> bs /\ th_out th = outq /\
    exists c, claims c bs s s'.
Proof.
  intros Hm Hn Hl Hnd Hun. unfold Switch_addOutPort, Throttle_ctor. rewrite (proj2 (Z.ltb_lt 0 mult) Hm). rsimpl.
  rewrite take_buffers_ok by lia. rsimpl. rewrite app_nil_l. fold (remaining w). rewrite Nat2Z.id.
  set (bs := take (length outq) (remaining w)).
  assert (length bs = length outq) as Hbl.
  { unfold bs, remaining. rewrite length_take, length_drop. lia. }
  assert (remaining w = bs ++ drop (length outq) (remaining w)) as Hsplit by (unfold bs; by rewrite take_drop).
  rewrite Hsplit in Hnd, Hun. apply NoDup_app in Hnd as (Hnd & _ & _).
  unfold Throttle_addLinks. rewrite length_fmap, Hbl, Z.eqb_refl. rsimpl.
  match goal with |- context [foldM add_link _ (?q, s)] => destruct (add_links_ok bs outq q s) as (th & s' & -> & Ho & Hi & Hc) end.
  - done.
  - done.
  - intros b Hb. apply Hun. apply elem_of_app. by left.
  - rsimpl. do 2 eexists. exists bs, th. split; [done |]. split_and!; try done; [| by eexists].
    unfold remaining at 2. cbn. rewrite Hsplit at 1. f_equal. unfold remaining. rewrite drop_drop. f_equal. lia.
Qed.

(** ** The network while the topology builds it *)

Section Assembly.
Context (net : Network) (ilb : list Z) (nodes nr : Z).
Notation vn := (m_virtual_networks net).
Context (Hvn : 0 <= vn) (Hnodes : Network.m_nodes net = nodes).
Context (Hto : Z.of_nat (length (m_toNetQueues net)) = nodes) (Hfrom : Z.of_nat (length (m_fromNetQueues net)) = nodes).

(** What a call takes: buffers of the node, of the source switch, between switches. *)
Definition call_inputs (c : net_call) : list Z :=
  match c with
  | MakeExtInLink src _ _ _ => match vget (m_toNetQueues net) src with Ok q => omap id q | Err _ => [] end
  | _ => []
  end.
Definition port_need (i : Z) (c : net_call) : Z :=
  match c with
  | MakeExtInLink _ _ _ _ => 0
  | MakeExtOutLink src dest _ _ =>
      if src =? i then match vget (m_fromNetQueues net) dest with Ok q => Z.of_nat (length q) | Err _ => 0 end else 0
  | MakeInternalLink src _ _ _ _ _ => if src =? i then vn else 0
  end.
Definition link_need (c : net_call) : Z := match c with MakeInternalLink _ _ _ _ _ _ => vn | _ => 0 end.
Definition call_link (c : net_call) : BasicLink :=
  match c with MakeExtInLink _ _ l _ | MakeExtOutLink _ _ l _ | MakeInternalLink _ _ l _ _ _ => l end.

Definition total (f : net_call -> Z) (cs : list net_call) : Z := foldr (fun c n => f c + n) 0 cs.

Lemma port_need_nonneg i c : 0 <= port_need i c.
Proof using Hvn. destruct c; cbn; repeat case_match; lia. Qed.

Lemma link_need_nonneg c : 0 <= link_need c.
Proof using Hvn. destruct c; cbn; lia. Qed.

Lemma total_nonneg f cs : (forall c, 0 <= f c) -> 0 <= total f cs.
Proof. intros Hf. induction cs as [|c cs IH]; cbn; [lia |]. specialize (Hf c). unfold total in IH. lia. Qed.

(** The buffers no one reads yet: port buffers, buffers between switches, and
    those of the nodes that are not connected yet. *)
Definition pool (n : SimpleNetwork) (rest : list net_call) : list Z :=
  (m_switches n ≫= remaining) ++ drop (Z.to_nat (sn_num_connected_buffers n)) ilb ++ (rest ≫= call_inputs).

(** Where a throttle's output buffers are read. *)
Definition feeds (n : SimpleNetwork) (th : Throttle) (tg : target) : Prop :=
  match tg with
  | ToNI d => vget (m_fromNetQueues net) d = Ok (th_out th)
  | ToRouter d => Z.of_nat (length (th_out th)) = vn /\
      Forall (fun ob => exists b, ob = Some b /\ b ∈ ilb /\ claimed (sn_store n) (switch_consumer d) b) (th_out th)
  end.

Record has_links (n : SimpleNetwork) (i : Z) (outs : list out) (w : Switch) : Prop := {
  hl_id : sw_id w = i /\ m_switch_id (perfectSwitch w) = i;
  hl_table : SimpleNetwork.m_routing_table (perfectSwitch w) = o_entry <$> outs;
  hl_order : lo_link <$> m_link_order (perfectSwitch w) = upto (Z.of_nat (length outs));
  hl_outs : length (ps_out (perfectSwitch w)) = length outs;
  hl_throttles : Forall2 (fun th o => feeds n th (o_target o)) (throttles w) outs
}.

(** After the calls [cs], with the calls [rest] to come, for which [lk] buffers
    between switches are needed. *)
Record building (lk : Z) (cs rest : list net_call) (n : SimpleNetwork) : Prop := {
  bd_net : sn_net n = net;
  bd_ilb : m_int_link_buffers n = ilb;
  bd_switches : Z.of_nat (length (m_switches n)) = nr;
  bd_num : 0 <= sn_num_connected_buffers n /\ sn_num_connected_buffers n + lk <= Z.of_nat (length ilb);
  bd_ports : forall i w, vget (m_switches n) i = Ok w ->
    0 <= sw_num_connected_buffers w /\ sw_num_connected_buffers w + total (port_need i) rest <= Z.of_nat (length (m_port_buffers w));
  bd_free : NoDup (pool n rest) /\ forall b, b ∈ pool n rest -> unclaimed (sn_store n) b;
  bd_links : forall i w, vget (m_switches n) i = Ok w -> has_links n i (omap (out_of i) cs) w
}.

Lemma feeds_claims n n' th tg c bs :
  (forall b, b ∈ bs -> unclaimed (sn_store n) b) -> claims c bs (sn_store n) (sn_store n') -> feeds n th tg -> feeds n' th tg.
Proof.
  intros Hun Hc. destruct tg as [d|d]; [| done]. intros [Hl Hf]. split; [done |]. eapply Forall_impl; [exact Hf |].
  intros ob (b & -> & Hb & Hcl). exists b. split_and!; [done | done |]. by eapply claims_keeps.
Qed.

Lemma has_links_claims n n' i outs w c bs :
  (forall b, b ∈ bs -> unclaimed (sn_store n) b) -> claims c bs (sn_store n) (sn_store n') ->
  has_links n i outs w -> has_links n' i outs w.
Proof.
  intros Hun Hc [H1 H2 H3 H4 H5]. split; try done. eapply Forall2_impl; [exact H5 |]. intros th o. by eapply feeds_claims.
Qed.

(** Adding an output link to a switch adds an output. *)
Lemma has_links_out n i outs w w' bs th o :
  has_links n i outs w -> feeds n th (o_target o) -> sw_id w' = sw_id w ->
  perfectSwitch w' = PerfectSwitch_addOutPort (perfectSwitch w) bs (o_entry o) -> throttles w' = throttles w ++ [th] ->
  has_links n i (outs ++ [o]) w'.
Proof.
  intros [H1 H2 H3 H4 H5] Hf Hid Hp Ht. split; rewrite ?Hid, ?Hp, ?Ht; cbn.
  - done.
  - by rewrite fmap_app, H2.
  - rewrite fmap_app, H3, H4, length_app. cbn [length fmap list_fmap lo_link].
    replace (Z.of_nat (length outs + 1)) with (Z.of_nat (length outs) + 1) by lia. by rewrite upto_succ by lia.
  - rewrite !length_app, H4. done.
  - apply Forall2_app; [done |]. by apply Forall2_cons.
Qed.

(** ** One call *)

Lemma switch_update (ws : list Switch) i w w' :
  vget ws i = Ok w -> exists ws', vset ws i w' = Ok ws' /\ length ws' = length ws /\ vget ws' i = Ok w' /\
    (forall j, j <> i -> vget ws' j = vget ws j) /\
    remaining w ++ (ws' ≫= remaining) ≡ₚ remaining w' ++ (ws ≫= remaining).
Proof.
  intros Hi. pose proof (vget_range _ _ _ Hi) as Hr. destruct (vset_is_ok ws i w' Hr) as [ws' Hs']. exists ws'.
  split_and!; [done | by eapply vset_length | by eapply vset_get_eq | intros j Hj; by eapply vset_get_ne |].
  apply vset_Ok in Hs' as [Hr' ->]. apply vget_Ok in Hi as [_ Hi].
  pose proof (take_drop_middle _ _ _ Hi) as Hsplit.
  assert (<[Z.to_nat i := w']> ws = take (Z.to_nat i) ws ++ w' :: drop (S (Z.to_nat i)) ws) as ->.
  { by rewrite insert_take_drop by lia. }
  rewrite <- Hsplit at 3. rewrite !bind_app. cbn [mbind list_bind]. solve_Permutation.
Qed.

(** Taking [bs] out of the pool for one consumer. *)
Lemma pool_shrink n n' rest rest' bs c :
  pool n rest ≡ₚ bs ++ pool n' rest' -> claims c bs (sn_store n) (sn_store n') ->
  NoDup (pool n rest) /\ (forall b, b ∈ pool n rest -> unclaimed (sn_store n) b) ->
  (NoDup (pool n' rest') /\ forall b, b ∈ pool n' rest' -> unclaimed (sn_store n') b) /\
  forall b, b ∈ bs -> unclaimed (sn_store n) b.
Proof.
  intros Hp Hc [Hnd Hun]. rewrite Hp in Hnd. apply NoDup_app in Hnd as (_ & Hdis & Hnd). split_and!; [done | |].
  - intros b Hb. eapply claims_unclaimed; [exact Hc | | apply Hun; rewrite Hp; apply elem_of_app; by right].
    intros Hbs. by apply (Hdis b).
  - intros b Hb. apply Hun. rewrite Hp. apply elem_of_app. by left.
Qed.

Lemma pool_head n c rest :
  NoDup (pool n (c :: rest)) /\ (forall b, b ∈ pool n (c :: rest) -> unclaimed (sn_store n) b) ->
  NoDup (call_inputs c) /\ forall b, b ∈ call_inputs c -> unclaimed (sn_store n) b.
Proof.
  unfold pool. cbn [mbind list_bind]. intros [Hnd Hun]. apply NoDup_app in Hnd as (_ & _ & (_ & _ & (Hnd & _)%NoDup_app)%NoDup_app).
  split; [done |]. intros b Hb. apply Hun. rewrite !elem_of_app. auto.
Qed.

Lemma pool_switch n rest i w :
  NoDup (pool n rest) /\ (forall b, b ∈ pool n rest -> unclaimed (sn_store n) b) -> vget (m_switches n) i = Ok w ->
  NoDup (remaining w) /\ forall b, b ∈ remaining w -> unclaimed (sn_store n) b.
Proof.
  unfold pool. intros [Hnd Hun] [_ Hi]%vget_Ok. pose proof (take_drop_middle _ _ _ Hi) as Hsplit.
  rewrite <- Hsplit in Hnd, Hun. rewrite bind_app in Hnd, Hun. cbn [mbind list_bind] in Hnd, Hun. split.
  - apply NoDup_app in Hnd as ((_ & _ & (Hnd & _)%NoDup_app)%NoDup_app & _). done.
  - intros b Hb. apply Hun. rewrite !elem_of_app. auto.
Qed.

Lemma makeExtIn_ok lk cs rest n src dest link entry :
  building lk cs (MakeExtInLink src dest link entry :: rest) n -> 0 <= src < nodes -> 0 <= dest < nr ->
  exists n', sn_makeExtInLink n src dest = Ok n' /\ building lk (cs ++ [MakeExtInLink src dest link entry]) rest n'.
Proof using Hvn Hnodes Hto.
  intros Hb Hs Hd. pose proof Hb as [H1 H2 H3 H4 H5 H6 H7]. unfold sn_makeExtInLink. rewrite H1, Hnodes, (proj2 (Z.ltb_lt _ _)) by lia.
  rsimpl. destruct (vget_is_ok (m_toNetQueues net) src) as [q Hq]; [lia |]. rewrite Hq. rsimpl.
  unfold with_switch. destruct (vget_is_ok (m_switches n) dest) as [w Hw]; [lia |]. rewrite Hw. rsimpl.
  destruct (pool_head _ _ _ H6) as [Hnd Hun]. cbn [call_inputs] in Hnd, Hun. rewrite Hq in Hnd, Hun.
  unfold Switch_addInPort. destruct (PerfectSwitch_addInPort_ok (perfectSwitch w) (sn_store n) q Hnd Hun) as (s' & -> & Hc). rsimpl.
  match goal with |- context [vset (m_switches n) dest ?y] => set (w' := y) end.
  destruct (switch_update (m_switches n) dest w w' Hw) as (ws' & -> & Hl & Heq & Hne & Hperm). rsimpl.
  eexists. split; [done |]. match goal with |- building _ _ _ ?y => set (n' := y) end.
  assert (pool n (MakeExtInLink src dest link entry :: rest) ≡ₚ omap id q ++ pool n' rest) as Hpool.
  { unfold pool. cbn [mbind list_bind call_inputs]. rewrite Hq. change (remaining w') with (remaining w) in Hperm.
    apply Permutation_app_inv_l in Hperm. cbn. rewrite Hperm. solve_Permutation. }
  destruct (pool_shrink n n' _ _ _ _ Hpool Hc H6) as [Hfree Hbs].
  split; try done.
  - by rewrite <- H3, <- Hl.
  - intros i x Hx. cbn in Hx. destruct (decide (i = dest)) as [->|Hi].
    + rewrite Heq in Hx. injection Hx as <-. exact (H5 dest w Hw).
    + rewrite Hne in Hx by done. exact (H5 i x Hx).
  - intros i x Hx. cbn in Hx. rewrite outs_snoc_none by done. destruct (decide (i = dest)) as [->|Hi].
    + rewrite Heq in Hx. injection Hx as <-. pose proof (H7 dest w Hw) as Hlk.
      apply (has_links_claims n n' _ _ _ _ _ Hbs Hc) in Hlk. destruct Hlk. by split.
    + rewrite Hne in Hx by done. by apply (has_links_claims n n' _ _ _ _ _ Hbs Hc), H7.
Qed.

(** The step shared by both kinds of output link: switch [src] gets an output
    link over the buffers [outq]. *)
Lemma add_output_ok lk cs rest n src outq entry link c o :
  building lk cs (c :: rest) n -> 0 <= src < nr -> 0 < m_bandwidth_factor link ->
  (forall i, out_of i c = if decide (i = src) then Some o else None) -> o_entry o = entry ->
  (forall i, port_need i c = if decide (i = src) then Z.of_nat (length outq) else 0) -> call_inputs c = [] ->
  (forall th, th_out th = outq -> feeds n th (o_target o)) ->
  exists n', with_switch n src (fun w s =>
      Switch_addOutPort w s outq entry (m_latency link) (m_bandwidth_factor link) (sn_endpoint_bandwidth n)) = Ok n' /\
    building lk (cs ++ [c]) rest n'.
Proof using Hvn.
  intros Hb Hs Hbw Hout Hent Hneed Hinp Hfeeds. pose proof Hb as [H1 H2 H3 H4 H5 H6 H7].
  unfold with_switch. destruct (vget_is_ok (m_switches n) src) as [w Hw]; [lia |]. rewrite Hw. rsimpl.
  destruct (pool_switch _ _ _ _ H6 Hw) as [Hnd Hun]. destruct (H5 src w Hw) as [Hn0 Hn1]. cbn [total foldr] in Hn1.
  rewrite Hneed, decide_True in Hn1 by done. fold (total (port_need src) rest) in Hn1.
  pose proof (total_nonneg (port_need src) rest (port_need_nonneg src)) as Htn.
  destruct (Switch_addOutPort_ok w (sn_store n) outq entry (m_latency link) (m_bandwidth_factor link) (sn_endpoint_bandwidth n) Hbw Hn0
    ltac:(lia) Hnd Hun) as (w' & s' & bs & th & -> & Hid & Hpb & Hnum & Hrem & Hbl & Hps & Hth & _ & Hto' & cc & Hc). rsimpl.
  destruct (switch_update (m_switches n) src w w' Hw) as (ws' & -> & Hl & Heq & Hne & Hperm). rsimpl.
  eexists. split; [done |]. match goal with |- building _ _ _ ?y => set (n' := y) end.
  assert (pool n (c :: rest) ≡ₚ bs ++ pool n' rest) as Hpool.
  { unfold pool. cbn [mbind list_bind]. rewrite Hinp, app_nil_l. rewrite Hrem in Hperm.
    assert ((m_switches n ≫= remaining) ≡ₚ bs ++ (ws' ≫= remaining)) as ->.
    { apply (Permutation_app_inv_l (remaining w')). rewrite <- Hperm. solve_Permutation. }
    cbn. solve_Permutation. }
  destruct (pool_shrink n n' _ _ _ _ Hpool Hc H6) as [Hfree Hbs].
  split; try done.
  - by rewrite <- H3, <- Hl.
  - intros i x Hx. cbn in Hx. destruct (decide (i = src)) as [->|Hi].
    + rewrite Heq in Hx. injection Hx as <-. rewrite Hnum, Hpb. lia.
    + rewrite Hne in Hx by done. pose proof (H5 i x Hx) as Hpi. cbn [total foldr] in Hpi.
      rewrite Hneed, decide_False in Hpi by done. exact Hpi.
  - intros i x Hx. cbn in Hx. destruct (decide (i = src)) as [->|Hi].
    + rewrite Heq in Hx. injection Hx as <-. rewrite (outs_snoc_some src cs c o) by (rewrite Hout; by rewrite decide_True).
      apply (has_links_out n' src _ w w' bs th o); try done.
      * by apply (has_links_claims n n' _ _ _ _ _ Hbs Hc), H7.
      * eapply (feeds_claims n n'); [exact Hbs | exact Hc |]. by apply Hfeeds.
      * by rewrite Hps, Hent.
    + rewrite Hne in Hx by done. rewrite outs_snoc_none by (rewrite Hout; by rewrite decide_False).
      by apply (has_links_claims n n' _ _ _ _ _ Hbs Hc), H7.
Qed.

Lemma makeExtOut_ok lk cs rest n src dest link entry :
  let c := MakeExtOutLink src dest link entry in
  building lk cs (c :: rest) n -> 0 <= src < nr -> 0 <= dest < nodes -> 0 < m_bandwidth_factor link ->
  exists n', sn_makeExtOutLink n src dest link entry = Ok n' /\ building lk (cs ++ [c]) rest n'.
Proof using Hvn Hnodes Hfrom.
  intros c Hb Hs Hd Hbw. pose proof Hb as [H1 _ H3 _ _ _ _]. unfold sn_makeExtOutLink.
  rewrite H1, H3, Hnodes, !(proj2 (Z.ltb_lt _ _)) by lia. rsimpl.
  destruct (vget_is_ok (m_fromNetQueues net) dest) as [q Hq]; [lia |]. rewrite Hq. rsimpl.
  apply (add_output_ok lk cs rest n src q entry link c {| o_target := ToNI dest; o_entry := entry; o_weight := m_weight link |}); try done.
  - intros i. cbn. repeat case_decide; done.
  - intros i. cbn. rewrite Hq. destruct (src =? i) eqn:E; b2p; case_decide; done.
  - intros th Hth. cbn. by rewrite Hth.
Qed.

Lemma makeInternal_ok lk cs rest n src dest link entry sd dd :
  let c := MakeInternalLink src dest link entry sd dd in
  building (vn + lk) cs (c :: rest) n -> 0 <= lk -> 0 <= src < nr -> 0 <= dest < nr -> 0 < m_bandwidth_factor link ->
  exists n', sn_makeInternalLink n src dest link entry = Ok n' /\ building lk (cs ++ [c]) rest n'.
Proof using Hvn.
  intros c Hb Hlk Hs Hd Hbw. pose proof Hb as [H1 H2 H3 H4 H5 H6 H7]. unfold sn_makeInternalLink. rewrite H1, H2.
  rewrite take_buffers_ok by lia. rsimpl. rewrite app_nil_l.
  set (bs := take (Z.to_nat vn) (drop (Z.to_nat (sn_num_connected_buffers n)) ilb)).
  assert (Z.of_nat (length bs) = vn) as Hbl by (unfold bs; rewrite length_take, length_drop; lia).
  assert (drop (Z.to_nat (sn_num_connected_buffers n)) ilb = bs ++ drop (Z.to_nat (sn_num_connected_buffers n + vn)) ilb) as Hsplit.
  { unfold bs. rewrite <- (take_drop (Z.to_nat vn) (drop (Z.to_nat (sn_num_connected_buffers n)) ilb)) at 1. f_equal.
    rewrite drop_drop. f_equal. lia. }
  assert (omap id (Some <$> bs) = bs) as Hom by (clear; induction bs; cbn; congruence).
  pose proof H6 as [Hnd Hun]. unfold pool in Hnd, Hun. rewrite Hsplit in Hnd, Hun.
  unfold with_switch at 2. cbn [m_switches sn_store]. cbn.
  destruct (vget_is_ok (m_switches n) dest) as [w Hw]; [lia |]. rewrite Hw. rsimpl. unfold Switch_addInPort.
  destruct (PerfectSwitch_addInPort_ok (perfectSwitch w) (sn_store n) (Some <$> bs)) as (s' & Hadd & Hc).
  { rewrite Hom. apply NoDup_app in Hnd as (_ & _ & Hnd). apply NoDup_app in Hnd as (Hnd & _ & _).
    by apply NoDup_app in Hnd as (Hnd & _ & _). }
  { rewrite Hom. intros b Hbb. apply Hun. rewrite !elem_of_app. auto. }
  rewrite Hadd. rsimpl. rewrite Hom in Hc.
  match goal with |- context [vset (m_switches n) dest ?y] => set (w' := y) end.
  destruct (switch_update (m_switches n) dest w w' Hw) as (ws' & Hset & Hl & Heq & Hne & Hperm). rewrite Hset. rsimpl.
  match goal with |- context [with_switch ?y src] => set (n1 := y) end.
  assert (pool n (c :: rest) ≡ₚ bs ++ pool n1 (c :: rest)) as Hpool.
  { unfold pool. cbn. change (remaining w') with (remaining w) in Hperm. apply Permutation_app_inv_l in Hperm.
    rewrite Hperm, Hsplit. solve_Permutation. }
  destruct (pool_shrink n n1 _ _ _ _ Hpool Hc H6) as [Hfree Hbs].
  assert (building lk cs (c :: rest) n1) as Hb1.
  { split; try done.
    - by rewrite <- H3, <- Hl.
    - cbn. lia.
    - intros i x Hx. cbn in Hx. destruct (decide (i = dest)) as [->|Hi].
      + rewrite Heq in Hx. injection Hx as <-. exact (H5 dest w Hw).
      + rewrite Hne in Hx by done. exact (H5 i x Hx).
    - intros i x Hx. cbn in Hx. destruct (decide (i = dest)) as [->|Hi].
      + rewrite Heq in Hx. injection Hx as <-. pose proof (H7 dest w Hw) as Hlk'.
        apply (has_links_claims n n1 _ _ _ _ _ Hbs Hc) in Hlk'. destruct Hlk'. by split.
      + rewrite Hne in Hx by done. by apply (has_links_claims n n1 _ _ _ _ _ Hbs Hc), H7. }
  apply (add_output_ok lk cs rest n1 src (Some <$> bs) entry link c
    {| o_target := ToRouter dest; o_entry := entry; o_weight := m_weight link |}); try done.
  - intros i. cbn. repeat case_decide; done.
  - intros i. cbn. rewrite length_fmap, Hbl. destruct (src =? i) eqn:E; b2p; case_decide; done.
  - intros th Hth. cbn. rewrite Hth, length_fmap. split; [done |]. apply Forall_fmap, Forall_forall. intros b Hbb. exists b.
    split_and!; [done | |].
    + assert (b ∈ drop (Z.to_nat (sn_num_connected_buffers n)) ilb) as Hin by (rewrite Hsplit; apply elem_of_app; by left).
      rewrite <- (take_drop (Z.to_nat (sn_num_connected_buffers n)) ilb). apply elem_of_app. by right.
    + destruct (H7 dest w Hw) as [[_ Hid] _ _ _ _]. rewrite <- Hid. by apply (cl_claimed _ _ _ _ Hc).
Qed.

Lemma sn_apply_all rest : forall cs n,
  building (total link_need rest) cs rest n -> Forall (call_range nodes nr) rest ->
  Forall (fun c => 0 < m_bandwidth_factor (call_link c)) rest ->
  exists n', foldM sn_apply rest n = Ok n' /\ building 0 (cs ++ rest) [] n'.
Proof using All.
  induction rest as [|c rest IH]; intros cs n Hb Hr Hbw; cbn [foldM].
  { exists n. by rewrite app_nil_r. }
  apply Forall_cons in Hr as [Hc Hr], Hbw as [Hcb Hbw].
  pose proof (total_nonneg link_need rest link_need_nonneg) as Htn.
  assert (exists n1, sn_apply n c = Ok n1 /\ building (total link_need rest) (cs ++ [c]) rest n1) as (n1 & -> & Hb1).
  { destruct c as [s d l en | s d l en | s d l en sd dd]; cbn [sn_apply call_range call_link] in *.
    - destruct Hc. apply makeExtIn_ok; done.
    - destruct Hc. apply makeExtOut_ok; done.
    - destruct Hc as (? & ? & ?). apply makeInternal_ok; done. }
  rsimpl. destruct (IH _ _ Hb1 Hr Hbw) as (n2 & -> & Hb2). exists n2. split; [done |]. by rewrite <- app_assoc in Hb2.
Qed.
End Assembly.

(** ** Following the tables *)

(** Who reads buffer [b] on a virtual network: the node whose incoming buffer
    it is, or the switch that is its consumer. *)
Definition is_incoming (vnet b : Z) (q : list (option Z)) : bool :=
  match vget q vnet with Ok (Some x) => x =? b | _ => false end.
Definition reader (n : SimpleNetwork) (vnet b : Z) : option target :=
  match list_find (fun q => is_incoming vnet b q = true) (m_fromNetQueues (sn_net n)) with
  | Some (k, _) => Some (ToNI (Z.of_nat k))
  | None =>
      match vget (sn_store n) b with
      | Ok mb => match m_consumer mb with Some c => Some (ToRouter (c / 2 ^ 32)) | None => None end
      | Err _ => None
      end
  end.

(** The node a message for the destinations [d] is delivered to, starting in
    switch [i]: the switch routes it, the throttle of the link carries it on.
    [orc] gives, hop by hop, the order in which the links are tried (adaptive
    routing).  [None] if the message is split, or still under way after [fuel]
    hops. *)
Fixpoint sn_walk (e : sn_env) (n : SimpleNetwork) (orc : nat -> list LinkOrder -> list LinkOrder) (fuel : nat)
    (i vnet : Z) (d : netdest) : res (option Z) :=
  w ← vget (m_switches n) i;
  let p := perfectSwitch w in
  outs ← route_message e (p ⟨ m_link_order := orc fuel (m_link_order p) ⟩) d;
  match outs with
  | [(link, part)] =>
      th ← vget (throttles w) link;
      ob ← vget (th_out th) vnet;
      match ob with
      | None => Ok None
      | Some b =>
          match reader n vnet b with
          | None => Ok None
          | Some (ToNI id) => Ok (Some id)
          | Some (ToRouter j) => match fuel with O => Ok None | S fuel => sn_walk e n orc fuel j vnet part end
          end
      end
  | _ => Ok None
  end.

(** A message for one machine is not split. *)
Lemma nd_list_single counts d x : nd_ok counts d -> (forall y, nd_mem d y <-> y = x) -> nd_list d ≡ₚ [x].
Proof.
  intros Hd Hm. apply NoDup_Permutation; [apply NoDup_nd_list | apply NoDup_singleton |]. intros y.
  by rewrite (elem_of_nd_list counts), Hm, list_elem_of_singleton.
Qed.

Lemma copies_length counts p d outs : Forall (copy_ok counts p d) outs -> (length outs <= length (split_dests outs))%nat.
Proof.
  unfold split_dests. induction 1 as [|o outs (Hok & (x & Hx) & _) _ IH]; [cbn; lia |].
  cbn [fmap list_fmap mbind list_bind length]. rewrite length_app. apply (elem_of_nd_list counts) in Hx; [| done].
  destruct (nd_list o.2); [by apply not_elem_of_nil in Hx | cbn in *; lia].
Qed.

Lemma route_single e p d x :
  switch_ok (se_counts e) p -> nd_ok (se_counts e) d -> (forall y, nd_mem d y <-> y = x) -> (exists l, leads_to p l x) ->
  exists l part, route_message e p d = Ok [(l, part)] /\ leads_to p l x /\ nd_ok (se_counts e) part /\
    forall y, nd_mem part y <-> y = x.
Proof.
  intros Hp Hd Hm Hl. destruct (route_message_ok e p Hp d Hd) as (outs & Hr & _ & Hc & Hs & _).
  { intros y ->%Hm. done. }
  pose proof (copies_length _ _ _ _ Hc) as Hlen. rewrite Hs, (nd_list_single _ d x Hd Hm) in Hlen. cbn in Hlen.
  destruct outs as [|[l part] [|o outs]]; [| | cbn in Hlen; lia].
  { exfalso. assert (x ∈ nd_list d) as Hx by (apply (elem_of_nd_list (se_counts e)); [done | by apply Hm]).
    rewrite <- Hs in Hx. by apply not_elem_of_nil in Hx. }
  apply Forall_cons in Hc as [(Hok & (y & Hy) & Hsub) _]. cbn [fst snd] in *.
  pose proof (Hsub y Hy) as [->%Hm Hlead]. exists l, part. split_and!; try done.
  intros z. split; [intros Hz; apply Hm, (Hsub z Hz) | by intros ->].
Qed.

Section Walk.
Context (e : sn_env) (t : Topology) (W dist : Matrix) (calls : list net_call) (n : SimpleNetwork) (net : Network) (ilb : list Z).
Notation counts := (se_counts e).
Let k := num_switches t.
Let m := Topology.m_nodes t.
Context (Hok : topo_ok counts t) (HW : weights_ok k W) (HD : is_shortest k W dist).
Context (Hval : forall i j, 0 <= i < k -> 0 <= j < k -> mval W i j = link_weight t i j).
Context (Hg : Forall (good_call counts t W dist) calls).
Context (Hdom : forall s d, (s, d) ∈ call_key m <$> calls <-> is_Some (m_link_map t !! (s, d))).
Context (Hb : building net ilb (m_number_of_switches t) 0 calls [] n).
Context (x : machineID) (Hx : mid_ok counts x).
Context (v : Z) (Hv : 0 <= v < m_virtual_networks net).
(** Incoming buffers of nodes are their own, and [x] listens on the network. *)
Context (Hapart : forall a q b, vget (m_fromNetQueues net) a = Ok q -> vget q v = Ok (Some b) -> b ∉ ilb).
Context (Hunique : forall a a' q q' b, vget (m_fromNetQueues net) a = Ok q -> vget q v = Ok (Some b) ->
  vget (m_fromNetQueues net) a' = Ok q' -> vget q' v = Ok (Some b) -> a = a').
Context (Hlisten : exists q b, vget (m_fromNetQueues net) (node_of counts x) = Ok q /\ vget q v = Ok (Some b)).
Let f := node_of counts x + m.

Lemma reader_node q b : vget (m_fromNetQueues net) (node_of counts x) = Ok q -> vget q v = Ok (Some b) ->
  reader n v b = Some (ToNI (node_of counts x)).
Proof using Hb Hunique.
  intros Hq Hqb. unfold reader. rewrite (bd_net _ _ _ _ _ _ _ Hb).
  destruct (list_find _ _) as [[a q']|] eqn:E.
  - apply list_find_Some in E as (Ha & Hi & _). do 2 f_equal. unfold is_incoming in Hi.
    destruct (vget q' v) as [[b'|]|] eqn:Eq; try done. apply Z.eqb_eq in Hi as ->.
    exact (Hunique (Z.of_nat a) _ q' q b (vget_nat _ _ _ Ha) Eq Hq Hqb).
  - exfalso. apply list_find_None in E. rewrite Forall_lookup in E. apply vget_Ok in Hq as [_ Hq]. apply (E _ _ Hq).
    unfold is_incoming. rewrite Hqb. by apply Z.eqb_refl.
Qed.

Lemma reader_switch b j : b ∈ ilb -> claimed (sn_store n) (switch_consumer j) b -> reader n v b = Some (ToRouter j).
Proof using Hb Hapart.
  intros Hin (mb & Hmb & Hc). unfold reader. rewrite (bd_net _ _ _ _ _ _ _ Hb).
  destruct (list_find _ _) as [[a q']|] eqn:E.
  - exfalso. apply list_find_Some in E as (Ha & Hi & _). unfold is_incoming in Hi.
    destruct (vget q' v) as [[b'|]|] eqn:Eq; try done. apply Z.eqb_eq in Hi as ->.
    by apply (Hapart _ q' b (vget_nat _ _ _ Ha)).
  - rewrite Hmb, Hc. unfold switch_consumer. rewrite Z.mul_comm, Z.div_mul by done. done.
Qed.

Lemma hop_ok i w order d :
  0 <= i < m_number_of_switches t -> vget (m_switches n) i = Ok w -> i + 2 * m < k ->
  mval dist (i + 2 * m) f < INFINITE_LATENCY -> order ≡ₚ m_link_order (perfectSwitch w) ->
  nd_ok counts d -> (forall y, nd_mem d y <-> y = x) ->
  exists link part th b o, route_message e (perfectSwitch w ⟨ m_link_order := order ⟩) d = Ok [(link, part)] /\
    nd_ok counts part /\ (forall y, nd_mem part y <-> y = x) /\
    vget (throttles w) link = Ok th /\ vget (th_out th) v = Ok (Some b) /\ reader n v b = Some (o_target o) /\
    o ∈ omap (out_of i) calls /\ nd_mem (o_entry o) x.
Proof using All.
  intros Hi Hw Hin Hlt Hord Hd Hm. destruct (bd_links _ _ _ _ _ _ _ Hb i w Hw) as [_ Htab Hlinks Houts Hth].
  set (p := perfectSwitch w ⟨ m_link_order := order ⟩).
  assert (switch_ok counts p) as Hp.
  { split; [apply (tk_counts _ _ Hok) | | |]; change (SimpleNetwork.m_routing_table p) with (SimpleNetwork.m_routing_table (perfectSwitch w)).
    - change (m_link_order p) with order. by rewrite Hord, Hlinks, Htab, length_fmap.
    - by rewrite Htab, length_fmap.
    - rewrite Htab. apply (outs_nd_ok counts t W dist calls Hok Hg). lia. }
  destruct (route_single e p d x Hp Hd Hm) as (link & part & Hr & (en & Hen & Hxe) & Hpart & Hpm).
  { destruct (out_exists counts t W dist calls Hok HW HD Hval Hg Hdom x Hx i) as (q & o & Ho & Hmo & _); [lia | done | done |].
    exists (Z.of_nat q), (o_entry o). split; [| done]. apply vget_nat.
    change (SimpleNetwork.m_routing_table p) with (SimpleNetwork.m_routing_table (perfectSwitch w)).
    by rewrite Htab, list_lookup_fmap, Ho. }
  change (SimpleNetwork.m_routing_table p) with (SimpleNetwork.m_routing_table (perfectSwitch w)) in Hen.
  apply vget_Ok in Hen as [Hl0 Hen]. rewrite Htab, list_lookup_fmap in Hen.
  destruct (omap (out_of i) calls !! Z.to_nat link) as [o|] eqn:Eo; [| done]. injection Hen as <-.
  destruct (Forall2_lookup_r _ _ _ _ _ Hth Eo) as (th & Hthl & Hfeeds).
  assert (o ∈ omap (out_of i) calls) as Hoin by (by eapply list_elem_of_lookup_2).
  destruct (out_closer counts t W dist calls Hok HW HD Hval Hg Hdom x Hx i o ltac:(lia) Hin Hlt Hoin Hxe) as [_ Htg].
  assert (exists b, vget (th_out th) v = Ok (Some b) /\ reader n v b = Some (o_target o)) as (b & Hbv & Hrd).
  { destruct (o_target o) as [j|j]; cbn [feeds] in Hfeeds.
    - destruct Hfeeds as [Hlen Hf]. destruct (vget_is_ok (th_out th) v) as [ob Hob]; [lia |].
      rewrite Forall_lookup in Hf. destruct (Hf _ ob (proj2 (proj1 (vget_Ok _ _ _) Hob))) as (b & -> & Hbi & Hcl).
      exists b. split; [done |]. by apply reader_switch.
    - subst j. destruct Hlisten as (q & b & Hq & Hqb). rewrite Hq in Hfeeds. injection Hfeeds as <-.
      exists b. split; [done |]. by eapply reader_node. }
  exists link, part, th, b, o. split_and!; try done. apply vget_Ok. done.
Qed.

Lemma sn_walk_arrives orc fuel : (forall j l, orc j l ≡ₚ l) -> forall i d,
  nd_ok counts d -> (forall y, nd_mem d y <-> y = x) ->
  0 <= i < m_number_of_switches t -> i + 2 * m < k -> mval dist (i + 2 * m) f < INFINITE_LATENCY ->
  mval dist (i + 2 * m) f <= Z.of_nat fuel ->
  sn_walk e n orc fuel i v d = Ok (Some (node_of counts x)).
Proof using All.
  intros Horc. induction fuel as [|fuel IH]; intros i d Hd Hm Hi Hin Hlt Hfuel; cbn [sn_walk];
    (destruct (vget_is_ok (m_switches n) i) as [w Hw]; [rewrite (bd_switches _ _ _ _ _ _ _ Hb); lia |]);
    rewrite Hw; rsimpl;
    [set (q := O) | set (q := S fuel)];
    destruct (hop_ok i w (orc q (m_link_order (perfectSwitch w))) d Hi Hw Hin Hlt (Horc _ _) Hd Hm)
      as (link & part & th & b & o & -> & Hpart & Hpm & Hth & Hbv & Hrd & Ho & Hmem); rsimpl;
    rewrite Hth; rsimpl; rewrite Hbv; rsimpl; rewrite Hrd;
    destruct (out_closer counts t W dist calls Hok HW HD Hval Hg Hdom x Hx i o ltac:(lia) Hin Hlt Ho Hmem) as [Hpos Htg];
    fold m f in Hpos, Htg; destruct (o_target o) as [j|j].
  - lia.
  - lia.
  - destruct Htg as (? & ? & ?). apply IH; try done; lia.
  - by rewrite Htg.
Qed.
End Walk.

(** ** [init] *)

(** A network as the constructors leave it, for [nr] switches. *)
Record sn_ready (nr : Z) (n : SimpleNetwork) : Prop := {
  sr_vnets : 0 <= m_virtual_networks (sn_net n);
  sr_to : Z.of_nat (length (m_toNetQueues (sn_net n))) = Network.m_nodes (sn_net n);
  sr_from : Z.of_nat (length (m_fromNetQueues (sn_net n))) = Network.m_nodes (sn_net n);
  sr_switches : Z.of_nat (length (m_switches n)) = nr;
  sr_fresh : forall i w, vget (m_switches n) i = Ok w ->
    exists port_buffers, w = Switch_ctor i (m_virtual_networks (sn_net n)) port_buffers;
  sr_num : sn_num_connected_buffers n = 0;
  sr_apart : forall a q v b, vget (m_fromNetQueues (sn_net n)) a = Ok q -> vget q v = Ok (Some b) -> b ∉ m_int_link_buffers n;
  sr_unique : forall a a' q q' v b, vget (m_fromNetQueues (sn_net n)) a = Ok q -> vget q v = Ok (Some b) ->
    vget (m_fromNetQueues (sn_net n)) a' = Ok q' -> vget q' v = Ok (Some b) -> a = a'
}.

(** The configuration has the buffers the links need: enough of them, all
    different, none with a consumer; and links have bandwidth. *)
Record sn_fits (n : SimpleNetwork) (calls : list net_call) : Prop := {
  sf_distinct : NoDup (pool (sn_net n) (m_int_link_buffers n) n calls);
  sf_unclaimed : forall b, b ∈ pool (sn_net n) (m_int_link_buffers n) n calls -> unclaimed (sn_store n) b;
  sf_links : total (link_need (sn_net n)) calls <= Z.of_nat (length (m_int_link_buffers n));
  sf_ports : forall i w, vget (m_switches n) i = Ok w ->
    total (port_need (sn_net n) i) calls <= Z.of_nat (length (m_port_buffers w));
  sf_bandwidth : Forall (fun c => 0 < m_bandwidth_factor (call_link c)) calls
}.

Lemma bind_remaining_init ws : (Switch_init <$> ws) ≫= remaining = ws ≫= remaining.
Proof. induction ws as [|w ws IH]; [done |]. cbn [fmap list_fmap mbind list_bind]. f_equal. exact IH. Qed.

Lemma sn_init_ok counts block t n :
  topo_ok counts t -> sn_ready (m_number_of_switches t) n -> Network.m_nodes (sn_net n) = Topology.m_nodes t ->
  (forall calls, createLinks counts t = Ok (Some calls) -> sn_fits n calls) ->
  let k := num_switches t in
  exists n' W dist calls, SimpleNetwork_init counts block t n = Ok (Some n') /\
    weights_ok k W /\ is_shortest k W dist /\
    (forall i j, 0 <= i < k -> 0 <= j < k -> mval W i j = link_weight t i j) /\
    Forall (good_call counts t W dist) calls /\
    (forall s d, (s, d) ∈ call_key (Topology.m_nodes t) <$> calls <-> is_Some (m_link_map t !! (s, d))) /\
    building (Network_init block (sn_net n)) (m_int_link_buffers n) (m_number_of_switches t) 0 calls [] n'.
Proof.
  intros Hok [R1 R2 R3 R4 R5 R6 R7 R8] Hnodes Hfits k. unfold SimpleNetwork_init.
  destruct (createLinks_ok counts t Hok) as (W & dist & calls & Hcl & HW & HD & Hval & Hg & _ & Hdom).
  rewrite Hcl. rsimpl. destruct (Hfits calls Hcl) as [F1 F2 F3 F4 F5].
  match goal with |- context [foldM sn_apply calls ?y] => set (n1 := y) end.
  destruct (sn_apply_all (Network_init block (sn_net n)) (m_int_link_buffers n) (Topology.m_nodes t) (m_number_of_switches t))
    with (rest := calls) (cs := @nil net_call) (n := n1) as (n' & -> & Hb); try done.
  - by rewrite <- Hnodes.
  - by rewrite <- Hnodes.
  - assert (pool (Network_init block (sn_net n)) (m_int_link_buffers n) n1 calls = pool (sn_net n) (m_int_link_buffers n) n calls) as Hpool.
    { unfold pool. cbn. by rewrite bind_remaining_init. }
    assert (forall i w, vget (m_switches n1) i = Ok w -> exists pb, w = Switch_init (Switch_ctor i (m_virtual_networks (sn_net n)) pb) /\
      vget (m_switches n) i = Ok (Switch_ctor i (m_virtual_networks (sn_net n)) pb)) as Hsw.
    { intros i w [Hi Hw]%vget_Ok. cbn in Hw. rewrite list_lookup_fmap in Hw.
      destruct (m_switches n !! Z.to_nat i) as [w0|] eqn:E; [| done]. injection Hw as <-.
      assert (vget (m_switches n) i = Ok w0) as Hg0 by (by apply vget_Ok). destruct (R5 i w0 Hg0) as (pb & ->). by exists pb. }
    split; try done.
    + cbn. by rewrite length_fmap.
    + cbn. rewrite R6. split; [lia | exact F3].
    + intros i w (pb & -> & Hw)%Hsw. split; [cbn; lia |]. exact (F4 i _ Hw).
    + rewrite Hpool. by split.
    + intros i w (pb & -> & Hw)%Hsw. by split.
  - eapply Forall_impl; [exact Hg |]. intros c Hc. by apply (good_call_range counts t W dist).
  - rsimpl. exists n', W, dist, calls. by split_and!.
Qed.

(** C16.  Messages arrive over the simple network: for every configuration with
    the buffers the links need, the network initialises (every link gets its
    throttle and its buffers, and no buffer two consumers), and a message for
    machine [x], started in any switch from which there is a path of links to
    [x] of weight [c] below the code's infinity, is carried from switch to
    switch and put into [x]'s incoming buffer within [c] hops, whatever order
    the links are tried in along the way (adaptive routing). *)
Theorem simple_network_arrives (e : sn_env) (num_routers : Z)
    (ext_links : list BasicExtLink) (int_links : list BasicIntLink)
    (block_size : Z) (n0 : SimpleNetwork) (x : machineID) (d : netdest) (vnet : Z) :
  config_ok (se_counts e) num_routers ext_links int_links ->
  sn_ready num_routers n0 ->
  (forall t calls, Topology_ctor (se_counts e) num_routers ext_links int_links = Ok t ->
     createLinks (se_counts e) t = Ok (Some calls) -> sn_fits n0 calls) ->
  Network.m_nodes (sn_net n0) = base_of (se_counts e) (MachineType_NUM (se_counts e)) ->
  mid_ok (se_counts e) x -> nd_ok (se_counts e) d -> (forall y, nd_mem d y <-> y = x) ->
  0 <= vnet < m_virtual_networks (sn_net n0) ->
  (exists q b, vget (m_fromNetQueues (sn_net n0)) (node_of (se_counts e) x) = Ok q /\ vget q vnet = Ok (Some b)) ->
  exists t n, Topology_ctor (se_counts e) num_routers ext_links int_links = Ok t /\
    SimpleNetwork_init (se_counts e) block_size t n0 = Ok (Some n) /\
    forall i c orc, 0 <= i < num_routers -> (forall j l, orc j l ≡ₚ l) ->
      link_path t (i + 2 * Topology.m_nodes t) (node_of (se_counts e) x + Topology.m_nodes t) c -> c < INFINITE_LATENCY ->
      sn_walk e n orc (Z.to_nat c) i vnet d = Ok (Some (node_of (se_counts e) x)).
Proof.
  intros Hcfg Hready Hfits Hnodes Hx Hd Hm Hv Hlisten.
  destruct (Topology_ctor_ok (se_counts e) num_routers ext_links int_links Hcfg) as (t & Ht & Hok & Hnr & _).
  rewrite <- Hnr in *. destruct (sn_init_ok (se_counts e) block_size t n0 Hok Hready) as
    (n & W & dist & calls & Hinit & HW & HD & Hval & Hg & Hdom & Hb).
  { by rewrite Hnodes, (tk_nodes _ _ Hok). }
  { intros calls. by apply Hfits. }
  exists t, n. split_and!; [done | done |]. intros i c orc Hi Horc Hp Hc.
  pose proof (final_range (se_counts e) t Hok x Hx) as Hf.
  assert (i + 2 * Topology.m_nodes t < num_switches t) as Hin.
  { pose proof (topo_switches (se_counts e) t Hok).
    pose proof (node_range (se_counts e) _ (tk_counts _ _ Hok) (tk_nodes _ _ Hok) x Hx).
    inversion Hp as [a E1 E2 | a k j l c' He Hp' E1 E2]; [lia |].
    by destruct (topo_range (se_counts e) t _ k l Hok He) as ([_ ?] & _). }
  pose proof (tk_pos _ _ Hok).
  pose proof (dist_le_path (se_counts e) t W dist Hok HD Hval (i + 2 * Topology.m_nodes t) _ c ltac:(lia) Hf Hp) as Hle.
  pose proof (dist_bound (se_counts e) t W dist Hok HW HD Hval (i + 2 * Topology.m_nodes t) _ ltac:(lia) Hf).
  eapply (sn_walk_arrives e t W dist calls n (Network_init block_size (sn_net n0)) (m_int_link_buffers n0)
    Hok HW HD Hval Hg Hdom Hb); try done; try lia.
  - intros a q b. exact (sr_apart _ _ Hready a q vnet b).
  - intros a a' q q' b. exact (sr_unique _ _ Hready a a' q q' vnet b).
Qed.

(** ** The ring of three switches with its two caches and one directory *)

Definition sring_net : Network :=
  {| Network.m_nodes := 3; m_virtual_networks := 2; m_vnet_type_names := ["request"; "response"]%string;
     m_control_msg_size := 8; m_data_msg_size := 0; m_toNetQueues := [[Some 0; Some 1]; [Some 2; Some 3]; [Some 4; None]];
     m_fromNetQueues := [[Some 6; Some 7]; [Some 8; Some 9]; [None; Some 11]]; m_ordered := [false; false]; addrMap := [] |}.
Definition sring_n : SimpleNetwork :=
  SimpleNetwork_ctor sring_net
    [Switch_ctor 0 2 (seqZ 100 8); Switch_ctor 1 2 (seqZ 110 8); Switch_ctor 2 2 (seqZ 120 8)] (seqZ 20 20) 0 1000 true
    (replicate 200 (MessageBuffer_ctor 0 false false)).
Definition sring_env : sn_env :=
  {| se_counts := ring_counts;
     se_ruby := {| getRandomization := false; getWarmupEnabled := false; getBlockSizeBits := 6 |};
     se_adaptive := true; se_ordered := [false; false]; se_now := 0; se_period := 500; se_curTick := 0;
     se_random := fun _ => 0; se_draws := fun _ => (0, 1, 1) |}.

Lemma sring_cases {A} (P : Z -> A -> Prop) (a b c : A) :
  P 0 a -> P 1 b -> P 2 c -> forall i w, vget [a; b; c] i = Ok w -> P i w.
Proof.
  intros Ha Hb Hc i w Hw. pose proof (vget_range _ _ _ Hw) as Hi. cbn in Hi.
  assert (i = 0 \/ i = 1 \/ i = 2) as [->|[->| ->]] by lia; by injection Hw as <-.
Qed.

Lemma sring_ready : sn_ready 3 sring_n.
Proof.
  assert (Hq : forall a q v b, vget (m_fromNetQueues sring_net) a = Ok q -> vget q v = Ok (Some b) ->
    (0 <= v < 2) /\ (b = 6 + 2 * a + v)).
  { intros a q v b Ha. revert a q Ha v b.
    apply (sring_cases (fun a q => forall v b, vget q v = Ok (Some b) -> (0 <= v < 2) /\ (b = 6 + 2 * a + v)));
      intros v b Hb; pose proof (vget_range _ _ _ Hb) as Hv; cbn in Hv; assert (v = 0 \/ v = 1) as [->| ->] by lia;
      injection Hb as <- || discriminate Hb; lia. }
  split; try done.
  - apply sring_cases; by eexists.
  - intros a q v b Ha Hb [Hr _]%elem_of_seqZ. pose proof (vget_range _ _ _ Ha) as Har. cbn in Har.
    destruct (Hq a q v b Ha Hb). lia.
  - intros a a' q q' v b Ha Hb Ha' Hb'. destruct (Hq a q v b Ha Hb), (Hq a' q' v b Ha' Hb'). lia.
Qed.

Definition sring_calls : list net_call :=
  match createLinks ring_counts ring_topo with Ok (Some calls) => calls | _ => [] end.

Lemma sring_calls_eq : createLinks ring_counts ring_topo = Ok (Some sring_calls).
Proof. vm_compute. reflexivity. Qed.

Lemma sring_fits : sn_fits sring_n sring_calls.
Proof.
  split.
  - apply (bool_decide_unpack _). vm_compute. exact I.
  - assert (Forall (fun b => 0 <= b < 200) (pool (sn_net sring_n) (m_int_link_buffers sring_n) sring_n sring_calls)) as Hf.
    { apply (bool_decide_unpack _). vm_compute. exact I. }
    intros b Hb. rewrite Forall_forall in Hf. specialize (Hf b Hb).
    exists (MessageBuffer_ctor 0 false false). split; [| reflexivity].
    apply vget_Ok. split; [lia |]. apply lookup_replicate. split; [done | lia].
  - vm_compute. discriminate.
  - apply sring_cases; vm_compute; discriminate.
  - apply (bool_decide_unpack _). vm_compute. exact I.
Qed.

#[local] Instance res_ok_inj {A} : Inj (=) (=) (@Ok A).
Proof. intros a b H. by injection H. Qed.

Lemma sring_hyp t calls :
  Topology_ctor ring_counts 3 ring_exts ring_ints = Ok t -> createLinks ring_counts t = Ok (Some calls) -> sn_fits sring_n calls.
Proof.
  intros Ht Hc. rewrite ring_topo_eq in Ht. apply (inj Ok) in Ht. subst t. rewrite sring_calls_eq in Hc.
  apply (inj Ok), (inj Some) in Hc. subst calls. exact sring_fits.
Qed.

Lemma simple_network_arrives_witness :
  exists t n, Topology_ctor ring_counts 3 ring_exts ring_ints = Ok t /\
    SimpleNetwork_init ring_counts 64 t sring_n = Ok (Some n) /\
    forall orc, (forall j l, orc j l ≡ₚ l) -> sn_walk sring_env n orc 3 0 1 [RSet 2 0; RSet 1 1] = Ok (Some 2).
Proof.
  destruct (simple_network_arrives sring_env 3 ring_exts ring_ints 64 sring_n (MachineID 1 0) [RSet 2 0; RSet 1 1] 1
    ring_config sring_ready) as (t & n & Ht & Hn & Hwalk); [| done | | apply ring_dest.. | done | |].
  - exact sring_hyp.
  - split; [done |]. by exists 1.
  - by exists [None; Some 11], 11.
  - exists t, n. split_and!; [exact Ht | exact Hn |]. intros orc Horc. apply (Hwalk 0 3 orc); [lia | exact Horc | | done].
    cbn [se_counts sring_env] in Ht. rewrite ring_topo_eq in Ht. rewrite <- (inj Ok _ _ Ht). exact ring_path.
Defined.
