(* ===== verification/IntMath.v ===== *)
(** * Integer helpers: [base/intmath.hh] and [base/bitfield.hh]

    The logarithms, the power-of-two test and the alignment functions that
    cache geometry is computed with.  [ts] is [sizeof(T)] of the template
    argument.

    The theorem: the binary searches of [floorLog2], [ceilLog2], [findMsbSet]
    and [findLsbSet], and the bit trick of [isPowerOf2], agree with the
    mathematical definitions, and [roundDown]/[roundUp] with rounding to a
    multiple. *)
From S2P Require Import Prelude Common.

(** ** Definitions *)

Definition floorLog2 (ts x : Z) : res Z :=
  _ ← cassert (0 <? x);
  let ux := x in
  let y := 0 in
  let '(y, ux) := if (8 <=? ts) && negb (Z.land ux 0xffffffff00000000 =? 0)
                  then (y + 32, Z.shiftr ux 32) else (y, ux) in
  let '(y, ux) := if (4 <=? ts) && negb (Z.land ux 0x00000000ffff0000 =? 0)
                  then (y + 16, Z.shiftr ux 16) else (y, ux) in
  let '(y, ux) := if (2 <=? ts) && negb (Z.land ux 0x000000000000ff00 =? 0)
                  then (y + 8, Z.shiftr ux 8) else (y, ux) in
  let '(y, ux) := if negb (Z.land ux 0x00000000000000f0 =? 0)
                  then (y + 4, Z.shiftr ux 4) else (y, ux) in
  let '(y, ux) := if negb (Z.land ux 0x000000000000000c =? 0)
                  then (y + 2, Z.shiftr ux 2) else (y, ux) in
  let y := if negb (Z.land ux 0x0000000000000002 =? 0) then y + 1 else y in
  Ok y.

Definition ceilLog2 (ts n : Z) : res Z :=
  _ ← cassert (0 <? n);
  if n =? 1 then Ok 0
  else y ← floorLog2 ts (n - 1); Ok (y + 1).

(** [n - 1] in the unsigned type of [ts] bytes. *)
Definition isPowerOf2 (ts n : Z) : bool :=
  negb (n =? 0) && (Z.land n ((n - 1) mod 2 ^ (8 * ts)) =? 0).

Definition roundUp (val align : Z) : res Z :=
  _ ← cassert (isPowerOf2 8 align);
  let mask := u64 (align - 1) in
  Ok (Z.land (u64 (val + mask)) (lnot64 mask)).

Definition roundDown (val align : Z) : res Z :=
  _ ← cassert (isPowerOf2 8 align);
  let mask := u64 (align - 1) in
  Ok (Z.land val (lnot64 mask)).

Definition findMsbSet (val : Z) : Z :=
  let msb := 0 in
  if val =? 0 then 0 else
  let '(msb, val) := if negb (bits val 63 32 =? 0) then (msb + 32, Z.shiftr val 32) else (msb, val) in
  let '(msb, val) := if negb (bits val 31 16 =? 0) then (msb + 16, Z.shiftr val 16) else (msb, val) in
  let '(msb, val) := if negb (bits val 15 8 =? 0) then (msb + 8, Z.shiftr val 8) else (msb, val) in
  let '(msb, val) := if negb (bits val 7 4 =? 0) then (msb + 4, Z.shiftr val 4) else (msb, val) in
  let '(msb, val) := if negb (bits val 3 2 =? 0) then (msb + 2, Z.shiftr val 2) else (msb, val) in
  if negb (bits val 1 1 =? 0) then msb + 1 else msb.

Definition findLsbSet (val : Z) : Z :=
  let lsb := 0 in
  if val =? 0 then 64 else
  let '(lsb, val) := if bits val 31 0 =? 0 then (lsb + 32, Z.shiftr val 32) else (lsb, val) in
  let '(lsb, val) := if bits val 15 0 =? 0 then (lsb + 16, Z.shiftr val 16) else (lsb, val) in
  let '(lsb, val) := if bits val 7 0 =? 0 then (lsb + 8, Z.shiftr val 8) else (lsb, val) in
  let '(lsb, val) := if bits val 3 0 =? 0 then (lsb + 4, Z.shiftr val 4) else (lsb, val) in
  let '(lsb, val) := if bits val 1 0 =? 0 then (lsb + 2, Z.shiftr val 2) else (lsb, val) in
  if bits val 0 0 =? 0 then lsb + 1 else lsb.

(** ** One halving step of a binary search *)

Lemma shiftr_half k ux : 0 <= k -> 0 <= ux < 2 ^ (2 * k) -> 0 <= Z.shiftr ux k < 2 ^ k.
Proof.
  intros Hk Hux. assert (0 < 2 ^ k) by (apply Z.pow_pos_nonneg; lia).
  rewrite Z.shiftr_div_pow2 by done. split; [apply Z.div_pos; lia |].
  apply Z.div_lt_upper_bound; [done |]. rewrite <- Z.pow_add_r by done.
  replace (k + k) with (2 * k) by lia. lia.
Qed.

(** The mask test of [floorLog2] and the [bits] test of [findMsbSet] look at
    the same upper half. *)
Lemma high_half_mask k m ux :
  m = Z.shiftl (Z.ones k) k -> 0 <= k -> 0 <= ux < 2 ^ (2 * k) ->
  Z.land ux m = Z.shiftl (Z.shiftr ux k) k.
Proof.
  intros -> Hk Hux. transitivity (Z.shiftl (Z.land (Z.shiftr ux k) (Z.ones k)) k).
  - rewrite Z.shiftl_land. apply Z.bits_inj'. intros i Hi. rewrite !Z.land_spec.
    destruct (decide (k <= i)).
    + rewrite !Z.shiftl_spec, Z.shiftr_spec by lia. by replace (i - k + k) with i by lia.
    + rewrite !(Z.shiftl_spec_low _ _ i) by lia. by rewrite !andb_false_r.
  - rewrite Z.land_ones, Z.mod_small; [done | by apply shiftr_half | done].
Qed.

Lemma high_half_bits k hi ux :
  hi = 2 * k - 1 -> 0 <= k <= 64 -> 0 <= ux < 2 ^ (2 * k) -> bits ux hi k = Z.shiftr ux k.
Proof.
  intros -> Hk Hux. unfold bits. replace (2 * k - 1 - k + 1) with k by lia.
  rewrite mask_ones, Z.land_ones by lia. apply Z.mod_small, shiftr_half; [lia | done].
Qed.

Lemma low_half_bits k hi ux : hi = k - 1 -> 0 < k <= 64 -> bits ux hi 0 = ux mod 2 ^ k.
Proof.
  intros -> Hk. unfold bits. replace (k - 1 - 0 + 1) with k by lia.
  by rewrite Z.shiftr_0_r, mask_ones, Z.land_ones by lia.
Qed.

Section Halving.
Variable x : Z.

(** The search for the highest bit: [y] bits were shifted out of [x], and the
    rest [ux] has [w] bits. *)
Definition msb_state (w : Z) (s : Z * Z) : Prop :=
  0 < s.2 < 2 ^ w /\ Z.log2 x = s.1 + Z.log2 s.2.

(** The search for the lowest bit: it is among the lowest [w] bits of [ux]. *)
Definition lsb_state (w : Z) (s : Z * Z) : Prop :=
  0 <= s.1 /\ s.2 = Z.shiftr x s.1 /\ x mod 2 ^ s.1 = 0 /\ s.2 mod 2 ^ w <> 0.

Lemma msb_step k (c : bool) y ux :
  0 < k -> msb_state (2 * k) (y, ux) -> (c = true <-> Z.shiftr ux k <> 0) ->
  msb_state k (if c then (y + k, Z.shiftr ux k) else (y, ux)).
Proof.
  unfold msb_state. cbn [fst snd]. intros Hk [Hux Hlog] Hc.
  pose proof (shiftr_half k ux) as Hs. destruct c; cbn [fst snd].
  - assert (Z.shiftr ux k <> 0) by (by apply Hc). split; [lia |].
    rewrite Z.log2_shiftr, Z.max_r by first [lia | apply Z.log2_nonneg |
      enough (k <= Z.log2 ux) by lia; apply Z.log2_le_pow2; [lia |];
      destruct (decide (2 ^ k <= ux)); [done |]; exfalso; apply H;
      apply Z.shiftr_eq_0_iff; right; split; [lia | apply Z.log2_lt_pow2; lia]].
    lia.
  - split; [| done]. split; [lia |]. destruct (decide (ux < 2 ^ k)); [done |].
    assert (Z.shiftr ux k <> 0) as ?%Hc; [| done].
    rewrite Z.shiftr_div_pow2 by lia. pose proof (Z.pow_pos_nonneg 2 k).
    pose proof (Z.div_le_mono (2 ^ k) ux (2 ^ k)). rewrite Z.div_same in * by lia. lia.
Qed.

Lemma lsb_step k (c : bool) y ux :
  0 < k -> lsb_state (2 * k) (y, ux) -> (c = true <-> ux mod 2 ^ k = 0) ->
  lsb_state k (if c then (y + k, Z.shiftr ux k) else (y, ux)).
Proof.
  unfold lsb_state. cbn [fst snd]. intros Hk (Hy & Hux & Hx & Hw) Hc.
  assert (0 < 2 ^ k) by (apply Z.pow_pos_nonneg; lia).
  assert (0 < 2 ^ y) by (apply Z.pow_pos_nonneg; lia).
  destruct c; cbn [fst snd]; [| split_and!; [done.. |]; intros ?%Hc; done].
  assert (Hz : ux mod 2 ^ k = 0) by (by apply Hc). split_and!; [lia | | |].
  - by rewrite Hux, Z.shiftr_shiftr by lia.
  - rewrite Z.pow_add_r, Z.rem_mul_r by lia.
    rewrite Hx, <- Z.shiftr_div_pow2, <- Hux, Hz by lia. lia.
  - replace (2 * k) with (k + k) in Hw by lia.
    rewrite Z.pow_add_r, Z.rem_mul_r, Hz in Hw by lia.
    rewrite Z.shiftr_div_pow2 by lia. nia.
Qed.

Lemma msb_last (c : bool) y ux :
  msb_state 2 (y, ux) -> (c = true <-> Z.shiftr ux 1 <> 0) -> (if c then y + 1 else y) = Z.log2 x.
Proof.
  intros H Hc. pose proof (msb_step 1 c y ux ltac:(lia) H Hc) as [Hu Hl].
  replace (if c then (y + 1, Z.shiftr ux 1) else (y, ux)).2 with 1 in * by lia.
  rewrite Hl. destruct c; cbn; lia.
Qed.

Lemma lsb_last (c : bool) y ux :
  lsb_state 2 (y, ux) -> (c = true <-> ux mod 2 ^ 1 = 0) ->
  let z := if c then y + 1 else y in
  0 <= z /\ Z.testbit x z = true /\ forall i, 0 <= i < z -> Z.testbit x i = false.
Proof.
  intros H Hc z. pose proof (lsb_step 1 c y ux ltac:(lia) H Hc) as (Hz & Hu & Hm & Hb).
  replace (if c then (y + 1, Z.shiftr ux 1) else (y, ux)).1 with z in * by (by destruct c).
  split_and!; [done | |].
  - rewrite Hu, Z.pow_1_r, Zmod_odd in Hb. change (Z.odd ?a) with (Z.testbit a 0) in Hb.
    rewrite Z.shiftr_spec, Z.add_0_l in Hb by lia. by destruct (Z.testbit x z).
  - intros i Hi. rewrite <- (Z.mod_pow2_bits_low x z) by lia. by rewrite Hm, Z.bits_0.
Qed.
End Halving.

(** Runs one step of a search: [L] is the step lemma, [k] the half width and
    [t] proves that the test of the code looks at that half. *)
Ltac half_step L k t :=
  match goal with
  | H : _ _ _ (?y, ?ux) |- context [if ?c then (_, _) else (?y, ?ux)] =>
      let Hn := fresh "Hs" in
      pose proof (L _ k c y ux ltac:(lia) H ltac:(t)) as Hn;
      let y' := fresh "y" in let u' := fresh "u" in
      destruct (if c then _ else _) as [y' u']; clear H
  end.

(** The tests of [floorLog2], [findMsbSet] and [findLsbSet]. *)
Ltac mask_test k :=
  match goal with
  | H : msb_state _ _ (_, ?ux) |- _ =>
      destruct H as [[? ?] _]; cbn [fst snd] in *;
      rewrite ?andb_true_l, (high_half_mask k), Z.shiftl_mul_pow2, negb_true_iff, Z.eqb_neq
        by first [reflexivity | lia]; nia
  end.
Ltac msb_test k :=
  match goal with
  | H : msb_state _ _ (_, ?ux) |- _ =>
      destruct H as [[? ?] _]; cbn [fst snd] in *;
      rewrite (high_half_bits k), negb_true_iff, Z.eqb_neq by lia; done
  end.
Ltac lsb_test k := rewrite (low_half_bits k), Z.eqb_eq by lia; done.

Lemma findMsbSet_log2 x : 0 < x < 2 ^ 64 -> findMsbSet x = Z.log2 x.
Proof.
  intros Hx. unfold findMsbSet. cbv zeta. rewrite (proj2 (Z.eqb_neq x 0)) by lia.
  assert (H : msb_state x (2 * 32) (0, x)) by (split; [done | cbn; lia]).
  half_step msb_step 32 ltac:(idtac; msb_test 32).
  half_step msb_step 16 ltac:(idtac; msb_test 16).
  half_step msb_step 8 ltac:(idtac; msb_test 8).
  half_step msb_step 4 ltac:(idtac; msb_test 4).
  half_step msb_step 2 ltac:(idtac; msb_test 2).
  eapply msb_last; [exact Hs | msb_test 1].
Qed.

Lemma findLsbSet_spec x :
  0 < x < 2 ^ 64 ->
  0 <= findLsbSet x /\ Z.testbit x (findLsbSet x) = true /\
  forall i, 0 <= i < findLsbSet x -> Z.testbit x i = false.
Proof.
  intros Hx. unfold findLsbSet. cbv zeta. rewrite (proj2 (Z.eqb_neq x 0)) by lia.
  assert (H : lsb_state x (2 * 32) (0, x)).
  { split_and!; cbn [fst snd]; [lia | done | apply Z.mod_1_r |]. rewrite Z.mod_small; lia. }
  half_step lsb_step 32 ltac:(idtac; lsb_test 32).
  half_step lsb_step 16 ltac:(idtac; lsb_test 16).
  half_step lsb_step 8 ltac:(idtac; lsb_test 8).
  half_step lsb_step 4 ltac:(idtac; lsb_test 4).
  half_step lsb_step 2 ltac:(idtac; lsb_test 2).
  eapply lsb_last; [exact Hs | lsb_test 1].
Qed.

Definition int_size (ts : Z) : Prop := ts = 1 \/ ts = 2 \/ ts = 4 \/ ts = 8.

Lemma floorLog2_log2 ts x :
  int_size ts -> 0 < x < 2 ^ (8 * ts) -> floorLog2 ts x = Ok (Z.log2 x).
Proof.
  intros Hts Hx. unfold floorLog2. cbv zeta. rewrite (proj2 (Z.ltb_lt 0 x)) by lia. rsimpl.
  assert (H : msb_state x (8 * ts) (0, x)) by (split; [done | cbn; lia]).
  destruct Hts as [->|[->|[->| ->]]]; cbn [Z.leb Z.compare Pos.compare Pos.compare_cont andb].
  4: half_step msb_step 32 ltac:(idtac; mask_test 32).
  3,4: half_step msb_step 16 ltac:(idtac; mask_test 16).
  2,3,4: half_step msb_step 8 ltac:(idtac; mask_test 8).
  all: half_step msb_step 4 ltac:(idtac; mask_test 4);
    half_step msb_step 2 ltac:(idtac; mask_test 2);
    f_equal; eapply msb_last; [eassumption | mask_test 1].
Qed.

Lemma ceilLog2_log2_up ts n :
  int_size ts -> 0 < n < 2 ^ (8 * ts) -> ceilLog2 ts n = Ok (Z.log2_up n).
Proof.
  intros Hts Hn. unfold ceilLog2. rewrite (proj2 (Z.ltb_lt 0 n)) by lia. rsimpl.
  destruct (n =? 1) eqn:E; b2p; [by subst |].
  rewrite floorLog2_log2 by (done || lia). rsimpl. f_equal.
  rewrite Z.log2_up_eqn by lia. unfold Z.succ. by rewrite Z.sub_1_r.
Qed.

Lemma isPowerOf2_spec ts n :
  int_size ts -> 0 <= n < 2 ^ (8 * ts) -> isPowerOf2 ts n = true <-> exists k, 0 <= k /\ n = 2 ^ k.
Proof.
  intros Hts Hn. unfold isPowerOf2.
  destruct (decide (n = 0)) as [->|Hn0].
  { rewrite Z.eqb_refl. split; [done |]. intros (k & ? & ?).
    pose proof (Z.pow_pos_nonneg 2 k). lia. }
  rewrite (proj2 (Z.eqb_neq n 0)), Z.mod_small by lia. cbn [negb andb]. rewrite Z.eqb_eq.
  assert (Hl : 2 ^ Z.log2 n <= n < 2 ^ Z.succ (Z.log2 n)) by (apply Z.log2_spec; lia).
  pose proof (Z.log2_nonneg n). rewrite Z.pow_succ_r in Hl by done.
  assert (Ht : Z.testbit n (Z.log2 n) = true) by (apply Z.bit_log2; lia).
  split.
  - intros Hz. exists (Z.log2 n). split; [done |].
    destruct (decide (n = 2 ^ Z.log2 n)) as [|Hne]; [done |].
    assert (Hb : Z.testbit (Z.land n (n - 1)) (Z.log2 n) = true); [| by rewrite Hz, Z.bits_0 in Hb].
    rewrite Z.land_spec, Ht, andb_true_l.
    replace (Z.log2 n) with (Z.log2 (n - 1)); [apply Z.bit_log2; lia |].
    apply Z.log2_unique; rewrite ?Z.pow_succ_r by done; lia.
  - intros (k & Hk & ->). rewrite Z.sub_1_r, <- Z.ones_equiv, Z.land_ones by done.
    apply Z.mod_same. pose proof (Z.pow_pos_nonneg 2 k). lia.
Qed.

Lemma land_lnot_mask k v :
  0 <= k < 64 -> in_u64 v -> Z.land v (lnot64 (u64 (2 ^ k - 1))) = v - v mod 2 ^ k.
Proof.
  intros Hk Hv. rewrite <- mbits_high by (done || lia). unfold mbits. f_equal.
  pose proof (Z.pow_pos_nonneg 2 k). pose proof (Z.pow_lt_mono_r 2 k 64).
  rewrite u64_id, (mask_ones k), Z.ones_equiv, Z.sub_1_r by (unfold in_u64; lia).
  rewrite Z.land_comm, mask_ones, Z.land_ones by lia. unfold lnot64, u64.
  by rewrite Z.mod_mod by lia.
Qed.

Lemma roundDown_spec k v :
  0 <= k < 64 -> in_u64 v -> roundDown v (2 ^ k) = Ok (v - v mod 2 ^ k).
Proof.
  intros Hk Hv. pose proof (Z.pow_pos_nonneg 2 k). pose proof (Z.pow_lt_mono_r 2 k 64).
  unfold roundDown. rewrite (proj2 (isPowerOf2_spec 8 (2 ^ k) ltac:(by repeat right) ltac:(lia))) by (exists k; lia).
  rsimpl. by rewrite land_lnot_mask.
Qed.

Lemma roundUp_spec k v :
  0 <= k < 64 -> 0 <= v -> v + 2 ^ k - 1 < 2 ^ 64 ->
  exists r, roundUp v (2 ^ k) = Ok r /\ (2 ^ k | r) /\ v <= r < v + 2 ^ k.
Proof.
  intros Hk Hv Ho. pose proof (Z.pow_pos_nonneg 2 k). pose proof (Z.pow_lt_mono_r 2 k 64).
  unfold roundUp. rewrite (proj2 (isPowerOf2_spec 8 (2 ^ k) ltac:(by repeat right) ltac:(lia))) by (exists k; lia).
  rsimpl. rewrite land_lnot_mask by (done || apply u64_range).
  rewrite (u64_id (2 ^ k - 1)), u64_id by (unfold in_u64; lia).
  pose proof (Z.mod_pos_bound (v + (2 ^ k - 1)) (2 ^ k)).
  pose proof (Z.div_mod (v + (2 ^ k - 1)) (2 ^ k)).
  eexists; split; [done |]. split; [| lia].
  exists ((v + (2 ^ k - 1)) / 2 ^ k). lia.
Qed.

(** The integer helpers agree with their mathematical definitions on
    every positive value of their type: [floorLog2] is the logarithm rounded
    down and [ceilLog2] rounded up, [findMsbSet] is the position of the highest
    set bit and [findLsbSet] of the lowest, [isPowerOf2] recognises exactly the
    powers of two, and the logarithm of zero stops at an assertion. *)
Theorem log2_reference (ts x : Z) :
  int_size ts -> 0 <= x < 2 ^ (8 * ts) ->
  if decide (x = 0) then
    floorLog2 ts x = Err EAssert /\ ceilLog2 ts x = Err EAssert /\
    findMsbSet x = 0 /\ findLsbSet x = 64 /\ isPowerOf2 ts x = false
  else
    floorLog2 ts x = Ok (Z.log2 x) /\ ceilLog2 ts x = Ok (Z.log2_up x) /\
    findMsbSet x = Z.log2 x /\
    (Z.testbit x (findLsbSet x) = true /\
     forall i, 0 <= i < findLsbSet x -> Z.testbit x i = false) /\
    (isPowerOf2 ts x = true <-> exists k, 0 <= k /\ x = 2 ^ k).
Proof.
  intros Hts Hx. case_decide; [by subst |].
  assert (2 ^ (8 * ts) <= 2 ^ 64) by (apply Z.pow_le_mono_r; destruct Hts as [->|[->|[->| ->]]]; lia).
  pose proof (findLsbSet_spec x ltac:(lia)) as (_ & ? & ?).
  split_and!; [apply floorLog2_log2 | apply ceilLog2_log2_up | apply findMsbSet_log2 | |
    | apply isPowerOf2_spec]; (done || lia).
Qed.

Lemma log2_reference_witness :
  floorLog2 4 96 = Ok 6 /\ ceilLog2 4 96 = Ok 7 /\ findMsbSet 96 = 6 /\ findLsbSet 96 = 5.
Proof.
  pose proof (log2_reference 4 96 ltac:(by right; right; left) ltac:(lia)) as (H1 & H2 & H3 & _).
  split_and!; [exact H1 | exact H2 | exact H3 | reflexivity].
Defined.
