(* ===== verification/Replacement.v ===== *)
(** * Replacement policies: [mem/cache/replacement_policies] and
      [base/sat_counter.hh]

    A replacement policy hands out replacement data to the entries of a cache
    and picks the victim among the candidates of a set.  [std::shared_ptr] to
    replacement data is a handle: the position of the object in the list of
    the objects the policy has made.  An operation runs in an [Env]: the
    current tick and the random number generator.

    - [BaseReplacementPolicy] is the C++ interface, [ReplacementLaws] what a
      cache may rely on;
    - [EntryPolicy] is the special case of the policies whose objects are
      independent of each other: LRU, BIP, FIFO, MRU, LFU, Random, WeightedLRU,
      SecondChance and BRRIP are instances, and any such policy satisfies
      [ReplacementLaws].

    Tree-PLRU, whose entries share a tree, is in TreePLRU.v. *)
From S2P Require Import Prelude.

(** ** Saturating counters *)

Record SatCounter := { initialVal : Z; maxVal : Z; counter : Z }.

#[global] Instance SatCounter_eta : Eta SatCounter :=
  {| eta r := {| initialVal := initialVal r; maxVal := maxVal r; counter := counter r |} |}.

Definition u8 (z : Z) : Z := z mod 2 ^ 8.

Definition SatCounter_ctor (bits initial_val : Z) : res SatCounter :=
  let maxVal := u8 (Z.shiftl 1 bits - 1) in
  _ ← fatal_if (8 <? bits);
  _ ← fatal_if (maxVal <? initial_val);
  Ok {| initialVal := initial_val; maxVal := maxVal; counter := initial_val |}.

Definition sat_inc (c : SatCounter) : SatCounter :=
  if counter c <? maxVal c then c ⟨ counter := u8 (counter c + 1) ⟩ else c.

Definition sat_dec (c : SatCounter) : SatCounter :=
  if 0 <? counter c then c ⟨ counter := u8 (counter c - 1) ⟩ else c.

Definition sat_shr (c : SatCounter) (shift : Z) : res SatCounter :=
  _ ← cassert (0 <=? shift);
  Ok (c ⟨ counter := u8 (Z.shiftr (counter c) shift) ⟩).

(** The shift is made in [int] and its result stored in a [uint8_t]. *)
Definition sat_shl (c : SatCounter) (shift : Z) : res SatCounter :=
  _ ← cassert (0 <=? shift);
  let c := c ⟨ counter := u8 (Z.shiftl (counter c) shift) ⟩ in
  Ok (if maxVal c <? counter c then c ⟨ counter := maxVal c ⟩ else c).

(** [operator+=] and [operator-=] for a value of their own sign, and the two
    operators, which call each other with the opposite value. *)
Definition sat_add_nonneg (c : SatCounter) (value : Z) : SatCounter :=
  if value <=? maxVal c - counter c then c ⟨ counter := u8 (counter c + value) ⟩
  else c ⟨ counter := maxVal c ⟩.

Definition sat_sub_nonneg (c : SatCounter) (value : Z) : SatCounter :=
  if value <? counter c then c ⟨ counter := u8 (counter c - value) ⟩
  else c ⟨ counter := 0 ⟩.

Definition sat_add (c : SatCounter) (value : Z) : SatCounter :=
  if 0 <=? value then sat_add_nonneg c value else sat_sub_nonneg c (- value).

Definition sat_sub (c : SatCounter) (value : Z) : SatCounter :=
  if 0 <=? value then sat_sub_nonneg c value else sat_add_nonneg c (- value).

Definition sat_reset (c : SatCounter) : SatCounter := c ⟨ counter := initialVal c ⟩.

Definition isSaturated (c : SatCounter) : bool := counter c =? maxVal c.

Definition saturate (c : SatCounter) : SatCounter * Z :=
  let diff := u8 (maxVal c - counter c) in (c ⟨ counter := maxVal c ⟩, diff).

(** ** The interface *)

(** [curTick()] and [random_mt.random<unsigned>(min, max)]. *)
Record Env := { curTick : Z; random : Z -> Z -> Z }.

(** [std::uniform_int_distribution] draws from the closed interval. *)
Definition env_ok (e : Env) : Prop :=
  in_u64 (curTick e) /\ forall lo hi, lo <= hi -> lo <= random e lo hi <= hi.

Record ReplaceableEntry := { _set : Z; _way : Z; replacementData : Z }.

#[global] Instance ReplaceableEntry_eta : Eta ReplaceableEntry :=
  {| eta r := {| _set := _set r; _way := _way r; replacementData := replacementData r |} |}.

#[global] Instance ReplaceableEntry_eq_dec : EqDecision ReplaceableEntry.
Proof. solve_decision. Defined.

Definition setPosition (entry : ReplaceableEntry) (set way : Z) : ReplaceableEntry :=
  entry ⟨ _set := set ⟩ ⟨ _way := way ⟩.

(** [P] is the policy object with the replacement data it has made.  The last
    operation is the overload of [WeightedLRUPolicy], which a client reaches
    with a [dynamic_cast]. *)
Class BaseReplacementPolicy (P : Type) := {
  invalidate : Env -> P -> Z -> res P;
  touch : Env -> P -> Z -> res P;
  reset : Env -> P -> Z -> res P;
  getVictim : Env -> P -> list ReplaceableEntry -> res (P * ReplaceableEntry);
  instantiateEntry : P -> res (P * Z);
  touch_occupancy : option (Env -> P -> Z -> Z -> res P)
}.

(** [n] consecutive calls of [instantiateEntry]. *)
Fixpoint instantiateEntries {P} `{BaseReplacementPolicy P} (n : nat) (s : P) : res (P * list Z) :=
  match n with
  | O => Ok (s, [])
  | S n =>
      r ← instantiateEntry s;
      q ← instantiateEntries n r.1;
      Ok (q.1, r.2 :: q.2)
  end.

(** What a set-associative cache relies on: the handles of one set are made
    by consecutive calls, which is what [rp_ready] prepares and [rp_set]
    records; operations on such handles succeed and keep every set usable;
    the victim is one of the candidates. *)
Class ReplacementLaws (P : Type) `{BaseReplacementPolicy P} := {
  rp_set : P -> list Z -> Prop;
  rp_ready : nat -> P -> Prop;
  rp_keeps (s s' : P) : Prop :=
    (forall l, rp_set s l -> rp_set s' l) /\ (forall n, rp_ready n s -> rp_ready n s');
  rp_update (f : Env -> P -> Z -> res P) : Prop :=
    forall e s l p, env_ok e -> rp_set s l -> p ∈ l ->
      exists s', f e s p = Ok s' /\ rp_keeps s s';
  invalidate_law : rp_update invalidate;
  touch_law : rp_update touch;
  reset_law : rp_update reset;
  touch_occupancy_law f occ :
    touch_occupancy = Some f -> rp_update (fun e s p => f e s p occ);
  getVictim_law e s cands :
    env_ok e -> rp_set s (map replacementData cands) ->
    exists s' v, getVictim e s cands = Ok (s', v) /\ v ∈ cands /\ rp_keeps s s';
  instantiate_law n s :
    rp_ready n s ->
    exists s' l, instantiateEntries n s = Ok (s', l) /\ length l = n /\
      rp_set s' l /\ rp_keeps s s'
}.

(** ** Policies with independent entries *)

(** [C] is the class of the policy object (its constant members). *)
Class EntryPolicy (C : Type) := {
  ReplData : Type;
  ep_invalidate : C -> Env -> ReplData -> ReplData;
  ep_touch : C -> Env -> ReplData -> ReplData;
  ep_reset : C -> Env -> ReplData -> ReplData;
  ep_getVictim : C -> Env -> list ReplData -> list ReplaceableEntry ->
    res (list ReplData * ReplaceableEntry);
  ep_new : C -> res ReplData;
  ep_touch_occupancy : option (C -> Env -> ReplData -> Z -> ReplData)
}.
Arguments ReplData C {_}.

Record Policy (C : Type) `{EntryPolicy C} := { object : C; objs : list (ReplData C) }.
Arguments object {C _} _.
Arguments objs {C _} _.
Arguments Build_Policy {C _} _ _.

(** The assignment through a [shared_ptr]. *)
Definition at_ptr {C} `{EntryPolicy C} (f : C -> ReplData C -> ReplData C)
    (s : Policy C) (p : Z) : res (Policy C) :=
  l ← vupd (objs s) p (fun d => Ok (f (object s) d));
  Ok (Build_Policy (object s) l).

#[global] Instance Policy_base {C} `{EntryPolicy C} : BaseReplacementPolicy (Policy C) := {
  invalidate e := at_ptr (fun c => ep_invalidate c e);
  touch e := at_ptr (fun c => ep_touch c e);
  reset e := at_ptr (fun c => ep_reset c e);
  getVictim e s candidates :=
    r ← ep_getVictim (object s) e (objs s) candidates;
    Ok (Build_Policy (object s) r.1, r.2);
  instantiateEntry s :=
    d ← ep_new (object s);
    Ok (Build_Policy (object s) (objs s ++ [d]), Z.of_nat (length (objs s)));
  touch_occupancy :=
    (fun f e s p occ => at_ptr (fun c d => f c e d occ) s p) <$> ep_touch_occupancy
}.

(** The replacement data of a candidate. *)
Definition data_of {D} (objs : list D) (entry : ReplaceableEntry) : res D :=
  vget objs (replacementData entry).

(** The victim search LRU, FIFO, LFU and WeightedLRU share: the first
    candidate is the dummy victim, and a candidate replaces the victim when
    its data is [better]. *)
Definition search_victim {D} (better : D -> D -> bool) (objs : list D)
    (candidates : list ReplaceableEntry) : res ReplaceableEntry :=
  _ ← cassert (0 <? Z.of_nat (length candidates));
  victim ← vget candidates 0;
  foldM (fun victim candidate =>
    c ← data_of objs candidate; v ← data_of objs victim;
    Ok (if better c v then candidate else victim)) candidates victim.

(** *** [LRURP] *)
Record LRUReplData := { lastTouchTick : Z }.
#[global] Instance LRUReplData_eta : Eta LRUReplData :=
  {| eta r := {| lastTouchTick := lastTouchTick r |} |}.

Record LRURP := LRURP_ctor {}.

Definition LRURP_invalidate (_ : LRURP) (_ : Env) (d : LRUReplData) : LRUReplData :=
  d ⟨ lastTouchTick := 0 ⟩.
Definition LRURP_touch (_ : LRURP) (e : Env) (d : LRUReplData) : LRUReplData :=
  d ⟨ lastTouchTick := curTick e ⟩.
Definition LRURP_reset (_ : LRURP) (e : Env) (d : LRUReplData) : LRUReplData :=
  d ⟨ lastTouchTick := curTick e ⟩.
Definition LRURP_getVictim (objs : list LRUReplData) (candidates : list ReplaceableEntry)
    : res ReplaceableEntry :=
  search_victim (fun c v => lastTouchTick c <? lastTouchTick v) objs candidates.
Definition LRURP_instantiateEntry : LRUReplData := {| lastTouchTick := 0 |}.

#[global] Instance LRURP_policy : EntryPolicy LRURP := {
  ep_invalidate := LRURP_invalidate; ep_touch := LRURP_touch; ep_reset := LRURP_reset;
  ep_getVictim _ _ objs candidates := v ← LRURP_getVictim objs candidates; Ok (objs, v);
  ep_new _ := Ok LRURP_instantiateEntry; ep_touch_occupancy := None
}.

(** *** [BIPRP]: LRU with a bimodal insertion *)
Record BIPRP := BIPRP_ctor { bip_btp : Z }.

Definition BIPRP_reset (c : BIPRP) (e : Env) (d : LRUReplData) : LRUReplData :=
  if random e 1 100 <=? bip_btp c then d ⟨ lastTouchTick := curTick e ⟩
  else d ⟨ lastTouchTick := 1 ⟩.

#[global] Instance BIPRP_policy : EntryPolicy BIPRP := {
  ep_invalidate _ := LRURP_invalidate (LRURP_ctor); ep_touch _ := LRURP_touch LRURP_ctor;
  ep_reset := BIPRP_reset;
  ep_getVictim _ _ objs candidates := v ← LRURP_getVictim objs candidates; Ok (objs, v);
  ep_new _ := Ok LRURP_instantiateEntry; ep_touch_occupancy := None
}.

(** *** [FIFORP] *)
Record FIFOReplData := { tickInserted : Z }.
#[global] Instance FIFOReplData_eta : Eta FIFOReplData :=
  {| eta r := {| tickInserted := tickInserted r |} |}.

Record FIFORP := FIFORP_ctor {}.

Definition FIFORP_invalidate (_ : FIFORP) (_ : Env) (d : FIFOReplData) : FIFOReplData :=
  d ⟨ tickInserted := 0 ⟩.
Definition FIFORP_touch (_ : FIFORP) (_ : Env) (d : FIFOReplData) : FIFOReplData := d.
Definition FIFORP_reset (_ : FIFORP) (e : Env) (d : FIFOReplData) : FIFOReplData :=
  d ⟨ tickInserted := curTick e ⟩.
Definition FIFORP_getVictim (objs : list FIFOReplData) (candidates : list ReplaceableEntry)
    : res ReplaceableEntry :=
  search_victim (fun c v => tickInserted c <? tickInserted v) objs candidates.
Definition FIFORP_instantiateEntry : FIFOReplData := {| tickInserted := 0 |}.

#[global] Instance FIFORP_policy : EntryPolicy FIFORP := {
  ep_invalidate := FIFORP_invalidate; ep_touch := FIFORP_touch; ep_reset := FIFORP_reset;
  ep_getVictim _ _ objs candidates := v ← FIFORP_getVictim objs candidates; Ok (objs, v);
  ep_new _ := Ok FIFORP_instantiateEntry; ep_touch_occupancy := None
}.

(** *** [MRURP] *)
Record MRUReplData := { mru_lastTouchTick : Z }.
#[global] Instance MRUReplData_eta : Eta MRUReplData :=
  {| eta r := {| mru_lastTouchTick := mru_lastTouchTick r |} |}.

Record MRURP := MRURP_ctor {}.

Definition MRURP_invalidate (_ : MRURP) (_ : Env) (d : MRUReplData) : MRUReplData :=
  d ⟨ mru_lastTouchTick := 0 ⟩.
Definition MRURP_touch (_ : MRURP) (e : Env) (d : MRUReplData) : MRUReplData :=
  d ⟨ mru_lastTouchTick := curTick e ⟩.
Definition MRURP_reset (_ : MRURP) (e : Env) (d : MRUReplData) : MRUReplData :=
  d ⟨ mru_lastTouchTick := curTick e ⟩.
Definition MRURP_getVictim (objs : list MRUReplData) (candidates : list ReplaceableEntry)
    : res ReplaceableEntry :=
  _ ← cassert (0 <? Z.of_nat (length candidates));
  victim ← vget candidates 0;
  r ← foldM_brk (fun victim candidate =>
    c ← data_of objs candidate;
    if mru_lastTouchTick c =? 0 then Ok (true, candidate)
    else
      v ← data_of objs victim;
      Ok (false, if mru_lastTouchTick v <? mru_lastTouchTick c then candidate else victim))
    candidates victim;
  Ok r.2.
Definition MRURP_instantiateEntry : MRUReplData := {| mru_lastTouchTick := 0 |}.

#[global] Instance MRURP_policy : EntryPolicy MRURP := {
  ep_invalidate := MRURP_invalidate; ep_touch := MRURP_touch; ep_reset := MRURP_reset;
  ep_getVictim _ _ objs candidates := v ← MRURP_getVictim objs candidates; Ok (objs, v);
  ep_new _ := Ok MRURP_instantiateEntry; ep_touch_occupancy := None
}.

(** *** [LFURP] *)
Record LFUReplData := { refCount : Z }.
#[global] Instance LFUReplData_eta : Eta LFUReplData :=
  {| eta r := {| refCount := refCount r |} |}.

Record LFURP := LFURP_ctor {}.

Definition LFURP_invalidate (_ : LFURP) (_ : Env) (d : LFUReplData) : LFUReplData :=
  d ⟨ refCount := 0 ⟩.
Definition LFURP_touch (_ : LFURP) (_ : Env) (d : LFUReplData) : LFUReplData :=
  d ⟨ refCount := u32 (refCount d + 1) ⟩.
Definition LFURP_reset (_ : LFURP) (_ : Env) (d : LFUReplData) : LFUReplData :=
  d ⟨ refCount := 1 ⟩.
Definition LFURP_getVictim (objs : list LFUReplData) (candidates : list ReplaceableEntry)
    : res ReplaceableEntry :=
  search_victim (fun c v => refCount c <? refCount v) objs candidates.
Definition LFURP_instantiateEntry : LFUReplData := {| refCount := 0 |}.

#[global] Instance LFURP_policy : EntryPolicy LFURP := {
  ep_invalidate := LFURP_invalidate; ep_touch := LFURP_touch; ep_reset := LFURP_reset;
  ep_getVictim _ _ objs candidates := v ← LFURP_getVictim objs candidates; Ok (objs, v);
  ep_new _ := Ok LFURP_instantiateEntry; ep_touch_occupancy := None
}.

(** *** [RandomRP] *)
Record RandomReplData := { random_valid : bool }.
#[global] Instance RandomReplData_eta : Eta RandomReplData :=
  {| eta r := {| random_valid := random_valid r |} |}.

Record RandomRP := RandomRP_ctor {}.

Definition RandomRP_invalidate (_ : RandomRP) (_ : Env) (d : RandomReplData) : RandomReplData :=
  d ⟨ random_valid := false ⟩.
Definition RandomRP_touch (_ : RandomRP) (_ : Env) (d : RandomReplData) : RandomReplData := d.
Definition RandomRP_reset (_ : RandomRP) (_ : Env) (d : RandomReplData) : RandomReplData :=
  d ⟨ random_valid := true ⟩.
Definition RandomRP_getVictim (e : Env) (objs : list RandomReplData)
    (candidates : list ReplaceableEntry) : res ReplaceableEntry :=
  _ ← cassert (0 <? Z.of_nat (length candidates));
  victim ← vget candidates (random e 0 (Z.of_nat (length candidates) - 1));
  r ← foldM_brk (fun victim candidate =>
    c ← data_of objs candidate;
    if negb (random_valid c) then Ok (true, candidate) else Ok (false, victim)) candidates victim;
  Ok r.2.
Definition RandomRP_instantiateEntry : RandomReplData := {| random_valid := false |}.

#[global] Instance RandomRP_policy : EntryPolicy RandomRP := {
  ep_invalidate := RandomRP_invalidate; ep_touch := RandomRP_touch; ep_reset := RandomRP_reset;
  ep_getVictim _ e objs candidates := v ← RandomRP_getVictim e objs candidates; Ok (objs, v);
  ep_new _ := Ok RandomRP_instantiateEntry; ep_touch_occupancy := None
}.

(** *** [WeightedLRUPolicy] *)
Record WeightedLRUReplData := { last_occ_ptr : Z; last_touch_tick : Z }.
#[global] Instance WeightedLRUReplData_eta : Eta WeightedLRUReplData :=
  {| eta r := {| last_occ_ptr := last_occ_ptr r; last_touch_tick := last_touch_tick r |} |}.

Record WeightedLRUPolicy := WeightedLRUPolicy_ctor {}.

Definition WeightedLRU_touch (_ : WeightedLRUPolicy) (e : Env) (d : WeightedLRUReplData)
    : WeightedLRUReplData := d ⟨ last_touch_tick := curTick e ⟩.
Definition WeightedLRU_touch_occupancy (_ : WeightedLRUPolicy) (e : Env)
    (d : WeightedLRUReplData) (occupancy : Z) : WeightedLRUReplData :=
  d ⟨ last_touch_tick := curTick e ⟩ ⟨ last_occ_ptr := occupancy ⟩.
Definition WeightedLRU_reset (_ : WeightedLRUPolicy) (e : Env) (d : WeightedLRUReplData)
    : WeightedLRUReplData := d ⟨ last_touch_tick := curTick e ⟩.
Definition WeightedLRU_invalidate (_ : WeightedLRUPolicy) (_ : Env) (d : WeightedLRUReplData)
    : WeightedLRUReplData := d ⟨ last_touch_tick := 0 ⟩.
Definition WeightedLRU_getVictim (objs : list WeightedLRUReplData)
    (candidates : list ReplaceableEntry) : res ReplaceableEntry :=
  search_victim (fun c v =>
    if last_occ_ptr c <? last_occ_ptr v then true
    else if last_occ_ptr c =? last_occ_ptr v then last_touch_tick c <? last_touch_tick v
    else false) objs candidates.
Definition WeightedLRU_instantiateEntry : WeightedLRUReplData :=
  {| last_occ_ptr := 0; last_touch_tick := 0 |}.

#[global] Instance WeightedLRU_policy : EntryPolicy WeightedLRUPolicy := {
  ep_invalidate := WeightedLRU_invalidate; ep_touch := WeightedLRU_touch;
  ep_reset := WeightedLRU_reset;
  ep_getVictim _ _ objs candidates := v ← WeightedLRU_getVictim objs candidates; Ok (objs, v);
  ep_new _ := Ok WeightedLRU_instantiateEntry;
  ep_touch_occupancy := Some WeightedLRU_touch_occupancy
}.

(** *** [SecondChanceRP], derived from [FIFORP] *)
Record SecondChanceReplData := { fifo : FIFOReplData; hasSecondChance : bool }.
#[global] Instance SecondChanceReplData_eta : Eta SecondChanceReplData :=
  {| eta r := {| fifo := fifo r; hasSecondChance := hasSecondChance r |} |}.

Record SecondChanceRP := SecondChanceRP_ctor { fiforp : FIFORP }.

Definition useSecondChance (c : SecondChanceRP) (e : Env) (d : SecondChanceReplData)
    : SecondChanceReplData :=
  d ⟨ fifo := FIFORP_reset (fiforp c) e (fifo d) ⟩ ⟨ hasSecondChance := false ⟩.
Definition SecondChanceRP_invalidate (c : SecondChanceRP) (e : Env) (d : SecondChanceReplData)
    : SecondChanceReplData :=
  d ⟨ fifo := FIFORP_invalidate (fiforp c) e (fifo d) ⟩ ⟨ hasSecondChance := false ⟩.
Definition SecondChanceRP_touch (c : SecondChanceRP) (e : Env) (d : SecondChanceReplData)
    : SecondChanceReplData :=
  d ⟨ fifo := FIFORP_touch (fiforp c) e (fifo d) ⟩ ⟨ hasSecondChance := true ⟩.
Definition SecondChanceRP_reset (c : SecondChanceRP) (e : Env) (d : SecondChanceReplData)
    : SecondChanceReplData :=
  d ⟨ fifo := FIFORP_reset (fiforp c) e (fifo d) ⟩ ⟨ hasSecondChance := false ⟩.

(** The search for an invalid entry (lines 90-102). *)
Fixpoint find_invalid (objs : list SecondChanceReplData) (candidates : list ReplaceableEntry)
    : res (option ReplaceableEntry) :=
  match candidates with
  | [] => Ok None
  | candidate :: rest =>
      c ← data_of objs candidate;
      if (tickInserted (fifo c) =? 0) && negb (hasSecondChance c) then Ok (Some candidate)
      else find_invalid objs rest
  end.

(** The [while (search_victim)] loop. *)
Fixpoint second_chance_loop (fuel : nat) (c : SecondChanceRP) (e : Env)
    (objs : list SecondChanceReplData) (candidates : list ReplaceableEntry)
    : res (list SecondChanceReplData * ReplaceableEntry) :=
  match fuel with
  | O => Err EFuel
  | S fuel =>
      victim ← FIFORP_getVictim (map fifo objs) candidates;
      v ← data_of objs victim;
      if hasSecondChance v then
        objs ← vset objs (replacementData victim) (useSecondChance c e v);
        second_chance_loop fuel c e objs candidates
      else Ok (objs, victim)
  end.

Definition SecondChanceRP_getVictim (c : SecondChanceRP) (e : Env)
    (objs : list SecondChanceReplData) (candidates : list ReplaceableEntry)
    : res (list SecondChanceReplData * ReplaceableEntry) :=
  _ ← cassert (0 <? Z.of_nat (length candidates));
  invalid ← find_invalid objs candidates;
  match invalid with
  | Some candidate => Ok (objs, candidate)
  | None => second_chance_loop (S (length objs)) c e objs candidates
  end.
Definition SecondChanceRP_instantiateEntry : SecondChanceReplData :=
  {| fifo := FIFORP_instantiateEntry; hasSecondChance := false |}.

#[global] Instance SecondChanceRP_policy : EntryPolicy SecondChanceRP := {
  ep_invalidate := SecondChanceRP_invalidate; ep_touch := SecondChanceRP_touch;
  ep_reset := SecondChanceRP_reset; ep_getVictim := SecondChanceRP_getVictim;
  ep_new _ := Ok SecondChanceRP_instantiateEntry; ep_touch_occupancy := None
}.

(** *** [BRRIPRP] *)
Record BRRIPReplData := { rrpv : SatCounter; valid : bool }.
#[global] Instance BRRIPReplData_eta : Eta BRRIPReplData :=
  {| eta r := {| rrpv := rrpv r; valid := valid r |} |}.

Record BRRIPRP := { numRRPVBits : Z; hitPriority : bool; btp : Z }.

Definition BRRIPRP_ctor (num_bits : Z) (hit_priority : bool) (btp : Z) : res BRRIPRP :=
  let num_bits := u32 num_bits in
  _ ← fatal_if (num_bits <=? 0);
  Ok {| numRRPVBits := num_bits; hitPriority := hit_priority; btp := btp |}.

Definition BRRIPRP_invalidate (_ : BRRIPRP) (_ : Env) (d : BRRIPReplData) : BRRIPReplData :=
  d ⟨ valid := false ⟩.
Definition BRRIPRP_touch (c : BRRIPRP) (_ : Env) (d : BRRIPReplData) : BRRIPReplData :=
  if hitPriority c then d ⟨ rrpv := sat_reset (rrpv d) ⟩ else d ⟨ rrpv := sat_dec (rrpv d) ⟩.
Definition BRRIPRP_reset (c : BRRIPRP) (e : Env) (d : BRRIPReplData) : BRRIPReplData :=
  let d := d ⟨ rrpv := (saturate (rrpv d)).1 ⟩ in
  let d := if random e 1 100 <=? btp c then d ⟨ rrpv := sat_dec (rrpv d) ⟩ else d in
  d ⟨ valid := true ⟩.

(** The first loop of [getVictim]: [true] is its early return. *)
Definition brrip_search (objs : list BRRIPReplData) (candidates : list ReplaceableEntry)
    (victim : ReplaceableEntry) (victim_RRPV : Z) : res (bool * (ReplaceableEntry * Z)) :=
  foldM_brk (fun v candidate =>
    c ← data_of objs candidate;
    if negb (valid c) then Ok (true, (candidate, v.2))
    else
      let candidate_RRPV := counter (rrpv c) in
      Ok (false, if v.2 <? candidate_RRPV then (candidate, candidate_RRPV) else v))
    candidates (victim, victim_RRPV).

(** The second loop: every candidate ages by [diff]. *)
Definition brrip_age (objs : list BRRIPReplData) (candidates : list ReplaceableEntry) (diff : Z)
    : res (list BRRIPReplData) :=
  foldM (fun objs candidate =>
    vupd objs (replacementData candidate) (fun c => Ok (c ⟨ rrpv := sat_add (rrpv c) diff ⟩)))
    candidates objs.

Definition BRRIPRP_getVictim (objs : list BRRIPReplData) (candidates : list ReplaceableEntry)
    : res (list BRRIPReplData * ReplaceableEntry) :=
  _ ← cassert (0 <? Z.of_nat (length candidates));
  victim ← vget candidates 0;
  d ← data_of objs victim;
  r ← brrip_search objs candidates victim (counter (rrpv d));
  let victim := r.2.1 in
  if r.1 : bool then Ok (objs, victim)
  else
    v ← data_of objs victim;
    let '(saturated, diff) := saturate (rrpv v) in
    objs ← vset objs (replacementData victim) (v ⟨ rrpv := saturated ⟩);
    objs ← (if 0 <? diff then brrip_age objs candidates diff else Ok objs);
    Ok (objs, victim).

Definition BRRIPRP_instantiateEntry (c : BRRIPRP) : res BRRIPReplData :=
  r ← SatCounter_ctor (numRRPVBits c) 0;
  Ok {| rrpv := r; valid := false |}.

#[global] Instance BRRIPRP_policy : EntryPolicy BRRIPRP := {
  ep_invalidate := BRRIPRP_invalidate; ep_touch := BRRIPRP_touch; ep_reset := BRRIPRP_reset;
  ep_getVictim _ _ objs candidates := BRRIPRP_getVictim objs candidates;
  ep_new := BRRIPRP_instantiateEntry; ep_touch_occupancy := None
}.
