(* ===== verification/Victims.v ===== *)
(** * What the replacement policies guarantee

    - the saturating counter stays in range and its operations are clamped
      arithmetic;
    - the shared victim search returns the first of the best candidates, for
      any strict weak order;
    - every [EntryPolicy] satisfies the laws a cache relies on
      ([ReplacementLaws]), SecondChance and BRRIP included, whose victim
      search changes the replacement data;
    - the second-chance loop ends. *)
From S2P Require Import Prelude Replacement.

(** ** Saturating counters *)

Definition sat_wf (c : SatCounter) : Prop :=
  0 <= maxVal c < 2 ^ 8 /\ 0 <= initialVal c <= maxVal c /\ 0 <= counter c <= maxVal c.

Definition clamp (hi z : Z) : Z := Z.max 0 (Z.min hi z).

Lemma u8_id z : 0 <= z < 2 ^ 8 -> u8 z = z.
Proof. apply Z.mod_small. Qed.

Ltac sat_crush :=
  unfold sat_wf, sat_inc, sat_dec, sat_add, sat_sub, sat_add_nonneg, sat_sub_nonneg, sat_reset,
    saturate, clamp, setf in *; cbn [counter maxVal initialVal fst snd] in *;
  repeat (case_match; b2p); cbn [counter maxVal initialVal fst snd] in *;
  rewrite ?u8_id by lia; lia.

Lemma sat_inc_spec c : sat_wf c -> sat_wf (sat_inc c) /\ maxVal (sat_inc c) = maxVal c /\
  counter (sat_inc c) = clamp (maxVal c) (counter c + 1).
Proof. intros. split_and!; sat_crush. Qed.

Lemma sat_dec_spec c : sat_wf c -> sat_wf (sat_dec c) /\ maxVal (sat_dec c) = maxVal c /\
  counter (sat_dec c) = clamp (maxVal c) (counter c - 1).
Proof. intros. split_and!; sat_crush. Qed.

Lemma sat_add_spec c v : sat_wf c -> sat_wf (sat_add c v) /\ maxVal (sat_add c v) = maxVal c /\
  counter (sat_add c v) = clamp (maxVal c) (counter c + v).
Proof. intros. split_and!; sat_crush. Qed.

Lemma sat_sub_spec c v : sat_wf c -> sat_wf (sat_sub c v) /\ maxVal (sat_sub c v) = maxVal c /\
  counter (sat_sub c v) = clamp (maxVal c) (counter c - v).
Proof. intros. split_and!; sat_crush. Qed.

Lemma saturate_spec c : sat_wf c ->
  sat_wf (saturate c).1 /\ maxVal (saturate c).1 = maxVal c /\
  counter (saturate c).1 = maxVal c /\ (saturate c).2 = maxVal c - counter c.
Proof. intros. split_and!; sat_crush. Qed.

Lemma sat_reset_spec c : sat_wf c -> sat_wf (sat_reset c) /\ maxVal (sat_reset c) = maxVal c /\
  counter (sat_reset c) = initialVal c.
Proof. intros. split_and!; sat_crush. Qed.

Lemma SatCounter_ctor_spec bits :
  0 < bits <= 8 -> exists c, SatCounter_ctor bits 0 = Ok c /\ sat_wf c /\ maxVal c = 2 ^ bits - 1.
Proof.
  intros Hb. assert (2 ^ bits <= 2 ^ 8) by (apply Z.pow_le_mono_r; lia).
  assert (2 ^ 1 <= 2 ^ bits) by (apply Z.pow_le_mono_r; lia).
  unfold SatCounter_ctor. rewrite Z.shiftl_1_l, u8_id by lia.
  rewrite (proj2 (Z.ltb_ge 8 bits)), (proj2 (Z.ltb_ge (2 ^ bits - 1) 0)) by lia. rsimpl.
  eexists; split; [done |]. unfold sat_wf; cbn. split_and!; lia.
Qed.

(** The left shift is stored in eight bits before it is compared with the
    maximum, so bits shifted out are lost: an 8-bit counter at 129 becomes 2,
    not 255. *)
Example sat_shl_wraps :
  counter <$> (c ← SatCounter_ctor 8 129; sat_shl c 1) = Ok 2.
Proof. reflexivity. Qed.

(** ** The victim search *)

Section Search.
Context {D : Type} (lt : D -> D -> bool).
Hypothesis lt_irrefl : forall a, lt a a = false.
Hypothesis lt_trans : forall a b c, lt a b = true -> lt b c = true -> lt a c = true.
Hypothesis lt_weak : forall a b c, lt a b = true -> lt c b = false -> lt a c = true.
Variable objs : list D.

(** [v] is the first of the best candidates. *)
Definition first_best (cands : list ReplaceableEntry) (v : ReplaceableEntry) : Prop :=
  exists i dv, cands !! i = Some v /\ data_of objs v = Ok dv /\
    forall j c d, cands !! j = Some c -> data_of objs c = Ok d ->
      lt d dv = false /\ ((j < i)%nat -> lt dv d = true).

Definition readable (cands : list ReplaceableEntry) : Prop :=
  forall c, c ∈ cands -> is_ok (data_of objs c).

Lemma first_best_snoc cands v x dx dv :
  first_best cands v -> data_of objs x = Ok dx -> data_of objs v = Ok dv ->
  first_best (cands ++ [x]) (if lt dx dv then x else v).
Proof.
  intros (i & dv' & Hi & Hv & Hall) Hx Hv'. same_ok.
  pose proof (lookup_lt_Some _ _ _ Hi) as Hlen.
  destruct (lt dx dv) eqn:E.
  - exists (length cands), dx. split_and!; [by apply list_lookup_middle | done |].
    intros j c d [Hj|[Hl Hj]]%lookup_app_Some Hd.
    + destruct (Hall j c d Hj Hd) as [Hge _]. split.
      * destruct (lt d dx) eqn:E2; [| done]. by rewrite (lt_trans _ _ _ E2 E) in Hge.
      * intros _. by eapply lt_weak.
    + apply list_lookup_singleton_Some in Hj as [? <-]. same_ok. split; [apply lt_irrefl | lia].
  - exists i, dv. split_and!; [by rewrite lookup_app_l | done |].
    intros j c d [Hj|[Hl Hj]]%lookup_app_Some Hd; [by apply (Hall j c d) |].
    apply list_lookup_singleton_Some in Hj as [? <-]. same_ok. split; [done | lia].
Qed.

Lemma search_victim_spec cands :
  cands <> [] -> readable cands ->
  exists v, search_victim lt objs cands = Ok v /\ v ∈ cands /\ first_best cands v.
Proof.
  intros Hne Hr. unfold search_victim. destruct cands as [|x rest]; [done |].
  rewrite (proj2 (Z.ltb_lt 0 _)) by (cbn; lia). rsimpl.
  change (vget (x :: rest) 0) with (Ok x : res _). rsimpl.
  destruct (Hr x) as [dx Hx]; [by left |].
  assert (H0 : first_best [x] x).
  { exists 0%nat, dx. split_and!; [done | done |].
    intros j c d [-> <-]%list_lookup_singleton_Some ?. same_ok. split; [apply lt_irrefl | lia]. }
  cbn [foldM]. rewrite Hx. rsimpl. rewrite lt_irrefl. clear Hne.
  assert (Haux : forall todo done v, first_best done v -> v ∈ done -> readable (done ++ todo) ->
    exists v', foldM (fun victim candidate => c ← data_of objs candidate; w ← data_of objs victim;
      Ok (if lt c w then candidate else victim)) todo v = Ok v' /\
      v' ∈ done ++ todo /\ first_best (done ++ todo) v').
  { induction todo as [|y todo IH]; intros dn v Hb Hin Hrd; cbn [foldM].
    { exists v. by rewrite app_nil_r. }
    destruct (Hrd y) as [dy Hy]; [set_solver |]. destruct (Hrd v) as [dv Hv]; [set_solver |].
    rewrite Hy. rsimpl. rewrite Hv. rsimpl.
    destruct (IH (dn ++ [y]) (if lt dy dv then y else v)) as (v' & ? & ? & ?).
    - by apply first_best_snoc.
    - case_match; set_solver.
    - by rewrite <- app_assoc.
    - exists v'. by rewrite <- app_assoc in *. }
  destruct (Haux rest [x] x H0) as (v & ? & ? & ?); [by left | done | eauto].
Qed.
End Search.

(** ** The laws of a policy with independent entries *)

(** Every object that was well formed is still there and well formed. *)
Definition heap_keeps {D} (inv : D -> Prop) (objs objs' : list D) : Prop :=
  forall p d, vget objs p = Ok d -> inv d -> exists d', vget objs' p = Ok d' /\ inv d'.

Definition holds_data {D} (inv : D -> Prop) (objs : list D) (p : Z) : Prop :=
  exists d, vget objs p = Ok d /\ inv d.

Class EntryPolicyLaws (C : Type) `{EntryPolicy C} := {
  ep_inv : C -> ReplData C -> Prop;
  ep_accepts : C -> Prop;
  ep_invalidate_inv c e d : env_ok e -> ep_inv c d -> ep_inv c (ep_invalidate c e d);
  ep_touch_inv c e d : env_ok e -> ep_inv c d -> ep_inv c (ep_touch c e d);
  ep_reset_inv c e d : env_ok e -> ep_inv c d -> ep_inv c (ep_reset c e d);
  ep_touch_occupancy_inv c e d f occ :
    ep_touch_occupancy = Some f -> env_ok e -> ep_inv c d -> ep_inv c (f c e d occ);
  ep_new_inv c : ep_accepts c -> exists d, ep_new c = Ok d /\ ep_inv c d;
  ep_getVictim_inv c e objs cands :
    env_ok e -> cands <> [] ->
    Forall (holds_data (ep_inv c) objs) (map replacementData cands) ->
    exists objs' v, ep_getVictim c e objs cands = Ok (objs', v) /\ v ∈ cands /\
      heap_keeps (ep_inv c) objs objs'
}.

Lemma heap_keeps_refl {D} (inv : D -> Prop) objs : heap_keeps inv objs objs.
Proof. intros p d ? ?. eauto. Qed.

Lemma heap_keeps_trans {D} (inv : D -> Prop) a b c :
  heap_keeps inv a b -> heap_keeps inv b c -> heap_keeps inv a c.
Proof. intros H1 H2 p d Hp Hd. destruct (H1 p d Hp Hd) as (d' & ? & ?). eauto. Qed.

Lemma heap_keeps_vset {D} (inv : D -> Prop) objs p x objs' :
  inv x -> vset objs p x = Ok objs' -> heap_keeps inv objs objs'.
Proof.
  intros Hx Hs q d Hq Hd. destruct (decide (q = p)) as [->|].
  - exists x. split; [by eapply vset_get_eq | done].
  - exists d. split; [by rewrite (vset_get_ne _ _ _ _ _ Hs) | done].
Qed.

Lemma heap_keeps_app {D} (inv : D -> Prop) objs x : heap_keeps inv objs (objs ++ [x]).
Proof.
  intros p d [Hp Hl]%vget_Ok Hd. exists d. split; [| done].
  apply vget_Ok. split; [done |]. by apply lookup_app_l_Some.
Qed.

Lemma holds_data_readable {D} (inv : D -> Prop) objs cands :
  Forall (holds_data inv objs) (map replacementData cands) -> readable objs cands.
Proof.
  intros HF c Hc. rewrite Forall_map, Forall_forall in HF. destruct (HF c Hc) as (d & ? & _).
  by exists d.
Qed.

Section EntryLaws.
Context {C : Type} `{EntryPolicyLaws C}.

Definition entry_set (s : Policy C) (l : list Z) : Prop :=
  l <> [] /\ Forall (holds_data (ep_inv (object s)) (objs s)) l.

Definition entry_ready (n : nat) (s : Policy C) : Prop :=
  n <> O /\ ep_accepts (object s).

Lemma entry_keeps (s s' : Policy C) :
  object s' = object s -> heap_keeps (ep_inv (object s)) (objs s) (objs s') ->
  (forall l, entry_set s l -> entry_set s' l) /\ (forall n, entry_ready n s -> entry_ready n s').
Proof.
  unfold entry_set, entry_ready. intros Ho Hk. rewrite Ho. split; [| done].
  intros l [Hne HF]. split; [done |]. eapply Forall_impl; [exact HF |].
  intros p (d & Hd & Hi). by eapply Hk.
Qed.

Lemma at_ptr_law f e s l p :
  (forall c d, env_ok e -> ep_inv c d -> ep_inv c (f c e d)) ->
  env_ok e -> entry_set s l -> p ∈ l ->
  exists s', at_ptr (fun c => f c e) s p = Ok s' /\
    (forall l, entry_set s l -> entry_set s' l) /\ (forall n, entry_ready n s -> entry_ready n s').
Proof.
  intros Hf He [_ HF] Hp. rewrite Forall_forall in HF. destruct (HF p Hp) as (d & Hd & Hi).
  unfold at_ptr, vupd. rewrite Hd. rsimpl.
  destruct (vset_is_ok (objs s) p (f (object s) e d)) as [objs' Hs]; [by eapply vget_range |].
  rewrite Hs. rsimpl. eexists; split; [done |]. apply entry_keeps; [done |].
  eapply heap_keeps_vset; [| exact Hs]. auto.
Qed.

Lemma instantiate_entries_law n (s : Policy C) :
  ep_accepts (object s) ->
  exists s' l, instantiateEntries n s = Ok (s', l) /\ length l = n /\ object s' = object s /\
    Forall (holds_data (ep_inv (object s)) (objs s')) l /\
    heap_keeps (ep_inv (object s)) (objs s) (objs s').
Proof.
  revert s. induction n as [|n IH]; intros s Ha; cbn [instantiateEntries instantiateEntry Policy_base].
  { exists s, []. split_and!; [done | done | done | constructor | apply heap_keeps_refl]. }
  destruct (ep_new_inv (object s) Ha) as (d & Hd & Hi). rewrite Hd. rsimpl.
  set (s1 := Build_Policy (object s) (objs s ++ [d])).
  destruct (IH s1 Ha) as (s' & l & -> & Hl & Ho & HF & Hk). rsimpl.
  do 2 eexists. split; [done |]. split_and!; [cbn; lia | done | |].
  - constructor; [| done]. apply (Hk (Z.of_nat (length (objs s))) d); [| done].
    apply vget_nat. by apply list_lookup_middle.
  - eapply heap_keeps_trans; [apply heap_keeps_app | exact Hk].
Qed.

#[global, refine] Instance Policy_laws : ReplacementLaws (Policy C) := {
  rp_set := entry_set; rp_ready := entry_ready
}.
Proof.
  - intros e s l p He. apply (at_ptr_law ep_invalidate); [intros; by apply ep_invalidate_inv | done].
  - intros e s l p He. apply (at_ptr_law ep_touch); [intros; by apply ep_touch_inv | done].
  - intros e s l p He. apply (at_ptr_law ep_reset); [intros; by apply ep_reset_inv | done].
  - intros f occ (g & Hg & ->)%fmap_Some e s l p He.
    apply (at_ptr_law (fun c e d => g c e d occ)); [| done].
    intros c d He'. by apply ep_touch_occupancy_inv.
  - intros e s cands He [Hne HF]. cbn [getVictim Policy_base].
    destruct (ep_getVictim_inv (object s) e (objs s) cands) as (objs' & v & -> & Hv & Hk);
      [done | by intros -> | done |]. rsimpl.
    do 2 eexists. split_and!; [done | done | by apply entry_keeps..].
  - intros n s [Hn Ha]. destruct (instantiate_entries_law n s Ha) as (s' & l & -> & Hl & Ho & HF & Hk).
    exists s', l. split_and!; [done | done | | by apply entry_keeps..].
    split; [by intros ->; cbn in Hl; lia | by rewrite Ho].
Defined.
End EntryLaws.

(** ** The second-chance loop *)

Section SecondChance.
Variables (c : SecondChanceRP) (e : Env).
Implicit Types (objs : list SecondChanceReplData) (cands : list ReplaceableEntry).

Definition older (a b : FIFOReplData) : bool := tickInserted a <? tickInserted b.

Definition chances objs : nat := length (filter (fun d => hasSecondChance d = true) objs).

(** Entries are as before, or were put back into the queue at the current
    tick without their second chance. *)
Definition reinserted objs objs' : Prop :=
  forall p d, vget objs p = Ok d ->
    vget objs' p = Ok d \/ hasSecondChance d = true /\ vget objs' p = Ok (useSecondChance c e d).

Lemma reinserted_step objs p d objs' :
  data_of objs p = Ok d -> hasSecondChance d = true ->
  vset objs (replacementData p) (useSecondChance c e d) = Ok objs' -> reinserted objs objs'.
Proof.
  intros Hd Hc Hs q dq Hq. destruct (decide (q = replacementData p)) as [->|].
  - unfold data_of in Hd. same_ok. right. split; [done | by eapply vset_get_eq].
  - left. by rewrite (vset_get_ne _ _ _ _ _ Hs).
Qed.

Lemma reinserted_trans a b b' : reinserted a b -> reinserted b b' -> reinserted a b'.
Proof.
  intros H1 H2 p d Hp. destruct (H1 p d Hp) as [Hb|[Hc Hb]]; [by apply H2 |].
  right. split; [done |]. by destruct (H2 _ _ Hb) as [?|[? _]].
Qed.

Lemma chances_step objs p d objs' :
  vget objs p = Ok d -> hasSecondChance d = true ->
  vset objs p (useSecondChance c e d) = Ok objs' -> chances objs = S (chances objs').
Proof.
  intros [Hp Hd]%vget_Ok Hc [Hr ->]%vset_Ok. unfold chances.
  rewrite insert_take_drop by lia. rewrite <- (take_drop_middle objs (Z.to_nat p) d) at 1 by done.
  rewrite !filter_app, !filter_cons, !length_app. rewrite decide_True by done.
  rewrite (decide_False (P := hasSecondChance (useSecondChance c e d) = true)) by done.
  cbn [length]. lia.
Qed.

Lemma fifo_readable objs cands : readable objs cands -> readable (map fifo objs) cands.
Proof.
  intros Hr x Hx. destruct (Hr x Hx) as [d [? Hd]%vget_Ok]. exists (fifo d).
  apply vget_Ok. split; [done |]. change (map fifo objs) with (fifo <$> objs).
  by rewrite list_lookup_fmap, Hd.
Qed.

Lemma FIFORP_getVictim_spec objs cands :
  cands <> [] -> readable objs cands ->
  exists v, FIFORP_getVictim (map fifo objs) cands = Ok v /\ v ∈ cands /\
    first_best older (map fifo objs) cands v.
Proof.
  intros Hne Hr. apply search_victim_spec; [unfold older; intros; lia.. | done | by apply fifo_readable].
Qed.

Lemma reinserted_readable objs objs' cands :
  reinserted objs objs' -> readable objs cands -> readable objs' cands.
Proof.
  intros Hre Hr x Hx. destruct (Hr x Hx) as [d Hd]. unfold data_of in *.
  destruct (Hre _ _ Hd) as [?|[_ ?]]; by eexists.
Qed.

(** What the loop returns: the FIFO victim of the final queue, which has no
    second chance left. *)
Definition second_chance_victim objs objs' cands (v : ReplaceableEntry) : Prop :=
  v ∈ cands /\ reinserted objs objs' /\ first_best older (map fifo objs') cands v /\
  exists d, data_of objs' v = Ok d /\ hasSecondChance d = false.

Lemma second_chance_loop_spec fuel objs cands :
  cands <> [] -> readable objs cands -> (chances objs < fuel)%nat ->
  exists objs' v, second_chance_loop fuel c e objs cands = Ok (objs', v) /\
    second_chance_victim objs objs' cands v.
Proof.
  revert objs. induction fuel as [|fuel IH]; intros objs Hne Hr Hf; [lia |]. cbn [second_chance_loop].
  destruct (FIFORP_getVictim_spec objs cands Hne Hr) as (v & -> & Hv & Hb). rsimpl.
  destruct (Hr v Hv) as [d Hd]. rewrite Hd. rsimpl. destruct (hasSecondChance d) eqn:Hc.
  - destruct (vset_is_ok objs (replacementData v) (useSecondChance c e d)) as [objs1 Hs];
      [by eapply vget_range |]. rewrite Hs. rsimpl.
    pose proof (reinserted_step _ _ _ _ Hd Hc Hs) as Hre.
    pose proof (chances_step _ _ _ _ Hd Hc Hs).
    destruct (IH objs1 Hne) as (objs' & w & -> & Hw & Hre' & ? & ?);
      [by eapply reinserted_readable | lia |].
    do 2 eexists. split; [done |]. split_and!; [done | by eapply reinserted_trans | done..].
  - do 2 eexists. split; [done |]. split_and!; [done | by left | done | by exists d].
Qed.

Definition is_invalid (d : SecondChanceReplData) : bool :=
  (tickInserted (fifo d) =? 0) && negb (hasSecondChance d).

Lemma find_invalid_spec objs cands :
  readable objs cands ->
  exists r, find_invalid objs cands = Ok r /\
    match r with
    | Some v => exists i d, cands !! i = Some v /\ data_of objs v = Ok d /\ is_invalid d = true /\
        forall j x dx, (j < i)%nat -> cands !! j = Some x -> data_of objs x = Ok dx ->
          is_invalid dx = false
    | None => forall x d, x ∈ cands -> data_of objs x = Ok d -> is_invalid d = false
    end.
Proof.
  induction cands as [|x rest IH]; intros Hr; cbn [find_invalid].
  { exists None. split; [done |]. by intros x d ?%elem_of_nil. }
  destruct (Hr x) as [d Hd]; [by left |]. rewrite Hd. rsimpl. fold (is_invalid d).
  destruct (is_invalid d) eqn:E.
  - exists (Some x). split; [done |]. exists 0%nat, d. split_and!; [done.. | lia].
  - destruct IH as (r & -> & Hspec); [by intros y ?; apply Hr; right |].
    exists r. split; [done |]. destruct r as [v|].
    + destruct Hspec as (i & dv & Hi & Hdv & Hinv & Hlt). exists (S i), dv.
      split_and!; [done.. |]. intros [|j] y dy Hj Hy Hdy; cbn in Hy.
      * simplify_eq. by same_ok.
      * eapply (Hlt j y); [lia | done..].
    + intros y dy [->|Hy]%elem_of_cons Hdy; [by same_ok | by eapply Hspec].
Qed.

Lemma chances_le objs : (chances objs <= length objs)%nat.
Proof. apply length_filter. Qed.
End SecondChance.

(** [SecondChanceRP::getVictim] ends: for every non-empty list of
    candidates it returns one of them.  If one of them is invalid, it is the
    first invalid one and no replacement data changes.  Otherwise the loop ran
    until the oldest entry of the queue had no second chance: the victim is
    that entry in the final queue, and an entry it passed over had a second
    chance, lost it and was put back into the queue at the current tick. *)
Theorem second_chance_terminates (c : SecondChanceRP) (e : Env)
    (objs : list SecondChanceReplData) (cands : list ReplaceableEntry) :
  cands <> [] -> readable objs cands ->
  exists objs' v, SecondChanceRP_getVictim c e objs cands = Ok (objs', v) /\ v ∈ cands /\
    ((objs' = objs /\ exists i d, cands !! i = Some v /\ data_of objs v = Ok d /\
        is_invalid d = true /\
        forall j x dx, (j < i)%nat -> cands !! j = Some x -> data_of objs x = Ok dx ->
          is_invalid dx = false) \/
     ((forall x d, x ∈ cands -> data_of objs x = Ok d -> is_invalid d = false) /\
      second_chance_victim c e objs objs' cands v)).
Proof.
  intros Hne Hr. unfold SecondChanceRP_getVictim.
  rewrite (proj2 (Z.ltb_lt 0 _)) by (destruct cands; [done | cbn; lia]). rsimpl.
  destruct (find_invalid_spec objs cands Hr) as (r & -> & Hspec). rsimpl. destruct r as [v|].
  - exists objs, v. split; [done |]. destruct Hspec as (i & d & Hi & Hrest).
    split; [by eapply list_elem_of_lookup_2 |]. left. eauto.
  - destruct (second_chance_loop_spec c e (S (length objs)) objs cands Hne Hr) as (objs' & v & -> & Hv).
    { pose proof (chances_le objs). lia. }
    exists objs', v. split; [done |]. split; [apply Hv | by right].
Qed.

Definition sc_cand (way p : Z) : ReplaceableEntry := {| _set := 0; _way := way; replacementData := p |}.
Definition sc_data (t : Z) (b : bool) : SecondChanceReplData :=
  {| fifo := {| tickInserted := t |}; hasSecondChance := b |}.

Lemma second_chance_terminates_witness :
  let objs := [sc_data 3 true; sc_data 5 true; sc_data 7 false] in
  let cands := [sc_cand 0 0; sc_cand 1 1; sc_cand 2 2] in
  let e := {| curTick := 9; random := fun lo _ => lo |} in
  exists objs' v, SecondChanceRP_getVictim (SecondChanceRP_ctor FIFORP_ctor) e objs cands
    = Ok (objs', v) /\ v ∈ cands.
Proof.
  intros objs cands e.
  destruct (second_chance_terminates (SecondChanceRP_ctor FIFORP_ctor) e objs cands)
    as (objs' & v & H & Hv & _).
  - discriminate.
  - intros x Hx. repeat (apply elem_of_cons in Hx as [->|Hx]; [by eexists |]). by apply elem_of_nil in Hx.
  - by exists objs', v.
Defined.

(** The two aged entries go back into the queue and the third one is evicted. *)
Example second_chance_run :
  SecondChanceRP_getVictim (SecondChanceRP_ctor FIFORP_ctor)
    {| curTick := 9; random := fun lo _ => lo |}
    [sc_data 3 true; sc_data 5 true; sc_data 7 false] [sc_cand 0 0; sc_cand 1 1; sc_cand 2 2]
  = Ok ([sc_data 9 false; sc_data 9 false; sc_data 7 false], sc_cand 2 2).
Proof. reflexivity. Qed.

(** ** The policies satisfy the laws *)

(** The policies that search with [search_victim] and keep their data. *)
Lemma search_victim_law {D} (lt : D -> D -> bool) (inv : D -> Prop) objs cands :
  (forall a, lt a a = false) -> (forall a b c, lt a b = true -> lt b c = true -> lt a c = true) ->
  (forall a b c, lt a b = true -> lt c b = false -> lt a c = true) ->
  cands <> [] -> Forall (holds_data inv objs) (map replacementData cands) ->
  exists objs' v, (v ← search_victim lt objs cands; Ok (objs, v)) = Ok (objs', v) /\ v ∈ cands /\
    heap_keeps inv objs objs'.
Proof.
  intros H1 H2 H3 Hne HF.
  destruct (search_victim_spec lt H1 H2 H3 objs cands Hne) as (v & -> & Hv & _);
    [by eapply holds_data_readable |].
  exists objs, v. split_and!; [done | done | apply heap_keeps_refl].
Qed.

(** A victim search with a [break] keeps to the candidates. *)
Lemma foldM_brk_elem {D} (f : ReplaceableEntry -> ReplaceableEntry -> res (bool * ReplaceableEntry))
    (objs : list D) cands v :
  readable objs cands -> v ∈ cands ->
  (forall v x d, v ∈ cands -> x ∈ cands -> data_of objs x = Ok d ->
    exists b w, f v x = Ok (b, w) /\ (w = x \/ w = v)) ->
  exists b w, foldM_brk f cands v = Ok (b, w) /\ w ∈ cands.
Proof.
  intros Hr Hv Hf.
  assert (Haux : forall todo v, todo ⊆ cands -> v ∈ cands ->
    exists b w, foldM_brk f todo v = Ok (b, w) /\ w ∈ cands).
  { induction todo as [|x todo IH]; intros w Hs Hw; cbn [foldM_brk]; [by exists false, w |].
    assert (Hx : x ∈ cands) by (apply Hs; by left). destruct (Hr x Hx) as [d Hd].
    destruct (Hf w x d Hw Hx Hd) as (b & w' & -> & Hor). rsimpl.
    assert (w' ∈ cands) by (by destruct Hor as [->| ->]).
    destruct b; [by exists true, w' |]. apply IH; [| done]. intros y Hy. apply Hs. by right. }
  by apply Haux.
Qed.

Ltac tick_law :=
  intros; cbn in *; unfold LRURP_touch, LRURP_reset, LRURP_invalidate, BIPRP_reset, FIFORP_touch,
    FIFORP_reset, FIFORP_invalidate, MRURP_touch, MRURP_reset, MRURP_invalidate,
    LFURP_touch, LFURP_reset, LFURP_invalidate, RandomRP_touch, RandomRP_reset,
    RandomRP_invalidate, SecondChanceRP_touch, SecondChanceRP_reset, SecondChanceRP_invalidate,
    WeightedLRU_touch, WeightedLRU_reset, WeightedLRU_invalidate, env_ok, in_u64, in_u32, setf in *;
  cbn in *; repeat case_match; cbn in *; first [done | lia | tauto | discriminate
    | match goal with |- context [u32 ?z] => pose proof (u32_range z) as Hr; unfold in_u32 in Hr; lia end].

#[global, refine] Instance LRURP_laws : EntryPolicyLaws LRURP :=
  { ep_inv _ d := in_u64 (lastTouchTick d); ep_accepts _ := True }.
Proof.
  1-4: tick_law.
  - intros c _. by exists LRURP_instantiateEntry.
  - intros c e objs cands _ Hne HF. apply search_victim_law; [intros; lia.. | done | done].
Defined.

#[global, refine] Instance BIPRP_laws : EntryPolicyLaws BIPRP :=
  { ep_inv _ d := in_u64 (lastTouchTick d); ep_accepts _ := True }.
Proof.
  1-4: tick_law.
  - intros c _. by exists LRURP_instantiateEntry.
  - intros c e objs cands _ Hne HF. apply search_victim_law; [intros; lia.. | done | done].
Defined.

#[global, refine] Instance FIFORP_laws : EntryPolicyLaws FIFORP :=
  { ep_inv _ d := in_u64 (tickInserted d); ep_accepts _ := True }.
Proof.
  1-4: tick_law.
  - intros c _. by exists FIFORP_instantiateEntry.
  - intros c e objs cands _ Hne HF. apply search_victim_law; [intros; lia.. | done | done].
Defined.

#[global, refine] Instance LFURP_laws : EntryPolicyLaws LFURP :=
  { ep_inv _ d := in_u32 (refCount d); ep_accepts _ := True }.
Proof.
  1-4: tick_law.
  - intros c _. by exists LFURP_instantiateEntry.
  - intros c e objs cands _ Hne HF. apply search_victim_law; [intros; lia.. | done | done].
Defined.

#[global, refine] Instance WeightedLRU_laws : EntryPolicyLaws WeightedLRUPolicy :=
  { ep_inv _ d := in_u64 (last_touch_tick d); ep_accepts _ := True }.
Proof.
  1-3: tick_law.
  - intros c e d f occ Hf [? _] _. injection Hf as <-. done.
  - intros c _. by exists WeightedLRU_instantiateEntry.
  - intros c e objs cands _ Hne HF. apply search_victim_law; [| | | done | done].
    all: intros; repeat case_match; b2p; try done; try lia.
    all: repeat match goal with |- context [?a <? ?b] => destruct (a <? b) eqn:?; b2p end; try done; try lia.
    all: repeat match goal with |- context [?a =? ?b] => destruct (a =? b) eqn:?; b2p end; done || lia.
Defined.

Lemma nonempty_test (cands : list ReplaceableEntry) :
  cands <> [] -> (0 <? Z.of_nat (length cands)) = true.
Proof. destruct cands; [done |]. intros _. apply Z.ltb_lt. cbn. lia. Qed.

Lemma first_candidate (cands : list ReplaceableEntry) :
  cands <> [] -> exists v, vget cands 0 = Ok v /\ v ∈ cands.
Proof. destruct cands as [|x l]; [done |]. intros _. exists x. split; [done | by left]. Qed.

Lemma MRURP_getVictim_law objs cands :
  cands <> [] -> readable objs cands -> exists v, MRURP_getVictim objs cands = Ok v /\ v ∈ cands.
Proof.
  intros Hne Hr. unfold MRURP_getVictim. destruct (first_candidate cands Hne) as (v0 & Hv0 & Hin).
  rewrite nonempty_test by done. rsimpl. rewrite Hv0. rsimpl.
  edestruct (foldM_brk_elem (D := MRUReplData)) as (b & v & Hf & Hv); [exact Hr | exact Hin | |].
  2: { rewrite Hf. rsimpl. eauto. }
  intros v x d Hv Hx Hd. cbv beta. rewrite Hd. rsimpl. case_match; [eauto 6 |].
  destruct (Hr v Hv) as [dv Hdv]. rewrite Hdv. rsimpl. do 2 eexists. split; [done |].
  case_match; auto.
Qed.

Lemma RandomRP_getVictim_law e objs cands :
  env_ok e -> cands <> [] -> readable objs cands ->
  exists v, RandomRP_getVictim e objs cands = Ok v /\ v ∈ cands.
Proof.
  intros [_ Hrnd] Hne Hr. unfold RandomRP_getVictim. rewrite nonempty_test by done. rsimpl.
  destruct (vget_is_ok cands (random e 0 (Z.of_nat (length cands) - 1))) as [v0 Hv0].
  { pose proof (nonempty_test cands Hne); b2p.
    pose proof (Hrnd 0 (Z.of_nat (length cands) - 1)). lia. }
  rewrite Hv0. rsimpl. apply vget_Ok in Hv0 as [_ Hin%list_elem_of_lookup_2].
  edestruct (foldM_brk_elem (D := RandomReplData)) as (b & v & Hf & Hv); [exact Hr | exact Hin | |].
  2: { rewrite Hf. rsimpl. eauto. }
  intros v x d Hv Hx Hd. cbv beta. rewrite Hd. rsimpl. case_match; eauto 6.
Qed.

#[global, refine] Instance MRURP_laws : EntryPolicyLaws MRURP :=
  { ep_inv _ d := in_u64 (mru_lastTouchTick d); ep_accepts _ := True }.
Proof.
  1-4: tick_law.
  - intros c _. by exists MRURP_instantiateEntry.
  - intros c e objs cands _ Hne HF%holds_data_readable.
    destruct (MRURP_getVictim_law objs cands Hne HF) as (v & Hv & Hin).
    exists objs, v. cbn. rewrite Hv. split_and!; [done | done | apply heap_keeps_refl].
Defined.

#[global, refine] Instance RandomRP_laws : EntryPolicyLaws RandomRP :=
  { ep_inv _ d := True; ep_accepts _ := True }.
Proof.
  1-4: done.
  - intros c _. by exists RandomRP_instantiateEntry.
  - intros c e objs cands He Hne HF%holds_data_readable.
    destruct (RandomRP_getVictim_law e objs cands He Hne HF) as (v & Hv & Hin).
    exists objs, v. cbn. rewrite Hv. split_and!; [done | done | apply heap_keeps_refl].
Defined.

Lemma reinserted_keeps c e objs objs' :
  env_ok e -> reinserted c e objs objs' ->
  heap_keeps (fun d => in_u64 (tickInserted (fifo d))) objs objs'.
Proof.
  intros [He _] Hre p d Hp Hd. destruct (Hre p d Hp) as [?|[_ ?]]; eauto.
Qed.

Lemma SecondChanceRP_getVictim_law c e objs cands :
  cands <> [] -> readable objs cands ->
  exists objs' v, SecondChanceRP_getVictim c e objs cands = Ok (objs', v) /\ v ∈ cands /\
    reinserted c e objs objs'.
Proof.
  intros Hne Hr. unfold SecondChanceRP_getVictim. rewrite nonempty_test by done. rsimpl.
  destruct (find_invalid_spec objs cands Hr) as (r & -> & Hspec). rsimpl. destruct r as [v|].
  - destruct Hspec as (i & d & Hi%list_elem_of_lookup_2 & _).
    do 2 eexists. split_and!; [done | done | by left].
  - destruct (second_chance_loop_spec c e (S (length objs)) objs cands Hne Hr)
      as (objs' & v & -> & Hv & Hre & _); [pose proof (chances_le objs); lia | eauto].
Qed.

#[global, refine] Instance SecondChanceRP_laws : EntryPolicyLaws SecondChanceRP :=
  { ep_inv _ d := in_u64 (tickInserted (fifo d)); ep_accepts _ := True }.
Proof.
  1-4: tick_law.
  - intros c _. by exists SecondChanceRP_instantiateEntry.
  - intros c e objs cands He Hne HF%holds_data_readable.
    destruct (SecondChanceRP_getVictim_law c e objs cands Hne HF) as (objs' & v & Hv & Hin & Hre).
    exists objs', v. split_and!; [exact Hv | done | by eapply reinserted_keeps].
Defined.

(** ** BRRIP *)

Section BRRIP.
Variable c : BRRIPRP.

Definition brrip_wf (d : BRRIPReplData) : Prop :=
  sat_wf (rrpv d) /\ maxVal (rrpv d) = 2 ^ numRRPVBits c - 1.

Lemma brrip_search_spec objs cands v0 n0 :
  readable objs cands -> v0 ∈ cands ->
  exists b v n, brrip_search objs cands v0 n0 = Ok (b, (v, n)) /\ v ∈ cands.
Proof.
  intros Hr Hv0. unfold brrip_search.
  assert (Haux : forall todo s, todo ⊆ cands -> s.1 ∈ cands -> exists b v n,
    foldM_brk (fun v candidate => d ← data_of objs candidate;
      if negb (valid d) then Ok (true, (candidate, v.2))
      else let candidate_RRPV := counter (rrpv d) in
           Ok (false, if v.2 <? candidate_RRPV then (candidate, candidate_RRPV) else v))
      todo s = Ok (b, (v, n)) /\ v ∈ cands); [| by apply Haux].
  induction todo as [|x todo IH]; intros [v n] Hs Hv; cbn [foldM_brk fst snd] in *; [by exists false, v, n |].
  assert (Hx : x ∈ cands) by (apply Hs; by left). destruct (Hr x Hx) as [d ->]. rsimpl.
  destruct (negb (valid d)); rsimpl; [by exists true, x, n |].
  apply IH; [intros y Hy; apply Hs; by right |]. by case_match.
Qed.

Lemma brrip_age_spec objs cands diff :
  Forall (holds_data brrip_wf objs) (map replacementData cands) ->
  exists objs', brrip_age objs cands diff = Ok objs' /\ heap_keeps brrip_wf objs objs'.
Proof.
  unfold brrip_age. revert objs. induction cands as [|x cands IH]; intros objs HF; cbn [foldM map].
  { exists objs. split; [done | apply heap_keeps_refl]. }
  apply Forall_cons in HF as [(d & Hd & Hw & Hm) HF].
  destruct (vset_is_ok objs (replacementData x) (d ⟨ rrpv := sat_add (rrpv d) diff ⟩)) as [objs1 Hs];
    [by eapply vget_range |].
  assert (vupd objs (replacementData x) (fun d => Ok (d ⟨ rrpv := sat_add (rrpv d) diff ⟩)) = Ok objs1)
    as -> by (unfold vupd; by rewrite Hd).
  rsimpl. destruct (sat_add_spec (rrpv d) diff Hw) as (Hw' & Hm' & _).
  assert (Hk : heap_keeps brrip_wf objs objs1).
  { eapply heap_keeps_vset; [| exact Hs]. split; cbn; [done | by rewrite Hm']. }
  destruct (IH objs1) as (objs' & Ho & Hk').
  { eapply Forall_impl; [exact HF |]. intros p (dp & ? & ?). by eapply Hk. }
  exists objs'. split; [exact Ho | by eapply heap_keeps_trans].
Qed.

Lemma BRRIPRP_getVictim_keeps objs cands :
  cands <> [] -> Forall (holds_data brrip_wf objs) (map replacementData cands) ->
  exists objs' v, BRRIPRP_getVictim objs cands = Ok (objs', v) /\ v ∈ cands /\
    heap_keeps brrip_wf objs objs'.
Proof.
  intros Hne HF. pose proof (holds_data_readable _ _ _ HF) as Hr. unfold BRRIPRP_getVictim.
  destruct (first_candidate cands Hne) as (v0 & Hv0 & Hin).
  rewrite nonempty_test by done. rsimpl. rewrite Hv0. rsimpl.
  destruct (Hr v0 Hin) as [d0 ->]. rsimpl.
  destruct (brrip_search_spec objs cands v0 (counter (rrpv d0)) Hr Hin) as (b & v & n & -> & Hv). rsimpl.
  destruct b; [do 2 eexists; split_and!; [done | done | apply heap_keeps_refl] |].
  assert (exists d, data_of objs v = Ok d /\ brrip_wf d) as (d & Hd & Hw & Hm).
  { rewrite Forall_map, Forall_forall in HF. by apply HF. }
  rewrite Hd. rsimpl. pose proof (saturate_spec (rrpv d) Hw) as (Hw' & Hm' & _).
  destruct (saturate (rrpv d)) as [sat diff]. cbn [fst] in *.
  destruct (vset_is_ok objs (replacementData v) (d ⟨ rrpv := sat ⟩)) as [objs1 Hs];
    [by eapply vget_range |]. rewrite Hs. rsimpl.
  assert (Hk : heap_keeps brrip_wf objs objs1).
  { eapply heap_keeps_vset; [| exact Hs]. split; cbn; [done | by rewrite Hm']. }
  destruct (0 <? diff); rsimpl; [| do 2 eexists; by split_and!].
  destruct (brrip_age_spec objs1 cands diff) as (objs2 & -> & Hk2).
  { eapply Forall_impl; [exact HF |]. intros p (dp & ? & ?). by eapply Hk. }
  rsimpl. do 2 eexists. split_and!; [done | done | by eapply heap_keeps_trans].
Qed.
End BRRIP.

#[global, refine] Instance BRRIPRP_laws : EntryPolicyLaws BRRIPRP :=
  { ep_inv := brrip_wf; ep_accepts c := 0 < numRRPVBits c <= 8 }.
Proof.
  - done.
  - intros c e d _ [Hw Hm]. unfold brrip_wf. cbn [ep_touch BRRIPRP_policy]. unfold BRRIPRP_touch.
    rewrite <- Hm. destruct (hitPriority c);
      [destruct (sat_reset_spec _ Hw) as (? & ? & _) | destruct (sat_dec_spec _ Hw) as (? & ? & _)];
      done.
  - intros c e d _ [Hw Hm]. unfold brrip_wf. cbn [ep_reset BRRIPRP_policy]. unfold BRRIPRP_reset.
    destruct (saturate_spec _ Hw) as (Hw1 & Hm1 & _). rewrite <- Hm, <- Hm1.
    destruct (random e 1 100 <=? btp c); [| done].
    destruct (sat_dec_spec _ Hw1) as (? & ? & _). done.
  - discriminate.
  - intros c Ha. cbn [ep_new BRRIPRP_policy]. unfold BRRIPRP_instantiateEntry.
    destruct (SatCounter_ctor_spec (numRRPVBits c) Ha) as (s & -> & Hw & Hm). rsimpl. by eexists.
  - intros c e objs cands _. apply BRRIPRP_getVictim_keeps.
Defined.

(** ** WeightedLRU and invalid entries

    [invalidate] clears the time stamp only; the occupancy of the line that
    left stays, and a valid entry with a smaller one is evicted first. *)
Example weighted_invalid_not_victim :
  let env := {| curTick := 10; random := fun lo _ => lo |} in
  let d0 := WeightedLRU_touch_occupancy WeightedLRUPolicy_ctor env WeightedLRU_instantiateEntry 4 in
  let d1 := WeightedLRU_touch_occupancy WeightedLRUPolicy_ctor env WeightedLRU_instantiateEntry 2 in
  WeightedLRU_getVictim [WeightedLRU_invalidate WeightedLRUPolicy_ctor env d0; d1]
    [sc_cand 0 0; sc_cand 1 1] = Ok (sc_cand 1 1).
Proof. reflexivity. Qed.
