(* ===== verification/TreePLRU.v ===== *)
(** * Tree-PLRU: [mem/cache/replacement_policies/tree_plru_rp.{hh,cc}]

    The entries of a set share one tree of direction bits, stored as an array
    in breadth-first order; an entry knows the index of its (virtual) leaf.
    Trees and replacement data are objects the policy makes: a pointer is the
    position in [trees] and [plru_objs].

    The theorems: the policy satisfies the laws a cache relies on; the entry
    that was invalidated is the next victim; the entry that was touched is not,
    and the next victim lies in the other half of the set. *)
From S2P Require Import Prelude IntMath Replacement.

(** ** Definitions *)

(** A [uint64_t] converted to [double] (round to nearest, ties to even), as
    [std::floor] does with its integer argument. *)
Definition u64_to_double (z : Z) : Z :=
  let s := Z.max 0 (Z.log2 z - 52) in
  let q := z / 2 ^ s in
  let r := z mod 2 ^ s in
  if 2 * r <? 2 ^ s then q * 2 ^ s
  else if 2 ^ s <? 2 * r then (q + 1) * 2 ^ s
  else (if Z.even q then q else q + 1) * 2 ^ s.

Definition parentIndex (index : Z) : Z := u64_to_double (u64 (index - 1) / 2).
Definition leftSubtreeIndex (index : Z) : Z := u64 (2 * index + 1).
Definition rightSubtreeIndex (index : Z) : Z := u64 (2 * index + 2).
Definition isRightSubtree (index : Z) : bool := index mod 2 =? 0.

Record TreePLRUReplData := { index : Z; tree : Z }.

Record TreePLRURP := {
  numLeaves : Z;
  count : Z;
  treeInstance : option Z;
  plru_objs : list TreePLRUReplData;   (** the replacement data made so far *)
  trees : list (list bool)             (** the trees made so far *)
}.
#[global] Instance TreePLRURP_eta : Eta TreePLRURP :=
  {| eta r := {| numLeaves := numLeaves r; count := count r; treeInstance := treeInstance r;
                 plru_objs := plru_objs r; trees := trees r |} |}.

Definition TreePLRURP_ctor (num_leaves : Z) : res TreePLRURP :=
  _ ← fatal_if (negb (isPowerOf2 8 num_leaves));
  Ok {| numLeaves := num_leaves; count := 0; treeInstance := None; plru_objs := []; trees := [] |}.

(** [std::vector::at], which throws. *)
Definition tree_at (t : list bool) (i : Z) : res bool :=
  match vget t i with Ok b => Ok b | Err _ => Err EThrow end.
Definition tree_put (t : list bool) (i : Z) (b : bool) : res (list bool) :=
  match vset t i b with Ok t => Ok t | Err _ => Err EThrow end.

(** The [do ... while] loop of [invalidate] and [touch]: [dir right] is the
    value stored in the parent of a node that is a right subtree or not.  A
    64-bit index has at most 64 ancestors. *)
Fixpoint mark_path (fuel : nat) (dir : bool -> bool) (t : list bool) (tree_index : Z)
    : res (list bool) :=
  match fuel with
  | O => Err EFuel
  | S fuel =>
      let right := isRightSubtree tree_index in
      let tree_index := parentIndex tree_index in
      t ← tree_put t tree_index (dir right);
      if tree_index =? 0 then Ok t else mark_path fuel dir t tree_index
  end.

Definition update_tree (dir : bool -> bool) (s : TreePLRURP) (p : Z) : res TreePLRURP :=
  d ← vget (plru_objs s) p;
  t ← vget (trees s) (tree d);
  t ← mark_path 65 dir t (index d);
  ts ← vset (trees s) (tree d) t;
  Ok (s ⟨ trees := ts ⟩).

Definition TreePLRURP_invalidate (s : TreePLRURP) (p : Z) : res TreePLRURP :=
  update_tree (fun right => right) s p.

Definition TreePLRURP_touch (s : TreePLRURP) (p : Z) : res TreePLRURP :=
  update_tree (fun right => negb right) s p.

Definition TreePLRURP_reset (s : TreePLRURP) (p : Z) : res TreePLRURP := TreePLRURP_touch s p.

(** The [while] loop of [getVictim]; every step goes to a larger index. *)
Fixpoint descend (fuel : nat) (t : list bool) (tree_index : Z) : res Z :=
  if tree_index <? Z.of_nat (length t) then
    match fuel with
    | O => Err EFuel
    | S fuel =>
        b ← tree_at t tree_index;
        descend fuel t (if b : bool then rightSubtreeIndex tree_index else leftSubtreeIndex tree_index)
    end
  else Ok tree_index.

Definition TreePLRURP_getVictim (s : TreePLRURP) (candidates : list ReplaceableEntry)
    : res ReplaceableEntry :=
  _ ← cassert (0 <? Z.of_nat (length candidates));
  c0 ← vget candidates 0;
  d ← vget (plru_objs s) (replacementData c0);
  t ← vget (trees s) (tree d);
  tree_index ← descend (length t) t 0;
  vget candidates (u64 (tree_index - u64 (numLeaves s - 1))).

Definition TreePLRURP_instantiateEntry (s : TreePLRURP) : res (TreePLRURP * Z) :=
  let s := if count s mod numLeaves s =? 0
           then s ⟨ treeInstance := Some (Z.of_nat (length (trees s))) ⟩
                  ⟨ trees := trees s ++ [replicate (Z.to_nat (u64 (numLeaves s - 1))) false] ⟩
           else s in
  t ← match treeInstance s with Some t => Ok t | None => Err EUninit end;
  let treePLRUReplData :=
    {| index := u64 (u64 (count s mod numLeaves s + numLeaves s) - 1); tree := t |} in
  let s' := s ⟨ count := u64 (count s + 1) ⟩ ⟨ plru_objs := plru_objs s ++ [treePLRUReplData] ⟩ in
  Ok (s', Z.of_nat (length (plru_objs s))).

#[global] Instance TreePLRURP_base : BaseReplacementPolicy TreePLRURP := {
  invalidate _ := TreePLRURP_invalidate; touch _ := TreePLRURP_touch; reset _ := TreePLRURP_reset;
  getVictim _ s candidates := v ← TreePLRURP_getVictim s candidates; Ok (s, v);
  instantiateEntry := TreePLRURP_instantiateEntry; touch_occupancy := None
}.

(** A run: four ways; after touching way 2, the victim is way 0; invalidating
    way 1 makes it the victim. *)
Definition plru_demo : res (list Z) :=
  s ← TreePLRURP_ctor 4;
  r ← instantiateEntries 4 s;
  let cands := imap (fun i p => {| _set := 0; _way := Z.of_nat i; replacementData := p |}) r.2 in
  s ← TreePLRURP_touch r.1 2;
  v1 ← TreePLRURP_getVictim s cands;
  s ← TreePLRURP_invalidate s 1;
  v2 ← TreePLRURP_getVictim s cands;
  Ok [_way v1; _way v2].

Example plru_demo_run : plru_demo = Ok [0; 1].
Proof. reflexivity. Qed.

(** With a single leaf the constructor succeeds, and the first access throws:
    the tree is empty and the leaf has no parent. *)
Example plru_single_leaf :
  (s ← TreePLRURP_ctor 1; r ← TreePLRURP_instantiateEntry s; TreePLRURP_touch r.1 r.2) = Err EThrow.
Proof. reflexivity. Qed.

(** ** The array as a tree

    [h], the index plus one, makes the array a binary heap: the parent of [h]
    is [h / 2], its children are [2 * h] and [2 * h + 1], and the leaves of a
    tree of [2 ^ k] leaves are [2 ^ k <= h < 2 ^ (k + 1)].  The indices of a
    set are far below the 53 bits a [double] holds exactly. *)

Lemma u64_to_double_small z : 0 <= z < 2 ^ 53 -> u64_to_double z = z.
Proof.
  intros Hz. unfold u64_to_double.
  assert (Z.log2 z - 52 <= 0).
  { destruct (decide (z = 0)) as [->|]; [cbn; lia |].
    enough (Z.log2 z < 53) by lia. apply Z.log2_lt_pow2; lia. }
  rewrite Z.max_l, Z.pow_0_r, Z.div_1_r, Z.mod_1_r by lia. change (2 * 0 <? 1) with true. apply Z.mul_1_r.
Qed.

Definition small (h : Z) : Prop := 0 < h < 2 ^ 50.

Lemma parent_heap h : small h -> 2 <= h -> parentIndex (h - 1) = h / 2 - 1.
Proof.
  unfold small. intros Hs Hh. unfold parentIndex.
  assert (h / 2 = (h - 1 - 1) / 2 + 1) as ->.
  { replace h with (h - 1 - 1 + 1 * 2) at 1 by lia. by rewrite Z.div_add by lia. }
  rewrite u64_id by (unfold in_u64; lia).
  pose proof (Z.div_pos (h - 1 - 1) 2). pose proof (Z.div_le_upper_bound (h - 1 - 1) 2 (2 ^ 50)).
  rewrite u64_to_double_small by lia. lia.
Qed.

Lemma child_heap h b :
  small h ->
  (if b : bool then rightSubtreeIndex (h - 1) else leftSubtreeIndex (h - 1)) = 2 * h + Z.b2z b - 1.
Proof.
  unfold small, rightSubtreeIndex, leftSubtreeIndex. intros Hs.
  destruct b; rewrite u64_id by (unfold in_u64; lia); cbn [Z.b2z]; lia.
Qed.

Lemma right_heap h : isRightSubtree (h - 1) = Z.odd h.
Proof.
  unfold isRightSubtree. rewrite Zmod_odd. replace h with (h - 1 + 1) at 2 by lia.
  rewrite Z.odd_add. by destruct (Z.odd (h - 1)).
Qed.

Lemma tree_put_ok t i b :
  0 <= i < Z.of_nat (length t) -> exists t', tree_put t i b = Ok t' /\ vset t i b = Ok t'.
Proof.
  intros Hi. unfold tree_put. destruct (vset_is_ok t i b Hi) as [t' ->]. eauto.
Qed.

(** Level [d] of the heap. *)
Definition level (d h : Z) : Prop := 2 ^ d <= h < 2 ^ (d + 1).

Lemma level_half d h : 1 <= d -> level d h -> level (d - 1) (h / 2) /\ h / 2 < h /\ 2 <= h.
Proof.
  unfold level. intros Hd [H1 H2]. replace (d - 1 + 1) with d by lia.
  assert (2 ^ d = 2 * 2 ^ (d - 1)) as E by (rewrite <- Z.pow_succ_r by lia; f_equal; lia).
  rewrite Z.pow_add_r, Z.pow_1_r in H2 by lia.
  assert (0 < 2 ^ (d - 1)) by (apply Z.pow_pos_nonneg; lia).
  pose proof (Z.div_le_lower_bound h 2 (2 ^ (d - 1))).
  pose proof (Z.div_lt_upper_bound h 2 (2 ^ d)).
  pose proof (Z.div_lt h 2). lia.
Qed.

Lemma level_unique d d' h : 0 <= d -> 0 <= d' -> level d h -> level d' h -> d = d'.
Proof.
  unfold level. intros ? ? H1 H2.
  assert (d < d' + 1) by (apply (Z.pow_lt_mono_r_iff 2); lia).
  assert (d' < d + 1) by (apply (Z.pow_lt_mono_r_iff 2); lia). lia.
Qed.

Lemma level_shiftr d h j : 0 <= j <= d -> level d h -> level (d - j) (Z.shiftr h j).
Proof.
  intros [Hj0 Hj] Hl. revert d h Hj Hl. pattern j. apply natlike_ind; [| | done].
  - intros d h _ Hl. by rewrite Z.sub_0_r, Z.shiftr_0_r.
  - intros i Hi IH d h Hj Hl. destruct (level_half d h ltac:(lia) Hl) as [Hh _].
    specialize (IH (d - 1) (h / 2) ltac:(lia) Hh).
    replace (d - Z.succ i) with (d - 1 - i) by lia.
    replace (Z.shiftr h (Z.succ i)) with (Z.shiftr (h / 2) i); [done |].
    rewrite <- Z.div2_div, Z.div2_spec, Z.shiftr_shiftr by lia. f_equal. lia.
Qed.

Lemma shiftr_half_step h j : 0 <= j -> Z.shiftr (h / 2) j = Z.shiftr h (j + 1).
Proof. intros. rewrite <- Z.div2_div, Z.div2_spec, Z.shiftr_shiftr by lia. f_equal. lia. Qed.

(** The ancestors of a leaf: after [mark_path] every one of them holds the
    direction of the child the path came from, and nothing else changed. *)
Lemma mark_path_spec dir (d : nat) : forall fuel h t,
  (1 <= d)%nat -> (d <= fuel)%nat -> small h -> level (Z.of_nat d) h ->
  2 ^ Z.of_nat d - 1 <= Z.of_nat (length t) ->
  exists t', mark_path fuel dir t (h - 1) = Ok t' /\ length t' = length t /\
    (forall j, 1 <= j <= Z.of_nat d ->
       vget t' (Z.shiftr h j - 1) = Ok (dir (Z.odd (Z.shiftr h (j - 1))))) /\
    (forall i, (forall j, 1 <= j <= Z.of_nat d -> i <> Z.shiftr h j - 1) -> vget t' i = vget t i).
Proof.
  induction d as [|d IH]; intros fuel h t Hd Hf Hs Hl Ht; [lia |].
  destruct fuel as [|fuel]; [lia |]. cbn [mark_path].
  destruct (level_half (Z.of_nat (S d)) h ltac:(lia) Hl) as (Hl2 & Hlt & Hge).
  rewrite right_heap, parent_heap by done.
  replace (Z.of_nat (S d) - 1) with (Z.of_nat d) in Hl2 by lia.
  assert (Hb : 0 < h / 2 /\ h / 2 < 2 ^ Z.of_nat (S d)).
  { unfold level in Hl2. pose proof (Z.pow_pos_nonneg 2 (Z.of_nat d)).
    replace (Z.of_nat d + 1) with (Z.of_nat (S d)) in Hl2 by lia. lia. }
  destruct (tree_put_ok t (h / 2 - 1) (dir (Z.odd h))) as (t1 & -> & Hset); [lia |]. rsimpl.
  pose proof (vset_length _ _ _ _ Hset) as Hlen.
  assert (H1 : Z.shiftr h 1 = h / 2) by (rewrite <- Z.div2_spec; apply Z.div2_div).
  destruct (h / 2 - 1 =? 0) eqn:E; b2p.
  - assert (d = 0)%nat as ->.
    { pose proof (level_unique (Z.of_nat d) 0 (h / 2)). unfold level in *. cbn in *. lia. }
    exists t1. split_and!; [done | done | |].
    + intros j Hj. replace j with 1 by lia. cbn [Z.sub Z.opp Z.add Z.pos_sub].
      rewrite H1, Z.shiftr_0_r. by eapply vset_get_eq.
    + intros i Hi. rewrite (vset_get_ne _ _ i _ _ Hset); [done |]. rewrite <- H1. specialize (Hi 1). lia.
  - assert (1 <= d)%nat.
    { destruct d; [| lia]. exfalso. unfold level in Hl2. cbn in Hl2. lia. }
    destruct (IH fuel (h / 2) t1) as (t' & -> & Hlen' & Hpath & Hframe);
      [lia | lia | unfold small in *; lia | done | rewrite Hlen; rewrite Nat2Z.inj_succ, Z.pow_succ_r in Ht by lia;
       pose proof (Z.pow_pos_nonneg 2 (Z.of_nat d)); lia |].
    assert (Hsmaller : forall j, 1 <= j <= Z.of_nat d -> Z.shiftr (h / 2) j < h / 2).
    { intros j Hj. rewrite Z.shiftr_div_pow2 by lia. apply Z.div_lt; [lia |].
      pose proof (Z.pow_le_mono_r 2 1 j). lia. }
    exists t'. split_and!; [done | lia | |].
    + intros j Hj. destruct (decide (j = 1)) as [->|].
      * rewrite H1. cbn [Z.sub Z.opp Z.add Z.pos_sub]. rewrite Z.shiftr_0_r.
        rewrite Hframe; [by eapply vset_get_eq |]. intros j Hj'. specialize (Hsmaller j Hj'). lia.
      * specialize (Hpath (j - 1) ltac:(lia)). rewrite !shiftr_half_step in Hpath by lia.
        by replace (j - 1 + 1) with j in Hpath by lia; replace (j - 1 - 1 + 1) with (j - 1) in Hpath by lia.
    + intros i Hi. rewrite Hframe.
      * apply (vset_get_ne _ _ i _ _ Hset). rewrite <- H1. specialize (Hi 1). lia.
      * intros j Hj. rewrite shiftr_half_step by lia. apply Hi. lia.
Qed.

Lemma shiftr_pred x j : 1 <= j -> Z.shiftr x (j - 1) = 2 * Z.shiftr x j + Z.b2z (Z.odd (Z.shiftr x (j - 1))).
Proof.
  intros Hj. replace (Z.shiftr x j) with (Z.div2 (Z.shiftr x (j - 1))); [apply Z.div2_odd |].
  rewrite Z.div2_spec, Z.shiftr_shiftr by lia. f_equal. lia.
Qed.

Lemma root_shiftr k leaf : 0 <= k -> level k leaf -> Z.shiftr leaf k = 1.
Proof.
  intros Hk Hl. pose proof (level_shiftr k leaf k ltac:(lia) Hl) as H. rewrite Z.sub_diag in H.
  unfold level in H. cbn in H. lia.
Qed.

Section Tree.
Variables (k : Z) (t : list bool).
Hypothesis k_range : 0 <= k <= 48.
Hypothesis t_size : Z.of_nat (length t) = 2 ^ k - 1.

(** Every ancestor of [leaf], down from level [m], points to it. *)
Definition pointed_from (m leaf : Z) : Prop :=
  level k leaf /\ forall j, 1 <= j <= k - m ->
    vget t (Z.shiftr leaf j - 1) = Ok (Z.odd (Z.shiftr leaf (j - 1))).

Lemma pointed_unique a b : pointed_from 0 a -> pointed_from 0 b -> a = b.
Proof.
  intros [Ha Hpa] [Hb Hpb].
  assert (Haux : forall n : nat, Z.of_nat n <= k -> Z.shiftr a (k - Z.of_nat n) = Z.shiftr b (k - Z.of_nat n)).
  { induction n as [|n IH]; intros Hn.
    - rewrite Z.sub_0_r. by rewrite !root_shiftr by (lia || done).
    - set (j := k - Z.of_nat n). assert (Hj : 1 <= j <= k - 0) by lia.
      replace (k - Z.of_nat (S n)) with (j - 1) by lia.
      pose proof (Hpa j Hj) as H1. pose proof (Hpb j Hj) as H2.
      assert (Hab : Z.shiftr a j = Z.shiftr b j) by (apply IH; lia).
      rewrite Hab in H1. same_ok. rewrite (shiftr_pred a), (shiftr_pred b), Hab by lia. congruence. }
  specialize (Haux (Z.to_nat k) ltac:(lia)). rewrite Z2Nat.id, Z.sub_diag in Haux by lia.
  by rewrite !Z.shiftr_0_r in Haux.
Qed.

Lemma descend_spec (n : nat) : forall fuel h,
  Z.of_nat n <= k -> (n <= fuel)%nat -> level (k - Z.of_nat n) h ->
  exists leaf, descend fuel t (h - 1) = Ok (leaf - 1) /\
    Z.shiftr leaf (Z.of_nat n) = h /\ pointed_from (k - Z.of_nat n) leaf.
Proof.
  assert (Hk : 2 ^ k <= 2 ^ 48) by (apply Z.pow_le_mono_r; lia).
  induction n as [|n IH]; intros fuel h Hn Hf Hl.
  - rewrite Z.sub_0_r in Hl. exists h. split_and!; [| apply Z.shiftr_0_r | split; [done | intros; lia]].
    unfold level in Hl. destruct fuel; cbn [descend]; by rewrite (proj2 (Z.ltb_ge _ _)) by lia.
  - destruct fuel as [|fuel]; [lia |]. cbn [descend].
    assert (Hh : small h /\ h < 2 ^ k).
    { unfold level in Hl. pose proof (Z.pow_pos_nonneg 2 (k - Z.of_nat (S n))).
      pose proof (Z.pow_le_mono_r 2 (k - Z.of_nat (S n) + 1) k). unfold small. lia. }
    destruct Hh as [Hs Hh]. rewrite (proj2 (Z.ltb_lt _ _)) by lia.
    destruct (vget_is_ok t (h - 1)) as [b Hb]; [unfold small in Hs; lia |].
    unfold tree_at. rewrite Hb. rsimpl. rewrite child_heap by done.
    destruct (IH fuel (2 * h + Z.b2z b)) as (leaf & -> & Hsh & Hlv & Hp); [lia | lia | |].
    { unfold level in *. replace (k - Z.of_nat n) with (k - Z.of_nat (S n) + 1) by lia.
      rewrite !Z.pow_add_r, Z.pow_1_r in * by lia. destruct b; cbn [Z.b2z]; lia. }
    exists leaf. pose proof (shiftr_pred leaf (Z.of_nat (S n)) ltac:(lia)) as Hstep.
    replace (Z.of_nat (S n) - 1) with (Z.of_nat n) in Hstep by lia. rewrite Hsh in Hstep.
    assert (Z.shiftr leaf (Z.of_nat (S n)) = h /\ Z.odd (2 * h + Z.b2z b) = b) as [H1 H2].
    { destruct b, (Z.odd _); cbn [Z.b2z] in *; lia. }
    split_and!; [done | done | split; [done |]]. intros j Hj. destruct (decide (j = Z.of_nat (S n))) as [->|].
    + replace (Z.of_nat (S n) - 1) with (Z.of_nat n) by lia. by rewrite H1, Hsh, H2.
    + apply Hp. lia.
Qed.

(** The search ends at the leaf all its ancestors point to. *)
Lemma descend_root :
  exists leaf, descend (length t) t 0 = Ok (leaf - 1) /\ pointed_from 0 leaf.
Proof.
  destruct (descend_spec (Z.to_nat k) (length t) 1) as (leaf & Hd & _ & Hp).
  - lia.
  - pose proof (Z.pow_gt_lin_r 2 k). lia.
  - rewrite Z2Nat.id, Z.sub_diag by lia. unfold level. cbn. lia.
  - rewrite Z2Nat.id, Z.sub_diag in Hp by lia. exists leaf. split; [exact Hd | done].
Qed.
End Tree.

(** ** The laws *)

Definition leaf_data (k tp i : Z) : TreePLRUReplData := {| index := 2 ^ k - 1 + i; tree := tp |}.

(** [l] are the handles of a set: the leaves, in order, of one tree. *)
Definition plru_set_at (k tp : Z) (s : TreePLRURP) (l : list Z) : Prop :=
  1 <= k <= 48 /\ numLeaves s = 2 ^ k /\ Z.of_nat (length l) = 2 ^ k /\
  (exists t, vget (trees s) tp = Ok t /\ Z.of_nat (length t) = 2 ^ k - 1) /\
  forall (i : nat) p, l !! i = Some p -> vget (plru_objs s) p = Ok (leaf_data k tp (Z.of_nat i)).

Definition plru_set (s : TreePLRURP) (l : list Z) : Prop := exists k tp, plru_set_at k tp s l.

Definition plru_ready (n : nat) (s : TreePLRURP) : Prop :=
  exists k, 1 <= k <= 48 /\ numLeaves s = 2 ^ k /\ Z.of_nat n = 2 ^ k /\ count s mod 2 ^ k = 0.

Lemma pow2_range k : 1 <= k <= 48 -> 2 <= 2 ^ k <= 2 ^ 48.
Proof. intros Hk. pose proof (Z.pow_le_mono_r 2 1 k). pose proof (Z.pow_le_mono_r 2 k 48). lia. Qed.

Lemma leaf_level k i : 1 <= k <= 48 -> 0 <= i < 2 ^ k -> level k (2 ^ k + i) /\ small (2 ^ k + i).
Proof.
  intros Hk Hi. pose proof (pow2_range k Hk). unfold level, small.
  rewrite Z.pow_add_r, Z.pow_1_r by lia. lia.
Qed.

(** The tree of a set after one access. *)
Definition marked (dir : bool -> bool) (k i : Z) (t t' : list bool) : Prop :=
  length t' = length t /\
  forall j, 1 <= j <= k -> vget t' (Z.shiftr (2 ^ k + i) j - 1)
    = Ok (dir (Z.odd (Z.shiftr (2 ^ k + i) (j - 1)))).

Lemma update_tree_spec dir k tp s l (i : nat) p :
  plru_set_at k tp s l -> l !! i = Some p ->
  exists t t', vget (trees s) tp = Ok t /\ marked dir k (Z.of_nat i) t t' /\
    exists ts, vset (trees s) tp t' = Ok ts /\ update_tree dir s p = Ok (s ⟨ trees := ts ⟩).
Proof.
  intros (Hk & Hn & Hl & (t & Ht & Hsz) & Hobj) Hi.
  pose proof (lookup_lt_Some _ _ _ Hi) as Hlt. pose proof (pow2_range k Hk).
  destruct (leaf_level k (Z.of_nat i) Hk ltac:(lia)) as [Hlv Hsm].
  destruct (mark_path_spec dir (Z.to_nat k) 65 (2 ^ k + Z.of_nat i) t) as (t' & Hm & Hlen & Hp & _);
    [lia | lia | done | by rewrite Z2Nat.id by lia | rewrite Z2Nat.id; lia |].
  rewrite Z2Nat.id in Hp by lia. exists t, t'. split_and!; [done | by split |].
  destruct (vset_is_ok (trees s) tp t') as [ts Hts]; [by eapply vget_range |].
  exists ts. split; [done |]. unfold update_tree. rewrite (Hobj i p Hi). rsimpl.
  cbn [tree index leaf_data]. rewrite Ht. rsimpl.
  replace (2 ^ k - 1 + Z.of_nat i) with (2 ^ k + Z.of_nat i - 1) by lia.
  rewrite Hm. rsimpl. by rewrite Hts.
Qed.

Lemma set_trees_keeps s tp t t' ts :
  vget (trees s) tp = Ok t -> length t' = length t -> vset (trees s) tp t' = Ok ts ->
  (forall k q l, plru_set_at k q s l -> plru_set_at k q (s ⟨ trees := ts ⟩) l) /\
  (forall n, plru_ready n s -> plru_ready n (s ⟨ trees := ts ⟩)).
Proof.
  intros Ht Hlen Hts. split; [| done].
  intros k q l (Hk & Hn & Hl & (tq & Htq & Hsz) & Hobj). split_and!; [exact (proj1 Hk) | exact (proj2 Hk) | exact Hn | exact Hl | | exact Hobj].
  cbn [trees setf]. destruct (decide (q = tp)) as [->|].
  - exists t'. split; [by eapply vset_get_eq |]. same_ok. lia.
  - exists tq. split; [by rewrite (vset_get_ne _ _ _ _ _ Hts) | done].
Qed.

Lemma update_tree_law dir s l p :
  plru_set s l -> p ∈ l ->
  exists s', update_tree dir s p = Ok s' /\
    (forall l, plru_set s l -> plru_set s' l) /\ (forall n, plru_ready n s -> plru_ready n s').
Proof.
  intros (k & tp & Hset) [i Hi]%list_elem_of_lookup_1.
  destruct (update_tree_spec dir k tp s l i p Hset Hi) as (t & t' & Ht & [Hlen _] & ts & Hts & ->).
  eexists. split; [done |]. destruct (set_trees_keeps s tp t t' ts Ht Hlen Hts) as [H1 H2].
  split; [| done]. intros l' (k' & q & Hs). exists k', q. by apply H1.
Qed.

Lemma candidate_handle (cands : list ReplaceableEntry) (i : nat) c :
  cands !! i = Some c -> map replacementData cands !! i = Some (replacementData c).
Proof. intros H. change (map replacementData cands) with (replacementData <$> cands). by rewrite list_lookup_fmap, H. Qed.

(** The victim is the candidate whose leaf all ancestors point to. *)
Lemma plru_getVictim_spec k tp s cands :
  plru_set_at k tp s (map replacementData cands) ->
  exists t (i : nat) v, vget (trees s) tp = Ok t /\ Z.of_nat (length t) = 2 ^ k - 1 /\
    TreePLRURP_getVictim s cands = Ok v /\
    cands !! i = Some v /\ pointed_from k t 0 (2 ^ k + Z.of_nat i).
Proof.
  intros (Hk & Hn & Hl & (t & Ht & Hsz) & Hobj). pose proof (pow2_range k Hk). rewrite length_map in Hl.
  destruct (descend_root k t ltac:(lia) Hsz) as (leaf & Hd & Hp).
  assert (Hlv : 2 ^ k <= leaf < 2 ^ k + 2 ^ k).
  { destruct Hp as [Hlv _]. unfold level in Hlv. rewrite Z.pow_add_r, Z.pow_1_r in Hlv by lia. lia. }
  destruct cands as [|c0 rest] eqn:Ec; [cbn in Hl; lia |]. rewrite <- Ec in *.
  destruct (lookup_lt_is_Some_2 cands (Z.to_nat (leaf - 2 ^ k))) as [v Hv]; [lia |].
  exists t, (Z.to_nat (leaf - 2 ^ k)), v. split_and!; [done | done | | done |].
  - unfold TreePLRURP_getVictim. rewrite (proj2 (Z.ltb_lt 0 _)) by lia. rsimpl.
    assert (vget cands 0 = Ok c0) as -> by (by rewrite Ec). rsimpl.
    rewrite (Hobj 0%nat (replacementData c0)) by (by rewrite Ec). rsimpl.
    cbn [tree leaf_data]. rewrite Ht. rsimpl. rewrite Hd. rsimpl.
    rewrite Hn, (u64_id (2 ^ k - 1)), u64_id by (unfold in_u64; lia).
    apply vget_Ok. split; [lia |]. by replace (leaf - 1 - (2 ^ k - 1)) with (leaf - 2 ^ k) by lia.
  - by replace (2 ^ k + Z.of_nat (Z.to_nat (leaf - 2 ^ k))) with leaf by lia.
Qed.

(** [instantiateEntry] hands out the leaves of the current tree in order. *)
Lemma u64_mod_pow2 k z : 0 <= k <= 64 -> u64 z mod 2 ^ k = z mod 2 ^ k.
Proof.
  intros Hk. apply Z.mod_mod_divide.
  exists (2 ^ (64 - k)). rewrite <- Z.pow_add_r by lia. f_equal. lia.
Qed.

Lemma instantiate_next k tp s i :
  1 <= k <= 48 -> numLeaves s = 2 ^ k -> 1 <= i < 2 ^ k -> count s mod 2 ^ k = i ->
  treeInstance s = Some tp ->
  exists s', TreePLRURP_instantiateEntry s = Ok (s', Z.of_nat (length (plru_objs s))) /\
    numLeaves s' = 2 ^ k /\ treeInstance s' = Some tp /\ trees s' = trees s /\
    plru_objs s' = plru_objs s ++ [leaf_data k tp i] /\ count s' mod 2 ^ k = (i + 1) mod 2 ^ k.
Proof.
  intros Hk Hn Hi Hc Ht. pose proof (pow2_range k Hk). unfold TreePLRURP_instantiateEntry.
  rewrite Hn, Hc, (proj2 (Z.eqb_neq i 0)) by lia. rewrite Ht. rsimpl. rewrite Hn, Hc.
  rewrite (u64_id (i + 2 ^ k)), u64_id by (unfold in_u64; lia).
  eexists. split; [done |]. cbn. split_and!; [done | done | done | |].
  - unfold leaf_data. do 3 f_equal. lia.
  - rewrite u64_mod_pow2 by lia. rewrite <- Hc, Zplus_mod_idemp_l. done.
Qed.

Lemma instantiate_first k s :
  1 <= k <= 48 -> numLeaves s = 2 ^ k -> count s mod 2 ^ k = 0 ->
  exists s' t, TreePLRURP_instantiateEntry s = Ok (s', Z.of_nat (length (plru_objs s))) /\
    numLeaves s' = 2 ^ k /\ treeInstance s' = Some (Z.of_nat (length (trees s))) /\
    trees s' = trees s ++ [t] /\ Z.of_nat (length t) = 2 ^ k - 1 /\
    plru_objs s' = plru_objs s ++ [leaf_data k (Z.of_nat (length (trees s))) 0] /\
    count s' mod 2 ^ k = 1 mod 2 ^ k.
Proof.
  intros Hk Hn Hc. pose proof (pow2_range k Hk). unfold TreePLRURP_instantiateEntry.
  rewrite Hn, Hc, Z.eqb_refl. rsimpl. cbn [treeInstance setf]. rsimpl.
  cbn [count numLeaves plru_objs setf]. rewrite Hn, Hc.
  rewrite (u64_id (0 + 2 ^ k)), (u64_id (0 + 2 ^ k - 1)), (u64_id (2 ^ k - 1))
    by (unfold in_u64; lia).
  do 2 eexists. split; [done |]. cbn [count numLeaves plru_objs treeInstance trees setf].
  split_and!; [done | done | done | | |].
  - rewrite length_replicate. lia.
  - unfold leaf_data. do 3 f_equal. lia.
  - rewrite u64_mod_pow2 by lia. rewrite <- Zplus_mod_idemp_l, Hc. done.
Qed.

Lemma vget_app_l {A} (l l' : list A) i x : vget l i = Ok x -> vget (l ++ l') i = Ok x.
Proof. intros [? ?]%vget_Ok. apply vget_Ok. split; [done |]. by apply lookup_app_l_Some. Qed.

Lemma instantiate_rest k tp : forall (m : nat) s i,
  1 <= k <= 48 -> numLeaves s = 2 ^ k -> 1 <= i -> i + Z.of_nat m = 2 ^ k ->
  count s mod 2 ^ k = i mod 2 ^ k -> treeInstance s = Some tp ->
  exists s' l, instantiateEntries m s = Ok (s', l) /\ length l = m /\
    numLeaves s' = 2 ^ k /\ trees s' = trees s /\ count s' mod 2 ^ k = 0 /\
    (exists more, plru_objs s' = plru_objs s ++ more) /\
    forall (j : nat) p, l !! j = Some p ->
      vget (plru_objs s') p = Ok (leaf_data k tp (i + Z.of_nat j)).
Proof.
  induction m as [|m IH]; intros s i Hk Hn Hi Him Hc Ht; cbn [instantiateEntries].
  { exists s, []. split_and!; try done.
    - rewrite Hc. replace i with (2 ^ k) by lia. apply Z.mod_same. pose proof (pow2_range k Hk). lia.
    - exists []. by rewrite app_nil_r. }
  rewrite (Z.mod_small i) in Hc by lia.
  destruct (instantiate_next k tp s i Hk Hn ltac:(lia) Hc Ht) as (s1 & Hs1 & Hn1 & Ht1 & Htr1 & Ho1 & Hc1).
  cbn [instantiateEntry TreePLRURP_base]. rewrite Hs1. rsimpl.
  destruct (IH s1 (i + 1) Hk Hn1 ltac:(lia) ltac:(lia) Hc1 Ht1)
    as (s' & l & Hs' & Hl & Hn' & Htr' & Hc' & (more & Hmore) & Hall).
  rewrite Hs'. rsimpl. do 2 eexists. split; [done |]. split_and!; [cbn; lia | done | congruence | done | |].
  - exists ([leaf_data k tp i] ++ more). by rewrite Hmore, Ho1, app_assoc.
  - intros [|j] p Hp; cbn in Hp.
    + injection Hp as <-. rewrite Hmore. apply vget_app_l, vget_nat. rewrite Ho1, Z.add_0_r.
      by apply list_lookup_middle.
    + rewrite (Hall j p Hp). do 2 f_equal. lia.
Qed.

Lemma plru_keeps_app s s' more extra :
  numLeaves s' = numLeaves s -> plru_objs s' = plru_objs s ++ more -> trees s' = trees s ++ extra ->
  forall k tp l, plru_set_at k tp s l -> plru_set_at k tp s' l.
Proof.
  intros Hn Ho Ht k tp l (Hk & Hn0 & Hl & (t & Htp & Hsz) & Hobj).
  split_and!; [lia | lia | congruence | done | |].
  - exists t. split; [| done]. rewrite Ht. by apply vget_app_l.
  - intros i p Hp. rewrite Ho. by apply vget_app_l, Hobj.
Qed.

Lemma plru_instantiate_law n s :
  plru_ready n s ->
  exists s' l, instantiateEntries n s = Ok (s', l) /\ length l = n /\ plru_set s' l /\
    (forall l, plru_set s l -> plru_set s' l) /\ (forall m, plru_ready m s -> plru_ready m s').
Proof.
  intros (k & Hk & Hn & Hsz & Hc). pose proof (pow2_range k Hk).
  destruct n as [|n]; [lia |]. cbn [instantiateEntries].
  destruct (instantiate_first k s Hk Hn Hc) as (s1 & t & Hs1 & Hn1 & Ht1 & Htr1 & Hlen & Ho1 & Hc1).
  cbn [instantiateEntry TreePLRURP_base]. rewrite Hs1. rsimpl.
  set (tp := Z.of_nat (length (trees s))) in *.
  destruct (instantiate_rest k tp n s1 1 Hk Hn1 ltac:(lia) ltac:(lia) Hc1 Ht1)
    as (s' & l & Hs' & Hl & Hn' & Htr' & Hc' & (more & Hmore) & Hall).
  rewrite Hs'. rsimpl. do 2 eexists. split; [done |]. split_and!; [cbn; lia | | |].
  - exists k, tp. split_and!; [lia | lia | done | cbn; lia | |].
    + exists t. split; [| done]. rewrite Htr', Htr1. apply vget_nat. by apply list_lookup_middle.
    + intros [|i] p Hp; cbn in Hp.
      * injection Hp as <-. rewrite Hmore, Ho1. apply vget_app_l, vget_nat. by apply list_lookup_middle.
      * rewrite (Hall i p Hp). do 2 f_equal. lia.
  - intros l' (k' & tp' & Hset). exists k', tp'. eapply plru_keeps_app; [| | | exact Hset].
    + congruence.
    + by rewrite Hmore, Ho1, <- app_assoc.
    + by rewrite Htr', Htr1.
  - intros m (k' & Hk' & Hnk & Hm & _). exists k'. rewrite Hn in Hnk.
    apply Z.pow_inj_r in Hnk; [subst k' | lia..]. done.
Qed.

#[global, refine] Instance TreePLRURP_laws : ReplacementLaws TreePLRURP :=
  { rp_set := plru_set; rp_ready := plru_ready }.
Proof.
  - intros e s l p _. exact (update_tree_law (fun right => right) s l p).
  - intros e s l p _. exact (update_tree_law (fun right => negb right) s l p).
  - intros e s l p _. exact (update_tree_law (fun right => negb right) s l p).
  - discriminate.
  - intros e s cands _ (k & tp & Hset). cbn [getVictim TreePLRURP_base].
    destruct (plru_getVictim_spec k tp s cands Hset) as (t & i & v & _ & _ & -> & Hi & _). rsimpl.
    exists s, v. split_and!; [done | by eapply list_elem_of_lookup_2 | done | done].
  - apply plru_instantiate_law.
Defined.

Lemma marked_root dir k i t t' :
  1 <= k <= 48 -> 0 <= i < 2 ^ k -> marked dir k i t t' ->
  vget t' 0 = Ok (dir (Z.odd (Z.shiftr (2 ^ k + i) (k - 1)))).
Proof.
  intros Hk Hi [_ Hm]. specialize (Hm k ltac:(lia)).
  by rewrite (root_shiftr k) in Hm by (lia || by apply leaf_level).
Qed.

(** The child of the root above a leaf tells the half the leaf is in. *)
Lemma half_of_leaf k i :
  1 <= k <= 48 -> 0 <= i < 2 ^ k -> Z.odd (Z.shiftr (2 ^ k + i) (k - 1)) = (2 ^ (k - 1) <=? i).
Proof.
  intros Hk Hi. pose proof (shiftr_pred (2 ^ k + i) k ltac:(lia)) as E.
  rewrite (root_shiftr k) in E by (lia || by apply leaf_level).
  rewrite Z.shiftr_div_pow2 in * by lia.
  assert (H2 : 2 ^ k = 2 * 2 ^ (k - 1)) by (rewrite <- Z.pow_succ_r by lia; f_equal; lia).
  assert (0 < 2 ^ (k - 1)) by (apply Z.pow_pos_nonneg; lia).
  pose proof (Z.div_mod (2 ^ k + i) (2 ^ (k - 1)) ltac:(lia)).
  pose proof (Z.mod_pos_bound (2 ^ k + i) (2 ^ (k - 1)) ltac:(lia)).
  destruct (Z.odd _); cbn [Z.b2z] in E; symmetry; [apply Z.leb_le | apply Z.leb_gt]; nia.
Qed.

(** C31.  Tree-PLRU on a set of [2 ^ k] ways: a victim is always found; the
    way that was invalidated last is the next victim; the way that was touched
    last is not, and the next victim lies in the other half of the set. *)
Theorem plru_victim (k tp : Z) (s : TreePLRURP) (cands : list ReplaceableEntry) (i : nat)
    (c : ReplaceableEntry) :
  plru_set_at k tp s (map replacementData cands) -> cands !! i = Some c ->
  (exists s' , TreePLRURP_invalidate s (replacementData c) = Ok s' /\
     TreePLRURP_getVictim s' cands = Ok c) /\
  (exists s' (j : nat) v, TreePLRURP_touch s (replacementData c) = Ok s' /\
     TreePLRURP_getVictim s' cands = Ok v /\ cands !! j = Some v /\
     (2 ^ (k - 1) <= Z.of_nat j <-> Z.of_nat i < 2 ^ (k - 1))).
Proof.
  intros Hset Hi. pose proof Hset as (Hk & _ & Hl & _). rewrite length_map in Hl.
  pose proof (lookup_lt_Some _ _ _ Hi). pose proof (candidate_handle _ _ _ Hi) as Hp.
  assert (Hupd : forall dir, exists t t' s', marked dir k (Z.of_nat i) t t' /\
    update_tree dir s (replacementData c) = Ok s' /\ vget (trees s') tp = Ok t' /\
    plru_set_at k tp s' (map replacementData cands)).
  { intros dir. destruct (update_tree_spec dir k tp s _ i _ Hset Hp) as (t & t' & Ht & Hm & ts & Hts & Hu).
    do 3 eexists. split_and!; [exact Hm | exact Hu | by eapply vset_get_eq |].
    eapply set_trees_keeps; [exact Ht | apply Hm | exact Hts | done]. }
  split.
  - destruct (Hupd (fun right => right)) as (t & t' & s' & Hm & Hu & Ht' & Hset').
    exists s'. split; [done |].
    destruct (plru_getVictim_spec k tp s' cands Hset') as (t2 & j & v & Ht2 & Hsz & -> & Hj & Hpt).
    same_ok. f_equal. enough (Z.of_nat i = Z.of_nat j) by (assert (i = j) by lia; congruence).
    assert (2 ^ k + Z.of_nat j = 2 ^ k + Z.of_nat i); [| lia].
    eapply (pointed_unique k); [lia | exact Hpt | split; [apply leaf_level; lia |]].
    intros q Hq. apply Hm. lia.
  - destruct (Hupd (fun right => negb right)) as (t & t' & s' & Hm & Hu & Ht' & Hset').
    destruct (plru_getVictim_spec k tp s' cands Hset') as (t2 & j & v & Ht2 & Hsz & Hv & Hj & Hpt).
    same_ok. exists s', j, v. split_and!; [done | done | done |].
    pose proof (lookup_lt_Some _ _ _ Hj).
    pose proof (marked_root _ k (Z.of_nat i) _ _ Hk ltac:(lia) Hm) as H1.
    destruct Hpt as [Hlv Hpt]. specialize (Hpt k ltac:(lia)). rewrite (root_shiftr k) in Hpt by (lia || done).
    change (1 - 1) with 0 in Hpt. same_ok. rewrite !half_of_leaf in * by lia.
    destruct (2 ^ (k - 1) <=? Z.of_nat i) eqn:E1, (2 ^ (k - 1) <=? Z.of_nat j) eqn:E2; b2p;
      first [discriminate | lia].
Qed.

Definition plru_example : TreePLRURP := {|
  numLeaves := 4; count := 4; treeInstance := Some 0;
  plru_objs := map (leaf_data 2 0) [0; 1; 2; 3]; trees := [[false; false; false]]
|}.

Definition plru_ways : list ReplaceableEntry :=
  map (fun i => {| _set := 0; _way := i; replacementData := i |}) [0; 1; 2; 3].

Lemma plru_victim_witness :
  exists s', TreePLRURP_invalidate plru_example 2 = Ok s' /\
    TreePLRURP_getVictim s' plru_ways = Ok {| _set := 0; _way := 2; replacementData := 2 |}.
Proof.
  assert (H : plru_set_at 2 0 plru_example (map replacementData plru_ways)).
  { split_and!; [lia | lia | reflexivity | reflexivity | by eexists |].
    intros i p Hp. do 4 (destruct i as [|i]; [injection Hp as <-; reflexivity |]). discriminate. }
  destruct (plru_victim 2 0 plru_example plru_ways 2
    {| _set := 0; _way := 2; replacementData := 2 |} H eq_refl) as [(s' & H1 & H2) _].
  by exists s'.
Defined.

(** The example is what the constructor and four instantiations give. *)
Example plru_example_made :
  (s ← TreePLRURP_ctor 4; instantiateEntries 4 s) = Ok (plru_example, [0; 1; 2; 3]).
Proof. reflexivity. Qed.
