(* ===== verification/BankedArray.v ===== *)
(** * Banked arrays: [mem/ruby/structures/BankedArray.{hh,cc}]

    The tag and data arrays of a cache, as banks that are busy for the
    duration of an access.  The theorems: a bank that was reserved refuses
    every access until its access has ended, and a client that reserves only
    after [tryAccess] never meets the reservation error. *)
From S2P Require Import Prelude.

Record AccessRecord := { idx : Z; startAccess : Z; endAccess : Z }.

Definition AccessRecord_ctor : AccessRecord := {| idx := 0; startAccess := 0; endAccess := 0 |}.

Record BankedArray := {
  banks : Z;
  accessLatency : Z;
  clockPeriod : Z;                 (** [m_ruby_system->clockPeriod()] *)
  busyBanks : list AccessRecord
}.
#[global] Instance BankedArray_eta : Eta BankedArray :=
  {| eta r := {| banks := banks r; accessLatency := accessLatency r;
                 clockPeriod := clockPeriod r; busyBanks := busyBanks r |} |}.

Definition BankedArray_ctor (banks accessLatency clockPeriod : Z) : BankedArray :=
  {| banks := banks; accessLatency := accessLatency; clockPeriod := clockPeriod;
     busyBanks := replicate (Z.to_nat banks) AccessRecord_ctor |}.

(** [idx % banks]; the remainder by zero is undefined. *)
Definition mapIndexToBank (a : BankedArray) (idx : Z) : res Z :=
  if banks a =? 1 then Ok 0
  else if banks a =? 0 then Err EUninit
  else Ok (u32 (Z.rem idx (banks a))).

Definition tryAccess (curTick : Z) (a : BankedArray) (idx : Z) : res bool :=
  if accessLatency a =? 0 then Ok true
  else
    bank ← mapIndexToBank a idx;
    _ ← cassert (bank <? banks a);
    r ← vget (busyBanks a) bank;
    Ok (negb (curTick <=? endAccess r)).

Definition reserve (curTick : Z) (a : BankedArray) (i : Z) : res BankedArray :=
  if accessLatency a =? 0 then Ok a
  else
    bank ← mapIndexToBank a i;
    _ ← cassert (bank <? banks a);
    r ← vget (busyBanks a) bank;
    let take :=
      l ← vset (busyBanks a) bank
            {| idx := i; startAccess := curTick;
               endAccess := u64 (curTick + u64 (u64 (accessLatency a - 1) * clockPeriod a)) |};
      Ok (a ⟨ busyBanks := l ⟩) in
    if curTick <=? endAccess r then
      if (startAccess r =? curTick) && (idx r =? i) then Ok a else Err EPanic
    else take.

(** ** Properties *)

Section Banks.
Variable a : BankedArray.

Definition banks_ok : Prop :=
  0 < banks a < 2 ^ 31 /\ 0 < accessLatency a /\ 0 < clockPeriod a /\
  Z.of_nat (length (busyBanks a)) = banks a.

Lemma mapIndexToBank_ok i :
  banks_ok -> 0 <= i -> mapIndexToBank a i = Ok (i mod banks a) /\ 0 <= i mod banks a < banks a.
Proof.
  intros (Hb & _) Hi. pose proof (Z.mod_pos_bound i (banks a) ltac:(lia)). split; [| done].
  unfold mapIndexToBank. destruct (banks a =? 1) eqn:E1; b2p; [by rewrite E1, Z.mod_1_r |].
  rewrite (proj2 (Z.eqb_neq (banks a) 0)) by lia.
  rewrite Z.rem_mod_nonneg, u32_id by (unfold in_u32; lia). done.
Qed.

Lemma tryAccess_spec curTick i :
  banks_ok -> 0 <= i -> exists r, vget (busyBanks a) (i mod banks a) = Ok r /\
    tryAccess curTick a i = Ok (endAccess r <? curTick).
Proof.
  intros Hok Hi. destruct (mapIndexToBank_ok i Hok Hi) as [Hm Hr].
  destruct Hok as (Hb & Hl & _ & Hlen). destruct (vget_is_ok (busyBanks a) (i mod banks a)) as [r Hg]; [lia |].
  exists r. split; [done |]. unfold tryAccess. rewrite (proj2 (Z.eqb_neq _ 0)) by lia.
  rewrite Hm. rsimpl. rewrite (proj2 (Z.ltb_lt _ _)) by lia. rsimpl. rewrite Hg. rsimpl.
  by rewrite Z.leb_antisym, negb_involutive.
Qed.
End Banks.

(** After an access that [tryAccess] allowed was reserved at tick [T],
    the reservation succeeded and the bank refuses every access at the ticks
    from [T] to the end of the access, [T + (latency - 1) * period], and
    allows one at any later tick; the other banks are as before. *)
Theorem reserve_excludes (a : BankedArray) (T i : Z) :
  banks_ok a -> 0 <= i -> 0 <= T ->
  T + (accessLatency a - 1) * clockPeriod a < 2 ^ 64 ->
  tryAccess T a i = Ok true ->
  exists a', reserve T a i = Ok a' /\
    (forall j T', 0 <= j -> j mod banks a = i mod banks a -> T <= T' ->
       tryAccess T' a' j = Ok (T + (accessLatency a - 1) * clockPeriod a <? T')) /\
    (forall j T', 0 <= j -> j mod banks a <> i mod banks a ->
       tryAccess T' a' j = tryAccess T' a j).
Proof.
  intros Hok Hi HT Hend Htry.
  destruct (tryAccess_spec a T i Hok Hi) as (r & Hr & Htry').
  rewrite Htry in Htry'. injection Htry' as Hfree. symmetry in Hfree. b2p.
  destruct (mapIndexToBank_ok a i Hok Hi) as [Hm Hrange]. pose proof Hok as (Hb & Hl & Hc & Hlen).
  set (rec := {| idx := i; startAccess := T;
    endAccess := u64 (T + u64 (u64 (accessLatency a - 1) * clockPeriod a)) |}).
  assert (Hrec : endAccess rec = T + (accessLatency a - 1) * clockPeriod a).
  { cbn. rewrite (u64_id (accessLatency a - 1)), (u64_id (_ * _)), u64_id by (unfold in_u64; nia). done. }
  destruct (vset_is_ok (busyBanks a) (i mod banks a) rec) as [l Hs]; [lia |].
  exists (a ⟨ busyBanks := l ⟩).
  assert (Hok' : banks_ok (a ⟨ busyBanks := l ⟩)).
  { split_and!; try apply Hok. cbn. by rewrite (vset_length _ _ _ _ Hs). }
  split; [| split].
  - unfold reserve. rewrite (proj2 (Z.eqb_neq _ 0)) by lia. rewrite Hm. rsimpl.
    rewrite (proj2 (Z.ltb_lt _ _)) by lia. rsimpl. rewrite Hr. rsimpl.
    rewrite (proj2 (Z.leb_gt _ _)) by lia. fold rec. by rewrite Hs.
  - intros j T' Hj Hjm HT'. destruct (tryAccess_spec _ T' j Hok' Hj) as (rj & Hrj & ->).
    cbn in Hrj. rewrite Hjm, (vset_get_eq _ _ _ _ Hs) in Hrj. injection Hrj as <-. by rewrite Hrec.
  - intros j T' Hj Hjm. destruct (tryAccess_spec _ T' j Hok' Hj) as (rj & Hrj & ->).
    destruct (tryAccess_spec _ T' j Hok Hj) as (rj' & Hrj' & ->).
    cbn in Hrj. rewrite (vset_get_ne _ _ _ _ _ Hs) in Hrj by congruence. by same_ok.
Qed.

Lemma reserve_excludes_witness :
  exists a', reserve 500 (BankedArray_ctor 4 3 100) 6 = Ok a' /\
    tryAccess 700 a' 10 = Ok false /\ tryAccess 701 a' 10 = Ok true.
Proof.
  destruct (reserve_excludes (BankedArray_ctor 4 3 100) 500 6) as (a' & H1 & H2 & _).
  - split_and!; try reflexivity; cbn; lia.
  - lia.
  - lia.
  - cbn. lia.
  - reflexivity.
  - exists a'. split_and!; [exact H1 | rewrite H2; try reflexivity; lia..].
Defined.

(** At tick 0 every bank of a new array counts as busy, although nothing was
    reserved: the access records start with [endAccess = 0]. *)
Example new_array_busy_at_zero : tryAccess 0 (BankedArray_ctor 4 3 100) 6 = Ok false.
Proof. reflexivity. Qed.
