(* ===== verification/CacheMemory.v ===== *)
(** * Cache memory: [mem/ruby/structures/CacheMemory.{hh,cc}] and
      [mem/ruby/slicc_interface/AbstractCacheEntry.{hh,cc}]

    A set-associative cache: [m_cache[set][way]] holds pointers to entries,
    [m_tag_index] maps the address of a line to its way, and the replacement
    data of a way is made once, in [init].  The entries are objects the
    controllers share: a pointer is a key of the map [entries], which is the
    heap they live in ([None] is the null pointer).  The policy is a type [P]
    with an instance of [BaseReplacementPolicy]; nothing here depends on which.

    [block_size_bits] is [RubySystem::getBlockSizeBits()].  This file holds
    the definitions; CacheProofs.v holds the theorems. *)
From S2P Require Import Prelude Common IntMath Replacement BankedArray.

(** ** Entries *)

Inductive AccessPermission :=
  | AccessPermission_Read_Only | AccessPermission_Read_Write | AccessPermission_Maybe_Stale
  | AccessPermission_Backing_Store | AccessPermission_Invalid | AccessPermission_NotPresent
  | AccessPermission_Busy.

#[global] Instance AccessPermission_eq_dec : EqDecision AccessPermission.
Proof. solve_decision. Defined.

(** The enumeration of [mem/ruby/protocol/RubySlicc_Exports.sm]. *)
Inductive RubyRequestType :=
  | RubyRequestType_LD | RubyRequestType_ST | RubyRequestType_ATOMIC | RubyRequestType_ATOMIC_RETURN
  | RubyRequestType_ATOMIC_NO_RETURN | RubyRequestType_IFETCH | RubyRequestType_IO | RubyRequestType_REPLACEMENT
  | RubyRequestType_Load_Linked | RubyRequestType_Store_Conditional | RubyRequestType_RMW_Read
  | RubyRequestType_RMW_Write | RubyRequestType_Locked_RMW_Read | RubyRequestType_Locked_RMW_Write
  | RubyRequestType_COMMIT | RubyRequestType_NULL | RubyRequestType_FLUSH | RubyRequestType_Release
  | RubyRequestType_Acquire | RubyRequestType_AcquireRelease.

#[global] Instance RubyRequestType_eq_dec : EqDecision RubyRequestType.
Proof. solve_decision. Defined.

Record AbstractCacheEntry := {
  base : ReplaceableEntry;
  ce_last_touch_tick : Z;
  validBlocks : Z;
  m_Address : Z;
  m_locked : Z;
  m_Permission : AccessPermission
}.
#[global] Instance AbstractCacheEntry_eta : Eta AbstractCacheEntry :=
  {| eta r := {| base := base r; ce_last_touch_tick := ce_last_touch_tick r;
                 validBlocks := validBlocks r; m_Address := m_Address r;
                 m_locked := m_locked r; m_Permission := m_Permission r |} |}.

(** [position] and [blocks] stand for the members the constructor leaves
    indeterminate. *)
Definition AbstractCacheEntry_ctor (position : ReplaceableEntry) (blocks : Z) : AbstractCacheEntry :=
  {| base := position; ce_last_touch_tick := 0; validBlocks := blocks; m_Address := 0;
     m_locked := -1; m_Permission := AccessPermission_NotPresent |}.

Definition changePermission (e : AbstractCacheEntry) (new_perm : AccessPermission)
    : AbstractCacheEntry :=
  let e := e ⟨ m_Permission := new_perm ⟩ in
  if bool_decide (new_perm = AccessPermission_Invalid) ||
     bool_decide (new_perm = AccessPermission_NotPresent)
  then e ⟨ m_locked := -1 ⟩ else e.

Definition entry_setLocked (e : AbstractCacheEntry) (context : Z) : AbstractCacheEntry :=
  e ⟨ m_locked := context ⟩.
Definition entry_clearLocked (e : AbstractCacheEntry) : AbstractCacheEntry := e ⟨ m_locked := -1 ⟩.
Definition entry_isLocked (e : AbstractCacheEntry) (context : Z) : bool := m_locked e =? context.
Definition getLastAccess (e : AbstractCacheEntry) : Z := ce_last_touch_tick e.
Definition setLastAccess (e : AbstractCacheEntry) (tick : Z) : AbstractCacheEntry :=
  e ⟨ ce_last_touch_tick := tick ⟩.

(** ** The cache *)

Record CacheMemory (P : Type) := {
  m_is_instruction_only_cache : bool;
  m_tag_index : gmap Z Z;
  m_cache : list (list (option Z));
  m_replacementPolicy : P;
  dataArray : BankedArray;
  tagArray : BankedArray;
  m_cache_size : Z;
  m_cache_num_sets : Z;
  m_cache_num_set_bits : Z;
  m_cache_assoc : Z;
  m_start_index_bit : Z;
  m_resource_stalls : bool;
  m_block_size : Z;
  replacement_data : list (list Z);
  m_use_occupancy : bool;
  numDataArrayReads : Z; numDataArrayWrites : Z;
  numTagArrayReads : Z; numTagArrayWrites : Z;
  numTagArrayStalls : Z; numDataArrayStalls : Z;
  entries : gmap Z AbstractCacheEntry     (** the heap of the entries *)
}.
Arguments m_is_instruction_only_cache {P}. Arguments m_tag_index {P}. Arguments m_cache {P}.
Arguments m_replacementPolicy {P}. Arguments dataArray {P}. Arguments tagArray {P}.
Arguments m_cache_size {P}. Arguments m_cache_num_sets {P}. Arguments m_cache_num_set_bits {P}.
Arguments m_cache_assoc {P}. Arguments m_start_index_bit {P}. Arguments m_resource_stalls {P}.
Arguments m_block_size {P}. Arguments replacement_data {P}. Arguments m_use_occupancy {P}.
Arguments numDataArrayReads {P}. Arguments numDataArrayWrites {P}. Arguments numTagArrayReads {P}.
Arguments numTagArrayWrites {P}. Arguments numTagArrayStalls {P}. Arguments numDataArrayStalls {P}.
Arguments entries {P}.

#[global] Instance CacheMemory_eta {P} : Eta (CacheMemory P) :=
  {| eta r := {| m_is_instruction_only_cache := m_is_instruction_only_cache r;
       m_tag_index := m_tag_index r; m_cache := m_cache r;
       m_replacementPolicy := m_replacementPolicy r; dataArray := dataArray r;
       tagArray := tagArray r; m_cache_size := m_cache_size r;
       m_cache_num_sets := m_cache_num_sets r; m_cache_num_set_bits := m_cache_num_set_bits r;
       m_cache_assoc := m_cache_assoc r; m_start_index_bit := m_start_index_bit r;
       m_resource_stalls := m_resource_stalls r; m_block_size := m_block_size r;
       replacement_data := replacement_data r; m_use_occupancy := m_use_occupancy r;
       numDataArrayReads := numDataArrayReads r; numDataArrayWrites := numDataArrayWrites r;
       numTagArrayReads := numTagArrayReads r; numTagArrayWrites := numTagArrayWrites r;
       numTagArrayStalls := numTagArrayStalls r; numDataArrayStalls := numDataArrayStalls r;
       entries := entries r |} |}.

(** [RubyCacheParams], the part [CacheMemory] reads. *)
Record RubyCacheParams := {
  p_size : Z; p_assoc : Z; p_start_index_bit : Z; p_is_icache : bool; p_block_size : Z;
  p_dataArrayBanks : Z; p_tagArrayBanks : Z; p_dataAccessLatency : Z; p_tagAccessLatency : Z;
  p_resourceStalls : bool; p_clockPeriod : Z
}.

(** [AccessPermission] of an entry of [m_cache] that may be null. *)
Definition deref_entry (heap : gmap Z AbstractCacheEntry) (p : option Z) : res AbstractCacheEntry :=
  match p with
  | None => Err EUninit
  | Some a => match heap !! a with Some e => Ok e | None => Err EUninit end
  end.

(** Integer division; by zero it is undefined. *)
Definition int_div (a b : Z) : res Z := if b =? 0 then Err EUninit else Ok (Z.quot a b).

Section Cache.
Context {P : Type} `{BaseReplacementPolicy P} (block_size_bits : Z).
Implicit Types (c : CacheMemory P) (e : Env).

Definition CacheMemory_ctor (p : RubyCacheParams) (policy : P)
    (heap : gmap Z AbstractCacheEntry) : CacheMemory P :=
  {| m_is_instruction_only_cache := p_is_icache p; m_tag_index := ∅; m_cache := [];
     m_replacementPolicy := policy;
     dataArray := BankedArray_ctor (p_dataArrayBanks p) (p_dataAccessLatency p) (p_clockPeriod p);
     tagArray := BankedArray_ctor (p_tagArrayBanks p) (p_tagAccessLatency p) (p_clockPeriod p);
     m_cache_size := i32 (p_size p); m_cache_num_sets := 0; m_cache_num_set_bits := 0;
     m_cache_assoc := p_assoc p; m_start_index_bit := p_start_index_bit p;
     m_resource_stalls := p_resourceStalls p; m_block_size := i32 (p_block_size p);
     replacement_data := [];
     m_use_occupancy := match touch_occupancy (P := P) with Some _ => true | None => false end;
     numDataArrayReads := 0; numDataArrayWrites := 0; numTagArrayReads := 0;
     numTagArrayWrites := 0; numTagArrayStalls := 0; numDataArrayStalls := 0; entries := heap |}.

(** The loops of [init] that instantiate the replacement data set by set. *)
Definition instantiate_sets (num_sets assoc : Z) (s : P) : res (P * list (list Z)) :=
  foldM (fun acc (_ : Z) =>
    r ← instantiateEntries (Z.to_nat assoc) acc.1; Ok (r.1, acc.2 ++ [r.2]))
    (upto num_sets) (s, []).

Definition init (getBlockSizeBytes : Z) (c : CacheMemory P) : res (CacheMemory P) :=
  let c := if m_block_size c =? 0 then c ⟨ m_block_size := i32 getBlockSizeBytes ⟩ else c in
  per_way ← int_div (m_cache_size c) (m_cache_assoc c);
  num_sets ← int_div per_way (m_block_size c);
  _ ← cassert (1 <? num_sets);
  num_set_bits ← floorLog2 4 num_sets;
  _ ← cassert (0 <? num_set_bits);
  r ← instantiate_sets num_sets (m_cache_assoc c) (m_replacementPolicy c);
  Ok (c ⟨ m_cache_num_sets := num_sets ⟩ ⟨ m_cache_num_set_bits := num_set_bits ⟩
        ⟨ m_cache := replicate (Z.to_nat num_sets) (replicate (Z.to_nat (m_cache_assoc c)) None) ⟩
        ⟨ m_replacementPolicy := r.1 ⟩ ⟨ replacement_data := r.2 ⟩).

Definition is_line (address : Z) : bool := address =? makeLineAddress block_size_bits address.

Definition addressToCacheSet (c : CacheMemory P) (address : Z) : res Z :=
  _ ← cassert (is_line address);
  bitSelect address (m_start_index_bit c) (m_start_index_bit c + m_cache_num_set_bits c - 1).

(** [m_cache[set][way]]. *)
Definition slot (c : CacheMemory P) (set way : Z) : res (option Z) :=
  row ← vget (m_cache c) set; vget row way.

Definition entry_at (c : CacheMemory P) (set way : Z) : res AbstractCacheEntry :=
  p ← slot c set way; deref_entry (entries c) p.

(** [m_cache[set][way]->op()]. *)
Definition upd_entry (c : CacheMemory P) (set way : Z)
    (f : AbstractCacheEntry -> AbstractCacheEntry) : res (CacheMemory P) :=
  p ← slot c set way;
  match p with
  | None => Err EUninit
  | Some a =>
      en ← deref_entry (entries c) p;
      Ok (c ⟨ entries := <[a := f en]> (entries c) ⟩)
  end.

Definition findTagInSet (c : CacheMemory P) (cacheSet tag : Z) : res Z :=
  _ ← cassert (is_line tag);
  match m_tag_index c !! tag with
  | Some way =>
      en ← entry_at c cacheSet way;
      Ok (if bool_decide (m_Permission en = AccessPermission_NotPresent) then -1 else way)
  | None => Ok (-1)
  end.

Definition findTagInSetIgnorePermissions (c : CacheMemory P) (cacheSet tag : Z) : res Z :=
  _ ← cassert (is_line tag);
  Ok (match m_tag_index c !! tag with Some way => way | None => -1 end).

Definition getAddressAtIdx (c : CacheMemory P) (idx : Z) : res Z :=
  set ← int_div idx (m_cache_assoc c);
  _ ← cassert (set <? m_cache_num_sets c);
  let way := idx - set * m_cache_assoc c in
  _ ← cassert (way <? m_cache_assoc c);
  p ← slot c set way;
  match p with
  | None => Ok 0
  | Some _ =>
      entry ← deref_entry (entries c) p;
      Ok (if bool_decide (m_Permission entry = AccessPermission_Invalid) ||
             bool_decide (m_Permission entry = AccessPermission_NotPresent)
          then 0 else m_Address entry)
  end.

(** Set and way of an address; the way is -1 when the tag is not there. *)
Definition locate (c : CacheMemory P) (address : Z) : res (Z * Z) :=
  cacheSet ← addressToCacheSet c address;
  loc ← findTagInSet c cacheSet address;
  Ok (cacheSet, loc).

(** [m_replacementPolicy_ptr->op(replacement_data[set][way])]. *)
Definition policy_op (f : Env -> P -> Z -> res P) (e : Env) (c : CacheMemory P) (set way : Z)
    : res (CacheMemory P) :=
  row ← vget (replacement_data c) set;
  d ← vget row way;
  s ← f e (m_replacementPolicy c) d;
  Ok (c ⟨ m_replacementPolicy := s ⟩).

(** The access common to the lookups that count as a use of the line. *)
Definition use_line (e : Env) (c : CacheMemory P) (set way : Z) : res (CacheMemory P) :=
  c ← policy_op touch e c set way;
  upd_entry c set way (fun en => setLastAccess en (curTick e)).

(** The third component is [data_ptr]: the entry whose data block it points
    to. *)
Definition tryCacheAccess (e : Env) (c : CacheMemory P) (address : Z) (type : RubyRequestType)
    : res (CacheMemory P * bool * option Z) :=
  _ ← cassert (is_line address);
  l ← locate c address;
  if l.2 =? -1 then Ok (c, false, None)
  else
    p ← slot c l.1 l.2;
    c ← use_line e c l.1 l.2;
    entry ← deref_entry (entries c) p;
    if bool_decide (m_Permission entry = AccessPermission_Read_Write) then Ok (c, true, p)
    else if bool_decide (m_Permission entry = AccessPermission_Read_Only) &&
            (bool_decide (type = RubyRequestType_LD) || bool_decide (type = RubyRequestType_IFETCH))
    then Ok (c, true, p)
    else Ok (c, false, None).

Definition testCacheAccess (e : Env) (c : CacheMemory P) (address : Z) (type : RubyRequestType)
    : res (CacheMemory P * bool * option Z) :=
  _ ← cassert (is_line address);
  l ← locate c address;
  if l.2 =? -1 then Ok (c, false, None)
  else
    p ← slot c l.1 l.2;
    c ← use_line e c l.1 l.2;
    entry ← deref_entry (entries c) p;
    Ok (c, negb (bool_decide (m_Permission entry = AccessPermission_NotPresent)), p).

Definition isTagPresent (c : CacheMemory P) (address : Z) : res bool :=
  _ ← cassert (is_line address);
  l ← locate c address;
  Ok (negb (l.2 =? -1)).

(** The loop of [cacheAvail] over the ways of the set. *)
Definition cacheAvail (c : CacheMemory P) (address : Z) : res bool :=
  _ ← cassert (is_line address);
  cacheSet ← addressToCacheSet c address;
  r ← foldM_brk (fun _ i =>
    p ← slot c cacheSet i;
    match p with
    | Some _ =>
        entry ← deref_entry (entries c) p;
        Ok ((m_Address entry =? address) ||
            bool_decide (m_Permission entry = AccessPermission_NotPresent), tt)
    | None => Ok (true, tt)
    end) (upto (m_cache_assoc c)) tt;
  Ok r.1.

(** [set[i] = entry; ... set[i]->setPosition(cacheSet, i)] of [allocate]. *)
Definition place_entry (c : CacheMemory P) (cacheSet i address entry : Z) : res (CacheMemory P) :=
  row ← vget (m_cache c) cacheSet;
  row ← vset row i (Some entry);
  cache ← vset (m_cache c) cacheSet row;
  en ← deref_entry (entries c) (Some entry);
  let en := en ⟨ m_Address := address ⟩ ⟨ m_Permission := AccessPermission_Invalid ⟩
               ⟨ m_locked := -1 ⟩ in
  let c := c ⟨ m_cache := cache ⟩ ⟨ m_tag_index := <[address := i]> (m_tag_index c) ⟩ in
  let en := en ⟨ base := setPosition (base en) (u32 cacheSet) (u32 i) ⟩ in
  Ok (c ⟨ entries := <[entry := en]> (entries c) ⟩).

(** The body of the loop of [allocate] for a free way [i]. *)
Definition fill_slot (e : Env) (c : CacheMemory P) (cacheSet i address entry : Z)
    : res (CacheMemory P) :=
  c ← place_entry c cacheSet i address entry;
  c ← policy_op reset e c cacheSet i;
  upd_entry c cacheSet i (fun en => setLastAccess en (curTick e)).

Definition allocate (e : Env) (c : CacheMemory P) (address entry : Z) : res (CacheMemory P * Z) :=
  _ ← cassert (is_line address);
  present ← isTagPresent c address;
  _ ← cassert (negb present);
  avail ← cacheAvail c address;
  _ ← cassert avail;
  cacheSet ← addressToCacheSet c address;
  r ← foldM_brk (fun c i =>
    p ← slot c cacheSet i;
    free ← match p with
           | None => Ok true
           | Some _ =>
               en ← deref_entry (entries c) p;
               Ok (bool_decide (m_Permission en = AccessPermission_NotPresent))
           end;
    if free : bool then c ← fill_slot e c cacheSet i address entry; Ok (true, c)
    else Ok (false, c)) (upto (m_cache_assoc c)) c;
  if r.1 : bool then Ok (r.2, entry) else Err EPanic.

Definition deallocate (e : Env) (c : CacheMemory P) (address : Z) : res (CacheMemory P) :=
  _ ← cassert (is_line address);
  present ← isTagPresent c address;
  _ ← cassert present;
  l ← locate c address;
  if l.2 =? -1 then Ok c
  else
    c ← policy_op invalidate e c l.1 l.2;
    p ← slot c l.1 l.2;
    row ← vget (m_cache c) l.1;
    row ← vset row l.2 None;
    cache ← vset (m_cache c) l.1 row;
    Ok (c ⟨ entries := match p with Some a => delete a (entries c) | None => entries c end ⟩
          ⟨ m_cache := cache ⟩
          ⟨ m_tag_index := delete address (m_tag_index c) ⟩).

(** The candidates loop of [cacheProbe]: the replacement data is stored into
    each entry of the set. *)
Definition gather (c : CacheMemory P) (cacheSet : Z) : res (CacheMemory P * list ReplaceableEntry) :=
  foldM (fun (acc : CacheMemory P * list ReplaceableEntry) i =>
    row ← vget (replacement_data c) cacheSet;
    d ← vget row i;
    c ← upd_entry acc.1 cacheSet i (fun en => en ⟨ base := base en ⟨ replacementData := d ⟩ ⟩);
    en ← entry_at c cacheSet i;
    Ok (c, acc.2 ++ [base en])) (upto (m_cache_assoc c)) (c, []).

Definition cacheProbe (e : Env) (c : CacheMemory P) (address : Z) : res (CacheMemory P * Z) :=
  _ ← cassert (is_line address);
  avail ← cacheAvail c address;
  _ ← cassert (negb avail);
  cacheSet ← addressToCacheSet c address;
  g ← gather c cacheSet;
  v ← getVictim e (m_replacementPolicy g.1) g.2;
  let c := g.1 ⟨ m_replacementPolicy := v.1 ⟩ in
  en ← entry_at c cacheSet (_way v.2);
  Ok (c, m_Address en).

Definition lookup_line (c : CacheMemory P) (address : Z) : res (option Z) :=
  _ ← cassert (is_line address);
  l ← locate c address;
  if l.2 =? -1 then Ok None else slot c l.1 l.2.

Definition setMRU (e : Env) (c : CacheMemory P) (address : Z) : res (CacheMemory P) :=
  l ← locate c address;
  if l.2 =? -1 then Ok c else use_line e c l.1 l.2.

Definition setMRU_entry (e : Env) (c : CacheMemory P) (entry : Z) : res (CacheMemory P) :=
  en ← deref_entry (entries c) (Some entry);
  use_line e c (_set (base en)) (_way (base en)).

Definition setMRU_occupancy (e : Env) (c : CacheMemory P) (address occupancy : Z)
    : res (CacheMemory P) :=
  l ← locate c address;
  if l.2 =? -1 then Ok c
  else
    c ← match (if m_use_occupancy c then touch_occupancy else None) with
        | Some f => policy_op (fun e s p => f e s p occupancy) e c l.1 l.2
        | None => policy_op touch e c l.1 l.2
        end;
    upd_entry c l.1 l.2 (fun en => setLastAccess en (curTick e)).

Definition getReplacementWeight (c : CacheMemory P) (set loc : Z) : res Z :=
  _ ← cassert (set <? m_cache_num_sets c);
  _ ← cassert (loc <? m_cache_assoc c);
  p ← slot c set loc;
  match p with
  | None => Ok 0
  | Some _ =>
      en ← deref_entry (entries c) p;
      let ret := validBlocks en in
      _ ← cassert (0 <=? ret); Ok ret
  end.

(** [tr->addRecord]: address, request type and last access of a block. *)
Definition record_of (c : CacheMemory P) (en : AbstractCacheEntry)
    : option (Z * RubyRequestType * Z) :=
  let request_type :=
    if bool_decide (m_Permission en = AccessPermission_Read_Only) then
      if m_is_instruction_only_cache c then RubyRequestType_IFETCH else RubyRequestType_LD
    else if bool_decide (m_Permission en = AccessPermission_Read_Write) then RubyRequestType_ST
    else RubyRequestType_NULL in
  if bool_decide (request_type = RubyRequestType_NULL) then None
  else Some (m_Address en, request_type, getLastAccess en).

Definition recordCacheContents (c : CacheMemory P) : res (list (Z * RubyRequestType * Z)) :=
  foldM (fun tr i =>
    foldM (fun tr j =>
      p ← slot c i j;
      match p with
      | None => Ok tr
      | Some _ =>
          en ← deref_entry (entries c) p;
          Ok (match record_of c en with Some r => tr ++ [r] | None => tr end)
      end) (upto (m_cache_assoc c)) tr) (upto (m_cache_num_sets c)) [].

Definition setLocked (c : CacheMemory P) (address context : Z) : res (CacheMemory P) :=
  _ ← cassert (is_line address);
  l ← locate c address;
  _ ← cassert (negb (l.2 =? -1));
  upd_entry c l.1 l.2 (fun en => entry_setLocked en context).

Definition clearLocked (c : CacheMemory P) (address : Z) : res (CacheMemory P) :=
  _ ← cassert (is_line address);
  l ← locate c address;
  _ ← cassert (negb (l.2 =? -1));
  upd_entry c l.1 l.2 entry_clearLocked.

Definition isLocked (c : CacheMemory P) (address context : Z) : res bool :=
  _ ← cassert (is_line address);
  l ← locate c address;
  _ ← cassert (negb (l.2 =? -1));
  en ← entry_at c l.1 l.2;
  Ok (entry_isLocked en context).

Inductive CacheRequestType :=
  | CacheRequestType_DataArrayRead | CacheRequestType_DataArrayWrite
  | CacheRequestType_TagArrayRead | CacheRequestType_TagArrayWrite | CacheRequestType_NULL.

Inductive CacheResourceType :=
  | CacheResourceType_DataArray | CacheResourceType_TagArray | CacheResourceType_NULL.

Definition reserve_data (e : Env) (c : CacheMemory P) (addr : Z) : res (CacheMemory P) :=
  if m_resource_stalls c then
    set ← addressToCacheSet c addr;
    a ← reserve (curTick e) (dataArray c) set; Ok (c ⟨ dataArray := a ⟩)
  else Ok c.

Definition reserve_tag (e : Env) (c : CacheMemory P) (addr : Z) : res (CacheMemory P) :=
  if m_resource_stalls c then
    set ← addressToCacheSet c addr;
    a ← reserve (curTick e) (tagArray c) set; Ok (c ⟨ tagArray := a ⟩)
  else Ok c.

Definition recordRequestType (e : Env) (c : CacheMemory P) (requestType : CacheRequestType)
    (addr : Z) : res (CacheMemory P) :=
  match requestType with
  | CacheRequestType_DataArrayRead =>
      c ← reserve_data e c addr; Ok (c ⟨ numDataArrayReads := numDataArrayReads c + 1 ⟩)
  | CacheRequestType_DataArrayWrite =>
      c ← reserve_data e c addr; Ok (c ⟨ numDataArrayWrites := numDataArrayWrites c + 1 ⟩)
  | CacheRequestType_TagArrayRead =>
      c ← reserve_tag e c addr; Ok (c ⟨ numTagArrayReads := numTagArrayReads c + 1 ⟩)
  | CacheRequestType_TagArrayWrite =>
      c ← reserve_tag e c addr; Ok (c ⟨ numTagArrayWrites := numTagArrayWrites c + 1 ⟩)
  | CacheRequestType_NULL => Ok c
  end.

Definition checkResourceAvailable (e : Env) (c : CacheMemory P) (res : CacheResourceType)
    (addr : Z) : Prelude.res (CacheMemory P * bool) :=
  if negb (m_resource_stalls c) then Ok (c, true)
  else match res with
  | CacheResourceType_TagArray =>
      set ← addressToCacheSet c addr;
      ok ← tryAccess (curTick e) (tagArray c) set;
      if ok : bool then Ok (c, true)
      else Ok (c ⟨ numTagArrayStalls := numTagArrayStalls c + 1 ⟩, false)
  | CacheResourceType_DataArray =>
      set ← addressToCacheSet c addr;
      ok ← tryAccess (curTick e) (dataArray c) set;
      if ok : bool then Ok (c, true)
      else Ok (c ⟨ numDataArrayStalls := numDataArrayStalls c + 1 ⟩, false)
  | CacheResourceType_NULL => Err EPanic
  end.

Definition isBlockInvalid (c : CacheMemory P) (cache_set loc : Z) : res bool :=
  en ← entry_at c cache_set loc;
  Ok (bool_decide (m_Permission en = AccessPermission_Invalid)).

Definition isBlockNotBusy (c : CacheMemory P) (cache_set loc : Z) : res bool :=
  en ← entry_at c cache_set loc;
  Ok (negb (bool_decide (m_Permission en = AccessPermission_Busy))).

(** The protocol changes the permission of an entry it holds a pointer to. *)
Definition change_permission (c : CacheMemory P) (entry : Z) (new_perm : AccessPermission)
    : res (CacheMemory P) :=
  en ← deref_entry (entries c) (Some entry);
  Ok (c ⟨ entries := <[entry := changePermission en new_perm]> (entries c) ⟩).
End Cache.
