(* ===== verification/CacheProofs.v ===== *)
(** * Correctness of the cache memory

    The proofs are against the interface of the replacement policy
    ([ReplacementLaws]), so they hold for every policy of Victims.v and for
    Tree-PLRU.

    - [cache_wf]: tags, ways, positions and replacement data agree;
    - [view]: the finite map from addresses to entries the cache stands for;
    - every operation keeps [cache_wf] and acts on [view] as its contract says. *)
From S2P Require Import Prelude Common IntMath Replacement BankedArray CacheMemory.

Section CacheProofs.
Context {P : Type} `{ReplacementLaws P} (block_size_bits : Z).
Implicit Types (c : CacheMemory P) (e : Env).

Notation is_line := (is_line block_size_bits).
Notation locate := (locate block_size_bits).

(** The set of an address. *)
Definition set_of c (address : Z) : Z :=
  bits address (m_start_index_bit c + m_cache_num_set_bits c - 1) (m_start_index_bit c).

(** The line at [set], [way]: its entry knows where it is, its address is
    indexed, and the protocol has not marked it [NotPresent]. *)
Definition resident c (set way : Z) (en : AbstractCacheEntry) : Prop :=
  _set (base en) = set /\ _way (base en) = way /\
  m_Permission en <> AccessPermission_NotPresent /\
  is_line (m_Address en) = true /\ set_of c (m_Address en) = set /\
  m_tag_index c !! m_Address en = Some way.

Record geometry_ok c : Prop := {
  geo_assoc : 0 < m_cache_assoc c < 2 ^ 31;
  geo_bits : 0 < m_cache_num_set_bits c /\ 0 <= m_start_index_bit c /\
    m_start_index_bit c + m_cache_num_set_bits c <= 64;
  geo_sets : 2 ^ m_cache_num_set_bits c <= m_cache_num_sets c < 2 ^ 31
}.

Record cache_wf c : Prop := {
  wf_geometry : geometry_ok c;
  wf_size : Z.of_nat (length (m_cache c)) = m_cache_num_sets c;
  wf_row s row : vget (m_cache c) s = Ok row -> Z.of_nat (length row) = m_cache_assoc c;
  wf_repl_size : Z.of_nat (length (replacement_data c)) = m_cache_num_sets c;
  wf_repl s row : vget (replacement_data c) s = Ok row ->
    Z.of_nat (length row) = m_cache_assoc c /\ rp_set (m_replacementPolicy c) row;
  wf_slot s w a : slot c s w = Ok (Some a) ->
    exists en, entries c !! a = Some en /\ resident c s w en;
  wf_tag address w : m_tag_index c !! address = Some w ->
    exists a en, slot c (set_of c address) w = Ok (Some a) /\ entries c !! a = Some en /\
      m_Address en = address
}.

(** The map the cache stands for. *)
Definition view c (address : Z) : option Z :=
  match m_tag_index c !! address with
  | Some w => match slot c (set_of c address) w with Ok p => p | Err _ => None end
  | None => None
  end.

(** ** Geometry *)

Lemma set_of_range c address : geometry_ok c -> 0 <= set_of c address < m_cache_num_sets c.
Proof.
  intros [_ (Hb & Hs & Hsum) [Hn _]]. unfold set_of, bits.
  replace (_ - _ + 1) with (m_cache_num_set_bits c) by lia. rewrite mask_ones, Z.land_ones by lia.
  pose proof (Z.mod_pos_bound (Z.shiftr address (m_start_index_bit c)) (2 ^ m_cache_num_set_bits c)).
  pose proof (Z.pow_pos_nonneg 2 (m_cache_num_set_bits c)). lia.
Qed.

Lemma addressToCacheSet_ok c address :
  geometry_ok c -> is_line address = true ->
  addressToCacheSet block_size_bits c address = Ok (set_of c address).
Proof.
  intros [_ (Hb & Hs & Hsum) _] Hl. unfold addressToCacheSet, bitSelect. rewrite Hl. rsimpl.
  by rewrite (proj2 (Z.leb_le _ _)) by lia.
Qed.

Lemma slot_ok c s w :
  cache_wf c -> 0 <= s < m_cache_num_sets c -> 0 <= w < m_cache_assoc c -> exists p, slot c s w = Ok p.
Proof.
  intros Hwf Hs Hw. unfold slot. destruct (vget_is_ok (m_cache c) s) as [row Hr];
    [rewrite (wf_size c Hwf); lia |].
  rewrite Hr. rsimpl. apply vget_is_ok. rewrite (wf_row c Hwf s row Hr). lia.
Qed.

Lemma slot_range c s w p :
  cache_wf c -> slot c s w = Ok p -> 0 <= s < m_cache_num_sets c /\ 0 <= w < m_cache_assoc c.
Proof.
  intros Hwf Hs. unfold slot in Hs. inv_res. pose proof (vget_range _ _ _ E). pose proof (vget_range _ _ _ Hs).
  rewrite (wf_size c Hwf), (wf_row c Hwf _ _ E) in *. done.
Qed.

(** Two ways never hold the same entry. *)
Lemma slot_inj c s w s' w' a :
  cache_wf c -> slot c s w = Ok (Some a) -> slot c s' w' = Ok (Some a) -> s = s' /\ w = w'.
Proof.
  intros Hwf H1 H2. destruct (wf_slot c Hwf _ _ _ H1) as (en & He & <- & <- & _).
  destruct (wf_slot c Hwf _ _ _ H2) as (en' & He' & <- & <- & _). by simplify_eq.
Qed.

(** ** Lookup *)

Lemma view_Some c address a :
  cache_wf c -> view c address = Some a ->
  exists w en, m_tag_index c !! address = Some w /\ slot c (set_of c address) w = Ok (Some a) /\
    entries c !! a = Some en /\ m_Address en = address /\ resident c (set_of c address) w en.
Proof.
  unfold view. intros Hwf Hv. destruct (m_tag_index c !! address) as [w|] eqn:Ht; [| done].
  destruct (wf_tag c Hwf _ _ Ht) as (a' & en & Hs & He & Ha). rewrite Hs in Hv. simplify_eq.
  destruct (wf_slot c Hwf _ _ _ Hs) as (en' & He' & Hr). simplify_eq. by exists w, en.
Qed.

Lemma view_None c address :
  cache_wf c -> view c address = None -> m_tag_index c !! address = None.
Proof.
  unfold view. intros Hwf Hv. destruct (m_tag_index c !! address) as [w|] eqn:Ht; [| done].
  destruct (wf_tag c Hwf _ _ Ht) as (a' & en & Hs & _). by rewrite Hs in Hv.
Qed.

Lemma view_line c address a : cache_wf c -> view c address = Some a -> is_line address = true.
Proof. intros Hwf Hv. destruct (view_Some c _ _ Hwf Hv) as (w & en & _ & _ & _ & <- & Hr). apply Hr. Qed.

(** [locate] finds the way of a line, or -1. *)
Lemma locate_spec c address :
  cache_wf c -> is_line address = true ->
  exists w, locate c address = Ok (set_of c address, w) /\
    match view c address with
    | Some a => w <> -1 /\ 0 <= w < m_cache_assoc c /\ slot c (set_of c address) w = Ok (Some a)
    | None => w = -1
    end.
Proof.
  intros Hwf Hl. pose proof (wf_geometry c Hwf) as Hg. unfold locate.
  rewrite addressToCacheSet_ok by done. rsimpl. unfold findTagInSet. rewrite Hl. rsimpl.
  destruct (view c address) as [a|] eqn:Hv.
  - destruct (view_Some c _ _ Hwf Hv) as (w & en & -> & Hs & He & Ha & Hr).
    unfold entry_at. rewrite Hs. rsimpl. cbn [deref_entry]. rewrite He. rsimpl.
    destruct Hr as (_ & _ & Hp & _). rewrite bool_decide_eq_false_2 by done. rsimpl.
    pose proof (slot_range c _ _ _ Hwf Hs). exists w. split; [done |]. split_and!; [lia | lia | lia | done].
  - rewrite (view_None c _ Hwf Hv). rsimpl. by exists (-1).
Qed.

Lemma lookup_line_view c address :
  cache_wf c -> is_line address = true -> lookup_line block_size_bits c address = Ok (view c address).
Proof.
  intros Hwf Hl. unfold lookup_line. rewrite Hl. rsimpl.
  destruct (locate_spec c address Hwf Hl) as (w & -> & Hw). rsimpl.
  destruct (view c address) as [a|]; [destruct Hw as (Hne & _ & Hs) | by subst w].
  by rewrite (proj2 (Z.eqb_neq w (-1))), Hs by done.
Qed.

Lemma isTagPresent_view c address :
  cache_wf c -> is_line address = true ->
  isTagPresent block_size_bits c address = Ok (bool_decide (is_Some (view c address))).
Proof.
  intros Hwf Hl. unfold isTagPresent. rewrite Hl. rsimpl.
  destruct (locate_spec c address Hwf Hl) as (w & -> & Hw). rsimpl. f_equal.
  destruct (view c address) as [a|].
  - rewrite (proj2 (Z.eqb_neq w (-1))) by apply Hw. by rewrite bool_decide_eq_true_2 by eauto.
  - subst w. by rewrite bool_decide_eq_false_2 by (by intros [? ?]).
Qed.

(** ** Room in a set *)

Definition has_free_way c (set : Z) : Prop := exists w, slot c set w = Ok None.

Lemma resident_view c s w a en :
  cache_wf c -> slot c s w = Ok (Some a) -> entries c !! a = Some en -> view c (m_Address en) = Some a.
Proof.
  intros Hwf Hs He. destruct (wf_slot c Hwf _ _ _ Hs) as (en' & He' & _ & _ & _ & _ & Hset & Ht).
  simplify_eq. unfold view. by rewrite Ht, Hs.
Qed.

Lemma cacheAvail_spec c address :
  cache_wf c -> is_line address = true ->
  exists b, cacheAvail block_size_bits c address = Ok b /\
    (b = true <-> is_Some (view c address) \/ has_free_way c (set_of c address)).
Proof.
  intros Hwf Hl. pose proof (wf_geometry c Hwf) as Hg. unfold cacheAvail. rewrite Hl. rsimpl.
  rewrite addressToCacheSet_ok by done. rsimpl. set (s := set_of c address).
  edestruct (foldM_brk_upto (S := unit)) with (n := m_cache_assoc c) (s := tt)
    (P := fun i (_ : unit) => forall w, 0 <= w < i -> exists a en, slot c s w = Ok (Some a) /\
       entries c !! a = Some en /\ m_Address en <> address)
    (Q := fun (i : Z) (_ : unit) => is_Some (view c address) \/ has_free_way c s)
    as (b & [] & Hf & Hpost); [pose proof (geo_assoc c Hg); lia | intros; lia | |].
  2: { rewrite Hf. rsimpl. exists b. split; [done |]. destruct b; [naive_solver |].
    split; [done |]. intros [[a Hv]|[w Hw]].
    - destruct (view_Some c _ _ Hwf Hv) as (w & en & _ & Hs & He & Ha & _).
      destruct (Hpost w) as (a' & en' & Hs' & He' & Hne); [by eapply slot_range |]. fold s in Hs. congruence.
    - destruct (Hpost w) as (a' & en' & Hs' & _); [by eapply slot_range |]. congruence. }
  intros i [] Hi HP. cbv beta. destruct (slot_ok c s i Hwf) as [p Hp]; [by apply set_of_range | done |].
  rewrite Hp. rsimpl. destruct p as [a|]; [| exists true, tt; split; [done |]; right; by exists i].
  destruct (wf_slot c Hwf _ _ _ Hp) as (en & He & _ & _ & Hperm & _). cbn [deref_entry]. rewrite He. rsimpl.
  rewrite (bool_decide_eq_false_2 _ Hperm), orb_false_r.
  destruct (m_Address en =? address) eqn:E; b2p.
  - exists true, tt. split; [done |]. left. exists a. rewrite <- E. by eapply resident_view.
  - exists false, tt. split; [done |]. intros w Hw. destruct (decide (w = i)) as [->|]; [by exists a, en |].
    apply HP. lia.
Qed.

(** ** Changes that keep the lines in place *)

(** The entry still stands for the same line. *)
Definition same_line (en en' : AbstractCacheEntry) : Prop :=
  m_Address en' = m_Address en /\ _set (base en') = _set (base en) /\
  _way (base en') = _way (base en) /\
  (m_Permission en <> AccessPermission_NotPresent -> m_Permission en' <> AccessPermission_NotPresent).

(** What [cache_wf] and [view] say of a cache after a change of its entries
    and policy only. *)
Definition same_lines c c' : Prop :=
  m_tag_index c' = m_tag_index c /\ m_cache c' = m_cache c /\
  replacement_data c' = replacement_data c /\
  m_cache_assoc c' = m_cache_assoc c /\ m_cache_num_sets c' = m_cache_num_sets c /\
  m_cache_num_set_bits c' = m_cache_num_set_bits c /\ m_start_index_bit c' = m_start_index_bit c /\
  (forall a en, entries c !! a = Some en -> exists en', entries c' !! a = Some en' /\ same_line en en') /\
  (forall l, rp_set (m_replacementPolicy c) l -> rp_set (m_replacementPolicy c') l).

Lemma same_line_refl en : same_line en en.
Proof. by split_and!. Qed.

Lemma same_lines_refl c : same_lines c c.
Proof. split_and!; eauto using same_line_refl. Qed.

Lemma same_lines_trans c1 c2 c3 : same_lines c1 c2 -> same_lines c2 c3 -> same_lines c1 c3.
Proof.
  intros (? & ? & ? & ? & ? & ? & ? & He1 & Hp1) (? & ? & ? & ? & ? & ? & ? & He2 & Hp2).
  split_and!; [congruence.. | | by auto].
  intros a en Ha. destruct (He1 a en Ha) as (en1 & Hn1 & ? & ? & ? & ?).
  destruct (He2 a en1 Hn1) as (en2 & Hn2 & ? & ? & ? & ?). exists en2. split; [done |].
  split_and!; [congruence.. | by auto].
Qed.

Lemma same_lines_slot c c' s w : same_lines c c' -> slot c' s w = slot c s w.
Proof. intros (_ & Hc & _). unfold slot. by rewrite Hc. Qed.

Lemma same_lines_set_of c c' address : same_lines c c' -> set_of c' address = set_of c address.
Proof. intros (_ & _ & _ & _ & _ & Hb & Hs & _). unfold set_of. by rewrite Hb, Hs. Qed.

Lemma same_lines_view c c' address : same_lines c c' -> view c' address = view c address.
Proof.
  intros Hc. unfold view. rewrite (same_lines_set_of c c'), (proj1 Hc) by done.
  destruct (m_tag_index c !! address); [| done]. by rewrite (same_lines_slot c c').
Qed.

Lemma same_lines_wf c c' : same_lines c c' -> cache_wf c -> cache_wf c'.
Proof.
  intros Hc Hwf. pose proof Hc as (Ht & Hm & Hr & Has & Hns & Hnb & Hsi & He & Hp). constructor.
  - destruct (wf_geometry c Hwf). constructor; congruence.
  - rewrite Hm, Hns. apply Hwf.
  - intros s row. rewrite Hm, Has. apply Hwf.
  - rewrite Hr, Hns. apply Hwf.
  - intros s row. rewrite Hr, Has. intros Hg. destruct (wf_repl c Hwf s row Hg). auto.
  - intros s w a. rewrite (same_lines_slot c c') by done. intros Hs.
    destruct (wf_slot c Hwf _ _ _ Hs) as (en & Hen & Hres). destruct (He a en Hen) as (en' & Hen' & Hl).
    exists en'. split; [done |]. destruct Hl as (Ha & Hst & Hwy & Hpm), Hres as (? & ? & ? & ? & ? & ?).
    split_and!; rewrite ?Ha, ?(same_lines_set_of c c'), ?Ht by done; first [done | congruence | by auto].
  - intros address w. rewrite Ht, (same_lines_set_of c c'), (same_lines_slot c c') by done. intros Hw.
    destruct (wf_tag c Hwf _ _ Hw) as (a & en & Hs & Hen & Ha). destruct (He a en Hen) as (en' & Hen' & Hl).
    exists a, en'. split_and!; [done | done |]. rewrite <- Ha. apply Hl.
Qed.

Lemma insert_same_lines c a en en' :
  entries c !! a = Some en -> same_line en en' ->
  same_lines c (c ⟨ entries := <[a := en']> (entries c) ⟩).
Proof.
  intros Ha Hl. split_and!; try done. intros b enb Hb. cbn [entries setf].
  destruct (decide (b = a)) as [->|].
  - exists en'. simplify_eq. by rewrite lookup_insert_eq.
  - exists enb. rewrite lookup_insert_ne by done. split; [done | apply same_line_refl].
Qed.

Lemma upd_entry_spec c s w a f :
  cache_wf c -> slot c s w = Ok (Some a) -> (forall en, same_line en (f en)) ->
  exists en, entries c !! a = Some en /\
    upd_entry c s w f = Ok (c ⟨ entries := <[a := f en]> (entries c) ⟩) /\
    same_lines c (c ⟨ entries := <[a := f en]> (entries c) ⟩).
Proof.
  intros Hwf Hs Hf. destruct (wf_slot c Hwf _ _ _ Hs) as (en & He & _). exists en.
  split; [done |]. split; [| by eapply insert_same_lines].
  unfold upd_entry. rewrite Hs. rsimpl. cbn [deref_entry]. by rewrite He.
Qed.

(** The replacement data of a way. *)
Lemma policy_op_spec f e c s w :
  rp_update f -> env_ok e -> cache_wf c -> 0 <= s < m_cache_num_sets c -> 0 <= w < m_cache_assoc c ->
  exists st, policy_op f e c s w = Ok (c ⟨ m_replacementPolicy := st ⟩) /\
    (forall l, rp_set (m_replacementPolicy c) l -> rp_set st l).
Proof.
  intros Hf He Hwf Hs Hw. unfold policy_op.
  destruct (vget_is_ok (replacement_data c) s) as [row Hr]; [rewrite (wf_repl_size c Hwf); lia |].
  destruct (wf_repl c Hwf s row Hr) as [Hlen Hset]. rewrite Hr. rsimpl.
  destruct (vget_is_ok row w) as [d Hd]; [lia |]. rewrite Hd. rsimpl.
  apply vget_Ok in Hd as [_ Hd%list_elem_of_lookup_2].
  destruct (Hf e (m_replacementPolicy c) row d He Hset Hd) as (st & -> & Hk & _). rsimpl. eauto.
Qed.

Lemma set_policy_same_lines c st :
  (forall l, rp_set (m_replacementPolicy c) l -> rp_set st l) ->
  same_lines c (c ⟨ m_replacementPolicy := st ⟩).
Proof. intros Hk. split_and!; try done. intros a en Ha. eauto using same_line_refl. Qed.

(** ** Accesses *)

Lemma last_access_same_line t en : same_line en (setLastAccess en t).
Proof. by split_and!. Qed.

(** Any policy update followed by the time stamp of the access. *)
Lemma stamp_spec f e c s w a :
  rp_update f -> env_ok e -> cache_wf c -> slot c s w = Ok (Some a) ->
  exists c', (c ← policy_op f e c s w; upd_entry c s w (fun en => setLastAccess en (curTick e))) = Ok c' /\
    same_lines c c' /\
    exists en, entries c !! a = Some en /\
      entries c' = <[a := setLastAccess en (curTick e)]> (entries c).
Proof.
  intros Hf He Hwf Hs. pose proof (slot_range c s w _ Hwf Hs) as [Hsr Hwr].
  destruct (policy_op_spec f e c s w Hf He Hwf Hsr Hwr) as (st & -> & Hk). rsimpl.
  set (c1 := c ⟨ m_replacementPolicy := st ⟩).
  pose proof (set_policy_same_lines c st Hk) as H1. fold c1 in H1.
  destruct (upd_entry_spec c1 s w a (fun en => setLastAccess en (curTick e))) as (en & Hen & -> & H2);
    [by eapply same_lines_wf | by rewrite (same_lines_slot c c1) | apply last_access_same_line |].
  eexists. split; [done |]. split; [by eapply same_lines_trans | by exists en].
Qed.

Lemma use_line_spec e c s w a :
  env_ok e -> cache_wf c -> slot c s w = Ok (Some a) ->
  exists c', use_line e c s w = Ok c' /\ same_lines c c' /\
    exists en, entries c !! a = Some en /\
      entries c' = <[a := setLastAccess en (curTick e)]> (entries c).
Proof. intros. by apply stamp_spec; [apply touch_law | ..]. Qed.

(** The permission check of [tryCacheAccess]. *)
Definition permits (perm : AccessPermission) (type : RubyRequestType) : Prop :=
  perm = AccessPermission_Read_Write \/
  perm = AccessPermission_Read_Only /\ (type = RubyRequestType_LD \/ type = RubyRequestType_IFETCH).

Lemma tryCacheAccess_spec e c address type :
  env_ok e -> cache_wf c -> is_line address = true ->
  exists c' hit p, tryCacheAccess block_size_bits e c address type = Ok (c', hit, p) /\
    same_lines c c' /\ p = (if hit : bool then view c address else None) /\
    (hit = true <-> exists a en, view c address = Some a /\ entries c !! a = Some en /\
       permits (m_Permission en) type) /\
    (forall a, view c address = Some a -> exists en, entries c' !! a = Some en /\
       getLastAccess en = curTick e).
Proof.
  intros He Hwf Hl. unfold tryCacheAccess. rewrite Hl. rsimpl.
  destruct (locate_spec c address Hwf Hl) as (w & -> & Hw). rsimpl.
  destruct (view c address) as [a|] eqn:Hv.
  2: { subst w. exists c, false, None. split_and!; try done; [apply same_lines_refl | naive_solver]. }
  destruct Hw as (Hne & _ & Hs). rewrite (proj2 (Z.eqb_neq w (-1))), Hs by done. rsimpl.
  destruct (use_line_spec e c _ _ _ He Hwf Hs) as (c' & -> & Hsame & en & Hen & Hents). rsimpl.
  cbn [deref_entry]. rewrite Hents, lookup_insert_eq. rsimpl.
  change (m_Permission (setLastAccess en (curTick e))) with (m_Permission en).
  assert (Hlast : forall a0, Some a = Some a0 -> exists en0, entries c' !! a0 = Some en0 /\
    getLastAccess en0 = curTick e).
  { intros a0 [= <-]. eexists. by rewrite Hents, lookup_insert_eq. }
  repeat case_bool_decide; cbn [andb orb];
    (do 3 eexists; split; [done |]; split_and!; [done | done | | done]);
    unfold permits; split; try done; intros; try (by exists a, en; auto);
    destruct_and?; naive_solver.
Qed.

Lemma testCacheAccess_spec e c address type :
  env_ok e -> cache_wf c -> is_line address = true ->
  exists c', testCacheAccess block_size_bits e c address type
      = Ok (c', bool_decide (is_Some (view c address)), view c address) /\ same_lines c c'.
Proof.
  intros He Hwf Hl. unfold testCacheAccess. rewrite Hl. rsimpl.
  destruct (locate_spec c address Hwf Hl) as (w & -> & Hw). rsimpl.
  destruct (view c address) as [a|] eqn:Hv.
  2: { subst w. exists c. rewrite bool_decide_eq_false_2 by (by intros [? ?]).
       split; [done | apply same_lines_refl]. }
  destruct Hw as (Hne & _ & Hs). rewrite (proj2 (Z.eqb_neq w (-1))), Hs by done. rsimpl.
  destruct (use_line_spec e c _ _ _ He Hwf Hs) as (c' & -> & Hsame & en & Hen & Hents). rsimpl.
  cbn [deref_entry]. rewrite Hents, lookup_insert_eq. rsimpl.
  change (m_Permission (setLastAccess en (curTick e))) with (m_Permission en).
  destruct (wf_slot c Hwf _ _ _ Hs) as (en' & Hen' & _ & _ & Hp & _). simplify_eq.
  exists c'. rewrite bool_decide_eq_false_2, bool_decide_eq_true_2 by eauto. done.
Qed.

Lemma setMRU_spec e c address :
  env_ok e -> cache_wf c -> is_line address = true ->
  exists c', setMRU block_size_bits e c address = Ok c' /\ same_lines c c'.
Proof.
  intros He Hwf Hl. unfold setMRU. destruct (locate_spec c address Hwf Hl) as (w & -> & Hw). rsimpl.
  destruct (view c address) as [a|]; [| subst w; eauto using same_lines_refl].
  destruct Hw as (Hne & _ & Hs). rewrite (proj2 (Z.eqb_neq w (-1))) by done.
  destruct (use_line_spec e c _ _ _ He Hwf Hs) as (c' & -> & Hsame & _). eauto.
Qed.

Lemma setMRU_entry_spec e c address a :
  env_ok e -> cache_wf c -> view c address = Some a ->
  exists c', setMRU_entry e c a = Ok c' /\ same_lines c c'.
Proof.
  intros He Hwf Hv. destruct (view_Some c _ _ Hwf Hv) as (w & en & _ & Hs & Hen & _ & Hr).
  unfold setMRU_entry. cbn [deref_entry]. rewrite Hen. rsimpl. destruct Hr as (-> & -> & _).
  destruct (use_line_spec e c _ _ _ He Hwf Hs) as (c' & -> & Hsame & _). eauto.
Qed.

Lemma setMRU_occupancy_spec e c address occupancy :
  env_ok e -> cache_wf c -> is_line address = true ->
  exists c', setMRU_occupancy block_size_bits e c address occupancy = Ok c' /\ same_lines c c'.
Proof.
  intros He Hwf Hl. unfold setMRU_occupancy.
  destruct (locate_spec c address Hwf Hl) as (w & -> & Hw). rsimpl.
  destruct (view c address) as [a|]; [| subst w; eauto using same_lines_refl].
  destruct Hw as (Hne & _ & Hs). rewrite (proj2 (Z.eqb_neq w (-1))) by done.
  destruct (if m_use_occupancy c then touch_occupancy else None) as [f|] eqn:Hf.
  - destruct (stamp_spec (fun e s p => f e s p occupancy) e c _ _ _
      (touch_occupancy_law f occupancy ltac:(by destruct (m_use_occupancy c))) He Hwf Hs) as (c' & Hc & ? & _).
    rewrite Hc. eauto.
  - destruct (stamp_spec touch e c _ _ _ touch_law He Hwf Hs) as (c' & Hc & ? & _). rewrite Hc. eauto.
Qed.

(** ** Locks *)

Lemma locked_same_line n en : same_line en (entry_setLocked en n).
Proof. by split_and!. Qed.

Lemma setLocked_spec c address a context :
  cache_wf c -> view c address = Some a ->
  exists c', setLocked block_size_bits c address context = Ok c' /\ same_lines c c' /\
    forall ctx, isLocked block_size_bits c' address ctx = Ok (context =? ctx).
Proof.
  intros Hwf Hv. pose proof (view_line c _ _ Hwf Hv) as Hl. unfold setLocked. rewrite Hl. rsimpl.
  destruct (locate_spec c address Hwf Hl) as (w & -> & Hw). rsimpl. rewrite Hv in Hw.
  destruct Hw as (Hne & _ & Hs). rewrite (proj2 (Z.eqb_neq w (-1))) by done. rsimpl.
  destruct (upd_entry_spec c _ w a (fun en => entry_setLocked en context) Hwf Hs
    (locked_same_line context)) as (en & Hen & -> & Hsame).
  eexists. split; [done |]. split; [done |]. intros ctx. set (c' := c ⟨ entries := _ ⟩) in *.
  pose proof (same_lines_wf c c' Hsame Hwf) as Hwf'. unfold isLocked. rewrite Hl. rsimpl.
  destruct (locate_spec c' address Hwf' Hl) as (w' & -> & Hw'). rsimpl.
  rewrite (same_lines_view c c'), Hv in Hw' by done. destruct Hw' as (Hne' & _ & Hs').
  rewrite (proj2 (Z.eqb_neq w' (-1))) by done. rsimpl.
  unfold entry_at. rewrite Hs'. rsimpl. cbn [deref_entry]. subst c'. cbn [entries setf].
  by rewrite lookup_insert_eq.
Qed.

Lemma clearLocked_spec c address a :
  cache_wf c -> view c address = Some a ->
  exists c', clearLocked block_size_bits c address = Ok c' /\ same_lines c c'.
Proof.
  intros Hwf Hv. pose proof (view_line c _ _ Hwf Hv) as Hl. unfold clearLocked. rewrite Hl. rsimpl.
  destruct (locate_spec c address Hwf Hl) as (w & -> & Hw). rsimpl. rewrite Hv in Hw.
  destruct Hw as (Hne & _ & Hs). rewrite (proj2 (Z.eqb_neq w (-1))) by done. rsimpl.
  destruct (upd_entry_spec c _ w a entry_clearLocked Hwf Hs (locked_same_line (-1)))
    as (en & Hen & -> & Hsame). eauto.
Qed.

(** ** The victim *)

(** Entries that differ in their copy of the replacement data only. *)
Definition same_but_data (en en' : AbstractCacheEntry) : Prop :=
  same_line en en' /\ m_Permission en' = m_Permission en /\ m_locked en' = m_locked en /\
  getLastAccess en' = getLastAccess en.

(** After [i] rounds of [gather]. *)
Record gathered c (s : Z) (row : list Z) (i : Z) (acc : CacheMemory P * list ReplaceableEntry) : Prop := {
  ga_same : same_lines c acc.1;
  ga_policy : m_replacementPolicy acc.1 = m_replacementPolicy c;
  ga_entries a en : entries c !! a = Some en ->
    exists en', entries acc.1 !! a = Some en' /\ same_but_data en en';
  ga_length : Z.of_nat (length acc.2) = i;
  ga_cands (j : nat) v : acc.2 !! j = Some v ->
    _way v = Z.of_nat j /\ row !! j = Some (replacementData v)
}.

Lemma set_data_same_line d en : same_line en (en ⟨ base := base en ⟨ replacementData := d ⟩ ⟩).
Proof. by split_and!. Qed.

Lemma gather_step c s row i acc a d :
  cache_wf c -> gathered c s row i acc -> slot c s i = Ok (Some a) -> 0 <= i -> vget row i = Ok d ->
  exists acc', (c1 ← upd_entry acc.1 s i (fun en => en ⟨ base := base en ⟨ replacementData := d ⟩ ⟩);
     en ← entry_at c1 s i; Ok (c1, acc.2 ++ [base en])) = Ok acc' /\ gathered c s row (i + 1) acc'.
Proof.
  intros Hwf [Hsame Hpol Hents Hlen Hc] Hs Hi [_ Hd]%vget_Ok. destruct acc as [c1 l]. cbn [fst snd] in *.
  pose proof (same_lines_wf c c1 Hsame Hwf) as Hwf1.
  assert (Hs1 : slot c1 s i = Ok (Some a)) by (by rewrite (same_lines_slot c c1)).
  destruct (upd_entry_spec c1 s i a _ Hwf1 Hs1 (set_data_same_line d)) as (en & Hen & -> & Hsame2). rsimpl.
  set (c2 := c1 ⟨ entries := _ ⟩) in *. unfold entry_at. rewrite (same_lines_slot c1 c2), Hs1 by done. rsimpl.
  assert (Hen2 : entries c2 !! a = Some (en ⟨ base := base en ⟨ replacementData := d ⟩ ⟩)).
  { subst c2. cbn [entries setf]. apply lookup_insert_eq. }
  cbn [deref_entry]. rewrite Hen2. rsimpl. eexists. split; [done |].
  constructor; cbn [fst snd].
  - by eapply same_lines_trans.
  - done.
  - intros b enb Hb. destruct (Hents b enb Hb) as (en1 & Hb1 & Hsb). destruct (decide (b = a)) as [->|].
    + rewrite Hen in Hb1. injection Hb1 as <-. eexists. split; [exact Hen2 |].
      destruct Hsb as ((? & ? & ? & ?) & ? & ? & ?). by split_and!.
    + exists en1. split; [| done]. subst c2. cbn [entries setf]. by rewrite lookup_insert_ne.
  - rewrite length_app. cbn. lia.
  - intros j v [Hj|[Hj Hv]]%lookup_app_Some; [by apply Hc |].
    apply list_lookup_singleton_Some in Hv as [Hj0 <-]. cbn [base _way replacementData setf].
    destruct (wf_slot c1 Hwf1 _ _ _ Hs1) as (en' & He' & _ & Hw & _). simplify_eq.
    assert (j = length l) as -> by lia. split; [lia |].
    by replace (length l) with (Z.to_nat (Z.of_nat (length l))) by lia.
Qed.

Lemma gather_spec c s row :
  cache_wf c -> vget (replacement_data c) s = Ok row -> ~ has_free_way c s ->
  exists acc, gather c s = Ok acc /\ gathered c s row (m_cache_assoc c) acc.
Proof.
  intros Hwf Hrow Hfull. pose proof (geo_assoc c (wf_geometry c Hwf)).
  destruct (wf_repl c Hwf s row Hrow) as [Hlen _].
  apply (foldM_upto _ (gathered c s row)); [lia | |].
  - constructor; cbn [fst snd]; [apply same_lines_refl | done | | done | by intros [|j] v].
    intros a en Ha. exists en. split; [done |]. by split_and!.
  - intros i acc Hi Hacc. rewrite Hrow. rsimpl. destruct (vget_is_ok row i) as [d Hd]; [lia |].
    rewrite Hd. rsimpl. destruct (slot_ok c s i Hwf) as [[a|] Hs]; [| done | | by destruct Hfull; exists i].
    + apply vget_range in Hrow. rewrite (wf_repl_size c Hwf) in Hrow. lia.
    + eapply gather_step; [done | done | exact Hs | lia | done].
Qed.

Lemma gathered_handles c s row acc :
  Z.of_nat (length row) = m_cache_assoc c -> gathered c s row (m_cache_assoc c) acc ->
  map replacementData acc.2 = row.
Proof.
  intros Hlen [_ _ _ Hl Hc]. apply list_eq_same_length with (length row);
    [done | rewrite length_map; lia |].
  intros j x y Hj Hx Hy. change (map replacementData acc.2) with (replacementData <$> acc.2) in Hx.
  rewrite list_lookup_fmap in Hx. destruct (acc.2 !! j) as [v|] eqn:Hv; [| done].
  destruct (Hc j v Hv) as [_ Hr]. cbn in Hx. by simplify_eq.
Qed.

(** [cacheProbe] on a full set: the victim the policy picks is a line of that
    set. *)
Lemma cacheProbe_spec e c address :
  env_ok e -> cache_wf c -> is_line address = true -> view c address = None ->
  ~ has_free_way c (set_of c address) ->
  exists c' v a row acc w, cacheProbe block_size_bits e c address = Ok (c', v) /\
    same_lines c c' /\ view c v = Some a /\ set_of c v = set_of c address /\
    vget (replacement_data c) (set_of c address) = Ok row /\
    gathered c (set_of c address) row (m_cache_assoc c) acc /\
    getVictim e (m_replacementPolicy c) acc.2 = Ok (m_replacementPolicy c', w) /\ w ∈ acc.2 /\
    slot c (set_of c address) (_way w) = Ok (Some a) /\ entries c' = entries acc.1.
Proof.
  intros He Hwf Hl Hv Hfull. pose proof (wf_geometry c Hwf) as Hg. unfold cacheProbe. rewrite Hl. rsimpl.
  destruct (cacheAvail_spec c address Hwf Hl) as (b & -> & Hb). rsimpl. destruct b.
  { exfalso. destruct (proj1 Hb eq_refl) as [[a Ha]|]; [congruence | done]. }
  rsimpl. rewrite addressToCacheSet_ok by done. rsimpl. set (s := set_of c address) in *.
  destruct (vget_is_ok (replacement_data c) s) as [row Hrow];
    [rewrite (wf_repl_size c Hwf); by apply set_of_range |].
  destruct (wf_repl c Hwf s row Hrow) as [Hlen Hset].
  destruct (gather_spec c s row Hwf Hrow Hfull) as (acc & -> & Hga). rsimpl.
  pose proof (gathered_handles c s row acc Hlen Hga) as Hmap. pose proof Hga as [Hsame Hpol Hents Hl2 Hc].
  destruct (getVictim_law e (m_replacementPolicy acc.1) acc.2 He) as (st & w & Hgv & Hw & Hk & _).
  { rewrite Hmap, Hpol. done. }
  rewrite Hgv. rsimpl. set (c' := acc.1 ⟨ m_replacementPolicy := st ⟩).
  assert (Hsame' : same_lines c c').
  { eapply same_lines_trans; [exact Hsame |]. by apply set_policy_same_lines. }
  apply list_elem_of_lookup_1 in Hw as [j Hj]. destruct (Hc j w Hj) as [Hway _].
  destruct (slot_ok c s (_way w) Hwf) as [[a|] Hs];
    [by apply set_of_range | pose proof (lookup_lt_Some _ _ _ Hj); lia | | by destruct Hfull; exists (_way w)].
  pose proof (same_lines_wf c c' Hsame' Hwf) as Hwf'.
  destruct (wf_slot c' Hwf' s (_way w) a) as (en & Hen & Hres); [by rewrite (same_lines_slot c c') |].
  unfold entry_at. rewrite (same_lines_slot c c'), Hs by done. rsimpl.
  cbn [deref_entry]. rewrite Hen. rsimpl.
  exists c', (m_Address en), a, row, acc, w. split_and!; [done | done | | | done | done | | | done | done].
  - rewrite <- (same_lines_view c c') by done. eapply resident_view; [done | | done].
    by rewrite (same_lines_slot c c').
  - rewrite <- (same_lines_set_of c c') by done. apply Hres.
  - by rewrite <- Hpol.
  - by eapply list_elem_of_lookup_2.
Qed.

(** ** Filling and emptying a way *)

(** [m_cache[s][i] = p], everything else of the cache in shape. *)
Record slot_set c c' (s i : Z) (p : option Z) : Prop := {
  ss_slot s' w : slot c' s' w = if decide (s' = s /\ w = i) then Ok p else slot c s' w;
  ss_size : length (m_cache c') = length (m_cache c);
  ss_row s' row : vget (m_cache c') s' = Ok row -> Z.of_nat (length row) = m_cache_assoc c;
  ss_repl : replacement_data c' = replacement_data c;
  ss_assoc : m_cache_assoc c' = m_cache_assoc c;
  ss_sets : m_cache_num_sets c' = m_cache_num_sets c;
  ss_bits : m_cache_num_set_bits c' = m_cache_num_set_bits c;
  ss_start : m_start_index_bit c' = m_start_index_bit c;
  ss_policy l : rp_set (m_replacementPolicy c) l -> rp_set (m_replacementPolicy c') l
}.

Lemma write_slot c s i p old :
  cache_wf c -> slot c s i = Ok old ->
  exists row row' cache, vget (m_cache c) s = Ok row /\ vset row i p = Ok row' /\
    vset (m_cache c) s row' = Ok cache /\ slot_set c (c ⟨ m_cache := cache ⟩) s i p.
Proof.
  intros Hwf Hs. unfold slot in Hs. inv_res. rename a into row. rename E into Hrow.
  destruct (vset_is_ok row i p) as [row' Hrow']; [by eapply vget_range |].
  destruct (vset_is_ok (m_cache c) s row') as [cache Hcache]; [by eapply vget_range |].
  exists row, row', cache. split_and!; [done.. |].
  constructor; try done; cbn [m_cache setf].
  - intros s' w. unfold slot. cbn [m_cache setf]. destruct (decide (s' = s)) as [->|Hne].
    + rewrite (vset_get_eq _ _ _ _ Hcache), Hrow. rsimpl. destruct (decide (w = i)) as [->|].
      * rewrite decide_True by done. by eapply vset_get_eq.
      * rewrite decide_False by tauto. by eapply vset_get_ne.
    + rewrite decide_False by tauto. by rewrite (vset_get_ne _ _ _ _ _ Hcache).
  - by eapply vset_length.
  - intros s' r Hr. destruct (decide (s' = s)) as [->|Hne].
    + rewrite (vset_get_eq _ _ _ _ Hcache) in Hr. injection Hr as <-.
      rewrite (vset_length _ _ _ _ Hrow'). by eapply wf_row.
    + rewrite (vset_get_ne _ _ _ _ _ Hcache) in Hr by done. by eapply wf_row.
Qed.

Lemma slot_set_then c c' c'' s i p :
  slot_set c c' s i p -> m_cache c'' = m_cache c' -> replacement_data c'' = replacement_data c' ->
  m_cache_assoc c'' = m_cache_assoc c' -> m_cache_num_sets c'' = m_cache_num_sets c' ->
  m_cache_num_set_bits c'' = m_cache_num_set_bits c' -> m_start_index_bit c'' = m_start_index_bit c' ->
  (forall l, rp_set (m_replacementPolicy c') l -> rp_set (m_replacementPolicy c'') l) ->
  slot_set c c'' s i p.
Proof.
  intros [] Hm ? ? ? ? ? ?. constructor; try congruence; try (by rewrite Hm); auto.
  intros s' w. unfold slot in *. by rewrite Hm.
Qed.

Lemma slot_set_geometry c c' s i p : slot_set c c' s i p -> geometry_ok c -> geometry_ok c'.
Proof. intros [] []. constructor; congruence. Qed.

Lemma slot_set_set_of c c' s i p address : slot_set c c' s i p -> set_of c' address = set_of c address.
Proof. intros []. unfold set_of. congruence. Qed.

(** A new line in a free way. *)
Lemma fill_wf c c' address i entry en :
  let s := set_of c address in
  cache_wf c -> slot_set c c' s i (Some entry) -> is_line address = true ->
  slot c s i = Ok None -> m_tag_index c !! address = None ->
  (forall s' w, slot c s' w <> Ok (Some entry)) ->
  m_tag_index c' = <[address := i]> (m_tag_index c) ->
  entries c' !! entry = Some en -> (forall a, a <> entry -> entries c' !! a = entries c !! a) ->
  m_Address en = address -> _set (base en) = s -> _way (base en) = i ->
  m_Permission en <> AccessPermission_NotPresent ->
  cache_wf c' /\ forall x, view c' x = if decide (x = address) then Some entry else view c x.
Proof.
  intros s Hwf Hss Hl Hfree Htag Hfresh Htag' Hen Hents Ha Hset Hway Hperm.
  assert (Hso : forall x, set_of c' x = set_of c x) by (intros; by eapply slot_set_set_of).
  assert (Hslot : slot c' s i = Ok (Some entry)) by (rewrite (ss_slot _ _ _ _ _ Hss); by rewrite decide_True).
  assert (Hold : forall s' w a, slot c' s' w = Ok (Some a) -> a <> entry -> slot c s' w = Ok (Some a)).
  { intros s' w a Hs Hne. rewrite (ss_slot _ _ _ _ _ Hss) in Hs. case_decide; [congruence | done]. }
  split.
  - constructor.
    + eapply slot_set_geometry; [done | apply Hwf].
    + rewrite (ss_size _ _ _ _ _ Hss), (ss_sets _ _ _ _ _ Hss). apply Hwf.
    + intros s' row Hr. rewrite (ss_assoc _ _ _ _ _ Hss). by eapply ss_row.
    + rewrite (ss_repl _ _ _ _ _ Hss), (ss_sets _ _ _ _ _ Hss). apply Hwf.
    + intros s' row. rewrite (ss_repl _ _ _ _ _ Hss), (ss_assoc _ _ _ _ _ Hss). intros Hr.
      destruct (wf_repl c Hwf _ _ Hr). split; [done | by eapply ss_policy].
    + intros s' w a Hs. destruct (decide (a = entry)) as [->|Hne].
      * exists en. split; [done |]. rewrite (ss_slot _ _ _ _ _ Hss) in Hs.
        case_decide as Hd; [destruct Hd as [-> ->] | by apply Hfresh in Hs].
        split_and!; rewrite ?Ha, ?Hso, ?Htag', ?lookup_insert_eq by done; done.
      * specialize (Hold _ _ _ Hs Hne). destruct (wf_slot c Hwf _ _ _ Hold) as (en' & Hen' & Hr).
        exists en'. rewrite Hents by done. split; [done |]. destruct Hr as (? & ? & ? & ? & ? & Ht).
        split_and!; rewrite ?Hso, ?Htag' by done; try done.
        rewrite lookup_insert_ne; [done |]. intros Heq. congruence.
    + intros x w. rewrite Htag', Hso by done. intros [[<- <-]|[Hne Ht]]%lookup_insert_Some.
      * by exists entry, en.
      * destruct (wf_tag c Hwf _ _ Ht) as (a & en' & Hs & He & Hax). exists a, en'.
        assert (a <> entry) by (intros ->; by apply Hfresh in Hs).
        rewrite Hents by done. split_and!; [| done | done]. rewrite (ss_slot _ _ _ _ _ Hss).
        case_decide as Hd; [destruct Hd as [E1 E2]; rewrite E1, E2 in Hs; congruence | done].
  - intros x. unfold view. rewrite Htag', Hso by done. case_decide as Hx.
    + rewrite Hx, lookup_insert_eq. fold s. by rewrite Hslot.
    + rewrite lookup_insert_ne by done. destruct (m_tag_index c !! x) as [w|] eqn:Ht; [| done].
      rewrite (ss_slot _ _ _ _ _ Hss). case_decide as Hd; [| done]. destruct Hd as [E1 E2].
      destruct (wf_tag c Hwf _ _ Ht) as (a & en' & Hs & _). rewrite E1, E2 in Hs. congruence.
Qed.

(** A line that leaves its way. *)
Lemma empty_wf c c' address w a :
  let s := set_of c address in
  cache_wf c -> slot_set c c' s w None -> m_tag_index c !! address = Some w ->
  slot c s w = Ok (Some a) ->
  m_tag_index c' = delete address (m_tag_index c) -> entries c' = delete a (entries c) ->
  cache_wf c' /\ forall x, view c' x = if decide (x = address) then None else view c x.
Proof.
  intros s Hwf Hss Htag Hslot Htag' Hents.
  assert (Hso : forall x, set_of c' x = set_of c x) by (intros; by eapply slot_set_set_of).
  destruct (wf_tag c Hwf _ _ Htag) as (a0 & en & Hs0 & Hen & Ha). fold s in Hs0.
  rewrite Hslot in Hs0. injection Hs0 as <-.
  assert (Hkeep : forall x w', m_tag_index c !! x = Some w' -> x <> address ->
    ~ (set_of c x = s /\ w' = w)).
  { intros x w' Ht Hne [E1 E2]. destruct (wf_tag c Hwf _ _ Ht) as (b & enb & Hb & Heb & Hxb).
    rewrite E1, E2 in Hb. congruence. }
  split.
  - constructor.
    + eapply slot_set_geometry; [done | apply Hwf].
    + rewrite (ss_size _ _ _ _ _ Hss), (ss_sets _ _ _ _ _ Hss). apply Hwf.
    + intros s' row Hr. rewrite (ss_assoc _ _ _ _ _ Hss). by eapply ss_row.
    + rewrite (ss_repl _ _ _ _ _ Hss), (ss_sets _ _ _ _ _ Hss). apply Hwf.
    + intros s' row. rewrite (ss_repl _ _ _ _ _ Hss), (ss_assoc _ _ _ _ _ Hss). intros Hr.
      destruct (wf_repl c Hwf _ _ Hr). split; [done | by eapply ss_policy].
    + intros s' w' b Hs. rewrite (ss_slot _ _ _ _ _ Hss) in Hs. case_decide as Hd; [done |].
      destruct (wf_slot c Hwf _ _ _ Hs) as (enb & Heb & Hr). exists enb.
      assert (b <> a). { intros ->. destruct (slot_inj c _ _ _ _ _ Hwf Hs Hslot). tauto. }
      rewrite Hents, lookup_delete_ne by done. split; [done |].
      destruct Hr as (? & ? & ? & ? & Hst & Ht). split_and!; rewrite ?Hso, ?Htag' by done; try done.
      rewrite lookup_delete_ne; [done |]. intros Heq. rewrite <- Heq in Hst, Ht. fold s in Hst.
      apply Hd. split; congruence.
    + intros x w'. rewrite Htag', Hso. intros [Hne Ht]%lookup_delete_Some.
      destruct (wf_tag c Hwf _ _ Ht) as (b & enb & Hs & Heb & Hxb). exists b, enb.
      specialize (Hkeep x w' Ht ltac:(done)).
      assert (b <> a). { intros ->. destruct (slot_inj c _ _ _ _ _ Hwf Hs Hslot). tauto. }
      rewrite (ss_slot _ _ _ _ _ Hss), decide_False, Hents, lookup_delete_ne by done. done.
  - intros x. unfold view. rewrite Htag', Hso. case_decide as Hx.
    + by rewrite Hx, lookup_delete_eq.
    + rewrite lookup_delete_ne by done. destruct (m_tag_index c !! x) as [w'|] eqn:Ht; [| done].
      rewrite (ss_slot _ _ _ _ _ Hss), decide_False; [done |]. by apply Hkeep.
Qed.

(** An entry the cache does not hold yet. *)
Definition fresh_entry c (entry : Z) : Prop :=
  is_Some (entries c !! entry) /\ forall s w, slot c s w <> Ok (Some entry).

(** What a line looks like right after its allocation. *)
Definition new_line (t address : Z) (en : AbstractCacheEntry) : Prop :=
  m_Address en = address /\ m_Permission en = AccessPermission_Invalid /\ m_locked en = -1 /\
  getLastAccess en = t.

Lemma place_entry_spec c address i entry :
  let s := set_of c address in
  cache_wf c -> is_line address = true -> view c address = None ->
  slot c s i = Ok None -> fresh_entry c entry ->
  exists c1 en, place_entry c s i address entry = Ok c1 /\ cache_wf c1 /\
    slot_set c c1 s i (Some entry) /\ m_replacementPolicy c1 = m_replacementPolicy c /\
    (forall x, view c1 x = if decide (x = address) then Some entry else view c x) /\
    entries c1 = <[entry := en]> (entries c) /\
    m_Address en = address /\ m_Permission en = AccessPermission_Invalid /\ m_locked en = -1.
Proof.
  intros s Hwf Hl Hv Hfree [[en0 Hen0] Hfresh]. pose proof (wf_geometry c Hwf) as Hg.
  pose proof (slot_range c s i _ Hwf Hfree) as [Hsr Hir].
  pose proof (geo_assoc c Hg). pose proof (geo_sets c Hg).
  destruct (write_slot c s i (Some entry) None Hwf Hfree) as (row & row' & cache & Hr & Hr' & Hc & Hss).
  unfold place_entry. rewrite Hr. rsimpl. rewrite Hr'. rsimpl. rewrite Hc. rsimpl.
  cbn [deref_entry]. rewrite Hen0. rsimpl.
  set (en1 := _ ⟨ base := _ ⟩). set (c1 := _ ⟨ entries := <[entry := en1]> _ ⟩).
  assert (Hen1 : m_Address en1 = address /\ _set (base en1) = s /\ _way (base en1) = i /\
    m_Permission en1 = AccessPermission_Invalid /\ m_locked en1 = -1).
  { subst en1. cbn. rewrite !u32_id by (unfold in_u32; lia). done. }
  assert (Hss1 : slot_set c c1 s i (Some entry)) by (eapply slot_set_then; [exact Hss | done..]).
  assert (He1 : entries c1 !! entry = Some en1) by apply lookup_insert_eq.
  destruct (fill_wf c c1 address i entry en1) as [Hwf1 Hview1]; try done; try apply Hen1.
  { by apply view_None. }
  { intros a Ha. by apply lookup_insert_ne. }
  destruct Hen1 as (? & _ & _ & ? & ?). by exists c1, en1.
Qed.

Lemma fill_slot_spec e c address i entry :
  let s := set_of c address in
  env_ok e -> cache_wf c -> is_line address = true -> view c address = None ->
  slot c s i = Ok None -> fresh_entry c entry ->
  exists c' en, fill_slot e c s i address entry = Ok c' /\ cache_wf c' /\
    (forall x, view c' x = if decide (x = address) then Some entry else view c x) /\
    (forall x, set_of c' x = set_of c x) /\
    entries c' = <[entry := en]> (entries c) /\ new_line (curTick e) address en.
Proof.
  intros s He Hwf Hl Hv Hfree Hfresh.
  destruct (place_entry_spec c address i entry Hwf Hl Hv Hfree Hfresh)
    as (c1 & en1 & Hp & Hwf1 & Hss1 & _ & Hview1 & Hents1 & ? & ? & ?).
  unfold fill_slot. fold s in Hp, Hss1. rewrite Hp. rsimpl.
  assert (Hs1 : slot c1 s i = Ok (Some entry)) by (rewrite (ss_slot _ _ _ _ _ Hss1); by rewrite decide_True).
  destruct (stamp_spec reset e c1 s i entry reset_law He Hwf1 Hs1) as (c' & -> & Hsame & en' & Hen' & Hents).
  rewrite Hents1, lookup_insert_eq in Hen'. injection Hen' as <-.
  exists c', (setLastAccess en1 (curTick e)).
  split_and!; [done | by eapply same_lines_wf | | | | by split_and!].
  - intros x. by rewrite (same_lines_view c1 c').
  - intros x. rewrite (same_lines_set_of c1 c') by done. by eapply slot_set_set_of.
  - rewrite Hents, Hents1. apply insert_insert_eq.
Qed.

(** [allocate] fills the first free way. *)
Lemma allocate_fills e c address entry :
  env_ok e -> cache_wf c -> is_line address = true -> view c address = None ->
  has_free_way c (set_of c address) -> fresh_entry c entry ->
  exists i c', slot c (set_of c address) i = Ok None /\
    fill_slot e c (set_of c address) i address entry = Ok c' /\
    allocate block_size_bits e c address entry = Ok (c', entry).
Proof.
  intros He Hwf Hl Hv [wf Hfree] Hfresh. pose proof (wf_geometry c Hwf) as Hg. unfold allocate.
  rewrite Hl. rsimpl. rewrite isTagPresent_view, Hv by done. rsimpl.
  rewrite bool_decide_eq_false_2 by (by intros [? ?]). rsimpl.
  destruct (cacheAvail_spec c address Hwf Hl) as (b & -> & Hb). rsimpl.
  rewrite (proj2 Hb) by (right; by exists wf). rsimpl. rewrite addressToCacheSet_ok by done. rsimpl.
  set (s := set_of c address) in *.
  edestruct (foldM_brk_upto (S := CacheMemory P)) with (n := m_cache_assoc c) (s := c)
    (P := fun i c1 => c1 = c /\ forall w, 0 <= w < i -> slot c s w <> Ok None)
    (Q := fun i c1 => slot c s i = Ok None /\ fill_slot e c s i address entry = Ok c1)
    as (b' & c1 & Hf & Hpost); [pose proof (geo_assoc c Hg); lia | split; [done | intros; lia] | |].
  2: { rewrite Hf. rsimpl. destruct b'; [destruct Hpost as (i & Hi & Hn & Hfill); by exists i, c1 |].
    destruct Hpost as [-> Hall]. exfalso. eapply Hall; [| exact Hfree]. by eapply slot_range. }
  intros i c1 Hi [-> Hall]. cbv beta. destruct (slot_ok c s i Hwf) as [p Hp]; [by apply set_of_range | done |].
  rewrite Hp. rsimpl. destruct p as [a|].
  - destruct (wf_slot c Hwf _ _ _ Hp) as (en & Hen & _ & _ & Hperm & _). cbn [deref_entry]. rewrite Hen. rsimpl.
    rewrite (bool_decide_eq_false_2 _ Hperm). exists false, c. split; [done |]. split; [done |].
    intros w Hw. destruct (decide (w = i)) as [->|]; [congruence | apply Hall; lia].
  - destruct (fill_slot_spec e c address i entry He Hwf Hl Hv Hp Hfresh) as (c' & en & Hc' & _).
    fold s in Hc'. rewrite Hc'. rsimpl. by exists true, c'.
Qed.

Lemma allocate_spec e c address entry :
  env_ok e -> cache_wf c -> is_line address = true -> view c address = None ->
  has_free_way c (set_of c address) -> fresh_entry c entry ->
  exists c' en, allocate block_size_bits e c address entry = Ok (c', entry) /\ cache_wf c' /\
    (forall x, view c' x = if decide (x = address) then Some entry else view c x) /\
    (forall x, set_of c' x = set_of c x) /\
    entries c' = <[entry := en]> (entries c) /\ new_line (curTick e) address en.
Proof.
  intros He Hwf Hl Hv Hfree Hfresh.
  destruct (allocate_fills e c address entry He Hwf Hl Hv Hfree Hfresh) as (i & c1 & Hi & Hf & Ha).
  destruct (fill_slot_spec e c address i entry He Hwf Hl Hv Hi Hfresh) as (c' & en & Hc' & Hrest).
  same_ok. by exists c', en.
Qed.

Lemma deallocate_spec e c address a :
  env_ok e -> cache_wf c -> view c address = Some a ->
  exists c', deallocate block_size_bits e c address = Ok c' /\ cache_wf c' /\
    (forall x, view c' x = if decide (x = address) then None else view c x) /\
    (forall x, set_of c' x = set_of c x) /\ has_free_way c' (set_of c address) /\
    entries c' = delete a (entries c).
Proof.
  intros He Hwf Hv. pose proof (view_line c _ _ Hwf Hv) as Hl. unfold deallocate. rewrite Hl. rsimpl.
  rewrite isTagPresent_view, Hv, bool_decide_eq_true_2 by (done || eauto). rsimpl.
  destruct (locate_spec c address Hwf Hl) as (w & -> & Hw). rsimpl. rewrite Hv in Hw.
  destruct Hw as (Hne & Hwr & Hs). rewrite (proj2 (Z.eqb_neq w (-1))) by done.
  destruct (view_Some c _ _ Hwf Hv) as (w' & en & Htag & Hs' & _).
  destruct (slot_inj c _ _ _ _ _ Hwf Hs Hs') as [_ <-].
  pose proof (slot_range c _ _ _ Hwf Hs) as [Hsr _].
  destruct (policy_op_spec invalidate e c _ w invalidate_law He Hwf Hsr Hwr) as (st & -> & Hk). rsimpl.
  set (c1 := c ⟨ m_replacementPolicy := st ⟩).
  pose proof (set_policy_same_lines c st Hk) as Hsame. fold c1 in Hsame.
  pose proof (same_lines_wf c c1 Hsame Hwf) as Hwf1.
  assert (Hs1 : slot c1 (set_of c address) w = Ok (Some a)) by (by rewrite (same_lines_slot c c1)).
  rewrite Hs1. rsimpl.
  destruct (write_slot c1 _ w None _ Hwf1 Hs1) as (row & row' & cache & Hr & Hr' & Hc & Hss).
  rewrite Hr. rsimpl. rewrite Hr'. rsimpl. rewrite Hc. rsimpl.
  eexists. split; [done |]. set (c' := _ ⟨ m_tag_index := _ ⟩).
  assert (Hss' : slot_set c1 c' (set_of c1 address) w None) by (eapply slot_set_then; [exact Hss | done..]).
  destruct (empty_wf c1 c' address w a Hwf1 Hss') as [Hwf' Hview]; [done..|].
  split_and!; [done | done | | | done].
  - intros x. rewrite (slot_set_set_of _ _ _ _ _ x Hss'). done.
  - exists w. rewrite (ss_slot _ _ _ _ _ Hss'). by rewrite decide_True.
Qed.

(** ** Initialisation *)

Lemma instantiate_sets_spec n assoc (st : P) :
  0 <= n -> 0 <= assoc -> rp_ready (Z.to_nat assoc) st ->
  exists st' rows, instantiate_sets n assoc st = Ok (st', rows) /\ Z.of_nat (length rows) = n /\
    forall row, row ∈ rows -> Z.of_nat (length row) = assoc /\ rp_set st' row.
Proof.
  intros Hn Ha Hr. unfold instantiate_sets.
  edestruct (foldM_upto (S := P * list (list Z))) with (n := n) (s := (st, [] : list (list Z)))
    (P := fun i acc => rp_ready (Z.to_nat assoc) acc.1 /\ Z.of_nat (length acc.2) = i /\
      forall row, row ∈ acc.2 -> Z.of_nat (length row) = assoc /\ rp_set acc.1 row)
    as ([st' rows] & Hf & _ & Hlen & Hrows); [done | | | by exists st', rows].
  - split_and!; [done | done |]. by intros row ?%elem_of_nil.
  - intros i [s rows] Hi (Hrd & Hlen & Hall). cbn [fst snd] in *.
    destruct (instantiate_law _ s Hrd) as (s' & l & -> & Hl & Hset & Hk & Hrdk). rsimpl.
    eexists. split; [done |]. cbn [fst snd]. split_and!; [by apply Hrdk | rewrite length_app; cbn; lia |].
    intros row [Hin|Hin]%elem_of_app.
    + destruct (Hall row Hin). split; [done | by apply Hk].
    + apply list_elem_of_singleton in Hin as ->. split; [lia | done].
Qed.

(** The parameters [init] accepts; [num_sets] is the number of sets. *)
Record params_ok (p : RubyCacheParams) (getBlockSizeBytes num_sets : Z) (policy : P) : Prop := {
  po_size : 0 < p_size p < 2 ^ 31;
  po_assoc : 0 < p_assoc p < 2 ^ 31;
  po_block : 0 <= p_block_size p < 2 ^ 31 /\ 0 < getBlockSizeBytes < 2 ^ 31;
  po_sets : num_sets = p_size p / p_assoc p /
    (if p_block_size p =? 0 then getBlockSizeBytes else p_block_size p);
  po_many : 1 < num_sets;
  po_start : 0 <= p_start_index_bit p /\ p_start_index_bit p + Z.log2 num_sets <= 64;
  po_ready : rp_ready (Z.to_nat (p_assoc p)) policy
}.

Lemma slot_empty c n m s w p :
  m_cache c = replicate n (replicate m None) -> slot c s w = Ok p -> p = None.
Proof.
  intros Hm Hs. unfold slot in Hs. rewrite Hm in Hs. inv_res.
  apply vget_Ok in E as [_ [-> _]%lookup_replicate_1]. by apply vget_Ok in Hs as [_ [-> _]%lookup_replicate_1].
Qed.

Lemma init_spec p getBlockSizeBytes num_sets policy heap :
  params_ok p getBlockSizeBytes num_sets policy ->
  exists c, init getBlockSizeBytes (CacheMemory_ctor p policy heap) = Ok c /\ cache_wf c /\
    (forall x, view c x = None) /\ entries c = heap /\ m_cache_num_sets c = num_sets.
Proof.
  intros [Hsize Hassoc [Hblk Hgbs] Hsets Hmany [Hst Hsum] Hready].
  set (bs := if p_block_size p =? 0 then getBlockSizeBytes else p_block_size p) in *.
  assert (Hbs : 0 < bs < 2 ^ 31) by (subst bs; case_match; b2p; lia).
  unfold init. set (c0 := CacheMemory_ctor p policy heap).
  set (c1 := if m_block_size c0 =? 0 then _ else c0).
  assert (Hc1 : m_cache_size c1 = p_size p /\ m_cache_assoc c1 = p_assoc p /\ m_block_size c1 = bs /\
    m_start_index_bit c1 = p_start_index_bit p /\ m_replacementPolicy c1 = policy /\
    m_tag_index c1 = ∅ /\ entries c1 = heap).
  { subst c1 bs. replace (m_block_size c0) with (p_block_size p)
      by (cbn; by rewrite i32_id by (unfold in_i32; lia)).
    destruct (p_block_size p =? 0) eqn:E; cbn; rewrite !i32_id by (unfold in_i32; lia); by b2p. }
  destruct Hc1 as (E1 & E2 & E3 & E4 & E5 & E6 & E7). rewrite E1, E2, E3. unfold int_div.
  rewrite (proj2 (Z.eqb_neq (p_assoc p) 0)) by lia. rsimpl.
  rewrite (proj2 (Z.eqb_neq bs 0)) by lia. rsimpl.
  assert (0 <= p_size p / p_assoc p) by (apply Z.div_pos; lia).
  rewrite (Z.quot_div_nonneg (p_size p)), (Z.quot_div_nonneg _ bs) by lia. rewrite <- Hsets.
  rewrite (proj2 (Z.ltb_lt 1 num_sets)) by lia. rsimpl.
  assert (Hns : num_sets < 2 ^ 31).
  { subst num_sets. apply Z.div_lt_upper_bound; [lia |].
    pose proof (Z.div_le_upper_bound (p_size p) (p_assoc p) (p_size p)). nia. }
  rewrite floorLog2_log2 by ((by right; right; left) || lia). rsimpl.
  pose proof (Z.log2_pos num_sets ltac:(lia)). rewrite (proj2 (Z.ltb_lt 0 _)) by lia. rsimpl.
  destruct (instantiate_sets_spec num_sets (p_assoc p) policy) as (st & rows & Hi & Hlen & Hrows);
    [lia | lia | done |].
  rewrite E5, Hi. rsimpl. eexists. split; [done |].
  pose proof (Z.log2_spec num_sets ltac:(lia)) as [Hlog _].
  set (c := _ ⟨ replacement_data := rows ⟩).
  assert (Hm : m_cache c = replicate (Z.to_nat num_sets) (replicate (Z.to_nat (p_assoc p)) None)) by done.
  split_and!; [| | done | done].
  - constructor.
    + constructor; subst c; cbn [m_cache_assoc m_cache_num_set_bits m_start_index_bit m_cache_num_sets setf]; rewrite ?E2, ?E4; lia.
    + rewrite Hm, length_replicate. cbn. lia.
    + intros s row. rewrite Hm. intros [_ [-> _]%lookup_replicate_1]%vget_Ok.
      rewrite length_replicate. change (m_cache_assoc c) with (m_cache_assoc c1). lia.
    + done.
    + intros s row [_ Hr%list_elem_of_lookup_2]%vget_Ok.
      change (m_cache_assoc c) with (m_cache_assoc c1). rewrite E2. by apply Hrows.
    + intros s w a Hs. by apply (slot_empty c _ _ _ _ _ Hm) in Hs.
    + intros address w. change (m_tag_index c) with (m_tag_index c1). by rewrite E6, lookup_empty.
  - intros x. unfold view. change (m_tag_index c) with (m_tag_index c1). by rewrite E6, lookup_empty.
Qed.
End CacheProofs.
