(* ===== verification/CacheTheorems.v ===== *)
(** * The cache memory as a bounded finite map

    The contract of [CacheMemory]: a map from line addresses to entries in
    which each set holds at most [assoc] lines.  [abs_step] is that contract,
    [run] the code, and the simulation holds for every replacement policy that
    satisfies [ReplacementLaws].  Then: the invariant of all reachable states,
    and the replacement cycle probe - deallocate - allocate. *)
From S2P Require Import Prelude Common IntMath Replacement Victims TreePLRU BankedArray CacheMemory CacheProofs.

(** ** The abstract cache *)

Inductive op :=
  | OpLookup (address : Z)
  | OpIsTagPresent (address : Z)
  | OpCacheAvail (address : Z)
  | OpAllocate (address entry : Z)
  | OpDeallocate (address : Z)
  | OpProbe (address : Z)
  | OpTryAccess (address : Z) (type : RubyRequestType)
  | OpTestAccess (address : Z) (type : RubyRequestType)
  | OpSetMRU (address : Z)
  | OpSetMRUOccupancy (address occupancy : Z)
  | OpSetLocked (address context : Z)
  | OpClearLocked (address : Z).

(** What an operation returns: an entry pointer, a truth value with a pointer,
    or an address. *)
Inductive answer :=
  | ANone | APtr (p : option Z) | ABool (b : bool) (p : option Z) | AAddr (a : Z).

Definition op_address (o : op) : Z :=
  match o with
  | OpLookup a | OpIsTagPresent a | OpCacheAvail a | OpAllocate a _ | OpDeallocate a | OpProbe a
  | OpTryAccess a _ | OpTestAccess a _ | OpSetMRU a | OpSetMRUOccupancy a _ | OpSetLocked a _
  | OpClearLocked a => a
  end.

Section Abstract.
Context (assoc : Z) (set : Z -> Z).
Implicit Types (lines : Z -> option Z).

(** Fewer than [assoc] lines of set [s] are in the cache. *)
Definition room lines (s : Z) : Prop :=
  forall l, NoDup l -> (forall x, x ∈ l -> is_Some (lines x) /\ set x = s) ->
    Z.of_nat (length l) < assoc.

Definition upd lines (a : Z) (p : option Z) : Z -> option Z :=
  fun x => if decide (x = a) then p else lines x.

(** An accepted operation, its effect on the lines and its answer. *)
Inductive abs_step lines : op -> (Z -> option Z) -> answer -> Prop :=
  | abs_lookup a : abs_step lines (OpLookup a) lines (APtr (lines a))
  | abs_present a b : (b = true <-> is_Some (lines a)) ->
      abs_step lines (OpIsTagPresent a) lines (ABool b None)
  | abs_avail a b : (b = true <-> is_Some (lines a) \/ room lines (set a)) ->
      abs_step lines (OpCacheAvail a) lines (ABool b None)
  | abs_allocate a p : lines a = None -> room lines (set a) ->
      abs_step lines (OpAllocate a p) (upd lines a (Some p)) (APtr (Some p))
  | abs_deallocate a : is_Some (lines a) -> abs_step lines (OpDeallocate a) (upd lines a None) ANone
  | abs_probe a v : lines a = None -> ~ room lines (set a) -> is_Some (lines v) -> set v = set a ->
      abs_step lines (OpProbe a) lines (AAddr v)
  | abs_try a type hit : (hit = true -> is_Some (lines a)) ->
      abs_step lines (OpTryAccess a type) lines (ABool hit (if hit : bool then lines a else None))
  | abs_test a type hit : (hit = true <-> is_Some (lines a)) ->
      abs_step lines (OpTestAccess a type) lines (ABool hit (lines a))
  | abs_mru a : abs_step lines (OpSetMRU a) lines ANone
  | abs_mru_occ a occ : abs_step lines (OpSetMRUOccupancy a occ) lines ANone
  | abs_lock a ctx : is_Some (lines a) -> abs_step lines (OpSetLocked a ctx) lines ANone
  | abs_unlock a : is_Some (lines a) -> abs_step lines (OpClearLocked a) lines ANone.

(** A refused operation: the code stops at an assertion. *)
Inductive abs_refuses lines : op -> Prop :=
  | refuse_allocate a p : is_Some (lines a) \/ ~ room lines (set a) -> abs_refuses lines (OpAllocate a p)
  | refuse_deallocate a : lines a = None -> abs_refuses lines (OpDeallocate a)
  | refuse_probe a : is_Some (lines a) \/ room lines (set a) -> abs_refuses lines (OpProbe a)
  | refuse_lock a ctx : lines a = None -> abs_refuses lines (OpSetLocked a ctx)
  | refuse_unlock a : lines a = None -> abs_refuses lines (OpClearLocked a).
End Abstract.

(** ** The code *)

Section Run.
Context {P : Type} `{BaseReplacementPolicy P} (block_size_bits : Z).

Definition run (e : Env) (c : CacheMemory P) (o : op) : res (CacheMemory P * answer) :=
  match o with
  | OpLookup a => p ← lookup_line block_size_bits c a; Ok (c, APtr p)
  | OpIsTagPresent a => b ← isTagPresent block_size_bits c a; Ok (c, ABool b None)
  | OpCacheAvail a => b ← cacheAvail block_size_bits c a; Ok (c, ABool b None)
  | OpAllocate a p => r ← allocate block_size_bits e c a p; Ok (r.1, APtr (Some r.2))
  | OpDeallocate a => c ← deallocate block_size_bits e c a; Ok (c, ANone)
  | OpProbe a => r ← cacheProbe block_size_bits e c a; Ok (r.1, AAddr r.2)
  | OpTryAccess a type => r ← tryCacheAccess block_size_bits e c a type; Ok (r.1.1, ABool r.1.2 r.2)
  | OpTestAccess a type => r ← testCacheAccess block_size_bits e c a type; Ok (r.1.1, ABool r.1.2 r.2)
  | OpSetMRU a => c ← setMRU block_size_bits e c a; Ok (c, ANone)
  | OpSetMRUOccupancy a occ => c ← setMRU_occupancy block_size_bits e c a occ; Ok (c, ANone)
  | OpSetLocked a ctx => c ← setLocked block_size_bits c a ctx; Ok (c, ANone)
  | OpClearLocked a => c ← clearLocked block_size_bits c a; Ok (c, ANone)
  end.

(** What the caller owes: a line address, and a new entry object. *)
Definition op_valid (c : CacheMemory P) (o : op) : Prop :=
  is_line block_size_bits (op_address o) = true /\
  match o with
  | OpAllocate a p => is_Some (entries c !! p) /\ forall x, view c x <> Some p
  | _ => True
  end.
End Run.

(** ** The simulation *)

Section Simulation.
Context {P : Type} `{ReplacementLaws P} (block_size_bits : Z).
Implicit Types (c : CacheMemory P).
Notation cache_wf := (cache_wf block_size_bits).

Lemma way_of_address c a :
  cache_wf c -> is_Some (view c a) -> exists w p, m_tag_index c !! a = Some w /\
    slot c (set_of c a) w = Ok (Some p) /\ 0 <= w < m_cache_assoc c.
Proof.
  intros Hwf [p Hp]. destruct (view_Some _ c a p Hwf Hp) as (w & en & Ht & Hs & _).
  exists w, p. split_and!; [done | done | by eapply slot_range..].
Qed.

(** A free way and the abstract room are the same. *)
Lemma free_way_room c s :
  cache_wf c -> has_free_way c s -> room (m_cache_assoc c) (set_of c) (view c) s.
Proof.
  intros Hwf [w Hw] l Hnd Hl. pose proof (slot_range _ c s w None Hwf Hw) as [_ Hwr].
  set (way := fun x => match m_tag_index c !! x with Some i => i | None => -1 end).
  assert (Hway : forall x, x ∈ l -> way x ∈ upto (m_cache_assoc c) /\ way x <> w /\
    exists p, slot c s (way x) = Ok (Some p) /\ view c x = Some p).
  { intros x Hx. destruct (Hl x Hx) as [Hv Hs]. destruct (way_of_address c x Hwf Hv) as (i & p & Ht & Hsl & Hr).
    unfold way. rewrite Ht. rewrite Hs in Hsl. split_and!; [by apply elem_of_upto | congruence |].
    exists p. split; [done |]. unfold view. by rewrite Ht, Hs, Hsl. }
  assert (Hinj : NoDup (w :: map way l)).
  { constructor.
    - intros (x & Hx & Hin)%list_elem_of_fmap. by destruct (Hway x Hin) as (_ & Hne & _).
    - apply NoDup_fmap_2_strong; [| done]. intros x y Hx Hy Heq.
      destruct (Hway x Hx) as (_ & _ & p & Hsx & Hvx). destruct (Hway y Hy) as (_ & _ & q & Hsy & Hvy).
      rewrite Heq, Hsy in Hsx. injection Hsx as ->.
      destruct (view_Some _ c x p Hwf Hvx) as (? & en & _ & _ & He & <- & _).
      destruct (view_Some _ c y p Hwf Hvy) as (? & en' & _ & _ & He' & <- & _). congruence. }
  assert (Hsub : w :: map way l ⊆+ upto (m_cache_assoc c)).
  { apply NoDup_submseteq; [done |]. intros x [->|Hx]%elem_of_cons; [by apply elem_of_upto |].
    apply list_elem_of_fmap in Hx as (y & -> & Hy). by apply Hway. }
  apply submseteq_length in Hsub. rewrite length_upto in Hsub. cbn in Hsub. rewrite length_map in Hsub. lia.
Qed.

Lemma room_free_way c s :
  cache_wf c -> 0 <= s < m_cache_num_sets c ->
  room (m_cache_assoc c) (set_of c) (view c) s -> has_free_way c s.
Proof.
  intros Hwf Hs Hroom.
  destruct (decide (Exists (fun w => slot c s w = Ok None) (upto (m_cache_assoc c)))) as [Hex|Hno].
  { apply Exists_exists in Hex as (w & _ & Hw). by exists w. }
  exfalso. set (addr := fun w => match entry_at c s w with Ok en => m_Address en | Err _ => -1 end).
  assert (Haddr : forall w, w ∈ upto (m_cache_assoc c) ->
    is_Some (view c (addr w)) /\ set_of c (addr w) = s /\ m_tag_index c !! addr w = Some w).
  { intros w Hw. pose proof (proj1 (elem_of_upto _ _) Hw) as Hwr.
    destruct (slot_ok _ c s w Hwf Hs Hwr) as [[p|] Hp].
    2: { destruct Hno. apply Exists_exists. eauto. }
    destruct (wf_slot _ c Hwf _ _ _ Hp) as (en & He & Hres). unfold addr, entry_at. rewrite Hp. rsimpl.
    cbn [deref_entry]. rewrite He. split_and!; [| apply Hres | apply Hres].
    exists p. by eapply resident_view. }
  specialize (Hroom (map addr (upto (m_cache_assoc c)))).
  rewrite length_map, length_upto in Hroom.
  pose proof (geo_assoc c (wf_geometry _ c Hwf)). enough (Z.of_nat (Z.to_nat (m_cache_assoc c)) < m_cache_assoc c) by lia.
  apply Hroom.
  - apply NoDup_fmap_2_strong; [| apply NoDup_seqZ].
    intros x y Hx Hy Heq. destruct (Haddr x Hx) as (_ & _ & Ht1), (Haddr y Hy) as (_ & _ & Ht2). congruence.
  - intros x (w & -> & Hw)%list_elem_of_fmap. destruct (Haddr w Hw) as (? & ? & _). done.
Qed.

Lemma room_iff c a :
  cache_wf c -> has_free_way c (set_of c a) <-> room (m_cache_assoc c) (set_of c) (view c) (set_of c a).
Proof.
  intros Hwf. split; [by apply free_way_room |]. apply room_free_way; [done |].
  apply set_of_range, (wf_geometry _ c Hwf).
Qed.

(** The abstract step up to the pointwise equality of the lines. *)
Definition steps_to c o c' r : Prop :=
  exists lines', abs_step (m_cache_assoc c) (set_of c) (view c) o lines' r /\
    forall x, view c' x = lines' x.

Lemma steps_same c o c' r :
  same_lines c c' -> abs_step (m_cache_assoc c) (set_of c) (view c) o (view c) r -> steps_to c o c' r.
Proof. intros Hs Ha. exists (view c). split; [done |]. intros x. by apply same_lines_view. Qed.

(** What an operation does: it makes the abstract step and keeps the
    invariant, or the abstract cache refuses it and an assertion fails. *)
Definition simulates e c o : Prop :=
  (exists c' r, run block_size_bits e c o = Ok (c', r) /\ cache_wf c' /\ steps_to c o c' r) \/
  (run block_size_bits e c o = Err EAssert /\ abs_refuses (m_cache_assoc c) (set_of c) (view c) o).

Lemma simulates_same e c o c' r :
  cache_wf c -> run block_size_bits e c o = Ok (c', r) -> same_lines c c' ->
  abs_step (m_cache_assoc c) (set_of c) (view c) o (view c) r -> simulates e c o.
Proof.
  intros Hwf Hr Hs Ha. left. exists c', r. split_and!; [done | by eapply same_lines_wf | by apply steps_same].
Qed.

Lemma simulates_allocate e c a p :
  env_ok e -> cache_wf c -> op_valid block_size_bits c (OpAllocate a p) -> simulates e c (OpAllocate a p).
Proof.
  intros He Hwf [Hl [Hp Hfresh]]. cbn in Hl.
  assert (Hf : fresh_entry c p).
  { split; [done |]. intros s w Hs. destruct (wf_slot _ c Hwf _ _ _ Hs) as (en & Hen & _).
    by eapply Hfresh, resident_view. }
  destruct (cacheAvail_spec _ c a Hwf Hl) as (b & Hav & Hb).
  destruct (view c a) as [q|] eqn:Hv; [| destruct b].
  - right. split; [| constructor; left; by exists q]. cbn [run]. unfold allocate. rewrite Hl. rsimpl.
    rewrite isTagPresent_view, Hv, bool_decide_eq_true_2 by (done || eauto). done.
  - left. destruct (proj1 Hb eq_refl) as [[? ?]|Hfree]; [done |].
    destruct (allocate_spec _ e c a p He Hwf Hl Hv Hfree Hf) as (c' & en & Hr & Hwf' & Hview & _).
    exists c', (APtr (Some p)). split_and!; [cbn [run]; by rewrite Hr | done |].
    exists (upd (view c) a (Some p)). split; [| exact Hview]. constructor; [done |]. by apply free_way_room.
  - right. split.
    + cbn [run]. unfold allocate. rewrite Hl. rsimpl. rewrite isTagPresent_view, Hv by done. rsimpl.
      rewrite bool_decide_eq_false_2 by (by intros [? ?]). rsimpl. by rewrite Hav.
    + constructor. right. rewrite <- room_iff by done. intros Hfree. by discriminate (proj2 Hb (or_intror Hfree)).
Qed.

Lemma simulates_deallocate e c a :
  env_ok e -> cache_wf c -> is_line block_size_bits a = true -> simulates e c (OpDeallocate a).
Proof.
  intros He Hwf Hl. destruct (view c a) as [q|] eqn:Hv.
  - left. destruct (deallocate_spec _ e c a q He Hwf Hv) as (c' & Hr & Hwf' & Hview & _).
    exists c', ANone. split_and!; [cbn [run]; by rewrite Hr | done |].
    exists (upd (view c) a None). split; [| exact Hview]. constructor. by exists q.
  - right. split; [| by constructor]. cbn [run]. unfold deallocate. rewrite Hl. rsimpl.
    rewrite isTagPresent_view, Hv, bool_decide_eq_false_2 by (done || by intros [? ?]). done.
Qed.

Lemma simulates_probe e c a :
  env_ok e -> cache_wf c -> is_line block_size_bits a = true -> simulates e c (OpProbe a).
Proof.
  intros He Hwf Hl. destruct (cacheAvail_spec _ c a Hwf Hl) as (b & Hav & Hb). destruct b.
  - right. split; [cbn [run]; unfold cacheProbe; rewrite Hl; rsimpl; by rewrite Hav |].
    constructor. rewrite <- room_iff by done. by apply Hb.
  - assert (Hv : view c a = None /\ ~ has_free_way c (set_of c a)).
    { split; [destruct (view c a) as [q|]; [| done]; by discriminate (proj2 Hb (or_introl (ex_intro _ q eq_refl))) |].
      intros Hf. by discriminate (proj2 Hb (or_intror Hf)). }
    destruct Hv as [Hv Hfull].
    destruct (cacheProbe_spec _ e c a He Hwf Hl Hv Hfull) as (c' & v & p & _ & _ & _ & Hr & Hs & Hp & Hset & _).
    eapply simulates_same; [done | cbn [run]; by rewrite Hr | done |].
    constructor; [done | by rewrite <- room_iff | by exists p | done].
Qed.

Lemma simulates_lock e c a ctx :
  cache_wf c -> is_line block_size_bits a = true ->
  simulates e c (OpSetLocked a ctx) /\ simulates e c (OpClearLocked a).
Proof.
  intros Hwf Hl. destruct (view c a) as [q|] eqn:Hv.
  - destruct (setLocked_spec _ c a q ctx Hwf Hv) as (c1 & Hr1 & Hs1 & _).
    destruct (clearLocked_spec _ c a q Hwf Hv) as (c2 & Hr2 & Hs2).
    split; (eapply simulates_same; [done | cbn [run]; by rewrite ?Hr1, ?Hr2 | done | constructor; by exists q]).
  - destruct (locate_spec _ c a Hwf Hl) as (w & Hloc & Hw). rewrite Hv in Hw. subst w.
    split; right; (split; [| by constructor]); cbn [run]; unfold setLocked, clearLocked;
      rewrite Hl; rsimpl; by rewrite Hloc.
Qed.

Lemma run_simulates e c o :
  env_ok e -> cache_wf c -> op_valid block_size_bits c o -> simulates e c o.
Proof.
  intros He Hwf Hval.
  pose proof Hval as [Hl _].
  destruct o as [a|a|a|a p|a|a|a type|a type|a|a occ|a ctx|a]; cbn in Hl.
  - eapply simulates_same; [done | cbn [run]; by rewrite lookup_line_view | apply same_lines_refl | constructor].
  - eapply simulates_same; [done | cbn [run]; by rewrite isTagPresent_view | apply same_lines_refl |].
    constructor. by rewrite bool_decide_eq_true.
  - destruct (cacheAvail_spec _ c a Hwf Hl) as (b & Hr & Hb).
    eapply simulates_same; [done | cbn [run]; by rewrite Hr | apply same_lines_refl |].
    constructor. by rewrite Hb, room_iff.
  - by apply simulates_allocate.
  - by apply simulates_deallocate.
  - by apply simulates_probe.
  - destruct (tryCacheAccess_spec _ e c a type He Hwf Hl) as (c' & hit & p & Hr & Hs & -> & Hhit & _).
    eapply simulates_same; [done | cbn [run]; by rewrite Hr | done |]. constructor.
    intros (q & en & ? & _)%Hhit. by exists q.
  - destruct (testCacheAccess_spec _ e c a type He Hwf Hl) as (c' & Hr & Hs).
    eapply simulates_same; [done | cbn [run]; by rewrite Hr | done |]. apply abs_test. apply bool_decide_eq_true.
  - destruct (setMRU_spec _ e c a He Hwf Hl) as (c' & Hr & Hs).
    eapply simulates_same; [done | cbn [run]; by rewrite Hr | done | constructor].
  - destruct (setMRU_occupancy_spec _ e c a occ He Hwf Hl) as (c' & Hr & Hs).
    eapply simulates_same; [done | cbn [run]; by rewrite Hr | done | constructor].
  - by apply simulates_lock.
  - by apply (simulates_lock e c a 0).
Qed.
End Simulation.

(** C5.  [CacheMemory] implements a map from line addresses to entries whose
    sets hold at most [assoc] lines, whatever the replacement policy.  From a
    well-formed cache, every operation that is called with a line address (and,
    for [allocate], an entry object that is not in the cache) either succeeds,
    keeps the cache well formed, changes the map as the contract says and
    returns what the contract says ([cacheProbe] a resident line of the same
    full set), or stops at an assertion, exactly in the cases the contract
    refuses: allocating a line that is present or whose set is full, freeing
    or locking an absent one, probing when there is room. *)
Theorem cache_refines_map {P : Type} `{ReplacementLaws P} (block_size_bits : Z)
    (e : Env) (c : CacheMemory P) (o : op) :
  env_ok e -> cache_wf block_size_bits c -> op_valid block_size_bits c o ->
  (exists c' r lines', run block_size_bits e c o = Ok (c', r) /\ cache_wf block_size_bits c' /\
     abs_step (m_cache_assoc c) (set_of c) (view c) o lines' r /\ forall x, view c' x = lines' x) \/
  (run block_size_bits e c o = Err EAssert /\
     abs_refuses (m_cache_assoc c) (set_of c) (view c) o).
Proof.
  intros He Hwf Hval. enough (Hs : simulates block_size_bits e c o).
  { destruct Hs as [(c' & r & Hr & Hw & l & Ha & Hv)|]; [left; exists c', r, l; done | by right]. }
  by apply run_simulates.
Qed.

(** ** Reachable caches *)

Section Reachable.
Context {P : Type} `{ReplacementLaws P} (block_size_bits : Z).

(** A cache is initialised, then its operations run in any order, interleaved
    with the controllers: they make entry objects, change the permission of
    entries (never to [NotPresent]) and book array accesses. *)
Inductive reachable : CacheMemory P -> Prop :=
  | reach_init p bytes num_sets policy heap c :
      params_ok p bytes num_sets policy -> init bytes (CacheMemory_ctor p policy heap) = Ok c ->
      reachable c
  | reach_op e c o c' r :
      reachable c -> env_ok e -> op_valid block_size_bits c o ->
      run block_size_bits e c o = Ok (c', r) -> reachable c'
  | reach_mru_entry e c a p c' :
      reachable c -> env_ok e -> view c a = Some p -> setMRU_entry e c p = Ok c' -> reachable c'
  | reach_new c p en :
      reachable c -> entries c !! p = None -> reachable (c ⟨ entries := <[p := en]> (entries c) ⟩)
  | reach_permission c p perm c' :
      reachable c -> perm <> AccessPermission_NotPresent ->
      change_permission c p perm = Ok c' -> reachable c'
  | reach_record e c t a c' :
      reachable c -> recordRequestType block_size_bits e c t a = Ok c' -> reachable c'
  | reach_check e c t a c' b :
      reachable c -> checkResourceAvailable block_size_bits e c t a = Ok (c', b) -> reachable c'.

Lemma new_entry_same_lines (c : CacheMemory P) p en :
  entries c !! p = None -> same_lines c (c ⟨ entries := <[p := en]> (entries c) ⟩).
Proof.
  intros Hp. split_and!; try done. intros a ena Ha. exists ena. cbn [entries setf].
  rewrite lookup_insert_ne by congruence. split; [done | apply same_line_refl].
Qed.

Lemma change_permission_same_lines (c : CacheMemory P) p perm c' :
  perm <> AccessPermission_NotPresent -> change_permission c p perm = Ok c' -> same_lines c c'.
Proof.
  intros Hperm Hc. unfold change_permission in Hc. cbn [deref_entry] in Hc.
  destruct (entries c !! p) as [en|] eqn:He; [| done]. cbn in Hc. injection Hc as <-.
  eapply insert_same_lines; [done |]. unfold changePermission. case_match; by split_and!.
Qed.

(** Statistics and array bookings leave the lines alone. *)
Lemma booking_same_lines e (c c' : CacheMemory P) t a :
  recordRequestType block_size_bits e c t a = Ok c' -> same_lines c c'.
Proof.
  intros Hr. unfold recordRequestType, reserve_data, reserve_tag in Hr.
  destruct t, (m_resource_stalls c); inv_res; subst; cbn in *; inv_res; subst;
    split_and!; try done; eauto using same_line_refl.
Qed.

Lemma check_same_lines e (c c' : CacheMemory P) t a b :
  checkResourceAvailable block_size_bits e c t a = Ok (c', b) -> same_lines c c'.
Proof.
  intros Hr. unfold checkResourceAvailable in Hr. destruct (m_resource_stalls c); cbn [negb] in Hr.
  - destruct t; inv_res; try done; match goal with x : bool |- _ => destruct x end; inv_res; simplify_eq;
      split_and!; try done; eauto using same_line_refl.
  - simplify_eq. apply same_lines_refl.
Qed.

Lemma reachable_cache_wf c : reachable c -> cache_wf block_size_bits c.
Proof.
  induction 1 as [p bytes n policy heap c Hp Hi|e c o c' r _ IH He Hval Hr|e c a p c' _ IH He Hv Hr
    |c p en _ IH Hp|c p perm c' _ IH Hp Hr|e c t a c' _ IH Hr|e c t a c' b _ IH Hr].
  - destruct (init_spec block_size_bits p bytes n policy heap Hp) as (c' & Hi' & Hwf & _). by same_ok.
  - destruct (run_simulates block_size_bits e c o He IH Hval) as [(c'' & r' & Hr' & Hwf & _)|[Hr' _]]; congruence.
  - destruct (setMRU_entry_spec _ e c a p He IH Hv) as (c'' & Hr' & Hs). same_ok. by eapply same_lines_wf.
  - eapply same_lines_wf; [by apply new_entry_same_lines | done].
  - eapply same_lines_wf; [by eapply change_permission_same_lines | done].
  - eapply same_lines_wf; [by eapply booking_same_lines | done].
  - eapply same_lines_wf; [by eapply check_same_lines | done].
Qed.
End Reachable.

(** C12.  In every reachable cache (reached from [init] by the operations, entry
    creation, permission changes other than to NotPresent, which leave a stale
    tag, see [stale_tag_finds_other_line], and array bookings) the tag index
    and the ways agree: the entry
    in a way knows its set and way, its address is a line address of that set
    and is indexed to that way; every indexed address is held by such a way;
    and no address is held twice. *)
Theorem cache_reachable_consistent {P : Type} `{ReplacementLaws P} (block_size_bits : Z)
    (c : CacheMemory P) :
  reachable block_size_bits c ->
  (forall s w p, slot c s w = Ok (Some p) -> exists en, entries c !! p = Some en /\
     _set (base en) = s /\ _way (base en) = w /\ is_line block_size_bits (m_Address en) = true /\
     addressToCacheSet block_size_bits c (m_Address en) = Ok s /\
     m_tag_index c !! m_Address en = Some w /\
     lookup_line block_size_bits c (m_Address en) = Ok (Some p)) /\
  (forall a w, m_tag_index c !! a = Some w -> exists s p en,
     addressToCacheSet block_size_bits c a = Ok s /\ slot c s w = Ok (Some p) /\
     entries c !! p = Some en /\ m_Address en = a) /\
  (forall s w p s' w' p' en en', slot c s w = Ok (Some p) -> slot c s' w' = Ok (Some p') ->
     entries c !! p = Some en -> entries c !! p' = Some en' -> m_Address en = m_Address en' ->
     s = s' /\ w = w' /\ p = p').
Proof.
  intros Hr. pose proof (reachable_cache_wf block_size_bits c Hr) as Hwf.
  pose proof (wf_geometry _ c Hwf) as Hg. split_and!.
  - intros s w p Hs. destruct (wf_slot _ c Hwf _ _ _ Hs) as (en & He & Hres). exists en.
    pose proof Hres as (? & ? & _ & Hl & Hset & ?). split_and!; try done.
    + by rewrite addressToCacheSet_ok, Hset.
    + rewrite lookup_line_view by done. f_equal. by eapply resident_view.
  - intros a w Ht. destruct (wf_tag _ c Hwf _ _ Ht) as (p & en & Hs & He & Ha).
    exists (set_of c a), p, en. split_and!; try done. apply addressToCacheSet_ok; [done |].
    destruct (wf_slot _ c Hwf _ _ _ Hs) as (en' & He' & _ & _ & _ & Hl & _). congruence.
  - intros s w p s' w' p' en en' Hs Hs' He He' Ha.
    pose proof (resident_view _ c _ _ _ _ Hwf Hs He) as Hv1.
    pose proof (resident_view _ c _ _ _ _ Hwf Hs' He') as Hv2. rewrite Ha, Hv2 in Hv1. injection Hv1 as ->.
    destruct (slot_inj _ c _ _ _ _ _ Hwf Hs Hs'). done.
Qed.

(** The replacement cycle of a controller, with any policy: when the set
    of a new line is full, [cacheProbe] names a resident line of the same set;
    deallocating it makes room, the new line can be allocated and is then
    found, the victim is gone, and every other line is still there. *)
Theorem replacement_cycle {P : Type} `{ReplacementLaws P} (block_size_bits : Z)
    (e : Env) (c : CacheMemory P) (address entry : Z) :
  env_ok e -> cache_wf block_size_bits c -> is_line block_size_bits address = true ->
  cacheAvail block_size_bits c address = Ok false ->
  is_Some (entries c !! entry) -> (forall x, view c x <> Some entry) ->
  exists c1 victim c2 c3,
    cacheProbe block_size_bits e c address = Ok (c1, victim) /\
    deallocate block_size_bits e c1 victim = Ok c2 /\
    allocate block_size_bits e c2 address entry = Ok (c3, entry) /\
    cache_wf block_size_bits c3 /\ victim <> address /\ set_of c victim = set_of c address /\
    lookup_line block_size_bits c3 address = Ok (Some entry) /\
    lookup_line block_size_bits c3 victim = Ok None /\
    forall x, is_line block_size_bits x = true -> x <> address -> x <> victim ->
      lookup_line block_size_bits c3 x = lookup_line block_size_bits c x.
Proof.
  intros He Hwf Hl Hav Hentry Hfresh.
  destruct (cacheAvail_spec _ c address Hwf Hl) as (b & Hav' & Hb). rewrite Hav in Hav'. injection Hav' as <-.
  assert (Hv : view c address = None).
  { destruct (view c address) as [q|] eqn:E; [| done]. by discriminate (proj2 Hb (or_introl (ex_intro _ q eq_refl))). }
  assert (Hfull : ~ has_free_way c (set_of c address)).
  { intros Hf. by discriminate (proj2 Hb (or_intror Hf)). }
  destruct (cacheProbe_spec _ e c address He Hwf Hl Hv Hfull)
    as (c1 & v & a & _ & _ & _ & Hp & Hs1 & Hva & Hset & _).
  pose proof (same_lines_wf _ c c1 Hs1 Hwf) as Hwf1.
  assert (Hva1 : view c1 v = Some a) by (by rewrite (same_lines_view c c1)).
  destruct (deallocate_spec _ e c1 v a He Hwf1 Hva1) as (c2 & Hd & Hwf2 & Hview2 & Hso2 & Hfree2 & Hents2).
  assert (Hne : v <> address) by congruence.
  assert (Hv2 : view c2 address = None) by (rewrite Hview2, decide_False, (same_lines_view c c1) by done; done).
  destruct (allocate_spec _ e c2 address entry He Hwf2 Hl Hv2) as (c3 & en & Ha & Hwf3 & Hview3 & _).
  - rewrite Hso2, (same_lines_set_of c c1), <- Hset, <- (same_lines_set_of c c1) by done. done.
  - split.
    + destruct Hentry as [en0 Hen0]. destruct Hs1 as (_ & _ & _ & _ & _ & _ & _ & Hents1 & _).
      destruct (Hents1 entry en0 Hen0) as (en1 & Hen1 & _). exists en1. rewrite Hents2, lookup_delete_ne; [done |].
      intros ->. by apply Hfresh in Hva.
    + intros s w Hsl. destruct (wf_slot _ c2 Hwf2 _ _ _ Hsl) as (en2 & Hen2 & _).
      pose proof (resident_view _ c2 _ _ _ _ Hwf2 Hsl Hen2) as Hx. rewrite Hview2 in Hx.
      case_decide; [done |]. rewrite (same_lines_view c c1) in Hx by done. by apply Hfresh in Hx.
  - pose proof (view_line _ c v a Hwf Hva) as Hlv.
    exists c1, v, c2, c3. split_and!; [done.. | | |].
    + rewrite lookup_line_view, Hview3 by done. by rewrite decide_True.
    + rewrite lookup_line_view, Hview3, decide_False, Hview2 by done. by rewrite decide_True.
    + intros x Hx Hxa Hxv. rewrite !lookup_line_view by done. f_equal.
      by rewrite Hview3, decide_False, Hview2, decide_False, (same_lines_view c c1) by done.
Qed.

(** ** A run: four sets of two ways, Tree-PLRU *)

Section NewLine.
Context {P : Type} `{ReplacementLaws P} (block_size_bits : Z).

(** A controller makes an entry object and allocates a line for it. *)
Definition new_entry (c : CacheMemory P) (p : Z) : CacheMemory P :=
  c ⟨ entries := <[p := AbstractCacheEntry_ctor {| _set := 0; _way := 0; replacementData := 0 |} 0]>
        (entries c) ⟩.

Lemma new_entry_fresh c p x :
  cache_wf block_size_bits c -> entries c !! p = None -> view (new_entry c p) x <> Some p.
Proof.
  intros Hwf Hp Hv. rewrite (same_lines_view c) in Hv by (by apply new_entry_same_lines).
  destruct (view_Some _ c x p Hwf Hv) as (w & en & _ & _ & He & _). congruence.
Qed.

Lemma reach_new_line e c p a c' r :
  reachable block_size_bits c -> entries c !! p = None -> env_ok e ->
  is_line block_size_bits a = true ->
  run block_size_bits e (new_entry c p) (OpAllocate a p) = Ok (c', r) ->
  reachable block_size_bits c'.
Proof.
  intros Hr Hp He Hl Hrun. eapply (reach_op _ e (new_entry c p)); [by apply reach_new | done | | done].
  split; [done |]. split; [eexists; apply lookup_insert_eq |].
  intros x. apply new_entry_fresh; [by apply reachable_cache_wf | done].
Qed.
End NewLine.

Definition demo_params : RubyCacheParams := {|
  p_size := 512; p_assoc := 2; p_start_index_bit := 6; p_is_icache := false; p_block_size := 0;
  p_dataArrayBanks := 1; p_tagArrayBanks := 1; p_dataAccessLatency := 1; p_tagAccessLatency := 1;
  p_resourceStalls := false; p_clockPeriod := 500
|}.

Definition demo_policy : TreePLRURP :=
  {| numLeaves := 2; count := 0; treeInstance := None; plru_objs := []; trees := [] |}.

Definition demo_env (t : Z) : Env := {| curTick := t; random := fun lo _ => lo |}.

Lemma demo_env_ok t : in_u64 t -> env_ok (demo_env t).
Proof. intros Ht. split; [done |]. cbn. lia. Qed.

(** [ok_or d m] is the result of [m], with a default for the other case. *)
Definition ok_or {A} (d : A) (m : res A) : A := match m with Ok a => a | Err _ => d end.

Definition demo_c0 : CacheMemory TreePLRURP :=
  let c := CacheMemory_ctor demo_params demo_policy ∅ in ok_or c (init 64 c).
Definition demo_add (c : CacheMemory TreePLRURP) (t p a : Z) : CacheMemory TreePLRURP :=
  (ok_or (c, ANone) (run 6 (demo_env t) (new_entry c p) (OpAllocate a p))).1.
Definition demo_c1 : CacheMemory TreePLRURP := demo_add demo_c0 10 1 0.
Definition demo_c2 : CacheMemory TreePLRURP := demo_add demo_c1 20 2 256.

Lemma demo_params_ok : params_ok demo_params 64 4 demo_policy.
Proof.
  constructor; try reflexivity; try (cbn; lia).
  exists 1. split_and!; first [lia | reflexivity].
Qed.

Lemma demo_reachable : reachable 6 demo_c1 /\ reachable 6 demo_c2.
Proof.
  assert (H0 : reachable 6 demo_c0).
  { eapply reach_init; [apply demo_params_ok |]. vm_compute. reflexivity. }
  assert (H1 : reachable 6 demo_c1).
  { eapply (reach_new_line 6 (demo_env 10) demo_c0 1 0 _ (APtr (Some 1))); [done | reflexivity | | reflexivity |].
    - apply demo_env_ok. unfold in_u64. lia.
    - vm_compute. reflexivity. }
  split; [done |].
  eapply (reach_new_line 6 (demo_env 20) demo_c1 2 256 _ (APtr (Some 2))); [done | reflexivity | | reflexivity |].
  - apply demo_env_ok. unfold in_u64. lia.
  - vm_compute. reflexivity.
Qed.

Lemma abs_probe_inv assoc set lines a lines' r :
  abs_step assoc set lines (OpProbe a) lines' r ->
  exists v, r = AAddr v /\ is_Some (lines v) /\ set v = set a.
Proof. inversion 1; subst; eauto. Qed.

Lemma cache_refines_map_witness :
  exists c' v, run 6 (demo_env 30) demo_c2 (OpProbe 512) = Ok (c', AAddr v) /\
    cache_wf 6 c' /\ is_Some (view demo_c2 v) /\ set_of demo_c2 v = set_of demo_c2 512.
Proof.
  destruct (cache_refines_map 6 (demo_env 30) demo_c2 (OpProbe 512))
    as [(c' & r & l & Hr & Hwf & Ha & _)|[Hr _]].
  - apply demo_env_ok. unfold in_u64. lia.
  - apply reachable_cache_wf, demo_reachable.
  - split; [reflexivity | exact I].
  - apply abs_probe_inv in Ha as (v & -> & Hv & Hs). exact (ex_intro _ c' (ex_intro _ v (conj Hr (conj Hwf (conj Hv Hs))))).
  - vm_compute in Hr. discriminate.
Defined.

Lemma cache_reachable_consistent_witness :
  exists en, entries demo_c2 !! 2 = Some en /\ _way (base en) = 1 /\
    lookup_line 6 demo_c2 (m_Address en) = Ok (Some 2).
Proof.
  destruct (cache_reachable_consistent 6 demo_c2 (proj2 demo_reachable)) as (H & _ & _).
  destruct (H 0 1 2) as (en & He & _ & Hw & _ & _ & _ & Hl); [vm_compute; reflexivity |].
  exact (ex_intro _ en (conj He (conj Hw Hl))).
Defined.

Lemma replacement_cycle_witness :
  exists c1 victim c2 c3,
    cacheProbe 6 (demo_env 30) (new_entry demo_c2 3) 512 = Ok (c1, victim) /\
    deallocate 6 (demo_env 30) c1 victim = Ok c2 /\
    allocate 6 (demo_env 30) c2 512 3 = Ok (c3, 3) /\
    lookup_line 6 c3 512 = Ok (Some 3) /\ lookup_line 6 c3 victim = Ok None.
Proof.
  destruct (replacement_cycle 6 (demo_env 30) (new_entry demo_c2 3) 512 3)
    as (c1 & v & c2 & c3 & H1 & H2 & H3 & _ & _ & _ & H4 & H5 & _).
  - apply demo_env_ok. unfold in_u64. lia.
  - apply reachable_cache_wf, reach_new; [apply demo_reachable | reflexivity].
  - reflexivity.
  - vm_compute. reflexivity.
  - eexists. apply lookup_insert_eq.
  - intros x. apply (new_entry_fresh 6); [apply reachable_cache_wf, demo_reachable | reflexivity].
  - exists c1, v, c2, c3. exact (conj H1 (conj H2 (conj H3 (conj H4 H5)))).
Defined.

(** ** An entry marked [NotPresent]

    [allocate] reuses the way of an entry whose permission is [NotPresent] but
    leaves the tag of the old address in [m_tag_index]: a lookup of the old
    address then finds the new line.  (A direct-mapped LRU cache of two sets;
    addresses 0 and 128 share a set.) *)
Definition stale_tag : res (option Z * option Z) :=
  let p := {| p_size := 128; p_assoc := 1; p_start_index_bit := 6; p_is_icache := false;
              p_block_size := 64; p_dataArrayBanks := 1; p_tagArrayBanks := 1;
              p_dataAccessLatency := 1; p_tagAccessLatency := 1; p_resourceStalls := false;
              p_clockPeriod := 500 |} in
  c ← init 64 (CacheMemory_ctor p (Build_Policy LRURP_ctor []) ∅);
  r ← allocate 6 (demo_env 1) (new_entry c 1) 0 1;
  c ← change_permission r.1 1 AccessPermission_NotPresent;
  before ← lookup_line 6 c 0;
  r ← allocate 6 (demo_env 2) (new_entry c 2) 128 2;
  after ← lookup_line 6 r.1 0;
  Ok (before, after).

Example stale_tag_finds_other_line : stale_tag = Ok (None, Some 2).
Proof. vm_compute. reflexivity. Qed.
