(* ===== verification/LruCache.v ===== *)
(** * A cache with the LRU policy evicts the least recently used line

    [CacheMemory] keeps two clocks: the policy's [lastTouchTick] of a way,
    which the victim search compares, and the last access of the entry in the
    way.  In every reachable cache they agree, so the line [cacheProbe] names
    is one whose last access is the oldest of its set. *)
From S2P Require Import Prelude Common Replacement Victims BankedArray CacheMemory CacheProofs CacheTheorems.

Notation LruCache := (CacheMemory (Policy LRURP)).

Definition handle (c : LruCache) (s w : Z) : res Z :=
  row ← vget (replacement_data c) s; vget row w.

Definition ticks (c : LruCache) : list LRUReplData := objs (m_replacementPolicy c).

(** The ways have handles of their own, and the policy's time stamp of a way
    is the last access of its line. *)
Record lru_inv (c : LruCache) : Prop := {
  lru_handles s w s' w' d : handle c s w = Ok d -> handle c s' w' = Ok d -> s = s' /\ w = w';
  lru_ticks s w p en d : slot c s w = Ok (Some p) -> entries c !! p = Some en ->
    handle c s w = Ok d -> vget (ticks c) d = Ok {| lastTouchTick := getLastAccess en |}
}.

(** ** The operations keep the two clocks together *)

Lemma policy_op_ticks (f : LRURP -> Env -> LRUReplData -> LRUReplData) e (c c' : LruCache) s w :
  policy_op (fun e => at_ptr (fun o => f o e)) e c s w = Ok c' ->
  exists d x l, handle c s w = Ok d /\ vget (ticks c) d = Ok x /\
    vset (ticks c) d (f (object (m_replacementPolicy c)) e x) = Ok l /\
    c' = c ⟨ m_replacementPolicy := Build_Policy (object (m_replacementPolicy c)) l ⟩.
Proof.
  unfold policy_op, at_ptr, handle. intros Hp. inv_res. subst c'. apply vupd_Ok in E2 as (x & y & Hx & Hy & Hs).
  injection Hy as <-. rewrite E. rsimpl. do 3 eexists. split_and!; [exact E0 | exact Hx | exact Hs | by subst].
Qed.

Section Stamp.
Variable (f : LRURP -> Env -> LRUReplData -> LRUReplData).
Hypothesis f_stamps : forall o e x, f o e x = {| lastTouchTick := curTick e |}.

(** A stamp of way [s], [w], which holds entry [p]; the way may have been
    empty or stale in [c] before. *)
Lemma stamp_lru block_size_bits e (c c' : LruCache) s w p :
  (forall s1 w1 s2 w2 d, handle c s1 w1 = Ok d -> handle c s2 w2 = Ok d -> s1 = s2 /\ w1 = w2) ->
  (forall s' w' q en d, (s', w') <> (s, w) -> slot c s' w' = Ok (Some q) -> entries c !! q = Some en ->
     handle c s' w' = Ok d -> vget (ticks c) d = Ok {| lastTouchTick := getLastAccess en |}) ->
  cache_wf block_size_bits c -> slot c s w = Ok (Some p) ->
  (c1 ← policy_op (fun e => at_ptr (fun o => f o e)) e c s w;
   upd_entry c1 s w (fun en => setLastAccess en (curTick e))) = Ok c' ->
  lru_inv c'.
Proof.
  intros Hinj Hticks Hwf Hs Hrun. inv_res. rename a into c1.
  apply policy_op_ticks in E as (d & x & l & Hd & Hx & Hl & ->).
  unfold upd_entry in Hrun. change (slot (c ⟨ m_replacementPolicy := _ ⟩) s w) with (slot c s w) in Hrun.
  rewrite Hs in Hrun. cbn [mbind res_bind deref_entry entries setf] in Hrun.
  destruct (entries c !! p) as [en|] eqn:Hp; [| done]. cbn in Hrun. injection Hrun as <-.
  constructor; [exact Hinj |].
  intros s' w' q enq dq Hsq Hq Hdq. change (slot c s' w' = Ok (Some q)) in Hsq.
  change (handle c s' w' = Ok dq) in Hdq. cbn [entries setf] in Hq. unfold ticks. cbn [m_replacementPolicy setf objs].
  destruct (decide (q = p)) as [->|Hne].
  - destruct (slot_inj _ c _ _ _ _ _ Hwf Hsq Hs) as [-> ->]. rewrite lookup_insert_eq in Hq. injection Hq as <-.
    same_ok. rewrite (vset_get_eq _ _ _ _ Hl), f_stamps. done.
  - rewrite lookup_insert_ne in Hq by done.
    assert (Hsw : (s', w') <> (s, w)) by (intros [= -> ->]; congruence).
    rewrite (vset_get_ne _ _ _ _ _ Hl); [by eapply Hticks |].
    intros ->. apply Hsw. destruct (Hinj _ _ _ _ _ Hd Hdq). congruence.
Qed.
End Stamp.

Lemma use_line_lru block_size_bits e (c c' : LruCache) s w p :
  lru_inv c -> cache_wf block_size_bits c -> slot c s w = Ok (Some p) ->
  use_line e c s w = Ok c' -> lru_inv c'.
Proof.
  intros [Hinj Ht] Hwf Hs Hu.
  eapply (stamp_lru LRURP_touch); [done | exact Hinj | | exact Hwf | exact Hs | exact Hu].
  intros s' w' q en d _. apply Ht.
Qed.

(** Changes that leave both clocks alone. *)
Lemma same_clocks_lru (c c' : LruCache) :
  lru_inv c -> replacement_data c' = replacement_data c -> m_cache c' = m_cache c ->
  ticks c' = ticks c ->
  (forall s w p en', slot c s w = Ok (Some p) -> entries c' !! p = Some en' ->
     exists en, entries c !! p = Some en /\ getLastAccess en' = getLastAccess en) ->
  lru_inv c'.
Proof.
  intros [Hinj Ht] Hr Hm Htk He.
  assert (Hh : forall s w, handle c' s w = handle c s w) by (intros; unfold handle; by rewrite Hr).
  assert (Hs : forall s w, slot c' s w = slot c s w) by (intros; unfold slot; by rewrite Hm).
  constructor.
  - intros s w s' w' d. rewrite !Hh. apply Hinj.
  - intros s w p en' d. rewrite Hs, Hh, Htk. intros Hsl Hen Hd.
    destruct (He _ _ _ _ Hsl Hen) as (en & Hp & ->). by eapply Ht.
Qed.

Lemma upd_entry_lru (c c' : LruCache) s w f :
  (forall en, getLastAccess (f en) = getLastAccess en) ->
  lru_inv c -> upd_entry c s w f = Ok c' -> lru_inv c'.
Proof.
  intros Hf Hi Hu. unfold upd_entry in Hu. inv_res. destruct a as [p|]; [| done]. inv_res. subst c'.
  cbn [deref_entry] in E0. destruct (entries c !! p) as [en|] eqn:Hp; [| done]. injection E0 as <-.
  eapply same_clocks_lru; [exact Hi | done..|]. intros s' w' q en' _ Hq. cbn [entries setf] in Hq.
  apply lookup_insert_Some in Hq as [[<- <-]|[_ Hq]]; eauto.
Qed.

Lemma use_line_slot e (c c' : LruCache) s w :
  use_line e c s w = Ok c' -> exists p, slot c s w = Ok (Some p).
Proof.
  unfold use_line. intros Hu. inv_res. apply policy_op_ticks in E as (d & x & l & _ & _ & _ & ->).
  unfold upd_entry in Hu. inv_res. change (slot c s w = Ok a) in E. destruct a as [p|]; [by exists p | done].
Qed.

(** The operations that count as a use, and those that do not change the
    cache: one [use_line] or nothing. *)
Lemma access_inv block_size_bits e (c c' : LruCache) o r :
  run block_size_bits e c o = Ok (c', r) ->
  match o with
  | OpAllocate _ _ | OpDeallocate _ | OpProbe _ | OpSetLocked _ _ | OpClearLocked _ => True
  | _ => c' = c \/ exists s w, use_line e c s w = Ok c'
  end.
Proof.
  destruct o; try done; cbn [run]; intros Hr; inv_res; simplify_eq/=; auto.
  - unfold tryCacheAccess in E. inv_res. destruct (a1.2 =? -1); inv_res; [by subst; left |].
    right. exists a1.1, a1.2. repeat case_match; simplify_eq/=; done.
  - unfold testCacheAccess in E. inv_res. destruct (a1.2 =? -1); inv_res; [by subst; left |].
    right. exists a1.1, a1.2. by subst.
  - unfold setMRU in E. inv_res. destruct (a.2 =? -1); inv_res; [by left; subst |]. right. eauto.
  - unfold setMRU_occupancy in E. inv_res. destruct (a.2 =? -1); inv_res; [by left; subst |].
    right. exists a.1, a.2. unfold use_line.
    match type of E1 with _ = Ok ?c1 => assert (Ht : policy_op touch e c a.1 a.2 = Ok c1)
      by (destruct (m_use_occupancy c); exact E1) end.
    by rewrite Ht.
Qed.

Lemma allocate_lru block_size_bits e (c c' : LruCache) a p :
  env_ok e -> lru_inv c -> cache_wf block_size_bits c ->
  op_valid block_size_bits c (OpAllocate a p) ->
  allocate block_size_bits e c a p = Ok (c', p) -> lru_inv c'.
Proof.
  intros He [Hinj Ht] Hwf Hval Ha. pose proof Hval as [Hl [Hp Hfresh]]. cbn in Hl.
  assert (Hf : fresh_entry c p).
  { split; [done |]. intros s w Hs. destruct (wf_slot _ c Hwf _ _ _ Hs) as (en & Hen & _).
    by eapply Hfresh, resident_view. }
  destruct (run_simulates block_size_bits e c (OpAllocate a p) He Hwf Hval)
    as [(c2 & r & _ & _ & l & Hstep & _)|[Hr _]]; [| cbn [run] in Hr; rewrite Ha in Hr; done].
  inversion Hstep as [| | |a' p' Hv Hroom| | | | | | | |]; subst.
  apply (room_iff block_size_bits) in Hroom; [| done].
  destruct (allocate_fills _ e c a p He Hwf Hl Hv Hroom Hf) as (i & c1 & Hi & Hfill & Ha').
  assert (c1 = c') as -> by congruence. clear Ha'. set (s := set_of c a) in *.
  destruct (place_entry_spec _ c a i p Hwf Hl Hv Hi Hf)
    as (c1 & en1 & Hpl & Hwf1 & Hss1 & Hpol & _ & Hents & _). fold s in Hpl, Hss1.
  unfold fill_slot in Hfill. rewrite Hpl in Hfill. cbn [mbind res_bind] in Hfill.
  assert (Hh : forall s w, handle c1 s w = handle c s w).
  { intros. unfold handle. by rewrite (ss_repl _ _ _ _ _ Hss1). }
  eapply (stamp_lru LRURP_reset); [done | | | exact Hwf1 | | exact Hfill].
  - intros s1 w1 s2 w2 d. rewrite !Hh. apply Hinj.
  - intros s' w' q en d Hne Hs Hq. rewrite Hh. unfold ticks. rewrite Hpol.
    rewrite (ss_slot _ _ _ _ _ Hss1) in Hs. case_decide as Hd; [destruct Hd; congruence |].
    assert (q <> p) by (intros ->; by apply (proj2 Hf) in Hs).
    rewrite Hents, lookup_insert_ne in Hq by done. by apply Ht with (p := q).
  - rewrite (ss_slot _ _ _ _ _ Hss1). by rewrite decide_True.
Qed.

Lemma deallocate_lru block_size_bits e (c c' : LruCache) a :
  lru_inv c -> cache_wf block_size_bits c -> deallocate block_size_bits e c a = Ok c' -> lru_inv c'.
Proof.
  intros Hi Hwf Hd. unfold deallocate in Hd. inv_res. destruct (a3.2 =? -1); inv_res; [by subst |].
  apply (policy_op_ticks LRURP_invalidate) in E3 as (d & x & l & Hh & Hx & Hl & ->). subst c'.
  set (c1 := c ⟨ m_replacementPolicy := _ ⟩) in *. change (slot c a3.1 a3.2 = Ok a5) in E4.
  change (vget (m_cache c) a3.1 = Ok a6) in E5. change (vset (m_cache c) a3.1 a7 = Ok a8) in E7.
  destruct (write_slot _ c _ _ None _ Hwf E4) as (row & row' & cache & Hr & Hr' & Hc & Hss). same_ok.
  destruct Hi as [Hinj Ht]. constructor; [exact Hinj |]. set (c' := _ ⟨ m_tag_index := _ ⟩) in *.
  intros s w p en dp Hs Hp Hdp. change (handle c s w = Ok dp) in Hdp.
  change (slot c' s w) with (slot (c ⟨ m_cache := cache ⟩) s w) in Hs.
  rewrite (ss_slot _ _ _ _ _ Hss) in Hs. case_decide as Hsw; [done |].
  assert (Hp' : entries c !! p = Some en).
  { subst c'. cbn [entries setf] in Hp. destruct a5 as [q|]; [by apply lookup_delete_Some in Hp as [_ Hp] | done]. }
  change (ticks c') with l. rewrite (vset_get_ne _ _ _ _ _ Hl); [by eapply Ht |].
  intros ->. apply Hsw. destruct (Hinj _ _ _ _ _ Hdp Hh). done.
Qed.

(** The search of the policy object. *)
Lemma lru_getVictim_inv e (s s' : Policy LRURP) cands v :
  getVictim e s cands = Ok (s', v) -> objs s' = objs s /\ LRURP_getVictim (objs s) cands = Ok v.
Proof.
  cbn [getVictim Policy_base ep_getVictim LRURP_policy]. intros Hg. inv_res. by simplify_eq/=.
Qed.

Lemma probe_lru block_size_bits e (c c' : LruCache) a v :
  env_ok e -> lru_inv c -> cache_wf block_size_bits c -> is_line block_size_bits a = true ->
  cacheProbe block_size_bits e c a = Ok (c', v) -> lru_inv c'.
Proof.
  intros He Hi Hwf Hl Hp.
  destruct (run_simulates block_size_bits e c (OpProbe a) He Hwf) as [(c2 & r & Hr & _ & l & Hstep & _)|[Hr _]];
    [by split | | cbn [run] in Hr; by rewrite Hp in Hr].
  inversion Hstep as [| | | | |a' v' Hv Hroom _ _| | | | | |]; subst.
  rewrite <- (room_iff block_size_bits) in Hroom by done.
  destruct (cacheProbe_spec _ e c a He Hwf Hl Hv Hroom)
    as (c3 & v3 & p & row & acc & w & Hp' & Hs & _ & _ & _ & Hga & Hgv & _ & _ & Hents).
  rewrite Hp in Hp'. injection Hp' as <- <-. apply lru_getVictim_inv in Hgv as [Ho _].
  pose proof Hs as (_ & Hm & Hrd & _). eapply same_clocks_lru; [exact Hi | done | done | exact Ho |].
  intros s w' q en' Hsl Hq. destruct (wf_slot _ c Hwf _ _ _ Hsl) as (en & Hen & _). exists en. split; [done |].
  destruct (ga_entries _ _ _ _ _ Hga q en Hen) as (en2 & Hen2 & Hsame). rewrite Hents in Hq.
  assert (en2 = en') as -> by congruence. apply Hsame.
Qed.

Lemma allocate_returns block_size_bits e (c c' : LruCache) a p q :
  allocate block_size_bits e c a p = Ok (c', q) -> q = p.
Proof.
  unfold allocate. intros Ha. inv_res.
  match type of Ha with (if ?b then _ else _) = _ => destruct b; by simplify_eq end.
Qed.

Lemma run_lru block_size_bits e (c c' : LruCache) o r :
  env_ok e -> lru_inv c -> cache_wf block_size_bits c -> op_valid block_size_bits c o ->
  run block_size_bits e c o = Ok (c', r) -> lru_inv c'.
Proof.
  intros He Hi Hwf Hval Hr. pose proof (access_inv block_size_bits e c c' o r Hr) as Hacc.
  assert (Huse : (c' = c \/ exists s w, use_line e c s w = Ok c') -> lru_inv c').
  { intros [->|(s & w & Hu)]; [done |]. destruct (use_line_slot e c c' s w Hu) as [p Hp].
    by eapply use_line_lru. }
  destruct o; try (by apply Huse); cbn [run] in Hr; inv_res; simplify_eq/=.
  - destruct a as [c1 q]. cbn in *. eapply allocate_lru; [done | done | done | exact Hval |].
    rewrite E. do 2 f_equal. by eapply allocate_returns.
  - by eapply deallocate_lru.
  - destruct a as [c1 v]. by eapply probe_lru; [| | | apply Hval |].
  - unfold setLocked in E. inv_res. eapply upd_entry_lru; [| exact Hi | exact E]. done.
  - unfold clearLocked in E. inv_res. eapply upd_entry_lru; [| exact Hi | exact E]. done.
Qed.

(** ** Initialisation: consecutive handles *)

Lemma lru_instantiateEntries n : forall (s s' : Policy LRURP) l,
  instantiateEntries n s = Ok (s', l) ->
  l = seqZ (Z.of_nat (length (objs s))) (Z.of_nat n) /\
  length (objs s') = (length (objs s) + n)%nat.
Proof.
  induction n as [|n IH]; intros s s' l Hi; cbn [instantiateEntries] in Hi.
  - simplify_eq. cbn. split; [done | lia].
  - cbn [instantiateEntry Policy_base ep_new LRURP_policy] in Hi. inv_res. simplify_eq/=.
    destruct a0 as [s1 l1]. apply IH in E0 as [-> Hlen]. cbn in Hlen |- *. rewrite length_app in *. cbn in *.
    split; [| lia]. rewrite (seqZ_cons _ (Z.of_nat (S n))) by lia. f_equal. f_equal; lia.
Qed.

Lemma lru_instantiate_sets n assoc (s s' : Policy LRURP) rows :
  0 <= n -> 0 < assoc -> instantiate_sets n assoc s = Ok (s', rows) ->
  forall i row, vget rows i = Ok row -> row = seqZ (Z.of_nat (length (objs s)) + i * assoc) assoc.
Proof.
  intros Hn Ha Hi. unfold instantiate_sets in Hi.
  eapply (foldM_inv (fun acc : Policy LRURP * list (list Z) =>
    Z.of_nat (length (objs acc.1)) = Z.of_nat (length (objs s)) + Z.of_nat (length acc.2) * assoc /\
    forall i row, vget acc.2 i = Ok row -> row = seqZ (Z.of_nat (length (objs s)) + i * assoc) assoc)) in Hi.
  - apply Hi.
  - split; [cbn; lia |]. intros i row [_ Hr]%vget_Ok. cbn in Hr. by rewrite lookup_nil in Hr.
  - intros [st acc] x acc' _ [Hlen Hrows] Hstep. inv_res. destruct a as [s1 l]. simplify_eq/=.
    apply lru_instantiateEntries in E as [-> Hlen']. cbn [ReplData LRURP_policy] in *. rewrite length_app. cbn [length]. split; [nia |].
    intros i row [Hi0 [Hr|[Hge Hr]]%lookup_app_Some]%vget_Ok; [apply Hrows; by apply vget_Ok |].
    apply list_lookup_singleton_Some in Hr as [Hz <-].
    replace i with (Z.of_nat (length acc)) by lia. rewrite Hlen. f_equal. lia.
Qed.

Lemma init_lru p bytes num_sets policy heap (c : LruCache) :
  params_ok p bytes num_sets policy -> init bytes (CacheMemory_ctor p policy heap) = Ok c -> lru_inv c.
Proof.
  intros Hp Hi. pose proof (po_assoc _ _ _ _ Hp) as Ha. unfold init in Hi.
  set (c00 := CacheMemory_ctor p policy heap) in Hi.
  set (c0 := if m_block_size c00 =? 0 then c00 ⟨ m_block_size := i32 bytes ⟩ else c00) in Hi.
  assert (Hc0 : m_cache_assoc c0 = p_assoc p) by (subst c0; by case_match).
  cbv zeta in Hi. inv_res. destruct a4 as [st rows]. cbn [fst snd] in Hi. b2p.
  pose proof (lru_instantiate_sets a0 (m_cache_assoc c0) _ st rows ltac:(lia) ltac:(lia) E4) as Hrows.
  subst c. constructor.
  - unfold handle. cbn [replacement_data setf]. intros s w s' w' d H1 H2. inv_res.
    pose proof (Hrows _ _ E5) as ->. pose proof (Hrows _ _ E6) as ->.
    apply vget_Ok in H1 as [Hw1 [-> Hl1]%lookup_seqZ], H2 as [Hw2 [Hd Hl2]%lookup_seqZ].
    generalize dependent (m_cache_assoc c0). intros n _ _ _ Hl1 Hl2 Hd.
    destruct (Z.lt_trichotomy s s') as [|[->|]]; [nia | lia | nia].
  - intros s w q en d Hs. by eapply slot_empty in Hs; [| reflexivity].
Qed.

Lemma reachable_lru block_size_bits (c : LruCache) : reachable block_size_bits c -> lru_inv c.
Proof.
  induction 1 as [p bytes n policy heap c Hp Hi|e c o c' r Hr IH He Hval Hrun|e c a p c' Hr IH He Hv Hrun
    |c p en Hr IH Hp|c p perm c' Hr IH Hp Hrun|e c t a c' Hr IH Hrun|e c t a c' b Hr IH Hrun];
    try (pose proof (reachable_cache_wf block_size_bits c Hr) as Hwf).
  - by eapply init_lru.
  - by eapply run_lru.
  - unfold setMRU_entry in Hrun. inv_res. destruct (use_line_slot _ _ _ _ _ Hrun) as [q Hq].
    by eapply use_line_lru.
  - eapply same_clocks_lru; [exact IH | done..|]. intros s w q en' Hs Hq. cbn [entries setf] in Hq.
    destruct (wf_slot _ c Hwf _ _ _ Hs) as (enq & Henq & _).
    apply lookup_insert_Some in Hq as [[-> _]|[_ Hq]]; [congruence | eauto].
  - unfold change_permission in Hrun. cbn [deref_entry] in Hrun.
    destruct (entries c !! p) as [en|] eqn:He; [| done]. cbn in Hrun. injection Hrun as <-.
    eapply same_clocks_lru; [exact IH | done..|]. intros s w q en' Hs Hq. cbn [entries setf] in Hq.
    apply lookup_insert_Some in Hq as [[<- <-]|[_ Hq]]; [| eauto]. exists en. split; [done |].
    unfold changePermission. by case_match.
  - unfold recordRequestType, reserve_data, reserve_tag in Hrun.
    destruct t, (m_resource_stalls c); inv_res; subst; cbn in *; inv_res; subst;
      (eapply same_clocks_lru; [exact IH | done..|]; eauto).
  - unfold checkResourceAvailable in Hrun. destruct (m_resource_stalls c); cbn [negb] in Hrun.
    + destruct t; inv_res; try done; match goal with x : bool |- _ => destruct x end; inv_res; simplify_eq;
        (eapply same_clocks_lru; [exact IH | done..|]; eauto).
    + by simplify_eq.
Qed.

(** ** The victim *)

(** The time stamp [getVictim] reads for the candidate of way [i]. *)
Lemma candidate_tick (c : LruCache) s row acc (i : nat) v p en :
  lru_inv c -> vget (replacement_data c) s = Ok row ->
  gathered c s row (m_cache_assoc c) acc -> acc.2 !! i = Some v ->
  slot c s (Z.of_nat i) = Ok (Some p) -> entries c !! p = Some en ->
  data_of (ticks c) v = Ok {| lastTouchTick := getLastAccess en |}.
Proof.
  intros Hi Hrow Hga Hv Hs He. destruct (ga_cands _ _ _ _ _ Hga i v Hv) as [_ Hd].
  unfold data_of. eapply (lru_ticks c Hi s (Z.of_nat i) p en); [done | done |].
  unfold handle. rewrite Hrow. rsimpl. by apply vget_nat.
Qed.

(** C13.  With the LRU policy, in every reachable cache, the line
    [cacheProbe] names for eviction is a resident line of the probed set, and
    no line of that set was accessed longer ago. *)
Theorem lru_evicts_oldest (block_size_bits : Z) (e : Env) (c c' : LruCache) (address victim : Z) :
  env_ok e -> reachable block_size_bits c -> is_line block_size_bits address = true ->
  cacheProbe block_size_bits e c address = Ok (c', victim) ->
  exists p en, lookup_line block_size_bits c victim = Ok (Some p) /\ entries c !! p = Some en /\
    set_of c victim = set_of c address /\
    forall x q enx, is_line block_size_bits x = true ->
      lookup_line block_size_bits c x = Ok (Some q) -> entries c !! q = Some enx ->
      set_of c x = set_of c address -> getLastAccess en <= getLastAccess enx.
Proof.
  intros He Hreach Hl Hp. pose proof (reachable_cache_wf block_size_bits c Hreach) as Hwf.
  pose proof (reachable_lru block_size_bits c Hreach) as Hi.
  destruct (run_simulates block_size_bits e c (OpProbe address) He Hwf)
    as [(c2 & r & Hr & _ & l & Hstep & _)|[Hr _]]; [by split | | cbn [run] in Hr; by rewrite Hp in Hr].
  inversion Hstep as [| | | | |a' v' Hv Hroom _ _| | | | | |]; subst. clear Hr.
  rewrite <- (room_iff block_size_bits) in Hroom by done.
  destruct (cacheProbe_spec _ e c address He Hwf Hl Hv Hroom)
    as (c3 & v3 & p & row & acc & w & Hp' & Hsame & Hview & Hset & Hrow & Hga & Hgv & Hw & Hs & _).
  rewrite Hp in Hp'. injection Hp' as <- <-. apply lru_getVictim_inv in Hgv as [_ Hgv].
  destruct (wf_repl _ c Hwf _ row Hrow) as [Hlen Hrp].
  pose proof (gathered_handles c _ row acc Hlen Hga) as Hmap.
  assert (Hread : readable (ticks c) acc.2).
  { eapply holds_data_readable. rewrite Hmap. apply Hrp. }
  destruct (search_victim_spec (fun a b => lastTouchTick a <? lastTouchTick b)) with (objs := ticks c)
    (cands := acc.2) as (w' & Hsv & _ & i & dv & Hiw & Hdv & Hbest); [intros; lia.. | | done |].
  { intros Hnil. rewrite Hnil in Hw. by apply elem_of_nil in Hw. }
  assert (w' = w) as -> by (unfold LRURP_getVictim in Hgv; unfold ticks in Hsv; congruence).
  destruct (ga_cands _ _ _ _ _ Hga i w Hiw) as [Hway _]. rewrite Hway in Hs.
  destruct (wf_slot _ c Hwf _ _ _ Hs) as (en & Hen & _).
  pose proof (view_line _ c _ _ Hwf Hview) as Hlv. exists p, en. rewrite lookup_line_view by done.
  split_and!; [by rewrite Hview | done | done |].
  intros x q enx Hx Hlx Hex Hsx. rewrite lookup_line_view in Hlx by done. injection Hlx as Hlx.
  destruct (view_Some _ c x q Hwf Hlx) as (wx & en' & _ & Hsl & _). rewrite Hsx in Hsl.
  pose proof (slot_range _ c _ _ _ Hwf Hsl) as [_ Hwx].
  destruct (lookup_lt_is_Some_2 acc.2 (Z.to_nat wx)) as [vx Hvx].
  { pose proof (ga_length _ _ _ _ _ Hga). lia. }
  pose proof (candidate_tick c _ row acc i w p en Hi Hrow Hga Hiw Hs Hen) as Hd1.
  assert (Hd2 : data_of (ticks c) vx = Ok {| lastTouchTick := getLastAccess enx |}).
  { eapply (candidate_tick c _ row acc (Z.to_nat wx)); [done | done | done | done | | exact Hex].
    by rewrite Z2Nat.id by lia. }
  destruct (Hbest _ _ _ Hvx Hd2) as [Hlt _]. same_ok. cbn in Hlt. b2p. done.
Qed.

(** Two lines in a set of two ways; the older one is used again, so the other
    one is the victim. *)
Definition lru_c0 : LruCache :=
  let c := CacheMemory_ctor demo_params (Build_Policy LRURP_ctor []) ∅ in ok_or c (init 64 c).
Definition lru_add (c : LruCache) (t p a : Z) : LruCache :=
  (ok_or (c, ANone) (run 6 (demo_env t) (new_entry c p) (OpAllocate a p))).1.
Definition lru_c1 : LruCache := lru_add lru_c0 10 1 0.
Definition lru_c2 : LruCache := lru_add lru_c1 20 2 256.
Definition lru_c3 : LruCache := (ok_or (lru_c2, ANone) (run 6 (demo_env 30) lru_c2 (OpSetMRU 0))).1.

Lemma lru_demo_reachable : reachable 6 lru_c3.
Proof.
  assert (H0 : reachable 6 lru_c0).
  { eapply (reach_init _ demo_params 64 4 (Build_Policy LRURP_ctor []) ∅); [| vm_compute; reflexivity].
    constructor; try reflexivity; try (cbn; lia). split; [cbn; lia | exact I]. }
  assert (H1 : reachable 6 lru_c1).
  { eapply (reach_new_line 6 (demo_env 10) lru_c0 1 0 _ (APtr (Some 1))); [exact H0 | reflexivity | | reflexivity |].
    - apply demo_env_ok. unfold in_u64. lia.
    - vm_compute. reflexivity. }
  assert (H2 : reachable 6 lru_c2).
  { eapply (reach_new_line 6 (demo_env 20) lru_c1 2 256 _ (APtr (Some 2))); [exact H1 | reflexivity | | reflexivity |].
    - apply demo_env_ok. unfold in_u64. lia.
    - vm_compute. reflexivity. }
  eapply (reach_op 6 (demo_env 30) lru_c2 (OpSetMRU 0) _ ANone); [exact H2 | | | vm_compute; reflexivity].
  - apply demo_env_ok. unfold in_u64. lia.
  - split; [reflexivity | exact I].
Qed.

Definition lru_probe : LruCache * Z := ok_or (lru_c3, 0) (cacheProbe 6 (demo_env 40) lru_c3 512).

Example lru_probe_victim : lru_probe.2 = 256.
Proof. vm_compute. reflexivity. Qed.

Lemma lru_evicts_oldest_witness :
  exists p en, lookup_line 6 lru_c3 256 = Ok (Some p) /\ entries lru_c3 !! p = Some en /\
    forall x q enx, is_line 6 x = true -> lookup_line 6 lru_c3 x = Ok (Some q) ->
      entries lru_c3 !! q = Some enx -> set_of lru_c3 x = set_of lru_c3 512 ->
      getLastAccess en <= getLastAccess enx.
Proof.
  destruct (lru_evicts_oldest 6 (demo_env 40) lru_c3 lru_probe.1 512 256) as (p & en & H1 & H2 & _ & H3).
  - apply demo_env_ok. unfold in_u64. lia.
  - exact lru_demo_reachable.
  - reflexivity.
  - vm_compute. reflexivity.
  - exact (ex_intro _ p (ex_intro _ en (conj H1 (conj H2 H3)))).
Defined.
