(* ===== verification/DataBlock.v ===== *)
(** * Data blocks and write masks

    Models [mem/ruby/common/DataBlock.{hh,cc}] (the bytes of a cache line) and
    [mem/ruby/common/WriteMask.hh] (which of them were written).  A block is
    the vector of its bytes; [block_size] is [RubySystem::getBlockSizeBytes()].
    A block that only borrows its bytes ([assign]) is not modelled: blocks are
    values.  The atomic operation of a mask is a function the requester
    supplies: a width and what it makes of that many bytes. *)
From S2P Require Import Prelude.

Abbreviation datablock := (list Z).

(** [memcpy(&l[offset], src, len)] with both ranges inside their arrays. *)
Definition copy_bytes (l : list Z) (offset : Z) (src : list Z) : res (list Z) :=
  if decide (0 <= offset /\ offset + Z.of_nat (length src) <= Z.of_nat (length l))
  then Ok (take (Z.to_nat offset) l ++ src ++ drop (Z.to_nat offset + length src) l)
  else Err EOutOfRange.

(** The [len] bytes that start at [offset]. *)
Definition bytes_at (l : list Z) (offset len : Z) : res (list Z) :=
  if decide (0 <= offset /\ 0 <= len /\ offset + len <= Z.of_nat (length l))
  then Ok (take (Z.to_nat len) (drop (Z.to_nat offset) l))
  else Err EOutOfRange.

(** ** [WriteMask] *)

Record AtomicOp := { op_width : Z; op_apply : list Z -> list Z }.

Record WriteMask := {
  mSize : Z;
  mMask : list bool;
  mAtomic : bool;
  mAtomicOp : list (Z * AtomicOp)
}.

#[export] Instance WriteMask_eta : Eta WriteMask := {| eta := fun m =>
  {| mSize := mSize m; mMask := mMask m; mAtomic := mAtomic m; mAtomicOp := mAtomicOp m |} |}.

Definition WriteMask_size_ctor (size : Z) : WriteMask :=
  {| mSize := size; mMask := replicate (Z.to_nat size) false; mAtomic := false; mAtomicOp := [] |}.
Definition WriteMask_mask_ctor (size : Z) (mask : list bool) : WriteMask :=
  {| mSize := size; mMask := mask; mAtomic := false; mAtomicOp := [] |}.
Definition WriteMask_atomic_ctor (size : Z) (mask : list bool) (atomicOp : list (Z * AtomicOp)) : WriteMask :=
  {| mSize := size; mMask := mask; mAtomic := true; mAtomicOp := atomicOp |}.

Definition WriteMask_clear (m : WriteMask) : WriteMask := m ⟨ mMask := replicate (Z.to_nat (mSize m)) false ⟩.

Definition WriteMask_test (m : WriteMask) (offset : Z) : res bool :=
  _ ← cassert (offset <? mSize m); vget (mMask m) offset.

Definition setMask (m : WriteMask) (offset len : Z) : res WriteMask :=
  _ ← cassert (offset + len <=? mSize m);
  mask ← foldM (fun mask i => vset mask (offset + i) true) (upto len) (mMask m);
  Ok (m ⟨ mMask := mask ⟩).

Definition fillMask (m : WriteMask) : res WriteMask :=
  mask ← foldM (fun mask i => vset mask i true) (upto (mSize m)) (mMask m);
  Ok (m ⟨ mMask := mask ⟩).

(** [at] throws outside the vector. *)
Definition mask_at (m : WriteMask) (i : Z) : res bool :=
  match vget (mMask m) i with Ok b => Ok b | Err _ => Err EThrow end.

Definition getMask (m : WriteMask) (offset len : Z) : res bool :=
  _ ← cassert (offset + len <=? mSize m);
  foldM (fun (tmp : bool) i => b ← mask_at m (offset + i); Ok (tmp && b)%bool) (upto len) true.

Definition isOverlap (m readMask : WriteMask) : res bool :=
  _ ← cassert (mSize m =? mSize readMask);
  foldM (fun (tmp : bool) i => r ← mask_at readMask i;
    if (r : bool) then b ← mask_at m i; Ok (tmp || b)%bool else Ok tmp) (upto (mSize m)) false.

Definition cmpMask (m readMask : WriteMask) : res bool :=
  _ ← cassert (mSize m =? mSize readMask);
  foldM (fun (tmp : bool) i => r ← mask_at readMask i;
    if (r : bool) then b ← mask_at m i; Ok (tmp && b)%bool else Ok tmp) (upto (mSize m)) true.

Definition WriteMask_isEmpty (m : WriteMask) : res bool :=
  r ← foldM_brk (fun _ i => b ← mask_at m i; Ok (b, tt)) (upto (mSize m)) tt; Ok (negb r.1).

Definition WriteMask_isFull (m : WriteMask) : res bool :=
  r ← foldM_brk (fun _ i => b ← mask_at m i; Ok (negb b, tt)) (upto (mSize m)) tt; Ok (negb r.1).

Definition orMask (m writeMask : WriteMask) : res WriteMask :=
  _ ← cassert (mSize m =? mSize writeMask);
  mask ← foldM (fun mask i =>
    a ← match vget mask i with Ok b => Ok b | Err _ => Err EThrow end;
    b ← mask_at writeMask i;
    vset mask i (a || b)%bool) (upto (mSize m)) (mMask m);
  let m := m ⟨ mMask := mask ⟩ in
  Ok (if mAtomic writeMask then m ⟨ mAtomic := true ⟩ ⟨ mAtomicOp := mAtomicOp writeMask ⟩ else m).

(** The operations work on the bytes in place, one after the other. *)
Definition performAtomic (m : WriteMask) (p : list Z) : res (list Z) :=
  foldM (fun p (op : Z * AtomicOp) =>
    old ← bytes_at p op.1 (op_width op.2);
    copy_bytes p op.1 (op_apply op.2 old)) (mAtomicOp m) p.

(** ** [DataBlock] *)
Section DataBlock.
Context (block_size : Z).

Definition DataBlock_alloc : datablock := replicate (Z.to_nat block_size) 0.
Definition DataBlock_clear (d : datablock) : datablock := replicate (Z.to_nat block_size) 0.

Definition DataBlock_equal (d obj : datablock) : bool := bool_decide (take (Z.to_nat block_size) d = take (Z.to_nat block_size) obj).

Definition getByte (d : datablock) (whichByte : Z) : res Z := vget d whichByte.
Definition setByte (d : datablock) (whichByte data : Z) : res datablock := vset d whichByte data.

Definition getData (d : datablock) (offset len : Z) : res (list Z) :=
  _ ← cassert (offset + len <=? block_size); bytes_at d offset len.

(** [data] are the [len] bytes the pointer leads to. *)
Definition setData (d : datablock) (data : list Z) (offset : Z) : res datablock :=
  _ ← cassert (offset + Z.of_nat (length data) <=? block_size); copy_bytes d offset data.

Definition copyPartial_range (d dblk : datablock) (offset len : Z) : res datablock :=
  src ← bytes_at dblk offset len; setData d src offset.

Definition copyPartial (d dblk : datablock) (mask : WriteMask) : res datablock :=
  foldM (fun d i =>
    b ← getMask mask i 1;
    if (b : bool) then x ← vget dblk i; vset d i x else Ok d) (upto block_size) d.

Definition atomicPartial (d dblk : datablock) (mask : WriteMask) : res datablock :=
  d ← foldM (fun d i => x ← vget dblk i; vset d i x) (upto block_size) d;
  performAtomic mask d.
End DataBlock.

(** ** Bytes in and out *)

Definition block_ok (block_size : Z) (d : datablock) : Prop := Z.of_nat (length d) = block_size.

Lemma copy_bytes_length l o src l' : copy_bytes l o src = Ok l' -> length l' = length l.
Proof.
  unfold copy_bytes. case_decide; [| done]. intros [= <-]. rewrite !length_app, length_take, length_drop. lia.
Qed.

Lemma setData_ok bs d data offset :
  block_ok bs d -> 0 <= offset -> offset + Z.of_nat (length data) <= bs ->
  exists d', setData bs d data offset = Ok d' /\ block_ok bs d' /\
    (forall i, vget d' i = if decide (offset <= i < offset + Z.of_nat (length data)) then vget data (i - offset) else vget d i).
Proof.
  intros Hd Ho Hl. unfold setData. rewrite (proj2 (Z.leb_le _ _) Hl). rsimpl. unfold block_ok in *.
  destruct (copy_bytes d offset data) as [d'|] eqn:E.
  2: { unfold copy_bytes in E. by rewrite decide_True in E by lia. }
  exists d'. split; [done |]. split; [by rewrite (copy_bytes_length _ _ _ _ E) |].
  unfold copy_bytes in E. case_decide; [| done]. injection E as <-. intros i. unfold vget.
  destruct (decide (0 <= i)) as [Hi|Hi].
  2: { by rewrite decide_False by lia. }
  case_decide as Hr.
  - rewrite (decide_True _ _ (ltac:(lia) : 0 <= i - offset)). rewrite lookup_app_r, length_take by (rewrite length_take; lia).
    rewrite lookup_app_l by lia. replace (Z.to_nat i - (Z.to_nat offset `min` length d))%nat with (Z.to_nat (i - offset)) by lia. done.
  - destruct (decide (i < offset)).
    + rewrite lookup_app_l, lookup_take_lt by (rewrite ?length_take; lia). done.
    + rewrite lookup_app_r, length_take, lookup_app_r, lookup_drop by (rewrite ?length_take; lia).
      replace (Z.to_nat offset + length data + (Z.to_nat i - Z.to_nat offset `min` length d - length data))%nat with (Z.to_nat i) by lia.
      done.
Qed.

(** ** Masks as sets of byte positions *)

Definition mask_ok (block_size : Z) (m : WriteMask) : Prop := mSize m = block_size /\ Z.of_nat (length (mMask m)) = block_size.
Definition masked (m : WriteMask) (i : Z) : bool := match vget (mMask m) i with Ok b => b | Err _ => false end.

Lemma mask_at_ok bs m i : mask_ok bs m -> 0 <= i < bs -> vget (mMask m) i = Ok (masked m i) /\ mask_at m i = Ok (masked m i).
Proof.
  intros [_ Hl] Hi. unfold mask_at, masked. destruct (vget_is_ok (mMask m) i) as [b ->]; [lia |]. done.
Qed.

Lemma getMask_one bs m i : mask_ok bs m -> 0 <= i < bs -> getMask m i 1 = Ok (masked m i).
Proof.
  intros Hm Hi. unfold getMask. rewrite (proj1 Hm), (proj2 (Z.leb_le _ _)) by lia. rsimpl. cbn [upto seqZ foldM Z.to_nat].
  change (upto 1) with [0]. cbn [foldM]. rewrite Z.add_0_r, (proj2 (mask_at_ok bs m i Hm Hi)). done.
Qed.

Lemma copyPartial_ok bs d src m :
  0 <= bs -> block_ok bs d -> block_ok bs src -> mask_ok bs m ->
  exists d', copyPartial bs d src m = Ok d' /\ block_ok bs d' /\
    forall i, 0 <= i < bs -> vget d' i = if masked m i then vget src i else vget d i.
Proof.
  intros Hbs Hd Hs Hm. unfold copyPartial, block_ok in *.
  match goal with |- context [foldM ?f _ d] =>
    destruct (foldM_upto f (fun k x => Z.of_nat (length x) = bs /\
      forall i, 0 <= i < bs -> vget x i = if (masked m i && (i <? k))%bool then vget src i else vget d i) bs d) as (x & -> & Hx & Hv) end.
  - done.
  - split; [done |]. intros i Hi. rewrite (proj2 (Z.ltb_ge i 0)), andb_false_r by lia. done.
  - intros i x Hi [Hx Hv]. rewrite (getMask_one bs) by done. rsimpl. destruct (masked m i) eqn:Em.
    + destruct (vget_is_ok src i) as [b Hb]; [lia |]. rewrite Hb. rsimpl.
      destruct (vset_is_ok x i b) as [x' Hx']; [lia |]. exists x'. split; [done |].
      split; [by rewrite (vset_length _ _ _ _ Hx') |]. intros j Hj. destruct (decide (j = i)) as [->|Hne].
      * rewrite (vset_get_eq _ _ _ _ Hx'), Em, (proj2 (Z.ltb_lt i (i + 1))) by lia. done.
      * rewrite (vset_get_ne _ _ _ _ _ Hx'), Hv by done. replace (j <? i + 1) with (j <? i) by lia. done.
    + exists x. split; [done |]. split; [done |]. intros j Hj. rewrite Hv by done.
      destruct (decide (j = i)) as [->|Hne]; [by rewrite Em |].
      replace (j <? i + 1) with (j <? i) by lia. done.
  - exists x. split_and!; [done | done |]. intros i Hi. rewrite Hv by done.
    by rewrite (proj2 (Z.ltb_lt i bs)), andb_true_r by lia.
Qed.

Lemma orMask_ok bs m w :
  0 <= bs -> mask_ok bs m -> mask_ok bs w ->
  exists m', orMask m w = Ok m' /\ mask_ok bs m' /\ forall i, 0 <= i < bs -> masked m' i = (masked m i || masked w i)%bool.
Proof.
  intros Hbs Hm Hw. unfold orMask. rewrite (proj1 Hm), (proj1 Hw), Z.eqb_refl. rsimpl.
  match goal with |- context [foldM ?f _ (mMask m)] =>
    destruct (foldM_upto f (fun k x => Z.of_nat (length x) = bs /\
      forall i, 0 <= i < bs -> vget x i = Ok (masked m i || (masked w i && (i <? k)))%bool) bs (mMask m)) as (x & -> & Hx & Hv) end.
  - done.
  - split; [apply Hm |]. intros i Hi. rewrite (proj2 (Z.ltb_ge i 0)), andb_false_r, orb_false_r by lia.
    by apply (mask_at_ok bs m i Hm Hi).
  - intros i x Hi [Hx Hv]. rewrite (Hv i Hi). rsimpl. rewrite (proj2 (mask_at_ok bs w i Hw Hi)). rsimpl.
    destruct (vset_is_ok x i (masked m i || masked w i && (i <? i) || masked w i)%bool) as [x' Hx']; [lia |]. rewrite Hx'.
    exists x'. split; [done |]. split; [by rewrite (vset_length _ _ _ _ Hx') |]. intros j Hj. destruct (decide (j = i)) as [->|Hne].
    + rewrite (vset_get_eq _ _ _ _ Hx'), Z.ltb_irrefl, (proj2 (Z.ltb_lt i (i + 1))) by lia.
      by rewrite andb_false_r, orb_false_r, andb_true_r.
    + rewrite (vset_get_ne _ _ _ _ _ Hx'), Hv by done. replace (j <? i + 1) with (j <? i) by lia. done.
  - rsimpl. eexists. split; [done |]. split.
    + destruct (mAtomic w); split; cbn; [apply Hm | done | apply Hm | done].
    + intros i Hi. unfold masked at 1. destruct (mAtomic w); cbn [mMask setf]; cbn; rewrite (Hv i Hi);
        by rewrite (proj2 (Z.ltb_lt i bs)), andb_true_r by lia.
Qed.

(** Write masks merge: copying a block under a mask replaces exactly the
    bytes of the mask, and copying it first under one mask and then under
    another is copying it once under their union ([orMask]); bytes stored with
    [setData] are the bytes [getData] reads back. *)
Theorem masked_writes_merge (bs : Z) (d src : datablock) (a b : WriteMask) (data : list Z) (offset : Z) :
  0 <= bs -> block_ok bs d -> block_ok bs src -> mask_ok bs a -> mask_ok bs b ->
  0 <= offset -> offset + Z.of_nat (length data) <= bs ->
  exists d1 d2 ab d3, copyPartial bs d src a = Ok d1 /\ copyPartial bs d1 src b = Ok d2 /\ orMask a b = Ok ab /\
    copyPartial bs d src ab = Ok d2 /\ block_ok bs d2 /\
    (forall i, 0 <= i < bs -> vget d2 i = if (masked a i || masked b i)%bool then vget src i else vget d i) /\
    setData bs d data offset = Ok d3 /\ getData bs d3 offset (Z.of_nat (length data)) = Ok data.
Proof.
  intros Hbs Hd Hs Ha Hb Ho Hl.
  destruct (copyPartial_ok bs d src a Hbs Hd Hs Ha) as (d1 & E1 & Hd1 & Hv1).
  destruct (copyPartial_ok bs d1 src b Hbs Hd1 Hs Hb) as (d2 & E2 & Hd2 & Hv2).
  destruct (orMask_ok bs a b Hbs Ha Hb) as (ab & E3 & Hab & Hv3).
  destruct (copyPartial_ok bs d src ab Hbs Hd Hs Hab) as (d4 & E4 & Hd4 & Hv4).
  destruct (setData_ok bs d data offset Hd Ho Hl) as (d3 & E5 & Hd3 & Hv5).
  assert (forall i, 0 <= i < bs -> vget d2 i = if (masked a i || masked b i)%bool then vget src i else vget d i) as Hboth.
  { intros i Hi. rewrite Hv2, Hv1 by done. by destruct (masked a i), (masked b i). }
  assert (d4 = d2) as ->.
  { apply list_eq. intros n. destruct (decide (n < length d2)%nat) as [Hn|Hn].
    - assert (vget d4 (Z.of_nat n) = vget d2 (Z.of_nat n)) as Hg.
      { unfold block_ok in *. rewrite Hv4, Hboth, Hv3 by lia. done. }
      destruct (lookup_lt_is_Some_2 d2 n Hn) as [x Hx]. rewrite (vget_nat _ _ _ Hx) in Hg. apply vget_Ok in Hg as [_ Hg].
      rewrite Nat2Z.id in Hg. congruence.
    - unfold block_ok in *. rewrite !lookup_ge_None_2 by lia. done. }
  exists d1, d2, ab, d3. split_and!; try done.
  unfold getData. rewrite (proj2 (Z.leb_le _ _) Hl). rsimpl. unfold bytes_at, block_ok in *. rewrite decide_True by lia.
  f_equal. rewrite Nat2Z.id. apply list_eq. intros n. destruct (decide (n < length data)%nat) as [Hn|Hn].
  - rewrite lookup_take_lt, lookup_drop by done. pose proof (Hv5 (offset + Z.of_nat n)) as Hg. rewrite decide_True in Hg by lia.
    replace (offset + Z.of_nat n - offset) with (Z.of_nat n) in Hg by lia.
    destruct (lookup_lt_is_Some_2 data n Hn) as [x Hx]. rewrite (vget_nat _ _ _ Hx) in Hg. apply vget_Ok in Hg as [_ Hg].
    replace (Z.to_nat (offset + Z.of_nat n)) with (Z.to_nat offset + n)%nat in Hg by lia. congruence.
  - rewrite lookup_take_ge, lookup_ge_None_2 by lia. done.
Qed.

Lemma masked_writes_merge_witness :
  exists d1 d2 ab d3, copyPartial 4 [0; 0; 0; 0] [1; 2; 3; 4] (WriteMask_mask_ctor 4 [true; false; false; true]) = Ok d1 /\
    copyPartial 4 d1 [1; 2; 3; 4] (WriteMask_mask_ctor 4 [false; true; false; true]) = Ok d2 /\
    orMask (WriteMask_mask_ctor 4 [true; false; false; true]) (WriteMask_mask_ctor 4 [false; true; false; true]) = Ok ab /\
    copyPartial 4 [0; 0; 0; 0] [1; 2; 3; 4] ab = Ok d2 /\
    setData 4 [0; 0; 0; 0] [8; 9] 1 = Ok d3 /\ getData 4 d3 1 2 = Ok [8; 9].
Proof.
  destruct (masked_writes_merge 4 [0; 0; 0; 0] [1; 2; 3; 4] (WriteMask_mask_ctor 4 [true; false; false; true])
    (WriteMask_mask_ctor 4 [false; true; false; true]) [8; 9] 1) as (d1 & d2 & ab & d3 & E1 & E2 & E3 & E4 & _ & _ & E5 & E6);
    [lia | done | done | by split | by split | lia | cbn; lia |].
  exists d1, d2, ab, d3. by split_and!.
Defined.
