(* ===== verification/Sequencer.v ===== *)
(** * The sequencer

    Models [mem/ruby/system/Sequencer.{hh,cc}]: the port of a processor into
    the coherence protocol.  It keeps, for every cache line, the list of the
    requests made while one Ruby request for the line is under way, completes
    them when the protocol calls back, and keeps the load-linked /
    store-conditional monitor in the entries of the data cache.

    Packets are values: the sequencer is the only one that changes a packet
    while it is in the table.  The attributes of a packet ([isWrite] and so on)
    are fields.  While a request is being completed the processor may already
    make new requests (retries, the next recorded request while the caches are
    warmed up): [reenter] lists, completion by completion, the packets it makes
    requests with.  What leaves the sequencer is a list of events, in order.
    The data cache is reached through the interface [LineLocks]; the latency of
    the mandatory queue and [Packet::trySatisfyFunctional] are parameters.
    Statistics, draining and the Ruby tester are not modelled. *)
From S2P Require Import Prelude Common StdHeap NetDest MessageBuffer Replacement CacheMemory DataBlock.

(** ** Interface to the data cache

    [lock_of d a]: the monitor of the entry that holds line [a] ([m_locked]),
    [None] if [lookup] finds none; [set_lock] writes it. *)
Class LineLocks (D : Type) := {
  lock_of : D -> Z -> res (option Z);
  set_lock : D -> Z -> Z -> res D
}.

(** ** Packets and requests *)

Record Packet := {
  pkt_id : Z;                     (** which packet it is *)
  pkt_addr : Z;
  pkt_data : list Z;              (** [getSize()] bytes *)
  isLLSC : bool; isWrite : bool; isRead : bool; isFlush : bool;
  isSwap : bool; isLockedRMW : bool; isInstFetch : bool;
  storeCheck : bool;              (** the [X86ISA::StoreCheck] flag *)
  pkt_extraData : option Z
}.

#[export] Instance Packet_eta : Eta Packet := {| eta := fun p =>
  {| pkt_id := pkt_id p; pkt_addr := pkt_addr p; pkt_data := pkt_data p; isLLSC := isLLSC p; isWrite := isWrite p;
     isRead := isRead p; isFlush := isFlush p; isSwap := isSwap p; isLockedRMW := isLockedRMW p;
     isInstFetch := isInstFetch p; storeCheck := storeCheck p; pkt_extraData := pkt_extraData p |} |}.

Definition pkt_size (p : Packet) : Z := Z.of_nat (length (pkt_data p)).

Record SequencerRequest := {
  pkt : Packet;
  m_type : RubyRequestType;
  m_second_type : RubyRequestType;
  issue_time : Z
}.

#[export] Instance SequencerRequest_eta : Eta SequencerRequest := {| eta := fun r =>
  {| pkt := pkt r; m_type := m_type r; m_second_type := m_second_type r; issue_time := issue_time r |} |}.

Inductive RequestStatus :=
  | RequestStatus_Ready | RequestStatus_Issued | RequestStatus_BufferFull | RequestStatus_Aliased | RequestStatus_NULL.

#[export] Instance RequestStatus_eq_dec : EqDecision RequestStatus.
Proof. solve_decision. Defined.

(** What leaves the sequencer: responses, packets deleted while the caches are
    warmed up or cooled down, requests for the next recorded request, Ruby
    requests and what the mandatory queue asks for, the answers to requests made
    during a completion, the deadlock check, evictions. *)
Inductive sq_event :=
  | Respond (p : Packet)
  | Deleted (p : Packet)
  | EnqueueNextFetchRequest
  | EnqueueNextFlushRequest
  | IssueRuby (p : Packet) (type : RubyRequestType)
  | FromQueue (ev : mb_event)
  | Answered (p : Packet) (status : RequestStatus)
  | ScheduleDeadlockCheck (cycles : Z)
  | Evicted (address : Z).

(** ** State *)

Record Sequencer (D : Type) := {
  sq_version : Z;
  m_max_outstanding_requests : Z;
  m_deadlock_threshold : Z;
  m_dataCache : D;
  m_RequestTable : gmap Z (list SequencerRequest);
  m_outstanding_count : Z;
  deadlock_scheduled : bool;      (** [deadlockCheckEvent.scheduled()] *)
  m_block_map : gset Z;           (** the lines the controller blocks *)
  m_mandatory_q : MessageBuffer;
  sq_draws : nat
}.
Arguments sq_version {D}. Arguments m_max_outstanding_requests {D}. Arguments m_deadlock_threshold {D}.
Arguments m_dataCache {D}. Arguments m_RequestTable {D}. Arguments m_outstanding_count {D}.
Arguments deadlock_scheduled {D}. Arguments m_block_map {D}. Arguments m_mandatory_q {D}. Arguments sq_draws {D}.

#[export] Instance Sequencer_eta D : Eta (Sequencer D) := {| eta := fun s =>
  {| sq_version := sq_version s; m_max_outstanding_requests := m_max_outstanding_requests s;
     m_deadlock_threshold := m_deadlock_threshold s; m_dataCache := m_dataCache s; m_RequestTable := m_RequestTable s;
     m_outstanding_count := m_outstanding_count s; deadlock_scheduled := deadlock_scheduled s;
     m_block_map := m_block_map s; m_mandatory_q := m_mandatory_q s; sq_draws := sq_draws s |} |}.

Record sq_env := {
  sq_block_bits : Z;
  sq_block_size : Z;
  sq_period : Z;
  sq_clockEdge : Z;
  sq_curCycle : Z;
  sq_draining : bool;
  sq_warmup : bool;
  sq_cooldown : bool;
  sq_x86 : bool;                             (** [getArch() == Arch::X86ISA] *)
  sq_three_level : bool;                     (** [PROTOCOL_MESI_Three_Level] *)
  sq_latency : RubyRequestType -> Z;         (** [mandatoryQueueLatency] *)
  sq_ruby : RubySystem;
  sq_draw : nat -> Z * Z * Z
}.

Section Sequencer.
Context {D : Type} `{LineLocks D}.
Context (e : sq_env).
Implicit Types s : Sequencer D.

Definition Sequencer_ctor (version max_outstanding_requests deadlock_threshold : Z) (dcache : D) (mandatory_q : MessageBuffer)
    : res (Sequencer D) :=
  _ ← cassert (0 <? max_outstanding_requests);
  _ ← cassert (0 <? deadlock_threshold);
  Ok {| sq_version := version; m_max_outstanding_requests := max_outstanding_requests;
        m_deadlock_threshold := deadlock_threshold; m_dataCache := dcache; m_RequestTable := ∅; m_outstanding_count := 0;
        deadlock_scheduled := false; m_block_map := ∅; m_mandatory_q := mandatory_q; sq_draws := 0 |}.

Definition line_of (addr : Z) : Z := makeLineAddress (sq_block_bits e) addr.

(** *** The monitor *)

Definition write_lock (s : Sequencer D) (claddr value : Z) : res (Sequencer D) :=
  d ← set_lock (m_dataCache s) claddr value; Ok (s ⟨ m_dataCache := d ⟩).

Definition llscLoadLinked (s : Sequencer D) (claddr : Z) : res (Sequencer D) :=
  line ← lock_of (m_dataCache s) claddr;
  match line with None => Ok s | Some _ => write_lock s claddr (sq_version s) end.

Definition llscClearMonitor (s : Sequencer D) (claddr : Z) : res (Sequencer D) :=
  line ← lock_of (m_dataCache s) claddr;
  match line with
  | Some l => if l =? sq_version s then write_lock s claddr (-1) else Ok s
  | None => Ok s
  end.

Definition llscStoreConditional (s : Sequencer D) (claddr : Z) : res (Sequencer D * bool) :=
  line ← lock_of (m_dataCache s) claddr;
  match line with
  | None => Ok (s, false)
  | Some l => s' ← write_lock s claddr (-1); Ok (s', l =? sq_version s)
  end.

Definition llscCheckMonitor (s : Sequencer D) (address : Z) : res bool :=
  line ← lock_of (m_dataCache s) (line_of address);
  Ok (match line with None => false | Some l => l =? sq_version s end).

(** *** Making requests *)

(** Reads, as far as the table is concerned. *)
Definition is_load (t : RubyRequestType) : bool :=
  match t with RubyRequestType_LD | RubyRequestType_Load_Linked | RubyRequestType_IFETCH => true | _ => false end.

(** The primary and the secondary type of a packet. *)
Definition request_types (p : Packet) : res (RubyRequestType * RubyRequestType) :=
  if isLLSC p then
    if isWrite p then
      Ok (RubyRequestType_Store_Conditional, if sq_three_level e then RubyRequestType_Store_Conditional else RubyRequestType_ST)
    else _ ← cassert (isRead p); Ok (RubyRequestType_Load_Linked, RubyRequestType_LD)
  else if isLockedRMW p then
    if isWrite p then Ok (RubyRequestType_Locked_RMW_Write, RubyRequestType_ST)
    else _ ← cassert (isRead p); Ok (RubyRequestType_Locked_RMW_Read, RubyRequestType_ST)
  else if isWrite p then Ok (RubyRequestType_ST, RubyRequestType_ST)
  else if isRead p then
    if isInstFetch p then Ok (RubyRequestType_IFETCH, RubyRequestType_IFETCH)
    else if (sq_x86 e && storeCheck p)%bool then Ok (RubyRequestType_RMW_Read, RubyRequestType_ST)
    else Ok (RubyRequestType_LD, RubyRequestType_LD)
  else if isFlush p then Ok (RubyRequestType_FLUSH, RubyRequestType_FLUSH)
  else Err EPanic.

(** The message carries the packet. *)
Definition issueRequest (s : Sequencer D) (p : Packet) (secondary_type : RubyRequestType)
    : res (Sequencer D * list sq_event) :=
  let msg := Message_ctor (sq_clockEdge e) [] Request_Control (pkt_id p) in
  let latency := u64 (sq_period e * sq_latency e secondary_type) in
  _ ← cassert (0 <? latency);
  r ← enqueue (sq_ruby e) (sq_draw e (sq_draws s)) (m_mandatory_q s) msg (sq_clockEdge e) latency;
  Ok (s ⟨ m_mandatory_q := r.1 ⟩ ⟨ sq_draws := S (sq_draws s) ⟩, IssueRuby p secondary_type :: (FromQueue <$> r.2)).

Definition requests_at (s : Sequencer D) (line : Z) : list SequencerRequest :=
  match m_RequestTable s !! line with Some l => l | None => [] end.

Definition insertRequest (s : Sequencer D) (p : Packet) (primary_type secondary_type : RubyRequestType)
    : RequestStatus * Sequencer D * list sq_event :=
  let '(s, evs) :=
    if (negb (deadlock_scheduled s) && negb (sq_draining e))%bool
    then (s ⟨ deadlock_scheduled := true ⟩, [ScheduleDeadlockCheck (m_deadlock_threshold s)]) else (s, []) in
  let line_addr := line_of (pkt_addr p) in
  let seq_req_list := requests_at s line_addr ++
    [{| pkt := p; m_type := primary_type; m_second_type := secondary_type; issue_time := sq_curCycle e |}] in
  let s := s ⟨ m_RequestTable := <[line_addr := seq_req_list]> (m_RequestTable s) ⟩
             ⟨ m_outstanding_count := m_outstanding_count s + 1 ⟩ in
  ((if (1 <? length seq_req_list)%nat then RequestStatus_Aliased else RequestStatus_Ready), s, evs).

Definition makeRequest (s : Sequencer D) (p : Packet) : res (RequestStatus * Sequencer D * list sq_event) :=
  if m_max_outstanding_requests s <=? m_outstanding_count s then Ok (RequestStatus_BufferFull, s, [])
  else
    ts ← request_types p;
    if (bool_decide (line_of (pkt_addr p) ∈ m_block_map s) && negb (bool_decide (ts.1 = RubyRequestType_Locked_RMW_Write)))%bool
    then Ok (RequestStatus_Aliased, s, [])
    else
      let '(status, s, evs) := insertRequest s p ts.1 ts.2 in
      match status with
      | RequestStatus_Ready => r ← issueRequest s p ts.2; Ok (RequestStatus_Issued, r.1, evs ++ r.2)
      | RequestStatus_Aliased => Ok (RequestStatus_Issued, s, evs)
      | _ => Ok (status, s, evs)
      end.

(** *** Completing requests *)

Definition markRemoved (s : Sequencer D) : Sequencer D := s ⟨ m_outstanding_count := m_outstanding_count s - 1 ⟩.

(** Types that read the block. *)
Definition reads_block (t : RubyRequestType) : bool :=
  match t with
  | RubyRequestType_LD | RubyRequestType_IFETCH | RubyRequestType_RMW_Read | RubyRequestType_Locked_RMW_Read
  | RubyRequestType_Load_Linked => true
  | _ => false
  end.

(** What a completed request does to the block and to its packet. *)
Definition access_data (type : RubyRequestType) (llscSuccess : bool) (p : Packet) (data : datablock) : res (Packet * datablock) :=
  let store (p' : Packet) := offset ← getOffset (sq_block_bits e) (pkt_addr p);
    d ← setData (sq_block_size e) data (pkt_data p) offset; Ok (p', d) in
  let load := offset ← getOffset (sq_block_bits e) (pkt_addr p); getData (sq_block_size e) data offset (pkt_size p) in
  if sq_warmup e then store p
  else if isFlush p then Ok (p, data)
  else if reads_block type then bytes ← load; Ok (p ⟨ pkt_data := bytes ⟩, data)
  else if isSwap p then bytes ← load; store (p ⟨ pkt_data := bytes ⟩)
  else if (negb (bool_decide (type = RubyRequestType_Store_Conditional)) || llscSuccess)%bool then store p
  else Ok (p, data).

(** The requests the processor makes meanwhile. *)
Definition reentrant (st : Sequencer D * list sq_event) (p : Packet) : res (Sequencer D * list sq_event) :=
  r ← makeRequest st.1 p;
  let '(status, s, evs) := r in
  Ok (s, st.2 ++ evs ++ [Answered p status]).

Definition hitCallback (s : Sequencer D) (srequest : SequencerRequest) (data : datablock) (llscSuccess : bool)
    (again : list Packet) : res (Sequencer D * datablock * list sq_event) :=
  let p := pkt srequest in
  let type := m_type srequest in
  s ← (if bool_decide (type = RubyRequestType_Load_Linked) then llscLoadLinked s (line_of (pkt_addr p)) else Ok s);
  x ← access_data type llscSuccess p data;
  let evs := if sq_warmup e then [Deleted x.1; EnqueueNextFetchRequest]
             else if sq_cooldown e then [Deleted x.1; EnqueueNextFlushRequest]
             else [Respond x.1] in
  r ← foldM reentrant again (s, evs);
  Ok (r.1, x.2, r.2).

Definition pop_front (s : Sequencer D) (address : Z) : Sequencer D :=
  s ⟨ m_RequestTable := <[address := tail (requests_at s address)]> (m_RequestTable s) ⟩.

(** One request of [writeCallback]. *)
Definition write_one (address : Z) (ruby_request : bool) (again : list Packet) (s : Sequencer D) (data : datablock)
    (seq_req : SequencerRequest) : res (Sequencer D * datablock * list sq_event) :=
  _ ← cassert (negb (ruby_request && is_load (m_type seq_req)));
  if negb (is_load (m_type seq_req)) then
    x ← (if negb (bool_decide (m_type seq_req = RubyRequestType_Store_Conditional))
         then s ← llscClearMonitor s address; Ok (s, false, seq_req)
         else
           r ← llscStoreConditional s address;
           Ok (r.1, r.2, seq_req ⟨ pkt := pkt seq_req ⟨ pkt_extraData := Some (if (r.2 : bool) then 1 else 0) ⟩ ⟩));
    let '(s, success, seq_req) := x in
    let s := match m_type seq_req with
             | RubyRequestType_Locked_RMW_Read => s ⟨ m_block_map := {[address]} ∪ m_block_map s ⟩
             | RubyRequestType_Locked_RMW_Write => s ⟨ m_block_map := m_block_map s ∖ {[address]} ⟩
             | _ => s
             end in
    _ ← (if ruby_request then cassert (issue_time seq_req <=? sq_curCycle e) else Ok tt);
    hitCallback (markRemoved s) seq_req data success again
  else
    _ ← cassert (negb ruby_request);
    hitCallback (markRemoved s) seq_req data true again.

Fixpoint write_loop (fuel : nat) (address : Z) (ruby_request : bool) (reenter : list (list Packet)) (s : Sequencer D)
    (data : datablock) : res (Sequencer D * datablock * list sq_event) :=
  match requests_at s address with
  | [] => Ok (s, data, [])
  | seq_req :: _ =>
      match fuel with
      | O => Err EFuel
      | S fuel =>
          x ← write_one address ruby_request (hd [] reenter) s data seq_req;
          let '(s, data, evs) := x in
          r ← write_loop fuel address false (tail reenter) (pop_front s address) data;
          let '(s, data, evs') := r in
          Ok (s, data, evs ++ evs')
      end
  end.

(** Every iteration completes one request; the requests that join the list
    meanwhile are among those the processor makes. *)
Definition loop_fuel (s : Sequencer D) (address : Z) (reenter : list (list Packet)) : nat :=
  (length (requests_at s address) + length (concat reenter))%nat.

Definition erase_empty (s : Sequencer D) (address : Z) : Sequencer D :=
  match requests_at s address with [] => s ⟨ m_RequestTable := delete address (m_RequestTable s) ⟩ | _ => s end.

Definition writeCallback (address : Z) (reenter : list (list Packet)) (s : Sequencer D) (data : datablock)
    : res (Sequencer D * datablock * list sq_event) :=
  _ ← cassert (address =? line_of address);
  _ ← cassert (bool_decide (is_Some (m_RequestTable s !! address)));
  r ← write_loop (loop_fuel s address reenter) address true reenter s data;
  let '(s, data, evs) := r in
  Ok (erase_empty s address, data, evs).

Definition writeCallbackScFail (address : Z) (reenter : list (list Packet)) (s : Sequencer D) (data : datablock)
    : res (Sequencer D * datablock * list sq_event) :=
  s ← llscClearMonitor s address; writeCallback address reenter s data.

(** The first write that waits behind the reads is issued again. *)
Fixpoint read_loop (fuel : nat) (address : Z) (ruby_request : bool) (reenter : list (list Packet)) (s : Sequencer D)
    (data : datablock) : res (Sequencer D * datablock * list sq_event) :=
  match requests_at s address with
  | [] => Ok (s, data, [])
  | seq_req :: _ =>
      _ ← cassert (negb ruby_request || is_load (m_type seq_req));
      if negb (is_load (m_type seq_req)) then
        r ← issueRequest s (pkt seq_req) (m_second_type seq_req); Ok (r.1, data, r.2)
      else
        match fuel with
        | O => Err EFuel
        | S fuel =>
            _ ← (if ruby_request then cassert (issue_time seq_req <=? sq_curCycle e) else Ok tt);
            x ← hitCallback (markRemoved s) seq_req data true (hd [] reenter);
            let '(s, data, evs) := x in
            r ← read_loop fuel address false (tail reenter) (pop_front s address) data;
            let '(s, data, evs') := r in
            Ok (s, data, evs ++ evs')
        end
  end.

Definition readCallback (address : Z) (reenter : list (list Packet)) (s : Sequencer D) (data : datablock)
    : res (Sequencer D * datablock * list sq_event) :=
  _ ← cassert (address =? line_of address);
  _ ← cassert (bool_decide (is_Some (m_RequestTable s !! address)));
  r ← read_loop (loop_fuel s address reenter) address true reenter s data;
  let '(s, data, evs) := r in
  Ok (erase_empty s address, data, evs).

Definition evictionCallback (s : Sequencer D) (address : Z) : res (Sequencer D * list sq_event) :=
  s ← llscClearMonitor s address; Ok (s, [Evicted address]).

(** *** The deadlock check *)

(** [panic] when the request is too old; the subtraction throws when the
    request was issued after the current cycle. *)
Definition too_old (s : Sequencer D) (r : SequencerRequest) : res unit :=
  age ← cycles_sub (sq_curCycle e) (issue_time r);
  panic_if (negb (age <? m_deadlock_threshold s)).

Definition total_outstanding (s : Sequencer D) : Z :=
  foldr (fun kv n => Z.of_nat (length kv.2) + n) 0 (map_to_list (m_RequestTable s)).

(** The event has just fired, so it is not scheduled any more. *)
Definition Sequencer_wakeup (s : Sequencer D) : res (Sequencer D * list sq_event) :=
  let s := s ⟨ deadlock_scheduled := false ⟩ in
  _ ← cassert (negb (sq_draining e));
  _ ← foldM (fun _ table_entry => foldM (fun _ seq_req => too_old s seq_req) table_entry.2 tt)
        (map_to_list (m_RequestTable s)) tt;
  _ ← cassert (m_outstanding_count s =? total_outstanding s);
  if 0 <? m_outstanding_count s
  then Ok (s ⟨ deadlock_scheduled := true ⟩, [ScheduleDeadlockCheck (m_deadlock_threshold s)])
  else Ok (s, []).

Definition Sequencer_empty (s : Sequencer D) : bool := bool_decide (m_RequestTable s = ∅).

(** [base] is what [RubyPort::functionalWrite] counts; [satisfy] is
    [trySatisfyFunctional] with the packet of a request. *)
Definition write_request (satisfy : Packet -> option Packet) (r : SequencerRequest) : SequencerRequest :=
  match satisfy (pkt r) with Some p => r ⟨ pkt := p ⟩ | None => r end.
Definition written_in (satisfy : Packet -> option Packet) (l : list SequencerRequest) : Z :=
  Z.of_nat (length (filter (fun r => is_Some (satisfy (pkt r))) l)).

Definition Sequencer_functionalWrite (satisfy : Packet -> option Packet) (base : Z) (s : Sequencer D) : Sequencer D * Z :=
  (s ⟨ m_RequestTable := map (write_request satisfy) <$> m_RequestTable s ⟩,
   foldr (fun kv n => written_in satisfy kv.2 + n) base (map_to_list (m_RequestTable s))).
End Sequencer.
