(* ===== verification/SequencerProofs.v ===== *)
(** * The sequencer's ledger

    Whatever the processor and the protocol do: the requests the sequencer has
    taken for a line are completed once each and in order, exactly one Ruby
    request is under way for a line with waiting requests, and the count of
    outstanding requests is right and bounded. *)
From S2P Require Import Prelude Common StdHeap NetDest MessageBuffer Replacement CacheMemory DataBlock Sequencer.

(** ** Traces *)

Section Trace.
Context (bits : Z).

(** The packets for line [a] that were taken, and those that were completed. *)
Definition on_line (a : Z) (p : Packet) : bool := makeLineAddress bits (pkt_addr p) =? a.

Definition issued_ev (a : Z) (ev : sq_event) : list Z :=
  match ev with
  | Answered p RequestStatus_Issued => if on_line a p then [pkt_id p] else []
  | _ => []
  end.
Definition completed_ev (a : Z) (ev : sq_event) : list Z :=
  match ev with
  | Respond p | Deleted p => if on_line a p then [pkt_id p] else []
  | _ => []
  end.
Definition ruby_ev (a : Z) (ev : sq_event) : list Z :=
  match ev with
  | IssueRuby p _ => if on_line a p then [pkt_id p] else []
  | _ => []
  end.

Definition issued (tr : list sq_event) (a : Z) : list Z := tr ≫= issued_ev a.
Definition completed (tr : list sq_event) (a : Z) : list Z := tr ≫= completed_ev a.
Definition ruby_requests (tr : list sq_event) (a : Z) : Z := Z.of_nat (length (tr ≫= ruby_ev a)).

(** Events that none of the three counts. *)
Definition silent (ev : sq_event) : bool :=
  match ev with Respond _ | Deleted _ | IssueRuby _ _ | Answered _ _ => false | _ => true end.

Lemma issued_app tr tr' a : issued (tr ++ tr') a = issued tr a ++ issued tr' a.
Proof. apply bind_app. Qed.
Lemma completed_app tr tr' a : completed (tr ++ tr') a = completed tr a ++ completed tr' a.
Proof. apply bind_app. Qed.
Lemma ruby_app tr tr' a : ruby_requests (tr ++ tr') a = ruby_requests tr a + ruby_requests tr' a.
Proof. unfold ruby_requests. rewrite bind_app, length_app. lia. Qed.

Lemma silent_evs evs a : forallb silent evs = true -> issued evs a = [] /\ completed evs a = [] /\ ruby_requests evs a = 0.
Proof.
  unfold issued, completed, ruby_requests.
  induction evs as [|ev evs IH]; [done |]. cbn [forallb]. intros [He Hs]%andb_true_iff. destruct (IH Hs) as (H1 & H2 & H3).
  cbn [mbind list_bind]. rewrite length_app. rewrite H1, H2. destruct ev; try done; cbn [issued_ev completed_ev ruby_ev length app]; split_and!; done.
Qed.
End Trace.

(** ** The invariant *)

(** Where a callback is: not in one, between two completions, or in the middle
    of a completion (the response is out, the request not yet off the list). *)
Inductive phase := Idle | Open (a : Z) | Mid (a : Z).

Section Ledger.
Context {D : Type} `{LineLocks D}.
Context (bits : Z).
Implicit Types s : Sequencer D.

Definition table_total (m : gmap Z (list SequencerRequest)) : Z :=
  foldr (fun kv n => Z.of_nat (length kv.2) + n) 0 (map_to_list m).

Lemma table_total_perm l l' :
  l ≡ₚ l' -> foldr (fun (kv : Z * list SequencerRequest) n => Z.of_nat (length kv.2) + n) 0 l =
    foldr (fun kv n => Z.of_nat (length kv.2) + n) 0 l'.
Proof. induction 1; cbn [foldr]; lia. Qed.

Lemma table_total_delete (m : gmap Z (list SequencerRequest)) a l :
  m !! a = Some l -> table_total m = Z.of_nat (length l) + table_total (delete a m).
Proof. intros Hm. unfold table_total. by rewrite (table_total_perm _ _ (symmetry (map_to_list_delete m a l Hm))). Qed.

Lemma table_total_insert (m : gmap Z (list SequencerRequest)) a l :
  table_total (<[a := l]> m) = Z.of_nat (length l) + table_total (delete a m).
Proof.
  rewrite <- insert_delete_eq. unfold table_total.
  rewrite (table_total_perm _ _ (map_to_list_insert (delete a m) a l (lookup_delete_eq m a))). done.
Qed.

Lemma table_total_lookup (m : gmap Z (list SequencerRequest)) a :
  table_total m = Z.of_nat (length (match m !! a with Some l => l | None => [] end)) + table_total (delete a m).
Proof.
  destruct (m !! a) as [l|] eqn:E; [by apply table_total_delete |]. rewrite delete_id by done. cbn. lia.
Qed.

Lemma table_total_nonneg m : 0 <= table_total m.
Proof. unfold table_total. induction (map_to_list m) as [|kv l IH]; cbn [foldr]; lia. Qed.

(** The requests whose responses are still due. *)
Definition waiting (ph : phase) s (a : Z) : list SequencerRequest :=
  match ph with Mid b => if a =? b then tail (requests_at s a) else requests_at s a | _ => requests_at s a end.
Definition in_hand (ph : phase) : Z := match ph with Mid _ => 1 | _ => 0 end.
Definition opened (ph : phase) (a : Z) : Prop := match ph with Open b => a = b | _ => False end.
Definition nonempty_mid (ph : phase) s : Prop :=
  match ph with Idle => True | Open a => is_Some (m_RequestTable s !! a) | Mid a => requests_at s a <> [] end.

(** The types of a request are those of its packet, at the time it was made. *)
Definition typed (r : SequencerRequest) : Prop := exists e, request_types e (pkt r) = Ok (m_type r, m_second_type r).

Record ledger (ph : phase) (cbs : Z -> Z) (tr : list sq_event) s : Prop := {
  ld_fifo : forall a, issued bits tr a = completed bits tr a ++ ((fun r => pkt_id (pkt r)) <$> waiting ph s a);
  ld_count : m_outstanding_count s + in_hand ph = table_total (m_RequestTable s);
  ld_max : m_outstanding_count s <= m_max_outstanding_requests s;
  ld_ruby : forall a, ruby_requests bits tr a = cbs a + if bool_decide (is_Some (m_RequestTable s !! a)) then 1 else 0;
  ld_table : forall a l, m_RequestTable s !! a = Some l ->
    (l <> [] \/ opened ph a) /\ Forall (fun r => on_line bits a (pkt r) = true /\ typed r) l;
  ld_mid : nonempty_mid ph s
}.

(** Nothing but the data cache, the blocked lines and the queue changed. *)
Definition same_table s s' : Prop :=
  m_RequestTable s' = m_RequestTable s /\ m_outstanding_count s' = m_outstanding_count s /\
  m_max_outstanding_requests s' = m_max_outstanding_requests s.

#[export] Instance same_table_preorder : PreOrder same_table.
Proof. split; [by intros s |]. intros a b c (H1 & H2 & H3) (K1 & K2 & K3). split_and!; congruence. Qed.

Lemma same_table_at s s' a : same_table s s' -> requests_at s' a = requests_at s a.
Proof. intros (H1 & _). unfold requests_at. by rewrite H1. Qed.

Lemma ledger_same ph cbs tr s s' evs :
  same_table s s' -> forallb silent evs = true -> ledger ph cbs tr s -> ledger ph cbs (tr ++ evs) s'.
Proof.
  intros Hs He [L1 L2 L3 L4 L5 L6]. pose proof Hs as (E1 & E2 & E3).
  assert (forall a, waiting ph s' a = waiting ph s a) as Hw.
  { intros a. unfold waiting. by rewrite (same_table_at s s' a Hs). }
  split.
  - intros a. destruct (silent_evs bits evs a He) as (H1 & H2 & _).
    rewrite issued_app, completed_app, H1, H2, Hw, !app_nil_r. apply L1.
  - by rewrite E1, E2.
  - by rewrite E2, E3.
  - intros a. destruct (silent_evs bits evs a He) as (_ & _ & H3). rewrite ruby_app, H3, E1, Z.add_0_r. apply L4.
  - intros a l. rewrite E1. apply L5.
  - destruct ph; cbn in *; [done | by rewrite E1 | by rewrite (same_table_at s s' a Hs)].
Qed.

(** ** Making a request *)

Lemma issueRequest_spec e s p t s' evs :
  issueRequest e s p t = Ok (s', evs) -> same_table s s' /\ m_dataCache s' = m_dataCache s /\ sq_version s' = sq_version s /\
    exists qe, evs = IssueRuby p t :: (FromQueue <$> qe).
Proof.
  unfold issueRequest. intros Hi. inv_res. subst. split_and!; [by split_and! | done | done | by eexists].
Qed.

Lemma from_queue_silent qe : forallb silent (FromQueue <$> qe) = true.
Proof. by induction qe. Qed.

(** The table after an insertion. *)
Lemma requests_at_insert s a b l :
  requests_at (s ⟨ m_RequestTable := <[b := l]> (m_RequestTable s) ⟩) a = if decide (a = b) then l else requests_at s a.
Proof.
  unfold requests_at. cbn. case_decide as E; [subst; by rewrite lookup_insert_eq | by rewrite lookup_insert_ne].
Qed.

Lemma insert_ledger e ph cbs tr s p ts st s' evs :
  sq_block_bits e = bits -> (forall a, ph <> Open a) -> m_outstanding_count s < m_max_outstanding_requests s ->
  request_types e p = Ok ts -> insertRequest e s p ts.1 ts.2 = (st, s', evs) -> ledger ph cbs tr s ->
  m_dataCache s' = m_dataCache s /\ sq_version s' = sq_version s /\ forallb silent evs = true /\
  match st with
  | RequestStatus_Ready => forall qe, ledger ph cbs (tr ++ evs ++ (IssueRuby p ts.2 :: (FromQueue <$> qe)) ++ [Answered p RequestStatus_Issued]) s'
  | RequestStatus_Aliased => ledger ph cbs (tr ++ evs ++ [Answered p RequestStatus_Issued]) s'
  | _ => False
  end.
Proof.
  intros Hbits Hph Hlt Hts Hins [L1 L2 L3 L4 L5 L6]. unfold insertRequest in Hins.
  set (b := line_of e (pkt_addr p)) in *.
  set (r := {| pkt := p; m_type := ts.1; m_second_type := ts.2; issue_time := sq_curCycle e |}) in *.
  match type of Hins with (let '(_, _) := ?x in _) = _ => destruct x as [s1 evs1] eqn:E1 end.
  assert (same_table s s1 /\ m_dataCache s1 = m_dataCache s /\ sq_version s1 = sq_version s /\ forallb silent evs1 = true) as (Hs1 & Hd1 & Hv1 & He1).
  { destruct (negb (deadlock_scheduled s) && _)%bool; injection E1 as <- <-; by split_and!. }
  pose proof Hs1 as (T1 & T2 & T3). rewrite (same_table_at s s1 b Hs1) in Hins.
  assert (Hon : on_line bits b p = true) by (unfold on_line, b, line_of; rewrite Hbits; apply Z.eqb_refl).
  assert (Hon' : forall a, a <> b -> on_line bits a p = false).
  { intros a Ha. unfold on_line. unfold b, line_of in Ha. rewrite Hbits in Ha. apply Z.eqb_neq. congruence. }
  clearbody b.
  assert (Hempty : requests_at s b = [] <-> m_RequestTable s !! b = None).
  { unfold requests_at. destruct (m_RequestTable s !! b) as [l|] eqn:El; [| done]. split; [| done]. intros ->.
    destruct (L5 b [] El) as [[Hn|Ho] _]; [done |]. destruct ph; try done. by destruct (Hph a). }
  injection Hins as <- <- <-. split_and!; [done | done | done |].
  match goal with |- context [ledger _ _ _ ?q] => set (s2 := q) end.
  assert (Hat : forall a, requests_at s2 a = if decide (a = b) then requests_at s b ++ [r] else requests_at s a).
  { intros a. change (requests_at s2 a) with (requests_at (s1 ⟨ m_RequestTable := <[b := requests_at s b ++ [r]]> (m_RequestTable s1) ⟩) a).
    rewrite requests_at_insert. case_decide; [done |]. by apply same_table_at. }
  assert (Hw : forall a, waiting ph s2 a = if decide (a = b) then waiting ph s b ++ [r] else waiting ph s a).
  { intros a. unfold waiting. destruct ph as [|c|c]; rewrite Hat; try done. destruct (a =? c) eqn:Eac; b2p.
    - subst c. case_decide as Hab; [| done]. subst b. rewrite Z.eqb_refl. cbn in L6. by destruct (requests_at s a).
    - case_decide as Hab; [| done]. subst a. by rewrite (proj2 (Z.eqb_neq b c)). }
  assert (Hbase : forall evs', (forall a, issued bits evs' a = []) -> (forall a, completed bits evs' a = []) ->
    (forall a, ruby_requests bits evs' a = if decide (a = b) then if decide (requests_at s b = []) then 1 else 0 else 0) ->
    ledger ph cbs (tr ++ evs1 ++ evs' ++ [Answered p RequestStatus_Issued]) s2).
  { intros evs' Hi Hc Hr. split.
    - intros a. destruct (silent_evs bits evs1 a He1) as (H1 & H2 & _).
      rewrite !issued_app, !completed_app, H1, H2, Hi, Hc, !app_nil_l, app_nil_r, L1, Hw.
      unfold issued. cbn [mbind list_bind issued_ev]. rewrite app_nil_r. destruct (decide (a = b)) as [->|Hab].
      + by rewrite Hon, fmap_app, app_assoc.
      + by rewrite Hon', app_nil_r.
    - unfold s2. cbn. rewrite T1, T2, table_total_insert, (table_total_lookup (m_RequestTable s) b) in *.
      fold (requests_at s b) in L2. rewrite length_app. cbn [length]. lia.
    - unfold s2. cbn. rewrite T2, T3. lia.
    - intros a. destruct (silent_evs bits evs1 a He1) as (_ & _ & H3).
      rewrite !ruby_app, H3, Hr, L4. unfold ruby_requests. cbn [mbind list_bind ruby_ev length]. unfold s2. cbn. rewrite T1.
      destruct (decide (a = b)) as [->|Hab].
      + rewrite lookup_insert_eq, (bool_decide_eq_true_2 (is_Some (Some _))) by done.
        case_decide as Hnil.
        * apply Hempty in Hnil. rewrite Hnil, bool_decide_eq_false_2 by (by intros []). lia.
        * rewrite bool_decide_eq_true_2; [lia |]. apply not_eq_None_Some. intros Hn. by apply Hnil, Hempty.
      + rewrite lookup_insert_ne by done. lia.
    - intros a l. unfold s2. cbn. rewrite T1. intros Hl. destruct (decide (a = b)) as [->|Hab].
      + rewrite lookup_insert_eq in Hl. injection Hl as <-. split; [left; by destruct (requests_at s b) |].
        apply Forall_app. split; [| apply Forall_singleton; split; [done | exists e; by destruct ts]].
        unfold requests_at. destruct (m_RequestTable s !! b) as [l0|] eqn:El; [by apply L5 | done].
      + rewrite lookup_insert_ne in Hl by done. by apply L5.
    - destruct ph as [|c|c]; [done | by destruct (Hph c) |]. cbn in *. rewrite Hat. destruct (decide (c = b)); [| done]. by intros [_ ?]%app_nil. }
  destruct (decide (requests_at s b = [])) as [Hnil|Hnil].
  - assert ((1 <? length (requests_at s b ++ [r]))%nat = false) as -> by (by rewrite Hnil). intros qe. apply Hbase.
    + intros a. change (IssueRuby p ts.2 :: ?l) with ([IssueRuby p ts.2] ++ l). rewrite issued_app.
      by rewrite (proj1 (silent_evs bits _ a (from_queue_silent qe))).
    + intros a. change (IssueRuby p ts.2 :: ?l) with ([IssueRuby p ts.2] ++ l). rewrite completed_app.
      by rewrite (proj1 (proj2 (silent_evs bits _ a (from_queue_silent qe)))).
    + intros a. change (IssueRuby p ts.2 :: ?l) with ([IssueRuby p ts.2] ++ l). rewrite ruby_app.
      rewrite (proj2 (proj2 (silent_evs bits _ a (from_queue_silent qe)))). unfold ruby_requests. cbn [mbind list_bind ruby_ev].
      destruct (decide (a = b)) as [->|Hab]; [by rewrite Hon | by rewrite Hon'].
  - assert ((1 <? length (requests_at s b ++ [r]))%nat = true) as ->.
    { apply Nat.ltb_lt. rewrite length_app. cbn. destruct (requests_at s b); [done | cbn; lia]. }
    rewrite <- (app_nil_l [Answered _ _]). apply Hbase; try done.
    intros a. by case_decide.
Qed.

Lemma make_ledger e ph cbs tr s p st s' evs :
  sq_block_bits e = bits -> (forall a, ph <> Open a) -> ledger ph cbs tr s ->
  makeRequest e s p = Ok (st, s', evs) ->
  ledger ph cbs (tr ++ evs ++ [Answered p st]) s' /\ m_dataCache s' = m_dataCache s /\ sq_version s' = sq_version s.
Proof.
  intros Hbits Hph Hl Hm. unfold makeRequest in Hm.
  assert (Hquiet : forall st, st <> RequestStatus_Issued -> ledger ph cbs (tr ++ [Answered p st]) s).
  { intros st' Hst. destruct Hl as [L1 L2 L3 L4 L5 L6]. split; try done.
    - intros a. rewrite issued_app, completed_app. rewrite L1. unfold issued, completed. cbn [mbind list_bind issued_ev completed_ev].
      destruct st'; rewrite ?app_nil_r; done.
    - intros a. rewrite ruby_app, L4. unfold ruby_requests. cbn. lia. }
  destruct (m_max_outstanding_requests s <=? m_outstanding_count s) eqn:Ec; b2p.
  { injection Hm as <- <- <-. rewrite app_nil_l. split_and!; [by apply Hquiet | done | done]. }
  apply res_bind_Ok_inv in Hm as (ts & Hts & Hm). destruct (_ && _)%bool in Hm.
  { injection Hm as <- <- <-. rewrite app_nil_l. split_and!; [by apply Hquiet | done | done]. }
  destruct (insertRequest e s p ts.1 ts.2) as [[st1 s1] evs1] eqn:Ei.
  destruct (insert_ledger e ph cbs tr s p ts st1 s1 evs1 Hbits Hph Ec Hts Ei Hl) as (Hd & Hv & _ & Hcase).
  destruct st1; try done.
  - inv_res. destruct a as [s2 evs2]. cbn [fst snd] in *. subst.
    destruct (issueRequest_spec _ _ _ _ _ _ E) as (Hs & Hd2 & Hv2 & qe & ->).
    split_and!; [| congruence | congruence]. rewrite <- app_assoc. rewrite <- (app_nil_r (tr ++ _)).
    apply (ledger_same ph cbs _ s1); [done | done | apply Hcase].
  - injection Hm as <- <- <-. done.
Qed.

Lemma reentrant_ledger e ph cbs again : forall tr s evs s' evs',
  sq_block_bits e = bits -> (forall a, ph <> Open a) -> ledger ph cbs (tr ++ evs) s ->
  foldM (reentrant e) again (s, evs) = Ok (s', evs') -> ledger ph cbs (tr ++ evs') s' /\ m_dataCache s' = m_dataCache s /\ sq_version s' = sq_version s.
Proof.
  induction again as [|p again IH]; intros tr s evs s' evs' Hbits Hph Hl Hf; cbn [foldM] in Hf.
  { by injection Hf as <- <-. }
  apply res_bind_Ok_inv in Hf as ([s1 evs1] & H1 & Hf). unfold reentrant in H1. inv_res. destruct a as [[st s2] evs2].
  cbn [fst snd] in *. injection H1 as <- <-.
  destruct (make_ledger e ph cbs (tr ++ evs) s p st s2 evs2 Hbits Hph Hl E) as (Hl2 & Hd & Hv).
  destruct (IH tr s2 (evs ++ evs2 ++ [Answered p st]) s' evs' Hbits Hph) as (? & ? & ?); [by rewrite app_assoc | done |].
  split_and!; [done | congruence | congruence].
Qed.

(** ** Completing a request *)

Lemma write_lock_same s a v s' : write_lock s a v = Ok s' -> same_table s s' /\ sq_version s' = sq_version s.
Proof. unfold write_lock. intros Hw. inv_res. by subst. Qed.

Lemma llscLoadLinked_same s a s' : llscLoadLinked s a = Ok s' -> same_table s s' /\ sq_version s' = sq_version s.
Proof. unfold llscLoadLinked. intros Hw. inv_res. destruct a0; [by eapply write_lock_same | by injection Hw as <-]. Qed.

Lemma llscClearMonitor_same s a s' : llscClearMonitor s a = Ok s' -> same_table s s' /\ sq_version s' = sq_version s.
Proof.
  unfold llscClearMonitor. intros Hw. inv_res. destruct a0 as [l|]; [| by injection Hw as <-].
  destruct (_ =? _); [by eapply write_lock_same | by injection Hw as <-].
Qed.

Lemma llscStoreConditional_same s a s' b : llscStoreConditional s a = Ok (s', b) -> same_table s s' /\ sq_version s' = sq_version s.
Proof.
  unfold llscStoreConditional. intros Hw. inv_res. destruct a0 as [l|]; [| by injection Hw as <- <-].
  inv_res. subst. by eapply write_lock_same.
Qed.

(** Completion changes nothing of a packet but its data. *)
Lemma access_data_spec e t ok p d p' d' :
  access_data e t ok p d = Ok (p', d') -> p' = p ⟨ pkt_data := pkt_data p' ⟩.
Proof.
  assert (p = p ⟨ pkt_data := pkt_data p ⟩) as Hp by by destruct p.
  unfold access_data. intros Ha. repeat case_match; inv_res; subst; done.
Qed.

(** The events of a completion, before those of requests made meanwhile. *)
Definition response (e : sq_env) (p : Packet) : list sq_event :=
  if sq_warmup e then [Deleted p; EnqueueNextFetchRequest]
  else if sq_cooldown e then [Deleted p; EnqueueNextFlushRequest] else [Respond p].

Lemma response_counts e p a :
  issued bits (response e p) a = [] /\ completed bits (response e p) a = (if on_line bits a p then [pkt_id p] else []) /\
  ruby_requests bits (response e p) a = 0.
Proof.
  unfold response, issued, completed, ruby_requests. destruct (sq_warmup e), (sq_cooldown e);
    cbn [mbind list_bind issued_ev completed_ev ruby_ev]; rewrite ?app_nil_r; done.
Qed.

Lemma complete_ledger e cbs tr s s1 a r0 rest p :
  ledger (Open a) cbs tr s -> requests_at s a = r0 :: rest -> same_table s s1 ->
  pkt_id p = pkt_id (pkt r0) -> pkt_addr p = pkt_addr (pkt r0) ->
  ledger (Mid a) cbs (tr ++ response e p) (markRemoved s1).
Proof.
  intros [L1 L2 L3 L4 L5 L6] Hr Hs Hid Had. pose proof Hs as (T1 & T2 & T3).
  assert (Hat : forall b, requests_at (markRemoved s1) b = requests_at s b) by (intros b; exact (same_table_at s s1 b Hs)).
  assert (Hon : forall b, on_line bits b p = (a =? b)).
  { intros b. unfold requests_at in Hr. destruct (m_RequestTable s !! a) as [l|] eqn:El; [| done]. subst l.
    destruct (L5 a _ El) as [_ [[Hon _] _]%Forall_cons]. unfold on_line in *. rewrite Had. apply Z.eqb_eq in Hon. by rewrite Hon. }
  split.
  - intros b. destruct (response_counts e p b) as (H1 & H2 & _). rewrite issued_app, completed_app, H1, H2, app_nil_r, L1, Hon.
    cbn [waiting]. rewrite Hat, <- app_assoc. f_equal. rewrite (Z.eqb_sym a b). destruct (b =? a) eqn:E; b2p; [| done].
    subst b. rewrite Hr. cbn. by rewrite Hid.
  - cbn. rewrite T1, T2. cbn in L2. lia.
  - cbn. rewrite T2, T3. lia.
  - intros b. destruct (response_counts e p b) as (_ & _ & H3). rewrite ruby_app, H3, Z.add_0_r. cbn. rewrite T1. apply L4.
  - intros b l. cbn. rewrite T1. intros Hl. destruct (L5 b l Hl) as [[Hn|Ho] Hf]; (split; [left | done]); [done |].
    cbn in Ho. subst b. intros ->. unfold requests_at in Hr. by rewrite Hl in Hr.
  - cbn. by rewrite Hat, Hr.
Qed.

Lemma hit_ledger e cbs tr s s1 a r0 rest r data ok again s' data' evs :
  sq_block_bits e = bits -> ledger (Open a) cbs tr s -> requests_at s a = r0 :: rest -> same_table s s1 ->
  pkt_id (pkt r) = pkt_id (pkt r0) -> pkt_addr (pkt r) = pkt_addr (pkt r0) ->
  hitCallback e (markRemoved s1) r data ok again = Ok (s', data', evs) ->
  ledger (Mid a) cbs (tr ++ evs) s' /\ sq_version s' = sq_version s1.
Proof.
  intros Hbits Hl Hr Hs Hid Had Hh. unfold hitCallback in Hh.
  apply res_bind_Ok_inv in Hh as (s2 & H2 & Hh). apply res_bind_Ok_inv in Hh as ([p' d'] & Hacc & Hh).
  apply res_bind_Ok_inv in Hh as ([s3 evs3] & Hf & Hh). cbn [fst snd] in *. injection Hh as <- <- <-.
  apply access_data_spec in Hacc.
  assert (same_table (markRemoved s1) s2 /\ sq_version s2 = sq_version s1) as [Hs2 Hv2].
  { destruct (bool_decide _); [by apply llscLoadLinked_same in H2 | by injection H2 as <-]. }
  assert (ledger (Mid a) cbs (tr ++ response e p') s2) as Hl2.
  { pose proof (complete_ledger e cbs tr s s1 a r0 rest p' Hl Hr Hs) as Hc. rewrite <- (app_nil_r (tr ++ _)).
    apply (ledger_same _ _ _ (markRemoved s1)); [done | done |]. apply Hc; rewrite Hacc; done. }
  destruct (reentrant_ledger e (Mid a) cbs again tr s2 (response e p') s3 evs3 Hbits) as (? & _ & Hv3); [done | done | exact Hf |].
  split; [done | congruence].
Qed.

Lemma pop_ledger cbs tr s a : ledger (Mid a) cbs tr s -> ledger (Open a) cbs tr (pop_front s a).
Proof.
  intros [L1 L2 L3 L4 L5 L6]. cbn in L6.
  assert (exists l, m_RequestTable s !! a = Some l /\ requests_at s a = l) as (l & El & Hl).
  { unfold requests_at in *. destruct (m_RequestTable s !! a) as [l|] eqn:E; [by exists l | done]. }
  unfold pop_front. split.
  - intros b. rewrite L1. cbn [waiting]. rewrite requests_at_insert. destruct (b =? a) eqn:E; b2p.
    + subst b. by rewrite decide_True.
    + by rewrite decide_False.
  - cbn. cbn in L2. rewrite table_total_insert. rewrite (table_total_delete _ a l El) in L2. rewrite Hl in *.
    destruct l; [done | cbn in *; lia].
  - done.
  - intros b. rewrite L4. cbn. destruct (decide (b = a)) as [->|Hb].
    + rewrite lookup_insert_eq, El. by rewrite !bool_decide_eq_true_2.
    + by rewrite lookup_insert_ne.
  - intros b k. cbn. intros Hk. destruct (decide (b = a)) as [->|Hb].
    + rewrite lookup_insert_eq in Hk. injection Hk as <-. split; [by right |]. rewrite Hl. destruct (L5 a l El) as [_ Hf].
      destruct l; [done |]. by apply Forall_cons in Hf as [_ Hf].
    + rewrite lookup_insert_ne in Hk by done. destruct (L5 b k Hk) as [[Hn|Ho] Hf]; [| done]. by split; [left |].
  - cbn. rewrite lookup_insert_eq. by eexists.
Qed.

(** ** Callbacks *)

Definition bump (a : Z) (cbs : Z -> Z) (b : Z) : Z := cbs b + if b =? a then 1 else 0.

Lemma write_one_ledger e cbs tr s a rr again data r rest s' data' evs :
  sq_block_bits e = bits -> ledger (Open a) cbs tr s -> requests_at s a = r :: rest ->
  write_one e a rr again s data r = Ok (s', data', evs) ->
  ledger (Mid a) cbs (tr ++ evs) s' /\ sq_version s' = sq_version s.
Proof.
  intros Hbits Hl Hr Hw. unfold write_one in Hw. apply res_bind_Ok_inv in Hw as (u & _ & Hw).
  destruct (negb (is_load (m_type r))).
  - apply res_bind_Ok_inv in Hw as ([[s1 ok] r1] & Hx & Hw).
    assert (same_table s s1 /\ sq_version s1 = sq_version s /\ pkt_id (pkt r1) = pkt_id (pkt r) /\ pkt_addr (pkt r1) = pkt_addr (pkt r)) as (Hs & Hv & Hid & Had).
    { clear Hw. destruct (negb _) in Hx; inv_res.
      - subst. destruct (llscClearMonitor_same _ _ _ E) as [? ?]. by split_and!.
      - destruct a0 as [s2 b]. cbn [fst snd] in *. subst. destruct (llscStoreConditional_same _ _ _ _ E) as [? ?]. by split_and!. }
    apply res_bind_Ok_inv in Hw as (u' & _ & Hw).
    match type of Hw with hitCallback _ (markRemoved ?x) _ _ _ _ = _ => set (s2 := x) in * end.
    assert (same_table s s2 /\ sq_version s2 = sq_version s) as [Hs2 Hv2].
    { unfold s2. destruct (m_type r1); done. }
    destruct (hit_ledger e cbs tr s s2 a r rest r1 data ok again s' data' evs Hbits Hl Hr Hs2 Hid Had Hw) as [? ?].
    split; [done | congruence].
  - apply res_bind_Ok_inv in Hw as (u' & _ & Hw).
    by destruct (hit_ledger e cbs tr s s a r rest r data true again s' data' evs Hbits Hl Hr (reflexivity s) eq_refl eq_refl Hw).
Qed.

Lemma write_loop_ledger e cbs a fuel : forall rr reenter tr s data s' data' evs,
  sq_block_bits e = bits -> ledger (Open a) cbs tr s ->
  write_loop e fuel a rr reenter s data = Ok (s', data', evs) ->
  ledger (Open a) cbs (tr ++ evs) s' /\ requests_at s' a = [] /\ sq_version s' = sq_version s.
Proof.
  induction fuel as [|fuel IH]; intros rr reenter tr s data s' data' evs Hbits Hl Hw; cbn [write_loop] in Hw;
    (destruct (requests_at s a) as [|r rest] eqn:Er; [injection Hw as <- <- <-; by rewrite app_nil_r |]); [done |].
  apply res_bind_Ok_inv in Hw as ([[s1 d1] evs1] & H1 & Hw). apply res_bind_Ok_inv in Hw as ([[s2 d2] evs2] & H2 & Hw).
  injection Hw as <- <- <-.
  destruct (write_one_ledger e cbs tr s a rr (hd [] reenter) data r rest s1 d1 evs1 Hbits Hl Er H1) as [Hl1 Hv1].
  apply pop_ledger in Hl1. destruct (IH false (tail reenter) (tr ++ evs1) _ d1 s2 d2 evs2 Hbits Hl1 H2) as (? & ? & Hv2).
  rewrite app_assoc. split_and!; [done | done |]. rewrite Hv2. exact Hv1.
Qed.

Lemma ruby_ledger e cbs tr s a r rest t s' evs :
  ledger (Open a) cbs tr s -> requests_at s a = r :: rest -> issueRequest e s (pkt r) t = Ok (s', evs) ->
  ledger (Open a) (bump a cbs) (tr ++ evs) s' /\ requests_at s' a = r :: rest.
Proof.
  intros Hl Hr Hi. destruct (issueRequest_spec _ _ _ _ _ _ Hi) as (Hs & _ & _ & qe & ->).
  split; [| by rewrite (same_table_at s s' a Hs)].
  assert (on_line bits a (pkt r) = true) as Hon.
  { unfold requests_at in Hr. destruct (m_RequestTable s !! a) as [l|] eqn:El; [| done]. subst l.
    by destruct (ld_table _ _ _ _ Hl a _ El) as [_ [[Hon _] _]%Forall_cons]. }
  change (IssueRuby (pkt r) t :: ?l) with ([IssueRuby (pkt r) t] ++ l). rewrite app_assoc.
  apply (ledger_same _ _ _ s); [done | apply from_queue_silent |]. destruct Hl as [L1 L2 L3 L4 L5 L6]. split; try done.
  - intros b. rewrite issued_app, completed_app, L1. unfold issued, completed. cbn [mbind list_bind issued_ev completed_ev].
    by rewrite !app_nil_r.
  - intros b. rewrite ruby_app, L4. unfold ruby_requests, bump. cbn [mbind list_bind ruby_ev].
    unfold on_line in *. apply Z.eqb_eq in Hon. rewrite Hon, (Z.eqb_sym a b). destruct (b =? a); cbn; lia.
Qed.

Lemma read_loop_ledger e cbs a fuel : forall rr reenter tr s data s' data' evs,
  sq_block_bits e = bits -> ledger (Open a) cbs tr s ->
  read_loop e fuel a rr reenter s data = Ok (s', data', evs) ->
  sq_version s' = sq_version s /\
  ((ledger (Open a) cbs (tr ++ evs) s' /\ requests_at s' a = []) \/
   (ledger (Open a) (bump a cbs) (tr ++ evs) s' /\ requests_at s' a <> [])).
Proof.
  induction fuel as [|fuel IH]; intros rr reenter tr s data s' data' evs Hbits Hl Hw; cbn [read_loop] in Hw;
    (destruct (requests_at s a) as [|r rest] eqn:Er; [injection Hw as <- <- <-; rewrite app_nil_r; split; [done | by left] |]);
    apply res_bind_Ok_inv in Hw as (u & _ & Hw);
    (destruct (negb (is_load (m_type r)));
      [apply res_bind_Ok_inv in Hw as ([s1 evs1] & H1 & Hw); injection Hw as <- <- <-; cbn [fst snd];
       destruct (ruby_ledger e cbs tr s a r rest _ s1 evs1 Hl Er H1) as [? Hn];
       split; [by apply issueRequest_spec in H1 as (_ & _ & ? & _) | right; by rewrite Hn] |]); [done |].
  apply res_bind_Ok_inv in Hw as (u' & _ & Hw).
  apply res_bind_Ok_inv in Hw as ([[s1 d1] evs1] & H1 & Hw). apply res_bind_Ok_inv in Hw as ([[s2 d2] evs2] & H2 & Hw).
  injection Hw as <- <- <-.
  destruct (hit_ledger e cbs tr s s a r rest r data true (hd [] reenter) s1 d1 evs1 Hbits Hl Er (reflexivity s) eq_refl eq_refl H1) as [Hl1 Hv1].
  apply pop_ledger in Hl1. rewrite app_assoc.
  destruct (IH false (tail reenter) (tr ++ evs1) _ d1 s2 d2 evs2 Hbits Hl1 H2) as [Hv2 Hcase].
  split; [rewrite Hv2; exact Hv1 | done].
Qed.

Lemma open_ledger cbs tr s a : ledger Idle cbs tr s -> is_Some (m_RequestTable s !! a) -> ledger (Open a) cbs tr s.
Proof.
  intros [L1 L2 L3 L4 L5 L6] Ha. split; try done. intros b l Hl. destruct (L5 b l Hl) as [[Hn|[]] Hf]. by split; [left |].
Qed.

Lemma close_empty cbs tr s a :
  ledger (Open a) cbs tr s -> requests_at s a = [] -> ledger Idle (bump a cbs) tr (erase_empty s a).
Proof.
  intros [L1 L2 L3 L4 L5 L6] Hn. unfold erase_empty. rewrite Hn. cbn in L6. destruct L6 as [l Hl].
  assert (l = []) as -> by (unfold requests_at in Hn; by rewrite Hl in Hn).
  split.
  - intros b. rewrite L1. cbn [waiting]. do 2 f_equal. unfold requests_at. cbn. destruct (decide (b = a)) as [->|Hb].
    + by rewrite lookup_delete_eq, Hl.
    + by rewrite lookup_delete_ne.
  - cbn. cbn in L2. rewrite (table_total_delete _ a [] Hl) in L2. exact L2.
  - done.
  - intros b. rewrite L4. unfold bump. cbn. destruct (b =? a) eqn:E; b2p.
    + subst b. rewrite lookup_delete_eq, Hl, bool_decide_eq_true_2, bool_decide_eq_false_2 by (done || by intros []). lia.
    + rewrite lookup_delete_ne by done. lia.
  - intros b k. cbn. intros Hk. destruct (decide (b = a)) as [->|Hb]; [by rewrite lookup_delete_eq in Hk |].
    rewrite lookup_delete_ne in Hk by done. destruct (L5 b k Hk) as [[?|?] ?]; [| done]. by split; [left |].
  - done.
Qed.

Lemma close_nonempty cbs tr s a :
  ledger (Open a) cbs tr s -> requests_at s a <> [] -> ledger Idle cbs tr (erase_empty s a).
Proof.
  intros [L1 L2 L3 L4 L5 L6] Hn. unfold erase_empty. destruct (requests_at s a) eqn:Er; [done |]. split; try done.
  intros b k Hk. destruct (L5 b k Hk) as [[?|Ho] ?]; [by split; [left |] |]. cbn in Ho. subst b. split; [left | done].
  unfold requests_at in Er. rewrite Hk in Er. by intros ->.
Qed.
End Ledger.

(** ** Runs *)

(** What happens to a sequencer: requests of the processor, callbacks and
    evictions of the protocol, the deadlock check, and whatever the protocol does
    to the data cache and to the mandatory queue in between. *)
Inductive sq_op (D : Type) :=
  | OpMake (p : Packet)
  | OpRead (address : Z) (data : datablock) (reenter : list (list Packet))
  | OpWrite (address : Z) (data : datablock) (reenter : list (list Packet))
  | OpScFail (address : Z) (data : datablock) (reenter : list (list Packet))
  | OpEvict (address : Z)
  | OpDeadlock
  | OpProtocol (dcache : D) (mandatory_q : MessageBuffer).
Arguments OpMake {D}. Arguments OpRead {D}. Arguments OpWrite {D}. Arguments OpScFail {D}. Arguments OpEvict {D}.
Arguments OpDeadlock {D}. Arguments OpProtocol {D}.

Section Runs.
Context {D : Type} `{LineLocks D}.

Definition drop_data (r : Sequencer D * datablock * list sq_event) : Sequencer D * list sq_event := (r.1.1, r.2).

Definition sq_step (e : sq_env) (s : Sequencer D) (op : sq_op D) : res (Sequencer D * list sq_event) :=
  match op with
  | OpMake p => reentrant e (s, []) p
  | OpRead a data reenter => drop_data <$> readCallback e a reenter s data
  | OpWrite a data reenter => drop_data <$> writeCallback e a reenter s data
  | OpScFail a data reenter => drop_data <$> writeCallbackScFail e a reenter s data
  | OpEvict a => evictionCallback s a
  | OpDeadlock => Sequencer_wakeup e s
  | OpProtocol d q => Ok (s ⟨ m_dataCache := d ⟩ ⟨ m_mandatory_q := q ⟩, [])
  end.

Fixpoint sq_run (s : Sequencer D) (ops : list (sq_env * sq_op D)) : res (Sequencer D * list sq_event) :=
  match ops with
  | [] => Ok (s, [])
  | (e, op) :: ops =>
      r ← sq_step e s op;
      r' ← sq_run r.1 ops;
      Ok (r'.1, r.2 ++ r'.2)
  end.

(** How often the protocol called back for line [a]. *)
Definition callback_on (a : Z) (op : sq_op D) : Z :=
  match op with OpRead b _ _ | OpWrite b _ _ | OpScFail b _ _ => if a =? b then 1 else 0 | _ => 0 end.
Definition callbacks (a : Z) (ops : list (sq_env * sq_op D)) : Z := foldr (fun eo n => callback_on a eo.2 + n) 0 ops.

Lemma ledger_cbs bits ph (cbs cbs' : Z -> Z) tr (s : Sequencer D) :
  (forall a, cbs' a = cbs a) -> ledger bits ph cbs tr s -> ledger bits ph cbs' tr s.
Proof. intros Hc [L1 L2 L3 L4 L5 L6]. split; try done. intros a. by rewrite Hc. Qed.

Lemma write_callback_ledger bits e cbs tr s a reenter data s' data' evs :
  sq_block_bits e = bits -> ledger bits Idle cbs tr s -> writeCallback e a reenter s data = Ok (s', data', evs) ->
  ledger bits Idle (bump a cbs) (tr ++ evs) s' /\ sq_version s' = sq_version s.
Proof.
  intros Hbits Hl Hw. unfold writeCallback in Hw. inv_res. destruct a2 as [[s1 d1] evs1]. injection Hw as <- <- <-. b2p.
  destruct (write_loop_ledger bits e cbs a _ true reenter tr s data s1 d1 evs1 Hbits (open_ledger bits cbs tr s a Hl E0) E1) as (? & ? & Hv).
  split; [by apply close_empty |]. unfold erase_empty. by destruct (requests_at s1 a).
Qed.

Lemma read_callback_ledger bits e cbs tr s a reenter data s' data' evs :
  sq_block_bits e = bits -> ledger bits Idle cbs tr s -> readCallback e a reenter s data = Ok (s', data', evs) ->
  ledger bits Idle (bump a cbs) (tr ++ evs) s' /\ sq_version s' = sq_version s.
Proof.
  intros Hbits Hl Hw. unfold readCallback in Hw. inv_res. destruct a2 as [[s1 d1] evs1]. injection Hw as <- <- <-. b2p.
  destruct (read_loop_ledger bits e cbs a _ true reenter tr s data s1 d1 evs1 Hbits (open_ledger bits cbs tr s a Hl E0) E1) as [Hv Hcase].
  split; [| unfold erase_empty; by destruct (requests_at s1 a)].
  destruct Hcase as [[? ?]|[? ?]]; [by apply close_empty | by apply close_nonempty].
Qed.

Lemma step_ledger bits e cbs tr s op s' evs :
  sq_block_bits e = bits -> ledger bits Idle cbs tr s -> sq_step e s op = Ok (s', evs) ->
  ledger bits Idle (fun a => cbs a + callback_on a op) (tr ++ evs) s' /\ sq_version s' = sq_version s.
Proof.
  intros Hbits Hl Hs. destruct op as [p | a data reenter | a data reenter | a data reenter | a | | d q]; cbn [sq_step] in Hs.
  - destruct (reentrant_ledger bits e Idle cbs [p] tr s [] s' evs Hbits) as (? & _ & ?); [done | by rewrite app_nil_r | |].
    { cbn [foldM]. rewrite Hs. done. }
    split; [| done]. eapply ledger_cbs; [| done]. intros a. cbn. lia.
  - inv_res. destruct a0 as [[s1 d1] evs1]. injection Hs as <- <-.
    exact (read_callback_ledger bits e cbs tr s a reenter data s' d1 evs Hbits Hl E).
  - inv_res. destruct a0 as [[s1 d1] evs1]. injection Hs as <- <-.
    exact (write_callback_ledger bits e cbs tr s a reenter data s' d1 evs Hbits Hl E).
  - inv_res. destruct a0 as [[s1 d1] evs1]. injection Hs as <- <-. unfold writeCallbackScFail in E. inv_res.
    destruct (llscClearMonitor_same _ _ _ E0) as [Hs0 Hv0]. rewrite <- (app_nil_r tr).
    destruct (write_callback_ledger bits e cbs (tr ++ []) a0 a reenter data s' d1 evs Hbits) as [? ?];
      [by eapply ledger_same | done | split; [done | congruence]].
  - unfold evictionCallback in Hs. inv_res. subst. destruct (llscClearMonitor_same _ _ _ E) as [Hs0 Hv0]. split; [| done].
    eapply ledger_cbs; [| by eapply ledger_same]. intros b. cbn. lia.
  - unfold Sequencer_wakeup in Hs. inv_res. destruct (0 <? _) in Hs; injection Hs as <- <-; (split; [| done]);
      (eapply ledger_cbs; [| eapply ledger_same; [| | exact Hl]; done]); intros b; cbn; lia.
  - injection Hs as <- <-. split; [| done]. eapply ledger_cbs; [| eapply ledger_same; [| | exact Hl]; done]. intros b; cbn; lia.
Qed.

Lemma run_ledger bits ops : forall cbs tr s s' evs,
  Forall (fun eo => sq_block_bits eo.1 = bits) ops -> ledger bits Idle cbs tr s -> sq_run s ops = Ok (s', evs) ->
  ledger bits Idle (fun a => cbs a + callbacks a ops) (tr ++ evs) s'.
Proof.
  induction ops as [|[e op] ops IH]; intros cbs tr s s' evs Hf Hl Hr; cbn [sq_run] in Hr.
  - injection Hr as <- <-. rewrite app_nil_r. eapply ledger_cbs; [| done]. intros a. cbn. lia.
  - apply Forall_cons in Hf as [He Hf]. apply res_bind_Ok_inv in Hr as ([s1 evs1] & H1 & Hr).
    apply res_bind_Ok_inv in Hr as ([s2 evs2] & H2 & Hr). cbn [fst snd] in *. injection Hr as <- <-.
    destruct (step_ledger bits e cbs tr s op s1 evs1 He Hl H1) as [Hl1 _].
    rewrite app_assoc. eapply ledger_cbs; [| by eapply IH]. intros a. cbn. unfold callbacks. lia.
Qed.
End Runs.

Lemma reached_ledger {D} `{LineLocks D} (bits version max threshold : Z) (d : D) (q : MessageBuffer) (s0 : Sequencer D)
    (ops : list (sq_env * sq_op D)) (s : Sequencer D) (tr : list sq_event) :
  Sequencer_ctor version max threshold d q = Ok s0 ->
  Forall (fun eo => sq_block_bits eo.1 = bits) ops -> sq_run s0 ops = Ok (s, tr) ->
  ledger bits Idle (fun a => 0 + callbacks a ops) tr s.
Proof.
  intros H0 Hf Hr. apply (run_ledger bits ops (fun _ => 0) [] s0 s tr Hf); [| done].
  unfold Sequencer_ctor in H0. inv_res. b2p. subst s0. split; try done. cbn. lia.
Qed.

(** C10.  The sequencer keeps its books: in every state it can reach - whatever
    the processor requests, also while it is being called back, whatever order
    the protocol calls back in, and whatever the protocol does to the cache -
    for every line the requests taken are, in order, those already completed
    followed by those still in the table, so each is completed once and in
    order; the number of Ruby requests issued for the line is the number of
    callbacks plus one exactly if requests wait (one is under way, never two);
    the count of outstanding requests is the number of requests in the table,
    at most the configured maximum; and no line of the table is empty. *)
Theorem sequencer_ledger {D} `{LineLocks D} (bits version max threshold : Z) (d : D) (q : MessageBuffer) (s0 : Sequencer D)
    (ops : list (sq_env * sq_op D)) (s : Sequencer D) (tr : list sq_event) :
  Sequencer_ctor version max threshold d q = Ok s0 ->
  Forall (fun eo => sq_block_bits eo.1 = bits) ops -> sq_run s0 ops = Ok (s, tr) ->
  (forall a, issued bits tr a = completed bits tr a ++ ((fun r => pkt_id (pkt r)) <$> requests_at s a)) /\
  (forall a, ruby_requests bits tr a = callbacks a ops + if bool_decide (is_Some (m_RequestTable s !! a)) then 1 else 0) /\
  m_outstanding_count s = total_outstanding s /\ 0 <= m_outstanding_count s <= m_max_outstanding_requests s /\
  (forall a l, m_RequestTable s !! a = Some l -> l <> [] /\ Forall (fun r => makeLineAddress bits (pkt_addr (pkt r)) = a) l).
Proof.
  intros H0 Hf Hr. destruct (reached_ledger _ _ _ _ _ _ _ _ _ _ H0 Hf Hr) as [L1 L2 L3 L4 L5 L6].
  cbn in L2. rewrite Z.add_0_r in L2. pose proof (table_total_nonneg (m_RequestTable s)).
  split; [exact L1 |]. split; [intros a; rewrite L4; lia |]. split; [exact L2 |]. split; [lia |].
  intros a l Hl. destruct (L5 a l Hl) as [[Hn|[]] Hf']. split; [done |]. eapply Forall_impl; [exact Hf' |].
  intros r [Hon _]. by apply Z.eqb_eq in Hon.
Qed.

(** ** An instance: line 0 is in the cache; two loads and a store to it, and a
    load to line 64, the store made while the first load is being completed. *)

Instance map_locks : LineLocks (gmap Z Z) :=
  {| lock_of d a := Ok (d !! a); set_lock d a v := Ok (<[a := v]> d) |}.

Definition demo_sq_env (tick : Z) : sq_env :=
  {| sq_block_bits := 6; sq_block_size := 64; sq_period := 500; sq_clockEdge := tick * 500; sq_curCycle := tick;
     sq_draining := false; sq_warmup := false; sq_cooldown := false; sq_x86 := true; sq_three_level := false;
     sq_latency := fun _ => 1; sq_ruby := {| getRandomization := false; getWarmupEnabled := false; getBlockSizeBits := 6 |};
     sq_draw := fun _ => (0, 0, 0) |}.

Definition demo_packet (id addr : Z) (bytes : list Z) (llsc write : bool) : Packet :=
  {| pkt_id := id; pkt_addr := addr; pkt_data := bytes; isLLSC := llsc; isWrite := write; isRead := negb write;
     isFlush := false; isSwap := false; isLockedRMW := false; isInstFetch := false; storeCheck := false;
     pkt_extraData := None |}.

Definition demo_mandatory_q : MessageBuffer := (MessageBuffer_ctor 0 false false) ⟨ m_consumer := Some 1 ⟩.

Definition ledger_ops : list (sq_env * sq_op (gmap Z Z)) :=
  [(demo_sq_env 100, OpMake (demo_packet 1 8 [0; 0] false false));
   (demo_sq_env 101, OpMake (demo_packet 2 16 [0] false false));
   (demo_sq_env 102, OpMake (demo_packet 3 65 [0] false false));
   (demo_sq_env 200, OpRead 0 (replicate 64 7) [[demo_packet 4 8 [1] false true]])].

Definition ledger_s0 : Sequencer (gmap Z Z) :=
  {| sq_version := 3; m_max_outstanding_requests := 16; m_deadlock_threshold := 500000; m_dataCache := {[0 := -1]};
     m_RequestTable := ∅; m_outstanding_count := 0; deadlock_scheduled := false; m_block_map := ∅;
     m_mandatory_q := demo_mandatory_q; sq_draws := 0 |}.

Lemma sequencer_ledger_witness :
  exists s tr, sq_run ledger_s0 ledger_ops = Ok (s, tr) /\ completed 6 tr 0 = [1; 2] /\ issued 6 tr 0 = [1; 2; 4] /\
    ruby_requests 6 tr 0 = 2 /\ m_outstanding_count s = 2 /\ total_outstanding s = 2.
Proof.
  destruct (sq_run ledger_s0 ledger_ops) as [[s tr]|] eqn:E; [| vm_compute in E; discriminate].
  destruct (sequencer_ledger 6 3 16 500000 {[0 := -1]} demo_mandatory_q ledger_s0 ledger_ops s tr eq_refl)
    as (H1 & H2 & H3 & _); [by repeat constructor | exact E |].
  exists s, tr. split; [done |]. rewrite H1, H2, <- H3.
  vm_compute in E. injection E as <- <-. split_and!; vm_compute; reflexivity.
Defined.
