(* ===== verification/SequencerLocks.v ===== *)
(** * Load-linked and store-conditional

    The monitor the sequencer keeps in the entries of the data cache, against a
    reference monitor that only looks at what leaves the sequencer.  The
    theorems are proved against [LineLocksLaws], what the sequencer needs of the
    data cache; [cache_locks] and its laws discharge it for [CacheMemory]. *)
From S2P Require Import Prelude Common StdHeap NetDest MessageBuffer IntMath Replacement BankedArray Victims TreePLRU CacheMemory CacheProofs CacheTheorems DataBlock Sequencer SequencerProofs.

(** ** The laws of the interface *)

Class LineLocksLaws (D : Type) `{LineLocks D} := {
  locks_ok : D -> Prop;
  lock_line : Z -> Prop;
  lock_of_total d a : locks_ok d -> lock_line a -> exists l, lock_of d a = Ok l;
  set_lock_total d a l v : locks_ok d -> lock_of d a = Ok (Some l) -> exists d', set_lock d a v = Ok d';
  set_lock_law d a l v d' : locks_ok d -> lock_of d a = Ok (Some l) -> set_lock d a v = Ok d' ->
    locks_ok d' /\ lock_of d' a = Ok (Some v) /\ forall b, b <> a -> lock_of d' b = lock_of d b
}.

(** ** The data cache *)

Section CacheLocks.
Context {P : Type} `{ReplacementLaws P} (bits : Z).

(** [m_dataCache_ptr->lookup(claddr)] and the monitor of the entry it finds. *)
Definition cache_lock_of (c : CacheMemory P) (claddr : Z) : res (option Z) :=
  line ← lookup_line bits c claddr;
  match line with
  | None => Ok None
  | Some p => en ← deref_entry (entries c) (Some p); Ok (Some (m_locked en))
  end.

Definition cache_set_lock (c : CacheMemory P) (claddr context : Z) : res (CacheMemory P) :=
  line ← lookup_line bits c claddr;
  en ← deref_entry (entries c) line;
  match line with
  | None => Ok c
  | Some p => Ok (c ⟨ entries := <[p := entry_setLocked en context]> (entries c) ⟩)
  end.

Instance cache_locks : LineLocks (CacheMemory P) := {| lock_of := cache_lock_of; set_lock := cache_set_lock |}.

Lemma cache_lock_view c a :
  cache_wf bits c -> is_line bits a = true ->
  cache_lock_of c a = Ok (match view c a with Some p => m_locked <$> (entries c !! p) | None => None end).
Proof.
  intros Hwf Hl. unfold cache_lock_of. rewrite lookup_line_view by done. rsimpl.
  destruct (view c a) as [p|] eqn:Hv; [| done]. destruct (view_Some bits c a p Hwf Hv) as (w & en & _ & _ & He & _).
  cbn [deref_entry]. by rewrite He.
Qed.

Lemma cache_lock_line c a l : cache_lock_of c a = Ok l -> is_line bits a = true.
Proof. unfold cache_lock_of, lookup_line. intros Hl. inv_res. by destruct (is_line bits a). Qed.

Lemma cache_set_lock_law c a l v :
  cache_wf bits c -> cache_lock_of c a = Ok (Some l) ->
  exists c', cache_set_lock c a v = Ok c' /\ cache_wf bits c' /\ cache_lock_of c' a = Ok (Some v) /\
    forall b, b <> a -> cache_lock_of c' b = cache_lock_of c b.
Proof.
  intros Hwf Hlk. pose proof (cache_lock_line _ _ _ Hlk) as Hl. rewrite cache_lock_view in Hlk by done.
  destruct (view c a) as [p|] eqn:Hv; [| done]. destruct (view_Some bits c a p Hwf Hv) as (w & en & _ & Hs & He & Ha & _).
  destruct (upd_entry_spec bits c _ w p (fun en => entry_setLocked en v) Hwf Hs (locked_same_line v)) as (en' & Hen' & _ & Hsame).
  assert (en' = en) as -> by congruence.
  match type of Hsame with same_lines _ ?x => set (c' := x) in * end.
  pose proof (same_lines_wf bits c c' Hsame Hwf) as Hwf'.
  assert (Hvw : forall b, view c' b = view c b) by (intros b; by apply same_lines_view).
  exists c'. split_and!; [| done | |].
  - unfold cache_set_lock. rewrite lookup_line_view, Hv by done. rsimpl. cbn [deref_entry]. by rewrite He.
  - rewrite cache_lock_view, Hvw, Hv by done. unfold c'. cbn [entries setf]. by rewrite lookup_insert_eq.
  - intros b Hb. destruct (is_line bits b) eqn:Hlb.
    + rewrite !cache_lock_view, Hvw by done. destruct (view c b) as [q|] eqn:Hq; [| done]. do 2 f_equal. unfold c'. cbn [entries setf].
      rewrite lookup_insert_ne; [done |]. intros <-.
      destruct (view_Some bits c b p Hwf Hq) as (w' & en' & _ & _ & He' & Ha' & _). congruence.
    + unfold cache_lock_of, lookup_line. by rewrite Hlb.
Qed.

Instance cache_locks_laws : LineLocksLaws (CacheMemory P).
Proof.
  refine {| locks_ok := cache_wf bits; lock_line := fun a => is_line bits a = true |}.
  - intros c a Hwf Hl. cbn. rewrite cache_lock_view by done. by eexists.
  - intros c a l v Hwf Hl. destruct (cache_set_lock_law c a l v Hwf Hl) as (c' & ? & _). by exists c'.
  - intros c a l v c' Hwf Hl Hs. destruct (cache_set_lock_law c a l v Hwf Hl) as (c1 & Hs1 & ?). cbn in Hs.
    assert (c1 = c') as -> by congruence. done.
Defined.
End CacheLocks.

(** ** The reference monitor *)

Section Reference.
Context (bits : Z).

(** The packet an event completes. *)
Definition completes (ev : sq_event) : option Packet :=
  match ev with Respond p | Deleted p => Some p | _ => None end.

Definition load_linked (p : Packet) : bool := isLLSC p && negb (isWrite p).
Definition store_conditional (p : Packet) : bool := isLLSC p && isWrite p.
Definition sc_succeeded (p : Packet) : bool := store_conditional p && bool_decide (pkt_extraData p = Some 1).

(** A completed load-linked sets the monitor of its line; a completed write and
    an eviction of the line clear it. *)
Definition monitor_step (a : Z) (m : bool) (ev : sq_event) : bool :=
  match ev with
  | Evicted b => m && negb (b =? a)
  | _ => match completes ev with
         | Some p => if on_line bits a p then if load_linked p then true else m && negb (isWrite p) else m
         | None => m
         end
  end.
Definition monitor (a : Z) (tr : list sq_event) : bool := foldl (monitor_step a) false tr.

(** Every store-conditional that succeeded found the monitor set. *)
Definition sc_sound (tr : list sq_event) : Prop :=
  forall tr1 ev tr2 p a, tr = tr1 ++ ev :: tr2 -> completes ev = Some p -> on_line bits a p = true ->
    sc_succeeded p = true -> monitor a tr1 = true.

Lemma monitor_snoc a tr ev : monitor a (tr ++ [ev]) = monitor_step a (monitor a tr) ev.
Proof. apply foldl_snoc. Qed.

Lemma sc_sound_snoc tr ev :
  sc_sound tr -> (forall p a, completes ev = Some p -> on_line bits a p = true -> sc_succeeded p = true -> monitor a tr = true) ->
  sc_sound (tr ++ [ev]).
Proof.
  intros Hs He tr1 ev' tr2 p a Heq Hc Ho Hk. destruct tr2 as [|x tr2] using rev_ind.
  - apply app_inj_tail in Heq as [-> ->]. by eapply He.
  - clear IHtr2. rewrite app_comm_cons, app_assoc in Heq. apply app_inj_tail in Heq as [-> ->]. by eapply Hs.
Qed.

(** Events the monitor does not look at. *)
Definition quiet (ev : sq_event) : bool :=
  match ev with Respond _ | Deleted _ | Evicted _ => false | _ => true end.

Lemma quiet_sound tr evs : Forall (fun ev => quiet ev = true) evs -> sc_sound tr ->
  sc_sound (tr ++ evs) /\ forall a, monitor a (tr ++ evs) = monitor a tr.
Proof.
  intros Hq Hs. induction evs as [|ev evs IH] using rev_ind; [by rewrite app_nil_r |].
  apply Forall_app in Hq as [Hq [He _]%Forall_cons]. destruct (IH Hq) as [IH1 IH2]. rewrite app_assoc. split.
  - apply sc_sound_snoc; [done |]. by destruct ev.
  - intros a. rewrite monitor_snoc, IH2. by destruct ev.
Qed.
End Reference.

(** ** The invariant *)

Section Monitor.
Context {D : Type} `{LineLocksLaws D} (bits : Z).
Implicit Types s : Sequencer D.

(** The monitor in the cache is set only where the reference monitor is. *)
Record monitored (tr : list sq_event) s : Prop := {
  mo_locks : locks_ok (m_dataCache s);
  mo_version : sq_version s <> -1;
  mo_sound : sc_sound bits tr;
  mo_lock : forall a, lock_of (m_dataCache s) a = Ok (Some (sq_version s)) -> monitor bits a tr = true
}.

Definition same_cache s s' : Prop := m_dataCache s' = m_dataCache s /\ sq_version s' = sq_version s.

Lemma monitored_quiet tr s s' evs :
  same_cache s s' -> Forall (fun ev => quiet ev = true) evs -> monitored tr s -> monitored (tr ++ evs) s'.
Proof.
  intros [Hd Hv] Hq [M1 M2 M3 M4]. destruct (quiet_sound bits tr evs Hq M3) as [Hs Hm].
  split; rewrite ?Hd, ?Hv; [done | done | done |]. intros a. rewrite Hm. apply M4.
Qed.

Lemma monitored_same tr s s' : same_cache s s' -> monitored tr s -> monitored tr s'.
Proof. intros Hs Hm. rewrite <- (app_nil_r tr). eapply monitored_quiet; [done | constructor | done]. Qed.

Lemma from_queue_quiet qe : Forall (fun ev => quiet ev = true) (FromQueue <$> qe).
Proof. by induction qe; constructor. Qed.

Lemma issue_quiet e s p t s' evs :
  issueRequest e s p t = Ok (s', evs) -> same_cache s s' /\ Forall (fun ev => quiet ev = true) evs.
Proof.
  intros Hi. destruct (issueRequest_spec _ _ _ _ _ _ Hi) as (_ & Hd & Hv & qe & ->).
  split; [done |]. constructor; [done | apply from_queue_quiet].
Qed.

Lemma make_quiet e s p st s' evs :
  makeRequest e s p = Ok (st, s', evs) -> same_cache s s' /\ Forall (fun ev => quiet ev = true) evs.
Proof.
  unfold makeRequest. intros Hm. destruct (_ <=? _) in Hm; [by injection Hm as <- <- <- |].
  apply res_bind_Ok_inv in Hm as (ts & _ & Hm). destruct (_ && _)%bool in Hm; [by injection Hm as <- <- <- |].
  destruct (insertRequest e s p ts.1 ts.2) as [[st1 s1] evs1] eqn:Ei.
  assert (same_cache s s1 /\ Forall (fun ev => quiet ev = true) evs1) as [Hs1 Hq1].
  { unfold insertRequest in Ei. destruct (_ && _)%bool in Ei; injection Ei as _ <- <-; (split; [done |]); by repeat constructor. }
  destruct st1; try by injection Hm as <- <- <-.
  apply res_bind_Ok_inv in Hm as ([s2 evs2] & H2 & Hm). cbn [fst snd] in Hm. injection Hm as <- <- <-.
  destruct (issue_quiet _ _ _ _ _ _ H2) as [Hs2 Hq2]. split; [| by apply Forall_app].
  destruct Hs1, Hs2. split; congruence.
Qed.

Lemma reentrant_quiet e again : forall s evs s' evs',
  foldM (reentrant e) again (s, evs) = Ok (s', evs') ->
  same_cache s s' /\ exists evs2, evs' = evs ++ evs2 /\ Forall (fun ev => quiet ev = true) evs2.
Proof.
  induction again as [|p again IH]; intros s evs s' evs' Hf; cbn [foldM] in Hf.
  { injection Hf as <- <-. split; [done |]. exists []. by rewrite app_nil_r. }
  apply res_bind_Ok_inv in Hf as ([s1 evs1] & H1 & Hf). unfold reentrant in H1. inv_res. destruct a as [[st s2] evs2].
  cbn [fst snd] in *. injection H1 as <- <-. destruct (make_quiet _ _ _ _ _ _ E) as [[Hd Hv] Hq].
  destruct (IH _ _ _ _ Hf) as ([Hd' Hv'] & evs3 & -> & Hq3). split; [split; congruence |].
  exists ((evs2 ++ [Answered p st]) ++ evs3). rewrite !app_assoc. split; [done |].
  apply Forall_app; split; [apply Forall_app; split; [done | by repeat constructor] | done].
Qed.

(** ** The three operations on the monitor *)

Lemma load_linked_spec tr s a s' :
  monitored tr s -> llscLoadLinked s a = Ok s' ->
  locks_ok (m_dataCache s') /\ sq_version s' = sq_version s /\
  forall b, b <> a -> lock_of (m_dataCache s') b = lock_of (m_dataCache s) b.
Proof.
  intros [M1 M2 M3 M4] Hl. unfold llscLoadLinked in Hl. inv_res. destruct a0 as [l|]; [| by injection Hl as <-].
  unfold write_lock in Hl. inv_res. subst s'. cbn. by destruct (set_lock_law _ _ _ _ _ M1 E E0) as (? & _ & ?).
Qed.

(** Giving up the monitor of a line. *)
Lemma unlock_monitored tr s a l s' :
  monitored tr s -> lock_of (m_dataCache s) a = Ok (Some l) -> write_lock s a (-1) = Ok s' ->
  monitored tr s' /\ lock_of (m_dataCache s') a <> Ok (Some (sq_version s')).
Proof.
  intros [M1 M2 M3 M4] Hl Hw. unfold write_lock in Hw. inv_res. subst s'. cbn.
  destruct (set_lock_law _ _ _ _ _ M1 Hl E) as (Hok & Ha & Hb).
  assert (lock_of a0 a <> Ok (Some (sq_version s))) as Hne by (rewrite Ha; congruence).
  split; [| done]. split; try done. cbn. intros b Hlb. destruct (decide (b = a)) as [->|Hab]; [done |].
  apply M4. by rewrite <- Hb.
Qed.

Lemma clear_monitored tr s a s' :
  monitored tr s -> llscClearMonitor s a = Ok s' ->
  monitored tr s' /\ lock_of (m_dataCache s') a <> Ok (Some (sq_version s')).
Proof.
  intros Hm Hc. unfold llscClearMonitor in Hc. inv_res. destruct a0 as [l|].
  - destruct (l =? sq_version s) eqn:El; b2p; [by eapply unlock_monitored |]. injection Hc as <-. split; [done |]. congruence.
  - injection Hc as <-. split; [done |]. congruence.
Qed.

Lemma store_conditional_monitored tr s a s' ok :
  monitored tr s -> llscStoreConditional s a = Ok (s', ok) ->
  monitored tr s' /\ lock_of (m_dataCache s') a <> Ok (Some (sq_version s')) /\ (ok = true -> monitor bits a tr = true).
Proof.
  intros Hm Hc. unfold llscStoreConditional in Hc. inv_res. destruct a0 as [l|].
  - inv_res. subst. destruct (unlock_monitored _ _ _ _ _ Hm E E0) as [? ?]. split_and!; [done | done |].
    intros Hk. b2p. subst l. by apply (mo_lock _ _ Hm).
  - injection Hc as <- <-. split_and!; [done | congruence | done].
Qed.

(** ** Completions *)

Lemma request_types_shape e p t1 t2 :
  request_types e p = Ok (t1, t2) ->
  (t1 = RubyRequestType_Store_Conditional <-> store_conditional p = true) /\
  (t1 = RubyRequestType_Load_Linked <-> load_linked p = true) /\ (is_load t1 = true -> isWrite p = false).
Proof.
  unfold request_types, store_conditional, load_linked. intros Ht.
  destruct (isLLSC p), (isWrite p), (isLockedRMW p), (isRead p), (isInstFetch p), (isFlush p), (sq_x86 e && storeCheck p)%bool;
    cbn in Ht; simplify_eq; cbn; split_and!; try split; done.
Qed.

(** The one completion event of a request, then quiet ones. *)
Lemma response_monitor e p tr a :
  monitor bits a (tr ++ response e p) = monitor_step bits a (monitor bits a tr) (Respond p).
Proof.
  unfold response. destruct (sq_warmup e), (sq_cooldown e);
    rewrite 1?(app_assoc tr [Deleted p] [_] : tr ++ [Deleted p; _] = _), ?monitor_snoc; done.
Qed.

Lemma response_sound e p tr :
  sc_sound bits tr -> (forall a, on_line bits a p = true -> sc_succeeded p = true -> monitor bits a tr = true) ->
  sc_sound bits (tr ++ response e p).
Proof.
  intros Hs Hp. unfold response. destruct (sq_warmup e), (sq_cooldown e);
    rewrite 1?(app_assoc tr [Deleted p] [_] : tr ++ [Deleted p; _] = _); repeat (apply sc_sound_snoc; try done);
    intros q a; cbn; intros [= <-]; apply Hp.
Qed.

Lemma hit_monitored e tr s r a data ok again s' data' evs :
  sq_block_bits e = bits -> monitored tr s -> on_line bits a (pkt r) = true ->
  (m_type r = RubyRequestType_Load_Linked <-> load_linked (pkt r) = true) ->
  (isWrite (pkt r) = true -> lock_of (m_dataCache s) a <> Ok (Some (sq_version s))) ->
  (sc_succeeded (pkt r) = true -> monitor bits a tr = true) ->
  hitCallback e s r data ok again = Ok (s', data', evs) -> monitored (tr ++ evs) s'.
Proof.
  intros Hbits Hm Hon Hll Hw Hsc Hh. unfold hitCallback in Hh.
  apply res_bind_Ok_inv in Hh as (s2 & H2 & Hh). apply res_bind_Ok_inv in Hh as ([p' d'] & Hacc & Hh).
  apply res_bind_Ok_inv in Hh as ([s3 evs3] & Hf & Hh). cbn [fst snd] in *. injection Hh as <- <- <-.
  apply access_data_spec in Hacc.
  assert (Honp : forall b, on_line bits b p' = on_line bits b (pkt r)) by (intros b; by rewrite Hacc).
  assert (load_linked p' = load_linked (pkt r) /\ isWrite p' = isWrite (pkt r) /\ sc_succeeded p' = sc_succeeded (pkt r)) as (Hp1 & Hp2 & Hp3)
    by (by rewrite Hacc).
  assert (Hline : line_of e (pkt_addr (pkt r)) = a) by (unfold line_of; rewrite Hbits; by apply Z.eqb_eq).
  assert (Honly : forall b, on_line bits b (pkt r) = true -> b = a).
  { intros b Hb. unfold on_line in *. b2p. congruence. }
  assert (monitored (tr ++ response e p') s2) as Hm2.
  { assert (locks_ok (m_dataCache s2) /\ sq_version s2 = sq_version s /\
      forall b, lock_of (m_dataCache s2) b = Ok (Some (sq_version s)) -> monitor bits b (tr ++ response e p') = true) as (Hlk & Hv & Hmon).
    { destruct (bool_decide _) eqn:Et in H2; b2p.
      - rewrite Hline in H2. destruct (load_linked_spec tr s a s2 Hm H2) as (H1 & H3 & H4). split_and!; [done | done |].
        intros b Hb. rewrite response_monitor. cbn. rewrite Honp, Hp1, (proj1 Hll Et).
        destruct (on_line bits b (pkt r)) eqn:Eb; [done |]. apply (mo_lock _ _ Hm). rewrite <- H4; [done |]. intros ->. congruence.
      - injection H2 as <-. split_and!; [apply Hm | done |]. intros b Hb. rewrite response_monitor. cbn.
        pose proof (mo_lock _ _ Hm b Hb) as Hmb. rewrite Honp, Hp1, Hp2, Hmb. destruct (on_line bits b (pkt r)) eqn:Eb; [| done].
        destruct (load_linked (pkt r)); [done |]. destruct (isWrite (pkt r)) eqn:Ew; [| done]. apply Honly in Eb. subst b.
        by destruct (Hw eq_refl). }
    split; [done | rewrite Hv; apply Hm | | rewrite Hv; done].
    apply response_sound; [apply Hm |]. intros b. rewrite Honp, Hp3. intros Hb. apply Honly in Hb. subst b. exact Hsc. }
  destruct (reentrant_quiet e again s2 _ s3 evs3 Hf) as (Hs3 & evs4 & -> & Hq).
  fold (response e p'). rewrite app_assoc. by eapply monitored_quiet.
Qed.

Lemma head_line cbs tr s a r rest :
  ledger bits (Open a) cbs tr s -> requests_at s a = r :: rest -> on_line bits a (pkt r) = true /\ typed r.
Proof.
  intros Hl Hr. unfold requests_at in Hr. destruct (m_RequestTable s !! a) as [l|] eqn:El; [| done]. subst l.
  by destruct (ld_table _ _ _ _ _ Hl a _ El) as [_ [Ho _]%Forall_cons].
Qed.

Lemma write_one_monitored e cbs tr s a rr again data r rest s' data' evs :
  sq_block_bits e = bits -> ledger bits (Open a) cbs tr s -> requests_at s a = r :: rest -> monitored tr s ->
  write_one e a rr again s data r = Ok (s', data', evs) -> monitored (tr ++ evs) s'.
Proof.
  intros Hbits Hl Hr Hm Hw. destruct (head_line _ _ _ _ _ _ Hl Hr) as [Hon [e0 Hty]].
  destruct (request_types_shape e0 _ _ _ Hty) as (Hsc & Hll & Hld). unfold write_one in Hw.
  apply res_bind_Ok_inv in Hw as (u & _ & Hw). destruct (is_load (m_type r)) eqn:El; cbn [negb] in Hw.
  { apply res_bind_Ok_inv in Hw as (u' & _ & Hw). specialize (Hld eq_refl).
    eapply (hit_monitored e tr (markRemoved s) r a); try done; [by eapply monitored_same; [| exact Hm] | congruence |].
    unfold sc_succeeded, store_conditional. by rewrite Hld, andb_false_r. }
  apply res_bind_Ok_inv in Hw as ([[s1 ok] r1] & Hx & Hw). apply res_bind_Ok_inv in Hw as (u' & _ & Hw).
  assert (monitored tr s1 /\ lock_of (m_dataCache s1) a <> Ok (Some (sq_version s1)) /\ on_line bits a (pkt r1) = true /\
    m_type r1 = m_type r /\ load_linked (pkt r1) = load_linked (pkt r) /\ (sc_succeeded (pkt r1) = true -> monitor bits a tr = true))
    as (Hm1 & Hlk & Hon1 & Ht1 & Hll1 & Hs1).
  { clear Hw. destruct (negb _) eqn:Et in Hx.
    - apply res_bind_Ok_inv in Hx as (s2 & E & Hx). injection Hx as <- <- <-. destruct (clear_monitored _ _ _ _ Hm E) as [? ?]. split_and!; try done. apply negb_true_iff in Et. b2p.
      unfold sc_succeeded. destruct (store_conditional (pkt r)); [by destruct Et; apply Hsc | done].
    - apply res_bind_Ok_inv in Hx as ([s2 b] & E & Hx). cbn [fst snd] in Hx. injection Hx as <- <- <-.
      destruct (store_conditional_monitored _ _ _ _ _ Hm E) as (? & ? & Hb). split_and!; try done.
      unfold sc_succeeded. cbn. intros [_ Hk]%andb_true_iff. b2p. apply Hb. by destruct b. }
  match type of Hw with hitCallback _ (markRemoved ?x) _ _ _ _ = _ => assert (same_cache s1 (markRemoved x)) as [Hd2 Hv2] by (by destruct (m_type r1)) end.
  eapply (hit_monitored e tr _ r1 a); [done | by eapply monitored_same; [| exact Hm1] | done | | | exact Hs1 | exact Hw].
  - by rewrite Ht1, Hll1.
  - intros _. by rewrite Hd2, Hv2.
Qed.

Lemma write_loop_monitored e cbs a fuel : forall rr reenter tr s data s' data' evs,
  sq_block_bits e = bits -> ledger bits (Open a) cbs tr s -> monitored tr s ->
  write_loop e fuel a rr reenter s data = Ok (s', data', evs) -> monitored (tr ++ evs) s'.
Proof.
  induction fuel as [|fuel IH]; intros rr reenter tr s data s' data' evs Hbits Hl Hm Hw; cbn [write_loop] in Hw;
    (destruct (requests_at s a) as [|r rest] eqn:Er; [injection Hw as <- <- <-; by rewrite app_nil_r |]); [done |].
  apply res_bind_Ok_inv in Hw as ([[s1 d1] evs1] & H1 & Hw). apply res_bind_Ok_inv in Hw as ([[s2 d2] evs2] & H2 & Hw).
  injection Hw as <- <- <-. rewrite app_assoc.
  destruct (write_one_ledger bits e cbs tr s a rr (hd [] reenter) data r rest s1 d1 evs1 Hbits Hl Er H1) as [Hl1 _].
  eapply IH; [done | by apply pop_ledger | | exact H2].
  eapply monitored_same; [| by eapply write_one_monitored]. done.
Qed.

Lemma read_loop_monitored e cbs a fuel : forall rr reenter tr s data s' data' evs,
  sq_block_bits e = bits -> ledger bits (Open a) cbs tr s -> monitored tr s ->
  read_loop e fuel a rr reenter s data = Ok (s', data', evs) -> monitored (tr ++ evs) s'.
Proof.
  induction fuel as [|fuel IH]; intros rr reenter tr s data s' data' evs Hbits Hl Hm Hw; cbn [read_loop] in Hw;
    (destruct (requests_at s a) as [|r rest] eqn:Er; [injection Hw as <- <- <-; by rewrite app_nil_r |]);
    apply res_bind_Ok_inv in Hw as (u & _ & Hw);
    (destruct (is_load (m_type r)) eqn:El; cbn [negb] in Hw;
      [| apply res_bind_Ok_inv in Hw as ([s1 evs1] & H1 & Hw); injection Hw as <- <- <-; cbn [fst snd];
       destruct (issue_quiet _ _ _ _ _ _ H1) as [? ?]; by eapply monitored_quiet]); [done |].
  apply res_bind_Ok_inv in Hw as (u' & _ & Hw).
  apply res_bind_Ok_inv in Hw as ([[s1 d1] evs1] & H1 & Hw). apply res_bind_Ok_inv in Hw as ([[s2 d2] evs2] & H2 & Hw).
  injection Hw as <- <- <-. rewrite app_assoc. destruct (head_line _ _ _ _ _ _ Hl Er) as [Hon [e0 Hty]].
  destruct (request_types_shape e0 _ _ _ Hty) as (Hsc & Hll & Hld). specialize (Hld El).
  destruct (hit_ledger bits e cbs tr s s a r rest r data true (hd [] reenter) s1 d1 evs1 Hbits Hl Er (reflexivity s) eq_refl eq_refl H1) as [Hl1 _].
  eapply IH; [done | by apply pop_ledger | | exact H2].
  apply (monitored_same _ s1); [done |].
  eapply (hit_monitored e tr (markRemoved s) r a); try exact H1; [done | by eapply monitored_same; [| exact Hm] | done | done | congruence |].
  unfold sc_succeeded, store_conditional. by rewrite Hld, andb_false_r.
Qed.

Lemma callback_monitored e cbs tr s a reenter data s' data' evs :
  sq_block_bits e = bits -> ledger bits Idle cbs tr s -> monitored tr s ->
  readCallback e a reenter s data = Ok (s', data', evs) \/ writeCallback e a reenter s data = Ok (s', data', evs) ->
  monitored (tr ++ evs) s'.
Proof.
  intros Hbits Hl Hm [Hw|Hw]; [unfold readCallback in Hw | unfold writeCallback in Hw]; inv_res; destruct a2 as [[s1 d1] evs1];
    injection Hw as <- <- <-; b2p; pose proof (open_ledger bits cbs tr s a Hl E0) as Ho;
    (apply (monitored_same _ s1); [unfold erase_empty; by destruct (requests_at s1 a) |]);
    [by eapply read_loop_monitored | by eapply write_loop_monitored].
Qed.

(** What the sequencer relies on: in between, the protocol keeps the cache
    well-formed and never gives a line this sequencer's monitor. *)
Definition protocol_keeps (s : Sequencer D) (op : sq_op D) : Prop :=
  match op with
  | OpProtocol d _ => locks_ok d /\ forall a, lock_of d a = Ok (Some (sq_version s)) -> lock_of (m_dataCache s) a = Ok (Some (sq_version s))
  | _ => True
  end.

Fixpoint run_keeps (s : Sequencer D) (ops : list (sq_env * sq_op D)) : Prop :=
  match ops with
  | [] => True
  | (e, op) :: ops => protocol_keeps s op /\ match sq_step e s op with Ok r => run_keeps r.1 ops | Err _ => True end
  end.

Lemma evicted_monitored tr s a :
  monitored tr s -> lock_of (m_dataCache s) a <> Ok (Some (sq_version s)) -> monitored (tr ++ [Evicted a]) s.
Proof.
  intros [M1 M2 M3 M4] Ha. split; try done; [by apply sc_sound_snoc |]. intros b Hb. rewrite monitor_snoc. cbn.
  rewrite M4 by done. apply negb_true_iff, Z.eqb_neq. congruence.
Qed.

Lemma step_monitored e cbs tr s op s' evs :
  sq_block_bits e = bits -> ledger bits Idle cbs tr s -> monitored tr s -> protocol_keeps s op ->
  sq_step e s op = Ok (s', evs) -> monitored (tr ++ evs) s'.
Proof.
  intros Hbits Hl Hm Hk Hs. destruct op as [p | a data reenter | a data reenter | a data reenter | a | | d q]; cbn [sq_step] in Hs.
  - destruct (reentrant_quiet e [p] s [] s' evs) as (Hsc & evs2 & -> & Hq); [cbn [foldM]; by rewrite Hs |]. by eapply monitored_quiet.
  - inv_res. destruct a0 as [[s1 d1] evs1]. injection Hs as <- <-. eapply callback_monitored; eauto.
  - inv_res. destruct a0 as [[s1 d1] evs1]. injection Hs as <- <-. eapply callback_monitored; eauto.
  - inv_res. destruct a0 as [[s1 d1] evs1]. injection Hs as <- <-. unfold writeCallbackScFail in E. inv_res.
    destruct (llscClearMonitor_same _ _ _ E0) as [Hs0 _]. destruct (clear_monitored _ _ _ _ Hm E0) as [Hm0 _].
    rewrite <- (app_nil_r tr). eapply callback_monitored; [done | by eapply ledger_same | by rewrite app_nil_r | by right].
  - unfold evictionCallback in Hs. inv_res. subst. destruct (clear_monitored _ _ _ _ Hm E) as [? ?]. by apply evicted_monitored.
  - unfold Sequencer_wakeup in Hs. inv_res. destruct (0 <? _) in Hs; injection Hs as <- <-;
      (eapply monitored_quiet; [| | exact Hm]; [done | by repeat constructor]).
  - injection Hs as <- <-. rewrite app_nil_r. destruct Hk as [Hok Hk], Hm as [M1 M2 M3 M4]. split; try done. intros a Ha. by apply M4, Hk.
Qed.

Lemma run_monitored ops : forall cbs tr s s' evs,
  Forall (fun eo => sq_block_bits eo.1 = bits) ops -> ledger bits Idle cbs tr s -> monitored tr s -> run_keeps s ops ->
  sq_run s ops = Ok (s', evs) -> monitored (tr ++ evs) s'.
Proof.
  induction ops as [|[e op] ops IH]; intros cbs tr s s' evs Hf Hl Hm Hk Hr; cbn [sq_run run_keeps] in *.
  - injection Hr as <- <-. by rewrite app_nil_r.
  - apply Forall_cons in Hf as [He Hf]. destruct Hk as [Hk Hks]. apply res_bind_Ok_inv in Hr as ([s1 evs1] & H1 & Hr). rewrite H1 in Hks.
    apply res_bind_Ok_inv in Hr as ([s2 evs2] & H2 & Hr). cbn [fst snd] in *. injection Hr as <- <-. rewrite app_assoc.
    destruct (step_ledger bits e cbs tr s op s1 evs1 He Hl H1) as [Hl1 _].
    eapply IH; [done | exact Hl1 | by eapply step_monitored | done | done].
Qed.
End Monitor.

(** C17.  Store-conditionals are sound: whenever the sequencer completes a
    store-conditional with success, then before it a load-linked to the same
    line was completed, and since the last one the sequencer completed no other
    write to the line and saw no eviction of it (the reference monitor is set).
    This holds for every run, from any data cache in which the sequencer holds
    no monitor, as long as the protocol itself never gives it one. *)
Theorem store_conditional_sound {D} `{LineLocksLaws D} (bits version max threshold : Z) (d : D) (q : MessageBuffer)
    (s0 : Sequencer D) (ops : list (sq_env * sq_op D)) (s : Sequencer D) (tr : list sq_event) :
  version <> -1 -> locks_ok d -> (forall a, lock_of d a <> Ok (Some version)) ->
  Sequencer_ctor version max threshold d q = Ok s0 ->
  Forall (fun eo => sq_block_bits eo.1 = bits) ops -> run_keeps s0 ops -> sq_run s0 ops = Ok (s, tr) ->
  forall tr1 ev tr2 p, tr = tr1 ++ ev :: tr2 -> completes ev = Some p -> sc_succeeded p = true ->
    monitor bits (makeLineAddress bits (pkt_addr p)) tr1 = true.
Proof.
  intros Hv Hok Hno Hctor Hf Hk Hr tr1 ev tr2 p Htr Hc Hs.
  assert (ledger bits Idle (fun _ => 0) [] s0 /\ monitored bits [] s0) as [Hl0 Hm0].
  { unfold Sequencer_ctor in Hctor. inv_res. b2p. subst s0. split; [split; try done; cbn; lia |].
    split; try done; [intros tr0 ev' tr3 p' b Hnil; by destruct tr0 | intros b Hb; by destruct (Hno b)]. }
  eapply (mo_sound bits tr s); [exact (run_monitored bits ops _ [] s0 s tr Hf Hl0 Hm0 Hk Hr) | exact Htr | exact Hc | apply Z.eqb_refl | exact Hs].
Qed.

(** ** An instance: a load-linked and a store-conditional to line 0 of a
    Tree-PLRU cache. *)

Definition llsc_ops : list (sq_env * sq_op (CacheMemory TreePLRURP)) :=
  [(demo_sq_env 100, OpMake (demo_packet 1 8 [0; 0; 0; 0] true false));
   (demo_sq_env 200, OpRead 0 (replicate 64 7) []);
   (demo_sq_env 300, OpMake (demo_packet 2 8 [1; 2; 3; 4] true true));
   (demo_sq_env 400, OpWrite 0 (replicate 64 7) [])].

Definition llsc_s0 : Sequencer (CacheMemory TreePLRURP) :=
  {| sq_version := 3; m_max_outstanding_requests := 16; m_deadlock_threshold := 500000; m_dataCache := demo_c2;
     m_RequestTable := ∅; m_outstanding_count := 0; deadlock_scheduled := false; m_block_map := ∅;
     m_mandatory_q := demo_mandatory_q; sq_draws := 0 |}.

(** The lock of a line is that of some entry. *)
Lemma cache_lock_entry (bits : Z) (c : CacheMemory TreePLRURP) a v :
  forallb (fun kv => negb (m_locked kv.2 =? v)) (map_to_list (entries c)) = true -> cache_lock_of bits c a <> Ok (Some v).
Proof.
  intros Hf Hl. unfold cache_lock_of in Hl. inv_res. destruct a0 as [p|]; [| done]. cbn [deref_entry] in Hl.
  destruct (entries c !! p) as [en|] eqn:He; [| done]. cbn in Hl. rewrite forallb_forall in Hf. specialize (Hf (p, en)). apply elem_of_map_to_list, list_elem_of_In in He. specialize (Hf He). cbn in Hf.
  injection Hl as Hl. rewrite Hl, Z.eqb_refl in Hf. done.
Qed.

Lemma store_conditional_sound_witness :
  exists s tr1 p tr2, sq_run (H := cache_locks 6) llsc_s0 llsc_ops = Ok (s, tr1 ++ Respond p :: tr2) /\ sc_succeeded p = true /\
    monitor 6 0 tr1 = true.
Proof.
  destruct (sq_run (H := cache_locks 6) llsc_s0 llsc_ops) as [[s tr]|] eqn:E; [| vm_compute in E; discriminate].
  assert (exists p, tr !! 10%nat = Some (Respond p) /\ sc_succeeded p = true /\ makeLineAddress 6 (pkt_addr p) = 0) as (p & Hp & Hs & Ha).
  { vm_compute in E. injection E as _ <-. eexists. split; [reflexivity |]. split; reflexivity. }
  pose proof (take_drop_middle tr 10 (Respond p) Hp) as Htr.
  exists s, (take 10 tr), p, (drop 11 tr). rewrite Htr. split; [done |]. split; [done |]. rewrite <- Ha.
  eapply (store_conditional_sound (H0 := cache_locks_laws 6) 6 3 16 500000 demo_c2 demo_mandatory_q llsc_s0 llsc_ops s tr);
    [lia | apply reachable_cache_wf, demo_reachable | | reflexivity | by repeat constructor | | exact E | symmetry; exact Htr | reflexivity | exact Hs].
  - intros a. apply (cache_lock_entry 6). vm_compute. reflexivity.
  - cbn [run_keeps llsc_ops]. repeat (split; [exact I |]; case_match; [| exact I]). exact I.
Defined.
