(* ===== verification/SequencerProgress.v ===== *)
(** * Callbacks of the sequencer return

    When the protocol calls back for a line, the sequencer answers: the loops of
    [readCallback] and [writeCallback] end, none of their assertions fails, and
    every request that can be completed is.  The hypotheses are those of a
    well-behaved client: packets that lie inside their line, a protocol that
    answers the request that is under way, and a mandatory queue that takes
    messages. *)
From S2P Require Import Prelude Common StdHeap NetDest MessageBuffer BufferStore IntMath Replacement BankedArray Victims CacheMemory DataBlock Sequencer SequencerProofs SequencerLocks.

Section Progress.
Context {D : Type} `{LineLocksLaws D} (bits latency : Z) (e : sq_env).
Implicit Types s : Sequencer D.

(** When a Ruby request issued now reaches the controller. *)
Definition arrival : Z := sq_clockEdge e + sq_period e * latency.

Record env_fits : Prop := {
  ef_bits : sq_block_bits e = bits /\ 0 < bits <= 64;
  ef_size : sq_block_size e = 2 ^ bits;
  ef_ruby : getRandomization (sq_ruby e) = false;
  ef_latency : forall t, sq_latency e t = latency;
  ef_time : 0 <= sq_clockEdge e /\ 0 < sq_period e * latency /\ arrival < 2 ^ 64
}.

(** A packet that lies inside a line and has a request type. *)
Definition packet_fits (p : Packet) : Prop :=
  in_u64 (pkt_addr p) /\ pkt_addr p mod 2 ^ bits + pkt_size p <= 2 ^ bits.
Definition packet_ok (p : Packet) : Prop := packet_fits p /\ exists ts, request_types e p = Ok ts.

(** A state in which a callback for [a] can go on. *)
Record ready (a : Z) s : Prop := {
  rd_locks : locks_ok (m_dataCache s);
  rd_queue : can_receive arrival (m_mandatory_q s);
  rd_fits : Forall (fun r => packet_fits (pkt r)) (requests_at s a)
}.

(** The last thing that happened, leading to [s'], is that request [r] was
    issued: its Ruby message entered the mandatory queue. *)
Definition reissued (r : SequencerRequest) s' (evs : list sq_event) : Prop :=
  exists evs0 qevs q m, evs = evs0 ++ IssueRuby (pkt r) (m_second_type r) :: (FromQueue <$> qevs) /\
    puts m arrival q (m_mandatory_q s') /\ payload m = pkt_id (pkt r).

Context (Henv : env_fits).

(** ** Requests *)

Lemma issue_ok s p t :
  can_receive arrival (m_mandatory_q s) ->
  exists s' evs, issueRequest e s p t = Ok (s', evs) /\ same_table s s' /\ m_dataCache s' = m_dataCache s /\
    can_receive arrival (m_mandatory_q s') /\
    exists qevs m, evs = IssueRuby p t :: (FromQueue <$> qevs) /\
      puts m arrival (m_mandatory_q s) (m_mandatory_q s') /\ payload m = pkt_id p.
Proof.
  intros Hq. destruct Henv as [_ _ Hr Hl (Ht & Hp & Ha)]. unfold issueRequest. rewrite Hl.
  rewrite (u64_id (sq_period e * latency)) by (unfold in_u64, arrival in *; lia).
  rewrite (proj2 (Z.ltb_lt 0 _) Hp). rsimpl.
  destruct (enqueue_ok (sq_ruby e) (sq_draw e (sq_draws s)) (m_mandatory_q s)
    (Message_ctor (sq_clockEdge e) [] Request_Control (pkt_id p)) (sq_clockEdge e) (sq_period e * latency) Hr Ht Hp Ha Hq)
    as (b' & m' & -> & Hputs & Hsame); [cbn; lia |].
  rsimpl. eexists _, _. split; [reflexivity |]. split_and!; try done.
  - cbn. eapply puts_can_receive; [exact Hputs | unfold arrival; lia | done].
  - eexists _, m'. split; [reflexivity |]. split; [exact Hputs |]. by destruct Hsame as (Hpay & _).
Qed.

Lemma make_ok s a p :
  ready a s -> packet_ok p ->
  exists st s' evs, makeRequest e s p = Ok (st, s', evs) /\ ready a s' /\
    (length (requests_at s' a) <= S (length (requests_at s a)))%nat.
Proof.
  intros [R1 R2 R3] [Hfit [ts Hts]]. unfold makeRequest. destruct (_ <=? _).
  { eexists _, _, _. split; [reflexivity |]. split; [done | lia]. }
  rewrite Hts. rsimpl. destruct (_ && _)%bool.
  { eexists _, _, _. split; [reflexivity |]. split; [done | lia]. }
  destruct (insertRequest e s p ts.1 ts.2) as [[st s1] evs1] eqn:Ei.
  assert (ready a s1 /\ (length (requests_at s1 a) <= S (length (requests_at s a)))%nat /\ (st = RequestStatus_Ready \/ st = RequestStatus_Aliased))
    as ([S1 S2 S3] & Hlen & Hst).
  { unfold insertRequest in Ei. set (b := line_of e (pkt_addr p)) in *.
    match type of Ei with (let '(_, _) := ?x in _) = _ => destruct x as [s2 evs2] eqn:E1 end.
    assert (same_table s s2 /\ m_dataCache s2 = m_dataCache s /\ m_mandatory_q s2 = m_mandatory_q s) as (Hs2 & Hd2 & Hq2).
    { destruct (_ && _)%bool in E1; by injection E1 as <- <-. }
    rewrite (same_table_at s s2 b Hs2) in Ei. injection Ei as <- <- <-.
    match goal with |- context [ready a ?q] => set (s3 := q) end.
    match type of s3 with _ => match eval unfold s3 in s3 with context [requests_at s b ++ [?r]] => set (r0 := r) in * end end.
    assert (Hat : requests_at s3 a = if decide (a = b) then requests_at s b ++ [r0] else requests_at s a).
    { change (requests_at s3 a) with (requests_at (s2 ⟨ m_RequestTable := <[b := requests_at s b ++ [r0]]> (m_RequestTable s2) ⟩) a).
      rewrite requests_at_insert. case_decide; [done |]. by apply same_table_at. }
    split_and!.
    - split; [change (m_dataCache s3) with (m_dataCache s2); by rewrite Hd2 | change (m_mandatory_q s3) with (m_mandatory_q s2); by rewrite Hq2 |].
      rewrite Hat. destruct (decide (a = b)) as [Hab|Hab]; [| done]. apply Forall_app. rewrite <- Hab. split; [done |]. by apply Forall_singleton.
    - rewrite Hat. destruct (decide (a = b)) as [Hab|Hab]; [rewrite length_app, Hab; cbn; lia | lia].
    - destruct (_ <? _)%nat; auto. }
  destruct Hst as [-> | ->].
  - destruct (issue_ok s1 p ts.2 S2) as (s2 & evs2 & -> & Hs2 & Hd2 & Hq2 & _). rsimpl. eexists _, _, _. split; [reflexivity |]. cbn [fst snd].
    rewrite (same_table_at s1 s2 a Hs2). split; [| done]. split; [by rewrite Hd2 | done | by rewrite (same_table_at s1 s2 a Hs2)].
  - eexists _, _, _. by split; [reflexivity |].
Qed.

Lemma reentrant_ok a again : forall s evs,
  ready a s -> Forall packet_ok again ->
  exists s' evs', foldM (reentrant e) again (s, evs) = Ok (s', evs') /\ ready a s' /\
    (length (requests_at s' a) <= length (requests_at s a) + length again)%nat.
Proof.
  induction again as [|p again IH]; intros s evs Hr Hf; cbn [foldM].
  { eexists _, _. split; [reflexivity |]. split; [done | cbn; lia]. }
  apply Forall_cons in Hf as [Hp Hf]. destruct (make_ok s a p Hr Hp) as (st & s1 & evs1 & Hm & Hr1 & Hl1).
  assert (reentrant e (s, evs) p = Ok (s1, evs ++ evs1 ++ [Answered p st])) as -> by (unfold reentrant; cbn [fst snd]; by rewrite Hm).
  rsimpl.
  destruct (IH s1 (evs ++ evs1 ++ [Answered p st]) Hr1 Hf) as (s2 & evs2 & Hf2 & Hr2 & Hl2).
  exists s2, evs2. split; [exact Hf2 |]. split; [done |]. cbn [length]. lia.
Qed.

(** ** Completions *)

Lemma load_ok d p : block_ok (2 ^ bits) d -> packet_fits p ->
  exists o bytes, getOffset (sq_block_bits e) (pkt_addr p) = Ok o /\ getData (sq_block_size e) d o (pkt_size p) = Ok bytes /\
    exists d', setData (sq_block_size e) d (pkt_data p) o = Ok d' /\ block_ok (2 ^ bits) d'.
Proof.
  intros Hd [Hu Hp]. destruct Henv as [(Hb & Hb64) Hs _ _ _]. rewrite Hb, Hs. rewrite getOffset_mod by done.
  set (o := pkt_addr p mod 2 ^ bits) in *. assert (0 <= o < 2 ^ bits) as Ho by (apply Z.mod_pos_bound; lia).
  destruct (setData_ok (2 ^ bits) d (pkt_data p) o Hd ltac:(lia) Hp) as (d' & Hd' & Hok & _).
  exists o. unfold getData. rewrite (proj2 (Z.leb_le _ _) Hp). rsimpl. unfold bytes_at.
  rewrite decide_True by (unfold block_ok, pkt_size in *; lia). eexists. split; [done |]. split; [reflexivity |]. by exists d'.
Qed.

Lemma access_ok t ok p d : block_ok (2 ^ bits) d -> packet_fits p ->
  exists p' d', access_data e t ok p d = Ok (p', d') /\ block_ok (2 ^ bits) d'.
Proof.
  intros Hd Hp. destruct (load_ok d p Hd Hp) as (o & bytes & Ho & Hg & d' & Hs & Hd').
  unfold access_data. rewrite Ho. rsimpl. rewrite Hg, Hs. rsimpl. repeat case_match; eauto.
Qed.

(** The monitor's operations succeed and touch only the data cache. *)
Definition only_cache s s' : Prop :=
  same_table s s' /\ m_mandatory_q s' = m_mandatory_q s /\ m_block_map s' = m_block_map s /\ locks_ok (m_dataCache s').

Lemma only_cache_refl s : locks_ok (m_dataCache s) -> only_cache s s.
Proof. intros Hk. by split_and!. Qed.

Lemma write_lock_ok s a l v : locks_ok (m_dataCache s) -> lock_of (m_dataCache s) a = Ok (Some l) ->
  exists s', write_lock s a v = Ok s' /\ only_cache s s'.
Proof.
  intros Hk Hl. unfold write_lock. destruct (set_lock_total _ _ _ v Hk Hl) as [d' Hd']. rewrite Hd'. rsimpl.
  eexists. split; [reflexivity |]. split_and!; try done. cbn. by destruct (set_lock_law _ _ _ _ _ Hk Hl Hd').
Qed.

Lemma llsc_ok s a : locks_ok (m_dataCache s) -> lock_line a ->
  (exists s', llscLoadLinked s a = Ok s' /\ only_cache s s') /\ (exists s', llscClearMonitor s a = Ok s' /\ only_cache s s') /\
  (exists s' ok, llscStoreConditional s a = Ok (s', ok) /\ only_cache s s').
Proof.
  intros Hk Ha. pose proof (only_cache_refl s Hk) as Hrefl. destruct (lock_of_total _ _ Hk Ha) as [[l|] Hl];
    unfold llscLoadLinked, llscClearMonitor, llscStoreConditional; rewrite Hl; rsimpl; [| by split_and!; eauto].
  destruct (write_lock_ok s a l (sq_version s) Hk Hl) as (s1 & -> & ?).
  destruct (write_lock_ok s a l (-1) Hk Hl) as (s2 & -> & ?). rsimpl.
  split_and!; [eauto | | by eauto]. destruct (_ =? _); eauto.
Qed.

Lemma ready_only_cache a s s' : only_cache s s' -> ready a s -> ready a s'.
Proof. intros (Ht & Hq & _ & Hk) [R1 R2 R3]. split; [done | by rewrite Hq | by rewrite (same_table_at s s' a Ht)]. Qed.

Lemma ready_markRemoved a s : ready a s -> ready a (markRemoved s).
Proof. intros [R1 R2 R3]. by split. Qed.

Lemma hit_ok s a r d ok again :
  ready a s -> lock_line a -> on_line bits a (pkt r) = true -> packet_fits (pkt r) -> block_ok (2 ^ bits) d -> Forall packet_ok again ->
  exists s' d' evs, hitCallback e s r d ok again = Ok (s', d', evs) /\ ready a s' /\ block_ok (2 ^ bits) d' /\
    (length (requests_at s' a) <= length (requests_at s a) + length again)%nat.
Proof.
  intros Hr Ha Hon Hfit Hd Hag. unfold hitCallback.
  assert (line_of e (pkt_addr (pkt r)) = a) as -> by (unfold line_of; rewrite (proj1 (ef_bits Henv)); by apply Z.eqb_eq).
  assert (exists s1, (if bool_decide (m_type r = RubyRequestType_Load_Linked) then llscLoadLinked s a else Ok s) = Ok s1 /\ only_cache s s1)
    as (s1 & -> & Hs1).
  { destruct (llsc_ok s a (rd_locks _ _ Hr) Ha) as [H1 _]. destruct (bool_decide _); [done |].
    exists s. split; [done |]. by apply only_cache_refl, Hr. }
  rsimpl. destruct (access_ok (m_type r) ok (pkt r) d Hd Hfit) as (p' & d' & -> & Hd'). rsimpl. cbn [fst snd].
  destruct (reentrant_ok a again s1 (response e p') (ready_only_cache a s s1 Hs1 Hr) Hag) as (s2 & evs2 & Hf & Hr2 & Hl2).
  unfold response in Hf. rewrite Hf. rsimpl. eexists _, _, _. split; [reflexivity |].
  rewrite (same_table_at s s1 a (proj1 Hs1)) in Hl2. done.
Qed.

(** The end of [write_one]: [s1] is the state the monitor's operation leaves,
    [s2] that after the line was blocked or unblocked. *)
Lemma write_finish s s1 s2 a (rr : bool) again d r ok :
  ready a s -> lock_line a -> on_line bits a (pkt r) = true -> packet_fits (pkt r) -> block_ok (2 ^ bits) d -> Forall packet_ok again ->
  (rr = true -> issue_time r <= sq_curCycle e) -> only_cache s s1 ->
  same_table s1 s2 /\ m_mandatory_q s2 = m_mandatory_q s1 /\ m_dataCache s2 = m_dataCache s1 ->
  exists s' d' evs, (_ ← (if rr then cassert (issue_time r <=? sq_curCycle e) else Ok tt); hitCallback e (markRemoved s2) r d ok again) = Ok (s', d', evs) /\
    ready a s' /\ block_ok (2 ^ bits) d' /\ (length (requests_at s' a) <= length (requests_at s a) + length again)%nat.
Proof.
  intros Hr Ha Hon Hfit Hd Hag Hrr Ho (Ht & Hq & Hdc). pose proof (ready_only_cache a s s1 Ho Hr) as Hr1.
  assert (ready a s2) as Hr2.
  { destruct Hr1 as [R1 R2 R3]. split; [by rewrite Hdc | by rewrite Hq | by rewrite (same_table_at s1 s2 a Ht)]. }
  assert ((if rr then cassert (issue_time r <=? sq_curCycle e) else Ok tt) = Ok tt) as ->.
  { destruct rr; [| done]. by rewrite (proj2 (Z.leb_le _ _) (Hrr eq_refl)). }
  rsimpl. destruct (hit_ok (markRemoved s2) a r d ok again) as (s' & d' & evs & -> & Hr' & Hd' & Hl); [by apply ready_markRemoved | done.. |].
  eexists _, _, _. split; [reflexivity |]. split_and!; [done | done |].
  change (requests_at (markRemoved s2) a) with (requests_at s2 a) in Hl.
  by rewrite (same_table_at s1 s2 a Ht), (same_table_at s s1 a (proj1 Ho)) in Hl.
Qed.

Lemma write_one_ok s a rr again d r rest :
  ready a s -> lock_line a -> requests_at s a = r :: rest -> on_line bits a (pkt r) = true -> block_ok (2 ^ bits) d ->
  (rr = true -> is_load (m_type r) = false /\ issue_time r <= sq_curCycle e) -> Forall packet_ok again ->
  exists s' d' evs, write_one e a rr again s d r = Ok (s', d', evs) /\ ready a s' /\ block_ok (2 ^ bits) d' /\
    (length (requests_at s' a) <= length (requests_at s a) + length again)%nat.
Proof.
  intros Hr Ha Hreq Hon Hd Hrr Hag. pose proof (rd_fits _ _ Hr) as Hf. rewrite Hreq in Hf. apply Forall_cons in Hf as [Hfit _].
  unfold write_one. assert (negb (rr && is_load (m_type r)) = true) as ->.
  { destruct rr; [by rewrite (proj1 (Hrr eq_refl)) | done]. }
  rsimpl. destruct (is_load (m_type r)) eqn:El; cbn [negb].
  { destruct rr; [by destruct (Hrr eq_refl) |]. rsimpl. apply (hit_ok (markRemoved s)); [by apply ready_markRemoved | done..]. }
  destruct (llsc_ok s a (rd_locks _ _ Hr) Ha) as (_ & (s1 & Hs1 & Ho1) & (s2 & ok & Hs2 & Ho2)).
  destruct (negb (bool_decide (m_type r = RubyRequestType_Store_Conditional))).
  - rewrite Hs1. rsimpl. apply (write_finish s s1); try done; [intros Hk; apply (Hrr Hk) | by destruct (m_type r)].
  - rewrite Hs2. rsimpl. cbn [fst snd]. apply (write_finish s s2); try done; [intros Hk; apply (Hrr Hk) |]. cbn. by destruct (m_type r).
Qed.

(** ** Callbacks *)

Lemma requests_at_pop s a : requests_at (pop_front s a) a = tail (requests_at s a).
Proof. unfold pop_front. rewrite requests_at_insert. by rewrite decide_True. Qed.

Lemma ready_pop a s : ready a s -> ready a (pop_front s a).
Proof.
  intros [R1 R2 R3]. split; [done | done |]. rewrite requests_at_pop. destruct (requests_at s a); [done |]. by apply Forall_cons in R3 as [_ ?].
Qed.

(** The requests that may be waiting while the callback goes on. *)
Definition work s (a : Z) (reenter : list (list Packet)) : nat := (length (requests_at s a) + length (concat reenter))%nat.

Lemma work_pop s s' a r rest (reenter : list (list Packet)) :
  requests_at s a = r :: rest -> (length (requests_at s' a) <= length (requests_at s a) + length (hd [] reenter))%nat ->
  (work (pop_front s' a) a (tail reenter) < work s a reenter)%nat.
Proof.
  intros Hr Hl. unfold work. rewrite requests_at_pop, Hr in *. destruct reenter as [|x reenter]; cbn in *; rewrite ?length_app;
    destruct (requests_at s' a); cbn in *; lia.
Qed.

(** The request under way is the first one; the protocol answers it. *)
Definition answers (load : bool) s (a : Z) : Prop :=
  match requests_at s a with r :: _ => is_load (m_type r) = load /\ issue_time r <= sq_curCycle e | [] => True end.

Lemma write_loop_ok a cbs fuel : forall rr reenter tr s d,
  (work s a reenter <= fuel)%nat -> lock_line a -> ledger bits (Open a) cbs tr s -> ready a s -> block_ok (2 ^ bits) d ->
  (rr = true -> answers false s a) -> Forall (Forall packet_ok) reenter ->
  exists s' d' evs, write_loop e fuel a rr reenter s d = Ok (s', d', evs) /\ block_ok (2 ^ bits) d'.
Proof.
  induction fuel as [|fuel IH]; intros rr reenter tr s d Hw Ha Hl Hr Hd Hrr Hre; cbn [write_loop];
    (destruct (requests_at s a) as [|r rest] eqn:Er; [by eexists _, _, _ |]).
  { unfold work in Hw. rewrite Er in Hw. cbn in Hw. lia. }
  destruct (head_line bits cbs tr s a r rest Hl Er) as [Hon _].
  assert (Forall packet_ok (hd [] reenter) /\ Forall (Forall packet_ok) (tail reenter)) as [Hh Ht].
  { destruct reenter; [done |]. by apply Forall_cons in Hre. }
  destruct (write_one_ok s a rr (hd [] reenter) d r rest Hr Ha Er Hon Hd) as (s1 & d1 & evs1 & H1 & Hr1 & Hd1 & Hl1); [| done |].
  { intros Hk. specialize (Hrr Hk). unfold answers in Hrr. by rewrite Er in Hrr. }
  rewrite H1. rsimpl. pose proof (work_pop s s1 a r rest reenter Er Hl1) as Hwp.
  destruct (write_one_ledger bits e cbs tr s a rr (hd [] reenter) d r rest s1 d1 evs1 (proj1 (ef_bits Henv)) Hl Er H1) as [Hl2 _].
  destruct (IH false (tail reenter) (tr ++ evs1) (pop_front s1 a) d1) as (s2 & d2 & evs2 & -> & Hd2);
    [lia | done | by apply pop_ledger | by apply ready_pop | done | done | done |].
  rsimpl. by eexists _, _, _.
Qed.

Lemma read_loop_ok a cbs fuel : forall rr reenter tr s d,
  (work s a reenter <= fuel)%nat -> lock_line a -> ledger bits (Open a) cbs tr s -> ready a s -> block_ok (2 ^ bits) d ->
  (rr = true -> answers true s a) -> Forall (Forall packet_ok) reenter ->
  exists s' d' evs, read_loop e fuel a rr reenter s d = Ok (s', d', evs) /\ block_ok (2 ^ bits) d' /\
    forall r rest, requests_at s' a = r :: rest -> is_load (m_type r) = false /\ reissued r s' evs.
Proof.
  induction fuel as [|fuel IH]; intros rr reenter tr s d Hw Ha Hl Hr Hd Hrr Hre; cbn [read_loop];
    (destruct (requests_at s a) as [|r rest] eqn:Er;
      [eexists _, _, _; split; [reflexivity |]; split; [done |]; intros r rest Hn; by rewrite Er in Hn |]).
  { unfold work in Hw. rewrite Er in Hw. cbn in Hw. lia. }
  assert (negb rr || is_load (m_type r) = true) as ->.
  { destruct rr; [| done]. specialize (Hrr eq_refl). unfold answers in Hrr. rewrite Er in Hrr. cbn. apply Hrr. }
  rsimpl. destruct (is_load (m_type r)) eqn:El; cbn [negb].
  2: { destruct (issue_ok s (pkt r) (m_second_type r) (rd_queue _ _ Hr)) as (s1 & evs1 & -> & Hs1 & _ & _ & qevs & m & -> & Hputs & Hpay). rsimpl.
       eexists _, _, _. split; [reflexivity |]. split; [done |]. intros r' rest'. cbn [fst snd].
       rewrite (same_table_at s s1 a Hs1), Er. intros [= <- _]. split; [done |]. by exists [], qevs, (m_mandatory_q s), m. }
  assert ((if rr then cassert (issue_time r <=? sq_curCycle e) else Ok tt) = Ok tt) as ->.
  { destruct rr; [| done]. specialize (Hrr eq_refl). unfold answers in Hrr. rewrite Er in Hrr. by rewrite (proj2 (Z.leb_le _ _) (proj2 Hrr)). }
  rsimpl. destruct (head_line bits cbs tr s a r rest Hl Er) as [Hon _].
  assert (Forall packet_ok (hd [] reenter) /\ Forall (Forall packet_ok) (tail reenter)) as [Hh Ht].
  { destruct reenter; [done |]. by apply Forall_cons in Hre. }
  pose proof (rd_fits _ _ Hr) as Hf. rewrite Er in Hf. apply Forall_cons in Hf as [Hfit _].
  destruct (hit_ok (markRemoved s) a r d true (hd [] reenter)) as (s1 & d1 & evs1 & H1 & Hr1 & Hd1 & Hl1);
    [by apply ready_markRemoved | done.. |].
  rewrite H1. rsimpl. pose proof (work_pop s s1 a r rest reenter Er Hl1) as Hwp.
  destruct (hit_ledger bits e cbs tr s s a r rest r d true (hd [] reenter) s1 d1 evs1 (proj1 (ef_bits Henv)) Hl Er (reflexivity s) eq_refl eq_refl H1)
    as [Hl2 _].
  destruct (IH false (tail reenter) (tr ++ evs1) (pop_front s1 a) d1) as (s2 & d2 & evs2 & -> & Hd2 & Hn2);
    [lia | done | by apply pop_ledger | by apply ready_pop | done | done | done |].
  rsimpl. eexists _, _, _. split; [reflexivity |]. split; [done |]. intros r' rest' Hr'.
  destruct (Hn2 r' rest' Hr') as [Hnl (evs0 & qevs & q & m & -> & Hp)]. split; [done |].
  exists (evs1 ++ evs0), qevs, q, m. by rewrite app_assoc.
Qed.

(** The request that was under way is answered with the others: every waiting
    request is, after a write; every one before the first write, after a read. *)
Lemma fifo_step cbs cbs' tr evs s s' a :
  ledger bits Idle cbs tr s -> ledger bits Idle cbs' (tr ++ evs) s' ->
  ((fun r => pkt_id (pkt r)) <$> requests_at s a) ++ issued bits evs a = completed bits evs a ++ ((fun r => pkt_id (pkt r)) <$> requests_at s' a).
Proof.
  intros [L1 _ _ _ _ _] [K1 _ _ _ _ _]. specialize (L1 a). specialize (K1 a). cbn [waiting] in *.
  rewrite issued_app, completed_app, L1, <- !app_assoc in K1. by apply app_inv_head in K1.
Qed.

Lemma hit_completes s a r d ok again s' d' evs :
  on_line bits a (pkt r) = true -> hitCallback e s r d ok again = Ok (s', d', evs) -> completed bits evs a <> [].
Proof.
  intros Hon Hh. unfold hitCallback in Hh.
  apply res_bind_Ok_inv in Hh as (s2 & H2 & Hh). apply res_bind_Ok_inv in Hh as ([p' d2] & Hacc & Hh).
  apply res_bind_Ok_inv in Hh as ([s3 evs3] & Hf & Hh). cbn [fst snd] in *. injection Hh as <- <- <-.
  apply access_data_spec in Hacc. destruct (reentrant_quiet e again s2 _ s3 evs3 Hf) as (_ & evs4 & -> & _).
  fold (response e p'). rewrite completed_app, (proj1 (proj2 (response_counts bits e p' a))).
  assert (on_line bits a p' = true) as -> by (by rewrite Hacc). done.
Qed.

Lemma read_loop_completes s a r rest fuel reenter d s' d' evs :
  requests_at s a = r :: rest -> on_line bits a (pkt r) = true -> is_load (m_type r) = true ->
  read_loop e fuel a true reenter s d = Ok (s', d', evs) -> completed bits evs a <> [].
Proof.
  intros Hr Hon Hld Hl. destruct fuel as [|fuel]; cbn [read_loop] in Hl; rewrite Hr, Hld in Hl; cbn [negb orb] in Hl; [done |].
  apply res_bind_Ok_inv in Hl as (? & _ & Hl). apply res_bind_Ok_inv in Hl as (? & _ & Hl).
  apply res_bind_Ok_inv in Hl as ([[s1 d1] evs1] & H1 & Hl). apply res_bind_Ok_inv in Hl as ([[s2 d2] evs2] & H2 & Hl).
  injection Hl as <- <- <-. pose proof (hit_completes _ _ _ _ _ _ _ _ _ Hon H1). rewrite completed_app. by destruct (completed bits evs1 a).
Qed.
End Progress.

Lemma makeLineAddress_idem b addr :
  0 < b <= 64 -> in_u64 addr -> makeLineAddress b (makeLineAddress b addr) = makeLineAddress b addr.
Proof. intros Hb Ha. by destruct (line_address_decomposition b addr Hb Ha) as (off & _ & _ & _ & _ & ? & _). Qed.


(** ** An instance: a load, a store and a load wait for line 0. *)

Instance map_locks_laws : LineLocksLaws (gmap Z Z).
Proof.
  refine {| locks_ok := fun _ => True; lock_line := fun _ => True |}.
  - intros d a _ _. by eexists.
  - intros d a l v _ _. by eexists.
  - intros d a l v d' _ _ [= <-]. cbn. split; [done |]. rewrite lookup_insert_eq. split; [done |]. intros b Hb. by rewrite lookup_insert_ne.
Defined.

Definition progress_ops : list (sq_env * sq_op (gmap Z Z)) :=
  [(demo_sq_env 100, OpMake (demo_packet 1 8 [0; 0] false false));
   (demo_sq_env 101, OpMake (demo_packet 2 16 [5] false true));
   (demo_sq_env 102, OpMake (demo_packet 3 8 [0] false false))].

