(* ===== verification/WireBuffer.v ===== *)
(** * Wire buffers

    Models [mem/ruby/structures/WireBuffer.{hh,cc}]: the queue of messages
    between closely coupled controllers, which is meant never to reorder
    messages.  [dequeue] treats the vector as a heap, [enqueue] appends to it
    without restoring the heap and without giving the message a number; the
    theorems say when that is enough and show that it is not always.

    The consumer is indeterminate until [setConsumer] ([None]); [Some None] is the
    null pointer.  Messages are values, as in MessageBuffer.v. *)
From S2P Require Import Prelude StdHeap NetDest MessageBuffer.

Record WireBuffer := {
  wb_consumer : option (option Z);
  wb_msg_counter : Z;
  m_message_queue : list Message
}.

#[export] Instance WireBuffer_eta : Eta WireBuffer := {| eta := fun b =>
  {| wb_consumer := wb_consumer b; wb_msg_counter := wb_msg_counter b; m_message_queue := m_message_queue b |} |}.

Definition WireBuffer_ctor : WireBuffer := {| wb_consumer := None; wb_msg_counter := 0; m_message_queue := [] |}.

Definition wb_setConsumer (b : WireBuffer) (consumer : option Z) : WireBuffer := b ⟨ wb_consumer := Some consumer ⟩.

(** The result carries the time the consumer is scheduled at. *)
Definition wb_enqueue (b : WireBuffer) (message : Message) (current_time delta : Z) : res (WireBuffer * Z) :=
  let b := b ⟨ wb_msg_counter := u64 (wb_msg_counter b + 1) ⟩ in
  let arrival_time := u64 (current_time + delta) in
  _ ← cassert (current_time <? arrival_time);
  let b := b ⟨ m_message_queue := m_message_queue b ++ [message ⟨ m_LastEnqueueTime := arrival_time ⟩] ⟩ in
  match wb_consumer b with
  | None => Err EUninit
  | Some None => Err EPanic
  | Some (Some _) => Ok (b, arrival_time)
  end.

Definition wb_isReady (b : WireBuffer) (current_time : Z) : bool :=
  match m_message_queue b with [] => false | m :: _ => m_LastEnqueueTime m <=? current_time end.

Definition wb_peek (b : WireBuffer) : res Message := vfront (m_message_queue b).

Definition wb_dequeue (b : WireBuffer) (current_time : Z) : res WireBuffer :=
  _ ← cassert (wb_isReady b current_time);
  Ok (b ⟨ m_message_queue := heap_remove msg_gt (m_message_queue b) ⟩).

Definition wb_recycle (b : WireBuffer) (current_time recycle_latency : Z) : res (WireBuffer * Z) :=
  _ ← cassert (wb_isReady b current_time);
  node ← vfront (m_message_queue b);
  let future_time := u64 (current_time + recycle_latency) in
  let b := b ⟨ m_message_queue := heap_insert msg_gt (heap_remove msg_gt (m_message_queue b)) (node ⟨ m_LastEnqueueTime := future_time ⟩) ⟩ in
  match wb_consumer b with Some (Some _) => Ok (b, future_time) | _ => Err EUninit end.

Definition wb_areNSlotsAvailable (b : WireBuffer) (n current_time : Z) : bool := true.

(** ** Messages with increasing arrival times *)

(** What a sender and the receiver do. *)
Inductive wb_op := WEnqueue (m : Message) (t delta : Z) | WDequeue (t : Z).

(** The messages received, in order; a receive peeks and then dequeues. *)
Fixpoint wb_run (b : WireBuffer) (ops : list wb_op) : res (WireBuffer * list Message) :=
  match ops with
  | [] => Ok (b, [])
  | WEnqueue m t delta :: ops => r ← wb_enqueue b m t delta; wb_run r.1 ops
  | WDequeue t :: ops =>
      _ ← cassert (wb_isReady b t);
      m ← wb_peek b;
      b ← wb_dequeue b t;
      r ← wb_run b ops;
      Ok (r.1, m :: r.2)
  end.

Definition arrivals (ops : list wb_op) : list Z :=
  omap (fun o => match o with WEnqueue _ t delta => Some (u64 (t + delta)) | WDequeue _ => None end) ops.
Definition sent_payloads (ops : list wb_op) : list Z :=
  omap (fun o => match o with WEnqueue m _ _ => Some (payload m) | WDequeue _ => None end) ops.

(** The vector is a heap of the messages of [q], which are in order. *)
Record in_order (b : WireBuffer) (q : list Message) : Prop := {
  io_perm : m_message_queue b ≡ₚ q;
  io_heap : is_heap msg_gt (m_message_queue b);
  io_sorted : StronglySorted Z.lt (m_LastEnqueueTime <$> q)
}.

(** Appending an element that comes after all others keeps a heap. *)
Lemma append_last_heap {A} (comp : A -> A -> bool) l v :
  is_heap comp l -> (forall x, x ∈ l -> hle comp x v) -> is_heap comp (l ++ [v]).
Proof.
  intros Hl Hv c x y Hc Hx Hy. pose proof (parent_lt c Hc) as Hp.
  pose proof (lookup_lt_Some _ _ _ Hy) as Hlt. rewrite length_app in Hlt. cbn in Hlt.
  rewrite lookup_app_l in Hx by lia. destruct (decide (c < length l)%nat) as [Hcl|Hcl].
  - rewrite lookup_app_l in Hy by lia. by eapply Hl.
  - rewrite lookup_app_r in Hy by lia. replace (c - length l)%nat with 0%nat in Hy by lia. injection Hy as <-.
    apply Hv. by eapply list_elem_of_lookup_2.
Qed.

Lemma msg_le_time m m' : m_LastEnqueueTime m < m_LastEnqueueTime m' -> hle msg_gt m m'.
Proof.
  intros Hlt. unfold hle. destruct (msg_gt m m') eqn:E; [| done]. apply msg_gt_lex in E. lia.
Qed.

Lemma front_in_order b q m : in_order b q -> head (m_message_queue b) = Some m -> exists q', q = m :: q'.
Proof.
  intros [Hp Hh Hs] Hm. destruct q as [|m0 q']; [apply Permutation_nil_r in Hp; by rewrite Hp in Hm |].
  exists q'. f_equal. assert (m ∈ m0 :: q') as Hin.
  { rewrite <- Hp. destruct (m_message_queue b) as [|x l]; [done |]. injection Hm as ->. by left. }
  apply elem_of_cons in Hin as [->|Hin]; [done |]. exfalso.
  assert (hle msg_gt m m0) as Hle by (apply (is_heap_front msg_gt _ _ Hh Hm); rewrite Hp; by left).
  cbn in Hs. inversion Hs as [|? ? _ Hall]; subst. rewrite Forall_fmap, Forall_forall in Hall. specialize (Hall m Hin). cbn in Hall.
  unfold hle in Hle. assert (msg_gt m m0 = true); [| congruence]. apply msg_gt_lex. lia.
Qed.

Lemma enqueue_in_order b q m t delta r :
  in_order b q -> Forall (fun x => m_LastEnqueueTime x < u64 (t + delta)) q -> wb_enqueue b m t delta = Ok r ->
  in_order r.1 (q ++ [m ⟨ m_LastEnqueueTime := u64 (t + delta) ⟩]).
Proof.
  intros [Hp Hh Hs] Hlt He. unfold wb_enqueue in He. inv_res.
  assert (r = (b ⟨ wb_msg_counter := u64 (wb_msg_counter b + 1) ⟩ ⟨ m_message_queue := m_message_queue b ++ [m ⟨ m_LastEnqueueTime := u64 (t + delta) ⟩] ⟩, u64 (t + delta))) as ->.
  { cbn in He. destruct (wb_consumer b) as [[?|]|]; [by injection He as <- | done | done]. }
  cbn [fst]. split; cbn.
  - by rewrite Hp.
  - apply append_last_heap; [done |]. intros x Hx. apply msg_le_time. cbn. rewrite Hp in Hx. by apply (proj1 (Forall_forall _ _) Hlt).
  - rewrite fmap_app. cbn. apply StronglySorted_app; split_and!; [| done | by repeat constructor].
    intros x y Hx Hy. apply list_elem_of_singleton in Hy. subst y. apply list_elem_of_fmap in Hx as (z & -> & Hz). by apply (proj1 (Forall_forall _ _) Hlt).
Qed.

Lemma dequeue_in_order b m q t b' :
  in_order b (m :: q) -> head (m_message_queue b) = Some m -> wb_dequeue b t = Ok b' -> in_order b' q.
Proof.
  intros [Hp Hh Hs] Hm Hd. unfold wb_dequeue in Hd. inv_res. subst b'. split; cbn.
  - pose proof (heap_remove_Permutation msg_gt _ _ Hm) as Hr.
    apply (Permutation_cons_inv (a := m)). rewrite <- Hr. exact Hp.
  - by apply (heap_remove_heap msg_gt).
  - cbn in Hs. by inversion Hs.
Qed.

Lemma run_in_order ops : forall b q b' out,
  in_order b q -> StronglySorted Z.lt ((m_LastEnqueueTime <$> q) ++ arrivals ops) -> wb_run b ops = Ok (b', out) ->
  exists rest, (payload <$> q) ++ sent_payloads ops = (payload <$> out) ++ (payload <$> rest) /\ in_order b' rest.
Proof.
  induction ops as [|[m t delta|t] ops IH]; intros b q b' out Hi Hs Hr; cbn [wb_run] in Hr.
  - injection Hr as <- <-. exists q. cbn. by rewrite app_nil_r.
  - apply res_bind_Ok_inv in Hr as (r & He & Hr). cbn in Hs. apply StronglySorted_app in Hs as (Hqa & Hsq & Hsa).
    assert (in_order r.1 (q ++ [m ⟨ m_LastEnqueueTime := u64 (t + delta) ⟩])) as Hi'.
    { apply (enqueue_in_order b q m t delta r Hi); [| done]. apply Forall_forall. intros x Hx. apply Hqa; [by apply list_elem_of_fmap_2 | by left]. }
    destruct (IH r.1 _ b' out Hi') as (rest & Heq & Hrest); [| exact Hr |].
    + rewrite fmap_app, <- app_assoc. cbn. apply StronglySorted_app. split_and!; [| done | done].
      intros x y Hx Hy. by apply Hqa.
    + exists rest. split; [| done]. rewrite <- Heq. by rewrite fmap_app, <- app_assoc.
  - apply res_bind_Ok_inv in Hr as (? & _ & Hr). apply res_bind_Ok_inv in Hr as (m & Hm & Hr).
    apply res_bind_Ok_inv in Hr as (b1 & Hd & Hr). apply res_bind_Ok_inv in Hr as ([b2 out2] & Hrun & Hr). cbn [fst snd] in Hr. injection Hr as <- <-.
    assert (head (m_message_queue b) = Some m) as Hh by (unfold wb_peek, vfront in Hm; destruct (m_message_queue b); [done | by injection Hm as ->]).
    destruct (front_in_order b q m Hi Hh) as [q' ->].
    destruct (IH b1 q' b2 out2 (dequeue_in_order _ _ _ _ _ Hi Hh Hd)) as (rest & Heq & Hrest); [| done |].
    + cbn in Hs. by inversion Hs.
    + exists rest. split; [| done]. cbn. f_equal. exact Heq.
Qed.

(** A wire keeps the order of messages whose arrival times increase: in
    every run of enqueues and dequeues in which each message arrives later than
    the one before, the messages received are the first ones sent, in order. *)
Theorem wire_keeps_order (b b' : WireBuffer) (ops : list wb_op) (out : list Message) :
  m_message_queue b = [] -> StronglySorted Z.lt (arrivals ops) -> wb_run b ops = Ok (b', out) ->
  exists rest, sent_payloads ops = (payload <$> out) ++ rest.
Proof.
  intros Hb Hs Hr. destruct (run_in_order ops b [] b' out) as (rest & Heq & _); [| done | done |].
  - split; rewrite ?Hb; [done | apply (is_heap_nil msg_gt) | constructor].
  - by exists (payload <$> rest).
Qed.

Definition wire_demo (times : list (Z * Z)) : res (list Z) :=
  r ← wb_run (wb_setConsumer WireBuffer_ctor (Some 1))
    (map (fun pt => WEnqueue (Message_ctor 0 [] Control pt.1) pt.2 5) times ++ replicate (length times) (WDequeue 100));
  Ok (map payload r.2).

Lemma wire_keeps_order_witness :
  exists b out, wb_run (wb_setConsumer WireBuffer_ctor (Some 1))
    [WEnqueue (Message_ctor 0 [] Control 1) 10 5; WEnqueue (Message_ctor 0 [] Control 2) 11 5; WDequeue 20] = Ok (b, out) /\
    exists rest, [1; 2] = (payload <$> out) ++ rest.
Proof.
  match goal with |- exists b out, ?r = _ /\ _ => destruct r as [[b out]|] eqn:E; [| vm_compute in E; discriminate] end.
  exists b, out. split; [done |].
  apply (wire_keeps_order (wb_setConsumer WireBuffer_ctor (Some 1)) b
    [WEnqueue (Message_ctor 0 [] Control 1) 10 5; WEnqueue (Message_ctor 0 [] Control 2) 11 5; WDequeue 20] out);
    [reflexivity | repeat constructor; vm_compute; done | exact E].
Defined.

(** Four messages sent in the same cycle: the third overtakes the second. *)
Example wire_reorders : wire_demo [(1, 10); (2, 10); (3, 10); (4, 10)] = Ok [1; 3; 2; 4].
Proof. vm_compute. reflexivity. Qed.
