(* ===== verification/TraceRefinement.v ===== *)
(** * Refinement of a specification by an object with fallible operations

    The tables of a Ruby controller are objects whose operations assert their
    preconditions.  This file states, once, what it means that such an object
    implements an abstract specification: the class [Refines] asks for a
    simulation of single operations, and [traces_run] turns it into equality of
    the traces, failures included.  TimerTable.v, PersistentTable.v and
    TBETable.v supply the instances. *)
From S2P Require Import Prelude.

Section Runs.
Context {St Op Obs Abs : Type}.
Context (step : St -> Op -> res (St * Obs)).
Context (spec : Abs -> Op -> Obs -> Abs -> Prop).

(** A sequence of operations, with what the caller sees of each. *)
Fixpoint run (s : St) (ops : list Op) : res (list Obs) :=
  match ops with
  | [] => Ok []
  | o :: ops => r ← step s o; xs ← run r.1 ops; Ok (r.2 :: xs)
  end.

(** The traces the specification allows. *)
Inductive traces : Abs -> list Op -> list Obs -> Prop :=
  | traces_nil p : traces p [] []
  | traces_cons p o x p' ops xs : spec p o x p' -> traces p' ops xs -> traces p (o :: ops) (x :: xs).

(** [sim] is a simulation on the operations [ok]: the object does what the
    specification allows, and fails only where it allows nothing. *)
Class Refines (ok : Op -> Prop) (sim : St -> Abs -> Prop) : Prop := {
  refines_step s p o : sim s p -> ok o ->
    match step s o with
    | Ok (s', x) => exists p', spec p o x p' /\ sim s' p'
    | Err _ => forall x p', ~ spec p o x p'
    end;
  spec_functional p o x p' x' p'' : spec p o x p' -> spec p o x' p'' -> x = x' /\ p' = p''
}.

Lemma traces_run ok sim `{!Refines ok sim} s p ops xs :
  sim s p -> Forall ok ops -> run s ops = Ok xs <-> traces p ops xs.
Proof.
  intros Hs Hok. revert s p xs Hs. induction Hok as [|o ops Ho _ IH]; intros s p xs Hs; cbn [run].
  - split; [intros [= <-]; constructor | by inversion 1].
  - pose proof (refines_step s p o Hs Ho) as Hstep. destruct (step s o) as [[s' x]|e]; rsimpl.
    + destruct Hstep as (p' & Hp & Hs'). split.
      * intros (ys & E & [= <-])%res_bind_Ok_inv. econstructor; [done |]. by apply (IH s').
      * inversion 1 as [|? ? x' p'' ? ys Hp' Ht]; subst.
        destruct (spec_functional _ _ _ _ _ _ Hp Hp') as [<- <-]. by rewrite (proj2 (IH s' p' ys Hs') Ht).
    + split; [done |]. inversion 1; subst. naive_solver.
Qed.
End Runs.
