(* ===== verification/TimerTable.v ===== *)
(** * Timer tables

    Models [mem/ruby/structures/TimerTable.{hh,cc}]: a table of lines with the
    time at which a controller is to look at each again.  The table caches the
    timer that expires next; [isReady] and [nextAddress] are [const] but fill
    the cache (its fields are [mutable]), so they return the table too.

    The refinement theorem states that the cache is invisible: a table behaves,
    errors included, as a finite map that is searched at every query. *)
From S2P Require Import Prelude Common TraceRefinement.

Record TimerTable := {
  tt_map : gmap Z Z;
  m_next_valid : bool;
  m_next_time : Z;
  m_next_address : Z;
  tt_consumer : option Z
}.

#[export] Instance TimerTable_eta : Eta TimerTable := {| eta := fun t =>
  {| tt_map := tt_map t; m_next_valid := m_next_valid t; m_next_time := m_next_time t;
     m_next_address := m_next_address t; tt_consumer := tt_consumer t |} |}.

(** The entries in the order a [std::map] is iterated in. *)
Definition key_le (a b : Z * Z) : Prop := a.1 <= b.1.
#[export] Instance key_le_dec : RelDecision key_le := fun a b => Z.le_dec a.1 b.1.
#[export] Instance key_le_trans : Transitive key_le.
Proof. intros a b c. unfold key_le. lia. Qed.
#[export] Instance key_le_total : Total key_le.
Proof. intros a b. unfold key_le. lia. Qed.

Definition timers (m : gmap Z Z) : list (Z * Z) := merge_sort key_le (map_to_list m).

Definition TimerTable_ctor : TimerTable :=
  {| tt_map := ∅; m_next_valid := false; m_next_time := 0; m_next_address := 0; tt_consumer := None |}.

Definition tt_setConsumer (t : TimerTable) (consumer : option Z) : res TimerTable :=
  _ ← cassert (bool_decide (tt_consumer t = None)); Ok (t ⟨ tt_consumer := consumer ⟩).

(** The loop of [updateNext]. *)
Definition earlier (next e : Z * Z) : Z * Z := if e.2 <? next.2 then e else next.

Definition updateNext (t : TimerTable) : res TimerTable :=
  match timers (tt_map t) with
  | [] => _ ← cassert (negb (m_next_valid t)); Ok t
  | i :: rest =>
      let next := foldl earlier i rest in
      Ok (t ⟨ m_next_address := next.1 ⟩ ⟨ m_next_time := next.2 ⟩ ⟨ m_next_valid := true ⟩)
  end.

Definition fill_next (t : TimerTable) : res TimerTable :=
  t ← (if m_next_valid t then Ok t else updateNext t);
  _ ← cassert (m_next_valid t); Ok t.

Definition tt_isReady (t : TimerTable) (curTime : Z) : res (TimerTable * bool) :=
  if bool_decide (tt_map t = ∅) then Ok (t, false) else
  t ← fill_next t; Ok (t, m_next_time t <=? curTime).

Definition nextAddress (t : TimerTable) : res (TimerTable * Z) :=
  t ← fill_next t; Ok (t, m_next_address t).

Definition tt_isSet (t : TimerTable) (address : Z) : bool := bool_decide (is_Some (tt_map t !! address)).

Section Lines.
Context (block_size_bits : Z).

Definition line_aligned (address : Z) : bool := address =? makeLineAddress block_size_bits address.

(** The result carries the time the consumer is scheduled at. *)
Definition tt_set (t : TimerTable) (address ready_time : Z) : res (TimerTable * Z) :=
  _ ← cassert (line_aligned address);
  _ ← cassert (negb (tt_isSet t address));
  let t := t ⟨ tt_map := <[address := ready_time]> (tt_map t) ⟩ in
  _ ← cassert (bool_decide (tt_consumer t <> None));
  let t := t ⟨ m_next_valid := false ⟩ in
  let t := if ready_time <=? m_next_time t then t ⟨ m_next_valid := false ⟩ else t in
  Ok (t, ready_time).

Definition unset (t : TimerTable) (address : Z) : res TimerTable :=
  _ ← cassert (line_aligned address);
  _ ← cassert (tt_isSet t address);
  let t := t ⟨ tt_map := delete address (tt_map t) ⟩ in
  Ok (if address =? m_next_address t then t ⟨ m_next_valid := false ⟩ else t).

(** ** The operations of a controller and what it sees of them *)
Inductive tt_op := TSet (a t : Z) | TUnset (a : Z) | TIsReady (now : Z) | TNext | TIsSet (a : Z).
Inductive tt_obs := OWakeup (t : Z) | ODone | OBool (b : bool) | OAddr (a : Z).

Definition tt_step (t : TimerTable) (o : tt_op) : res (TimerTable * tt_obs) :=
  match o with
  | TSet a time => r ← tt_set t a time; Ok (r.1, OWakeup r.2)
  | TUnset a => t ← unset t a; Ok (t, ODone)
  | TIsReady now => r ← tt_isReady t now; Ok (r.1, OBool r.2)
  | TNext => r ← nextAddress t; Ok (r.1, OAddr r.2)
  | TIsSet a => Ok (t, OBool (tt_isSet t a))
  end.

(** ** The specification: a finite map of timers *)

(** The timer that expires first; of several, the one of the lowest address. *)
Definition first_timer (m : gmap Z Z) (a t : Z) : Prop :=
  m !! a = Some t /\ forall a' t', m !! a' = Some t' -> t < t' \/ (t = t' /\ a <= a').

Definition due (m : gmap Z Z) (now : Z) : Prop := exists a t, m !! a = Some t /\ t <= now.

Inductive timer_spec : gmap Z Z -> tt_op -> tt_obs -> gmap Z Z -> Prop :=
  | spec_set m a t : line_aligned a = true -> m !! a = None -> timer_spec m (TSet a t) (OWakeup t) (<[a := t]> m)
  | spec_unset m a t : line_aligned a = true -> m !! a = Some t -> timer_spec m (TUnset a) ODone (delete a m)
  | spec_ready m now b : (b = true <-> due m now) -> timer_spec m (TIsReady now) (OBool b) m
  | spec_next m a t : first_timer m a t -> timer_spec m TNext (OAddr a) m
  | spec_isSet m a b : (b = true <-> is_Some (m !! a)) -> timer_spec m (TIsSet a) (OBool b) m.

(** The cache, when valid, holds the timer that expires first. *)
Definition tt_inv (t : TimerTable) : Prop :=
  tt_consumer t <> None /\ (m_next_valid t = true -> first_timer (tt_map t) (m_next_address t) (m_next_time t)).

Lemma elem_of_timers m a t : (a, t) ∈ timers m <-> m !! a = Some t.
Proof. unfold timers. rewrite merge_sort_Permutation. apply elem_of_map_to_list. Qed.

Lemma timers_sorted m : StronglySorted key_le (timers m).
Proof. apply (StronglySorted_merge_sort key_le). Qed.

(** The scan keeps the earliest of the timers seen, the first among equals. *)
Lemma earliest_scan l i :
  StronglySorted key_le (i :: l) ->
  let r := foldl earlier i l in
  r ∈ i :: l /\ forall e, e ∈ i :: l -> r.2 < e.2 \/ (r.2 = e.2 /\ r.1 <= e.1).
Proof.
  revert i. induction l as [|e l IH]; intros i Hs; cbn [foldl].
  - split; [by left |]. intros e ->%list_elem_of_singleton. right. lia.
  - inversion Hs as [|? ? Hs' Hi]; subst. inversion Hs' as [|? ? Hs'' He]; subst.
    apply Forall_cons in Hi as [Hie Hil]. unfold key_le in Hie.
    assert (StronglySorted key_le (earlier i e :: l)) as Hsub.
    { constructor; [done |]. unfold earlier. by destruct (e.2 <? i.2). }
    destruct (IH _ Hsub) as [Hin Hmin]. split.
    + assert (earlier i e = i \/ earlier i e = e) as Hie' by (unfold earlier; destruct (e.2 <? i.2); tauto).
      rewrite !elem_of_cons in *. destruct Hin as [Hin|]; [| tauto]. rewrite Hin. tauto.
    + assert (Hr : forall x, x = i \/ x = e -> (foldl earlier (earlier i e) l).2 < x.2 \/
        ((foldl earlier (earlier i e) l).2 = x.2 /\ (foldl earlier (earlier i e) l).1 <= x.1)).
      { specialize (Hmin (earlier i e) ltac:(by left)). revert Hmin. generalize (foldl earlier (earlier i e) l).
        unfold earlier. intros r Hr. destruct (e.2 <? i.2) eqn:E; b2p; intros x [->| ->]; lia. }
      intros x. rewrite !elem_of_cons. intros [->|[->|Hx]]; [apply Hr; tauto | apply Hr; tauto |].
      apply Hmin. rewrite elem_of_cons. tauto.
Qed.

Lemma first_timer_unique m a t a' t' : first_timer m a t -> first_timer m a' t' -> a = a' /\ t = t'.
Proof.
  intros [H1 L1] [H2 L2]. pose proof (L1 _ _ H2). pose proof (L2 _ _ H1). lia.
Qed.

Lemma fill_next_spec t :
  tt_inv t ->
  match fill_next t with
  | Ok t' => tt_map t' = tt_map t /\ tt_inv t' /\ first_timer (tt_map t) (m_next_address t') (m_next_time t')
  | Err _ => tt_map t = ∅
  end.
Proof.
  intros [Hc Hn]. unfold fill_next. destruct (m_next_valid t) eqn:Ev; rsimpl.
  { rewrite Ev. rsimpl. split_and!; [done | by split; [| intros _; apply Hn] | by apply Hn]. }
  unfold updateNext. destruct (timers (tt_map t)) as [|i rest] eqn:El.
  - rewrite Ev. rsimpl. cbn. rewrite Ev. apply map_empty. intros a. apply eq_None_not_Some. intros [x Hx].
    apply elem_of_timers in Hx. rewrite El in Hx. by apply not_elem_of_nil in Hx.
  - rsimpl. cbn [setf m_next_valid tt_map m_next_address m_next_time tt_consumer].
    assert (first_timer (tt_map t) (foldl earlier i rest).1 (foldl earlier i rest).2) as Hf.
    { pose proof (timers_sorted (tt_map t)) as Hs. rewrite El in Hs. destruct (earliest_scan _ _ Hs) as [Hin Hmin].
      rewrite <- El in Hin, Hmin. split.
      - apply elem_of_timers. by destruct (foldl earlier i rest).
      - intros a' t' H. apply elem_of_timers in H. by apply (Hmin (a', t')). }
    split_and!; [done | by split | done].
Qed.

(** A valid cache survives the removal of another timer. *)
Lemma first_timer_delete m a t b : b <> a -> first_timer m a t -> first_timer (delete b m) a t.
Proof.
  intros Hb [H L]. split; [by rewrite lookup_delete_ne |]. intros a' t' [_ H']%lookup_delete_Some. by eapply L.
Qed.

Lemma due_first m a t now : first_timer m a t -> due m now <-> t <= now.
Proof.
  intros [H L]. split; [| by exists a, t]. intros (a' & t' & H' & Hle). pose proof (L _ _ H'). lia.
Qed.

Lemma tt_set_Ok t a time :
  tt_consumer t <> None ->
  tt_set t a time =
    if line_aligned a && negb (tt_isSet t a)
    then Ok (t ⟨ tt_map := <[a := time]> (tt_map t) ⟩ ⟨ m_next_valid := false ⟩, time) else Err EAssert.
Proof.
  intros Hc. unfold tt_set. destruct (line_aligned a); [| done]. destruct (tt_isSet t a); [done |]. rsimpl.
  cbn [setf tt_map tt_consumer negb andb]. rewrite bool_decide_eq_true_2 by done. rsimpl. by destruct (time <=? _).
Qed.

Lemma isSet_Some t a : tt_isSet t a = true <-> is_Some (tt_map t !! a).
Proof. unfold tt_isSet. apply bool_decide_eq_true. Qed.

(** One operation of the table is one of the specification, and conversely. *)
Lemma tt_step_sound t o t' x : tt_inv t -> tt_step t o = Ok (t', x) -> tt_inv t' /\ timer_spec (tt_map t) o x (tt_map t').
Proof.
  intros Hi H. pose proof Hi as [Hc Hn]. destruct o as [a time|a|now| |a]; cbn [tt_step] in H.
  - rewrite tt_set_Ok in H by done. destruct (line_aligned a) eqn:El; [| done]. destruct (tt_isSet t a) eqn:Es; [done |].
    cbn [negb andb mbind res_bind fst snd] in H. injection H as <- <-. cbn [setf tt_map].
    split; [by split |]. constructor; [done |]. apply eq_None_not_Some. rewrite <- isSet_Some. by rewrite Es.
  - apply res_bind_Ok_inv in H as (t1 & E & H). injection H as <- <-. unfold unset in E. inv_res. subst t1.
    apply isSet_Some in E1 as [y Hy]. cbn [setf tt_map m_next_address].
    split; [| destruct (_ =? _); cbn [setf tt_map]; by econstructor].
    split; [by destruct (_ =? _) |]. destruct (a =? m_next_address t) eqn:Ea; [done |]. b2p.
    cbn [setf tt_map m_next_valid m_next_address m_next_time]. intros Hv. by apply first_timer_delete, Hn.
  - unfold tt_isReady in H. destruct (bool_decide (tt_map t = ∅)) eqn:Ee; b2p.
    + injection H as <- <-. split; [done |]. constructor. rewrite Ee. split; [done |].
      by intros (? & ? & ? & _).
    + pose proof (fill_next_spec t Hi) as Hf. destruct (fill_next t) as [t1|]; [| done]. rsimpl in *.
      injection H as <- <-. destruct Hf as (Hm & Hi1 & Hf). rewrite Hm. split; [done |]. constructor.
      rewrite (due_first _ _ _ _ Hf). apply Z.leb_le.
  - unfold nextAddress in H. pose proof (fill_next_spec t Hi) as Hf. destruct (fill_next t) as [t1|]; [| done].
    rsimpl in *. injection H as <- <-. destruct Hf as (Hm & Hi1 & Hf). rewrite Hm. split; [done |]. by econstructor.
  - injection H as <- <-. split; [done |]. constructor. apply isSet_Some.
Qed.

Lemma spec_deterministic m o x m' x' m'' : timer_spec m o x m' -> timer_spec m o x' m'' -> x = x' /\ m' = m''.
Proof.
  intros H1 H2. destruct H1; inversion H2; subst; try done.
  - split; [| done]. f_equal. apply Bool.eq_iff_eq_true. naive_solver.
  - match goal with H1 : first_timer _ _ _, H2 : first_timer _ _ _ |- _ =>
      destruct (first_timer_unique _ _ _ _ _ H1 H2) end. by subst.
  - split; [| done]. f_equal. apply Bool.eq_iff_eq_true. naive_solver.
Qed.

Lemma tt_step_enabled t o x m' : tt_inv t -> timer_spec (tt_map t) o x m' -> exists r, tt_step t o = Ok r.
Proof.
  intros Hi H. pose proof Hi as [Hc Hn]. inversion H; subst; cbn [tt_step].
  - rewrite tt_set_Ok by done. assert (tt_isSet t a = false) as ->; [| by rewrite H0; eexists].
    apply not_true_is_false. rewrite isSet_Some, H1. by intros [].
  - unfold unset. rewrite H0. assert (tt_isSet t a = true) as -> by (apply isSet_Some; by eexists). by eexists.
  - unfold tt_isReady. destruct (bool_decide _) eqn:Ee; [by eexists |]. b2p.
    pose proof (fill_next_spec t Hi) as Hf. destruct (fill_next t); [by eexists | done].
  - unfold nextAddress. pose proof (fill_next_spec t Hi) as Hf. destruct (fill_next t); [by eexists |].
    destruct H0 as [H0 _]. rewrite Hf in H0. done.
  - by eexists.
Qed.

(** A table and the map it holds. *)
Definition tt_sim (t : TimerTable) (m : gmap Z Z) : Prop := tt_inv t /\ tt_map t = m.

#[export] Instance timer_refines : Refines tt_step timer_spec (fun _ => True) tt_sim.
Proof.
  split; [| exact spec_deterministic]. intros t m o [Hi <-] _. destruct (tt_step t o) as [[t' x]|e] eqn:E.
  - apply tt_step_sound in E as [Hi' Hs]; [| done]. by exists (tt_map t').
  - intros x m' Hs. destruct (tt_step_enabled _ _ _ _ Hi Hs) as [r Hr]. congruence.
Qed.

(** C28. The cached next timer of a [TimerTable] is invisible.  For every
    sequence of operations on a new table whose consumer was set, the table runs
    to its end with results [xs] exactly when the specification, a finite map
    of timers, allows those results: [set] schedules the consumer at the timer's
    time and fails on a line that has a timer, [unset] fails on a line that has
    none, [isReady] says whether some timer has expired, and [nextAddress] is
    the line of the timer that expires first, the lowest address among equals,
    and fails on an empty table. *)
Theorem timer_table_refines consumer ops xs :
  (t ← tt_setConsumer TimerTable_ctor (Some consumer); run tt_step t ops) = Ok xs <->
  traces timer_spec ∅ ops xs.
Proof.
  apply (traces_run tt_step timer_spec (fun _ => True) tt_sim); [by split | by apply Forall_true].
Qed.
End Lines.

(** Two timers of one time: the lower address is next, also after a query
    cached it and it was removed and set again. *)
Example timer_run_ex :
  (t ← tt_setConsumer TimerTable_ctor (Some 1);
   run (tt_step 6) t [TSet 128 10; TSet 64 10; TNext; TIsReady 9; TUnset 64; TNext; TSet 64 11; TNext; TIsReady 10]) =
  Ok [OWakeup 10; OWakeup 10; OAddr 64; OBool false; ODone; OAddr 128; OWakeup 11; OAddr 128; OBool true].
Proof. vm_compute. reflexivity. Qed.
