(* ===== verification/NetDestQueries.v ===== *)
(** * Queries and removals of destination sets

    The operations of [NetDest] that the persistent-request table uses:
    [isElement], [remove], [isEmpty], [isSuperset]/[isSubset], [count] and
    [smallestElement], each with its meaning on the set of machine identifiers
    the destination denotes ([nd_mem], NetDest.v). *)
From S2P Require Import Prelude NetDest.

Definition NetDest_isSubset (d test : netdest) : res bool := NetDest_isSuperset test d.

Section Queries.
Context (counts : list Z).
Implicit Types (d o : netdest) (e m : machineID).

(** The set and the bit of a machine. *)
Lemma vecIndex_ok d e :
  nd_ok counts d -> mid_ok counts e ->
  exists s, vecIndex counts d e = Ok (mtype e) /\ vget d (mtype e) = Ok s /\ set_ok s /\
    0 <= mtype e < Z.of_nat (length d) /\ 0 <= mnum e < m_nSize s /\ bit_ok (mnum e) = true.
Proof.
  intros [Hlen Hd] (Hn0 & c & Hc & Hn). pose proof (vget_range _ _ _ Hc) as Hr.
  destruct (vget_is_ok d (mtype e)) as [s Hs]; [lia |]. destruct (Hd _ _ Hs) as [Hcs Hsok].
  rewrite Hc in Hcs. injection Hcs as ->. exists s. unfold vecIndex, MachineType_base_level.
  replace ((0 <=? mtype e) && (mtype e <=? MachineType_NUM counts)) with true by (unfold MachineType_NUM; lia). rsimpl.
  replace (mtype e <? Z.of_nat (length d)) with true by lia. rsimpl.
  split_and!; try done; [lia | lia |]. unfold bit_ok. destruct Hsok as [Hsz _]. lia.
Qed.

Lemma NetDest_isElement_spec d e :
  nd_ok counts d -> mid_ok counts e -> exists b, NetDest_isElement counts d e = Ok b /\ (b = true <-> nd_mem d e).
Proof.
  intros Hd He. destruct (vecIndex_ok d e Hd He) as (s & Hv & Hs & _ & _ & _ & Hb).
  unfold NetDest_isElement. rewrite Hv. rsimpl. rewrite Hs. rsimpl. unfold Set_isElement, bitIndex. rewrite Hb.
  eexists. split; [done |]. unfold nd_mem. rewrite Hs. split; [by eexists | naive_solver].
Qed.

Lemma nd_mem_insert d i s x :
  0 <= i < Z.of_nat (length d) ->
  nd_mem (<[Z.to_nat i := s]> d) x <->
  (mtype x = i /\ Z.testbit (bits s) (mnum x) = true) \/ (mtype x <> i /\ nd_mem d x).
Proof.
  intros Hi. unfold nd_mem. destruct (decide (mtype x = i)) as [Hx|Hx].
  - rewrite (proj2 (vget_Ok (<[Z.to_nat i := s]> d) (mtype x) s)); [naive_solver |].
    split; [lia |]. rewrite Hx. apply list_lookup_insert_eq. lia.
  - assert (vget (<[Z.to_nat i := s]> d) (mtype x) = vget d (mtype x)) as ->; [| naive_solver].
    unfold vget. case_decide; [| done]. by rewrite list_lookup_insert_ne by lia.
Qed.

Lemma NetDest_remove_spec d e :
  nd_ok counts d -> mid_ok counts e ->
  exists r, NetDest_remove counts d e = Ok r /\ nd_ok counts r /\ forall x, nd_mem r x <-> x <> e /\ nd_mem d x.
Proof.
  intros Hd He. destruct (vecIndex_ok d e Hd He) as (s & Hv & Hs & Hsok & Hi & Hn & Hb).
  unfold NetDest_remove. rewrite Hv. rsimpl. unfold vupd. rewrite Hs. rsimpl. unfold Set_remove, bitIndex. rewrite Hb. rsimpl.
  rewrite vset_val by done. eexists. split; [done |].
  assert (Hbit : forall i, Z.testbit (Z.clearbit (bits s) (mnum e)) i = Z.testbit (bits s) i && negb (bool_decide (i = mnum e))).
  { intros i. rewrite Z.clearbit_eqb. rewrite Z.eqb_sym. do 2 f_equal.
    destruct (Z.eqb_spec i (mnum e)); [by rewrite bool_decide_true | by rewrite bool_decide_false]. }
  pose proof Hsok as (Hsz & Hb0 & Hbz)%set_ok_bits. destruct Hd as [Hlen Hd]. split.
  - split; [by rewrite length_insert |]. intros i s' [Hi' Hs']%vget_Ok. destruct (decide (mtype e = i)) as [<-|Hne].
    + rewrite list_lookup_insert_eq in Hs' by lia. injection Hs' as <-. cbn [m_nSize]. split; [by apply Hd |].
      apply set_ok_bits. cbn [m_nSize bits]. split_and!; [lia | lia | |].
      * unfold Z.clearbit. apply Z.ldiff_nonneg. tauto.
      * intros j Hj. by rewrite Hbit, Hbz.
    + rewrite list_lookup_insert_ne in Hs' by lia. apply Hd. by apply vget_Ok.
  - intros x. rewrite nd_mem_insert by done. cbn [bits]. rewrite Hbit. split.
    + intros [[Hx Ht]|[Hx Hm]]; [b2p |]; (split; [by intros -> |]); [| done]. exists s. by rewrite Hx.
    + intros [Hne (s' & Hs' & Ht)]. destruct (decide (mtype x = mtype e)) as [Hx|Hx].
      * left. rewrite Hx, Hs in Hs'. injection Hs' as <-. split; [done |]. rewrite Ht.
        rewrite bool_decide_false; [done |]. intros Hn'. apply Hne. destruct x, e; simpl in *; congruence.
      * right. split; [done |]. by exists s'.
Qed.

(** A set of bits is zero when none is set. *)
Lemma set_empty s : set_ok s -> bits s = 0 <-> forall j, Z.testbit (bits s) j = false.
Proof.
  intros _. split; [intros ->; apply Z.bits_0 |]. intros H. apply Z.bits_inj'. intros n _. by rewrite H, Z.bits_0.
Qed.

Lemma NetDest_isEmpty_spec d : nd_ok counts d -> NetDest_isEmpty d = true <-> forall e, ~ nd_mem d e.
Proof.
  intros [_ Hd]. unfold NetDest_isEmpty. rewrite forallb_forall. split.
  - intros H e (s & Hs & Ht). pose proof (proj1 (vget_Ok _ _ _) Hs) as [_ Hl].
    specialize (H s (proj1 (list_elem_of_In _ _) (list_elem_of_lookup_2 _ _ _ Hl))).
    unfold Set_isEmpty in H. b2p. by rewrite H, Z.bits_0 in Ht.
  - intros H s Hs. apply list_elem_of_In, list_elem_of_lookup in Hs as [i Hs]. apply vget_nat in Hs.
    destruct (Hd _ _ Hs) as [_ Hok]. unfold Set_isEmpty. apply Z.eqb_eq, set_empty; [done |]. intros j.
    apply not_true_is_false. intros Ht. apply (H (MachineID (Z.of_nat i) j)). by exists s.
Qed.

Lemma NetDest_not_empty d : nd_ok counts d -> NetDest_isEmpty d = false -> exists e, nd_mem d e.
Proof.
  intros Hd Ee. apply not_true_iff_false in Ee. destruct (nd_list d) as [|e l] eqn:El.
  - exfalso. apply Ee, NetDest_isEmpty_spec; [done |]. intros e He. apply (elem_of_nd_list counts) in He; [| done].
    rewrite El in He. by apply not_elem_of_nil in He.
  - exists e. apply (elem_of_nd_list counts); [done |]. rewrite El. by left.
Qed.

Lemma Set_isSuperset_spec a b :
  set_ok a -> set_ok b -> m_nSize a = m_nSize b ->
  exists r, Set_isSuperset a b = Ok r /\ (r = true <-> forall j, Z.testbit (bits b) j = true -> Z.testbit (bits a) j = true).
Proof.
  intros Ha Hb Hab. unfold Set_isSuperset. rewrite Hab, Z.eqb_refl. rsimpl. eexists. split; [done |]. rewrite Z.eqb_eq. split.
  - intros E j Hj. rewrite <- E, Z.lor_spec, Hj. apply orb_true_r.
  - intros H. apply Z.bits_inj'. intros n _. rewrite Z.lor_spec. specialize (H n).
    destruct (Z.testbit (bits a) n), (Z.testbit (bits b) n); naive_solver.
Qed.

Lemma all2M_spec (f : rset -> rset -> res bool) d o :
  length d = length o ->
  (forall n a b, d !! n = Some a -> o !! n = Some b -> exists r, f a b = Ok r) ->
  exists r, all2M f d o = Ok r /\ (r = true <-> forall n a b, d !! n = Some a -> o !! n = Some b -> f a b = Ok true).
Proof.
  revert o. induction d as [|a d IH]; intros [|b o] Hl Hf; simplify_eq/=; [by exists true |].
  destruct (Hf 0%nat a b) as [r Hr]; [done | done |]. rewrite Hr. rsimpl.
  destruct (IH o) as (r' & Hr' & Hiff); [done | intros n; apply (Hf (S n)) |]. destruct r.
  - exists r'. split; [done |]. rewrite Hiff. split.
    + intros H [|n] x y Hx Hy; simplify_eq/=; [done | by eapply H].
    + intros H n. apply (H (S n)).
  - exists false. split; [done |]. split; [done |]. intros H. specialize (H 0%nat a b eq_refl eq_refl). congruence.
Qed.

Lemma NetDest_isSuperset_spec d o :
  nd_ok counts d -> nd_ok counts o ->
  exists b, NetDest_isSuperset d o = Ok b /\ (b = true <-> forall e, nd_mem o e -> nd_mem d e).
Proof.
  intros Hd Ho. unfold NetDest_isSuperset. rewrite (nd_ok_length_eqb counts) by done. rsimpl.
  destruct Hd as [Hld Hd], Ho as [Hlo Ho].
  assert (Hset : forall n a b, d !! n = Some a -> o !! n = Some b -> exists r, Set_isSuperset a b = Ok r /\
    (r = true <-> forall j, Z.testbit (bits b) j = true -> Z.testbit (bits a) j = true)).
  { intros n a b Ha%vget_nat Hb%vget_nat. destruct (Hd _ _ Ha), (Ho _ _ Hb). apply Set_isSuperset_spec; congruence. }
  destruct (all2M_spec Set_isSuperset d o) as (r & Hr & Hiff); [congruence | naive_solver |].
  exists r. split; [done |]. rewrite Hiff. split.
  - intros H e (b & Hb & Ht). destruct (vget_is_ok d (mtype e)) as [a Ha]; [apply vget_range in Hb; lia |].
    pose proof (proj1 (vget_Ok _ _ _) Ha) as [_ Ha']. pose proof (proj1 (vget_Ok _ _ _) Hb) as [_ Hb'].
    destruct (Hset _ _ _ Ha' Hb') as (r' & Hr' & Hj). rewrite (H _ _ _ Ha' Hb') in Hr'. injection Hr' as <-.
    exists a. split; [done |]. by apply Hj.
  - intros H n a b Ha Hb. destruct (Hset _ _ _ Ha Hb) as (r' & Hr' & Hj). rewrite Hr'. f_equal. apply Hj.
    intros j Ht. destruct (H (MachineID (Z.of_nat n) j)) as (a' & Ha' & Ht'); [exists b; split; [by apply vget_nat | done] |].
    cbn [mtype] in Ha'. apply vget_nat in Ha. rewrite Ha in Ha'. by injection Ha' as <-.
Qed.
End Queries.

(** ** The smallest element *)

(** The order [smallestElement] searches in: by type, then by number. *)
Definition mid_le (a b : machineID) : Prop := mtype a < mtype b \/ (mtype a = mtype b /\ mnum a <= mnum b).

Lemma mid_le_antisym a b : mid_le a b -> mid_le b a -> a = b.
Proof. destruct a, b. unfold mid_le. cbn. intros. f_equal; lia. Qed.

Definition is_smallest (d : netdest) (e : machineID) : Prop := nd_mem d e /\ forall x, nd_mem d x -> mid_le e x.

(** The scan of one set: the lowest bit set, if there is one. *)
Lemma scan_set s :
  set_ok s ->
  exists b j, foldM_brk (fun _ j => b ← Set_isElement s j; Ok (b, j)) (upto (m_nSize s)) 0 = Ok (b, j) /\
    if b : bool then 0 <= j < m_nSize s /\ Z.testbit (bits s) j = true /\ forall i, i < j -> Z.testbit (bits s) i = false
    else forall i, Z.testbit (bits s) i = false.
Proof.
  intros Hs. pose proof Hs as (Hsz & Hb0 & Hz)%set_ok_bits.
  assert (Hneg : forall i, i < 0 -> Z.testbit (bits s) i = false) by (intros; by apply Z.testbit_neg_r).
  destruct (foldM_brk_upto (fun _ j => b ← Set_isElement s j; Ok (b, j))
    (fun k _ => forall i, i < k -> Z.testbit (bits s) i = false)
    (fun k j => j = k /\ Z.testbit (bits s) j = true /\ forall i, i < j -> Z.testbit (bits s) i = false)
    (m_nSize s) 0) as (b & j & Hr & Hb); [lia | done | |].
  - intros i s0 Hi Hbelow. unfold Set_isElement, bit_ok.
    replace ((0 <=? i) && (i <? NUMBER_BITS_PER_SET)) with true by lia. rsimpl. eexists _, i. split; [done |].
    destruct (Z.testbit (bits s) i) eqn:Et; [done |]. intros k Hk. destruct (decide (k = i)) as [->|]; [done | apply Hbelow; lia].
  - exists b, j. split; [done |]. destruct b; [naive_solver |]. intros i. destruct (decide (i < m_nSize s)); [by apply Hb | apply Hz; lia].
Qed.

Lemma NetDest_smallestElement_spec counts d :
  nd_ok counts d -> (exists e, nd_mem d e) -> exists e, NetDest_smallestElement counts d = Ok e /\ is_smallest d e.
Proof.
  intros Hd [x0 Hx0]. unfold NetDest_smallestElement.
  assert (NetDest_count d <> 0) as Hc by (intros H; rewrite (NetDest_count_0 counts) in H by done; by apply (H x0)).
  rewrite <- length_nd_list in *. replace (0 <? Z.of_nat (length (nd_list d))) with true by lia. rsimpl. clear Hc.
  destruct (foldM_brk_upto (fun acc i =>
        s ← vget d i;
        r ← foldM_brk (fun _ j => b ← Set_isElement s j; Ok (b, j)) (upto (m_nSize s)) 0;
        if (r.1 : bool) then t ← MachineType_from_base_level counts i; Ok (true, MachineID t r.2)
        else Ok (false, acc))
    (fun k _ => forall e, nd_mem d e -> k <= mtype e) (fun k e => is_smallest d e)
    (Z.of_nat (length d)) (MachineID 0 0)) as (b & e & Hr & Hb).
  - lia.
  - intros e (s & Hs%vget_range & _). lia.
  - intros i acc Hi Hbelow. destruct (vget_is_ok d i Hi) as [s Hs]. rewrite Hs. rsimpl.
    pose proof Hd as [Hlen Hsets]. destruct (Hsets _ _ Hs) as [_ Hok].
    destruct (scan_set s Hok) as (b & j & Hscan & Hb). rewrite Hscan. rsimpl. destruct b.
    + unfold MachineType_from_base_level. replace ((0 <=? i) && (i <? MachineType_NUM counts)) with true
        by (unfold MachineType_NUM; lia). rsimpl. eexists true, _. split; [done |]. destruct Hb as (Hj & Ht & Hlow). split; [by exists s |].
      intros x Hx. pose proof (Hbelow x Hx) as Hle. unfold mid_le. cbn [mtype mnum].
      destruct (decide (mtype x = i)) as [Hxi|]; [| lia]. right. split; [done |]. destruct Hx as (s' & Hs' & Htx).
      rewrite Hxi, Hs in Hs'. injection Hs' as <-. destruct (decide (mnum x < j)); [by rewrite Hlow in Htx | lia].
    + eexists false, _. split; [done |]. intros x Hx. pose proof (Hbelow x Hx) as Hle.
      destruct (decide (mtype x = i)) as [Hxi|]; [| lia]. destruct Hx as (s' & Hs' & Htx).
      rewrite Hxi, Hs in Hs'. injection Hs' as <-. by rewrite Hb in Htx.
  - rewrite Hr. rsimpl. destruct b; [naive_solver |]. exfalso. pose proof (Hb x0 Hx0).
    destruct Hx0 as (s & Hs%vget_range & _). lia.
Qed.

Lemma NetDest_smallestElement_none counts d :
  nd_ok counts d -> (forall e, ~ nd_mem d e) -> NetDest_smallestElement counts d = Err EAssert.
Proof.
  intros Hd H. unfold NetDest_smallestElement. by rewrite (proj2 (NetDest_count_0 counts d Hd) H).
Qed.

Lemma is_smallest_unique d e e' : is_smallest d e -> is_smallest d e' -> e = e'.
Proof. intros [H1 L1] [H2 L2]. apply mid_le_antisym; eauto. Qed.
