(* ===== verification/PersistentTable.v ===== *)
(** * The table of persistent requests

    Models [mem/ruby/structures/PersistentTable.{hh,cc}], which the token
    protocols use against starvation: a starving machine locks a line; of the
    machines that lock a line the smallest is served; [markEntries] marks the
    machines of a wave, and no new request is issued until they have all unlocked.

    The specification is a finite map from (line, machine) to (wants to write, marked); the
    refinement theorem shows that the three [NetDest]s of an entry implement it
    and that the assertions of the code fail exactly where it allows
    nothing. *)
From S2P Require Import Prelude Common NetDest NetDestQueries TraceRefinement TimerTable.

Record PersistentTableEntry := {
  m_starving : netdest;
  m_marked : netdest;
  m_request_to_write : netdest
}.

#[export] Instance PersistentTableEntry_eta : Eta PersistentTableEntry := {| eta := fun e =>
  {| m_starving := m_starving e; m_marked := m_marked e; m_request_to_write := m_request_to_write e |} |}.

Definition PersistentTable : Type := gmap Z PersistentTableEntry.

Inductive AccessType := AccessType_Read | AccessType_Write.

#[export] Instance AccessType_eq_dec : EqDecision AccessType.
Proof. solve_decision. Defined.

Definition PersistentTable_ctor : PersistentTable := ∅.

Section Table.
Context (block_size_bits : Z) (counts : list Z).

Definition PersistentTableEntry_ctor : res PersistentTableEntry :=
  s ← NetDest_ctor counts; m ← NetDest_ctor counts; w ← NetDest_ctor counts;
  Ok {| m_starving := s; m_marked := m; m_request_to_write := w |}.

Definition persistentRequestLock (t : PersistentTable) (address : Z) (locker : machineID) (type : AccessType)
    : res PersistentTable :=
  _ ← cassert (line_aligned block_size_bits address);
  dflt ← PersistentTableEntry_ctor;
  let present := bool_decide (is_Some (t !! address)) in
  let entry := default dflt (t !! address) in
  _ ← (if present then b ← NetDest_isElement counts (m_starving entry) locker; cassert (negb b) else Ok ());
  s ← NetDest_add counts (m_starving entry) locker;
  let entry := entry ⟨ m_starving := s ⟩ in
  entry ← (if decide (type = AccessType_Write)
           then w ← NetDest_add counts (m_request_to_write entry) locker; Ok (entry ⟨ m_request_to_write := w ⟩)
           else Ok entry);
  _ ← (if present then b ← NetDest_isSubset (m_marked entry) (m_starving entry); cassert b else Ok ());
  Ok (<[address := entry]> t).

Definition persistentRequestUnlock (t : PersistentTable) (address : Z) (unlocker : machineID) : res PersistentTable :=
  _ ← cassert (line_aligned block_size_bits address);
  match t !! address with
  | None => Err EAssert
  | Some entry =>
      b ← NetDest_isElement counts (m_starving entry) unlocker; _ ← cassert b;
      b ← NetDest_isSubset (m_marked entry) (m_starving entry); _ ← cassert b;
      s ← NetDest_remove counts (m_starving entry) unlocker;
      m ← NetDest_remove counts (m_marked entry) unlocker;
      w ← NetDest_remove counts (m_request_to_write entry) unlocker;
      let entry := {| m_starving := s; m_marked := m; m_request_to_write := w |} in
      b ← NetDest_isSubset (m_marked entry) (m_starving entry); _ ← cassert b;
      if NetDest_isEmpty (m_starving entry)
      then _ ← cassert (NetDest_isEmpty (m_marked entry)); Ok (delete address t)
      else Ok (<[address := entry]> t)
  end.

Definition okToIssueStarving (t : PersistentTable) (address : Z) (machId : machineID) : res bool :=
  _ ← cassert (line_aligned block_size_bits address);
  match t !! address with
  | None => Ok true
  | Some entry =>
      b ← NetDest_isElement counts (m_starving entry) machId;
      if (b : bool) then Ok false else Ok (NetDest_isEmpty (m_marked entry))
  end.

(** [assert(i != m_map.end())]. *)
Definition find_entry (t : PersistentTable) (address : Z) : res PersistentTableEntry :=
  match t !! address with Some e => Ok e | None => Err EAssert end.

Definition findSmallest (t : PersistentTable) (address : Z) : res machineID :=
  _ ← cassert (line_aligned block_size_bits address);
  entry ← find_entry t address;
  NetDest_smallestElement counts (m_starving entry).

Definition typeOfSmallest (t : PersistentTable) (address : Z) : res AccessType :=
  _ ← cassert (line_aligned block_size_bits address);
  entry ← find_entry t address;
  m ← NetDest_smallestElement counts (m_starving entry);
  b ← NetDest_isElement counts (m_request_to_write entry) m;
  Ok (if (b : bool) then AccessType_Write else AccessType_Read).

Definition markEntries (t : PersistentTable) (address : Z) : res PersistentTable :=
  _ ← cassert (line_aligned block_size_bits address);
  match t !! address with
  | None => Ok t
  | Some entry =>
      _ ← cassert (NetDest_isEmpty (m_marked entry));
      Ok (<[address := entry ⟨ m_marked := m_starving entry ⟩]> t)
  end.

Definition pt_isLocked (t : PersistentTable) (address : Z) : res bool :=
  _ ← cassert (line_aligned block_size_bits address);
  Ok (bool_decide (is_Some (t !! address))).

Definition countStarvingForAddress (t : PersistentTable) (address : Z) : res Z :=
  _ ← cassert (line_aligned block_size_bits address);
  Ok (match t !! address with None => 0 | Some entry => NetDest_count (m_starving entry) end).

Definition countReadStarvingForAddress (t : PersistentTable) (address : Z) : res Z :=
  _ ← cassert (line_aligned block_size_bits address);
  Ok (match t !! address with
      | None => 0
      | Some entry => NetDest_count (m_starving entry) - NetDest_count (m_request_to_write entry)
      end).

(** ** The operations of a controller and what it sees of them *)
Inductive pt_op :=
  | PLock (a : Z) (m : machineID) (type : AccessType) | PUnlock (a : Z) (m : machineID) | PMark (a : Z)
  | POk (a : Z) (m : machineID) | PSmallest (a : Z) | PType (a : Z) | PLocked (a : Z) | PCount (a : Z) | PCountRead (a : Z).

Inductive pt_obs := PDone | PBool (b : bool) | PMachine (m : machineID) | PAccess (type : AccessType) | PInt (n : Z).

Definition pt_step (t : PersistentTable) (o : pt_op) : res (PersistentTable * pt_obs) :=
  match o with
  | PLock a m type => t ← persistentRequestLock t a m type; Ok (t, PDone)
  | PUnlock a m => t ← persistentRequestUnlock t a m; Ok (t, PDone)
  | PMark a => t ← markEntries t a; Ok (t, PDone)
  | POk a m => b ← okToIssueStarving t a m; Ok (t, PBool b)
  | PSmallest a => m ← findSmallest t a; Ok (t, PMachine m)
  | PType a => ty ← typeOfSmallest t a; Ok (t, PAccess ty)
  | PLocked a => b ← pt_isLocked t a; Ok (t, PBool b)
  | PCount a => n ← countStarvingForAddress t a; Ok (t, PInt n)
  | PCountRead a => n ← countReadStarvingForAddress t a; Ok (t, PInt n)
  end.

(** The machines named are machines of the system. *)
Definition pt_op_ok (o : pt_op) : Prop :=
  match o with PLock _ m _ | PUnlock _ m | POk _ m => mid_ok counts m | _ => True end.
End Table.

(** ** The specification *)

#[export] Instance machineID_countable : Countable machineID.
Proof. refine (inj_countable' (fun m => (mtype m, mnum m)) (fun p => MachineID p.1 p.2) _). by intros []. Defined.

(** The outstanding persistent requests: who starves for which line, whether
    to write it, and whether the request is marked. *)
Record persistent := { p_type : AccessType; p_marked : bool }.
Abbreviation requests := (gmap (Z * machineID) persistent).

Definition starving_for (P : requests) (a : Z) (m : machineID) : Prop := is_Some (P !! (a, m)).
Definition marked_for (P : requests) (a : Z) (m : machineID) : Prop := exists r, P !! (a, m) = Some r /\ p_marked r = true.
Definition writing_for (P : requests) (a : Z) (m : machineID) : Prop := exists r, P !! (a, m) = Some r /\ p_type r = AccessType_Write.

(** The machine served for a line. *)
Definition served (P : requests) (a : Z) (m : machineID) : Prop :=
  starving_for P a m /\ forall m', starving_for P a m' -> mid_le m m'.

Definition mark_all (a : Z) (P : requests) : requests :=
  map_imap (fun k r => Some (if decide (k.1 = a) then {| p_type := p_type r; p_marked := true |} else r)) P.

(** The requests for a line, and those of them to read it. *)
Definition line_requests (a : Z) (P : requests) : requests := filter (fun kr => kr.1.1 = a) P.
Definition line_reads (a : Z) (P : requests) : requests :=
  filter (fun kr => kr.2.(p_type) = AccessType_Read) (line_requests a P).

Section Spec.
Context (block_size_bits : Z).

Inductive pt_spec_at (P : requests) : pt_op -> pt_obs -> requests -> Prop :=
  | pspec_lock a m type :
      P !! (a, m) = None ->
      pt_spec_at P (PLock a m type) PDone (<[(a, m) := {| p_type := type; p_marked := false |}]> P)
  | pspec_unlock a m : starving_for P a m -> pt_spec_at P (PUnlock a m) PDone (delete (a, m) P)
  | pspec_mark a : (forall m, ~ marked_for P a m) -> pt_spec_at P (PMark a) PDone (mark_all a P)
  | pspec_ok a m b :
      (b = true <-> ~ starving_for P a m /\ forall m', ~ marked_for P a m') -> pt_spec_at P (POk a m) (PBool b) P
  | pspec_smallest a m : served P a m -> pt_spec_at P (PSmallest a) (PMachine m) P
  | pspec_type a m r : served P a m -> P !! (a, m) = Some r -> pt_spec_at P (PType a) (PAccess (p_type r)) P
  | pspec_locked a b : (b = true <-> exists m, starving_for P a m) -> pt_spec_at P (PLocked a) (PBool b) P
  | pspec_count a : pt_spec_at P (PCount a) (PInt (Z.of_nat (size (line_requests a P)))) P
  | pspec_reads a : pt_spec_at P (PCountRead a) (PInt (Z.of_nat (size (line_reads a P)))) P.

Definition pt_addr (o : pt_op) : Z :=
  match o with
  | PLock a _ _ | PUnlock a _ | PMark a | POk a _ | PSmallest a | PType a | PLocked a | PCount a | PCountRead a => a
  end.

(** Every operation asserts that its address is that of a line. *)
Definition pt_spec (P : requests) (o : pt_op) (x : pt_obs) (P' : requests) : Prop :=
  line_aligned block_size_bits (pt_addr o) = true /\ pt_spec_at P o x P'.
End Spec.

(** ** The simulation *)
Section Simulation.
Context (block_size_bits : Z) (counts : list Z) (Hcounts : counts_ok counts).

Record entry_sim (P : requests) (a : Z) (e : PersistentTableEntry) : Prop := {
  es_starving_ok : nd_ok counts (m_starving e);
  es_marked_ok : nd_ok counts (m_marked e);
  es_writing_ok : nd_ok counts (m_request_to_write e);
  es_starving m : nd_mem (m_starving e) m <-> starving_for P a m;
  es_marked m : nd_mem (m_marked e) m <-> marked_for P a m;
  es_writing m : nd_mem (m_request_to_write e) m <-> writing_for P a m;
}.

(** An entry exists exactly for the lines some machine starves for. *)
Definition line_sim (P : requests) (a : Z) (oe : option PersistentTableEntry) : Prop :=
  match oe with
  | None => forall m, ~ starving_for P a m
  | Some e => entry_sim P a e /\ exists m, starving_for P a m
  end.

Definition pt_sim (t : PersistentTable) (P : requests) : Prop := forall a, line_sim P a (t !! a).

Lemma marked_starving P a m : marked_for P a m -> starving_for P a m.
Proof. intros (r & Hr & _). by eexists. Qed.
Lemma writing_starving P a m : writing_for P a m -> starving_for P a m.
Proof. intros (r & Hr & _). by eexists. Qed.

Lemma line_sim_ext P P' a oe : (forall m, P' !! (a, m) = P !! (a, m)) -> line_sim P a oe -> line_sim P' a oe.
Proof.
  intros He. unfold line_sim, starving_for. destruct oe as [e|]; [| intros H m; by rewrite He].
  intros [[] [m Hm]]. split; [| exists m; by rewrite He].
  split; try done; intros m'; unfold starving_for, marked_for, writing_for in *; rewrite He; auto.
Qed.

(** An operation on a line leaves the others alone. *)
Lemma pt_sim_line t P t' P' a :
  pt_sim t P -> (forall a', a' <> a -> t' !! a' = t !! a') ->
  (forall a' m, a' <> a -> P' !! (a', m) = P !! (a', m)) ->
  line_sim P' a (t' !! a) -> pt_sim t' P'.
Proof.
  intros Hs Ht HP Ha a'. destruct (decide (a' = a)) as [->|Hne]; [done |].
  rewrite Ht by done. apply (line_sim_ext P); [intros m; by apply HP | apply Hs].
Qed.

Lemma isSubset_true d o : nd_ok counts d -> nd_ok counts o -> (forall m, nd_mem d m -> nd_mem o m) -> NetDest_isSubset d o = Ok true.
Proof.
  intros Hd Ho H. unfold NetDest_isSubset. destruct (NetDest_isSuperset_spec counts o d) as (b & -> & Hb); [done | done |].
  by rewrite (proj2 Hb).
Qed.

Lemma marked_subset P a e : entry_sim P a e -> NetDest_isSubset (m_marked e) (m_starving e) = Ok true.
Proof.
  intros []. apply isSubset_true; [done | done |]. intros m Hm. apply es_starving0, marked_starving. by apply es_marked0.
Qed.

Lemma isElement_starving P a e m :
  entry_sim P a e -> mid_ok counts m ->
  exists b, NetDest_isElement counts (m_starving e) m = Ok b /\ (b = true <-> starving_for P a m).
Proof.
  intros [] Hm. destruct (NetDest_isElement_spec counts (m_starving e) m) as (b & Hb & Hiff); [done | done |].
  exists b. split; [done |]. by rewrite Hiff.
Qed.

Lemma isEmpty_marked P a e : entry_sim P a e -> NetDest_isEmpty (m_marked e) = true <-> forall m, ~ marked_for P a m.
Proof.
  intros []. rewrite (NetDest_isEmpty_spec counts) by done. split; intros H m Hm; by apply (H m), es_marked0.
Qed.

(** The requests for a line after one was added or removed. *)
Lemma for_insert P a m r m' :
  (starving_for (<[(a, m) := r]> P) a m' <-> m' = m \/ starving_for P a m') /\
  (P !! (a, m) = None ->
    (marked_for (<[(a, m) := r]> P) a m' <-> (m' = m /\ p_marked r = true) \/ marked_for P a m') /\
    (writing_for (<[(a, m) := r]> P) a m' <-> (m' = m /\ p_type r = AccessType_Write) \/ writing_for P a m')).
Proof.
  unfold starving_for, marked_for, writing_for. destruct (decide (m' = m)) as [->|Hne].
  - rewrite lookup_insert_eq. split; [split; [tauto | by eexists] |]. intros ->. split; naive_solver.
  - rewrite lookup_insert_ne by congruence. naive_solver.
Qed.

Lemma for_delete P a m m' :
  (starving_for (delete (a, m) P) a m' <-> m' <> m /\ starving_for P a m') /\
  (marked_for (delete (a, m) P) a m' <-> m' <> m /\ marked_for P a m') /\
  (writing_for (delete (a, m) P) a m' <-> m' <> m /\ writing_for P a m').
Proof.
  unfold starving_for, marked_for, writing_for. destruct (decide (m' = m)) as [->|Hne].
  - rewrite lookup_delete_eq. split_and!; (split; [| tauto]); [intros [? ?] | intros (? & ? & _) ..]; done.
  - rewrite lookup_delete_ne by congruence. tauto.
Qed.

Lemma for_mark P a m :
  (starving_for (mark_all a P) a m <-> starving_for P a m) /\
  (marked_for (mark_all a P) a m <-> starving_for P a m) /\
  (writing_for (mark_all a P) a m <-> writing_for P a m).
Proof.
  unfold starving_for, marked_for, writing_for, mark_all. rewrite map_lookup_imap. cbn [fst].
  destruct (P !! (a, m)) as [r|]; cbn; [rewrite decide_True by done |]; unfold is_Some.
  - split_and!; split; try (intros _; by eexists); intros (? & [= <-] & H); eexists; (split; [reflexivity | done]).
  - naive_solver.
Qed.

Lemma mark_all_other P a a' m : a' <> a -> mark_all a P !! (a', m) = P !! (a', m).
Proof.
  intros Hne. unfold mark_all. rewrite map_lookup_imap. destruct (P !! (a', m)); [| done]. cbn. by rewrite decide_False.
Qed.

Lemma default_entry t P a :
  pt_sim t P -> exists dflt, PersistentTableEntry_ctor counts = Ok dflt /\ entry_sim P a (default dflt (t !! a)).
Proof.
  intros Hs. unfold PersistentTableEntry_ctor. destruct (NetDest_ctor_spec counts Hcounts) as (d & -> & Hd & Hemp). rsimpl.
  eexists. split; [done |]. specialize (Hs a). destruct (t !! a) as [e|]; [apply Hs |]. cbn in *.
  split; try done; intros m; (split; [intros H; by apply Hemp in H |]); intros H; exfalso; apply (Hs m);
    [done | by apply marked_starving | by apply writing_starving].
Qed.

Lemma starving_absent P a m : ~ starving_for P a m -> P !! (a, m) = None.
Proof. apply eq_None_not_Some. Qed.

Lemma lock_spec t P a m type :
  pt_sim t P -> mid_ok counts m -> line_aligned block_size_bits a = true ->
  match persistentRequestLock block_size_bits counts t a m type with
  | Ok t' => P !! (a, m) = None /\ pt_sim t' (<[(a, m) := {| p_type := type; p_marked := false |}]> P)
  | Err _ => starving_for P a m
  end.
Proof.
  intros Hs Hm Ha. unfold persistentRequestLock. rewrite Ha. rsimpl.
  destruct (default_entry t P a Hs) as (dflt & -> & He). rsimpl. set (e := default dflt (t !! a)) in *.
  assert ((starving_for P a m /\ (if bool_decide (is_Some (t !! a))
      then b ← NetDest_isElement counts (m_starving e) m; cassert (negb b) else Ok ()) = Err EAssert) \/
    (P !! (a, m) = None /\ (if bool_decide (is_Some (t !! a))
      then b ← NetDest_isElement counts (m_starving e) m; cassert (negb b) else Ok ()) = Ok ())) as [[H ->]|[Hn ->]]; [| done |].
  { destruct (isElement_starving P a e m He Hm) as (b & -> & Hb). rsimpl. specialize (Hs a).
    destruct (t !! a); [| right; split; [by apply starving_absent, Hs | by rewrite bool_decide_false by (by intros [])]].
    rewrite bool_decide_true by done. destruct b; [left; naive_solver | right]. split; [| done].
    apply starving_absent. rewrite <- Hb. done. }
  rsimpl. destruct He as [Hso Hmo Hwo Hst Hma Hwr].
  destruct (NetDest_add_spec counts _ m Hso Hm) as (s & -> & Hs' & Hsm). rsimpl. cbn [setf m_request_to_write m_starving m_marked].
  set (P' := <[(a, m) := {| p_type := type; p_marked := false |}]> P).
  match goal with |- match ?x ≫= _ with _ => _ end =>
    assert (exists w, x = Ok {| m_starving := s; m_marked := m_marked e; m_request_to_write := w |} /\
      entry_sim P' a {| m_starving := s; m_marked := m_marked e; m_request_to_write := w |}) as (w & -> & He') end.
  { assert (Hall := fun m' => for_insert P a m {| p_type := type; p_marked := false |} m').
    case_decide as Hty; [destruct (NetDest_add_spec counts _ m Hwo Hm) as (w & -> & Hw & Hwm); rsimpl; exists w | exists (m_request_to_write e)];
      (split; [done |]); split; cbn [m_starving m_marked m_request_to_write]; try done; intros m'; destruct (Hall m') as [H1 [H2 H3]]; try done;
      fold P' in H1, H2, H3; rewrite ?H1, ?H2, ?H3, ?Hsm, ?Hwm, ?Hst, ?Hma, ?Hwr; cbn [p_marked p_type]; naive_solver. }
  rsimpl. rewrite (marked_subset P' a _ He'). rsimpl.
  replace (if bool_decide (is_Some (t !! a)) then Ok () else Ok ()) with (Ok ()) by (by destruct (bool_decide _)). rsimpl.
  split; [done |]. apply (pt_sim_line t P _ _ a); [done | intros; by apply lookup_insert_ne | |].
  - intros a' m' Hne. apply lookup_insert_ne. congruence.
  - unfold PersistentTable. rewrite lookup_insert_eq. split; [done |]. exists m. unfold starving_for, P'. by rewrite lookup_insert_eq.
Qed.

Lemma unlock_spec t P a m :
  pt_sim t P -> mid_ok counts m -> line_aligned block_size_bits a = true ->
  match persistentRequestUnlock block_size_bits counts t a m with
  | Ok t' => starving_for P a m /\ pt_sim t' (delete (a, m) P)
  | Err _ => ~ starving_for P a m
  end.
Proof.
  intros Hs Hm Ha. unfold persistentRequestUnlock. rewrite Ha. rsimpl. pose proof (Hs a) as Hl.
  destruct (t !! a) as [e|]; [destruct Hl as [He _] | by apply Hl].
  destruct (isElement_starving P a e m He Hm) as (b & -> & Hb). rsimpl. destruct b; [| rsimpl; naive_solver]. rsimpl.
  rewrite (marked_subset P a e He). rsimpl. destruct He as [Hso Hmo Hwo Hst Hma Hwr].
  destruct (NetDest_remove_spec counts _ m Hso Hm) as (s & -> & Hs' & Hsm). rsimpl.
  destruct (NetDest_remove_spec counts _ m Hmo Hm) as (k & -> & Hk & Hkm). rsimpl.
  destruct (NetDest_remove_spec counts _ m Hwo Hm) as (w & -> & Hw & Hwm). rsimpl.
  assert (entry_sim (delete (a, m) P) a {| m_starving := s; m_marked := k; m_request_to_write := w |}) as He'.
  { split; cbn [m_starving m_marked m_request_to_write]; try done; intros m'; destruct (for_delete P a m m') as (H1 & H2 & H3);
      rewrite ?H1, ?H2, ?H3, ?Hsm, ?Hkm, ?Hwm, ?Hst, ?Hma, ?Hwr; done. }
  rewrite (marked_subset _ a _ He'). rsimpl. cbn [m_starving m_marked m_request_to_write].
  assert (Hother : forall a' m', a' <> a -> delete (a, m) P !! (a', m') = P !! (a', m'))
    by (intros; apply lookup_delete_ne; congruence).
  destruct (NetDest_isEmpty s) eqn:Ee.
  - pose proof (proj1 (NetDest_isEmpty_spec counts s Hs') Ee) as Hnone.
    assert (NetDest_isEmpty k = true) as ->.
    { apply (NetDest_isEmpty_spec counts); [done |]. intros m' Hm'. apply (Hnone m'). apply (es_starving _ _ _ He').
      apply marked_starving. by apply (es_marked _ _ _ He'). }
    rsimpl. split; [by apply Hb |]. apply (pt_sim_line t P _ _ a); [done | intros; by apply lookup_delete_ne | done |].
    unfold PersistentTable. rewrite lookup_delete_eq. intros m' Hm'. apply (Hnone m'). by apply (es_starving _ _ _ He').
  - split; [by apply Hb |]. apply (pt_sim_line t P _ _ a); [done | intros; by apply lookup_insert_ne | done |].
    unfold PersistentTable. rewrite lookup_insert_eq. split; [done |].
    destruct (NetDest_not_empty counts s Hs' Ee) as [m0 Hm0]. exists m0. by apply (es_starving _ _ _ He').
Qed.

Lemma mark_spec t P a :
  pt_sim t P -> line_aligned block_size_bits a = true ->
  match markEntries block_size_bits t a with
  | Ok t' => (forall m, ~ marked_for P a m) /\ pt_sim t' (mark_all a P)
  | Err _ => exists m, marked_for P a m
  end.
Proof.
  intros Hs Ha. unfold markEntries. rewrite Ha. rsimpl. pose proof (Hs a) as Hl.
  destruct (t !! a) as [e|] eqn:Et.
  - destruct Hl as [He [m0 Hm0]]. pose proof (isEmpty_marked P a e He) as Hemp. destruct (NetDest_isEmpty (m_marked e)) eqn:Ee; rsimpl.
    + split; [by apply Hemp |]. apply (pt_sim_line t P _ _ a); [done | intros; by apply lookup_insert_ne | intros; by apply mark_all_other |].
      unfold PersistentTable. rewrite lookup_insert_eq. destruct He as [Hso Hmo Hwo Hst Hma Hwr].
      split; [split; cbn [setf m_starving m_marked m_request_to_write]; try done; intros m; destruct (for_mark P a m) as (H1 & H2 & H3);
        by rewrite ?H1, ?H2, ?H3 | exists m0; by apply (proj1 (for_mark P a m0))].
    + destruct (NetDest_not_empty counts _ (es_marked_ok _ _ _ He) Ee) as [m Hm]. exists m. by apply (es_marked _ _ _ He).
  - split; [intros m Hm; by apply (Hl m), marked_starving |].
    apply (pt_sim_line t P _ _ a); [done | done | intros; by apply mark_all_other |]. rewrite Et. intros m Hm. apply (Hl m). by apply (proj1 (for_mark P a m)).
Qed.

(** ** Counting *)

(** The number of elements of a [NetDest] is the size of any map whose keys
    for the line are those elements. *)
Lemma count_size (d : netdest) (Q : requests) (a : Z) :
  nd_ok counts d -> (forall k r, Q !! k = Some r -> k.1 = a) -> (forall m, nd_mem d m <-> is_Some (Q !! (a, m))) ->
  NetDest_count d = Z.of_nat (size Q).
Proof.
  intros Hd Ha Hm. rewrite <- length_nd_list, <- length_map_to_list, <- (length_fmap (fun kr => kr.1.2)). f_equal.
  apply Permutation_length, NoDup_Permutation; [apply NoDup_nd_list | |].
  - apply NoDup_fmap_2_strong; [| apply NoDup_map_to_list]. intros [[a1 m1] r1] [[a2 m2] r2] H1 H2 E. cbn in E. subst m2.
    apply elem_of_map_to_list in H1, H2. pose proof (Ha _ _ H1) as E1. pose proof (Ha _ _ H2) as E2. cbn in E1, E2. subst a1 a2. congruence.
  - intros m. rewrite (elem_of_nd_list counts), Hm by done. rewrite list_elem_of_fmap. split.
    + intros [r Hr]. exists ((a, m), r). by rewrite elem_of_map_to_list.
    + intros ([[a' m'] r] & -> & H). apply elem_of_map_to_list in H. pose proof (Ha _ _ H) as E. cbn in E |- *. subst a'. by eexists.
Qed.

Lemma line_requests_lookup P a k r : line_requests a P !! k = Some r <-> P !! k = Some r /\ k.1 = a.
Proof. unfold line_requests. rewrite map_lookup_filter_Some. done. Qed.

Lemma count_starving P a e : entry_sim P a e -> NetDest_count (m_starving e) = Z.of_nat (size (line_requests a P)).
Proof.
  intros []. apply (count_size _ _ a); [done | by intros k r [_ H]%line_requests_lookup |]. intros m. rewrite es_starving0.
  unfold starving_for, is_Some. setoid_rewrite line_requests_lookup. naive_solver.
Qed.

Lemma count_reads P a e :
  entry_sim P a e -> NetDest_count (m_starving e) - NetDest_count (m_request_to_write e) = Z.of_nat (size (line_reads a P)).
Proof.
  intros He. rewrite (count_starving P a e He). pose proof He as [].
  set (W := filter (fun kr : Z * machineID * persistent => ~ kr.2.(p_type) = AccessType_Read) (line_requests a P)).
  rewrite (count_size _ W a); [| done | |].
  - unfold line_reads. fold W.
    rewrite <- (map_filter_union_complement (fun kr => kr.2.(p_type) = AccessType_Read) (line_requests a P)) at 1.
    rewrite map_size_disj_union by apply map_disjoint_filter_complement. unfold W. lia.
  - intros k r. unfold W. rewrite map_lookup_filter_Some. by intros [[_ H]%line_requests_lookup _].
  - intros m. rewrite es_writing0. unfold writing_for, is_Some, W. setoid_rewrite map_lookup_filter_Some.
    setoid_rewrite line_requests_lookup. cbn [fst snd]. split; intros (r & H); exists r; destruct (p_type r); naive_solver.
Qed.

Lemma no_requests P a : (forall m, ~ starving_for P a m) -> line_requests a P = ∅.
Proof.
  intros H. apply map_empty. intros [a' m]. apply eq_None_not_Some. intros [r [Hr E]%line_requests_lookup]. cbn in E. subst a'.
  apply (H m). by eexists.
Qed.

(** ** The queries *)

Lemma smallest_spec t P a :
  pt_sim t P -> line_aligned block_size_bits a = true ->
  match findSmallest block_size_bits counts t a with
  | Ok m => served P a m /\ exists e, t !! a = Some e /\ NetDest_smallestElement counts (m_starving e) = Ok m
  | Err _ => forall m, ~ starving_for P a m
  end.
Proof.
  intros Hs Ha. unfold findSmallest, find_entry. rewrite Ha. rsimpl. specialize (Hs a). destruct (t !! a) as [e|]; rsimpl; [| done].
  destruct Hs as [[] [m0 Hm0]].
  destruct (NetDest_smallestElement_spec counts (m_starving e)) as (m & Hsm & Hm & Hleast); [done | exists m0; by apply es_starving0 |].
  rewrite Hsm.
  split; [split; [by apply es_starving0 |] | by exists e]. intros m' Hm'. apply Hleast. by apply es_starving0.
Qed.

Lemma type_spec t P a :
  pt_sim t P -> line_aligned block_size_bits a = true ->
  match typeOfSmallest block_size_bits counts t a with
  | Ok type => exists m r, served P a m /\ P !! (a, m) = Some r /\ p_type r = type
  | Err _ => forall m, ~ starving_for P a m
  end.
Proof.
  intros Hs Ha. pose proof (smallest_spec t P a Hs Ha) as Hsm. unfold findSmallest in Hsm. unfold typeOfSmallest. rewrite Ha in *.
  rsimpl in *. pose proof (Hs a) as Hl. unfold find_entry in *. destruct (t !! a) as [e|]; rsimpl in *; [| done].
  destruct (NetDest_smallestElement counts (m_starving e)) as [m|]; rsimpl; [| done].
  destruct Hsm as [Hserved _], Hl as [[] _].
  destruct (NetDest_isElement_spec counts (m_request_to_write e) m) as (b & -> & Hb);
    [done | apply (nd_mem_mid_ok counts (m_starving e)); [done |]; apply es_starving0, Hserved |].
  rsimpl. destruct (proj1 Hserved) as [r Hr]. exists m, r. split_and!; [done | done |]. rewrite es_writing0 in Hb. unfold writing_for in Hb.
  destruct b; [naive_solver |]. destruct (p_type r) eqn:E; [done |]. enough (false = true) by done. apply Hb. eauto.
Qed.

Lemma ok_spec t P a m :
  pt_sim t P -> mid_ok counts m -> line_aligned block_size_bits a = true ->
  exists b, okToIssueStarving block_size_bits counts t a m = Ok b /\
    (b = true <-> ~ starving_for P a m /\ forall m', ~ marked_for P a m').
Proof.
  intros Hs Hm Ha. unfold okToIssueStarving. rewrite Ha. rsimpl. specialize (Hs a). destruct (t !! a) as [e|].
  - destruct Hs as [He _]. destruct (isElement_starving P a e m He Hm) as (b & -> & Hb). rsimpl.
    pose proof (isEmpty_marked P a e He) as Hemp. destruct b; eexists; (split; [done |]); naive_solver.
  - exists true. split; [done |]. split; [| done]. intros _. split; [apply Hs |]. intros m' H. by apply (Hs m'), marked_starving.
Qed.

Lemma served_unique P a m m' : served P a m -> served P a m' -> m = m'.
Proof. intros [H1 L1] [H2 L2]. apply mid_le_antisym; auto. Qed.

Lemma pt_spec_functional P o x P' x' P'' :
  pt_spec block_size_bits P o x P' -> pt_spec block_size_bits P o x' P'' -> x = x' /\ P' = P''.
Proof.
  intros [_ H1] [_ H2]. destruct H1; inversion H2; subst; try done.
  - split; [| done]. f_equal. apply Bool.eq_iff_eq_true. tauto.
  - split; [| done]. f_equal. by eapply served_unique.
  - split; [| done]. match goal with H1 : served _ _ ?x, H2 : served _ _ ?y |- _ => assert (x = y) as -> by (by eapply served_unique) end. congruence.
  - split; [| done]. f_equal. apply Bool.eq_iff_eq_true. tauto.
Qed.

Lemma pt_step_refines t P o :
  pt_sim t P -> pt_op_ok counts o ->
  match pt_step block_size_bits counts t o with
  | Ok (t', x) => exists P', pt_spec block_size_bits P o x P' /\ pt_sim t' P'
  | Err _ => forall x P', ~ pt_spec block_size_bits P o x P'
  end.
Proof.
  intros Hs Ho. unfold pt_spec. destruct (line_aligned block_size_bits (pt_addr o)) eqn:Ha.
  2: { destruct o; cbn [pt_step pt_addr] in *;
       unfold persistentRequestLock, persistentRequestUnlock, markEntries, okToIssueStarving, findSmallest, typeOfSmallest,
         pt_isLocked, countStarvingForAddress, countReadStarvingForAddress; rewrite Ha; rsimpl; naive_solver. }
  destruct o as [a m ty|a m|a|a m|a|a|a|a|a]; cbn [pt_step pt_addr pt_op_ok] in *.
  - pose proof (lock_spec t P a m ty Hs Ho Ha) as H. destruct (persistentRequestLock _ _ _ _ _ _); rsimpl.
    + destruct H. eexists. split; [split; [done | by constructor] | done].
    + intros x P' [_ Hx]. inversion Hx; subst. destruct H. congruence.
  - pose proof (unlock_spec t P a m Hs Ho Ha) as H. destruct (persistentRequestUnlock _ _ _ _ _); rsimpl.
    + destruct H. eexists. split; [split; [done | by constructor] | done].
    + intros x P' [_ Hx]. by inversion Hx.
  - pose proof (mark_spec t P a Hs Ha) as H. destruct (markEntries _ _ _); rsimpl.
    + destruct H. eexists. split; [split; [done | by constructor] | done].
    + intros x P' [_ Hx]. inversion Hx; subst. naive_solver.
  - destruct (ok_spec t P a m Hs Ho Ha) as (b & -> & Hb). rsimpl. exists P. split; [split; [done | by constructor] | done].
  - pose proof (smallest_spec t P a Hs Ha) as H. destruct (findSmallest _ _ _ _); rsimpl.
    + exists P. split; [split; [done | by constructor; apply H] | done].
    + intros x P' [_ Hx]. inversion Hx; subst. match goal with Hm : served _ _ _ |- _ => by apply (H _ (proj1 Hm)) end.
  - pose proof (type_spec t P a Hs Ha) as H. destruct (typeOfSmallest _ _ _ _); rsimpl.
    + destruct H as (m & r & Hm & Hr & <-). exists P. split; [split; [done | by econstructor] | done].
    + intros x P' [_ Hx]. inversion Hx; subst. match goal with Hm : served _ _ _ |- _ => by apply (H _ (proj1 Hm)) end.
  - unfold pt_isLocked. rewrite Ha. rsimpl. exists P. split; [split; [done |] | done]. constructor. rewrite bool_decide_eq_true.
    specialize (Hs a). destruct (t !! a); cbn in Hs; [split; [intros _; apply Hs | done] |]. split; [by intros [] | naive_solver].
  - unfold countStarvingForAddress. rewrite Ha. rsimpl. exists P. split; [split; [done |] | done]. specialize (Hs a).
    destruct (t !! a); [rewrite (count_starving P a) by apply Hs | pose proof (pspec_count P a) as H; rewrite (no_requests P a) in H by done]; done || constructor.
  - unfold countReadStarvingForAddress. rewrite Ha. rsimpl. exists P. split; [split; [done |] | done]. specialize (Hs a).
    destruct (t !! a); [rewrite (count_reads P a) by apply Hs; constructor |].
    pose proof (pspec_reads P a) as H. unfold line_reads in H. rewrite (no_requests P a), map_filter_empty in H by done. done.
Qed.

Lemma persistent_refines : Refines (pt_step block_size_bits counts) (pt_spec block_size_bits) (pt_op_ok counts) pt_sim.
Proof. split; [exact pt_step_refines | exact pt_spec_functional]. Qed.
End Simulation.

(** C21. The three destination sets per line of a [PersistentTable] implement
    a map from (line, machine) to the outstanding persistent request: on every
    sequence of operations of the system's machines the table gives the results
    [xs] exactly when that specification allows them.  In particular its assertions
    fail only for a second lock or an unlock without one, a second marking and
    the smallest of no machines; a line is locked exactly while a machine starves
    for it; a machine may issue only when it has no request and no request of
    the line is marked, so machines that arrive after [markEntries] wait for all marked
    ones; and the machine served is the smallest, with the type of its own
    request. *)
Theorem persistent_table_refines (block_size_bits : Z) (counts : list Z) (ops : list pt_op) (xs : list pt_obs) :
  counts_ok counts -> Forall (pt_op_ok counts) ops ->
  run (pt_step block_size_bits counts) PersistentTable_ctor ops = Ok xs <-> traces (pt_spec block_size_bits) ∅ ops xs.
Proof.
  intros Hc Hops. pose proof (persistent_refines block_size_bits counts Hc).
  apply (traces_run _ _ (pt_op_ok counts) (pt_sim counts)); [| done].
  intros a. unfold PersistentTable_ctor, PersistentTable. rewrite lookup_empty. cbn. intros m. unfold starving_for. rewrite lookup_empty. by intros [].
Qed.

Lemma persistent_table_refines_witness :
  traces (pt_spec 6) ∅
    [PLock 64 (MachineID 1 2) AccessType_Write; PLock 64 (MachineID 0 1) AccessType_Read; PMark 64; POk 64 (MachineID 0 0);
     PType 64; PUnlock 64 (MachineID 0 1); PSmallest 64; PUnlock 64 (MachineID 1 2); POk 64 (MachineID 0 0); PLocked 64]
    [PDone; PDone; PDone; PBool false; PAccess AccessType_Read; PDone; PMachine (MachineID 1 2); PDone; PBool true; PBool false].
Proof.
  apply (persistent_table_refines 6 [2; 3]).
  - split; [by repeat constructor | done].
  - repeat (apply Forall_cons_2; [first [exact I | split; [done | eexists; split; [reflexivity | done]]] |]). by apply Forall_nil_2.
  - vm_compute. reflexivity.
Defined.
