(* ===== verification/TBETable.v ===== *)
(** * Tables of transactions, and perfect caches

    Models [mem/ruby/structures/TBETable.hh], the table of the transactions a
    controller has under way, which asserts that it never holds more than its
    number of entries, and [mem/ruby/structures/PerfectCacheMemory.hh], the
    unbounded cache some protocols use as a local directory.  The type of the
    entries is that of the protocol: a parameter [ENTRY] with the value
    [entry0] of its default constructor.

    [areNSlotsAvailable] is the guard a protocol uses before transactions; the
    theorem shows that it promises exactly as many allocations as it was asked
    for. *)
From S2P Require Import Prelude Common TimerTable.

Section Tables.
Context {ENTRY : Type} (entry0 : ENTRY) (block_size_bits : Z).

Record TBETable := { tbe_map : gmap Z ENTRY; m_number_of_TBEs : Z }.

Definition TBETable_ctor (number_of_TBEs : Z) : TBETable := {| tbe_map := ∅; m_number_of_TBEs := number_of_TBEs |}.

(** [m_map.size()], and the [int] fields converted for comparisons with it. *)
Definition tbe_size (t : TBETable) : Z := Z.of_nat (size (tbe_map t)).

Definition tbe_isPresent (t : TBETable) (address : Z) : res bool :=
  _ ← cassert (line_aligned block_size_bits address);
  _ ← cassert (tbe_size t <=? u64 (m_number_of_TBEs t));
  Ok (bool_decide (is_Some (tbe_map t !! address))).

Definition tbe_allocate (t : TBETable) (address : Z) : res TBETable :=
  b ← tbe_isPresent t address; _ ← cassert (negb b);
  _ ← cassert (tbe_size t <? u64 (m_number_of_TBEs t));
  Ok {| tbe_map := <[address := entry0]> (tbe_map t); m_number_of_TBEs := m_number_of_TBEs t |}.

Definition tbe_deallocate (t : TBETable) (address : Z) : res TBETable :=
  b ← tbe_isPresent t address; _ ← cassert b;
  _ ← cassert (0 <? tbe_size t);
  Ok {| tbe_map := delete address (tbe_map t); m_number_of_TBEs := m_number_of_TBEs t |}.

Definition tbe_areNSlotsAvailable (t : TBETable) (n : Z) : bool := u64 n <=? u64 (m_number_of_TBEs t - tbe_size t).

Definition tbe_getNullEntry : option ENTRY := None.
Definition tbe_lookup (t : TBETable) (address : Z) : option ENTRY := tbe_map t !! address.

(** The invariant: the capacity is a non-negative [int] and is not exceeded. *)
Definition tbe_ok (t : TBETable) : Prop := 0 <= m_number_of_TBEs t < 2 ^ 31 /\ tbe_size t <= m_number_of_TBEs t.

Fixpoint tbe_allocate_all (t : TBETable) (addresses : list Z) : res TBETable :=
  match addresses with [] => Ok t | a :: l => t ← tbe_allocate t a; tbe_allocate_all t l end.

Lemma tbe_isPresent_Ok t a :
  tbe_ok t -> line_aligned block_size_bits a = true -> tbe_isPresent t a = Ok (bool_decide (is_Some (tbe_map t !! a))).
Proof.
  intros [Hn Hs] Ha. unfold tbe_isPresent. rewrite Ha, u64_id by (unfold in_u64; lia). rsimpl.
  by rewrite (proj2 (Z.leb_le _ _)).
Qed.

(** An allocation, on every branch. *)
Lemma tbe_allocate_spec t a :
  tbe_ok t -> line_aligned block_size_bits a = true ->
  tbe_allocate t a =
    if bool_decide (tbe_map t !! a = None /\ tbe_size t < m_number_of_TBEs t)
    then Ok {| tbe_map := <[a := entry0]> (tbe_map t); m_number_of_TBEs := m_number_of_TBEs t |} else Err EAssert.
Proof.
  intros Hok Ha. pose proof Hok as [Hn Hs]. unfold tbe_allocate. rewrite tbe_isPresent_Ok by done. rsimpl.
  rewrite u64_id by (unfold in_u64; lia). destruct (tbe_map t !! a) as [e|] eqn:E.
  - rewrite bool_decide_true by done. rsimpl. rewrite bool_decide_false by naive_solver. done.
  - rewrite (bool_decide_false (is_Some None)) by (by intros []). rsimpl. destruct (decide (tbe_size t < m_number_of_TBEs t)).
    + rewrite bool_decide_true by done. by rewrite (proj2 (Z.ltb_lt _ _)).
    + rewrite bool_decide_false by tauto. by rewrite (proj2 (Z.ltb_ge _ _)) by lia.
Qed.

Lemma tbe_allocate_ok t a t' :
  tbe_ok t -> tbe_allocate t a = Ok t' ->
  tbe_ok t' /\ tbe_size t' = tbe_size t + 1 /\ m_number_of_TBEs t' = m_number_of_TBEs t /\
  tbe_map t !! a = None /\ tbe_map t' = <[a := entry0]> (tbe_map t).
Proof.
  intros Hok H. assert (line_aligned block_size_bits a = true) as Ha.
  { destruct (line_aligned block_size_bits a) eqn:E; [done |]. unfold tbe_allocate, tbe_isPresent in H. by rewrite E in H. }
  rewrite tbe_allocate_spec in H by done. case_bool_decide as Hc; [| done]. destruct Hc as [Hnone Hlt]. injection H as <-.
  assert (tbe_size {| tbe_map := <[a := entry0]> (tbe_map t); m_number_of_TBEs := m_number_of_TBEs t |} = tbe_size t + 1) as Hsz.
  { unfold tbe_size. cbn [tbe_map]. rewrite map_size_insert_None by done. lia. }
  split_and!; try done. destruct Hok. split; [done |]. cbn [m_number_of_TBEs]. rewrite Hsz. lia.
Qed.

Lemma tbe_allocate_all_spec t l :
  tbe_ok t -> NoDup l -> Forall (fun a => line_aligned block_size_bits a = true /\ tbe_map t !! a = None) l ->
  (exists t', tbe_allocate_all t l = Ok t' /\ tbe_ok t' /\ (forall a, a ∈ l -> tbe_lookup t' a = Some entry0) /\
     forall a, a ∉ l -> tbe_lookup t' a = tbe_lookup t a) <->
  Z.of_nat (length l) <= m_number_of_TBEs t - tbe_size t.
Proof.
  intros Hok Hnd Hl. revert t Hok Hl. induction Hnd as [|a l Ha _ IH]; intros t Hok Hl; cbn [tbe_allocate_all length].
  - destruct Hok as [? ?]. split; [lia |]. intros _. exists t. split_and!; [done | done | | done]. by intros a ?%not_elem_of_nil.
  - apply Forall_cons in Hl as [[Hal Hnone] Hl]. destruct (tbe_allocate t a) as [t1|] eqn:E; rsimpl.
    + apply tbe_allocate_ok in E as (Hok1 & Hsz & Hn & _ & Hm); [| done].
      assert (Forall (fun b => line_aligned block_size_bits b = true /\ tbe_map t1 !! b = None) l) as Hl1.
      { rewrite Forall_forall in Hl |- *. intros b Hb. destruct (Hl b Hb). split; [done |]. rewrite Hm, lookup_insert_ne; [done |].
        intros ->. done. }
      specialize (IH t1 Hok1 Hl1). rewrite Hsz, Hn in IH. split.
      * intros (t' & Ht & Hok' & Hin & Hout). enough (Z.of_nat (length l) <= m_number_of_TBEs t - (tbe_size t + 1)) by lia. apply IH.
        exists t'. split_and!; [done | done | intros b Hb; apply Hin; by right |]. intros b Hb.
        destruct (decide (b = a)) as [->|Hne].
        -- rewrite Hin by left. unfold tbe_lookup. by rewrite Hm, lookup_insert_eq.
        -- rewrite Hout by (rewrite elem_of_cons; tauto). unfold tbe_lookup. by rewrite Hm, lookup_insert_ne.
      * intros Hle. destruct IH as [_ IH]. destruct IH as (t' & Ht & Hok' & Hin & Hout); [lia |]. exists t'. split_and!; [done | done | |].
        -- intros b [->|Hb]%elem_of_cons; [| by apply Hin]. rewrite Hout by done. unfold tbe_lookup. by rewrite Hm, lookup_insert_eq.
        -- intros b [Hne Hb]%not_elem_of_cons. rewrite Hout by done. unfold tbe_lookup. by rewrite Hm, lookup_insert_ne.
    + rewrite tbe_allocate_spec in E by done. case_bool_decide as Hc; [done |]. split; [by intros (? & ? & _) |]. intros Hle. exfalso.
      apply Hc. split; [done | lia].
Qed.

Lemma tbe_deallocate_ok t a t' :
  tbe_ok t -> tbe_deallocate t a = Ok t' ->
  tbe_ok t' /\ tbe_size t' = tbe_size t - 1 /\ is_Some (tbe_map t !! a) /\ tbe_map t' = delete a (tbe_map t).
Proof.
  intros [Hn Hs] H. unfold tbe_deallocate in H. inv_res. unfold tbe_isPresent in E. inv_res. subst. b2p.
  assert (Z.of_nat (size (delete a (tbe_map t))) = tbe_size t - 1) as Hsz.
  { unfold tbe_size. destruct E0 as [e He]. rewrite map_size_delete_Some by done.
    assert (size (tbe_map t) <> 0%nat) by (intros Hz%map_size_empty_inv; by rewrite Hz in He). lia. }
  split_and!; try done. split; [done |]. unfold tbe_size in *. cbn [tbe_map m_number_of_TBEs]. lia.
Qed.

(** The reachable tables: any allocations and deallocations from a new one. *)
Inductive tbe_reach (n : Z) : TBETable -> Prop :=
  | tbe_new : tbe_reach n (TBETable_ctor n)
  | tbe_alloc t a t' : tbe_reach n t -> tbe_allocate t a = Ok t' -> tbe_reach n t'
  | tbe_dealloc t a t' : tbe_reach n t -> tbe_deallocate t a = Ok t' -> tbe_reach n t'.

Lemma tbe_reach_ok n t : 0 <= n < 2 ^ 31 -> tbe_reach n t -> tbe_ok t /\ m_number_of_TBEs t = n.
Proof.
  intros Hn H. induction H as [|t a t' _ [IH <-] H|t a t' _ [IH <-] H].
  - split; [| done]. split; [done |]. unfold tbe_size. cbn [TBETable_ctor tbe_map m_number_of_TBEs]. rewrite map_size_empty. lia.
  - by apply tbe_allocate_ok in H as (? & _ & ? & _).
  - split; [by apply tbe_deallocate_ok in H as (? & _) |]. unfold tbe_deallocate in H. inv_res. by subst.
Qed.

(** In every reachable [TBETable] of capacity [n], [areNSlotsAvailable] of
    [k] slots is true exactly when any [k] different lines that have no
    transaction can all be given one, one after the other, without an
    assertion failing; the new entries are then found by [lookup], and no other
    entry changes.  The table never holds more than [n] entries. *)
Theorem tbe_slots_available n t l :
  0 <= n < 2 ^ 31 -> tbe_reach n t ->
  NoDup l -> Forall (fun a => line_aligned block_size_bits a = true /\ tbe_lookup t a = None) l -> Z.of_nat (length l) < 2 ^ 31 ->
  tbe_size t <= n /\
  (tbe_areNSlotsAvailable t (Z.of_nat (length l)) = true <->
   exists t', tbe_allocate_all t l = Ok t' /\ tbe_ok t' /\ (forall a, a ∈ l -> tbe_lookup t' a = Some entry0) /\
     forall a, a ∉ l -> tbe_lookup t' a = tbe_lookup t a).
Proof.
  intros Hn Hr Hnd Hl Hk. destruct (tbe_reach_ok n t Hn Hr) as [Hok <-]. rewrite (tbe_allocate_all_spec t l Hok Hnd Hl).
  pose proof Hok as [_ Hs]. split; [done |]. unfold tbe_areNSlotsAvailable, tbe_size in *. rewrite !u64_id by (unfold in_u64; lia). apply Z.leb_le.
Qed.

(** ** Perfect caches *)

(** [AccessPermission_NUM] is the value of a line that was only looked up. *)
Record PerfectCacheLineState := { pl_permission : Z; pl_entry : ENTRY }.

Definition PerfectCacheMemory : Type := gmap Z PerfectCacheLineState.
Context (AccessPermission_NUM AccessPermission_Invalid : Z).

Definition PerfectCacheLineState_ctor : PerfectCacheLineState := {| pl_permission := AccessPermission_NUM; pl_entry := entry0 |}.

Definition PerfectCacheMemory_ctor : PerfectCacheMemory := ∅.

(** [m_map[address]], which adds the address when it is absent. *)
Definition pcm_at (c : PerfectCacheMemory) (a : Z) : PerfectCacheMemory * PerfectCacheLineState :=
  match c !! a with Some s => (c, s) | None => (<[a := PerfectCacheLineState_ctor]> c, PerfectCacheLineState_ctor) end.

Definition pcm_isTagPresent (c : PerfectCacheMemory) (address : Z) : bool :=
  bool_decide (is_Some (c !! makeLineAddress block_size_bits address)).
Definition pcm_cacheAvail (c : PerfectCacheMemory) (address : Z) : bool := true.
Definition pcm_allocate (c : PerfectCacheMemory) (address : Z) : PerfectCacheMemory :=
  <[makeLineAddress block_size_bits address := {| pl_permission := AccessPermission_Invalid; pl_entry := entry0 |}]> c.
Definition pcm_deallocate (c : PerfectCacheMemory) (address : Z) : PerfectCacheMemory :=
  delete (makeLineAddress block_size_bits address) c.
Definition pcm_cacheProbe (c : PerfectCacheMemory) (newAddress : Z) : res Z := Err EPanic.
Definition pcm_lookup (c : PerfectCacheMemory) (address : Z) : PerfectCacheMemory * ENTRY :=
  let r := pcm_at c (makeLineAddress block_size_bits address) in (r.1, pl_entry r.2).
Definition pcm_getPermission (c : PerfectCacheMemory) (address : Z) : PerfectCacheMemory * Z :=
  let r := pcm_at c (makeLineAddress block_size_bits address) in (r.1, pl_permission r.2).
Definition pcm_changePermission (c : PerfectCacheMemory) (address new_perm : Z) : PerfectCacheMemory :=
  let a := makeLineAddress block_size_bits address in
  let r := pcm_at c a in <[a := {| pl_permission := new_perm; pl_entry := pl_entry r.2 |}]> r.1.

(** A lookup of an absent line makes it present. *)
Lemma pcm_lookup_allocates c a : pcm_isTagPresent (pcm_lookup c a).1 a = true.
Proof.
  unfold pcm_isTagPresent, pcm_lookup, pcm_at, PerfectCacheMemory in *. apply bool_decide_eq_true.
  destruct (c !! makeLineAddress block_size_bits a) eqn:E; cbn [fst]; [by rewrite E | by rewrite lookup_insert_eq].
Qed.
End Tables.

Lemma tbe_slots_available_witness :
  exists t : TBETable, tbe_allocate 0 6 (TBETable_ctor 2) 64 = Ok t /\
    tbe_size t <= 2 /\
    (tbe_areNSlotsAvailable t 2 = true <->
     exists t', tbe_allocate_all 0 6 t [128; 192] = Ok t' /\ tbe_ok t' /\ (forall a, a ∈ [128; 192] -> tbe_lookup t' a = Some 0) /\
       forall a, a ∉ [128; 192] -> tbe_lookup t' a = tbe_lookup t a).
Proof.
  eexists. split; [reflexivity |].
  apply (tbe_slots_available 0 6 2 _ [128; 192]); [lia | eapply (tbe_alloc _ _ _ _ 64); [apply tbe_new | reflexivity] | | | done].
  - apply (bool_decide_unpack (NoDup [128; 192])). vm_compute. exact I.
  - repeat (apply Forall_cons_2; [split; reflexivity |]). by apply Forall_nil_2.
Defined.
