(* ===== verification/AddrRange.v ===== *)
(** * Address ranges

    Models [base/addr_range.hh] and the bit functions of [base/bitfield.hh] it
    uses: ranges of addresses, possibly interleaved by the parities of sets of
    address bits, their constructors and comparisons, and the removal and
    insertion of the interleaving bits.  The record and [contains] are in
    Network.v, which uses them for the map from addresses to controllers.

    The theorems show that [getOffset] numbers the addresses of an aligned
    range without gaps: it is injective on the range, stays below its size
    and keeps the offset within a line.  Insertion of the interleaving bits
    does not undo their removal when there are three or more. *)
From S2P Require Import Prelude Common NetDest MessageBuffer Flit Network.

(** ** Bit functions *)

Definition insertBits (val first last bit_val : Z) : Z :=
  let bmask := u64 (Z.shiftl (mask (first - last + 1)) last) in
  Z.lor (Z.land (u64 (Z.shiftl bit_val last)) bmask) (Z.land val (lnot64 bmask)).

Definition ctz64 (value : Z) : Z :=
  match list_find (fun i => Z.testbit value i = true) (upto 64) with Some (_, i) => i | None => 64 end.

(** ** Constructors *)

Definition AddrRange_ctor : AddrRange := {| _start := 1; _end := 0; masks := []; intlvMatch := 0 |}.

Definition AddrRange_masks (start fin : Z) (ms : list Z) (intlv_match : Z) : res AddrRange :=
  _ ← fatal_if (negb (bool_decide (ms = [])) && (u64 (Z.shiftl 1 (Z.of_nat (length ms))) <=? intlv_match));
  Ok {| _start := start; _end := fin; masks := ms; intlvMatch := intlv_match |}.

(** [uint8_t] arithmetic. *)
Definition as_u8 (z : Z) : Z := z mod 256.

Definition legacy_mask (intlv_high_bit xor_high_bit i : Z) : Z :=
  let m := u64 (Z.shiftl 1 (as_u8 (intlv_high_bit - i))) in
  if negb (xor_high_bit =? 0) then Z.lor m (u64 (Z.shiftl 1 (as_u8 (xor_high_bit - i)))) else m.

Definition AddrRange_legacy (start fin intlv_high_bit xor_high_bit intlv_bits intlv_match : Z) : res AddrRange :=
  _ ← fatal_if (negb (intlv_bits =? 0) && (u64 (Z.shiftl 1 intlv_bits) <=? intlv_match));
  _ ← (if negb (intlv_bits =? 0) && negb (xor_high_bit =? 0) then
         if xor_high_bit =? intlv_high_bit then Err EFatal
         else if intlv_high_bit <? xor_high_bit then fatal_if (xor_high_bit - intlv_high_bit <? intlv_bits)
         else fatal_if (intlv_high_bit - xor_high_bit <? intlv_bits)
       else Ok ());
  Ok {| _start := start; _end := fin; intlvMatch := intlv_match;
        masks := reverse (legacy_mask intlv_high_bit xor_high_bit <$> upto intlv_bits) |}.

Definition AddrRange_interval (start fin : Z) : AddrRange := {| _start := start; _end := fin; masks := []; intlvMatch := 0 |}.

Definition RangeEx (start fin : Z) : AddrRange := AddrRange_interval start fin.
Definition RangeIn (start fin : Z) : AddrRange := AddrRange_interval start (u64 (fin + 1)).
Definition RangeSize (start size : Z) : AddrRange := AddrRange_interval start (u64 (start + size)).

(** ** Queries *)

Definition interleaved (r : AddrRange) : bool := (0 <? Z.of_nat (length (masks r))).

Definition range_size (r : AddrRange) : Z := Z.shiftr (u64 (_end r - _start r)) (Z.of_nat (length (masks r))).

(** [combined_mask] is an [int]; the shift by 64, of a mask that is zero in its
    low 32 bits, is undefined. *)
Definition granularity (r : AddrRange) : res Z :=
  if interleaved r then
    let combined_mask := foldl (fun c m => i32 (Z.lor c m)) 0 (masks r) in
    let lowest_bit := ctz64 (u64 combined_mask) in
    if lowest_bit <? 64 then Ok (Z.shiftl 1 lowest_bit) else Err EUninit
  else Ok (range_size r).

Definition stripes (r : AddrRange) : Z := u32 (u64 (Z.shiftl 1 (Z.of_nat (length (masks r))))).
Definition valid (r : AddrRange) : bool := _start r <=? _end r.

Definition mergesWith (r o : AddrRange) : bool :=
  ((_start o =? _start r) && (_end o =? _end r) && bool_decide (masks o = masks r))%bool.

Definition intersects (r o : AddrRange) : res bool :=
  if ((_end o <=? _start r) || (_end r <=? _start o))%bool then Ok false
  else if (negb (interleaved r) && negb (interleaved o))%bool then Ok true
  else if range_size o =? 1 then Ok (contains r (_start o))
  else if mergesWith r o then Ok (intlvMatch r =? intlvMatch o)
  else Err EPanic.

Definition range_isSubset (r o : AddrRange) : res bool :=
  if interleaved r then Err EPanic
  else if interleaved o then
    if (contains o (_start r) && contains o (u64 (_end r - 1)))%bool then g ← granularity o; Ok (range_size r <=? g) else Ok false
  else Ok ((_start o <=? _start r) && (_end r <=? _end o))%bool.

Definition range_lt (r o : AddrRange) : bool :=
  if negb (_start r =? _start o) then _start r <? _start o else intlvMatch r <? intlvMatch o.

Definition range_eqb (r o : AddrRange) : bool :=
  if negb (_start r =? _start o) then false else
  if negb (_end r =? _end o) then false else
  if negb (bool_decide (masks r = masks o)) then false else
  if negb (intlvMatch r =? intlvMatch o) then false else true.

(** The constructor that merges interleaved ranges: the loop checks that the
    matches count up from 0 (in a [uint8_t]). *)
Fixpoint merge_check (this : AddrRange) (rs : list AddrRange) (match_ : Z) : res () :=
  match rs with
  | [] => Ok ()
  | r :: rs =>
      _ ← fatal_if (negb (mergesWith this r));
      _ ← fatal_if (negb (intlvMatch r =? match_));
      merge_check this rs (as_u8 (match_ + 1))
  end.

Definition AddrRange_merge (rs : list AddrRange) : res AddrRange :=
  match rs with
  | [] => Ok AddrRange_ctor
  | [r] => Ok r
  | r :: _ =>
      _ ← fatal_if (negb (Z.of_nat (length rs) =? u64 (Z.shiftl 1 (Z.of_nat (length (masks r))))));
      _ ← merge_check r rs 0;
      Ok {| _start := _start r; _end := _end r; masks := []; intlvMatch := 0 |}
  end.

(** ** Interleaving bits *)

(** [std::sort] of the lowest bits of the masks. *)
Definition masks_lsb (r : AddrRange) : list Z := merge_sort Z.le (ctz64 <$> masks r).

Definition remove_step (a : Z) (ib : nat * Z) : Z :=
  let '(i, intlv_bit) := ib in
  if 0 <? intlv_bit then insertBits (Z.shiftr a 1) (intlv_bit - Z.of_nat i - 1) 0 a else Z.shiftr a 1.

Definition removeIntlvBits (r : AddrRange) (a : Z) : Z := foldl remove_step a (imap pair (masks_lsb r)).

Definition add_step (a : Z) (ib : nat * Z) : Z :=
  let '(i, intlv_bit) := ib in
  if 0 <? intlv_bit then insertBits (u64 (Z.shiftl a 1)) (intlv_bit + Z.of_nat i - 1) 0 a else u64 (Z.shiftl a 1).

(** [1 << lsb] is an [int]: defined below bit 31, and its complement is
    extended to 64 bits. *)
Definition select_step (r : AddrRange) (a : Z) (im : nat * Z) : res Z :=
  let '(i, m) := im in
  let lsb := ctz64 m in
  let intlv_bit := Common.bits (intlvMatch r) (Z.of_nat i) (Z.of_nat i) in
  if lsb <? 31 then
    let masked := Z.land (Z.land a m) (lnot64 (Z.shiftl 1 lsb)) in
    Ok (insertBits a lsb lsb (Z.lxor intlv_bit (popCount masked)))
  else Err EUninit.

Definition addIntlvBits (r : AddrRange) (a : Z) : res Z :=
  foldM (select_step r) (imap pair (masks r)) (foldl add_step a (imap pair (masks_lsb r))).

Definition MaxAddr : Z := 2 ^ 64 - 1.

Definition range_getOffset (r : AddrRange) (a : Z) : Z :=
  if negb ((_start r <=? a) && (a <? _end r)) then MaxAddr
  else if interleaved r then u64 (removeIntlvBits r a - removeIntlvBits r (_start r))
  else u64 (a - _start r).

(** The bits come back for two masks; with three, bit 3 of the address is
    lost. *)
Example add_remove_two :
  forallb (fun a => bool_decide (addIntlvBits {| _start := 0; _end := 64; masks := [1; 6]; intlvMatch := 2 |}
    (removeIntlvBits {| _start := 0; _end := 64; masks := [1; 6]; intlvMatch := 2 |} a) = Ok a))
    (filter (fun a => contains {| _start := 0; _end := 64; masks := [1; 6]; intlvMatch := 2 |} a = true) (upto 64)) = true.
Proof. vm_compute. reflexivity. Qed.

Example add_remove_three :
  let r := {| _start := 0; _end := 16; masks := [1; 2; 4]; intlvMatch := 7 |} in
  contains r 15 = true /\ removeIntlvBits r 15 = 1 /\ addIntlvBits r 1 = Ok 7.
Proof. vm_compute. done. Qed.

(** ** Dropping one bit *)

Definition drop_bit (a p : Z) : Z := a / 2 ^ (p + 1) * 2 ^ p + a mod 2 ^ p.

Lemma drop_bit_range a p : 0 <= p -> 0 <= a -> 0 <= drop_bit a p <= a.
Proof.
  intros Hp Ha. unfold drop_bit. assert (0 < 2 ^ p) by (apply Z.pow_pos_nonneg; lia).
  rewrite Z.pow_add_r, <- Z.div_div by lia. pose proof (Z.div_mod a (2 ^ p)). pose proof (Z.mod_pos_bound a (2 ^ p)).
  pose proof (Z.div_pos a (2 ^ p)). pose proof (Z.div_le_upper_bound (a / 2 ^ p) (2 ^ 1) (a / 2 ^ p)).
  pose proof (Z.div_pos (a / 2 ^ p) (2 ^ 1)). nia.
Qed.

Lemma drop_bit_testbit a p j :
  0 <= p -> 0 <= j -> Z.testbit (drop_bit a p) j = Z.testbit a (if j <? p then j else j + 1).
Proof.
  intros Hp Hj. unfold drop_bit. rewrite <- Z.shiftl_mul_pow2, <- Z.shiftr_div_pow2 by lia.
  rewrite Z.add_nocarry_lxor, Z.lxor_spec.
  - destruct (j <? p) eqn:E; b2p.
    + rewrite Z.shiftl_spec_low, Z.mod_pow2_bits_low by lia. by rewrite xorb_false_l.
    + rewrite Z.shiftl_spec, Z.shiftr_spec, Z.mod_pow2_bits_high, xorb_false_r by lia. f_equal. lia.
  - apply Z.bits_inj'. intros k Hk. rewrite Z.land_spec, Z.bits_0. destruct (decide (k < p)).
    + by rewrite Z.shiftl_spec_low.
    + by rewrite Z.mod_pow2_bits_high, andb_false_r by lia.
Qed.

(** One iteration of [removeIntlvBits] drops the bit. *)
Lemma insertBits_low val first bit_val :
  -1 <= first < 63 -> in_u64 val -> in_u64 bit_val ->
  insertBits val first 0 bit_val = bit_val mod 2 ^ (first + 1) + val / 2 ^ (first + 1) * 2 ^ (first + 1).
Proof.
  intros Hf Hval Hbv. unfold insertBits. rewrite Z.sub_0_r, Z.shiftl_0_r, mask_ones by lia.
  assert (0 <= Z.ones (first + 1) < 2 ^ 64) as Hones.
  { rewrite Z.ones_equiv. pose proof (Z.pow_le_mono_r 2 (first + 1) 64). pose proof (Z.pow_pos_nonneg 2 (first + 1)). lia. }
  rewrite !u64_id by (unfold in_u64; rewrite ?Z.shiftl_0_r; unfold in_u64 in *; lia).
  rewrite Z.shiftl_0_r, Z.land_ones by lia.
  assert (Z.land val (lnot64 (Z.ones (first + 1))) = val / 2 ^ (first + 1) * 2 ^ (first + 1)) as ->.
  { rewrite <- Z.shiftl_mul_pow2, <- Z.shiftr_div_pow2 by lia. unfold lnot64, u64. apply Z.bits_inj'. intros k Hk.
    rewrite Z.land_spec. destruct (decide (k < 64)) as [Hk64|Hk64].
    - rewrite Z.mod_pow2_bits_low, Z.lnot_spec by lia. destruct (decide (k < first + 1)).
      + rewrite Z.ones_spec_low, Z.shiftl_spec_low by lia. by rewrite andb_false_r.
      + rewrite Z.ones_spec_high, Z.shiftl_spec, Z.shiftr_spec by lia. rewrite andb_true_r. f_equal. lia.
    - rewrite Z.mod_pow2_bits_high, andb_false_r, Z.shiftl_spec, Z.shiftr_spec by lia.
      replace (k - (first + 1) + (first + 1)) with k by lia. symmetry. by apply (proj1 (bits_bound 64 val ltac:(lia)) Hval); lia. }
  rewrite <- Z.shiftl_mul_pow2 by lia.
  assert (Z.land (bit_val mod 2 ^ (first + 1)) (Z.shiftl (val / 2 ^ (first + 1)) (first + 1)) = 0) as Hz.
  { apply Z.bits_inj'. intros k Hk. rewrite Z.land_spec, Z.bits_0. destruct (decide (k < first + 1)).
    - by rewrite (Z.shiftl_spec_low _ _ k), andb_false_r.
    - by rewrite Z.mod_pow2_bits_high by lia. }
  by rewrite (Z.add_nocarry_lxor _ _ Hz), (Z.lxor_lor _ _ Hz).
Qed.

Lemma remove_step_drop a i b :
  in_u64 a -> Z.of_nat i <= b < 64 -> remove_step a (i, b) = drop_bit a (b - Z.of_nat i).
Proof.
  intros Ha Hb. unfold remove_step, drop_bit. rewrite Z.shiftr_div_pow2 by lia. change (2 ^ 1) with 2. destruct (0 <? b) eqn:E; b2p.
  - rewrite insertBits_low by (unfold in_u64 in *; first [lia | split; [apply Z.div_pos; lia | apply Z.div_lt_upper_bound; lia]]).
    replace (b - Z.of_nat i - 1 + 1) with (b - Z.of_nat i) by lia. rewrite Z.pow_add_r by lia. change (2 ^ 1) with 2.
    rewrite Z.div_div by lia. rewrite (Z.mul_comm 2). lia.
  - assert (b = 0) as -> by lia. replace (0 - Z.of_nat i) with 0 by lia. change (2 ^ (0 + 1)) with 2. change (2 ^ 0) with 1.
    rewrite Z.mod_1_r. lia.
Qed.

(** ** Dropping the bits of a sorted list *)

Fixpoint drop_bits (a : Z) (i : nat) (l : list Z) : Z :=
  match l with [] => a | b :: l => drop_bits (drop_bit a (b - Z.of_nat i)) (S i) l end.

(** The bits still to drop, of which [i] below were dropped. *)
Definition drops_ok (i : nat) (lo hi : Z) (l : list Z) : Prop :=
  StronglySorted Z.lt l /\ Forall (fun b => lo + Z.of_nat i <= b < hi) l.

Lemma drops_ok_tail i lo hi b l : drops_ok i lo hi (b :: l) -> lo + Z.of_nat i <= b < hi /\ drops_ok (S i) lo hi l /\ Forall (Z.lt b) l.
Proof.
  intros [Hs Hf]. inversion Hs as [|? ? Hs' Hb]; subst. apply Forall_cons in Hf as [Hb0 Hf]. split; [done |]. split; [| done]. split; [done |].
  rewrite Forall_forall in *. intros c Hc. specialize (Hb c Hc). specialize (Hf c Hc). lia.
Qed.

Lemma drop_bits_range a i l hi : drops_ok i 0 hi l -> 0 <= a -> 0 <= drop_bits a i l <= a.
Proof.
  revert a i. induction l as [|b l IH]; intros a i Hl Ha; cbn [drop_bits]; [lia |].
  apply drops_ok_tail in Hl as (Hb & Hl & _). pose proof (drop_bit_range a (b - Z.of_nat i)).
  specialize (IH (drop_bit a (b - Z.of_nat i)) (S i) Hl). lia.
Qed.

Lemma removeIntlv_drop_bits a i l :
  drops_ok i 0 64 l -> in_u64 a -> foldl remove_step a (imap (fun j b => ((i + j)%nat, b)) l) = drop_bits a i l.
Proof.
  revert a i. induction l as [|b l IH]; intros a i Hl Ha; [done |]. apply drops_ok_tail in Hl as (Hb & Hl & _).
  cbn [imap foldl drop_bits]. rewrite Nat.add_0_r, remove_step_drop by (done || lia).
  rewrite <- IH; [| done | pose proof (drop_bit_range a (b - Z.of_nat i)); unfold in_u64 in *; lia].
  f_equal. apply imap_ext. intros j x _. unfold compose. by rewrite Nat.add_succ_r.
Qed.

(** The bits that stay can be recovered. *)
Lemma drop_bits_inj x y i l k :
  drops_ok i 0 64 l -> drop_bits x i l = drop_bits y i l -> 0 <= k -> Z.of_nat i + k ∉ l -> Z.testbit x k = Z.testbit y k.
Proof.
  revert x y i k. induction l as [|b l IH]; intros x y i k Hl E Hk Hn; cbn [drop_bits] in E; [by rewrite E |].
  apply drops_ok_tail in Hl as (Hb & Hl & Hlt). apply not_elem_of_cons in Hn as [Hkb Hn]. rewrite Forall_forall in Hlt.
  set (p := b - Z.of_nat i) in *. set (j := if k <? p then k else k - 1).
  assert (0 <= j /\ (if j <? p then j else j + 1) = k) as [Hj Hjk].
  { unfold j. destruct (k <? p) eqn:E1; b2p; [rewrite (proj2 (Z.ltb_lt _ _)) by lia; lia |].
    rewrite (proj2 (Z.ltb_ge _ _)) by lia. lia. }
  assert (Z.of_nat (S i) + j ∉ l) as Hnj.
  { intros Hin. pose proof (Hlt _ Hin). unfold j in *. destruct (k <? p) eqn:E1; b2p; [lia |].
    apply Hn. by replace (Z.of_nat i + k) with (Z.of_nat (S i) + (k - 1)) by lia. }
  pose proof (IH _ _ _ j Hl E Hj Hnj) as Hbit. rewrite !drop_bit_testbit in Hbit by lia. by rewrite Hjk in Hbit.
Qed.

(** Above the dropped bits the address is only shifted. *)
Lemma drop_bit_high a p K : 0 <= p < K -> 0 <= a -> drop_bit a p / 2 ^ (K - 1) = a / 2 ^ K.
Proof.
  intros Hp Ha. apply Z.bits_inj'. intros n Hn. rewrite <- !Z.shiftr_div_pow2, !Z.shiftr_spec, drop_bit_testbit by lia.
  rewrite (proj2 (Z.ltb_ge _ _)) by lia. f_equal. lia.
Qed.

Lemma drop_bits_high a i l K :
  drops_ok i 0 K l -> 0 <= a -> drop_bits a i l / 2 ^ (K - Z.of_nat i - Z.of_nat (length l)) = a / 2 ^ (K - Z.of_nat i).
Proof.
  revert a i. induction l as [|b l IH]; intros a i Hl Ha; cbn [drop_bits length]; [do 2 f_equal; lia |].
  apply drops_ok_tail in Hl as (Hb & Hl & _). rewrite <- (drop_bit_high a (b - Z.of_nat i)) by lia.
  replace (K - Z.of_nat i - 1) with (K - Z.of_nat (S i)) by lia.
  rewrite <- IH; [do 2 f_equal; lia | done |]. apply drop_bit_range; lia.
Qed.

(** A multiple of a power above all dropped bits only loses factors. *)
Lemma drop_bit_whole x p K : 0 <= p < K -> drop_bit (x * 2 ^ K) p = x * 2 ^ (K - 1).
Proof.
  intros Hp. unfold drop_bit. assert (0 < 2 ^ p) by (apply Z.pow_pos_nonneg; lia).
  replace (2 ^ K) with (2 ^ (K - p - 1) * (2 * 2 ^ p))
    by (rewrite Z.mul_assoc, (Z.mul_comm _ 2), <- Z.pow_succ_r, <- Z.pow_add_r by lia; f_equal; lia).
  rewrite Z.pow_add_r by lia. change (2 ^ 1) with 2. rewrite (Z.mul_comm (2 ^ p) 2), Z.mul_assoc, Z.div_mul by lia.
  rewrite (Z.mul_assoc _ 2), Z.mod_mul, Z.add_0_r, <- Z.mul_assoc, <- Z.pow_add_r by lia. do 2 f_equal. lia.
Qed.

Lemma drop_bits_whole x i l K :
  drops_ok i 0 K l -> drop_bits (x * 2 ^ (K - Z.of_nat i)) i l = x * 2 ^ (K - Z.of_nat i - Z.of_nat (length l)).
Proof.
  revert i. induction l as [|c l IH]; intros i Hl; cbn [drop_bits length]; [do 2 f_equal; lia |].
  apply drops_ok_tail in Hl as (Hc & Hl & _). rewrite drop_bit_whole by lia.
  replace (K - Z.of_nat i - 1) with (K - Z.of_nat (S i)) by lia. rewrite IH by done. do 2 f_equal. lia.
Qed.

(** Below the dropped bits nothing changes. *)
Lemma drop_bit_low x y p b : 0 <= b <= p -> 0 <= y < 2 ^ b -> drop_bit (x * 2 ^ b + y) p = drop_bit (x * 2 ^ b) p + y.
Proof.
  intros Hb Hy. assert (0 < 2 ^ b) by (apply Z.pow_pos_nonneg; lia).
  assert (Hmod : forall q, b <= q -> (x * 2 ^ b + y) mod 2 ^ q = (x * 2 ^ b) mod 2 ^ q + y /\ (x * 2 ^ b + y) / 2 ^ q = (x * 2 ^ b) / 2 ^ q).
  { intros q Hq. replace q with (q - b + b) by lia. rewrite Z.pow_add_r by lia. assert (0 < 2 ^ (q - b)) by (apply Z.pow_pos_nonneg; lia).
    rewrite Z.mul_mod_distr_r by lia. rewrite (Z.mul_comm (2 ^ (q - b)) (2 ^ b)), <- !Z.div_div by lia.
    rewrite Z.div_add_l, (Z.div_small y), Z.div_mul, Z.add_0_r by lia. split; [| done].
    rewrite Z.rem_mul_r by lia. rewrite Z.div_add_l, (Z.div_small y), Z.add_0_r by lia.
    replace ((x * 2 ^ b + y) mod 2 ^ b) with y; [lia |]. rewrite Z.add_comm, Z.mod_add by lia. by rewrite Z.mod_small. }
  unfold drop_bit. destruct (Hmod p) as [-> _]; [lia |]. destruct (Hmod (p + 1)) as [_ ->]; lia.
Qed.

Lemma drop_bit_aligned x p b : 0 <= b <= p -> exists z, drop_bit (x * 2 ^ b) p = z * 2 ^ b.
Proof.
  intros Hb. assert (0 < 2 ^ b) by (apply Z.pow_pos_nonneg; lia). assert (0 < 2 ^ (p - b)) by (apply Z.pow_pos_nonneg; lia).
  unfold drop_bit. replace (2 ^ p) with (2 ^ (p - b) * 2 ^ b) by (rewrite <- Z.pow_add_r by lia; f_equal; lia).
  rewrite Z.mul_mod_distr_r by lia. eexists. rewrite Z.mul_assoc, <- Z.mul_add_distr_r. reflexivity.
Qed.

Lemma drop_bits_low b i l hi : 0 <= b -> drops_ok i b hi l -> forall x y, 0 <= y < 2 ^ b ->
  exists z, drop_bits (x * 2 ^ b) i l = z * 2 ^ b /\ drop_bits (x * 2 ^ b + y) i l = z * 2 ^ b + y.
Proof.
  intros Hb. revert i. induction l as [|c l IH]; intros i Hl x y Hy; cbn [drop_bits]; [by exists x |].
  apply drops_ok_tail in Hl as (Hc & Hl & _). rewrite drop_bit_low by lia. destruct (drop_bit_aligned x (c - Z.of_nat i) b) as [z Hz]; [lia |].
  rewrite Hz. by apply IH.
Qed.

(** ** Interleaved ranges *)

(** The parity of a word changes with one of its bits. *)
Lemma popCount_flip x y l :
  0 <= l < 64 -> Z.testbit x l <> Z.testbit y l -> (forall k, 0 <= k < 64 -> k <> l -> Z.testbit x k = Z.testbit y k) ->
  popCount x mod 2 <> popCount y mod 2.
Proof.
  intros Hl Hne Heq. unfold popCount.
  assert (upto 64 = seqZ 0 l ++ l :: seqZ (Z.succ l) (Z.pred (64 - l))) as ->.
  { unfold upto. rewrite <- seqZ_cons by lia. pose proof (seqZ_app 0 l (64 - l)) as Happ. rewrite Z.add_0_l in Happ.
    rewrite <- Happ by lia. f_equal. lia. }
  rewrite !filter_app, !length_app.
  assert (Hpart : forall s : list Z, (forall k, k ∈ s -> 0 <= k < 64 /\ k <> l) ->
    filter (fun i => Z.testbit x i = true) s = filter (fun i => Z.testbit y i = true) s).
  { intros s Hs. induction s as [|k s IH]; [done |]. rewrite !filter_cons, IH by (intros; apply Hs; by right).
    destruct (Hs k ltac:(by left)). by rewrite Heq. }
  rewrite !filter_cons.
  rewrite (Hpart (seqZ 0 l)) by (intros k Hk%elem_of_seqZ; lia).
  rewrite (Hpart (seqZ (Z.succ l) _)) by (intros k Hk%elem_of_seqZ; lia).
  generalize (length (filter (fun i => Z.testbit y i = true) (seqZ 0 l))). intros u.
  repeat case_decide; cbn [length]; [congruence | | | by destruct (Z.testbit x l), (Z.testbit y l)];
    Z.to_euclidean_division_equations; lia.
Qed.

Definition sel (r : AddrRange) (a : Z) (n : Z) : Z :=
  foldl (fun sel i =>
    let masked := Z.land a (default 0 (masks r !! Z.to_nat i)) in
    Z.lor sel (Z.shiftl (popCount masked mod 2) i)) 0 (upto n).

Lemma contains_sel r a :
  contains r a = true <-> _start r <= a < _end r /\ sel r a (Z.of_nat (length (masks r))) = intlvMatch r.
Proof.
  unfold contains, sel. destruct ((_start r <=? a) && (a <? _end r)) eqn:E.
  - rewrite Z.eqb_eq. b2p. naive_solver.
  - split; [done |]. intros [H _]. lia.
Qed.

Lemma sel_testbit r a n j :
  0 <= n -> 0 <= j ->
  Z.testbit (sel r a n) j = (j <? n) && (popCount (Z.land a (default 0 (masks r !! Z.to_nat j))) mod 2 =? 1).
Proof.
  intros Hn Hj. revert n Hn. apply (natlike_ind (fun n => Z.testbit (sel r a n) j = (j <? n) && _)).
  - unfold sel. cbn [upto seqZ foldl]. rewrite Z.bits_0. by rewrite (proj2 (Z.ltb_ge _ _)) by lia.
  - intros k Hk IH. unfold sel in *. change (Z.succ k) with (k + 1). rewrite upto_succ, foldl_app by done. cbn [foldl].
    rewrite Z.lor_spec, IH. set (w := popCount (Z.land a (default 0 (masks r !! Z.to_nat k)))).
    pose proof (Z.mod_pos_bound w 2) as Hw. destruct (decide (j < k)) as [Hjk|Hjk].
    + rewrite (Z.shiftl_spec_low _ _ j), orb_false_r by lia. f_equal. lia.
    + rewrite (proj2 (Z.ltb_ge j k)) by lia. cbn [andb orb]. rewrite Z.shiftl_spec by lia. destruct (decide (j = k)) as [->|].
      * rewrite Z.sub_diag, (proj2 (Z.ltb_lt _ _)) by lia. fold w. cbn [andb].
        assert (w mod 2 = 0 \/ w mod 2 = 1) as [->| ->] by lia; done.
      * rewrite (proj2 (Z.ltb_ge j (k + 1))) by lia. cbn [andb].
        assert (0 <= w mod 2 < 2 ^ 1) as Hw1 by lia. apply (proj1 (bits_bound 1 _ ltac:(lia)) Hw1). lia.
Qed.

(** Ranges whose interleaving bits lie between [b] and [K] and whose ends are
    multiples of [2 ^ K]; the lowest bits of the masks differ. *)
Record range_ok (b K : Z) (r : AddrRange) : Prop := {
  ro_bits : 0 <= b <= K /\ K < 64;
  ro_start : exists s, _start r = s * 2 ^ K;
  ro_end : exists e, _end r = e * 2 ^ K;
  ro_ends : 0 <= _start r <= _end r /\ _end r < 2 ^ 64;
  ro_lsbs : NoDup (ctz64 <$> masks r);
  ro_masks : Forall (fun m => b <= ctz64 m < K) (masks r)
}.

Lemma ctz64_spec m : ctz64 m < 64 -> 0 <= ctz64 m /\ Z.testbit m (ctz64 m) = true /\ forall k, 0 <= k < ctz64 m -> Z.testbit m k = false.
Proof.
  unfold ctz64. destruct (list_find _ (upto 64)) as [[n i]|] eqn:E; [| lia]. intros _.
  apply list_find_Some in E as (Hi & Ht & Hbelow). assert (i = Z.of_nat n /\ (n < 64)%nat) as [-> Hn].
  { unfold upto in Hi. apply lookup_seqZ in Hi as [-> Hn]. lia. }
  split_and!; [lia | done |]. intros k Hk. apply not_true_is_false. apply (Hbelow (Z.to_nat k)); [| lia].
  unfold upto. apply lookup_seqZ. lia.
Qed.

Lemma masks_lsb_ok b K r : range_ok b K r -> drops_ok 0 b K (masks_lsb r).
Proof.
  intros [_ _ _ _ Hnd Hm]. unfold masks_lsb. split.
  - assert (NoDup (merge_sort Z.le (ctz64 <$> masks r))) as Hnd' by (by rewrite merge_sort_Permutation).
    pose proof (StronglySorted_merge_sort Z.le (ctz64 <$> masks r)) as Hs. revert Hs Hnd'.
    induction 1 as [|x l Hs IH Hx]; intros Hnd'; [constructor |]. apply NoDup_cons in Hnd' as [Hxl Hnd']. constructor; [by apply IH |].
    rewrite Forall_forall in *. intros y Hy. specialize (Hx y Hy). assert (x <> y) by (by intros ->). lia.
  - rewrite merge_sort_Permutation, Forall_fmap. eapply Forall_impl; [done |]. intros m. cbn. lia.
Qed.

Lemma drops_ok_weaken i lo hi lo' hi' l : drops_ok i lo hi l -> lo' <= lo -> hi <= hi' -> drops_ok i lo' hi' l.
Proof. intros [Hs Hf] Hlo Hhi. split; [done |]. eapply Forall_impl; [done |]. cbn. lia. Qed.

Lemma remove_eq b K r a : range_ok b K r -> in_u64 a -> removeIntlvBits r a = drop_bits a 0 (masks_lsb r).
Proof.
  intros Hr Ha. pose proof (masks_lsb_ok b K r Hr) as Hd. pose proof (ro_bits _ _ _ Hr).
  assert (drops_ok 0 0 64 (masks_lsb r)) as Hd' by (eapply drops_ok_weaken; [done | lia | lia]).
  by rewrite <- (removeIntlv_drop_bits a 0 (masks_lsb r) Hd' Ha).
Qed.

Section Ranges.
Context (b K : Z) (r : AddrRange) (Hr : range_ok b K r).

Definition flat (a : Z) : Z := drop_bits a 0 (masks_lsb r).

Lemma masks_lsb_length : length (masks_lsb r) = length (masks r).
Proof. unfold masks_lsb. by rewrite merge_sort_Permutation, length_fmap. Qed.

(** There are at most [K - b] interleaving bits. *)
Lemma drops_ok_length i lo hi l : lo + Z.of_nat i <= hi -> drops_ok i lo hi l -> Z.of_nat (length l) <= hi - lo - Z.of_nat i.
Proof.
  revert i. induction l as [|c l IH]; intros i Hi Hl; cbn [length]; [lia |]. apply drops_ok_tail in Hl as (Hc & Hl & _).
  specialize (IH (S i) ltac:(lia) Hl). lia.
Qed.

Lemma masks_le : Z.of_nat (length (masks r)) <= K - b.
Proof.
  rewrite <- masks_lsb_length. pose proof (masks_lsb_ok b K r Hr) as Hd. pose proof (ro_bits _ _ _ Hr).
  pose proof (drops_ok_length 0 b K _ ltac:(lia) Hd). lia.
Qed.

Lemma range_addr a : _start r <= a < _end r -> in_u64 a.
Proof. intros Ha. pose proof (ro_ends _ _ _ Hr). unfold in_u64. lia. Qed.

(** Below the start of the range, the interleaving bits take one bit each. *)
Lemma flat_high a : 0 <= a -> flat a / 2 ^ (K - Z.of_nat (length (masks r))) = a / 2 ^ K.
Proof.
  intros Ha. pose proof (masks_lsb_ok b K r Hr) as Hd. pose proof (ro_bits _ _ _ Hr).
  pose proof (drop_bits_high a 0 (masks_lsb r) K) as H1. rewrite masks_lsb_length in H1. cbn [Z.of_nat] in H1.
  rewrite Z.sub_0_r in H1. apply H1; [eapply drops_ok_weaken; [done | lia | lia] | done].
Qed.

Lemma range_size_eq : exists s e, _start r = s * 2 ^ K /\ _end r = e * 2 ^ K /\
  range_size r = (e - s) * 2 ^ (K - Z.of_nat (length (masks r))) /\ flat (_start r) = s * 2 ^ (K - Z.of_nat (length (masks r))).
Proof.
  pose proof (ro_bits _ _ _ Hr) as Hb. pose proof masks_le as Hn. destruct (ro_start _ _ _ Hr) as [s Hs], (ro_end _ _ _ Hr) as [e He].
  pose proof (ro_ends _ _ _ Hr) as Hse. set (n := Z.of_nat (length (masks r))) in *. exists s, e. split; [done |]. split; [done |].
  assert (0 < 2 ^ K) by (apply Z.pow_pos_nonneg; lia). assert (0 < 2 ^ n) by (apply Z.pow_pos_nonneg; lia).
  assert (2 ^ K = 2 ^ (K - n) * 2 ^ n) as HK by (rewrite <- Z.pow_add_r by lia; f_equal; lia).
  split.
  - unfold range_size. rewrite u64_id by (unfold in_u64; lia). fold n. rewrite Z.shiftr_div_pow2 by lia. rewrite Hs, He, <- Z.mul_sub_distr_r, HK.
    by rewrite Z.mul_assoc, Z.div_mul by lia.
  - pose proof (flat_high (_start r) ltac:(lia)) as Hh. fold n in Hh. rewrite Hs, Z.div_mul in Hh by lia. rewrite <- Hs in Hh.
    assert (0 < 2 ^ (K - n)) by (apply Z.pow_pos_nonneg; lia). pose proof (Z.div_mod (flat (_start r)) (2 ^ (K - n)) ltac:(lia)) as Hdm.
    enough (flat (_start r) mod 2 ^ (K - n) = 0) by lia. clear Hdm.
    pose proof (masks_lsb_ok b K r Hr) as Hd. unfold flat.
    pose proof (drop_bits_whole s 0 (masks_lsb r) K) as Hz. cbn [Z.of_nat] in Hz. rewrite Z.sub_0_r, masks_lsb_length, <- Hs in Hz.
    fold n in Hz. rewrite Hz by (eapply drops_ok_weaken; [exact Hd | lia | lia]). apply Z.mod_mul. lia.
Qed.

Lemma range_getOffset_flat a : _start r <= a < _end r -> range_getOffset r a = u64 (flat a - flat (_start r)).
Proof.
  intros Ha. unfold range_getOffset, flat. replace ((_start r <=? a) && (a <? _end r)) with true by lia. cbn [negb].
  destruct (interleaved r) eqn:E.
  - pose proof (range_addr a Ha). pose proof (range_addr (_start r) ltac:(lia)). by rewrite !(remove_eq b K) by done.
  - assert (masks_lsb r = []) as ->; [| done]. unfold interleaved in E. unfold masks_lsb. destruct (masks r); [done |]. cbn [length] in E. apply Z.ltb_ge in E. lia.
Qed.

(** The offset stays below the size of the range. *)
Lemma range_offset a :
  _start r <= a < _end r ->
  range_getOffset r a = flat a - flat (_start r) /\ 0 <= range_getOffset r a < range_size r.
Proof.
  intros Ha. rewrite range_getOffset_flat by done. destruct range_size_eq as (s & e & Hs & He & Hsz & Hfs).
  pose proof (ro_bits _ _ _ Hr). pose proof masks_le. pose proof (ro_ends _ _ _ Hr).
  pose proof (flat_high a ltac:(lia)) as Hh. set (n := Z.of_nat (length (masks r))) in *.
  assert (0 < 2 ^ (K - n)) by (apply Z.pow_pos_nonneg; lia). assert (0 < 2 ^ K) by (apply Z.pow_pos_nonneg; lia).
  assert (s <= a / 2 ^ K < e) as Hq by (split; [apply Z.div_le_lower_bound; lia | apply Z.div_lt_upper_bound; lia]).
  pose proof (Z.div_mod (flat a) (2 ^ (K - n)) ltac:(lia)). pose proof (Z.mod_pos_bound (flat a) (2 ^ (K - n)) ltac:(lia)).
  assert (0 <= flat a - flat (_start r) < range_size r) as Hoff by (rewrite Hsz, Hfs; nia).
  rewrite u64_id; [done |]. unfold in_u64. split; [lia |]. pose proof (drop_bits_range a 0 (masks_lsb r) K) as Hle.
  pose proof (masks_lsb_ok b K r Hr) as Hd. fold (flat a) in Hle.
  specialize (Hle ltac:(eapply drops_ok_weaken; [exact Hd | lia | lia]) ltac:(lia)).
  pose proof (drop_bits_range (_start r) 0 (masks_lsb r) K ltac:(eapply drops_ok_weaken; [exact Hd | lia | lia]) ltac:(lia)) as Hle2.
  fold (flat (_start r)) in Hle2. lia.
Qed.

Lemma elem_of_masks_lsb l : l ∈ masks_lsb r <-> exists m, m ∈ masks r /\ l = ctz64 m.
Proof. unfold masks_lsb. rewrite merge_sort_Permutation, list_elem_of_fmap. naive_solver. Qed.

(** The parity of every mask is the same for all addresses of the range. *)
Lemma contains_parity a a' m :
  contains r a = true -> contains r a' = true -> m ∈ masks r -> popCount (Z.land a m) mod 2 = popCount (Z.land a' m) mod 2.
Proof.
  intros [_ Ha]%contains_sel [_ Ha']%contains_sel [i Hi]%list_elem_of_lookup.
  pose proof (lookup_lt_Some _ _ _ Hi) as Hlt. assert (Hbit := f_equal (fun z => Z.testbit z (Z.of_nat i)) (eq_trans Ha (eq_sym Ha'))).
  cbv beta in Hbit. rewrite !sel_testbit in Hbit by lia. rewrite (proj2 (Z.ltb_lt _ _)) in Hbit by lia. cbn [andb] in Hbit.
  rewrite Nat2Z.id, Hi in Hbit. cbn [default id] in Hbit. unfold id in Hbit.
  pose proof (Z.mod_pos_bound (popCount (Z.land a m)) 2). pose proof (Z.mod_pos_bound (popCount (Z.land a' m)) 2).
  apply Bool.eq_iff_eq_true in Hbit. rewrite !Z.eqb_eq in Hbit. lia.
Qed.

(** Different addresses of the range have different offsets: the highest bit
    they differ in would be the lowest of some mask, whose parity it changes. *)
Lemma range_offset_inj a a' :
  contains r a = true -> contains r a' = true -> range_getOffset r a = range_getOffset r a' -> a = a'.
Proof.
  intros Ha Ha' E. pose proof (proj1 (contains_sel r a) Ha) as [Hra _]. pose proof (proj1 (contains_sel r a') Ha') as [Hra' _].
  destruct (range_offset a Hra) as [E1 _], (range_offset a' Hra') as [E2 _].
  assert (drop_bits a 0 (masks_lsb r) = drop_bits a' 0 (masks_lsb r)) as Hd by (unfold flat in *; lia). clear E E1 E2.
  pose proof (masks_lsb_ok b K r Hr) as Hl. pose proof (ro_bits _ _ _ Hr). pose proof (range_addr a Hra) as Hua. pose proof (range_addr a' Hra') as Hua'.
  assert (Hsame : forall k, 0 <= k -> k ∉ masks_lsb r -> Z.testbit a k = Z.testbit a' k).
  { intros k Hk Hn. apply (drop_bits_inj _ _ 0 (masks_lsb r)); [eapply drops_ok_weaken; [exact Hl | lia | lia] | done | done | done]. }
  destruct (decide (Z.lxor a a' = 0)) as [Hx|Hx]; [by apply Z.lxor_eq |]. exfalso.
  assert (0 <= Z.lxor a a') by (apply Z.lxor_nonneg; unfold in_u64 in *; lia). assert (0 < Z.lxor a a') as Hpos by lia.
  set (l := Z.log2 (Z.lxor a a')). pose proof (Z.bit_log2 _ Hpos) as Hbl. fold l in Hbl. rewrite Z.lxor_spec in Hbl.
  assert (0 <= l) as Hl0 by apply Z.log2_nonneg.
  assert (Hdiff : Z.testbit a l <> Z.testbit a' l) by (by destruct (Z.testbit a l), (Z.testbit a' l)).
  assert (l ∈ masks_lsb r) as Hin by (destruct (decide (l ∈ masks_lsb r)); [done |]; by rewrite Hsame in Hdiff).
  apply elem_of_masks_lsb in Hin as (m & Hm & Hlm). pose proof (ro_masks _ _ _ Hr) as Hms. rewrite Forall_forall in Hms.
  specialize (Hms m Hm). destruct (ctz64_spec m ltac:(lia)) as (_ & Hmbit & Hmlow). rewrite <- Hlm in *.
  apply (popCount_flip (Z.land a m) (Z.land a' m) l); [lia | | | by apply contains_parity].
  - rewrite !Z.land_spec, Hmbit, !andb_true_r. done.
  - intros k Hk Hne. rewrite !Z.land_spec. destruct (decide (k < l)); [by rewrite Hmlow, !andb_false_r by lia |]. f_equal.
    pose proof (Z.bits_above_log2 (Z.lxor a a') k ltac:(lia) ltac:(lia)) as Hhi. rewrite Z.lxor_spec in Hhi.
    by destruct (Z.testbit a k), (Z.testbit a' k).
Qed.

(** The bits of a line offset are not interleaving bits: all addresses of a
    line are in the range together, at consecutive offsets. *)
Lemma land_line a m : 0 <= a -> m ∈ masks r -> Z.land (a - a mod 2 ^ b) m = Z.land a m.
Proof.
  intros Ha Hm. pose proof (ro_masks _ _ _ Hr) as Hms. rewrite Forall_forall in Hms. specialize (Hms m Hm). pose proof (ro_bits _ _ _ Hr).
  destruct (ctz64_spec m ltac:(lia)) as (_ & _ & Hlow). apply Z.bits_inj'. intros k Hk. rewrite !Z.land_spec.
  destruct (decide (k < b)); [by rewrite Hlow, !andb_false_r by lia |]. f_equal.
  replace (a - a mod 2 ^ b) with (Z.shiftl (Z.shiftr a b) b).
  - rewrite Z.shiftl_spec, Z.shiftr_spec by lia. f_equal. lia.
  - rewrite Z.shiftl_mul_pow2, Z.shiftr_div_pow2 by lia. assert (0 < 2 ^ b) by (apply Z.pow_pos_nonneg; lia).
    pose proof (Z.div_mod a (2 ^ b)). lia.
Qed.

Lemma range_line a :
  0 <= a -> contains r (a - a mod 2 ^ b) = contains r a /\
  (contains r a = true -> exists z, range_getOffset r (a - a mod 2 ^ b) = z * 2 ^ b /\ range_getOffset r a = z * 2 ^ b + a mod 2 ^ b).
Proof.
  intros Ha. pose proof (ro_bits _ _ _ Hr). assert (0 < 2 ^ b) as Hpb by (apply Z.pow_pos_nonneg; lia).
  pose proof (Z.mod_pos_bound a (2 ^ b) Hpb) as Hy. pose proof (Z.div_mod a (2 ^ b) ltac:(lia)) as Hdm.
  set (y := a mod 2 ^ b) in *. assert (a - y = a / 2 ^ b * 2 ^ b) as Hline by lia.
  assert (_start r <= a - y < _end r <-> _start r <= a < _end r) as Hin.
  { destruct (ro_start _ _ _ Hr) as [s Hs], (ro_end _ _ _ Hr) as [e He]. rewrite Hs, He, Hline.
    replace (2 ^ K) with (2 ^ (K - b) * 2 ^ b) by (rewrite <- Z.pow_add_r by lia; f_equal; lia).
    rewrite !Z.mul_assoc. set (q := a / 2 ^ b) in *. set (B := 2 ^ b) in *. clearbody q B y.
    generalize (s * 2 ^ (K - b)), (e * 2 ^ (K - b)). intros u v.
    assert (u * B <= q * B <-> u <= q) by nia. assert (u * B <= a <-> u <= q) by nia.
    assert (q * B < v * B <-> q < v) by nia. assert (a < v * B <-> q < v) by nia. tauto. }
  assert (contains r (a - y) = contains r a) as Hc.
  { apply Bool.eq_iff_eq_true. rewrite !contains_sel, Hin.
    enough (sel r (a - y) (Z.of_nat (length (masks r))) = sel r a (Z.of_nat (length (masks r)))) as -> by done.
    apply Z.bits_inj'. intros k Hk. rewrite !sel_testbit by lia. destruct (masks r !! Z.to_nat k) as [m|] eqn:Em; cbn [default].
    - unfold y. by rewrite land_line by (done || by eapply list_elem_of_lookup_2).
    - by rewrite !Z.land_0_r. }
  split; [done |]. intros Hca. pose proof (proj1 (contains_sel r a) Hca) as [Hra _].
  destruct (range_offset a Hra) as [-> _]. destruct (range_offset (a - y)) as [-> _]; [by apply Hin |].
  pose proof (masks_lsb_ok b K r Hr) as Hl. destruct (ro_start _ _ _ Hr) as [s Hs].
  destruct (drop_bits_low b 0 (masks_lsb r) K ltac:(lia) Hl (a / 2 ^ b) y Hy) as (z & Hz & Hzy).
  destruct (drop_bits_low b 0 (masks_lsb r) K ltac:(lia) Hl (s * 2 ^ (K - b)) 0 ltac:(lia)) as (z0 & Hz0 & _).
  replace (s * 2 ^ (K - b) * 2 ^ b) with (_start r) in Hz0
    by (rewrite Hs, <- Z.mul_assoc, <- Z.pow_add_r by lia; do 2 f_equal; lia).
  exists (z - z0). unfold flat. rewrite Hline, Hz, Hz0. replace (a / 2 ^ b * 2 ^ b + y) with a in Hzy by lia. rewrite Hzy. lia.
Qed.
End Ranges.
