(* ===== verification/DirectoryMemory.v ===== *)
(** * The directory of a memory controller

    Models [mem/ruby/structures/DirectoryMemory.{hh,cc}]: a flat array with one
    entry per line of the address ranges a directory is responsible for.  The
    entry of an address is found by laying the ranges one after the other
    and numbering the addresses of each ([getOffset], AddrRange.v).

    The theorem shows that the array behaves as a map from lines to entries:
    two addresses share an element exactly when they are of one line, and
    no index is out of range. *)
From S2P Require Import Prelude Common NetDest MessageBuffer Flit Network IntMath AddrRange Replacement CacheMemory.

(** An array element is a pointer to an entry, [None] for [NULL]; the entries
    themselves are in a heap, as in CacheMemory.v.  The array is indeterminate
    until [init]. *)
Record DirectoryMemory := {
  dm_entries : option (list (option Z));
  m_size_bytes : Z;
  m_size_bits : Z;
  m_num_entries : Z;
  addrRanges : list AddrRange;
  dm_heap : gmap Z AbstractCacheEntry
}.

#[export] Instance DirectoryMemory_eta : Eta DirectoryMemory := {| eta := fun d =>
  {| dm_entries := dm_entries d; m_size_bytes := m_size_bytes d; m_size_bits := m_size_bits d; m_num_entries := m_num_entries d;
     addrRanges := addrRanges d; dm_heap := dm_heap d |} |}.

Section Directory.
(** [RubySystem::getBlockSizeBits()] and [getBlockSizeBytes()]. *)
Context (block_size_bits block_size_bytes : Z).

Definition DirectoryMemory_ctor (addr_ranges : list AddrRange) (heap : gmap Z AbstractCacheEntry) : res DirectoryMemory :=
  let size_bytes := foldl (fun s r => u64 (s + range_size r)) 0 addr_ranges in
  size_bits ← floorLog2 8 size_bytes;
  Ok {| dm_entries := None; m_size_bytes := size_bytes; m_size_bits := size_bits; m_num_entries := 0;
        addrRanges := addr_ranges; dm_heap := heap |}.

(** The index of the loop that clears the array is an [int]. *)
Definition dm_init (d : DirectoryMemory) : res DirectoryMemory :=
  num_entries ← int_div (m_size_bytes d) block_size_bytes;
  if num_entries <? 2 ^ 31 then
    Ok (d ⟨ m_num_entries := num_entries ⟩ ⟨ dm_entries := Some (replicate (Z.to_nat num_entries) None) ⟩)
  else Err EUninit.

Definition dm_getSize (d : DirectoryMemory) : Z := m_size_bytes d.

Definition dm_isPresent (d : DirectoryMemory) (address : Z) : bool := existsb (fun r => contains r address) (addrRanges d).

Fixpoint local_offset (ranges : list AddrRange) (address ret : Z) : Z :=
  match ranges with
  | [] => ret
  | r :: ranges =>
      if contains r address then u64 (ret + range_getOffset r address)
      else local_offset ranges address (u64 (ret + range_size r))
  end.

Definition mapAddressToLocalIdx (d : DirectoryMemory) (address : Z) : Z :=
  Z.shiftr (local_offset (addrRanges d) address 0) block_size_bits.

(** [m_entries[idx]]. *)
Definition dm_slot (d : DirectoryMemory) : res (list (option Z)) :=
  match dm_entries d with Some l => Ok l | None => Err EUninit end.

Definition dm_lookup (d : DirectoryMemory) (address : Z) : res (option Z) :=
  _ ← cassert (dm_isPresent d address);
  let idx := mapAddressToLocalIdx d address in
  _ ← cassert (idx <? m_num_entries d);
  l ← dm_slot d; vget l idx.

Definition dm_allocate (d : DirectoryMemory) (address : Z) (entry : Z) : res DirectoryMemory :=
  _ ← cassert (dm_isPresent d address);
  let idx := mapAddressToLocalIdx d address in
  _ ← cassert (idx <? m_num_entries d);
  e ← deref_entry (dm_heap d) (Some entry);
  let d := d ⟨ dm_heap := <[entry := changePermission e AccessPermission_Read_Only]> (dm_heap d) ⟩ in
  l ← dm_slot d;
  l ← vset l idx (Some entry);
  Ok (d ⟨ dm_entries := Some l ⟩).
End Directory.

(** ** The index of an address *)
Section Index.
Context (b : Z).

(** The ranges of a directory: each aligned, no two with a common address. *)
Record ranges_ok (rs : list AddrRange) : Prop := {
  rs_ok : Forall (fun r => exists K, range_ok b K r) rs;
  rs_disjoint : forall i j r r' a, rs !! i = Some r -> rs !! j = Some r' -> contains r a = true -> contains r' a = true -> i = j
}.

Definition total_size (rs : list AddrRange) : Z := foldr (fun r s => range_size r + s) 0 rs.

Lemma ranges_ok_cons r rs : ranges_ok (r :: rs) ->
  (exists K, range_ok b K r) /\ ranges_ok rs /\ forall a r', contains r a = true -> r' ∈ rs -> contains r' a = false.
Proof.
  intros [Hf Hd]. apply Forall_cons in Hf as [Hr Hf]. split; [done |]. split.
  - split; [done |]. intros i j r1 r2 a Hi Hj H1 H2. specialize (Hd (S i) (S j) r1 r2 a Hi Hj H1 H2). lia.
  - intros a r' Ha [i Hi]%list_elem_of_lookup. apply not_true_is_false. intros Ha'.
    specialize (Hd 0%nat (S i) r r' a eq_refl Hi Ha Ha'). lia.
Qed.

Lemma range_size_line K r : range_ok b K r -> exists z, range_size r = z * 2 ^ b /\ 0 <= z.
Proof.
  intros Hr. destruct (range_size_eq b K r Hr) as (s & e & Hs & He & -> & _). pose proof (masks_le b K r Hr). pose proof (ro_bits _ _ _ Hr).
  set (n := Z.of_nat (length (masks r))) in *. exists ((e - s) * 2 ^ (K - n - b)). split.
  - rewrite <- Z.mul_assoc, <- Z.pow_add_r by lia. do 2 f_equal. lia.
  - pose proof (ro_ends _ _ _ Hr). assert (0 < 2 ^ K) by (apply Z.pow_pos_nonneg; lia). apply Z.mul_nonneg_nonneg; [nia | apply Z.pow_nonneg; lia].
Qed.

Lemma total_size_nonneg rs : ranges_ok rs -> 0 <= total_size rs.
Proof.
  induction rs as [|r rs IH]; [done |]. intros ([K Hr] & Hrs & _)%ranges_ok_cons. cbn [total_size foldr].
  destruct (range_size_line K r Hr) as (z & Hz & Hz0). destruct (ro_bits _ _ _ Hr). pose proof (Z.pow_nonneg 2 b).
  specialize (IH Hrs). unfold total_size in IH. nia.
Qed.

Lemma existsb_contains rs a : existsb (fun r => contains r a) rs = true <-> exists r, r ∈ rs /\ contains r a = true.
Proof. rewrite existsb_exists. setoid_rewrite list_elem_of_In. naive_solver. Qed.

(** A present address has an offset between those of its range. *)
Lemma local_offset_bounds rs a ret :
  ranges_ok rs -> 0 <= ret -> ret + total_size rs < 2 ^ 64 -> existsb (fun r => contains r a) rs = true ->
  ret <= local_offset rs a ret < ret + total_size rs.
Proof.
  revert ret. induction rs as [|r rs IH]; intros ret Hok Hret Htot Hp; [done |].
  apply ranges_ok_cons in Hok as ([K Hr] & Hrs & _). cbn [local_offset total_size foldr existsb] in *.
  pose proof (total_size_nonneg rs Hrs) as Hn. unfold total_size in *. destruct (range_size_line K r Hr) as (z & Hz & Hz0).
  destruct (ro_bits _ _ _ Hr). pose proof (Z.pow_nonneg 2 b). assert (0 <= range_size r) by nia.
  destruct (contains r a) eqn:E.
  - apply contains_sel in E as [E _]. destruct (range_offset b K r Hr a E) as [_ Hoff]. rewrite u64_id by (unfold in_u64; lia). lia.
  - rewrite u64_id by (unfold in_u64; lia). specialize (IH (ret + range_size r) Hrs ltac:(lia) ltac:(lia) Hp). lia.
Qed.

Lemma local_offset_inj rs a a' ret :
  ranges_ok rs -> 0 <= ret -> ret + total_size rs < 2 ^ 64 ->
  existsb (fun r => contains r a) rs = true -> existsb (fun r => contains r a') rs = true ->
  local_offset rs a ret = local_offset rs a' ret -> a = a'.
Proof.
  revert ret. induction rs as [|r rs IH]; intros ret Hok Hret Htot Hp Hp' E; [done |].
  pose proof Hok as ([K Hr] & Hrs & _)%ranges_ok_cons. cbn [local_offset total_size foldr existsb] in *.
  pose proof (total_size_nonneg rs Hrs) as Hn. unfold total_size in *. destruct (range_size_line K r Hr) as (z & Hz & Hz0).
  destruct (ro_bits _ _ _ Hr). pose proof (Z.pow_nonneg 2 b). assert (0 <= range_size r) by nia.
  assert (Hin : forall x, contains r x = true -> range_getOffset r x < range_size r /\ 0 <= range_getOffset r x).
  { intros x [Hx _]%contains_sel. destruct (range_offset b K r Hr x Hx). lia. }
  assert (Hout : forall x, existsb (fun r => contains r x) rs = true -> ret + range_size r <= local_offset rs x (u64 (ret + range_size r))).
  { intros x Hx. rewrite u64_id by (unfold in_u64; lia).
    pose proof (local_offset_bounds rs x (ret + range_size r) Hrs ltac:(lia) ltac:(unfold total_size; lia) Hx). lia. }
  destruct (contains r a) eqn:Ea, (contains r a') eqn:Ea'; cbn [orb] in *.
  - pose proof (Hin a Ea). pose proof (Hin a' Ea'). rewrite !u64_id in E by (unfold in_u64; lia).
    apply (range_offset_inj b K r Hr); [done | done | lia].
  - pose proof (Hin a Ea). pose proof (Hout a' Hp'). rewrite (u64_id (ret + range_getOffset r a)) in E by (unfold in_u64; lia). lia.
  - pose proof (Hin a' Ea'). pose proof (Hout a Hp). rewrite (u64_id (ret + range_getOffset r a')) in E by (unfold in_u64; lia). lia.
  - rewrite u64_id in E by (unfold in_u64; lia). eapply (IH (ret + range_size r)); [done | lia | lia | done | done | done].
Qed.

(** The addresses of a line are present together, at consecutive offsets. *)
Lemma local_offset_line rs a ret :
  ranges_ok rs -> 0 <= a -> 0 <= ret * 2 ^ b -> ret * 2 ^ b + total_size rs < 2 ^ 64 ->
  existsb (fun r => contains r (a - a mod 2 ^ b)) rs = existsb (fun r => contains r a) rs /\
  (existsb (fun r => contains r a) rs = true ->
   exists z, local_offset rs (a - a mod 2 ^ b) (ret * 2 ^ b) = z * 2 ^ b /\ local_offset rs a (ret * 2 ^ b) = z * 2 ^ b + a mod 2 ^ b).
Proof.
  revert ret. induction rs as [|r rs IH]; intros ret Hok Ha Hret Htot; [done |].
  apply ranges_ok_cons in Hok as ([K Hr] & Hrs & _). cbn [local_offset total_size foldr existsb] in *.
  pose proof (total_size_nonneg rs Hrs) as Hn. unfold total_size in *. destruct (range_size_line K r Hr) as (s & Hs & Hs0).
  destruct (ro_bits _ _ _ Hr). pose proof (Z.pow_nonneg 2 b). assert (0 <= range_size r) by nia.
  destruct (range_line b K r Hr a Ha) as [Hc Hoff]. rewrite Hc. destruct (contains r a) eqn:E; cbn [orb].
  - split; [done |]. intros _. destruct (Hoff eq_refl) as (z & Hz1 & Hz2). rewrite Hz1, Hz2.
    pose proof (proj1 (contains_sel r a) E) as [E1 _]. pose proof (proj1 (contains_sel r (a - a mod 2 ^ b))) as E2. rewrite Hc in E2.
    destruct (E2 eq_refl) as [E2' _]. destruct (range_offset b K r Hr a E1) as [_ B1]. destruct (range_offset b K r Hr _ E2') as [_ B2].
    rewrite Hz2 in B1. rewrite Hz1 in B2. exists (ret + z). rewrite !u64_id by (unfold in_u64; lia). lia.
  - rewrite u64_id by (unfold in_u64; lia). rewrite Hs, <- Z.mul_add_distr_r. apply IH; [done | done | lia | lia].
Qed.
End Index.

(** ** The directory as a map from lines *)
Section Map.
Context (b : Z) (rs : list AddrRange) (heap : gmap Z AbstractCacheEntry).
Context (Hb : 0 <= b < 64) (Hrs : ranges_ok b rs) (Htotal : total_size rs < 2 ^ 64).

(** The directories that arise from a new one by allocations. *)
Inductive dm_reach : DirectoryMemory -> Prop :=
  | dm_new d d' : DirectoryMemory_ctor rs heap = Ok d -> dm_init (2 ^ b) d = Ok d' -> dm_reach d'
  | dm_alloc d a e d' : dm_reach d -> dm_allocate b d a e = Ok d' -> dm_reach d'.

Definition dm_inv (d : DirectoryMemory) : Prop :=
  addrRanges d = rs /\ m_num_entries d = total_size rs / 2 ^ b /\
  exists l, dm_entries d = Some l /\ Z.of_nat (length l) = m_num_entries d.

Lemma size_bytes_total : foldl (fun s r => u64 (s + range_size r)) 0 rs = total_size rs.
Proof.
  enough (forall l s, ranges_ok b l -> 0 <= s -> s + total_size l < 2 ^ 64 ->
    foldl (fun s r => u64 (s + range_size r)) s l = s + total_size l) as H by (rewrite H; [lia | done | lia | lia]).
  clear Hrs Htotal. induction l as [|r l IH]; intros s Hok Hs Ht; cbn [foldl total_size foldr] in *; [lia |].
  apply ranges_ok_cons in Hok as ([K Hr] & Hl & _). destruct (range_size_line b K r Hr) as (z & Hz & Hz0).
  pose proof (total_size_nonneg b l Hl) as Hn. unfold total_size in *. pose proof (Z.pow_nonneg 2 b). assert (0 <= range_size r) by nia.
  rewrite u64_id by (unfold in_u64; lia). rewrite IH; [lia | done | lia | lia].
Qed.

Lemma dm_new_inv d d' : DirectoryMemory_ctor rs heap = Ok d -> dm_init (2 ^ b) d = Ok d' -> dm_inv d'.
Proof.
  intros H1 H2. unfold DirectoryMemory_ctor in H1. apply res_bind_Ok_inv in H1 as (sb & _ & H1). injection H1 as <-.
  unfold dm_init in H2. cbn [m_size_bytes] in H2. rewrite size_bytes_total in H2. apply res_bind_Ok_inv in H2 as (n & Hn & H2).
  pose proof (total_size_nonneg b rs Hrs). assert (0 < 2 ^ b) by (apply Z.pow_pos_nonneg; lia). assert (n = total_size rs / 2 ^ b) as ->.
  { unfold int_div in Hn. destruct (2 ^ b =? 0) eqn:E; [done |]. injection Hn as <-. apply Z.quot_div_nonneg; lia. }
  destruct (_ <? 2 ^ 31); [| done]. injection H2 as <-. cbn [setf m_num_entries dm_entries addrRanges]. split; [done |]. split; [done |].
  eexists. split; [done |]. rewrite length_replicate, Z2Nat.id; [done | apply Z.div_pos; lia].
Qed.

(** The index of a present address is within the array. *)
Lemma index_bound d a :
  dm_inv d -> dm_isPresent d a = true -> 0 <= mapAddressToLocalIdx b d a < m_num_entries d.
Proof.
  intros (Hr & Hn & _) Hp. unfold mapAddressToLocalIdx, dm_isPresent in *. rewrite Hr in *. rewrite Hn.
  pose proof (local_offset_bounds b rs a 0 Hrs ltac:(lia) ltac:(lia) Hp) as Ho. rewrite Z.shiftr_div_pow2 by lia.
  assert (0 < 2 ^ b) by (apply Z.pow_pos_nonneg; lia). split; [apply Z.div_pos; lia |].
  assert (exists z, total_size rs = z * 2 ^ b) as [z Hz].
  { clear - Hrs Hb. induction rs as [|r l IH]; [by exists 0 |]. apply ranges_ok_cons in Hrs as ([K Hr] & Hl & _). cbn [total_size foldr].
    destruct (range_size_line b K r Hr) as (z & -> & _), (IH Hl) as [z' Hz']. unfold total_size in Hz'. rewrite Hz'. exists (z + z'). lia. }
  rewrite Hz, Z.div_mul by lia. apply Z.div_lt_upper_bound; [done |]. lia.
Qed.

Lemma index_line d a a' :
  dm_inv d -> in_u64 a -> in_u64 a' -> dm_isPresent d a = true -> dm_isPresent d a' = true ->
  mapAddressToLocalIdx b d a = mapAddressToLocalIdx b d a' <-> makeLineAddress b a = makeLineAddress b a'.
Proof.
  intros (Hr & _) Ha Ha' Hp Hp'. unfold mapAddressToLocalIdx, dm_isPresent in *. rewrite Hr in *.
  unfold makeLineAddress. rewrite !mbits_high by (done || lia). assert (0 < 2 ^ b) by (apply Z.pow_pos_nonneg; lia).
  destruct (local_offset_line b rs a 0 Hrs) as [Hc Hl]; [unfold in_u64 in *; lia | lia | lia |].
  destruct (local_offset_line b rs a' 0 Hrs) as [Hc' Hl']; [unfold in_u64 in *; lia | lia | lia |]. rewrite Hp in *. rewrite Hp' in *.
  destruct (Hl eq_refl) as (z & Hz1 & Hz2), (Hl' eq_refl) as (z' & Hz1' & Hz2'). rewrite Z.mul_0_l in *.
  rewrite Hz2, Hz2', !Z.shiftr_div_pow2, !Z.div_add_l, !(Z.div_small (_ mod _)), !Z.add_0_r by (lia || apply Z.mod_pos_bound; lia).
  split.
  - intros <-. apply (local_offset_inj b rs _ _ 0); [done | lia | lia | done | done | congruence].
  - intros E. rewrite E, Hz1' in Hz1. nia.
Qed.

Lemma dm_allocate_spec d a e :
  dm_inv d -> dm_isPresent d a = true -> is_Some (dm_heap d !! e) ->
  exists d' l, dm_allocate b d a e = Ok d' /\ dm_entries d = Some l /\
    dm_entries d' = Some (<[Z.to_nat (mapAddressToLocalIdx b d a) := Some e]> l) /\
    addrRanges d' = addrRanges d /\ m_num_entries d' = m_num_entries d.
Proof.
  intros Hi Hp [x Hx]. pose proof (index_bound d a Hi Hp) as Hidx. destruct Hi as (Hr & Hn & l & Hl & Hlen).
  unfold dm_allocate. rewrite Hp. rsimpl. rewrite (proj2 (Z.ltb_lt _ _)) by lia. rsimpl. cbn [deref_entry]. rewrite Hx. rsimpl.
  unfold dm_slot. cbn [setf dm_entries]. rewrite Hl. rsimpl. rewrite vset_val by lia. rsimpl. eexists _, l. split_and!; done.
Qed.

Lemma dm_reach_inv d : dm_reach d -> dm_inv d.
Proof.
  induction 1 as [d d' H1 H2|d a e d' _ IH H]; [by eapply dm_new_inv |].
  assert (dm_isPresent d a = true /\ is_Some (dm_heap d !! e)) as [Hp He].
  { unfold dm_allocate in H. inv_res. split; [done |]. unfold deref_entry in *. by destruct (dm_heap d !! e). }
  destruct (dm_allocate_spec d a e IH Hp He) as (d1 & l & H1 & Hl & Hl' & Hr & Hn). rewrite H1 in H. injection H as <-.
  destruct IH as (Hr0 & Hn0 & l0 & Hl0 & Hlen). split; [congruence |]. split; [congruence |]. eexists. split; [done |].
  rewrite length_insert, Hn. congruence.
Qed.

(** C20. A directory is a map from lines to entries.  For a directory whose
    address ranges are aligned, do not overlap and leave the line offset out of
    their interleaving bits, in every state reached by allocations: looking up
    an address of its ranges succeeds; allocating an existing entry for an
    address succeeds and makes it the entry of all addresses of that line, the
    entry of every other line staying what it was; and both operations fail on
    an address outside the ranges. *)
Theorem directory_is_line_map d a e :
  dm_reach d -> in_u64 a -> is_Some (dm_heap d !! e) ->
  if dm_isPresent d a then
    (exists p, dm_lookup b d a = Ok p) /\
    exists d', dm_allocate b d a e = Ok d' /\
      forall a', in_u64 a' -> dm_isPresent d a' = true ->
        dm_lookup b d' a' = if decide (makeLineAddress b a' = makeLineAddress b a) then Ok (Some e) else dm_lookup b d a'
  else dm_lookup b d a = Err EAssert /\ dm_allocate b d a e = Err EAssert.
Proof.
  intros Hd%dm_reach_inv Ha He. destruct (dm_isPresent d a) eqn:Hp.
  2: { unfold dm_lookup, dm_allocate. by rewrite Hp. }
  assert (Hlook : forall x l d0, addrRanges d0 = addrRanges d -> m_num_entries d0 = m_num_entries d -> dm_entries d0 = Some l ->
    dm_isPresent d x = true -> dm_lookup b d0 x = vget l (mapAddressToLocalIdx b d x)).
  { intros x l d0 H1 H2 H3 Hx. pose proof (index_bound d x Hd Hx) as Hb2. unfold dm_lookup.
    replace (dm_isPresent d0 x) with (dm_isPresent d x) by (unfold dm_isPresent; by rewrite H1).
    replace (mapAddressToLocalIdx b d0 x) with (mapAddressToLocalIdx b d x) by (unfold mapAddressToLocalIdx; by rewrite H1).
    rewrite Hx. rsimpl. rewrite H2, (proj2 (Z.ltb_lt _ _)) by lia. rsimpl. unfold dm_slot. by rewrite H3. }
  pose proof Hd as (_ & _ & l0 & Hl0 & Hlen). pose proof (index_bound d a Hd Hp) as Hbound. split.
  - rewrite (Hlook a l0 d) by done. apply vget_is_ok. lia.
  - destruct (dm_allocate_spec d a e Hd Hp He) as (d' & l & Hal & Hl & Hl' & Hr & Hn). exists d'. split; [done |].
    assert (l0 = l) as -> by congruence. intros a' Ha' Hp'. rewrite (Hlook a' _ d' Hr Hn Hl' Hp'), (Hlook a' l d) by done.
    pose proof (vset_val l (mapAddressToLocalIdx b d a) (Some e) ltac:(lia)) as Hset. case_decide as Hline.
    + rewrite (proj2 (index_line d a' a Hd Ha' Ha Hp' Hp) Hline). by apply (vset_get_eq _ _ _ _ Hset).
    + apply (vset_get_ne _ _ _ _ _ Hset). intros E. apply Hline. by apply (index_line d a' a Hd Ha' Ha Hp' Hp).
Qed.
End Map.

(** The lines of an interleaved range, two masks deep, followed by a plain one. *)
Definition witness_ranges : list AddrRange :=
  [{| _start := 0; _end := 1024; masks := [320; 128]; intlvMatch := 1 |}; AddrRange_interval 2048 3072].

Definition witness_heap : gmap Z AbstractCacheEntry :=
  {[ 7 := AbstractCacheEntry_ctor {| _set := 0; _way := 0; replacementData := 0 |} 0 ]}.

Lemma witness_ranges_ok : ranges_ok 6 witness_ranges.
Proof.
  split.
  - apply Forall_cons_2; [exists 10; split; [lia | by exists 0 | by exists 1 | cbn; lia | |] |].
    + apply (bool_decide_unpack (NoDup [6; 7])). vm_compute. exact I.
    + repeat (apply Forall_cons_2; [vm_compute; split; done |]). by apply Forall_nil_2.
    + apply Forall_cons_2; [exists 10; split; [lia | by exists 2 | by exists 3 | cbn; lia | by apply NoDup_nil_2 | by apply Forall_nil_2] |].
      by apply Forall_nil_2.
  - intros [|[|i]] [|[|j]] r r' a Hi Hj [H1 _]%contains_sel [H2 _]%contains_sel; simplify_eq/=; try done; try lia.
Qed.

Lemma directory_is_line_map_witness :
  exists d d', DirectoryMemory_ctor witness_ranges witness_heap = Ok d /\ dm_init (2 ^ 6) d = Ok d' /\
    if dm_isPresent d' 2112 then
      (exists p, dm_lookup 6 d' 2112 = Ok p) /\
      exists d'', dm_allocate 6 d' 2112 7 = Ok d'' /\
        forall a', in_u64 a' -> dm_isPresent d' a' = true ->
          dm_lookup 6 d'' a' = if decide (makeLineAddress 6 a' = makeLineAddress 6 2112) then Ok (Some 7) else dm_lookup 6 d' a'
    else dm_lookup 6 d' 2112 = Err EAssert /\ dm_allocate 6 d' 2112 7 = Err EAssert.
Proof.
  eexists _, _. split; [reflexivity |]. split; [reflexivity |].
  apply (directory_is_line_map 6 witness_ranges witness_heap); [lia | exact witness_ranges_ok | done | | unfold in_u64; lia | by eexists].
  eapply dm_new; reflexivity.
Defined.
