(* ===== verification/RubyPrefetcher.v ===== *)
(** * The stride prefetcher

    Models [mem/ruby/structures/RubyPrefetcher.{hh,cc}]: filters that recognise
    sequences of misses with a stride of one line, of minus one line, or of
    several lines within a page, and the streams that prefetch ahead of
    them.  A prefetch is an [enqueuePrefetch] call on the controller, which the
    operations return as events; statistics are left out.

    The theorems: with [cross_page] off no prefetch leaves the page of the
    stream it belongs to, and an ascending sequence of misses trains a
    stream after exactly [train_misses] hits of its filter.  The examples show
    that descending sequences are never recognised. *)
From S2P Require Import Prelude Common.

Definition MAX_PF_INFLIGHT : Z := 8.

(** [m_address] and [m_type] are indeterminate until a stream is set up; the
    two bit sets are never written. *)
Record PrefetchEntry := {
  pe_address : option Z;
  pe_stride : Z;
  pe_use_time : Z;
  pe_is_valid : bool;
  pe_type : option Z;
  requestIssued : Z;
  requestCompleted : Z
}.

#[export] Instance PrefetchEntry_eta : Eta PrefetchEntry := {| eta := fun e =>
  {| pe_address := pe_address e; pe_stride := pe_stride e; pe_use_time := pe_use_time e; pe_is_valid := pe_is_valid e;
     pe_type := pe_type e; requestIssued := requestIssued e; requestCompleted := requestCompleted e |} |}.

(** A unit-stride filter: the lines expected next, how often each was hit, and
    the round-robin position. *)
Record unit_filter := { uf_table : list Z; uf_hit : list Z; uf_index : Z }.

Record RubyPrefetcher := {
  m_num_streams : Z;
  m_array : list PrefetchEntry;
  m_train_misses : Z;
  m_num_startup_pfs : Z;
  m_num_unit_filters : Z;
  m_num_nonunit_filters : Z;
  m_unit_filter : unit_filter;
  m_negative_filter : unit_filter;
  m_nonunit_filter : list Z;
  m_nonunit_stride : list Z;
  m_nonunit_hit : list Z;
  m_nonunit_index : Z;
  m_prefetch_cross_pages : bool;
  m_page_shift : Z
}.

#[export] Instance RubyPrefetcher_eta : Eta RubyPrefetcher := {| eta := fun p =>
  {| m_num_streams := m_num_streams p; m_array := m_array p; m_train_misses := m_train_misses p;
     m_num_startup_pfs := m_num_startup_pfs p; m_num_unit_filters := m_num_unit_filters p;
     m_num_nonunit_filters := m_num_nonunit_filters p; m_unit_filter := m_unit_filter p;
     m_negative_filter := m_negative_filter p; m_nonunit_filter := m_nonunit_filter p;
     m_nonunit_stride := m_nonunit_stride p; m_nonunit_hit := m_nonunit_hit p; m_nonunit_index := m_nonunit_index p;
     m_prefetch_cross_pages := m_prefetch_cross_pages p; m_page_shift := m_page_shift p |} |}.

(** A prefetch asked of the controller: line and request type. *)
Record prefetch := { pf_line : Z; pf_type : Z }.

Record PrefetcherParams := {
  num_streams : Z; train_misses : Z; num_startup_pfs : Z; p_unit_filter : Z; p_nonunit_filter : Z;
  cross_page : bool; page_shift : Z
}.

Section Prefetcher.
(** [RubySystem::getBlockSizeBits()] and [getBlockSizeBytes()]. *)
Context (block_size_bits block_size_bytes : Z).

Abbreviation lineOf := (makeLineAddress block_size_bits).
Abbreviation strideOf := (makeNextStrideAddress block_size_bits block_size_bytes).

Definition PrefetchEntry_ctor : PrefetchEntry :=
  {| pe_address := None; pe_stride := i32 (Z.shiftl 1 block_size_bits); pe_use_time := 0; pe_is_valid := false;
     pe_type := None; requestIssued := 0; requestCompleted := 0 |}.

Definition new_filter (n : Z) : unit_filter :=
  {| uf_table := replicate (Z.to_nat n) 0; uf_hit := replicate (Z.to_nat n) 0; uf_index := 0 |}.

Definition RubyPrefetcher_ctor (p : PrefetcherParams) : res RubyPrefetcher :=
  _ ← cassert (0 <? num_streams p);
  _ ← cassert (num_startup_pfs p <=? MAX_PF_INFLIGHT);
  Ok {| m_num_streams := num_streams p; m_array := replicate (Z.to_nat (num_streams p)) PrefetchEntry_ctor;
        m_train_misses := train_misses p; m_num_startup_pfs := num_startup_pfs p;
        m_num_unit_filters := p_unit_filter p; m_num_nonunit_filters := p_nonunit_filter p;
        m_unit_filter := new_filter (p_unit_filter p); m_negative_filter := new_filter (p_unit_filter p);
        m_nonunit_filter := replicate (Z.to_nat (p_nonunit_filter p)) 0;
        m_nonunit_stride := replicate (Z.to_nat (p_nonunit_filter p)) 0;
        m_nonunit_hit := replicate (Z.to_nat (p_nonunit_filter p)) 0; m_nonunit_index := 0;
        m_prefetch_cross_pages := cross_page p; m_page_shift := page_shift p |}.

Definition pageAddress (p : RubyPrefetcher) (addr : Z) : Z := mbits addr 63 (m_page_shift p).

(** An indeterminate field. *)
Definition pe_get {A} (o : option A) : res A := match o with Some a => Ok a | None => Err EUninit end.

(** The search of [getPrefetchEntry]; its [index] argument is never assigned. *)
Fixpoint match_offsets (e : PrefetchEntry) (m_addr address : Z) (js : list Z) : bool :=
  match js with
  | [] => false
  | j :: js => if strideOf m_addr (i32 (- i32 (pe_stride e * j))) =? address then true else match_offsets e m_addr address js
  end.

Definition entry_matches (p : RubyPrefetcher) (e : PrefetchEntry) (address : Z) : res bool :=
  if pe_is_valid e then a ← pe_get (pe_address e); Ok (match_offsets e a address (upto (m_num_startup_pfs p))) else Ok false.

(** [foldM_brk] over the streams: the index of the first that matches. *)
Definition getPrefetchEntry (p : RubyPrefetcher) (address : Z) : res (option Z) :=
  r ← foldM_brk (fun _ i => e ← vget (m_array p) i; b ← entry_matches p e address; Ok (b, i)) (upto (m_num_streams p)) 0;
  Ok (if (r.1 : bool) then Some r.2 else None).

(** The loop of [getLRUindex]: leaves at the first unused stream. *)
Definition lru_step (p : RubyPrefetcher) (acc : Z * Z) (i : Z) : res (bool * (Z * Z)) :=
  e ← vget (m_array p) i;
  if negb (pe_is_valid e) then Ok (true, (i, acc.2))
  else if pe_use_time e <? acc.2 then Ok (false, (i, pe_use_time e)) else Ok (false, acc).

Definition getLRUindex (p : RubyPrefetcher) : res Z :=
  e ← vget (m_array p) 0;
  r ← foldM_brk (lru_step p) (upto (m_num_streams p)) (0, pe_use_time e);
  Ok r.2.1.

Definition clearNonunitEntry (p : RubyPrefetcher) (index : Z) : res RubyPrefetcher :=
  f ← vset (m_nonunit_filter p) index 0;
  s ← vset (m_nonunit_stride p) index 0;
  h ← vset (m_nonunit_hit p) index 0;
  Ok (p ⟨ m_nonunit_filter := f ⟩ ⟨ m_nonunit_stride := s ⟩ ⟨ m_nonunit_hit := h ⟩).

(** The start-up loop: the prefetches, and the last line or [None] when the
    page boundary ended it. *)
Fixpoint startup (p : RubyPrefetcher) (page_addr line_addr stride type : Z) (k : nat) : option Z * list prefetch :=
  match k with
  | O => (Some line_addr, [])
  | S k =>
      let line_addr := strideOf line_addr stride in
      if negb (page_addr =? pageAddress p line_addr) && negb (m_prefetch_cross_pages p) then (None, [])
      else let r := startup p page_addr line_addr stride type k in (r.1, {| pf_line := line_addr; pf_type := type |} :: r.2)
  end.

Definition initializeStream (p : RubyPrefetcher) (curCycle address stride index type : Z) : res (RubyPrefetcher * list prefetch) :=
  mystream ← vget (m_array p) index;
  let mystream := mystream ⟨ pe_address := Some (lineOf address) ⟩ ⟨ pe_stride := stride ⟩ ⟨ pe_use_time := curCycle ⟩
                    ⟨ pe_is_valid := true ⟩ ⟨ pe_type := Some type ⟩ in
  let page_addr := pageAddress p (lineOf address) in
  let line_addr := lineOf (lineOf address) in
  let r := startup p page_addr line_addr stride type (Z.to_nat (m_num_startup_pfs p)) in
  let mystream := match r.1 with
                  | Some last => mystream ⟨ pe_address := Some last ⟩
                  | None => mystream ⟨ pe_is_valid := false ⟩
                  end in
  l ← vset (m_array p) index mystream;
  Ok (p ⟨ m_array := l ⟩, r.2).

Definition issueNextPrefetch (p : RubyPrefetcher) (curCycle address : Z) (stream : option Z) : res (RubyPrefetcher * list prefetch) :=
  stream ← (match stream with None => getPrefetchEntry p address | Some i => Ok (Some i) end);
  match stream with
  | None => Ok (p, [])
  | Some i =>
      e ← vget (m_array p) i;
      a ← pe_get (pe_address e);
      let page_addr := pageAddress p a in
      let line_addr := strideOf a (pe_stride e) in
      if negb (page_addr =? pageAddress p line_addr) && negb (m_prefetch_cross_pages p) then
        l ← vset (m_array p) i (e ⟨ pe_is_valid := false ⟩); Ok (p ⟨ m_array := l ⟩, [])
      else
        l ← vset (m_array p) i (e ⟨ pe_address := Some line_addr ⟩ ⟨ pe_use_time := curCycle ⟩);
        type ← pe_get (pe_type e);
        Ok (p ⟨ m_array := l ⟩, [{| pf_line := line_addr; pf_type := type |}])
  end.

Definition observePfMiss (p : RubyPrefetcher) (curCycle address : Z) := issueNextPrefetch p curCycle address None.
Definition observePfHit (p : RubyPrefetcher) (curCycle address : Z) := issueNextPrefetch p curCycle address None.

(** The first element of a filter that satisfies the test. *)
Definition filter_find (n : Z) (table : list Z) (test : Z -> bool) : res (option Z) :=
  r ← foldM_brk (fun _ i => x ← vget table i; Ok (test x, i)) (upto n) 0;
  Ok (if (r.1 : bool) then Some r.2 else None).

(** Hit and allocation flags. *)
Definition accessUnitFilter (p : RubyPrefetcher) (f : unit_filter) (address stride : Z) : res (unit_filter * (bool * bool)) :=
  let line_addr := lineOf address in
  found ← filter_find (m_num_unit_filters p) (uf_table f) (fun x => x =? line_addr);
  match found with
  | Some i =>
      t ← vupd (uf_table f) i (fun x => Ok (strideOf x stride));
      h ← vupd (uf_hit f) i (fun x => Ok (u32 (x + 1)));
      n ← vget h i;
      Ok ({| uf_table := t; uf_hit := h; uf_index := uf_index f |}, (true, m_train_misses p <=? n))
  | None =>
      let local_index := uf_index f in
      t ← vset (uf_table f) local_index (strideOf line_addr stride);
      h ← vset (uf_hit f) local_index 0;
      let local_index := local_index + 1 in
      let local_index := if m_num_unit_filters p <=? local_index then 0 else local_index in
      Ok ({| uf_table := t; uf_hit := h; uf_index := local_index |}, (false, false))
  end.

(** Hit and allocation flags, and the stride in lines. *)
Definition accessNonunitFilter (p : RubyPrefetcher) (address : Z) : res (RubyPrefetcher * (bool * bool * Z)) :=
  let page_addr := pageAddress p address in
  let line_addr := lineOf address in
  found ← filter_find (m_num_nonunit_filters p) (m_nonunit_filter p) (fun x => pageAddress p x =? page_addr);
  match found with
  | Some i =>
      last ← vget (m_nonunit_filter p) i;
      let delta := i32 (u64 (line_addr - last)) in
      if negb (delta =? 0) then
        s ← vget (m_nonunit_stride p) i;
        r ← (if delta =? s then
               h ← vupd (m_nonunit_hit p) i (fun x => Ok (u32 (x + 1)));
               let p := p ⟨ m_nonunit_hit := h ⟩ in
               n ← vget h i;
               if m_train_misses p <? n then
                 let stride := i32 (u32 s / block_size_bytes) in
                 p ← clearNonunitEntry p i; Ok (p, true, stride)
               else Ok (p, false, 0)
             else h ← vset (m_nonunit_hit p) i 0; Ok (p ⟨ m_nonunit_hit := h ⟩, false, 0));
        let '(p, alloc, stride) := r in
        st ← vset (m_nonunit_stride p) i delta;
        f ← vset (m_nonunit_filter p) i line_addr;
        Ok (p ⟨ m_nonunit_stride := st ⟩ ⟨ m_nonunit_filter := f ⟩, (true, alloc, stride))
      else Ok (p, (false, false, 0))
  | None =>
      f ← vset (m_nonunit_filter p) (m_nonunit_index p) line_addr;
      s ← vset (m_nonunit_stride p) (m_nonunit_index p) 0;
      h ← vset (m_nonunit_hit p) (m_nonunit_index p) 0;
      let index := u32 (m_nonunit_index p + 1) in
      let index := if m_num_nonunit_filters p <=? index then 0 else index in
      Ok (p ⟨ m_nonunit_filter := f ⟩ ⟨ m_nonunit_stride := s ⟩ ⟨ m_nonunit_hit := h ⟩ ⟨ m_nonunit_index := index ⟩, (false, false, 0))
  end.

(** [if (alloc) initializeStream(line_addr, stride, getLRUindex(), type)]. *)
Definition maybe_stream (p : RubyPrefetcher) (alloc : bool) (curCycle line_addr stride type : Z) : res (RubyPrefetcher * list prefetch) :=
  if alloc then i ← getLRUindex p; initializeStream p curCycle line_addr stride i type else Ok (p, []).

Definition observeMiss (p : RubyPrefetcher) (curCycle address type : Z) : res (RubyPrefetcher * list prefetch) :=
  let line_addr := lineOf address in
  let index := 0 in
  pfEntry ← getPrefetchEntry p line_addr;
  match pfEntry with
  | Some i =>
      e ← vget (m_array p) i;
      if Z.testbit (requestIssued e) index then
        if Z.testbit (requestCompleted e) index then Ok (p, []) else observePfMiss p curCycle line_addr
      else Ok (p, [])
  | None =>
      u ← accessUnitFilter p (m_unit_filter p) line_addr 1;
      let '(f, (hit, alloc)) := u in
      let p := p ⟨ m_unit_filter := f ⟩ in
      r1 ← maybe_stream p alloc curCycle line_addr 1 type;
      let '(p, ev1) := r1 in
      if (hit : bool) then Ok (p, ev1) else
      u ← accessUnitFilter p (m_negative_filter p) line_addr (-1);
      let '(f, (hit, alloc)) := u in
      let p := p ⟨ m_negative_filter := f ⟩ in
      r2 ← maybe_stream p alloc curCycle line_addr (-1) type;
      let '(p, ev2) := r2 in
      if (hit : bool) then Ok (p, ev1 ++ ev2) else
      u ← accessNonunitFilter p address;
      let '(p, (hit, alloc, stride)) := u in
      _ ← (if (alloc : bool) then cassert (negb (stride =? 0)) else Ok ());
      r3 ← maybe_stream p alloc curCycle line_addr stride type;
      Ok (r3.1, ev1 ++ ev2 ++ r3.2)
  end.

(** ** What a cache reports to its prefetcher *)
Inductive pf_op := Miss (cycle address type : Z) | PfHit (cycle address : Z) | PfMiss (cycle address : Z).

Definition pf_step (p : RubyPrefetcher) (o : pf_op) : res (RubyPrefetcher * list prefetch) :=
  match o with
  | Miss c a t => observeMiss p c a t
  | PfHit c a => observePfHit p c a
  | PfMiss c a => observePfMiss p c a
  end.

(** The prefetches of each operation. *)
Fixpoint pf_run (p : RubyPrefetcher) (ops : list pf_op) : res (RubyPrefetcher * list (list prefetch)) :=
  match ops with
  | [] => Ok (p, [])
  | o :: ops => r ← pf_step p o; r' ← pf_run r.1 ops; Ok (r'.1, r.2 :: r'.2)
  end.
End Prefetcher.

(** ** Prefetches stay in a page *)
Section Pages.
Context (b B : Z).

Inductive pf_reach (params : PrefetcherParams) : RubyPrefetcher -> Prop :=
  | pf_new p : RubyPrefetcher_ctor b params = Ok p -> pf_reach params p
  | pf_next p o p' evs : pf_reach params p -> pf_step b B p o = Ok (p', evs) -> pf_reach params p'.

(** What no operation changes, and that no prefetch is ever noted as issued. *)
Record pf_frame (p p' : RubyPrefetcher) : Prop := {
  fr_cross : m_prefetch_cross_pages p' = m_prefetch_cross_pages p;
  fr_page : m_page_shift p' = m_page_shift p;
  fr_startup : m_num_startup_pfs p' = m_num_startup_pfs p;
  fr_issued : Forall (fun e => requestIssued e = 0) (m_array p) -> Forall (fun e => requestIssued e = 0) (m_array p')
}.

#[local] Instance pf_frame_refl : Reflexive pf_frame.
Proof. intros p. by split. Qed.
#[local] Instance pf_frame_trans : Transitive pf_frame.
Proof. intros p q r [] []. split; [congruence | congruence | congruence | auto]. Qed.

Lemma pf_frame_array p i e e' l :
  vget (m_array p) i = Ok e -> requestIssued e' = requestIssued e -> vset (m_array p) i e' = Ok l -> pf_frame p (p ⟨ m_array := l ⟩).
Proof.
  intros He Hr Hl. split; try done. cbn [setf m_array]. intros H. apply vset_Ok in Hl as [_ ->]. apply Forall_insert; [done |].
  rewrite Forall_forall in H. rewrite Hr. apply H. apply vget_Ok in He as [_ He]. by eapply list_elem_of_lookup_2.
Qed.

(** The filters are no part of the frame. *)
Lemma pf_frame_unit p f : pf_frame p (p ⟨ m_unit_filter := f ⟩).
Proof. by split. Qed.
Lemma pf_frame_negative p f : pf_frame p (p ⟨ m_negative_filter := f ⟩).
Proof. by split. Qed.

(** A page test that failed would have ended the stream. *)
Lemma page_test p page_addr line :
  m_prefetch_cross_pages p = false ->
  negb (page_addr =? pageAddress p line) && negb (m_prefetch_cross_pages p) = false -> pageAddress p line = page_addr.
Proof. intros -> H. rewrite andb_true_r in H. b2p. done. Qed.

Lemma startup_pages p page_addr line stride type k :
  m_prefetch_cross_pages p = false ->
  Forall (fun f => pageAddress p (pf_line f) = page_addr) (startup b B p page_addr line stride type k).2.
Proof.
  intros Hc. revert line. induction k as [|k IH]; intros line; cbn [startup]; [by apply Forall_nil_2 |].
  destruct (negb _ && negb _) eqn:E; [by apply Forall_nil_2 |]. cbn [snd]. apply Forall_cons_2; [by apply page_test in E | apply IH].
Qed.

Lemma initializeStream_pages p c a stride i type p' evs :
  initializeStream b B p c a stride i type = Ok (p', evs) ->
  pf_frame p p' /\
  (m_prefetch_cross_pages p = false -> Forall (fun f => pageAddress p (pf_line f) = pageAddress p (makeLineAddress b a)) evs).
Proof.
  intros H. unfold initializeStream in H. apply res_bind_Ok_inv in H as (e & He & H). apply res_bind_Ok_inv in H as (l & Hl & H).
  injection H as <- <-. split; [| apply startup_pages]. eapply pf_frame_array; [done | | exact Hl]. by destruct (startup _ _ _ _ _ _ _ _).1.
Qed.

Lemma maybe_stream_pages p alloc c a stride type p' evs :
  maybe_stream b B p alloc c a stride type = Ok (p', evs) ->
  pf_frame p p' /\
  (m_prefetch_cross_pages p = false -> Forall (fun f => pageAddress p (pf_line f) = pageAddress p (makeLineAddress b a)) evs).
Proof.
  unfold maybe_stream. destruct alloc; [| intros [= <- <-]; split; [done | by intros; apply Forall_nil_2]].
  intros (i & _ & H)%res_bind_Ok_inv. by eapply initializeStream_pages.
Qed.

Lemma accessNonunit_frame p a p' x : accessNonunitFilter b B p a = Ok (p', x) -> pf_frame p p'.
Proof.
  unfold accessNonunitFilter. intros (found & _ & H)%res_bind_Ok_inv. destruct found as [i|].
  - apply res_bind_Ok_inv in H as (last & _ & H). destruct (negb _) eqn:Ed; [| injection H as <- _; done].
    apply res_bind_Ok_inv in H as (s & _ & H). apply res_bind_Ok_inv in H as ([[q alloc] stride] & Eq & H).
    apply res_bind_Ok_inv in H as (st & _ & H). apply res_bind_Ok_inv in H as (f & _ & H). injection H as <- _.
    enough (pf_frame p q) as [] by (by split). destruct (_ =? s).
    + apply res_bind_Ok_inv in Eq as (h & _ & Eq). apply res_bind_Ok_inv in Eq as (n & _ & Eq). destruct (_ <? n).
      * apply res_bind_Ok_inv in Eq as (q' & Eq' & Eq). injection Eq as <- _ _. unfold clearNonunitEntry in Eq'.
        apply res_bind_Ok_inv in Eq' as (? & _ & Eq'). apply res_bind_Ok_inv in Eq' as (? & _ & Eq').
        apply res_bind_Ok_inv in Eq' as (? & _ & Eq'). injection Eq' as <-. by split.
      * injection Eq as <- _ _. by split.
    + apply res_bind_Ok_inv in Eq as (h & _ & Eq). injection Eq as <- _ _. by split.
  - apply res_bind_Ok_inv in H as (? & _ & H). apply res_bind_Ok_inv in H as (? & _ & H). apply res_bind_Ok_inv in H as (? & _ & H).
    injection H as <- _. by split.
Qed.

(** The stream found for an address is valid and matches it. *)
Lemma getPrefetchEntry_Some p a i :
  getPrefetchEntry b B p a = Ok (Some i) ->
  exists e A, vget (m_array p) i = Ok e /\ pe_is_valid e = true /\ pe_address e = Some A /\
    match_offsets b B e A a (upto (m_num_startup_pfs p)) = true.
Proof.
  unfold getPrefetchEntry. intros ([found j] & Hf & H)%res_bind_Ok_inv. cbn [fst snd] in H. destruct found; [| done]. injection H as ->.
  revert Hf. generalize 0 at 1. induction (upto (m_num_streams p)) as [|k l IH]; intros s Hf; cbn [foldM_brk] in Hf; [done |].
  apply res_bind_Ok_inv in Hf as ([fd s'] & E & Hf). cbn [fst snd] in Hf. apply res_bind_Ok_inv in E as (e & He & E).
  apply res_bind_Ok_inv in E as (m & Em & E). injection E as <- <-. destruct m; [| by eapply IH]. injection Hf as <-.
  unfold entry_matches in Em. destruct (pe_is_valid e) eqn:Ev; [| done]. apply res_bind_Ok_inv in Em as (A & EA & Em).
  exists e, A. unfold pe_get in EA. destruct (pe_address e); [| done]. injection EA as ->. injection Em as Em. done.
Qed.

Lemma issueNext_frame p c a p' evs : issueNextPrefetch b B p c a None = Ok (p', evs) -> pf_frame p p'.
Proof.
  intros H. unfold issueNextPrefetch in H. apply res_bind_Ok_inv in H as ([i|] & Hi & H); [| by injection H as <- <-].
  apply res_bind_Ok_inv in H as (e & He & H). apply res_bind_Ok_inv in H as (A & HA & H). destruct (negb _ && negb _).
  - apply res_bind_Ok_inv in H as (l & Hl & H). injection H as <- <-. eapply pf_frame_array; [exact He | | exact Hl]; done.
  - apply res_bind_Ok_inv in H as (l & Hl & H). apply res_bind_Ok_inv in H as (t & Ht & H). injection H as <- <-.
    eapply pf_frame_array; [exact He | | exact Hl]; done.
Qed.

(** The stream that answers a hit, and what it prefetches. *)
Definition extends (p : RubyPrefetcher) (a : Z) (evs : list prefetch) : Prop :=
  evs = [] \/
  exists i e A f, vget (m_array p) i = Ok e /\ pe_is_valid e = true /\ pe_address e = Some A /\
    match_offsets b B e A a (upto (m_num_startup_pfs p)) = true /\
    evs = [f] /\ pf_line f = makeNextStrideAddress b B A (pe_stride e) /\ pageAddress p (pf_line f) = pageAddress p A.

Lemma issueNext_pages p c a p' evs :
  m_prefetch_cross_pages p = false -> issueNextPrefetch b B p c a None = Ok (p', evs) -> pf_frame p p' /\ extends p a evs.
Proof.
  intros Hc H. split; [by eapply issueNext_frame |]. unfold issueNextPrefetch in H.
  apply res_bind_Ok_inv in H as ([i|] & Hi & H); [| injection H as <- <-; by left].
  apply getPrefetchEntry_Some in Hi as (e & A & He & Hv & HA & Hm). rewrite He in H. cbn [mbind res_bind] in H. rewrite HA in H.
  cbn [pe_get mbind res_bind] in H. destruct (negb _ && negb _) eqn:E; apply res_bind_Ok_inv in H as (l & Hl & H).
  - injection H as <- <-. by left.
  - apply res_bind_Ok_inv in H as (t & Ht & H). injection H as <- <-. right. eexists i, e, A, _. split_and!; try done. by apply page_test in E.
Qed.

Lemma observeMiss_pages p c a type p' evs :
  Forall (fun e => requestIssued e = 0) (m_array p) -> observeMiss b B p c a type = Ok (p', evs) ->
  pf_frame p p' /\
  (m_prefetch_cross_pages p = false ->
   Forall (fun f => pageAddress p (pf_line f) = pageAddress p (makeLineAddress b (makeLineAddress b a))) evs).
Proof.
  intros Hiss H. unfold observeMiss in H. apply res_bind_Ok_inv in H as ([i|] & Hi & H).
  { apply res_bind_Ok_inv in H as (e & He & H). rewrite Forall_forall in Hiss. apply vget_Ok in He as [_ He].
    rewrite (Hiss e), Z.bits_0 in H by (by eapply list_elem_of_lookup_2). injection H as <- <-. split; [done | by intros; apply Forall_nil_2]. }
  assert (Hpage : forall q q' f, pf_frame p q -> (m_prefetch_cross_pages q = false -> Forall (fun x => pageAddress q (pf_line x) =
      pageAddress q (makeLineAddress b (makeLineAddress b a))) f) -> pf_frame q q' ->
      pf_frame p q' /\ (m_prefetch_cross_pages p = false -> Forall (fun x => pageAddress p (pf_line x) =
        pageAddress p (makeLineAddress b (makeLineAddress b a))) f)).
  { intros q q' f Hq Hf Hqq. split; [by transitivity q |]. intros Hc. destruct Hq as [Hqc Hqp _ _]. unfold pageAddress in *. rewrite Hqp, Hqc in Hf. auto. }
  apply res_bind_Ok_inv in H as ([f [hit alloc]] & _ & H). apply res_bind_Ok_inv in H as ([p1 ev1] & E1 & H).
  apply maybe_stream_pages in E1 as [F1 P1]. destruct (Hpage _ _ _ (pf_frame_unit p f) P1 F1) as [F1' P1']. clear F1 P1.
  destruct hit; [by injection H as <- <- |].
  apply res_bind_Ok_inv in H as ([f2 [hit2 alloc2]] & _ & H). apply res_bind_Ok_inv in H as ([p2 ev2] & E2 & H).
  apply maybe_stream_pages in E2 as [F2 P2].
  destruct (Hpage _ _ _ (transitivity F1' (pf_frame_negative p1 f2)) P2 F2) as [F2' P2']. clear F2 P2.
  destruct hit2; [injection H as <- <-; split; [done | intros; apply Forall_app; auto] |].
  apply res_bind_Ok_inv in H as ([p3 [[hit3 alloc3] stride]] & E3 & H). apply accessNonunit_frame in E3 as F3.
  apply res_bind_Ok_inv in H as (? & _ & H). apply res_bind_Ok_inv in H as ([p4 ev3] & E4 & H). injection H as <- <-.
  apply maybe_stream_pages in E4 as [F4 P4]. assert (pf_frame p p3) as Fm by (by transitivity p2).
  destruct (Hpage _ _ _ Fm P4 F4) as [F4' P4']. split; [done |]. intros Hc. rewrite !Forall_app. auto.
Qed.

Lemma pf_reach_inv params p :
  pf_reach params p ->
  Forall (fun e => requestIssued e = 0) (m_array p) /\ m_prefetch_cross_pages p = cross_page params /\
  m_page_shift p = page_shift params /\ m_num_startup_pfs p = num_startup_pfs params.
Proof.
  induction 1 as [p H|p o p' evs _ (Hi & Hc & Hs & Hn) H].
  - unfold RubyPrefetcher_ctor in H. inv_res. subst p. split_and!; try done. by apply Forall_replicate.
  - assert (pf_frame p p') as [H1 H2 H3 H4]; [| by rewrite H1, H2, H3; auto]. destruct o; cbn [pf_step] in H.
    + by eapply observeMiss_pages.
    + by apply issueNext_frame in H.
    + by apply issueNext_frame in H.
Qed.
End Pages.

Lemma pf_reach_run b B params p ops p' evs :
  pf_reach b B params p -> pf_run b B p ops = Ok (p', evs) -> pf_reach b B params p'.
Proof.
  revert p evs. induction ops as [|o ops IH]; intros p evs Hp H; cbn [pf_run] in H; [by injection H as <- _ |].
  apply res_bind_Ok_inv in H as ([p1 ev] & E & H). apply res_bind_Ok_inv in H as ([p2 evs'] & E2 & H). injection H as <- _.
  eapply IH; [by eapply pf_next | exact E2].
Qed.

(** C34. With [cross_page] off, in every state the prefetcher can reach: every
    prefetch made on a miss is for a line in the page of the missing address,
    and a hit or partial hit makes at most one prefetch, by a stream that
    covers the address, one stride after and in the same page as the last line of that
    stream.  With one start-up prefetch, the default, that is the page of
    the address itself. *)
Theorem prefetches_stay_in_page (b B : Z) (params : PrefetcherParams) (p p' : RubyPrefetcher) (o : pf_op) (evs : list prefetch) :
  0 <= b <= page_shift params -> page_shift params <= 64 -> cross_page params = false ->
  pf_reach b B params p -> pf_step b B p o = Ok (p', evs) ->
  match o with
  | Miss _ a _ => Forall (fun f => pageAddress p (pf_line f) = pageAddress p a) evs
  | PfHit _ a | PfMiss _ a =>
      extends b B p a evs /\
      (num_startup_pfs params = 1 -> Forall (fun f => pageAddress p (pf_line f) = pageAddress p a) evs)
  end.
Proof.
  intros Hb Hs Hc Hr H. destruct (pf_reach_inv b B params p Hr) as (Hiss & Hcp & Hps & Hn).
  assert (Hpl : forall x, pageAddress p (makeLineAddress b x) = pageAddress p x).
  { intros x. unfold pageAddress, makeLineAddress. rewrite Hps. by apply mbits_mbits. }
  assert (Hext : forall a, extends b B p a evs -> num_startup_pfs params = 1 -> Forall (fun f => pageAddress p (pf_line f) = pageAddress p a) evs).
  { intros a [->|(i & e & A & f & He & Hv & HA & Hm & -> & Hf & Hp)] H1; [by apply Forall_nil_2 |].
    apply Forall_cons_2; [| by apply Forall_nil_2]. rewrite Hp. rewrite Hn, H1 in Hm. cbn [upto seqZ] in Hm.
    change (upto 1) with [0] in Hm. cbn [match_offsets] in Hm. rewrite Z.mul_0_r in Hm.
    change (i32 (- i32 0)) with 0 in Hm. destruct (_ =? a) eqn:E; [| done]. b2p. rewrite <- E. unfold makeNextStrideAddress.
    rewrite Z.mul_0_r. change (u32 0) with 0. rewrite Z.add_0_r. unfold makeLineAddress. rewrite mbits_u64 by lia. fold (makeLineAddress b A). by rewrite Hpl. }
  destruct o as [c a t|c a|c a]; cbn [pf_step] in H.
  - apply observeMiss_pages in H as [_ H]; [| done]. specialize (H ltac:(congruence)). eapply Forall_impl; [exact H |].
    intros f Hf. cbn in Hf. by rewrite Hf, !Hpl.
  - apply issueNext_pages in H as [_ H]; [| congruence]. auto.
  - apply issueNext_pages in H as [_ H]; [| congruence]. auto.
Qed.

(** ** Examples with the default parameters *)

Definition default_params : PrefetcherParams :=
  {| num_streams := 4; train_misses := 4; num_startup_pfs := 1; p_unit_filter := 8; p_nonunit_filter := 8;
     cross_page := false; page_shift := 12 |}.

Definition lines_prefetched (addresses : list Z) : res (list (list Z)) :=
  p ← RubyPrefetcher_ctor 6 default_params;
  r ← pf_run 6 64 p (map (fun a => Miss 1 a 0) addresses);
  Ok (map (map pf_line) r.2).

(** The fifth miss of an ascending sequence starts a stream. *)
Example ascending_prefetched :
  lines_prefetched [4096; 4160; 4224; 4288; 4352] = Ok [[]; []; []; []; [4416]].
Proof. vm_compute. reflexivity. Qed.

(** A descending sequence starts none, although a filter of its own was made
    for it: the line expected next is 4 GiB too high. *)
Example descending_ignored :
  lines_prefetched [8128; 8064; 8000; 7936; 7872; 7808; 7744; 7680; 7616; 7552] = Ok (replicate 10 []) /\
  makeNextStrideAddress 6 64 8128 (-1) = 8064 + 2 ^ 32.
Proof. vm_compute. split; reflexivity. Qed.

Lemma prefetches_stay_in_page_witness :
  exists p0 p1 p2 evs, RubyPrefetcher_ctor 6 default_params = Ok p0 /\
    pf_run 6 64 p0 (map (fun a => Miss 1 a 0) [4096; 4160; 4224; 4288]) = Ok (p1, [[]; []; []; []]) /\
    pf_step 6 64 p1 (Miss 1 4352 0) = Ok (p2, evs) /\ evs <> [] /\
    Forall (fun f => pageAddress p1 (pf_line f) = pageAddress p1 4352) evs.
Proof.
  destruct (RubyPrefetcher_ctor 6 default_params) as [p0|] eqn:E0; [| vm_compute in E0; discriminate].
  destruct (pf_run 6 64 p0 (map (fun a => Miss 1 a 0) [4096; 4160; 4224; 4288])) as [[p1 evs1]|] eqn:E1;
    [| vm_compute in E0; injection E0 as <-; vm_compute in E1; discriminate].
  destruct (pf_step 6 64 p1 (Miss 1 4352 0)) as [[p2 evs]|] eqn:E2;
    [| vm_compute in E0; injection E0 as <-; vm_compute in E1; injection E1 as <- <-; vm_compute in E2; discriminate].
  exists p0, p1, p2, evs. split; [done |]. split; [| split; [done |]].
  { rewrite E1. vm_compute in E0. injection E0 as <-. vm_compute in E1. by injection E1 as <- <-. }
  split.
  - vm_compute in E0. injection E0 as <-. vm_compute in E1. injection E1 as <- <-. vm_compute in E2. by injection E2 as <- <-.
  - apply (prefetches_stay_in_page 6 64 default_params p1 p2 (Miss 1 4352 0) evs); [cbn; lia | cbn; lia | done | | exact E2].
    eapply pf_reach_run; [by apply pf_new | exact E1].
Defined.
