(* ===== verification/PrefetchTraining.v ===== *)
(** * Training of the stride prefetcher

    An ascending sequence of misses of a new prefetcher (RubyPrefetcher.v): the
    first miss enters the unit-stride filter, every further one hits that
    entry, and the hit number [train_misses] sets up a stream and issues its
    start-up prefetches, up to the end of the page unless pages may be crossed. *)
From S2P Require Import Prelude Common RubyPrefetcher.

(** The leading elements that satisfy [f]. *)
Fixpoint leading (f : Z -> bool) (l : list Z) : list Z :=
  match l with [] => [] | x :: l => if f x then x :: leading f l else [] end.

(** Line [L + (k + j) * B] may be prefetched after a miss of [L + k * B]. *)
Definition may_prefetch (b : Z) (params : PrefetcherParams) (L k j : Z) : bool :=
  cross_page params ||
  (mbits (L + k * 2 ^ b) 63 (page_shift params) =? mbits (L + (k + j) * 2 ^ b) 63 (page_shift params)).

(** The stream entry after a miss of [L + k * B] at [cycle], with [n] start-up
    prefetches: it stands at the last of them; it is given up at a page boundary. *)
Definition new_stream (b : Z) (params : PrefetcherParams) (L k cycle type : Z) : PrefetchEntry :=
  let e := PrefetchEntry_ctor b ⟨ pe_stride := 1 ⟩ ⟨ pe_use_time := cycle ⟩ ⟨ pe_type := Some type ⟩ in
  let n := num_startup_pfs params in
  if forallb (may_prefetch b params L k) (seqZ 1 n)
  then e ⟨ pe_address := Some (L + (k + n) * 2 ^ b) ⟩ ⟨ pe_is_valid := true ⟩
  else e ⟨ pe_address := Some (L + k * 2 ^ b) ⟩ ⟨ pe_is_valid := false ⟩.

Section Training.
Context (b : Z) (params : PrefetcherParams) (L type : Z).
Abbreviation B := (2 ^ b).

Context (Hb : 0 <= b < 32).
Context (Hline : (B | L)) (Hpos : 0 < L).
Context (Hstreams : 0 < num_streams params).
Context (Hstartup : 0 <= num_startup_pfs params <= MAX_PF_INFLIGHT).
Context (Htrain : 0 < train_misses params < 2 ^ 32).
Context (Hunit : 0 < p_unit_filter params) (Hnonunit : 0 < p_nonunit_filter params).
Context (Hbound : L + (train_misses params + 1 + num_startup_pfs params) * B < 2 ^ 64).

Lemma B_pos : 0 < B.
Proof. apply Z.pow_pos_nonneg; lia. Qed.

Lemma line_of k : 0 <= k -> L + k * B < 2 ^ 64 -> makeLineAddress b (L + k * B) = L + k * B.
Proof.
  intros Hk Hlt. pose proof B_pos. destruct Hline as [q Hq]. unfold makeLineAddress. rewrite mbits_high by (unfold in_u64; nia || lia).
  replace (L + k * B) with ((q + k) * B) by lia. rewrite Z.mod_mul by lia. lia.
Qed.

Lemma next_line k : 0 <= k -> L + (k + 1) * B < 2 ^ 64 -> makeNextStrideAddress b B (L + k * B) 1 = L + (k + 1) * B.
Proof.
  intros Hk Hlt. pose proof B_pos. unfold makeNextStrideAddress. rewrite line_of by nia. rewrite Z.mul_1_r.
  assert (B < 2 ^ 32) by (apply Z.pow_lt_mono_r; lia). rewrite u32_id by (unfold in_u32; lia). rewrite u64_id by (unfold in_u64; nia). lia.
Qed.

(** ** Searches *)
Lemma find_head n x t test : 0 < n -> test x = true -> filter_find n (x :: t) test = Ok (Some 0).
Proof.
  intros Hn Hx. unfold filter_find, upto. rewrite seqZ_cons by done. cbn [foldM_brk]. change (vget (x :: t) 0) with (Ok x).
  rsimpl. by rewrite Hx.
Qed.

Lemma find_none n test : 0 <= n -> test 0 = false -> filter_find n (replicate (Z.to_nat n) 0) test = Ok None.
Proof.
  intros Hn Ht. unfold filter_find.
  destruct (foldM_brk_upto (fun _ i => x ← vget (replicate (Z.to_nat n) 0) i; Ok (test x, i)) (fun _ _ => True) (fun _ _ => False) n 0)
    as (r & s & -> & Hr); [done | done | |].
  - intros i s Hi _. rewrite (proj2 (vget_Ok _ i 0)) by (split; [lia |]; apply lookup_replicate_2; lia). rsimpl. exists false, i. by rewrite Ht.
  - rsimpl. destruct r; [by destruct Hr as (? & _ & []) | done].
Qed.

(** No stream is valid yet. *)
Definition idle (p : RubyPrefetcher) : Prop :=
  m_array p = replicate (Z.to_nat (num_streams params)) (PrefetchEntry_ctor b) /\ m_num_streams p = num_streams params.

Lemma idle_get p i : idle p -> 0 <= i < num_streams params -> vget (m_array p) i = Ok (PrefetchEntry_ctor b).
Proof. intros [-> _] Hi. apply vget_Ok. split; [lia |]. apply lookup_replicate_2. lia. Qed.

Lemma idle_no_entry p a : idle p -> getPrefetchEntry b B p a = Ok None.
Proof.
  intros Hi. unfold getPrefetchEntry. rewrite (proj2 Hi).
  destruct (foldM_brk_upto (fun _ i => e ← vget (m_array p) i; r ← entry_matches b B p e a; Ok (r, i)) (fun _ _ => True) (fun _ _ => False)
    (num_streams params) 0) as (r & s & -> & Hr); [lia | done | |].
  - intros i s Hr _. rewrite (idle_get p i Hi Hr). rsimpl. by exists false, i.
  - rsimpl. destruct r; [by destruct Hr as (? & _ & []) | done].
Qed.

Lemma idle_lru p : idle p -> getLRUindex p = Ok 0.
Proof.
  intros Hi. unfold getLRUindex, upto. rewrite (idle_get p 0 Hi) by lia. rsimpl. rewrite (proj2 Hi), seqZ_cons by done.
  cbn [foldM_brk]. unfold lru_step. by rewrite (idle_get p 0 Hi) by lia.
Qed.

(** ** The state after [k] misses *)
Record trained (k : Z) (p : RubyPrefetcher) : Prop := {
  t_idle : idle p;
  t_train : m_train_misses p = train_misses params;
  t_startup : m_num_startup_pfs p = num_startup_pfs params;
  t_units : m_num_unit_filters p = p_unit_filter params;
  t_page : m_page_shift p = page_shift params;
  t_cross : m_prefetch_cross_pages p = cross_page params;
  t_table : exists t, uf_table (m_unit_filter p) = (L + k * B) :: t;
  t_hits : exists h, uf_hit (m_unit_filter p) = (k - 1) :: h
}.

Lemma nonunit_new p a :
  m_nonunit_filter p = replicate (Z.to_nat (p_nonunit_filter params)) 0 ->
  m_nonunit_stride p = replicate (Z.to_nat (p_nonunit_filter params)) 0 ->
  m_nonunit_hit p = replicate (Z.to_nat (p_nonunit_filter params)) 0 ->
  m_num_nonunit_filters p = p_nonunit_filter params -> m_nonunit_index p = 0 ->
  exists p' hit, accessNonunitFilter b B p a = Ok (p', (hit, false, 0)) /\
    (forall k, trained k p -> trained k p').
Proof.
  intros Hf Hs Hh Hn Hi. unfold accessNonunitFilter. rewrite Hf, Hs, Hh, Hn, Hi.
  destruct (Z.to_nat (p_nonunit_filter params)) as [|n] eqn:En; [lia |].
  destruct (pageAddress p 0 =? pageAddress p a) eqn:E.
  - rewrite !(eq_refl : replicate (S n) 0 = 0 :: replicate n 0) in *. rewrite find_head by done. rsimpl.
    change (vget (0 :: replicate n 0) 0) with (Ok 0). rsimpl.
    destruct (negb _) eqn:Ed; [| eexists _, _; split; [done | by intros]].
    apply negb_true_iff in Ed. rewrite Ed. change (vset (0 :: replicate n 0) 0 0) with (Ok (0 :: replicate n 0)). rsimpl.
    cbn [setf m_nonunit_stride m_nonunit_filter]. rewrite Hs, Hf, !vset_val by (cbn [length]; lia). rsimpl.
    eexists _, true. split; [done |]. intros k []. by split.
  - rewrite <- En, find_none by (done || lia). rsimpl. rewrite !vset_val by (rewrite length_replicate; lia). rsimpl.
    eexists _, false. split; [done |]. intros k []. by split.
Qed.

Lemma maybe_none p c a stride t : maybe_stream b B p false c a stride t = Ok (p, []).
Proof. done. Qed.

(** A line that is not in a new filter enters it at position 0. *)
Lemma unit_new p a stride :
  m_num_unit_filters p = p_unit_filter params -> makeLineAddress b a = a -> a <> 0 ->
  exists f, accessUnitFilter b B p (new_filter (p_unit_filter params)) a stride = Ok (f, (false, false)) /\
    (exists t, uf_table f = makeNextStrideAddress b B a stride :: t) /\ exists h, uf_hit f = 0 :: h.
Proof.
  intros Hn Ha Hne. unfold accessUnitFilter. cbn [new_filter uf_table uf_hit uf_index]. rewrite Hn, Ha, find_none by (lia || (apply Z.eqb_neq; lia)).
  rsimpl. rewrite !vset_val by (rewrite length_replicate; lia). rsimpl. eexists. split; [done |]. cbn [uf_table uf_hit].
  destruct (Z.to_nat (p_unit_filter params)) as [|n] eqn:En; [lia |]. split; by eexists.
Qed.

Lemma first_miss cycle p0 :
  RubyPrefetcher_ctor b params = Ok p0 -> exists p, observeMiss b B p0 cycle (L + 0 * B) type = Ok (p, []) /\ trained 1 p.
Proof.
  intros H. unfold RubyPrefetcher_ctor in H. inv_res. subst p0. set (p0 := {| m_num_streams := _ |}).
  pose proof B_pos. assert (HL : L + 0 * B < 2 ^ 64) by nia. assert (HL1 : L + (0 + 1) * B < 2 ^ 64) by nia.
  unfold observeMiss. rewrite line_of by (done || lia). rewrite (idle_no_entry p0) by done. rsimpl.
  destruct (unit_new p0 (L + 0 * B) 1) as (f & Hf & [t Ht] & [h Hh]); [done | by apply line_of | lia |].
  change (m_unit_filter p0) with (new_filter (p_unit_filter params)). rewrite Hf. rsimpl. rewrite maybe_none. rsimpl.
  set (p1 := setf m_unit_filter _ p0). destruct (unit_new p1 (L + 0 * B) (-1)) as (g & Hg & _); [done | by apply line_of | lia |].
  change (m_negative_filter p1) with (new_filter (p_unit_filter params)). rewrite Hg. rsimpl. rewrite maybe_none. rsimpl.
  match goal with |- context [accessNonunitFilter b B ?q _] => set (p2 := q) end.
  destruct (nonunit_new p2 (L + 0 * B)) as (p3 & hit & -> & Hk); try done. rsimpl. exists p3. split; [done |]. apply Hk.
  rewrite next_line in Ht by (done || lia). split; try done; [by exists t | by exists h].
Qed.

(** A further miss of the sequence hits the entry at position 0. *)
Lemma unit_hit p f k t h :
  1 <= k <= train_misses params -> m_num_unit_filters p = p_unit_filter params -> m_train_misses p = train_misses params ->
  uf_table f = (L + k * B) :: t -> uf_hit f = (k - 1) :: h ->
  accessUnitFilter b B p f (L + k * B) 1 =
    Ok ({| uf_table := (L + (k + 1) * B) :: t; uf_hit := k :: h; uf_index := uf_index f |}, (true, train_misses params <=? k)).
Proof.
  intros Hk Hu Ht Htab Hhit. pose proof B_pos. assert (L + (k + 1) * B < 2 ^ 64) by nia. assert (L + k * B < 2 ^ 64) by nia.
  assert (Hins : forall (x y : Z) l, <[Z.to_nat 0 := x]> (y :: l) = x :: l) by done.
  unfold accessUnitFilter, vupd. rewrite line_of by lia. rewrite Hu, Htab, Hhit, find_head by (lia || apply Z.eqb_refl). rsimpl.
  change (vget ((L + k * B) :: t) 0) with (Ok (L + k * B)). change (vget (k - 1 :: h) 0) with (Ok (k - 1)). rsimpl.
  rewrite !vset_val by (cbn [length]; lia). rsimpl. rewrite !Hins, next_line by lia. replace (u32 (k - 1 + 1)) with k.
  - change (vget (k :: h) 0) with (Ok k). rsimpl. by rewrite Ht.
  - rewrite u32_id by (unfold in_u32; lia). lia.
Qed.

Lemma next_miss cycle k p :
  1 <= k <= train_misses params -> trained k p ->
  exists p1, trained (k + 1) p1 /\
    observeMiss b B p cycle (L + k * B) type = maybe_stream b B p1 (train_misses params <=? k) cycle (L + k * B) 1 type.
Proof.
  intros Hk [Hi Ht Hs Hu Hp Hc [t Htab] [h Hhit]]. pose proof B_pos. assert (L + k * B < 2 ^ 64) by nia.
  unfold observeMiss. rewrite line_of by lia. rewrite idle_no_entry by done. rsimpl.
  rewrite (unit_hit p _ k t h) by done. rsimpl. set (p1 := setf m_unit_filter _ p). exists p1. split.
  - split; try done; [by exists t |]. exists h. cbn [p1 setf m_unit_filter uf_hit]. f_equal. lia.
  - by destruct (maybe_stream _ _ _ _ _ _ _ _) as [[q ev]|].
Qed.

(** The start-up prefetches, as far as the page lets them through. *)
Lemma startup_lines p k0 k n :
  0 <= k -> k0 <= k -> L + (k + Z.of_nat n) * B < 2 ^ 64 ->
  m_page_shift p = page_shift params -> m_prefetch_cross_pages p = cross_page params ->
  let js := seqZ (k - k0 + 1) (Z.of_nat n) in
  startup b B p (pageAddress p (L + k0 * B)) (L + k * B) 1 type n =
    (if forallb (may_prefetch b params L k0) js then Some (L + (k + Z.of_nat n) * B) else None,
     map (fun j => {| pf_line := L + (k0 + j) * B; pf_type := type |}) (leading (may_prefetch b params L k0) js)).
Proof.
  revert k. induction n as [|n IH]; intros k Hk Hk0 Hlt Hps Hc js; subst js.
  { cbn. by rewrite Z.add_0_r. }
  pose proof B_pos. cbn [startup]. rewrite next_line by nia. rewrite seqZ_cons by lia. cbn [forallb leading].
  replace (Z.pred (Z.of_nat (S n))) with (Z.of_nat n) by lia. set (j := k - k0 + 1). change (Z.succ j) with (j + 1).
  assert (negb (pageAddress p (L + k0 * B) =? pageAddress p (L + (k + 1) * B)) && negb (m_prefetch_cross_pages p) =
    negb (may_prefetch b params L k0 j)) as ->.
  { unfold may_prefetch, pageAddress. rewrite Hps, Hc. replace (k0 + j) with (k + 1) by (unfold j; lia).
    by rewrite negb_orb, andb_comm. }
  destruct (may_prefetch b params L k0 j); cbn [negb andb]; [| done].
  rewrite IH by (done || lia || nia). cbn [fst snd map]. replace (k + 1 - k0 + 1) with (j + 1) by (unfold j; lia).
  replace (k + 1 + Z.of_nat n) with (k + Z.of_nat (S n)) by lia. replace (k0 + j) with (k + 1) by (unfold j; lia). done.
Qed.

Lemma run_misses cyc k p :
  1 <= k -> trained k p ->
  forall n, k + Z.of_nat n <= train_misses params -> exists p', trained (k + Z.of_nat n) p' /\
    pf_run b B p (map (fun i => Miss (cyc i) (L + i * B) type) (seqZ k (Z.of_nat n))) = Ok (p', replicate n []).
Proof.
  intros Hk Hp n. revert k p Hk Hp. induction n as [|n IH]; intros k p Hk Hp Hn.
  - exists p. split; [by rewrite Z.add_0_r | done].
  - rewrite seqZ_cons by lia. cbn [map pf_run pf_step]. destruct (next_miss (cyc k) k p) as (p1 & Hp1 & ->); [lia | done |].
    rewrite (proj2 (Z.leb_gt _ _)), maybe_none by lia. rsimpl. destruct (IH (k + 1) p1) as (p' & Hp' & Hrun); [lia | done | lia |].
    exists p'. split; [by replace (k + Z.of_nat (S n)) with (k + 1 + Z.of_nat n) by lia |].
    replace (Z.pred (Z.of_nat (S n))) with (Z.of_nat n) by lia. change (Z.succ k) with (k + 1). by rewrite Hrun.
Qed.

Lemma pf_run_app p l1 l2 p1 ev1 p2 ev2 :
  pf_run b B p l1 = Ok (p1, ev1) -> pf_run b B p1 l2 = Ok (p2, ev2) -> pf_run b B p (l1 ++ l2) = Ok (p2, ev1 ++ ev2).
Proof.
  revert p ev1. induction l1 as [|o l1 IH]; intros p ev1 H1 H2; cbn [pf_run app] in *; [by injection H1 as <- <- |].
  apply res_bind_Ok_inv in H1 as ([q e] & -> & H1). rsimpl in *. apply res_bind_Ok_inv in H1 as ([q' e'] & H1 & H). injection H as <- <-.
  by rewrite (IH _ _ H1 H2).
Qed.

(** The last miss sets up stream 0. *)
Lemma last_miss cycle p :
  let k := train_misses params in
  trained k p ->
  exists p', observeMiss b B p cycle (L + k * B) type =
    Ok (p', map (fun j => {| pf_line := L + (k + j) * B; pf_type := type |})
              (leading (may_prefetch b params L k) (seqZ 1 (num_startup_pfs params)))) /\
    m_array p' = <[0%nat := new_stream b params L k cycle type]> (replicate (Z.to_nat (num_streams params)) (PrefetchEntry_ctor b)).
Proof.
  intros k Hp. pose proof B_pos. destruct (next_miss cycle k p) as (p1 & Hp1 & ->); [unfold k; lia | done |].
  unfold k at 1. rewrite Z.leb_refl. unfold maybe_stream. destruct Hp1 as [Hi Ht Hs Hu Hps Hc _ _]. rewrite idle_lru by done. rsimpl.
  unfold initializeStream. rewrite (idle_get p1 0 Hi) by lia. rsimpl. rewrite !line_of by (unfold k; nia).
  rewrite vset_val by (rewrite (proj1 Hi), length_replicate; lia). rsimpl. rewrite Hs, startup_lines by (done || (unfold k; nia)).
  rewrite Z2Nat.id, Z.sub_diag by lia. change (0 + 1) with 1. cbn [fst snd]. eexists. split; [done |].
  cbn [setf m_array]. rewrite (proj1 Hi). change (Z.to_nat 0) with 0%nat. f_equal. unfold new_stream. by destruct (forallb _ _).
Qed.
End Training.

(** C33. An ascending sequence of misses is recognised: from a new
    prefetcher, misses of [train_misses + 1] consecutive lines above line 0, at
    any times, make no prefetch until the last.  The last prefetches the next
    [num_startup_pfs] lines, up to the first that is in another page unless
    [cross_page] is on, and sets up stream 0 and no other: stride 1, the type
    and time of the miss, valid and standing at the last line prefetched, or
    given up if a page boundary stopped the prefetches. *)
Theorem ascending_misses_train_stream (b : Z) (params : PrefetcherParams) (L type : Z) (cyc : Z -> Z) :
  0 <= b < 32 -> (2 ^ b | L) -> 0 < L ->
  0 < num_streams params -> 0 <= num_startup_pfs params <= MAX_PF_INFLIGHT -> 0 < train_misses params < 2 ^ 32 ->
  0 < p_unit_filter params -> 0 < p_nonunit_filter params ->
  L + (train_misses params + 1 + num_startup_pfs params) * 2 ^ b < 2 ^ 64 ->
  let k := train_misses params in
  exists p p', RubyPrefetcher_ctor b params = Ok p /\
    pf_run b (2 ^ b) p (map (fun i => Miss (cyc i) (L + i * 2 ^ b) type) (seqZ 0 (k + 1))) =
    Ok (p', replicate (Z.to_nat k) [] ++
            [map (fun j => {| pf_line := L + (k + j) * 2 ^ b; pf_type := type |})
               (leading (may_prefetch b params L k) (seqZ 1 (num_startup_pfs params)))]) /\
    m_array p' = <[0%nat := new_stream b params L k (cyc k) type]> (replicate (Z.to_nat (num_streams params)) (PrefetchEntry_ctor b)).
Proof.
  intros Hb Hl Hpos Hst Hsu Htr Hu Hn Hbd k.
  assert (exists p0, RubyPrefetcher_ctor b params = Ok p0) as [p0 Hp0].
  { unfold RubyPrefetcher_ctor. rewrite (proj2 (Z.ltb_lt _ _)), (proj2 (Z.leb_le _ _)) by lia. by eexists. }
  exists p0. destruct (first_miss b params L type Hb Hl Hpos Hst Hsu Htr Hu Hn Hbd (cyc 0) p0 Hp0) as (p1 & H1 & T1).
  set (n := Z.to_nat (train_misses params - 1)).
  destruct (run_misses b params L type Hb Hl Hpos Hst Hsu Htr Hu Hbd cyc 1 p1 ltac:(lia) T1 n ltac:(lia)) as (p2 & T2 & H2).
  replace (1 + Z.of_nat n) with (train_misses params) in T2 by lia.
  destruct (last_miss b params L type Hb Hl Hpos Hst Hsu Htr Hu Hbd (cyc (train_misses params)) p2 T2) as (p3 & H3 & HA).
  exists p3. split; [done |]. split; [| exact HA]. unfold k. set (miss := fun i => Miss (cyc i) (L + i * 2 ^ b) type).
  replace (seqZ 0 (train_misses params + 1)) with ([0] ++ seqZ 1 (Z.of_nat n) ++ [train_misses params]).
  - rewrite !map_app. replace (Z.to_nat (train_misses params)) with (S n) by lia. change (replicate (S n) ?x) with (x :: replicate n x).
    change ((?x :: ?l) ++ ?k) with ([x] ++ (l ++ k)). apply (pf_run_app b p0 _ _ p1); [cbn [map pf_run pf_step miss]; by rewrite H1 |].
    apply (pf_run_app b p1 _ _ p2); [exact H2 |]. cbn [map pf_run pf_step miss]. by rewrite H3.
  - pose proof (seqZ_app 0 1 (Z.of_nat n)) as Ha. pose proof (upto_succ (train_misses params)) as Hs. unfold upto in Hs.
    rewrite Hs by lia. replace (train_misses params) with (1 + Z.of_nat n) at 2 by lia. rewrite Ha by lia. by rewrite <- app_assoc.
Qed.

Lemma ascending_misses_train_stream_witness :
  exists p p', RubyPrefetcher_ctor 6 default_params = Ok p /\
    pf_run 6 (2 ^ 6) p (map (fun i => Miss (10 * i) (4096 + i * 2 ^ 6) 0) (seqZ 0 (4 + 1))) =
    Ok (p', replicate 4 [] ++ [[{| pf_line := 4416; pf_type := 0 |}]]) /\
    m_array p' !! 0%nat = Some ((PrefetchEntry_ctor 6) ⟨ pe_address := Some 4416 ⟩ ⟨ pe_stride := 1 ⟩ ⟨ pe_use_time := 40 ⟩
      ⟨ pe_is_valid := true ⟩ ⟨ pe_type := Some 0 ⟩).
Proof.
  destruct (ascending_misses_train_stream 6 default_params 4096 0 (fun i => 10 * i)) as (p & p' & Hc & Hr & Ha);
    [lia | by exists 64 | lia | by cbn | cbn; unfold MAX_PF_INFLIGHT; lia | by cbn | by cbn | by cbn | by cbn |].
  exists p, p'. split; [exact Hc |]. split; [exact Hr |]. rewrite Ha. vm_compute. reflexivity.
Defined.
