(* ===== verification/DmaSequencer.v ===== *)
(** * The DMA sequencer

    Models [mem/ruby/system/DMASequencer.{hh,cc}]: the port of a device into the
    coherence protocol.  A request of any length is cut into one Ruby request per
    line, one after the other; a read fills the data of its packet chunk by
    chunk.  The controllers call back with the line of each response, while the
    request is filed under its first line: the theorem shows what that means for
    requests inside one line and for longer ones.

    The data pointer of a request is the data of its packet, so the model keeps
    it in the packet ([None] is the null pointer).  The environment of an
    operation is that of Sequencer.v. *)
From S2P Require Import Prelude Common StdHeap NetDest MessageBuffer BufferStore Replacement CacheMemory DataBlock Sequencer SequencerProofs.

Record DmaPacket := {
  dp_id : Z;
  dp_addr : Z;
  dp_size : Z;
  dp_write : bool;
  dp_data : option (list Z)
}.

#[export] Instance DmaPacket_eta : Eta DmaPacket := {| eta := fun p =>
  {| dp_id := dp_id p; dp_addr := dp_addr p; dp_size := dp_size p; dp_write := dp_write p; dp_data := dp_data p |} |}.

Record DMARequest := {
  start_paddr : Z;
  dma_len : Z;
  dma_write : bool;
  bytes_completed : Z;
  bytes_issued : Z;
  dma_pkt : DmaPacket
}.

#[export] Instance DMARequest_eta : Eta DMARequest := {| eta := fun r =>
  {| start_paddr := start_paddr r; dma_len := dma_len r; dma_write := dma_write r; bytes_completed := bytes_completed r;
     bytes_issued := bytes_issued r; dma_pkt := dma_pkt r |} |}.

(** The fields of a [SequencerMsg] the DMA sequencer fills; [Type] is [ST] for
    a write and [LD] for a read. *)
Record SequencerMsg := {
  sm_PhysicalAddress : Z;
  sm_LineAddress : Z;
  sm_write : bool;
  sm_Len : Z;
  sm_DataBlk : datablock
}.

Inductive dma_event :=
  | DmaIssue (m : SequencerMsg)
  | DmaQueue (ev : mb_event)
  | DmaRespond (p : DmaPacket).

Record DMASequencer := {
  m_data_block_mask : Z;
  dma_RequestTable : gmap Z DMARequest;
  dma_outstanding_count : Z;
  dma_max_outstanding_requests : Z;
  dma_mandatory_q : MessageBuffer;
  dma_draws : nat
}.

#[export] Instance DMASequencer_eta : Eta DMASequencer := {| eta := fun s =>
  {| m_data_block_mask := m_data_block_mask s; dma_RequestTable := dma_RequestTable s;
     dma_outstanding_count := dma_outstanding_count s; dma_max_outstanding_requests := dma_max_outstanding_requests s;
     dma_mandatory_q := dma_mandatory_q s; dma_draws := dma_draws s |} |}.

(** The first [n] bytes behind a data pointer, from [from] on. *)
Definition data_at (data : option (list Z)) (from n : Z) : res (list Z) :=
  match data with None => Err EUninit | Some l => bytes_at l from n end.

Section Dma.
Context (e : sq_env).

(** The constructor and [init]. *)
Definition DMASequencer_init (max_outstanding_requests : Z) (mandatory_q : MessageBuffer) : DMASequencer :=
  {| m_data_block_mask := mask (sq_block_bits e); dma_RequestTable := ∅; dma_outstanding_count := 0;
     dma_max_outstanding_requests := max_outstanding_requests; dma_mandatory_q := mandatory_q; dma_draws := 0 |}.

(** [m_mandatory_q_ptr->enqueue(msg, clockEdge(), cyclesToTicks(Cycles(1)))]. *)
Definition dma_send (s : DMASequencer) (msg : SequencerMsg) : res (DMASequencer * list dma_event) :=
  let m := Message_ctor (sq_clockEdge e) [] Request_Control (sm_PhysicalAddress msg) in
  r ← enqueue (sq_ruby e) (sq_draw e (dma_draws s)) (dma_mandatory_q s) m (sq_clockEdge e) (u64 (sq_period e * 1));
  Ok (s ⟨ dma_mandatory_q := r.1 ⟩ ⟨ dma_draws := S (dma_draws s) ⟩, DmaIssue msg :: (DmaQueue <$> r.2)).

Definition dma_makeRequest (s : DMASequencer) (p : DmaPacket) : res (RequestStatus * DMASequencer * list dma_event) :=
  if dma_outstanding_count s =? dma_max_outstanding_requests s then Ok (RequestStatus_BufferFull, s, [])
  else
    let paddr := dp_addr p in
    let len := i32 (dp_size p) in
    _ ← cassert (dma_outstanding_count s <? dma_max_outstanding_requests s);
    let line_addr := makeLineAddress (sq_block_bits e) paddr in
    match dma_RequestTable s !! line_addr with
    | Some _ => Ok (RequestStatus_Aliased, s, [])
    | None =>
        let offset := i32 (Z.land paddr (m_data_block_mask s)) in
        let n := if offset + len <=? sq_block_size e then len else i32 (sq_block_size e - offset) in
        blk ← match dp_data p with
              | Some _ => if dp_write p
                          then bytes ← data_at (dp_data p) 0 n; setData (sq_block_size e) (DataBlock_alloc (sq_block_size e)) bytes offset
                          else Ok (DataBlock_alloc (sq_block_size e))
              | None => Ok (DataBlock_alloc (sq_block_size e))
              end;
        let req := {| start_paddr := paddr; dma_len := len; dma_write := dp_write p; bytes_completed := 0; bytes_issued := n; dma_pkt := p |} in
        let s := s ⟨ dma_RequestTable := <[line_addr := req]> (dma_RequestTable s) ⟩
                   ⟨ dma_outstanding_count := dma_outstanding_count s + 1 ⟩ in
        r ← dma_send s {| sm_PhysicalAddress := paddr; sm_LineAddress := line_addr; sm_write := dp_write p; sm_Len := n; sm_DataBlk := blk |};
        Ok (RequestStatus_Issued, r.1, r.2)
    end.

Definition issueNext (s : DMASequencer) (address : Z) : res (DMASequencer * list dma_event) :=
  match dma_RequestTable s !! address with
  | None => Err EAssert
  | Some req =>
      _ ← cassert (dma_outstanding_count s <=? dma_max_outstanding_requests s);
      let req := req ⟨ bytes_completed := bytes_issued req ⟩ in
      if dma_len req =? bytes_completed req then
        Ok (s ⟨ dma_outstanding_count := dma_outstanding_count s - 1 ⟩ ⟨ dma_RequestTable := delete address (dma_RequestTable s) ⟩,
            [DmaRespond (dma_pkt req)])
      else
        let paddr := u64 (start_paddr req + bytes_completed req) in
        _ ← cassert (Z.land paddr (m_data_block_mask s) =? 0);
        let left := i32 (dma_len req - bytes_completed req) in
        let n := if left <? sq_block_size e then left else i32 (sq_block_size e) in
        blk ← (if dma_write req
               then bytes ← data_at (dp_data (dma_pkt req)) (bytes_completed req) n;
                    setData (sq_block_size e) (DataBlock_alloc (sq_block_size e)) bytes 0
               else Ok (DataBlock_alloc (sq_block_size e)));
        let req := req ⟨ bytes_issued := i32 (bytes_issued req + n) ⟩ in
        dma_send (s ⟨ dma_RequestTable := <[address := req]> (dma_RequestTable s) ⟩)
          {| sm_PhysicalAddress := paddr; sm_LineAddress := makeLineAddress (sq_block_bits e) paddr; sm_write := dma_write req;
             sm_Len := n; sm_DataBlk := blk |}
  end.

Definition dataCallback (s : DMASequencer) (dblk : datablock) (address : Z) : res (DMASequencer * list dma_event) :=
  match dma_RequestTable s !! address with
  | None => Err EAssert
  | Some req =>
      let len := i32 (bytes_issued req - bytes_completed req) in
      let offset := if bytes_completed req =? 0 then i32 (Z.land (start_paddr req) (m_data_block_mask s)) else 0 in
      _ ← cassert (negb (dma_write req));
      req ← match dp_data (dma_pkt req) with
            | None => Ok req
            | Some data =>
                bytes ← getData (sq_block_size e) dblk offset len;
                data ← copy_bytes data (bytes_completed req) bytes;
                Ok (req ⟨ dma_pkt := dma_pkt req ⟨ dp_data := Some data ⟩ ⟩)
            end;
      issueNext (s ⟨ dma_RequestTable := <[address := req]> (dma_RequestTable s) ⟩) address
  end.

Definition ackCallback (s : DMASequencer) (address : Z) : res (DMASequencer * list dma_event) :=
  _ ← cassert (bool_decide (is_Some (dma_RequestTable s !! address)));
  issueNext s address.

Definition dma_busy (s : DMASequencer) : bool := 0 <? dma_outstanding_count s.
End Dma.

(** ** A transfer

    [mem] is the memory; a read is answered with the line it asks for.
    [address] is the line the callback names.  The controllers of the protocols
    ([*-dma.sm]) name the line of the Ruby request they answer ([dma_answer]);
    the request table only knows the line a request was made for, so
    [dma_drive] answers the Ruby requests of a transfer one by one naming that
    line, at times and with random draws given by [es]. *)

Definition mem_bytes (mem : Z -> Z) (a n : Z) : list Z := mem <$> seqZ a n.

Definition dma_serve (e : sq_env) (mem : Z -> Z) (s : DMASequencer) (address : Z) (msg : SequencerMsg)
    : res (DMASequencer * list dma_event) :=
  if sm_write msg then ackCallback e s address
  else dataCallback e s (mem_bytes mem (sm_LineAddress msg) (sq_block_size e)) address.

Definition dma_answer (e : sq_env) (mem : Z -> Z) (s : DMASequencer) (msg : SequencerMsg) : res (DMASequencer * list dma_event) :=
  dma_serve e mem s (sm_LineAddress msg) msg.

Fixpoint dma_drive (es : nat -> sq_env) (mem : Z -> Z) (fuel k : nat) (s : DMASequencer) (address : Z) (msg : SequencerMsg)
    : res (DMASequencer * list SequencerMsg * DmaPacket) :=
  match fuel with
  | O => Err EFuel
  | S fuel =>
      r ← dma_serve (es k) mem s address msg;
      match r.2 with
      | DmaIssue m :: _ => x ← dma_drive es mem fuel (S k) r.1 address m; Ok (x.1.1, msg :: x.1.2, x.2)
      | DmaRespond p :: _ => Ok (r.1, [msg], p)
      | _ => Err EFuel
      end
  end.

(** The messages cover [n] bytes from [a] on, in order, each inside one line. *)
Fixpoint covers (bs a n : Z) (msgs : list SequencerMsg) : Prop :=
  match msgs with
  | [] => n = 0
  | m :: msgs => sm_PhysicalAddress m = a /\ sm_LineAddress m = a - a mod bs /\ 0 < sm_Len m /\ a mod bs + sm_Len m <= bs /\
                 covers bs (a + sm_Len m) (n - sm_Len m) msgs
  end.

(** The bytes a message carries. *)
Definition chunk_data (bs : Z) (m : SequencerMsg) : list Z :=
  take (Z.to_nat (sm_Len m)) (drop (Z.to_nat (sm_PhysicalAddress m mod bs)) (sm_DataBlk m)).

Lemma mem_bytes_app mem a n m : 0 <= n -> 0 <= m -> mem_bytes mem a (n + m) = mem_bytes mem a n ++ mem_bytes mem (a + n) m.
Proof. intros Hn Hm. unfold mem_bytes. by rewrite seqZ_app, fmap_app by lia. Qed.

Lemma mem_bytes_length mem a n : length (mem_bytes mem a n) = Z.to_nat n.
Proof. unfold mem_bytes. by rewrite length_fmap, length_seqZ. Qed.

Lemma slice_mem mem a n o l :
  0 <= o -> 0 <= l -> o + l <= n -> bytes_at (mem_bytes mem a n) o l = Ok (mem_bytes mem (a + o) l).
Proof.
  intros Ho Hl Hn. unfold bytes_at. rewrite mem_bytes_length, decide_True by lia. f_equal.
  replace n with (o + (l + (n - o - l))) by lia. rewrite (mem_bytes_app mem a o), (mem_bytes_app mem (a + o) l) by lia.
  rewrite drop_app_length' by (by rewrite mem_bytes_length). by rewrite take_app_length' by (by rewrite mem_bytes_length).
Qed.

(** A block with [bytes] stored at [o]. *)
Lemma store_block bs bytes o :
  0 <= o -> o + Z.of_nat (length bytes) <= bs ->
  exists d, setData bs (DataBlock_alloc bs) bytes o = Ok d /\ take (length bytes) (drop (Z.to_nat o) d) = bytes.
Proof.
  intros Ho Hl. unfold setData. rewrite (proj2 (Z.leb_le _ _) Hl). rsimpl. unfold copy_bytes, DataBlock_alloc.
  rewrite length_replicate, decide_True by lia. eexists. split; [reflexivity |].
  rewrite drop_app_length' by (rewrite length_take, length_replicate; lia). by rewrite take_app_length.
Qed.

Section Transfer.
Context (bits : Z) (es : nat -> sq_env) (mem : Z -> Z).
Notation bs := (2 ^ bits).

Definition dma_arrival (e : sq_env) : Z := sq_clockEdge e + sq_period e.

Record dma_env_ok (e : sq_env) : Prop := {
  de_bits : sq_block_bits e = bits;
  de_size : sq_block_size e = bs;
  de_ruby : getRandomization (sq_ruby e) = false;
  de_time : 0 <= sq_clockEdge e /\ 0 < sq_period e /\ dma_arrival e < 2 ^ 64
}.

Context (Hbits : 0 < bits < 31) (Hes : forall k, dma_env_ok (es k)).
Context (Hmono : forall k, dma_arrival (es k) <= dma_arrival (es (S k))).

Lemma send_ok k s msg : can_receive (dma_arrival (es k)) (dma_mandatory_q s) ->
  exists s' evs, dma_send (es k) s msg = Ok (s', DmaIssue msg :: evs) /\ can_receive (dma_arrival (es (S k))) (dma_mandatory_q s') /\
    dma_RequestTable s' = dma_RequestTable s /\ dma_outstanding_count s' = dma_outstanding_count s /\
    dma_max_outstanding_requests s' = dma_max_outstanding_requests s /\ m_data_block_mask s' = m_data_block_mask s.
Proof.
  intros Hq. destruct (Hes k) as [_ _ Hr (Ht & Hp & Ha)]. unfold dma_send. rewrite Z.mul_1_r.
  rewrite (u64_id (sq_period (es k))) by (unfold in_u64, dma_arrival in *; lia).
  destruct (enqueue_ok (sq_ruby (es k)) (sq_draw (es k) (dma_draws s)) (dma_mandatory_q s)
    (Message_ctor (sq_clockEdge (es k)) [] Request_Control (sm_PhysicalAddress msg)) (sq_clockEdge (es k)) (sq_period (es k)) Hr Ht Hp Ha Hq)
    as (b' & m' & -> & Hputs & _); [cbn; lia |].
  rsimpl. eexists _, _. split; [reflexivity |]. split; [| done]. cbn.
  pose proof (puts_can_receive m' _ _ _ _ Hputs (Z.le_refl _) Hq) as (H1 & H2 & H3). split_and!; [done | done |].
  intros Hs. specialize (H3 Hs). specialize (Hmono k). unfold dma_arrival in *. lia.
Qed.

Lemma mask_mod x : 0 <= x -> Z.land x (mask bits) = x mod bs.
Proof. intros Hx. rewrite mask_ones, Z.land_ones by lia. done. Qed.

Lemma line_mod x : in_u64 x -> makeLineAddress bits x = x - x mod bs.
Proof. intros Hx. apply mbits_high; [lia | done]. Qed.

Lemma bs_bounds : 0 < bs <= 2 ^ 30.
Proof. split; [lia |]. apply Z.pow_le_mono_r; lia. Qed.

(** A request of packet [p] with [c] bytes done and [i] asked for; [msg] asks
    for the bytes between. *)
Definition request_of (p : DmaPacket) (c i : Z) (d : list Z) : DMARequest :=
  {| start_paddr := dp_addr p; dma_len := dp_size p; dma_write := dp_write p; bytes_completed := c; bytes_issued := i;
     dma_pkt := p ⟨ dp_data := Some d ⟩ |}.

Record dma_packet_fits (p : DmaPacket) : Prop := {
  pf_addr : 0 <= dp_addr p /\ dp_addr p + dp_size p <= 2 ^ 64;
  pf_size : 0 < dp_size p /\ dp_size p + bs < 2 ^ 31
}.

Record chunk (p : DmaPacket) (c i : Z) : Prop := {
  ck_range : 0 <= c < i /\ i <= dp_size p;
  ck_start : c = 0 \/ (dp_addr p + c) mod bs = 0;
  ck_end : i = dp_size p \/ (dp_addr p + i) mod bs = 0;
  ck_line : (dp_addr p + c) mod bs + (i - c) <= bs
}.

Record asks (p : DmaPacket) (c i : Z) (d : list Z) (msg : SequencerMsg) : Prop := {
  as_addr : sm_PhysicalAddress msg = dp_addr p + c;
  as_line : sm_LineAddress msg = dp_addr p + c - (dp_addr p + c) mod bs;
  as_write : sm_write msg = dp_write p;
  as_len : sm_Len msg = i - c;
  as_data : dp_write p = true -> chunk_data bs msg = take (Z.to_nat (i - c)) (drop (Z.to_nat c) d)
}.

Record serving (k : nat) (s : DMASequencer) (address : Z) (p : DmaPacket) (c i : Z) (d : list Z) : Prop := {
  sv_req : dma_RequestTable s !! address = Some (request_of p c i d);
  sv_count : dma_outstanding_count s <= dma_max_outstanding_requests s;
  sv_mask : m_data_block_mask s = mask bits;
  sv_queue : can_receive (dma_arrival (es k)) (dma_mandatory_q s);
  sv_data : Z.of_nat (length d) = dp_size p
}.

Lemma next_chunk p c i : dma_packet_fits p -> chunk p c i -> i < dp_size p ->
  chunk p i (i + if dp_size p - i <? bs then dp_size p - i else bs).
Proof.
  intros [Ha Hsz] [Hr Hst He Hl] Hi. pose proof bs_bounds as Hb. destruct He as [He|He]; [lia |].
  destruct (dp_size p - i <? bs) eqn:E; b2p; split; try lia.
  - right. replace (dp_addr p + (i + bs)) with (dp_addr p + i + 1 * bs) by lia. by rewrite Z.mod_add by lia.
Qed.

Ltac dma_fields := cbn [request_of setf start_paddr dma_len dma_write bytes_completed bytes_issued dma_pkt
  dp_id dp_addr dp_size dp_write dp_data dma_RequestTable dma_outstanding_count dma_max_outstanding_requests
  m_data_block_mask dma_mandatory_q dma_draws] in *.

(** The rest of a callback, after the data was copied. *)
Lemma issueNext_ok k s address p c i d :
  dma_packet_fits p -> chunk p c i -> serving k s address p c i d ->
  exists s' evs, issueNext (es k) s address = Ok (s', evs) /\
    ((i = dp_size p /\ evs = [DmaRespond (p ⟨ dp_data := Some d ⟩)] /\ dma_RequestTable s' = delete address (dma_RequestTable s) /\
      dma_outstanding_count s' = dma_outstanding_count s - 1) \/
     (exists i' m rest, i < dp_size p /\ evs = DmaIssue m :: rest /\ chunk p i i' /\ asks p i i' d m /\ serving (S k) s' address p i i' d /\
      delete address (dma_RequestTable s') = delete address (dma_RequestTable s) /\ dma_outstanding_count s' = dma_outstanding_count s)).
Proof.
  intros Hp Hc [Hreq Hcnt Hmask Hq Hd]. pose proof bs_bounds as Hb. pose proof Hp as [Ha Hsz]. pose proof Hc as [Hr Hst He Hl].
  unfold issueNext. rewrite Hreq, (proj2 (Z.leb_le _ _) Hcnt). rsimpl. dma_fields.
  destruct (dp_size p =? i) eqn:Ei; b2p.
  { eexists _, _. split; [reflexivity |]. left. by subst i. }
  pose proof (next_chunk p c i Hp Hc ltac:(lia)) as Hn. destruct He as [He|He]; [lia |].
  set (i' := i + _) in Hn. pose proof (ck_range _ _ _ Hn) as Hr'. pose proof (ck_line _ _ _ Hn) as Hl'.
  destruct (Hes k) as [Eb Es _ _]. rewrite Eb, Es, Hmask.
  rewrite (u64_id (dp_addr p + i)) by (unfold in_u64; lia). rewrite mask_mod by lia. rewrite He, Z.eqb_refl. rsimpl.
  rewrite (i32_id (dp_size p - i)) by (unfold in_i32; lia). rewrite (i32_id bs) by (unfold in_i32; lia).
  assert (Hlen : (if dp_size p - i <? bs then dp_size p - i else bs) = i' - i) by (unfold i'; lia). rewrite Hlen.
  rewrite (i32_id (i + (i' - i))) by (unfold in_i32; lia). rewrite line_mod by (unfold in_u64; lia).
  assert (exists blk, (if dp_write p then bytes ← data_at (Some d) i (i' - i); setData bs (DataBlock_alloc bs) bytes 0 else Ok (DataBlock_alloc bs)) = Ok blk /\
    (dp_write p = true -> take (Z.to_nat (i' - i)) (drop 0 blk) = take (Z.to_nat (i' - i)) (drop (Z.to_nat i) d))) as (blk & Hblk & Hbd).
  { destruct (dp_write p); [| by eexists]. cbn [data_at]. unfold bytes_at. rewrite decide_True by lia. rsimpl.
    set (bytes := take _ _). assert (Z.of_nat (length bytes) = i' - i) as Hlb by (unfold bytes; rewrite length_take, length_drop; lia).
    destruct (store_block bs bytes 0) as (blk & Hset & Htk); [lia | lia |]. exists blk. split; [exact Hset |]. intros _.
    rewrite <- Htk. f_equal. lia. }
  rewrite Hblk. rsimpl.
  match goal with |- context [dma_send _ ?x ?m] => destruct (send_ok k x m Hq) as (s' & evs & -> & Hq' & Ht & Hcn & Hmx & Hmk) end.
  dma_fields. eexists _, _. split; [reflexivity |]. right. eexists i', _, evs. split; [lia |]. split; [reflexivity |].
  split; [done |]. split; [| split; [| split; [| exact Hcn]]].
  - split; cbn [sm_PhysicalAddress sm_LineAddress sm_write sm_Len]; try done. intros Hw. unfold chunk_data.
    cbn [sm_PhysicalAddress sm_Len sm_DataBlk]. rewrite He. by apply Hbd.
  - split; [rewrite Ht, lookup_insert_eq; replace (i + (i' - i)) with i' by lia; done | congruence | congruence | done | done].
  - by rewrite Ht, delete_insert_eq.
Qed.

(** A read callback: the bytes of the line are copied into the packet. *)
Lemma dataCallback_copies k s address p c i d :
  dma_packet_fits p -> chunk p c i -> serving k s address p c i d -> dp_write p = false -> take (Z.to_nat c) d = mem_bytes mem (dp_addr p) c ->
  exists s1 d1, dataCallback (es k) s (mem_bytes mem (dp_addr p + c - (dp_addr p + c) mod bs) bs) address = issueNext (es k) s1 address /\
    serving k s1 address p c i d1 /\ take (Z.to_nat i) d1 = mem_bytes mem (dp_addr p) i /\
    delete address (dma_RequestTable s1) = delete address (dma_RequestTable s) /\ dma_outstanding_count s1 = dma_outstanding_count s.
Proof.
  intros [Ha Hsz] [Hr Hst He Hl] [Hreq Hcnt Hmask Hq Hd] Hw Hpre. pose proof bs_bounds as Hb.
  destruct (Hes k) as [Eb Es _ _]. unfold dataCallback. rewrite Hreq, Hmask, Es. dma_fields. rewrite Hw. rsimpl.
  rewrite (i32_id (i - c)) by (unfold in_i32; lia).
  pose proof (Z.mod_pos_bound (dp_addr p + c) bs ltac:(lia)) as Hm.
  assert ((if c =? 0 then i32 (Z.land (dp_addr p) (mask bits)) else 0) = (dp_addr p + c) mod bs) as ->.
  { destruct (c =? 0) eqn:Ec; b2p.
    - subst c. rewrite Z.add_0_r in *. rewrite mask_mod by lia. apply i32_id. unfold in_i32. lia.
    - destruct Hst as [?|Hst]; [lia |]. by rewrite Hst. }
  unfold getData. rewrite (proj2 (Z.leb_le _ _) Hl). rsimpl. rewrite slice_mem by lia. rsimpl.
  replace (dp_addr p + c - (dp_addr p + c) mod bs + (dp_addr p + c) mod bs) with (dp_addr p + c) by lia.
  unfold copy_bytes. rewrite mem_bytes_length, decide_True by lia. rsimpl. eexists _, _. split; [reflexivity |].
  split; [| split; [| split; [dma_fields; apply delete_insert_eq | done]]].
  - split; dma_fields; [rewrite lookup_insert_eq; unfold request_of; dma_fields; reflexivity | done | done | done |].
    rewrite !length_app, length_take, length_drop, mem_bytes_length. lia.
  - rewrite Hpre, app_assoc, <- mem_bytes_app by lia. replace (c + (i - c)) with i by lia. apply take_app_length'. by rewrite mem_bytes_length.
Qed.

Lemma serve_ok k s address p c i d msg :
  dma_packet_fits p -> chunk p c i -> serving k s address p c i d -> asks p c i d msg ->
  (dp_write p = false -> take (Z.to_nat c) d = mem_bytes mem (dp_addr p) c) ->
  exists s1 d1, dma_serve (es k) mem s address msg = issueNext (es k) s1 address /\ serving k s1 address p c i d1 /\
    (dp_write p = true -> d1 = d) /\ (dp_write p = false -> take (Z.to_nat i) d1 = mem_bytes mem (dp_addr p) i) /\
    delete address (dma_RequestTable s1) = delete address (dma_RequestTable s) /\ dma_outstanding_count s1 = dma_outstanding_count s.
Proof.
  intros Hp Hc Hs Hm Hpre. unfold dma_serve. rewrite (as_write _ _ _ _ _ Hm). destruct (dp_write p) eqn:Hw.
  - exists s, d. unfold ackCallback. rewrite (sv_req _ _ _ _ _ _ _ Hs), bool_decide_eq_true_2 by done. by split_and!.
  - rewrite (as_line _ _ _ _ _ Hm), (de_size _ (Hes k)).
    destruct (dataCallback_copies k s address p c i d Hp Hc Hs Hw (Hpre eq_refl)) as (s1 & d1 & ? & ? & ? & ? & ?). exists s1, d1. by split_and!.
Qed.

Lemma drive_ok fuel : forall k s address p c i d msg,
  (Z.to_nat (dp_size p - c) <= fuel)%nat -> dma_packet_fits p -> chunk p c i -> serving k s address p c i d -> asks p c i d msg ->
  (dp_write p = false -> take (Z.to_nat c) d = mem_bytes mem (dp_addr p) c) ->
  exists s' msgs d', dma_drive es mem fuel k s address msg = Ok (s', msgs, p ⟨ dp_data := Some d' ⟩) /\
    covers bs (dp_addr p + c) (dp_size p - c) msgs /\
    (dp_write p = true -> d' = d /\ msgs ≫= chunk_data bs = drop (Z.to_nat c) d) /\
    (dp_write p = false -> d' = mem_bytes mem (dp_addr p) (dp_size p)) /\
    dma_RequestTable s' = delete address (dma_RequestTable s) /\ dma_outstanding_count s' = dma_outstanding_count s - 1.
Proof.
  induction fuel as [|fuel IH]; intros k s address p c i d msg Hf Hp Hc Hs Hm Hpre; pose proof Hc as [Hr Hst He Hl]; [lia |].
  cbn [dma_drive]. destruct (serve_ok k s address p c i d msg Hp Hc Hs Hm Hpre) as (s1 & d1 & -> & Hs1 & Hwr & Hrd & Ht1 & Hn1).
  pose proof Hm as [M1 M2 M3 M4 M5]. pose proof (sv_data _ _ _ _ _ _ _ Hs1) as Hd1. pose proof (sv_data _ _ _ _ _ _ _ Hs) as Hd.
  destruct (issueNext_ok k s1 address p c i d1 Hp Hc Hs1) as (s2 & evs & -> & [(Hi & -> & Ht2 & Hn2) | (i' & m & rest & Hi & -> & Hc' & Hm' & Hs2 & Ht2 & Hn2)]); rsimpl; cbn [snd fst].
  - exists s2, [msg], d1. split; [reflexivity |]. split_and!; [cbn; rewrite M1, M2, M4; split_and!; lia | | | by rewrite Ht2, Ht1 | lia].
    + intros Hw. specialize (Hwr Hw). subst d1. split; [done |]. cbn. rewrite app_nil_r, M5 by done. apply take_ge. rewrite length_drop. lia.
    + intros Hw. rewrite <- (take_ge d1 (Z.to_nat i)) by lia. rewrite Hrd, Hi by done. done.
  - destruct (IH (S k) s2 address p i i' d1 m) as (s' & msgs & d' & Hdr & Hcov & Hwd & Hrd' & Ht & Hn); try done; [lia |].
    rewrite Hdr. rsimpl. exists s', (msg :: msgs), d'. split; [reflexivity |]. split_and!; [| | | by rewrite Ht, Ht2, Ht1 | lia].
    + cbn. rewrite M1, M2, M4. split_and!; [done | done | lia | lia |].
      replace (dp_addr p + c + (i - c)) with (dp_addr p + i) by lia. by replace (dp_size p - c - (i - c)) with (dp_size p - i) by lia.
    + intros Hw. specialize (Hwr Hw). subst d1. destruct (Hwd Hw) as [-> Hrest]. split; [done |]. cbn. rewrite Hrest, M5 by done.
      replace (Z.to_nat i) with (Z.to_nat c + Z.to_nat (i - c))%nat by lia. by rewrite <- drop_drop, take_drop.
    + exact Hrd'.
Qed.

Lemma dma_make_ok s p d :
  dma_packet_fits p -> dp_data p = Some d -> Z.of_nat (length d) = dp_size p ->
  dma_outstanding_count s < dma_max_outstanding_requests s -> m_data_block_mask s = mask bits ->
  can_receive (dma_arrival (es 0)) (dma_mandatory_q s) -> dma_RequestTable s !! makeLineAddress bits (dp_addr p) = None ->
  exists s1 i msg rest, dma_makeRequest (es 0) s p = Ok (RequestStatus_Issued, s1, DmaIssue msg :: rest) /\
    chunk p 0 i /\ serving 1 s1 (makeLineAddress bits (dp_addr p)) p 0 i d /\ asks p 0 i d msg /\
    delete (makeLineAddress bits (dp_addr p)) (dma_RequestTable s1) = dma_RequestTable s /\
    dma_outstanding_count s1 = dma_outstanding_count s + 1.
Proof.
  intros Hp Hdat Hd Hcnt Hmask Hq Hnone. pose proof bs_bounds as Hb. pose proof Hp as [Ha Hsz]. destruct (Hes 0%nat) as [Eb Es _ _].
  unfold dma_makeRequest. rewrite (proj2 (Z.eqb_neq _ _)), (proj2 (Z.ltb_lt _ _) Hcnt) by lia. rsimpl. rewrite Eb, Es, Hmask, Hnone, Hdat.
  rewrite mask_mod by lia. pose proof (Z.mod_pos_bound (dp_addr p) bs ltac:(lia)) as Hm. set (off := dp_addr p mod bs) in *.
  rewrite (i32_id off), (i32_id (dp_size p)), (i32_id (bs - off)) by (unfold in_i32; lia).
  set (i := if off + dp_size p <=? bs then dp_size p else bs - off).
  assert (chunk p 0 i) as Hc.
  { subst i. split; rewrite ?Z.add_0_r; fold off; destruct (off + dp_size p <=? bs) eqn:E; b2p; try lia. right.
    replace (dp_addr p + (bs - off)) with (dp_addr p - dp_addr p mod bs + 1 * bs) by (unfold off; lia).
    rewrite Z.mod_add, Zminus_mod_idemp_r, Z.sub_diag by lia. apply Z.mod_0_l. lia. }
  pose proof (ck_range _ _ _ Hc) as Hr. pose proof (ck_line _ _ _ Hc) as Hl. rewrite Z.add_0_r in Hl. fold off in Hl.
  assert (exists blk, (if dp_write p then bytes ← data_at (Some d) 0 i; setData bs (DataBlock_alloc bs) bytes off else Ok (DataBlock_alloc bs)) = Ok blk /\
    (dp_write p = true -> take (Z.to_nat i) (drop (Z.to_nat off) blk) = take (Z.to_nat i) d)) as (blk & Hblk & Hbd).
  { destruct (dp_write p); [| by eexists]. cbn [data_at]. unfold bytes_at. rewrite decide_True by lia. rsimpl. rewrite drop_0.
    set (bytes := take _ _). assert (Z.of_nat (length bytes) = i) as Hlb by (unfold bytes; rewrite length_take; lia).
    destruct (store_block bs bytes off) as (blk & Hset & Htk); [lia | lia |]. exists blk. split; [exact Hset |]. intros _.
    rewrite <- Htk. f_equal. lia. }
  rewrite Hblk. rsimpl.
  match goal with |- context [dma_send _ ?x ?m] => destruct (send_ok 0 x m Hq) as (s' & evs & -> & Hq' & Ht & Hcn & Hmx & Hmk) end.
  dma_fields. rsimpl. cbn [fst snd]. eexists _, i, _, evs. split; [reflexivity |]. split; [done |].
  assert (p = p ⟨ dp_data := Some d ⟩) as Hpe by (clear -Hdat; destruct p as [? ? ? ? dd]; cbn in Hdat; by subst dd).
  split; [| split; [| split; [by rewrite Ht, delete_insert_id | exact Hcn]]].
  - split; [rewrite Ht, lookup_insert_eq; unfold request_of; by rewrite <- Hpe | lia | congruence | done | done].
  - split; cbn [sm_PhysicalAddress sm_LineAddress sm_write sm_Len]; rewrite ?Z.add_0_r, ?Z.sub_0_r; try done. apply line_mod. unfold in_u64. lia.
Qed.
End Transfer.

(** What the table's key asks of a controller: if every Ruby request of a
    transfer is answered naming the line the DMA request was made for, a
    request of any length is complete and exact. *)
Lemma transfer_by_first_line (bits : Z) (es : nat -> sq_env) (mem : Z -> Z) (s : DMASequencer) (p : DmaPacket) (d : list Z) :
  0 < bits < 31 -> (forall k, dma_env_ok bits (es k)) -> (forall k, dma_arrival (es k) <= dma_arrival (es (S k))) ->
  dma_packet_fits bits p -> dp_data p = Some d -> Z.of_nat (length d) = dp_size p ->
  dma_outstanding_count s < dma_max_outstanding_requests s -> m_data_block_mask s = mask bits ->
  can_receive (dma_arrival (es 0%nat)) (dma_mandatory_q s) -> dma_RequestTable s !! makeLineAddress bits (dp_addr p) = None ->
  exists s1 msg rest, dma_makeRequest (es 0%nat) s p = Ok (RequestStatus_Issued, s1, DmaIssue msg :: rest) /\
  exists s' msgs d', dma_drive es mem (Z.to_nat (dp_size p)) 1 s1 (makeLineAddress bits (dp_addr p)) msg
                       = Ok (s', msgs, p ⟨ dp_data := Some d' ⟩) /\
    covers (2 ^ bits) (dp_addr p) (dp_size p) msgs /\
    (if dp_write p then d' = d /\ msgs ≫= chunk_data (2 ^ bits) = d else d' = mem_bytes mem (dp_addr p) (dp_size p)) /\
    dma_RequestTable s' = dma_RequestTable s /\ dma_outstanding_count s' = dma_outstanding_count s.
Proof.
  intros Hb He Hmo Hp Hdat Hd Hcnt Hmask Hq Hnone.
  destruct (dma_make_ok bits es Hb He Hmo s p d Hp Hdat Hd Hcnt Hmask Hq Hnone) as (s1 & i & msg & rest & Hmk & Hc & Hs & Hm & Ht & Hn).
  exists s1, msg, rest. split; [exact Hmk |].
  destruct (drive_ok bits es mem Hb He Hmo (Z.to_nat (dp_size p)) 1%nat s1 (makeLineAddress bits (dp_addr p)) p 0 i d msg) as (s' & msgs & d' & Hdr & Hcov & Hw & Hr & Ht' & Hn'); try done; [lia |].
  exists s', msgs, d'. rewrite Z.add_0_r, Z.sub_0_r in Hcov. split; [exact Hdr |]. split; [exact Hcov |].
  split; [destruct (dp_write p); [by apply Hw | by apply Hr] |]. split; [congruence | lia].
Qed.

(** How far the first Ruby request of a packet goes. *)
Lemma first_chunk bits p i :
  0 < bits < 31 -> dma_packet_fits bits p -> chunk bits p 0 i ->
  i = if dp_addr p mod 2 ^ bits + dp_size p <=? 2 ^ bits then dp_size p else 2 ^ bits - dp_addr p mod 2 ^ bits.
Proof.
  intros Hb Hp [Hr _ He Hl]. rewrite Z.add_0_r, Z.sub_0_r in Hl. pose proof (bs_bounds bits Hb) as Hbs.
  pose proof (Z.mod_pos_bound (dp_addr p) (2 ^ bits) ltac:(lia)) as Hm. set (bs := 2 ^ bits) in *. set (off := dp_addr p mod bs) in *.
  destruct He as [->|He]; [destruct (_ <=? _) eqn:E; b2p; lia |].
  assert ((off + i) mod bs = 0) as Hz by (unfold off; by rewrite Zplus_mod_idemp_l).
  assert (off + i = bs) as Hoi.
  { destruct (decide (off + i = bs)) as [|Hn]; [done |]. rewrite Z.mod_small in Hz by lia. lia. }
  destruct (_ <=? _) eqn:E; b2p; lia.
Qed.

(** C19.  A DMA request for an idle line is taken and its first Ruby request
    asks for its bytes up to the end of their line.  The controllers call back
    with the line of each response.  A request inside one line is then complete
    and exact: the callback answers the packet, a read carries the bytes of the
    memory, a write has sent its own bytes, and the sequencer is as before.  For
    a request that goes beyond its first line the first callback stores the
    bytes of that line and issues the Ruby request for the next one, but the
    callback for that next line fails its assertion (unless another request is
    filed under that line): the packet is not answered. *)
Theorem dma_transfer (bits : Z) (es : nat -> sq_env) (mem : Z -> Z) (s : DMASequencer) (p : DmaPacket) (d : list Z) :
  0 < bits < 31 -> (forall k, dma_env_ok bits (es k)) -> (forall k, dma_arrival (es k) <= dma_arrival (es (S k))) ->
  dma_packet_fits bits p -> dp_data p = Some d -> Z.of_nat (length d) = dp_size p ->
  dma_outstanding_count s < dma_max_outstanding_requests s -> m_data_block_mask s = mask bits ->
  can_receive (dma_arrival (es 0%nat)) (dma_mandatory_q s) -> dma_RequestTable s !! makeLineAddress bits (dp_addr p) = None ->
  let bs := 2 ^ bits in let off := dp_addr p mod bs in let line := dp_addr p - off in
  exists s1 msg rest, dma_makeRequest (es 0%nat) s p = Ok (RequestStatus_Issued, s1, DmaIssue msg :: rest) /\
    sm_PhysicalAddress msg = dp_addr p /\ sm_LineAddress msg = line /\
    if off + dp_size p <=? bs then
      sm_Len msg = dp_size p /\
      exists s' d', dma_answer (es 1%nat) mem s1 msg = Ok (s', [DmaRespond (p ⟨ dp_data := Some d' ⟩)]) /\
        (if dp_write p then d' = d /\ chunk_data bs msg = d else d' = mem_bytes mem (dp_addr p) (dp_size p)) /\
        dma_RequestTable s' = dma_RequestTable s /\ dma_outstanding_count s' = dma_outstanding_count s
    else
      sm_Len msg = bs - off /\
      exists s2 msg2 rest2 req d2, dma_answer (es 1%nat) mem s1 msg = Ok (s2, DmaIssue msg2 :: rest2) /\
        sm_LineAddress msg2 = line + bs /\
        dma_RequestTable s2 !! line = Some req /\ bytes_completed req = bs - off /\ dp_data (dma_pkt req) = Some d2 /\
        (dp_write p = false -> take (Z.to_nat (bs - off)) d2 = mem_bytes mem (dp_addr p) (bs - off)) /\
        (dma_RequestTable s !! (line + bs) = None -> dma_answer (es 2%nat) mem s2 msg2 = Err EAssert).
Proof.
  intros Hb He Hmo Hp Hdat Hd Hcnt Hmask Hq Hnone bs off line.
  destruct (dma_make_ok bits es Hb He Hmo s p d Hp Hdat Hd Hcnt Hmask Hq Hnone) as (s1 & i & msg & rest & Hmk & Hc & Hs & Hm & Ht & Hn).
  exists s1, msg, rest. split; [exact Hmk |]. pose proof Hm as [M1 M2 M3 M4 M5]. rewrite Z.add_0_r in M1, M2. rewrite Z.sub_0_r in M4, M5.
  split; [done |]. split; [done |]. fold bs off line in M2.
  pose proof (first_chunk bits p i Hb Hp Hc) as Hi. fold bs off in Hi.
  assert (makeLineAddress bits (dp_addr p) = line) as Hline.
  { pose proof Hp as [Ha Hsz]. apply line_mod; [done |]. unfold in_u64. lia. }
  rewrite Hline in *. unfold dma_answer. rewrite M2.
  destruct (serve_ok bits es mem Hb He 1 s1 line p 0 i d msg Hp Hc Hs Hm) as (s1' & d1 & -> & Hs1 & Hwr & Hrd & Ht1 & Hn1); [done |].
  pose proof (sv_data _ _ _ _ _ _ _ _ _ Hs1) as Hd1. pose proof (ck_range _ _ _ _ Hc) as Hr.
  destruct (issueNext_ok bits es Hb He Hmo 1 s1' line p 0 i d1 Hp Hc Hs1) as
    (s2 & evs & -> & [(Hie & -> & Ht2 & Hn2) | (i' & m & rest2 & Hie & -> & Hc' & Hm' & Hs2 & Ht2 & Hn2)]).
  - assert (off + dp_size p <=? bs = true) as ->.
    { pose proof (ck_line _ _ _ _ Hc) as Hl. rewrite Z.add_0_r, Z.sub_0_r in Hl. fold bs off in Hl. lia. }
    split; [lia |]. exists s2, d1. split; [done |]. split_and!; [| by rewrite Ht2, Ht1 | lia].
    destruct (dp_write p).
    + split; [by apply Hwr |]. etransitivity; [by apply M5 |]. rewrite drop_0. apply take_ge. lia.
    + rewrite <- (take_ge d1 (Z.to_nat i)) by lia. rewrite Hrd, Hie by done. done.
  - assert (off + dp_size p <=? bs = false) as E by (destruct (_ <=? _); lia). rewrite E in *.
    split; [lia |]. exists s2, m, rest2, (request_of p i i' d1), d1. split; [done |].
    pose proof Hm' as [N1 N2 _ _ _]. pose proof (ck_start _ _ _ _ Hc') as [?|Hst]; [lia |].
    assert (sm_LineAddress m = line + bs) as HL by (rewrite N2, Hst; unfold line; lia).
    split_and!; [done | apply Hs2 | by cbn | done | |].
    + intros Hw. rewrite <- Hi. by apply Hrd.
    + intros Hfree. assert (0 < bs) by (unfold bs; lia).
      assert (dma_RequestTable s2 !! (line + bs) = None) as Hnone2.
      { rewrite <- (lookup_delete_ne (dma_RequestTable s2) line) by lia. rewrite Ht2, Ht1, Ht. done. }
      rewrite HL. unfold dma_serve, ackCallback, dataCallback. rewrite Hnone2. by destruct (sm_write m).
Qed.

(** ** Instances: reads from a memory that holds its addresses, in lines of 64
    bytes: 20 bytes from address 40, and 100 bytes, which take two lines. *)

Definition demo_dma : DMASequencer := DMASequencer_init (demo_sq_env 100) 4 demo_mandatory_q.
Definition demo_dma_packet (size : Z) : DmaPacket :=
  {| dp_id := 1; dp_addr := 40; dp_size := size; dp_write := false; dp_data := Some (replicate (Z.to_nat size) 9) |}.
Definition demo_envs (k : nat) : sq_env := demo_sq_env 100.

Lemma demo_envs_ok k : dma_env_ok 6 (demo_envs k).
Proof. split; cbn; [done | done | done | unfold dma_arrival; cbn; lia]. Qed.

Lemma dma_transfer_witness :
  (exists s1 msg rest s' d', dma_makeRequest (demo_sq_env 100) demo_dma (demo_dma_packet 20) = Ok (RequestStatus_Issued, s1, DmaIssue msg :: rest) /\
     dma_answer (demo_sq_env 100) id s1 msg = Ok (s', [DmaRespond ((demo_dma_packet 20) ⟨ dp_data := Some d' ⟩)]) /\ d' = mem_bytes id 40 20) /\
  (exists s1 msg rest s2 msg2 rest2, dma_makeRequest (demo_sq_env 100) demo_dma (demo_dma_packet 100) = Ok (RequestStatus_Issued, s1, DmaIssue msg :: rest) /\
     dma_answer (demo_sq_env 100) id s1 msg = Ok (s2, DmaIssue msg2 :: rest2) /\ sm_LineAddress msg2 = 64 /\
     dma_answer (demo_sq_env 100) id s2 msg2 = Err EAssert).
Proof.
  assert (Hq : can_receive (dma_arrival (demo_envs 0)) (dma_mandatory_q demo_dma)) by (split_and!; [discriminate | reflexivity | discriminate]).
  split.
  - destruct (dma_transfer 6 demo_envs id demo_dma (demo_dma_packet 20) (replicate 20 9))
      as (s1 & msg & rest & Hm & _ & _ & _ & s' & d' & Ha & Hd & _);
      [lia | apply demo_envs_ok | reflexivity | split; cbn; lia | reflexivity | reflexivity | reflexivity | reflexivity | exact Hq | reflexivity |].
    by exists s1, msg, rest, s', d'.
  - destruct (dma_transfer 6 demo_envs id demo_dma (demo_dma_packet 100) (replicate 100 9))
      as (s1 & msg & rest & Hm & _ & _ & _ & s2 & msg2 & rest2 & req & d2 & Ha & Hl & _ & _ & _ & _ & Hf);
      [lia | apply demo_envs_ok | reflexivity | split; cbn; lia | reflexivity | reflexivity | reflexivity | reflexivity | exact Hq | reflexivity |].
    exists s1, msg, rest, s2, msg2, rest2. split_and!; [exact Hm | exact Ha | exact Hl | apply Hf; reflexivity].
Defined.
