(* ===== verification/FunctionalAccess.v ===== *)
(** * Functional accesses

    A functional access reads or writes the simulated memory outside of time: it
    searches every place that may hold the data.  This file models
    - [testAndRead], [testAndReadMask] and [testAndWrite]
      ([mem/ruby/slicc_interface/RubySlicc_Util.hh]), the accesses to one block;
    - [SubBlock] ([mem/ruby/common/SubBlock.{hh,cc}]);
    - [RubyRequest::functionalWrite] ([mem/ruby/slicc_interface/RubyRequest.cc]);
    - [RubySystem::functionalRead] and [functionalWrite]
      ([mem/ruby/system/RubySystem.cc]), the search over all controllers.

    The controllers are generated from the protocol.  The class
    [AbstractController] is what the search calls of them, [ControllerLaws]
    what it relies on: a copy that was written is the copy that is read, and
    accesses do not change permissions.  The theorem is proved against the
    laws; [line_holder], with the accessors of
    [mem/ruby/protocol/MI_example-cache.sm], is an instance. *)
From S2P Require Import Prelude Common Replacement CacheMemory DataBlock.

(** A packet: address and data; [getSize()] is the length of the data. *)
Record fpacket := { fp_addr : Z; fp_data : list Z }.

#[export] Instance fpacket_eta : Eta fpacket := {| eta := fun p => {| fp_addr := fp_addr p; fp_data := fp_data p |} |}.

Definition fp_size (p : fpacket) : Z := Z.of_nat (length (fp_data p)).

(** ** Accesses to one block *)
Section Blocks.
Context (block_size_bits : Z).

(** [unsigned startByte], and [i + startByte]. *)
Definition startByte (pkt : fpacket) (lineAddr : Z) : Z := u32 (fp_addr pkt - lineAddr).

Definition testAndRead (addr : Z) (blk : datablock) (pkt : fpacket) : res (bool * fpacket) :=
  let pktLineAddr := makeLineAddress block_size_bits (fp_addr pkt) in
  let lineAddr := makeLineAddress block_size_bits addr in
  if pktLineAddr =? lineAddr then
    data ← foldM (fun data i => x ← getByte blk (u32 (i + startByte pkt lineAddr)); vset data i x) (upto (fp_size pkt)) (fp_data pkt);
    Ok (true, pkt ⟨ fp_data := data ⟩)
  else Ok (false, pkt).

Definition testAndReadMask (addr : Z) (blk : datablock) (mask : WriteMask) (pkt : fpacket) : res (bool * fpacket) :=
  let pktLineAddr := makeLineAddress block_size_bits (fp_addr pkt) in
  let lineAddr := makeLineAddress block_size_bits addr in
  if pktLineAddr =? lineAddr then
    r ← foldM (fun (st : bool * list Z) i =>
          t ← WriteMask_test mask (u32 (i + startByte pkt lineAddr));
          if (t : bool) then x ← getByte blk (u32 (i + startByte pkt lineAddr)); d ← vset st.2 i x; Ok (true, d) else Ok st)
          (upto (fp_size pkt)) (false, fp_data pkt);
    Ok (r.1, pkt ⟨ fp_data := r.2 ⟩)
  else Ok (false, pkt).

Definition testAndWrite (addr : Z) (blk : datablock) (pkt : fpacket) : res (bool * datablock) :=
  let pktLineAddr := makeLineAddress block_size_bits (fp_addr pkt) in
  let lineAddr := makeLineAddress block_size_bits addr in
  if pktLineAddr =? lineAddr then
    blk ← foldM (fun blk i => x ← vget (fp_data pkt) i; setByte blk (u32 (i + startByte pkt lineAddr)) x) (upto (fp_size pkt)) blk;
    Ok (true, blk)
  else Ok (false, blk).

(** ** [SubBlock] *)
Record SubBlock := { sb_address : Z; sb_data : list Z }.

Definition SubBlock_ctor (addr size : Z) : SubBlock := {| sb_address := addr; sb_data := replicate (Z.to_nat size) 0 |}.

Definition mergeFrom (s : SubBlock) (data : datablock) : res SubBlock :=
  let size := Z.of_nat (length (sb_data s)) in
  _ ← cassert (0 <? size);
  offset ← getOffset block_size_bits (sb_address s);
  l ← foldM (fun l i => x ← getByte data (offset + i); vset l i x) (upto size) (sb_data s);
  Ok {| sb_address := sb_address s; sb_data := l |}.

Definition mergeTo (s : SubBlock) (data : datablock) : res datablock :=
  let size := Z.of_nat (length (sb_data s)) in
  _ ← cassert (0 <? size);
  offset ← getOffset block_size_bits (sb_address s);
  foldM (fun data i => x ← vget (sb_data s) i; setByte data (offset + i) x) (upto size) data.

(** ** [RubyRequest] *)
Record RubyRequestData := {
  rr_PhysicalAddress : Z;
  rr_Size : Z;
  rr_data : option (list Z);
  rr_WTData : datablock
}.

Definition RubyRequest_functionalRead (r : RubyRequestData) (pkt : fpacket) : bool := false.

Definition RubyRequest_functionalWrite (r : RubyRequestData) (pkt : fpacket) : res (bool * RubyRequestData) :=
  match rr_data r with
  | None => Ok (false, r)
  | Some data =>
      let wBase := fp_addr pkt in
      let wTail := u64 (wBase + fp_size pkt) in
      let mBase := rr_PhysicalAddress r in
      let mTail := u64 (mBase + rr_Size r) in
      let cBase := Z.max wBase mBase in
      let cTail := Z.min wTail mTail in
      data ← foldM (fun data i => x ← vget (fp_data pkt) (i - wBase); vset data (i - mBase) x) (seqZ cBase (cTail - cBase)) data;
      w ← testAndWrite (rr_PhysicalAddress r) (rr_WTData r) pkt;
      Ok (cBase <? cTail, {| rr_PhysicalAddress := mBase; rr_Size := rr_Size r; rr_data := Some data; rr_WTData := w.2 |})
  end.
End Blocks.

(** ** Controllers *)

(** The calls of a functional access.  The sequencers of a controller, if it
    has them, are part of it: [None] is a null pointer. *)
Class AbstractController (C : Type) := {
  getAccessPermission : C -> Z -> AccessPermission;
  functionalRead : C -> Z -> fpacket -> res fpacket;
  functionalWrite : C -> Z -> fpacket -> res (C * Z);
  functionalReadBuffers : C -> fpacket -> res (bool * fpacket);
  functionalWriteBuffers : C -> fpacket -> res (C * Z);
  cpu_sequencer_write : C -> fpacket -> option (res (C * Z));
  dma_sequencer_write : C -> fpacket -> option (res (C * Z))
}.

Section System.
Context {C N : Type} `{!AbstractController C}.
Context (block_size_bits : Z).
(** The network's own accesses. *)
Context (net_functionalRead : N -> fpacket -> res (bool * fpacket)) (net_functionalWrite : N -> fpacket -> res (N * Z)).

Record perm_counts := {
  num_ro : Z; num_rw : Z; num_busy : Z; num_maybe_stale : Z; num_backing_store : Z; num_invalid : Z;
  ctrl_ro : option C; ctrl_rw : option C; ctrl_backing_store : option C
}.

#[export] Instance perm_counts_eta : Eta perm_counts := {| eta := fun k =>
  {| num_ro := num_ro k; num_rw := num_rw k; num_busy := num_busy k; num_maybe_stale := num_maybe_stale k;
     num_backing_store := num_backing_store k; num_invalid := num_invalid k; ctrl_ro := ctrl_ro k; ctrl_rw := ctrl_rw k;
     ctrl_backing_store := ctrl_backing_store k |} |}.

Definition no_counts : perm_counts :=
  {| num_ro := 0; num_rw := 0; num_busy := 0; num_maybe_stale := 0; num_backing_store := 0; num_invalid := 0;
     ctrl_ro := None; ctrl_rw := None; ctrl_backing_store := None |}.

(** [if (p == nullptr) p = c]. *)
Definition set_first (p : option C) (c : C) : option C := match p with None => Some c | Some _ => p end.

Definition count_perm (line_address : Z) (k : perm_counts) (c : C) : perm_counts :=
  match getAccessPermission c line_address with
  | AccessPermission_Read_Only => k ⟨ num_ro := u32 (num_ro k + 1) ⟩ ⟨ ctrl_ro := set_first (ctrl_ro k) c ⟩
  | AccessPermission_Read_Write => k ⟨ num_rw := u32 (num_rw k + 1) ⟩ ⟨ ctrl_rw := set_first (ctrl_rw k) c ⟩
  | AccessPermission_Busy => k ⟨ num_busy := u32 (num_busy k + 1) ⟩
  | AccessPermission_Maybe_Stale => k ⟨ num_maybe_stale := u32 (num_maybe_stale k + 1) ⟩
  | AccessPermission_Backing_Store =>
      k ⟨ num_backing_store := u32 (num_backing_store k + 1) ⟩ ⟨ ctrl_backing_store := set_first (ctrl_backing_store k) c ⟩
  | AccessPermission_Invalid | AccessPermission_NotPresent => k ⟨ num_invalid := u32 (num_invalid k + 1) ⟩
  end.

(** The controller of a pointer, null or not. *)
Definition call_read (p : option C) (line_address : Z) (pkt : fpacket) : res (bool * fpacket) :=
  match p with Some c => pkt ← functionalRead c line_address pkt; Ok (true, pkt) | None => Err EUninit end.

Definition RubySystem_functionalRead (ctrls : list C) (net : N) (pkt : fpacket) : res (bool * fpacket) :=
  let line_address := makeLineAddress block_size_bits (fp_addr pkt) in
  let num_controllers := Z.of_nat (length ctrls) in
  let k := foldl (count_perm line_address) no_counts ctrls in
  if (num_invalid k =? u32 (num_controllers - 1)) && (num_backing_store k =? 1) then call_read (ctrl_backing_store k) line_address pkt
  else if (0 <? num_ro k) || (1 <=? num_rw k) then
    match ctrl_rw k with
    | Some c => call_read (Some c) line_address pkt
    | None => _ ← cassert (bool_decide (is_Some (ctrl_ro k))); call_read (ctrl_ro k) line_address pkt
    end
  else if 0 <? u32 (num_busy k + num_maybe_stale k) then
    r ← foldM_brk (fun pkt c => functionalReadBuffers c pkt) ctrls pkt;
    if (r.1 : bool) then Ok (true, r.2)
    else r' ← net_functionalRead net r.2; if (r'.1 : bool) then Ok (true, r'.2) else Ok (false, r'.2)
  else Ok (false, pkt).

(** A call on a sequencer that may be missing. *)
Definition maybe_write (c : C) (n : Z) (w : option (res (C * Z))) : res (C * Z) :=
  match w with Some r => r ← r; Ok (r.1, u32 (n + r.2)) | None => Ok (c, n) end.

Definition write_controller (line_addr : Z) (pkt : fpacket) (n : Z) (c : C) : res (C * Z) :=
  r ← functionalWriteBuffers c pkt;
  let '(c, n) := (r.1, u32 (n + r.2)) in
  let access_perm := getAccessPermission c line_addr in
  r ← (if negb (bool_decide (access_perm = AccessPermission_Invalid)) && negb (bool_decide (access_perm = AccessPermission_NotPresent))
       then r ← functionalWrite c line_addr pkt; Ok (r.1, u32 (n + r.2)) else Ok (c, n));
  let '(c, n) := r in
  r ← maybe_write c n (cpu_sequencer_write c pkt);
  let '(c, n) := r in
  maybe_write c n (dma_sequencer_write c pkt).

Definition write_controllers (line_addr : Z) (pkt : fpacket) (ctrls : list C) : res (list C * Z) :=
  foldM (fun (st : list C * Z) c => r ← write_controller line_addr pkt st.2 c; Ok (st.1 ++ [r.1], r.2)) ctrls ([], 0).

(** The state after the write, and the number of places written. *)
Definition RubySystem_functionalWrite (ctrls : list C) (net : N) (pkt : fpacket) : res (list C * N * Z) :=
  let line_addr := makeLineAddress block_size_bits (fp_addr pkt) in
  r ← write_controllers line_addr pkt ctrls;
  r' ← net_functionalWrite net pkt;
  Ok (r.1, r'.1, u32 (r.2 + r'.2)).

(** A packet within one line. *)
Record fits_line (pkt : fpacket) : Prop := {
  fl_addr : in_u64 (fp_addr pkt);
  fl_line : fp_addr pkt mod 2 ^ block_size_bits + fp_size pkt <= 2 ^ block_size_bits
}.

(** The permissions of a copy that may be read. *)
Definition readable (a : AccessPermission) : bool :=
  match a with AccessPermission_Read_Only | AccessPermission_Read_Write | AccessPermission_Backing_Store => true | _ => false end.

(** What the search relies on, for controllers that are well formed ([ok]).
    The calls of a write succeed and keep [ok] and every permission. *)
Definition keeps (ok : C -> Prop) (c c' : C) : Prop := ok c' /\ forall a, getAccessPermission c' a = getAccessPermission c a.

(** A sequencer, if there is one, is written and changes no copy. *)
Definition sequencer_writes (ok : C -> Prop) (w : C -> fpacket -> option (res (C * Z))) : Prop :=
  forall c pkt r, ok c -> fits_line pkt -> w c pkt = Some r ->
    exists c' n, r = Ok (c', n) /\ keeps ok c c' /\ forall l pkt', functionalRead c' l pkt' = functionalRead c l pkt'.

Class ControllerLaws (ok : C -> Prop) : Prop := {
  write_buffers_ok c pkt : ok c -> fits_line pkt -> exists c' n, functionalWriteBuffers c pkt = Ok (c', n) /\ keeps ok c c';
  (** The copy of a line that is written is the one that is read. *)
  write_line_ok c pkt :
    let l := makeLineAddress block_size_bits (fp_addr pkt) in
    ok c -> fits_line pkt -> getAccessPermission c l <> AccessPermission_Invalid -> getAccessPermission c l <> AccessPermission_NotPresent ->
    exists c' n, functionalWrite c l pkt = Ok (c', n) /\ keeps ok c c' /\
      forall pkt', fp_addr pkt' = fp_addr pkt -> fp_size pkt' = fp_size pkt -> functionalRead c' l pkt' = Ok pkt;
  cpu_sequencer_ok : sequencer_writes ok cpu_sequencer_write;
  dma_sequencer_ok : sequencer_writes ok dma_sequencer_write
}.

(** ** The counts *)
Definition holders (l : Z) (a : AccessPermission) (ctrls : list C) : list C := filter (fun c => getAccessPermission c l = a) ctrls.
Definition holders_num (l : Z) (a : AccessPermission) (ctrls : list C) : Z := Z.of_nat (length (holders l a ctrls)).

Record counted (l : Z) (ctrls : list C) (k : perm_counts) : Prop := {
  ct_ro : num_ro k = holders_num l AccessPermission_Read_Only ctrls;
  ct_rw : num_rw k = holders_num l AccessPermission_Read_Write ctrls;
  ct_bs : num_backing_store k = holders_num l AccessPermission_Backing_Store ctrls;
  ct_inv : num_invalid k = holders_num l AccessPermission_Invalid ctrls + holders_num l AccessPermission_NotPresent ctrls;
  ct_busy : num_busy k = holders_num l AccessPermission_Busy ctrls;
  ct_stale : num_maybe_stale k = holders_num l AccessPermission_Maybe_Stale ctrls;
  ct_ptr_ro : ctrl_ro k = head (holders l AccessPermission_Read_Only ctrls);
  ct_ptr_rw : ctrl_rw k = head (holders l AccessPermission_Read_Write ctrls);
  ct_ptr_bs : ctrl_backing_store k = head (holders l AccessPermission_Backing_Store ctrls)
}.

Lemma holders_snoc l a ctrls c :
  holders l a (ctrls ++ [c]) = if decide (getAccessPermission c l = a) then holders l a ctrls ++ [c] else holders l a ctrls.
Proof.
  unfold holders. rewrite filter_app, filter_cons, filter_nil. case_decide; [done | by rewrite app_nil_r].
Qed.

(** Every controller is counted once. *)
Lemma holders_total l ctrls :
  holders_num l AccessPermission_Read_Only ctrls + holders_num l AccessPermission_Read_Write ctrls +
  holders_num l AccessPermission_Maybe_Stale ctrls + holders_num l AccessPermission_Backing_Store ctrls +
  holders_num l AccessPermission_Invalid ctrls + holders_num l AccessPermission_NotPresent ctrls +
  holders_num l AccessPermission_Busy ctrls = Z.of_nat (length ctrls).
Proof.
  unfold holders_num. induction ctrls as [|c ctrls IH] using rev_ind; [done |]. rewrite !holders_snoc, length_app. cbn [length].
  destruct (getAccessPermission c l); repeat case_decide; try done; rewrite ?length_app; cbn [length]; lia.
Qed.

Lemma set_first_head (h : list C) c : set_first (head h) c = head (h ++ [c]).
Proof. by destruct h. Qed.

Lemma count_perms l ctrls : Z.of_nat (length ctrls) < 2 ^ 32 -> counted l ctrls (foldl (count_perm l) no_counts ctrls).
Proof.
  induction ctrls as [|c ctrls IH] using rev_ind; intros Hn; [by split |]. rewrite length_app in Hn. cbn [length] in Hn.
  rewrite foldl_app. cbn [foldl]. destruct (IH ltac:(lia)) as [H1 H2 H3 H4 H5 H6 H7 H8 H9].
  set (k := foldl (count_perm l) no_counts ctrls) in *. clearbody k.
  pose proof (holders_total l ctrls) as Hall. unfold holders_num in *.
  unfold count_perm. destruct (getAccessPermission c l) eqn:Ec; split;
    cbn [setf num_ro num_rw num_busy num_maybe_stale num_backing_store num_invalid ctrl_ro ctrl_rw ctrl_backing_store];
    unfold holders_num; rewrite !holders_snoc, Ec; repeat case_decide; try done; rewrite ?length_app; cbn [length];
    rewrite ?u32_id by (unfold in_u32; lia); try lia; rewrite <- set_first_head; congruence.
Qed.

(** ** Writing every copy *)
Section Write.
Context (ok : C -> Prop) (HL : ControllerLaws ok).
Context (pkt pkt' : fpacket) (Hfit : fits_line pkt) (Haddr : fp_addr pkt' = fp_addr pkt) (Hsize : fp_size pkt' = fp_size pkt).
Abbreviation line := (makeLineAddress block_size_bits (fp_addr pkt)).

(** A controller after the write: same permissions, and a readable copy is the
    data of the packet. *)
Definition written (c c' : C) : Prop :=
  (forall a, getAccessPermission c' a = getAccessPermission c a) /\
  (readable (getAccessPermission c line) = true -> functionalRead c' line pkt' = Ok pkt).

Lemma maybe_write_ok w (c c1 : C) n :
  sequencer_writes ok w -> ok c1 -> written c c1 -> exists c' n', maybe_write c1 n (w c1 pkt) = Ok (c', n') /\ ok c' /\ written c c'.
Proof.
  intros Hw Hok [HP HR]. destruct (w c1 pkt) as [r|] eqn:E; cbn [maybe_write]; [| by exists c1, n].
  destruct (Hw c1 pkt r Hok Hfit E) as (c' & m & -> & [Hok' HP'] & HR'). rsimpl. do 2 eexists. split_and!; [done | done |].
  split; [intros a; by rewrite HP' | intros Hr; rewrite HR'; auto].
Qed.

Lemma write_controller_ok n c : ok c -> exists c' n', write_controller line pkt n c = Ok (c', n') /\ written c c'.
Proof.
  intros Hok. unfold write_controller. destruct (write_buffers_ok c pkt Hok Hfit) as (c1 & m1 & -> & Hok1 & HP1). rsimpl.
  match goal with |- exists c' n', mbind _ ?m = _ /\ _ => set (own := m) end.
  assert (exists c2 n2, own = Ok (c2, n2) /\ ok c2 /\ written c c2) as (c2 & n2 & -> & Hok2 & HW2).
  { destruct (decide (getAccessPermission c1 line = AccessPermission_Invalid)) as [Ei|Ei].
    { unfold own. rewrite Ei. do 2 eexists. split_and!; [done | done |]. split; [done |]. rewrite <- HP1, Ei. done. }
    destruct (decide (getAccessPermission c1 line = AccessPermission_NotPresent)) as [En|En].
    { unfold own. rewrite En. do 2 eexists. split_and!; [done | done |]. split; [done |]. rewrite <- HP1, En. done. }
    unfold own. rewrite !bool_decide_false by done. cbn [negb andb].
    destruct (write_line_ok c1 pkt Hok1 Hfit Ei En) as (c2 & m2 & -> & [Hok2 HP2] & HR2). rsimpl. do 2 eexists. split_and!; [done | done |].
    split; [intros a; by rewrite HP2 | auto]. }
  rsimpl. destruct (maybe_write_ok _ c c2 n2 cpu_sequencer_ok Hok2 HW2) as (c3 & n3 & -> & Hok3 & HW3). rsimpl.
  destruct (maybe_write_ok _ c c3 n3 dma_sequencer_ok Hok3 HW3) as (c4 & n4 & -> & _ & HW4). eauto.
Qed.

Lemma write_controllers_ok ctrls :
  Forall ok ctrls -> exists ctrls' n, write_controllers line pkt ctrls = Ok (ctrls', n) /\ Forall2 written ctrls ctrls'.
Proof.
  intros Hall. unfold write_controllers.
  enough (forall acc n0, exists l' n, foldM (fun (st : list C * Z) c => r ← write_controller line pkt st.2 c; Ok (st.1 ++ [r.1], r.2)) ctrls (acc, n0) =
    Ok (acc ++ l', n) /\ Forall2 written ctrls l') as Hg by (destruct (Hg [] 0) as (l' & n & -> & Hl); eauto).
  induction Hall as [|c l Hc _ IH]; intros acc n0; cbn [foldM]; [exists [], n0; by rewrite app_nil_r |].
  cbn [fst snd]. destruct (write_controller_ok n0 c Hc) as (c' & n1 & -> & HW). rsimpl.
  destruct (IH (acc ++ [c']) n1) as (l' & n & -> & Hl). exists (c' :: l'), n. rewrite <- app_assoc. split; [done | by constructor].
Qed.

(** The permissions, hence the counts, are the same before and after. *)
Lemma written_holders ctrls ctrls' a :
  Forall2 written ctrls ctrls' -> Forall2 written (holders line a ctrls) (holders line a ctrls').
Proof.
  unfold holders. induction 1 as [|c c' l l' Hw _ IH]; [done |]. rewrite !filter_cons, (proj1 Hw line).
  case_decide; [by constructor | done].
Qed.

Lemma head_written a (h h' : list C) :
  Forall2 written h h' -> Forall (fun c => getAccessPermission c line = a) h -> readable a = true ->
  forall c', head h' = Some c' -> functionalRead c' line pkt' = Ok pkt.
Proof.
  intros Hw Ha Hr c'. destruct Hw as [|c c1 h h' Hc _]; [done |]. intros [= ->]. apply Hc. apply Forall_cons in Ha as [-> _]. done.
Qed.

Lemma holders_all a ctrls : Forall (fun c => getAccessPermission c line = a) (holders line a ctrls).
Proof. apply Forall_forall. by intros c [H _]%list_elem_of_filter. Qed.

(** Some copy may be read: one in a cache, or the only one, in memory. *)
Definition has_copy (ctrls : list C) : Prop :=
  0 < holders_num line AccessPermission_Read_Only ctrls + holders_num line AccessPermission_Read_Write ctrls \/
  (holders_num line AccessPermission_Backing_Store ctrls = 1 /\
   holders_num line AccessPermission_Invalid ctrls + holders_num line AccessPermission_NotPresent ctrls = Z.of_nat (length ctrls) - 1).

Lemma read_written ctrls ctrls' net :
  Z.of_nat (length ctrls) < 2 ^ 31 -> Forall2 written ctrls ctrls' -> has_copy ctrls ->
  RubySystem_functionalRead ctrls' net pkt' = Ok (true, pkt).
Proof.
  intros Hn Hw Hc. pose proof (Forall2_length _ _ _ Hw) as Hlen.
  assert (Hh : forall a, Forall2 written (holders line a ctrls) (holders line a ctrls')) by (intros a; by apply written_holders).
  assert (Hnum : forall a, holders_num line a ctrls' = holders_num line a ctrls)
    by (intros a; unfold holders_num; by rewrite (Forall2_length _ _ _ (Hh a))).
  assert (Hread : forall a, readable a = true -> forall c', head (holders line a ctrls') = Some c' -> functionalRead c' line pkt' = Ok pkt)
    by (intros a Ha; exact (head_written a _ _ (Hh a) (holders_all a ctrls) Ha)).
  assert (Hsome : forall a, 0 < holders_num line a ctrls -> is_Some (head (holders line a ctrls')))
    by (intros a Ha; rewrite <- Hnum in Ha; unfold holders_num in Ha; destruct (holders line a ctrls'); [cbn in Ha; lia | done]).
  destruct (count_perms line ctrls') as [H1 H2 H3 H4 H5 H6 H7 H8 H9]; [lia |]. rewrite !Hnum in *.
  assert (Hpos : forall a, 0 <= holders_num line a ctrls) by (intros; unfold holders_num; lia).
  pose proof (holders_total line ctrls) as Htot. pose proof (Hpos AccessPermission_Read_Only). pose proof (Hpos AccessPermission_Read_Write).
  pose proof (Hpos AccessPermission_Maybe_Stale). pose proof (Hpos AccessPermission_Busy). pose proof (Hpos AccessPermission_Backing_Store).
  pose proof (Hpos AccessPermission_Invalid). pose proof (Hpos AccessPermission_NotPresent).
  unfold RubySystem_functionalRead. rewrite Haddr. rewrite H1, H2, H3, H4, H7, H8, H9, <- Hlen.
  destruct (_ && _) eqn:Eb; b2p.
  - destruct (Hsome AccessPermission_Backing_Store) as [c Hcb]; [lia |]. rewrite Hcb. cbn [call_read].
    by rewrite (Hread AccessPermission_Backing_Store eq_refl c Hcb).
  - assert (0 < holders_num line AccessPermission_Read_Only ctrls + holders_num line AccessPermission_Read_Write ctrls) as Hrow.
    { destruct Hc as [Hc|[Hc1 Hc2]]; [done |]. exfalso. rewrite Hc1, Hc2 in Eb.
      rewrite u32_id in Eb by (unfold in_u32; lia). rewrite Z.eqb_refl in Eb. done. }
    destruct (_ || _) eqn:Eo; [| b2p; lia]. destruct (head (holders line AccessPermission_Read_Write ctrls')) as [c|] eqn:Erw.
    + cbn [call_read]. by rewrite (Hread AccessPermission_Read_Write eq_refl c Erw).
    + assert (holders_num line AccessPermission_Read_Write ctrls <= 0) as Hz.
      { destruct (decide (0 < holders_num line AccessPermission_Read_Write ctrls)) as [Hp|]; [| lia].
        apply Hsome in Hp as [? Hp]. congruence. }
      destruct (Hsome AccessPermission_Read_Only) as [c Hcr]; [lia |]. rewrite Hcr. rewrite bool_decide_true by done. rsimpl. cbn [call_read].
      by rewrite (Hread AccessPermission_Read_Only eq_refl c Hcr).
Qed.
End Write.
End System.

(** C27. A functional write is seen by functional reads.  For well-formed
    controllers that satisfy the laws and a network that accepts the write:
    [functionalWrite] of a packet within one line succeeds, and [functionalRead]
    of the same bytes then returns true with the data of the packet whenever,
    before the write, some controller had the line readable or writable, or the
    only copy was the backing store's.  Which of the copies the search picks does
    not matter, since every valid copy was written. *)
Theorem functional_write_read {C N : Type} `{!AbstractController C} (block_size_bits : Z)
    (net_read : N -> fpacket -> res (bool * fpacket)) (net_write : N -> fpacket -> res (N * Z))
    (ok : C -> Prop) (ctrls : list C) (net : N) (pkt pkt' : fpacket) :
  ControllerLaws block_size_bits ok -> Forall ok ctrls -> (exists r, net_write net pkt = Ok r) -> fits_line block_size_bits pkt ->
  fp_addr pkt' = fp_addr pkt -> fp_size pkt' = fp_size pkt -> Z.of_nat (length ctrls) < 2 ^ 31 ->
  has_copy block_size_bits pkt ctrls ->
  exists ctrls' net' n, RubySystem_functionalWrite block_size_bits net_write ctrls net pkt = Ok (ctrls', net', n) /\
    RubySystem_functionalRead block_size_bits net_read ctrls' net' pkt' = Ok (true, pkt).
Proof.
  intros HL Hok [[net' m] Hnet] Hfit Ha Hs Hn Hc. unfold RubySystem_functionalWrite.
  destruct (write_controllers_ok _ ok HL pkt pkt' Hfit Ha Hs ctrls Hok) as (cs & k & -> & HW). rsimpl. rewrite Hnet. rsimpl.
  do 3 eexists. split; [done |]. by eapply read_written.
Qed.

(** ** A controller of the kind the protocols generate *)

(** A copy of a line, in a transaction buffer entry or in the cache. *)
Record copy := { cp_perm : AccessPermission; cp_block : datablock }.
Record line_holder := { lh_tbes : gmap Z copy; lh_cache : gmap Z copy }.

Section Holder.
Context (b : Z).

Definition lh_permission (c : line_holder) (addr : Z) : AccessPermission :=
  match lh_tbes c !! addr with
  | Some t => cp_perm t
  | None => match lh_cache c !! addr with Some e => cp_perm e | None => AccessPermission_NotPresent end
  end.

Definition read_copy (addr : Z) (o : option copy) (pkt : fpacket) : res fpacket :=
  match o with Some e => r ← testAndRead b addr (cp_block e) pkt; Ok r.2 | None => Err EUninit end.

Definition lh_read (c : line_holder) (addr : Z) (pkt : fpacket) : res fpacket :=
  match lh_tbes c !! addr with Some t => read_copy addr (Some t) pkt | None => read_copy addr (lh_cache c !! addr) pkt end.

Definition write_copy (addr : Z) (e : copy) (pkt : fpacket) : res (copy * Z) :=
  r ← testAndWrite b addr (cp_block e) pkt; Ok ({| cp_perm := cp_perm e; cp_block := r.2 |}, if (r.1 : bool) then 1 else 0).

Definition lh_write (c : line_holder) (addr : Z) (pkt : fpacket) : res (line_holder * Z) :=
  match lh_tbes c !! addr with
  | Some t => r ← write_copy addr t pkt; Ok ({| lh_tbes := <[addr := r.1]> (lh_tbes c); lh_cache := lh_cache c |}, r.2)
  | None =>
      match lh_cache c !! addr with
      | Some e => r ← write_copy addr e pkt; Ok ({| lh_tbes := lh_tbes c; lh_cache := <[addr := r.1]> (lh_cache c) |}, r.2)
      | None => Err EUninit
      end
  end.

(** *** Written bytes are read back *)

Lemma foldM_app {T A} (f : T -> A -> res T) l k t : foldM f (l ++ k) t = foldM f l t ≫= foldM f k.
Proof.
  revert t. induction l as [|a l IH]; intros t; [done |]. cbn [app foldM]. destruct (f t a) as [t1|]; [apply IH | done].
Qed.

(** A loop that ended kept its invariant. *)
Lemma foldM_upto_inv {T} (f : T -> Z -> res T) (P : Z -> T -> Prop) n t t' :
  0 <= n -> P 0 t -> (forall i t t', 0 <= i < n -> P i t -> f t i = Ok t' -> P (i + 1) t') ->
  foldM f (upto n) t = Ok t' -> P n t'.
Proof.
  intros Hn Ht Hf. revert n Hn t t' Ht Hf. apply (natlike_ind (fun n => forall t t', P 0 t ->
    (forall i t t', 0 <= i < n -> P i t -> f t i = Ok t' -> P (i + 1) t') -> foldM f (upto n) t = Ok t' -> P n t')).
  - intros t t' Ht _ [= <-]. done.
  - intros k Hk IH t t' Ht Hf H. change (Z.succ k) with (k + 1) in *. rewrite upto_succ in H by done.
    rewrite foldM_app in H. apply res_bind_Ok_inv in H as (t1 & H1 & H). cbn [foldM] in H. apply res_bind_Ok_inv in H as (t2 & H2 & [= <-]).
    apply (Hf k t1 t2); [lia | | done]. apply (IH t t1 Ht); [| done]. intros i ? ? Hi. apply Hf. lia.
Qed.

Lemma write_bytes (data : list Z) (blk blk' : datablock) s :
  0 <= s -> s + Z.of_nat (length data) <= 2 ^ 32 ->
  foldM (fun blk i => x ← vget data i; setByte blk (u32 (i + s)) x) (upto (Z.of_nat (length data))) blk = Ok blk' ->
  forall i, 0 <= i < Z.of_nat (length data) -> vget blk' (s + i) = vget data i.
Proof.
  intros Hs Hn H. refine (foldM_upto_inv _ (fun k blk => forall i, 0 <= i < k -> vget blk (s + i) = vget data i) _ _ _ _ _ _ H); [lia | lia |].
  intros k t t' Hk IH E. apply res_bind_Ok_inv in E as (x & Ex & E). rewrite u32_id in E by (unfold in_u32; lia). unfold setByte in E.
  intros i Hi. destruct (decide (i = k)) as [->|Hne].
  - rewrite Ex, Z.add_comm. by eapply vset_get_eq.
  - rewrite (vset_get_ne _ _ (s + i) _ _ E) by lia. apply IH. lia.
Qed.

Lemma read_bytes (src data : list Z) (blk : datablock) s :
  0 <= s -> s + Z.of_nat (length data) <= 2 ^ 32 -> length src = length data ->
  (forall i, 0 <= i < Z.of_nat (length data) -> vget blk (s + i) = vget src i) ->
  foldM (fun data i => x ← getByte blk (u32 (i + s)); vset data i x) (upto (Z.of_nat (length data))) data = Ok src.
Proof.
  intros Hs Hn Hl Hb.
  destruct (foldM_upto (fun data i => x ← getByte blk (u32 (i + s)); vset data i x)
    (fun k d => length d = length src /\ forall i, 0 <= i < k -> vget d i = vget src i) (Z.of_nat (length data)) data) as (d & -> & Hd & Hv).
  - lia.
  - split; [done | lia].
  - intros i d Hi [Hd Hv]. rewrite u32_id by (unfold in_u32; lia). unfold getByte. rewrite Z.add_comm, Hb by lia.
    destruct (vget_is_ok src i) as [x Hx]; [lia |]. rewrite Hx. rsimpl. destruct (vset_is_ok d i x) as [d' Hd']; [lia |]. exists d'.
    split; [done |]. split; [by rewrite (vset_length _ _ _ _ Hd') |]. intros j Hj. destruct (decide (j = i)) as [->|Hne].
    + rewrite Hx. by eapply vset_get_eq.
    + rewrite (vset_get_ne _ _ j _ _ Hd') by done. apply Hv. lia.
  - f_equal. apply list_eq_same_length with (length src); [done | done |]. intros i x y Hi Hx Hy.
    specialize (Hv (Z.of_nat i) ltac:(lia)). apply vget_nat in Hx, Hy. congruence.
Qed.

Lemma write_bytes_total (data : list Z) (blk : datablock) s :
  0 <= s -> s + Z.of_nat (length data) <= Z.of_nat (length blk) -> Z.of_nat (length blk) <= 2 ^ 32 ->
  exists blk', foldM (fun blk i => x ← vget data i; setByte blk (u32 (i + s)) x) (upto (Z.of_nat (length data))) blk = Ok blk' /\
    length blk' = length blk.
Proof.
  intros Hs Hn Hb. apply (foldM_upto _ (fun _ d => length d = length blk)); [lia | done |].
  intros i d Hi Hd. destruct (vget_is_ok data i Hi) as [x ->]. rsimpl. rewrite u32_id by (unfold in_u32; lia). unfold setByte.
  destruct (vset_is_ok d (i + s) x) as [d' E]; [lia |]. exists d'. split; [done |]. by rewrite (vset_length _ _ _ _ E).
Qed.

Lemma startByte_eq pkt : 0 <= b <= 32 -> in_u64 (fp_addr pkt) -> startByte pkt (makeLineAddress b (fp_addr pkt)) = fp_addr pkt mod 2 ^ b.
Proof.
  intros Hb Hu. assert (0 < 2 ^ b) by (apply Z.pow_pos_nonneg; lia). pose proof (Z.pow_le_mono_r 2 b 32).
  pose proof (Z.mod_pos_bound (fp_addr pkt) (2 ^ b)) as Hm.
  unfold startByte, makeLineAddress. rewrite mbits_high by (done || lia). rewrite u32_id by (unfold in_u32; lia). lia.
Qed.

Lemma testAndWrite_total addr blk pkt :
  0 <= b <= 32 -> fits_line b pkt -> makeLineAddress b addr = makeLineAddress b (fp_addr pkt) -> Z.of_nat (length blk) = 2 ^ b ->
  exists blk', testAndWrite b addr blk pkt = Ok (true, blk') /\ length blk' = length blk.
Proof.
  intros Hb [Hu Hfit] Hl Hlen. unfold testAndWrite. rewrite Hl, Z.eqb_refl, startByte_eq by done.
  assert (0 < 2 ^ b) by (apply Z.pow_pos_nonneg; lia). pose proof (Z.pow_le_mono_r 2 b 32).
  pose proof (Z.mod_pos_bound (fp_addr pkt) (2 ^ b)) as Hm. unfold fp_size in *.
  destruct (write_bytes_total (fp_data pkt) blk (fp_addr pkt mod 2 ^ b)) as (blk' & -> & E); [lia | lia | lia |]. rsimpl. eauto.
Qed.

Lemma testAndWrite_read addr blk blk' pkt pkt' r :
  0 <= b <= 32 -> fits_line b pkt -> fp_addr pkt' = fp_addr pkt -> fp_size pkt' = fp_size pkt ->
  makeLineAddress b addr = makeLineAddress b (fp_addr pkt) ->
  testAndWrite b addr blk pkt = Ok (r, blk') -> testAndRead b addr blk' pkt' = Ok (true, pkt).
Proof.
  intros Hb [Hu Hfit] Ha Hs Hl H. unfold testAndWrite in H. unfold testAndRead. rewrite Ha, Hl, Z.eqb_refl in *.
  apply res_bind_Ok_inv in H as (blk1 & H & E). injection E as <- <-.
  assert (0 < 2 ^ b) by (apply Z.pow_pos_nonneg; lia). pose proof (Z.pow_le_mono_r 2 b 32).
  pose proof (Z.mod_pos_bound (fp_addr pkt) (2 ^ b)) as Hm. unfold fp_size in *. pose proof (startByte_eq pkt Hb Hu) as Hst.
  assert (startByte pkt' (makeLineAddress b (fp_addr pkt)) = fp_addr pkt mod 2 ^ b) as Hst' by (unfold startByte in *; by rewrite Ha).
  rewrite Hst in H. rewrite Hst'. rewrite (read_bytes (fp_data pkt) (fp_data pkt') blk1).
  - rsimpl. destruct pkt as [a d], pkt' as [a' d']. cbn in *. by subst a'.
  - lia.
  - lia.
  - lia.
  - intros i Hi. eapply write_bytes; [| | exact H |]; lia.
Qed.

#[export] Instance holder_controller : AbstractController line_holder := {|
  getAccessPermission := lh_permission;
  functionalRead := lh_read;
  functionalWrite := lh_write;
  functionalReadBuffers c pkt := Ok (false, pkt);
  functionalWriteBuffers c pkt := Ok (c, 0);
  cpu_sequencer_write c pkt := None;
  dma_sequencer_write c pkt := None
|}.

(** The blocks have the size of a line. *)
Definition holder_ok (c : line_holder) : Prop :=
  (forall l e, lh_tbes c !! l = Some e -> Z.of_nat (length (cp_block e)) = 2 ^ b) /\
  (forall l e, lh_cache c !! l = Some e -> Z.of_nat (length (cp_block e)) = 2 ^ b).

Lemma write_copy_ok e pkt :
  let l := makeLineAddress b (fp_addr pkt) in
  0 <= b <= 32 -> fits_line b pkt -> Z.of_nat (length (cp_block e)) = 2 ^ b ->
  exists e' n, write_copy l e pkt = Ok (e', n) /\ cp_perm e' = cp_perm e /\ length (cp_block e') = length (cp_block e) /\
    forall pkt', fp_addr pkt' = fp_addr pkt -> fp_size pkt' = fp_size pkt -> read_copy l (Some e') pkt' = Ok pkt.
Proof.
  intros l Hb Hfit Hlen.
  assert (makeLineAddress b l = makeLineAddress b (fp_addr pkt)) as Hl by (unfold l, makeLineAddress; apply mbits_mbits; lia).
  destruct (testAndWrite_total l (cp_block e) pkt Hb Hfit Hl Hlen) as (blk & E & Hlb). unfold write_copy. rewrite E. rsimpl.
  do 2 eexists. split_and!; [done | done | done |]. intros pkt' Ha Hs. cbn [read_copy cp_block].
  by rewrite (testAndWrite_read _ _ _ _ _ _ Hb Hfit Ha Hs Hl E).
Qed.

(** The laws hold for such controllers. *)
#[export] Instance holder_laws : 0 <= b <= 32 -> ControllerLaws b holder_ok.
Proof.
  intros Hb. split; cbn [getAccessPermission functionalRead functionalWrite functionalWriteBuffers cpu_sequencer_write dma_sequencer_write
    holder_controller]; try done.
  - intros c pkt Hok _. by exists c, 0.
  - intros c pkt [Ht Hc] Hfit _ Hnp. set (l := makeLineAddress b (fp_addr pkt)) in *. unfold keeps. cbn [getAccessPermission holder_controller].
    unfold lh_permission, lh_write, lh_read in *. destruct (lh_tbes c !! l) as [t|] eqn:Et.
    + destruct (write_copy_ok t pkt Hb Hfit (Ht l t Et)) as (e & n & E & HP & Hlen & HR). fold l in E, HR. rewrite E. rsimpl.
      do 2 eexists. split; [done |]. cbn [lh_tbes lh_cache]. split; [split; [split |] |].
      * intros k x. cbn [lh_tbes lh_cache]. rewrite lookup_insert_Some. intros [[<- <-] | [_ ?]]; [rewrite Hlen |]; by eapply Ht.
      * done.
      * intros a. destruct (decide (l = a)) as [<-|]; [by rewrite lookup_insert_eq, Et | by rewrite lookup_insert_ne].
      * rewrite lookup_insert_eq. done.
    + destruct (lh_cache c !! l) as [t|] eqn:Ec; [| done].
      destruct (write_copy_ok t pkt Hb Hfit (Hc l t Ec)) as (e & n & E & HP & Hlen & HR). fold l in E, HR. rewrite E. rsimpl.
      do 2 eexists. split; [done |]. cbn [lh_tbes lh_cache]. split; [split; [split |] |].
      * done.
      * intros k x. cbn [lh_tbes lh_cache]. rewrite lookup_insert_Some. intros [[<- <-] | [_ ?]]; [rewrite Hlen |]; by eapply Hc.
      * intros a. destruct (decide (l = a)) as [<-|]; [by rewrite Et, lookup_insert_eq, Ec | by rewrite lookup_insert_ne].
      * rewrite Et, lookup_insert_eq. done.
Qed.
End Holder.

(** A cache with a writable copy and memory with an old one. *)
Definition demo_holders : list line_holder :=
  [{| lh_tbes := ∅; lh_cache := {[ 64 := {| cp_perm := AccessPermission_Maybe_Stale; cp_block := replicate 64 9 |} ]} |};
   {| lh_tbes := ∅; lh_cache := {[ 64 := {| cp_perm := AccessPermission_Read_Write; cp_block := replicate 64 1 |} ]} |}].
Definition demo_write : fpacket := {| fp_addr := 68; fp_data := [5; 6; 7] |}.

Lemma functional_write_read_witness :
  exists ctrls' net' n,
    RubySystem_functionalWrite (AbstractController0 := holder_controller 6) 6 (fun (_ : unit) _ => Ok (tt, 0)) demo_holders tt demo_write =
      Ok (ctrls', net', n) /\
    RubySystem_functionalRead (AbstractController0 := holder_controller 6) 6 (fun (_ : unit) p => Ok (false, p)) ctrls' net'
      {| fp_addr := 68; fp_data := [0; 0; 0] |} = Ok (true, demo_write).
Proof.
  apply (functional_write_read (AbstractController0 := holder_controller 6) 6 (fun (_ : unit) p => Ok (false, p))
    (fun (_ : unit) _ => Ok (tt, 0)) (holder_ok 6) demo_holders tt demo_write);
    [apply holder_laws; lia | | by eexists | split; vm_compute; [split; done | done] | done | done | done | left; vm_compute; done].
  repeat constructor; cbn [lh_tbes lh_cache]; intros l e; rewrite ?lookup_empty, ?lookup_singleton_Some; try done; by intros [_ <-].
Defined.
