(* ===== verification/ControllerQueues.v ===== *)
(** * Stalled messages of a coherence controller

    Models the part of [mem/ruby/slicc_interface/AbstractController.{hh,cc}]
    that all generated controllers share: the buffers that wait for a line
    ([stallBuffer], [wakeUpBuffers], [wakeUpAllBuffers]) and the lines that
    are blocked ([blockOnQueue], [unblock], [isBlocked]).

    A controller has an input port of every rank below [m_in_ports]; its message
    buffers are named by identifiers, and [cq_bufs] holds them.  [wakeUpBuffers]
    wakes the ports of lower rank only but forgets all that waited for the line,
    so a message can stay stalled without being registered.  The theorem shows
    that every wake-up succeeds and brings back the stalled messages of the
    buffers that are registered, and that [wakeUpAllBuffers] brings back all as
    long as no [wakeUpBuffers] forgot a port it did not wake; the example shows
    a message that is left stalled. *)
From S2P Require Import Prelude StdHeap NetDest Common MessageBuffer.

Record ControllerQueues := {
  m_waiting_buffers : gmap Z (list (option Z));
  m_in_ports : Z;
  m_cur_in_port : Z;
  m_is_blocking : bool;
  m_block_map : gmap Z Z;
  cq_bufs : list MessageBuffer
}.

#[export] Instance ControllerQueues_eta : Eta ControllerQueues := {| eta := fun c =>
  {| m_waiting_buffers := m_waiting_buffers c; m_in_ports := m_in_ports c; m_cur_in_port := m_cur_in_port c;
     m_is_blocking := m_is_blocking c; m_block_map := m_block_map c; cq_bufs := cq_bufs c |} |}.

Definition stallBuffer (c : ControllerQueues) (buf addr : Z) : res ControllerQueues :=
  let msgVec := default (replicate (Z.to_nat (m_in_ports c)) None) (m_waiting_buffers c !! addr) in
  _ ← cassert (m_cur_in_port c <? m_in_ports c);
  msgVec ← vset msgVec (m_cur_in_port c) (Some buf);
  Ok (c ⟨ m_waiting_buffers := <[addr := msgVec]> (m_waiting_buffers c) ⟩).

(** [if (p != NULL) p->op()] on a buffer. *)
Definition wake_slot (op : MessageBuffer -> res (MessageBuffer * list mb_event)) (bufs : list MessageBuffer) (slot : option Z)
    : res (list MessageBuffer) :=
  match slot with
  | None => Ok bufs
  | Some buf => b ← vget bufs buf; r ← op b; vset bufs buf r.1
  end.

(** The loop over the ranks below [n], downwards. *)
Definition wake_ranks (addr clockEdge : Z) (msgVec : list (option Z)) (n : Z) (bufs : list MessageBuffer) : res (list MessageBuffer) :=
  foldM (fun bufs rank => slot ← vget msgVec rank; wake_slot (fun b => reanalyzeMessages b addr clockEdge) bufs slot)
    (reverse (upto n)) bufs.

Definition wake_line (c : ControllerQueues) (addr clockEdge n : Z) : res ControllerQueues :=
  match m_waiting_buffers c !! addr with
  | None => Ok c
  | Some msgVec =>
      bufs ← wake_ranks addr clockEdge msgVec n (cq_bufs c);
      Ok (c ⟨ cq_bufs := bufs ⟩ ⟨ m_waiting_buffers := delete addr (m_waiting_buffers c) ⟩)
  end.

Definition wakeUpBuffers (c : ControllerQueues) (addr clockEdge : Z) : res ControllerQueues := wake_line c addr clockEdge (m_cur_in_port c).
Definition wakeUpAllBuffers_addr (c : ControllerQueues) (addr clockEdge : Z) : res ControllerQueues := wake_line c addr clockEdge (m_in_ports c).

(** The entries in the order a [std::map] is iterated in. *)
Definition vec_le (a b : Z * list (option Z)) : Prop := a.1 <= b.1.
#[export] Instance vec_le_dec : RelDecision vec_le := fun a b => Z.le_dec a.1 b.1.
Definition waiting_slots (w : gmap Z (list (option Z))) : list (option Z) := merge_sort vec_le (map_to_list w) ≫= snd.

(** A buffer already woken is skipped. *)
Definition wake_once (clockEdge : Z) (st : list MessageBuffer * gset Z) (slot : option Z) : res (list MessageBuffer * gset Z) :=
  match slot with
  | None => Ok st
  | Some buf =>
      if decide (buf ∈ st.2) then Ok st
      else bufs ← wake_slot (fun b => reanalyzeAllMessages b clockEdge) st.1 slot; Ok (bufs, {[ buf ]} ∪ st.2)
  end.

Definition wakeUpAllBuffers (c : ControllerQueues) (clockEdge : Z) : res ControllerQueues :=
  r ← foldM (wake_once clockEdge) (waiting_slots (m_waiting_buffers c)) (cq_bufs c, ∅);
  Ok (c ⟨ cq_bufs := r.1 ⟩ ⟨ m_waiting_buffers := ∅ ⟩).

Definition blockOnQueue (c : ControllerQueues) (addr port : Z) : ControllerQueues :=
  c ⟨ m_is_blocking := true ⟩ ⟨ m_block_map := <[addr := port]> (m_block_map c) ⟩.

Definition isBlocked_const (c : ControllerQueues) (addr : Z) : bool := m_is_blocking c && bool_decide (is_Some (m_block_map c !! addr)).
Definition isBlocked (c : ControllerQueues) (addr : Z) : bool := bool_decide (is_Some (m_block_map c !! addr)).

Definition unblock (c : ControllerQueues) (addr : Z) : ControllerQueues :=
  let c := c ⟨ m_block_map := delete addr (m_block_map c) ⟩ in
  if Z.of_nat (size (m_block_map c)) =? 0 then c ⟨ m_is_blocking := false ⟩ else c.

(** The two versions of [isBlocked] agree: some line is blocked exactly while
    [m_is_blocking] is set. *)
Definition blocking_ok (c : ControllerQueues) : Prop := m_is_blocking c = false -> m_block_map c = ∅.

Lemma blockOnQueue_ok c addr port : blocking_ok (blockOnQueue c addr port).
Proof. done. Qed.

Lemma unblock_ok c addr : blocking_ok c -> blocking_ok (unblock c addr).
Proof.
  intros Hc. unfold unblock. cbn [setf m_block_map]. destruct (_ =? 0) eqn:E; b2p; unfold blocking_ok.
  - intros _. cbn [setf m_block_map]. apply map_size_empty_iff. lia.
  - cbn [setf m_is_blocking m_block_map]. intros H. rewrite (Hc H). apply delete_empty.
Qed.

Lemma isBlocked_agree c addr : blocking_ok c -> isBlocked_const c addr = isBlocked c addr.
Proof.
  intros Hc. unfold isBlocked_const, isBlocked. destruct (m_is_blocking c) eqn:E; [done |]. rewrite (Hc E), lookup_empty. done.
Qed.

(** ** Waking one buffer *)

(** A buffer whose messages can be woken at time [now]. *)
Record wakeable (now : Z) (b : MessageBuffer) : Prop := {
  wk_ok : mb_ok b;
  wk_size : occupancy b < 2 ^ 31;
  wk_consumer : m_consumer b <> None;
  wk_times a lt m : m_stall_msg_map b !! a = Some lt -> m ∈ lt -> m_LastEnqueueTime m <= now
}.

(** The messages stalled for the lines [drop] came back, the others stay, and
    none is lost. *)
Definition woken (drop : Z -> bool) (b b' : MessageBuffer) : Prop :=
  (forall a, m_stall_msg_map b' !! a = if drop a then None else m_stall_msg_map b !! a) /\ conserves b b' [] [].

Lemma reanalyzeList_total b lt t :
  m_consumer b <> None -> (forall m, m ∈ lt -> m_LastEnqueueTime m <= t) -> exists r, reanalyzeList b lt t = Ok r.
Proof.
  intros Hc. revert b Hc. induction lt as [|m lt IH]; intros b Hc Ht; cbn [reanalyzeList]; [by eexists |].
  rewrite (proj2 (Z.leb_le _ _)) by (apply Ht; by left). rsimpl. set (b1 := setf m_prio_heap _ b).
  assert (m_consumer b1 <> None) as Hc1 by done. unfold wake. destruct (m_consumer b1) eqn:E; [| done]. rsimpl.
  destruct (IH b1) as [r ->]; [congruence | intros m' Hm'; apply Ht; by right |]. rsimpl. by eexists.
Qed.

Lemma reanalyze_entry_total t b evs e :
  m_consumer b <> None -> Z.of_nat (length e.2) <= m_stall_map_size b < 2 ^ 31 -> (forall m, m ∈ e.2 -> m_LastEnqueueTime m <= t) ->
  exists b' evs', reanalyze_entry t (b, evs) e = Ok (b', evs').
Proof.
  intros Hc Hs Ht. unfold reanalyze_entry. rewrite i32_id by (unfold in_i32; lia). set (b1 := setf m_stall_map_size _ b).
  cbn [b1 setf m_stall_map_size]. rewrite (proj2 (Z.leb_le _ _)) by lia. rsimpl.
  destruct (reanalyzeList_total b1 e.2 t) as [[b2 ev] ->]; [done | done |]. rsimpl. by eexists _, _.
Qed.

Lemma reanalyzeMessages_woken now b a :
  wakeable now b -> is_Some (m_stall_msg_map b !! a) -> exists r, reanalyzeMessages b a now = Ok r /\ woken (Z.eqb a) b r.1.
Proof.
  intros [Hok Hsz Hc Ht] [lt Hlt]. pose proof Hok as [_ Hs]. rewrite occupancy_eq in Hsz.
  pose proof (Permutation_length (stalled_delete _ _ _ Hlt)) as Hl. rewrite length_app in Hl.
  unfold stalled_count, heap_size in *.
  destruct (reanalyze_entry_total now b [] (a, lt)) as (b1 & evs & E1); cbn [snd]; [done | lia | by eauto |].
  assert (exists r, reanalyzeMessages b a now = Ok r /\ m_stall_msg_map r.1 = delete a (m_stall_msg_map b)) as ([b' e] & E & Em).
  { unfold reanalyzeMessages. rewrite Hlt, E1. rsimpl. eexists. split; [done |]. cbn [fst snd setf m_stall_msg_map].
    apply reanalyze_entry_spec in E1 as (h & -> & _); cbn [snd]; [done | lia]. }
  exists (b', e). split; [done |]. split.
  - intros k. cbn [fst] in *. rewrite Em. destruct (Z.eqb_spec a k) as [<-|]; [apply lookup_delete_eq | by apply lookup_delete_ne].
  - eapply reanalyzeMessages_conserves; [done | rewrite occupancy_eq; unfold stalled_count, heap_size; lia | done].
Qed.

Lemma reanalyze_entries_total t es b evs :
  m_consumer b <> None -> Z.of_nat (length (es ≫= snd)) <= m_stall_map_size b < 2 ^ 31 ->
  (forall m, m ∈ es ≫= snd -> m_LastEnqueueTime m <= t) -> exists r, foldM (reanalyze_entry t) es (b, evs) = Ok r.
Proof.
  revert b evs. induction es as [|e es IH]; intros b evs Hc Hs Ht; cbn [foldM]; [by eexists |].
  rewrite bind_cons, length_app in *.
  destruct (reanalyze_entry_total t b evs e) as (b1 & evs1 & E); [done | lia | |].
  { intros m Hm. apply Ht, elem_of_app. by left. }
  rewrite E. rsimpl. apply reanalyze_entry_spec in E as (h & -> & _); [| lia].
  apply IH; [done | cbn [setf m_stall_map_size]; lia |]. intros m Hm. apply Ht, elem_of_app. by right.
Qed.

Lemma reanalyzeAllMessages_woken now b :
  wakeable now b -> exists r, reanalyzeAllMessages b now = Ok r /\ woken (fun _ => true) b r.1.
Proof.
  intros [Hok Hsz Hc Ht]. pose proof Hok as [_ Hs]. pose proof Hsz as Hsz'. rewrite occupancy_eq in Hsz'.
  unfold stalled_count, heap_size in *.
  destruct (reanalyze_entries_total now (stall_list (m_stall_msg_map b)) b []) as [r1 E1]; [done | | |].
  - fold (stalled (m_stall_msg_map b)). lia.
  - fold (stalled (m_stall_msg_map b)). intros m Hm. rewrite stalled_map_to_list in Hm.
    apply list_elem_of_bind in Hm as ([a lt] & Hm & Hin%elem_of_map_to_list). by eapply Ht.
  - assert (exists r, reanalyzeAllMessages b now = Ok r /\ m_stall_msg_map r.1 = ∅) as ([b' e] & E & Em).
    { unfold reanalyzeAllMessages. rewrite E1. rsimpl. by eexists. }
    exists (b', e). split; [done |]. split; [intros k; cbn [fst] in *; by rewrite Em, lookup_empty |].
    by eapply reanalyzeAllMessages_conserves.
Qed.

(** ** Waking the buffers of a controller *)

(** The buffers [touched] changed as [Q] says, the others not at all. *)
Definition updated (touched : nat -> Prop) (Q : MessageBuffer -> MessageBuffer -> Prop) (l l' : list MessageBuffer) : Prop :=
  forall r, (l !! r = None /\ l' !! r = None) \/
    exists b b', l !! r = Some b /\ l' !! r = Some b' /\ ((touched r /\ Q b b') \/ (~ touched r /\ b' = b)).

Lemma updated_none (T : nat -> Prop) Q l : (forall r, ~ T r) -> updated T Q l l.
Proof. intros HT r. destruct (l !! r) eqn:E; [right | by left]. do 2 eexists. split_and!; [done | done |]. right. split; [apply HT | done]. Qed.

Lemma updated_more (T T' : nat -> Prop) Q l r b b' l' :
  l !! r = Some b -> Q b b' -> ~ T' r -> (forall k, T k <-> k = r \/ T' k) -> updated T' Q (<[r := b']> l) l' -> updated T Q l l'.
Proof.
  intros Hb HQ Hr HT HU k. destruct (HU k) as [[H1 H2] | (x & x' & H1 & H2 & H3)].
  - left. split; [| done]. apply lookup_ge_None. apply lookup_ge_None in H1. by rewrite length_insert in H1.
  - right. destruct (decide (k = r)) as [-> | Hk].
    + rewrite list_lookup_insert_eq in H1 by eauto using lookup_lt_Some. injection H1 as <-.
      destruct H3 as [[? _] | [_ ->]]; [done |]. exists b, b'. split_and!; [done | done |]. left. split; [apply HT; by left | done].
    + rewrite list_lookup_insert_ne in H1 by done. exists x, x'. split_and!; [done | done |].
      destruct H3 as [[? ?] | [? ?]]; [left | right]; (split; [rewrite HT; naive_solver | done]).
Qed.

Lemma updated_iff (T T' : nat -> Prop) Q l l' : (forall k, T k <-> T' k) -> updated T Q l l' -> updated T' Q l l'.
Proof. intros HT HU k. destruct (HU k) as [? | (x & x' & H1 & H2 & H3)]; [by left | right]. exists x, x'. rewrite <- HT. done. Qed.

Lemma updated_Forall2 T Q l l' :
  updated T Q l l' -> (forall r b, l !! r = Some b -> ~ T r -> Q b b) -> Forall2 Q l l'.
Proof.
  intros HU HQ. apply Forall2_lookup. intros r. destruct (HU r) as [[-> ->] | (x & x' & H1 & H2 & H3)]; [constructor |].
  rewrite H1, H2. constructor. destruct H3 as [[_ ?] | [? ->]]; eauto.
Qed.

Lemma wake_slot_val op bufs r b x :
  bufs !! r = Some b -> op b = Ok x -> wake_slot op bufs (Some (Z.of_nat r)) = Ok (<[r := x.1]> bufs).
Proof.
  intros Hb Hx. unfold wake_slot. rewrite (vget_nat _ _ _ Hb). rsimpl. rewrite Hx. rsimpl.
  apply vset_Ok. apply lookup_lt_Some in Hb. split; [lia | by rewrite Nat2Z.id].
Qed.

Section Wake.
Context (now addr : Z) (msgVec : list (option Z)).
Hypothesis slot_rank : forall r q, msgVec !! r = Some (Some q) -> q = Z.of_nat r.

Definition waits (r : nat) : Prop := msgVec !! r = Some (Some (Z.of_nat r)).

Lemma wake_ranks_ok ranks bufs :
  NoDup ranks -> (forall k, k ∈ ranks -> 0 <= k < Z.of_nat (length msgVec)) ->
  (forall r, waits r -> Z.of_nat r ∈ ranks ->
    exists b, bufs !! r = Some b /\ wakeable now b /\ is_Some (m_stall_msg_map b !! addr)) ->
  exists bufs', foldM (fun bufs rank => slot ← vget msgVec rank; wake_slot (fun b => reanalyzeMessages b addr now) bufs slot)
                  ranks bufs = Ok bufs' /\
    updated (fun r => waits r /\ Z.of_nat r ∈ ranks) (woken (Z.eqb addr)) bufs bufs'.
Proof.
  revert bufs. induction ranks as [|k ranks IH]; intros bufs Hnd Hr Hb; cbn [foldM].
  { exists bufs. split; [done |]. apply updated_none. intros r [_ ?%not_elem_of_nil]. done. }
  apply NoDup_cons in Hnd as [Hk Hnd]. pose proof (Hr k (list_elem_of_here _ _)) as Hk0.
  destruct (vget_is_ok msgVec k Hk0) as [slot Es]. rewrite Es. rsimpl. apply vget_Ok in Es as [_ Es].
  destruct slot as [q|].
  - pose proof (slot_rank _ _ Es) as Hq. rewrite Z2Nat.id in Hq by lia. subst q.
    assert (k = Z.of_nat (Z.to_nat k)) as Ek by lia. rewrite Ek in *. rewrite Nat2Z.id in *. set (r := Z.to_nat k) in *.
    destruct (Hb r) as (b & E1 & E2 & E3); [done | by left |].
    destruct (reanalyzeMessages_woken now b addr E2 E3) as (x & Ex & Hx).
    rewrite (wake_slot_val _ _ _ _ _ E1 Ex). rsimpl.
    destruct (IH (<[r := x.1]> bufs)) as (bufs' & E & HU); [done | intros; apply Hr; by right | |].
    { intros r' Hw Hin. destruct (decide (r' = r)) as [-> | Hne]; [done |].
      rewrite list_lookup_insert_ne by done. apply Hb; [done | by right]. }
    exists bufs'. split; [done |]. eapply updated_more; [done | done | | | done].
    + intros [_ ?]. done.
    + intros j. rewrite elem_of_cons. split; [| intros [-> | [? ?]]; auto].
      intros [? [?%Nat2Z.inj | ?]]; [by left | right; done].
  - cbn [wake_slot]. destruct (IH bufs) as (bufs' & E & HU); [done | intros; apply Hr; by right | |].
    { intros r Hw Hin. apply Hb; [done | by right]. }
    rsimpl. exists bufs'. split; [done |]. eapply updated_iff; [| done]. intros j. rewrite elem_of_cons.
    split; [naive_solver |]. intros [Hw [Ej | ?]]; [| done]. exfalso. unfold waits in Hw. subst k. rewrite Nat2Z.id in Es. congruence.
Qed.

End Wake.

Lemma wake_once_ok now slots bufs done_ :
  (forall q, Some q ∈ slots -> exists r b, q = Z.of_nat r /\ bufs !! r = Some b /\ (q ∉ done_ -> wakeable now b)) ->
  exists r, foldM (wake_once now) slots (bufs, done_) = Ok r /\
    updated (fun r => Some (Z.of_nat r) ∈ slots /\ Z.of_nat r ∉ done_) (woken (fun _ => true)) bufs r.1.
Proof.
  revert bufs done_. induction slots as [|[q|] slots IH]; intros bufs dn Hb; cbn [foldM wake_once].
  - eexists. split; [done |]. apply updated_none. intros r [?%not_elem_of_nil _]. done.
  - cbn [fst snd]. case_decide as Hd.
    + rsimpl. destruct (IH bufs dn) as (r & E & HU); [intros; apply Hb; by right |].
      exists r. split; [done |]. eapply updated_iff; [| done]. intros j. rewrite elem_of_cons. naive_solver.
    + destruct (Hb q) as (r & b & -> & E1 & E2); [by left |]. specialize (E2 Hd).
      destruct (reanalyzeAllMessages_woken now b E2) as (x & Ex & Hx).
      rewrite (wake_slot_val _ _ _ _ _ E1 Ex). rsimpl.
      destruct (IH (<[r := x.1]> bufs) ({[Z.of_nat r]} ∪ dn)) as (r' & E & HU).
      { intros q Hq. destruct (Hb q) as (r' & b' & -> & E1' & E2'); [by right |].
        destruct (decide (r' = r)) as [-> | Hne].
        - exists r, x.1. rewrite list_lookup_insert_eq by eauto using lookup_lt_Some. split_and!; [done | done | set_solver].
        - exists r', b'. rewrite list_lookup_insert_ne by done. split_and!; [done | done | set_solver]. }
      exists r'. split; [done |]. eapply updated_more; [done | done | | | done].
      * set_solver.
      * intros j. rewrite elem_of_cons, not_elem_of_union, not_elem_of_singleton. split.
        -- intros [[Hj | Hj] Hjd]; [left; injection Hj; lia |]. destruct (decide (j = r)); [by left | right].
           split_and!; [done | lia | done].
        -- intros [-> | (? & ? & ?)]; [split; [by left | done] | split; [by right | done]].
  - rsimpl. destruct (IH bufs dn) as (r & E & HU); [intros; apply Hb; by right |].
    exists r. split; [done |]. eapply updated_iff; [| done]. intros j. rewrite elem_of_cons. naive_solver.
Qed.

(** ** The invariant

    Buffer [r] is the one the port of rank [r] reads. *)
Definition registered (c : ControllerQueues) (a : Z) (r : nat) : Prop :=
  exists v, m_waiting_buffers c !! a = Some v /\ waits v r.

Record queues_ok (now : Z) (c : ControllerQueues) : Prop := {
  qo_ports : m_in_ports c = Z.of_nat (length (cq_bufs c));
  qo_vec a v : m_waiting_buffers c !! a = Some v -> length v = length (cq_bufs c);
  qo_slot a v r q : m_waiting_buffers c !! a = Some v -> v !! r = Some (Some q) -> q = Z.of_nat r;
  qo_cur : m_cur_in_port c <= m_in_ports c;
  qo_stalled a r b : cq_bufs c !! r = Some b -> registered c a r -> is_Some (m_stall_msg_map b !! a);
  qo_bufs r b : cq_bufs c !! r = Some b -> wakeable now b
}.

(** Every stalled message is registered. *)
Definition all_registered (c : ControllerQueues) : Prop :=
  forall a r b, cq_bufs c !! r = Some b -> is_Some (m_stall_msg_map b !! a) -> registered c a r.

(** What a wake-up does: it succeeds, forgets the lines [drop], returns their
    messages in the buffers [touched] and leaves the other buffers alone. *)
Definition wakes_some (touched : nat -> Prop) (drop : Z -> bool) (c : ControllerQueues) (r : res ControllerQueues) : Prop :=
  exists c', r = Ok c' /\ m_in_ports c' = m_in_ports c /\ m_cur_in_port c' = m_cur_in_port c /\
    (forall a, m_waiting_buffers c' !! a = if drop a then None else m_waiting_buffers c !! a) /\
    updated touched (woken drop) (cq_bufs c) (cq_bufs c').

(** What a wake-up promises: it succeeds, forgets the lines it woke, and
    returns their messages in every buffer. *)
Definition wakes (drop : Z -> bool) (c : ControllerQueues) (r : res ControllerQueues) : Prop :=
  exists c', r = Ok c' /\ m_in_ports c' = m_in_ports c /\
    (forall a, m_waiting_buffers c' !! a = if drop a then None else m_waiting_buffers c !! a) /\
    Forall2 (woken drop) (cq_bufs c) (cq_bufs c').

Lemma woken_refl now drop b :
  wakeable now b -> (forall a, drop a = true -> m_stall_msg_map b !! a = None) -> woken drop b b.
Proof.
  intros Hw Hd. split; [intros a; destruct (drop a) eqn:E; [by apply Hd | done] |].
  apply conserves_same; try done. apply Hw.
Qed.

(** When everything stalled is registered, returning the registered messages
    returns all. *)
Lemma wakes_some_all now T drop c r :
  queues_ok now c -> all_registered c -> (forall a k, drop a = true -> registered c a k -> T k) ->
  wakes_some T drop c r -> wakes drop c r.
Proof.
  intros Hq Hall HT (c' & Hr & Hp & _ & Hw & HU). exists c'. split_and!; [done | done | done |].
  eapply updated_Forall2; [done |]. intros k b Hb Hn. eapply woken_refl; [by eapply qo_bufs |].
  intros a Ha. apply eq_None_not_Some. intros Hst. eapply Hn, HT; [done |]. by eapply Hall.
Qed.

Lemma registered_buffer now c a r : queues_ok now c -> registered c a r -> exists b, cq_bufs c !! r = Some b.
Proof.
  intros Hq (v & Ev & Hr). apply lookup_lt_is_Some_2. rewrite <- (qo_vec _ _ Hq _ _ Ev). by eapply lookup_lt_Some.
Qed.

Lemma wake_line_wakes now c a n :
  queues_ok now c -> n <= m_in_ports c ->
  wakes_some (fun r => registered c a r /\ Z.of_nat r < n) (Z.eqb a) c (wake_line c a now n).
Proof.
  intros Hq Hn. unfold wake_line. destruct (m_waiting_buffers c !! a) as [v|] eqn:Ev.
  - destruct (wake_ranks_ok now a v (fun r q => qo_slot _ _ Hq _ _ r q Ev) (reverse (upto n)) (cq_bufs c))
      as (bufs & E & HU).
    + rewrite reverse_Permutation. apply NoDup_seqZ.
    + intros k Hk. rewrite elem_of_reverse, elem_of_upto in Hk. rewrite (qo_vec _ _ Hq _ _ Ev), <- (qo_ports _ _ Hq). lia.
    + intros r Hr _. assert (registered c a r) as Hreg by (by exists v).
      destruct (registered_buffer _ _ _ _ Hq Hreg) as [b Hb].
      exists b. split_and!; [done | by eapply qo_bufs | by eapply qo_stalled].
    + unfold wake_ranks. rewrite E. rsimpl. eexists. split_and!; [done | done | done | |].
      * intros k. cbn [setf m_waiting_buffers]. destruct (Z.eqb_spec a k) as [<-|]; [apply lookup_delete_eq | by apply lookup_delete_ne].
      * cbn [setf cq_bufs]. eapply updated_iff; [| done]. intros k. cbn beta. rewrite elem_of_reverse, elem_of_upto.
        split; [intros [Hw ?]; split; [by exists v | lia] |]. intros [(v' & Ev' & Hw) ?].
        replace v' with v in Hw by congruence. split; [done | lia].
  - exists c. split_and!; [done | done | done | |].
    + intros k. destruct (Z.eqb_spec a k) as [<-|]; done.
    + apply updated_none. intros r [(v & Ev' & _) _]. congruence.
Qed.

Lemma wakeUpBuffers_wakes now c a :
  queues_ok now c -> wakes_some (fun r => registered c a r /\ Z.of_nat r < m_cur_in_port c) (Z.eqb a) c (wakeUpBuffers c a now).
Proof. intros Hq. apply wake_line_wakes; [done |]. apply Hq. Qed.

Lemma wakes_some_iff (T T' : nat -> Prop) drop c r : (forall k, T k <-> T' k) -> wakes_some T drop c r -> wakes_some T' drop c r.
Proof.
  intros HT (c' & Hr & Hp & Hc & Hw & HU). exists c'. split_and!; try done. by eapply updated_iff.
Qed.

Lemma wakeUpAllBuffers_addr_wakes now c a : queues_ok now c -> wakes_some (registered c a) (Z.eqb a) c (wakeUpAllBuffers_addr c a now).
Proof.
  intros Hq. eapply wakes_some_iff; [| by apply wake_line_wakes].
  intros k. split; [by intros [? _] |]. intros Hr. split; [done |].
  destruct (registered_buffer _ _ _ _ Hq Hr) as [b Hb%lookup_lt_Some]. rewrite (qo_ports _ _ Hq). lia.
Qed.

Lemma elem_of_waiting_slots w slot : slot ∈ waiting_slots w <-> exists a v, w !! a = Some v /\ slot ∈ v.
Proof.
  unfold waiting_slots. rewrite list_elem_of_bind. split.
  - intros ([a v] & Hs & Hin). rewrite merge_sort_Permutation in Hin. apply elem_of_map_to_list in Hin. eauto.
  - intros (a & v & Ha & Hs). exists (a, v). rewrite merge_sort_Permutation. split; [done | by apply elem_of_map_to_list].
Qed.

Lemma wakeUpAllBuffers_wakes now c :
  queues_ok now c -> wakes_some (fun r => exists a, registered c a r) (fun _ => true) c (wakeUpAllBuffers c now).
Proof.
  intros Hq. unfold wakeUpAllBuffers.
  destruct (wake_once_ok now (waiting_slots (m_waiting_buffers c)) (cq_bufs c) ∅) as (x & E & HU).
  { intros q (a & v & Ev & [r Hr]%list_elem_of_lookup)%elem_of_waiting_slots.
    pose proof (qo_slot _ _ Hq _ _ _ _ Ev Hr) as ->.
    destruct (lookup_lt_is_Some_2 (cq_bufs c) r) as [b Hb].
    { rewrite <- (qo_vec _ _ Hq _ _ Ev). by eapply lookup_lt_Some. }
    exists r, b. split_and!; [done | done | intros _; by eapply qo_bufs]. }
  rewrite E. rsimpl. eexists. split_and!; [done | done | done | intros k; apply lookup_empty |].
  cbn [setf cq_bufs]. eapply updated_iff; [| done]. intros r. cbn beta. split.
  - intros [(a & v & Ev & [k Hk]%list_elem_of_lookup)%elem_of_waiting_slots _]. exists a, v. split; [done |].
    pose proof (qo_slot _ _ Hq _ _ _ _ Ev Hk) as ->%Nat2Z.inj. done.
  - intros (a & v & Ev & Hw). split; [| apply not_elem_of_empty]. apply elem_of_waiting_slots. exists a, v.
    split; [done |]. by eapply list_elem_of_lookup_2.
Qed.

Lemma woken_wakeable now drop b b' : wakeable now b -> woken drop b b' -> wakeable now b'.
Proof.
  intros [Hok Hs Hc Ht] (Hm & Hok' & (_ & _ & _ & Hc') & HP). split; [done | | congruence |].
  - apply Permutation_length in HP. rewrite !length_app, !length_fmap in HP. unfold occupancy in *. cbn [length] in HP. lia.
  - intros a lt m Hl. rewrite Hm in Hl. destruct (drop a); [done |]. by eapply Ht.
Qed.

(** A buffer after a wake-up, and where it came from. *)
Lemma updated_inv T Q l l' r (b' : MessageBuffer) :
  updated T Q l l' -> l' !! r = Some b' -> exists b, l !! r = Some b /\ ((T r /\ Q b b') \/ (~ T r /\ b' = b)).
Proof.
  intros HU Hb'. destruct (HU r) as [[_ ?] | (x & x' & H1 & H2 & H3)]; [congruence |].
  exists x. replace b' with x' by congruence. done.
Qed.

Lemma registered_wakes T drop c c' a r :
  wakes_some T drop c (Ok c') -> registered c' a r <-> drop a = false /\ registered c a r.
Proof.
  intros (c1 & [= <-] & _ & _ & Hw & _). unfold registered. setoid_rewrite Hw. destruct (drop a); [| tauto].
  split; [by intros (? & [=] & _) | by intros [? _]].
Qed.

Lemma updated_length T Q l l' : updated T Q l l' -> length l' = length l.
Proof.
  intros HU. apply Nat.le_antisymm; apply lookup_ge_None.
  - destruct (HU (length l)) as [[_ ?] | (x & x' & H1%lookup_lt_Some & _)]; [done | lia].
  - destruct (HU (length l')) as [[? _] | (x & x' & _ & H2%lookup_lt_Some & _)]; [done | lia].
Qed.

Lemma wakes_ok now T drop c c' : queues_ok now c -> wakes_some T drop c (Ok c') -> queues_ok now c'.
Proof.
  intros Hq Hwk. pose proof Hwk as (c1 & [= <-] & Hp & Hc & Hw & HU). pose proof (updated_length _ _ _ _ HU) as Hl.
  split.
  - rewrite Hp, Hl. apply Hq.
  - intros a v. rewrite Hw, Hl. destruct (drop a); [done |]. apply Hq.
  - intros a v r q. rewrite Hw. destruct (drop a); [done |]. apply Hq.
  - rewrite Hp, Hc. apply Hq.
  - intros a r b' Hb' [Hd Hreg]%(registered_wakes _ _ _ _ _ _ Hwk). destruct (updated_inv _ _ _ _ _ _ HU Hb') as (b & Hb & HQ).
    pose proof (qo_stalled _ _ Hq _ _ _ Hb Hreg) as Hst. destruct HQ as [[_ [Hm _]] | [_ ->]]; [| done]. by rewrite Hm, Hd.
  - intros r b' Hb'. destruct (updated_inv _ _ _ _ _ _ HU Hb') as (b & Hb & [[_ HW] | [_ ->]]).
    + eapply woken_wakeable; [| done]. by eapply qo_bufs.
    + by eapply qo_bufs.
Qed.

(** A wake-up that returns what it forgets keeps everything registered. *)
Lemma wakes_registered T drop c c' :
  all_registered c -> wakes_some T drop c (Ok c') -> (forall a r, drop a = true -> registered c a r -> T r) -> all_registered c'.
Proof.
  intros Hall Hwk HT a r b' Hb' Hst. pose proof Hwk as (c1 & [= <-] & Hp & Hc & Hw & HU).
  apply (registered_wakes _ _ _ _ _ _ Hwk). destruct (updated_inv _ _ _ _ _ _ HU Hb') as (b & Hb & [[_ [Hm _]] | [Hn ->]]).
  - rewrite Hm in Hst. destruct (drop a); [by destruct Hst |]. split; [done | by eapply Hall].
  - pose proof (Hall _ _ _ Hb Hst) as Hreg. split; [| done]. destruct (drop a) eqn:E; [| done]. exfalso. eauto.
Qed.

(** ** Runs of a controller *)

(** Calls on a buffer other than those that stall or wake messages. *)
Definition plain_op (op : mb_op) : bool :=
  match op with OpStall _ | OpReanalyze _ | OpReanalyzeAll => false | _ => true end.

Lemma plain_op_stalls rs t b op b' out :
  plain_op op = true -> mb_step rs t b op = Ok (b', out) -> m_stall_msg_map b' = m_stall_msg_map b.
Proof.
  intros Hp H. destruct op; try discriminate Hp; cbn [mb_step] in H;
    try (apply res_bind_Ok_inv in H as (x & Hx & H); injection H as <- <-).
  - destruct x. by apply enqueue_spec in Hx as (? & ? & _ & _ & _ & _ & _ & ? & _).
  - destruct x as [[[? ?] ?] ?]. by apply dequeue_spec in Hx as (? & _ & _ & _ & _ & _ & ? & _).
  - destruct x. by apply recycle_spec in Hx as (? & _ & _ & ->).
  - destruct x. apply delayHead_spec in Hx as (? & _ & Hx). by apply enqueue_spec in Hx as (? & ? & _ & _ & _ & _ & _ & ? & _).
  - injection H as <- <-. by destruct (areNSlots_same b n t) as [c ->].
  - destruct (getSize_same b t) as (c & d & E). rewrite E in H. injection H as <- _. done.
Qed.

Lemma plain_op_wakeable rs t b op b' out :
  plain_op op = true -> mb_step rs t b op = Ok (b', out) -> occupancy b' < 2 ^ 31 -> wakeable t b -> wakeable t b'.
Proof.
  intros Hp H Hs [Hok Hs0 Hc Ht]. pose proof (plain_op_stalls _ _ _ _ _ _ Hp H) as Hm.
  apply (mb_step_conserves _ _ _ _ _ _ Hok Hs0) in H as (Hok' & (_ & _ & _ & Hc') & _).
  split; [done | done | congruence |]. by rewrite Hm.
Qed.

Lemma stallMessage_map rs curTick b addr t b' evs :
  stallMessage rs curTick b addr t = Ok (b', evs) ->
  exists m, m_LastEnqueueTime m <= t /\ m_stall_msg_map b' = <[addr := default [] (m_stall_msg_map b !! addr) ++ [m]]> (m_stall_msg_map b).
Proof.
  unfold stallMessage. intros H. inv_res. destruct a2 as [[[b1 m] dl] evs1]. injection H as <- _. exists m.
  apply dequeue_spec in E2 as (m0 & _ & _ & Et & Hle & _ & Hm & _). split; [lia |]. cbn [setf m_stall_msg_map]. by rewrite Hm.
Qed.

Lemma stallMessage_wakeable rs b a t b' evs :
  stallMessage rs t b a t = Ok (b', evs) -> wakeable t b -> wakeable t b'.
Proof.
  intros H [Hok Hs Hc Ht]. destruct (stallMessage_map _ _ _ _ _ _ _ H) as (m & Hm & Hmap).
  apply (stallMessage_conserves _ _ _ _ _ _ _ Hok) in H as (Hok' & (_ & _ & _ & Hc') & HP). split; [done | | congruence |].
  - apply Permutation_length in HP. rewrite !length_app, !length_fmap in HP. unfold occupancy in *. cbn [length] in HP. lia.
  - intros k lt x. rewrite Hmap, lookup_insert_Some. intros [[<- <-] | [_ ?]]; [| by eapply Ht].
    intros [Hx | ->%list_elem_of_singleton]%elem_of_app; [| done].
    destruct (m_stall_msg_map b !! a) eqn:E; [by eapply Ht | by apply not_elem_of_nil in Hx].
Qed.

(** One action of a controller at time [now]: time passes; the next port is
    examined; a buffer is used in any way that stalls or wakes nothing; the
    [stall_and_wait] of a transition, which stalls the head of the current port;
    one of the three wake-ups; a line blocked or unblocked. *)
Inductive cq_step (rs : RubySystem) : Z * ControllerQueues -> Z * ControllerQueues -> Prop :=
  | cq_time now now' c : now <= now' -> cq_step rs (now, c) (now', c)
  | cq_port now c r : 0 <= r < m_in_ports c -> cq_step rs (now, c) (now, c ⟨ m_cur_in_port := r ⟩)
  | cq_buffer now c r b op b' out :
      plain_op op = true -> cq_bufs c !! r = Some b -> mb_step rs now b op = Ok (b', out) -> occupancy b' < 2 ^ 31 ->
      cq_step rs (now, c) (now, c ⟨ cq_bufs := <[r := b']> (cq_bufs c) ⟩)
  | cq_stall now c a b c' b' evs :
      vget (cq_bufs c) (m_cur_in_port c) = Ok b -> stallBuffer c (m_cur_in_port c) a = Ok c' ->
      stallMessage rs now b a now = Ok (b', evs) ->
      cq_step rs (now, c) (now, c' ⟨ cq_bufs := <[Z.to_nat (m_cur_in_port c) := b']> (cq_bufs c') ⟩)
  | cq_wake_lower now c a c' : wakeUpBuffers c a now = Ok c' -> cq_step rs (now, c) (now, c')
  | cq_wake now c a c' : wakeUpAllBuffers_addr c a now = Ok c' -> cq_step rs (now, c) (now, c')
  | cq_wake_all now c c' : wakeUpAllBuffers c now = Ok c' -> cq_step rs (now, c) (now, c')
  | cq_block now c a p : cq_step rs (now, c) (now, blockOnQueue c a p)
  | cq_unblock now c a : cq_step rs (now, c) (now, unblock c a).

(** The step is a [wakeUpBuffers] that forgets a port it does not wake. *)
Definition forgets (s s' : Z * ControllerQueues) : Prop :=
  exists a r, wakeUpBuffers s.2 a s.1 = Ok s'.2 /\ registered s.2 a r /\ m_cur_in_port s.2 <= Z.of_nat r.
Definition careful_step (rs : RubySystem) (s s' : Z * ControllerQueues) : Prop := cq_step rs s s' /\ ~ forgets s s'.

Lemma queues_ok_same now c c' :
  queues_ok now c -> m_in_ports c' = m_in_ports c -> m_cur_in_port c' <= m_in_ports c -> m_waiting_buffers c' = m_waiting_buffers c -> cq_bufs c' = cq_bufs c ->
  queues_ok now c'.
Proof. intros [H1 H2 H3 H0 H4 H5] E1 E0 E2 E3. split; unfold registered; rewrite ?E1, ?E2, ?E3; done. Qed.

Lemma queues_ok_buffer now c r b b' :
  queues_ok now c -> cq_bufs c !! r = Some b -> m_stall_msg_map b' = m_stall_msg_map b -> wakeable now b' ->
  queues_ok now (c ⟨ cq_bufs := <[r := b']> (cq_bufs c) ⟩).
Proof.
  intros [H1 H2 H3 H0 H4 H5] Hb Hm Hw. split; cbn [setf cq_bufs m_in_ports m_waiting_buffers]; rewrite ?length_insert; try done.
  - intros a k x. rewrite list_lookup_insert_Some. intros [(<- & <- & _) | [_ ?]]; [| by apply H4]. rewrite Hm. by apply H4.
  - intros k x. rewrite list_lookup_insert_Some. intros [(<- & <- & _) | [_ ?]]; [done | by eapply H5].
Qed.

Lemma stallBuffer_spec c q a c' :
  stallBuffer c q a = Ok c' -> exists v, 0 <= m_cur_in_port c /\ m_cur_in_port c < Z.of_nat (length v) /\
    v = default (replicate (Z.to_nat (m_in_ports c)) None) (m_waiting_buffers c !! a) /\
    c' = c ⟨ m_waiting_buffers := <[a := <[Z.to_nat (m_cur_in_port c) := Some q]> v]> (m_waiting_buffers c) ⟩.
Proof.
  unfold stallBuffer. intros H. apply res_bind_Ok_inv in H as (u & _ & H). apply res_bind_Ok_inv in H as (v' & Hv & H).
  injection H as <-. apply vset_Ok in Hv as [Hr ->]. eexists. split_and!; [| | done | done]; lia.
Qed.

(** After a message of the current port [p] was stalled for line [a]: the
    registered ports, and the stalled lines of a buffer. *)
Section Stall.
Context (rs : RubySystem) (now : Z) (c : ControllerQueues) (a : Z) (b : MessageBuffer) (c' : ControllerQueues) (b' : MessageBuffer)
  (evs : list mb_event).
Let p := Z.to_nat (m_cur_in_port c).
Let c2 := c' ⟨ cq_bufs := <[p := b']> (cq_bufs c') ⟩.
Context (Hq : queues_ok now c) (Hb : vget (cq_bufs c) (m_cur_in_port c) = Ok b)
  (Hst : stallBuffer c (m_cur_in_port c) a = Ok c') (Hs : stallMessage rs now b a now = Ok (b', evs)).

Lemma stall_port : 0 <= m_cur_in_port c /\ cq_bufs c !! p = Some b.
Proof. by apply vget_Ok in Hb. Qed.

Lemma stall_vec : exists v, m_waiting_buffers c' = <[a := <[p := Some (m_cur_in_port c)]> v]> (m_waiting_buffers c) /\
  cq_bufs c' = cq_bufs c /\ m_in_ports c' = m_in_ports c /\ m_cur_in_port c' = m_cur_in_port c /\
  length v = length (cq_bufs c) /\ forall r q, v !! r = Some (Some q) <-> exists v0, m_waiting_buffers c !! a = Some v0 /\ v0 !! r = Some (Some q).
Proof.
  apply stallBuffer_spec in Hst as (v & _ & Hlt & Ev & ->). exists v. split_and!; try done.
  - subst v. destruct (m_waiting_buffers c !! a) eqn:E; cbn [default]; [by eapply qo_vec |].
    rewrite length_replicate, (qo_ports _ _ Hq). lia.
  - intros r q. subst v. destruct (m_waiting_buffers c !! a) as [v0|] eqn:E; cbn [default]; [naive_solver |].
    split; [by intros [? _]%lookup_replicate | by intros (? & [=] & _)].
Qed.

Lemma stall_registered k r : registered c2 k r <-> (k = a /\ r = p) \/ registered c k r.
Proof.
  destruct stall_vec as (v & Hw & Hbs & _ & _ & Hv & Hin). destruct stall_port as [H0 Hp%lookup_lt_Some].
  unfold registered, waits. cbn [c2 setf m_waiting_buffers]. rewrite Hw. destruct (decide (a = k)) as [<- | Hak].
  - rewrite lookup_insert_eq. destruct (decide (r = p)) as [-> | Hrp].
    + split; [by left |]. intros _. eexists. split; [done |]. rewrite list_lookup_insert_eq by lia. f_equal. f_equal. unfold p. lia.
    + rewrite <- Hin. split; [intros (v' & [= <-] & Hr); rewrite list_lookup_insert_ne in Hr by done; by right |].
      intros [[_ ?] | Hr]; [done |]. eexists. split; [done |]. by rewrite list_lookup_insert_ne.
  - rewrite lookup_insert_ne by done. naive_solver.
Qed.

Lemma stall_stalled k r x :
  cq_bufs c2 !! r = Some x -> exists y, cq_bufs c !! r = Some y /\
    (is_Some (m_stall_msg_map x !! k) <-> (k = a /\ r = p) \/ is_Some (m_stall_msg_map y !! k)).
Proof.
  destruct stall_vec as (v & _ & Hbs & _). destruct stall_port as [H0 Hp].
  destruct (stallMessage_map _ _ _ _ _ _ _ Hs) as (m & _ & Hmap).
  cbn [c2 setf cq_bufs]. rewrite Hbs, list_lookup_insert_Some. intros [(<- & <- & _) | [Hne Hx]].
  - exists b. split; [done |]. rewrite Hmap, lookup_insert_is_Some. destruct (decide (a = k)); naive_solver.
  - exists x. split; [done |]. naive_solver.
Qed.

Lemma stall_ok : queues_ok now c2.
Proof.
  destruct stall_vec as (v & Hw & Hbs & Hp & Hc & Hv & Hin). destruct stall_port as [H0 Hpb].
  assert (wakeable now b') as Hwk by (eapply stallMessage_wakeable; [done |]; by eapply qo_bufs).
  split; cbn [c2 setf cq_bufs m_in_ports m_waiting_buffers m_cur_in_port]; rewrite ?length_insert, ?Hbs, ?Hp, ?Hc; try apply Hq.
  - intros k v'. rewrite Hw, lookup_insert_Some. intros [[<- <-] | [_ ?]]; [by rewrite length_insert | by eapply qo_vec].
  - intros k v' r q. rewrite Hw, lookup_insert_Some. intros [[<- <-] | [_ ?]]; [| by eapply qo_slot].
    rewrite list_lookup_insert_Some. intros [(<- & [= <-] & _) | [_ Hr]]; [unfold p; lia |].
    apply Hin in Hr as (v0 & E0 & ?). by eapply qo_slot.
  - intros k r x Hx Hreg. destruct (stall_stalled k r x) as (y & Hy & ->); [cbn [c2 setf cq_bufs]; by rewrite Hbs |].
    apply stall_registered in Hreg as [?|Hreg]; [by left | right]. by eapply qo_stalled.
  - intros r x. rewrite list_lookup_insert_Some. intros [(<- & <- & _) | [_ ?]]; [done | by eapply qo_bufs].
Qed.

Lemma stall_all_registered : all_registered c -> all_registered c2.
Proof.
  intros Hall k r x Hx Hsome. apply stall_registered. destruct (stall_stalled k r x Hx) as (y & Hy & Hiff).
  destruct (proj1 Hiff Hsome) as [?|Hy']; [by left | right]. by eapply Hall.
Qed.
End Stall.

Lemma cq_step_ok rs s s' : cq_step rs s s' -> queues_ok s.1 s.2 -> queues_ok s'.1 s'.2.
Proof.
  intros Hst Hq. destruct Hst; cbn [fst snd] in *.
  - destruct Hq as [H1 H2 H3 H0 H4 H5]. split; try done. intros r b Hb. destruct (H5 r b Hb) as [W1 W2 W3 W4].
    split; try done. intros a lt m Hl Hm. etransitivity; [by eapply W4 | done].
  - eapply queues_ok_same; try done. cbn [setf m_cur_in_port]. lia.
  - eapply queues_ok_buffer; [done | done | by eapply plain_op_stalls |]. eapply plain_op_wakeable; [done | done | done |]. by eapply qo_bufs.
  - by eapply stall_ok.
  - eapply wakes_ok; [done |]. rewrite <- H. by apply wakeUpBuffers_wakes.
  - eapply wakes_ok; [done |]. rewrite <- H. by apply wakeUpAllBuffers_addr_wakes.
  - eapply wakes_ok; [done |]. rewrite <- H. by apply wakeUpAllBuffers_wakes.
  - eapply queues_ok_same; try done. apply Hq.
  - unfold unblock. destruct (_ =? 0); (eapply queues_ok_same; try done; apply Hq).
Qed.

Lemma careful_step_registered rs s s' :
  careful_step rs s s' -> queues_ok s.1 s.2 -> all_registered s.2 -> all_registered s'.2.
Proof.
  intros [Hst Hnf] Hq Hall. destruct Hst; cbn [fst snd] in *; try done.
  - intros a k x. cbn [setf cq_bufs]. rewrite list_lookup_insert_Some.
    intros [(<- & <- & _) | [_ Hx]]; [| by apply Hall]. erewrite plain_op_stalls by done. by apply Hall.
  - by eapply stall_all_registered.
  - eapply wakes_registered; [done | rewrite <- H; by apply wakeUpBuffers_wakes |].
    intros k r <-%Z.eqb_eq Hreg. split; [done |]. apply Z.nle_gt. intros Hle. apply Hnf. by exists a, r.
  - eapply wakes_registered; [done | rewrite <- H; by apply wakeUpAllBuffers_addr_wakes |]. by intros k r <-%Z.eqb_eq.
  - eapply wakes_registered; [done | rewrite <- H; by apply wakeUpAllBuffers_wakes |]. intros a r _ Hreg. by exists a.
  - unfold unblock. by destruct (_ =? 0).
Qed.

(** A controller after its constructor: fresh buffers, one for each port. *)
Definition start_queues (bufs : list MessageBuffer) : ControllerQueues :=
  {| m_waiting_buffers := ∅; m_in_ports := Z.of_nat (length bufs); m_cur_in_port := 0; m_is_blocking := false; m_block_map := ∅;
     cq_bufs := bufs |}.

Definition fresh_port (b : MessageBuffer) : Prop := exists sz o rnd c v, b = fresh_buffer sz o rnd c v.

Lemma start_ok now bufs : Forall fresh_port bufs -> queues_ok now (start_queues bufs).
Proof.
  intros Hf. assert (forall r b, bufs !! r = Some b -> m_stall_msg_map b = ∅ /\ wakeable now b) as Hb.
  { intros r b Hr. destruct (proj1 (Forall_lookup _ _) Hf r b Hr) as (sz & o & rnd & c & v & ->). split; [done |].
    destruct (fresh_buffer_ok sz o rnd c v) as [H1 H2]. split; [done | lia | done |]. intros a lt m Hl. discriminate Hl. }
  split; try done.
  - cbn. lia.
  - intros a r b _ (v & Hv & _). discriminate Hv.
  - intros r b Hr. by apply (Hb r b Hr).
Qed.

Lemma start_registered bufs : Forall fresh_port bufs -> all_registered (start_queues bufs).
Proof.
  intros Hf a r b Hr. destruct (proj1 (Forall_lookup _ _) Hf r b Hr) as (sz & o & rnd & c & v & ->). by intros [? [=]].
Qed.

Lemma cq_run_ok rs s s' : rtc (cq_step rs) s s' -> queues_ok s.1 s.2 -> queues_ok s'.1 s'.2.
Proof. induction 1; eauto using cq_step_ok. Qed.

Lemma careful_run_registered rs s s' :
  rtc (careful_step rs) s s' -> queues_ok s.1 s.2 -> all_registered s.2 -> all_registered s'.2.
Proof.
  induction 1 as [|s s1 s' Hst _ IH]; [done |]. intros Hq Hall. apply IH.
  - eapply cq_step_ok; [apply Hst | done].
  - by eapply careful_step_registered.
Qed.

(** C22. Stalled messages come back.  In every state a controller reaches from
    fresh buffers, with any interleaving of ports examined, buffers used,
    messages stalled, wake-ups of all three kinds and blockings, every wake-up
    succeeds: no assertion of [reanalyzeMessages] can fail.  [wakeUpBuffers]
    returns the messages stalled for the line in the registered buffers of lower
    rank than the current port, [wakeUpAllBuffers] of a line those of all
    registered buffers, and [wakeUpAllBuffers] of all lines every message of
    every registered buffer.  No wake-up loses a message or touches another
    buffer, and each forgets exactly the lines it is for.  If no [wakeUpBuffers]
    before forgot a port it did not wake, both forms of [wakeUpAllBuffers] leave
    no message stalled for their lines in any buffer. *)
Theorem stalled_messages_woken rs bufs t0 now c a :
  Forall fresh_port bufs -> rtc (cq_step rs) (t0, start_queues bufs) (now, c) ->
  wakes_some (fun r => registered c a r /\ Z.of_nat r < m_cur_in_port c) (Z.eqb a) c (wakeUpBuffers c a now) /\
  wakes_some (registered c a) (Z.eqb a) c (wakeUpAllBuffers_addr c a now) /\
  wakes_some (fun r => exists a, registered c a r) (fun _ => true) c (wakeUpAllBuffers c now) /\
  (rtc (careful_step rs) (t0, start_queues bufs) (now, c) ->
   wakes (Z.eqb a) c (wakeUpAllBuffers_addr c a now) /\ wakes (fun _ => true) c (wakeUpAllBuffers c now)).
Proof.
  intros Hf Hr. pose proof (start_ok t0 bufs Hf) as Hq0. pose proof (cq_run_ok rs _ _ Hr Hq0) as Hq. cbn [fst snd] in Hq.
  split_and!; [by apply wakeUpBuffers_wakes | by apply wakeUpAllBuffers_addr_wakes | by apply wakeUpAllBuffers_wakes |].
  intros Hc. pose proof (careful_run_registered rs _ _ Hc Hq0 (start_registered bufs Hf)) as Hall. cbn [snd] in Hall. split.
  - eapply wakes_some_all; [done | done | | by apply wakeUpAllBuffers_addr_wakes]. by intros k r <-%Z.eqb_eq.
  - eapply wakes_some_all; [done | done | | by apply wakeUpAllBuffers_wakes]. intros k r _ Hreg. by exists k.
Qed.

Definition port_buffers : list MessageBuffer := [fresh_buffer 0 false false 1 0; fresh_buffer 0 false false 1 1].
Definition port_message : Message := Message_ctor 1 [] Control 7.

(** The second port receives a message, then stalls it for line 64. *)
Definition value {A} (d : A) (r : res A) : A := match r with Ok x => x | Err _ => d end.
Definition port_enqueued : MessageBuffer * list Message :=
  value (fresh_buffer 0 false false 1 1, []) (mb_step rs_plain 1 (fresh_buffer 0 false false 1 1) (OpEnqueue (0, 0, 1) port_message 2)).
Definition port_ready : ControllerQueues :=
  (start_queues port_buffers) ⟨ cq_bufs := <[1%nat := port_enqueued.1]> port_buffers ⟩ ⟨ m_cur_in_port := 1 ⟩.
Definition port_waiting : ControllerQueues := value port_ready (stallBuffer port_ready 1 64).
Definition port_stall : MessageBuffer * list mb_event := value (port_enqueued.1, []) (stallMessage rs_plain 5 port_enqueued.1 64 5).
Definition port_stalled : ControllerQueues := port_waiting ⟨ cq_bufs := <[1%nat := port_stall.1]> (cq_bufs port_waiting) ⟩.

Lemma not_forgets_empty now c now' c' : m_waiting_buffers c = ∅ -> ~ forgets (now, c) (now', c').
Proof. intros He (a & r & _ & (v & Hv & _) & _). cbn [snd] in Hv. by rewrite He, lookup_empty in Hv. Qed.

Lemma port_run : rtc (careful_step rs_plain) (1, start_queues port_buffers) (5, port_stalled).
Proof.
  eapply rtc_l; [split; [apply (cq_buffer _ 1 (start_queues port_buffers) 1 (fresh_buffer 0 false false 1 1)
    (OpEnqueue (0, 0, 1) port_message 2) port_enqueued.1 port_enqueued.2); vm_compute; reflexivity | by apply not_forgets_empty] |].
  eapply rtc_l; [split; [apply (cq_time _ 1 5); lia | by apply not_forgets_empty] |].
  eapply rtc_l; [split; [apply (cq_port _ 5 _ 1); vm_compute; split; [discriminate | reflexivity] | by apply not_forgets_empty] |].
  eapply rtc_l; [split; [| by apply not_forgets_empty] | apply rtc_refl].
  apply (cq_stall _ 5 port_ready 64 port_enqueued.1 port_waiting port_stall.1 port_stall.2); vm_compute; reflexivity.
Qed.

Lemma stalled_messages_woken_witness :
  m_waiting_buffers port_stalled !! 64 = Some [None; Some 1] /\
    wakes_some (fun r => registered port_stalled 64 r /\ Z.of_nat r < 1) (Z.eqb 64) port_stalled (wakeUpBuffers port_stalled 64 5) /\
    wakes (Z.eqb 64) port_stalled (wakeUpAllBuffers_addr port_stalled 64 5) /\
    wakes (fun _ => true) port_stalled (wakeUpAllBuffers port_stalled 5).
Proof.
  split; [vm_compute; reflexivity |].
  destruct (stalled_messages_woken rs_plain port_buffers 1 5 port_stalled 64) as (H1 & _ & _ & H4).
  - repeat constructor; repeat eexists.
  - eapply (rtc_congruence id); [| exact port_run]. by intros x y [? _].
  - split; [exact H1 | exact (H4 port_run)].
Defined.

(** A buffer is woken, or left for ever: [wakeUpBuffers], called while port 0
    is served, forgets that port 1 waits, so its message stays stalled and a
    later [wakeUpAllBuffers] does not find it. *)
Example wakeUpBuffers_forgets :
  let sizes c := (fun b => (heap_size b, stalled_count b)) <$> cq_bufs c in
  (c ← wakeUpBuffers (port_stalled ⟨ m_cur_in_port := 0 ⟩) 64 6; c ← wakeUpAllBuffers c 7; Ok (sizes c)) = Ok [(0, 0); (0, 1)] /\
  (c ← wakeUpAllBuffers port_stalled 7; Ok (sizes c)) = Ok [(0, 0); (1, 0)].
Proof. split; vm_compute; reflexivity. Qed.
