(* ===== verification/GarnetFunctional.v ===== *)
(** * Functional accesses to Garnet

    Models [functionalWrite] of [garnet2.0/VirtualChannel], [InputUnit],
    [OutputUnit], [CrossbarSwitch], [Router], [NetworkLink], [NetworkInterface]
    and [GarnetNetwork], and [Network::functionalRead] of [network/Network.hh],
    which Garnet does not override.

    [fwrite] is the accessor of the protocol's message class, as for message
    buffers.  The theorem shows that the write reaches every flit of the buffers
    of the network; the other results are about what it does not reach: flits in
    the stall queue of an interface, and reads. *)
From S2P Require Import Prelude NetDest Topology Common MessageBuffer Flit Network RoutingUnit PortUnits Router NetworkInterface GarnetNetwork Replacement CacheMemory DataBlock FunctionalAccess.

Section Write.
Context {Packet : Type} (fwrite : Message -> Packet -> option Message).

Definition vc_functionalWrite (v : VirtualChannel) (pkt : Packet) : VirtualChannel * Z :=
  let r := fb_functionalWrite fwrite (inputBuffer v) pkt in (v ⟨ inputBuffer := r.1 ⟩, r.2).

(** A loop that writes to every object of a vector and adds up the results. *)
Definition write_each {A} (f : A -> Packet -> A * Z) (l : list A) (pkt : Packet) : list A * Z :=
  foldl (fun st x => let r := f x pkt in (st.1 ++ [r.1], u32 (st.2 + r.2))) ([], 0) l.

Definition iu_functionalWrite (u : InputUnit) (pkt : Packet) : InputUnit * Z :=
  let r := write_each vc_functionalWrite (virtualChannels u) pkt in (u ⟨ virtualChannels := r.1 ⟩, r.2).

Definition ou_functionalWrite (u : OutputUnit) (pkt : Packet) : OutputUnit * Z :=
  let r := fb_functionalWrite fwrite (outBuffer u) pkt in (u ⟨ outBuffer := r.1 ⟩, r.2).

Definition link_functionalWrite (l : NetworkLink) (pkt : Packet) : NetworkLink * Z :=
  let r := fb_functionalWrite fwrite (linkBuffer l) pkt in (l ⟨ linkBuffer := r.1 ⟩, r.2).

Definition CrossbarSwitch_functionalWrite (x : CrossbarSwitch) (pkt : Packet) : CrossbarSwitch * Z :=
  let r := write_each (fb_functionalWrite fwrite) (switchBuffers x) pkt in (x ⟨ switchBuffers := r.1 ⟩, r.2).

Definition Router_functionalWrite (r : Router) (pkt : Packet) : Router * Z :=
  let x := CrossbarSwitch_functionalWrite (crossbarSwitch r) pkt in
  let i := write_each iu_functionalWrite (m_input_unit r) pkt in
  let o := write_each ou_functionalWrite (m_output_unit r) pkt in
  (r ⟨ crossbarSwitch := x.1 ⟩ ⟨ m_input_unit := i.1 ⟩ ⟨ m_output_unit := o.1 ⟩, u32 (u32 (u32 (0 + x.2) + i.2) + o.2)).

Definition NetworkInterface_functionalWrite (n : NetworkInterface) (pkt : Packet) : NetworkInterface * Z :=
  let v := write_each (fb_functionalWrite fwrite) (niOutVcs n) pkt in
  let q := fb_functionalWrite fwrite (outFlitQueue n) pkt in
  (n ⟨ niOutVcs := v.1 ⟩ ⟨ outFlitQueue := q.1 ⟩, u32 (v.2 + q.2)).

(** [m_networklinks] are the network links of the wires. *)
Definition wire_functionalWrite (w : wire) (pkt : Packet) : wire * Z :=
  let r := link_functionalWrite (w_net w) pkt in
  ({| w_net := r.1; w_credit := w_credit w; w_src := w_src w; w_dst := w_dst w |}, r.2).

Definition GarnetNetwork_functionalWrite (g : GarnetNetwork) (pkt : Packet) : GarnetNetwork * Z :=
  let r := write_each Router_functionalWrite (m_routers g) pkt in
  let n := write_each NetworkInterface_functionalWrite (m_nis g) pkt in
  let l := write_each wire_functionalWrite (gn_wires g) pkt in
  (g ⟨ m_routers := r.1 ⟩ ⟨ m_nis := n.1 ⟩ ⟨ gn_wires := l.1 ⟩, u32 (u32 (r.2 + n.2) + l.2)).

(** [Network::functionalRead], which Garnet inherits. *)
Definition Network_functionalRead (g : GarnetNetwork) (pkt : Packet) : res (bool * Packet) := Err EFatal.

(** ** The flits of the network *)
Definition router_flits (r : Router) : list flit :=
  (switchBuffers (crossbarSwitch r) ≫= m_buffer) ++ (m_input_unit r ≫= fun u => virtualChannels u ≫= fun v => m_buffer (inputBuffer v)) ++
  (m_output_unit r ≫= fun u => m_buffer (outBuffer u)).
Definition ni_flits (n : NetworkInterface) : list flit := (niOutVcs n ≫= m_buffer) ++ m_buffer (outFlitQueue n).
Definition garnet_flits (g : GarnetNetwork) : list flit :=
  (m_routers g ≫= router_flits) ++ (m_nis g ≫= ni_flits) ++ (gn_wires g ≫= fun w => m_buffer (linkBuffer (w_net w))).

(** The flits that wait in an interface for room in the protocol's buffers. *)
Definition garnet_stalled (g : GarnetNetwork) : list flit := m_nis g ≫= m_stall_queue.

Section Packet.
Context (pkt : Packet).
Definition write_flit (f : flit) : flit := f ⟨ m_msg_ptr := default (m_msg_ptr f) (fwrite (m_msg_ptr f) pkt) ⟩.
Definition accepts (l : list flit) : Z := Z.of_nat (MessageBuffer.written fwrite pkt (m_msg_ptr <$> l)).

(** [f] writes exactly the flits [flits], and returns how many accepted. *)
Definition writes_flits {A} (flits : A -> list flit) (f : A -> Packet -> A * Z) : Prop :=
  forall x, flits (f x pkt).1 = write_flit <$> flits x /\ u32 (f x pkt).2 = u32 (accepts (flits x)).

Lemma accepts_app l k : accepts (l ++ k) = accepts l + accepts k.
Proof. unfold accepts, MessageBuffer.written. rewrite fmap_app, filter_app, length_app. lia. Qed.

Lemma u32_add a b c d : u32 a = u32 c -> u32 b = u32 d -> u32 (a + b) = u32 (c + d).
Proof. unfold u32. intros Ha Hb. by rewrite Z.add_mod, Ha, Hb, <- Z.add_mod by lia. Qed.

Lemma u32_u32 a : u32 (u32 a) = u32 a.
Proof. apply Z.mod_mod. lia. Qed.

Lemma fb_writes : writes_flits m_buffer (fb_functionalWrite fwrite).
Proof.
  intros b. split; [done |]. f_equal. unfold accepts, MessageBuffer.written. cbn [fb_functionalWrite snd]. f_equal.
  induction (m_buffer b) as [|f l IH]; [done |]. rewrite fmap_cons, !filter_cons. case_decide; cbn [length]; by rewrite IH.
Qed.

Lemma each_writes {A} (flits : A -> list flit) f :
  writes_flits flits f -> forall l, (write_each f l pkt).1 ≫= flits = write_flit <$> (l ≫= flits) /\
    u32 (write_each f l pkt).2 = u32 (accepts (l ≫= flits)).
Proof.
  intros Hf l. unfold write_each. induction l as [|x l IH] using rev_ind; [done |]. rewrite foldl_app. cbn [foldl].
  set (st := foldl _ _ l) in *. destruct IH as [IH1 IH2], (Hf x) as [H1 H2]. cbn [fst snd].
  rewrite !bind_app, fmap_app, accepts_app, IH1. cbn [mbind list_bind]. rewrite !app_nil_r, H1. split; [done |].
  rewrite u32_u32. by apply u32_add.
Qed.

Lemma vc_writes : writes_flits (fun v => m_buffer (inputBuffer v)) vc_functionalWrite.
Proof. intros v. apply fb_writes. Qed.

Lemma iu_writes : writes_flits (fun u => virtualChannels u ≫= fun v => m_buffer (inputBuffer v)) iu_functionalWrite.
Proof. intros u. apply (each_writes _ _ vc_writes). Qed.

Lemma ou_writes : writes_flits (fun u => m_buffer (outBuffer u)) ou_functionalWrite.
Proof. intros u. apply fb_writes. Qed.

Lemma router_writes : writes_flits router_flits Router_functionalWrite.
Proof.
  intros r. unfold Router_functionalWrite, router_flits. cbn [fst snd setf crossbarSwitch m_input_unit m_output_unit].
  destruct (each_writes _ _ fb_writes (switchBuffers (crossbarSwitch r))) as [X1 X2].
  destruct (each_writes _ _ iu_writes (m_input_unit r)) as [I1 I2], (each_writes _ _ ou_writes (m_output_unit r)) as [O1 O2].
  unfold CrossbarSwitch_functionalWrite. cbn [fst snd setf switchBuffers]. rewrite X1, I1, O1, !fmap_app, !accepts_app. split; [done |].
  rewrite u32_u32, Z.add_assoc. apply u32_add; [| done]. rewrite u32_u32. apply u32_add; [by rewrite u32_u32 | done].
Qed.

Lemma ni_writes : writes_flits ni_flits NetworkInterface_functionalWrite.
Proof.
  intros n. unfold NetworkInterface_functionalWrite, ni_flits. cbn [fst snd setf niOutVcs outFlitQueue].
  destruct (each_writes _ _ fb_writes (niOutVcs n)) as [V1 V2], (fb_writes (outFlitQueue n)) as [Q1 Q2].
  rewrite V1, Q1, fmap_app, accepts_app. split; [done |]. rewrite u32_u32. by apply u32_add.
Qed.

Lemma wire_writes : writes_flits (fun w => m_buffer (linkBuffer (w_net w))) wire_functionalWrite.
Proof. intros w. apply fb_writes. Qed.

Lemma stalled_untouched l : (write_each NetworkInterface_functionalWrite l pkt).1 ≫= m_stall_queue = l ≫= m_stall_queue.
Proof.
  unfold write_each. induction l as [|n l IH] using rev_ind; [done |]. rewrite foldl_app, !bind_app. cbn [foldl fst].
  rewrite bind_app, IH. done.
Qed.
End Packet.

(** A functional write reaches every flit in the buffers of the network, in
    switches, virtual channels, output units, interfaces and links: its message
    is replaced if the accessor accepts the packet, all other fields and the
    order of the flits stay, and the result is the number of flits that
    accepted, modulo 2^32.  Flits in the stall queues of the interfaces are not
    written. *)
Theorem garnet_functional_write g pkt :
  let r := GarnetNetwork_functionalWrite g pkt in
  garnet_flits r.1 = write_flit pkt <$> garnet_flits g /\ r.2 = u32 (accepts pkt (garnet_flits g)) /\
  garnet_stalled r.1 = garnet_stalled g.
Proof.
  unfold GarnetNetwork_functionalWrite, garnet_flits, garnet_stalled. cbn [fst snd setf m_routers m_nis gn_wires].
  destruct (each_writes pkt _ _ (router_writes pkt) (m_routers g)) as [R1 R2], (each_writes pkt _ _ (ni_writes pkt) (m_nis g)) as [N1 N2],
    (each_writes pkt _ _ (wire_writes pkt) (gn_wires g)) as [L1 L2].
  rewrite R1, N1, L1, !fmap_app, !accepts_app. split_and!; [done | | apply stalled_untouched].
  rewrite Z.add_assoc. apply u32_add; [| done]. rewrite u32_u32. by apply u32_add.
Qed.
End Write.

(** A functional read that needs the network stops the simulation: if no
    controller has a readable copy of the line, some controller is waiting for it
    and no controller finds it in its buffers, [RubySystem::functionalRead] ends
    in the [fatal] of [Network::functionalRead]. *)
Theorem garnet_read_in_flight_fatal {C} `{!AbstractController C} block_size_bits (ctrls : list C) g pkt :
  let l := makeLineAddress block_size_bits (fp_addr pkt) in
  Z.of_nat (length ctrls) < 2 ^ 31 ->
  Forall (fun c => getAccessPermission c l ∈ [AccessPermission_Busy; AccessPermission_Maybe_Stale; AccessPermission_Invalid; AccessPermission_NotPresent]) ctrls ->
  Exists (fun c => getAccessPermission c l ∈ [AccessPermission_Busy; AccessPermission_Maybe_Stale]) ctrls ->
  Forall (fun c => functionalReadBuffers c pkt = Ok (false, pkt)) ctrls ->
  RubySystem_functionalRead block_size_bits Network_functionalRead ctrls g pkt = Err EFatal.
Proof.
  intros l Hn Hall Hsome Hbuf. unfold RubySystem_functionalRead. fold l.
  assert (forall a, readable a = true -> holders_num l a ctrls = 0) as Hno.
  { intros a Ha. unfold holders_num, holders. clear -Ha Hall.
    induction Hall as [|c k Hc _ IH]; [done |]. rewrite filter_cons. case_decide as Hd; [| done]. rewrite Hd in Hc.
    rewrite !elem_of_cons in Hc. destruct Hc as [-> | [-> | [-> | [-> | Hc]]]]; try done. by apply not_elem_of_nil in Hc. }
  assert (0 < holders_num l AccessPermission_Busy ctrls + holders_num l AccessPermission_Maybe_Stale ctrls) as Hpos.
  { apply Exists_exists in Hsome as (c & Hin & Hc). unfold holders_num, holders.
    assert (forall a, getAccessPermission c l = a -> (0 < length (filter (fun c => getAccessPermission c l = a) ctrls))%nat) as Hlen.
    { intros a Ha. assert (c ∈ filter (fun c => getAccessPermission c l = a) ctrls) as Hf by (by apply list_elem_of_filter).
      destruct (filter _ ctrls); [by apply not_elem_of_nil in Hf | cbn [length]; lia]. }
    apply elem_of_cons in Hc as [Hc|Hc%list_elem_of_singleton]; apply Hlen in Hc; lia. }
  destruct (count_perms l ctrls) as [H1 H2 H3 H4 H5 H6 _ _ _]; [lia |]. pose proof (holders_total l ctrls) as Htot.
  rewrite H1, H2, H3, (Hno AccessPermission_Read_Only), (Hno AccessPermission_Read_Write), (Hno AccessPermission_Backing_Store) by done.
  rewrite andb_false_r. cbn [Z.ltb Z.leb Z.compare orb]. rewrite H5, H6.
  assert (forall a, 0 <= holders_num l a ctrls) as Hge by (intros; unfold holders_num; lia).
  pose proof (Hge AccessPermission_Read_Only). pose proof (Hge AccessPermission_Read_Write). pose proof (Hge AccessPermission_Backing_Store).
  pose proof (Hge AccessPermission_Invalid). pose proof (Hge AccessPermission_NotPresent).
  rewrite u32_id by (unfold in_u32; lia). rewrite (proj2 (Z.ltb_lt _ _)) by lia.
  replace (foldM_brk _ ctrls pkt) with (Ok (false, pkt) : res (bool * fpacket)); [done |].
  clear -Hbuf. induction Hbuf as [|c ctrls Hc _ IH]; [done |]. cbn [foldM_brk]. rewrite Hc. rsimpl. exact IH.
Qed.
