(* ===== verification/AddrRangeMap.v ===== *)
(** * Address range maps

    Models [base/addr_range_map.hh], the map crossbars and memories decode
    addresses with: a [std::map] ordered by start and interleaving match, and a
    list of the most recently used entries that is searched first.

    An iterator is the key it points to: it stays valid until its entry is
    erased, and following it afterwards is an error.  The theorem shows that
    decoding an address is the same as trying every range; the examples show
    how that fails outside its conditions. *)
From S2P Require Import Prelude NetDest Network AddrRange.

Record AddrRangeMap (V : Type) := { rm_tree : list (AddrRange * V); rm_cache : list (Z * Z) }.
Arguments rm_tree {V} _.
Arguments rm_cache {V} _.

#[export] Instance AddrRangeMap_eta {V} : Eta (AddrRangeMap V) := {| eta := fun m => {| rm_tree := rm_tree m; rm_cache := rm_cache m |} |}.

Definition rkey (r : AddrRange) : Z * Z := (_start r, intlvMatch r).

Section Map.
Context {V : Type} (max_cache_size : Z).

Definition AddrRangeMap_ctor : AddrRangeMap V := {| rm_tree := []; rm_cache := [] |}.

(** [*it]. *)
Definition rm_deref (m : AddrRangeMap V) (it : Z * Z) : res (AddrRange * V) :=
  match list_find (fun e => rkey e.1 = it) (rm_tree m) with Some (_, e) => Ok e | None => Err EUninit end.

(** [cache.size()] is compared with the [int] as an unsigned number. *)
Definition addNewEntryToCache (cache : list (Z * Z)) (it : Z * Z) : list (Z * Z) :=
  if negb (max_cache_size =? 0) then
    if u64 max_cache_size <=? Z.of_nat (length cache) then
      if 1 <? max_cache_size then it :: removelast cache else removelast cache ++ [it]
    else it :: cache
  else cache.

(** The first cached entry that satisfies the condition, and the others. *)
Fixpoint search_cache (m : AddrRangeMap V) (cond : AddrRange -> res bool) (cache : list (Z * Z)) : res (option (Z * Z * list (Z * Z))) :=
  match cache with
  | [] => Ok None
  | it :: cache =>
      e ← rm_deref m it;
      c ← cond e.1;
      if (c : bool) then Ok (Some (it, cache))
      else r ← search_cache m cond cache; Ok (match r with Some (hit, rest) => Some (hit, it :: rest) | None => None end)
  end.

(** [tree.upper_bound(r)]: the entries before it, the last first, and those from it on. *)
Fixpoint upper_bound (r : AddrRange) (before tree : list (AddrRange * V)) : list (AddrRange * V) * list (AddrRange * V) :=
  match tree with
  | [] => (before, [])
  | e :: tree => if range_lt r e.1 then (before, e :: tree) else upper_bound r (e :: before) tree
  end.

(** The [do] loop, downwards from the first of the list. *)
Fixpoint scan_back (cond : AddrRange -> res bool) (before : list (AddrRange * V)) : res (option (Z * Z)) :=
  match before with
  | [] => Ok None
  | i :: before =>
      c ← cond i.1;
      if (c : bool) then Ok (Some (rkey i.1))
      else match before with
           | [] => Ok None
           | next :: _ => if mergesWith next.1 i.1 then scan_back cond before else Ok None
           end
  end.

Definition find_tree (m : AddrRangeMap V) (r : AddrRange) (cond : AddrRange -> res bool) : res (option (Z * Z)) :=
  let '(before, from) := upper_bound r [] (rm_tree m) in
  c ← (match from with next :: _ => cond next.1 | [] => Ok false end);
  if (c : bool) then Ok (match from with next :: _ => Some (rkey next.1) | [] => None end)
  else scan_back cond before.

Definition rm_find (m : AddrRangeMap V) (r : AddrRange) (cond : AddrRange -> res bool) : res (AddrRangeMap V * option (Z * Z)) :=
  hit ← search_cache m cond (rm_cache m);
  match hit with
  | Some (it, rest) => Ok (m ⟨ rm_cache := it :: rest ⟩, Some it)
  | None =>
      found ← find_tree m r cond;
      match found with
      | Some it => Ok (m ⟨ rm_cache := addNewEntryToCache (rm_cache m) it ⟩, Some it)
      | None => Ok (m, None)
      end
  end.

Definition contains_range (m : AddrRangeMap V) (r : AddrRange) := rm_find m r (fun r1 => range_isSubset r r1).
Definition contains_addr (m : AddrRangeMap V) (a : Z) := contains_range m (RangeSize a 1).
Definition rm_intersects (m : AddrRangeMap V) (r : AddrRange) := rm_find m r (fun r1 => intersects r r1).

(** [std::map::insert]: an entry with an equivalent key stays. *)
Fixpoint tree_insert (r : AddrRange) (d : V) (tree : list (AddrRange * V)) : list (AddrRange * V) :=
  match tree with
  | [] => [(r, d)]
  | e :: rest => if range_lt e.1 r then e :: tree_insert r d rest else if range_lt r e.1 then (r, d) :: tree else tree
  end.

Definition rm_insert (m : AddrRangeMap V) (r : AddrRange) (d : V) : res (AddrRangeMap V * option (Z * Z)) :=
  x ← rm_intersects m r;
  match x.2 with
  | Some _ => Ok (x.1, None)
  | None => Ok (x.1 ⟨ rm_tree := tree_insert r d (rm_tree x.1) ⟩, Some (rkey r))
  end.

Definition without (it : Z * Z) (cache : list (Z * Z)) : list (Z * Z) := filter (fun c => c <> it) cache.

Definition rm_erase (m : AddrRangeMap V) (p : Z * Z) : AddrRangeMap V :=
  m ⟨ rm_cache := without p (rm_cache m) ⟩ ⟨ rm_tree := filter (fun e => rkey e.1 <> p) (rm_tree m) ⟩.

(** The entries from position [i] up to position [j]; every iteration of the
    loop removes [p] from the cache. *)
Definition rm_erase_range (m : AddrRangeMap V) (i j : nat) : AddrRangeMap V :=
  let mid := take (j - i) (drop i (rm_tree m)) in
  let cache := match mid with p :: _ => foldl (fun c _ => without (rkey p.1) c) (rm_cache m) mid | [] => rm_cache m end in
  m ⟨ rm_cache := cache ⟩ ⟨ rm_tree := take i (rm_tree m) ++ drop j (rm_tree m) ⟩.

Definition rm_clear (m : AddrRangeMap V) : AddrRangeMap V := {| rm_tree := []; rm_cache := [] |}.
Definition rm_size (m : AddrRangeMap V) : Z := Z.of_nat (length (rm_tree m)).
Definition rm_empty (m : AddrRangeMap V) : bool := bool_decide (length (rm_tree m) = 0%nat).
End Map.

(** ** Well-formed ranges and maps *)

(** A range of more than one byte that does not reach the last address, whose
    interleaving bits are not all above bit 31 and whose start selects the first
    stripe. *)
Record range_good (r : AddrRange) : Prop := {
  rg_ends : 0 <= _start r < _end r /\ _end r < 2 ^ 64;
  rg_size : range_size r <> 1;
  rg_granularity : exists g, granularity r = Ok g;
  rg_match : 0 <= intlvMatch r /\ (masks r = [] -> intlvMatch r = 0);
  rg_start : Forall (fun m => Z.land (_start r) m = 0) (masks r)
}.

(** [r] lies below [o], or is an earlier stripe of the same interval. *)
Definition below (r o : AddrRange) : Prop :=
  _end r <= _start o \/ (mergesWith r o = true /\ intlvMatch r < intlvMatch o).

Lemma mergesWith_true r o : mergesWith r o = true <-> _start r = _start o /\ _end r = _end o /\ masks r = masks o.
Proof. unfold mergesWith. rewrite !andb_true_iff, !Z.eqb_eq, bool_decide_eq_true. intuition congruence. Qed.

Lemma range_lt_true r o : range_lt r o = true <-> _start r < _start o \/ (_start r = _start o /\ intlvMatch r < intlvMatch o).
Proof. unfold range_lt. destruct (_start r =? _start o) eqn:E; cbn [negb]; rewrite Z.ltb_lt; b2p; lia. Qed.

Lemma range_lt_false r o : range_lt r o = false <-> _start o < _start r \/ (_start r = _start o /\ intlvMatch o <= intlvMatch r).
Proof. rewrite <- not_true_iff_false, range_lt_true. lia. Qed.

Lemma below_lt r o : range_good r -> below r o -> range_lt r o = true.
Proof. intros [[? _] _ _ _ _] [?|[?%mergesWith_true ?]]; apply range_lt_true; lia. Qed.

Lemma below_trans a b c : range_good b -> below a b -> below b c -> below a c.
Proof.
  intros [[? _] _ _ _ _] [H1|[H1%mergesWith_true ?]] [H2|[H2%mergesWith_true ?]]; [left; lia | left; lia | left; lia |].
  right. rewrite mergesWith_true. intuition (congruence || lia).
Qed.

Lemma intersects_false r o :
  range_good r -> range_good o -> intersects r o = Ok false ->
  _end o <= _start r \/ _end r <= _start o \/ (mergesWith r o = true /\ intlvMatch r <> intlvMatch o).
Proof.
  intros _ [_ Hs _ _ _]. unfold intersects. destruct (_ || _) eqn:E; [b2p; lia |]. destruct (_ && _); [done |].
  rewrite (proj2 (Z.eqb_neq _ _) Hs). destruct (mergesWith r o); [| done]. intros [= Hm]. b2p. auto.
Qed.

Section Proofs.
Context {V : Type} (max_cache_size : Z).
Implicit Types (m : AddrRangeMap V) (tree : list (AddrRange * V)) (e : AddrRange * V).

Definition entry_below e (o : AddrRange * V) : Prop := below e.1 o.1.

Definition tree_ok tree : Prop := StronglySorted entry_below tree /\ Forall (fun e => range_good e.1) tree.

Lemma tree_ok_app_inv l k : tree_ok (l ++ k) -> tree_ok l /\ tree_ok k /\ forall e o, e ∈ l -> o ∈ k -> below e.1 o.1.
Proof.
  intros [Hs Hg]. apply Forall_app in Hg as [? ?]. split_and!; [split; [by eapply StronglySorted_app_1_l | done] |
    split; [by eapply StronglySorted_app_1_r | done] |]. intros e o He Ho. exact (StronglySorted_app_1_elem_of entry_below l k e o Hs He Ho).
Qed.

(** *** The position of a range *)
Lemma upper_bound_spec r before tree :
  tree_ok tree -> Forall (fun e => range_lt r e.1 = false) before ->
  exists le gt, upper_bound r before tree = (reverse le ++ before, gt) /\ tree = le ++ gt /\
    Forall (fun e => range_lt r e.1 = false) le /\ Forall (fun e => range_lt r e.1 = true) gt.
Proof.
  intros Hok. revert before. induction tree as [|e tree IH]; intros before Hb; cbn [upper_bound].
  { exists [], []. done. }
  pose proof Hok as [Hs Hg]. apply StronglySorted_inv in Hs as [Hs He]. apply Forall_cons in Hg as [Hge Hg].
  destruct (range_lt r e.1) eqn:E.
  - exists [], (e :: tree). split_and!; [done | done | done |]. constructor; [done |].
    apply Forall_forall. intros o Ho. rewrite Forall_forall in He. specialize (He o Ho).
    pose proof (below_lt _ _ Hge He) as Hlt. rewrite range_lt_true in *. lia.
  - destruct (IH (conj Hs Hg) (e :: before)) as (le & gt & E1 & E2 & H1 & H2); [by constructor |].
    exists (e :: le), gt. rewrite E1, E2, reverse_cons, <- app_assoc. split_and!; [done | done | by constructor | done].
Qed.

(** *** Insertion *)
Lemma tree_insert_mid r d le gt :
  Forall (fun e => range_lt e.1 r = true) le -> Forall (fun e => range_lt r e.1 = true) gt ->
  tree_insert r d (le ++ gt) = le ++ (r, d) :: gt.
Proof.
  intros Hle Hgt. induction Hle as [|e le He _ IH]; cbn [app tree_insert]; [| by rewrite He, IH].
  destruct Hgt as [|g gt Hg _]; [done |]. cbn [tree_insert]. rewrite Hg.
  assert (range_lt g.1 r = false) as ->; [| done]. rewrite range_lt_false. rewrite range_lt_true in Hg. lia.
Qed.

Lemma scan_back_none cond e l : scan_back (V := V) cond (e :: l) = Ok None -> cond e.1 = Ok false.
Proof. cbn [scan_back]. destruct (cond e.1) as [[|]|]; done. Qed.

Lemma insert_ok m r d :
  tree_ok (rm_tree m) -> range_good r -> find_tree m r (intersects r) = Ok None -> tree_ok (tree_insert r d (rm_tree m)).
Proof.
  intros Hok Hr. unfold find_tree. destruct (upper_bound_spec r [] (rm_tree m) Hok) as (le & gt & -> & E & Hle & Hgt); [done |].
  rewrite app_nil_r. intros (c & Hc & H)%res_bind_Ok_inv. rewrite E in *. destruct c; [by destruct gt |].
  apply tree_ok_app_inv in Hok as ([Sl Gl] & [Sg Gg] & Hlg).
  assert (forall o, o ∈ gt -> below r o.1) as Hrg.
  { destruct gt as [|g gt]; [intros o Ho; by apply not_elem_of_nil in Ho |]. apply Forall_cons in Gg as [Gg _], Hgt as [Hg _].
    apply StronglySorted_inv in Sg as [_ Sg]. rewrite Forall_forall in Sg. rewrite range_lt_true in Hg.
    assert (below r g.1) as Hb.
    { destruct (intersects_false r g.1 Hr Gg Hc) as [?|[?|[Hm ?]]]; [destruct (rg_ends _ Gg); lia | by left |].
      right. split; [done |]. apply mergesWith_true in Hm. lia. }
    intros o [-> |Ho]%elem_of_cons; [done |]. eapply below_trans; [exact Gg | done | by apply Sg]. }
  assert (forall e, e ∈ le -> below e.1 r) as Hlr.
  { destruct le as [|x le _] using rev_ind; [intros o Ho; by apply not_elem_of_nil in Ho |].
    rewrite reverse_snoc in H. apply scan_back_none in H. apply Forall_app in Gl as [_ [Gx _]%Forall_cons].
    apply Forall_app in Hle as [_ [Hx _]%Forall_cons]. rewrite range_lt_false in Hx. assert (below x.1 r) as Hb.
    { destruct (intersects_false r x.1 Hr Gx H) as [?|[?|[Hm ?]]]; [by left | destruct (rg_ends _ Hr), (rg_ends _ Gx); lia |].
      apply mergesWith_true in Hm. right. rewrite mergesWith_true. intuition (congruence || lia). }
    intros e [He| ->%list_elem_of_singleton]%elem_of_app; [| done]. eapply below_trans; [exact Gx | | done].
    refine (StronglySorted_app_1_elem_of entry_below _ _ e x Sl He _). by left. }
  rewrite tree_insert_mid.
  - split.
    + apply (StronglySorted_app_2 entry_below); [| done |].
      * intros e o He [-> |Ho]%elem_of_cons; [by apply Hlr | by apply Hlg].
      * constructor; [done |]. apply Forall_forall. exact Hrg.
    + apply Forall_app. split; [done |]. by constructor.
  - apply Forall_forall. intros e He. rewrite Forall_forall in Gl. apply below_lt; auto.
  - done.
Qed.

(** *** Lookup *)
Lemma granularity_pos r g : interleaved r = true -> granularity r = Ok g -> 1 <= g.
Proof.
  intros Hi. unfold granularity. rewrite Hi. destruct (_ <? 64) eqn:E; [| done]. intros [= <-].
  set (k := ctz64 _). destruct (decide (0 <= k)) as [Hk|Hk].
  - rewrite Z.shiftl_1_l. pose proof (Z.pow_pos_nonneg 2 k). lia.
  - exfalso. unfold k, ctz64 in Hk. destruct (list_find _ _) as [[? i]|] eqn:F; [| lia].
    apply list_find_Some in F as (F & _ & _). unfold upto in F. apply lookup_seqZ in F. lia.
Qed.

Lemma isSubset_contains r a : range_good r -> 0 <= a < 2 ^ 64 - 1 -> range_isSubset (RangeSize a 1) r = Ok (contains r a).
Proof.
  intros [[Hs He] _ [g Hg] [_ Hm] _] Ha. unfold range_isSubset, RangeSize, AddrRange_interval. cbn [_start _end masks].
  assert (u64 (a + 1) = a + 1) as Hu by (apply u64_id; unfold in_u64; lia). rewrite !Hu.
  change (interleaved _) with false at 1. cbn iota.
  assert (u64 (a + 1 - 1) = a) as -> by (rewrite Z.add_simpl_r; apply u64_id; unfold in_u64; lia).
  destruct (interleaved r) eqn:Ei.
  - destruct (contains r a); [| done]. cbn [andb]. rewrite Hg. rsimpl. unfold range_size. cbn [_start _end masks].
    replace (a + 1 - a) with 1 by lia. change (u64 1) with 1. cbn [length Z.of_nat]. rewrite Z.shiftr_0_r.
    pose proof (granularity_pos _ _ Ei Hg). by rewrite (proj2 (Z.leb_le _ _)).
  - assert (masks r = []) as Em.
    { unfold interleaved in Ei. destruct (masks r); [done |]. cbn [length] in Ei. b2p. lia. }
    unfold contains. rewrite Em. cbn [length Z.of_nat]. change (upto 0) with (@nil Z). cbn [foldl]. rewrite Hm by done.
    f_equal. destruct (_start r <=? a); [| done]. cbn [andb]. destruct (a <? _end r) eqn:E2, (a + 1 <=? _end r) eqn:E3; b2p; done || lia.
Qed.

Lemma contains_interval r a : contains r a = true -> _start r <= a < _end r.
Proof. by intros [? _]%contains_sel. Qed.

Lemma below_excludes r o a : below r o -> contains r a = true -> contains o a = true -> False.
Proof.
  rewrite !contains_sel. intros [?|[(_ & _ & Hm)%mergesWith_true Hlt]] [? Hr] [? Ho]; [lia |].
  unfold sel in *. rewrite Hm in Hr. lia.
Qed.

(** The start of an interval belongs to its first stripe. *)
Lemma contains_start r : range_good r -> contains r (_start r) = true -> intlvMatch r = 0.
Proof.
  intros [_ _ _ _ Hs] [_ <-]%contains_sel. unfold sel.
  assert (forall ks s, s = 0 -> foldl (fun s i => Z.lor s (Z.shiftl (popCount (Z.land (_start r) (default 0 (masks r !! Z.to_nat i))) mod 2) i)) s ks = 0) as ->; [| done | done].
  induction ks as [|i ks IH]; intros s Hz; [done |]. cbn [foldl]. apply IH. subst s.
  assert (Z.land (_start r) (default 0 (masks r !! Z.to_nat i)) = 0) as ->.
  { destruct (masks r !! Z.to_nat i) as [k|] eqn:E; cbn [default]; [| apply Z.land_0_r]. rewrite Forall_forall in Hs.
    apply Hs. by eapply list_elem_of_lookup_2. }
  replace (popCount 0) with 0 by (vm_compute; reflexivity). by rewrite Z.shiftl_0_l.
Qed.

(** The reference: try every range. *)
Definition decode tree (a : Z) : option (Z * Z) := rkey ∘ fst <$> head (filter (fun e => contains e.1 a = true) tree).

Lemma decode_none tree a : (forall e, e ∈ tree -> contains e.1 a = false) -> decode tree a = None.
Proof.
  intros H. unfold decode. induction tree as [|e tree IH]; [done |]. rewrite filter_cons, (H e) by (by left). cbn.
  apply IH. intros o Ho. apply H. by right.
Qed.

Lemma decode_some tree a e : tree_ok tree -> e ∈ tree -> contains e.1 a = true -> decode tree a = Some (rkey e.1).
Proof.
  intros [Hs _] He Hc. unfold decode. induction Hs as [|o tree _ IH Ho]; [by apply not_elem_of_nil in He |]. rewrite filter_cons.
  apply elem_of_cons in He as [<- |He]; [by rewrite decide_True |]. rewrite decide_False; [by apply IH |].
  intros Hco. rewrite Forall_forall in Ho. exact (below_excludes _ _ a (Ho e He) Hco Hc).
Qed.

Lemma scan_back_spec a l :
  0 <= a < 2 ^ 64 - 1 -> StronglySorted (flip entry_below) l -> Forall (fun e => range_good e.1) l -> Forall (fun e => _start e.1 <= a) l ->
  (exists e, e ∈ l /\ contains e.1 a = true /\ scan_back (fun r => range_isSubset (RangeSize a 1) r) l = Ok (Some (rkey e.1))) \/
  ((forall e, e ∈ l -> contains e.1 a = false) /\ scan_back (fun r => range_isSubset (RangeSize a 1) r) l = Ok None).
Proof.
  intros Ha Hs. induction Hs as [|i l Hs IH Hi]; intros Hg Hst; cbn [scan_back]; [right; split; [intros e He; by apply not_elem_of_nil in He | done] |].
  apply Forall_cons in Hg as [Gi Hg], Hst as [Si Hst]. rewrite isSubset_contains by done. rsimpl.
  destruct (contains i.1 a) eqn:Ec; [left; exists i; split_and!; [by left | done | done] |].
  destruct l as [|n l]; [right; split; [| done]; by intros e ->%list_elem_of_singleton |].
  destruct (mergesWith n.1 i.1) eqn:Em.
  - destruct (IH Hg Hst) as [(e & He & H1 & H2)|[H1 H2]]; [left; exists e; split_and!; [by right | done | done] | right].
    split; [| done]. intros e [-> |He]%elem_of_cons; auto.
  - right. split; [| done]. apply Forall_cons in Hi as [Hn Hi], Hg as [Gn Hg]. unfold flip, entry_below in Hn.
    destruct Hn as [Hn|[Hn _]]; [| congruence]. apply StronglySorted_inv in Hs as [_ Hs].
    intros e [-> |He]%elem_of_cons; [done |]. apply not_true_is_false. intros Hc%contains_interval.
    apply elem_of_cons in He as [-> |He]; [lia |]. rewrite Forall_forall in Hs. specialize (Hs e He). unfold flip, entry_below in Hs.
    destruct (rg_ends _ Gn). destruct Hs as [?|[?%mergesWith_true _]]; lia.
Qed.

Lemma find_tree_spec m a :
  0 <= a < 2 ^ 64 - 1 -> tree_ok (rm_tree m) ->
  find_tree m (RangeSize a 1) (fun r => range_isSubset (RangeSize a 1) r) = Ok (decode (rm_tree m) a).
Proof.
  intros Ha Hok. unfold find_tree.
  destruct (upper_bound_spec (RangeSize a 1) [] (rm_tree m) Hok) as (le & gt & -> & E & Hle & Hgt); [done |]. rewrite app_nil_r.
  pose proof Hok as Hok'. rewrite E in Hok'. apply tree_ok_app_inv in Hok' as ([Sl Gl] & [_ Gg] & _).
  assert (forall g, g ∈ gt -> contains g.1 a = false) as Hno.
  { intros g Hg. apply not_true_is_false. intros Hc. rewrite Forall_forall in Hgt, Gg. specialize (Hgt g Hg). specialize (Gg g Hg).
    rewrite range_lt_true in Hgt. cbn [RangeSize AddrRange_interval _start intlvMatch] in Hgt. pose proof (contains_interval _ _ Hc).
    assert (a = _start g.1) as Ea by lia. rewrite Ea in Hc. apply contains_start in Hc; [lia | done]. }
  assert ((match gt with next :: _ => range_isSubset (RangeSize a 1) next.1 | [] => Ok false end) = Ok false) as ->.
  { destruct gt as [|g gt]; [done |]. apply Forall_cons in Gg as [Gg _]. rewrite isSubset_contains, Hno by (done || by left). done. }
  rsimpl. destruct (scan_back_spec a (reverse le)) as [(e & He & Hc & ->)|[H ->]]; [done | | | | |].
  - clear -Sl. induction Sl as [|x l Sl IH Hx]; [constructor |]. rewrite reverse_cons. apply (StronglySorted_append (flip entry_below)); [done |].
    rewrite reverse_Permutation. exact Hx.
  - by rewrite reverse_Permutation.
  - rewrite reverse_Permutation. eapply Forall_impl; [exact Hle |]. cbn beta. intros e He. rewrite range_lt_false in He.
    cbn [RangeSize AddrRange_interval _start intlvMatch] in He. lia.
  - f_equal. symmetry. apply (decode_some _ a e Hok); [| done]. rewrite E. apply elem_of_app. left. by rewrite elem_of_reverse in He.
  - f_equal. symmetry. apply decode_none. rewrite E. intros e [He|He]%elem_of_app; [apply H; by rewrite elem_of_reverse | by apply Hno].
Qed.

(** *** The cache *)
Definition cached_in tree (it : Z * Z) : Prop := exists e, e ∈ tree /\ rkey e.1 = it.

Record map_ok m : Prop := {
  mo_tree : tree_ok (rm_tree m);
  mo_cache : Forall (cached_in (rm_tree m)) (rm_cache m);
  mo_length : 0 <= max_cache_size < 2 ^ 64 -> Z.of_nat (length (rm_cache m)) <= max_cache_size
}.

Lemma deref_cached m it : cached_in (rm_tree m) it -> exists e, rm_deref m it = Ok e /\ e ∈ rm_tree m /\ rkey e.1 = it.
Proof.
  intros (e & He & Hk). unfold rm_deref. destruct (list_find _ _) as [[i o]|] eqn:E.
  - apply list_find_Some in E as (Hi & Ho & _). exists o. split_and!; [done | by eapply list_elem_of_lookup_2 | done].
  - apply list_find_None in E. rewrite Forall_forall in E. by destruct (E e He).
Qed.

Lemma search_cache_some m cond cache it rest : search_cache m cond cache = Ok (Some (it, rest)) -> cache ≡ₚ it :: rest.
Proof.
  revert rest. induction cache as [|c cache IH]; intros rest H; cbn [search_cache] in H; [done |].
  apply res_bind_Ok_inv in H as (e & _ & H). apply res_bind_Ok_inv in H as ([|] & _ & H); [by injection H as <- <- |].
  apply res_bind_Ok_inv in H as ([[hit k]|] & E & H); [| done]. injection H as <- <-. rewrite (IH k E). apply Permutation_swap.
Qed.

Lemma upper_bound_elem r before tree : (upper_bound r before tree).1 ++ (upper_bound r before tree).2 ≡ₚ before ++ tree.
Proof.
  revert before. induction tree as [|e tree IH]; intros before; cbn [upper_bound]; [done |]. destruct (range_lt r e.1); [done |].
  rewrite IH. cbn [app]. apply Permutation_middle.
Qed.

Lemma scan_back_elem cond l it : scan_back cond l = Ok (Some it) -> cached_in l it.
Proof.
  induction l as [|i l IH]; [done |]. cbn [scan_back]. intros ([|] & _ & H)%res_bind_Ok_inv.
  - injection H as <-. exists i. split; [by left | done].
  - destruct l as [|n l]; [done |]. destruct (mergesWith n.1 i.1); [| done]. destruct (IH H) as (e & He & Hk). exists e. split; [by right | done].
Qed.

Lemma find_tree_elem m r cond it : find_tree m r cond = Ok (Some it) -> cached_in (rm_tree m) it.
Proof.
  unfold find_tree. pose proof (upper_bound_elem r [] (rm_tree m)) as HP. destruct (upper_bound r [] (rm_tree m)) as [before from].
  cbn [fst snd app] in HP. intros ([|] & _ & H)%res_bind_Ok_inv.
  - destruct from as [|n from]; [done |]. injection H as <-. exists n. split; [| done]. rewrite <- HP, elem_of_app. right. by left.
  - destruct (scan_back_elem _ _ _ H) as (e & He & Hk). exists e. split; [| done]. rewrite <- HP, elem_of_app. by left.
Qed.

Lemma length_removelast {A} (l : list A) : length (removelast l) = (length l - 1)%nat.
Proof. induction l as [|x [|y l] IH]; [done | done |]. cbn [removelast length] in *. lia. Qed.

Lemma elem_of_removelast {A} (l : list A) x : x ∈ removelast l -> x ∈ l.
Proof.
  induction l as [|y [|z l] IH]; [done | by intros ?%not_elem_of_nil |]. cbn [removelast]. rewrite elem_of_cons. intros [-> |H]; [by left |].
  right. by apply IH.
Qed.

Lemma addNew_ok tree cache it :
  cached_in tree it -> Forall (cached_in tree) cache -> Forall (cached_in tree) (addNewEntryToCache max_cache_size cache it).
Proof.
  intros Hi Hc. assert (Forall (cached_in tree) (removelast cache)) as Hr.
  { rewrite Forall_forall in *. eauto using elem_of_removelast. }
  unfold addNewEntryToCache. destruct (negb _); [| done].
  destruct (_ <=? _); [destruct (1 <? _)|]; [by constructor | | by constructor]. apply Forall_app. split; [done | by repeat constructor].
Qed.

Lemma addNew_length cache it :
  (0 <= max_cache_size < 2 ^ 64 -> Z.of_nat (length cache) <= max_cache_size) ->
  0 <= max_cache_size < 2 ^ 64 -> Z.of_nat (length (addNewEntryToCache max_cache_size cache it)) <= max_cache_size.
Proof.
  intros Hl Hm. specialize (Hl Hm). unfold addNewEntryToCache. destruct (max_cache_size =? 0) eqn:E0; cbn [negb]; [done |].
  rewrite u64_id by (unfold in_u64; lia). destruct (_ <=? _) eqn:E; [destruct (1 <? _)|]; b2p;
    rewrite ?length_app; cbn [length]; rewrite ?length_removelast; lia.
Qed.

(** Whatever the condition, a search changes only the cache. *)
Lemma find_keeps m r cond m' it : map_ok m -> rm_find max_cache_size m r cond = Ok (m', it) -> map_ok m' /\ rm_tree m' = rm_tree m.
Proof.
  intros [Ht Hc Hl]. unfold rm_find. intros ([[hit rest]|] & E & H)%res_bind_Ok_inv.
  - injection H as <- <-. apply search_cache_some in E. split; [| done]. split; cbn [setf rm_tree rm_cache]; [done | by rewrite <- E |].
    by rewrite <- E.
  - apply res_bind_Ok_inv in H as ([k|] & F & H); injection H as <- <-; [| done]. apply find_tree_elem in F. split; [| done].
    split; cbn [setf rm_tree rm_cache]; [done | by apply addNew_ok | by apply addNew_length].
Qed.

(** ** The states of a map

    Several entries may be erased at once while none but the first of them is
    in the cache: the loop of [erase(p, q)] removes only that one. *)
Definition rest_not_cached m (i j : nat) : Prop :=
  forall e, e ∈ drop 1 (take (j - i) (drop i (rm_tree m))) -> rkey e.1 ∉ rm_cache m.

Inductive rm_reach : AddrRangeMap V -> Prop :=
  | reach_new : rm_reach AddrRangeMap_ctor
  | reach_find m r cond m' it : rm_reach m -> rm_find max_cache_size m r cond = Ok (m', it) -> rm_reach m'
  | reach_insert m r d m' it : rm_reach m -> range_good r -> rm_insert max_cache_size m r d = Ok (m', it) -> rm_reach m'
  | reach_erase m it : rm_reach m -> rm_reach (rm_erase m it)
  | reach_erase_range m i j : rm_reach m -> (i <= j)%nat -> rest_not_cached m i j -> rm_reach (rm_erase_range m i j)
  | reach_clear m : rm_reach m -> rm_reach (rm_clear m).

Lemma map_ok_insert m r d m' it : map_ok m -> range_good r -> rm_insert max_cache_size m r d = Ok (m', it) -> map_ok m'.
Proof.
  intros Hok Hr. unfold rm_insert, rm_intersects. intros ([m1 x] & E & H)%res_bind_Ok_inv. cbn [fst snd] in H.
  destruct (find_keeps _ _ _ _ _ Hok E) as [Hok1 Et]. destruct x as [k|]; injection H as <- <-; [done |].
  assert (tree_ok (tree_insert r d (rm_tree m1))) as Hti.
  { apply insert_ok; [by destruct Hok1 | done |]. unfold rm_find in E. apply res_bind_Ok_inv in E as ([[hit rest]|] & _ & E); [done |].
    apply res_bind_Ok_inv in E as ([k|] & F & E); [done |]. injection E as <-. done. }
  destruct Hok1 as [_ Hc Hl]. split; cbn [setf rm_tree rm_cache]; [done | | done]. eapply Forall_impl; [exact Hc |].
  intros k (e & He & Hk). exists e. split; [| done]. clear -He. induction (rm_tree m1) as [|o tree IH]; [by apply not_elem_of_nil in He |].
  cbn [tree_insert]. destruct (range_lt o.1 r); [| destruct (range_lt r o.1); [by right | done]].
  apply elem_of_cons in He as [-> |He]; [by left | right; by apply IH].
Qed.

Lemma map_ok_erase m p : map_ok m -> map_ok (rm_erase m p).
Proof.
  intros [[Hs Hg] Hc Hl]. unfold rm_erase, without. split; cbn [setf rm_tree rm_cache].
  - rewrite Forall_forall in Hg. split; [| apply Forall_forall; intros e [_ He]%list_elem_of_filter; by apply Hg].
    clear -Hs. induction Hs as [|e l Hs IH He]; [constructor |]. rewrite filter_cons. case_decide; [| done].
    constructor; [done |]. rewrite Forall_forall in *. intros o [_ Ho]%list_elem_of_filter. by apply He.
  - rewrite Forall_forall in *. intros k [Hk Hin]%list_elem_of_filter. destruct (Hc k Hin) as (e & He & Hek). exists e.
    split; [| done]. apply list_elem_of_filter. split; [congruence | done].
  - intros Hm. specialize (Hl Hm). pose proof (length_filter (fun c => c <> p) (rm_cache m)). lia.
Qed.

Lemma tree_ok_middle l mid k : tree_ok (l ++ mid ++ k) -> tree_ok (l ++ k).
Proof.
  intros [Hs Hg]. split.
  - induction l as [|e l IH]; cbn [app] in *.
    + clear -Hs. induction mid as [|e mid IH]; [done |]. apply IH. by apply StronglySorted_inv in Hs as [? _].
    + apply StronglySorted_inv in Hs as [Hs He]. apply Forall_cons in Hg as [_ Hg]. constructor; [by apply IH |].
      rewrite !Forall_app in He. apply Forall_app. tauto.
  - rewrite !Forall_app in Hg. apply Forall_app. tauto.
Qed.

Lemma without_all p (mid : list (AddrRange * V)) c : (foldl (fun c _ => without p c) (without p c) mid) = without p c.
Proof.
  assert (without p (without p c) = without p c) as Hw.
  { unfold without. induction c as [|x c IH]; [done |]. rewrite filter_cons. case_decide; [| done]. rewrite filter_cons_True by done. by f_equal. }
  induction mid as [|e mid IH]; [done |]. cbn [foldl]. by rewrite Hw.
Qed.

Lemma map_ok_erase_range m i j : map_ok m -> (i <= j)%nat -> rest_not_cached m i j -> map_ok (rm_erase_range m i j).
Proof.
  intros [Ht Hc Hl] Hij Hn. unfold rest_not_cached in Hn. unfold rm_erase_range. set (mid := take (j - i) (drop i (rm_tree m))) in *.
  assert (rm_tree m = take i (rm_tree m) ++ mid ++ drop j (rm_tree m)) as E.
  { unfold mid. replace j with (i + (j - i))%nat at 2 by lia. by rewrite <- drop_drop, !take_drop. }
  assert (forall k, k ∈ rm_cache m -> (forall p, p ∈ take 1 mid -> rkey p.1 <> k) -> cached_in (take i (rm_tree m) ++ drop j (rm_tree m)) k) as Hin.
  { intros k Hk Hp. rewrite Forall_forall in Hc. destruct (Hc k Hk) as (e & He & Hek). exists e. split; [| done]. rewrite E in He.
    rewrite !elem_of_app in He. apply elem_of_app. destruct He as [?|[He|?]]; [by left | exfalso | by right].
    rewrite <- (take_drop 1 mid) in He. apply elem_of_app in He as [He|He]; [by apply (Hp e He) | apply (Hn e He); by rewrite Hek]. }
  split; cbn [setf rm_tree rm_cache]; [rewrite E in Ht; by apply tree_ok_middle in Ht | |].
  - destruct mid as [|p mid]; [apply Forall_forall; intros k Hk; apply Hin; [done | by intros p ?%not_elem_of_nil] |].
    cbn [foldl]. rewrite without_all. apply Forall_forall. intros k [Hk Hkc]%list_elem_of_filter. apply Hin; [done |].
    cbn [take]. by intros p' ->%list_elem_of_singleton ?.
  - intros Hm. specialize (Hl Hm). destruct mid as [|p mid]; [done |]. cbn [foldl]. rewrite without_all.
    pose proof (length_filter (fun c => c <> rkey p.1) (rm_cache m)). unfold without. lia.
Qed.

Lemma rm_reach_ok m : rm_reach m -> map_ok m.
Proof.
  induction 1 as [|m r cond m' it _ IH H|m r d m' it _ IH Hr H|m it _ IH|m i j _ IH Hij Hn|m _ IH].
  - split; [split; constructor | constructor | cbn; lia].
  - by eapply find_keeps.
  - by eapply map_ok_insert.
  - by apply map_ok_erase.
  - by apply map_ok_erase_range.
  - split; [split; constructor | constructor | cbn; lia].
Qed.

Lemma search_cache_decode m a cache :
  0 <= a < 2 ^ 64 - 1 -> tree_ok (rm_tree m) -> Forall (cached_in (rm_tree m)) cache ->
  exists r, search_cache m (fun r => range_isSubset (RangeSize a 1) r) cache = Ok r /\
    match r with Some (it, _) => decode (rm_tree m) a = Some it | None => True end.
Proof.
  intros Ha Hok. induction 1 as [|it cache Hi _ IH]; cbn [search_cache]; [by eexists |].
  destruct (deref_cached m it Hi) as (e & -> & He & <-). rsimpl. rewrite isSubset_contains; [| | done].
  - rsimpl. destruct (contains e.1 a) eqn:Ec; [eexists; split; [done |]; by apply decode_some |].
    destruct IH as (r & -> & Hr). rsimpl. eexists. split; [done |]. by destruct r as [[? ?]|].
  - destruct Hok as [_ Hg]. rewrite Forall_forall in Hg. by apply Hg.
Qed.

(** C39. Decoding an address with the map, its cache of recent entries first,
    then the ordered tree from the upper bound downwards, is the same as trying
    every range: in every state reached by inserting well-formed ranges,
    searching with any condition, erasing one entry or several of which at most
    the first is in the cache, and clearing, for every address but the largest,
    it returns the entry whose range contains the address, and the end if there
    is none; the entries
    are unchanged and the cache never exceeds its size.  At most one range
    contains the address, so the order of the trials does not matter. *)
Theorem range_map_decodes m a :
  rm_reach m -> 0 <= a < 2 ^ 64 - 1 ->
  exists m', contains_addr max_cache_size m a = Ok (m', decode (rm_tree m) a) /\ rm_tree m' = rm_tree m /\
    (0 <= max_cache_size < 2 ^ 64 -> Z.of_nat (length (rm_cache m')) <= max_cache_size) /\
    forall e o, e ∈ rm_tree m -> o ∈ rm_tree m -> contains e.1 a = true -> contains o.1 a = true -> rkey e.1 = rkey o.1.
Proof.
  intros Hm%rm_reach_ok Ha. pose proof Hm as [Ht Hc _].
  assert (exists m', contains_addr max_cache_size m a = Ok (m', decode (rm_tree m) a)) as [m' E].
  { unfold contains_addr, contains_range, rm_find. destruct (search_cache_decode m a _ Ha Ht Hc) as ([[it rest]|] & -> & Hr); rsimpl.
    - rewrite Hr. eauto.
    - rewrite (find_tree_spec m a Ha Ht). rsimpl. destruct (decode (rm_tree m) a); eauto. }
  exists m'. destruct (find_keeps _ _ _ _ _ Hm E) as [Hm' Et]. split_and!; [done | done | by destruct Hm' |].
  intros e o He Ho Hce Hco. pose proof (decode_some _ a e Ht He Hce). pose proof (decode_some _ a o Ht Ho Hco). congruence.
Qed.
End Proofs.

(** ** Examples *)
Definition stripe (start fin : Z) (ms : list Z) (k : Z) : AddrRange := {| _start := start; _end := fin; masks := ms; intlvMatch := k |}.

(** Two stripes of a page, interleaved by 64 bytes, and another page. *)
Definition demo_ranges : list (AddrRange * Z) :=
  [(stripe 0 4096 [64] 0, 10); (stripe 0 4096 [64] 1, 11); (stripe 8192 12288 [] 0, 12)].

Definition insert_all (max_cache_size : Z) (l : list (AddrRange * Z)) (m : AddrRangeMap Z) : res (AddrRangeMap Z) :=
  foldM (fun m e => r ← rm_insert max_cache_size m e.1 e.2; Ok r.1) l m.

Lemma demo_ranges_good : Forall (fun e => range_good e.1) demo_ranges.
Proof.
  assert (forall s f ms k, 0 <= s < f -> f < 2 ^ 64 -> range_size (stripe s f ms k) <> 1 -> (exists g, granularity (stripe s f ms k) = Ok g) ->
    0 <= k -> (ms = [] -> k = 0) -> Forall (fun m => Z.land s m = 0) ms -> range_good (stripe s f ms k)) as Hg by (intros; by split).
  repeat constructor; apply Hg; try (vm_compute; (done || by eexists || by split)); repeat constructor.
Qed.

Lemma insert_all_reach max l m m' :
  rm_reach max m -> Forall (fun e => range_good e.1) l -> insert_all max l m = Ok m' -> rm_reach max m'.
Proof.
  intros Hm Hl. revert m Hm. induction Hl as [|e l He _ IH]; intros m Hm H; cbn [insert_all foldM] in H; [by injection H as <- |].
  apply res_bind_Ok_inv in H as (m1 & E & H). apply res_bind_Ok_inv in E as ([m2 it] & E & [= <-]). eapply IH; [| exact H].
  by eapply reach_insert.
Qed.

Definition demo_map : AddrRangeMap Z := {| rm_tree := demo_ranges; rm_cache := [] |}.

Lemma range_map_decodes_witness :
  exists m', contains_addr 3 demo_map 8200 = Ok (m', Some (8192, 0)) /\ rm_tree m' = demo_ranges.
Proof.
  destruct (range_map_decodes 3 demo_map 8200) as (m' & E & Et & _).
  - apply (insert_all_reach 3 demo_ranges AddrRangeMap_ctor); [constructor | exact demo_ranges_good | vm_compute; reflexivity].
  - lia.
  - exists m'. split; [rewrite E; vm_compute; reflexivity | exact Et].
Defined.

(** Erasing several entries leaves iterators to all but the first of them in
    the cache; the next search follows one. *)
Example erase_range_dangles :
  (m ← insert_all 3 demo_ranges AddrRangeMap_ctor;
   r ← contains_addr 3 m 64; r ← contains_addr 3 r.1 8200;
   contains_addr 3 (rm_erase_range r.1 1 3) 0) = Err EUninit.
Proof. vm_compute. reflexivity. Qed.

(** An interleaved range is accepted around a range of one byte that it does
    not contain, and its addresses above are no longer found. *)
Example single_byte_hides :
  (m ← insert_all 0 [(stripe 10 11 [] 0, 1); (stripe 0 64 [2] 0, 2)] AddrRangeMap_ctor;
   r ← contains_addr 0 m 20; Ok (rm_size m, contains (stripe 0 64 [2] 0) 20, r.2)) = Ok (2, true, None).
Proof. vm_compute. reflexivity. Qed.

(** When the start address does not select the first stripe, it is not found. *)
Example start_stripe_missed :
  (m ← insert_all 0 ((fun k => (stripe 128 1152 [64; 128] k, k)) <$> [0; 1; 2; 3]) AddrRangeMap_ctor;
   r ← contains_addr 0 m 128; Ok (rm_size m, contains (stripe 128 1152 [64; 128] 2) 128, r.2)) = Ok (4, true, None).
Proof. vm_compute. reflexivity. Qed.

(** The range of one byte at the largest address ends at 0, so it counts as
    part of a range that does not contain it. *)
Example largest_address_misdecoded :
  (m ← insert_all 0 [(stripe 0 4096 [] 0, 1)] AddrRangeMap_ctor;
   r ← contains_addr 0 m (2 ^ 64 - 1); Ok (contains (stripe 0 4096 [] 0) (2 ^ 64 - 1), r.2)) = Ok (false, Some (0, 0)).
Proof. vm_compute. reflexivity. Qed.
