(* ===== verification/CacheRecorder.v ===== *)
(** * Warm-up traces

    Models [mem/ruby/system/CacheRecorder.{hh,cc}]: the contents of the caches
    recorded for a checkpoint, gathered in one array of bytes, and the requests
    made from that array when the checkpoint is restored.

    A [TraceRecord] is a block of memory: its fields lie at the offsets of the
    x86-64 ABI (the [int] at 0, the three 64-bit fields at 8, 16 and 24, the
    enumeration at 32, the data at 36), [sizeof(TraceRecord)] is 40, and the
    bytes between the fields keep what [malloc] left there.  The order
    [std::sort] gives to records of equal time is a parameter.  The theorem
    shows that restoring a checkpoint asks for exactly the recorded lines. *)
From S2P Require Import Prelude NetDest Common DataBlock.

(** ** Integers in memory *)
Fixpoint le_bytes (n : nat) (z : Z) : list Z := match n with O => [] | S n => z mod 256 :: le_bytes n (z / 256) end.
Definition le_value (l : list Z) : Z := foldr (fun b acc => b + 256 * acc) 0 l.

Definition sizeof_TraceRecord : Z := 40.
Definition data_offset : Z := 36.

(** Fields of the record at [rec]. *)
Definition u64_at (mem : list Z) (off : Z) : res Z := l ← bytes_at mem off 8; Ok (le_value l).
Definition i32_at (mem : list Z) (off : Z) : res Z := l ← bytes_at mem off 4; Ok (i32 (le_value l)).

Record RecorderRequest := {
  rq_sequencer : Z;
  rq_write : bool;
  rq_inst_fetch : bool;
  rq_flush : bool;
  rq_addr : Z;
  rq_size : Z;
  rq_data : list Z
}.

Record CacheRecorder := {
  m_records : list (list Z);
  m_uncompressed_trace : option (list Z);
  m_uncompressed_trace_size : Z;
  m_seq_map : list (option Z);    (** pointers to sequencers *)
  m_bytes_read : Z;
  m_records_read : Z;
  m_records_flushed : Z;
  cr_block_size_bytes : Z
}.

#[export] Instance CacheRecorder_eta : Eta CacheRecorder := {| eta := fun r =>
  {| m_records := m_records r; m_uncompressed_trace := m_uncompressed_trace r; m_uncompressed_trace_size := m_uncompressed_trace_size r;
     m_seq_map := m_seq_map r; m_bytes_read := m_bytes_read r; m_records_read := m_records_read r;
     m_records_flushed := m_records_flushed r; cr_block_size_bytes := cr_block_size_bytes r |} |}.

Section Recorder.
(** [RubySystem::getBlockSizeBytes()], the codes of two request types, what
    [new uint8_t[n]] contains, and [std::sort]. *)
Context (block_size : Z) (RubyRequestType_LD RubyRequestType_IFETCH : Z).
Context (fresh : Z -> list Z) (sort : (list Z -> list Z -> bool) -> list (list Z) -> list (list Z)).

Definition CacheRecorder_ctor (trace : option (list Z)) (trace_size : Z) (seq_map : list (option Z)) (block_size_bytes : Z) : res CacheRecorder :=
  _ ← (match trace with Some _ => panic_if (block_size_bytes <? block_size) | None => Ok tt end);
  Ok {| m_records := []; m_uncompressed_trace := trace; m_uncompressed_trace_size := trace_size; m_seq_map := seq_map;
        m_bytes_read := 0; m_records_read := 0; m_records_flushed := 0; cr_block_size_bytes := block_size_bytes |}.

(** [rec] is the block [malloc] returned. *)
Definition addRecord (r : CacheRecorder) (rec : list Z) (cntrl data_addr pc_addr type time : Z) (data : datablock) : res CacheRecorder :=
  rec ← copy_bytes rec 0 (le_bytes 4 cntrl);
  rec ← copy_bytes rec 8 (le_bytes 8 time);
  rec ← copy_bytes rec 16 (le_bytes 8 data_addr);
  rec ← copy_bytes rec 24 (le_bytes 8 pc_addr);
  rec ← copy_bytes rec 32 (le_bytes 4 type);
  bytes ← getData block_size data 0 (i32 (cr_block_size_bytes r));
  rec ← copy_bytes rec data_offset bytes;
  Ok (r ⟨ m_records := m_records r ++ [rec] ⟩).

(** A field of a record that is read outside its block counts as zero; no
    record is that short. *)
Definition record_time (rec : list Z) : Z := match u64_at rec 8 with Ok t => t | Err _ => 0 end.
Definition compareTraceRecords (n1 n2 : list Z) : bool := record_time n2 <? record_time n1.

Definition record_size (r : CacheRecorder) : Z := i32 (u64 (sizeof_TraceRecord + cr_block_size_bytes r)).

(** The loop of [aggregateRecords]: the array, its size, and the bytes used.
    Allocation succeeds, so its [fatal] is not reached. *)
Definition aggregate_one (size : Z) (st : list Z * Z * Z) (rec : list Z) : res (list Z * Z * Z) :=
  let '(buf, total_size, current_size) := st in
  let '(buf, total_size) :=
    if total_size <? u64 (current_size + size)
    then (take (Z.to_nat current_size) buf ++ drop (Z.to_nat current_size) (fresh (u64 (total_size * 2))), u64 (total_size * 2))
    else (buf, total_size) in
  bytes ← bytes_at rec 0 size;
  buf ← copy_bytes buf current_size bytes;
  Ok (buf, total_size, u64 (current_size + size)).

(** The loop runs up to [int size = m_records.size()], which is none of the
    records when the number does not fit an [int]. *)
Definition aggregateRecords (r : CacheRecorder) (buf : list Z) (total_size : Z) : res (CacheRecorder * list Z * Z) :=
  let records := sort compareTraceRecords (m_records r) in
  let size := i32 (Z.of_nat (length records)) in
  st ← foldM (aggregate_one (record_size r)) (take (Z.to_nat size) records) (buf, total_size, 0);
  Ok (r ⟨ m_records := [] ⟩, st.1.1, st.2).

Definition sequencer_of (r : CacheRecorder) (cntrl : Z) : res Z :=
  s ← vget (m_seq_map r) cntrl; match s with Some p => Ok p | None => Err EAssert end.

(** The offsets of the loop over a recorded block, for a block size that is
    positive and recorded blocks whose size fits an [int]. *)
Definition chunk_offsets (r : CacheRecorder) : list Z :=
  (fun k => k * block_size) <$> seqZ 0 ((cr_block_size_bytes r + block_size - 1) / block_size).

Definition fetch_chunk (r : CacheRecorder) (trace : list Z) (rec_bytes_read : Z) : res RecorderRequest :=
  type ← i32_at trace (m_bytes_read r + 32);
  addr ← u64_at trace (m_bytes_read r + 16);
  data ← bytes_at trace (m_bytes_read r + data_offset + rec_bytes_read) block_size;
  cntrl ← i32_at trace (m_bytes_read r);
  s ← sequencer_of r cntrl;
  Ok {| rq_sequencer := s; rq_write := negb (type =? RubyRequestType_LD) && negb (type =? RubyRequestType_IFETCH);
        rq_inst_fetch := negb (type =? RubyRequestType_LD) && (type =? RubyRequestType_IFETCH); rq_flush := false;
        rq_addr := u64 (addr + rec_bytes_read); rq_size := block_size; rq_data := data |}.

Definition enqueueNextFetchRequest (r : CacheRecorder) : res (CacheRecorder * list RecorderRequest) :=
  if m_bytes_read r <? m_uncompressed_trace_size r then
    match m_uncompressed_trace r with
    | None => Err EUninit
    | Some trace =>
        reqs ← foldM (fun l o => q ← fetch_chunk r trace o; Ok (l ++ [q])) (chunk_offsets r) [];
        Ok (r ⟨ m_bytes_read := u64 (m_bytes_read r + (sizeof_TraceRecord + cr_block_size_bytes r)) ⟩
              ⟨ m_records_read := u64 (m_records_read r + 1) ⟩, reqs)
    end
  else Ok (r, []).

Definition enqueueNextFlushRequest (r : CacheRecorder) : res (CacheRecorder * list RecorderRequest) :=
  if m_records_flushed r <? Z.of_nat (length (m_records r)) then
    rec ← vget (m_records r) (m_records_flushed r);
    addr ← u64_at rec 16;
    cntrl ← i32_at rec 0;
    s ← sequencer_of r cntrl;
    Ok (r ⟨ m_records_flushed := u64 (m_records_flushed r + 1) ⟩,
        [{| rq_sequencer := s; rq_write := false; rq_inst_fetch := false; rq_flush := true; rq_addr := addr;
            rq_size := u32 (cr_block_size_bytes r); rq_data := [] |}])
  else Ok (r, []).
End Recorder.

(** ** Bytes *)
Lemma length_le_bytes n z : length (le_bytes n z) = n.
Proof. revert z. induction n as [|n IH]; intros z; [done |]. cbn [le_bytes length]. by rewrite IH. Qed.

Lemma le_value_bytes n z : le_value (le_bytes n z) = z mod 2 ^ (8 * Z.of_nat n).
Proof.
  revert z. induction n as [|n IH]; intros z; [by rewrite Z.mod_1_r |]. cbn [le_bytes le_value foldr]. fold (le_value (le_bytes n (z / 256))).
  rewrite IH. replace (8 * Z.of_nat (S n)) with (8 + 8 * Z.of_nat n) by lia. rewrite Z.pow_add_r by lia. change (2 ^ 8) with 256.
  rewrite Z.rem_mul_r by (pose proof (Z.pow_pos_nonneg 2 (8 * Z.of_nat n)); lia). done.
Qed.

Lemma bytes_at_mid pre mid post off n :
  off = Z.of_nat (length pre) -> n = Z.of_nat (length mid) -> bytes_at (pre ++ mid ++ post) off n = Ok mid.
Proof.
  intros -> ->. unfold bytes_at. rewrite decide_True by (rewrite !length_app; lia). rewrite !Nat2Z.id, drop_app_length, take_app_length. done.
Qed.

Lemma copy_bytes_mid pre mid post off new :
  off = Z.of_nat (length pre) -> length new = length mid -> copy_bytes (pre ++ mid ++ post) off new = Ok (pre ++ new ++ post).
Proof.
  intros -> Hl. unfold copy_bytes. rewrite decide_True by (rewrite !length_app; lia). rewrite Nat2Z.id, take_app_length, Hl.
  by rewrite drop_app_add', drop_app_length.
Qed.

Lemma copy_bytes_front mid post new : length new = length mid -> copy_bytes (mid ++ post) 0 new = Ok (new ++ post).
Proof. intros Hl. exact (copy_bytes_mid [] mid post 0 new eq_refl Hl). Qed.

(** ** Recorded lines *)
Record line := { ln_cntrl : Z; ln_addr : Z; ln_pc : Z; ln_type : Z; ln_time : Z; ln_data : list Z }.

Record line_ok (B : Z) (seqs : list (option Z)) (ln : line) : Prop := {
  lo_cntrl : 0 <= ln_cntrl ln < 2 ^ 31 /\ exists p, vget seqs (ln_cntrl ln) = Ok (Some p);
  lo_type : 0 <= ln_type ln < 2 ^ 31;
  lo_addr : in_u64 (ln_addr ln);
  lo_time : in_u64 (ln_time ln);
  lo_data : Z.of_nat (length (ln_data ln)) = B
}.

(** The bytes of a record; [p] and [q] are the gaps. *)
Definition layout (ln : line) (p q : list Z) : list Z :=
  le_bytes 4 (ln_cntrl ln) ++ p ++ le_bytes 8 (ln_time ln) ++ le_bytes 8 (ln_addr ln) ++ le_bytes 8 (ln_pc ln) ++ le_bytes 4 (ln_type ln) ++ ln_data ln ++ q.

Definition encodes (ln : line) (rec : list Z) : Prop := exists p q, length p = 4%nat /\ length q = 4%nat /\ rec = layout ln p q.

Lemma encodes_length B seqs ln rec : line_ok B seqs ln -> encodes ln rec -> Z.of_nat (length rec) = 40 + B.
Proof.
  intros Hl (p & q & Hp & Hq & ->). unfold layout. rewrite !length_app, !length_le_bytes, Hp, Hq. pose proof (lo_data _ _ _ Hl). lia.
Qed.

(** The fields of a record inside a longer array. *)
Lemma encodes_fields B seqs ln rec pre post :
  line_ok B seqs ln -> encodes ln rec ->
  let T := pre ++ rec ++ post in let o := Z.of_nat (length pre) in
  i32_at T o = Ok (ln_cntrl ln) /\ u64_at T (o + 8) = Ok (ln_time ln) /\ u64_at T (o + 16) = Ok (ln_addr ln) /\
  i32_at T (o + 32) = Ok (ln_type ln) /\
  forall x k n, x = Z.of_nat k -> n + Z.of_nat k <= B -> 0 <= n -> bytes_at T (o + data_offset + x) n = Ok (take (Z.to_nat n) (drop k (ln_data ln))).
Proof.
  intros Hl (p & q & Hp & Hq & ->). cbn zeta. unfold layout.
  assert (forall off m z mid rest a, pre ++ mid ++ le_bytes m z ++ rest = a -> Z.of_nat (length mid) = off ->
    bytes_at a (Z.of_nat (length pre) + off) (Z.of_nat m) = Ok (le_bytes m z)) as Hf.
  { intros off m z mid rest a <- Ho. rewrite app_assoc. apply bytes_at_mid; [rewrite length_app; lia | by rewrite length_le_bytes]. }
  destruct Hl as [[Hc _] Ht Ha Htm Hd]. unfold in_u64 in *. unfold i32_at, u64_at. rewrite <- !app_assoc. split_and!.
  - rewrite <- (Z.add_0_r (Z.of_nat (length pre))). erewrite (Hf 0 4%nat _ []); [| reflexivity | done]. rsimpl.
    rewrite le_value_bytes, Z.mod_small, i32_id by (unfold in_i32; lia). done.
  - erewrite (Hf 8 8%nat _ (le_bytes 4 (ln_cntrl ln) ++ p)); [| by rewrite <- !app_assoc | rewrite length_app, length_le_bytes, Hp; done]. rsimpl.
    by rewrite le_value_bytes, Z.mod_small by lia.
  - erewrite (Hf 16 8%nat _ (le_bytes 4 (ln_cntrl ln) ++ p ++ le_bytes 8 (ln_time ln)));
      [| by rewrite <- !app_assoc | rewrite !length_app, !length_le_bytes, Hp; done]. rsimpl. by rewrite le_value_bytes, Z.mod_small by lia.
  - erewrite (Hf 32 4%nat _ (le_bytes 4 (ln_cntrl ln) ++ p ++ le_bytes 8 (ln_time ln) ++ le_bytes 8 (ln_addr ln) ++ le_bytes 8 (ln_pc ln)));
      [| by rewrite <- !app_assoc | rewrite !length_app, !length_le_bytes, Hp; done]. rsimpl.
    rewrite le_value_bytes, Z.mod_small, i32_id by (unfold in_i32; lia). done.
  - intros x k n -> Hn Hn0. rewrite <- (take_drop k (ln_data ln)) at 1. rewrite <- (take_drop (Z.to_nat n) (drop k (ln_data ln))) at 1.
    assert (length (take k (ln_data ln)) = k) as Hk by (rewrite length_take; lia).
    set (front := pre ++ le_bytes 4 (ln_cntrl ln) ++ p ++ le_bytes 8 (ln_time ln) ++ le_bytes 8 (ln_addr ln) ++ le_bytes 8 (ln_pc ln) ++
      le_bytes 4 (ln_type ln) ++ take k (ln_data ln)).
    match goal with |- bytes_at ?a _ _ = _ =>
      replace a with (front ++ take (Z.to_nat n) (drop k (ln_data ln)) ++ (drop (Z.to_nat n) (drop k (ln_data ln)) ++ q ++ post))
        by (unfold front; by rewrite <- !app_assoc) end.
    apply bytes_at_mid; [unfold front, data_offset; rewrite !length_app, !length_le_bytes, Hp, Hk; lia | rewrite length_take, length_drop; lia].
Qed.

Lemma split_at {A} (l : list A) (n : nat) : (n <= length l)%nat -> exists a b, l = a ++ b /\ length a = n.
Proof. intros H. exists (take n l), (drop n l). split; [by rewrite take_drop | rewrite length_take; lia]. Qed.

(** Filling in a block of memory. *)
Lemma addRecord_encodes B seqs r mem ln :
  line_ok B seqs ln -> 0 < B < 2 ^ 31 -> cr_block_size_bytes r = B -> Z.of_nat (length mem) = sizeof_TraceRecord + B ->
  exists rec, addRecord B r mem (ln_cntrl ln) (ln_addr ln) (ln_pc ln) (ln_type ln) (ln_time ln) (ln_data ln) =
    Ok (r ⟨ m_records := m_records r ++ [rec] ⟩) /\ encodes ln rec.
Proof.
  intros Hl HB Hr Hm. unfold sizeof_TraceRecord in Hm. pose proof (lo_data _ _ _ Hl) as Hd.
  destruct (split_at mem 4) as (m1 & t1 & -> & H1); [lia |]. rewrite length_app in Hm.
  destruct (split_at t1 4) as (m2 & t2 & -> & H2); [lia |]. rewrite length_app in Hm.
  destruct (split_at t2 8) as (m3 & t3 & -> & H3); [lia |]. rewrite length_app in Hm.
  destruct (split_at t3 8) as (m4 & t4 & -> & H4); [lia |]. rewrite length_app in Hm.
  destruct (split_at t4 8) as (m5 & t5 & -> & H5); [lia |]. rewrite length_app in Hm.
  destruct (split_at t5 4) as (m6 & t6 & -> & H6); [lia |]. rewrite length_app in Hm.
  destruct (split_at t6 (length (ln_data ln))) as (m7 & m8 & -> & H7); [lia |]. rewrite length_app in Hm.
  unfold addRecord. rewrite (copy_bytes_front m1) by (by rewrite length_le_bytes). rsimpl.
  rewrite (app_assoc (le_bytes 4 (ln_cntrl ln))), (copy_bytes_mid _ m3) by (rewrite ?length_app, ?length_le_bytes, ?H2; done). rsimpl.
  rewrite (app_assoc _ (le_bytes 8 (ln_time ln))), (copy_bytes_mid _ m4) by (rewrite ?length_app, ?length_le_bytes, ?H2; done). rsimpl.
  rewrite (app_assoc _ (le_bytes 8 (ln_addr ln))), (copy_bytes_mid _ m5) by (rewrite ?length_app, ?length_le_bytes, ?H2; done). rsimpl.
  rewrite (app_assoc _ (le_bytes 8 (ln_pc ln))), (copy_bytes_mid _ m6) by (rewrite ?length_app, ?length_le_bytes, ?H2; done). rsimpl.
  unfold getData. rewrite Hr, i32_id by (unfold in_i32; lia). rewrite (proj2 (Z.leb_le _ _)) by lia. rsimpl.
  assert (bytes_at (ln_data ln) 0 B = Ok (ln_data ln)) as ->.
  { unfold bytes_at. rewrite decide_True by lia. rewrite drop_0, take_ge by lia. done. }
  rsimpl. rewrite (app_assoc _ (le_bytes 4 (ln_type ln))), (copy_bytes_mid _ m7) by (unfold data_offset; rewrite ?length_app, ?length_le_bytes, ?H2; lia).
  rsimpl. eexists. split; [done |]. exists m2, m8. split_and!; [done | lia |]. unfold layout. by rewrite <- !app_assoc.
Qed.

(** ** Gathering *)
Section Aggregate.
Context (fresh : Z -> list Z) (Hfresh : forall n, 0 <= n -> Z.of_nat (length (fresh n)) = n).
Context (size : Z) (Hsize : 0 < size).

(** The array after the records of [done]: it has room for one more when it
    is doubled once. *)
Record gathered (limit : Z) (done : list Z) (st : list Z * Z * Z) : Prop := {
  ga_buf : exists rest, st.1.1 = done ++ rest;
  ga_length : Z.of_nat (length st.1.1) = st.1.2;
  ga_current : st.2 = Z.of_nat (length done);
  ga_total : size <= st.1.2 <= limit
}.

Lemma aggregate_step limit done st rec :
  gathered limit done st -> Z.of_nat (length rec) = size -> 2 * (Z.of_nat (length done) + size) <= limit -> limit < 2 ^ 64 ->
  exists st', aggregate_one fresh size st rec = Ok st' /\ gathered limit (done ++ rec) st'.
Proof.
  intros [[rest Hb] Hl Hc Ht] Hrec Hlim Hlt. destruct st as [[buf total] current]. cbn [fst snd] in *. subst current buf.
  unfold aggregate_one. rewrite length_app in Hl.
  assert (exists buf' total', (if total <? u64 (Z.of_nat (length done) + size)
    then (take (Z.to_nat (Z.of_nat (length done))) (done ++ rest) ++ drop (Z.to_nat (Z.of_nat (length done))) (fresh (u64 (total * 2))), u64 (total * 2))
    else (done ++ rest, total)) = (done ++ buf', total') /\ Z.of_nat (length done) + Z.of_nat (length buf') = total' /\
    size <= Z.of_nat (length buf') /\ total' <= limit) as (buf' & total' & -> & Hl' & Hroom & Hlim').
  { rewrite (u64_id (Z.of_nat (length done) + size)) by (unfold in_u64; lia). rewrite Nat2Z.id, take_app_length.
    destruct (total <? _) eqn:E; b2p.
    - rewrite u64_id by (unfold in_u64; lia). do 2 eexists. split; [done |]. rewrite length_drop. pose proof (Hfresh (total * 2)). lia.
    - exists rest, total. split_and!; [done | lia | lia | lia]. }
  assert (bytes_at rec 0 size = Ok rec) as ->.
  { unfold bytes_at. rewrite decide_True by lia. rewrite drop_0, take_ge by lia. done. }
  rsimpl. destruct (split_at buf' (length rec)) as (mid & post & -> & Hmid); [lia |].
  rewrite (copy_bytes_mid done mid post) by lia. rsimpl. eexists. split; [done |]. split; cbn [fst snd].
  - exists post. by rewrite <- app_assoc.
  - rewrite !length_app in *. lia.
  - rewrite length_app, u64_id by (unfold in_u64; lia). lia.
  - rewrite length_app in *. lia.
Qed.

Lemma aggregate_all limit recs done st :
  gathered limit done st -> Forall (fun rec => Z.of_nat (length rec) = size) recs ->
  2 * (Z.of_nat (length done) + Z.of_nat (length recs) * size) <= limit -> limit < 2 ^ 64 ->
  exists st', foldM (aggregate_one fresh size) recs st = Ok st' /\ gathered limit (done ++ concat recs) st'.
Proof.
  intros Hg Hall. revert done st Hg. induction Hall as [|rec recs Hr _ IH]; intros done st Hg Hlim Hlt; cbn [foldM concat].
  { exists st. by rewrite app_nil_r. }
  cbn [length] in Hlim. destruct (aggregate_step limit done st rec) as (st1 & -> & Hg1); [done | done | lia | done |]. rsimpl.
  destruct (IH (done ++ rec) st1 Hg1) as (st' & E & Hg'); [rewrite length_app; lia | done |]. exists st'. by rewrite app_assoc.
Qed.
End Aggregate.

(** ** Fetching *)
Section Fetch.
Context (B k : Z) (LD IFETCH : Z) (seqs : list (option Z)).

Definition sequencer_at (cntrl : Z) : Z := match vget seqs cntrl with Ok (Some p) => p | _ => 0 end.

(** The requests of one recorded line, [k] blocks of the present size [B]. *)
Definition request_of (ln : line) (j : Z) : RecorderRequest :=
  {| rq_sequencer := sequencer_at (ln_cntrl ln); rq_write := negb (ln_type ln =? LD) && negb (ln_type ln =? IFETCH);
     rq_inst_fetch := negb (ln_type ln =? LD) && (ln_type ln =? IFETCH); rq_flush := false;
     rq_addr := u64 (ln_addr ln + j * B); rq_size := B; rq_data := take (Z.to_nat B) (drop (Z.to_nat (j * B)) (ln_data ln)) |}.
Definition requests_of (ln : line) : list RecorderRequest := request_of ln <$> seqZ 0 k.

Context (HB : 0 < B) (Hk : 0 < k).

Lemma fetch_one pre rec post ln r :
  line_ok (k * B) seqs ln -> encodes ln rec -> 40 + k * B < 2 ^ 62 -> Z.of_nat (length (pre ++ rec ++ post)) < 2 ^ 62 ->
  m_uncompressed_trace r = Some (pre ++ rec ++ post) -> m_uncompressed_trace_size r = Z.of_nat (length (pre ++ rec ++ post)) ->
  m_bytes_read r = Z.of_nat (length pre) -> m_seq_map r = seqs -> cr_block_size_bytes r = k * B ->
  exists r', enqueueNextFetchRequest B LD IFETCH r = Ok (r', requests_of ln) /\ m_bytes_read r' = Z.of_nat (length (pre ++ rec)) /\
    m_uncompressed_trace r' = m_uncompressed_trace r /\ m_uncompressed_trace_size r' = m_uncompressed_trace_size r /\
    m_seq_map r' = seqs /\ cr_block_size_bytes r' = k * B.
Proof.
  intros Hl He Hsz Hlen Ht Hts Hb Hs Hbs. pose proof (encodes_length _ _ _ _ Hl He) as Hrl. rewrite !length_app in Hlen, Hts.
  destruct (encodes_fields _ _ _ _ pre post Hl He) as (Fc & _ & Fa & Fty & Fd).
  unfold enqueueNextFetchRequest. rewrite Ht, Hts, Hb. rewrite (proj2 (Z.ltb_lt _ _)) by lia.
  assert (forall j, 0 <= j < k -> fetch_chunk B LD IFETCH r (pre ++ rec ++ post) (j * B) = Ok (request_of ln j)) as Hchunk.
  { intros j Hj. unfold fetch_chunk, sequencer_of. rewrite Hb, Fty, Fa. rsimpl.
    rewrite (Fd (j * B) (Z.to_nat (j * B)) B) by nia. rsimpl. rewrite Fc. rsimpl. rewrite Hs. destruct (proj2 (lo_cntrl _ _ _ Hl)) as [p Hp].
    unfold request_of, sequencer_at. by rewrite Hp. }
  assert (forall js acc, (forall j, j ∈ js -> 0 <= j < k) ->
    foldM (fun l o => q ← fetch_chunk B LD IFETCH r (pre ++ rec ++ post) o; Ok (l ++ [q])) ((fun j => j * B) <$> js) acc =
    Ok (acc ++ (request_of ln <$> js))) as Hloop.
  { induction js as [|j js IH]; intros acc Hjs; cbn [fmap list_fmap foldM]; [by rewrite app_nil_r |].
    rewrite Hchunk by (apply Hjs; by left). rsimpl. rewrite IH by (intros; apply Hjs; by right). by rewrite <- app_assoc. }
  unfold chunk_offsets. rewrite Hbs. replace ((k * B + B - 1) / B) with k by (Z.to_euclidean_division_equations; nia).
  rewrite Hloop by (intros j Hj%elem_of_seqZ; lia). rsimpl. eexists. split; [done |].
  cbn [setf m_bytes_read m_uncompressed_trace m_uncompressed_trace_size m_seq_map cr_block_size_bytes].
  split_and!; [| done | done | done | done]. rewrite ?Hb, ?Hbs, length_app. unfold sizeof_TraceRecord. rewrite u64_id by (unfold in_u64; lia). lia.
Qed.

(** [n] calls, each after the answer to the one before. *)
Fixpoint fetch_times (n : nat) (r : CacheRecorder) : res (CacheRecorder * list RecorderRequest) :=
  match n with
  | O => Ok (r, [])
  | S n => x ← enqueueNextFetchRequest B LD IFETCH r; y ← fetch_times n x.1; Ok (y.1, x.2 ++ y.2)
  end.

Lemma fetch_all lines recs pre r :
  Forall2 encodes lines recs -> Forall (line_ok (k * B) seqs) lines -> 40 + k * B < 2 ^ 62 ->
  Z.of_nat (length (pre ++ concat recs)) < 2 ^ 62 -> m_uncompressed_trace r = Some (pre ++ concat recs) ->
  m_uncompressed_trace_size r = Z.of_nat (length (pre ++ concat recs)) -> m_bytes_read r = Z.of_nat (length pre) ->
  m_seq_map r = seqs -> cr_block_size_bytes r = k * B ->
  exists r', fetch_times (length lines) r = Ok (r', lines ≫= requests_of) /\ m_bytes_read r' = m_uncompressed_trace_size r'.
Proof.
  intros HF. revert pre r. induction HF as [|ln rec lines recs He _ IH]; intros pre r Hok Hsz Hlen Ht Hts Hb Hs Hbs; cbn [length fetch_times].
  { exists r. split; [done |]. cbn [concat] in *. rewrite app_nil_r in *. congruence. }
  apply Forall_cons in Hok as [Hl Hok]. cbn [concat] in *.
  destruct (fetch_one pre rec (concat recs) ln r) as (r1 & -> & Hb1 & Ht1 & Hts1 & Hs1 & Hbs1); try done. rsimpl.
  destruct (IH (pre ++ rec) r1) as (r' & -> & Hr'); try done; [by rewrite <- app_assoc | by rewrite <- app_assoc, Ht1 | by rewrite <- app_assoc, Hts1 |].
  rsimpl. exists r'. split; [by rewrite bind_cons | done].
Qed.
End Fetch.

(** ** The round trip *)

(** Records every line, with the blocks [malloc] returned. *)
Definition record_all (B : Z) (lines : list (line * list Z)) (r : CacheRecorder) : res CacheRecorder :=
  foldM (fun r x => addRecord B r x.2 (ln_cntrl x.1) (ln_addr x.1) (ln_pc x.1) (ln_type x.1) (ln_time x.1) (ln_data x.1)) lines r.

Lemma record_all_encodes B seqs lines r :
  0 < B < 2 ^ 31 -> cr_block_size_bytes r = B ->
  Forall (fun x => line_ok B seqs x.1 /\ Z.of_nat (length x.2) = sizeof_TraceRecord + B) lines ->
  exists recs, record_all B lines r = Ok (r ⟨ m_records := m_records r ++ recs ⟩) /\ Forall2 encodes (fst <$> lines) recs.
Proof.
  intros HB Hr Hall. revert r Hr. induction Hall as [|x lines [Hx Hm] _ IH]; intros r Hr; cbn [record_all foldM fmap list_fmap].
  { exists []. split; [| done]. f_equal. rewrite app_nil_r. by destruct r. }
  destruct (addRecord_encodes B seqs r x.2 x.1 Hx HB Hr Hm) as (rec & -> & He). rsimpl.
  set (r1 := setf m_records _ r). destruct (IH r1) as (recs & E & HF); [done |]. unfold record_all in E. rewrite E.
  exists (rec :: recs). split; [| by constructor]. f_equal. unfold r1. cbn [setf m_records]. by rewrite <- app_assoc.
Qed.

Lemma Forall2_permuted {A C} (R : A -> C -> Prop) l k k' : Forall2 R l k -> k ≡ₚ k' -> exists l', l' ≡ₚ l /\ Forall2 R l' k'.
Proof.
  intros HF HP. revert l HF. induction HP as [|x k k' _ IH|x y k|k k1 k2 _ IH1 _ IH2]; intros l HF.
  - exists l. done.
  - apply Forall2_cons_inv_r in HF as (a & l0 & Ha & HF & ->). destruct (IH l0 HF) as (l' & HP' & HF'). exists (a :: l').
    split; [by constructor | by constructor].
  - apply Forall2_cons_inv_r in HF as (a & l0 & Ha & HF & ->). apply Forall2_cons_inv_r in HF as (b & l1 & Hb & HF & ->).
    exists (b :: a :: l1). split; [apply Permutation_swap | by repeat constructor].
  - destruct (IH1 l HF) as (l1 & HP1 & HF1), (IH2 l1 HF1) as (l2 & HP2 & HF2). exists l2. split; [by etransitivity | done].
Qed.

Lemma record_time_encodes B seqs ln rec : line_ok B seqs ln -> encodes ln rec -> record_time rec = ln_time ln.
Proof.
  intros Hl He. destruct (encodes_fields B seqs ln rec [] [] Hl He) as (_ & Ht & _). cbn [app length] in Ht. rewrite app_nil_r in Ht.
  unfold record_time. change (Z.of_nat 0 + 8) with 8 in Ht. by rewrite Ht.
Qed.

Lemma sorted_lines B seqs lines recs :
  Forall2 encodes lines recs -> Forall (line_ok B seqs) lines -> StronglySorted (fun a b => compareTraceRecords b a = false) recs ->
  StronglySorted (fun a b => ln_time b <= ln_time a) lines.
Proof.
  intros HF. induction HF as [|ln rec lines recs He HF IH]; intros Hok Hs; [constructor |].
  apply Forall_cons in Hok as [Hl Hok]. apply StronglySorted_inv in Hs as [Hs Hr]. constructor; [by apply IH |].
  rewrite Forall_forall in Hok. apply Forall_forall. intros ln' Hin. apply list_elem_of_lookup in Hin as [i Hi].
  destruct (Forall2_lookup_l _ _ _ _ _ HF Hi) as (rec' & Hi' & He'). rewrite Forall_forall in Hr.
  specialize (Hr rec' (list_elem_of_lookup_2 _ _ _ Hi')). unfold compareTraceRecords in Hr.
  rewrite (record_time_encodes _ _ _ _ Hl He), (record_time_encodes _ _ _ _ (Hok ln' (list_elem_of_lookup_2 _ _ _ Hi)) He') in Hr. b2p. lia.
Qed.

(** What [std::sort] documents. *)
Record sorts (sort : (list Z -> list Z -> bool) -> list (list Z) -> list (list Z)) : Prop := {
  so_perm l : sort compareTraceRecords l ≡ₚ l;
  so_sorted l : StronglySorted (fun a b => compareTraceRecords b a = false) (sort compareTraceRecords l)
}.

(** C40. A checkpoint restores what was recorded.  Any lines, fewer than
    [2^31], recorded with blocks of [k * B] bytes are gathered into an array,
    however often it has to grow, if it started with room for one record; and a recorder made from
    those bytes in a system with blocks of [B] bytes asks, one record per call,
    for exactly the recorded lines, most recent first, each as [k] requests
    with the recorded data at consecutive addresses to the sequencer of its
    controller; after that it asks for nothing. *)
Theorem checkpoint_roundtrip B k LD IFETCH fresh sort seqs (lines : list (line * list Z)) (buf : list Z) r0 :
  0 < B -> 0 < k -> k * B < 2 ^ 31 - 40 -> (forall n, 0 <= n -> Z.of_nat (length (fresh n)) = n) -> sorts sort ->
  Forall (fun x => line_ok (k * B) seqs x.1 /\ Z.of_nat (length x.2) = sizeof_TraceRecord + k * B) lines ->
  Z.of_nat (length lines) < 2 ^ 31 -> Z.of_nat (length lines) * (sizeof_TraceRecord + k * B) < 2 ^ 62 ->
  sizeof_TraceRecord + k * B <= Z.of_nat (length buf) < 2 ^ 62 ->
  cr_block_size_bytes r0 = k * B -> m_records r0 = [] ->
  exists r1 r2 bytes n r3 lines' r4,
    record_all (k * B) lines r0 = Ok r1 /\ aggregateRecords fresh sort r1 buf (Z.of_nat (length buf)) = Ok (r2, bytes, n) /\
    CacheRecorder_ctor B (Some (take (Z.to_nat n) bytes)) n seqs (k * B) = Ok r3 /\
    lines' ≡ₚ fst <$> lines /\ StronglySorted (fun a b => ln_time b <= ln_time a) lines' /\
    fetch_times B LD IFETCH (length lines) r3 = Ok (r4, lines' ≫= requests_of B k LD IFETCH seqs) /\
    enqueueNextFetchRequest B LD IFETCH r4 = Ok (r4, []).
Proof.
  intros HB Hk HkB Hf [Hsp Hss] Hall Hcnt Hn Hbuf Hr0 Hrecs. unfold sizeof_TraceRecord in *.
  destruct (record_all_encodes (k * B) seqs lines r0 ltac:(nia) Hr0 Hall) as (recs & -> & HF). rewrite Hrecs. cbn [app].
  set (r1 := setf m_records _ r0). set (srt := sort compareTraceRecords recs).
  assert (Forall (line_ok (k * B) seqs) (fst <$> lines)) as Hok.
  { apply Forall_fmap. eapply Forall_impl; [exact Hall |]. by intros x [? _]. }
  destruct (Forall2_permuted _ _ _ srt HF (symmetry (Hsp recs))) as (lines' & HP & HF').
  assert (Forall (line_ok (k * B) seqs) lines') as Hok' by by rewrite HP.
  assert (length lines' = length lines) as Hlen by by rewrite HP, length_fmap.
  assert (Forall (fun rec => Z.of_nat (length rec) = 40 + k * B) srt) as Hrl.
  { apply Forall_forall. intros rec Hin. apply list_elem_of_lookup in Hin as [i Hi].
    destruct (Forall2_lookup_r _ _ _ _ _ HF' Hi) as (ln & Hln & He). rewrite Forall_forall in Hok'.
    exact (encodes_length _ _ _ _ (Hok' ln (list_elem_of_lookup_2 _ _ _ Hln)) He). }
  pose proof (Forall2_length _ _ _ HF') as Hls.
  assert (record_size r1 = 40 + k * B) as Hrs.
  { unfold record_size, r1. cbn [setf cr_block_size_bytes]. rewrite Hr0. unfold sizeof_TraceRecord.
    rewrite u64_id, i32_id by (unfold in_u64, in_i32; nia). done. }
  destruct (aggregate_all fresh Hf (40 + k * B) ltac:(nia) (2 ^ 63) srt [] (buf, Z.of_nat (length buf), 0)) as ([[bytes total] n] & E & [[rest Hb] _ Hc _]);
    [split; cbn [fst snd]; [by exists buf | done | done | lia] | done | cbn [length]; nia | lia |].
  cbn [fst snd app] in *. exists r1, (r1 ⟨ m_records := [] ⟩), bytes, n.
  assert (aggregateRecords fresh sort r1 buf (Z.of_nat (length buf)) = Ok (r1 ⟨ m_records := [] ⟩, bytes, n)) as Eagg.
  { unfold aggregateRecords. rewrite Hrs. change (m_records r1) with recs. fold srt.
    rewrite i32_id by (unfold in_i32; lia). rewrite take_ge by lia. rewrite E. done. }
  assert (take (Z.to_nat n) bytes = concat srt) as Htk by (subst n bytes; by rewrite Nat2Z.id, take_app_length).
  assert (Z.of_nat (length (concat srt)) = Z.of_nat (length lines) * (40 + k * B)) as Hcl.
  { rewrite <- Hlen, Hls. clear -Hrl. induction Hrl as [|rec l Hr _ IH]; [done |]. cbn [concat length]. rewrite length_app. lia. }
  set (r3 := {| m_records := []; m_uncompressed_trace := Some (concat srt); m_uncompressed_trace_size := n; m_seq_map := seqs;
    m_bytes_read := 0; m_records_read := 0; m_records_flushed := 0; cr_block_size_bytes := k * B |}).
  destruct (fetch_all B k LD IFETCH seqs HB Hk lines' srt [] r3) as (r4 & Ef & Hend); try done; [lia | cbn [app]; lia |].
  exists r3, lines', r4. split_and!; [done | exact Eagg | | done | by eapply sorted_lines; [exact HF' | done | apply Hss] | by rewrite <- Hlen |].
  - unfold CacheRecorder_ctor. rewrite (proj2 (Z.ltb_ge _ _)) by nia. rewrite Htk. done.
  - unfold enqueueNextFetchRequest. by rewrite Hend, Z.ltb_irrefl.
Qed.

(** ** A trace of two lines *)
Definition later (a b : list Z) : Prop := record_time b <= record_time a.
#[local] Instance later_dec : RelDecision later := fun a b => Z.le_dec _ _.
#[local] Instance later_trans : Transitive later.
Proof. intros a b c. unfold later. lia. Qed.
#[local] Instance later_total : Total later.
Proof. intros a b. unfold later. lia. Qed.

Definition demo_sort (_ : list Z -> list Z -> bool) (l : list (list Z)) : list (list Z) := merge_sort later l.

Lemma demo_sorts : sorts demo_sort.
Proof.
  split; intros l; unfold demo_sort; [apply merge_sort_Permutation |]. pose proof (StronglySorted_merge_sort later l) as Hs.
  induction Hs as [|x k _ IH Hx]; constructor; [done |]. eapply Forall_impl; [exact Hx |]. intros y Hy. unfold later, compareTraceRecords in *.
  apply Z.ltb_ge. lia.
Qed.

Definition demo_lines : list (line * list Z) :=
  [({| ln_cntrl := 0; ln_addr := 128; ln_pc := 0; ln_type := 0; ln_time := 3; ln_data := [1; 2; 3; 4] |}, replicate 44 99);
   ({| ln_cntrl := 1; ln_addr := 192; ln_pc := 0; ln_type := 2; ln_time := 7; ln_data := [5; 6; 7; 8] |}, replicate 44 98)].

Definition demo_recorder : CacheRecorder :=
  {| m_records := []; m_uncompressed_trace := None; m_uncompressed_trace_size := 0; m_seq_map := [Some 10; Some 11]; m_bytes_read := 0;
     m_records_read := 0; m_records_flushed := 0; cr_block_size_bytes := 4 |}.

Lemma checkpoint_roundtrip_witness :
  exists r1 r2 bytes n r3 lines' r4,
    record_all 4 demo_lines demo_recorder = Ok r1 /\
    aggregateRecords (fun n => replicate (Z.to_nat n) 7) demo_sort r1 (replicate 44 9) 44 = Ok (r2, bytes, n) /\
    CacheRecorder_ctor 2 (Some (take (Z.to_nat n) bytes)) n [Some 10; Some 11] 4 = Ok r3 /\
    lines' ≡ₚ fst <$> demo_lines /\ StronglySorted (fun a b => ln_time b <= ln_time a) lines' /\
    fetch_times 2 0 1 2 r3 = Ok (r4, lines' ≫= requests_of 2 2 0 1 [Some 10; Some 11]) /\ enqueueNextFetchRequest 2 0 1 r4 = Ok (r4, []).
Proof.
  apply (checkpoint_roundtrip 2 2 0 1 (fun n => replicate (Z.to_nat n) 7) demo_sort [Some 10; Some 11] demo_lines (replicate 44 9) demo_recorder);
    try (unfold sizeof_TraceRecord; cbn [length demo_lines replicate]; lia); try done.
  - intros n Hn. rewrite length_replicate. lia.
  - exact demo_sorts.
  - repeat constructor; cbn; unfold in_u64; (done || lia || by eexists).
Defined.

(** The restored requests: the later line first, each in two halves. *)
Example restored_requests :
  (r1 ← record_all 4 demo_lines demo_recorder;
   x ← aggregateRecords (fun n => replicate (Z.to_nat n) 7) demo_sort r1 (replicate 44 9) 44;
   r3 ← CacheRecorder_ctor 2 (Some (take (Z.to_nat x.2) x.1.2)) x.2 [Some 10; Some 11] 4;
   y ← fetch_times 2 0 1 2 r3; Ok (map (fun q => (rq_sequencer q, rq_write q, rq_addr q, rq_data q)) y.2)) =
  Ok [(11, true, 192, [5; 6]); (11, true, 194, [7; 8]); (10, false, 128, [1; 2]); (10, false, 130, [3; 4])].
Proof. vm_compute. reflexivity. Qed.
