(* ===== verification/RubyCheckpoint.v ===== *)
(** * Checkpoints of the Ruby system

    Models the part of [mem/ruby/system/RubySystem.{hh,cc}] that writes the
    caches back for a checkpoint and warms them up after one is restored, with
    the simulation loop it calls ([sim/simulate.cc], and
    [BaseGlobalEvent::reschedule] of [sim/global_event.cc]) for one main event
    queue.  Before the flush [memWriteback] takes every event off the queue;
    after it, it puts them back.

    [process], what the handlers of events do to the queue, is a parameter, as
    in EventQueue.v; what the handlers do to the recorder is the business of
    the sequencers.  The limit event of [simulate] exists (it is made by the
    first call).  Signals ([async_event]) do not arrive.  The compressed file is
    the bytes it was written with.

    The theorem shows that the queue is restored, in the order of service; the
    examples show what is not. *)
From S2P Require Import Prelude EventQueue EventRefinement CacheRecorder.

(** ** The simulation loop *)

Definition MaxTick : Z := 0xffffffffffffffff.
Definition Default_Pri : Z := 0.

Definition nextTick (q : EventQueue) : res Z :=
  match head q with None => Err EUninit | Some hd => e ← deref (events q) hd; Ok (_when (ev e)) end.

Section Loop.
Context (process : Z -> EventQueue -> res EventQueue).

(** [fuel] bounds the number of events: a simulation need not end. *)
Fixpoint sim_loop (fuel : nat) (q : EventQueue) : res (EventQueue * Z) :=
  _ ← cassert (negb (bool_decide (head q = None)));
  t ← nextTick q;
  _ ← cassert (_curTick q <=? t);
  x ← serviceOne process q;
  match x.2 with
  | Some exit_event => Ok (x.1, exit_event)
  | None => match fuel with O => Err EFuel | S fuel => sim_loop fuel x.1 end
  end.

Definition doSimLoop (fuel : nat) (q : EventQueue) : res (EventQueue * Z) :=
  q ← handleAsyncInsertions (eq_this q) q; sim_loop fuel q.

Definition global_reschedule (q : EventQueue) (event when : Z) : res EventQueue :=
  e ← deref (events q) event;
  if scheduled (ev e) then reschedule false (eq_this q) q event when false
  else schedule false (eq_this q) q event when true.

(** [global_exit]: the events that belong to a [GlobalSimLoopExitEvent];
    [limit]: that of [simulate_limit_event]. *)
Context (global_exit : Z -> bool) (limit : Z).

Definition simulate (fuel : nat) (q : EventQueue) (num_cycles : Z) : res EventQueue :=
  let num_cycles := if num_cycles <? u64 (MaxTick - _curTick q) then u64 (_curTick q + num_cycles) else MaxTick in
  q ← global_reschedule q limit num_cycles;
  x ← doSimLoop fuel q;
  _ ← cassert (global_exit x.2);
  Ok x.1.

(** ** The Ruby system *)

Record RubyState := {
  m_warmup_enabled : bool;
  m_systems_to_warmup : Z;
  m_cooldown_enabled : bool;
  m_abs_cntrl_vec : list (option Z);       (** [getCPUSequencer()] of each *)
  m_cache_recorder : option CacheRecorder
}.

#[export] Instance RubySystem_eta : Eta RubyState := {| eta := fun y =>
  {| m_warmup_enabled := m_warmup_enabled y; m_systems_to_warmup := m_systems_to_warmup y; m_cooldown_enabled := m_cooldown_enabled y;
     m_abs_cntrl_vec := m_abs_cntrl_vec y; m_cache_recorder := m_cache_recorder y |} |}.

(** The block size, the codes of two request types, fresh memory and
    [std::sort] of CacheRecorder.v; [recordCacheTrace] of the controllers is
    generated. *)
Context (block_size RubyRequestType_LD RubyRequestType_IFETCH : Z).
Context (fresh : Z -> list Z) (sort : (list Z -> list Z -> bool) -> list (list Z) -> list (list Z)).
Context (recordCacheTrace : Z -> CacheRecorder -> res CacheRecorder).

(** The sequencer of the first controller that has one stands in for those that have none. *)
Definition sequencer_map (cntrls : list (option Z)) : res (list (option Z)) :=
  let first := foldl (fun acc s => match acc with None => s | Some _ => acc end) None cntrls in
  _ ← cassert (negb (bool_decide (first = None)));
  Ok ((fun s => match s with None => first | Some _ => s end) <$> cntrls).

Definition makeCacheRecorder (y : RubyState) (trace : option (list Z)) (size block_size_bytes : Z) : res RubyState :=
  m ← sequencer_map (m_abs_cntrl_vec y);
  r ← CacheRecorder_ctor block_size trace size m block_size_bytes;
  Ok (y ⟨ m_cache_recorder := Some r ⟩).

Definition record_caches (y : RubyState) : res RubyState :=
  match m_cache_recorder y with
  | None => Err EUninit
  | Some r => r ← foldM (fun r c => recordCacheTrace c r) (seqZ 0 (Z.of_nat (length (m_abs_cntrl_vec y)))) r; Ok (y ⟨ m_cache_recorder := Some r ⟩)
  end.

(** [a] is the address of the new event. *)
Definition enqueueRubyEvent (q : EventQueue) (a tick : Z) : res EventQueue :=
  e ← Event_ctor Default_Pri 0;
  schedule false (eq_this q) (q ⟨ events := <[a := e]> (events q) ⟩) a tick false.

(** Both loops take the head off the queue until it is empty; [fuel] bounds the
    events on it. *)
Fixpoint save_events (fuel : nat) (q : EventQueue) (original_events : list (Z * Z)) : res (EventQueue * list (Z * Z)) :=
  match head q with
  | None => Ok (q, original_events)
  | Some hd =>
      match fuel with
      | O => Err EFuel
      | S fuel =>
          e ← deref (events q) hd;
          let original_events := if isManaged (ev e) then original_events else original_events ++ [(hd, _when (ev e))] in
          q ← deschedule false (eq_this q) q hd;
          save_events fuel q original_events
      end
  end.

Fixpoint clear_events (fuel : nat) (q : EventQueue) : res EventQueue :=
  match head q with
  | None => Ok q
  | Some hd =>
      match fuel with
      | O => Err EFuel
      | S fuel => q ← deschedule false (eq_this q) q hd; clear_events fuel q
      end
  end.

Definition restore_events (original_events : list (Z * Z)) (q : EventQueue) : res EventQueue :=
  foldM (fun q x => schedule false (eq_this q) q x.1 x.2 false) (reverse original_events) q.

(** What [memWriteback] does to the event queue. *)
Definition writeback_queue (fuel : nat) (q : EventQueue) (ruby : Z) : res EventQueue :=
  let curtick_original := _curTick q in
  x ← save_events (store_fuel (events q)) q [];
  q ← enqueueRubyEvent x.1 ruby (_curTick x.1);
  q ← simulate fuel q MaxTick;
  q ← clear_events (store_fuel (events q)) q;
  restore_events x.2 (q ⟨ _curTick := curtick_original ⟩).

Definition memWriteback (fuel : nat) (y : RubyState) (q : EventQueue) (ruby : Z) : res (RubyState * EventQueue) :=
  y ← makeCacheRecorder (y ⟨ m_cooldown_enabled := true ⟩) None 0 block_size;
  y ← record_caches y;
  q ← writeback_queue fuel q ruby;
  Ok (y ⟨ m_cooldown_enabled := false ⟩, q).

(** What a checkpoint holds: the block size and the contents of the trace file. *)
Definition serialize (y : RubyState) : res (RubyState * (Z * list Z * Z)) :=
  match m_cache_recorder y with
  | None => Err EFatal
  | Some r =>
      x ← aggregateRecords fresh sort r (fresh 4096) 4096;
      Ok (y ⟨ m_cache_recorder := Some x.1.1 ⟩, (block_size, take (Z.to_nat x.2) x.1.2, x.2))
  end.

Definition drainResume (y : RubyState) : RubyState := y ⟨ m_cache_recorder := None ⟩.

Definition unserialize (y : RubyState) (block_size_bytes : Z) (file : list Z) (cache_trace_size : Z) : res RubyState :=
  _ ← (if Z.of_nat (length file) <? cache_trace_size then Err EFatal else Ok tt);
  makeCacheRecorder (y ⟨ m_warmup_enabled := true ⟩ ⟨ m_systems_to_warmup := u32 (m_systems_to_warmup y + 1) ⟩)
    (Some (take (Z.to_nat cache_trace_size) file)) cache_trace_size block_size_bytes.

Definition processRubyEvent (y : RubyState) : res (RubyState * list RecorderRequest) :=
  if m_warmup_enabled y then
    match m_cache_recorder y with
    | None => Err EUninit
    | Some r => x ← enqueueNextFetchRequest block_size RubyRequestType_LD RubyRequestType_IFETCH r; Ok (y ⟨ m_cache_recorder := Some x.1 ⟩, x.2)
    end
  else if m_cooldown_enabled y then
    match m_cache_recorder y with
    | None => Err EUninit
    | Some r => x ← enqueueNextFlushRequest r; Ok (y ⟨ m_cache_recorder := Some x.1 ⟩, x.2)
    end
  else Ok (y, []).

(** [resetClock] and the statistics are not part of the state. *)
Definition RubySystem_startup (fuel : nat) (y : RubyState) (q : EventQueue) (ruby : Z) : res (RubyState * EventQueue) :=
  if m_warmup_enabled y then
    let curtick_original := _curTick q in
    let '(q, eventq_head) := replaceHead q None in
    q ← enqueueRubyEvent (q ⟨ _curTick := 0 ⟩) ruby 0;
    q ← simulate fuel q MaxTick;
    let n := u32 (m_systems_to_warmup y - 1) in
    let y := y ⟨ m_cache_recorder := None ⟩ ⟨ m_systems_to_warmup := n ⟩ in
    let y := if n =? 0 then y ⟨ m_warmup_enabled := false ⟩ else y in
    Ok (y, (replaceHead q eventq_head).1 ⟨ _curTick := curtick_original ⟩)
  else Ok (y, q).
End Loop.

(** ** What no operation changes of an event *)

(** Priority, the [Managed] flag and the marks of initialisation. *)
Definition stable (i j : EvInfo) : Prop := _priority j = _priority i /\ Z.land (flags j) 0xffc4 = Z.land (flags i) 0xffc4.

#[export] Instance stable_preorder : PreOrder stable.
Proof. split; [done |]. intros i j k [? ?] [? ?]. split; congruence. Qed.

Lemma stable_managed i j : stable i j -> isManaged j = isManaged i.
Proof.
  intros [_ H]. unfold isManaged, isSet, Managed. assert (forall x, Z.land x 4 = Z.land (Z.land x 0xffc4) 4) as Hx.
  { intros x. by rewrite <- Z.land_assoc. }
  by rewrite (Hx (flags j)), (Hx (flags i)), H.
Qed.

Lemma stable_initialized i j : stable i j -> initialized j = initialized i.
Proof.
  intros [_ H]. unfold initialized, InitMask. assert (forall x, Z.land x 0xffc0 = Z.land (Z.land x 0xffc4) 0xffc0) as Hx.
  { intros x. by rewrite <- Z.land_assoc. }
  by rewrite (Hx (flags j)), (Hx (flags i)), H.
Qed.

Lemma stable_set i f : Z.land f 0xffc4 = 0 -> stable i (i ⟨ flags := flag_set (flags i) f ⟩).
Proof. intros Hf. split; [done |]. cbn [setf flags]. unfold flag_set. by rewrite Z.land_lor_distr_l, Hf, Z.lor_0_r. Qed.

Lemma stable_clear i f : Z.land f 0xffc4 = 0 -> stable i (i ⟨ flags := flag_clear (flags i) f ⟩).
Proof.
  intros Hf. split; [done |]. cbn [setf flags]. unfold flag_clear. apply Z.bits_inj'. intros n Hn. rewrite !Z.land_spec, Z.ldiff_spec.
  assert (Z.testbit f n && Z.testbit 0xffc4 n = false) as Hb by (by rewrite <- Z.land_spec, Hf, Z.bits_0).
  destruct (Z.testbit f n), (Z.testbit 0xffc4 n); cbn in *; try done; by rewrite ?andb_false_r, ?andb_true_r.
Qed.

Lemma stable_setWhen i t q : stable i (setWhen i t q).
Proof. done. Qed.

(** Events that are not managed stay, and no event appears. *)
Record evolves (m m' : gmap Z EvInfo) : Prop := {
  ev_kept : forall a i, m !! a = Some i -> isManaged i = false -> exists j, m' !! a = Some j /\ stable i j;
  ev_from : forall a j, m' !! a = Some j -> exists i, m !! a = Some i /\ stable i j
}.

#[export] Instance evolves_preorder : PreOrder evolves.
Proof.
  split; [intros m; split; [intros a i Hi _; by exists i | intros a j Hj; by exists j] |].
  intros m m1 m2 [K1 F1] [K2 F2]. split.
  - intros a i Hi Hm. destruct (K1 a i Hi Hm) as (j & Hj & Hs). destruct (K2 a j Hj) as (k & Hk & Hs'); [by rewrite (stable_managed i j Hs) |].
    exists k. split; [done | by etrans].
  - intros a k Hk. destruct (F2 a k Hk) as (j & Hj & Hs'). destruct (F1 a j Hj) as (i & Hi & Hs). exists i. split; [done | by etrans].
Qed.

Lemma evolves_insert m a i j : m !! a = Some i -> stable i j -> evolves m (<[a := j]> m).
Proof.
  intros Hi Hs. split; intros b k; destruct (decide (b = a)) as [->|Hne].
  - rewrite Hi, lookup_insert_eq. intros [= <-] _. by exists j.
  - rewrite lookup_insert_ne by done. intros Hk _. by exists k.
  - rewrite lookup_insert_eq. intros [= <-]. by exists i.
  - rewrite lookup_insert_ne by done. intros Hk. by exists k.
Qed.

Lemma evolves_release s s' a : a_release s a = Ok s' -> evolves (a_evs s) (a_evs s').
Proof.
  unfold a_release. intros H. apply res_bind_Ok_inv in H as (i & Hi%a_get_some & H).
  destruct (isManaged i && negb (scheduled i)) eqn:E; injection H as <-; [| done]. apply andb_true_iff in E as [Em _]. cbn [setf a_evs].
  split; intros b j.
  - intros Hb Hm. exists j. split; [| done]. apply lookup_delete_Some. split; [| done]. intros ->. congruence.
  - intros [_ Hb]%lookup_delete_Some. by exists j.
Qed.

Lemma stable_rescheduled i t q : stable i (setWhen i t q ⟨ flags := flag_set (flag_clear (flags i) Squashed) Scheduled ⟩).
Proof.
  transitivity (i ⟨ flags := flag_clear (flags i) Squashed ⟩); [by apply stable_clear |].
  exact (stable_set (i ⟨ flags := flag_clear (flags i) Squashed ⟩) Scheduled eq_refl).
Qed.

Lemma stable_descheduled i : stable i (i ⟨ flags := flag_clear (flag_clear (flags i) Squashed) Scheduled ⟩).
Proof.
  transitivity (i ⟨ flags := flag_clear (flags i) Squashed ⟩); [by apply stable_clear |].
  exact (stable_clear (i ⟨ flags := flag_clear (flags i) Squashed ⟩) Scheduled eq_refl).
Qed.

Lemma evolves_step this cur par s s' o : a_step this cur par s o = Ok s' -> evolves (a_evs s) (a_evs s').
Proof.
  destruct o as [a when global | a | a when always | a |]; cbn [a_step]; intros H.
  - unfold a_schedule in H. apply res_bind_Ok_inv in H as (_ & _ & H). apply res_bind_Ok_inv in H as (i & Hi%a_get_some & H).
    do 2 apply res_bind_Ok_inv in H as (_ & _ & H). injection H as <-.
    destruct (par && _); cbn [a_put setf a_evs]; (eapply evolves_insert; [exact Hi | exact (stable_set i Scheduled eq_refl)]).
  - unfold a_deschedule in H. apply res_bind_Ok_inv in H as (i & Hi%a_get_some & H). do 3 apply res_bind_Ok_inv in H as (_ & _ & H).
    apply res_bind_Ok_inv in H as (s1 & [Ha ->]%a_remove_inv & H). etrans; [| eapply evolves_release; exact H]. cbn [a_put setf a_evs].
    eapply evolves_insert; [exact Hi | apply stable_descheduled].
  - unfold a_reschedule in H. apply res_bind_Ok_inv in H as (_ & _ & H). apply res_bind_Ok_inv in H as (i & Hi%a_get_some & H).
    do 3 apply res_bind_Ok_inv in H as (_ & _ & H). apply res_bind_Ok_inv in H as (s1 & Hs1 & H). injection H as <-. cbn [a_put setf a_evs].
    assert (a_evs s1 = a_evs s) as -> by (destruct (scheduled i); [by apply a_remove_inv in Hs1 as [_ ->] | by injection Hs1 as <-]).
    eapply evolves_insert; [exact Hi | apply stable_rescheduled].
  - unfold a_squash in H. apply res_bind_Ok_inv in H as (i & Hi%a_get_some & [= <-]).
    eapply evolves_insert; [exact Hi | by apply stable_set].
  - unfold a_handleAsync in H. apply res_bind_Ok_inv in H as (_ & _ & [= <-]). done.
Qed.

Lemma evolves_steps this cur par l : forall s s', foldM (a_step this cur par) l s = Ok s' -> evolves (a_evs s) (a_evs s').
Proof.
  induction l as [|o l IH]; intros s s' H; cbn [foldM] in H; [by injection H as <- |].
  apply res_bind_Ok_inv in H as (s1 & H1 & H2). etrans; [by eapply evolves_step | by apply IH].
Qed.

Lemma evolves_service this cur par handlers s x : a_service this cur par handlers s = Ok x -> evolves (a_evs s) (a_evs x.1).
Proof.
  unfold a_service. destruct (members (a_bins s)) as [|a l]; [done |]. intros H.
  apply res_bind_Ok_inv in H as (i & Hi%a_get_some & H). set (s1 := a_put _ a (unschedule i)) in H.
  assert (evolves (a_evs s) (a_evs s1)) as H1 by (eapply evolves_insert; [exact Hi | by apply stable_clear]).
  etrans; [exact H1 |]. destruct (negb (squashed (unschedule i))).
  - apply res_bind_Ok_inv in H as (s2 & H2%evolves_steps & H). etrans; [exact H2 |].
    apply res_bind_Ok_inv in H as (i2 & _ & H). destruct (isExitEvent i2).
    + apply res_bind_Ok_inv in H as (_ & _ & [= <-]). done.
    + apply res_bind_Ok_inv in H as (s3 & H3%evolves_release & [= <-]). exact H3.
  - apply res_bind_Ok_inv in H as (s3 & H3%evolves_release & [= <-]). etrans; [| exact H3].
    eapply evolves_insert; [apply lookup_insert_eq | by apply stable_clear].
Qed.

(** ** Good states *)

Section Restore.
Context (this : Z) (handlers : Z -> list ev_op).

Definition all_init (m : gmap Z EvInfo) : Prop := forall a i, m !! a = Some i -> initialized i = true.

(** The queue represents [s], nothing is in the past or asynchronous, and all events were constructed. *)
Record good (q : EventQueue) (s : AQ) : Prop := {
  gd_refines : refines this q s;
  gd_future : a_future s;
  gd_init : all_init (a_evs s)
}.

Lemma all_init_evolves m m' : evolves m m' -> all_init m -> all_init m'.
Proof. intros [_ F] Hi a j Hj. destruct (F a j Hj) as (i & Hi' & Hs). rewrite (stable_initialized i j Hs). by eapply Hi. Qed.

Lemma good_step q s o q' :
  good q s -> sim_step this false handlers q o = Ok q' -> exists s', good q' s' /\ evolves (a_evs s) (a_evs s') /\ a_sim_step this this false handlers s o = Ok s'.
Proof.
  intros [Hr Hf Hi] H. pose proof (sim_step_refines this this false handlers q s o Hr) as Hs. unfold simulates in Hs.
  destruct (a_sim_step this this false handlers s o) as [s'|] eqn:E; [| congruence]. destruct Hs as (q1 & Hq1 & Hr1).
  assert (q1 = q') as -> by congruence. exists s'. assert (evolves (a_evs s) (a_evs s')) as He.
  { destruct o as [o|]; cbn [a_sim_step] in E; [by eapply evolves_step |]. apply res_bind_Ok_inv in E as (x & Hx & [= <-]). by eapply evolves_service. }
  split_and!; [split; [done | | by eapply all_init_evolves] | done | done].
  destruct o as [o|]; cbn [a_sim_step] in E; [by eapply future_step in E as [? _]; [| apply Hr |] |].
  apply res_bind_Ok_inv in E as (x & Hx & [= <-]). by eapply future_service in Hx as [? _].
Qed.

Lemma good_steps ops : forall q s q', good q s -> foldM (sim_step this false handlers) ops q = Ok q' -> exists s', good q' s' /\ evolves (a_evs s) (a_evs s').
Proof.
  induction ops as [|o ops IH]; intros q s q' Hg H; cbn [foldM] in H; [injection H as <-; by exists s |].
  apply res_bind_Ok_inv in H as (q1 & H1 & H2). destruct (good_step _ _ _ _ Hg H1) as (s1 & Hg1 & He1 & _).
  destruct (IH _ _ _ Hg1 H2) as (s2 & Hg2 & He2). exists s2. split; [done | by etrans].
Qed.

Lemma good_loop fuel : forall q s x, good q s -> sim_loop (process this false handlers) fuel q = Ok x -> exists s', good x.1 s' /\ evolves (a_evs s) (a_evs s').
Proof.
  assert (forall q s x, good q s -> serviceOne (process this false handlers) q = Ok x -> exists s', good x.1 s' /\ evolves (a_evs s) (a_evs s')) as Hserve.
  { intros q s x Hg H. destruct (good_step q s Serve x.1 Hg) as (s' & ? & ? & _); [cbn [sim_step]; by rewrite H | by exists s']. }
  induction fuel as [|fuel IH]; intros q s x Hg H; cbn [sim_loop] in H; apply res_bind_Ok_inv in H as (_ & _ & H);
    apply res_bind_Ok_inv in H as (t & _ & H); apply res_bind_Ok_inv in H as (_ & _ & H); apply res_bind_Ok_inv in H as (y & Hy & H);
    destruct (Hserve _ _ _ Hg Hy) as (s1 & Hg1 & He1); destruct y.2; try (injection H as <-; by exists s1); [done |].
  destruct (IH _ _ _ Hg1 H) as (s2 & Hg2 & He2). exists s2. split; [done | by etrans].
Qed.

Lemma good_this q s : good q s -> eq_this q = this.
Proof. intros [[Hl _] _ _]. by apply (lk_this _ _ _ Hl). Qed.

Lemma good_simulate global_exit limit fuel q s n q' :
  good q s -> simulate (process this false handlers) global_exit limit fuel q n = Ok q' -> exists s', good q' s' /\ evolves (a_evs s) (a_evs s').
Proof.
  intros Hg H. unfold simulate in H. set (t := if n <? _ then _ else _) in H. apply res_bind_Ok_inv in H as (q1 & H1 & H).
  apply res_bind_Ok_inv in H as (x & H2 & H). apply res_bind_Ok_inv in H as (_ & _ & [= <-]).
  assert (exists o, sim_step this false handlers q (Op o) = Ok q1) as [o Ho].
  { unfold global_reschedule in H1. rewrite (good_this _ _ Hg) in H1. apply res_bind_Ok_inv in H1 as (e & _ & H1).
    destruct (scheduled (ev e)); [by exists (OpReschedule limit t false) | by exists (OpSchedule limit t true)]. }
  destruct (good_step _ _ _ _ Hg Ho) as (s1 & Hg1 & He1 & _). unfold doSimLoop in H2. apply res_bind_Ok_inv in H2 as (q2 & H2 & H3).
  rewrite (good_this _ _ Hg1) in H2. destruct (good_step q1 s1 (Op OpAsync) q2 Hg1 H2) as (s2 & Hg2 & He2 & _).
  destruct (good_loop _ _ _ _ Hg2 H3) as (s3 & Hg3 & He3). exists s3. split; [done |]. by do 2 (etrans; [done |]).
Qed.

(** ** Taking the events off *)

(** What is saved: the unmanaged events, in the order of service. *)
Definition saved (m : gmap Z EvInfo) (l : list Z) : list (Z * Z) :=
  omap (fun a => match m !! a with Some i => if isManaged i then None else Some (a, _when i) | None => None end) l.

Lemma saved_ext m m' l : (forall a, a ∈ l -> m !! a = m' !! a) -> saved m l = saved m' l.
Proof.
  induction l as [|a l IH]; intros H; [done |]. unfold saved in *. cbn [omap list_omap]. rewrite (H a) by left.
  rewrite IH by (intros; apply H; by right). done.
Qed.

Lemma good_head q s : good q s -> head q = hd_error (members (a_bins s)).
Proof.
  intros [[Hl _] _ _]. pose proof (wf_list _ _ _ (lk_wf _ _ _ Hl)) as Hb. destruct (a_bins s) as [|[k l] bs]; cbn [bin_list] in Hb; [done |].
  destruct Hb as (a & r & e & -> & -> & _). done.
Qed.

Lemma good_deschedule q s a l :
  good q s -> members (a_bins s) = a :: l ->
  exists q' s', deschedule false (eq_this q) q a = Ok q' /\ good q' s' /\ evolves (a_evs s) (a_evs s') /\ members (a_bins s') = l /\
    a_tick s' = a_tick s /\ (forall b, b <> a -> a_evs s' !! b = a_evs s !! b).
Proof.
  intros Hg Hm. pose proof Hg as [[Hl Hok] _ Hi]. assert (a ∈ members (a_bins s)) as Ha by (rewrite Hm; left).
  destruct (ao_queue _ _ Hok a (or_introl Ha)) as (i & Hia & _). pose proof (proj2 (ao_sched _ _ Hok a i Hia) (or_introl Ha)) as Hsc.
  pose proof (sim_step_refines this this false handlers q s (Op (OpDeschedule a)) (gd_refines _ _ Hg)) as Hs. unfold simulates in Hs.
  assert (exists s', a_deschedule this this false s a = Ok s' /\ members (a_bins s') = l /\ a_tick s' = a_tick s /\
    forall b, b <> a -> a_evs s' !! b = a_evs s !! b) as (s' & E & Hm' & Ht & Hoth).
  { unfold a_deschedule, a_get. rewrite Hia. rsimpl. rewrite Hsc, (Hi a i Hia). cbn [cassert negb orb]. rsimpl. unfold a_remove.
    rewrite decide_True by done. rsimpl. unfold a_release, a_get. cbn [a_put setf a_evs]. rewrite lookup_insert_eq. rsimpl.
    assert (filter (fun x => x <> a) (members (a_bins s)) = l) as Hfl.
    { pose proof (ao_nodup _ _ Hok) as (Hnd & _ & _)%NoDup_app. rewrite Hm in Hnd |- *. apply NoDup_cons in Hnd as [Hn _].
      rewrite filter_cons_False by (intros ?; done). by apply filter_all_ne. }
    destruct (_ && _); eexists; (split; [reflexivity |]); cbn [a_put setf a_bins a_tick a_evs]; rewrite abs_remove_members;
      (split_and!; [done | done |]); intros b Hb; rewrite ?lookup_delete_ne, lookup_insert_ne; done. }
  cbn [a_sim_step a_step] in Hs. rewrite E in Hs. destruct Hs as (q' & Hq' & _). rewrite (good_this _ _ Hg).
  destruct (good_step q s (Op (OpDeschedule a)) q' Hg Hq') as (s1 & Hg1 & He1 & E1). cbn [a_sim_step a_step] in E1.
  assert (s1 = s') as -> by congruence. exists q', s'. split_and!; done.
Qed.

Lemma good_bins_nil q s : good q s -> members (a_bins s) = [] -> a_bins s = [].
Proof.
  intros [[Hl _] _ _] Hm. pose proof (wf_list _ _ _ (lk_wf _ _ _ Hl)) as Hb. destruct (a_bins s) as [|[k l] bs]; [done |].
  by destruct Hb as (a & r & e & -> & _).
Qed.

Lemma save_events_spec fuel : forall q s acc,
  good q s -> (length (members (a_bins s)) <= fuel)%nat ->
  exists q' s', save_events fuel q acc = Ok (q', acc ++ saved (a_evs s) (members (a_bins s))) /\ good q' s' /\
    evolves (a_evs s) (a_evs s') /\ a_bins s' = [] /\ a_tick s' = a_tick s.
Proof.
  induction fuel as [|fuel IH]; intros q s acc Hg Hlen; cbn [save_events]; rewrite (good_head _ _ Hg);
    destruct (members (a_bins s)) as [|a l] eqn:Hm; cbn [length hd_error] in *; try lia.
  1,2: exists q, s; cbn [saved omap list_omap]; rewrite app_nil_r; split_and!; [done | done | done | by eapply good_bins_nil | done].
  destruct (good_deschedule q s a l Hg Hm) as (q1 & s1 & -> & Hg1 & He1 & Hm1 & Ht1 & Hoth).
  pose proof Hg as [[Hl Hok] _ _]. destruct (ao_queue _ _ Hok a) as (i & Hia & _); [left; rewrite Hm; left |].
  destruct (linked_lookup _ _ _ _ _ Hl Hia) as (e & He & Hev). rewrite (deref_some _ _ _ He). rsimpl. rewrite Hev.
  destruct (IH q1 s1 (if isManaged i then acc else acc ++ [(a, _when i)]) Hg1) as (q2 & s2 & -> & Hg2 & He2 & Hb2 & Ht2); [rewrite Hm1; lia |].
  exists q2, s2. split_and!; [| done | by etrans | done | congruence]. do 2 f_equal. rewrite Hm1.
  assert (saved (a_evs s1) l = saved (a_evs s) l) as ->.
  { apply saved_ext. intros b Hb. apply Hoth. intros ->. pose proof (ao_nodup _ _ Hok) as (Hnd & _ & _)%NoDup_app. rewrite Hm in Hnd.
    by apply NoDup_cons in Hnd as [? _]. }
  unfold saved at 2. cbn [omap list_omap]. rewrite Hia. destruct (isManaged i); [done |]. by rewrite <- app_assoc.
Qed.

Lemma clear_events_save fuel : forall q q' acc l, save_events fuel q acc = Ok (q', l) -> clear_events fuel q = Ok q'.
Proof.
  induction fuel as [|fuel IH]; intros q q' acc l; cbn [save_events clear_events]; destruct (head q) as [hd|]; try done; [by intros [= -> _] | | by intros [= -> _]].
  intros H. apply res_bind_Ok_inv in H as (e & _ & H). apply res_bind_Ok_inv in H as (q1 & -> & H). rsimpl. by eapply IH.
Qed.

Lemma good_fuel q s : good q s -> (length (members (a_bins s)) <= store_fuel (events q))%nat.
Proof. intros [[Hl _] _ _]. unfold store_fuel. eapply members_size, (lk_wf _ _ _ Hl). Qed.

(** ** Putting them back *)

Lemma good_new q s a e :
  good q s -> events q !! a = None -> scheduled (ev e) = false -> initialized (ev e) = true ->
  good (q ⟨ events := <[a := e]> (events q) ⟩) (a_put s a (ev e)).
Proof.
  intros [[[H1 H2 H3 H4 H5] Hok] Hf Hi] Ha Hs Hin.
  assert (~ queued s a) as Hn.
  { intros Hq. destruct (ao_queue _ _ Hok a Hq) as (i & Hia & _). rewrite <- H2, lookup_fmap, Ha in Hia. done. }
  assert (a ∉ members (a_bins s)) as Hm by (intros ?; apply Hn; by left). split; [split |  |].
  - split; cbn [a_put setf eq_this events head _curTick async_queue a_evs a_tick a_async a_bins]; [done | by rewrite fmap_insert, H2 | done | done |].
    destruct H5 as [W1 W2 W3 W4]. split; [by apply bin_list_frame | done | done |]. intros k l x Hb Hx.
    destruct (W4 k l x Hb Hx) as (ex & Hex & Hk). exists ex. rewrite lookup_insert_ne by congruence. done.
  - eapply (a_ok_put this s); [done | done | done | | | apply Hok]; [rewrite Hs; split; [done | by intros ?%Hn] | by intros ?%Hn].
  - apply future_put; [done |]. by intros ?%Hm.
  - intros b j. cbn [a_put setf a_evs]. intros [[_ <-]|[_ Hb]]%lookup_insert_Some; [done | by eapply Hi].
Qed.

Lemma good_tick q s t : good q s -> a_bins s = [] -> good (q ⟨ _curTick := t ⟩) (s ⟨ a_tick := t ⟩).
Proof.
  intros [[[H1 H2 H3 H4 H5] [H6 H7 H8]] [H9 _] Hi] Hb. split; [by split; split | | done]. split; [done |]. cbn [setf a_bins].
  rewrite Hb. by intros a i ?%not_elem_of_nil.
Qed.

Definition prio (m : gmap Z EvInfo) (a : Z) : Z := match m !! a with Some i => _priority i | None => 0 end.

Lemma good_schedule q s a t i :
  good q s -> a_evs s !! a = Some i -> a ∉ members (a_bins s) -> a_tick s <= t ->
  exists q' s', schedule false (eq_this q) q a t false = Ok q' /\ good q' s' /\ evolves (a_evs s) (a_evs s') /\
    a_tick s' = a_tick s /\ a_bins s' = abs_insert (t, _priority i) a (a_bins s).
Proof.
  intros Hg Hi Hn Ht. pose proof Hg as [[Hl Hok] Hf Hin].
  assert (scheduled i = false) as Hs.
  { destruct (scheduled i) eqn:E; [| done]. apply (ao_sched _ _ Hok a i Hi) in E as [?|Ha]; [done |]. rewrite (proj1 Hf) in Ha. by apply not_elem_of_nil in Ha. }
  pose proof (sim_step_refines this this false handlers q s (Op (OpSchedule a t false)) (gd_refines _ _ Hg)) as Hsim. unfold simulates in Hsim.
  assert (exists s', a_schedule this this false s a t false = Ok s' /\ a_tick s' = a_tick s /\ a_bins s' = abs_insert (t, _priority i) a (a_bins s))
    as (s' & E & Ht' & Hb').
  { unfold a_schedule, a_get. rewrite (proj2 (Z.leb_le _ _)) by done. cbn [cassert]. rsimpl. rewrite Hi. rsimpl. rewrite Hs, (Hin a i Hi).
    cbn [cassert negb andb]. rsimpl. eexists. split; [done |]. done. }
  cbn [a_sim_step a_step] in Hsim. rewrite E in Hsim. destruct Hsim as (q' & Hq' & _). rewrite (good_this _ _ Hg).
  destruct (good_step q s (Op (OpSchedule a t false)) q' Hg Hq') as (s1 & Hg1 & He1 & E1). cbn [a_sim_step a_step] in E1.
  assert (s1 = s') as -> by congruence. by exists q', s'.
Qed.

Lemma prio_stable m m' a i : evolves m m' -> m !! a = Some i -> is_Some (m' !! a) -> prio m' a = _priority i.
Proof. intros [_ F] Hi [j Hj]. unfold prio. rewrite Hj. destruct (F a j Hj) as (i' & Hi' & Hp & _). congruence. Qed.

Lemma restore_spec L : forall q s,
  good q s -> NoDup (fst <$> L) ->
  (forall a t, (a, t) ∈ L -> exists i, a_evs s !! a = Some i /\ isManaged i = false /\ a ∉ members (a_bins s) /\ a_tick s <= t) ->
  exists q' s', foldM (fun q x => schedule false (eq_this q) q x.1 x.2 false) L q = Ok q' /\ good q' s' /\ a_tick s' = a_tick s /\
    a_bins s' = foldl (fun bs x => abs_insert (x.2, prio (a_evs s) x.1) x.1 bs) (a_bins s) L.
Proof.
  induction L as [|[a t] L IH]; intros q s Hg Hnd HL; [by exists q, s |]. cbn [foldM fmap list_fmap fst snd] in *. apply NoDup_cons in Hnd as [Hna Hnd].
  destruct (HL a t) as (i & Hi & Hm & Hn & Ht); [by left |].
  destruct (good_schedule q s a t i Hg Hi Hn Ht) as (q1 & s1 & -> & Hg1 & He1 & Ht1 & Hb1). rsimpl.
  assert (forall b t', (b, t') ∈ L -> b <> a) as Hne.
  { intros b t' Hb ->. apply Hna, list_elem_of_fmap. by exists (a, t'). }
  destruct (IH q1 s1 Hg1 Hnd) as (q2 & s2 & -> & Hg2 & Ht2 & Hb2).
  - intros b t' Hb. destruct (HL b t') as (j & Hj & Hjm & Hjn & Hjt); [by right |]. destruct (ev_kept _ _ He1 b j Hj Hjm) as (j' & Hj' & Hst).
    exists j'. split_and!; [done | by rewrite (stable_managed j j' Hst) | | lia]. rewrite Hb1, abs_insert_members, elem_of_cons.
    intros [?|?]; [by eapply Hne | done].
  - exists q2, s2. split_and!; [done | done | congruence |]. rewrite Hb2. cbn [foldl fst snd]. replace (prio (a_evs s) a) with (_priority i) by (unfold prio; by rewrite Hi). rewrite <- Hb1.
    generalize (a_bins s1). assert (forall x, x ∈ L -> prio (a_evs s1) x.1 = prio (a_evs s) x.1) as Hp.
    { intros [b t'] Hb. destruct (HL b t') as (j & Hj & Hjm & _); [by right |]. destruct (ev_kept _ _ He1 b j Hj Hjm) as (j' & Hj' & _).
      cbn [fst]. rewrite (prio_stable _ _ b j He1 Hj) by done. unfold prio. by rewrite Hj. }
    clear -Hp. induction L as [|x L IH]; intros bs; [done |]. cbn [foldl]. rewrite (Hp x) by left. apply IH. intros; apply Hp; by right.
Qed.

(** ** The bins that come back *)

Definition managed_in (m : gmap Z EvInfo) (a : Z) : bool := match m !! a with Some i => isManaged i | None => true end.
Definition live (m : gmap Z EvInfo) (bs : bins) : bins :=
  omap (fun b => match filter (fun a => managed_in m a = false) b.2 with [] => None | l => Some (b.1, l) end) bs.

Lemma restore_bin m pr k l bs :
  (forall a, a ∈ l -> exists i, m !! a = Some i /\ ekey i = k /\ (isManaged i = false -> pr a = _priority i)) -> Forall (fun b => klt k b.1) bs ->
  foldr (fun x bs => abs_insert (x.2, pr x.1) x.1 bs) bs (saved m l) =
  match filter (fun a => managed_in m a = false) l with [] => bs | l' => (k, l') :: bs end.
Proof.
  intros Hl Hbs. induction l as [|a l IH]; [done |]. destruct (Hl a) as (i & Hi & Hk & Hp); [by left |].
  unfold saved in *. cbn [omap list_omap]. rewrite Hi. assert (managed_in m a = isManaged i) as Hmi by (unfold managed_in; by rewrite Hi).
  destruct (isManaged i) eqn:Em; [rewrite filter_cons_False by congruence; apply IH; intros; apply Hl; by right |].
  rewrite filter_cons_True by done.
  cbn [foldr fst snd]. rewrite IH by (intros; apply Hl; by right). rewrite (Hp eq_refl). replace (_when i, _priority i) with k by (by rewrite <- Hk).
  destruct (filter _ l) as [|b l'].
  - destruct Hbs as [|[k' lb] bs Hk' _]; [done |]. cbn [abs_insert]. by rewrite decide_True by done.
  - cbn [abs_insert]. rewrite decide_False by apply klt_irrefl. by rewrite decide_True by done.
Qed.

Lemma restore_live m pr bs :
  StronglySorted klt (fst <$> bs) -> (forall k l a, (k, l) ∈ bs -> a ∈ l -> exists i, m !! a = Some i /\ ekey i = k /\ (isManaged i = false -> pr a = _priority i)) ->
  foldr (fun x bs => abs_insert (x.2, pr x.1) x.1 bs) [] (saved m (members bs)) = live m bs.
Proof.
  induction bs as [|[k l] bs IH]; intros Hs Hbs; [done |]. cbn [fmap list_fmap fst] in Hs. apply StronglySorted_inv in Hs as [Hs Hk].
  rewrite members_cons. unfold saved. rewrite omap_app, foldr_app. fold (saved m l). fold (saved m (members bs)).
  rewrite IH; [| done | intros k' l' a Hb; apply (Hbs k' l' a); by right].
  rewrite (restore_bin m pr k l); [| intros a Ha; by apply (Hbs k l a); [left |] |].
  - unfold live. cbn [omap list_omap fst snd]. by destruct (filter _ l).
  - apply Forall_forall. intros b Hb. unfold live in Hb. apply list_elem_of_omap in Hb as ([k' l'] & Hin & Hb). cbn [fst snd] in Hb.
    destruct (filter _ l'); [done |]. injection Hb as <-. rewrite Forall_forall in Hk. apply Hk, list_elem_of_fmap. by exists (k', l').
Qed.

Lemma saved_in m l a t : (a, t) ∈ saved m l -> exists i, a ∈ l /\ m !! a = Some i /\ isManaged i = false /\ t = _when i.
Proof.
  unfold saved. intros (b & Hb & H)%list_elem_of_omap. destruct (m !! b) as [i|] eqn:E; [| done]. destruct (isManaged i) eqn:Em; [done |].
  injection H as <- <-. by exists i.
Qed.

Lemma saved_nodup m l : NoDup l -> NoDup (fst <$> saved m l).
Proof.
  induction 1 as [|a l Ha _ IH]; [constructor |]. unfold saved in *. cbn [omap list_omap]. destruct (m !! a) as [i|]; [| done].
  destruct (isManaged i); [done |]. cbn [fmap list_fmap fst]. constructor; [| done]. intros ([b t] & -> & Hb)%list_elem_of_fmap.
  apply saved_in in Hb as (_ & Hb & _). done.
Qed.

Lemma foldl_reverse {A B} (f : A -> B -> A) (l : list B) x : foldl f x (reverse l) = foldr (fun b a => f a b) x l.
Proof. induction l as [|b l IH]; [done |]. rewrite reverse_cons, foldl_snoc, IH. done. Qed.

Lemma start_flush q s ruby :
  good q s -> events q !! ruby = None ->
  exists q1 q2 s2, save_events (store_fuel (events q)) q [] = Ok (q1, saved (a_evs s) (members (a_bins s))) /\
    enqueueRubyEvent q1 ruby (_curTick q1) = Ok q2 /\ good q2 s2 /\
    forall a i, a_evs s !! a = Some i -> isManaged i = false -> exists j, a_evs s2 !! a = Some j /\ stable i j.
Proof.
  intros Hg Hr. destruct (save_events_spec _ q s [] Hg (good_fuel _ _ Hg)) as (q1 & s1 & E1 & Hg1 & He1 & Hb1 & Ht1).
  pose proof Hg as [[Hl _] _ _]. pose proof Hg1 as [[Hl1 _] _ _].
  assert (a_evs s !! ruby = None) as Hrs by (by rewrite <- (lk_evs _ _ _ Hl), lookup_fmap, Hr).
  assert (events q1 !! ruby = None) as Hr1.
  { destruct (events q1 !! ruby) as [e|] eqn:E; [| done]. destruct (ev_from _ _ He1 ruby (ev e)) as (i & Hi & _); [| congruence].
    by rewrite <- (lk_evs _ _ _ Hl1), lookup_fmap, E. }
  pose proof (good_new q1 s1 ruby (new_event Default_Pri 0) Hg1 Hr1 eq_refl eq_refl) as Hgn. set (sn := a_put s1 ruby _) in *.
  destruct (good_schedule _ sn ruby (_curTick q1) _ Hgn (lookup_insert_eq _ _ _)) as (q2 & s2 & E2 & Hg2 & He2 & _ & _).
  { cbn [sn a_put setf a_bins]. rewrite Hb1. apply not_elem_of_nil. }
  { cbn [sn a_put setf a_tick]. rewrite (lk_tick _ _ _ Hl1). done. }
  exists q1, q2, s2. split_and!; [exact E1 | exact E2 | done |]. intros a i Hi Hm. destruct (ev_kept _ _ He1 a i Hi Hm) as (j & Hj & Hs).
  destruct (ev_kept _ _ He2 a j) as (j2 & Hj2 & Hs2); [| by rewrite (stable_managed i j Hs) | exists j2; split; [done | by etrans]].
  cbn [sn a_put setf a_evs]. rewrite lookup_insert_ne by congruence. done.
Qed.

Lemma finish_flush q s q2 s2 :
  good q s -> good q2 s2 ->
  (forall a i, a_evs s !! a = Some i -> isManaged i = false -> exists j, a_evs s2 !! a = Some j /\ stable i j) ->
  exists q3 q' s', clear_events (store_fuel (events q2)) q2 = Ok q3 /\
    restore_events (saved (a_evs s) (members (a_bins s))) (q3 ⟨ _curTick := _curTick q ⟩) = Ok q' /\ good q' s' /\
    a_bins s' = live (a_evs s) (a_bins s) /\ a_tick s' = a_tick s.
Proof.
  intros Hg Hg2 Hkeep. destruct (save_events_spec _ q2 s2 [] Hg2 (good_fuel _ _ Hg2)) as (q3 & s3 & E3 & Hg3 & He3 & Hb3 & _).
  pose proof Hg as [[Hl Hok] [_ Hf] _]. rewrite (lk_tick _ _ _ Hl). pose proof (good_tick q3 s3 (a_tick s) Hg3 Hb3) as Hg4.
  assert (forall a i, a_evs s !! a = Some i -> isManaged i = false -> exists j, a_evs s3 !! a = Some j /\ stable i j) as Hkeep3.
  { intros a i Hi Hm. destruct (Hkeep a i Hi Hm) as (j & Hj & Hs). destruct (ev_kept _ _ He3 a j Hj) as (j3 & Hj3 & Hs3).
    - by rewrite (stable_managed i j Hs).
    - exists j3. split; [done | by etrans]. }
  destruct (restore_spec (reverse (saved (a_evs s) (members (a_bins s)))) _ _ Hg4) as (q' & s' & E' & Hg' & Ht' & Hb').
  { rewrite fmap_reverse, reverse_Permutation. apply saved_nodup. pose proof (ao_nodup _ _ Hok) as (Hnd & _ & _)%NoDup_app. done. }
  { intros a t Hat. apply elem_of_reverse, saved_in in Hat as (i & Ha & Hi & Hm & ->). destruct (Hkeep3 a i Hi Hm) as (j & Hj & Hs).
    exists j. cbn [setf a_evs a_bins a_tick]. rewrite Hb3. split_and!; [done | by rewrite (stable_managed i j Hs) | apply not_elem_of_nil | by apply (Hf a)]. }
  exists q3, q', s'. split_and!; [by eapply clear_events_save | exact E' | done | | done]. rewrite Hb'. cbn [setf a_evs a_bins]. rewrite Hb3.
  rewrite foldl_reverse. apply restore_live; [apply (lk_wf _ _ _ Hl) |].
  intros k l a Hin Ha. destruct (wf_keys _ _ _ (lk_wf _ _ _ Hl) k l a Hin Ha) as (e & He & Hk). exists (ev e).
  assert (a_evs s !! a = Some (ev e)) as Hea by (by rewrite <- (lk_evs _ _ _ Hl), lookup_fmap, He). split_and!; [done | done |].
  intros Hm. destruct (Hkeep3 a _ Hea Hm) as (j & Hj & Hp & _). unfold prio. by rewrite Hj.
Qed.
End Restore.

(** ** Sequencers of the recorder *)

(** Every controller gets a sequencer if one of them has one: its own, if it
    has one; otherwise the assertion fails. *)
Theorem sequencer_map_total cntrls :
  (Forall (fun s => s = None) cntrls /\ sequencer_map cntrls = Err EAssert) \/
  exists first l, sequencer_map cntrls = Ok l /\ length l = length cntrls /\ Some first ∈ cntrls /\
    forall c s, cntrls !! c = Some s -> l !! c = Some (Some (default first s)).
Proof.
  unfold sequencer_map. set (f := fun acc s => match acc with None => s | Some _ => acc end).
  assert (forall l p, foldl f (Some p) l = Some p) as Hsome by (induction l; naive_solver).
  assert (match foldl f None cntrls with None => Forall (fun s => s = None) cntrls | Some p => Some p ∈ cntrls end) as H.
  { induction cntrls as [|[p|] l IH]; cbn [foldl f]; [done | rewrite Hsome; left |]. destruct (foldl f None l); [by right | by constructor]. }
  destruct (foldl f None cntrls) as [p|]; [right | by left]. cbn [negb bool_decide decide cassert].
  exists p. eexists. split_and!; [reflexivity | apply length_fmap | done |]. intros c s Hc. rewrite list_lookup_fmap, Hc. by destruct s.
Qed.

(** C32. [memWriteback] puts the event queue back as it was.  In every state a
    simulation reaches, saving the events and scheduling the flush succeeds; and
    whatever the flush does to the queue, if it ends (and the caches could be
    recorded) [memWriteback] succeeds, the current tick is the old one, and the
    queue holds exactly the events it held before that do not delete
    themselves, at their old times and priorities and in their old order of
    service, within each bin too. *)
Theorem writeback_restores_queue this handlers global_exit limit block_size recordCacheTrace fuel store ops q ruby y y1 :
  fresh_store store -> (forall a e, store !! a = Some e -> initialized (ev e) = true) ->
  foldM (sim_step this false handlers) ops (EventQueue_ctor this store) = Ok q -> events q !! ruby = None ->
  (y1 ← makeCacheRecorder block_size (y ⟨ m_cooldown_enabled := true ⟩) None 0 block_size; record_caches recordCacheTrace y1) = Ok y1 ->
  exists q1, (x ← save_events (store_fuel (events q)) q []; enqueueRubyEvent x.1 ruby (_curTick x.1)) = Ok q1 /\
    forall q2, simulate (process this false handlers) global_exit limit fuel q1 MaxTick = Ok q2 ->
    exists q' s s', memWriteback (process this false handlers) global_exit limit block_size recordCacheTrace fuel y q ruby =
        Ok (y1 ⟨ m_cooldown_enabled := false ⟩, q') /\
      refines this q s /\ refines this q' s' /\ a_bins s' = live (a_evs s) (a_bins s) /\ _curTick q' = _curTick q.
Proof.
  intros Hst Hin Hops Hr Hy. destruct (good_steps this handlers ops (EventQueue_ctor this store) (a_init store) q) as (s & Hg & _); [| exact Hops |].
  { split; [by apply init_refines | split; [done |]; by intros a i ?%not_elem_of_nil |]. intros a i. cbn [a_init a_evs]. rewrite lookup_fmap.
    destruct (store !! a) as [e|] eqn:E; [| done]. intros [= <-]. by eapply Hin. }
  destruct (start_flush this handlers q s ruby Hg Hr) as (q0 & q1 & s1 & E0 & E1 & Hg1 & Hk1). exists q1. rewrite E0. rsimpl. split; [exact E1 |].
  intros q2 H2. destruct (good_simulate this handlers global_exit limit fuel q1 s1 MaxTick q2 Hg1 H2) as (s2 & Hg2 & He2).
  destruct (finish_flush this handlers q s q2 s2 Hg Hg2) as (q3 & q' & s' & E3 & E' & Hg' & Hb' & Ht').
  { intros a i Hi Hm. destruct (Hk1 a i Hi Hm) as (j & Hj & Hs). destruct (ev_kept _ _ He2 a j Hj) as (j2 & Hj2 & Hs2).
    - by rewrite (stable_managed i j Hs).
    - exists j2. split; [done | by etrans]. }
  exists q', s, s'. split_and!; [| apply Hg | apply Hg' | done |].
  - unfold memWriteback, writeback_queue. apply res_bind_Ok_inv in Hy as (y0 & -> & Hy). rsimpl. rewrite Hy. rsimpl. rewrite E0. rsimpl.
    rewrite E1. rsimpl. rewrite H2. rsimpl. rewrite E3. rsimpl. rewrite E'. done.
  - destruct Hg as [[Hl _] _ _], Hg' as [[Hl' _] _ _]. by rewrite (lk_tick _ _ _ Hl), (lk_tick _ _ _ Hl').
Qed.

(** ** A system of three events *)

(** Event 9 is the limit event; the event of the flush, at 50, wakes event 3 at tick 100. *)
Definition ck_store : gmap Z Event :=
  <[1 := new_event 0 0]> (<[2 := new_event 0 0]> (<[3 := new_event 0 0]> (<[4 := new_event 0 Managed]> (<[9 := new_event 100 IsExitEvent]> ∅)))).
Definition ck_handlers (a : Z) : list ev_op := if a =? 50 then [OpSchedule 3 100 false] else [].
Definition ck_ops : list sim_op := Op <$> [OpSchedule 1 10 false; OpSchedule 2 10 false; OpSchedule 3 5 false; OpSchedule 4 10 false].
Definition ck_system : RubyState :=
  {| m_warmup_enabled := false; m_systems_to_warmup := 0; m_cooldown_enabled := false; m_abs_cntrl_vec := [None; Some 7]; m_cache_recorder := None |}.

Lemma ck_store_forall (P : Event -> Prop) :
  P (new_event 0 0) -> P (new_event 0 Managed) -> P (new_event 100 IsExitEvent) -> forall a e, ck_store !! a = Some e -> P e.
Proof.
  intros H0 H1 H2 a e. unfold ck_store. do 5 (intros [[_ <-]|[_ H]]%lookup_insert_Some; [done | revert H]). by rewrite lookup_empty.
Qed.

Definition ck_run (ops : list sim_op) : res EventQueue := foldM (sim_step 0 false ck_handlers) ops (EventQueue_ctor 0 ck_store).
Definition ck_writeback (q : EventQueue) : res (RubyState * EventQueue) :=
  memWriteback (process 0 false ck_handlers) (fun a => a =? 9) 9 64 (fun _ r => Ok r) 5 ck_system q 50.

(** The order in which the next [n] events are served, with their times. *)
Fixpoint served (n : nat) (q : EventQueue) : res (list (Z * Z)) :=
  match n with
  | O => Ok []
  | S n => match head q with
           | None => Ok []
           | Some a => x ← serviceOne (fun _ q => Ok q) q; l ← served n x.1; Ok ((a, _curTick x.1) :: l)
           end
  end.

(** The last event scheduled for a tick is served first, before and after; event 4 deletes itself. *)
Example writeback_order :
  (q ← ck_run ck_ops; served 5 q) = Ok [(3, 5); (4, 10); (2, 10); (1, 10)] /\
  (q ← ck_run ck_ops; x ← ck_writeback q; served 5 x.2) = Ok [(3, 5); (2, 10); (1, 10)].
Proof. split; vm_compute; reflexivity. Qed.

Lemma writeback_restores_queue_witness :
  exists q q' y' s s', ck_run ck_ops = Ok q /\ ck_writeback q = Ok (y', q') /\ refines 0 q s /\ refines 0 q' s' /\
    a_bins s' = live (a_evs s) (a_bins s) /\ _curTick q' = _curTick q.
Proof.
  destruct (ck_run ck_ops) as [q|] eqn:Eq; [| vm_compute in Eq; discriminate].
  assert (events q !! 50 = None) as Hr by (vm_compute in Eq; injection Eq as <-; vm_compute; reflexivity).
  destruct (y1 ← makeCacheRecorder 64 (ck_system ⟨ m_cooldown_enabled := true ⟩) None 0 64; record_caches (fun _ r => Ok r) y1) as [y1|] eqn:Ey;
    [| vm_compute in Ey; discriminate].
  destruct (writeback_restores_queue 0 ck_handlers (fun a => a =? 9) 9 64 (fun _ r => Ok r) 5 ck_store ck_ops q 50 ck_system y1) as (q1 & E1 & H);
    [exact (ck_store_forall (fun e => scheduled (ev e) = false) eq_refl eq_refl eq_refl) |
     exact (ck_store_forall (fun e => initialized (ev e) = true) eq_refl eq_refl eq_refl) | exact Eq | exact Hr | exact Ey |].
  destruct (simulate (process 0 false ck_handlers) (fun a => a =? 9) 9 5 q1 MaxTick) as [q2|] eqn:E2.
  - destruct (H q2 eq_refl) as (q' & s & s' & Hw & Hs). exists q, q', (y1 ⟨ m_cooldown_enabled := false ⟩), s, s'. split; [reflexivity |]. split; [exact Hw | exact Hs].
  - exfalso. vm_compute in Eq. injection Eq as <-. vm_compute in E1. injection E1 as <-. vm_compute in E2. discriminate.
Defined.

(** An event that was squashed is served after a write-back: [deschedule] clears the mark. *)
Example writeback_revives_squashed :
  (q ← ck_run (ck_ops ++ [Op (OpSquash 3)]); e ← deref (events q) 3; x ← ck_writeback q; e' ← deref (events x.2) 3;
   Ok (squashed (ev e), squashed (ev e'), scheduled (ev e'))) = Ok (true, false, true).
Proof. vm_compute. reflexivity. Qed.

(** [startup] hides the queue without taking the events off: an object that
    schedules again an event it had scheduled before the warm-up stops the simulation. *)
Example startup_hides_scheduled :
  (q ← ck_run ck_ops; RubySystem_startup (process 0 false ck_handlers) (fun a => a =? 9) 9 5 (ck_system ⟨ m_warmup_enabled := true ⟩) q 50) = Err EAssert.
Proof. vm_compute. reflexivity. Qed.
